(* ===== verification/_CoqProject ===== *)
-Q . S2P
Prelude.v
Bits.v
Links.v
Pmm.v
PmmSpec.v
Pages.v
Vmm.v
VmmSpec.v
VmmClone.v
VmmTheorems.v
Shm.v
ShmSpec.v
Sched.v
SchedSpec.v
CString.v
CStringSpec.v
Heap.v
HeapSpec.v
HeapAlloc.v
HeapTheorems.v
PageCache.v
PageCacheLru.v
PageCacheSpec.v
PageCacheTheorems.v
PageCacheWrite.v
Kheap.v
Vfs.v
VfsSpec.v
Ramfs.v
RamfsSpec.v
RamfsCreate.v
RamfsTheorems.v
RamfsFiles.v
Block.v
Fat32.v
Fat32Spec.v
Fat32Files.v
Fat32Write.v
Fat32Dir.v
VfsFat.v
Fat32Theorems.v
PageCacheFat.v
Fat32Names.v
Fat32Create.v
Fat32Mkfs.v
Partition.v
PartitionSpec.v
Printf.v
Blocking.v
Eventfd.v
Ring.v
Pipe.v
PipeSpec.v
Fips180.v
Sha256.v
Sha256Spec.v
User.v
UserSpec.v
Fd.v
FdSpec.v
FdRefine.v
AfUnix.v
AfUnixSpec.v
Pty.v
PtySpec.v
PtyTheorems.v
PtyInv.v
Net.v
SockRx.v
Tcp.v
Udp.v
Socket.v
NetDriver.v
NetSpec.v
UdpSpec.v
DnsSpec.v
Window.v
TcpRx.v
TcpTx.v
