(* ===== verification/Prelude.v ===== *)
(** * EquantOS kernel: verification library

    EquantOS is an x86-64 kernel in C.  This library models the parts of
    [src/src/kernel] and [src/src/libs] that keep the state every program
    depends on (memory, processes, files, inter-process communication, the
    network) and proves what each promises to the others.

    ** How code is modelled

    A C function is a definition of the same name.  Integers are [Z] with the
    wrap-around of their width written out ([u8] to [u64], [i32], [i64]
    below).  Functions that touch state run in the monad [M] over the globals
    of their component; a call returns, panics, faults (NULL or wild pointer,
    index out of range, use after [kfree]) or waits.  Objects reached through
    pointers are records in a map from addresses, so aliasing and dangling
    pointers are visible; where the code packs data by hand (heap pages,
    packets, C strings) the model is the bytes.  System calls run with
    interrupts masked and one processor, so a call is atomic between its
    calls of [sched_yield]; blocking calls are cut there, and the theorems
    about them range over all interleavings of the pieces.  [wp c s Q] says
    that [c] from [s] returns normally with a result and state in [Q]; a
    theorem stated with it includes that the code terminates and does not
    fault.

    Loops that are not structural take fuel and yield [Wait] without it; the
    callers supply an amount derived from the state (the number of objects
    of a heap for a list walk, the bytes of memory for a string, the length
    of a transfer for a copy loop), and since [wp] excludes [Wait] each
    theorem shows that the amount is enough.

    ** Parts and files

    Memory.
    - [Pmm] is [core/mem/pmm.c], the buddy allocator over an array of page
      descriptors; [PmmSpec] ties descriptors, free lists and counters to a
      partition of memory into blocks: allocation hands out one aligned free
      block, freeing returns exactly its pages, [pmm_init] establishes it
      all from the memory map, and the guard against double frees misses
      merged blocks.
    - [Pages] is the interface the other parts see ([PageOps], [PageLaws]: a
      set of free pages and a map of held blocks), with the buddy allocator
      as its instance.
    - [Vmm] is [core/mem/vmm.c], four-level page tables in physical frames;
      [VmmSpec], [VmmClone] and [VmmTheorems] compare mapping, protection,
      copy on write, cloning and teardown with the address translation of
      the processor.
    - [Heap] is [core/mem/memory.c], slabs and large blocks at byte level;
      [HeapSpec], [HeapAlloc] and [HeapTheorems] show that it refines a map
      from block addresses to byte strings, when it returns NULL, and that
      the size computation overflows at the top of the range.

    Processes.
    - [Sched] is [proc/sched.c]; [SchedSpec] shows that run queues, bitmap
      and sleep list refine lists by priority and by deadline, that the
      scheduler picks the head of the best queue and rotates it, that timers
      and I/O wake the right tasks, and that a dead task is forgotten
      everywhere.
    - [Blocking] is what blocking code relies on ([SchedOps], [SchedLaws]),
      with [Sched] as its instance.
    - [Fd] is what the system calls of [proc/syscall.c] do to descriptor
      tables and the counts of the nodes in them; [FdSpec] ties the counts to
      the tables of all processes, and [FdRefine] shows that the calls refine
      a machine without counts, in which a node is open as long as a
      descriptor for it is left.
    - [Fips180] is SHA-256 as FIPS 180-4 defines it, on bits and numbers, its
      constants from the roots of the primes.  [Sha256] is the hash inside
      [misc/user.c], and [Sha256Spec] shows that it is the hash of the
      standard for every message in every division into pieces.  [User] is the rest of [misc/user.c], and
      [UserSpec] shows that accounts, passwords and sessions refine a list of
      entries with digests.

    Files.
    - [PageCache] is [fs/pagecache.c] over [Pages] and a file driver
      ([FileOps], [FileLaws]); [PageCacheLru], [PageCacheSpec],
      [PageCacheTheorems] and [PageCacheWrite] show that reads return the
      bytes of the file through every hit, miss, eviction and prefetch, that
      writes reach file and cache alike, and two ways in which they do not:
      an append to an uncached page, and two files with one inode number.
      The cache ignores the results of the driver's calls: bytes and
      agreement are claimed as long as none fails, and for writes the driver
      must have memory and room.  [PageCacheFat] shows that the FAT32 driver
      is such a driver.
    - [Kheap] is the heap as the file systems see it ([KHeap], [KHeapLaws]),
      with the slab heap and a plain map as instances.
    - [Vfs] is [fs/vfs.c] over tables of driver operations; [VfsSpec] shows
      that path resolution is a walk over the components of the path, for
      any drivers whose nodes stand for places, whether lookups return nodes
      that exist ([Ramfs]) or allocate a new one each time ([VfsFat], the
      lookups of FAT32 over nodes and the kernel heap).
    - [Ramfs] is [fs/ramfs.c]; [RamfsSpec], [RamfsCreate], [RamfsTheorems]
      and [RamfsFiles] show that creation keeps the tree and every path,
      that what is created can be opened and what is written is read back,
      and that a read with an overflowing size leaves the file's buffer.
    - [Block] is what a file system relies on of a disk ([BlockOps],
      [BlockLaws]), with a disk in memory as its instance, and the lemmas on
      byte ranges and little-endian fields.
    - [Fat32] is [fs/fat32.c] without the probing of controllers.
      [Fat32Spec] reads the cluster table off the disk and shows what reading,
      setting and allocating entries do to it; [Fat32Files] and [Fat32Write]
      follow a file along its chain of clusters; [Fat32Dir] and [Fat32Names]
      read directories and the names in them; [Fat32Theorems], [Fat32Create]
      and [Fat32Mkfs] show that writes land where they should and nowhere
      else, that written and created files are found again, that formatting
      yields an empty volume, and where the code departs from that: a read
      past the end, a cluster past the end, entries behind an end mark, a
      table that is too short.
    - [Partition] is [fs/mbr.c], [fs/gpt.c] and [fs/partition.c];
      [PartitionSpec] shows what a scan finds, and that it never protects an
      EFI system partition.

    Inter-process communication.
    - [Ring] is the byte ring shared by pipes, UNIX sockets and terminals.
    - [Pipe] and [PipeSpec] are [proc/pipe.c]: first in first out over every
      interleaving, no lost wake-up, every call returns or blocks, for one
      reader and one writer task; a second reader is left asleep.
    - [AfUnix] and [AfUnixSpec] are [ipc/af_unix.c]: streams, backlog, and
      the dangling peer pointer a close leaves.
    - [Shm] and [ShmSpec] are [ipc/shm.c] over [Vmm] and [Pages].
    - [Eventfd] is [ipc/eventfd.c].
    - [Pty] is [drivers/tty/pty.c]; [PtySpec] reduces its line discipline to
      a function on two queues, [PtyTheorems] follows typed lines and output
      from one end to the other and finds the wake-up a long write loses,
      [PtyInv] is an invariant of every call that raises no signal; what
      [sys_kill_handler] does to the tasks it finds is not modelled.

    Network.
    - [Net] ([net/net.c], [arp.c], [ipv4.c], [icmp.c] and the state of the
      stack), [SockRx] and [Socket] ([net/socket.c]), [Tcp] ([net/tcp.c]),
      [Udp] ([net/udp.c], [dns.c], [dhcp.c]) and [NetDriver] (dispatch and
      [drivers/net/rtl8139.c]).
    - [NetSpec]: byte order and checksum.  [UdpSpec]: a datagram from
      [udp_sendto] on one machine to [udp_recvfrom] on another.  [DnsSpec]:
      names and hostile packets.  [Window], [TcpRx], [TcpTx]: the receive
      side rebuilds the byte stream from segments in any order, the send
      side puts the written stream on the wire, for streams below 2^31
      bytes, the distance the sign comparison of sequence numbers spans.

    Libraries.
    - [CString], [CStringSpec] and [Printf] are [libs/string.c] and
      [libs/stdio.c] over a byte memory.
    - [Bits] and [Links] hold the lemmas on flag words and on intrusive
      doubly linked lists.  This file holds integers, the monad, its [wp]
      rules and tactics, and what lists and maps need.

    ** Parameters

    Code outside the kernel, or a part of it a component only calls, is an
    argument or a class with laws: the page allocator and the scheduler
    above, the file driver below the page cache, the disk below FAT32 and
    the partition scanners, the closing of a node below the descriptors,
    [kmalloc] where only its success or the freshness of its address
    matters, the out-of-memory killer inside [pmm_alloc_pages], the path
    lookup of [connect].  Each class has an instance, and each theorem with
    hypotheses is applied to a concrete state by the lemma of the same name
    with [_witness].

    ** Not modelled

    Drivers that talk to hardware registers (disks, display, sound, USB,
    PCI, serial, timers), processor set-up and the boot sequence: they are
    port and memory-mapped I/O whose effect is outside the sources.  The
    network card is modelled as far as its transmit and receive rings.
    The other on-disk formats (ext2, ISO 9660), the ELF loader,
    [proc/task.c], and the system calls that do not work on descriptors:
    code on top of or below the parts modelled here.  Of modelled files,
    the boot-time readers ([page_cache_prewarm], the population of the RAM
    file system from the CD) and the kernel shell's HTTP client are left
    out, and so are messages to the terminal and the serial line.  The
    ported programs, the C library and headers of the SDK and the boot
    loader are third-party code. *)

From Stdlib Require Export ZArith Lia.
From stdpp Require Export base functions gmap list numbers sets relations.

#[export] Set Warnings "-clear-no-such-hyp".

Open Scope Z_scope.

Declare Scope kernel_scope.
Delimit Scope kernel_scope with kernel.

(** ** Machine integers

    A C object of an unsigned type of width [w] is a [Z] in [0, 2^w); every
    operation that can leave the range is followed by the wrap-around the
    language defines. *)

Definition wrap (w x : Z) : Z := x mod 2 ^ w.

Abbreviation u8 := (wrap 8).
Abbreviation u16 := (wrap 16).
Abbreviation u32 := (wrap 32).
Abbreviation u64 := (wrap 64).

(** Conversion of an unsigned value to the signed type of the same width. *)
Definition sign (w x : Z) : Z := if wrap w x <? 2 ^ (w - 1) then wrap w x else wrap w x - 2 ^ w.

Abbreviation i32 := (sign 32).
Abbreviation i64 := (sign 64).

(** [x & m != 0], the test of a flag word. *)
Definition has (x m : Z) : bool := negb (Z.land x m =? 0).

(** Complement of a flag mask at 64 bits. *)
Definition not64 (x : Z) : Z := Z.lxor x (Z.ones 64).

(** ** Effects

    Kernel code runs in a state monad over the globals of its component.  A
    call ends in one of four ways: it returns, it panics (the [PANIC] macro,
    a halted machine), it faults (a NULL or wild pointer is dereferenced,
    an array is indexed out of range), or it does not return because the
    calling thread waits for another one. *)

Inductive outcome (A : Type) : Type :=
| Ret (a : A)
| Panic
| Fault
| Wait.
Arguments Ret {A} a.
Arguments Panic {A}.
Arguments Fault {A}.
Arguments Wait {A}.

Definition M (S A : Type) : Type := S → outcome (A * S).

Section Monad.
  Context {S : Type}.

#[global] Instance M_ret : MRet (M S) := λ A a s, Ret (a, s).

#[global] Instance M_bind : MBind (M S) := λ A B k m s,
    match m s with
    | Ret (a, s') => k a s'
    | Panic => Panic
    | Fault => Fault
    | Wait => Wait
    end.

Definition get : M S S := λ s, Ret (s, s).

Definition gets {A} (f : S → A) : M S A := λ s, Ret (f s, s).

Definition modify (f : S → S) : M S unit := λ s, Ret (tt, f s).

Definition fault {A} : M S A := λ _, Fault.

Definition panic {A} : M S A := λ _, Panic.

  (** A pointer or array read: [None] is an access outside every object. *)
Definition deref {A} (f : S → option A) : M S A := λ s,
    match f s with Some a => Ret (a, s) | None => Fault end.

  (** Total correctness: from [s] the call returns, in a state and with a
      result that satisfy [Q]. *)
Definition wp {A} (m : M S A) (s : S) (Q : A → S → Prop) : Prop :=
    match m s with Ret (a, s') => Q a s' | _ => False end.

Lemma wp_ret {A} (a : A) s Q : Q a s → wp (mret a) s Q.
Proof. done. Qed.

Lemma wp_bind {A B} (m : M S A) (k : A → M S B) s Q :
    wp m s (λ a s', wp (k a) s' Q) → wp (m ≫= k) s Q.
Proof. unfold wp, mbind, M_bind. by destruct (m s) as [[a s']| | |]. Qed.

Lemma wp_unbind {A B} (m : M S A) (k : A → M S B) s Q :
    wp (m ≫= k) s Q → wp m s (λ a s', wp (k a) s' Q).
Proof. unfold wp, mbind, M_bind. by destruct (m s) as [[a s']| | |]. Qed.

Lemma wp_unassoc {A B C} (m : M S A) (f : A → M S B) (g : B → M S C) s Q :
    wp ((m ≫= f) ≫= g) s Q → wp (m ≫= λ a, f a ≫= g) s Q.
Proof. unfold wp, mbind, M_bind. by destruct (m s) as [[a s']| | |]. Qed.

Lemma wp_mono {A} (m : M S A) s (P Q : A → S → Prop) :
    wp m s P → (∀ a s', P a s' → Q a s') → wp m s Q.
Proof. unfold wp. destruct (m s) as [[a s']| | |]; naive_solver. Qed.

Lemma wp_gets {A} (f : S → A) s Q : Q (f s) s → wp (gets f) s Q.
Proof. done. Qed.

Lemma wp_get s (Q : S → S → Prop) : Q s s → wp get s Q.
Proof. done. Qed.

Lemma wp_modify f s Q : Q tt (f s) → wp (modify f) s Q.
Proof. done. Qed.

Lemma wp_deref {A} (f : S → option A) s a Q : f s = Some a → Q a s → wp (deref f) s Q.
Proof. unfold wp, deref. by intros ->. Qed.

Lemma wp_run {A} (m : M S A) s Q : wp m s Q → ∃ a s', m s = Ret (a, s') ∧ Q a s'.
Proof. unfold wp. destruct (m s) as [[a s']| | |]; naive_solver. Qed.

Lemma run_wp {A} (m : M S A) s a s' (Q : A → S → Prop) : m s = Ret (a, s') → Q a s' → wp m s Q.
Proof. unfold wp. by intros ->. Qed.

Lemma wp_Ret {A} (m : M S A) s a s' (Q : A → S → Prop) : wp m s Q → m s = Ret (a, s') → Q a s'.
Proof. unfold wp. intros HQ E. by rewrite E in HQ. Qed.

Lemma bind_Ret {A B} (m : M S A) (k : A → M S B) s a s' : m s = Ret (a, s') → (m ≫= k) s = k a s'.
Proof. unfold mbind, M_bind. by intros ->. Qed.

Lemma bind_Fault {A B} (m : M S A) (k : A → M S B) s : m s = Fault → (m ≫= k) s = Fault.
Proof. unfold mbind, M_bind. by intros ->. Qed.

(** The state a returning call leaves behind. *)
Definition exec {A} (m : M S A) (s : S) : S := match m s with Ret (_, s') => s' | _ => s end.

Lemma wp_exec {A} (m : M S A) s (P : S → Prop) : wp m s (λ _ s', P s') → P (exec m s).
Proof. unfold wp, exec. by destruct (m s) as [[a s']| | |]. Qed.

End Monad.

Notation "'when' b 'do' m" := (if b then m else mret tt)
  (at level 60, b at level 200, m at level 60) : kernel_scope.
Open Scope kernel_scope.

(** A loop [for (i = 0; i < n; i++) body(i)] with [n] known on entry. *)
Fixpoint for_loop {S} (i : Z) (n : nat) (body : Z → M S unit) : M S unit :=
  match n with
  | O => mret tt
  | Datatypes.S n' => body i;; for_loop (i + 1) n' body
  end.

Lemma wp_for_loop {S} (I : Z → S → Prop) (body : Z → M S unit) n : ∀ i s (Q : unit → S → Prop),
  I i s →
  (∀ j s', i ≤ j < i + Z.of_nat n → I j s' → wp (body j) s' (λ _ s'', I (j + 1) s'')) →
  (∀ s', I (i + Z.of_nat n) s' → Q tt s') →
  wp (for_loop i n body) s Q.
Proof.
  induction n as [|n IH]; intros i s Q HI Hb HQ; simpl.
  - apply wp_ret, HQ. by rewrite Z.add_0_r.
  - apply wp_bind. eapply wp_mono; [apply Hb; [lia|done]|].
    intros [] s' HI'. apply IH; [done|intros; apply Hb; [lia|done]|].
    intros s'' H''. apply HQ. by replace (i + Z.of_nat (Datatypes.S n)) with (i + 1 + Z.of_nat n) by lia.
Qed.

Create HintDb kernel.
#[export] Hint Resolve wp_ret wp_modify wp_gets : kernel.

(** One step of symbolic execution of a monadic body. *)
Ltac wp_step :=
  match goal with
  | |- wp (_ ≫= _) _ _ => apply wp_bind
  | |- wp (mret _) _ _ => apply wp_ret
  | |- wp (modify _) _ _ => apply wp_modify
  | |- wp (gets _) _ _ => apply wp_gets
  | |- wp get _ _ => apply wp_get
  | |- wp (deref _) _ _ => eapply wp_deref; [solve [eauto with kernel]|]
  end; cbv beta.

Ltac wp_steps := repeat wp_step.

(** Run a component's code inside a larger state. *)
Definition lift_l {S W A} (m : M S A) : M (S * W) A := λ '(s, w),
  match m s with
  | Ret (a, s') => Ret (a, (s', w))
  | Panic => Panic
  | Fault => Fault
  | Wait => Wait
  end.

Lemma wp_lift_l {S W A} (m : M S A) s (w : W) (Q : A → S * W → Prop) :
  wp m s (λ a s', Q a (s', w)) → wp (lift_l m) (s, w) Q.
Proof. unfold wp, lift_l. by destruct (m s) as [[a s']| | |]. Qed.

Definition lift_r {S W A} (m : M W A) : M (S * W) A := λ '(s, w),
  match m w with
  | Ret (a, w') => Ret (a, (s, w'))
  | Panic => Panic
  | Fault => Fault
  | Wait => Wait
  end.

Lemma wp_lift_r {S W A} (m : M W A) (s : S) w (Q : A → S * W → Prop) :
  wp m w (λ a w', Q a (s, w')) → wp (lift_r m) (s, w) Q.
Proof. unfold wp, lift_r. by destruct (m w) as [[a w']| | |]. Qed.

(** ** Arithmetic shared by the components *)

Lemma wrap_range w x : 0 ≤ w → 0 ≤ wrap w x < 2 ^ w.
Proof. intros. apply Z.mod_pos_bound. lia. Qed.

Lemma wrap_small w x : 0 ≤ x < 2 ^ w → wrap w x = x.
Proof. apply Z.mod_small. Qed.

Lemma wrap_wrap w x : 0 ≤ w → wrap w (wrap w x) = wrap w x.
Proof. intros. unfold wrap. by rewrite Z.mod_mod by lia. Qed.

Lemma wrap_add_l w x y : wrap w (wrap w x + y) = wrap w (x + y).
Proof. unfold wrap. by rewrite Zplus_mod_idemp_l. Qed.

Lemma wrap_sub_l w x y : wrap w (wrap w x - y) = wrap w (x - y).
Proof. unfold wrap. by rewrite Zminus_mod_idemp_l. Qed.

Lemma land_not64 a b : 0 ≤ a < 2 ^ 64 → Z.land a (not64 b) = Z.ldiff a b.
Proof.
  intros Ha. unfold not64. apply Z.bits_inj'. intros n Hn.
  rewrite Z.land_spec, Z.lxor_spec, Z.ldiff_spec, Z.testbit_ones_nonneg by lia.
  destruct (Z.ltb_spec n 64); [by destruct (Z.testbit a n), (Z.testbit b n)|].
  replace (Z.testbit a n) with false; [done|]. symmetry.
  rewrite <-(Z.mod_small a (2 ^ 64)) by lia. by apply Z.mod_pow2_bits_high.
Qed.

Lemma lxor_1 q : Z.lxor q 1 = if Z.even q then q + 1 else q - 1.
Proof.
  assert (∀ j, Z.lxor (2 * j) 1 = 2 * j + 1) as H.
  { intros j. symmetry. apply Z.add_nocarry_lxor. change 1 with (Z.ones 1) at 1.
    rewrite Z.land_ones by lia. rewrite Z.mul_comm. by apply Z_mod_mult. }
  destruct (Z.even q) eqn:E.
  - apply Z.even_spec in E as [j ->]. apply H.
  - assert (Z.odd q = true) as [j ->]%Z.odd_spec by by rewrite <-Z.negb_even, E.
    rewrite <-H, Z.lxor_assoc, Z.lxor_nilpotent, Z.lxor_0_r. rewrite H. lia.
Qed.

Lemma ldiff_1 q : Z.ldiff q 1 = if Z.even q then q else q - 1.
Proof.
  change 1 with (Z.ones 1) at 1. rewrite Z.ldiff_ones_r, Z.shiftl_mul_pow2, Z.shiftr_div_pow2 by lia.
  pose proof (Z.div_mod q (2 ^ 1) ltac:(lia)). rewrite Zmod_even in H. destruct (Z.even q); lia.
Qed.

(** The sibling of an aligned block of size [2^k]: the other half of the
    enclosing block of size [2^(k+1)]. *)
Lemma lxor_sibling h k : 0 ≤ k → h mod 2 ^ k = 0 →
  Z.lxor h (Z.shiftl 1 k) = if Z.even (h / 2 ^ k) then h + 2 ^ k else h - 2 ^ k.
Proof.
  intros Hk Hh. apply Z.mod_divide in Hh as [q ->]; [|lia].
  rewrite Z.div_mul by lia. rewrite <-Z.shiftl_mul_pow2 by lia.
  rewrite <-Z.shiftl_lxor, lxor_1, !Z.shiftl_mul_pow2 by lia. destruct (Z.even q); lia.
Qed.

Lemma ldiff_parent h k : 0 ≤ k → h mod 2 ^ k = 0 →
  Z.ldiff h (Z.shiftl 1 k) = if Z.even (h / 2 ^ k) then h else h - 2 ^ k.
Proof.
  intros Hk Hh. apply Z.mod_divide in Hh as [q ->]; [|lia].
  rewrite Z.div_mul by lia. rewrite <-Z.shiftl_mul_pow2 by lia.
  rewrite <-Z.shiftl_ldiff, ldiff_1, !Z.shiftl_mul_pow2 by lia. destruct (Z.even q); lia.
Qed.

Lemma pow2_S (k : nat) : 2 ^ Z.of_nat (S k) = 2 * 2 ^ Z.of_nat k.
Proof. by rewrite Nat2Z.inj_succ, Z.pow_succ_r by lia. Qed.

Lemma aligned_even h (k : nat) : h mod 2 ^ Z.of_nat k = 0 →
  Z.even (h / 2 ^ Z.of_nat k) = true → h mod 2 ^ Z.of_nat (S k) = 0.
Proof.
  intros Hh He. apply Z.mod_divide in Hh as [q ->]; [|lia].
  rewrite Z.div_mul in He by lia. apply Z.even_spec in He as [j ->].
  rewrite pow2_S. replace (2 * j * _) with (j * (2 * 2 ^ Z.of_nat k)) by lia. apply Z_mod_mult.
Qed.

Lemma aligned_odd h (k : nat) : h mod 2 ^ Z.of_nat k = 0 →
  Z.even (h / 2 ^ Z.of_nat k) = false → (h - 2 ^ Z.of_nat k) mod 2 ^ Z.of_nat (S k) = 0.
Proof.
  intros Hh He. apply Z.mod_divide in Hh as [q ->]; [|lia]. rewrite Z.div_mul in He by lia.
  assert (Z.odd q = true) as [j ->]%Z.odd_spec by by rewrite <-Z.negb_even, He.
  rewrite pow2_S. replace (_ - _) with (j * (2 * 2 ^ Z.of_nat k)) by lia. apply Z_mod_mult.
Qed.

Lemma aligned_weaken h (k : nat) : h mod 2 ^ Z.of_nat (S k) = 0 → h mod 2 ^ Z.of_nat k = 0.
Proof.
  intros Hh. apply Z.mod_divide in Hh as [q ->]; [|lia]. rewrite pow2_S.
  replace (q * _) with (q * 2 * 2 ^ Z.of_nat k) by lia. apply Z_mod_mult.
Qed.

Lemma aligned_weaken_add h (k : nat) : h mod 2 ^ Z.of_nat (S k) = 0 →
  (h + 2 ^ Z.of_nat k) mod 2 ^ Z.of_nat k = 0.
Proof.
  intros Hh%aligned_weaken. rewrite <-Z.add_mod_idemp_r, Z_mod_same_full, Z.add_0_r by lia. done.
Qed.

Lemma list_alter_as_insert {A} (f : A → A) (l : list A) k a :
  l !! k = Some a → alter f k l = <[k := f a]> l.
Proof.
  intros Ha. apply list_eq. intros i. destruct (decide (i = k)) as [->|].
  - rewrite list_lookup_alter_eq, Ha, list_lookup_insert_eq by (by eapply lookup_lt_Some). done.
  - by rewrite list_lookup_alter_ne, list_lookup_insert_ne.
Qed.

Lemma alter_as_insert {A} (f : A → A) (m : gmap Z A) k a : m !! k = Some a → alter f k m = <[k := f a]> m.
Proof.
  intros Ha. apply map_eq. intros i. destruct (decide (i = k)) as [->|].
  - by rewrite lookup_alter_eq, Ha, lookup_insert_eq.
  - by rewrite lookup_alter_ne, lookup_insert_ne.
Qed.
