(* ===== verification/Bits.v ===== *)
(** * Flag words and masks

    Page table entries, file modes and protocol headers pack several fields
    into a word; these lemmas read a field back. *)
From S2P Require Import Prelude.

(** A word of 64 bits. *)
Definition word (x : Z) : Prop := 0 ≤ x < 2 ^ 64.

Lemma has_pow2 x k : 0 ≤ k → has x (2 ^ k) = Z.testbit x k.
Proof.
  intros Hk. unfold has. destruct (Z.testbit x k) eqn:E.
  - destruct (Z.eqb_spec (Z.land x (2 ^ k)) 0) as [H0|]; [|done]. exfalso.
    assert (Z.testbit (Z.land x (2 ^ k)) k = true) as Hb by (rewrite Z.land_spec, E, Z.pow2_bits_true; [done|lia]).
    by rewrite H0, Z.bits_0 in Hb.
  - replace (Z.land x (2 ^ k)) with 0; [done|]. symmetry. apply Z.bits_inj'. intros n Hn.
    rewrite Z.land_spec, Z.bits_0, Z.pow2_bits_eqb by lia. destruct (Z.eqb_spec k n) as [->|]; [by rewrite E|by rewrite andb_false_r].
Qed.

Lemma testbit_small x w n : 0 ≤ x < 2 ^ w → w ≤ n → Z.testbit x n = false.
Proof.
  intros Hx Hn. destruct (Z.leb_spec 0 w); [|rewrite Z.pow_neg_r in Hx by lia; lia].
  rewrite <-(Z.mod_small x (2 ^ w)) by lia. by apply Z.mod_pow2_bits_high.
Qed.

Lemma bits_range x w : 0 ≤ w → 0 ≤ x → (∀ n, w ≤ n → Z.testbit x n = false) → x < 2 ^ w.
Proof.
  intros Hw Hx Hb. replace x with (x mod 2 ^ w); [apply Z.mod_pos_bound; lia|]. apply Z.bits_inj'. intros n Hn.
  destruct (Z.ltb_spec n w).
  - by rewrite Z.mod_pow2_bits_low.
  - rewrite Z.mod_pow2_bits_high, Hb by lia. done.
Qed.

Lemma low_bits_zero x k n : 0 ≤ k → x mod 2 ^ k = 0 → n < k → Z.testbit x n = false.
Proof.
  intros Hk Hx Hn. destruct (Z.ltb_spec n 0); [by apply Z.testbit_neg_r|].
  rewrite <-(Z.mod_pow2_bits_low x k n) by lia. by rewrite Hx, Z.bits_0.
Qed.

Lemma word_lor a b : word a → word b → word (Z.lor a b).
Proof.
  intros Ha Hb. assert (0 ≤ Z.lor a b) by (apply Z.lor_nonneg; split; [apply Ha|apply Hb]). split; [done|].
  apply bits_range; [lia|done|]. intros n Hn. rewrite Z.lor_spec, (testbit_small a 64), (testbit_small b 64); done.
Qed.

Lemma word_land a b : word a → word (Z.land a b).
Proof.
  intros Ha. assert (0 ≤ Z.land a b) by (apply Z.land_nonneg; left; apply Ha). split; [done|].
  apply bits_range; [lia|done|]. intros n Hn. rewrite Z.land_spec, (testbit_small a 64); done.
Qed.

Lemma word_pow2 k : 0 ≤ k < 64 → word (2 ^ k).
Proof. intros. split; [lia|]. apply Z.pow_lt_mono_r; lia. Qed.

#[export] Hint Resolve word_lor word_land word_pow2 : kernel.

(** The bits [n] of [mask a b] are those with [a ≤ n < b]. *)
Definition mask (a b : Z) : Z := Z.ones b - Z.ones a.

Lemma testbit_mask a b n : 0 ≤ a ≤ b → 0 ≤ n → Z.testbit (mask a b) n = (a <=? n) && (n <? b).
Proof.
  intros Hab Hn. unfold mask. replace (Z.ones b - Z.ones a) with (Z.shiftl (Z.ones (b - a)) a).
  - destruct (Z.leb_spec a n); simpl.
    + rewrite Z.shiftl_spec, Z.testbit_ones_nonneg by lia. destruct (Z.ltb_spec (n - a) (b - a)), (Z.ltb_spec n b); (done || lia).
    + by rewrite Z.shiftl_spec_low.
  - rewrite Z.shiftl_mul_pow2, !Z.ones_equiv by lia. rewrite Z.mul_pred_l, <-Z.pow_add_r by lia.
    replace (b - a + a) with b by lia. lia.
Qed.

Lemma testbit_not64 m n : 0 ≤ n → Z.testbit (not64 m) n = xorb (Z.testbit m n) (n <? 64).
Proof. intros. unfold not64. by rewrite Z.lxor_spec, Z.testbit_ones_nonneg by lia. Qed.

(** Clearing the low bits, and the field of [x] from bit [k] on. *)
Lemma shiftr_clear x c k : 0 ≤ c ≤ k → word x → Z.shiftr (Z.land x (not64 (Z.ones c))) k = Z.shiftr x k.
Proof.
  intros Hc Hx. apply Z.bits_inj'. intros n Hn. rewrite !Z.shiftr_spec, Z.land_spec, testbit_not64, Z.testbit_ones_nonneg by lia.
  destruct (Z.ltb_spec (n + k) c); [lia|]. destruct (Z.ltb_spec (n + k) 64); [by rewrite andb_true_r|].
  by rewrite (testbit_small x 64).
Qed.

Lemma clear_low x c : 0 ≤ c ≤ 64 → word x → Z.land x (not64 (Z.ones c)) = x - x mod 2 ^ c.
Proof.
  intros Hc Hx. rewrite land_not64 by done. rewrite Z.ldiff_ones_r, Z.shiftl_mul_pow2, Z.shiftr_div_pow2 by lia.
  pose proof (Z.div_mod x (2 ^ c) ltac:(lia)). lia.
Qed.

Lemma shiftr_mask x k w : 0 ≤ k → 0 ≤ w → Z.land (Z.shiftr x k) (Z.ones w) = (x / 2 ^ k) mod 2 ^ w.
Proof. intros. by rewrite Z.land_ones, Z.shiftr_div_pow2 by lia. Qed.
