(* ===== verification/Links.v ===== *)
(** * Intrusive doubly linked lists

    The buddy allocator ([pmm.c]), the run queues ([sched.c]) and the LRU list
    of the page cache ([pagecache.c]) link the objects they manage through two
    pointer fields.  A heap of such objects is a [gmap Z A] from addresses (or
    array indices) to records; NULL is [None].  The class [Linked] names the
    two fields; the lemmas below relate the pointer updates the C code does to
    a mathematical list, once for the three users. *)
From S2P Require Import Prelude.

Class Linked (A : Type) := {
  lnext : A → option Z;
  lprev : A → option Z;
  set_lnext : option Z → A → A;
  set_lprev : option Z → A → A;
}.

Class LinkedLaws (A : Type) `{Linked A} := {
  lnext_set_lnext v a : lnext (set_lnext v a) = v;
  lprev_set_lprev v a : lprev (set_lprev v a) = v;
  lnext_set_lprev v a : lnext (set_lprev v a) = lnext a;
  lprev_set_lnext v a : lprev (set_lnext v a) = lprev a;
}.

(** The pointer to the first element of [l], or [n] when [l] is empty. *)
Definition first_or (l : list Z) (n : option Z) : option Z :=
  match l with [] => n | x :: _ => Some x end.

Definition last_or (l : list Z) (p : option Z) : option Z :=
  match last l with Some x => Some x | None => p end.

Section Segments.
  Context `{LinkedLaws A}.
  Implicit Types (m : gmap Z A) (l : list Z) (p n : option Z).

(** [dseg m p l n]: the objects of [l] are chained in this order, the first
    one's [prev] is [p], the last one's [next] is [n]. *)
Fixpoint dseg m p l n : Prop :=
  match l with
  | [] => True
  | x :: l' => (∃ a, m !! x = Some a ∧ lprev a = p ∧ lnext a = first_or l' n) ∧
               dseg m (Some x) l' n
  end.

Lemma last_or_cons x l p : last_or (x :: l) p = last_or l (Some x).
Proof.
  unfold last_or. destruct l as [|y l]; [done|]. rewrite last_cons_cons.
  by destruct (last (y :: l)) eqn:E; [|apply last_None in E].
Qed.

Lemma last_or_snoc l x p : last_or (l ++ [x]) p = Some x.
Proof. unfold last_or. by rewrite last_snoc. Qed.

Lemma first_or_app l1 l2 n : first_or (l1 ++ l2) n = first_or l1 (first_or l2 n).
Proof. by destruct l1. Qed.

Lemma dseg_app m l1 : ∀ p l2 n,
  dseg m p (l1 ++ l2) n ↔ dseg m p l1 (first_or l2 n) ∧ dseg m (last_or l1 p) l2 n.
Proof.
  induction l1 as [|x l1 IH]; intros p l2 n; simpl; [by split; [|intros []]|].
  rewrite IH, first_or_app, last_or_cons. tauto.
Qed.

Lemma dseg_ext m m' l : ∀ p n,
  (∀ x, x ∈ l → m' !! x = m !! x) → dseg m p l n → dseg m' p l n.
Proof.
  induction l as [|x l IH]; intros p n Hm; [done|]. simpl. intros [(a & ? & ? & ?) Hl]. split.
  - exists a. rewrite Hm by (left). done.
  - apply IH; [|done]. intros y Hy. apply Hm. by right.
Qed.

(** Fields other than the links can change freely. *)
Lemma dseg_alter_frame m f x l : (∀ a, lnext (f a) = lnext a ∧ lprev (f a) = lprev a) →
  ∀ p n, dseg m p l n → dseg (alter f x m) p l n.
Proof.
  intros Hf. induction l as [|y l IH]; intros p n; [done|]. simpl.
  intros [(a & Ha & <- & Hn) Hl]. split; [|by apply IH].
  destruct (decide (y = x)) as [->|Hne].
  - exists (f a). rewrite lookup_alter_eq, Ha. destruct (Hf a) as [-> ->]. done.
  - exists a. by rewrite lookup_alter_ne.
Qed.

Lemma dseg_insert_fresh m x a l p n : x ∉ l → dseg m p l n → dseg (<[x:=a]> m) p l n.
Proof.
  intros Hx. apply dseg_ext. intros y Hy. rewrite lookup_insert_ne; [done|]. by intros ->.
Qed.

Lemma dseg_alter_fresh m x f l p n : x ∉ l → dseg m p l n → dseg (alter f x m) p l n.
Proof.
  intros Hx. apply dseg_ext. intros y Hy. rewrite lookup_alter_ne; [done|]. by intros ->.
Qed.

(** Writing the [next] field of the last element, [prev] of the first. *)
Lemma dseg_set_last m p l x n n' : x ∉ l →
  dseg m p (l ++ [x]) n → dseg (alter (set_lnext n') x m) p (l ++ [x]) n'.
Proof.
  rewrite !dseg_app. simpl. intros Hx [Hl [(a & Ha & Hp & _) _]]. split.
  - by apply dseg_alter_fresh.
  - split; [|done]. exists (set_lnext n' a). rewrite lookup_alter_eq, Ha.
    by rewrite lprev_set_lnext, lnext_set_lnext.
Qed.

Lemma dseg_set_first m p p' l x n : x ∉ l →
  dseg m p (x :: l) n → dseg (alter (set_lprev p') x m) p' (x :: l) n.
Proof.
  simpl. intros Hx [(a & Ha & _ & Hn) Hl]. split.
  - exists (set_lprev p' a). rewrite lookup_alter_eq, Ha. by rewrite lprev_set_lprev, lnext_set_lprev.
  - by apply dseg_alter_fresh.
Qed.

(** A whole list: NULL at both ends and no element twice. *)
Definition dlist m l : Prop := dseg m None l None ∧ NoDup l.

Lemma dlist_lookup m l1 x l2 : dlist m (l1 ++ x :: l2) →
  ∃ a, m !! x = Some a ∧ lprev a = last l1 ∧ lnext a = head l2.
Proof.
  intros [Hd _]. apply dseg_app in Hd as [_ [(a & Ha & Hp & Hn) _]].
  exists a. rewrite Hp, Hn. unfold last_or. destruct (last l1), l2; done.
Qed.

Lemma dlist_elem m l x : dlist m l → x ∈ l → ∃ a, m !! x = Some a.
Proof. intros Hd (l1 & l2 & ->)%list_elem_of_split. apply dlist_lookup in Hd as (a & ? & _). eauto. Qed.

Lemma dlist_ext m m' l : (∀ x, x ∈ l → m' !! x = m !! x) → dlist m l → dlist m' l.
Proof. intros Hm [Hd Hn]. split; [|done]. by eapply dseg_ext. Qed.

(** Splice [x] out: the neighbours are linked to each other. *)
Definition unlink (x : Z) (a : A) m : gmap Z A :=
  let m1 := match lprev a with Some q => alter (set_lnext (lnext a)) q m | None => m end in
  match lnext a with Some q => alter (set_lprev (lprev a)) q m1 | None => m1 end.

Lemma unlink_frame x a m l1 l2 y : dlist m (l1 ++ x :: l2) → m !! x = Some a →
  y ∉ l1 ++ l2 → unlink x a m !! y = m !! y.
Proof.
  intros Hd Ha Hy. destruct (dlist_lookup _ _ _ _ Hd) as (a' & ? & Hp & Hn).
  simplify_eq. unfold unlink. rewrite Hp, Hn.
  assert (∀ q, last l1 = Some q → q ≠ y) as H1.
  { intros q Hq ->. apply Hy, elem_of_app. left. by apply last_Some_elem_of. }
  assert (∀ q, head l2 = Some q → q ≠ y) as H2.
  { intros q Hq ->. apply Hy, elem_of_app. right. by apply head_Some_elem_of. }
  destruct (last l1) eqn:E1, (head l2) eqn:E2;
    rewrite ?lookup_alter_ne by eauto; done.
Qed.

Lemma dlist_unlink x a m l1 l2 : dlist m (l1 ++ x :: l2) → m !! x = Some a →
  dlist (unlink x a m) (l1 ++ l2).
Proof.
  intros Hd Ha. destruct (dlist_lookup _ _ _ _ Hd) as (a' & ? & Hp & Hn). simplify_eq.
  destruct Hd as [Hd HN]. apply NoDup_app in HN as (HN1 & HN12 & [Hx2 HN2]%NoDup_cons).
  apply dseg_app in Hd as [Hd1 [_ Hd2]]. simpl in Hd1.
  assert (∀ y, y ∈ l1 → y ∉ l2) as Hdis.
  { intros y ?. specialize (HN12 y). set_solver. }
  split; [|by apply NoDup_app].
  unfold unlink. rewrite Hp, Hn. apply dseg_app. clear Ha Hp Hn.
  destruct l1 as [|y l1 _] using rev_ind; destruct l2 as [|z l2]; simpl; try done.
  - split; [done|]. apply NoDup_cons in HN2 as [??]. by eapply (dseg_set_first _ _ _ _ z).
  - rewrite last_snoc. apply NoDup_app in HN1 as (?&?&?).
    split; [|done]. eapply dseg_set_last; [set_solver|done].
  - rewrite last_snoc, last_or_snoc. apply NoDup_app in HN1 as (?&Hy&?).
    apply NoDup_cons in HN2 as [??]. split.
    + apply dseg_alter_fresh; [intros ?; eapply Hdis; [done|left]|].
      eapply dseg_set_last; [set_solver|done].
    + eapply (dseg_set_first _ _ _ _ z); [done|].
      apply dseg_alter_fresh; [|done]. apply Hdis. set_solver.
Qed.

(** Push at the front: [x] becomes the head, the old head points back at it. *)
Lemma dlist_push_front m m' x l a : dlist m l → x ∉ l →
  m' !! x = Some a → lprev a = None → lnext a = head l →
  (∀ y, y ∈ l → m' !! y = (if decide (head l = Some y) then set_lprev (Some x) <$> m !! y else m !! y)) →
  dlist m' (x :: l).
Proof.
  intros [Hd HN] Hx Ha Hp Hn Hm. split; [|by constructor].
  destruct l as [|y l]; simpl in *.
  - split; [naive_solver|done].
  - split; [exists a; naive_solver|]. apply NoDup_cons in HN as [Hy HN].
    destruct Hd as [(b & Hb & _ & Hbn) Hd]. split.
    + exists (set_lprev (Some x) b). rewrite Hm by left. rewrite decide_True by done.
      rewrite Hb. simpl. by rewrite lprev_set_lprev, lnext_set_lprev.
    + eapply dseg_ext; [|done]. intros z Hz. rewrite Hm by by right.
      rewrite decide_False; [done|]. intros [= ->]. done.
Qed.

(** Push at the back: the old tail points forward at [x]. *)
Lemma dlist_push_back m m' x l a : dlist m l → x ∉ l →
  m' !! x = Some a → lprev a = last l → lnext a = None →
  (∀ y, y ∈ l → m' !! y = (if decide (last l = Some y) then set_lnext (Some x) <$> m !! y else m !! y)) →
  dlist m' (l ++ [x]).
Proof.
  intros [Hd HN] Hx Ha Hp Hn Hm.
  split; [|apply NoDup_app; split_and!; [done|set_solver|by apply NoDup_singleton]].
  apply dseg_app. simpl. split.
  - destruct l as [|y l _] using rev_ind; [done|].
    apply NoDup_app in HN as (HN & Hy & _).
    eapply dseg_ext; [|eapply (dseg_set_last m); [|exact Hd]]; [|set_solver].
    intros z Hz. rewrite Hm by done. rewrite last_snoc.
    destruct (decide (z = y)) as [->|Hne].
    + by rewrite decide_True, lookup_alter_eq.
    + rewrite decide_False by congruence. by rewrite lookup_alter_ne.
  - split; [|done]. exists a. split_and!; [done| |done].
    rewrite Hp. unfold last_or. by destruct (last l).
Qed.

End Segments.

Arguments dseg {A _} m p l n.
Arguments dlist {A _} m l.
Arguments unlink {A _} x a m.
