(* ===== verification/PmmSpec.v ===== *)
(** * Correctness of the buddy allocator

    The invariant that ties page descriptors, free lists and counters to a
    partition of physical memory into blocks, and the theorems about
    [pmm_alloc_pages], [pmm_free_pages] and [pmm_init]. *)
From S2P Require Import Prelude Links Pmm.
Import Pmm.

Module PmmSpec.

(** ** The invariant

    Memory is partitioned into blocks: [B] maps the first frame of a block to
    its order and to whether it is free; [L k] is the free list of order [k].
    Inside an operation the descriptors of the frames in [X] may disagree with
    [B], and [d] pages are taken off the lists but not off the counter yet. *)

Abbreviation blocks := (gmap Z (nat * bool)).

Definition size (k : nat) : Z := 2 ^ Z.of_nat k.

Definition covered (B : blocks) (p : Z) : Prop :=
  ∃ h k f, B !! h = Some (k, f) ∧ h ≤ p < h + size k.

(** The frames a client may still be handed. *)
Definition page_free (B : blocks) (p : Z) : Prop :=
  ∃ h k, B !! h = Some (k, true) ∧ h ≤ p < h + size k.

Fixpoint sum_orders (n : nat) (L : nat → list Z) : Z :=
  match n with
  | O => 0
  | S n' => sum_orders n' L + size n' * Z.of_nat (length (L n'))
  end.

Definition free_sum (L : nat → list Z) : Z := sum_orders PMM_MAX_ORDER L.

Record blocks_wf (total : Z) (B : blocks) : Prop := {
  wf_block h k f : B !! h = Some (k, f) →
    (k < PMM_MAX_ORDER)%nat ∧ 0 < h ∧ h mod size k = 0 ∧ h + size k ≤ total;
  wf_disj h1 k1 f1 h2 k2 f2 : B !! h1 = Some (k1, f1) → B !! h2 = Some (k2, f2) → h1 ≠ h2 →
    h1 + size k1 ≤ h2 ∨ h2 + size k2 ≤ h1;
}.

Record pmm_st (X : gset Z) (d : Z) (s : pmm) (B : blocks) (L : nat → list Z) : Prop := {
  st_range : 0 ≤ total_phys_pages s ≤ 2 ^ 52;
  st_dom p : is_Some (page_array s !! p) ↔ 0 ≤ p < total_phys_pages s;
  st_len : length (free_areas s) = PMM_MAX_ORDER;
  st_wf : blocks_wf (total_phys_pages s) B;
  st_flags h k f pg : B !! h = Some (k, f) → h ∉ X → page_array s !! h = Some pg →
    pg_is_free pg = f ∧ pg_order pg = k;
  st_rest p pg : page_array s !! p = Some pg → pg_is_free pg = true → covered B p;
  st_list k : (k < PMM_MAX_ORDER)%nat → dlist (page_array s) (L k);
  st_area k : (k < PMM_MAX_ORDER)%nat →
    free_areas s !! k = Some (mk_area (head (L k)) (u64 (Z.of_nat (length (L k)))));
  st_mem k h : (k < PMM_MAX_ORDER)%nat → h ∈ L k ↔ B !! h = Some (k, true);
  st_count : free_phys_pages s = u64 (free_sum L + d);
}.

(** The invariant between operations. *)
Record pmm_inv (s : pmm) (B : blocks) : Prop := {
  inv_st : ∃ L, pmm_st ∅ 0 s B L;
  inv_total : total_pages s = total_phys_pages s;
  inv_memory : free_memory s = u64 (free_phys_pages s * PAGE_SIZE);
}.

(** *** Sums over the free lists *)

Lemma size_pos k : 0 < size k.
Proof. unfold size. lia. Qed.

Lemma size_S k : size (S k) = 2 * size k.
Proof. apply pow2_S. Qed.

Lemma size_le j k : (j ≤ k)%nat → size j ≤ size k.
Proof. intros. apply Z.pow_le_mono_r; lia. Qed.

Lemma sum_orders_insert n k l (L : nat → list Z) :
  sum_orders n (<[k := l]> L) =
  sum_orders n L + if decide (k < n)%nat then size k * (Z.of_nat (length l) - Z.of_nat (length (L k))) else 0.
Proof.
  induction n as [|n IH]; cbn [sum_orders]; [case_decide; lia|]. rewrite IH.
  destruct (decide (k = n)) as [->|Hne].
  - rewrite fn_lookup_insert. repeat case_decide; lia.
  - rewrite fn_lookup_insert_ne by done. repeat case_decide; lia.
Qed.

Lemma free_sum_insert k l L : (k < PMM_MAX_ORDER)%nat →
  free_sum (<[k := l]> L) = free_sum L + size k * (Z.of_nat (length l) - Z.of_nat (length (L k))).
Proof. intros. unfold free_sum. rewrite sum_orders_insert. by rewrite decide_True. Qed.

(** *** Block bookkeeping *)

Lemma covered_insert_flag B h k f f' p : B !! h = Some (k, f) →
  covered (<[h := (k, f')]> B) p ↔ covered B p.
Proof.
  intros Hh. split; intros (h' & k' & g & H & Hp); destruct (decide (h = h')) as [->|Hne].
  - simplify_map_eq. by exists h', k', f.
  - rewrite lookup_insert_ne in H by done. by exists h', k', g.
  - simplify_map_eq. exists h', k, f'. by rewrite lookup_insert_eq.
  - exists h', k', g. by rewrite lookup_insert_ne.
Qed.

Lemma blocks_wf_flag t B h k f f' : B !! h = Some (k, f) →
  blocks_wf t B → blocks_wf t (<[h := (k, f')]> B).
Proof.
  intros Hh [Hb Hd]. split.
  - intros h' k' g. destruct (decide (h = h')) as [->|]; intros; simplify_map_eq; eauto.
  - intros h1 k1 g1 h2 k2 g2 H1 H2 Hne.
    destruct (decide (h1 = h)) as [->|], (decide (h2 = h)) as [->|]; simplify_map_eq; eauto.
Qed.

Lemma blocks_wf_split t B h k : B !! h = Some (S k, false) → blocks_wf t B →
  blocks_wf t (<[h := (k, false)]> (<[h + size k := (k, false)]> B)).
Proof.
  intros Hh Hwf. destruct (wf_block _ _ Hwf _ _ _ Hh) as (Hk & Hh0 & Hal & Hle).
  pose proof (size_pos k). rewrite size_S in Hle, Hal.
  assert (∀ h' k' g, B !! h' = Some (k', g) → h' ≠ h → h' ≠ h + size k) as Hnew.
  { intros h' k' g H' Hne ->. destruct (wf_disj _ _ Hwf _ _ _ _ _ _ Hh H'); [lia|rewrite size_S in *; lia|].
    pose proof (size_pos k'). lia. }
  assert (∀ h' k' g, <[h := (k, false)]> (<[h + size k := (k, false)]> B) !! h' = Some (k', g) →
    (h' = h ∧ k' = k) ∨ (h' = h + size k ∧ k' = k) ∨
    (B !! h' = Some (k', g) ∧ (h' + size k' ≤ h ∨ h + 2 * size k ≤ h'))) as Hcase.
  { intros h' k' g. destruct (decide (h' = h)) as [->|Hne]; [rewrite lookup_insert_eq; naive_solver|].
    rewrite lookup_insert_ne by done.
    destruct (decide (h' = h + size k)) as [->|Hne']; [rewrite lookup_insert_eq; naive_solver|].
    rewrite lookup_insert_ne by done. intros H'. right; right. split; [done|].
    rewrite <-size_S. destruct (wf_disj _ _ Hwf _ _ _ _ _ _ H' Hh); [done|by left|by right]. }
  split.
  - intros h' k' g [[-> ->]|[[-> ->]|[H' _]]]%Hcase; [..|by eapply wf_block].
    + split_and!; [lia..| |lia]. unfold size in *. rewrite <-pow2_S in Hal. by apply aligned_weaken.
    + split_and!; [lia..| |lia]. unfold size in *. rewrite <-pow2_S in Hal. by apply aligned_weaken_add.
  - intros h1 k1 g1 h2 k2 g2 C1%Hcase C2%Hcase Hne.
    destruct C1 as [[-> ->]|[[-> ->]|[H1 ?]]], C2 as [[-> ->]|[[-> ->]|[H2 ?]]]; try lia.
    by eapply (wf_disj _ _ Hwf _ _ _ _ _ _ H1 H2).
Qed.

Lemma covered_split t B h k p : B !! h = Some (S k, false) → blocks_wf t B →
  covered (<[h := (k, false)]> (<[h + size k := (k, false)]> B)) p ↔ covered B p.
Proof.
  intros Hh Hwf. pose proof (size_pos k). split; intros (h' & k' & g & H' & Hp).
  - destruct (decide (h' = h)) as [->|Hne].
    { rewrite lookup_insert_eq in H'. simplify_eq. exists h, (S k'), false. rewrite size_S. split; [done|lia]. }
    rewrite lookup_insert_ne in H' by done. destruct (decide (h' = h + size k)) as [->|].
    { rewrite lookup_insert_eq in H'. simplify_eq. exists h, (S k'), false. rewrite size_S. split; [done|lia]. }
    rewrite lookup_insert_ne in H' by done. by exists h', k', g.
  - destruct (decide (h' = h)) as [->|Hne].
    { simplify_eq. rewrite size_S in Hp. destruct (decide (p < h + size k)).
      - exists h, k, false. rewrite lookup_insert_eq. split; [done|lia].
      - exists (h + size k), k, false. rewrite lookup_insert_ne, lookup_insert_eq by lia. split; [done|lia]. }
    exists h', k', g. rewrite !lookup_insert_ne; [done| |done].
    intros <-. pose proof (wf_disj _ _ Hwf _ _ _ _ _ _ H' Hh Hne). rewrite size_S in *.
    pose proof (size_pos k'). lia.
Qed.

Lemma blocks_wf_merge t B h k : B !! h = Some (k, false) → B !! (h + size k) = Some (k, false) →
  h mod size (S k) = 0 → (S k < PMM_MAX_ORDER)%nat → blocks_wf t B →
  blocks_wf t (<[h := (S k, false)]> (delete (h + size k) B)).
Proof.
  intros Hh Hb Hal Hk Hwf. destruct (wf_block _ _ Hwf _ _ _ Hh) as (_ & Hh0 & _ & _).
  destruct (wf_block _ _ Hwf _ _ _ Hb) as (_ & _ & _ & Hle). pose proof (size_pos k).
  assert (∀ h' k' g, <[h := (S k, false)]> (delete (h + size k) B) !! h' = Some (k', g) →
    (h' = h ∧ k' = S k) ∨ (B !! h' = Some (k', g) ∧ (h' + size k' ≤ h ∨ h + 2 * size k ≤ h'))) as Hcase.
  { intros h' k' g. destruct (decide (h' = h)) as [->|Hne]; [rewrite lookup_insert_eq; naive_solver|].
    rewrite lookup_insert_ne by done. intros [Hne' H']%lookup_delete_Some. right. split; [done|].
    destruct (wf_disj _ _ Hwf _ _ _ _ _ _ H' Hh); [done|by left|].
    destruct (wf_disj _ _ Hwf _ _ _ _ _ _ H' Hb); [done| |right; lia]. pose proof (size_pos k'). lia. }
  split.
  - intros h' k' g [[-> ->]|[H' _]]%Hcase; [|by eapply wf_block].
    rewrite size_S in *. split_and!; [done..|lia].
  - intros h1 k1 g1 h2 k2 g2 C1%Hcase C2%Hcase Hne.
    destruct C1 as [[-> ->]|[H1 ?]], C2 as [[-> ->]|[H2 ?]]; rewrite ?size_S; try lia.
    by eapply (wf_disj _ _ Hwf _ _ _ _ _ _ H1 H2).
Qed.

Lemma covered_merge B h k p : B !! h = Some (k, false) → B !! (h + size k) = Some (k, false) →
  covered (<[h := (S k, false)]> (delete (h + size k) B)) p ↔ covered B p.
Proof.
  intros Hh Hb. pose proof (size_pos k). split; intros (h' & k' & g & H' & Hp).
  - destruct (decide (h' = h)) as [->|Hne].
    { rewrite lookup_insert_eq in H'. simplify_eq. rewrite size_S in Hp.
      destruct (decide (p < h + size k)); [exists h, k, false|exists (h + size k), k, false]; split; done || lia. }
    rewrite lookup_insert_ne in H' by done. apply lookup_delete_Some in H' as [_ H']. by exists h', k', g.
  - destruct (decide (h' = h)) as [->|Hne].
    { simplify_eq. exists h, (S k), false. rewrite lookup_insert_eq, size_S. split; [done|lia]. }
    destruct (decide (h' = h + size k)) as [->|Hne'].
    { simplify_eq. exists h, (S k), false. rewrite lookup_insert_eq, size_S. split; [done|lia]. }
    exists h', k', g. rewrite lookup_insert_ne, lookup_delete_ne by done. done.
Qed.

(** *** Ghost steps: only the view of memory changes *)

Lemma st_split X d s B L h k : B !! h = Some (S k, false) → h ∈ X → pmm_st X d s B L →
  pmm_st ({[h + size k]} ∪ X) d s (<[h := (k, false)]> (<[h + size k := (k, false)]> B)) L.
Proof.
  intros Hh HX [Hr Hdom Hlen Hwf Hfl Hre Hl Ha Hm Hc]. split; try done.
  - by apply blocks_wf_split.
  - intros h' k' f pg H' HX'. rewrite !lookup_insert_ne in H' by set_solver. apply (Hfl _ _ _ _ H'). set_solver.
  - intros p pg Hp. rewrite covered_split by done. by apply Hre.
  - intros j h' Hj. rewrite Hm by done. destruct (decide (h' = h)) as [->|Hne].
    { rewrite lookup_insert_eq. naive_solver. }
    rewrite lookup_insert_ne by done. destruct (decide (h' = h + size k)) as [->|Hne'].
    { rewrite lookup_insert_eq. split; [|naive_solver]. intros H'. exfalso.
      pose proof (wf_disj _ _ Hwf _ _ _ _ _ _ H' Hh Hne). rewrite size_S in *.
      pose proof (size_pos k). pose proof (size_pos j). lia. }
    by rewrite lookup_insert_ne.
Qed.

Lemma st_merge X d s B L h k : B !! h = Some (k, false) → B !! (h + size k) = Some (k, false) →
  h mod size (S k) = 0 → (S k < PMM_MAX_ORDER)%nat → pmm_st X d s B L →
  pmm_st ({[h]} ∪ X) d s (<[h := (S k, false)]> (delete (h + size k) B)) L.
Proof.
  intros Hh Hb Hal Hk [Hr Hdom Hlen Hwf Hfl Hre Hl Ha Hm Hc]. split; try done.
  - by apply blocks_wf_merge.
  - intros h' k' f pg H' HX'. rewrite lookup_insert_ne in H' by set_solver.
    apply lookup_delete_Some in H' as [_ H']. apply (Hfl _ _ _ _ H'). set_solver.
  - intros p pg Hp. rewrite covered_merge by done. by apply Hre.
  - intros j h' Hj. rewrite Hm by done. destruct (decide (h' = h)) as [->|Hne].
    { rewrite lookup_insert_eq. naive_solver. }
    rewrite lookup_insert_ne by done. destruct (decide (h' = h + size k)) as [->|Hne'].
    { rewrite lookup_delete_eq. naive_solver. }
    by rewrite lookup_delete_ne.
Qed.

(** *** Pointer writes *)

Definition fl (pg : pmm_page) : bool * nat := (pg_is_free pg, pg_order pg).

Lemma wp_load p s pg Q : page_array s !! p = Some pg → Q pg s → wp (load p) s Q.
Proof. apply (wp_deref (λ s, page_array s !! p)). Qed.

Lemma wp_store p f s Q : is_Some (page_array s !! p) →
  Q tt (with_pages (alter f p) s) → wp (store p f) s Q.
Proof. intros [pg Hp] HQ. unfold store. apply wp_bind. eapply wp_load; [done|]. by apply wp_modify. Qed.

Lemma wp_set_area k f s Q : is_Some (free_areas s !! k) →
  Q tt (with_areas (alter f k) s) → wp (set_area k f) s Q.
Proof.
  intros [a Ha] HQ. unfold set_area. apply wp_bind.
  eapply (wp_deref (λ s, free_areas s !! k)); [done|]. by apply wp_modify.
Qed.

(** The effect of [list_remove] on the descriptor array. *)
Definition removed (h : Z) (a : pmm_page) (m : gmap Z pmm_page) : gmap Z pmm_page :=
  alter (set_prev None) h (alter (set_next None) h (unlink h a m)).

Lemma wp_list_remove k h s a l1 l2 c Q :
  dlist (page_array s) (l1 ++ h :: l2) → page_array s !! h = Some a →
  free_areas s !! k = Some (mk_area (head (l1 ++ h :: l2)) c) →
  Q tt (with_pages (removed h a) (with_areas (<[k := mk_area (head (l1 ++ l2)) c]>) s)) →
  wp (list_remove k h) s Q.
Proof.
  intros Hd Ha Har HQ. destruct (dlist_lookup _ _ _ _ Hd) as (a' & ? & Hp & Hn). simplify_eq.
  assert (∀ q, q ∈ l1 ++ l2 → q ≠ h ∧ is_Some (page_array s !! q)) as Hin.
  { intros q Hq. split.
    - intros ->. destruct Hd as [_ (?&H1&[??]%NoDup_cons)%NoDup_app]. set_solver.
    - apply (dlist_elem _ _ _ Hd). set_solver. }
  assert (∀ q, last l1 = Some q → q ≠ h ∧ is_Some (page_array s !! q)) as Hin1.
  { intros q Hq. apply Hin, elem_of_app. left. by apply last_Some_elem_of. }
  assert (∀ q, head l2 = Some q → q ≠ h ∧ is_Some (page_array s !! q)) as Hin2.
  { intros q Hq. apply Hin, elem_of_app. right. by apply head_Some_elem_of. }
  unfold list_remove. apply wp_bind. eapply wp_load; [done|]. apply wp_bind.
  assert (wp (match pg_prev a with
    | Some q => store q (set_next (pg_next a))
    | None => set_freelist k (pg_next a) end) s (λ _ s',
      s' = with_pages (λ m, match pg_prev a with Some q => alter (set_lnext (pg_next a)) q m | None => m end)
             (with_areas (<[k := mk_area (head (l1 ++ l2)) c]>) s))) as Hw.
  { simpl in Hp, Hn. rewrite Hp. destruct (last l1) as [q|] eqn:El.
    - apply wp_store; [by apply Hin1|]. unfold with_pages, with_areas. simpl. f_equal.
      symmetry. apply list_insert_id. rewrite Har. by destruct l1.
    - apply last_None in El as ->. apply wp_set_area; [by rewrite Har|].
      unfold with_areas, with_pages. simpl. f_equal. rewrite Hn. simpl in *.
      by rewrite (list_alter_as_insert _ _ _ _ Har). }
  eapply wp_mono; [exact Hw|]. clear Hw. intros [] s' ->. apply wp_bind.
  eapply (wp_load _ _ a).
  { simpl. destruct (pg_prev a) as [q|] eqn:E; [|done]. simpl in Hp.
    rewrite lookup_alter_ne; [done|]. apply Hin1. by rewrite <-Hp. }
  apply wp_bind.
  assert (is_Some (unlink h a (page_array s) !! h)) as Hh.
  { rewrite (unlink_frame _ _ _ _ _ _ Hd) by (done || intros [? _]%Hin; done). done. }
  assert (wp (match pg_next a with Some q => store q (set_prev (pg_prev a)) | None => mret tt end)
    (with_pages (λ m, match pg_prev a with Some q => alter (set_lnext (pg_next a)) q m | None => m end)
             (with_areas (<[k := mk_area (head (l1 ++ l2)) c]>) s)) (λ _ s',
      s' = with_pages (unlink h a) (with_areas (<[k := mk_area (head (l1 ++ l2)) c]>) s))) as Hw.
  { unfold unlink. simpl in Hp, Hn |- *. destruct (pg_next a) as [q|] eqn:E; [|by apply wp_ret].
    apply wp_store; [|done]. simpl. destruct (Hin2 q) as [? Hq]; [by rewrite <-Hn|].
    destruct (pg_prev a); [|done]. by apply lookup_alter_is_Some. }
  eapply wp_mono; [exact Hw|]. clear Hw. intros [] s' ->. apply wp_bind.
  apply wp_store; [done|]. apply wp_store; [|done]. simpl. by apply lookup_alter_is_Some.
Qed.

Lemma removed_dlist h a m l1 l2 : dlist m (l1 ++ h :: l2) → m !! h = Some a →
  dlist (removed h a m) (l1 ++ l2).
Proof.
  intros Hd Ha. eapply dlist_ext; [|by apply (dlist_unlink h a)].
  intros y Hy. unfold removed. assert (y ≠ h).
  { intros ->. destruct Hd as [_ (?&?&[??]%NoDup_cons)%NoDup_app]. set_solver. }
  by rewrite !lookup_alter_ne.
Qed.

Lemma removed_frame h a m l1 l2 y : dlist m (l1 ++ h :: l2) → m !! h = Some a →
  y ∉ l1 ++ h :: l2 → removed h a m !! y = m !! y.
Proof.
  intros Hd Ha Hy. unfold removed. rewrite !lookup_alter_ne by set_solver.
  apply (unlink_frame _ _ _ _ _ _ Hd Ha). set_solver.
Qed.

Lemma fl_alter f (m : gmap Z pmm_page) (p q : Z) : (∀ a, fl (f a) = fl a) → fl <$> (alter f p m) !! q = fl <$> m !! q.
Proof.
  intros Hf. destruct (decide (q = p)) as [->|]; [|by rewrite lookup_alter_ne].
  rewrite lookup_alter_eq. destruct (m !! p); [|done]. simpl. by rewrite Hf.
Qed.

Lemma removed_fl h a (m : gmap Z pmm_page) (q : Z) : fl <$> removed h a m !! q = fl <$> m !! q.
Proof.
  unfold removed, unlink. rewrite !fl_alter by done.
  destruct (lnext a), (lprev a); rewrite ?fl_alter by done; done.
Qed.

Lemma fl_lookup (m m' : gmap Z pmm_page) (q : Z) pg' : fl <$> m' !! q = fl <$> m !! q → m' !! q = Some pg' →
  ∃ pg, m !! q = Some pg ∧ pg_is_free pg' = pg_is_free pg ∧ pg_order pg' = pg_order pg.
Proof. intros H Hq. rewrite Hq in H. destruct (m !! q) as [pg|]; [|done]. exists pg. by injection H. Qed.

Lemma fl_is_Some (m m' : gmap Z pmm_page) (q : Z) :
  fl <$> m' !! q = fl <$> m !! q → is_Some (m' !! q) ↔ is_Some (m !! q).
Proof. intros H. rewrite <-!(fmap_is_Some fl). by rewrite H. Qed.

(** Take a free block off its list. *)
Lemma wp_take {A} X d s B L k h (K : M pmm A) Q : pmm_st X d s B L → B !! h = Some (k, true) →
  (∀ s' l1 l2, L k = l1 ++ h :: l2 →
     pmm_st ({[h]} ∪ X) (d + size k) s' (<[h := (k, false)]> B) (<[k := l1 ++ l2]> L) →
     total_phys_pages s' = total_phys_pages s → free_phys_pages s' = free_phys_pages s →
     (∀ q, fl <$> page_array s' !! q = fl <$> page_array s !! q) → wp K s' Q) →
  wp (list_remove k h;; add_count k (-1);; K) s Q.
Proof.
  intros [Hr Hdom Hlen Hwf Hfl Hre Hl Ha Hm Hc] Hh HK.
  destruct (wf_block _ _ Hwf _ _ _ Hh) as (Hk & Hh0 & _ & Hle).
  assert (h ∈ L k) as (l1 & l2 & El)%list_elem_of_split by by apply Hm.
  pose proof (Hl k Hk) as Hd. pose proof (Ha k Hk) as Hak. rewrite El in Hd, Hak.
  destruct (dlist_elem _ _ h Hd) as [a Hha]; [set_solver|].
  apply wp_bind. eapply wp_list_remove; [done..|]. apply wp_bind.
  assert (k < length (free_areas s))%nat by (by rewrite Hlen).
  apply wp_set_area; [simpl; by rewrite list_lookup_insert_eq|].
  pose proof (removed_fl h a (page_array s)) as Hsame.
  eapply (HK _ l1 l2 El); [|done..]. split; simpl; try done.
  - intros p. by rewrite (fl_is_Some _ _ _ (Hsame p)).
  - by rewrite length_alter, length_insert.
  - by eapply blocks_wf_flag.
  - intros h' k' f pg' H' HX' Hp'. rewrite lookup_insert_ne in H' by set_solver.
    destruct (fl_lookup _ _ _ _ (Hsame h') Hp') as (pg & Hp & -> & ->). apply (Hfl _ _ _ _ H'); set_solver.
  - intros p pg' Hp'. rewrite covered_insert_flag by done.
    destruct (fl_lookup _ _ _ _ (Hsame p) Hp') as (pg & Hp & -> & _). by apply Hre.
  - intros j Hj. destruct (decide (j = k)) as [->|Hne].
    + rewrite fn_lookup_insert. by apply removed_dlist.
    + rewrite fn_lookup_insert_ne by done. eapply dlist_ext; [|by apply Hl].
      intros y Hy. eapply removed_frame; [done..|]. rewrite <-El, Hm by done. apply Hm in Hy; [|done]. naive_solver.
  - intros j Hj. destruct (decide (j = k)) as [->|Hne].
    + rewrite list_lookup_alter_eq, list_lookup_insert_eq, fn_lookup_insert by done. simpl.
      rewrite wrap_add_l. do 3 f_equal. rewrite !length_app. simpl. lia.
    + rewrite list_lookup_alter_ne, list_lookup_insert_ne, fn_lookup_insert_ne by done. by apply Ha.
  - intros j h' Hj. destruct (decide (j = k)) as [->|Hne].
    + rewrite fn_lookup_insert. destruct Hd as [_ (_&Hd1&[Hd2 _]%NoDup_cons)%NoDup_app].
      destruct (decide (h' = h)) as [->|Hne'].
      { rewrite lookup_insert_eq. set_solver. }
      rewrite lookup_insert_ne by done. rewrite <-Hm, El by done. set_solver.
    + rewrite fn_lookup_insert_ne by done. rewrite Hm by done. destruct (decide (h' = h)) as [->|Hne'].
      { rewrite lookup_insert_eq. naive_solver. } by rewrite lookup_insert_ne.
  - rewrite Hc, free_sum_insert by done. f_equal. rewrite El, !length_app. simpl. lia.
Qed.

(** The effect of marking [h] free and pushing it on list [k]. *)
Definition given (k : nat) (h : Z) (n : option Z) (m : gmap Z pmm_page) : gmap Z pmm_page :=
  let m' := alter (set_prev None) h (alter (set_next n) h
              (alter (set_is_free true) h (alter (set_order k) h m))) in
  match n with Some y => alter (set_prev (Some h)) y m' | None => m' end.

Lemma given_eq k h n m a : m !! h = Some a → n ≠ Some h →
  given k h n m !! h = Some (mk_page (pg_flags a) k true n None).
Proof.
  intros Ha Hn. unfold given.
  assert (alter (set_prev None) h (alter (set_next n) h
    (alter (set_is_free true) h (alter (set_order k) h m))) !! h =
    Some (mk_page (pg_flags a) k true n None)) as E by by rewrite !lookup_alter_eq, Ha.
  destruct n as [y|]; [|done]. rewrite lookup_alter_ne; [done|congruence].
Qed.

Lemma given_ne k h n m y : y ≠ h →
  given k h n m !! y = if decide (n = Some y) then set_prev (Some h) <$> m !! y else m !! y.
Proof.
  intros Hy. unfold given. destruct n as [z|]; [|by rewrite decide_False, !lookup_alter_ne].
  destruct (decide (z = y)) as [->|].
  - rewrite decide_True, lookup_alter_eq, !lookup_alter_ne by done. done.
  - rewrite decide_False by congruence. by rewrite !lookup_alter_ne.
Qed.

Lemma given_fl k h n m (y : Z) : y ≠ h → fl <$> given k h n m !! y = fl <$> m !! y.
Proof. intros. rewrite given_ne by done. case_decide; [|done]. by destruct (m !! y). Qed.

Lemma wp_push {A} k h s l c (K : M pmm A) Q : is_Some (page_array s !! h) →
  dlist (page_array s) l → free_areas s !! k = Some (mk_area (head l) c) →
  wp K (with_pages (given k h (head l)) (with_areas (<[k := mk_area (Some h) (u64 (c + 1))]>) s)) Q →
  wp (store h (set_order k);; store h (set_is_free true);; list_add k h;; add_count k 1;; K) s Q.
Proof.
  intros Hh Hd Har HK. pose proof (lookup_lt_Some _ _ _ Har) as Hlt.
  apply wp_bind, wp_store; [done|]. apply wp_bind, wp_store; [by apply lookup_alter_is_Some|].
  unfold list_add. apply wp_bind, wp_bind. eapply (wp_deref (λ s, free_areas s !! k)); [done|]. simpl.
  apply wp_bind, wp_store; [simpl; by rewrite !lookup_alter_is_Some|].
  apply wp_bind, wp_store; [simpl; by rewrite !lookup_alter_is_Some|]. apply wp_bind.
  eapply wp_mono with (P := λ _ s', s' = with_pages (given k h (head l)) s).
  { destruct (head l) as [y|] eqn:E; [|by apply wp_ret]. apply wp_store; [|done].
    simpl. rewrite !lookup_alter_is_Some. apply (dlist_elem _ l); [done|]. by apply head_Some_elem_of. }
  intros [] s' ->. apply wp_set_area; [simpl; by rewrite Har|].
  apply wp_bind, wp_set_area; [simpl; rewrite list_lookup_alter_eq; by rewrite Har|].
  unfold with_areas, with_pages in *. simpl. rewrite (list_alter_as_insert _ _ _ _ Har).
  erewrite (list_alter_as_insert _ (<[k:=_]> _)) by (by apply list_lookup_insert_eq).
  simpl. by rewrite list_insert_insert_eq.
Qed.

(** Put a block that is on no list on list [k]. *)
Lemma wp_give {A} X d s B L k h (K : M pmm A) Q : pmm_st X d s B L → B !! h = Some (k, false) →
  (∀ s', pmm_st (X ∖ {[h]}) (d - size k) s' (<[h := (k, true)]> B) (<[k := h :: L k]> L) →
     total_phys_pages s' = total_phys_pages s → free_phys_pages s' = free_phys_pages s → wp K s' Q) →
  wp (store h (set_order k);; store h (set_is_free true);; list_add k h;; add_count k 1;; K) s Q.
Proof.
  intros [Hr Hdom Hlen Hwf Hfl Hre Hl Ha Hm Hc] Hh HK.
  destruct (wf_block _ _ Hwf _ _ _ Hh) as (Hk & Hh0 & _ & Hle). pose proof (size_pos k).
  destruct (proj2 (Hdom h) ltac:(lia)) as [a Hha].
  assert (∀ j, (j < PMM_MAX_ORDER)%nat → h ∉ L j) as Hnot.
  { intros j Hj. rewrite Hm by done. naive_solver. }
  assert (head (L k) ≠ Some h) as Hhd.
  { intros E. apply (Hnot k Hk). by apply head_Some_elem_of. }
  assert (k < length (free_areas s))%nat by (by rewrite Hlen).
  eapply wp_push; [done|by apply Hl|by apply Ha|].
  apply HK; [|done..]. split; simpl; try done.
  - intros p. rewrite <-Hdom. destruct (decide (p = h)) as [->|].
    + erewrite given_eq by done. by rewrite Hha.
    + by rewrite (fl_is_Some _ _ _ (given_fl k h (head (L k)) (page_array s) p ltac:(done))).
  - by rewrite length_insert.
  - by eapply blocks_wf_flag.
  - intros h' k' f pg' H' HX' Hp'. destruct (decide (h' = h)) as [->|Hne].
    + erewrite given_eq in Hp' by done. rewrite lookup_insert_eq in H'. by simplify_eq.
    + rewrite lookup_insert_ne in H' by done.
      destruct (fl_lookup _ _ _ _ (given_fl _ _ _ _ _ Hne) Hp') as (pg & Hp & -> & ->).
      apply (Hfl _ _ _ _ H'); set_solver.
  - intros p pg' Hp'. rewrite covered_insert_flag by done. destruct (decide (p = h)) as [->|].
    { intros _. exists h, k, false. split; [done|lia]. }
    destruct (fl_lookup _ _ _ _ (given_fl _ _ _ _ _ ltac:(done)) Hp') as (pg & Hp & -> & _). by apply Hre.
  - intros j Hj. destruct (decide (j = k)) as [->|Hne].
    + rewrite fn_lookup_insert. eapply dlist_push_front; [by apply Hl|by apply Hnot|by apply given_eq|done..|].
      intros y Hy. apply given_ne. intros ->. by eapply Hnot.
    + rewrite fn_lookup_insert_ne by done. eapply dlist_ext; [|by apply Hl]. intros y Hy.
      rewrite given_ne by (intros ->; by eapply Hnot). rewrite decide_False; [done|].
      intros E. apply head_Some_elem_of, Hm in E; [|done]. apply Hm in Hy; [|done]. naive_solver.
  - intros j Hj. destruct (decide (j = k)) as [->|Hne].
    + rewrite list_lookup_insert_eq, fn_lookup_insert by done. simpl. rewrite wrap_add_l. do 3 f_equal. lia.
    + rewrite list_lookup_insert_ne, fn_lookup_insert_ne by done. by apply Ha.
  - intros j h' Hj. destruct (decide (j = k)) as [->|Hne].
    + rewrite fn_lookup_insert, elem_of_cons, Hm by done. destruct (decide (h' = h)) as [->|Hne'].
      { rewrite lookup_insert_eq. naive_solver. } rewrite lookup_insert_ne by done. naive_solver.
    + rewrite fn_lookup_insert_ne by done. rewrite Hm by done. destruct (decide (h' = h)) as [->|Hne'].
      { rewrite lookup_insert_eq. naive_solver. } by rewrite lookup_insert_ne.
  - rewrite Hc, free_sum_insert by done. f_equal. simpl. lia.
Qed.

(** *** Writes that settle a descriptor *)

Lemma wp_settle {A} X d s B L h k (K : M pmm A) Q : pmm_st X d s B L → B !! h = Some (k, false) →
  (∀ s', pmm_st (X ∖ {[h]}) d s' B L → total_phys_pages s' = total_phys_pages s →
     free_phys_pages s' = free_phys_pages s → wp K s' Q) →
  wp (store h (set_order k);; store h (set_is_free false);; K) s Q.
Proof.
  intros [Hr Hdom Hlen Hwf Hfl Hre Hl Ha Hm Hc] Hh HK.
  destruct (wf_block _ _ Hwf _ _ _ Hh) as (Hk & Hh0 & _ & Hle). pose proof (size_pos k).
  destruct (proj2 (Hdom h) ltac:(lia)) as [a Hha].
  apply wp_bind, wp_store; [done|]. apply wp_bind, wp_store; [by apply lookup_alter_is_Some|].
  apply HK; [|done..]. split; simpl; try done.
  - intros p. by rewrite !lookup_alter_is_Some.
  - intros h' k' f pg H' HX' Hp'. destruct (decide (h' = h)) as [->|Hne].
    + rewrite !lookup_alter_eq, Hha in Hp'. by simplify_eq/=.
    + rewrite !lookup_alter_ne in Hp' by done. apply (Hfl _ _ _ _ H'); set_solver.
  - intros p pg Hp'. destruct (decide (p = h)) as [->|Hne].
    + rewrite !lookup_alter_eq, Hha in Hp'. by simplify_eq/=.
    + rewrite !lookup_alter_ne in Hp' by done. by apply Hre.
  - intros j Hj. destruct (Hl j Hj) as [Hd HN]. split; [|done].
    by do 2 (apply dseg_alter_frame; [done|]).
Qed.

Lemma st_mark X d s B L h k b : pmm_st X d s B L → B !! h = Some (k, false) →
  pmm_st ({[h]} ∪ X) d (with_pages (alter (set_is_free b) h) s) B L.
Proof.
  intros [Hr Hdom Hlen Hwf Hfl Hre Hl Ha Hm Hc] Hh. split; simpl; try done.
  - intros p. by rewrite lookup_alter_is_Some.
  - intros h' k' f pg H' HX'. rewrite lookup_alter_ne by set_solver. apply (Hfl _ _ _ _ H'). set_solver.
  - intros p pg Hp'. destruct (decide (p = h)) as [->|Hne].
    { intros _. exists h, k, false. pose proof (size_pos k). split; [done|lia]. }
    rewrite lookup_alter_ne in Hp' by done. by apply Hre.
  - intros j Hj. destruct (Hl j Hj) as [Hd HN]. split; [|done]. by apply dseg_alter_frame.
Qed.

Lemma st_weaken X X' d s B L : X ⊆ X' → pmm_st X d s B L → pmm_st X' d s B L.
Proof.
  intros HX [Hr Hdom Hlen Hwf Hfl Hre Hl Ha Hm Hc]. split; try done.
  intros h k f pg H' HX'. apply (Hfl _ _ _ _ H'). set_solver.
Qed.

(** *** What an allocation and a release mean for the client *)

Definition in_block (h : Z) (k : nat) (p : Z) : Prop := h ≤ p < h + size k.

(** A block of [order] at [h] leaves the free pages and becomes the client's. *)
Record alloc_post (total : Z) (B : blocks) (order : nat) (h : Z) (B' : blocks) : Prop := {
  ap_source : ∃ c, (order ≤ c)%nat ∧ B !! h = Some (c, true);
  ap_range : 0 < h ∧ h + size order ≤ total;
  ap_aligned : h mod size order = 0;
  ap_was_free p : in_block h order p → page_free B p;
  ap_free p : page_free B' p ↔ page_free B p ∧ ¬ in_block h order p;
  ap_held h' k' : B' !! h' = Some (k', false) ↔ B !! h' = Some (k', false) ∨ h' = h ∧ k' = order;
}.

(** A held block of [order] at [h] goes back to the free pages. *)
Record free_post (B : blocks) (order : nat) (h : Z) (B' : blocks) : Prop := {
  fp_free p : page_free B' p ↔ page_free B p ∨ in_block h order p;
  fp_held h' k' : B' !! h' = Some (k', false) ↔ B !! h' = Some (k', false) ∧ h' ≠ h;
}.

Lemma page_free_flip t B h k b p : B !! h = Some (k, b) → blocks_wf t B →
  page_free (<[h := (k, true)]> B) p ↔ page_free B p ∨ in_block h k p.
Proof.
  intros Hh Hwf. split.
  - intros (h' & k' & H' & Hp). destruct (decide (h' = h)) as [->|].
    + rewrite lookup_insert_eq in H'. simplify_eq. by right.
    + rewrite lookup_insert_ne in H' by done. left. by exists h', k'.
  - intros [(h' & k' & H' & Hp)|Hp].
    + destruct (decide (h' = h)) as [->|].
      * assert (k' = k) as -> by congruence. exists h, k. by rewrite lookup_insert_eq.
      * exists h', k'. by rewrite lookup_insert_ne.
    + exists h, k. by rewrite lookup_insert_eq.
Qed.

Lemma page_free_taken t B h k p : B !! h = Some (k, true) → blocks_wf t B →
  page_free (<[h := (k, false)]> B) p ↔ page_free B p ∧ ¬ in_block h k p.
Proof.
  intros Hh Hwf. split.
  - intros (h' & k' & H' & Hp). destruct (decide (h' = h)) as [->|Hne].
    { rewrite lookup_insert_eq in H'. done. }
    rewrite lookup_insert_ne in H' by done. split; [by exists h', k'|].
    destruct (wf_disj _ _ Hwf _ _ _ _ _ _ H' Hh Hne); unfold in_block; lia.
  - intros [(h' & k' & H' & Hp) Hnot]. assert (h' ≠ h). { intros ->. simplify_eq. done. }
    exists h', k'. by rewrite lookup_insert_ne.
Qed.

Lemma sibling_low h k : h mod size (S k) = 0 → Z.lxor h (Z.shiftl 1 (Z.of_nat k)) = h + size k.
Proof.
  intros Hal. unfold size in *. rewrite lxor_sibling by (lia || by apply aligned_weaken).
  apply Z.mod_divide in Hal as [q ->]; [|lia]. rewrite pow2_S.
  replace (q * _) with (q * 2 * 2 ^ Z.of_nat k) by lia. rewrite Z.div_mul by lia.
  by rewrite Z.even_mul, orb_true_r.
Qed.

Lemma split_upper_fresh t B h k : B !! h = Some (S k, false) → blocks_wf t B → B !! (h + size k) = None.
Proof.
  intros Hh Hwf. destruct (B !! (h + size k)) as [[k' g]|] eqn:E; [|done].
  pose proof (size_pos k). pose proof (size_pos k').
  destruct (wf_disj _ _ Hwf _ _ _ _ _ _ Hh E); rewrite ?size_S in *; lia.
Qed.

(** One round of splitting, seen by the client: the upper half becomes free. *)
Lemma split_view t B h k : B !! h = Some (S k, false) → blocks_wf t B →
  let B' := <[h + size k := (k, true)]> (<[h := (k, false)]> (<[h + size k := (k, false)]> B)) in
  B' !! h = Some (k, false) ∧
  (∀ p, page_free B' p ↔ page_free B p ∨ h + size k ≤ p < h + size (S k)) ∧
  (∀ h' k', h' ≠ h → B' !! h' = Some (k', false) ↔ B !! h' = Some (k', false)).
Proof.
  intros Hh Hwf B'. pose proof (size_pos k). pose proof (split_upper_fresh _ _ _ _ Hh Hwf) as Hnone.
  assert (∀ h', h' ≠ h → h' ≠ h + size k → B' !! h' = B !! h') as Hsame.
  { intros. unfold B'. by rewrite !lookup_insert_ne. }
  assert (B' !! h = Some (k, false)) as Eh.
  { unfold B'. rewrite lookup_insert_ne, lookup_insert_eq by lia. done. }
  assert (B' !! (h + size k) = Some (k, true)) as Eu by (unfold B'; by rewrite lookup_insert_eq).
  split_and!; [done|..].
  - intros p. rewrite size_S. split.
    + intros (h' & k' & H' & Hp). destruct (decide (h' = h + size k)) as [->|]; [simplify_eq; right; lia|].
      destruct (decide (h' = h)) as [->|]; [simplify_eq|]. rewrite Hsame in H' by done. left. by exists h', k'.
    + intros [(h' & k' & H' & Hp)|Hp]; [|exists (h + size k), k; split; [done|lia]].
      exists h', k'. rewrite Hsame; [done|congruence|]. intros ->. congruence.
  - intros h' k' Hne. destruct (decide (h' = h + size k)) as [->|]; [by rewrite Eu, Hnone|by rewrite Hsame].
Qed.

Lemma wp_split_down {A} h order n : ∀ X d s B L (K : M pmm A) Q,
  pmm_st X d s B L → B !! h = Some ((order + n)%nat, false) → h ∈ X →
  (∀ s' B' L', pmm_st X (d - size (order + n) + size order) s' B' L' →
     total_phys_pages s' = total_phys_pages s → free_phys_pages s' = free_phys_pages s →
     B' !! h = Some (order, false) →
     (∀ p, page_free B' p ↔ page_free B p ∨ h + size order ≤ p < h + size (order + n)) →
     (∀ h' k', h' ≠ h → B' !! h' = Some (k', false) ↔ B !! h' = Some (k', false)) → wp K s' Q) →
  wp (split_down h order n;; K) s Q.
Proof.
  induction n as [|n IH]; intros X d s B L K Q Hst Hh HX HK.
  - apply wp_bind, wp_ret. rewrite Nat.add_0_r in *. eapply HK; [|done|done|done| |done].
    + by replace (d - size order + size order) with d by lia.
    + intros p. split; [by left|]. intros [?|?]; [done|lia].
  - assert (order + S n = S (order + n))%nat as E by lia. rewrite E in *.
    pose proof (st_wf _ _ _ _ _ Hst) as Hwf.
    destruct (wf_block _ _ Hwf _ _ _ Hh) as (_ & _ & Hal & _).
    cbn [split_down]. rewrite sibling_low by done. apply wp_bind.
    pose proof (st_split _ _ _ _ _ _ _ Hh HX Hst) as Hst1.
    destruct (split_view _ _ _ _ Hh Hwf) as (Hh' & Hfree & Hheld).
    eapply wp_give; [exact Hst1|rewrite lookup_insert_ne, lookup_insert_eq; [done|pose proof (size_pos (order + n)); lia]|].
    intros s' Hst2 Htot Hfp. apply (st_weaken _ X) in Hst2; [|set_solver].
    apply wp_unbind. eapply IH; [exact Hst2|done|done|].
    intros s3 B3 L3 Hst3 Htot3 Hfp3 Hh3 Hfree3 Hheld3. eapply (HK s3 B3 L3); [|congruence|congruence|done|..].
    + rewrite size_S. by replace (d - 2 * size (order + n) + size order)
        with (d - size (order + n) - size (order + n) + size order) by lia.
    + intros p. rewrite Hfree3, Hfree. rewrite size_S. pose proof (size_le order (order + n) ltac:(lia)).
      pose proof (size_pos (order + n)). split; [intros [[?|?]|?]; [by left|right; lia|right; lia]|].
      intros [?|?]; [by left; left|]. destruct (decide (p < h + size (order + n))); [right|left; right]; lia.
    + intros h' k' Hne. by rewrite Hheld3, Hheld.
Qed.

Lemma shiftl_size k : Z.shiftl 1 (Z.of_nat k) = size k.
Proof. unfold size. rewrite Z.shiftl_mul_pow2 by lia. lia. Qed.

Lemma st_free_phys X d e s B L : pmm_st X d s B L →
  pmm_st X (d + e) (with_free_phys (λ n, u64 (n + e)) s) B L.
Proof.
  intros [Hr Hdom Hlen Hwf Hfl Hre Hl Ha Hm Hc]. split; simpl; try done.
  rewrite Hc, wrap_add_l. f_equal. lia.
Qed.

(** Closing an operation: the mirrors of the counters are brought up to date. *)
Lemma wp_sync s B L (Q : unit → pmm → Prop) : pmm_st ∅ 0 s B L →
  (∀ s', pmm_inv s' B → total_phys_pages s' = total_phys_pages s →
     free_phys_pages s' = free_phys_pages s → Q tt s') →
  wp sync_legacy_globals s Q.
Proof.
  intros [Hr Hdom Hlen Hwf Hfl Hre Hl Ha Hm Hc] HQ. apply wp_modify, HQ; [|done..].
  split; [|done..]. exists L. by split.
Qed.

Lemma wp_take_block s B order c h (Q : Z → pmm → Prop) :
  pmm_inv s B → (order ≤ c)%nat → B !! h = Some (c, true) →
  (∀ s' B', pmm_inv s' B' → alloc_post (total_phys_pages s) B order h B' →
     total_phys_pages s' = total_phys_pages s →
     free_phys_pages s' = u64 (free_phys_pages s - size order) → Q (h * PAGE_SIZE) s') →
  wp (take_block order c h) s Q.
Proof.
  intros [[L Hst] _ _] Hoc Hh HQ. pose proof (st_wf _ _ _ _ _ Hst) as Hwf.
  unfold take_block. eapply wp_take; [done..|]. intros s1 l1 l2 El Hst1 Htot1 Hfp1 _.
  apply (wp_split_down h order (c - order) _ _ _ _ _ _ _ Hst1);
    [rewrite lookup_insert_eq; do 2 f_equal; lia|set_solver|].
  intros s2 B2 L2 Hst2 Htot2 Hfp2 Hh2 Hfree2 Hheld2. replace (order + (c - order))%nat with c in * by lia.
  apply (st_weaken _ {[h]}) in Hst2; [|set_solver].
  eapply wp_settle; [exact Hst2|done|]. intros s3 Hst3 Htot3 Hfp3.
  apply wp_bind, wp_modify. apply wp_bind.
  apply (st_free_phys _ _ (- size order)), (st_weaken _ ∅) in Hst3; [|set_solver].
  rewrite shiftl_size. eapply wp_sync; [|intros s4 Hinv4 Htot4 Hfp4].
  { replace (0 + size c - size c + size order + - size order) with 0 in Hst3 by lia. exact Hst3. }
  apply wp_ret. eapply HQ; [exact Hinv4| |simpl in *; congruence|].
  - destruct (wf_block _ _ Hwf _ _ _ Hh) as (Hc & Hh0 & Hal & Hle).
    destruct (wf_block _ _ (st_wf _ _ _ _ _ Hst2) _ _ _ Hh2) as (_ & _ & Hal2 & _).
    pose proof (size_le order c Hoc). pose proof (size_pos order). split; [by exists c|lia|done|..].
    + intros p Hp. exists h, c. unfold in_block in Hp. split; [done|lia].
    + intros p. rewrite Hfree2, (page_free_taken _ _ _ _ _ Hh Hwf). unfold in_block.
      split; [intros [[??]|?]; (split; [|lia])|].
      * done.
      * exists h, c. split; [done|lia].
      * intros [??]. destruct (decide (h + size order ≤ p < h + size c)); [by right|left; split; [done|lia]].
    + intros h' k'. destruct (decide (h' = h)) as [->|Hne].
      * rewrite Hh2, Hh. naive_solver.
      * rewrite Hheld2, lookup_insert_ne by done. naive_solver.
  - rewrite Hfp4. simpl. by rewrite Hfp3, Hfp2, Hfp1.
Qed.

Lemma wp_alloc_loop s B order n : ∀ c (Q : option Z → pmm → Prop),
  pmm_inv s B → (order ≤ c)%nat → (c + n = PMM_MAX_ORDER)%nat →
  (∀ h k, B !! h = Some (k, true) → ¬ (order ≤ k < c)%nat) →
  (∀ h s' B', pmm_inv s' B' → alloc_post (total_phys_pages s) B order h B' →
     total_phys_pages s' = total_phys_pages s →
     free_phys_pages s' = u64 (free_phys_pages s - size order) → Q (Some (h * PAGE_SIZE)) s') →
  ((∀ h k, B !! h = Some (k, true) → (k < order)%nat) → Q None s) →
  wp (alloc_loop order c n) s Q.
Proof.
  induction n as [|n IH]; intros c Q Hinv Hoc Hn Hempty HS HN; cbn [alloc_loop].
  - apply wp_ret, HN. intros h k Hh. specialize (Hempty h k Hh). destruct (inv_st _ _ Hinv) as [L Hst].
    destruct (wf_block _ _ (st_wf _ _ _ _ _ Hst) _ _ _ Hh). lia.
  - destruct (inv_st _ _ Hinv) as [L Hst]. apply wp_bind.
    eapply (wp_deref (λ s, free_areas s !! c)); [by apply (st_area _ _ _ _ _ Hst); lia|]. simpl.
    destruct (L c) as [|h l] eqn:E; simpl.
    + apply IH; [done|lia|lia| |done|done]. intros h k Hh Hk.
      destruct (decide (k = c)) as [->|]; [|apply (Hempty h k Hh); lia].
      apply (st_mem _ _ _ _ _ Hst) in Hh; [|lia]. rewrite E in Hh. set_solver.
    + apply wp_bind. eapply wp_take_block; [done|done| |].
      { apply (st_mem _ _ _ _ _ Hst); [lia|]. rewrite E. left. }
      intros s' B' ????. apply wp_ret. by eapply HS.
Qed.

(** *** Merging *)

Lemma st_drop X X' d s B L : (∀ x, x ∈ X → x ∉ X' → B !! x = None) → pmm_st X d s B L → pmm_st X' d s B L.
Proof.
  intros HX [Hr Hdom Hlen Hwf Hfl Hre Hl Ha Hm Hc]. split; try done.
  intros h k f pg H' HX'. destruct (decide (h ∈ X)) as [Hin|Hout]; [|by apply (Hfl _ _ _ _ H')].
  by rewrite (HX _ Hin HX') in H'.
Qed.

Lemma aligned_nested (h' b : Z) (k' k : nat) : h' mod size k' = 0 → b mod size k = 0 →
  h' ≤ b < h' + size k' → b = h' ∧ (k' ≤ k)%nat ∨
  (k < k')%nat ∧ ∀ q, q mod size (S k) = 0 → q ≤ b < q + size (S k) → h' ≤ q ∧ q + size (S k) ≤ h' + size k'.
Proof.
  intros H' Hb Hin. pose proof (size_pos k). pose proof (size_pos k').
  assert (∀ i j, (i ≤ j)%nat → ∃ c, 0 < c ∧ size j = c * size i) as Hdiv.
  { intros i j ?. exists (size (j - i)). split; [apply size_pos|]. unfold size.
    rewrite <-Z.pow_add_r by lia. f_equal. lia. }
  apply Z.mod_divide in H' as [x ->]; [|lia]. apply Z.mod_divide in Hb as [y ->]; [|lia].
  destruct (decide (k' ≤ k)%nat) as [Hle|Hgt].
  - left. split; [|done]. destruct (Hdiv k' k Hle) as (c & ? & E). rewrite E in *.
    assert (x ≤ y * c) by (apply (Z.mul_le_mono_pos_r _ _ (size k')); lia).
    assert (y * c < x + 1) by (apply (Z.mul_lt_mono_pos_r (size k')); lia).
    assert (x = y * c) as -> by lia. lia.
  - right. split; [lia|]. intros q Hq Hqb. destruct (Hdiv (S k) k' ltac:(lia)) as (c & ? & E).
    pose proof (size_pos (S k)). apply Z.mod_divide in Hq as [z ->]; [|lia]. rewrite E in *.
    assert (x * c < z + 1) by (apply (Z.mul_lt_mono_pos_r (size (S k))); lia).
    assert (z < x * c + c) by (apply (Z.mul_lt_mono_pos_r (size (S k))); lia).
    assert (x * c * size (S k) ≤ z * size (S k)) by (apply Z.mul_le_mono_nonneg_r; lia).
    assert ((z + 1) * size (S k) ≤ (x * c + c) * size (S k)) by (apply Z.mul_le_mono_nonneg_r; lia). lia.
Qed.

(** A block and its sibling are the two halves of the parent block. *)
Lemma sibling_parent h k : h mod size k = 0 → 0 ≤ h < 2 ^ 64 →
  let b := Z.lxor h (Z.shiftl 1 (Z.of_nat k)) in
  let q := Z.land h (not64 (Z.shiftl 1 (Z.of_nat k))) in
  q mod size (S k) = 0 ∧ 0 ≤ q ∧ b mod size k = 0 ∧ b ≠ h ∧
  (q = h ∧ b = h + size k ∨ q = b ∧ h = b + size k).
Proof.
  intros Hal Hr b q. unfold b, q. rewrite land_not64 by done. unfold size in *.
  rewrite lxor_sibling, ldiff_parent by (done || lia).
  assert (∀ e, (h + e * 2 ^ Z.of_nat k) mod 2 ^ Z.of_nat k = 0) as Hm.
  { intros e. by rewrite Z_mod_plus_full. }
  destruct (Z.even (h / 2 ^ Z.of_nat k)) eqn:E.
  - split_and!; [by apply aligned_even|lia| |lia|left; lia]. replace (2 ^ Z.of_nat k) with (1 * 2 ^ Z.of_nat k) at 1 by lia. apply Hm.
  - split_and!; [by apply aligned_odd| | |lia|right; lia].
    + apply Z.mod_divide in Hal as [x ->]; [|lia]. rewrite Z.div_mul in E by lia.
      assert (x ≠ 0) by (intros ->; done). assert (0 ≤ x) by nia. nia.
    + replace (h - 2 ^ Z.of_nat k) with (h + (-1) * 2 ^ Z.of_nat k) by lia. apply Hm.
Qed.

(** A descriptor marked free with the order being merged is on the free list. *)
Lemma sibling_is_block d s B L h k b pg : pmm_st {[h]} d s B L → B !! h = Some (k, false) →
  b = Z.lxor h (Z.shiftl 1 (Z.of_nat k)) → page_array s !! b = Some pg →
  pg_is_free pg = true → pg_order pg = k → B !! b = Some (k, true).
Proof.
  intros Hst Hh Hb Hpg Hfree Hord. pose proof (st_wf _ _ _ _ _ Hst) as Hwf.
  destruct (wf_block _ _ Hwf _ _ _ Hh) as (Hk & Hh0 & Hal & Hle). pose proof (size_pos k).
  pose proof (st_range _ _ _ _ _ Hst).
  destruct (sibling_parent h k) as (Hq & _ & Hbal & Hne & Hcase); [done|lia|]. rewrite <-Hb in *.
  set (q := Z.land h _) in *.
  destruct (st_rest _ _ _ _ _ Hst _ _ Hpg Hfree) as (h' & k' & f & H' & Hin).
  destruct (wf_block _ _ Hwf _ _ _ H') as (_ & _ & Hal' & _).
  assert (h' ≠ h) as Hne'. { intros ->. simplify_eq. lia. }
  destruct (aligned_nested h' b k' k Hal' Hbal Hin) as [[-> _]|[Hlt Hnest]].
  - destruct (st_flags _ _ _ _ _ Hst _ _ _ _ H' ltac:(set_solver) Hpg). congruence.
  - exfalso. rewrite size_S in *. destruct (Hnest q Hq) as [??]; [lia|].
    destruct (wf_disj _ _ Hwf _ _ _ _ _ _ H' Hh Hne'); lia.
Qed.

(** The client's view of a merge: nothing moves. *)
Lemma merge_view t B h b q k : blocks_wf t B → B !! h = Some (k, false) → B !! b = Some (k, true) →
  (q = h ∧ b = h + size k ∨ q = b ∧ h = b + size k) →
  let B' := <[q := (S k, false)]> (delete (q + size k) (<[b := (k, false)]> B)) in
  B' !! q = Some (S k, false) ∧
  (∀ p, page_free B' p ∨ in_block q (S k) p ↔ page_free B p ∨ in_block h k p) ∧
  (∀ x j, x ≠ q → B' !! x = Some (j, false) ↔ B !! x = Some (j, false) ∧ x ≠ h).
Proof.
  intros Hwf Hh Hb Hcase B'. pose proof (size_pos k).
  assert (h ≠ b) as Hhb by lia.
  assert (B' !! q = Some (S k, false)) as Eq by (unfold B'; by rewrite lookup_insert_eq).
  assert (∀ x, x ≠ h → x ≠ b → B' !! x = B !! x) as Hsame.
  { intros x ??. unfold B'. rewrite lookup_insert_ne, lookup_delete_ne, lookup_insert_ne by lia. done. }
  assert (∀ x, x ≠ q → x = h ∨ x = b → B' !! x = None) as Hgone.
  { intros x ??. unfold B'. rewrite lookup_insert_ne by done. apply lookup_delete_None. left. lia. }
  assert (∀ p, page_free B' p ↔ page_free B p ∧ ¬ in_block b k p) as Hpf.
  { intros p. rewrite <-(page_free_taken _ _ _ _ _ Hb Hwf). split; intros (x & j & Hx & Hp); exists x, j;
      (split; [|done]); destruct (decide (x = q)) as [->|]; try congruence.
    - destruct (decide (x = h)) as [->|]; [rewrite Hgone in Hx; by auto|].
      destruct (decide (x = b)) as [->|]; [rewrite Hgone in Hx; by auto|].
      rewrite lookup_insert_ne by done. by rewrite Hsame in Hx.
    - destruct Hcase as [[-> ?]|[-> ?]]; [rewrite lookup_insert_ne in Hx by done; congruence|].
      by rewrite lookup_insert_eq in Hx.
    - apply lookup_insert_Some in Hx as [[_ ?]|[??]]; [done|]. rewrite Hsame; [done|congruence|done]. }
  split_and!; [done|..].
  - intros p. rewrite Hpf. unfold in_block. rewrite size_S.
    assert (in_block b k p → page_free B p) as Hbp by (intros ?; by exists b, k). unfold in_block in Hbp.
    destruct (decide (b ≤ p < b + size k)) as [Hin|Hout]; [split; intros _; [by left; apply Hbp|right; lia]|].
    split; (intros [?|?]; [tauto|right; lia]) || (intros [?|?]; [left; tauto|right; lia]).
  - intros x j Hx. destruct (decide (x = h)) as [->|Hxh]; [rewrite Hgone; naive_solver|].
    destruct (decide (x = b)) as [->|Hxb]; [rewrite Hgone by auto; rewrite Hb; naive_solver|].
    rewrite Hsame by done. naive_solver.
Qed.

Lemma wp_coalesce {A} n : ∀ d s B L h k (K : Z * nat → M pmm A) Q,
  pmm_st {[h]} d s B L → B !! h = Some (k, false) → (k + n = PMM_MAX_ORDER - 1)%nat →
  (∀ s' B' L' h' k', pmm_st {[h']} (d + size k' - size k) s' B' L' → B' !! h' = Some (k', false) →
     total_phys_pages s' = total_phys_pages s → free_phys_pages s' = free_phys_pages s →
     (∀ p, page_free B' p ∨ in_block h' k' p ↔ page_free B p ∨ in_block h k p) →
     (∀ x j, x ≠ h' → B' !! x = Some (j, false) ↔ B !! x = Some (j, false) ∧ x ≠ h) →
     (∀ j, B !! h' = Some (j, false) → h' = h) →
     wp (K (h', k')) s' Q) →
  wp (coalesce n h k ≫= K) s Q.
Proof.
  induction n as [|n IH]; intros d s B L h k K Q Hst Hh Hn HK.
  all: assert (wp (K (h, k)) s Q) as Hstop by
    (eapply (HK s B L h k); [by replace (d + size k - size k) with d by lia|done..|naive_solver|done]).
  { by apply wp_bind, wp_ret. }
  pose proof (st_wf _ _ _ _ _ Hst) as Hwf. pose proof (st_range _ _ _ _ _ Hst) as Hrg.
  destruct (wf_block _ _ Hwf _ _ _ Hh) as (Hk & Hh0 & Hal & Hle). pose proof (size_pos k).
  destruct (sibling_parent h k) as (Hq & Hq0 & _ & Hne & Hcase); [done|lia|].
  cbn [coalesce]. apply wp_bind, wp_bind, wp_gets.
  set (b := Z.lxor h (Z.shiftl 1 (Z.of_nat k))) in *.
  set (q := Z.land h (not64 (Z.shiftl 1 (Z.of_nat k)))) in *.
  destruct (Z.leb_spec (total_phys_pages s) b) as [|Hb]; [by apply wp_ret|].
  destruct (proj2 (st_dom _ _ _ _ _ Hst b) ltac:(lia)) as [pg Hpg].
  apply wp_bind. eapply wp_load; [exact Hpg|].
  destruct (negb (pg_is_free pg) || negb (pg_order pg =? k)%nat) eqn:Etest; [by apply wp_ret|].
  apply orb_false_iff in Etest as [Ef%negb_false_iff Eo%negb_false_iff%Nat.eqb_eq].
  pose proof (sibling_is_block _ _ _ _ _ _ b _ Hst Hh eq_refl Hpg Ef Eo) as HBb.
  eapply wp_take; [exact Hst|exact HBb|]. intros s1 l1 l2 El Hst1 Htot1 Hfp1 _.
  assert (<[b:=(k, false)]> B !! b = Some (k, false)) as HB1b by by rewrite lookup_insert_eq.
  assert (<[b:=(k, false)]> B !! h = Some (k, false)) as HB1h by by rewrite lookup_insert_ne.
  apply wp_bind, wp_store.
  { apply (st_dom _ _ _ _ _ Hst1). destruct (wf_block _ _ Hwf _ _ _ HBb) as (?&?&?&?). lia. }
  apply (st_mark _ _ _ _ _ b k false) in Hst1; [|done].
  assert (<[b:=(k, false)]> B !! q = Some (k, false) ∧ <[b:=(k, false)]> B !! (q + size k) = Some (k, false))
    as [HB1q HB1r] by (destruct Hcase as [[-> <-]|[-> <-]]; done).
  apply (st_merge _ _ _ _ _ q k) in Hst1; [|done..|lia].
  destruct (merge_view _ _ _ _ q _ Hwf Hh HBb Hcase) as (HB2 & Hview & Hheld).
  apply (st_drop _ {[q]}) in Hst1.
  2: { intros x Hx ?. rewrite lookup_insert_ne by set_solver. apply lookup_delete_None. left. set_solver by lia. }
  apply wp_unbind. eapply IH; [exact Hst1|done|lia|].
  intros s' B' L' h' k' Hst' Hh' Htot' Hfp' Hview' Hheld' Horig.
  eapply (HK s' B' L' h' k'); [|done|simpl in *; congruence|simpl in *; congruence|..].
  - rewrite size_S in Hst'. by replace (d + size k' - size k) with (d + size k + size k' - 2 * size k) by lia.
  - intros p. by rewrite Hview', Hview.
  - intros x j Hx. rewrite Hheld' by done. destruct (decide (x = q)) as [->|Hxq].
    + split; [naive_solver|]. intros [Hj ?]. destruct Hcase as [[-> _]|[-> _]]; congruence.
    + rewrite Hheld by done. naive_solver.
  - intros j Hj. destruct (decide (h' = h)) as [|Hnh]; [done|]. exfalso.
    assert (h' ≠ q) as Hnq by (intros ->; destruct Hcase as [[-> _]|[-> _]]; congruence).
    apply Hnq, (Horig j), Hheld; naive_solver.
Qed.

Lemma wp_free s B L h order (Q : unit → pmm → Prop) :
  pmm_st ∅ 0 s B L → B !! h = Some (order, false) →
  (∀ s' B', pmm_inv s' B' → free_post B order h B' →
     total_phys_pages s' = total_phys_pages s →
     free_phys_pages s' = u64 (free_phys_pages s + size order) → Q tt s') →
  wp (pmm_free_pages (h * PAGE_SIZE) order) s Q.
Proof.
  intros Hst Hh HQ. pose proof (st_wf _ _ _ _ _ Hst) as Hwf.
  destruct (wf_block _ _ Hwf _ _ _ Hh) as (Hk & Hh0 & Hal & Hle). pose proof (size_pos order).
  destruct (proj2 (st_dom _ _ _ _ _ Hst h) ltac:(lia)) as [pg Hpg].
  destruct (st_flags _ _ _ _ _ Hst _ _ _ _ Hh ltac:(set_solver) Hpg) as [Ef _].
  unfold pmm_free_pages, PAGE_SIZE. rewrite (proj2 (Z.eqb_neq _ 0)) by lia.
  rewrite (proj2 (Nat.leb_gt _ _)) by done. rewrite Z.div_mul by lia. simpl.
  apply wp_bind, wp_gets. rewrite (proj2 (Z.leb_gt _ _)) by lia.
  apply wp_bind. eapply wp_load; [done|]. rewrite Ef.
  apply wp_bind, wp_store; [by rewrite Hpg|]. apply wp_bind, wp_modify. rewrite shiftl_size.
  apply (st_mark _ _ _ _ _ h order true) in Hst; [|done].
  apply (st_free_phys _ _ (size order)), (st_weaken _ {[h]}) in Hst; [|set_solver].
  eapply wp_coalesce; [exact Hst|done|unfold PMM_MAX_ORDER in *; lia|].
  intros s1 B1 L1 h1 k1 Hst1 Hh1 Htot1 Hfp1 Hview Hheld Horig.
  eapply wp_give; [exact Hst1|done|]. intros s2 Hst2 Htot2 Hfp2.
  eapply wp_sync; [|intros s3 Hinv Htot3 Hfp3].
  { replace (0 + size order + size k1 - size order - size k1) with 0 in Hst2 by lia.
    eapply st_weaken; [|exact Hst2]. set_solver. }
  eapply HQ; [exact Hinv| |simpl in *; congruence|by rewrite Hfp3, Hfp2, Hfp1].
  split.
  - intros p. by rewrite (page_free_flip _ _ _ _ _ _ Hh1 (st_wf _ _ _ _ _ Hst1)).
  - intros x j. destruct (decide (x = h1)) as [->|].
    + rewrite lookup_insert_eq. split; [naive_solver|]. intros [Hx ?]. by apply Horig in Hx.
    + rewrite lookup_insert_ne by done. by apply Hheld.
Qed.

(** *** Counting: the free pages never exceed the managed ones *)

Definition block_pages (h : Z) (k : nat) : gset Z := list_to_set (seqZ h (size k)).

Lemma elem_of_block_pages h k p : p ∈ block_pages h k ↔ in_block h k p.
Proof. unfold block_pages, in_block. rewrite elem_of_list_to_set, elem_of_seqZ. done. Qed.

Lemma size_block_pages h k : base.size (block_pages h k) = Z.to_nat (size k).
Proof. unfold block_pages. rewrite size_list_to_set by apply NoDup_seqZ. by rewrite length_seqZ. Qed.

Lemma pages_of_list X d s B L k : pmm_st X d s B L → (k < PMM_MAX_ORDER)%nat → ∀ l, l ⊆ L k → NoDup l →
  base.size (⋃ ((λ h, block_pages h k) <$> l)) = (Z.to_nat (size k) * length l)%nat.
Proof.
  intros Hst Hk l. induction l as [|h l IH]; intros Hl HN; [rewrite fmap_nil, union_list_nil, size_empty; cbn; lia|].
  apply NoDup_cons in HN as [Hh HN]. rewrite fmap_cons, union_list_cons, size_union, IH, size_block_pages; [cbn [length]; lia|set_solver|done|].
  intros p Hp Hp'. apply elem_of_union_list in Hp' as (P & HP & Hp'). apply list_elem_of_fmap in HP as (h' & -> & Hh').
  rewrite elem_of_block_pages in Hp, Hp'. unfold in_block in *.
  assert (B !! h = Some (k, true)) as H1 by (apply (st_mem _ _ _ _ _ Hst); [done|set_solver]).
  assert (B !! h' = Some (k, true)) as H2 by (apply (st_mem _ _ _ _ _ Hst); [done|set_solver]).
  destruct (wf_disj _ _ (st_wf _ _ _ _ _ Hst) _ _ _ _ _ _ H1 H2); [set_solver|lia|lia].
Qed.

Lemma sum_orders_bound X d s B L n : pmm_st X d s B L → (n ≤ PMM_MAX_ORDER)%nat →
  ∃ P : gset Z, Z.of_nat (base.size P) = sum_orders n L ∧
    ∀ p, p ∈ P ↔ ∃ h k, B !! h = Some (k, true) ∧ (k < n)%nat ∧ in_block h k p.
Proof.
  intros Hst. induction n as [|n IH]; intros Hn; [exists ∅; split; [done|set_solver by lia]|].
  destruct IH as (P & HP & Hin); [lia|]. cbn [sum_orders].
  exists (P ∪ ⋃ ((λ h, block_pages h n) <$> L n)). split.
  - rewrite size_union, (pages_of_list _ _ _ _ _ _ Hst); [pose proof (size_pos n); lia|lia|done|..].
    + by apply (st_list _ _ _ _ _ Hst).
    + intros p Hp (Q & HQ & Hp')%elem_of_union_list. apply list_elem_of_fmap in HQ as (h' & -> & Hh').
      rewrite elem_of_block_pages in Hp'. destruct (proj1 (Hin _) Hp) as (h & k & Hh & Hk & Hp'').
      apply (st_mem _ _ _ _ _ Hst) in Hh'; [|lia]. unfold in_block in *.
      destruct (wf_disj _ _ (st_wf _ _ _ _ _ Hst) _ _ _ _ _ _ Hh Hh'); [|lia|lia]. intros ->. simplify_eq. lia.
  - intros p. rewrite elem_of_union, Hin, elem_of_union_list. split.
    + intros [(h & k & ? & ? & ?)|(Q & HQ & Hp)]; [exists h, k; split_and!; [done|lia|done]|].
      apply list_elem_of_fmap in HQ as (h & -> & Hh). exists h, n. rewrite elem_of_block_pages in Hp.
      split_and!; [|lia|done]. apply (st_mem _ _ _ _ _ Hst); [lia|done].
    + intros (h & k & Hh & Hk & Hp). destruct (decide (k = n)) as [->|].
      * right. exists (block_pages h n). rewrite elem_of_block_pages. split; [|done].
        apply list_elem_of_fmap. exists h. split; [done|]. apply (st_mem _ _ _ _ _ Hst); [lia|done].
      * left. exists h, k. split_and!; [done|lia|done].
Qed.

Lemma free_sum_bound X d s B L : pmm_st X d s B L → 0 ≤ free_sum L ≤ total_phys_pages s.
Proof.
  intros Hst. destruct (sum_orders_bound _ _ _ _ _ PMM_MAX_ORDER Hst) as (P & HP & Hin); [done|].
  unfold free_sum. rewrite <-HP. split; [lia|]. pose proof (st_range _ _ _ _ _ Hst).
  assert (P ⊆ list_to_set (seqZ 0 (total_phys_pages s))) as Hsub.
  { intros p. rewrite Hin. intros (h & k & Hh & _ & Hp). rewrite elem_of_list_to_set, elem_of_seqZ.
    destruct (wf_block _ _ (st_wf _ _ _ _ _ Hst) _ _ _ Hh) as (?&?&?&?). unfold in_block in Hp. lia. }
  apply subseteq_size in Hsub. rewrite size_list_to_set, length_seqZ in Hsub by apply NoDup_seqZ. lia.
Qed.

Lemma inv_free_pages s B : pmm_inv s B →
  0 ≤ free_phys_pages s ≤ total_phys_pages s ∧
  ∃ P : gset Z, (∀ p, p ∈ P ↔ page_free B p) ∧ Z.of_nat (base.size P) = free_phys_pages s.
Proof.
  intros [[L Hst] _ _]. pose proof (free_sum_bound _ _ _ _ _ Hst) as Hb.
  pose proof (st_range _ _ _ _ _ Hst). rewrite (st_count _ _ _ _ _ Hst), Z.add_0_r.
  rewrite wrap_small by lia. split; [done|].
  destruct (sum_orders_bound _ _ _ _ _ PMM_MAX_ORDER Hst) as (P & HP & Hin); [done|].
  exists P. split; [|done]. intros p. rewrite Hin. split.
  - intros (h & k & ? & _ & ?). by exists h, k.
  - intros (h & k & Hh & ?). exists h, k. destruct (wf_block _ _ (st_wf _ _ _ _ _ Hst) _ _ _ Hh). done.
Qed.

Lemma alloc_run {W} (oom : M (pmm * W) unit) order s w B : pmm_inv s B → (order < PMM_MAX_ORDER)%nat →
  (∃ h s' B', pmm_alloc_pages oom order (s, w) = Ret (h * PAGE_SIZE, (s', w)) ∧ pmm_inv s' B' ∧
     alloc_post (total_phys_pages s) B order h B' ∧ total_phys_pages s' = total_phys_pages s ∧
     free_phys_pages s' = u64 (free_phys_pages s - size order)) ∨
  (∀ h k, B !! h = Some (k, true) → (k < order)%nat) ∧
  pmm_alloc_pages oom order (s, w) = (oom;; mret 0) (s, w).
Proof.
  intros Hinv Hk. unfold pmm_alloc_pages. rewrite (proj2 (Nat.leb_gt _ _)) by done.
  edestruct (wp_run (alloc_loop order order (PMM_MAX_ORDER - order)) s) as (r & s1 & Hrun & HQ).
  { eapply (wp_alloc_loop s B order _ _ (λ r s', match r with
      | Some a => ∃ h B', a = h * PAGE_SIZE ∧ pmm_inv s' B' ∧
         alloc_post (total_phys_pages s) B order h B' ∧ total_phys_pages s' = total_phys_pages s ∧
         free_phys_pages s' = u64 (free_phys_pages s - size order)
      | None => s' = s ∧ ∀ h k, B !! h = Some (k, true) → (k < order)%nat end));
      [done|lia|unfold PMM_MAX_ORDER in *; lia|lia| |done].
    intros h s' B' ????. by exists h, B'. }
  unfold mbind, M_bind, lift_l. rewrite Hrun. destruct r as [a|].
  - left. destruct HQ as (h & B' & -> & ?). by exists h, s1, B'.
  - right. destruct HQ as [-> ?]. done.
Qed.

(** C1.  Allocation returns a block: whenever some free block of at least the
    requested order exists, [pmm_alloc_pages] returns the address of an aligned block
    inside managed memory, all of whose pages were free; exactly these pages
    stop being free, exactly this block is added to the held ones, the free
    page counter drops by [2^order], and the invariant is kept. *)
Theorem pmm_alloc_pages_correct {W} (oom : M (pmm * W) unit) order s w B h0 k0 :
  pmm_inv s B → (order ≤ k0)%nat → B !! h0 = Some (k0, true) →
  ∃ h s' B', pmm_alloc_pages oom order (s, w) = Ret (h * PAGE_SIZE, (s', w)) ∧ pmm_inv s' B' ∧
    alloc_post (total_phys_pages s) B order h B' ∧
    free_phys_pages s' = free_phys_pages s - size order.
Proof.
  intros Hinv Hle Hh0. destruct (inv_st _ _ Hinv) as [L Hst].
  destruct (wf_block _ _ (st_wf _ _ _ _ _ Hst) _ _ _ Hh0) as (Hk & _).
  destruct (alloc_run oom order s w B Hinv) as [(h & s' & B' & Hrun & Hinv' & Hpost & Htot & Hfp)|[Hno _]].
  - lia.
  - exists h, s', B'. split_and!; [done..|]. rewrite Hfp.
    destruct (inv_free_pages _ _ Hinv) as [Hb (P & HP & HPs)]. apply wrap_small.
    assert (block_pages h order ⊆ P) as Hsub%subseteq_size.
    { intros p Hp. apply HP, (ap_was_free _ _ _ _ _ Hpost). by apply elem_of_block_pages. }
    rewrite size_block_pages in Hsub. pose proof (size_pos order). pose proof (st_range _ _ _ _ _ Hst). lia.
  - specialize (Hno _ _ Hh0). lia.
Qed.

(**  Exhaustion: when no free block of the requested order or larger is
    left, the allocator changes nothing, hands over to the out-of-memory
    killer and returns NULL. *)
Lemma pmm_alloc_pages_exhausted {W} (oom : M (pmm * W) unit) order s w B :
  pmm_inv s B → (order < PMM_MAX_ORDER)%nat →
  (∀ h k, B !! h = Some (k, true) → (k < order)%nat) →
  pmm_alloc_pages oom order (s, w) = (oom;; mret 0) (s, w).
Proof.
  intros Hinv Hk Hno. destruct (alloc_run oom order s w B Hinv Hk)
    as [(h & s' & B' & _ & _ & Hpost & _ & _)|[_ Hrun]]; [|done].
  destruct (ap_source _ _ _ _ _ Hpost) as (c & Hc & Hh). specialize (Hno _ _ Hh). lia.
Qed.

(** C2.  Release: freeing a held block with the order it was allocated with
    gives back exactly its pages (merging with free siblings moves no page),
    removes it from the held blocks, raises the free page counter by
    [2^order] and keeps the invariant. *)
Theorem pmm_free_pages_correct s B h order :
  pmm_inv s B → B !! h = Some (order, false) →
  ∃ s' B', pmm_free_pages (h * PAGE_SIZE) order s = Ret (tt, s') ∧ pmm_inv s' B' ∧
    free_post B order h B' ∧ total_phys_pages s' = total_phys_pages s ∧
    free_phys_pages s' = free_phys_pages s + size order.
Proof.
  intros Hinv Hh. destruct (inv_st _ _ Hinv) as [L Hst].
  edestruct (wp_run (pmm_free_pages (h * PAGE_SIZE) order) s) as ([] & s1 & Hrun & HQ).
  { eapply (wp_free _ _ _ _ _ (λ _ s', ∃ B', pmm_inv s' B' ∧ free_post B order h B' ∧
      total_phys_pages s' = total_phys_pages s ∧ free_phys_pages s' = u64 (free_phys_pages s + size order)));
      [exact Hst|done|]. intros s' B' ????. by exists B'. }
  destruct HQ as (B' & Hinv' & Hpost & Htot & Hfp). exists s1, B'. split_and!; [done..|]. rewrite Hfp.
  destruct (inv_free_pages _ _ Hinv) as [Hb (P & HP & HPs)].
  destruct (inv_free_pages _ _ Hinv') as [Hb' (P' & HP' & HPs')]. rewrite Hfp in Hb'.
  destruct (wf_block _ _ (st_wf _ _ _ _ _ Hst) _ _ _ Hh) as (Hk & _ & _ & Hle).
  apply wrap_small. pose proof (size_pos order). pose proof (st_range _ _ _ _ _ Hst).
  assert (size order ≤ total_phys_pages s). { destruct (wf_block _ _ (st_wf _ _ _ _ _ Hst) _ _ _ Hh). lia. }
  lia.
Qed.

(**  Accounting: in every state of the invariant [free_phys_pages] is the number
    of free pages, it never exceeds the managed pages, and the exported totals add up:
    used plus free memory is the total. *)
Lemma pmm_accounting s B : pmm_inv s B →
  (∃ P : gset Z, (∀ p, p ∈ P ↔ page_free B p) ∧ Z.of_nat (base.size P) = pmm_get_free_pages s) ∧
  0 ≤ pmm_get_free_pages s ≤ total_phys_pages s ∧ total_pages s = total_phys_pages s ∧
  (total_phys_pages s < 2 ^ 52 →
   pmm_get_used_memory s + free_memory s = pmm_get_total_memory s).
Proof.
  intros Hinv. destruct (inv_free_pages _ _ Hinv) as [Hb HP]. pose proof (inv_total _ _ Hinv).
  split_and!; [done|unfold pmm_get_free_pages; lia..|done|]. intros Hlt.
  unfold pmm_get_used_memory, pmm_get_total_memory. rewrite (inv_memory _ _ Hinv).
  rewrite (proj2 (Z.ltb_ge _ _)) by lia. unfold PAGE_SIZE. rewrite !wrap_small by lia. lia.
Qed.

(**  Round trip: allocating a block and freeing it again gives back the same
    free pages, the same held blocks and the same counter, whatever splitting and merging happened. *)
Lemma alloc_free_roundtrip {W} (oom : M (pmm * W) unit) order s w B h0 k0 :
  pmm_inv s B → (order ≤ k0)%nat → B !! h0 = Some (k0, true) →
  ∃ a s1 s2 B2, pmm_alloc_pages oom order (s, w) = Ret (a, (s1, w)) ∧
    pmm_free_pages a order s1 = Ret (tt, s2) ∧ pmm_inv s2 B2 ∧
    (∀ p, page_free B2 p ↔ page_free B p) ∧
    (∀ h k, B2 !! h = Some (k, false) ↔ B !! h = Some (k, false)) ∧
    free_phys_pages s2 = free_phys_pages s.
Proof.
  intros Hinv Hle Hh0. destruct (inv_st _ _ Hinv) as [L Hst].
  destruct (wf_block _ _ (st_wf _ _ _ _ _ Hst) _ _ _ Hh0) as (Hk & _).
  destruct (alloc_run oom order s w B Hinv) as [(h & s1 & B1 & Hrun & Hinv1 & [[c [_ Hsrc]] _ _ Hwas Hfree Hheld] & Htot & Hfp)|[Hno _]];
    [lia| |specialize (Hno _ _ Hh0); lia].
  destruct (inv_st _ _ Hinv1) as [L1 Hst1].
  edestruct (wp_run (pmm_free_pages (h * PAGE_SIZE) order) s1) as ([] & s2 & Hrun2 & HQ).
  { eapply (wp_free _ _ _ _ _ (λ _ s', ∃ B', pmm_inv s' B' ∧ free_post B1 order h B' ∧
      free_phys_pages s' = u64 (free_phys_pages s1 + size order))); [exact Hst1|by apply Hheld; right|].
    intros s' B' ????. by exists B'. }
  destruct HQ as (B2 & Hinv2 & [Hfree2 Hheld2] & Hfp2). exists (h * PAGE_SIZE), s1, s2, B2. split_and!; try done.
  - intros p. rewrite Hfree2, Hfree. split; [naive_solver|]. intros ?.
    assert (Decision (in_block h order p)) as [?|?] by (unfold in_block; apply _); tauto.
  - intros x k. rewrite Hheld2, Hheld. split; [naive_solver|]. intros Hx. split; [by left|]. intros ->. congruence.
  - rewrite Hfp2, Hfp, wrap_add_l. destruct (inv_free_pages _ _ Hinv) as [Hb _]. pose proof (st_range _ _ _ _ _ Hst).
    replace (_ - _ + _) with (free_phys_pages s) by lia. apply wrap_small. lia.
Qed.

(**  The double-free guard: releasing again a block that is already free
    and is a block of its own changes nothing. *)
Lemma pmm_double_free_head s B h k order : pmm_inv s B → B !! h = Some (k, true) →
  pmm_free_pages (h * PAGE_SIZE) order s = Ret (tt, s).
Proof.
  intros Hinv Hh. destruct (inv_st _ _ Hinv) as [L Hst]. pose proof (st_wf _ _ _ _ _ Hst) as Hwf.
  destruct (wf_block _ _ Hwf _ _ _ Hh) as (Hk & Hh0 & Hal & Hle). pose proof (size_pos k).
  destruct (proj2 (st_dom _ _ _ _ _ Hst h) ltac:(lia)) as [pg Hpg].
  destruct (st_flags _ _ _ _ _ Hst _ _ _ _ Hh ltac:(set_solver) Hpg) as [Ef _].
  unfold pmm_free_pages, PAGE_SIZE. destruct (_ || _); [done|]. rewrite Z.div_mul by lia.
  unfold mbind, M_bind, gets, load, deref. rewrite (proj2 (Z.leb_gt _ _)) by lia. by rewrite Hpg, Ef.
Qed.

(** *** Boot *)

Definition no_held (B : blocks) : Prop := ∀ h k, B !! h ≠ Some (k, false).

Lemma size_0 : size 0 = 1.
Proof. done. Qed.

(** A frame outside every block becomes a block of its own. *)
Lemma st_new X d s B L p : pmm_st X d s B L → ¬ covered B p → 0 < p < total_phys_pages s →
  pmm_st X d (with_pages (alter (set_order 0) p) (with_pages (alter (set_is_free false) p) s))
    (<[p := (0%nat, false)]> B) L.
Proof.
  intros [Hr Hdom Hlen Hwf Hfl Hre Hl Ha Hm Hc] Hp Hrange.
  assert (B !! p = None) as HNone.
  { destruct (B !! p) as [[k f]|] eqn:E; [|done]. exfalso. apply Hp. exists p, k, f.
    pose proof (size_pos k). split; [done|lia]. }
  assert (∀ h k f, B !! h = Some (k, f) → h ≠ p ∧ (h + size k ≤ p ∨ p + 1 ≤ h)) as Hout.
  { intros h k f Hh. split; [congruence|]. destruct (decide (h ≤ p < h + size k)); [|lia].
    exfalso. apply Hp. by exists h, k, f. }
  split; simpl; try done.
  - intros q. by rewrite !lookup_alter_is_Some.
  - split.
    + intros h k f [[<- [= <- <-]]|[_ Hh]]%lookup_insert_Some; [|by eapply wf_block].
      rewrite size_0, Z.mod_1_r. unfold PMM_MAX_ORDER. split_and!; lia.
    + intros h1 k1 f1 h2 k2 f2 [[<- [= <- <-]]|[_ H1]]%lookup_insert_Some
        [[<- [= <- <-]]|[_ H2]]%lookup_insert_Some Hne; [done|..].
      * rewrite size_0. destruct (Hout _ _ _ H2). lia.
      * rewrite size_0. destruct (Hout _ _ _ H1). lia.
      * by eapply wf_disj.
  - intros h k f pg Hh HX Hpg. destruct (decide (h = p)) as [->|Hne].
    + rewrite lookup_insert_eq in Hh. rewrite !lookup_alter_eq in Hpg.
      destruct (page_array s !! p); by simplify_eq/=.
    + rewrite lookup_insert_ne in Hh by done. rewrite !lookup_alter_ne in Hpg by done. by eapply Hfl.
  - intros q pg Hpg Hf. destruct (decide (q = p)) as [->|Hne].
    + rewrite !lookup_alter_eq in Hpg. destruct (page_array s !! p); by simplify_eq/=.
    + rewrite !lookup_alter_ne in Hpg by done. destruct (Hre _ _ Hpg Hf) as (h & k & f & Hh & ?).
      exists h, k, f. rewrite lookup_insert_ne; [done|congruence].
  - intros j Hj. destruct (Hl j Hj) as [Hd HN]. split; [|done].
    by do 2 (apply dseg_alter_frame; [done|]).
  - intros k h Hk. rewrite Hm by done. destruct (decide (h = p)) as [->|].
    + rewrite lookup_insert_eq, HNone. naive_solver.
    + by rewrite lookup_insert_ne.
Qed.

Lemma covered_no_held B p : no_held B → covered B p ↔ page_free B p.
Proof.
  intros Hno. split.
  - intros (h & k & [] & Hh & ?); [by exists h, k|]. by apply Hno in Hh.
  - intros (h & k & ? & ?). by exists h, k, true.
Qed.

Lemma wp_init_page s B L base p (Q : unit → pmm → Prop) :
  pmm_st ∅ 0 s B L → no_held B → 0 ≤ base + p < total_phys_pages s → ¬ page_free B (base + p) →
  (∀ s' B' L', pmm_st ∅ 0 s' B' L' → no_held B' → total_phys_pages s' = total_phys_pages s →
     (∀ q, page_free B' q ↔ page_free B q ∨ base + p ≠ 0 ∧ q = base + p) → Q tt s') →
  wp (init_page base p) s Q.
Proof.
  intros Hst Hno Hr Hnf HQ. unfold init_page. set (pfn := base + p) in *.
  destruct (Z.eqb_spec pfn 0) as [E|Hne].
  { apply wp_ret. eapply HQ; [done..|]. intros q. tauto. }
  rewrite <-(covered_no_held _ _ Hno) in Hnf.
  apply wp_bind, wp_store; [by apply (st_dom _ _ _ _ _ Hst)|].
  apply wp_bind, wp_store; [by apply lookup_alter_is_Some, (st_dom _ _ _ _ _ Hst)|].
  pose proof (st_new _ _ _ _ _ pfn Hst Hnf ltac:(lia)) as Hst1.
  eapply wp_free; [exact Hst1|by apply lookup_insert_eq|].
  intros s' B' Hinv' [Hfree Hheld] Htot _. destruct (inv_st _ _ Hinv') as [L' Hst'].
  eapply HQ; [exact Hst'| |done|].
  - intros h k Hh. apply Hheld in Hh as [Hh ?]. rewrite lookup_insert_ne in Hh by done. by apply Hno in Hh.
  - intros q. rewrite Hfree. unfold in_block. rewrite size_0.
    assert (page_free (<[pfn := (0%nat, false)]> B) q ↔ page_free B q) as ->; [|naive_solver lia].
    split; intros (h & k & Hh & Hq); exists h, k; (split; [|done]).
    + apply lookup_insert_Some in Hh. naive_solver.
    + rewrite lookup_insert_ne; [done|]. intros <-. apply Hnf. exists pfn, k, true.
      pose proof (size_pos k). split; [done|lia].
Qed.

(** The frames of a usable region. *)
Definition region (e : memmap_entry) (p : Z) : Prop :=
  me_usable e = true ∧ me_base e / PAGE_SIZE ≤ p < me_base e / PAGE_SIZE + me_length e / PAGE_SIZE.

Fixpoint regions_disjoint (map : list memmap_entry) : Prop :=
  match map with
  | [] => True
  | e :: map' => (∀ e' p, e' ∈ map' → region e p → ¬ region e' p) ∧ regions_disjoint map'
  end.

Lemma wp_populate map : ∀ s B L (Q : unit → pmm → Prop),
  pmm_st ∅ 0 s B L → no_held B → regions_disjoint map →
  (∀ e p, e ∈ map → region e p → 0 ≤ p < total_phys_pages s ∧ ¬ page_free B p) →
  (∀ s' B' L', pmm_st ∅ 0 s' B' L' → no_held B' → total_phys_pages s' = total_phys_pages s →
     (∀ q, page_free B' q ↔ page_free B q ∨ q ≠ 0 ∧ ∃ e, e ∈ map ∧ region e q) → Q tt s') →
  wp (populate map) s Q.
Proof.
  induction map as [|e map IH]; intros s B L Q Hst Hno Hdis Hreg HQ; cbn [populate].
  { apply wp_ret. eapply HQ; [done..|]. set_solver. }
  destruct Hdis as [Hdis1 Hdis]. apply wp_bind.
  apply wp_mono with (P := λ _ s', ∃ B' L', pmm_st ∅ 0 s' B' L' ∧ no_held B' ∧
    total_phys_pages s' = total_phys_pages s ∧
    ∀ q, page_free B' q ↔ page_free B q ∨ q ≠ 0 ∧ region e q).
  - destruct (me_usable e) eqn:Eu.
    2: { apply wp_ret. exists B, L. split_and!; [done..|]. unfold region. rewrite Eu. naive_solver. }
    set (b := me_base e / PAGE_SIZE). set (n := me_length e / PAGE_SIZE).
    apply (wp_for_loop (λ i s', ∃ B' L', pmm_st ∅ 0 s' B' L' ∧ no_held B' ∧
      total_phys_pages s' = total_phys_pages s ∧
      ∀ q, page_free B' q ↔ page_free B q ∨ q ≠ 0 ∧ b ≤ q < b + i)).
    + exists B, L. split_and!; [done..|]. intros q. split; [by left|]. intros [?|?]; [done|lia].
    + intros j s' Hj (B' & L' & Hst' & Hno' & Htot' & Hf').
      assert (region e (b + j)) as Hrj by (split; [done|]; fold b n; lia).
      destruct (Hreg e (b + j) ltac:(left) Hrj) as [Hrng Hnf].
      eapply wp_init_page; [exact Hst'|done|by rewrite Htot'|rewrite Hf'; intros [?|?]; [done|lia]|].
      intros s'' B'' L'' ??? Hf''. exists B'', L''. split_and!; [done..|congruence|].
      intros q. rewrite Hf'', Hf'. naive_solver lia.
    + intros s' (B' & L' & ? & ? & ? & Hf'). exists B', L'. split_and!; [done..|].
      intros q. rewrite Hf'. unfold region. rewrite Eu. fold b n. naive_solver lia.
  - intros [] s1 (B1 & L1 & Hst1 & Hno1 & Htot1 & Hf1). eapply IH; [exact Hst1|done|done|..].
    + intros e' p He' Hp. rewrite Htot1. destruct (Hreg e' p ltac:(by right) Hp) as [? Hnf].
      split; [done|]. rewrite Hf1. intros [?|[_ ?]]; [done|]. by eapply Hdis1.
    + intros s2 B2 L2 Hst2 Hno2 Htot2 Hf2. eapply HQ; [exact Hst2|done|congruence|].
      intros q. rewrite Hf2, Hf1. set_solver.
Qed.

Definition entry_ok (e : memmap_entry) : Prop :=
  me_usable e = true → 0 ≤ me_base e ∧ 0 ≤ me_length e ∧ me_base e + me_length e < 2 ^ 64.

Definition top_step (m : Z) (e : memmap_entry) : Z :=
  if me_usable e && (m <? u64 (me_base e + me_length e)) then u64 (me_base e + me_length e) else m.

Lemma max_addr_ge map : ∀ m, Forall entry_ok map → 0 ≤ m < 2 ^ 64 →
  m ≤ foldl top_step m map < 2 ^ 64 ∧
  (∀ e, e ∈ map → me_usable e = true → me_base e + me_length e ≤ foldl top_step m map).
Proof.
  induction map as [|e map IH]; intros m Hok Hm; [cbn [foldl]; split; [lia|set_solver]|].
  apply Forall_cons in Hok as [He Hok]. cbn [foldl].
  pose proof (wrap_range 64 (me_base e + me_length e) ltac:(lia)).
  assert (0 ≤ top_step m e < 2 ^ 64 ∧ m ≤ top_step m e) as [Hs Hsm].
  { unfold top_step. destruct (me_usable e); simpl; [|lia]. destruct (Z.ltb_spec m (u64 (me_base e + me_length e))); lia. }
  destruct (IH (top_step m e) Hok Hs) as [Hb Hall]. split; [lia|].
  intros e' [->|Hin]%elem_of_cons Hu; [|by apply Hall]. destruct (He Hu) as (?&?&?).
  enough (me_base e + me_length e ≤ top_step m e) by lia. unfold top_step. rewrite Hu. simpl.
  rewrite wrap_small by lia. destruct (Z.ltb_spec m (me_base e + me_length e)); lia.
Qed.

Lemma carve_spec need map b map' : 0 ≤ need → need mod PAGE_SIZE = 0 → Forall entry_ok map →
  regions_disjoint map → carve need map = (b, map') → b ≠ 0 →
  regions_disjoint map' ∧ (∀ e' p, e' ∈ map' → region e' p → ∃ e, e ∈ map ∧ region e p) ∧
  (∀ e' p, e' ∈ map' → region e' p → ¬ b / PAGE_SIZE ≤ p < b / PAGE_SIZE + need / PAGE_SIZE) ∧
  (∃ e, e ∈ map ∧ ∀ p, b / PAGE_SIZE ≤ p < b / PAGE_SIZE + need / PAGE_SIZE → region e p).
Proof.
  intros Hn Hal. unfold PAGE_SIZE in *. revert map'.
  induction map as [|e map IH]; intros map' Hok Hdis Hc Hb; simpl in *; [naive_solver|].
  apply Forall_cons in Hok as [He Hok]. destruct Hdis as [Hdis1 Hdis].
  destruct (me_usable e && (need <=? me_length e)) eqn:Et.
  - injection Hc as <- <-. apply andb_true_iff in Et as [Hu Hle%Z.leb_le].
    destruct (He Hu) as (Hb0 & Hl0 & Hend). apply Z.mod_divide in Hal as [x ->]; [|lia].
    assert (region e = λ p, me_usable e = true ∧ me_base e / 4096 ≤ p < me_base e / 4096 + me_length e / 4096) as Er by done.
    set (e' := mk_entry true (u64 (me_base e + x * 4096)) (me_length e - x * 4096)).
    assert (∀ p, region e' p ↔ me_base e / 4096 + x ≤ p < me_base e / 4096 + me_length e / 4096) as Er'.
    { intros p. unfold region, e', PAGE_SIZE. simpl. rewrite wrap_small by lia.
      rewrite Z.div_add by lia. replace (me_length e - x * 4096) with (me_length e + (- x) * 4096) by lia.
      rewrite Z.div_add by lia. split; [intros [_ ?]; lia|intros; split; [done|lia]]. }
    assert (∀ p, region e' p → region e p) as Hsub.
    { intros p Hp%Er'. rewrite Er. split; [done|]. lia. }
    rewrite Z.div_mul by lia. split; [split; [|done]|split_and!].
    + intros e1 p H1 Hp. by apply Hdis1; [|apply Hsub].
    + intros e1 p [->|H1]%elem_of_cons Hp; [exists e; split; [left|by apply Hsub]|exists e1; split; [by right|done]].
    + assert (x ≤ me_length e / 4096) by (apply Z.div_le_lower_bound; lia).
      intros e1 p [->|H1]%elem_of_cons Hp Hin; [apply Er' in Hp; lia|].
      apply (Hdis1 e1 p H1); [|done]. rewrite Er. split; [done|lia].
    + assert (x ≤ me_length e / 4096) by (apply Z.div_le_lower_bound; lia).
      exists e. split; [left|]. intros p Hp. rewrite Er. split; [done|lia].
  - destruct (carve need map) as [b' r] eqn:Ec. injection Hc as -> <-.
    destruct (IH r Hok Hdis eq_refl Hb) as (H1 & H2 & H3 & (e0 & He0 & H4)).
    split; [split; [|done]|split_and!].
    + intros e1 p Hin Hp Hp'. destruct (H2 _ _ Hin Hp') as (e2 & ? & ?). by eapply Hdis1.
    + intros e1 p [->|Hin]%elem_of_cons Hp; [exists e; split; [left|done]|].
      destruct (H2 _ _ Hin Hp) as (e2 & ? & ?). exists e2. split; [by right|done].
    + intros e1 p [->|Hin]%elem_of_cons Hp Hrange; [|by eapply H3].
      apply (Hdis1 e0 p He0 Hp). by apply H4.
    + exists e0. split; [by right|done].
Qed.

Lemma init_pages_lookup total p : 0 ≤ total →
  (list_to_map ((λ p, (p, zero_page)) <$> seqZ 0 total) : gmap Z pmm_page) !! p =
  if decide (0 ≤ p < total) then Some zero_page else None.
Proof.
  intros Ht. set (l := (λ p, (p, zero_page)) <$> seqZ 0 total).
  assert (l.*1 = seqZ 0 total) as El.
  { unfold l. rewrite <-list_fmap_compose. apply list_fmap_id. }
  case_decide as Hp.
  - apply elem_of_list_to_map_1; [rewrite El; apply NoDup_seqZ|].
    apply list_elem_of_fmap. exists p. rewrite elem_of_seqZ. split; [done|lia].
  - apply not_elem_of_list_to_map_1. rewrite El, elem_of_seqZ. lia.
Qed.

(** The empty allocator over a zeroed descriptor array. *)
Lemma st_boot total s : 0 ≤ total ≤ 2 ^ 52 → free_phys_pages s = 0 →
  pmm_st ∅ 0 (mk_pmm (list_to_map ((λ p, (p, zero_page)) <$> seqZ 0 total))
     (replicate PMM_MAX_ORDER (mk_area None 0)) total (free_phys_pages s) (total_pages s) (free_memory s))
     ∅ (λ _, []).
Proof.
  intros Ht Hf. split; simpl; try done.
  - intros p. rewrite init_pages_lookup by lia. case_decide; [|by split; [intros [??]|]]. naive_solver.
  - intros p pg. rewrite init_pages_lookup by lia. case_decide; [|done]. by intros [= <-].
  - intros k Hk. by split; [|constructor].
  - intros k Hk. exact (lookup_replicate_2 PMM_MAX_ORDER _ k Hk).
  - intros k h Hk. rewrite lookup_empty. set_solver.
Qed.

Lemma init_correct map s0 b map' :
  Forall entry_ok map → regions_disjoint map → free_phys_pages s0 = 0 →
  let total := max_addr map / PAGE_SIZE in
  let need := u64 (u64 (total * sizeof_pmm_page) + PAGE_SIZE - 1) / PAGE_SIZE * PAGE_SIZE in
  carve need map = (b, map') → b ≠ 0 →
  ∃ s B, pmm_init (Some map) s0 = Ret (tt, s) ∧ pmm_inv s B ∧ no_held B ∧
    total_phys_pages s = total ∧
    (∀ p, page_free B p ↔ p ≠ 0 ∧ ∃ e, e ∈ map' ∧ region e p) ∧
    (∀ p, b / PAGE_SIZE ≤ p < b / PAGE_SIZE + need / PAGE_SIZE → ¬ page_free B p).
Proof.
  intros Hok Hdis Hfp total need Hc Hb.
  destruct (max_addr_ge map 0 Hok ltac:(lia)) as [Hmax Hall]. change (foldl top_step 0 map) with (max_addr map) in *.
  assert (0 ≤ total ≤ 2 ^ 52) as Ht.
  { unfold total, PAGE_SIZE. pose proof (Z.div_pos (max_addr map) 4096). pose proof (Z.div_lt_upper_bound (max_addr map) 4096 (2 ^ 52)). lia. }
  assert (0 ≤ need ∧ need mod PAGE_SIZE = 0) as [Hn Hal].
  { unfold need, PAGE_SIZE in *. pose proof (wrap_range 64 (u64 (total * sizeof_pmm_page) + 4096 - 1)).
    split; [|apply Z_mod_mult]. pose proof (Z.div_pos (u64 (u64 (total * sizeof_pmm_page) + 4096 - 1)) 4096). lia. }
  destruct (carve_spec need map b map' Hn Hal Hok Hdis Hc Hb) as (Hdis' & Hsub & Harr & _).
  enough (wp (pmm_init (Some map)) s0 (λ _ s, ∃ B, pmm_inv s B ∧ no_held B ∧
    total_phys_pages s = total ∧ (∀ p, page_free B p ↔ p ≠ 0 ∧ ∃ e, e ∈ map' ∧ region e p) ∧
    (∀ p, b / PAGE_SIZE ≤ p < b / PAGE_SIZE + need / PAGE_SIZE → ¬ page_free B p)))
    as ([] & s & Hrun & B & HQ)%wp_run by (by exists s, B).
  unfold pmm_init. fold total. change (u64 (u64 (total * sizeof_pmm_page) + PAGE_SIZE - 1) / PAGE_SIZE * PAGE_SIZE) with need.
  rewrite Hc, (proj2 (Z.eqb_neq _ _)) by done. apply wp_bind, wp_modify, wp_bind.
  eapply wp_populate; [apply st_boot; done|intros h k; by rewrite lookup_empty|done|..].
  - intros e p He Hp. destruct (Hsub _ _ He Hp) as (e0 & He0 & [Hu Hp0]). simpl.
    rewrite Forall_forall in Hok. destruct (Hok e0 He0 Hu) as (?&?&?). specialize (Hall e0 He0 Hu).
    unfold total, PAGE_SIZE in *. pose proof (Z.div_pos (me_base e0) 4096).
    assert (me_base e0 / 4096 + me_length e0 / 4096 ≤ max_addr map / 4096).
    { apply Z.div_le_lower_bound; [lia|]. pose proof (Z.mul_div_le (me_base e0) 4096). pose proof (Z.mul_div_le (me_length e0) 4096). lia. }
    split; [lia|]. intros (h & k & Hh & _). by rewrite lookup_empty in Hh.
  - intros s1 B L Hst Hno Htot Hfree. eapply wp_sync; [exact Hst|]. intros s2 Hinv Htot2 _. exists B.
    assert (∀ p, page_free B p ↔ p ≠ 0 ∧ ∃ e, e ∈ map' ∧ region e p) as Hpf.
    { intros p. rewrite Hfree. split; [|by right]. intros [(h & k & Hh & _)|?]; [by rewrite lookup_empty in Hh|done]. }
    split_and!; [done..|by rewrite Htot2, Htot|done|].
    intros p Hp (_ & e & He & Hr)%Hpf. by eapply Harr.
Qed.

(** [carve] takes the first usable region that is large enough and leaves the
    rest of that region and every other entry in the map. *)
Lemma carve_first need pre e post :
  Forall (λ e', me_usable e' = true → me_length e' < need) pre →
  me_usable e = true → need ≤ me_length e →
  carve need (pre ++ e :: post) =
    (me_base e, pre ++ mk_entry true (u64 (me_base e + need)) (me_length e - need) :: post).
Proof.
  intros Hpre Hu Hle. induction Hpre as [|e' pre Hlt _ IH]; simpl.
  - rewrite Hu, (proj2 (Z.leb_le _ _)) by done. done.
  - rewrite IH. destruct (me_usable e') eqn:Eu; [|done]. simpl.
    rewrite (proj2 (Z.leb_gt _ _)) by (by apply Hlt). done.
Qed.

(** No page of the map but those of the array is lost by [carve]. *)
Lemma carve_keeps need pre e post p : 0 ≤ need → need mod PAGE_SIZE = 0 → entry_ok e →
  me_usable e = true → need ≤ me_length e →
  (∃ e', e' ∈ pre ++ e :: post ∧ region e' p) →
  ¬ me_base e / PAGE_SIZE ≤ p < me_base e / PAGE_SIZE + need / PAGE_SIZE →
  ∃ e', e' ∈ pre ++ mk_entry true (u64 (me_base e + need)) (me_length e - need) :: post ∧ region e' p.
Proof.
  intros Hn Hal He Hu Hle (e' & Hin & Hr) Hout. destruct (He Hu) as (? & ? & ?).
  apply elem_of_app in Hin as [Hin|[->|Hin]%elem_of_cons].
  1,3: exists e'; split; [set_solver|done].
  eexists. split; [apply elem_of_app; right; left|]. destruct Hr as [_ Hr].
  unfold region, PAGE_SIZE in *. simpl. apply Z.mod_divide in Hal as [x ->]; [|lia].
  rewrite Z.div_mul in Hout by lia. rewrite wrap_small by lia. rewrite Z.div_add by lia.
  replace (me_length e - x * 4096) with (me_length e + (- x) * 4096) by lia.
  rewrite Z.div_add by lia. split; [done|lia].
Qed.

(** [top] is the end of the highest usable region of [map]. *)
Definition highest_end (map : list memmap_entry) (top : Z) : Prop :=
  (∀ e, e ∈ map → me_usable e = true → me_base e + me_length e ≤ top) ∧
  (∃ e, e ∈ map ∧ me_usable e = true ∧ me_base e + me_length e = top).

Lemma foldl_top_le map top : ∀ m, Forall entry_ok map → 0 ≤ m ≤ top →
  (∀ e, e ∈ map → me_usable e = true → me_base e + me_length e ≤ top) →
  foldl top_step m map ≤ top.
Proof.
  induction map as [|e map IH]; intros m Hok Hm Htop; simpl; [lia|].
  apply Forall_cons in Hok as [He Hok]. apply IH; [done| |set_solver].
  unfold top_step. destruct (me_usable e) eqn:Eu; simpl; [|lia].
  destruct (He Eu) as (? & ? & ?). specialize (Htop e ltac:(left) Eu).
  rewrite wrap_small by lia. destruct (Z.ltb_spec m (me_base e + me_length e)); lia.
Qed.

Lemma max_addr_highest map top : Forall entry_ok map → highest_end map top →
  max_addr map = top ∧ 0 ≤ top < 2 ^ 64.
Proof.
  intros Hok [Hall (e & He & Hu & Hend)].
  destruct (proj1 (Forall_forall _ _) Hok e He Hu) as (? & ? & ?).
  pose proof (foldl_top_le map top 0 Hok ltac:(lia) Hall).
  destruct (max_addr_ge map 0 Hok ltac:(lia)) as [_ Hge]. specialize (Hge e He Hu).
  change (foldl top_step 0 map) with (max_addr map) in *. lia.
Qed.

(** The bytes of the descriptor array of [total] pages, in whole pages. *)
Definition array_bytes (total : Z) : Z :=
  (total * sizeof_pmm_page + PAGE_SIZE - 1) / PAGE_SIZE * PAGE_SIZE.

(** The sizes [pmm_init] computes at 64 bits do not wrap. *)
Lemma array_bytes_u64 total : 0 ≤ total ≤ 2 ^ 52 →
  u64 (u64 (total * sizeof_pmm_page) + PAGE_SIZE - 1) / PAGE_SIZE * PAGE_SIZE = array_bytes total.
Proof.
  intros Ht. unfold array_bytes, sizeof_pmm_page, PAGE_SIZE.
  rewrite (wrap_small 64 (total * _)) by lia. rewrite wrap_small by lia. done.
Qed.

(** C3.  Boot, for a memory map whose usable regions do not overlap: let [top]
    be the end of the highest usable region and [e0] the first usable region
    that can hold the descriptors of the [top / PAGE_SIZE] pages (and does not
    start at address 0).  Then [pmm_init] returns with the invariant
    established and nothing held, it knows [top / PAGE_SIZE] pages, and the
    free pages are exactly the pages of the usable regions of the map it was
    given, except page 0 and except the pages at the start of [e0] that hold
    the descriptor array. *)
Theorem pmm_init_correct map s0 top pre e0 post :
  Forall entry_ok map → regions_disjoint map → free_phys_pages s0 = 0 → highest_end map top →
  let total := top / PAGE_SIZE in
  let need := array_bytes total in
  map = pre ++ e0 :: post → Forall (λ e, me_usable e = true → me_length e < need) pre →
  me_usable e0 = true → need ≤ me_length e0 → me_base e0 ≠ 0 →
  ∃ s B, pmm_init (Some map) s0 = Ret (tt, s) ∧ pmm_inv s B ∧ no_held B ∧
    total_phys_pages s = total ∧
    (∀ p, page_free B p ↔ p ≠ 0 ∧ (∃ e, e ∈ map ∧ region e p) ∧
       ¬ (me_base e0 / PAGE_SIZE ≤ p < me_base e0 / PAGE_SIZE + need / PAGE_SIZE)).
Proof.
  intros Hok Hdis Hfp Htop total need -> Hpre Hu Hle Hb.
  destruct (max_addr_highest _ _ Hok Htop) as [Emax Ht].
  assert (0 ≤ total ≤ 2 ^ 52) as Htot.
  { unfold total, PAGE_SIZE. pose proof (Z.div_pos top 4096). pose proof (Z.div_lt_upper_bound top 4096 (2 ^ 52)). lia. }
  assert (0 ≤ need ∧ need mod PAGE_SIZE = 0) as [Hn Hal].
  { unfold need, array_bytes, sizeof_pmm_page, PAGE_SIZE. split; [|apply Z_mod_mult].
    pose proof (Z.div_pos (total * 24 + 4096 - 1) 4096). lia. }
  pose proof (carve_first need pre e0 post Hpre Hu Hle) as Hc.
  destruct (carve_spec _ _ _ _ Hn Hal Hok Hdis Hc Hb) as (_ & Hsub & Harr & _).
  assert (entry_ok e0) as He0 by (apply (proj1 (Forall_forall _ _) Hok); set_solver).
  unfold need in Hc. rewrite <-(array_bytes_u64 total Htot) in Hc. unfold total in Hc. rewrite <-Emax in Hc.
  destruct (init_correct _ s0 _ _ Hok Hdis Hfp Hc Hb) as (s & B & Hrun & Hinv & Hno & Etot & Hf & _).
  rewrite Emax in Hf. fold total in Hf. rewrite (array_bytes_u64 total Htot) in Hf. fold need in Hf.
  exists s, B. split_and!; [done..|by rewrite Etot, Emax|]. intros p. rewrite Hf. split.
  - intros [? (e & He & Hr)]. split_and!; [done|by eapply Hsub|by eapply Harr].
  - intros (? & He & Hout). split; [done|]. by apply carve_keeps.
Qed.

(** *** A small machine: eight pages, one usable region from page 1 *)

Definition small_map : list memmap_entry := [mk_entry true 4096 (7 * 4096)].

Lemma small_map_ok : Forall entry_ok small_map ∧ regions_disjoint small_map.
Proof. split; [constructor; [|done]; intros _; simpl; lia|]. split; [set_solver|done]. Qed.

Lemma small_region p : region (mk_entry true 8192 (6 * 4096)) p ↔ 2 ≤ p < 8.
Proof.
  unfold region, PAGE_SIZE. cbn [me_base me_length me_usable].
  change (8192 / 4096) with 2. change (6 * 4096 / 4096) with 6. split; [intros [_ ?]; lia|split; [done|lia]].
Qed.

Lemma small_boot : ∃ s B, pmm_init (Some small_map) boot_state = Ret (tt, s) ∧ pmm_inv s B ∧
  no_held B ∧ total_phys_pages s = 8 ∧ ∀ p, page_free B p ↔ 2 ≤ p < 8.
Proof.
  destruct small_map_ok as [Hok Hd].
  destruct (init_correct small_map boot_state 4096 [mk_entry true 8192 (6 * 4096)] Hok Hd eq_refl)
    as (s & B & Hrun & Hinv & Hno & Ht & Hf & _); [by vm_compute|done|].
  exists s, B. split_and!; [done..|]. intros p. rewrite Hf. split.
  - intros (_ & e & ->%list_elem_of_singleton & Hp). exact (proj1 (small_region p) Hp).
  - intros Hp. split; [lia|]. exists (mk_entry true 8192 (6 * 4096)). split; [left|]. exact (proj2 (small_region p) Hp).
Qed.

Lemma small_highest_end : highest_end small_map (8 * 4096).
Proof.
  split; [intros e ->%list_elem_of_singleton _; simpl; lia|].
  exists (mk_entry true 4096 (7 * 4096)). split_and!; [left|done..].
Qed.

Lemma pmm_init_correct_witness : ∃ s B, pmm_init (Some small_map) boot_state = Ret (tt, s) ∧
  pmm_inv s B ∧ no_held B ∧ total_phys_pages s = 8 ∧ page_free B 2 ∧ page_free B 7 ∧ ¬ page_free B 1.
Proof.
  destruct small_map_ok as [Hok Hd].
  destruct (pmm_init_correct small_map boot_state (8 * 4096) [] (mk_entry true 4096 (7 * 4096)) []
    Hok Hd eq_refl small_highest_end eq_refl ltac:(constructor) eq_refl ltac:(by vm_compute) ltac:(done))
    as (s & B & Hrun & Hinv & Hno & Ht & Hf).
  assert (∀ p, 1 ≤ p < 8 → ∃ e, e ∈ small_map ∧ region e p) as Hr.
  { intros p Hp. exists (mk_entry true 4096 (7 * 4096)). split; [left|]. split; [done|].
    change (1 ≤ p < 1 + 7). lia. }
  change (me_base (mk_entry true 4096 (7 * 4096)) / PAGE_SIZE) with 1 in Hf.
  change (array_bytes (8 * 4096 / PAGE_SIZE) / PAGE_SIZE) with 1 in Hf.
  exists s, B. do 4 (split; [done|]).
  split; [apply Hf; split_and!; [lia|apply Hr; lia|lia]|].
  split; [apply Hf; split_and!; [lia|apply Hr; lia|lia]|].
  intros (_ & _ & Hout)%Hf. lia.
Defined.

Lemma pmm_alloc_pages_correct_witness : ∃ s B h s' B', pmm_inv s B ∧
  pmm_alloc_pages (mret tt) 0 (s, tt) = Ret (h * PAGE_SIZE, (s', tt)) ∧ pmm_inv s' B' ∧ 2 ≤ h < 8.
Proof.
  destruct small_boot as (s & B & _ & Hinv & _ & _ & Hf).
  destruct (proj2 (Hf 5)) as (h0 & k0 & Hh0 & _); [lia|].
  destruct (pmm_alloc_pages_correct (mret tt) 0 s tt B h0 k0 Hinv ltac:(lia) Hh0) as (h & s' & B' & ? & ? & Hp & _).
  exists s, B, h, s', B'. split_and!; try done.
  - apply Hf, (ap_was_free _ _ _ _ _ Hp). unfold in_block. rewrite size_0. lia.
  - apply Hf, (ap_was_free _ _ _ _ _ Hp). unfold in_block. rewrite size_0. lia.
Defined.

Lemma pmm_alloc_pages_exhausted_witness : ∃ s B, pmm_inv s B ∧
  pmm_alloc_pages (mret tt) 5 (s, tt) = Ret (0, (s, tt)).
Proof.
  destruct small_boot as (s & B & _ & Hinv & _ & Ht & Hf).
  exists s, B. split; [done|]. rewrite (pmm_alloc_pages_exhausted (mret tt) 5 s tt B Hinv); [done|unfold PMM_MAX_ORDER; lia|].
  intros h k Hh. destruct (inv_st _ _ Hinv) as [L Hst].
  destruct (wf_block _ _ (st_wf _ _ _ _ _ Hst) _ _ _ Hh) as (_ & ? & _ & Hle). rewrite Ht in Hle.
  destruct (decide (k < 5)%nat) as [|Hge]; [done|]. pose proof (size_le 5 k ltac:(lia)).
  change (size 5) with 32 in *. lia.
Defined.

(** A state in which a client holds one page. *)
Lemma small_held : ∃ s B h, pmm_inv s B ∧ B !! h = Some (0%nat, false).
Proof.
  destruct small_boot as (s & B & _ & Hinv & _ & Ht & Hf).
  destruct (alloc_run (mret tt) 0 s tt B Hinv) as [(h & s' & B' & _ & Hinv' & Hp & _)|[Hno _]];
    [unfold PMM_MAX_ORDER; lia| |].
  - exists s', B', h. split; [done|]. apply (ap_held _ _ _ _ _ Hp). by right.
  - destruct (proj2 (Hf 5)) as (h0 & k0 & Hh0 & _); [lia|]. specialize (Hno _ _ Hh0). lia.
Qed.

Lemma pmm_free_pages_correct_witness : ∃ s B h s' B', pmm_inv s B ∧ B !! h = Some (0%nat, false) ∧
  pmm_free_pages (h * PAGE_SIZE) 0 s = Ret (tt, s') ∧ pmm_inv s' B' ∧
  free_phys_pages s' = free_phys_pages s + 1.
Proof.
  destruct small_held as (s & B & h & Hinv & Hh).
  destruct (pmm_free_pages_correct s B h 0 Hinv Hh) as (s' & B' & ? & ? & _ & _ & ?).
  exists s, B, h, s', B'. split_and!; assumption.
Defined.

Lemma pmm_accounting_witness : ∃ s B, pmm_inv s B ∧
  pmm_get_used_memory s + free_memory s = pmm_get_total_memory s.
Proof.
  destruct small_boot as (s & B & _ & Hinv & _ & Ht & _). exists s, B. split; [done|].
  apply (pmm_accounting s B Hinv). rewrite Ht. lia.
Defined.

Lemma alloc_free_roundtrip_witness : ∃ s B a s1 s2, pmm_inv s B ∧
  pmm_alloc_pages (mret tt) 1 (s, tt) = Ret (a, (s1, tt)) ∧ pmm_free_pages a 1 s1 = Ret (tt, s2) ∧
  free_phys_pages s2 = free_phys_pages s.
Proof.
  destruct small_boot as (s & B & Hrun & Hinv & _ & _ & Hf).
  destruct (alloc_run (mret tt) 1 s tt B Hinv) as [(h & s0 & B0 & _ & _ & Hp & _)|[_ Hno]];
    [unfold PMM_MAX_ORDER; lia| |].
  - destruct (ap_source _ _ _ _ _ Hp) as (c & Hc & Hh).
    destruct (alloc_free_roundtrip (mret tt) 1 s tt B h c Hinv Hc Hh) as (a & s1 & s2 & B2 & ? & ? & _ & _ & _ & ?).
    exists s, B, a, s1, s2. split_and!; assumption.
  - exfalso. vm_compute in Hrun. injection Hrun as <-. by vm_compute in Hno.
Defined.

Lemma pmm_double_free_head_witness : ∃ s B h k, pmm_inv s B ∧ B !! h = Some (k, true) ∧
  pmm_free_pages (h * PAGE_SIZE) 0 s = Ret (tt, s).
Proof.
  destruct small_boot as (s & B & _ & Hinv & _ & _ & Hf).
  destruct (proj2 (Hf 5)) as (h & k & Hh & _); [lia|]. exists s, B, h, k.
  split_and!; [done..|]. by apply (pmm_double_free_head s B h k 0 Hinv Hh).
Defined.

(** *** A page released twice after it was merged *)

Definition no_oom : M (pmm * unit) unit := mret tt.

Definition free1 (ptr : Z) : M (pmm * unit) unit := lift_l (pmm_free_pages ptr 0).

(** Two sibling pages are allocated, the upper one is released, then the
    lower one (they merge), then the upper one a second time; a page and a
    block of two pages are allocated next. *)
Definition double_free_run : M (pmm * unit) (Z * Z) :=
  lift_l (pmm_init (Some small_map));;
  a ← pmm_alloc_pages no_oom 0;
  b ← pmm_alloc_pages no_oom 0;
  free1 b;; free1 a;; free1 b;;
  p ← pmm_alloc_pages no_oom 0;
  q ← pmm_alloc_pages no_oom 1;
  mret (p, q).

(**  The guard marked as preventing double frees looks only at the
    descriptor of the released page, and merging clears that mark on the
    upper sibling: a second release of a page that was merged from above is
    accepted, and page 3 is then handed out twice, alone and inside the
    block of pages 2 and 3. *)
Lemma pmm_double_free_merged :
  ∃ s, double_free_run (boot_state, tt) = Ret ((3 * PAGE_SIZE, 2 * PAGE_SIZE), (s, tt)).
Proof. eexists. vm_compute. reflexivity. Qed.

End PmmSpec.
