(* ===== verification/Pages.v ===== *)
(** * The page allocator as its clients see it

    Page tables, shared memory and the heap take pages from the physical
    memory manager and give them back.  [PageOps] holds the calls they make,
    [PageLaws] what they rely on, stated over a view of the allocator: the set
    of free pages and the blocks handed out, both by physical address.  The
    buddy allocator is an instance. *)
From S2P Require Import Prelude Pmm PmmSpec.

(** The free pages, and the order of every block a client holds. *)
Record pview := mk_view { pv_free : gset Z; pv_held : gmap Z nat }.

(** The pages of a block. *)
Definition pblock (p : Z) (k : nat) : gset Z :=
  list_to_set ((λ i, p + 4096 * i) <$> seqZ 0 (2 ^ Z.of_nat k)).

Class PageOps (A : Type) := {
  page_alloc : nat → M A Z; (* 0 when there is no block *)
  page_free : Z → nat → M A unit;
  ram_end : A → Z;
}.

Class PageLaws (A : Type) `{PageOps A} := {
  pa_rep : A → pview → Prop;
  free_range a v p : pa_rep a v → p ∈ pv_free v → 0 < p ∧ p mod 4096 = 0 ∧ p + 4096 ≤ ram_end a;
  held_range a v p k : pa_rep a v → pv_held v !! p = Some k →
    0 < p ∧ p mod 4096 = 0 ∧ p + 2 ^ Z.of_nat k * 4096 ≤ ram_end a;
  held_free a v p k : pa_rep a v → pv_held v !! p = Some k → pblock p k ## pv_free v;
  held_disj a v p k q j : pa_rep a v → pv_held v !! p = Some k → pv_held v !! q = Some j → p ≠ q →
    pblock p k ## pblock q j;
  alloc_law a v k : pa_rep a v → (k < Pmm.PMM_MAX_ORDER)%nat → wp (page_alloc k) a (λ p a',
    ram_end a' = ram_end a ∧
    ((p = 0 ∧ (k = 0%nat → pv_free v = ∅) ∧ a' = a) ∨
     (p ≠ 0 ∧ pblock p k ⊆ pv_free v ∧ p mod (2 ^ Z.of_nat k * 4096) = 0 ∧
      pa_rep a' (mk_view (pv_free v ∖ pblock p k) (<[p := k]> (pv_held v))))));
  alloc_big a k : (Pmm.PMM_MAX_ORDER ≤ k)%nat → wp (page_alloc k) a (λ p a', p = 0 ∧ a' = a);
  free_law a v p k : pa_rep a v → pv_held v !! p = Some k → wp (page_free p k) a (λ _ a',
    ram_end a' = ram_end a ∧ pa_rep a' (mk_view (pv_free v ∪ pblock p k) (delete p (pv_held v))));
}.

Lemma elem_of_pblock p k q : q ∈ pblock p k ↔ ∃ i, 0 ≤ i < 2 ^ Z.of_nat k ∧ q = p + 4096 * i.
Proof.
  unfold pblock. rewrite elem_of_list_to_set, list_elem_of_fmap. setoid_rewrite elem_of_seqZ.
  split; intros (i & ? & ?); exists i; (split; [lia|done]) || (split; [done|lia]).
Qed.

Lemma pblock_0 p : pblock p 0 = {[p]}.
Proof.
  apply set_eq. intros q. rewrite elem_of_pblock, elem_of_singleton. simpl.
  split; [intros (i & ? & ->); lia|intros ->; exists 0; lia].
Qed.

Lemma page_of_block p k : p ∈ pblock p k.
Proof. apply elem_of_pblock. exists 0. lia. Qed.

Section Clients.
  Context {A : Type} `{PageLaws A}.
  Implicit Types (a : A) (v : pview).

(** One page: [pmm_alloc] with memory left. *)
Lemma alloc_page_law a v : pa_rep a v → pv_free v ≠ ∅ → wp (page_alloc 0) a (λ p a',
  ram_end a' = ram_end a ∧ p ∈ pv_free v ∧ pa_rep a' (mk_view (pv_free v ∖ {[p]}) (<[p := 0%nat]> (pv_held v)))).
Proof.
  intros Hr Hne. eapply wp_mono; [apply (alloc_law a v 0); [done|unfold Pmm.PMM_MAX_ORDER; lia]|].
  intros p a' [He [(-> & Hz & _)|(Hp & Hsub & _ & Hr')]]; [by rewrite Hz in Hne|].
  rewrite pblock_0 in *. split_and!; [done|set_solver|done].
Qed.

Lemma held_not_free a v p k : pa_rep a v → pv_held v !! p = Some k → p ∉ pv_free v.
Proof. intros Hr Hp. pose proof (held_free _ _ _ _ Hr Hp). pose proof (page_of_block p k). set_solver. Qed.

(** Give back single pages one after the other. *)
Fixpoint free_all (l : list Z) : M A unit :=
  match l with [] => mret tt | p :: l' => page_free p 0;; free_all l' end.

Definition release (l : list Z) v : pview :=
  mk_view (pv_free v ∪ list_to_set l) (foldr delete (pv_held v) l).

Lemma foldr_delete_notin (l : list Z) (m : gmap Z nat) p : p ∉ l → foldr delete m l !! p = m !! p.
Proof.
  induction l as [|q l IH]; simpl; [done|]. intros Hp. rewrite lookup_delete_ne by set_solver. apply IH. set_solver.
Qed.

Lemma foldr_delete_delete (l : list Z) (m : gmap Z nat) p : foldr delete (delete p m) l = delete p (foldr delete m l).
Proof. induction l as [|q l IH]; simpl; [done|]. by rewrite IH, delete_delete. Qed.

Lemma free_all_law l : ∀ a v, pa_rep a v → NoDup l → (∀ p, p ∈ l → pv_held v !! p = Some 0%nat) →
  wp (free_all l) a (λ _ a', ram_end a' = ram_end a ∧ pa_rep a' (release l v)).
Proof.
  induction l as [|p l IH]; intros a v Hr Hnd Hl; simpl.
  - apply wp_ret. split; [done|]. unfold release. simpl. by rewrite union_empty_r_L; destruct v.
  - apply NoDup_cons in Hnd as [Hp Hnd]. apply wp_bind. eapply wp_mono; [apply free_law; [done|apply Hl; set_solver]|].
    intros [] a1 [He Hr1]. eapply wp_mono; [apply (IH _ _ Hr1 Hnd)|].
    + intros q Hq. cbn [pv_held]. rewrite lookup_delete_ne by set_solver. apply Hl. set_solver.
    + intros [] a2 [He2 Hr2]. split; [congruence|]. unfold release in *. cbn [pv_free pv_held foldr list_to_set] in *.
      rewrite pblock_0, foldr_delete_delete in Hr2. cbn. by rewrite (assoc_L (∪)).
Qed.

End Clients.

(** ** The buddy allocator as an instance *)
Module PmmPages.
Import Pmm PmmSpec.

#[global] Instance pmm_pages : PageOps (pmm * unit) :=
  Build_PageOps _ (pmm_alloc_pages no_oom) (λ p k, lift_l (pmm_free_pages p k))
    (λ a, total_phys_pages a.1 * PAGE_SIZE).

Definition pages_rep (a : pmm * unit) (v : pview) : Prop :=
  ∃ B, pmm_inv a.1 B ∧
    (∀ p, p ∈ pv_free v ↔ ∃ f, p = f * PAGE_SIZE ∧ PmmSpec.page_free B f) ∧
    (∀ p k, pv_held v !! p = Some k ↔ ∃ h, p = h * PAGE_SIZE ∧ B !! h = Some (k, false)).

Lemma block_pfn h k q : q ∈ pblock (h * PAGE_SIZE) k ↔ ∃ f, q = f * PAGE_SIZE ∧ in_block h k f.
Proof.
  rewrite elem_of_pblock. unfold PAGE_SIZE, in_block, size. split.
  - intros (i & Hi & ->). exists (h + i). lia.
  - intros (f & -> & Hf). exists (f - h). lia.
Qed.

Lemma page_inj x y : x * PAGE_SIZE = y * PAGE_SIZE → x = y.
Proof. unfold PAGE_SIZE. lia. Qed.

Lemma inv_wf s B : pmm_inv s B → blocks_wf (total_phys_pages s) B.
Proof. intros [[L Hst] _ _]. apply (st_wf _ _ _ _ _ Hst). Qed.

Lemma blocks_apart s B h1 k1 f1 h2 k2 f2 p : pmm_inv s B → B !! h1 = Some (k1, f1) → B !! h2 = Some (k2, f2) →
  in_block h1 k1 p → in_block h2 k2 p → h1 = h2.
Proof.
  intros Hi H1 H2 P1 P2. unfold in_block in *. destruct (decide (h1 = h2)); [done|].
  destruct (wf_disj _ _ (inv_wf _ _ Hi) _ _ _ _ _ _ H1 H2 n); lia.
Qed.

Lemma page_free_block s B f h k b : pmm_inv s B → PmmSpec.page_free B f → B !! h = Some (k, b) → in_block h k f → b = true.
Proof.
  intros Hi (h' & k' & Hh' & Hf) Hh Hb. assert (h' = h) as -> by (by eapply (blocks_apart s B)). congruence.
Qed.

#[global] Instance pmm_pages_laws : PageLaws (pmm * unit).
Proof.
  refine {| pa_rep := pages_rep |}.
  - intros [s []] v p (B & Hi & Hf & _) Hp. apply Hf in Hp as (f & -> & h & k & Hh & Hfk).
    destruct (wf_block _ _ (inv_wf _ _ Hi) _ _ _ Hh) as (_ & ? & _ & ?). cbn [ram_end pmm_pages fst] in *. unfold PAGE_SIZE in *.
    split_and!; [lia|by rewrite Z.mod_mul|lia].
  - intros [s []] v p k (B & Hi & _ & Hh) Hp. apply Hh in Hp as (h & -> & Hb).
    destruct (wf_block _ _ (inv_wf _ _ Hi) _ _ _ Hb) as (_ & ? & _ & ?). cbn [ram_end pmm_pages fst] in *. unfold PAGE_SIZE, size in *.
    split_and!; [lia|by rewrite Z.mod_mul|lia].
  - intros [s []] v p k (B & Hi & Hf & Hh) Hp. apply Hh in Hp as (h & -> & Hb). intros q Hq Hq'.
    apply block_pfn in Hq as (f & -> & Hfb). apply Hf in Hq' as (f' & He & Hfree). apply page_inj in He as <-.
    by pose proof (page_free_block _ _ _ _ _ _ Hi Hfree Hb Hfb).
  - intros [s []] v p k q j (B & Hi & Hf & Hh) Hp Hq Hne. apply Hh in Hp as (h & -> & Hb). apply Hh in Hq as (g & -> & Hg).
    intros x Hx Hx'. apply block_pfn in Hx as (f & -> & Hfb). apply block_pfn in Hx' as (f' & He & Hfb').
    apply page_inj in He as <-. apply Hne. f_equal. by eapply (blocks_apart s B).
  - intros [s []] v k (B & Hi & Hf & Hh) Hk.
    destruct (alloc_run no_oom k s tt B Hi Hk) as [(h & s' & B' & Hrun & Hi' & Hp & Ht & _)|[Hno Hrun]].
    + eapply run_wp; [exact Hrun|]. cbn [fst ram_end pmm_pages]. split; [by rewrite Ht|]. right.
      destruct (ap_range _ _ _ _ _ Hp) as [Hh0 _]. split_and!.
      * unfold PAGE_SIZE. lia.
      * intros q Hq. apply block_pfn in Hq as (f & -> & Hfb). apply Hf. exists f. split; [done|]. by apply (ap_was_free _ _ _ _ _ Hp).
      * pose proof (ap_aligned _ _ _ _ _ Hp) as Ha. unfold size, PAGE_SIZE in *. rewrite Z.mul_mod_distr_r by lia. lia.
      * exists B'. split; [done|]. split.
        -- intros p. cbn [pv_free]. rewrite elem_of_difference, Hf, block_pfn. split.
           ++ intros [(f & -> & Hfree) Hn]. exists f. split; [done|]. apply (ap_free _ _ _ _ _ Hp). split; [done|].
              intros Hb. apply Hn. by exists f.
           ++ intros (f & -> & Hfree). apply (ap_free _ _ _ _ _ Hp) in Hfree as [Hfree Hn]. split; [by exists f|].
              intros (f' & He & Hb). apply page_inj in He as <-. done.
        -- intros p j. cbn [pv_held]. destruct (decide (h * PAGE_SIZE = p)) as [<-|Hne].
           ++ rewrite lookup_insert_eq. split.
              ** intros [= <-]. exists h. split; [done|]. apply (ap_held _ _ _ _ _ Hp). by right.
              ** intros (h' & He & Hb). apply page_inj in He as <-. apply (ap_held _ _ _ _ _ Hp) in Hb as [Hb|[_ ->]]; [|done].
                 destruct (ap_source _ _ _ _ _ Hp) as (c & _ & Hc). congruence.
           ++ rewrite lookup_insert_ne, Hh by done. split; intros (h' & -> & Hb); exists h'; (split; [done|]).
              ** apply (ap_held _ _ _ _ _ Hp). by left.
              ** apply (ap_held _ _ _ _ _ Hp) in Hb as [Hb|[-> ->]]; [done|congruence].
    + eapply run_wp; [exact Hrun|]. split; [done|]. left. split_and!; [done| |done]. intros ->.
      apply set_eq. intros p. rewrite Hf. split; [|set_solver]. intros (f & -> & h & j & Hj & _). specialize (Hno _ _ Hj). lia.
  - intros [s []] k Hk. cbn [page_alloc pmm_pages]. unfold pmm_alloc_pages.
    destruct (Nat.leb_spec PMM_MAX_ORDER k); [|lia]. by apply wp_ret.
  - intros [s []] v p k (B & Hi & Hf & Hh) Hp. apply Hh in Hp as (h & -> & Hb). destruct (inv_st _ _ Hi) as [L Hst].
    apply wp_lift_l. eapply wp_free; [exact Hst|exact Hb|]. intros s' B' Hi' Hp Ht _.
    cbn [fst ram_end pmm_pages]. split; [by rewrite Ht|]. exists B'. split; [done|]. split.
    + intros p. cbn [pv_free]. rewrite elem_of_union, Hf, block_pfn. split.
      * intros [(f & -> & Hx)|(f & -> & Hx)]; exists f; (split; [done|]); apply (fp_free _ _ _ _ Hp); tauto.
      * intros (f & -> & Hx). apply (fp_free _ _ _ _ Hp) in Hx as [Hx|Hx]; [left|right]; by exists f.
    + intros p j. cbn [pv_held]. destruct (decide (h * PAGE_SIZE = p)) as [<-|Hne].
      * rewrite lookup_delete_eq. split; [done|]. intros (h' & He & Hb'). apply page_inj in He as <-.
        by apply (fp_held _ _ _ _ Hp) in Hb' as [_ ?].
      * rewrite lookup_delete_ne, Hh by done. split; intros (h' & -> & Hb'); exists h'; (split; [done|]).
        -- apply (fp_held _ _ _ _ Hp). split; [done|]. congruence.
        -- by apply (fp_held _ _ _ _ Hp) in Hb' as [? _].
Defined.

(** A machine with 64 pages: page 1 holds the descriptors, the others from 2
    on are free. *)
Definition demo_map : list memmap_entry := [mk_entry true 4096 (63 * 4096)].

Definition demo_free : gset Z := list_to_set ((λ f, f * PAGE_SIZE) <$> seqZ 2 62).

Lemma elem_of_demo_free p : p ∈ demo_free ↔ ∃ f, p = f * PAGE_SIZE ∧ 2 ≤ f < 64.
Proof.
  unfold demo_free. rewrite elem_of_list_to_set, list_elem_of_fmap. setoid_rewrite elem_of_seqZ.
  split; intros (f & ? & ?); exists f; (split; [done|lia]).
Qed.

Lemma demo_boot : ∃ s : pmm * unit, pa_rep s (mk_view demo_free ∅) ∧ ram_end s = 64 * 4096.
Proof.
  destruct (init_correct demo_map boot_state 4096 [mk_entry true 8192 (62 * 4096)])
    as (s & B & _ & Hinv & Hno & Ht & Hf & _).
  { constructor; [|done]. intros _. simpl. lia. }
  { split; [set_solver|done]. }
  { done. }
  { by vm_compute. }
  { done. }
  exists (s, tt). split; [|cbn; rewrite Ht; done]. exists B. split; [done|]. split; cbn [pv_free pv_held].
  - intros p. rewrite elem_of_demo_free. split; intros (f & -> & Hp); exists f; (split; [done|]).
    + apply Hf. split; [lia|]. eexists. split; [left|]. unfold region, PAGE_SIZE. cbn [me_base me_length me_usable].
      change (8192 / 4096) with 2. change (62 * 4096 / 4096) with 62. split; [done|lia].
    + apply Hf in Hp as (_ & e & ->%list_elem_of_singleton & Hp). unfold region, PAGE_SIZE in Hp. cbn [me_base me_length me_usable] in Hp.
      change (8192 / 4096) with 2 in Hp. change (62 * 4096 / 4096) with 62 in Hp. lia.
  - intros p k. rewrite lookup_empty. split; [done|]. intros (h & _ & Hh). by destruct (Hno h k).
Qed.

End PmmPages.
