(* ===== verification/Vmm.v ===== *)
(** * The virtual memory manager ([core/mem/vmm.c])

    Page tables live in physical page frames: [frames] maps the physical
    address of a frame to its 512 words.  The direct map makes [VIRT] and
    [PHYS] inverse to each other, so a [page_table_t *] is the physical
    address of its frame.  Frames come from the page allocator ([Pages]);
    [invlpg] has no effect on this state. *)
From S2P Require Import Prelude Pages.

Module Vmm.

Definition PAGE_SIZE : Z := 4096.
Definition PTE_PRESENT : Z := 2 ^ 0.
Definition PTE_WRITABLE : Z := 2 ^ 1.
Definition PTE_USER : Z := 2 ^ 2.
Definition PTE_PCD : Z := 2 ^ 4.
Definition PTE_HUGE : Z := 2 ^ 7.
Definition PTE_COW : Z := 2 ^ 9.
Definition PTE_ADDR_MASK : Z := 0x000FFFFFFFFFF000.
Definition PTE_FLAGS_MASK : Z := not64 PTE_ADDR_MASK.

(** [(virt >> sh) & 0x1FF] *)
Definition index (virt sh : Z) : Z := Z.land (Z.shiftr virt sh) 0x1FF.

(** [IA32_PAT] after [pat_init]: write combining in PA1. *)
Definition pat_init (pat : Z) : Z := Z.lor (Z.land pat (not64 (Z.shiftl 0xFF 8))) (Z.shiftl 0x01 8).

(** [kernel_cr3], from which [vmm_init] takes [kernel_pml4]. *)
Definition vmm_init (cr3_val : Z) : Z := Z.land cr3_val PTE_ADDR_MASK.

Abbreviation frames := (gmap Z (list Z)).

(** A loop whose body may leave it. *)
Fixpoint for_brk {S} (i : Z) (n : nat) (body : Z → M S bool) : M S bool :=
  match n with
  | O => mret false
  | Datatypes.S n' => b ← body i; if (b : bool) then mret true else for_brk (i + 1) n' body
  end.

(** What [vmm_page_fault_handler] ends with when it does not panic. *)
Inductive fault_result := PF_Return | PF_Exit (code : Z).

Record cpu_state := mk_cpu { cpu_cs : Z; cpu_error_code : Z }.

Section Ops.
  Context {A : Type} `{PageOps A}.

Definition state : Type := frames * A.

Definition entry (F : frames) (t i : Z) : option Z := l ← F !! t; l !! Z.to_nat i.

Definition tget (t i : Z) : M state Z := deref (λ s, entry s.1 t i).

Definition tset (t i e : Z) : M state unit :=
  _ ← tget t i; modify (λ s, (alter (<[Z.to_nat i := e]>) t s.1, s.2)).

(** [memset(VIRT(p), 0, PAGE_SIZE)] and [memcpy(VIRT(p), VIRT(q), PAGE_SIZE)]. *)
Definition zero_frame (p : Z) : M state unit :=
  _ ← deref (λ s : state, s.1 !! p); modify (λ s, (<[p := replicate 512 0]> s.1, s.2)).

Definition copy_frame (p q : Z) : M state unit :=
  l ← deref (λ s : state, s.1 !! q);
  _ ← deref (λ s : state, s.1 !! p);
  modify (λ s, (<[p := l]> s.1, s.2)).

Definition pmm_alloc : M state Z := lift_r (page_alloc 0).
Definition pmm_free (p : Z) : M state unit := lift_r (page_free p 0).

(** [None] is NULL. *)
Definition get_next_level (table index : Z) (allocate : bool) : M state (option Z) :=
  e ← tget table index;
  if has e PTE_PRESENT then
    tset table index (Z.lor e (Z.lor (Z.lor PTE_PRESENT PTE_USER) PTE_WRITABLE));;
    e' ← tget table index;
    mret (Some (Z.land e' PTE_ADDR_MASK))
  else if negb allocate then mret None else
  next_level_phys ← pmm_alloc;
  if next_level_phys =? 0 then panic else
  zero_frame next_level_phys;;
  tset table index (Z.lor (Z.lor (Z.lor (Z.land next_level_phys PTE_ADDR_MASK) PTE_PRESENT) PTE_WRITABLE) PTE_USER);;
  mret (Some next_level_phys).

(** With [allocate] the pointer is used without a test. *)
Definition next_level (table index : Z) : M state Z :=
  r ← get_next_level table index true;
  match r with Some t => mret t | None => fault end.

Definition vmm_map_2mb (pml4 virt phys flags : Z) : M state unit :=
  let virt := Z.land virt (not64 0x1FFFFF) in
  let phys := Z.land phys (not64 0x1FFFFF) in
  pdpt ← next_level pml4 (index virt 39);
  pd ← next_level pdpt (index virt 30);
  tset pd (index virt 21) (Z.lor (Z.lor (Z.lor phys (Z.land flags PTE_FLAGS_MASK)) PTE_PRESENT) PTE_HUGE).

Definition vmm_map (pml4 virt phys flags : Z) : M state unit :=
  let virt := Z.land virt (not64 0xFFF) in
  let phys := Z.land phys PTE_ADDR_MASK in
  pdpt ← next_level pml4 (index virt 39);
  pd ← next_level pdpt (index virt 30);
  pt ← next_level pd (index virt 21);
  tset pt (index virt 12) (Z.lor (Z.lor phys (Z.land flags PTE_FLAGS_MASK)) PTE_PRESENT).

(** [if (!(t[i] & PTE_PRESENT)) return d; next = VIRT(t[i] & PTE_ADDR_MASK); ...] *)
Definition descend {B} (t i : Z) (d : B) (k : Z → M state B) : M state B :=
  e ← tget t i;
  if has e PTE_PRESENT then k (Z.land e PTE_ADDR_MASK) else mret d.

Definition vmm_unmap (pml4 virt : Z) : M state unit :=
  let virt := Z.land virt (not64 0xFFF) in
  descend pml4 (index virt 39) tt (λ pdpt,
  descend pdpt (index virt 30) tt (λ pd,
  descend pd (index virt 21) tt (λ pt,
  tset pt (index virt 12) 0))).

Definition vmm_create_address_space (kernel_pml4 : Z) : M state (option Z) :=
  phys ← pmm_alloc;
  if phys =? 0 then mret None else
  zero_frame phys;;
  for_loop 256 256 (λ i, e ← tget kernel_pml4 i; tset phys i e);;
  mret (Some phys).

Definition vmm_destroy_address_space (cr3_phys : Z) : M state unit :=
  let pml4 := Z.land cr3_phys PTE_ADDR_MASK in
  max_ram_phys ← gets (λ s : state, u64 (ram_end s.2));
  for_loop 0 256 (λ i,
    e4 ← tget pml4 i;
    when has e4 PTE_PRESENT do
      (let pdpt := Z.land e4 PTE_ADDR_MASK in
       for_loop 0 512 (λ j,
         e3 ← tget pdpt j;
         when (has e3 PTE_PRESENT && negb (has e3 PTE_HUGE)) do
           (let pd := Z.land e3 PTE_ADDR_MASK in
            for_loop 0 512 (λ k,
              e2 ← tget pd k;
              when (has e2 PTE_PRESENT && negb (has e2 PTE_HUGE)) do
                (let pt := Z.land e2 PTE_ADDR_MASK in
                 for_loop 0 512 (λ l,
                   e1 ← tget pt l;
                   when has e1 PTE_PRESENT do
                     (let phys_page := Z.land e1 PTE_ADDR_MASK in
                      when (negb (has e1 PTE_PCD) && (phys_page <? max_ram_phys)) do pmm_free phys_page));;
                 pmm_free pt));;
            pmm_free pd));;
       pmm_free pdpt));;
  pmm_free pml4.

(** The four nested loops; [true] when a page could not be allocated, in which
    case the child has been destroyed. *)
Definition clone_loops (parent child : Z) : M state bool :=
  for_brk 0 256 (λ i,
    e4 ← tget parent i;
    if negb (has e4 PTE_PRESENT) then mret false else
    let pdpt := Z.land e4 PTE_ADDR_MASK in
    for_brk 0 512 (λ j,
      e3 ← tget pdpt j;
      if negb (has e3 PTE_PRESENT) then mret false else
      if has e3 PTE_HUGE then mret false else
      let pd := Z.land e3 PTE_ADDR_MASK in
      for_brk 0 512 (λ k,
        e2 ← tget pd k;
        if negb (has e2 PTE_PRESENT) then mret false else
        if has e2 PTE_HUGE then mret false else
        let pt := Z.land e2 PTE_ADDR_MASK in
        for_brk 0 512 (λ l,
          e1 ← tget pt l;
          if negb (has e1 PTE_PRESENT) then mret false else
          let virt := Z.lor (Z.lor (Z.lor (Z.shiftl i 39) (Z.shiftl j 30)) (Z.shiftl k 21)) (Z.shiftl l 12) in
          let parent_phys := Z.land e1 PTE_ADDR_MASK in
          let flags := Z.land e1 PTE_FLAGS_MASK in
          child_phys ← pmm_alloc;
          if child_phys =? 0 then vmm_destroy_address_space child;; mret true else
          copy_frame child_phys parent_phys;;
          vmm_map child virt child_phys flags;;
          mret false)))).

Definition vmm_clone_address_space (kernel_pml4 parent_cr3_phys : Z) : M state (option Z) :=
  r ← vmm_create_address_space kernel_pml4;
  match r with
  | None => mret None
  | Some child =>
      failed ← clone_loops (Z.land parent_cr3_phys PTE_ADDR_MASK) child;
      mret (if (failed : bool) then None else Some child)
  end.

(** The copy-on-write part of the fault handler; [true] when it resolved the
    fault. *)
Definition cow_fault (pml4 fault_addr error_code : Z) : M state bool :=
  descend pml4 (index fault_addr 39) false (λ pdpt,
  descend pdpt (index fault_addr 30) false (λ pd,
  descend pd (index fault_addr 21) false (λ pt,
  pte ← tget pt (index fault_addr 12);
  if has error_code 0x02 && has pte PTE_PRESENT && has pte PTE_COW then
    let old_phys := Z.land pte PTE_ADDR_MASK in
    new_phys ← pmm_alloc;
    if new_phys =? 0 then panic else
    copy_frame new_phys old_phys;;
    let new_flags := Z.lor (Z.land (Z.land pte PTE_FLAGS_MASK) (not64 PTE_COW)) PTE_WRITABLE in
    tset pt (index fault_addr 12) (Z.lor (Z.land new_phys PTE_ADDR_MASK) new_flags);;
    mret true
  else mret false))).

(** The stack part: [true] when a zeroed page was mapped. *)
Definition stack_fault (pml4 fault_addr : Z) : M state bool :=
  if (0x7FE000000000 <=? fault_addr) && (fault_addr <? 0x0000800000000000) then
    new_stack_page ← pmm_alloc;
    if new_stack_page =? 0 then mret false else
    zero_frame new_stack_page;;
    vmm_map pml4 (Z.land fault_addr (not64 0xFFF)) new_stack_page (Z.lor (Z.lor PTE_PRESENT PTE_WRITABLE) PTE_USER);;
    mret true
  else mret false.

(** [fault_addr] and [cr3_val] are read from the processor; [has_process] is
    [current_task && current_task->process]; a user task without a process
    is left halted. *)
Definition vmm_page_fault_handler (cr2 cr3_val : Z) (st : cpu_state) (has_process : bool) : M state fault_result :=
  let from_user := (cpu_cs st =? 0x23) || has (cpu_error_code st) 0x04 in
  if cr2 <? PAGE_SIZE then
    (if from_user && has_process then mret (PF_Exit 139) else panic)
  else
  let pml4 := Z.land cr3_val PTE_ADDR_MASK in
  cow ← cow_fault pml4 cr2 (cpu_error_code st);
  if (cow : bool) then mret PF_Return else
  grown ← stack_fault pml4 cr2;
  if (grown : bool) then mret PF_Return else
  if from_user then (if has_process then mret (PF_Exit 139) else (λ _, Wait) : M state fault_result)
  else panic.

Definition vmm_protect (pml4 virt : Z) (user writable : bool) : M state bool :=
  descend pml4 (index virt 39) false (λ pdpt,
  descend pdpt (index virt 30) false (λ pd,
  e2 ← tget pd (index virt 21);
  if negb (has e2 PTE_PRESENT) || has e2 PTE_HUGE then mret false else
  let pt := Z.land e2 PTE_ADDR_MASK in
  pte ← tget pt (index virt 12);
  if negb (has pte PTE_PRESENT) then mret false else
  let pte := Z.land pte (not64 (Z.lor PTE_USER PTE_WRITABLE)) in
  let pte := if user then Z.lor pte PTE_USER else pte in
  let pte := if user && writable && negb (has pte PTE_COW) then Z.lor pte PTE_WRITABLE else pte in
  tset pt (index virt 12) pte;;
  mret true)).

Definition vmm_get_phys (pml4 virt : Z) : M state Z :=
  descend pml4 (index virt 39) 0 (λ pdpt,
  descend pdpt (index virt 30) 0 (λ pd,
  descend pd (index virt 21) 0 (λ pt,
  e ← tget pt (index virt 12);
  if has e PTE_PRESENT then mret (u64 (Z.land e PTE_ADDR_MASK + Z.land virt 0xFFF)) else mret 0))).

End Ops.

End Vmm.
