(* ===== verification/VmmSpec.v ===== *)
(** * Correctness of the virtual memory manager

    The reference is the address translation of the processor, [translate].
    [space] is the invariant of the user half of an address space: its tables
    form a tree of distinct, held frames whose inner entries grant all rights.
    Mapping, unmapping, changing rights and copy on write are then updates of
    the translation at one page. *)
From S2P Require Import Prelude Bits Pages Vmm.

Module VmmSpec.
Import Vmm.

(** ** Page table entries *)

Definition page (p : Z) : Prop := 0 ≤ p < 2 ^ 52 ∧ p mod 4096 = 0.

Lemma addr_mask n : 0 ≤ n → Z.testbit PTE_ADDR_MASK n = (12 <=? n) && (n <? 52).
Proof. intros. apply (testbit_mask 12 52); lia. Qed.

Lemma flags_mask n : 0 ≤ n → Z.testbit PTE_FLAGS_MASK n = (n <? 12) || (52 <=? n) && (n <? 64).
Proof.
  intros. unfold PTE_FLAGS_MASK. rewrite testbit_not64, addr_mask by lia.
  destruct (Z.leb_spec 12 n), (Z.ltb_spec n 52), (Z.ltb_spec n 12), (Z.leb_spec 52 n), (Z.ltb_spec n 64); (done || lia).
Qed.

Lemma addr_page p : page p → Z.land p PTE_ADDR_MASK = p.
Proof.
  intros [Hp Ha]. apply Z.bits_inj'. intros n Hn. rewrite Z.land_spec, addr_mask by lia.
  destruct (Z.leb_spec 12 n); simpl; [|by rewrite (low_bits_zero p 12)].
  destruct (Z.ltb_spec n 52); [by rewrite andb_true_r|by rewrite (testbit_small p 52)].
Qed.

Lemma page_addr e : word e → page (Z.land e PTE_ADDR_MASK).
Proof.
  intros He. split.
  - assert (0 ≤ Z.land e PTE_ADDR_MASK) by (apply Z.land_nonneg; right; done). split; [done|]. apply bits_range; [lia|done|].
    intros n Hn. rewrite Z.land_spec, addr_mask by lia. destruct (Z.ltb_spec n 52); [lia|]. by rewrite !andb_false_r.
  - change 4096 with (2 ^ 12). apply Z.bits_inj'. intros n Hn. rewrite Z.bits_0. destruct (Z.ltb_spec n 12).
    + rewrite Z.mod_pow2_bits_low, Z.land_spec, addr_mask by lia. destruct (Z.leb_spec 12 n); [lia|]. by rewrite andb_false_r.
    + by rewrite Z.mod_pow2_bits_high by lia.
Qed.

Lemma addr_flags f : Z.land (Z.land f PTE_FLAGS_MASK) PTE_ADDR_MASK = 0.
Proof.
  rewrite <-Z.land_assoc. replace (Z.land PTE_FLAGS_MASK PTE_ADDR_MASK) with 0 by reflexivity. apply Z.land_0_r.
Qed.

Lemma addr_lor a b : Z.land (Z.lor a b) PTE_ADDR_MASK = Z.lor (Z.land a PTE_ADDR_MASK) (Z.land b PTE_ADDR_MASK).
Proof. apply Z.land_lor_distr_l. Qed.

(** The bits of a flag word that are not part of the address. *)
Lemma page_bit p k : page p → 0 ≤ k < 12 → Z.testbit p k = false.
Proof. intros [_ Hp] Hk. apply (low_bits_zero p 12); [lia|done|lia]. Qed.

Lemma flag_bit f k : 0 ≤ k < 12 → Z.testbit (Z.land f PTE_FLAGS_MASK) k = Z.testbit f k.
Proof. intros. rewrite Z.land_spec, flags_mask by lia. destruct (Z.ltb_spec k 12); [by rewrite andb_true_r|lia]. Qed.

(** An entry put together from a page address and flags. *)
Definition leaf_entry (p f : Z) : Z := Z.lor (Z.lor p (Z.land f PTE_FLAGS_MASK)) PTE_PRESENT.

Lemma leaf_entry_addr p f : page p → Z.land (leaf_entry p f) PTE_ADDR_MASK = p.
Proof.
  intros. unfold leaf_entry. rewrite !addr_lor, addr_flags, addr_page by done.
  replace (Z.land PTE_PRESENT PTE_ADDR_MASK) with 0 by reflexivity. by rewrite !Z.lor_0_r.
Qed.

Lemma leaf_entry_bit p f k : page p → 0 ≤ k < 12 → Z.testbit (leaf_entry p f) k = Z.testbit f k || (k =? 0).
Proof.
  intros Hp Hk. unfold leaf_entry, PTE_PRESENT.
  rewrite !Z.lor_spec, flag_bit, Z.pow2_bits_eqb, page_bit by (done || lia). by rewrite (Z.eqb_sym 0 k).
Qed.

Lemma page_word p : page p → word p.
Proof. intros [Hp _]. split; [lia|]. lia. Qed.

Lemma leaf_entry_word p f : page p → word f → word (leaf_entry p f).
Proof. intros Hp Hf. apply word_lor; [apply word_lor; [by apply page_word|by apply word_land]|by apply word_pow2]. Qed.

(** A link to a next-level table. *)
Definition link_entry (c : Z) : Z := Z.lor (Z.lor (Z.lor (Z.land c PTE_ADDR_MASK) PTE_PRESENT) PTE_WRITABLE) PTE_USER.

Lemma link_entry_addr c : page c → Z.land (link_entry c) PTE_ADDR_MASK = c.
Proof.
  intros. unfold link_entry. rewrite !addr_lor, !(addr_page c) by done.
  change (Z.land PTE_PRESENT PTE_ADDR_MASK) with 0. change (Z.land PTE_WRITABLE PTE_ADDR_MASK) with 0.
  change (Z.land PTE_USER PTE_ADDR_MASK) with 0. by rewrite !Z.lor_0_r.
Qed.

Lemma link_entry_bit c k : page c → 0 ≤ k < 12 → Z.testbit (link_entry c) k = (k <? 3).
Proof.
  intros Hc Hk. unfold link_entry, PTE_PRESENT, PTE_WRITABLE, PTE_USER.
  rewrite !Z.lor_spec, addr_page, page_bit, !Z.pow2_bits_eqb by (done || lia).
  destruct (Z.ltb_spec k 3), (Z.eqb_spec 0 k), (Z.eqb_spec 1 k), (Z.eqb_spec 2 k); (done || lia).
Qed.

Lemma link_entry_word c : page c → word (link_entry c).
Proof.
  intros Hc. unfold link_entry. rewrite addr_page by done.
  repeat (apply word_lor; [|by apply word_pow2]). by apply page_word.
Qed.

(** Entries that already grant everything are not changed by [get_next_level]. *)
Lemma grant_id e : has e PTE_PRESENT = true → has e PTE_WRITABLE = true → has e PTE_USER = true →
  Z.lor e (Z.lor (Z.lor PTE_PRESENT PTE_USER) PTE_WRITABLE) = e.
Proof.
  unfold PTE_PRESENT, PTE_WRITABLE, PTE_USER. rewrite !has_pow2 by lia. intros H0 H1 H2.
  apply Z.bits_inj'. intros n Hn. rewrite !Z.lor_spec, !Z.pow2_bits_eqb by lia.
  destruct (Z.eqb_spec 0 n) as [<-|]; [by rewrite H0|]. destruct (Z.eqb_spec 1 n) as [<-|]; [by rewrite H1|].
  destruct (Z.eqb_spec 2 n) as [<-|]; [by rewrite H2|]. by rewrite !orb_false_r.
Qed.

(** ** Virtual addresses *)

Definition user (x : Z) : Prop := 0 ≤ x < 2 ^ 47.

Lemma index_div x sh : 0 ≤ sh → index x sh = (x / 2 ^ sh) mod 512.
Proof. intros. apply (shiftr_mask x sh 9); lia. Qed.

Lemma index_range x sh : 0 ≤ sh → 0 ≤ index x sh < 512.
Proof. intros. rewrite index_div by lia. apply Z.mod_pos_bound. lia. Qed.

Lemma user_word x : user x → word x.
Proof. unfold user, word. lia. Qed.

Lemma index_clear x c sh : 0 ≤ c ≤ sh → user x → index (Z.land x (not64 (Z.ones c))) sh = index x sh.
Proof. intros. unfold index. by rewrite shiftr_clear by (done || by apply user_word). Qed.

(** The indices on the way to the page table of [x]. *)
Definition path (x : Z) : list Z := [index x 39; index x 30; index x 21].

Lemma page_number x : user x →
  x / 4096 = ((index x 39 * 512 + index x 30) * 512 + index x 21) * 512 + index x 12 ∧ index x 39 < 256.
Proof.
  intros Hx. rewrite !index_div by lia. unfold user in Hx.
  change (2 ^ 39) with (4096 * 512 * 512 * 512). change (2 ^ 30) with (4096 * 512 * 512). change (2 ^ 21) with (4096 * 512).
  change (2 ^ 12) with 4096. rewrite <-!Z.div_div by lia. set (n := x / 4096).
  assert (0 ≤ n < 2 ^ 35) by (unfold n; split; [apply Z.div_pos; lia|apply Z.div_lt_upper_bound; lia]).
  assert (0 ≤ n / 512 < 2 ^ 26) by (split; [apply Z.div_pos; lia|apply Z.div_lt_upper_bound; lia]).
  assert (0 ≤ n / 512 / 512 < 2 ^ 17) by (split; [apply Z.div_pos; lia|apply Z.div_lt_upper_bound; lia]).
  assert (0 ≤ n / 512 / 512 / 512 < 2 ^ 8) by (split; [apply Z.div_pos; lia|apply Z.div_lt_upper_bound; lia]).
  rewrite (Z.mod_small (n / 512 / 512 / 512)) by lia. split; [|lia].
  pose proof (Z.div_mod n 512 ltac:(lia)). pose proof (Z.div_mod (n / 512) 512 ltac:(lia)).
  pose proof (Z.div_mod (n / 512 / 512) 512 ltac:(lia)). lia.
Qed.

Lemma same_page x y : user x → user y → x / 4096 = y / 4096 ↔ path x = path y ∧ index x 12 = index y 12.
Proof.
  intros Hx Hy. destruct (page_number x Hx) as [-> Hx1]. destruct (page_number y Hy) as [-> Hy1]. unfold path.
  pose proof (index_range x 39 ltac:(lia)). pose proof (index_range x 30 ltac:(lia)). pose proof (index_range x 21 ltac:(lia)).
  pose proof (index_range x 12 ltac:(lia)). pose proof (index_range y 39 ltac:(lia)). pose proof (index_range y 30 ltac:(lia)).
  pose proof (index_range y 21 ltac:(lia)). pose proof (index_range y 12 ltac:(lia)).
  split; [|intros [[= -> -> ->] ->]; lia]. intros He. assert (index x 12 = index y 12) by lia.
  assert (index x 21 = index y 21) by lia. assert (index x 30 = index y 30) by lia. assert (index x 39 = index y 39) by lia.
  by split; [f_equal; [|f_equal; [|f_equal]]|].
Qed.

(** ** Walking the tables *)

Definition next (F : frames) (t i : Z) : option Z :=
  e ← entry F t i; if has e PTE_PRESENT then Some (Z.land e PTE_ADDR_MASK) else None.

Fixpoint walk (F : frames) (t : Z) (p : list Z) : option Z :=
  match p with
  | [] => Some t
  | i :: p' => u ← next F t i; walk F u p'
  end.

(** The page table entry a path ends at, when it is present. *)
Definition leaf (F : frames) (root : Z) (p : list Z) (l : Z) : option Z :=
  t ← walk F root p; e ← entry F t l; if has e PTE_PRESENT then Some e else None.

(** What the processor does: the physical address, and whether user code may
    access and write it. *)
Definition translate (F : frames) (root x : Z) : option (Z * bool * bool) :=
  e4 ← entry F root (index x 39);
  if negb (has e4 PTE_PRESENT) then None else
  e3 ← entry F (Z.land e4 PTE_ADDR_MASK) (index x 30);
  if negb (has e3 PTE_PRESENT) then None else
  let u := has e4 PTE_USER && has e3 PTE_USER in
  let w := has e4 PTE_WRITABLE && has e3 PTE_WRITABLE in
  if has e3 PTE_HUGE then Some (Z.land (Z.land e3 PTE_ADDR_MASK) (not64 0x3FFFFFFF) + x mod 2 ^ 30, u, w) else
  e2 ← entry F (Z.land e3 PTE_ADDR_MASK) (index x 21);
  if negb (has e2 PTE_PRESENT) then None else
  let u := u && has e2 PTE_USER in
  let w := w && has e2 PTE_WRITABLE in
  if has e2 PTE_HUGE then Some (Z.land (Z.land e2 PTE_ADDR_MASK) (not64 0x1FFFFF) + x mod 2 ^ 21, u, w) else
  e1 ← entry F (Z.land e2 PTE_ADDR_MASK) (index x 12);
  if negb (has e1 PTE_PRESENT) then None else
  Some (Z.land e1 PTE_ADDR_MASK + x mod 4096, u && has e1 PTE_USER, w && has e1 PTE_WRITABLE).

(** Paths in the user half. *)
Definition upath (p : list Z) : Prop :=
  Forall (λ i, 0 ≤ i < 512) p ∧ (length p ≤ 3)%nat ∧ match p with i :: _ => i < 256 | [] => True end.

Record space (F : frames) (V : pview) (root : Z) : Prop := {
  sp_tab p t : upath p → walk F root p = Some t → ∃ l, F !! t = Some l ∧ length l = 512%nat ∧ Forall word l;
  sp_inj p q t : upath p → upath q → walk F root p = Some t → walk F root q = Some t → p = q;
  sp_held p t : upath p → walk F root p = Some t → pv_held V !! t = Some 0%nat ∧ t ∉ pv_free V;
  sp_entry p t i e : upath (p ++ [i]) → walk F root p = Some t → entry F t i = Some e →
    has e PTE_PRESENT = true → has e PTE_WRITABLE = true ∧ has e PTE_USER = true ∧ has e PTE_HUGE = false;
  sp_avail q : q ∈ pv_free V → is_Some (F !! q) ∧ page q;
}.

Lemma upath_app p q : upath (p ++ q) → upath p.
Proof.
  intros (Hr & Hl & Hh). rewrite length_app in Hl. apply Forall_app in Hr as [Hr _].
  split_and!; [done|lia|]. by destruct p.
Qed.

Lemma upath_index p i q : upath (p ++ i :: q) → 0 ≤ i < 512.
Proof. intros (Hf & _). apply Forall_app in Hf as [_ Hf]. by apply Forall_cons in Hf as [? _]. Qed.

Lemma upath_path x : user x → upath (path x).
Proof.
  intros Hx. unfold upath, path. split_and!; [|done|].
  - repeat constructor; apply index_range; lia.
  - by apply page_number.
Qed.

Lemma walk_app F t p q : walk F t (p ++ q) = u ← walk F t p; walk F u q.
Proof. revert t. induction p as [|i p IH]; intros t; simpl; [done|]. destruct (next F t i); simpl; [apply IH|done]. Qed.

Lemma walk_snoc F t p i : walk F t (p ++ [i]) = u ← walk F t p; next F u i.
Proof. rewrite walk_app. destruct (walk F t p); simpl; [|done]. by destruct (next F z i). Qed.

(** A walk only reads the entries along its path. *)
Lemma walk_ext F F' q : ∀ root,
  (∀ q1 i q2 t, q = q1 ++ i :: q2 → walk F root q1 = Some t → next F' t i = next F t i) →
  walk F' root q = walk F root q.
Proof.
  induction q as [|i q IH]; intros root Hn; simpl; [done|].
  rewrite (Hn [] i q root) by done. destruct (next F root i) as [u|] eqn:E; simpl; [|done].
  apply IH. intros q1 i' q2 t -> Hw. apply (Hn (i :: q1) i' q2 t); [done|]. simpl. by rewrite E.
Qed.

Lemma entry_set F t l i e t' i' : F !! t = Some l → 0 ≤ i < Z.of_nat (length l) → 0 ≤ i' →
  entry (alter (<[Z.to_nat i := e]>) t F) t' i' = if decide (t' = t ∧ i' = i) then Some e else entry F t' i'.
Proof.
  intros Hl Hi Hi'. unfold entry. destruct (decide (t' = t)) as [->|Hne].
  - rewrite lookup_alter_eq, Hl. simpl. destruct (decide (i' = i)) as [->|Hne].
    + rewrite decide_True by done. apply list_lookup_insert_eq. lia.
    + rewrite decide_False by tauto. apply list_lookup_insert_ne. lia.
  - rewrite lookup_alter_ne, decide_False by naive_solver. done.
Qed.

Lemma entry_new F c t i : entry (<[c := replicate 512 0]> F) t i =
  if decide (t = c) then (replicate 512 0 : list Z) !! Z.to_nat i else entry F t i.
Proof.
  unfold entry. destruct (decide (t = c)) as [->|]; [by rewrite lookup_insert_eq|by rewrite lookup_insert_ne].
Qed.

Section Space.
  Context {A : Type} `{PageLaws A}.
  Implicit Types (F : frames) (V : pview).

Lemma leaf_nil_next F root p i : walk F root p ≫= (λ t, next F t i) = walk F root (p ++ [i]).
Proof. by rewrite walk_snoc. Qed.

Lemma space_root F V root : space F V root → ∃ l, F !! root = Some l ∧ length l = 512%nat ∧ Forall word l.
Proof. intros Hs. apply (sp_tab _ _ _ Hs [] root); [repeat split; simpl; (done || lia)|done]. Qed.

Lemma space_entry F V root p t i : space F V root → upath p → walk F root p = Some t → 0 ≤ i < 512 →
  ∃ e, entry F t i = Some e ∧ word e.
Proof.
  intros Hs Hp Hw Hi. destruct (sp_tab _ _ _ Hs _ _ Hp Hw) as (l & Hl & Hlen & Hwd). unfold entry. rewrite Hl. simpl.
  destruct (lookup_lt_is_Some_2 l (Z.to_nat i)) as [e He]; [lia|]. exists e. split; [done|].
  eapply Forall_lookup_1; [exact Hwd|exact He].
Qed.

(** ** The translation is the leaf entry *)
Lemma translate_leaf F V root x : space F V root → user x →
  translate F root x =
  (λ e, (Z.land e PTE_ADDR_MASK + x mod 4096, has e PTE_USER, has e PTE_WRITABLE)) <$> leaf F root (path x) (index x 12).
Proof.
  intros Hs Hx. pose proof (upath_path x Hx) as Hu. unfold translate, leaf, path in *. simpl walk. unfold next.
  destruct (entry F root (index x 39)) as [e4|] eqn:E4; simpl; [|done].
  destruct (has e4 PTE_PRESENT) eqn:P4; simpl; [|done].
  destruct (sp_entry _ _ _ Hs [] root (index x 39) e4) as (W4 & U4 & _); [exact (upath_app [_] [_; _] Hu)|done..|].
  assert (walk F root [index x 39] = Some (Z.land e4 PTE_ADDR_MASK)) as H4 by (simpl; unfold next; by rewrite E4; simpl; rewrite P4).
  destruct (entry F (Z.land e4 PTE_ADDR_MASK) (index x 30)) as [e3|] eqn:E3; simpl; [|done].
  destruct (has e3 PTE_PRESENT) eqn:P3; simpl; [|done].
  destruct (sp_entry _ _ _ Hs [_] _ (index x 30) e3 (upath_app [_; _] [_] Hu) H4 E3 P3) as (W3 & U3 & G3). rewrite G3.
  assert (walk F root [index x 39; index x 30] = Some (Z.land e3 PTE_ADDR_MASK)) as H3.
  { simpl. unfold next. rewrite E4. simpl. rewrite P4. simpl. rewrite E3. simpl. by rewrite P3. }
  destruct (entry F (Z.land e3 PTE_ADDR_MASK) (index x 21)) as [e2|] eqn:E2; simpl; [|done].
  destruct (has e2 PTE_PRESENT) eqn:P2; simpl; [|done].
  destruct (sp_entry _ _ _ Hs [_; _] _ (index x 21) e2 Hu H3 E2 P2) as (W2 & U2 & G2). rewrite G2.
  destruct (entry F (Z.land e2 PTE_ADDR_MASK) (index x 12)) as [e1|] eqn:E1; simpl; [|done].
  destruct (has e1 PTE_PRESENT) eqn:P1; simpl; [|done]. by rewrite W4, U4, W3, U3, W2, U2.
Qed.

(** ** Writing a leaf entry *)
Lemma upath_len3_no_ext p q i q2 : upath q → length p = 3%nat → q ≠ p ++ i :: q2.
Proof. intros (_ & Hl & _) Hp ->. rewrite length_app in Hl. simpl in Hl. lia. Qed.

Lemma leaf_set F V root p t l e : space F V root → upath p → length p = 3%nat → walk F root p = Some t →
  0 ≤ l < 512 → word e →
  let F' := alter (<[Z.to_nat l := e]>) t F in
  space F' V root ∧ (∀ q, upath q → walk F' root q = walk F root q) ∧
  ∀ q m, upath q → 0 ≤ m < 512 → leaf F' root q m =
    if decide (q = p ∧ m = l) then (if has e PTE_PRESENT then Some e else None) else leaf F root q m.
Proof.
  intros Hs Hp Hlen Hw Hl He F'. destruct (sp_tab _ _ _ Hs _ _ Hp Hw) as (tb & Htb & Hlt & Hwd).
  assert (∀ t' i, 0 ≤ i → entry F' t' i = if decide (t' = t ∧ i = l) then Some e else entry F t' i) as Hent.
  { intros t' i Hi. apply (entry_set _ _ tb); [done|lia|done]. }
  assert (∀ q, upath q → walk F' root q = walk F root q) as Hwalk.
  { intros q Hq. apply walk_ext. intros q1 i q2 t' -> Hw'.
    assert (upath q1) by by eapply upath_app. pose proof (upath_index _ _ _ Hq).
    unfold next. rewrite Hent by lia. destruct (decide (t' = t ∧ i = l)) as [[-> ->]|]; [|done].
    assert (q1 = p) as -> by (by eapply (sp_inj _ _ _ Hs)). exfalso. by eapply upath_len3_no_ext. }
  split; [|split; [done|]].
  - split.
    + intros q t' Hq. rewrite Hwalk by done. intros Hw'. destruct (sp_tab _ _ _ Hs _ _ Hq Hw') as (l' & Hl' & Hlen' & Hwd').
      unfold F'. destruct (decide (t' = t)) as [->|].
      * rewrite lookup_alter_eq, Hl'. simpl. eexists. split_and!; [done|by rewrite length_insert|by apply Forall_insert].
      * rewrite lookup_alter_ne by done. eauto.
    + intros q1 q2 t' H1 H2. rewrite !Hwalk by done. by apply (sp_inj _ _ _ Hs).
    + intros q t' Hq. rewrite Hwalk by done. by apply (sp_held _ _ _ Hs).
    + intros q t' i e' Hq. pose proof (upath_app _ _ Hq) as Hq'. rewrite Hwalk by done. intros Hw'. pose proof (upath_index _ _ _ Hq).
      rewrite Hent by lia. destruct (decide (t' = t ∧ i = l)) as [[-> ->]|]; [|by apply (sp_entry _ _ _ Hs q)].
      assert (q = p) as -> by (by eapply (sp_inj _ _ _ Hs)). exfalso. by eapply (upath_len3_no_ext p _ l []).
    + intros q Hq. destruct (sp_avail _ _ _ Hs q Hq) as [[x Hx] Hpg]. split; [|done]. unfold F'.
      destruct (decide (q = t)) as [->|]; [rewrite lookup_alter_eq, Hx; by eexists|rewrite lookup_alter_ne by done; by eexists].
  - intros q m Hq Hm. unfold leaf. rewrite Hwalk by done. destruct (walk F root q) as [t'|] eqn:Ew; simpl.
    + rewrite Hent by lia. destruct (decide (t' = t ∧ m = l)) as [[-> ->]|Hn].
      * assert (q = p) as -> by (by eapply (sp_inj _ _ _ Hs)). by rewrite decide_True.
      * rewrite decide_False; [done|]. intros [-> ->]. apply Hn. split; congruence.
    + rewrite decide_False; [done|]. intros [-> _]. congruence.
Qed.

(** ** Linking a fresh table *)
Definition linked F (t i c : Z) : frames := alter (<[Z.to_nat i := link_entry c]>) t (<[c := replicate 512 0]> F).

Lemma linked_entry F V root p t i c t' i' : space F V root → upath (p ++ [i]) → walk F root p = Some t →
  c ∈ pv_free V → 0 ≤ i' → entry (linked F t i c) t' i' =
    if decide (t' = t ∧ i' = i) then Some (link_entry c)
    else if decide (t' = c) then (replicate 512 0 : list Z) !! Z.to_nat i' else entry F t' i'.
Proof.
  intros Hs Hp Hw Hc Hi'. pose proof (upath_app _ _ Hp) as Hp'. destruct (sp_tab _ _ _ Hs _ _ Hp' Hw) as (tb & Htb & Hlt & _).
  destruct (sp_held _ _ _ Hs _ _ Hp' Hw) as [_ Hnf]. assert (t ≠ c) by set_solver.
  pose proof (upath_index _ _ _ Hp).
  unfold linked. rewrite (entry_set _ t tb) by (done || lia || by rewrite lookup_insert_ne).
  destruct (decide (t' = t ∧ i' = i)); [done|]. apply entry_new.
Qed.

Lemma zeros_lookup n i (e : Z) : (replicate n 0 : list Z) !! i = Some e → e = 0.
Proof. intros He%lookup_replicate. by destruct He. Qed.

Lemma next_zero F t i : (∀ e, entry F t i = Some e → e = 0) → next F t i = None.
Proof. intros He. unfold next. destruct (entry F t i) as [e|]; [|done]. by rewrite (He e eq_refl). Qed.

Lemma linked_walk F V root p t i c e q : space F V root → upath (p ++ [i]) → walk F root p = Some t →
  entry F t i = Some e → has e PTE_PRESENT = false → c ∈ pv_free V → upath q →
  walk (linked F t i c) root q =
    if decide (q = p ++ [i]) then Some c else if decide ((p ++ [i]) `prefix_of` q) then None else walk F root q.
Proof.
  intros Hs Hp Hw He Hpr Hc Hq. pose proof (upath_app _ _ Hp) as Hp'.
  destruct (sp_avail _ _ _ Hs _ Hc) as [_ Hpc]. destruct (sp_held _ _ _ Hs _ _ Hp' Hw) as [_ Hnf].
  assert (∀ q, upath q → ¬ (p ++ [i]) `prefix_of` q → walk (linked F t i c) root q = walk F root q) as Hout.
  { clear q Hq. intros q Hq Hn. apply walk_ext. intros q1 i' q2 t' -> Hw'.
    assert (upath q1) as Hq1 by by eapply upath_app. pose proof (upath_index _ _ _ Hq).
    unfold next. rewrite (linked_entry F V root p) by (done || lia). destruct (sp_held _ _ _ Hs _ _ Hq1 Hw') as [_ Hnf'].
    rewrite (decide_False (P := t' = c)) by set_solver. destruct (decide (t' = t ∧ i' = i)) as [[-> ->]|]; [|done].
    assert (q1 = p) as -> by (by eapply (sp_inj _ _ _ Hs)). exfalso. apply Hn. exists q2. by rewrite <-(assoc_L (++)). }
  assert (walk (linked F t i c) root (p ++ [i]) = Some c) as Hlink.
  { rewrite walk_snoc, Hout; [|done|intros [k Hk]; apply (f_equal length) in Hk; rewrite !length_app in Hk; simpl in Hk; lia].
    rewrite Hw. simpl. unfold next. rewrite (linked_entry F V root p), decide_True by (done || by pose proof (upath_index _ _ _ Hp); lia).
    simpl. unfold PTE_PRESENT. by rewrite has_pow2, link_entry_bit, link_entry_addr by (done || lia). }
  destruct (decide (q = p ++ [i])) as [->|Hne]; [done|].
  destruct (decide ((p ++ [i]) `prefix_of` q)) as [[k ->]|Hn]; [|by apply Hout].
  destruct k as [|i' k]; [by rewrite app_nil_r in Hne|]. rewrite walk_app, Hlink. simpl.
  rewrite next_zero; [done|]. intros e'. pose proof (upath_index _ _ _ Hq).
  rewrite (linked_entry F V root p), decide_False, decide_True by (done || lia || set_solver). apply zeros_lookup.
Qed.

Definition taken (c : Z) V : pview := mk_view (pv_free V ∖ {[c]}) (<[c := 0%nat]> (pv_held V)).

(** A walk in the new tree ends at the fresh table or was there before. *)
Lemma linked_walk_inv F V root p t i c e q u : space F V root → upath (p ++ [i]) → walk F root p = Some t →
  entry F t i = Some e → has e PTE_PRESENT = false → c ∈ pv_free V → upath q →
  walk (linked F t i c) root q = Some u → (q = p ++ [i] ∧ u = c) ∨ (walk F root q = Some u ∧ u ≠ c ∧ q ≠ p ++ [i]).
Proof.
  intros Hs Hp Hw He Hpr Hc Hq. rewrite (linked_walk F V root p t i c e) by done.
  destruct (decide (q = p ++ [i])) as [->|Hne]; [intros [= <-]; by left|].
  destruct (decide ((p ++ [i]) `prefix_of` q)); [done|]. intros Hu. right. split_and!; [done| |done].
  intros ->. by destruct (sp_held _ _ _ Hs _ _ Hq Hu) as [_ ?].
Qed.

Lemma linked_space F V root p t i c e : space F V root → upath (p ++ [i]) → walk F root p = Some t →
  entry F t i = Some e → has e PTE_PRESENT = false → c ∈ pv_free V → space (linked F t i c) (taken c V) root.
Proof.
  intros Hs Hp Hw He Hpr Hc. pose proof (upath_app _ _ Hp) as Hp'.
  destruct (sp_avail _ _ _ Hs _ Hc) as [Hsc Hpc]. destruct (sp_held _ _ _ Hs _ _ Hp' Hw) as [_ Hnf].
  assert (t ≠ c) as Htc by set_solver. split.
  - intros q u Hq Hu. unfold linked. destruct (linked_walk_inv F V root p t i c e q u) as [[-> ->]|(Hu' & Hne & _)]; [done..| |].
    + rewrite lookup_alter_ne, lookup_insert_eq by done. eexists. split_and!; [done|by rewrite length_replicate|].
      apply Forall_replicate. unfold word. lia.
    + destruct (sp_tab _ _ _ Hs _ _ Hq Hu') as (l & Hl & Hlen & Hwd). destruct (decide (u = t)) as [->|].
      * rewrite lookup_alter_eq, lookup_insert_ne, Hl by done. eexists. split_and!; [done|by rewrite length_insert|].
        apply Forall_insert; [done|by apply link_entry_word].
      * rewrite lookup_alter_ne, lookup_insert_ne by done. eauto.
  - intros q1 q2 u H1 H2 W1 W2.
    destruct (linked_walk_inv F V root p t i c e q1 u) as [[-> ->]|(W1' & N1 & _)]; [done..| |];
      (destruct (linked_walk_inv F V root p t i c e q2 _ Hs Hp Hw He Hpr Hc H2 W2) as [[-> ?]|(W2' & N2 & _)]; try done).
    by apply (sp_inj _ _ _ Hs q1 q2 u).
  - intros q u Hq Hu. cbn [pv_held pv_free taken].
    destruct (linked_walk_inv F V root p t i c e q u) as [[-> ->]|(Hu' & Hne & _)]; [done..| |].
    + rewrite lookup_insert_eq. split; [done|set_solver].
    + destruct (sp_held _ _ _ Hs _ _ Hq Hu'). rewrite lookup_insert_ne by done. split; [done|set_solver].
  - intros q u j e' Hq Hu Hent Hpres. pose proof (upath_index _ _ _ Hq). pose proof (upath_app _ _ Hq) as Hq'.
    rewrite (linked_entry F V root p) in Hent by (done || lia). destruct (decide (u = t ∧ j = i)) as [[-> ->]|Hn].
    + injection Hent as <-. unfold PTE_WRITABLE, PTE_USER, PTE_HUGE.
      by rewrite !has_pow2, !link_entry_bit by (done || lia).
    + destruct (decide (u = c)) as [->|]; [by apply zeros_lookup in Hent as ->|].
      destruct (linked_walk_inv F V root p t i c e q u) as [[-> ->]|(Hu' & Hne & _)]; [done..|].
      by apply (sp_entry _ _ _ Hs q u j).
  - intros q. cbn [pv_free taken]. intros Hq. destruct (sp_avail _ _ _ Hs q) as [[x Hx] Hpg]; [set_solver|]. split; [|done].
    unfold linked. assert (q ≠ t) by set_solver. rewrite lookup_alter_ne, lookup_insert_ne by (done || set_solver). by eexists.
Qed.

Lemma linked_leaf F V root p t i c e q l : space F V root → upath (p ++ [i]) → walk F root p = Some t →
  entry F t i = Some e → has e PTE_PRESENT = false → c ∈ pv_free V → upath q → length q = 3%nat → 0 ≤ l →
  leaf (linked F t i c) root q l = leaf F root q l.
Proof.
  intros Hs Hp Hw He Hpr Hc Hq Hlen Hl. pose proof (upath_app _ _ Hp) as Hp'.
  destruct (sp_held _ _ _ Hs _ _ Hp' Hw) as [_ Hnf]. assert (t ≠ c) as Htc by set_solver.
  assert ((p ++ [i]) `prefix_of` q → walk F root q = None) as Hnone.
  { intros [k ->]. rewrite walk_app, walk_snoc, Hw. simpl. unfold next. rewrite He. simpl. by rewrite Hpr. }
  unfold leaf. rewrite (linked_walk F V root p t i c e) by done. destruct (decide (q = p ++ [i])) as [->|Hne].
  - rewrite Hnone by done. simpl. rewrite (linked_entry F V root p), decide_False, decide_True by (done || naive_solver).
    destruct ((replicate 512 0 : list Z) !! Z.to_nat l) eqn:E; simpl; [|done]. by apply zeros_lookup in E as ->.
  - destruct (decide ((p ++ [i]) `prefix_of` q)) as [Hpre|]; [by rewrite Hnone|].
    destruct (walk F root q) as [u|] eqn:Eu; simpl; [|done]. destruct (sp_held _ _ _ Hs _ _ Hq Eu) as [_ Hnu].
    rewrite (linked_entry F V root p) by done. rewrite (decide_False (P := u = c)) by set_solver.
    destruct (decide (u = t ∧ l = i)) as [[-> ->]|]; [|done].
    assert (q = p) as -> by (by eapply (sp_inj _ _ _ Hs)). exfalso. by apply (upath_len3_no_ext p (p ++ [i]) i []).
Qed.

(** ** Symbolic execution *)
Lemma wp_tget t i e F (a : A) Q : entry F t i = Some e → Q e (F, a) → wp (tget t i) (F, a) Q.
Proof. intros He. by apply (wp_deref (λ s : state, entry s.1 t i)). Qed.

Lemma wp_tset t i v e F (a : A) (Q : unit → state → Prop) : entry F t i = Some e →
  Q tt (alter (<[Z.to_nat i := v]>) t F, a) → wp (tset t i v) (F, a) Q.
Proof. intros He HQ. unfold tset. apply wp_bind. eapply wp_tget; [done|]. by apply wp_modify. Qed.

Lemma wp_zero_frame p F (a : A) (Q : unit → state → Prop) : is_Some (F !! p) →
  Q tt (<[p := replicate 512 0]> F, a) → wp (zero_frame p) (F, a) Q.
Proof.
  intros [x Hx] HQ. unfold zero_frame. apply wp_bind. eapply (wp_deref (λ s : state, s.1 !! p)); [done|]. by apply wp_modify.
Qed.

Lemma wp_copy_frame p q l F (a : A) (Q : unit → state → Prop) : is_Some (F !! p) → F !! q = Some l →
  Q tt (<[p := l]> F, a) → wp (copy_frame p q) (F, a) Q.
Proof.
  intros [x Hx] Hl HQ. unfold copy_frame. apply wp_bind. eapply (wp_deref (λ s : state, s.1 !! q)); [done|].
  apply wp_bind. eapply (wp_deref (λ s : state, s.1 !! p)); [done|]. by apply wp_modify.
Qed.

Lemma wp_alloc F (a : A) V (Q : Z → state → Prop) : pa_rep a V → pv_free V ≠ ∅ →
  (∀ c a', c ∈ pv_free V → c ≠ 0 → ram_end a' = ram_end a → pa_rep a' (taken c V) → Q c (F, a')) → wp pmm_alloc (F, a) Q.
Proof.
  intros Hr Hne HQ. unfold pmm_alloc. apply wp_lift_r. eapply wp_mono; [by apply alloc_page_law|].
  intros c a' (He & Hc & Hr'). apply HQ; [done| |done..]. destruct (free_range _ _ _ Hr Hc). lia.
Qed.

(** ** What an operation on one address space leaves alone *)
Record grows (root : Z) F V F' V' : Prop := {
  g_free : pv_free V' ⊆ pv_free V;
  g_held p : p ∉ pv_free V → pv_held V' !! p = pv_held V !! p;
  g_frame t : t ∉ pv_free V → (∀ q, upath q → walk F root q ≠ Some t) → F' !! t = F !! t;
  g_walk q t : upath q → walk F' root q = Some t → walk F root q = Some t ∨ t ∈ pv_free V;
}.

Lemma grows_refl root F V : grows root F V F V.
Proof. split; auto. Qed.

Lemma grows_trans root F V F1 V1 F2 V2 : grows root F V F1 V1 → grows root F1 V1 F2 V2 → grows root F V F2 V2.
Proof.
  intros [f1 h1 r1 w1] [f2 h2 r2 w2]. split.
  - set_solver.
  - intros p Hp. rewrite h2 by set_solver. by apply h1.
  - intros t Ht Hn. rewrite r2; [by apply r1|set_solver|]. intros q Hq Hw. destruct (w1 _ _ Hq Hw); [by eapply Hn|done].
  - intros q t Hq Hw. destruct (w2 _ _ Hq Hw) as [Hw'|]; [by apply w1|set_solver].
Qed.

Lemma grows_linked F V root p t i c e : space F V root → upath (p ++ [i]) → walk F root p = Some t →
  entry F t i = Some e → has e PTE_PRESENT = false → c ∈ pv_free V → grows root F V (linked F t i c) (taken c V).
Proof.
  intros Hs Hp Hw He Hpr Hc. pose proof (upath_app _ _ Hp) as Hp'. split; cbn [taken pv_free pv_held].
  - set_solver.
  - intros q Hq. rewrite lookup_insert_ne by set_solver. done.
  - intros u Hu Hn. unfold linked. rewrite lookup_alter_ne, lookup_insert_ne by set_solver. done.
  - intros q u Hq Hu. destruct (linked_walk_inv F V root p t i c e q u) as [[-> ->]|(Hu' & _)]; [done..|by right|by left].
Qed.

Lemma grows_leaf F V root p t l e : space F V root → upath p → length p = 3%nat → walk F root p = Some t →
  0 ≤ l < 512 → word e → grows root F V (alter (<[Z.to_nat l := e]>) t F) V.
Proof.
  intros Hs Hp Hlen Hw Hl He. destruct (leaf_set F V root p t l e) as (_ & Hwalk & _); [done..|]. split; [done|done| |].
  - intros u Hu Hn. rewrite lookup_alter_ne; [done|]. intros ->. by apply (Hn p).
  - intros q u Hq. rewrite Hwalk by done. by left.
Qed.

Lemma next_level_spec F V root p t i (a : A) : space F V root → upath (p ++ [i]) → walk F root p = Some t →
  pa_rep a V → pv_free V ≠ ∅ → wp (next_level t i) (F, a) (λ c '(F', a'), ∃ V',
    ram_end a' = ram_end a ∧ pa_rep a' V' ∧ space F' V' root ∧ walk F' root (p ++ [i]) = Some c ∧ grows root F V F' V' ∧
    (∀ q l, upath q → length q = 3%nat → 0 ≤ l → leaf F' root q l = leaf F root q l) ∧
    (base.size (pv_free V) ≤ base.size (pv_free V') + 1)%nat).
Proof.
  intros Hs Hp Hw Hr Hne. pose proof (upath_app _ _ Hp) as Hp'. pose proof (upath_index _ _ _ Hp) as Hi.
  destruct (space_entry _ _ _ _ _ i Hs Hp' Hw Hi) as (e & He & Hwd).
  unfold next_level, get_next_level. apply wp_bind, wp_bind. eapply wp_tget; [done|].
  destruct (has e PTE_PRESENT) eqn:Hpr.
  - destruct (sp_entry _ _ _ Hs _ _ _ _ Hp Hw He Hpr) as (W & U & _). rewrite grant_id by done.
    apply wp_bind. eapply wp_tset; [done|].
    assert (alter (<[Z.to_nat i := e]>) t F = F) as ->.
    { apply map_eq. intros u. destruct (decide (u = t)) as [->|]; [|by rewrite lookup_alter_ne]. rewrite lookup_alter_eq.
      unfold entry in He. destruct (F !! t) as [l|]; [|done]. simpl in *. f_equal. by apply list_insert_id. }
    apply wp_bind. eapply wp_tget; [done|]. apply wp_ret, wp_ret. exists V. split_and!; try done; [| |lia].
    + rewrite walk_snoc, Hw. simpl. unfold next. rewrite He. simpl. by rewrite Hpr.
    + apply grows_refl.
  - cbn [negb]. apply wp_bind. eapply wp_alloc; [done..|]. intros c a' Hc Hc0 Hram Hr'.
    rewrite (proj2 (Z.eqb_neq c 0)) by done. destruct (sp_avail _ _ _ Hs _ Hc) as [Hsc Hpc].
    destruct (sp_held _ _ _ Hs _ _ Hp' Hw) as [_ Hnf]. assert (t ≠ c) as Htc by set_solver.
    apply wp_bind. apply wp_zero_frame; [done|]. apply wp_bind. eapply wp_tset.
    { rewrite entry_new, decide_False by done. exact He. }
    apply wp_ret, wp_ret. exists (taken c V). fold (link_entry c). fold (linked F t i c). split_and!; try done.
    + by eapply linked_space.
    + rewrite (linked_walk F V root p t i c e), decide_True by done. done.
    + by eapply grows_linked.
    + intros q l Hq Hlen Hl. by eapply linked_leaf.
    + cbn [taken pv_free]. rewrite size_difference, size_singleton by set_solver. lia.
Qed.

Lemma size_nonempty (X : gset Z) : (1 ≤ base.size X)%nat → X ≠ ∅.
Proof. intros Hs ->. rewrite size_empty in Hs. lia. Qed.

Definition one_page (x y : Z) : Prop := x / 4096 = y / 4096.

#[global] Instance one_page_dec x y : Decision (one_page x y).
Proof. unfold one_page. apply _. Defined.

Lemma vmm_map_spec F V root (a : A) x phys flags : space F V root → user x → word phys → word flags →
  pa_rep a V → (3 ≤ base.size (pv_free V))%nat → wp (vmm_map root x phys flags) (F, a) (λ _ '(F', a'), ∃ V',
    ram_end a' = ram_end a ∧ pa_rep a' V' ∧ space F' V' root ∧ grows root F V F' V' ∧
    (base.size (pv_free V) ≤ base.size (pv_free V') + 3)%nat ∧
    (∀ y, user y → leaf F' root (path y) (index y 12) =
       if decide (one_page y x) then Some (leaf_entry (Z.land phys PTE_ADDR_MASK) flags)
       else leaf F root (path y) (index y 12))).
Proof.
  intros Hs Hx Hph Hf Hr Hsz. pose proof (upath_path x Hx) as Hp. unfold vmm_map. change 0xFFF with (Z.ones 12).
  rewrite !(index_clear x 12) by (done || lia). fold (leaf_entry (Z.land phys PTE_ADDR_MASK) flags).
  apply wp_bind. eapply wp_mono; [apply (next_level_spec F V root [] root); [done|exact (upath_app [_] [_; _] Hp)|done|done|]|].
  { apply size_nonempty. lia. }
  intros t1 [F1 a1] (V1 & Hram1 & Hr1 & Hs1 & Hw1 & G1 & L1 & Z1). apply wp_bind.
  eapply wp_mono; [apply (next_level_spec F1 V1 root [index x 39] t1); [done|exact (upath_app [_; _] [_] Hp)|done|done|]|].
  { apply size_nonempty. lia. }
  intros t2 [F2 a2] (V2 & Hram2 & Hr2 & Hs2 & Hw2 & G2 & L2 & Z2). apply wp_bind.
  eapply wp_mono; [apply (next_level_spec F2 V2 root [index x 39; index x 30] t2); [done|exact Hp|exact Hw2|done|]|].
  { apply size_nonempty. lia. }
  intros t3 [F3 a3] (V3 & Hram3 & Hr3 & Hs3 & Hw3 & G3 & L3 & Z3).
  pose proof (index_range x 12 ltac:(lia)) as Hi. destruct (space_entry _ _ _ _ _ _ Hs3 Hp Hw3 Hi) as (e & He & _).
  eapply wp_tset; [exact He|]. exists V3. set (new := leaf_entry (Z.land phys PTE_ADDR_MASK) flags).
  pose proof (page_addr phys Hph) as Hpg. assert (word new) as Hnew by (by apply leaf_entry_word).
  destruct (leaf_set F3 V3 root (path x) t3 (index x 12) new) as (Hs4 & _ & L4); [done..|].
  split_and!; [congruence|done|done| |lia|].
  - eapply grows_trans; [exact G1|]. eapply grows_trans; [exact G2|]. eapply grows_trans; [exact G3|].
    by apply (grows_leaf F3 V3 root (path x)).
  - intros y Hy. pose proof (upath_path y Hy) as Hyp. pose proof (index_range y 12 ltac:(lia)).
    rewrite L4, L3, L2, L1 by (done || lia). unfold PTE_PRESENT. rewrite has_pow2 by lia. unfold new at 1.
    rewrite leaf_entry_bit, orb_true_r by (done || lia).
    destruct (decide (one_page y x)) as [Ho|Ho]; [rewrite decide_True by (by apply same_page); done|].
    rewrite decide_False; [done|]. intros Hc. by apply Ho, same_page.
Qed.

(** ** Reading the tables *)
Lemma wp_descend {B} t i (d : B) k e F (a : A) Q : entry F t i = Some e →
  match next F t i with Some u => wp (k u) (F, a) Q | None => Q d (F, a) end → wp (descend t i d k) (F, a) Q.
Proof.
  intros He HQ. unfold descend. apply wp_bind. eapply wp_tget; [done|]. unfold next in HQ. rewrite He in HQ. simpl in HQ.
  by destruct (has e PTE_PRESENT).
Qed.

Lemma walk_path F root x : walk F root (path x) =
  (t1 ← next F root (index x 39); t2 ← next F t1 (index x 30); next F t2 (index x 21)).
Proof.
  unfold path. simpl. destruct (next F root (index x 39)) as [t1|]; simpl; [|done].
  destruct (next F t1 (index x 30)) as [t2|]; simpl; [|done]. by destruct (next F t2 (index x 21)).
Qed.

Lemma descend_path {B} F V root x (d : B) k (a : A) Q : space F V root → user x →
  match walk F root (path x) with Some pt => wp (k pt) (F, a) Q | None => Q d (F, a) end →
  wp (descend root (index x 39) d (λ pdpt, descend pdpt (index x 30) d (λ pd, descend pd (index x 21) d k))) (F, a) Q.
Proof.
  intros Hs Hx HQ. pose proof (upath_path x Hx) as Hp. rewrite walk_path in HQ.
  destruct (space_entry F V root [] root (index x 39)) as (e4 & E4 & _);
    [done|by repeat split; simpl; try lia|done|apply index_range; lia|].
  eapply wp_descend; [exact E4|]. destruct (next F root (index x 39)) as [t1|] eqn:N1; simpl in HQ; [|done].
  assert (walk F root [index x 39] = Some t1) as W1 by (simpl; by rewrite N1).
  destruct (space_entry F V root [_] t1 (index x 30) Hs (upath_app [_] [_; _] Hp) W1) as (e3 & E3 & _); [apply index_range; lia|].
  eapply wp_descend; [exact E3|]. destruct (next F t1 (index x 30)) as [t2|] eqn:N2; simpl in HQ; [|done].
  assert (walk F root [index x 39; index x 30] = Some t2) as W2 by (simpl; rewrite N1; simpl; by rewrite N2).
  destruct (space_entry F V root [_; _] t2 (index x 21) Hs (upath_app [_; _] [_] Hp) W2) as (e2 & E2 & _); [apply index_range; lia|].
  eapply wp_descend; [exact E2|]. by destruct (next F t2 (index x 21)).
Qed.

(** The entry for [x], present or not. *)
Lemma path_entry F V root x pt : space F V root → user x → walk F root (path x) = Some pt →
  ∃ e, entry F pt (index x 12) = Some e ∧ word e ∧ leaf F root (path x) (index x 12) = if has e PTE_PRESENT then Some e else None.
Proof.
  intros Hs Hx Hw. destruct (space_entry _ _ _ _ _ (index x 12) Hs (upath_path x Hx) Hw) as (e & He & Hwd); [apply index_range; lia|].
  exists e. split_and!; [done|done|]. unfold leaf. rewrite Hw. simpl. by rewrite He.
Qed.

Lemma leaf_word F V root x e : space F V root → user x → leaf F root (path x) (index x 12) = Some e → word e ∧ has e PTE_PRESENT = true.
Proof.
  intros Hs Hx. destruct (walk F root (path x)) as [pt|] eqn:Hw.
  - destruct (path_entry _ _ _ _ _ Hs Hx Hw) as (e' & He & Hwd & ->). destruct (has e' PTE_PRESENT) eqn:E; [|done]. by intros [= <-].
  - unfold leaf. by rewrite Hw.
Qed.

(** A store to the entry of [x]. *)
Lemma store_leaf F V root x pt (e : Z) (a : A) (Q : unit → state → Prop) : space F V root → user x →
  walk F root (path x) = Some pt → word e →
  (let F' := alter (<[Z.to_nat (index x 12) := e]>) pt F in
   space F' V root → grows root F V F' V →
   (∀ y, user y → leaf F' root (path y) (index y 12) =
      if decide (one_page y x) then (if has e PTE_PRESENT then Some e else None) else leaf F root (path y) (index y 12)) →
   Q tt (F', a)) → wp (tset pt (index x 12) e) (F, a) Q.
Proof.
  intros Hs Hx Hw He HQ. destruct (path_entry _ _ _ _ _ Hs Hx Hw) as (e0 & He0 & _). eapply wp_tset; [exact He0|].
  pose proof (index_range x 12 ltac:(lia)). destruct (leaf_set F V root (path x) pt (index x 12) e) as (Hs' & _ & L);
    [done|by apply upath_path|done..|].
  apply HQ; [done|apply (grows_leaf F V root (path x)); (done || by apply upath_path)|].
  intros y Hy. pose proof (index_range y 12 ltac:(lia)). rewrite L by (done || by apply upath_path).
  destruct (decide (one_page y x)) as [Ho|Ho]; [rewrite decide_True by (by apply same_page); done|].
  rewrite decide_False; [done|]. intros Hc. by apply Ho, same_page.
Qed.

Lemma vmm_get_phys_spec F V root x (a : A) : space F V root → user x →
  vmm_get_phys root x (F, a) = Ret (match translate F root x with Some (p, _, _) => p | None => 0 end, (F, a)).
Proof.
  intros Hs Hx. assert (wp (vmm_get_phys root x) (F, a) (λ r s, s = (F, a) ∧
    r = match translate F root x with Some (p, _, _) => p | None => 0 end)) as Hwp.
  { unfold vmm_get_phys. apply (descend_path F V); [done..|]. rewrite (translate_leaf F V) by done.
    destruct (walk F root (path x)) as [pt|] eqn:Hw; [|by unfold leaf; rewrite Hw].
    destruct (path_entry _ _ _ _ _ Hs Hx Hw) as (e & He & Hwd & ->). apply wp_bind. eapply wp_tget; [exact He|].
    destruct (has e PTE_PRESENT); apply wp_ret; (split; [done|]); [|done]. simpl.
    change 0xFFF with (Z.ones 12). rewrite Z.land_ones by lia. change (2 ^ 12) with 4096. apply wrap_small.
    destruct (page_addr e Hwd) as [Hr _]. pose proof (Z.mod_pos_bound x 4096 ltac:(lia)). lia. }
  apply wp_run in Hwp as (r & s & -> & -> & ->). done.
Qed.

Lemma vmm_unmap_spec F V root x (a : A) : space F V root → user x →
  wp (vmm_unmap root x) (F, a) (λ _ '(F', a'), a' = a ∧ space F' V root ∧ grows root F V F' V ∧
    ∀ y, user y → translate F' root y = if decide (one_page y x) then None else translate F root y).
Proof.
  intros Hs Hx. unfold vmm_unmap. change 0xFFF with (Z.ones 12). rewrite !(index_clear x 12) by (done || lia).
  apply (descend_path F V); [done..|]. destruct (walk F root (path x)) as [pt|] eqn:Hw.
  - apply (store_leaf F V root x); [done..|unfold word; lia|]. intros F' Hs' G L. split_and!; [done..|]. intros y Hy.
    rewrite !(translate_leaf _ V), L by done. by destruct (decide (one_page y x)).
  - split_and!; [done|done|apply grows_refl|]. intros y Hy. destruct (decide (one_page y x)) as [Ho|]; [|done].
    rewrite (translate_leaf F V) by done. apply same_page in Ho as [-> ->]; [|done..]. unfold leaf. by rewrite Hw.
Qed.

(** ** Changing the rights of a page *)
Lemma clear_bit e m k : 0 ≤ k < 64 → Z.testbit (Z.land e (not64 m)) k = Z.testbit e k && negb (Z.testbit m k).
Proof.
  intros. rewrite Z.land_spec, testbit_not64 by lia. destruct (Z.ltb_spec k 64); [|lia]. by destruct (Z.testbit m k).
Qed.

Lemma clear_addr e m : Z.land m PTE_ADDR_MASK = 0 → Z.land (Z.land e (not64 m)) PTE_ADDR_MASK = Z.land e PTE_ADDR_MASK.
Proof.
  intros Hm. apply Z.bits_inj'. intros n Hn. rewrite !(Z.land_spec _ PTE_ADDR_MASK), addr_mask by lia.
  destruct (Z.leb_spec 12 n), (Z.ltb_spec n 52); simpl; rewrite ?andb_false_r; try done.
  assert (Z.testbit (Z.land m PTE_ADDR_MASK) n = false) as Hb by (by rewrite Hm, Z.bits_0).
  rewrite Z.land_spec, addr_mask, (proj2 (Z.leb_le _ _)), (proj2 (Z.ltb_lt _ _)), andb_true_r in Hb by lia.
  by rewrite clear_bit, Hb, andb_true_r by lia.
Qed.

(** The entry [vmm_protect] stores. *)
Definition protected (pte : Z) (user writable : bool) : Z :=
  let pte := Z.land pte (not64 (Z.lor PTE_USER PTE_WRITABLE)) in
  let pte := if user then Z.lor pte PTE_USER else pte in
  if user && writable && negb (has pte PTE_COW) then Z.lor pte PTE_WRITABLE else pte.

Lemma protected_spec e (us wr : bool) : word e →
  word (protected e us wr) ∧ Z.land (protected e us wr) PTE_ADDR_MASK = Z.land e PTE_ADDR_MASK ∧
  has (protected e us wr) PTE_PRESENT = has e PTE_PRESENT ∧ has (protected e us wr) PTE_USER = us ∧
  has (protected e us wr) PTE_WRITABLE = (us && wr && negb (has e PTE_COW)).
Proof.
  intros He. unfold protected. set (c := Z.land e _).
  assert (Z.land c PTE_ADDR_MASK = Z.land e PTE_ADDR_MASK) as Ha by (by apply clear_addr).
  assert (Z.land PTE_USER PTE_ADDR_MASK = 0 ∧ Z.land PTE_WRITABLE PTE_ADDR_MASK = 0) as [Au Aw] by done.
  assert (∀ k, 0 ≤ k < 64 → Z.testbit c k = Z.testbit e k && negb ((2 =? k) || (1 =? k))) as Hc.
  { intros k Hk. unfold c, PTE_USER, PTE_WRITABLE. rewrite clear_bit, Z.lor_spec, !Z.pow2_bits_eqb by lia. done. }
  assert (word c) by (by apply word_land).
  unfold PTE_PRESENT, PTE_USER, PTE_WRITABLE, PTE_COW in *.
  split_and!; [destruct us, wr; simpl; try case_match; repeat first [assumption | apply word_lor | apply word_pow2; lia]|..].
  - destruct us, wr; simpl; try case_match; rewrite ?addr_lor, ?Au, ?Aw, ?Z.lor_0_r; done.
  - destruct us, wr; simpl; try case_match; rewrite !has_pow2, ?Z.lor_spec, ?Z.pow2_bits_eqb, Hc by lia;
      simpl; rewrite ?orb_false_r, ?andb_true_r; done.
  - destruct us, wr; simpl; try case_match; rewrite !has_pow2, ?Z.lor_spec, ?Z.pow2_bits_eqb, Hc by lia;
      simpl; rewrite ?orb_false_r, ?orb_true_r, ?andb_false_r; done.
  - assert (∀ z, has (Z.lor c z) (2 ^ 9) = has e (2 ^ 9) || has z (2 ^ 9)) as H9.
    { intros z. rewrite !has_pow2, Z.lor_spec, Hc by lia. simpl. by rewrite andb_true_r. }
    destruct us, wr; simpl; rewrite ?H9; try (rewrite !has_pow2, ?Z.lor_spec, ?Z.pow2_bits_eqb, Hc by lia; simpl; by rewrite ?andb_false_r).
    replace (has (2 ^ 2) (2 ^ 9)) with false by done. rewrite orb_false_r.
    destruct (has e (2 ^ 9)); simpl; rewrite !has_pow2, ?Z.lor_spec, ?Z.pow2_bits_eqb, Hc by lia; simpl; by rewrite ?andb_false_r, ?orb_true_r.
Qed.

Lemma vmm_protect_spec F V root x us wr (a : A) : space F V root → user x →
  wp (vmm_protect root x us wr) (F, a) (λ r '(F', a'), a' = a ∧ space F' V root ∧ grows root F V F' V ∧
    match leaf F root (path x) (index x 12) with
    | None => r = false ∧ F' = F
    | Some e => r = true ∧ ∀ y, user y → translate F' root y =
        if decide (one_page y x)
        then Some (Z.land e PTE_ADDR_MASK + y mod 4096, us, us && wr && negb (has e PTE_COW))
        else translate F root y
    end).
Proof.
  intros Hs Hx. assert (vmm_protect root x us wr = descend root (index x 39) false (λ pdpt,
    descend pdpt (index x 30) false (λ pd, e2 ← tget pd (index x 21);
    if negb (has e2 PTE_PRESENT) || has e2 PTE_HUGE then mret false else
    pte ← tget (Z.land e2 PTE_ADDR_MASK) (index x 12); if negb (has pte PTE_PRESENT) then mret false else
    tset (Z.land e2 PTE_ADDR_MASK) (index x 12) (protected pte us wr);; mret true))) as -> by reflexivity.
  pose proof (upath_path x Hx) as Hp. pose proof (walk_path F root x) as Hwp.
  assert (walk F root (path x) = None → leaf F root (path x) (index x 12) = None) as Hl by (intros Hw; unfold leaf; by rewrite Hw).
  destruct (space_entry F V root [] root (index x 39)) as (e4 & E4 & _);
    [done|by repeat split; simpl; try lia|done|apply index_range; lia|].
  eapply wp_descend; [exact E4|]. destruct (next F root (index x 39)) as [t1|] eqn:N1; simpl in Hwp;
    [|rewrite Hl by done; split_and!; (done || apply grows_refl)].
  assert (walk F root [index x 39] = Some t1) as W1 by (simpl; by rewrite N1).
  destruct (space_entry F V root [_] t1 (index x 30) Hs (upath_app [_] [_; _] Hp) W1) as (e3 & E3 & _); [apply index_range; lia|].
  eapply wp_descend; [exact E3|]. destruct (next F t1 (index x 30)) as [t2|] eqn:N2; simpl in Hwp;
    [|rewrite Hl by done; split_and!; (done || apply grows_refl)].
  assert (walk F root [index x 39; index x 30] = Some t2) as W2 by (simpl; rewrite N1; simpl; by rewrite N2).
  destruct (space_entry F V root [_; _] t2 (index x 21) Hs (upath_app [_; _] [_] Hp) W2) as (e2 & E2 & _); [apply index_range; lia|].
  apply wp_bind. eapply wp_tget; [exact E2|]. unfold next in Hwp. rewrite E2 in Hwp. simpl in Hwp.
  destruct (has e2 PTE_PRESENT) eqn:P2; simpl negb; simpl orb; [|rewrite Hl by done; apply wp_ret; split_and!; (done || apply grows_refl)].
  destruct (sp_entry _ _ _ Hs [_; _] _ (index x 21) e2 Hp W2 E2 P2) as (_ & _ & ->).
  destruct (path_entry _ _ _ _ _ Hs Hx Hwp) as (e & He & Hwd & ->). apply wp_bind. eapply wp_tget; [exact He|].
  destruct (has e PTE_PRESENT) eqn:P1; simpl negb; [|apply wp_ret; split_and!; (done || apply grows_refl)].
  destruct (protected_spec e us wr Hwd) as (Hwp' & Hpa & Hpp & Hpu & Hpw).
  apply wp_bind. apply (store_leaf F V root x); [done..|]. intros F' Hs' G L. apply wp_ret. split_and!; [done..|].
  intros y Hy. rewrite !(translate_leaf _ V), L by done. rewrite Hpp, P1. destruct (decide (one_page y x)); [|done].
  simpl. by rewrite Hpa, Hpu, Hpw.
Qed.

(** ** Page faults *)

(** Filling a free frame and taking it leaves the address space as it is. *)
Lemma space_take F V root c l : space F V root → c ∈ pv_free V →
  let F' := <[c := l]> F in
  space F' (taken c V) root ∧ grows root F V F' (taken c V) ∧
  (∀ q, upath q → walk F' root q = walk F root q) ∧
  (∀ q m, upath q → leaf F' root q m = leaf F root q m).
Proof.
  intros Hs Hc F'. assert (∀ q t, upath q → walk F root q = Some t → t ≠ c) as Hne.
  { intros q t Hq Hw ->. by destruct (sp_held _ _ _ Hs _ _ Hq Hw). }
  assert (∀ t i, t ≠ c → entry F' t i = entry F t i) as He by (intros t i Ht; unfold entry, F'; by rewrite lookup_insert_ne).
  assert (∀ q, upath q → walk F' root q = walk F root q) as Hwalk.
  { intros q Hq. apply walk_ext. intros q1 i q2 t -> Hw. unfold next. rewrite He; [done|].
    apply (Hne q1); [by eapply upath_app|done]. }
  split_and!; [| |done|].
  - split; cbn [taken pv_free pv_held].
    + intros q t Hq. rewrite Hwalk by done. intros Hw. unfold F'. rewrite lookup_insert_ne by (by apply not_eq_sym, (Hne q)).
      by apply (sp_tab _ _ _ Hs q).
    + intros q1 q2 t H1 H2. rewrite !Hwalk by done. by apply (sp_inj _ _ _ Hs).
    + intros q t Hq. rewrite Hwalk by done. intros Hw. rewrite lookup_insert_ne by (by apply not_eq_sym, (Hne q)).
      destruct (sp_held _ _ _ Hs _ _ Hq Hw). split; [done|set_solver].
    + intros q t i e Hq. pose proof (upath_app _ _ Hq) as Hq'. rewrite Hwalk by done. intros Hw. rewrite He by (by apply (Hne q)).
      by apply (sp_entry _ _ _ Hs q).
    + intros q Hq. unfold F'. rewrite lookup_insert_ne by set_solver. apply (sp_avail _ _ _ Hs). set_solver.
  - split; cbn [taken pv_free pv_held].
    + set_solver.
    + intros q Hq. rewrite lookup_insert_ne by set_solver. done.
    + intros t Ht _. unfold F'. rewrite lookup_insert_ne by set_solver. done.
    + intros q t Hq. rewrite Hwalk by done. by left.
  - intros q m Hq. unfold leaf. rewrite Hwalk by done. destruct (walk F root q) as [t|] eqn:Hw; simpl; [|done].
    rewrite He by (by apply (Hne q)). done.
Qed.

(** The page [c] was free and now holds [l]; [x] is mapped to it and no other
    translation changed. *)
Definition remapped (root x : Z) (us wr : bool) (l : list Z) F V F' (c : Z) : Prop :=
  c ∈ pv_free V ∧ F' !! c = Some l ∧
  ∀ y, user y → translate F' root y =
    if decide (one_page y x) then Some (c + y mod 4096, us, wr) else translate F root y.

Lemma cow_entry e c : page c → word e → has e PTE_PRESENT = true →
  let n := Z.lor (Z.land c PTE_ADDR_MASK) (Z.lor (Z.land (Z.land e PTE_FLAGS_MASK) (not64 PTE_COW)) PTE_WRITABLE) in
  word n ∧ Z.land n PTE_ADDR_MASK = c ∧ has n PTE_PRESENT = true ∧ has n PTE_WRITABLE = true ∧ has n PTE_USER = has e PTE_USER.
Proof.
  intros Hc He Hp n. assert (word (Z.land (Z.land e PTE_FLAGS_MASK) (not64 PTE_COW))) by (by repeat apply word_land).
  unfold n. rewrite (addr_page c) by done. split_and!.
  - apply word_lor; [by apply page_word|]. apply word_lor; [done|by apply word_pow2].
  - rewrite !addr_lor, clear_addr, addr_flags, addr_page by done. apply Z.lor_0_r.
  - unfold PTE_PRESENT, PTE_COW, PTE_WRITABLE in *. rewrite has_pow2 in * by lia.
    rewrite !Z.lor_spec, clear_bit, flag_bit, !Z.pow2_bits_eqb, Hp by lia. simpl. by rewrite orb_true_r.
  - unfold PTE_WRITABLE. rewrite has_pow2, !Z.lor_spec, !Z.pow2_bits_eqb by lia. simpl. by rewrite !orb_true_r.
  - unfold PTE_USER, PTE_COW, PTE_WRITABLE. rewrite !has_pow2, !Z.lor_spec, clear_bit, flag_bit, !Z.pow2_bits_eqb, page_bit by (done || lia).
    simpl. by rewrite andb_true_r, orb_false_r.
Qed.

Definition cow_entry_of F root x err : option Z :=
  e ← leaf F root (path x) (index x 12); if has err 0x02 && has e PTE_COW then Some e else None.

Lemma cow_fault_spec F V root x err (a : A) : space F V root → user x → pa_rep a V → pv_free V ≠ ∅ →
  (∀ e, leaf F root (path x) (index x 12) = Some e → is_Some (F !! Z.land e PTE_ADDR_MASK)) →
  wp (cow_fault root x err) (F, a) (λ r '(F', a'), match cow_entry_of F root x err with
    | None => r = false ∧ F' = F ∧ a' = a
    | Some e => r = true ∧ ∃ V' l c, ram_end a' = ram_end a ∧ pa_rep a' V' ∧ space F' V' root ∧ grows root F V F' V' ∧
        F !! Z.land e PTE_ADDR_MASK = Some l ∧ remapped root x (has e PTE_USER) true l F V F' c
    end).
Proof.
  intros Hs Hx Hr Hne Hdata. unfold cow_fault, cow_entry_of. apply (descend_path F V); [done..|].
  destruct (walk F root (path x)) as [pt|] eqn:Hw; [|unfold leaf; by rewrite Hw].
  destruct (path_entry _ _ _ _ _ Hs Hx Hw) as (e & He & Hwd & Hleaf). rewrite Hleaf in *. apply wp_bind. eapply wp_tget; [exact He|].
  destruct (has err 2) eqn:E2; simpl andb; [|by destruct (has e PTE_PRESENT)].
  destruct (has e PTE_PRESENT) eqn:Ep; simpl; [|done]. destruct (has e PTE_COW) eqn:Ec; [|done].
  destruct (Hdata e eq_refl) as [l Hl]. apply wp_bind. eapply wp_alloc; [done..|]. intros c a' Hc Hc0 Hram Hr'.
  rewrite (proj2 (Z.eqb_neq c 0)) by done. destruct (sp_avail _ _ _ Hs _ Hc) as [Hsc Hpc].
  apply wp_bind. eapply wp_copy_frame; [done..|].
  destruct (space_take F V root c l Hs Hc) as (Hs1 & G1 & W1 & L1).
  destruct (cow_entry e c Hpc Hwd Ep) as (Hn1 & Hn2 & Hn3 & Hn4 & Hn5). set (n := Z.lor (Z.land c PTE_ADDR_MASK) _) in *.
  apply wp_bind. apply (store_leaf (<[c:=l]> F) (taken c V) root x); [done|done|rewrite W1; [done|by apply upath_path]|done|].
  intros F' Hs' G L. apply wp_ret. split; [done|]. exists (taken c V), l, c. split_and!; [done..| |done|].
  - by eapply grows_trans.
  - split_and!; [done| |].
    + rewrite (g_frame _ _ _ _ _ G); [by rewrite lookup_insert_eq|cbn [taken pv_free]; set_solver|].
      intros q Hq. rewrite W1 by done. intros Hq'. by destruct (sp_held _ _ _ Hs _ _ Hq Hq').
    + intros y Hy. rewrite (translate_leaf F' (taken c V)), (translate_leaf F V), L, L1 by (done || by apply upath_path).
      rewrite Hn3. destruct (decide (one_page y x)); [|done]. simpl. by rewrite Hn2, Hn4, Hn5.
Qed.

Lemma stack_fault_spec F V root x (a : A) : space F V root → pa_rep a V → (4 ≤ base.size (pv_free V))%nat →
  0x7FE000000000 ≤ x < 2 ^ 47 → wp (stack_fault root x) (F, a) (λ r '(F', a'), r = true ∧ ∃ V' c,
    ram_end a' = ram_end a ∧ pa_rep a' V' ∧ space F' V' root ∧ grows root F V F' V' ∧
    remapped root x true true (replicate 512 0) F V F' c).
Proof.
  intros Hs Hr Hsz Hx. unfold stack_fault. rewrite (proj2 (Z.leb_le _ _)), (proj2 (Z.ltb_lt _ _)) by lia. simpl andb.
  assert (user x) as Hu by (unfold user; lia).
  apply wp_bind. eapply wp_alloc; [done|apply size_nonempty; lia|]. intros c a1 Hc Hc0 Hram Hr1.
  rewrite (proj2 (Z.eqb_neq c 0)) by done. destruct (sp_avail _ _ _ Hs _ Hc) as [Hsc Hpc].
  apply wp_bind. apply wp_zero_frame; [done|]. destruct (space_take F V root c (replicate 512 0) Hs Hc) as (Hs1 & G1 & W1 & L1).
  change 0xFFF with (Z.ones 12). pose proof (Z.mod_pos_bound x 4096 ltac:(lia)).
  rewrite clear_low by (lia || by apply user_word). change (2 ^ 12) with 4096. set (x' := x - x mod 4096).
  assert (0 ≤ x' ≤ x) as Hx' by (unfold x'; lia). apply wp_bind. eapply wp_mono.
  { apply (vmm_map_spec _ (taken c V)); [done|unfold user; lia|by apply page_word|split; vm_compute; done|done|].
    cbn [taken pv_free]. rewrite size_difference, size_singleton by set_solver. lia. }
  intros [] [F2 a2] (V2 & Hram2 & Hr2 & Hs2 & G2 & _ & L2). apply wp_ret. split; [done|]. exists V2, c.
  assert (∀ y, one_page y x' ↔ one_page y x) as Hone.
  { intros y. unfold one_page, x'. replace (x - x mod 4096) with (x / 4096 * 4096) by (pose proof (Z.div_mod x 4096 ltac:(lia)); lia).
    by rewrite Z.div_mul by lia. }
  split_and!; [congruence|done|done|by eapply grows_trans|]. split_and!; [done| |].
  - rewrite (g_frame _ _ _ _ _ G2); [by rewrite lookup_insert_eq|cbn [taken pv_free]; set_solver|].
    intros q Hq. rewrite W1 by done. intros Hq'. by destruct (sp_held _ _ _ Hs _ _ Hq Hq').
  - intros y Hy. rewrite (translate_leaf F2 V2), (translate_leaf F V), L2, L1 by (done || by apply upath_path).
    destruct (decide (one_page y x')) as [Ho|Ho]; [rewrite decide_True by (by apply Hone)|rewrite decide_False by (by rewrite <-Hone); done].
    rewrite addr_page by done. simpl. rewrite leaf_entry_addr by done. unfold PTE_USER, PTE_WRITABLE, PTE_PRESENT.
    by rewrite !has_pow2, !leaf_entry_bit by (done || lia).
Qed.

(** ** Destroying an address space *)
Definition entries F (t : Z) (i n : Z) : list Z := omap (entry F t) (seqZ i n).

Definition inner (e : Z) : bool := has e PTE_PRESENT && negb (has e PTE_HUGE).

Definition ram_page (ram e : Z) : bool :=
  has e PTE_PRESENT && (negb (has e PTE_PCD) && (Z.land e PTE_ADDR_MASK <? ram)).

(** The pages handed back, in the order of the loops. *)
Definition freed_level F (n : Z) (sel : Z → bool) (sub : Z → list Z) (t : Z) : list Z :=
  (e ← entries F t 0 n; if sel e then sub (Z.land e PTE_ADDR_MASK) else []) ++ [t].

Definition freed_pt F (ram : Z) : Z → list Z := freed_level F 512 (ram_page ram) (λ p, [p]).

Definition freed F (ram root : Z) : list Z :=
  freed_level F 256 (λ e, has e PTE_PRESENT)
    (freed_level F 512 inner (freed_level F 512 inner (freed_pt F ram))) root.

Definition frees (l : list Z) : M (frames * A) unit := lift_r (free_all l).

Lemma frees_app l1 l2 s : frees (l1 ++ l2) s = (frees l1;; frees l2) s.
Proof.
  destruct s as [F a]. revert a. induction l1 as [|p l1 IH]; intros a; simpl; [done|].
  unfold frees, lift_r in *. unfold mbind, M_bind. cbn [free_all app]. unfold mbind, M_bind.
  destruct (page_free p 0 a) as [[[] a1]| | |]; [apply IH|done..].
Qed.

Lemma frees_single p s : frees [p] s = pmm_free p s.
Proof.
  destruct s as [F a]. unfold frees, pmm_free, lift_r. cbn [free_all]. unfold mbind, M_bind.
  by destruct (page_free p 0 a) as [[[] a1]| | |].
Qed.

(** [frees] does not touch the frames. *)
Lemma frees_frames l F (a : A) : match frees l (F, a) with Ret (_, (F', _)) => F' = F | _ => True end.
Proof. unfold frees, lift_r. by destruct (free_all l a) as [[[] a1]| | |]. Qed.

Lemma bind_frees l F (a : A) {B} (k1 k2 : unit → M (frames * A) B) :
  (∀ a', k1 tt (F, a') = k2 tt (F, a')) → (frees l ≫= k1) (F, a) = (frees l ≫= k2) (F, a).
Proof.
  intros Hk. unfold mbind, M_bind. pose proof (frees_frames l F a). destruct (frees l (F, a)) as [[[] [F' a']]| | |]; try done.
  by subst.
Qed.

(** A loop over the entries of a table whose body frees pages. *)
Lemma loop_frees F t (f : Z → list Z) (body : Z → M (frames * A) unit) n : ∀ i,
  (∀ j, i ≤ j < i + Z.of_nat n → ∃ e, entry F t j = Some e ∧ ∀ a, body j (F, a) = frees (f e) (F, a)) →
  ∀ a, for_loop i n body (F, a) = frees (entries F t i (Z.of_nat n) ≫= f) (F, a).
Proof.
  induction n as [|n IH]; intros i Hb a; [done|].
  rewrite Nat2Z.inj_succ. unfold entries. rewrite seqZ_cons by lia. destruct (Hb i ltac:(lia)) as (e & He & Hbe).
  cbn [omap list_omap]. rewrite He. cbn [mbind list_bind]. rewrite frees_app. cbn [for_loop].
  transitivity ((frees (f e);; for_loop (i + 1) n body) (F, a)).
  { unfold mbind, M_bind. by rewrite Hbe. }
  apply bind_frees. intros a'. rewrite IH by (intros; apply Hb; lia). by replace (Z.pred (Z.succ (Z.of_nat n))) with (Z.of_nat n) by lia.
Qed.

(** The body of an outer loop: the inner loop, then the table itself. *)
Lemma level_frees F n m (sel : Z → bool) (sub : Z → list Z) t (body : Z → M (frames * A) unit) : m = Z.of_nat n →
  (∀ j, 0 ≤ j < m → ∃ e, entry F t j = Some e ∧
     ∀ a, body j (F, a) = frees (if sel e then sub (Z.land e PTE_ADDR_MASK) else []) (F, a)) →
  ∀ a, (for_loop 0 n body;; pmm_free t) (F, a) = frees (freed_level F m sel sub t) (F, a).
Proof.
  intros -> Hb a. unfold freed_level. rewrite frees_app.
  transitivity ((frees (entries F t 0 (Z.of_nat n) ≫= λ e, if sel e then sub (Z.land e PTE_ADDR_MASK) else []);; pmm_free t) (F, a)).
  { unfold mbind, M_bind. erewrite (loop_frees F t _ body n 0); [done|]. intros j Hj. apply Hb. lia. }
  apply bind_frees. intros a'. by rewrite frees_single.
Qed.

Lemma run_tget {B} t i e F (a : A) (k : Z → M (frames * A) B) : entry F t i = Some e → (tget t i ≫= k) (F, a) = k e (F, a).
Proof. intros He. apply bind_Ret. unfold tget, deref. simpl. by rewrite He. Qed.

Lemma next_inner F V root p t i e : space F V root → upath (p ++ [i]) → walk F root p = Some t → entry F t i = Some e →
  has e PTE_PRESENT = true → walk F root (p ++ [i]) = Some (Z.land e PTE_ADDR_MASK).
Proof. intros Hs Hp Hw He Hpr. rewrite walk_snoc, Hw. simpl. unfold next. rewrite He. simpl. by rewrite Hpr. Qed.

Lemma upath_snoc p i : upath p → (length p < 3)%nat → 0 ≤ i < 512 → (p = [] → i < 256) → upath (p ++ [i]).
Proof.
  intros (Hf & Hl & Hh) Hlen Hi Hnil. split_and!; [by apply Forall_app; split; [|by constructor]|rewrite length_app; simpl; lia|].
  destruct p; simpl; [by apply Hnil|done].
Qed.

Lemma destroy_run F V root cr3 (a : A) : space F V root → Z.land cr3 PTE_ADDR_MASK = root →
  vmm_destroy_address_space cr3 (F, a) = frees (freed F (u64 (ram_end a)) root) (F, a).
Proof.
  intros Hs Hcr. unfold vmm_destroy_address_space. rewrite Hcr. unfold gets.
  rewrite (bind_Ret _ _ _ (u64 (ram_end a)) (F, a)) by done. unfold freed. set (ram := u64 (ram_end a)). clearbody ram.
  assert (upath []) as U0 by by repeat split; simpl; try lia.
  apply level_frees; [done|]. intros i Hi.
  destruct (space_entry _ _ _ [] root i Hs U0 eq_refl) as (e4 & E4 & _); [lia|]. exists e4. split; [done|]. clear a. intros a.
  rewrite (run_tget _ _ e4) by done. destruct (has e4 PTE_PRESENT) eqn:P4; [|done].
  assert (upath [i]) as U1 by (apply (upath_snoc []); (done || lia || simpl; lia)).
  assert (walk F root [i] = Some (Z.land e4 PTE_ADDR_MASK)) as W1 by (by apply (next_inner F V root [] root)).
  cbv zeta. set (t1 := Z.land e4 PTE_ADDR_MASK) in *.
  apply level_frees; [done|]. intros j Hj.
  destruct (space_entry _ _ _ [i] t1 j Hs U1 W1) as (e3 & E3 & _); [lia|]. exists e3. split; [done|]. clear a. intros a.
  rewrite (run_tget _ _ e3) by done. fold (inner e3). destruct (inner e3) eqn:I3; [|done]. apply andb_prop in I3 as [P3 _].
  assert (upath [i; j]) as U2 by (apply (upath_snoc [i]); (done || lia || simpl; lia)).
  assert (walk F root [i; j] = Some (Z.land e3 PTE_ADDR_MASK)) as W2 by (by apply (next_inner F V root [i] t1)).
  cbv zeta. set (t2 := Z.land e3 PTE_ADDR_MASK) in *.
  apply level_frees; [done|]. intros k Hk.
  destruct (space_entry _ _ _ [i; j] t2 k Hs U2 W2) as (e2 & E2 & _); [lia|]. exists e2. split; [done|]. clear a. intros a.
  rewrite (run_tget _ _ e2) by done. fold (inner e2). destruct (inner e2) eqn:I2; [|done]. apply andb_prop in I2 as [P2 _].
  assert (upath [i; j; k]) as U3 by (apply (upath_snoc [i; j]); (done || lia || simpl; lia)).
  assert (walk F root [i; j; k] = Some (Z.land e2 PTE_ADDR_MASK)) as W3 by (by apply (next_inner F V root [i; j] t2)).
  cbv zeta. set (t3 := Z.land e2 PTE_ADDR_MASK) in *.
  unfold freed_pt. apply level_frees; [done|]. intros l Hl.
  destruct (space_entry _ _ _ [i; j; k] t3 l Hs U3 W3) as (e1 & E1 & _); [lia|]. exists e1. split; [done|].
  clear a. intros a. rewrite (run_tget _ _ e1) by done. unfold ram_page. destruct (has e1 PTE_PRESENT); cbn [andb]; [|done].
  destruct (_ && _); [by rewrite frees_single|done].
Qed.

(** *** Which pages these are *)
Lemma entries_bind F t n (f : Z → list Z) :
  entries F t 0 n ≫= f = i ← seqZ 0 n; match entry F t i with Some e => f e | None => [] end.
Proof.
  unfold entries. induction (seqZ 0 n) as [|i l IH]; [done|]. cbn [omap list_omap mbind list_bind].
  destruct (entry F t i) as [e|]; cbn [mbind list_bind app]; [|exact IH]. f_equal. exact IH.
Qed.

Lemma elem_freed_level F n sel sub t p : p ∈ freed_level F n sel sub t ↔
  p = t ∨ ∃ i e, 0 ≤ i < n ∧ entry F t i = Some e ∧ sel e = true ∧ p ∈ sub (Z.land e PTE_ADDR_MASK).
Proof.
  unfold freed_level. rewrite entries_bind, elem_of_app, list_elem_of_bind, list_elem_of_singleton. split.
  - intros [(i & Hp & Hi)|]; [|by left]. apply elem_of_seqZ in Hi. destruct (entry F t i) as [e|] eqn:E; [|set_solver].
    destruct (sel e) eqn:S; [|set_solver]. right. exists i, e. split_and!; (done || lia).
  - intros [->|(i & e & Hi & E & S & Hp)]; [by right|]. left. exists i. rewrite E, S. split; [done|]. apply elem_of_seqZ. lia.
Qed.

(** [p] is a table below [q], or a page of RAM mapped below [q]. *)
Definition under F (ram root : Z) (q : list Z) (p : Z) : Prop :=
  (∃ r, upath (q ++ r) ∧ walk F root (q ++ r) = Some p) ∨
  (∃ r l e, upath (q ++ r) ∧ length (q ++ r) = 3%nat ∧ 0 ≤ l < 512 ∧ leaf F root (q ++ r) l = Some e ∧
     ram_page ram e = true ∧ p = Z.land e PTE_ADDR_MASK).

(** No page of RAM is mapped twice, and the mapped ones are single held pages
    that are not tables. *)
Record unshared F V (ram root : Z) : Prop := {
  us_held q l e : upath q → length q = 3%nat → 0 ≤ l < 512 → leaf F root q l = Some e → ram_page ram e = true →
    pv_held V !! Z.land e PTE_ADDR_MASK = Some 0%nat ∧ ∀ r, upath r → walk F root r ≠ Some (Z.land e PTE_ADDR_MASK);
  us_once q l e q' l' e' : upath q → length q = 3%nat → 0 ≤ l < 512 → leaf F root q l = Some e → ram_page ram e = true →
    upath q' → length q' = 3%nat → 0 ≤ l' < 512 → leaf F root q' l' = Some e' → ram_page ram e' = true →
    Z.land e PTE_ADDR_MASK = Z.land e' PTE_ADDR_MASK → q = q' ∧ l = l';
}.

Lemma under_disjoint F V ram root q i j p : space F V root → unshared F V ram root →
  under F ram root (q ++ [i]) p → under F ram root (q ++ [j]) p → i = j.
Proof.
  intros Hs Hu. assert (∀ r s, (q ++ [i]) ++ r = (q ++ [j]) ++ s → i = j) as Hpre.
  { intros r s. rewrite <-!(assoc_L (++)). intros He. apply app_inv_head in He. by injection He. }
  intros [(r & Hr & Wr)|(r & l & e & Hr & Lr & Hl & Er & Rr & ->)] [(s & Hs' & Ws)|(s & m & d & Hs' & Ls & Hm & Es & Rs & Hp)].
  - apply (Hpre r s). by apply (sp_inj _ _ _ Hs _ _ p).
  - subst p. exfalso. destruct (us_held _ _ _ _ Hu _ _ _ Hs' Ls Hm Es Rs) as [_ Hn]. by apply (Hn _ Hr).
  - exfalso. destruct (us_held _ _ _ _ Hu _ _ _ Hr Lr Hl Er Rr) as [_ Hn]. by apply (Hn _ Hs').
  - apply (Hpre r s). by eapply (us_once _ _ _ _ Hu (_ ++ r) l e (_ ++ s) m d).
Qed.

Lemma under_self F V ram root q i t : space F V root → unshared F V ram root → upath q → walk F root q = Some t →
  ¬ under F ram root (q ++ [i]) t.
Proof.
  intros Hs Hu Hq Hw [(r & Hr & Wr)|(r & l & e & Hr & Lr & Hl & Er & Rr & ->)].
  - pose proof (sp_inj _ _ _ Hs _ _ _ Hq Hr Hw Wr) as He. apply (f_equal length) in He. rewrite !length_app in He. simpl in He. lia.
  - destruct (us_held _ _ _ _ Hu _ _ _ Hr Lr Hl Er Rr) as [_ Hn]. by apply (Hn q).
Qed.

Definition exact F ram root (q : list Z) (l : list Z) : Prop := NoDup l ∧ ∀ p, p ∈ l ↔ under F ram root q p.

Lemma level_exact F V ram root q t n sel sub : space F V root → unshared F V ram root →
  upath q → (length q < 3)%nat → walk F root q = Some t → (∀ i, upath (q ++ [i]) ↔ 0 ≤ i < n) →
  (∀ i e, 0 ≤ i < n → entry F t i = Some e → sel e = has e PTE_PRESENT) →
  (∀ i u, upath (q ++ [i]) → walk F root (q ++ [i]) = Some u → exact F ram root (q ++ [i]) (sub u)) →
  exact F ram root q (freed_level F n sel sub t).
Proof.
  intros Hs Hu Hq Hlen Hw Hn Hsel Hsub.
  assert (∀ i e, 0 ≤ i < n → entry F t i = Some e → sel e = true → walk F root (q ++ [i]) = Some (Z.land e PTE_ADDR_MASK)) as Hstep.
  { intros i e Hi He Hsl. apply (next_inner F V root q t); [done|by apply Hn|done..|]. by rewrite <-(Hsel i). }
  assert (∀ i p, 0 ≤ i < n → p ∈ match entry F t i with Some e => if sel e then sub (Z.land e PTE_ADDR_MASK) else [] | None => [] end →
    under F ram root (q ++ [i]) p) as Hin.
  { intros i p Hi Hp. destruct (entry F t i) as [e|] eqn:E; [|set_solver]. destruct (sel e) eqn:S; [|set_solver].
    apply (Hsub i (Z.land e PTE_ADDR_MASK)); [by apply Hn|by apply Hstep|done]. }
  split.
  - unfold freed_level. rewrite entries_bind. apply NoDup_app. split_and!; [|..|apply NoDup_singleton].
    + apply NoDup_bind; [|intros i Hi|apply NoDup_seqZ].
      * intros i j p Hi Hj Pi Pj. apply elem_of_seqZ in Hi, Hj.
        apply (under_disjoint F V ram root q i j p); [done|done|apply Hin; [lia|done]|apply Hin; [lia|done]].
      * apply elem_of_seqZ in Hi. destruct (entry F t i) as [e|] eqn:E; [|constructor]. destruct (sel e) eqn:S; [|constructor].
        apply (Hsub i (Z.land e PTE_ADDR_MASK)); [apply Hn; lia|apply Hstep; (done || lia)].
    + intros p Hp. rewrite list_elem_of_singleton. intros ->. apply list_elem_of_bind in Hp as (i & Hp & Hi).
      apply elem_of_seqZ in Hi. apply (under_self F V ram root q i t); [done..|]. apply Hin; [lia|done].
  - intros p. rewrite elem_freed_level. split.
    + intros [->|(i & e & Hi & E & S & Hp)]; [left; exists []; by rewrite app_nil_r|].
      assert (under F ram root (q ++ [i]) p) as Hup by (apply Hin; [done|by rewrite E, S]).
      destruct Hup as [(r & Hr & Wr)|(r & l & d & Hr & Lr & Hl & Er & Rr & ->)]; rewrite <-(assoc_L (++)) in *.
      * left. by exists ([i] ++ r).
      * right. by exists ([i] ++ r), l, d.
    + assert (∀ i r, upath (q ++ i :: r) → is_Some (walk F root (q ++ i :: r)) → under F ram root (q ++ [i]) p →
        ∃ i e, 0 ≤ i < n ∧ entry F t i = Some e ∧ sel e = true ∧ p ∈ sub (Z.land e PTE_ADDR_MASK)) as Hback.
      { intros i r Hr [u Wr] Hup. change (i :: r) with ([i] ++ r) in *. rewrite (assoc_L (++)) in *.
        assert (upath (q ++ [i])) as Hqi by (by eapply upath_app). rewrite walk_app, walk_snoc, Hw in Wr. simpl in Wr.
        unfold next in Wr. destruct (entry F t i) as [e|] eqn:E; [|done]. simpl in Wr.
        destruct (has e PTE_PRESENT) eqn:P; [|done]. apply Hn in Hqi as Hi. assert (sel e = true) as S by (by rewrite (Hsel i)).
        exists i, e. split_and!; [lia..|done|done|]. apply (Hsub i); [done|by apply Hstep|done]. }
      intros [(r & Hr & Wr)|(r & l & d & Hr & Lr & Hl & Er & Rr & ->)].
      * destruct r as [|i r]; [left; rewrite app_nil_r in Wr; congruence|]. right. apply (Hback i r); [done|by eexists|].
        left. exists r. by rewrite <-(assoc_L (++)).
      * destruct r as [|i r]; [rewrite app_nil_r in Lr; lia|]. right. apply (Hback i r); [done| |].
        -- unfold leaf in Er. destruct (walk F root (q ++ i :: r)); [by eexists|done].
        -- right. exists r, l, d. by rewrite <-(assoc_L (++)).
Qed.

Lemma leaf_entry_at F root q t l e : walk F root q = Some t → entry F t l = Some e → has e PTE_PRESENT = true →
  leaf F root q l = Some e.
Proof. intros Hw He Hp. unfold leaf. rewrite Hw. simpl. rewrite He. simpl. by rewrite Hp. Qed.

Lemma ram_page_present ram e : ram_page ram e = true → has e PTE_PRESENT = true.
Proof. unfold ram_page. by intros [? _]%andb_prop. Qed.

Lemma pt_exact F V ram root q t : space F V root → unshared F V ram root → upath q → length q = 3%nat →
  walk F root q = Some t → exact F ram root q (freed_pt F ram t).
Proof.
  intros Hs Hu Hq Hlen Hw. assert (∀ r, upath (q ++ r) → r = []) as Hr0.
  { intros r (_ & Hl & _). rewrite length_app in Hl. destruct r; [done|]. simpl in Hl. lia. }
  split.
  - unfold freed_pt, freed_level. rewrite entries_bind. apply NoDup_app. split_and!; [|..|apply NoDup_singleton].
    + apply NoDup_bind; [|intros i Hi|apply NoDup_seqZ].
      * intros i j p Hi Hj Pi Pj. apply elem_of_seqZ in Hi, Hj.
        destruct (entry F t i) as [e|] eqn:Ei; [|set_solver]. destruct (ram_page ram e) eqn:Ri; [|set_solver].
        destruct (entry F t j) as [d|] eqn:Ej; [|set_solver]. destruct (ram_page ram d) eqn:Rj; [|set_solver].
        apply list_elem_of_singleton in Pi, Pj. subst p.
        apply (us_once _ _ _ _ Hu q i e q j d); try done; try lia;
          (eapply leaf_entry_at; [done|done|by eapply ram_page_present]).
      * destruct (entry F t i) as [e|]; [|constructor]. destruct (ram_page ram e); [apply NoDup_singleton|constructor].
    + intros p Hp. rewrite list_elem_of_singleton. intros ->. apply list_elem_of_bind in Hp as (i & Hp & Hi).
      apply elem_of_seqZ in Hi. destruct (entry F t i) as [e|] eqn:Ei; [|set_solver].
      destruct (ram_page ram e) eqn:Ri; [|set_solver]. apply list_elem_of_singleton in Hp.
      destruct (us_held _ _ _ _ Hu q i e) as [_ Hn]; [done|done|lia|eapply leaf_entry_at; [done|done|by eapply ram_page_present]|done|].
      apply (Hn q Hq). by rewrite <-Hp.
  - intros p. unfold freed_pt. rewrite elem_freed_level. split.
    + intros [->|(i & e & Hi & E & R & Hp)]; [left; exists []; by rewrite app_nil_r|]. apply list_elem_of_singleton in Hp.
      right. exists [], i, e. rewrite app_nil_r. split_and!; try done; try lia.
      eapply leaf_entry_at; [done|done|by eapply ram_page_present].
    + intros [(r & Hr & Wr)|(r & l & e & Hr & Lr & Hl & Er & Rr & ->)]; rewrite (Hr0 r Hr), app_nil_r in *; [left; congruence|].
      right. unfold leaf in Er. rewrite Hw in Er. simpl in Er. destruct (entry F t l) as [d|] eqn:E; [|done]. simpl in Er.
      destruct (has d PTE_PRESENT); [|done]. injection Er as ->. exists l, e. split_and!; try done; try lia. by apply list_elem_of_singleton.
Qed.

Lemma upath_snoc_iff q i : upath q → q ≠ [] → (length q < 3)%nat → upath (q ++ [i]) ↔ 0 ≤ i < 512.
Proof. intros Hq Hne Hl. split; [apply upath_index|]. intros Hi. by apply upath_snoc. Qed.

Lemma inner_present F V root q t i e : space F V root → upath (q ++ [i]) → walk F root q = Some t → entry F t i = Some e →
  inner e = has e PTE_PRESENT.
Proof.
  intros Hs Hq Hw He. unfold inner. destruct (has e PTE_PRESENT) eqn:P; [|done].
  by destruct (sp_entry _ _ _ Hs _ _ _ _ Hq Hw He P) as (_ & _ & ->).
Qed.

Lemma freed_exact F V ram root : space F V root → unshared F V ram root → exact F ram root [] (freed F ram root).
Proof.
  intros Hs Hu. assert (upath []) as U0 by by repeat split; simpl; try lia. unfold freed.
  apply (level_exact F V); try done; [simpl; lia| |].
  { intros i. split; [intros Hi; pose proof (upath_index [] i [] Hi); destruct Hi as (_ & _ & Hi'); simpl in Hi'; lia|].
    intros Hi. apply (upath_snoc []); (done || lia || simpl; lia). }
  intros i u Hi Wi. simpl app in *. apply (level_exact F V); try done; [simpl; lia|intros j; apply (upath_snoc_iff [i]); [done|done|simpl; lia]| |].
  { intros j e Hj He. apply (inner_present F V root [i] u j); [done|apply (upath_snoc_iff [i]); [done|done|simpl; lia|done]|done..]. }
  intros j v Hj Wj. simpl app in *. apply (level_exact F V); try done; [simpl; lia|intros k; apply (upath_snoc_iff [i; j]); [done|done|simpl; lia]| |].
  { intros k e Hk He. apply (inner_present F V root [i; j] v k); [done|apply (upath_snoc_iff [i; j]); [done|done|simpl; lia|done]|done..]. }
  intros k w Hk Wk. by apply (pt_exact F V).
Qed.

Lemma wp_same {S B} (m m' : M S B) s Q : m s = m' s → wp m' s Q → wp m s Q.
Proof. unfold wp. by intros ->. Qed.

Lemma vmm_destroy_spec F V root cr3 (a : A) : space F V root → pa_rep a V → Z.land cr3 PTE_ADDR_MASK = root →
  unshared F V (u64 (ram_end a)) root →
  wp (vmm_destroy_address_space cr3) (F, a) (λ _ '(F', a'), F' = F ∧ ∃ V', pa_rep a' V' ∧
    (∀ p, p ∈ pv_free V' ↔ p ∈ pv_free V ∨ under F (u64 (ram_end a)) root [] p) ∧
    (∀ p, ¬ under F (u64 (ram_end a)) root [] p → pv_held V' !! p = pv_held V !! p)).
Proof.
  intros Hs Hr Hcr Hu. destruct (freed_exact F V (u64 (ram_end a)) root Hs Hu) as [Hnd Hel].
  assert (wp (frees (freed F (u64 (ram_end a)) root)) (F, a) (λ _ '(F', a'), F' = F ∧ ∃ V', pa_rep a' V' ∧
    (∀ p, p ∈ pv_free V' ↔ p ∈ pv_free V ∨ under F (u64 (ram_end a)) root [] p) ∧
    (∀ p, ¬ under F (u64 (ram_end a)) root [] p → pv_held V' !! p = pv_held V !! p))) as Hwp.
  { unfold frees. apply wp_lift_r. eapply wp_mono; [apply (free_all_law _ _ V Hr Hnd)|].
    - intros p Hp. apply Hel in Hp as [(q & Hq & Wq)|(q & l & e & Hq & Lq & Hl & Eq & Rq & ->)]; simpl app in *.
      + by apply (sp_held _ _ _ Hs q).
      + by apply (us_held _ _ _ _ Hu q l e).
    - intros [] a' [_ Hr']. split; [done|]. eexists. split; [exact Hr'|]. unfold release. cbn [pv_free pv_held]. split.
      + intros p. rewrite elem_of_union, elem_of_list_to_set, Hel. done.
      + intros p Hp. apply foldr_delete_notin. by rewrite Hel. }
  exact (wp_same _ _ _ _ (destroy_run F V root cr3 a Hs Hcr) Hwp).
Qed.

(** ** Creating an address space *)
Lemma create_loop F (a : A) kp phys lk l n : ∀ i F1, F1 !! kp = Some lk → kp ≠ phys → length lk = 512%nat →
  F1 !! phys = Some l → length l = 512%nat → 0 ≤ i → i + Z.of_nat n ≤ 512 →
  wp (for_loop i n (λ i, e ← tget kp i; tset phys i e)) (F1, a) (λ _ '(F', a'), a' = a ∧
    (∀ t, t ≠ phys → F' !! t = F1 !! t) ∧
    ∃ l', F' !! phys = Some l' ∧ length l' = 512%nat ∧ ∀ j, 0 ≤ j →
      l' !! Z.to_nat j = if (i <=? j) && (j <? i + Z.of_nat n) then lk !! Z.to_nat j else l !! Z.to_nat j).
Proof.
  revert l. induction n as [|n IH]; intros l i F1 Hk Hne Hlk Hp Hl Hi Hn.
  - apply wp_ret. split_and!; [done|done|]. exists l. split_and!; [done|done|]. intros j Hj.
    destruct (Z.leb_spec i j), (Z.ltb_spec j (i + Z.of_nat 0)); simpl; (done || lia).
  - cbn [for_loop]. destruct (lookup_lt_is_Some_2 lk (Z.to_nat i)) as [e He]; [lia|].
    destruct (lookup_lt_is_Some_2 l (Z.to_nat i)) as [e0 He0]; [lia|].
    apply wp_bind, wp_bind. eapply wp_tget; [unfold entry; rewrite Hk; exact He|]. eapply wp_tset; [unfold entry; rewrite Hp; exact He0|].
    eapply wp_mono; [apply (IH (<[Z.to_nat i := e]> l)); try done; try lia|].
    + by rewrite lookup_alter_ne.
    + by rewrite lookup_alter_eq, Hp.
    + by rewrite length_insert.
    + intros [] [F' a'] (-> & Hfr & l' & Hl' & Hlen & Hj'). split_and!; [done| |].
      { intros t Ht. rewrite Hfr, lookup_alter_ne by done. done. }
      exists l'. split_and!; [done|done|]. intros j Hj. rewrite Hj' by done. destruct (decide (j = i)) as [->|Hji].
      * rewrite list_lookup_insert_eq by lia. rewrite (proj2 (Z.leb_gt (i + 1) i)), (proj2 (Z.leb_le i i)), (proj2 (Z.ltb_lt i (i + Z.of_nat (S n)))) by lia. simpl. by rewrite He.
      * rewrite list_lookup_insert_ne by lia. destruct (Z.leb_spec (i + 1) j), (Z.leb_spec i j), (Z.ltb_spec j (i + 1 + Z.of_nat n)), (Z.ltb_spec j (i + Z.of_nat (S n))); simpl; (done || lia).
Qed.

Definition avail F V : Prop := ∀ q, q ∈ pv_free V → is_Some (F !! q) ∧ page q.

Lemma vmm_create_spec F V kp lk (a : A) : pa_rep a V → pv_free V ≠ ∅ → avail F V → kp ∉ pv_free V →
  F !! kp = Some lk → length lk = 512%nat → Forall word lk →
  wp (vmm_create_address_space kp) (F, a) (λ r '(F', a'), ∃ root, r = Some root ∧ root ∈ pv_free V ∧
    ram_end a' = ram_end a ∧ pa_rep a' (taken root V) ∧ space F' (taken root V) root ∧
    (∀ t, t ≠ root → F' !! t = F !! t) ∧
    (∀ q u, upath q → walk F' root q = Some u → u = root) ∧
    (∀ q l, upath q → length q = 3%nat → leaf F' root q l = None) ∧
    (∀ i, 256 ≤ i < 512 → entry F' root i = entry F kp i)).
Proof.
  intros Hr Hne Hav Hkp Hlk Hlen Hwd. unfold vmm_create_address_space. apply wp_bind. eapply wp_alloc; [done..|].
  intros c a' Hc Hc0 Hram Hr'. rewrite (proj2 (Z.eqb_neq c 0)) by done. destruct (Hav c Hc) as [Hsc Hpc].
  assert (kp ≠ c) as Hkc by set_solver. apply wp_bind. apply wp_zero_frame; [done|]. apply wp_bind. eapply wp_mono.
  { apply (create_loop F a' kp c lk (replicate 512 0) 256 256); try done; try lia.
    - by rewrite lookup_insert_ne.
    - by rewrite lookup_insert_eq. }
  intros [] [F' a1] (-> & Hfr & l' & Hl' & Hlen' & Hj). apply wp_ret. exists c.
  assert (∀ t, t ≠ c → F' !! t = F !! t) as Hfr' by (intros t Ht; by rewrite Hfr, lookup_insert_ne).
  assert (∀ i, 0 ≤ i < 256 → entry F' c i = Some 0) as Hlow.
  { intros i Hi. unfold entry. rewrite Hl'. cbn [mbind option_bind]. rewrite Hj by lia.
    destruct (Z.leb_spec 256 i); [lia|]. cbn [andb]. apply lookup_replicate. lia. }
  assert (∀ q u, upath q → walk F' c q = Some u → q = [] ∧ u = c) as Hwalk.
  { intros [|i q] u Hq; [by intros [= <-]|]. simpl. rewrite (next_zero F' c i); [done|]. intros e.
    rewrite Hlow; [by intros [= <-]|]. pose proof (upath_index [] i q Hq). destruct Hq as (_ & _ & ?). lia. }
  split_and!; try done.
  - split; cbn [taken pv_free pv_held].
    + intros q u Hq [_ ->]%Hwalk; [|done]. exists l'. split_and!; [done|done|]. apply Forall_lookup. intros i e He.
      pose proof (Hj (Z.of_nat i) ltac:(lia)) as Hji. rewrite Nat2Z.id, He in Hji. destruct (_ && _).
      * by eapply Forall_lookup_1; [exact Hwd|].
      * symmetry in Hji. apply zeros_lookup in Hji as ->. unfold word. lia.
    + intros q1 q2 u H1 H2 [-> _]%Hwalk [-> _]%Hwalk; done.
    + intros q u Hq [_ ->]%Hwalk; [|done]. rewrite lookup_insert_eq. set_solver.
    + intros q u i e Hq Hw He Hp. destruct (Hwalk q u (upath_app _ _ Hq) Hw) as [-> ->].
      pose proof (upath_index [] i [] Hq). destruct Hq as (_ & _ & Hi). simpl in Hi. rewrite Hlow in He by lia. by injection He as <-.
    + intros q Hq. rewrite Hfr' by set_solver. apply Hav. set_solver.
  - intros q u Hq Hw. by destruct (Hwalk q u Hq Hw).
  - intros q l Hq Hq3. unfold leaf. destruct (walk F' c q) as [u|] eqn:Hw; [|done]. destruct (Hwalk _ _ Hq Hw) as [-> _]. done.
  - intros i Hi. unfold entry. rewrite Hl', Hlk. cbn [mbind option_bind]. rewrite Hj by lia.
    destruct (Z.leb_spec 256 i), (Z.ltb_spec i (256 + Z.of_nat 256)); cbn [andb]; (done || lia).
Qed.

End Space.

End VmmSpec.
