(* ===== verification/VmmClone.v ===== *)
(** * Cloning an address space

    [vmm_clone_address_space] copies every user page of the parent into a
    fresh page of the child.  The four loops are one pass over the list of
    mapped pages; the invariant says what the child maps after a prefix of
    it. *)
From S2P Require Import Prelude Bits Pages Vmm VmmSpec.

Module VmmClone.
Import Vmm VmmSpec.

Section Clone.
  Context {A : Type} `{PageLaws A}.
  Implicit Types (F : frames) (V : pview).

Definition virt_of (i j k l : Z) : Z :=
  Z.lor (Z.lor (Z.lor (Z.shiftl i 39) (Z.shiftl j 30)) (Z.shiftl k 21)) (Z.shiftl l 12).

Lemma lor_add a b n : 0 ≤ n → 0 ≤ b < 2 ^ n → Z.lor (Z.shiftl a n) b = a * 2 ^ n + b.
Proof.
  intros Hn Hb. assert (Z.land (Z.shiftl a n) b = 0) as E.
  { apply Z.bits_inj'. intros m Hm. rewrite Z.land_spec, Z.bits_0. destruct (Z.ltb_spec m n).
    - by rewrite Z.shiftl_spec_low.
    - by rewrite (testbit_small b n), andb_false_r. }
  by rewrite <-Z.lxor_lor, <-Z.add_nocarry_lxor, Z.shiftl_mul_pow2 by done.
Qed.

Lemma virt_of_spec i j k l : 0 ≤ i < 256 → 0 ≤ j < 512 → 0 ≤ k < 512 → 0 ≤ l < 512 →
  user (virt_of i j k l) ∧ path (virt_of i j k l) = [i; j; k] ∧ index (virt_of i j k l) 12 = l.
Proof.
  intros Hi Hj Hk Hl. assert (virt_of i j k l = ((i * 512 + j) * 512 + k) * 512 * 4096 + l * 4096) as ->.
  { unfold virt_of. rewrite <-!Z.lor_assoc. rewrite (Z.shiftl_mul_pow2 l 12) by lia.
    rewrite (lor_add k), (lor_add j), (lor_add i) by lia. lia. }
  split; [unfold user; lia|]. set (x := _ + l * 4096).
  assert (x / 2 ^ 12 = ((i * 512 + j) * 512 + k) * 512 + l) as E0 by (unfold x; symmetry; apply Z.div_unique with 0; lia).
  assert (x / 2 ^ 21 = (i * 512 + j) * 512 + k) as E1 by (unfold x; symmetry; apply Z.div_unique with (l * 4096); lia).
  assert (x / 2 ^ 30 = i * 512 + j) as E2 by (unfold x; symmetry; apply Z.div_unique with ((k * 512 + l) * 4096); lia).
  assert (x / 2 ^ 39 = i) as E3 by (unfold x; symmetry; apply Z.div_unique with (((j * 512 + k) * 512 + l) * 4096); lia).
  unfold path. rewrite !index_div, E0, E1, E2, E3 by lia.
  split; [f_equal; [|f_equal; [|f_equal]]|]; symmetry.
  - apply Z.mod_unique with 0; lia.
  - apply Z.mod_unique with i; lia.
  - apply Z.mod_unique with (i * 512 + j); lia.
  - apply Z.mod_unique with ((i * 512 + j) * 512 + k); lia.
Qed.

(** The mapped pages, in the order of the loops. *)
Definition level F (t n : Z) (sel : Z → bool) (sub : Z → Z → list Z) : list Z :=
  i ← seqZ 0 n; match entry F t i with Some e => if sel e then sub i (Z.land e PTE_ADDR_MASK) else [] | None => [] end.

Definition mapped F root : list Z :=
  level F root 256 (λ e, has e PTE_PRESENT) (λ i t1, level F t1 512 inner (λ j t2, level F t2 512 inner (λ k t3,
    level F t3 512 (λ e, has e PTE_PRESENT) (λ l _, [virt_of i j k l])))).

(** A loop with exits that are not taken, processing [items j] in round [j]. *)
Lemma wp_for_brk {S} (I : list Z → S → Prop) (total : list Z) (body : Z → M S bool) (items : Z → list Z) n m : m = Z.of_nat n → ∀ i pre s,
  I pre s → (pre ++ (seqZ i m ≫= items)) `prefix_of` total →
  (∀ j pre s, i ≤ j < i + m → I pre s → (pre ++ items j) `prefix_of` total →
     wp (body j) s (λ b s', b = false ∧ I (pre ++ items j) s')) →
  wp (for_brk i n body) s (λ b s', b = false ∧ I (pre ++ (seqZ i m ≫= items)) s').
Proof.
  intros ->. induction n as [|n IH]; intros i pre s HI Hpre Hb.
  - apply wp_ret. split; [done|]. simpl. by rewrite app_nil_r.
  - rewrite Nat2Z.inj_succ, seqZ_cons in * by lia. cbn [mbind list_bind] in *. replace (Z.pred (Z.succ (Z.of_nat n))) with (Z.of_nat n) in * by lia.
    change (list_bind Z Z items) with (mbind (M := list) items) in *. rewrite (assoc_L (++)) in Hpre.
    cbn [for_brk]. apply wp_bind. eapply wp_mono.
    { apply (Hb i pre s); [lia|done|]. etransitivity; [|exact Hpre]. by eexists. }
    intros b s' [-> HI']. rewrite (assoc_L (++)). apply IH; [done|done|]. intros j pre' s'' Hj. apply Hb. lia.
Qed.

(** What the child [root] maps after the pages [l] of the parent have been
    copied; [F], [V] describe the state before the call. *)
Record copied F V (parent root : Z) (l : list Z) F' V' : Prop := {
  cp_space : space F' V' root;
  cp_free : pv_free V' ⊆ pv_free V;
  cp_size : (base.size (pv_free V) ≤ base.size (pv_free V') + 1 + 4 * length l)%nat;
  cp_frame t : t ∉ pv_free V → F' !! t = F !! t;
  cp_tables q u : upath q → walk F' root q = Some u → u ∈ pv_free V;
  cp_src x : x ∈ l → user x ∧ is_Some (leaf F parent (path x) (index x 12));
  cp_none y : user y → (∀ x, x ∈ l → ¬ one_page y x) → leaf F' root (path y) (index y 12) = None;
  cp_page y e : user y → leaf F parent (path y) (index y 12) = Some e → (∃ x, x ∈ l ∧ one_page y x) →
    ∃ c d, leaf F' root (path y) (index y 12) = Some (leaf_entry c (Z.land e PTE_FLAGS_MASK)) ∧ page c ∧
      c ∈ pv_free V ∧ pv_held V' !! c = Some 0%nat ∧ c ∉ pv_free V' ∧ (∀ q, upath q → walk F' root q ≠ Some c) ∧
      F !! Z.land e PTE_ADDR_MASK = Some d ∧ F' !! c = Some d;
  cp_once y z e c f : user y → user z → leaf F' root (path y) (index y 12) = Some e →
    leaf F' root (path z) (index z 12) = Some f → Z.land e PTE_ADDR_MASK = c → Z.land f PTE_ADDR_MASK = c → one_page y z;
}.

Definition cloning F V parent root (ram : Z) (l : list Z) (s : frames * A) : Prop :=
  ∃ V', ram_end s.2 = ram ∧ pa_rep s.2 V' ∧ copied F V parent root l s.1 V'.

(** The parent's side of the contract. *)
Record cloneable F V parent : Prop := {
  cl_space : space F V parent;
  cl_data y e : user y → leaf F parent (path y) (index y 12) = Some e →
    is_Some (F !! Z.land e PTE_ADDR_MASK) ∧ Z.land e PTE_ADDR_MASK ∉ pv_free V;
}.

Lemma one_page_trans x y z : one_page x y → one_page y z → one_page x z.
Proof. unfold one_page. congruence. Qed.

Lemma one_page_leaf F root x y : user x → user y → one_page x y →
  leaf F root (path x) (index x 12) = leaf F root (path y) (index y 12).
Proof. intros Hx Hy Ho. apply same_page in Ho as [-> ->]; done. Qed.

(** Every mapped page of the child was copied. *)
Lemma copied_leaf F V parent root l F' V' y f : copied F V parent root l F' V' → user y →
  leaf F' root (path y) (index y 12) = Some f → ∃ x, x ∈ l ∧ one_page y x.
Proof.
  intros Hc Hy Hf. destruct (decide (Exists (one_page y) l)) as [He|Hn]; [by apply Exists_exists in He|].
  rewrite (cp_none _ _ _ _ _ _ _ Hc) in Hf; [done|done|]. intros x Hx Ho. apply Hn, Exists_exists. eauto.
Qed.

(** The child's entry for a copied page. *)
Lemma copied_entry F V parent root l F' V' y f : copied F V parent root l F' V' → user y →
  leaf F' root (path y) (index y 12) = Some f → Z.land f PTE_ADDR_MASK ∈ pv_free V ∧ Z.land f PTE_ADDR_MASK ∉ pv_free V'.
Proof.
  intros Hc Hy Hf. destruct (copied_leaf _ _ _ _ _ _ _ _ _ Hc Hy Hf) as (x & Hx & Ho).
  destruct (cp_src _ _ _ _ _ _ _ Hc x Hx) as [Hux [e He]]. rewrite <-(one_page_leaf F parent y x) in He by done.
  destruct (cp_page _ _ _ _ _ _ _ Hc y e Hy He) as (c & d & Hc' & Hpg & Hcf & _ & Hcn & _); [eauto|].
  rewrite Hf in Hc'. injection Hc' as ->. rewrite leaf_entry_addr by done. done.
Qed.

(** The body of the innermost loop for a present entry. *)
Definition copy_page (child x parent_phys flags : Z) : M (frames * A) bool :=
  child_phys ← pmm_alloc;
  if child_phys =? 0 then vmm_destroy_address_space child;; mret true else
  copy_frame child_phys parent_phys;;
  vmm_map child x child_phys flags;;
  mret false.

Lemma copy_page_spec F V parent root l F1 V1 x e (a : A) : cloneable F V parent → copied F V parent root l F1 V1 →
  pa_rep a V1 → (4 ≤ base.size (pv_free V1))%nat → user x → leaf F parent (path x) (index x 12) = Some e →
  wp (copy_page root x (Z.land e PTE_ADDR_MASK) (Z.land e PTE_FLAGS_MASK)) (F1, a) (λ b s',
    b = false ∧ cloning F V parent root (ram_end a) (l ++ [x]) s').
Proof.
  intros Hcl Hc Hr Hsz Hx He. destruct (leaf_word _ _ _ _ _ (cl_space _ _ _ Hcl) Hx He) as [Hwd _].
  destruct (cl_data _ _ _ Hcl x e Hx He) as [[d Hd] Hnf]. pose proof (cp_space _ _ _ _ _ _ _ Hc) as Hs1.
  unfold copy_page. apply wp_bind. eapply wp_alloc; [exact Hr|apply size_nonempty; lia|]. intros c a1 Hcf Hc0 Hram1 Hr1.
  rewrite (proj2 (Z.eqb_neq c 0)) by done. destruct (sp_avail _ _ _ Hs1 _ Hcf) as [Hsc Hpc]. apply wp_bind.
  eapply wp_copy_frame; [done|rewrite (cp_frame _ _ _ _ _ _ _ Hc) by done; exact Hd|].
  destruct (space_take F1 V1 root c d Hs1 Hcf) as (Hs2 & G1 & W2 & L2). apply wp_bind. eapply wp_mono.
  { apply (vmm_map_spec _ (taken c V1)); [done|done|by apply page_word|by apply word_land|done|].
    cbn [taken pv_free]. rewrite size_difference, size_singleton by set_solver. lia. }
  intros [] [F3 a3] (V3 & Hram3 & Hr3 & Hs3 & G2 & Hsz3 & L3). apply wp_ret. split; [done|]. exists V3.
  split; [simpl; congruence|]. split; [done|]. rewrite addr_page in L3 by done. cbn [fst].
  cbn [taken pv_free] in Hsz3. rewrite size_difference, size_singleton in Hsz3 by set_solver.
  pose proof (g_free _ _ _ _ _ G2) as Hf2. cbn [taken pv_free] in Hf2. pose proof (cp_free _ _ _ _ _ _ _ Hc) as Hf0.
  pose proof (grows_trans _ _ _ _ _ _ _ G1 G2) as G.
  assert (∀ q, upath q → walk F3 root q ≠ Some c) as Hctab.
  { intros q Hq Hw. destruct (g_walk _ _ _ _ _ G2 q c Hq Hw) as [Hw'|Hw']; [|cbn [taken pv_free] in Hw'; set_solver].
    rewrite W2 in Hw' by done. by destruct (sp_held _ _ _ Hs1 _ _ Hq Hw'). }
  assert (F3 !! c = Some d) as Hc3.
  { rewrite (g_frame _ _ _ _ _ G2); [by rewrite lookup_insert_eq|cbn [taken pv_free]; set_solver|].
    intros q Hq. rewrite W2 by done. intros Hw. by destruct (sp_held _ _ _ Hs1 _ _ Hq Hw). }
  assert (∀ y, user y → ¬ one_page y x → leaf F3 root (path y) (index y 12) = leaf F1 root (path y) (index y 12)) as Hold.
  { intros y Hy Hn. rewrite L3, decide_False by done. by apply L2, upath_path. }
  assert (∀ y, user y → one_page y x → leaf F3 root (path y) (index y 12) = Some (leaf_entry c (Z.land e PTE_FLAGS_MASK))) as Hnew.
  { intros y Hy Ho. by rewrite L3, decide_True by done. }
  split.
  - done.
  - set_solver.
  - rewrite length_app. simpl. pose proof (cp_size _ _ _ _ _ _ _ Hc). lia.
  - intros t Ht. rewrite (g_frame _ _ _ _ _ G); [by apply (cp_frame _ _ _ _ _ _ _ Hc)|set_solver|].
    intros q Hq Hw. by pose proof (cp_tables _ _ _ _ _ _ _ Hc q t Hq Hw).
  - intros q u Hq Hw. destruct (g_walk _ _ _ _ _ G q u Hq Hw) as [Hw'|Hw']; [by eapply (cp_tables _ _ _ _ _ _ _ Hc)|set_solver].
  - intros y [Hy| ->%list_elem_of_singleton]%elem_of_app; [by apply (cp_src _ _ _ _ _ _ _ Hc)|]. split; [done|by eexists].
  - intros y Hy Hn. rewrite Hold by (done || (apply Hn; set_solver)). apply (cp_none _ _ _ _ _ _ _ Hc); [done|].
    intros z Hz. apply Hn. set_solver.
  - intros y e' Hy He' (z & Hz & Ho). destruct (decide (one_page y x)) as [Hox|Hox].
    + rewrite (one_page_leaf F parent y x) in He' by done. assert (e' = e) as -> by congruence. exists c, d.
      split_and!; [by apply Hnew|done|set_solver| |set_solver|done..].
      rewrite (g_held _ _ _ _ _ G2) by (cbn [taken pv_free]; set_solver). cbn [taken pv_held]. by rewrite lookup_insert_eq.
    + apply elem_of_app in Hz as [Hz| ->%list_elem_of_singleton]; [|done].
      destruct (cp_page _ _ _ _ _ _ _ Hc y e' Hy He') as (c' & d' & Q1 & Q2 & Q3 & Q4 & Q5 & Q6 & Q7 & Q8); [eauto|].
      exists c', d'. split_and!; [by rewrite Hold|done|done| |set_solver| |done|].
      * by rewrite (g_held _ _ _ _ _ G) by done.
      * intros q Hq Hw. destruct (g_walk _ _ _ _ _ G q c' Hq Hw) as [Hw'|]; [by apply (Q6 q)|done].
      * by rewrite (g_frame _ _ _ _ _ G) by done.
  - intros y z f c' g Hy Hz Hf Hg Ef Eg. destruct (decide (one_page y x)) as [Hyx|Hyx], (decide (one_page z x)) as [Hzx|Hzx].
    + unfold one_page in *. congruence.
    + exfalso. rewrite Hnew in Hf by done. injection Hf as <-. rewrite leaf_entry_addr in Ef by done. subst c'.
      rewrite Hold in Hg by done. destruct (copied_entry _ _ _ _ _ _ _ _ _ Hc Hz Hg) as [_ Hn]. by rewrite Eg in Hn.
    + exfalso. rewrite Hnew in Hg by done. injection Hg as <-. rewrite leaf_entry_addr in Eg by done. subst c'.
      rewrite Hold in Hf by done. destruct (copied_entry _ _ _ _ _ _ _ _ _ Hc Hy Hf) as [_ Hn]. by rewrite <-Eg in Hn.
    + rewrite Hold in Hf, Hg by done. by apply (cp_once _ _ _ _ _ _ _ Hc y z f c' g).
Qed.

(** One loop over a table of the parent. *)
Lemma wp_level {S} (I : list Z → S → Prop) (total : list Z) F t n m (sel : Z → bool) (sub : Z → Z → list Z) (body : Z → M S bool) : m = Z.of_nat n →
  (∀ j, 0 ≤ j < m → is_Some (entry F t j)) →
  (∀ j pre s e, 0 ≤ j < m → entry F t j = Some e → I pre s →
     (pre ++ if sel e then sub j (Z.land e PTE_ADDR_MASK) else []) `prefix_of` total →
     wp (body j) s (λ b s', b = false ∧ I (pre ++ if sel e then sub j (Z.land e PTE_ADDR_MASK) else []) s')) →
  ∀ pre s, I pre s → (pre ++ level F t m sel sub) `prefix_of` total →
  wp (for_brk 0 n body) s (λ b s', b = false ∧ I (pre ++ level F t m sel sub) s').
Proof.
  intros Hm He Hb pre s HI Hpre. unfold level in *. apply (wp_for_brk I total); [done..|].
  intros j pre' s' Hj HI' Hp'. destruct (He j ltac:(lia)) as [e Hej]. rewrite Hej in *. apply Hb; (done || lia).
Qed.

Section Loops.
  Context F V (parent root ram : Z) (Hcl : cloneable F V parent).
  Context (Hsz : (1 + 4 * length (mapped F parent) ≤ base.size (pv_free V))%nat).

Abbreviation Inv := (cloning F V parent root ram).

(** The tables of the parent are not touched. *)
Lemma wp_read_parent {B} q t i e pre F1 (a : A) (k : Z → M (frames * A) B) Q : Inv pre (F1, a) → upath q →
  walk F parent q = Some t → entry F t i = Some e → wp (k e) (F1, a) Q → wp (tget t i ≫= k) (F1, a) Q.
Proof.
  intros (V1 & _ & _ & Hc) Hq Hw He Hk. apply wp_bind. eapply wp_tget; [|exact Hk]. unfold entry in *. cbn [fst] in Hc.
  rewrite (cp_frame _ _ _ _ _ _ _ Hc); [exact He|]. by destruct (sp_held _ _ _ (cl_space _ _ _ Hcl) _ _ Hq Hw).
Qed.

Lemma wp_skip pre (s : frames * A) : Inv pre s → wp (mret false) s (λ b s', b = false ∧ Inv (pre ++ []) s').
Proof. intros HI. apply wp_ret. by rewrite app_nil_r. Qed.

Lemma table_entries q t n : upath q → walk F parent q = Some t → n ≤ 512 → ∀ j, 0 ≤ j < n → is_Some (entry F t j).
Proof.
  intros Hq Hw Hn j Hj. destruct (space_entry F V parent q t j (cl_space _ _ _ Hcl) Hq Hw) as (e & He & _); [lia|]. by eexists.
Qed.

Lemma clone_loops_spec s : Inv [] s → wp (clone_loops parent root) s (λ b s', b = false ∧ Inv (mapped F parent) s').
Proof.
  intros HI. pose proof (cl_space _ _ _ Hcl) as Hs. assert (upath []) as U0 by by repeat split; simpl; try lia.
  unfold clone_loops. change (mapped F parent) with ([] ++ mapped F parent) at 1.
  apply (wp_level Inv (mapped F parent) F parent 256 256); [done|by apply (table_entries [])| |exact HI|done].
  clear s HI. intros i pre [F1 a] e4 Hi E4 HI Hpre. eapply (wp_read_parent []); [done..|].
  destruct (has e4 PTE_PRESENT) eqn:P4; cbn [negb]; [|by apply wp_skip].
  assert (upath [i]) as U1 by (apply (upath_snoc []); (done || lia || simpl; lia)).
  assert (walk F parent [i] = Some (Z.land e4 PTE_ADDR_MASK)) as W1 by (by apply (next_inner F V parent [] parent)).
  cbv zeta. set (t1 := Z.land e4 PTE_ADDR_MASK) in *. revert HI Hpre. generalize (F1, a). revert pre. clear F1 a.
  intros pre s HI Hpre. apply (wp_level Inv (mapped F parent) F t1 512 512); [done|by apply (table_entries [i])| |exact HI|done].
  clear s HI pre Hpre. intros j pre [F1 a] e3 Hj E3 HI Hpre. eapply (wp_read_parent [i]); [done..|].
  unfold inner in *. destruct (has e3 PTE_PRESENT) eqn:P3; cbn [negb andb] in *; [|by apply wp_skip].
  destruct (has e3 PTE_HUGE) eqn:G3; cbn [negb] in *; [by apply wp_skip|].
  assert (upath [i; j]) as U2 by (apply (upath_snoc [i]); (done || lia || simpl; lia)).
  assert (walk F parent [i; j] = Some (Z.land e3 PTE_ADDR_MASK)) as W2 by (by apply (next_inner F V parent [i] t1)).
  cbv zeta. set (t2 := Z.land e3 PTE_ADDR_MASK) in *. revert HI Hpre. generalize (F1, a). revert pre. clear F1 a.
  intros pre s HI Hpre. apply (wp_level Inv (mapped F parent) F t2 512 512); [done|by apply (table_entries [i; j])| |exact HI|done].
  clear s HI pre Hpre. intros k pre [F1 a] e2 Hk E2 HI Hpre. eapply (wp_read_parent [i; j]); [done..|].
  destruct (has e2 PTE_PRESENT) eqn:P2; cbn [negb andb] in *; [|by apply wp_skip].
  destruct (has e2 PTE_HUGE) eqn:G2; cbn [negb] in *; [by apply wp_skip|].
  assert (upath [i; j; k]) as U3 by (apply (upath_snoc [i; j]); (done || lia || simpl; lia)).
  assert (walk F parent [i; j; k] = Some (Z.land e2 PTE_ADDR_MASK)) as W3 by (by apply (next_inner F V parent [i; j] t2)).
  cbv zeta. set (t3 := Z.land e2 PTE_ADDR_MASK) in *. revert HI Hpre. generalize (F1, a). revert pre. clear F1 a.
  intros pre s HI Hpre. apply (wp_level Inv (mapped F parent) F t3 512 512); [done|by apply (table_entries [i; j; k])| |exact HI|done].
  clear s HI pre Hpre. intros l pre [F1 a] e1 Hl E1 HI Hpre. eapply (wp_read_parent [i; j; k]); [done..|].
  destruct (has e1 PTE_PRESENT) eqn:P1; cbn [negb] in *; [|by apply wp_skip].
  destruct (virt_of_spec i j k l ltac:(lia) ltac:(lia) ltac:(lia) ltac:(lia)) as (Hu & Hp & Hx).
  destruct HI as (V1 & <- & Hr & Hc). cbn [fst snd] in *.
  apply (copy_page_spec F V parent root pre F1 V1 (virt_of i j k l) e1); [done..| |done|].
  - pose proof (cp_size _ _ _ _ _ _ _ Hc). apply prefix_length in Hpre. rewrite length_app in Hpre. simpl length in Hpre. lia.
  - rewrite Hp, Hx. by eapply leaf_entry_at.
Qed.

End Loops.

Lemma mapped_complete F V root y e : space F V root → user y → leaf F root (path y) (index y 12) = Some e →
  ∃ x, x ∈ mapped F root ∧ one_page y x.
Proof.
  intros Hs Hy He. pose proof (upath_path y Hy) as Hp. destruct (page_number y Hy) as [_ H39].
  pose proof (index_range y 39 ltac:(lia)). pose proof (index_range y 30 ltac:(lia)). pose proof (index_range y 21 ltac:(lia)).
  pose proof (index_range y 12 ltac:(lia)).
  destruct (virt_of_spec (index y 39) (index y 30) (index y 21) (index y 12)) as (Hu & Hpath & Hidx); [lia..|].
  exists (virt_of (index y 39) (index y 30) (index y 21) (index y 12)). split; [|apply same_page; (done || by rewrite Hpath, Hidx)].
  unfold leaf in He. destruct (walk F root (path y)) as [t3|] eqn:Hw; [|done]. simpl in He. rewrite walk_path in Hw.
  destruct (next F root (index y 39)) as [t1|] eqn:N1; [|done]. simpl in Hw.
  destruct (next F t1 (index y 30)) as [t2|] eqn:N2; [|done]. simpl in Hw.
  assert (∀ t i u, next F t i = Some u → ∃ e, entry F t i = Some e ∧ has e PTE_PRESENT = true ∧ u = Z.land e PTE_ADDR_MASK) as Hinv.
  { intros t i u. unfold next. destruct (entry F t i) as [d|]; [|done]. simpl. destruct (has d PTE_PRESENT) eqn:P; [|done].
    intros [= <-]. eauto. }
  destruct (Hinv _ _ _ N1) as (e4 & E4 & P4 & ->). destruct (Hinv _ _ _ N2) as (e3 & E3 & P3 & ->).
  destruct (Hinv _ _ _ Hw) as (e2 & E2 & P2 & ->). destruct (entry F _ (index y 12)) as [e1|] eqn:E1 in He; [|done]. simpl in He.
  destruct (has e1 PTE_PRESENT) eqn:P1; [|done]. injection He as ->.
  assert (walk F root [index y 39] = Some (Z.land e4 PTE_ADDR_MASK)) as W1 by (simpl; by rewrite N1).
  assert (walk F root [index y 39; index y 30] = Some (Z.land e3 PTE_ADDR_MASK)) as W2 by (simpl; rewrite N1; simpl; by rewrite N2).
  pose proof (inner_present F V root [_] _ _ _ Hs (upath_app [_; _] [_] Hp) W1 E3) as I3.
  pose proof (inner_present F V root [_; _] _ _ _ Hs Hp W2 E2) as I2.
  unfold mapped, level. apply list_elem_of_bind. exists (index y 39). split; [|apply elem_of_seqZ; lia]. rewrite E4, P4.
  apply list_elem_of_bind. exists (index y 30). split; [|apply elem_of_seqZ; lia]. rewrite E3, I3, P3.
  apply list_elem_of_bind. exists (index y 21). split; [|apply elem_of_seqZ; lia]. rewrite E2, I2, P2.
  apply list_elem_of_bind. exists (index y 12). split; [|apply elem_of_seqZ; lia]. rewrite E1, P1. by apply list_elem_of_singleton.
Qed.

Lemma elem_of_level F t n sel sub p : p ∈ level F t n sel sub →
  ∃ i e, 0 ≤ i < n ∧ entry F t i = Some e ∧ sel e = true ∧ p ∈ sub i (Z.land e PTE_ADDR_MASK).
Proof.
  unfold level. intros (i & Hp & Hi)%list_elem_of_bind. apply elem_of_seqZ in Hi. destruct (entry F t i) as [e|] eqn:E; [|set_solver].
  destruct (sel e) eqn:S; [|set_solver]. exists i, e. split_and!; (done || lia).
Qed.

(** Every mapped page is listed with its indices. *)
Lemma elem_of_mapped F root p : p ∈ mapped F root → ∃ i j k l e4 e3 e2 e1, p = virt_of i j k l ∧
  0 ≤ i < 256 ∧ 0 ≤ j < 512 ∧ 0 ≤ k < 512 ∧ 0 ≤ l < 512 ∧
  entry F root i = Some e4 ∧ has e4 PTE_PRESENT = true ∧
  entry F (Z.land e4 PTE_ADDR_MASK) j = Some e3 ∧ inner e3 = true ∧ entry F (Z.land e3 PTE_ADDR_MASK) k = Some e2 ∧ inner e2 = true ∧
  entry F (Z.land e2 PTE_ADDR_MASK) l = Some e1 ∧ has e1 PTE_PRESENT = true.
Proof.
  unfold mapped. intros (i & e4 & Hi & E4 & P4 & Hp)%elem_of_level. apply elem_of_level in Hp as (j & e3 & Hj & E3 & P3 & Hp).
  apply elem_of_level in Hp as (k & e2 & Hk & E2 & P2 & Hp). apply elem_of_level in Hp as (l & e1 & Hl & E1 & P1 & Hp).
  apply list_elem_of_singleton in Hp. exists i, j, k, l, e4, e3, e2, e1. split_and!; (done || lia).
Qed.

Lemma mapped_leaf F root p : p ∈ mapped F root → user p ∧ p mod 4096 = 0 ∧ is_Some (leaf F root (path p) (index p 12)).
Proof.
  intros (i & j & k & l & e4 & e3 & e2 & e1 & -> & Hi & Hj & Hk & Hl & E4 & P4 & E3 & I3 & E2 & I2 & E1 & P1)%elem_of_mapped.
  destruct (virt_of_spec i j k l Hi Hj Hk Hl) as (Hu & Hp & Hx). split_and!; [done| |].
  - unfold virt_of. rewrite <-!Z.lor_assoc, (Z.shiftl_mul_pow2 l 12), (lor_add k), (lor_add j), (lor_add i) by lia.
    apply Z.mod_divide; [lia|]. exists (i * 2 ^ 27 + j * 2 ^ 18 + k * 2 ^ 9 + l). lia.
  - rewrite Hp, Hx. apply andb_prop in I3 as [P3 _], I2 as [P2 _]. exists e1. unfold leaf. simpl. unfold next.
    rewrite E4. simpl. rewrite P4. simpl. rewrite E3. simpl. rewrite P3. simpl. rewrite E2. simpl. rewrite P2. simpl. by rewrite E1; simpl; rewrite P1.
Qed.

Lemma level_nodup F t n sel sub (key : Z → Z) : (∀ i u p, 0 ≤ i < n → p ∈ sub i u → key p = i) →
  (∀ i u, 0 ≤ i < n → NoDup (sub i u)) → NoDup (level F t n sel sub).
Proof.
  intros Hk Hn. unfold level. apply NoDup_bind; [|intros i Hi|apply NoDup_seqZ].
  - intros i j p Hi Hj Pi Pj. apply elem_of_seqZ in Hi, Hj. transitivity (key p); [symmetry|].
    + destruct (entry F t i) as [e|]; [|set_solver]. destruct (sel e); [|set_solver]. eapply Hk; [|exact Pi]. lia.
    + destruct (entry F t j) as [e|]; [|set_solver]. destruct (sel e); [|set_solver]. eapply Hk; [|exact Pj]. lia.
  - apply elem_of_seqZ in Hi. destruct (entry F t i) as [e|]; [|constructor]. destruct (sel e); [|constructor]. apply Hn. lia.
Qed.

Lemma mapped_nodup F root : NoDup (mapped F root).
Proof.
  unfold mapped. apply (level_nodup _ _ _ _ _ (λ p, index p 39)).
  { intros i t1 p Hi (j & e3 & Hj & _ & _ & Hp)%elem_of_level. apply elem_of_level in Hp as (k & e2 & Hk & _ & _ & Hp).
    apply elem_of_level in Hp as (l & e1 & Hl & _ & _ & ->%list_elem_of_singleton).
    destruct (virt_of_spec i j k l) as (_ & Hp & _); [lia..|]. by injection Hp. }
  intros i t1 Hi. apply (level_nodup _ _ _ _ _ (λ p, index p 30)).
  { intros j t2 p Hj (k & e2 & Hk & _ & _ & Hp)%elem_of_level. apply elem_of_level in Hp as (l & e1 & Hl & _ & _ & ->%list_elem_of_singleton).
    destruct (virt_of_spec i j k l) as (_ & Hp & _); [lia..|]. by injection Hp. }
  intros j t2 Hj. apply (level_nodup _ _ _ _ _ (λ p, index p 21)).
  { intros k t3 p Hk (l & e1 & Hl & _ & _ & ->%list_elem_of_singleton)%elem_of_level.
    destruct (virt_of_spec i j k l) as (_ & Hp & _); [lia..|]. by injection Hp. }
  intros k t3 Hk. apply (level_nodup _ _ _ _ _ (λ p, index p 12)).
  { intros l u p Hl ->%list_elem_of_singleton. by destruct (virt_of_spec i j k l) as (_ & _ & Hp); [lia..|]. }
  intros l u Hl. apply NoDup_singleton.
Qed.

(** The child of a successful clone. *)
Record clone_of F V (parent : Z) F' V' (child : Z) : Prop := {
  co_space : space F' V' child;
  co_frame t : t ∉ pv_free V → F' !! t = F !! t;
  co_none y : user y → leaf F parent (path y) (index y 12) = None → translate F' child y = None;
  co_page y e : user y → leaf F parent (path y) (index y 12) = Some e →
    ∃ c d, translate F' child y = Some (c + y mod 4096, has e PTE_USER, has e PTE_WRITABLE) ∧
      c ∈ pv_free V ∧ F !! Z.land e PTE_ADDR_MASK = Some d ∧ F' !! c = Some d;
  co_once y z e f : user y → user z → leaf F' child (path y) (index y 12) = Some e →
    leaf F' child (path z) (index z 12) = Some f → Z.land e PTE_ADDR_MASK = Z.land f PTE_ADDR_MASK → one_page y z;
}.

Lemma copied_clone F V parent child F' V' : cloneable F V parent →
  copied F V parent child (mapped F parent) F' V' → clone_of F V parent F' V' child.
Proof.
  intros Hcl Hc. pose proof (cl_space _ _ _ Hcl) as Hs. pose proof (cp_space _ _ _ _ _ _ _ Hc) as Hs'. split.
  - done.
  - apply (cp_frame _ _ _ _ _ _ _ Hc).
  - intros y Hy Hn. rewrite (translate_leaf F' V') by done. destruct (leaf F' child (path y) (index y 12)) as [f|] eqn:Hf; [|done].
    destruct (copied_leaf _ _ _ _ _ _ _ _ _ Hc Hy Hf) as (x & Hx & Ho). destruct (cp_src _ _ _ _ _ _ _ Hc x Hx) as [Hux [e He]].
    rewrite <-(one_page_leaf F parent y x) in He by done. congruence.
  - intros y e Hy He. destruct (mapped_complete F V parent y e Hs Hy He) as (x & Hx & Ho).
    destruct (cp_page _ _ _ _ _ _ _ Hc y e Hy He) as (c & d & Hl & Hpg & Hcf & _ & _ & _ & Hd & Hd'); [eauto|].
    exists c, d. split_and!; try done. rewrite (translate_leaf F' V'), Hl by done. simpl. rewrite leaf_entry_addr by done.
    unfold PTE_USER, PTE_WRITABLE. by rewrite !has_pow2, !leaf_entry_bit, !flag_bit, !orb_false_r by (done || lia).
  - intros y z e f Hy Hz He Hf Eq. by apply (cp_once _ _ _ _ _ _ _ Hc y z e (Z.land f PTE_ADDR_MASK) f).
Qed.

Lemma vmm_clone_spec F V parent cr3 kp lk (a : A) : cloneable F V parent → Z.land cr3 PTE_ADDR_MASK = parent →
  pa_rep a V → (1 + 4 * length (mapped F parent) ≤ base.size (pv_free V))%nat →
  kp ∉ pv_free V → F !! kp = Some lk → length lk = 512%nat → Forall word lk →
  wp (vmm_clone_address_space kp cr3) (F, a) (λ r '(F', a'), ∃ child V', r = Some child ∧
    ram_end a' = ram_end a ∧ pa_rep a' V' ∧ clone_of F V parent F' V' child).
Proof.
  intros Hcl Hcr Hr Hsz Hkp Hlk Hlen Hwd. pose proof (cl_space _ _ _ Hcl) as Hs. unfold vmm_clone_address_space. rewrite Hcr.
  apply wp_bind. eapply wp_mono.
  { apply (vmm_create_spec F V kp lk); try done; [apply size_nonempty; lia|]. intros q. apply (sp_avail _ _ _ Hs). }
  intros r [F1 a1] (child & -> & Hch & Hram & Hr1 & Hs1 & Hfr & Hw1 & Hl1 & _).
  apply wp_bind. eapply wp_mono.
  { apply (clone_loops_spec F V parent child (ram_end a)); [done|done|]. exists (taken child V). cbn [fst snd]. split_and!; [done|done|].
    split; cbn [taken pv_free].
    - done.
    - set_solver.
    - rewrite size_difference, size_singleton by set_solver. simpl. lia.
    - intros t Ht. apply Hfr. set_solver.
    - intros q u Hq Hw. by rewrite (Hw1 q u).
    - set_solver.
    - intros y Hy _. apply Hl1; [by apply upath_path|done].
    - intros y e Hy He (x & Hx & _). set_solver.
    - intros y z e c f Hy Hz He. by rewrite Hl1 in He by (done || by apply upath_path). }
  intros b [F2 a2] [-> (V2 & Hram2 & Hr2 & Hc2)]. apply wp_ret. exists child, V2. cbn [fst snd] in *. split_and!; try done.
  by apply copied_clone.
Qed.

End Clone.

End VmmClone.
