(* ===== verification/VmmTheorems.v ===== *)
(** * Theorems on the virtual memory manager

    The operations of [vmm.c] against the address translation of the
    processor, with a small machine on which each is exercised. *)
From S2P Require Import Prelude Bits Pages Vmm VmmSpec VmmClone.

Module VmmTheorems.
Import Vmm VmmSpec VmmClone.

Section Theorems.
  Context {A : Type} `{PageLaws A}.
  Implicit Types (F : frames) (V : pview).

(** C4. Mapping: after [vmm_map] the processor translates the page of [x] to
    [phys] with exactly the user and write rights of [flags], every other user
    address translates as before, the tables still form a tree of held pages,
    and no frame outside the tables and the free pages was written. *)
Theorem vmm_map_correct F V root (a : A) x phys flags : space F V root → user x → word phys → word flags →
  pa_rep a V → (3 ≤ base.size (pv_free V))%nat → wp (vmm_map root x phys flags) (F, a) (λ _ '(F', a'), ∃ V',
    pa_rep a' V' ∧ space F' V' root ∧ grows root F V F' V' ∧
    ∀ y, user y → translate F' root y =
      if decide (one_page y x)
      then Some (Z.land phys PTE_ADDR_MASK + y mod 4096, has flags PTE_USER, has flags PTE_WRITABLE)
      else translate F root y).
Proof.
  intros Hs Hx Hp Hf Hr Hsz. eapply wp_mono; [by apply (vmm_map_spec F V)|].
  intros [] [F' a'] (V' & _ & Hr' & Hs' & G & _ & L). exists V'. split_and!; [done..|]. intros y Hy.
  rewrite (translate_leaf F' V'), (translate_leaf F V), L by done. pose proof (page_addr phys Hp) as Hpg.
  destruct (decide (one_page y x)); [|done]. simpl. rewrite leaf_entry_addr by done. unfold PTE_USER, PTE_WRITABLE.
  by rewrite !has_pow2, !leaf_entry_bit, !orb_false_r by (done || lia).
Qed.

(** [vmm_get_phys] computes the translation of the processor, 0 for an
    unmapped address, and changes nothing. *)
Lemma vmm_get_phys_correct F V root x (a : A) : space F V root → user x →
  vmm_get_phys root x (F, a) = Ret (match translate F root x with Some (p, _, _) => p | None => 0 end, (F, a)).
Proof. apply vmm_get_phys_spec. Qed.

(** Rights: [vmm_unmap] removes exactly one page.  [vmm_protect] succeeds
    exactly on mapped pages; it keeps the frame, gives user access when asked,
    and write access only to a page with user access that is not shared
    copy-on-write; other pages keep frame and rights. *)
Lemma vmm_protect_correct F V root x us wr (a : A) : space F V root → user x →
  wp (vmm_unmap root x) (F, a) (λ _ '(F', _), space F' V root ∧
    ∀ y, user y → translate F' root y = if decide (one_page y x) then None else translate F root y) ∧
  wp (vmm_protect root x us wr) (F, a) (λ r '(F', _), space F' V root ∧
    match leaf F root (path x) (index x 12) with
    | None => r = false ∧ F' = F
    | Some e => r = true ∧ ∀ y, user y → translate F' root y =
        if decide (one_page y x)
        then Some (Z.land e PTE_ADDR_MASK + y mod 4096, us, us && wr && negb (has e PTE_COW))
        else translate F root y
    end).
Proof.
  intros Hs Hx. split.
  - eapply wp_mono; [by apply (vmm_unmap_spec F V)|]. by intros [] [F' a'] (_ & Hs' & _ & L).
  - eapply wp_mono; [by apply (vmm_protect_spec F V)|]. by intros r [F' a'] (_ & Hs' & _ & L).
Qed.

(** C6. Page faults: a write to a present copy-on-write page gets a private
    writable copy of the frame, a missing page of the stack area gets a zeroed
    page, both with every other translation unchanged; any other fault of a
    user process ends it with code 139 and leaves memory alone. *)
Theorem vmm_page_fault_correct F V root cr3 x st (a : A) : space F V root → user x → PAGE_SIZE ≤ x →
  Z.land cr3 PTE_ADDR_MASK = root → pa_rep a V → (4 ≤ base.size (pv_free V))%nat → cpu_cs st = 0x23 →
  (∀ e, leaf F root (path x) (index x 12) = Some e → is_Some (F !! Z.land e PTE_ADDR_MASK)) →
  wp (vmm_page_fault_handler x cr3 st true) (F, a) (λ r '(F', a'),
    match cow_entry_of F root x (cpu_error_code st) with
    | Some e => r = PF_Return ∧ ∃ V' l c, pa_rep a' V' ∧ space F' V' root ∧ grows root F V F' V' ∧
        F !! Z.land e PTE_ADDR_MASK = Some l ∧ remapped root x (has e PTE_USER) true l F V F' c
    | None =>
        if 0x7FE000000000 <=? x
        then r = PF_Return ∧ ∃ V' c, pa_rep a' V' ∧ space F' V' root ∧ grows root F V F' V' ∧
               remapped root x true true (replicate 512 0) F V F' c
        else r = PF_Exit 139 ∧ F' = F ∧ a' = a
    end).
Proof.
  intros Hs Hx Hlow Hcr Hr Hsz Hcs Hdata. unfold vmm_page_fault_handler. rewrite (proj2 (Z.ltb_ge _ _)) by done. rewrite Hcr, Hcs.
  apply wp_bind. eapply wp_mono; [apply (cow_fault_spec F V); [done..|apply size_nonempty; lia|done]|].
  intros b [F1 a1]. destruct (cow_entry_of F root x (cpu_error_code st)) as [e|].
  - intros (-> & V' & l & c & _ & Hr' & Hs' & G & Hl & Hm). apply wp_ret. split; [done|]. eauto 10.
  - intros (-> & -> & ->). apply wp_bind. destruct (Z.leb_spec 0x7FE000000000 x) as [Hge|Hlt].
    + eapply wp_mono; [apply (stack_fault_spec F V); [done..|unfold user in Hx; lia]|].
      intros r [F2 a2] (-> & V' & c & _ & Hr' & Hs' & G & Hm). apply wp_ret. split; [done|]. eauto 10.
    + unfold stack_fault. rewrite (proj2 (Z.leb_gt _ _)) by done. apply wp_ret. simpl. by apply wp_ret.
Qed.

(** C5. Cloning: with memory for the copies, [vmm_clone_address_space] returns
    a well-formed address space in which exactly the parent's pages are
    mapped, each to a page of its own taken from the free ones, with the
    parent's rights and contents; no frame in use before the call changed. *)
Theorem vmm_clone_correct F V parent cr3 kp lk (a : A) : cloneable F V parent → Z.land cr3 PTE_ADDR_MASK = parent →
  pa_rep a V → (1 + 4 * length (mapped F parent) ≤ base.size (pv_free V))%nat →
  kp ∉ pv_free V → F !! kp = Some lk → length lk = 512%nat → Forall word lk →
  wp (vmm_clone_address_space kp cr3) (F, a) (λ r '(F', a'), ∃ child V', r = Some child ∧
    pa_rep a' V' ∧ clone_of F V parent F' V' child).
Proof.
  intros. eapply wp_mono; [by apply (vmm_clone_spec F V parent cr3 kp lk)|].
  intros r [F' a'] (child & V' & -> & _ & Hr' & Hc). eauto.
Qed.

(** C7. Destroying: [vmm_destroy_address_space] frees the tables of the
    address space and the pages of RAM it maps, each once and nothing else,
    provided no page is mapped twice. *)
Theorem vmm_destroy_correct F V root cr3 (a : A) : space F V root → pa_rep a V → Z.land cr3 PTE_ADDR_MASK = root →
  unshared F V (u64 (ram_end a)) root →
  wp (vmm_destroy_address_space cr3) (F, a) (λ _ '(F', a'), F' = F ∧ ∃ V', pa_rep a' V' ∧
    (∀ p, p ∈ pv_free V' ↔ p ∈ pv_free V ∨ under F (u64 (ram_end a)) root [] p) ∧
    (∀ p, ¬ under F (u64 (ram_end a)) root [] p → pv_held V' !! p = pv_held V !! p)).
Proof. apply vmm_destroy_spec. Qed.

End Theorems.

(** ** A machine with 64 pages *)
Definition zeros : list Z := replicate 512 0.

Definition demo_frames : frames := list_to_map ((λ f, (f * 4096, zeros)) <$> seqZ 1 63).

Lemma demo_frame f : 1 ≤ f < 64 → demo_frames !! (f * 4096) = Some zeros.
Proof.
  intros Hf. apply elem_of_list_to_map_1.
  - rewrite <-list_fmap_compose. apply NoDup_fmap_2_strong; [|apply NoDup_seqZ]. intros x y _ _. simpl. lia.
  - apply list_elem_of_fmap. exists f. split; [done|]. apply elem_of_seqZ. lia.
Qed.

Lemma zeros_ok : length zeros = 512%nat ∧ Forall word zeros.
Proof. split; [done|]. apply Forall_replicate. unfold word. lia. Qed.

Lemma demo_size : base.size PmmPages.demo_free = 62%nat.
Proof.
  unfold PmmPages.demo_free. rewrite size_list_to_set, length_fmap, length_seqZ; [done|].
  apply NoDup_fmap_2; [|apply NoDup_seqZ]. intros x y. unfold Pmm.Pmm.PAGE_SIZE. lia.
Qed.

(** An address space with [x] mapped. *)
Record demo_mapping (x flags : Z) F V (a : Pmm.Pmm.pmm * unit) (root e : Z) : Prop := {
  dm_space : space F V root;
  dm_rep : pa_rep a V;
  dm_size : (50 ≤ base.size (pv_free V))%nat;
  dm_ram : ram_end a = 64 * 4096;
  dm_kernel : F !! 4096 = Some zeros ∧ 4096 ∉ pv_free V;
  dm_leaf y : user y → leaf F root (path y) (index y 12) = if decide (one_page y x) then Some e else None;
  dm_entry : ∃ c, e = leaf_entry c flags ∧ page c ∧ F !! c = Some zeros ∧ c ∉ pv_free V ∧
    pv_held V !! c = Some 0%nat ∧ ∀ q, upath q → walk F root q ≠ Some c;
}.

Lemma demo_mapped x flags : user x → word flags → ∃ F V a root e, demo_mapping x flags F V a root e.
Proof.
  intros Hx Hf. destruct PmmPages.demo_boot as (a0 & Hr0 & Hram0). set (V0 := mk_view PmmPages.demo_free ∅) in *.
  assert (avail demo_frames V0) as Hav.
  { intros q Hq. apply PmmPages.elem_of_demo_free in Hq as (f & -> & Hq). split; [exists zeros; apply demo_frame; lia|].
    unfold page, Pmm.Pmm.PAGE_SIZE. split; [lia|]. by rewrite Z.mod_mul. }
  assert (4096 ∉ pv_free V0) as Hk.
  { intros (f & Hq & Hf')%PmmPages.elem_of_demo_free. unfold Pmm.Pmm.PAGE_SIZE in Hq. lia. }
  assert (base.size (pv_free V0) = 62%nat) as Hsz by apply demo_size. clearbody V0. destruct zeros_ok as [Zl Zw].
  destruct (wp_run _ _ _ (vmm_create_spec demo_frames V0 4096 zeros a0 Hr0 ltac:(apply size_nonempty; lia) Hav Hk
    (demo_frame 1 ltac:(lia)) Zl Zw)) as (r & [F1 a1] & _ & root & _ & Hroot & Hram1 & Hr1 & Hs1 & Hfr1 & Hw1 & Hl1 & _).
  assert (base.size (pv_free (taken root V0)) = 61%nat) as Hsz1.
  { cbn [taken pv_free]. rewrite size_difference, size_singleton by set_solver. lia. }
  destruct (wp_run _ _ _ (alloc_page_law a1 (taken root V0) Hr1 ltac:(apply size_nonempty; lia))) as (c & a2 & _ & Hram2 & Hc & Hr2).
  destruct (sp_avail _ _ _ Hs1 c Hc) as [_ Hpc].
  destruct (space_take F1 (taken root V0) root c zeros Hs1 Hc) as (Hs2 & G2 & W2 & L2). set (V2 := taken c (taken root V0)) in *.
  assert (base.size (pv_free V2) = 60%nat) as Hsz2.
  { unfold V2. cbn [taken pv_free] in *. rewrite size_difference, size_singleton by set_solver. lia. }
  destruct (wp_run _ _ _ (vmm_map_spec _ V2 root a2 x c flags Hs2 Hx (page_word c Hpc) Hf Hr2 ltac:(lia)))
    as ([] & [F3 a3] & _ & V3 & Hram3 & Hr3 & Hs3 & G3 & Hsz3 & L3).
  rewrite (addr_page c) in L3 by done. exists F3, V3, a3, root, (leaf_entry c flags).
  assert (c ∉ pv_free V2 ∧ root ∉ pv_free V2) as [Hc2 Hroot2] by (unfold V2; cbn [taken pv_free]; set_solver).
  assert (∀ q u, upath q → walk (<[c := zeros]> F1) root q = Some u → u = root) as Hw2.
  { intros q u Hq. rewrite W2 by done. by apply Hw1. }
  assert (c ≠ root) as Hcr by (cbn [taken pv_free] in Hc; set_solver).
  pose proof (g_free _ _ _ _ _ G3) as Hf3. split.
  - done.
  - done.
  - lia.
  - congruence.
  - split.
    + assert (4096 ≠ c ∧ 4096 ≠ root) as [Hnc Hnr] by (cbn [taken pv_free] in Hc; set_solver).
      rewrite (g_frame _ _ _ _ _ G3).
      * rewrite lookup_insert_ne, Hfr1 by done. apply (demo_frame 1). lia.
      * unfold V2. cbn [taken pv_free]. set_solver.
      * intros q Hq Hw. by apply Hw2 in Hw.
    + intros Hin. apply Hf3 in Hin. unfold V2 in Hin. cbn [taken pv_free] in Hin. set_solver.
  - intros y Hy. rewrite L3, L2, Hl1 by (done || by apply upath_path). done.
  - exists c. split_and!; [done|done| |set_solver| |].
    + rewrite (g_frame _ _ _ _ _ G3); [by rewrite lookup_insert_eq|done|]. intros q Hq Hw. by apply Hw2 in Hw.
    + rewrite (g_held _ _ _ _ _ G3) by done. unfold V2. cbn [taken pv_held]. by rewrite lookup_insert_eq.
    + intros q Hq Hw. destruct (g_walk _ _ _ _ _ G3 q c Hq Hw) as [Hw'|]; [by apply Hw2 in Hw'|done].
Qed.

Lemma path_virt q l : upath q → length q = 3%nat → 0 ≤ l < 512 → ∃ y, user y ∧ path y = q ∧ index y 12 = l.
Proof.
  intros (Hf & _ & H0) Hlen Hl. destruct q as [|i [|j [|k [|]]]]; try done.
  apply Forall_cons in Hf as [Hi Hf]. apply Forall_cons in Hf as [Hj Hf]. apply Forall_cons in Hf as [Hk _].
  exists (virt_of i j k l). apply virt_of_spec; lia.
Qed.

Lemma demo_unshared x flags F V a root e ram : user x → word flags → demo_mapping x flags F V a root e → unshared F V ram root.
Proof.
  intros Hx Hw Hd. destruct (dm_entry _ _ _ _ _ _ _ Hd) as (c & -> & Hpc & Hz & Hcn & Hch & Hct).
  assert (∀ q l d, upath q → length q = 3%nat → 0 ≤ l < 512 → leaf F root q l = Some d → d = leaf_entry c flags ∧ q = path x ∧ l = index x 12) as Hq.
  { intros q l d Hq Hlen Hl Hleaf. destruct (path_virt q l Hq Hlen Hl) as (y & Hy & <- & <-).
    rewrite (dm_leaf _ _ _ _ _ _ _ Hd y Hy) in Hleaf. destruct (decide (one_page y x)) as [Ho|]; [|done].
    injection Hleaf as <-. split; [done|]. by apply same_page. }
  split.
  - intros q l d Hq' Hlen Hl Hleaf _. destruct (Hq q l d Hq' Hlen Hl Hleaf) as (-> & _). by rewrite leaf_entry_addr.
  - intros q l d q' l' d' H1 H2 H3 H4 _ H5 H6 H7 H8 _ _. destruct (Hq q l d H1 H2 H3 H4) as (_ & -> & ->).
    by destruct (Hq q' l' d' H5 H6 H7 H8) as (_ & -> & ->).
Qed.

Lemma demo_cloneable x flags F V a root e : user x → word flags → demo_mapping x flags F V a root e →
  cloneable F V root ∧ (length (mapped F root) ≤ 1)%nat.
Proof.
  intros Hx Hw Hd. destruct (dm_entry _ _ _ _ _ _ _ Hd) as (c & -> & Hpc & Hz & Hcn & _). split; [split|].
  - apply (dm_space _ _ _ _ _ _ _ Hd).
  - intros y d Hy Hl. rewrite (dm_leaf _ _ _ _ _ _ _ Hd y Hy) in Hl. destruct (decide (one_page y x)); [|done]. injection Hl as <-.
    rewrite leaf_entry_addr by done. split; [by eexists|done].
  - transitivity (length [x - x mod 4096]); [|done]. apply submseteq_length, NoDup_submseteq; [apply mapped_nodup|].
    intros p Hp. apply mapped_leaf in Hp as (Hu & Ha & [d Hl]). rewrite (dm_leaf _ _ _ _ _ _ _ Hd p Hu) in Hl.
    destruct (decide (one_page p x)) as [Ho|]; [|done]. apply list_elem_of_singleton. unfold one_page in Ho.
    pose proof (Z.div_mod x 4096 ltac:(lia)). pose proof (Z.div_mod p 4096 ltac:(lia)). lia.
Qed.

Lemma demo_root x flags F V a root e : demo_mapping x flags F V a root e → Z.land root PTE_ADDR_MASK = root.
Proof.
  intros Hd. destruct (sp_held _ _ _ (dm_space _ _ _ _ _ _ _ Hd) [] root ltac:(by repeat split; simpl; try lia) eq_refl) as [Hh _].
  destruct (held_range _ _ _ _ (dm_rep _ _ _ _ _ _ _ Hd) Hh) as (? & ? & ?). rewrite (dm_ram _ _ _ _ _ _ _ Hd) in *.
  apply addr_page. split; [lia|done].
Qed.

Definition demo_x : Z := 0x400000.
Definition demo_flags : Z := Z.lor PTE_USER PTE_COW.

Lemma demo_ok : user demo_x ∧ word demo_flags.
Proof. split; split; by vm_compute. Qed.

Lemma vmm_map_correct_witness : ∃ F V (a : Pmm.Pmm.pmm * unit) root, space F V root ∧ pa_rep a V ∧
  wp (vmm_map root 0x601000 0x5000 (Z.lor PTE_USER PTE_WRITABLE)) (F, a) (λ _ '(F', _),
    translate F' root 0x601123 = Some (0x5123, true, true) ∧ translate F' root demo_x = translate F root demo_x).
Proof.
  destruct demo_ok as [Hx Hw]. destruct (demo_mapped demo_x demo_flags Hx Hw) as (F & V & a & root & e & Hd).
  pose proof (dm_space _ _ _ _ _ _ _ Hd) as Hs. pose proof (dm_rep _ _ _ _ _ _ _ Hd) as Hr. pose proof (dm_size _ _ _ _ _ _ _ Hd).
  exists F, V, a, root. split_and!; [done..|]. eapply wp_mono; [apply (vmm_map_correct F V root a); [done|..|done|lia]|].
  - split; by vm_compute.
  - split; by vm_compute.
  - split; by vm_compute.
  - intros [] [F' a'] (V' & _ & _ & _ & L). split.
    + rewrite L, decide_True; [by vm_compute|by vm_compute|split; by vm_compute].
    + by rewrite L, decide_False by done.
Defined.

Lemma vmm_get_phys_correct_witness : ∃ F V (a : Pmm.Pmm.pmm * unit) root c, space F V root ∧ page c ∧
  vmm_get_phys root (demo_x + 16) (F, a) = Ret (c + 16, (F, a)).
Proof.
  destruct demo_ok as [Hx Hw]. destruct (demo_mapped demo_x demo_flags Hx Hw) as (F & V & a & root & e & Hd).
  pose proof (dm_space _ _ _ _ _ _ _ Hd) as Hs. destruct (dm_entry _ _ _ _ _ _ _ Hd) as (c & -> & Hpc & _).
  assert (user (demo_x + 16)) as Hu by (split; by vm_compute). exists F, V, a, root, c. split_and!; [done..|].
  rewrite (vmm_get_phys_correct F V root (demo_x + 16) a Hs Hu), (translate_leaf F V), (dm_leaf _ _ _ _ _ _ _ Hd), decide_True by done.
  cbn [fmap option_fmap option_map]. by rewrite leaf_entry_addr.
Defined.

Lemma vmm_protect_correct_witness : ∃ F V (a : Pmm.Pmm.pmm * unit) root c, space F V root ∧ page c ∧
  wp (vmm_protect root demo_x true true) (F, a) (λ r '(F', _), r = true ∧ translate F' root demo_x = Some (c + 0, true, false)).
Proof.
  destruct demo_ok as [Hx Hw]. destruct (demo_mapped demo_x demo_flags Hx Hw) as (F & V & a & root & e & Hd).
  pose proof (dm_space _ _ _ _ _ _ _ Hd) as Hs. destruct (dm_entry _ _ _ _ _ _ _ Hd) as (c & -> & Hpc & _).
  exists F, V, a, root, c. split_and!; [done..|].
  eapply wp_mono; [apply (proj2 (vmm_protect_correct F V root demo_x true true a Hs Hx))|].
  intros r [F' a'] [_ HL]. rewrite (dm_leaf _ _ _ _ _ _ _ Hd), decide_True in HL by done. destruct HL as [-> HL]. split; [done|].
  rewrite HL, decide_True, leaf_entry_addr by done. unfold PTE_COW. by rewrite has_pow2, leaf_entry_bit by (done || lia).
Defined.

Lemma vmm_page_fault_correct_witness : ∃ F V (a : Pmm.Pmm.pmm * unit) root cr3, space F V root ∧ Z.land cr3 PTE_ADDR_MASK = root ∧
  wp (vmm_page_fault_handler demo_x cr3 (mk_cpu 0x23 0x7) true) (F, a) (λ r '(F', _), r = PF_Return ∧
    ∃ c, F' !! c = Some zeros ∧ translate F' root demo_x = Some (c + 0, true, true)).
Proof.
  destruct demo_ok as [Hx Hw]. destruct (demo_mapped demo_x demo_flags Hx Hw) as (F & V & a & root & e & Hd).
  pose proof (dm_space _ _ _ _ _ _ _ Hd) as Hs. pose proof (dm_rep _ _ _ _ _ _ _ Hd) as Hr. pose proof (dm_size _ _ _ _ _ _ _ Hd).
  destruct (dm_entry _ _ _ _ _ _ _ Hd) as (c & -> & Hpc & Hz & _).
  pose proof (demo_root _ _ _ _ _ _ _ Hd) as Hcr.
  exists F, V, a, root, root. split_and!; [done..|].
  pose proof (dm_leaf _ _ _ _ _ _ _ Hd demo_x Hx) as Hl. rewrite decide_True in Hl by done.
  eapply wp_mono; [apply (vmm_page_fault_correct F V root root demo_x (mk_cpu 0x23 0x7) a); [done|done|by vm_compute|done|done|lia|done|]|].
  - intros d. rewrite Hl. intros [= <-]. rewrite leaf_entry_addr by done. by eexists.
  - intros r [F' a']. unfold cow_entry_of. rewrite Hl. cbn [mbind option_bind cpu_error_code]. unfold PTE_COW.
    rewrite (has_pow2 (leaf_entry c demo_flags)), leaf_entry_bit by (done || lia).
    change (has 7 2 && (Z.testbit demo_flags 9 || (9 =? 0))) with true. cbv iota.
    intros (-> & V' & l & c' & _ & _ & _ & Hl' & _ & Hc' & HT). split; [done|]. exists c'. rewrite leaf_entry_addr in Hl' by done.
    assert (l = zeros) as -> by congruence. split; [done|]. rewrite HT, decide_True by done. unfold PTE_USER.
    by rewrite has_pow2, leaf_entry_bit by (done || lia).
Defined.

Lemma vmm_clone_correct_witness : ∃ F V (a : Pmm.Pmm.pmm * unit) root cr3, space F V root ∧ Z.land cr3 PTE_ADDR_MASK = root ∧
  wp (vmm_clone_address_space 4096 cr3) (F, a) (λ r '(F', _), ∃ child c, r = Some child ∧ F' !! c = Some zeros ∧
    translate F' child demo_x = Some (c + 0, true, false)).
Proof.
  destruct demo_ok as [Hx Hw]. destruct (demo_mapped demo_x demo_flags Hx Hw) as (F & V & a & root & e & Hd).
  pose proof (dm_space _ _ _ _ _ _ _ Hd) as Hs. pose proof (dm_rep _ _ _ _ _ _ _ Hd) as Hr. pose proof (dm_size _ _ _ _ _ _ _ Hd).
  destruct (demo_cloneable _ _ _ _ _ _ _ Hx Hw Hd) as [Hcl Hlen]. destruct (dm_entry _ _ _ _ _ _ _ Hd) as (c & -> & Hpc & Hz & _).
  pose proof (demo_root _ _ _ _ _ _ _ Hd) as Hcr.
  exists F, V, a, root, root. split_and!; [done..|]. destruct (dm_kernel _ _ _ _ _ _ _ Hd) as [Hk1 Hk2]. destruct zeros_ok as [Zl Zw].
  pose proof (dm_leaf _ _ _ _ _ _ _ Hd demo_x Hx) as Hl. rewrite decide_True in Hl by done.
  eapply wp_mono; [apply (vmm_clone_correct F V root root 4096 zeros a); (done || lia)|].
  intros r [F' a'] (child & V' & -> & _ & Hc). destruct (co_page _ _ _ _ _ _ Hc demo_x _ Hx Hl) as (c' & d & HT & _ & Hd1 & Hd2).
  exists child, c'. rewrite leaf_entry_addr in Hd1 by done. assert (d = zeros) as -> by congruence. split_and!; [done..|].
  rewrite HT. unfold PTE_USER, PTE_WRITABLE. by rewrite !has_pow2, !leaf_entry_bit by (done || lia).
Defined.

Lemma vmm_destroy_correct_witness : ∃ F V (a : Pmm.Pmm.pmm * unit) root cr3 c, space F V root ∧ Z.land cr3 PTE_ADDR_MASK = root ∧
  c ∉ pv_free V ∧
  wp (vmm_destroy_address_space cr3) (F, a) (λ _ '(_, a'), ∃ V', pa_rep a' V' ∧ c ∈ pv_free V' ∧ root ∈ pv_free V').
Proof.
  destruct demo_ok as [Hx Hw]. destruct (demo_mapped demo_x demo_flags Hx Hw) as (F & V & a & root & e & Hd).
  pose proof (dm_space _ _ _ _ _ _ _ Hd) as Hs. pose proof (dm_rep _ _ _ _ _ _ _ Hd) as Hr.
  destruct (dm_entry _ _ _ _ _ _ _ Hd) as (c & -> & Hpc & Hz & Hcn & Hch & _).
  assert (upath []) as U0 by by repeat split; simpl; try lia.
  pose proof (demo_root _ _ _ _ _ _ _ Hd) as Hcr.
  exists F, V, a, root, root, c. split_and!; [done..|].
  pose proof (dm_leaf _ _ _ _ _ _ _ Hd demo_x Hx) as Hl. rewrite decide_True in Hl by done.
  eapply wp_mono; [apply (vmm_destroy_correct F V root root a Hs Hr Hcr); by apply (demo_unshared demo_x demo_flags _ _ a _ (leaf_entry c demo_flags))|].
  intros [] [F' a'] (-> & V' & Hr' & HV & _). exists V'. split_and!; [done| |].
  - apply HV. right. right. exists (path demo_x), (index demo_x 12), (leaf_entry c demo_flags).
    split_and!; [by apply upath_path|done|apply index_range; lia|apply index_range; lia|done| |by rewrite leaf_entry_addr].
    unfold ram_page, PTE_PRESENT, PTE_PCD. rewrite !has_pow2, !leaf_entry_bit, leaf_entry_addr by (done || lia).
    change (Z.testbit demo_flags 0 || (0 =? 0)) with true. change (Z.testbit demo_flags 4 || (4 =? 0)) with false. cbn [andb negb].
    destruct (held_range _ _ _ _ Hr Hch) as (? & ? & ?). rewrite (dm_ram _ _ _ _ _ _ _ Hd) in *. apply Z.ltb_lt.
    change (u64 (64 * 4096)) with (64 * 4096). simpl in *. lia.
  - apply HV. right. left. by exists [].
Defined.

End VmmTheorems.
