(* ===== verification/Shm.v ===== *)
(** * System V shared memory ([ipc/shm.c])

    The segment table beside the page tables and the page allocator.  The
    kernel heap only provides the array of page pointers, so a call takes
    whether that allocation succeeds; the caller's process is its [cr3] and
    [pid], [None] without one. *)
From S2P Require Import Prelude Pages Vmm.

Module Shm.

Definition EINVAL : Z := 22.
Definition EEXIST : Z := 17.
Definition ENOENT : Z := 2.
Definition ENOSPC : Z := 28.
Definition ENOMEM : Z := 12.
Definition EFAULT : Z := 14.
Definition PAGE_SIZE : Z := 4096.
Definition IPC_PRIVATE : Z := 0.
Definition IPC_CREAT : Z := 512.
Definition IPC_EXCL : Z := 1024.
Definition IPC_RMID : Z := 0.
Definition IPC_SET : Z := 1.
Definition IPC_STAT : Z := 2.
Definition IPC_64 : Z := 0x100.
Definition SHM_RDONLY : Z := 4096.
Definition SHM_MAX_SEGMENTS : nat := 32.
Definition SHM_MAX_SIZE : Z := 64 * 1024 * 1024.
Definition SHM_VIRT_BASE : Z := 0x600000000000.

Record shm_segment := mk_seg {
  sg_active : bool;
  sg_marked_destroy : bool;
  sg_key : Z;
  sg_shmid : Z;
  sg_size : Z;
  sg_page_count : Z;
  sg_phys_pages : list Z;
  sg_nattch : Z;
  sg_mode : Z;
  sg_cpid : Z;
  sg_lpid : Z;
}.

Record shm_state := mk_shm { shm_segments : list shm_segment; next_shmid : Z; shm_next_virt : Z }.

Definition empty_segment : shm_segment := mk_seg false false 0 0 0 0 [] 0 0 0 0.

Definition shm_init : shm_state := mk_shm (replicate SHM_MAX_SEGMENTS empty_segment) 1 SHM_VIRT_BASE.

Definition set_attach (n lpid : Z) (s : shm_segment) : shm_segment :=
  mk_seg (sg_active s) (sg_marked_destroy s) (sg_key s) (sg_shmid s) (sg_size s) (sg_page_count s) (sg_phys_pages s)
    n (sg_mode s) (sg_cpid s) lpid.
Definition set_active (b : bool) (s : shm_segment) : shm_segment :=
  mk_seg b (sg_marked_destroy s) (sg_key s) (sg_shmid s) (sg_size s) (sg_page_count s) (sg_phys_pages s)
    (sg_nattch s) (sg_mode s) (sg_cpid s) (sg_lpid s).
Definition set_marked (b : bool) (s : shm_segment) : shm_segment :=
  mk_seg (sg_active s) b (sg_key s) (sg_shmid s) (sg_size s) (sg_page_count s) (sg_phys_pages s)
    (sg_nattch s) (sg_mode s) (sg_cpid s) (sg_lpid s).
Definition set_mode (md : Z) (s : shm_segment) : shm_segment :=
  mk_seg (sg_active s) (sg_marked_destroy s) (sg_key s) (sg_shmid s) (sg_size s) (sg_page_count s) (sg_phys_pages s)
    (sg_nattch s) md (sg_cpid s) (sg_lpid s).

(** [for (i = 0; i < SHM_MAX_SEGMENTS; i++) if (P(shm_segments[i])) { ...; break; }] *)
Fixpoint find_index (P : shm_segment → bool) (l : list shm_segment) (i : nat) : option nat :=
  match l with
  | [] => None
  | s :: l' => if P s then Some i else find_index P l' (S i)
  end.

Definition by_key (key : Z) (s : shm_segment) : bool := sg_active s && (sg_key s =? u32 key).
Definition by_shmid (shmid : Z) (s : shm_segment) : bool := sg_active s && (sg_shmid s =? shmid).
Definition by_first_page (phys : Z) (s : shm_segment) : bool :=
  sg_active s && (0 <? sg_page_count s) && bool_decide (head (sg_phys_pages s) = Some phys).

(** What [IPC_STAT] fills in. *)
Record shmid_ds := mk_ds {
  ds_key : Z; ds_mode : Z; ds_seq : Z; ds_segsz : Z; ds_cpid : Z; ds_lpid : Z; ds_nattch : Z;
}.

Section Ops.
  Context {A : Type} `{PageOps A}.

Abbreviation vm := (gmap Z (list Z) * A)%type.

Definition state : Type := shm_state * vm.

Definition mem {B} (m : M vm B) : M state B := lift_r m.

Definition seg_get (i : nat) : M state shm_segment := deref (λ s : state, shm_segments s.1 !! i).

Definition seg_set (i : nat) (f : shm_segment → shm_segment) : M state unit :=
  _ ← seg_get i;
  modify (λ s : state, (mk_shm (alter f i (shm_segments s.1)) (next_shmid s.1) (shm_next_virt s.1), s.2)).

(** [for (j = 0; j < i; j++) pmm_free(phys_list[j]);] *)
Fixpoint free_pages (l : list Z) : M vm unit :=
  match l with [] => mret tt | p :: l' => Vmm.pmm_free p;; free_pages l' end.

(** The allocation loop; [got] holds [phys_list[0..i)].  [None] when memory
    ran out, with the pages given back. *)
Fixpoint alloc_pages (n : nat) (got : list Z) : M vm (option (list Z)) :=
  match n with
  | O => mret (Some got)
  | S n' =>
      p ← Vmm.pmm_alloc;
      if p =? 0 then free_pages got;; mret None else
      Vmm.zero_frame p;;
      alloc_pages n' (got ++ [p])
  end.

Definition sys_shmget_handler (heap_ok : bool) (pid : option Z) (key size shmflg : Z) : M state Z :=
  if (size =? 0) || (SHM_MAX_SIZE <? size) then mret (- EINVAL) else
  segs ← gets (λ s : state, shm_segments s.1);
  let existing := if key =? IPC_PRIVATE then None else find_index (by_key key) segs 0 in
  match existing with
  | Some i => if has shmflg IPC_EXCL then mret (- EEXIST) else seg ← seg_get i; mret (sg_shmid seg)
  | None =>
      if negb (key =? IPC_PRIVATE) && negb (has shmflg IPC_CREAT) then mret (- ENOENT) else
      match find_index (λ s, negb (sg_active s)) segs 0 with
      | None => mret (- ENOSPC)
      | Some slot =>
          let pages := (size + PAGE_SIZE - 1) / PAGE_SIZE in
          if negb heap_ok then mret (- ENOMEM) else
          r ← mem (alloc_pages (Z.to_nat pages) []);
          match r with
          | None => mret (- ENOMEM)
          | Some phys_list =>
              id ← gets (λ s : state, next_shmid s.1);
              modify (λ s : state, (mk_shm (shm_segments s.1) (next_shmid s.1 + 1) (shm_next_virt s.1), s.2));;
              seg_set slot (λ _, mk_seg true false (u32 key) id size pages phys_list 0 (Z.land shmflg 511)
                                   (i32 (default 0 pid)) 0);;
              mret id
          end
      end
  end.

(** The loop of [vmm_map] calls. *)
Definition map_pages (pml4 vaddr flags : Z) (seg : shm_segment) : M vm unit :=
  for_loop 0 (Z.to_nat (sg_page_count seg)) (λ i,
    p ← deref (λ _ : vm, sg_phys_pages seg !! Z.to_nat i);
    Vmm.vmm_map pml4 (u64 (vaddr + i * PAGE_SIZE)) p flags).

Definition sys_shmat_handler (process : option (Z * Z)) (shmid shmaddr shmflg : Z) : M state Z :=
  match process with
  | None => mret (- EINVAL)
  | Some (cr3, pid) =>
      segs ← gets (λ s : state, shm_segments s.1);
      match find_index (by_shmid shmid) segs 0 with
      | None => mret (- EINVAL)
      | Some i =>
          seg ← seg_get i;
          vaddr ← (if shmaddr =? 0 then
                     v ← gets (λ s : state, shm_next_virt s.1);
                     modify (λ s : state, (mk_shm (shm_segments s.1) (next_shmid s.1)
                                             (u64 (shm_next_virt s.1 + sg_page_count seg * PAGE_SIZE)), s.2));;
                     mret v
                   else mret shmaddr);
          let pte_flags := Z.lor Vmm.PTE_PRESENT Vmm.PTE_USER in
          let pte_flags := if has shmflg SHM_RDONLY then pte_flags else Z.lor pte_flags Vmm.PTE_WRITABLE in
          mem (map_pages cr3 vaddr pte_flags seg);;
          seg_set i (λ s, set_attach (u32 (sg_nattch s + 1)) (i32 pid) s);;
          mret vaddr
      end
  end.

(** [for (i...) pmm_free(seg->phys_pages[i]); kfree(...); seg->active = false;] *)
Definition destroy_segment (i : nat) (seg : shm_segment) : M state unit :=
  mem (free_pages (take (Z.to_nat (sg_page_count seg)) (sg_phys_pages seg)));;
  seg_set i (set_active false).

Definition sys_shmdt_handler (process : option (Z * Z)) (shmaddr : Z) : M state Z :=
  match process with
  | None => mret (- EINVAL)
  | Some (cr3, _) =>
      if (shmaddr =? 0) || negb (Z.land shmaddr (PAGE_SIZE - 1) =? 0) then mret (- EINVAL) else
      phys ← mem (Vmm.vmm_get_phys cr3 shmaddr);
      let first_phys := Z.land phys (not64 0xFFF) in
      segs ← gets (λ s : state, shm_segments s.1);
      match find_index (by_first_page first_phys) segs 0 with
      | None => mret (- EINVAL)
      | Some i =>
          seg ← seg_get i;
          mem (for_loop 0 (Z.to_nat (sg_page_count seg)) (λ j, Vmm.vmm_unmap cr3 (u64 (shmaddr + j * PAGE_SIZE))));;
          when (0 <? sg_nattch seg) do seg_set i (λ s, set_attach (sg_nattch s - 1) (sg_lpid s) s);;
          seg ← seg_get i;
          when (sg_marked_destroy seg && (sg_nattch seg =? 0)) do destroy_segment i seg;;
          mret 0
      end
  end.

(** [buf] is [None] for NULL and carries [shm_perm_mode] otherwise. *)
Definition sys_shmctl_handler (shmid cmd : Z) (buf : option Z) : M state (Z * option shmid_ds) :=
  segs ← gets (λ s : state, shm_segments s.1);
  match find_index (by_shmid shmid) segs 0 with
  | None => mret (- EINVAL, None)
  | Some i =>
      seg ← seg_get i;
      let cmd := Z.ldiff cmd IPC_64 in
      if cmd =? IPC_RMID then
        (if sg_nattch seg =? 0 then destroy_segment i seg else seg_set i (set_marked true));;
        mret (0, None)
      else if cmd =? IPC_STAT then
        match buf with
        | None => mret (- EFAULT, None)
        | Some _ => mret (0, Some (mk_ds (i32 (sg_key seg)) (sg_mode seg) (u16 (sg_shmid seg)) (sg_size seg)
                                     (sg_cpid seg) (sg_lpid seg) (sg_nattch seg)))
        end
      else if cmd =? IPC_SET then
        match buf with
        | None => mret (- EFAULT, None)
        | Some md => seg_set i (set_mode (Z.land md 511));; mret (0, None)
        end
      else mret (- EINVAL, None)
  end.

End Ops.

End Shm.
