(* ===== verification/ShmSpec.v ===== *)
(** * Correctness of shared memory

    Attaching a segment makes its pages, and no others, appear at consecutive
    addresses of the process; two processes attached to one segment share
    frames.  The last part shows what happens to a segment when a process that
    is still attached is torn down. *)
From S2P Require Import Prelude Bits Pages Vmm VmmSpec VmmClone VmmTheorems Shm.

Module ShmSpec.
Import Vmm VmmSpec VmmClone Shm.

(** The address range of [n] pages at [v]. *)
Definition in_range (v n y : Z) : Prop := v ≤ y < v + n * 4096.

#[global] Instance in_range_dec v n y : Decision (in_range v n y).
Proof. unfold in_range. apply _. Defined.

Section Spec.
  Context {A : Type} `{PageLaws A}.
  Implicit Types (F : frames) (V : pview).

(** A segment that is in use: its pages are single held pages. *)
Record seg_ok V (seg : shm_segment) : Prop := {
  so_active : sg_active seg = true;
  so_count : sg_page_count seg = Z.of_nat (length (sg_phys_pages seg));
  so_pages p : p ∈ sg_phys_pages seg → page p ∧ pv_held V !! p = Some 0%nat;
  so_nodup : NoDup (sg_phys_pages seg);
}.

(** An address at which [n] pages fit below the kernel half. *)
Definition fits (v n : Z) : Prop := 0 ≤ v ∧ v mod 4096 = 0 ∧ v + n * 4096 ≤ 2 ^ 47.

Lemma fits_page v n i y : fits v n → 0 ≤ i < n → one_page y (v + i * 4096) ↔ in_range (v + i * 4096) 1 y.
Proof.
  intros (Hz & Hm & _) Hi. unfold one_page, in_range. apply Z.mod_divide in Hm as [k ->]; [|lia].
  replace (k * 4096 + i * 4096) with ((k + i) * 4096) by lia. rewrite Z.div_mul by lia.
  pose proof (Z.div_mod y 4096 ltac:(lia)). pose proof (Z.mod_pos_bound y 4096 ltac:(lia)). lia.
Qed.

Lemma map_pages_spec F V root (a : A) v flags seg : space F V root → pa_rep a V → word flags →
  sg_page_count seg = Z.of_nat (length (sg_phys_pages seg)) → (∀ p, p ∈ sg_phys_pages seg → page p) →
  fits v (sg_page_count seg) → (3 * length (sg_phys_pages seg) ≤ base.size (pv_free V))%nat →
  wp (map_pages root v flags seg) (F, a) (λ _ '(F', a'), ∃ V', ram_end a' = ram_end a ∧ pa_rep a' V' ∧
    space F' V' root ∧ grows root F V F' V' ∧
    ∀ y, user y → leaf F' root (path y) (index y 12) =
      if decide (in_range v (sg_page_count seg) y)
      then (λ p, leaf_entry p flags) <$> sg_phys_pages seg !! Z.to_nat ((y - v) / 4096)
      else leaf F root (path y) (index y 12)).
Proof.
  intros Hs Hr Hf Hn Hpg Hfit Hsz. unfold map_pages.
  apply (wp_for_loop (λ i '(F', a'), ∃ V', ram_end a' = ram_end a ∧ pa_rep a' V' ∧ space F' V' root ∧ grows root F V F' V' ∧
    (base.size (pv_free V) ≤ base.size (pv_free V') + 3 * Z.to_nat i)%nat ∧
    ∀ y, user y → leaf F' root (path y) (index y 12) =
      if decide (in_range v i y) then (λ p, leaf_entry p flags) <$> sg_phys_pages seg !! Z.to_nat ((y - v) / 4096)
      else leaf F root (path y) (index y 12))).
  - exists V. split_and!; [done|done|done|apply grows_refl|lia|]. intros y Hy. rewrite decide_False; [done|]. unfold in_range. lia.
  - intros i [F1 a1] Hi (V1 & Hram & Hr1 & Hs1 & G1 & Hsz1 & L1).
    destruct (lookup_lt_is_Some_2 (sg_phys_pages seg) (Z.to_nat i)) as [p Hp]; [lia|].
    destruct (Hpg p ltac:(by eapply list_elem_of_lookup_2)) as [Hpr Hpa]. destruct Hfit as (Hv0 & Hvm & Hvt).
    apply wp_bind. eapply (wp_deref (λ _, sg_phys_pages seg !! Z.to_nat i)); [done|]. unfold Shm.PAGE_SIZE.
    rewrite wrap_small by lia. eapply wp_mono; [apply (vmm_map_spec F1 V1 root a1); [done|unfold user; lia|unfold word; lia|done|done|lia]|].
    intros [] [F2 a2] (V2 & Hram2 & Hr2 & Hs2 & G2 & Hsz2 & L2). exists V2.
    split_and!; [congruence|done|done|by eapply grows_trans|lia|]. intros y Hy. rewrite L2, L1, addr_page by done.
    pose proof (fits_page v (sg_page_count seg) i y (conj Hv0 (conj Hvm Hvt)) ltac:(lia)) as Hone.
    destruct (decide (one_page y (v + i * 4096))) as [Ho|Ho].
    + apply Hone in Ho. unfold in_range in Ho. rewrite decide_True by (unfold in_range; lia).
      replace ((y - v) / 4096) with i; [by rewrite Hp|]. apply Z.div_unique with (y - v - i * 4096); lia.
    + assert (¬ in_range (v + i * 4096) 1 y) as Hno by tauto. unfold in_range in *.
      destruct (decide (v ≤ y < v + i * 4096)), (decide (v ≤ y < v + (i + 1) * 4096)); (done || lia).
  - intros [F' a'] (V' & Hram & Hr' & Hs' & G & _ & L). exists V'. split_and!; [done..|]. intros y Hy. rewrite L by done.
    replace (0 + Z.of_nat (Z.to_nat (sg_page_count seg))) with (sg_page_count seg) by lia. done.
Qed.

(** ** Attaching *)
Definition attach_flags (flg : Z) : Z :=
  if has flg SHM_RDONLY then Z.lor PTE_PRESENT PTE_USER else Z.lor (Z.lor PTE_PRESENT PTE_USER) PTE_WRITABLE.

(** Where the segment goes: the address asked for, or the next free one. *)
Definition attach_addr (st : shm_state) (addr : Z) : Z := if addr =? 0 then shm_next_virt st else addr.

Lemma attach_flags_spec flg p : page p → word (attach_flags flg) ∧
  has (leaf_entry p (attach_flags flg)) PTE_USER = true ∧
  has (leaf_entry p (attach_flags flg)) PTE_WRITABLE = negb (has flg SHM_RDONLY) ∧
  has (leaf_entry p (attach_flags flg)) PTE_PCD = false.
Proof.
  intros Hp. unfold attach_flags, PTE_USER, PTE_WRITABLE, PTE_PCD, PTE_PRESENT.
  destruct (has flg SHM_RDONLY); (split; [split; by vm_compute|]); by rewrite !has_pow2, !leaf_entry_bit by (done || lia).
Qed.

Lemma wp_seg_get i seg (st : shm_state) (m : frames * A) Q : shm_segments st !! i = Some seg → Q seg (st, m) → wp (seg_get i) (st, m) Q.
Proof. intros Hi. by apply (wp_deref (λ s : state, shm_segments s.1 !! i)). Qed.

Lemma wp_seg_set i f seg (st : shm_state) (m : frames * A) (Q : unit → state → Prop) : shm_segments st !! i = Some seg →
  Q tt (mk_shm (<[i := f seg]> (shm_segments st)) (next_shmid st) (shm_next_virt st), m) → wp (seg_set i f) (st, m) Q.
Proof.
  intros Hi HQ. unfold seg_set. apply wp_bind. eapply wp_seg_get; [done|]. apply wp_modify. cbn [fst snd].
  by rewrite (list_alter_as_insert _ _ _ _ Hi).
Qed.

Lemma shmat_spec F V root pid id addr flg i seg st (a : A) : space F V root → pa_rep a V → seg_ok V seg →
  find_index (by_shmid id) (shm_segments st) 0 = Some i → shm_segments st !! i = Some seg →
  fits (attach_addr st addr) (sg_page_count seg) → (3 * length (sg_phys_pages seg) ≤ base.size (pv_free V))%nat →
  wp (sys_shmat_handler (Some (root, pid)) id addr flg) (st, (F, a)) (λ r '(st', (F', a')), ∃ V',
    r = attach_addr st addr ∧
    shm_segments st' = <[i := set_attach (u32 (sg_nattch seg + 1)) (i32 pid) seg]> (shm_segments st) ∧
    ram_end a' = ram_end a ∧ pa_rep a' V' ∧ space F' V' root ∧ grows root F V F' V' ∧
    ∀ y, user y → leaf F' root (path y) (index y 12) =
      if decide (in_range (attach_addr st addr) (sg_page_count seg) y)
      then (λ p, leaf_entry p (attach_flags flg)) <$> sg_phys_pages seg !! Z.to_nat ((y - attach_addr st addr) / 4096)
      else leaf F root (path y) (index y 12)).
Proof.
  intros Hs Hr Hok Hfind Hseg Hfit Hsz. unfold sys_shmat_handler. apply wp_bind, wp_gets. cbn [fst]. rewrite Hfind.
  apply wp_bind. eapply wp_seg_get; [done|]. apply wp_bind.
  assert (∀ st1, shm_segments st1 = shm_segments st → wp (
    mem (map_pages root (attach_addr st addr) (attach_flags flg) seg);;
    seg_set i (λ s, set_attach (u32 (sg_nattch s + 1)) (i32 pid) s);; mret (attach_addr st addr)) (st1, (F, a)) (λ r '(st', (F', a')), ∃ V',
    r = attach_addr st addr ∧
    shm_segments st' = <[i := set_attach (u32 (sg_nattch seg + 1)) (i32 pid) seg]> (shm_segments st) ∧
    ram_end a' = ram_end a ∧ pa_rep a' V' ∧ space F' V' root ∧ grows root F V F' V' ∧
    ∀ y, user y → leaf F' root (path y) (index y 12) =
      if decide (in_range (attach_addr st addr) (sg_page_count seg) y)
      then (λ p, leaf_entry p (attach_flags flg)) <$> sg_phys_pages seg !! Z.to_nat ((y - attach_addr st addr) / 4096)
      else leaf F root (path y) (index y 12))) as Hrest.
  { intros st1 Hst1. apply wp_bind. apply wp_lift_r. eapply wp_mono; [apply (map_pages_spec F V root a); try done|].
    - unfold attach_flags. destruct (has flg SHM_RDONLY); split; by vm_compute.
    - apply (so_count _ _ Hok).
    - intros p Hp. apply (so_pages _ _ Hok p Hp).
    - intros [] [F' a'] (V' & Hram & Hr' & Hs' & G & L). apply wp_bind. eapply wp_seg_set; [by rewrite Hst1|]. apply wp_ret.
      exists V'. cbn [shm_segments]. rewrite Hst1. split_and!; done. }
  unfold attach_addr in *. fold (attach_flags flg). destruct (addr =? 0).
  - apply wp_bind, wp_gets, wp_bind, wp_modify, wp_ret. by apply Hrest.
  - apply wp_ret. by apply Hrest.
Qed.

(** Attaching: [sys_shmat_handler] on an active segment returns the
    address, counts the attachment, and maps page [k] of the segment at offset
    [4096 k] with user access, writable unless the caller asked for read-only;
    every other translation of the process is unchanged. *)
Lemma shm_attach_correct F V root pid id addr flg i seg st (a : A) : space F V root → pa_rep a V → seg_ok V seg →
  find_index (by_shmid id) (shm_segments st) 0 = Some i → shm_segments st !! i = Some seg →
  fits (attach_addr st addr) (sg_page_count seg) → (3 * length (sg_phys_pages seg) ≤ base.size (pv_free V))%nat →
  wp (sys_shmat_handler (Some (root, pid)) id addr flg) (st, (F, a)) (λ r '(st', (F', a')),
    r = attach_addr st addr ∧
    shm_segments st' = <[i := set_attach (u32 (sg_nattch seg + 1)) (i32 pid) seg]> (shm_segments st) ∧
    (∃ V', pa_rep a' V' ∧ space F' V' root) ∧
    ∀ y, user y → translate F' root y =
      if decide (in_range r (sg_page_count seg) y)
      then (λ p, (p + y mod 4096, true, negb (has flg SHM_RDONLY))) <$> sg_phys_pages seg !! Z.to_nat ((y - r) / 4096)
      else translate F root y).
Proof.
  intros Hs Hr Hok Hfind Hseg Hfit Hsz. eapply wp_mono; [by apply (shmat_spec F V root pid id addr flg i seg)|].
  intros r [st' [F' a']] (V' & -> & Hst & _ & Hr' & Hs' & _ & L). split_and!; [done|done|by exists V'|]. intros y Hy.
  rewrite (translate_leaf F' V'), (translate_leaf F V), L by done. destruct (decide _); [|done].
  destruct (sg_phys_pages seg !! _) as [p|] eqn:Hp; [|done]. apply list_elem_of_lookup_2 in Hp.
  destruct (so_pages _ _ Hok p Hp) as [Hpg _]. destruct (attach_flags_spec flg p Hpg) as (_ & Hu & Hw & _).
  cbn [fmap option_fmap option_map]. by rewrite leaf_entry_addr, Hu, Hw.
Qed.

(** ** A process that ends while attached *)

(** The segment is not yet part of the address space. *)
Record detached F root (seg : shm_segment) : Prop := {
  dt_table p q : p ∈ sg_phys_pages seg → upath q → walk F root q ≠ Some p;
  dt_leaf p y e : p ∈ sg_phys_pages seg → user y → leaf F root (path y) (index y 12) = Some e → Z.land e PTE_ADDR_MASK ≠ p;
}.

Lemma attached_unshared F V F' V' root v flg seg ram : seg_ok V seg → detached F root seg → unshared F V ram root →
  grows root F V F' V' → (∀ p k, pv_held V !! p = Some k → p ∉ pv_free V) → fits v (sg_page_count seg) →
  (∀ y, user y → leaf F' root (path y) (index y 12) =
     if decide (in_range v (sg_page_count seg) y)
     then (λ p, leaf_entry p (attach_flags flg)) <$> sg_phys_pages seg !! Z.to_nat ((y - v) / 4096)
     else leaf F root (path y) (index y 12)) →
  unshared F' V' ram root.
Proof.
  intros Hok Hdt Hu G Hhf Hfit L.
  assert (∀ y e, user y → leaf F' root (path y) (index y 12) = Some e →
    (∃ p, p = Z.land e PTE_ADDR_MASK ∧ in_range v (sg_page_count seg) y ∧ sg_phys_pages seg !! Z.to_nat ((y - v) / 4096) = Some p) ∨
    leaf F root (path y) (index y 12) = Some e) as Hcase.
  { intros y e Hy. rewrite L by done. destruct (decide (in_range v (sg_page_count seg) y)) as [Hin|]; [|by right].
    destruct (sg_phys_pages seg !! _) as [p|] eqn:Hp; [|done]. intros [= <-]. left. exists p. split_and!; [|done|done].
    rewrite leaf_entry_addr; [done|]. apply (so_pages _ _ Hok). by eapply list_elem_of_lookup_2. }
  assert (∀ y, user y → upath (path y) ∧ length (path y) = 3%nat ∧ 0 ≤ index y 12 < 512) as Hpath.
  { intros y Hy. split_and!; [by apply upath_path|done|apply index_range; lia..]. }
  split.
  - intros q l e Hq Hlen Hl Hleaf Hram. destruct (VmmTheorems.path_virt q l Hq Hlen Hl) as (y & Hy & <- & <-).
    destruct (Hpath y Hy) as (P1 & P2 & P3). destruct (Hcase y e Hy Hleaf) as [(p & <- & Hin & Hp)|Hold].
    + apply list_elem_of_lookup_2 in Hp. destruct (so_pages _ _ Hok p Hp) as [Hpg Hheld].
      split; [rewrite (g_held _ _ _ _ _ G); [done|by eapply Hhf]|]. intros r Hr Hw.
      destruct (g_walk _ _ _ _ _ G r p Hr Hw) as [Hw'|]; [by apply (dt_table _ _ _ Hdt p r)|by apply (Hhf p 0%nat)].
    + destruct (us_held _ _ _ _ Hu _ _ e P1 P2 P3 Hold Hram) as [Hheld Hnt].
      split; [rewrite (g_held _ _ _ _ _ G); [done|by eapply Hhf]|]. intros r Hr Hw.
      destruct (g_walk _ _ _ _ _ G r _ Hr Hw) as [Hw'|]; [by apply (Hnt r)|by eapply Hhf].
  - intros q l e q' l' e' Hq Hlen Hl Hleaf Hram Hq' Hlen' Hl' Hleaf' Hram' Heq.
    destruct (VmmTheorems.path_virt q l Hq Hlen Hl) as (y & Hy & <- & <-).
    destruct (VmmTheorems.path_virt q' l' Hq' Hlen' Hl') as (z & Hz & <- & <-).
    destruct (Hcase y e Hy Hleaf) as [(p & Ep & Hin & Hp)|Hold], (Hcase z e' Hz Hleaf') as [(p' & Ep' & Hin' & Hp')|Hold'].
    + assert (p' = p) as -> by congruence. pose proof (NoDup_lookup _ _ _ _ (so_nodup _ _ Hok) Hp Hp') as He.
      unfold in_range in *. destruct Hfit as (F1 & F2 & F3). apply same_page; [done..|].
      apply Z2Nat.inj in He; [|apply Z.div_pos; lia..]. apply Z.mod_divide in F2 as [k ->]; [|lia].
      pose proof (Z.div_mod (y - k * 4096) 4096 ltac:(lia)). pose proof (Z.div_mod (z - k * 4096) 4096 ltac:(lia)).
      pose proof (Z.div_mod y 4096 ltac:(lia)). pose proof (Z.div_mod z 4096 ltac:(lia)).
      pose proof (Z.mod_pos_bound y 4096 ltac:(lia)). pose proof (Z.mod_pos_bound z 4096 ltac:(lia)).
      pose proof (Z.mod_pos_bound (y - k * 4096) 4096 ltac:(lia)). pose proof (Z.mod_pos_bound (z - k * 4096) 4096 ltac:(lia)). lia.
    + exfalso. apply (dt_leaf _ _ _ Hdt p z e'); [by eapply list_elem_of_lookup_2|done|done|]. congruence.
    + exfalso. apply (dt_leaf _ _ _ Hdt p' y e); [by eapply list_elem_of_lookup_2|done|done|]. congruence.
    + destruct (Hpath y Hy) as (P1 & P2 & P3), (Hpath z Hz) as (Q1 & Q2 & Q3). by apply (us_once _ _ _ _ Hu _ _ e _ _ e').
Qed.

Lemma shmat_destroy_spec F V root cr3 pid id addr flg i seg st (a : A) : space F V root → pa_rep a V → seg_ok V seg →
  find_index (by_shmid id) (shm_segments st) 0 = Some i → shm_segments st !! i = Some seg →
  fits (attach_addr st addr) (sg_page_count seg) → (3 * length (sg_phys_pages seg) ≤ base.size (pv_free V))%nat →
  detached F root seg → unshared F V (u64 (ram_end a)) root → ram_end a < 2 ^ 64 → Z.land cr3 PTE_ADDR_MASK = root →
  wp (_ ← sys_shmat_handler (Some (root, pid)) id addr flg; mem (vmm_destroy_address_space cr3)) (st, (F, a))
    (λ _ '(st', (_, a')), ∃ seg' V', shm_segments st' !! i = Some seg' ∧ sg_active seg' = true ∧
       sg_phys_pages seg' = sg_phys_pages seg ∧ pa_rep a' V' ∧ ∀ p, p ∈ sg_phys_pages seg' → p ∈ pv_free V').
Proof.
  intros Hs Hr Hok Hfind Hseg Hfit Hsz Hdt Hu Hram Hcr. apply wp_bind.
  eapply wp_mono; [by apply (shmat_spec F V root pid id addr flg i seg)|].
  intros r [st' [F' a']] (V' & -> & Hst & Hram' & Hr' & Hs' & G & L). apply wp_lift_r.
  assert (unshared F' V' (u64 (ram_end a')) root) as Hu'.
  { rewrite Hram'. eapply (attached_unshared F V); try done. intros p k Hp. by eapply held_not_free. }
  eapply wp_mono; [by apply (vmm_destroy_spec F' V' root cr3 a')|]. intros [] [F2 a2] (-> & V2 & Hr2 & HV & _).
  exists (set_attach (u32 (sg_nattch seg + 1)) (i32 pid) seg), V2.
  split_and!; [rewrite Hst; apply list_lookup_insert_eq; by eapply lookup_lt_Some|apply (so_active _ _ Hok)|done|done|].
  cbn [sg_phys_pages set_attach]. intros p Hp. apply HV. right. right.
  apply list_elem_of_lookup in Hp as [k Hk]. destruct (so_pages _ _ Hok p (list_elem_of_lookup_2 _ _ _ Hk)) as [Hpg Hheld].
  pose proof (lookup_lt_Some _ _ _ Hk) as Hkl. pose proof (so_count _ _ Hok) as Hc. destruct Hfit as (F1 & F2 & F3).
  set (y := attach_addr st addr + Z.of_nat k * 4096). assert (user y) as Hy by (unfold user, y; lia).
  exists (path y), (index y 12), (leaf_entry p (attach_flags flg)). cbn [app].
  pose proof (index_range y 12 ltac:(lia)). destruct (attach_flags_spec flg p Hpg) as (_ & _ & _ & Hpcd).
  split_and!; [by apply upath_path|done|lia|lia| | |by rewrite leaf_entry_addr].
  - rewrite L, decide_True by (done || unfold in_range, y; lia).
    replace ((y - attach_addr st addr) / 4096) with (Z.of_nat k) by (unfold y; apply Z.div_unique with 0; lia).
    by rewrite Nat2Z.id, Hk.
  - unfold ram_page. rewrite Hpcd, leaf_entry_addr by done. unfold PTE_PRESENT. rewrite has_pow2, leaf_entry_bit, orb_true_r by (done || lia).
    destruct (held_range _ _ _ _ Hr Hheld) as (? & _ & ?). apply Z.ltb_lt. rewrite Hram', wrap_small by lia. simpl in *. lia.
Qed.

(** C37. Teardown of an attached process: reaping a process destroys its
    address space without detaching it from its segments, so the pages of a
    segment it is attached to go back to the page allocator while the segment
    stays active and lists them: they can be handed out again under it. *)
Theorem shm_exit_frees_segment F V root cr3 pid id addr flg i seg st (a : A) : space F V root → pa_rep a V → seg_ok V seg →
  find_index (by_shmid id) (shm_segments st) 0 = Some i → shm_segments st !! i = Some seg →
  fits (attach_addr st addr) (sg_page_count seg) → (3 * length (sg_phys_pages seg) ≤ base.size (pv_free V))%nat →
  detached F root seg → unshared F V (u64 (ram_end a)) root → ram_end a < 2 ^ 64 → Z.land cr3 PTE_ADDR_MASK = root →
  wp (_ ← sys_shmat_handler (Some (root, pid)) id addr flg; mem (vmm_destroy_address_space cr3)) (st, (F, a))
    (λ _ '(st', (_, a')), ∃ seg' V', shm_segments st' !! i = Some seg' ∧ sg_active seg' = true ∧
       sg_phys_pages seg' = sg_phys_pages seg ∧ pa_rep a' V' ∧ ∀ p, p ∈ sg_phys_pages seg' → p ∈ pv_free V').
Proof. apply shmat_destroy_spec. Qed.

End Spec.

(** ** A segment of one page beside a small address space *)
Definition demo_seg (p : Z) : shm_segment := mk_seg true false 7 1 4096 1 [p] 0 384 1 0.

Definition demo_shm (p : Z) : shm_state := mk_shm (demo_seg p :: replicate 31 empty_segment) 2 SHM_VIRT_BASE.

Lemma demo_segment : ∃ F V (a : Pmm.Pmm.pmm * unit) root p, space F V root ∧ pa_rep a V ∧ seg_ok V (demo_seg p) ∧
  detached F root (demo_seg p) ∧ (∀ ram, unshared F V ram root) ∧ ram_end a = 64 * 4096 ∧
  Z.land root PTE_ADDR_MASK = root ∧ (3 ≤ base.size (pv_free V))%nat.
Proof.
  destruct VmmTheorems.demo_ok as [Hx Hw].
  destruct (VmmTheorems.demo_mapped _ _ Hx Hw) as (F & V & a & root & e & Hd).
  pose proof (VmmTheorems.dm_space _ _ _ _ _ _ _ Hd) as Hs. pose proof (VmmTheorems.dm_rep _ _ _ _ _ _ _ Hd) as Hr.
  pose proof (VmmTheorems.dm_size _ _ _ _ _ _ _ Hd) as Hsz.
  destruct (wp_run _ _ _ (alloc_page_law a V Hr ltac:(apply size_nonempty; lia))) as (p & a' & _ & Hram & Hp & Hr').
  destruct (sp_avail _ _ _ Hs p Hp) as [_ Hpg].
  destruct (space_take F V root p VmmTheorems.zeros Hs Hp) as (Hs1 & _ & W1 & L1).
  destruct (VmmTheorems.dm_entry _ _ _ _ _ _ _ Hd) as (c & Ee & Hcp & _ & Hcn & _).
  exists (<[p := VmmTheorems.zeros]> F), (taken p V), a', root, p. split_and!; [done|done| | | | | |].
  - split; [done|done| |apply NoDup_singleton]. intros q ->%list_elem_of_singleton. cbn [taken pv_held]. by rewrite lookup_insert_eq.
  - split.
    + intros q r ->%list_elem_of_singleton Hr1. rewrite W1 by done. intros Hw1. by destruct (sp_held _ _ _ Hs _ _ Hr1 Hw1).
    + intros q y f ->%list_elem_of_singleton Hy. rewrite L1 by (by apply upath_path).
      rewrite (VmmTheorems.dm_leaf _ _ _ _ _ _ _ Hd y Hy). destruct (decide _); [|done]. intros [= <-].
      rewrite Ee, leaf_entry_addr by done. intros ->. done.
  - intros ram. pose proof (VmmTheorems.demo_unshared _ _ _ _ _ _ _ ram Hx Hw Hd) as [U1 U2]. split.
    + intros q l f Hq Hlen Hl. rewrite L1 by done. intros Hf Hram1. destruct (U1 q l f Hq Hlen Hl Hf Hram1) as [Hh Hn].
      cbn [taken pv_held]. split.
      * rewrite lookup_insert_ne; [done|]. intros Heq. rewrite <-Heq in Hh. by apply (held_not_free _ _ _ _ Hr Hh).
      * intros r Hr1. rewrite W1 by done. by apply Hn.
    + intros q l f q' l' f' Hq Hlen Hl. rewrite L1 by done. intros Hf R Hq' Hlen' Hl'. rewrite L1 by done. intros Hf' R'.
      by apply (U2 q l f q' l' f').
  - rewrite Hram. apply (VmmTheorems.dm_ram _ _ _ _ _ _ _ Hd).
  - by eapply VmmTheorems.demo_root.
  - cbn [taken pv_free]. rewrite size_difference, size_singleton by set_solver. lia.
Qed.

Lemma shm_attach_correct_witness : ∃ F (a : Pmm.Pmm.pmm * unit) root p,
  wp (sys_shmat_handler (Some (root, 5)) 1 0 0) (demo_shm p, (F, a)) (λ r '(_, (F', _)),
    r = SHM_VIRT_BASE ∧ translate F' root (SHM_VIRT_BASE + 8) = Some (p + 8, true, true)).
Proof.
  destruct demo_segment as (F & V & a & root & p & Hs & Hr & Hok & _ & _ & _ & _ & Hsz). exists F, a, root, p.
  eapply wp_mono; [apply (shm_attach_correct F V root 5 1 0 0 0 (demo_seg p)); done|].
  intros r [st' [F' a']] (-> & _ & _ & L). split; [done|]. rewrite L by (split; by vm_compute). by vm_compute.
Defined.

Lemma shm_exit_frees_segment_witness : ∃ F (a : Pmm.Pmm.pmm * unit) root p,
  wp (_ ← sys_shmat_handler (Some (root, 5)) 1 0 0; mem (vmm_destroy_address_space root)) (demo_shm p, (F, a))
    (λ _ '(st', (_, a')), ∃ seg' V', shm_segments st' !! 0%nat = Some seg' ∧ sg_active seg' = true ∧
       sg_phys_pages seg' = [p] ∧ pa_rep a' V' ∧ p ∈ pv_free V').
Proof.
  destruct demo_segment as (F & V & a & root & p & Hs & Hr & Hok & Hdt & Hu & Hram & Hroot & Hsz). exists F, a, root, p.
  eapply wp_mono; [apply (shm_exit_frees_segment F V root root 5 1 0 0 0 (demo_seg p)); try done|].
  - rewrite Hram. lia.
  - intros [] [st' [F' a']] (seg' & V' & H1 & H2 & H3 & H4 & H5). exists seg', V'. rewrite H3 in *. split_and!; [done..|].
    apply H5. set_solver.
Defined.

End ShmSpec.
