(* ===== verification/Sched.v ===== *)
(** * The scheduler ([proc/sched.c])

    Tasks are records in a heap indexed by address; NULL is [None].  The run
    queues are doubly linked lists with head and tail arrays and a bitmap of
    the non-empty ones; sleeping tasks are on a list ordered by deadline; the
    tasks waiting for I/O are in an array.  The processor state that a task
    switch touches (CR3, the TSS stack, the FS base, the FPU image) is part of
    the state. *)
From S2P Require Import Prelude Links.

Module Sched.

Inductive task_state := RUNNABLE | SLEEPING | BLOCKED | ZOMBIE.

#[global] Instance task_state_eq_dec : EqDecision task_state.
Proof. solve_decision. Defined.

Definition NUM_PRIORITIES : nat := 32.
Definition PRIO_INTERACTIVE : nat := 8.
Definition PRIO_NORMAL : nat := 16.
Definition MAX_IO_WAITERS : nat := 64.

Record task := mk_task {
  t_rsp : Z;
  t_kstack_at_bottom : Z;
  t_state : task_state;
  t_running : bool;
  t_priority : nat;
  t_time_slice : Z;
  t_sleep_until : Z;
  t_fs_base : Z;
  t_sleep_next : option Z;
  t_process_cr3 : option Z; (* [process->cr3], [None] when [process] is NULL *)
  t_fpu : Z;
  t_sched_next : option Z;
  t_sched_prev : option Z;
}.

Record cpu := mk_cpu { c_cr3 : Z; c_tss_stack : Z; c_fs_base : Z; c_fpu : Z }.

Record sched := mk_sched {
  tasks : gmap Z task;
  run_queues : list (option Z);
  run_queues_tail : list (option Z);
  active_priority_bitmap : Z;
  sleep_queue_head : option Z;
  io_waiters : list Z; (* the first [io_waiter_count] entries of the array *)
  current_task : option Z;
  idle_task : option Z;
  kernel_cr3 : Z;
  hw : cpu;
}.

Definition set_state v t := mk_task (t_rsp t) (t_kstack_at_bottom t) v (t_running t) (t_priority t)
  (t_time_slice t) (t_sleep_until t) (t_fs_base t) (t_sleep_next t) (t_process_cr3 t) (t_fpu t) (t_sched_next t) (t_sched_prev t).
Definition set_running v t := mk_task (t_rsp t) (t_kstack_at_bottom t) (t_state t) v (t_priority t)
  (t_time_slice t) (t_sleep_until t) (t_fs_base t) (t_sleep_next t) (t_process_cr3 t) (t_fpu t) (t_sched_next t) (t_sched_prev t).
Definition set_priority v t := mk_task (t_rsp t) (t_kstack_at_bottom t) (t_state t) (t_running t) v
  (t_time_slice t) (t_sleep_until t) (t_fs_base t) (t_sleep_next t) (t_process_cr3 t) (t_fpu t) (t_sched_next t) (t_sched_prev t).
Definition set_time_slice v t := mk_task (t_rsp t) (t_kstack_at_bottom t) (t_state t) (t_running t) (t_priority t)
  v (t_sleep_until t) (t_fs_base t) (t_sleep_next t) (t_process_cr3 t) (t_fpu t) (t_sched_next t) (t_sched_prev t).
Definition set_sleep_until v t := mk_task (t_rsp t) (t_kstack_at_bottom t) (t_state t) (t_running t) (t_priority t)
  (t_time_slice t) v (t_fs_base t) (t_sleep_next t) (t_process_cr3 t) (t_fpu t) (t_sched_next t) (t_sched_prev t).
Definition set_sleep_next v t := mk_task (t_rsp t) (t_kstack_at_bottom t) (t_state t) (t_running t) (t_priority t)
  (t_time_slice t) (t_sleep_until t) (t_fs_base t) v (t_process_cr3 t) (t_fpu t) (t_sched_next t) (t_sched_prev t).
Definition set_rsp v t := mk_task v (t_kstack_at_bottom t) (t_state t) (t_running t) (t_priority t)
  (t_time_slice t) (t_sleep_until t) (t_fs_base t) (t_sleep_next t) (t_process_cr3 t) (t_fpu t) (t_sched_next t) (t_sched_prev t).
Definition set_fpu v t := mk_task (t_rsp t) (t_kstack_at_bottom t) (t_state t) (t_running t) (t_priority t)
  (t_time_slice t) (t_sleep_until t) (t_fs_base t) (t_sleep_next t) (t_process_cr3 t) v (t_sched_next t) (t_sched_prev t).
Definition set_sched_next v t := mk_task (t_rsp t) (t_kstack_at_bottom t) (t_state t) (t_running t) (t_priority t)
  (t_time_slice t) (t_sleep_until t) (t_fs_base t) (t_sleep_next t) (t_process_cr3 t) (t_fpu t) v (t_sched_prev t).
Definition set_sched_prev v t := mk_task (t_rsp t) (t_kstack_at_bottom t) (t_state t) (t_running t) (t_priority t)
  (t_time_slice t) (t_sleep_until t) (t_fs_base t) (t_sleep_next t) (t_process_cr3 t) (t_fpu t) (t_sched_next t) v.

#[global] Instance task_linked : Linked task :=
  {| lnext := t_sched_next; lprev := t_sched_prev; set_lnext := set_sched_next; set_lprev := set_sched_prev |}.

#[global] Instance task_linked_laws : LinkedLaws task.
Proof. by split. Qed.

Definition with_tasks f s := mk_sched (f (tasks s)) (run_queues s) (run_queues_tail s)
  (active_priority_bitmap s) (sleep_queue_head s) (io_waiters s) (current_task s) (idle_task s) (kernel_cr3 s) (hw s).
Definition with_rq f s := mk_sched (tasks s) (f (run_queues s)) (run_queues_tail s)
  (active_priority_bitmap s) (sleep_queue_head s) (io_waiters s) (current_task s) (idle_task s) (kernel_cr3 s) (hw s).
Definition with_rqt f s := mk_sched (tasks s) (run_queues s) (f (run_queues_tail s))
  (active_priority_bitmap s) (sleep_queue_head s) (io_waiters s) (current_task s) (idle_task s) (kernel_cr3 s) (hw s).
Definition with_bitmap f s := mk_sched (tasks s) (run_queues s) (run_queues_tail s)
  (f (active_priority_bitmap s)) (sleep_queue_head s) (io_waiters s) (current_task s) (idle_task s) (kernel_cr3 s) (hw s).
Definition with_sleep v s := mk_sched (tasks s) (run_queues s) (run_queues_tail s)
  (active_priority_bitmap s) v (io_waiters s) (current_task s) (idle_task s) (kernel_cr3 s) (hw s).
Definition with_io f s := mk_sched (tasks s) (run_queues s) (run_queues_tail s)
  (active_priority_bitmap s) (sleep_queue_head s) (f (io_waiters s)) (current_task s) (idle_task s) (kernel_cr3 s) (hw s).
Definition with_current v s := mk_sched (tasks s) (run_queues s) (run_queues_tail s)
  (active_priority_bitmap s) (sleep_queue_head s) (io_waiters s) v (idle_task s) (kernel_cr3 s) (hw s).
Definition with_kernel_cr3 v s := mk_sched (tasks s) (run_queues s) (run_queues_tail s)
  (active_priority_bitmap s) (sleep_queue_head s) (io_waiters s) (current_task s) (idle_task s) v (hw s).
Definition with_hw f s := mk_sched (tasks s) (run_queues s) (run_queues_tail s)
  (active_priority_bitmap s) (sleep_queue_head s) (io_waiters s) (current_task s) (idle_task s) (kernel_cr3 s) (f (hw s)).

(** [task->field] accesses. *)
Definition load (t : Z) : M sched task := deref (λ s, tasks s !! t).

Definition store (t : Z) (f : task → task) : M sched unit := _ ← load t; modify (with_tasks (alter f t)).

Definition rq_head (p : nat) : M sched (option Z) := deref (λ s, run_queues s !! p).
Definition rq_tail (p : nat) : M sched (option Z) := deref (λ s, run_queues_tail s !! p).
Definition set_rq_head (p : nat) v : M sched unit := _ ← rq_head p; modify (with_rq (<[p := v]>)).
Definition set_rq_tail (p : nat) v : M sched unit := _ ← rq_tail p; modify (with_rqt (<[p := v]>)).

(** The queue a task belongs to. *)
Definition eff_prio (t : task) : nat :=
  if (NUM_PRIORITIES <=? t_priority t)%nat then PRIO_NORMAL else t_priority t.

Definition sched_enqueue (arg : option Z) : M sched unit :=
  match arg with
  | None => mret tt
  | Some task =>
      t ← load task;
      let prio := eff_prio t in
      h ← rq_head prio;
      if bool_decide (t_sched_next t ≠ None) || bool_decide (t_sched_prev t ≠ None)
         || bool_decide (h = Some task) then mret tt else
      store task (set_state RUNNABLE);;
      store task (set_running true);;
      store task (set_sched_next None);;
      tl ← rq_tail prio;
      store task (set_sched_prev tl);;
      (match tl with
       | Some l => store l (set_sched_next (Some task))
       | None => set_rq_head prio (Some task)
       end);;
      set_rq_tail prio (Some task);;
      modify (with_bitmap (λ b, Z.lor b (Z.shiftl 1 (Z.of_nat prio))))
  end.

(** The body of [sched_dequeue] once the guard has passed. *)
Definition dequeue_links (task : Z) (prio : nat) : M sched unit :=
  t ← load task;
  (match t_sched_prev t with
   | Some q => store q (set_sched_next (t_sched_next t))
   | None => set_rq_head prio (t_sched_next t)
   end);;
  t' ← load task;
  (match t_sched_next t' with
   | Some q => store q (set_sched_prev (t_sched_prev t'))
   | None => set_rq_tail prio (t_sched_prev t')
   end);;
  store task (set_sched_next None);;
  store task (set_sched_prev None);;
  h ← rq_head prio;
  when (bool_decide (h = None)) do
    modify (with_bitmap (λ b, Z.ldiff b (Z.shiftl 1 (Z.of_nat prio)))).

Definition sched_dequeue (arg : option Z) : M sched unit :=
  match arg with
  | None => mret tt
  | Some task =>
      t ← load task;
      let prio := eff_prio t in
      h ← rq_head prio;
      if bool_decide (t_sched_prev t = None) && bool_decide (t_sched_next t = None)
         && bool_decide (h ≠ Some task) then mret tt else
      dequeue_links task prio
  end.

Definition sched_block (arg : option Z) : M sched unit :=
  match arg with
  | None => mret tt
  | Some task =>
      sched_dequeue arg;;
      store task (set_state BLOCKED);;
      store task (set_running false)
  end.

Definition sched_unblock (arg : option Z) : M sched unit :=
  match arg with None => mret tt | Some _ => sched_enqueue arg end.

(** [while (curr->sleep_next && curr->sleep_next->sleep_until <= sleep_until)],
    at most [n] rounds. *)
Fixpoint sleep_position (n : nat) (curr sleep_until : Z) : M sched Z :=
  match n with
  | O => λ _, Wait
  | S n' =>
      c ← load curr;
      match t_sleep_next c with
      | None => mret curr
      | Some nx =>
          x ← load nx;
          if t_sleep_until x <=? sleep_until then sleep_position n' nx sleep_until else mret curr
      end
  end.

(** The number of tasks bounds every walk over a list of tasks. *)
Definition task_count : M sched nat := gets (λ s, size (tasks s)).

Definition sched_make_sleep (arg : option Z) (sleep_until : Z) : M sched unit :=
  match arg with
  | None => mret tt
  | Some task =>
      store task (set_state SLEEPING);;
      store task (set_running false);;
      store task (set_sleep_until sleep_until);;
      store task (set_sleep_next None);;
      head ← gets sleep_queue_head;
      match head with
      | None =>
          store task (set_sleep_next None);;
          modify (with_sleep (Some task))
      | Some h =>
          x ← load h;
          if sleep_until <? t_sleep_until x then
            store task (set_sleep_next (Some h));;
            modify (with_sleep (Some task))
          else
            n ← task_count;
            curr ← sleep_position n h sleep_until;
            c ← load curr;
            store task (set_sleep_next (t_sleep_next c));;
            store curr (set_sleep_next (Some task))
      end
  end.

(** A [task_t **]: the list head variable, or the link field of a task. *)
Inductive link := LHead | LNext (t : Z).

Definition read_link (l : link) : M sched (option Z) :=
  match l with
  | LHead => gets sleep_queue_head
  | LNext t => x ← load t; mret (t_sleep_next x)
  end.

Definition write_link (l : link) (v : option Z) : M sched unit :=
  match l with
  | LHead => modify (with_sleep v)
  | LNext t => store t (set_sleep_next v)
  end.

(** [while ( *link && *link != task) link = &( *link)->sleep_next]. *)
Fixpoint find_link (n : nat) (l : link) (task : Z) : M sched link :=
  match n with
  | O => λ _, Wait
  | S n' =>
      v ← read_link l;
      match v with
      | None => mret l
      | Some x => if bool_decide (x = task) then mret l else find_link n' (LNext x) task
      end
  end.

(** Take [task] off the sleep list if it is on it. *)
Definition sleep_unlink (task : Z) : M sched unit :=
  n ← task_count;
  l ← find_link (S n) LHead task;
  v ← read_link l;
  match v with
  | None => mret tt
  | Some _ => t ← load task; write_link l (t_sleep_next t)
  end.

(** The common end of [sched_wake] and of a round of [sched_timer_tick]. *)
Definition wake_up (task : Z) : M sched unit :=
  store task (set_sleep_next None);;
  store task (set_sleep_until 0);;
  sched_enqueue (Some task).

Definition sched_wake (arg : option Z) : M sched unit :=
  match arg with
  | None => mret tt
  | Some task =>
      t ← load task;
      if bool_decide (t_state t ≠ SLEEPING) then mret tt else
      sleep_unlink task;;
      wake_up task
  end.

(** [io_waiters[i] = io_waiters[--io_waiter_count]] for the first [i] holding [task]. *)
Fixpoint swap_remove (i : nat) (task : Z) (todo l : list Z) : list Z :=
  match todo with
  | [] => l
  | x :: todo' =>
      if bool_decide (x = task)
      then take (length l - 1) (<[i := default task (last l)]> l)
      else swap_remove (S i) task todo' l
  end.

Definition sched_forget (arg : option Z) : M sched unit :=
  match arg with
  | None => mret tt
  | Some task =>
      sched_dequeue arg;;
      sleep_unlink task;;
      store task (set_sleep_next None);;
      modify (with_io (λ l, swap_remove 0 task l l))
  end.

Definition io_wait_prepare : M sched unit :=
  c ← gets current_task;
  match c with
  | None => mret tt
  | Some task =>
      modify (with_io (λ l,
        if bool_decide (task ∈ l) then l
        else if (length l <? MAX_IO_WAITERS)%nat then l ++ [task] else l))
  end.

Definition io_wait_done : M sched unit :=
  c ← gets current_task;
  match c with
  | None => mret tt
  | Some task => modify (with_io (λ l, swap_remove 0 task l l))
  end.

Fixpoint wake_each (ts : list Z) : M sched unit :=
  match ts with
  | [] => mret tt
  | t :: ts' => sched_wake (Some t);; wake_each ts'
  end.

Definition io_wake_all : M sched unit :=
  l ← gets io_waiters;
  wake_each l;;
  modify (with_io (λ _, [])).

(** One round of the loop pops one task, so the task count bounds the rounds. *)
Fixpoint timer_loop (n : nat) (current_tick : Z) : M sched unit :=
  match n with
  | O => λ _, Wait
  | S n' =>
      head ← gets sleep_queue_head;
      match head with
      | None => mret tt
      | Some task =>
          t ← load task;
          if t_sleep_until t <=? current_tick then
            modify (with_sleep (t_sleep_next t));;
            wake_up task;;
            timer_loop n' current_tick
          else mret tt
      end
  end.

Definition sched_timer_tick (current_tick : Z) : M sched unit :=
  n ← task_count; timer_loop (S n) current_tick.

(** [__builtin_ctz]: index of the lowest set bit, [n] bits from [i] on. *)
Fixpoint ctz_from (i n : nat) (b : Z) : nat :=
  match n with
  | O => i
  | S n' => if Z.testbit b (Z.of_nat i) then i else ctz_from (S i) n' b
  end.

Definition builtin_ctz (b : Z) : nat := ctz_from 0 32 b.

(** The state of the processor is moved from [prev] to [next]. *)
Definition restore_hardware (prev next : Z) : M sched unit :=
  s ← get;
  store prev (set_fpu (c_fpu (hw s)));;
  nt ← load next;
  modify (with_hw (λ c, mk_cpu (c_cr3 c) (c_tss_stack c) (c_fs_base c) (t_fpu nt)));;
  let new_cr3 := match t_process_cr3 nt with
                 | Some c => if c =? 0 then kernel_cr3 s else c
                 | None => kernel_cr3 s
                 end in
  modify (with_hw (λ c, mk_cpu (if c_cr3 c =? new_cr3 then c_cr3 c else new_cr3)
                          (c_tss_stack c) (c_fs_base c) (c_fpu c)));;
  modify (with_hw (λ c, mk_cpu (c_cr3 c) (t_kstack_at_bottom nt) (c_fs_base c) (c_fpu c)));;
  when (negb (t_fs_base nt =? 0)) do
    modify (with_hw (λ c, mk_cpu (c_cr3 c) (c_tss_stack c) (t_fs_base nt) (c_fpu c))).

(** The first half of the switch: the running task leaves its queue and, when
    it is still runnable, goes to the tail. *)
Definition requeue (c : Z) : M sched unit :=
  idle ← gets idle_task;
  if bool_decide (Some c ≠ idle) then
    sched_dequeue (Some c);;
    t ← load c;
    when (bool_decide (t_state t = RUNNABLE)) do sched_enqueue (Some c)
  else mret tt.

Definition sched_switch (current_rsp : Z) : M sched Z :=
  cur ← gets current_task;
  match cur with
  | None => mret current_rsp
  | Some prev_task =>
      store prev_task (set_rsp current_rsp);;
      requeue prev_task;;
      idle ← gets idle_task;
      bitmap ← gets active_priority_bitmap;
      chosen ← (if bitmap =? 0 then mret idle
                else rq_head (builtin_ctz bitmap));
      if (bitmap =? 0) && bool_decide (idle = None) then mret current_rsp else
      modify (with_current chosen);;
      match chosen with
      | None => mret current_rsp
      | Some next =>
          (if bool_decide (next = prev_task) then mret tt else restore_hardware prev_task next);;
          nt ← load next;
          mret (t_rsp nt)
      end
  end.

Definition schedule (current_rsp : Z) : M sched Z := sched_switch current_rsp.

Definition sched_init (initial_task : Z) : M sched unit :=
  s ← get;
  modify (with_kernel_cr3 (c_cr3 (hw s)));;
  store initial_task (set_state RUNNABLE);;
  store initial_task (set_running true);;
  store initial_task (set_priority PRIO_INTERACTIVE);;
  store initial_task (set_time_slice 10);;
  store initial_task (set_sched_next None);;
  store initial_task (set_sched_prev None);;
  modify (with_current (Some initial_task));;
  sched_enqueue (Some initial_task).

End Sched.
