(* ===== verification/SchedSpec.v ===== *)
(** * Correctness of the scheduler

    The linked run queues, their head and tail arrays and the bitmap refine a
    function from priorities to lists of tasks ([queues]); the sleep list
    refines a list ordered by deadline ([asleep]).  [bare] is what is left of
    the task heap once the run-queue links are erased: the operations on run
    queues change nothing else of it than they say. *)
From stdpp Require Import sorting.
From S2P Require Import Prelude Links Sched.

Module SchedSpec.
Import Sched.

Implicit Types (s : sched) (Q : nat → list Z) (t : task) (x y : Z) (p : nat).

(** ** The abstract view *)

Definition strip (t : task) : task := set_sched_prev None (set_sched_next None t).

Definition bare (s : sched) : gmap Z task := strip <$> tasks s.

(** Everything outside the task heap and the run queues. *)
Definition rest (s : sched) :=
  (sleep_queue_head s, io_waiters s, current_task s, idle_task s, kernel_cr3 s, hw s).

Definition upd (Q : nat → list Z) (p : nat) (l : list Z) : nat → list Z :=
  λ q, if decide (q = p) then l else Q q.

Record queues (s : sched) (Q : nat → list Z) : Prop := {
  q_len : length (run_queues s) = NUM_PRIORITIES;
  q_len_tail : length (run_queues_tail s) = NUM_PRIORITIES;
  q_head p : (p < NUM_PRIORITIES)%nat → run_queues s !! p = Some (head (Q p));
  q_tail p : (p < NUM_PRIORITIES)%nat → run_queues_tail s !! p = Some (last (Q p));
  q_list p : (p < NUM_PRIORITIES)%nat → dlist (tasks s) (Q p);
  q_prio p x : (p < NUM_PRIORITIES)%nat → x ∈ Q p → eff_prio <$> tasks s !! x = Some p;
  q_off x t : tasks s !! x = Some t → x ∉ Q (eff_prio t) → t_sched_next t = None ∧ t_sched_prev t = None;
  q_bits i : 0 ≤ i → Z.testbit (active_priority_bitmap s) i = true ↔
               i < Z.of_nat NUM_PRIORITIES ∧ Q (Z.to_nat i) ≠ [];
  q_bits_pos : 0 ≤ active_priority_bitmap s;
}.

(** ** Accesses *)

Lemma wp_sload x t s (R : task → sched → Prop) : tasks s !! x = Some t → R t s → wp (load x) s R.
Proof. apply (wp_deref (λ s, tasks s !! x)). Qed.

Lemma wp_sstore x f t s (R : unit → sched → Prop) :
  tasks s !! x = Some t → R tt (with_tasks (alter f x) s) → wp (store x f) s R.
Proof. intros Hx HR. unfold store. apply wp_bind. eapply wp_sload; [done|]. by apply wp_modify. Qed.

Lemma wp_rq_head p v s (R : option Z → sched → Prop) :
  run_queues s !! p = Some v → R v s → wp (rq_head p) s R.
Proof. apply (wp_deref (λ s, run_queues s !! p)). Qed.

Lemma wp_rq_tail p v s (R : option Z → sched → Prop) :
  run_queues_tail s !! p = Some v → R v s → wp (rq_tail p) s R.
Proof. apply (wp_deref (λ s, run_queues_tail s !! p)). Qed.

Lemma wp_set_rq_head p v w s (R : unit → sched → Prop) :
  run_queues s !! p = Some v → R tt (with_rq (<[p := w]>) s) → wp (set_rq_head p w) s R.
Proof. intros Hx HR. unfold set_rq_head. apply wp_bind. eapply wp_rq_head; [done|]. by apply wp_modify. Qed.

Lemma wp_set_rq_tail p v w s (R : unit → sched → Prop) :
  run_queues_tail s !! p = Some v → R tt (with_rqt (<[p := w]>) s) → wp (set_rq_tail p w) s R.
Proof. intros Hx HR. unfold set_rq_tail. apply wp_bind. eapply wp_rq_tail; [done|]. by apply wp_modify. Qed.

Lemma eff_prio_lt t : (eff_prio t < NUM_PRIORITIES)%nat.
Proof. unfold eff_prio. destruct (Nat.leb_spec NUM_PRIORITIES (t_priority t)); unfold NUM_PRIORITIES, PRIO_NORMAL in *; lia. Qed.
#[local] Hint Resolve eff_prio_lt : core.

Lemma upd_eq Q p l : upd Q p l p = l.
Proof. unfold upd. by rewrite decide_True. Qed.

Lemma upd_ne Q p q l : q ≠ p → upd Q p l q = Q q.
Proof. intros. unfold upd. by rewrite decide_False. Qed.

(** Queues of different priorities are disjoint. *)
Lemma queues_disjoint s Q p q x : queues s Q → (p < NUM_PRIORITIES)%nat → (q < NUM_PRIORITIES)%nat →
  x ∈ Q p → x ∈ Q q → p = q.
Proof. intros HQ Hp Hq Hx Hy. pose proof (q_prio _ _ HQ p x Hp Hx). pose proof (q_prio _ _ HQ q x Hq Hy). congruence. Qed.

Lemma queued_prio s Q p x t : queues s Q → (p < NUM_PRIORITIES)%nat →
  tasks s !! x = Some t → x ∈ Q p → p = eff_prio t.
Proof. intros HQ Hp Ht Hx. pose proof (q_prio _ _ HQ p x Hp Hx) as H. rewrite Ht in H. by injection H. Qed.

(** Where the guard of [sched_enqueue] and [sched_dequeue] finds the task. *)
Definition linked_guard (s : sched) (x : Z) (t : task) : bool :=
  bool_decide (t_sched_next t ≠ None) || bool_decide (t_sched_prev t ≠ None)
    || bool_decide (run_queues s !! eff_prio t = Some (Some x)).

Lemma linked_guard_spec s Q x t : queues s Q → tasks s !! x = Some t →
  linked_guard s x t = bool_decide (x ∈ Q (eff_prio t)).
Proof.
  intros HQ Ht. unfold linked_guard. rewrite (q_head _ _ HQ) by done.
  destruct (decide (x ∈ Q (eff_prio t))) as [Hin|Hout].
  - rewrite (bool_decide_true (x ∈ _)) by done.
    pose proof (q_list _ _ HQ (eff_prio t) ltac:(done)) as Hd.
    apply list_elem_of_split in Hin as (l1 & l2 & E). rewrite E in Hd |- *.
    destruct (dlist_lookup _ _ _ _ Hd) as (t' & Ht' & Hp & Hn). rewrite Ht in Ht'. injection Ht' as <-.
    simpl in Hp, Hn. rewrite Hp, Hn. destruct l1 as [|y l1 _] using rev_ind; simpl.
    + rewrite (bool_decide_true (Some (Some x) = _)) by done. apply orb_true_r.
    + rewrite last_snoc. rewrite (bool_decide_true (Some y ≠ None)) by done. by rewrite orb_true_r.
  - rewrite (bool_decide_false (x ∈ _)) by done.
    destruct (q_off _ _ HQ x t Ht Hout) as [-> ->]. simpl.
    apply bool_decide_eq_false. intros [= H]. apply Hout. by apply head_Some_elem_of.
Qed.

(** ** Enqueue *)

Definition awake (t : task) : task := set_running true (set_state RUNNABLE t).

Lemma bits_set s Q p l : queues s Q → (p < NUM_PRIORITIES)%nat → l ≠ [] → ∀ i, 0 ≤ i →
  Z.testbit (Z.lor (active_priority_bitmap s) (Z.shiftl 1 (Z.of_nat p))) i = true ↔
    i < Z.of_nat NUM_PRIORITIES ∧ upd Q p l (Z.to_nat i) ≠ [].
Proof.
  intros HQ Hp Hl i Hi. rewrite Z.lor_spec, orb_true_iff, (q_bits _ _ HQ) by done.
  rewrite Z.shiftl_1_l, Z.pow2_bits_eqb by lia. rewrite Z.eqb_eq. unfold upd.
  destruct (decide (Z.to_nat i = p)) as [<-|].
  - rewrite Z2Nat.id by lia. split; [intros _; split; [lia|done]|]. intros _. by right.
  - split; [intros [?| <-]; [done|lia]|]. by left.
Qed.

Lemma bits_clear s Q p l : queues s Q → (p < NUM_PRIORITIES)%nat → ∀ i, 0 ≤ i →
  Z.testbit (if bool_decide (head l = None) then Z.ldiff (active_priority_bitmap s) (Z.shiftl 1 (Z.of_nat p))
             else active_priority_bitmap s) i = true ↔
    i < Z.of_nat NUM_PRIORITIES ∧ upd Q p l (Z.to_nat i) ≠ [] ∧ Q (Z.to_nat i) ≠ [].
Proof.
  intros HQ Hp i Hi. case_bool_decide as Hl.
  - rewrite Z.ldiff_spec, andb_true_iff, negb_true_iff, (q_bits _ _ HQ) by done.
    rewrite Z.shiftl_1_l, Z.pow2_bits_eqb, Z.eqb_neq by lia. unfold upd.
    assert (l = []) as -> by by destruct l.
    destruct (decide (Z.to_nat i = p)) as [<-|]; [rewrite Z2Nat.id by lia; naive_solver|].
    split; [naive_solver|]. intros (?&?&?). split; [done|lia].
  - rewrite (q_bits _ _ HQ) by done. unfold upd.
    destruct (decide (Z.to_nat i = p)) as [<-|]; [|naive_solver]. split; [|naive_solver].
    intros [??]. split_and!; [done| |done]. by intros ->.
Qed.

(** Appending [x] to its queue, as the writes of [sched_enqueue] leave the heap. *)
Lemma queues_push s s' Q x t t' : queues s Q → tasks s !! x = Some t → x ∉ Q (eff_prio t) →
  let p := eff_prio t in
  tasks s' !! x = Some t' → eff_prio t' = p → t_sched_next t' = None → t_sched_prev t' = last (Q p) →
  (∀ y, y ≠ x → tasks s' !! y = (if decide (last (Q p) = Some y) then set_sched_next (Some x) <$> tasks s !! y
                                 else tasks s !! y)) →
  run_queues s' = (if decide (last (Q p) = None) then <[p := Some x]> (run_queues s) else run_queues s) →
  run_queues_tail s' = <[p := Some x]> (run_queues_tail s) →
  active_priority_bitmap s' = Z.lor (active_priority_bitmap s) (Z.shiftl 1 (Z.of_nat p)) →
  queues s' (upd Q p (Q p ++ [x])).
Proof.
  intros HQ Ht Hx p Ht' Hpr Hn Hp Hy Hrq Hrqt Hbm.
  assert (p < NUM_PRIORITIES)%nat as Hlt by apply eff_prio_lt.
  assert (∀ y ty, tasks s' !! y = Some ty → y ≠ x → ∃ ty0, tasks s !! y = Some ty0 ∧ eff_prio ty = eff_prio ty0 ∧
            (last (Q p) ≠ Some y → ty = ty0)) as Hinv.
  { intros y ty Hty Hyx. rewrite Hy in Hty by done. case_decide; [|eauto].
    apply fmap_Some in Hty as (ty0 & Hty0 & ->). exists ty0. split_and!; [done|done|congruence]. }
  split.
  - rewrite Hrq. case_decide; rewrite ?length_insert; apply HQ.
  - rewrite Hrqt, length_insert. apply HQ.
  - intros q Hq. rewrite Hrq. unfold upd. destruct (decide (q = p)) as [->|Hne].
    + case_decide as Hl.
      * apply last_None in Hl. rewrite Hl. rewrite list_lookup_insert_eq; [done|]. by rewrite (q_len _ _ HQ).
      * rewrite (q_head _ _ HQ) by done. revert Hl. by destruct (Q p).
    + case_decide; rewrite ?list_lookup_insert_ne by done; by apply HQ.
  - intros q Hq. rewrite Hrqt. unfold upd. destruct (decide (q = p)) as [->|Hne].
    + rewrite list_lookup_insert_eq by by rewrite (q_len_tail _ _ HQ). by rewrite last_snoc.
    + rewrite list_lookup_insert_ne by done. by apply HQ.
  - intros q Hq. unfold upd. destruct (decide (q = p)) as [->|Hne].
    + eapply (dlist_push_back (tasks s) _ _ _ t'); [by apply HQ|done|done|done|done|].
      intros y Hyq. apply Hy. by intros ->.
    + eapply dlist_ext; [|by apply HQ]. intros y Hyq.
      rewrite Hy.
      * rewrite decide_False; [done|]. intros Hl%last_Some_elem_of. apply Hne. by eapply queues_disjoint.
      * intros ->. apply Hne. by eapply queued_prio.
  - intros q y Hq. unfold upd. destruct (decide (q = p)) as [->|Hne].
    + intros [Hyq| ->%list_elem_of_singleton]%elem_of_app; [|by rewrite Ht'; simpl; rewrite Hpr].
      pose proof (q_prio _ _ HQ p y Hq Hyq) as HH.
      rewrite Hy by (by intros ->). destruct (decide (last (Q p) = Some y)); [|exact HH].
      destruct (tasks s !! y); [|done]. simpl in *. done.
    + intros Hyq. pose proof (q_prio _ _ HQ q y Hq Hyq) as HH.
      rewrite Hy by (intros ->; apply Hne; by eapply queued_prio).
      destruct (decide (last (Q p) = Some y)); [|exact HH]. destruct (tasks s !! y); [|done]. simpl in *. done.
  - intros y ty Hty Hout. destruct (decide (y = x)) as [->|Hyx].
    + exfalso. rewrite Ht' in Hty. injection Hty as <-. rewrite Hpr, upd_eq in Hout. set_solver.
    + destruct (Hinv y ty Hty Hyx) as (ty0 & Hty0 & He & Hsame). rewrite He in Hout.
      assert (y ∉ Q (eff_prio ty0)) as Hout'.
      { intros Hin. apply Hout. unfold upd. destruct (decide (eff_prio ty0 = p)) as [Hc|]; [rewrite <-Hc; set_solver|done]. }
      rewrite Hsame; [by apply (q_off _ _ HQ y)|].
      intros Hl%last_Some_elem_of. apply Hout'. by rewrite <-(queued_prio s Q p y ty0).
  - rewrite Hbm. apply bits_set; [done|done|]. by destruct (Q p).
  - rewrite Hbm. apply Z.lor_nonneg. split; [apply HQ|]. apply Z.shiftl_nonneg. lia.
Qed.

Lemma bare_push s s' x t t' l : tasks s !! x = Some t → tasks s' !! x = Some t' → strip t' = awake (strip t) →
  (∀ y, y ≠ x → tasks s' !! y = (if decide (last l = Some y) then set_sched_next (Some x) <$> tasks s !! y
                                 else tasks s !! y)) →
  bare s' = alter awake x (bare s).
Proof.
  intros Ht Ht' Hs Hy. unfold bare. apply map_eq. intros z. rewrite lookup_fmap.
  destruct (decide (z = x)) as [->|].
  - rewrite Ht', lookup_alter_eq, lookup_fmap, Ht. simpl. by rewrite Hs.
  - rewrite lookup_alter_ne, lookup_fmap, Hy by done. case_decide; [|done]. by destruct (tasks s !! z).
Qed.

(** [sched_enqueue] does nothing for a queued task; any other task becomes
    runnable at the tail of the queue of its priority. *)
Lemma sched_enqueue_spec s Q x t : queues s Q → tasks s !! x = Some t →
  wp (sched_enqueue (Some x)) s (λ _ s',
    if bool_decide (x ∈ Q (eff_prio t)) then s' = s
    else queues s' (upd Q (eff_prio t) (Q (eff_prio t) ++ [x])) ∧
         bare s' = alter awake x (bare s) ∧ rest s' = rest s).
Proof.
  intros HQ Ht. set (p := eff_prio t). assert (p < NUM_PRIORITIES)%nat as Hlt by apply eff_prio_lt.
  pose proof (linked_guard_spec s Q x t HQ Ht) as Hg. unfold linked_guard in Hg. fold p in Hg.
  rewrite (q_head _ _ HQ) in Hg by done.
  unfold sched_enqueue. apply wp_bind. eapply wp_sload; [done|]. fold p.
  apply wp_bind. eapply wp_rq_head; [by apply HQ|].
  replace (bool_decide (head (Q p) = Some x)) with (bool_decide (Some (head (Q p)) = Some (Some x)))
    by (apply bool_decide_ext; split; [by intros [= ]|congruence]).
  rewrite Hg. destruct (decide (x ∈ Q p)) as [Hx|Hx];
    [rewrite (bool_decide_true (x ∈ Q p)) by done; by apply wp_ret|].
  rewrite (bool_decide_false (x ∈ Q p)) by done.
  do 3 (apply wp_bind; eapply wp_sstore; [simpl; rewrite ?lookup_alter_eq, Ht; done|]).
  apply wp_bind. eapply wp_rq_tail; [by apply HQ|].
  apply wp_bind. eapply wp_sstore; [simpl; rewrite !lookup_alter_eq, Ht; done|].
  set (t' := set_sched_prev (last (Q p)) (set_sched_next None (awake t))).
  match goal with |- wp _ ?st _ => set (s1 := st) end.
  assert (tasks s1 = <[x := t']> (tasks s)) as Es1.
  { apply map_eq. intros y. simpl. destruct (decide (y = x)) as [->|].
    - by rewrite !lookup_alter_eq, Ht, lookup_insert_eq.
    - by rewrite !lookup_alter_ne, lookup_insert_ne. }
  assert (∀ y, last (Q p) = Some y → y ≠ x ∧ ∃ ty, tasks s !! y = Some ty) as Hlast.
  { intros y Hl%last_Some_elem_of. split; [by intros ->|]. eapply dlist_elem; [by apply HQ|done]. }
  match goal with |- wp _ _ ?R => assert (∀ s',
    tasks s' !! x = Some t' →
    (∀ y, y ≠ x → tasks s' !! y = (if decide (last (Q p) = Some y) then set_sched_next (Some x) <$> tasks s !! y
                                   else tasks s !! y)) →
    run_queues s' = (if decide (last (Q p) = None) then <[p := Some x]> (run_queues s) else run_queues s) →
    run_queues_tail s' = <[p := Some x]> (run_queues_tail s) →
    active_priority_bitmap s' = Z.lor (active_priority_bitmap s) (Z.shiftl 1 (Z.of_nat p)) →
    rest s' = rest s → R tt s') as Hfin end.
  { intros s' H1 H2 H3 H4 H5 H6. split_and!; [|by eapply bare_push|done].
    by eapply (queues_push s s' Q x t t'). }
  destruct (last (Q p)) as [y|] eqn:El.
  - destruct (Hlast y eq_refl) as [Hyx [ty Hty]].
    apply wp_bind. eapply wp_sstore; [rewrite Es1, lookup_insert_ne by done; done|].
    apply wp_bind. eapply wp_set_rq_tail; [by apply HQ|]. apply wp_modify.
    apply Hfin; try done; cbn [tasks with_bitmap with_rqt with_tasks]; change (tasks (with_tasks ?f ?u)) with (f (tasks u)); rewrite ?Es1.
    + by rewrite lookup_alter_ne, lookup_insert_eq.
    + intros z Hz. destruct (decide (z = y)) as [->|].
      * rewrite decide_True, lookup_alter_eq, lookup_insert_ne by done. done.
      * rewrite decide_False by congruence. by rewrite lookup_alter_ne, lookup_insert_ne.
  - apply wp_bind. eapply wp_set_rq_head; [by apply HQ|].
    apply wp_bind. eapply wp_set_rq_tail; [by apply HQ|]. apply wp_modify.
    apply Hfin; try done.
    + change (tasks s1 !! x = Some t'). by rewrite Es1, lookup_insert_eq.
    + intros z Hz. change (tasks s1 !! z = tasks s !! z). by rewrite Es1, lookup_insert_ne.
Qed.

(** ** Dequeue *)

Lemma fmap_unlink {B} (f : task → B) x t (m : gmap Z task) :
  (∀ v u, f (set_sched_next v u) = f u) → (∀ v u, f (set_sched_prev v u) = f u) →
  ∀ y, f <$> unlink x t m !! y = f <$> m !! y.
Proof.
  intros H1 H2 y. unfold unlink.
  assert (∀ (g : option Z → task → task) v q (k : gmap Z task), (∀ u, f (g v u) = f u) →
            f <$> alter (g v) q k !! y = f <$> k !! y) as Ha.
  { intros g v q k Hg. destruct (decide (y = q)) as [->|].
    - rewrite lookup_alter_eq. destruct (k !! q); simpl; [by rewrite Hg|done].
    - by rewrite lookup_alter_ne. }
  destruct (lprev t), (lnext t); rewrite ?(Ha set_sched_prev), ?(Ha set_sched_next); done.
Qed.

Lemma queues_remove s s' Q x t l1 l2 : queues s Q → tasks s !! x = Some t →
  let p := eff_prio t in
  Q p = l1 ++ x :: l2 →
  tasks s' = alter strip x (unlink x t (tasks s)) →
  run_queues s' = (if decide (l1 = []) then <[p := head l2]> (run_queues s) else run_queues s) →
  run_queues_tail s' = (if decide (l2 = []) then <[p := last l1]> (run_queues_tail s) else run_queues_tail s) →
  active_priority_bitmap s' = (if bool_decide (head (l1 ++ l2) = None)
    then Z.ldiff (active_priority_bitmap s) (Z.shiftl 1 (Z.of_nat p)) else active_priority_bitmap s) →
  queues s' (upd Q p (l1 ++ l2)).
Proof.
  intros HQ Ht p HQp Hm Hrq Hrqt Hbm. assert (p < NUM_PRIORITIES)%nat as Hlt by apply eff_prio_lt.
  pose proof (q_list _ _ HQ p Hlt) as Hd. rewrite HQp in Hd.
  assert (x ∉ l1 ++ l2) as Hx.
  { destruct Hd as [_ HN]. apply NoDup_app in HN as (?&H12&[??]%NoDup_cons). specialize (H12 x). set_solver. }
  assert (∀ y, y ∉ l1 ++ l2 → y ≠ x → tasks s' !! y = tasks s !! y) as Hframe.
  { intros y Hy Hyx. rewrite Hm, lookup_alter_ne by done. by eapply unlink_frame. }
  assert (tasks s' !! x = Some (strip t)) as Hx'.
  { rewrite Hm, lookup_alter_eq. erewrite unlink_frame by done. by rewrite Ht. }
  assert (∀ y, eff_prio <$> tasks s' !! y = eff_prio <$> tasks s !! y) as Hpr.
  { intros y. destruct (decide (y = x)) as [->|]; [by rewrite Hx', Ht|].
    rewrite Hm, lookup_alter_ne by done. by apply fmap_unlink. }
  assert (∀ q y, (q < NUM_PRIORITIES)%nat → y ∈ upd Q p (l1 ++ l2) q → y ∈ Q q) as Hsub.
  { intros q y Hq. unfold upd. destruct (decide (q = p)) as [->|]; [rewrite HQp; set_solver|done]. }
  split.
  - rewrite Hrq. destruct (decide (l1 = [])); rewrite ?length_insert; apply HQ.
  - rewrite Hrqt. destruct (decide (l2 = [])); rewrite ?length_insert; apply HQ.
  - intros q Hq. rewrite Hrq. unfold upd. destruct (decide (q = p)) as [->|].
    + destruct (decide (l1 = [])) as [->|Hl1]; [rewrite list_lookup_insert_eq; [done|by rewrite (q_len _ _ HQ)]|].
      rewrite (q_head _ _ HQ), HQp by done. by destruct l1.
    + destruct (decide (l1 = [])); rewrite ?list_lookup_insert_ne by done; by apply HQ.
  - intros q Hq. rewrite Hrqt. unfold upd. destruct (decide (q = p)) as [->|].
    + destruct (decide (l2 = [])) as [->|Hl2].
      * rewrite list_lookup_insert_eq by by rewrite (q_len_tail _ _ HQ). by rewrite app_nil_r.
      * rewrite (q_tail _ _ HQ), HQp by done. destruct l2 as [|z l2 _] using rev_ind; [done|].
        by rewrite app_comm_cons, !app_assoc, !last_snoc.
    + destruct (decide (l2 = [])); rewrite ?list_lookup_insert_ne by done; by apply HQ.
  - intros q Hq. unfold upd. destruct (decide (q = p)) as [->|Hne].
    + eapply dlist_ext; [|by eapply (dlist_unlink x t (tasks s))].
      intros y Hy. rewrite Hm, lookup_alter_ne; [done|]. by intros ->.
    + eapply dlist_ext; [|by apply HQ]. intros y Hy. apply Hframe.
      * intros Hin. apply Hne. eapply queues_disjoint; [done..|]. rewrite HQp. set_solver.
      * intros ->. apply Hne. by eapply queued_prio.
  - intros q y Hq Hy. rewrite Hpr. by apply (q_prio _ _ HQ), Hsub.
  - intros y ty Hty Hout. destruct (decide (y = x)) as [->|Hyx].
    + rewrite Hx' in Hty. by injection Hty as <-.
    + specialize (Hpr y). rewrite Hty in Hpr. symmetry in Hpr. apply fmap_Some in Hpr as (ty0 & Hty0 & He).
      assert (y ∉ Q (eff_prio ty0)) as Hout'.
      { rewrite <-He. intros Hin. apply Hout. unfold upd. destruct (decide (eff_prio ty = p)) as [Hc|]; [|done].
        rewrite Hc, HQp in Hin. set_solver. }
      rewrite Hframe in Hty; [|intros Hin; apply Hout'; rewrite <-(queued_prio s Q p y ty0); [rewrite HQp; set_solver|try done..]|done].
      * by apply (q_off _ _ HQ y ty); [|congruence].
      * rewrite HQp. set_solver.
  - intros i Hi. rewrite Hbm, (bits_clear s Q p) by done. split; [naive_solver|].
    intros [? Hne]. split_and!; [done|done|]. intros HE. revert Hne. unfold upd. destruct (decide (Z.to_nat i = p)) as [Hc|]; [|done].
    by rewrite Hc, HQp in HE; destruct l1.
  - rewrite Hbm. destruct (bool_decide _); [|apply HQ]. apply Z.ldiff_nonneg. left. apply HQ.
Qed.

Lemma queues_ext s Q Q' : (∀ q, Q' q = Q q) → queues s Q → queues s Q'.
Proof. intros HE []. split; intros; rewrite ?HE in *; eauto. Qed.

Lemma filter_out x (l : list Z) : x ∉ l → filter (.≠ x) l = l.
Proof.
  induction l as [|y l IH]; [done|]. intros [? ?]%not_elem_of_cons.
  rewrite filter_cons_True, IH by done. done.
Qed.

Lemma filter_split x (l1 l2 : list Z) : NoDup (l1 ++ x :: l2) → filter (.≠ x) (l1 ++ x :: l2) = l1 ++ l2.
Proof.
  intros (?&H12&[??]%NoDup_cons)%NoDup_app.
  rewrite filter_app, filter_cons_False by auto. rewrite !filter_out; [done|done|].
  intros ?. eapply H12; [done|left].
Qed.

(** The four shapes of the unlinking code end in the same heap. *)
Lemma unlink_alter x t (m : gmap Z task) : m !! x = Some t →
  t_sched_prev t ≠ Some x → t_sched_next t ≠ Some x →
  ∀ m1 m2,
  m1 = match t_sched_prev t with Some q => alter (set_sched_next (t_sched_next t)) q m | None => m end →
  m2 = match t_sched_next t with Some q => alter (set_sched_prev (t_sched_prev t)) q m1 | None => m1 end →
  m1 !! x = Some t ∧ m2 !! x = Some t ∧
  alter (set_sched_prev None) x (alter (set_sched_next None) x m2) = alter strip x (unlink x t m).
Proof.
  intros Ht Hp Hn m1 m2 -> ->.
  match goal with |- ?a !! x = _ ∧ ?b !! x = _ ∧ _ => assert (a !! x = Some t ∧ b !! x = Some t) as [-> ->] end.
  { destruct (t_sched_prev t), (t_sched_next t); rewrite ?lookup_alter_ne by congruence; done. }
  split_and!; [done..|]. apply map_eq. intros y. destruct (decide (y = x)) as [->|].
  - rewrite !lookup_alter_eq, <-option_fmap_compose. done.
  - by rewrite !lookup_alter_ne.
Qed.

Lemma dequeue_links_spec s x t p h tl (R : unit → sched → Prop) : tasks s !! x = Some t →
  t_sched_prev t ≠ Some x → t_sched_next t ≠ Some x →
  (∀ y, t_sched_prev t = Some y ∨ t_sched_next t = Some y → is_Some (tasks s !! y)) →
  run_queues s !! p = Some h → run_queues_tail s !! p = Some tl →
  (∀ s', let h' := if decide (t_sched_prev t = None) then t_sched_next t else h in
    tasks s' = alter strip x (unlink x t (tasks s)) →
    run_queues s' = (if decide (t_sched_prev t = None) then <[p := t_sched_next t]> (run_queues s) else run_queues s) →
    run_queues_tail s' = (if decide (t_sched_next t = None) then <[p := t_sched_prev t]> (run_queues_tail s) else run_queues_tail s) →
    active_priority_bitmap s' = (if bool_decide (h' = None)
      then Z.ldiff (active_priority_bitmap s) (Z.shiftl 1 (Z.of_nat p)) else active_priority_bitmap s) →
    rest s' = rest s → R tt s') →
  wp (dequeue_links x p) s R.
Proof.
  intros Ht Hp Hn Hel Hh Htl HR.
  pose proof (unlink_alter x t (tasks s) Ht Hp Hn _ _ eq_refl eq_refl) as (Hm1 & Hm2 & Hm).
  unfold dequeue_links. apply wp_bind. eapply wp_sload; [done|].
  assert (∀ a, t_sched_prev t = Some a → ∃ ta, tasks s !! a = Some ta) as Hpa by (intros a Ha; apply Hel; by left).
  assert (∀ b f a, t_sched_next t = Some b → ∃ tb, alter f a (tasks s) !! b = Some tb) as Hnb.
  { intros b f a Hb. apply lookup_alter_is_Some, Hel. by right. }
  assert (∀ b, t_sched_next t = Some b → ∃ tb, tasks s !! b = Some tb) as Hnb' by (intros b Hb; apply Hel; by right).
  destruct (t_sched_prev t) as [a|] eqn:E1, (t_sched_next t) as [b|] eqn:E2.
  1,2: destruct (Hpa a eq_refl) as [ta Hta]; apply wp_bind; eapply wp_sstore; [exact Hta|].
  3,4: apply wp_bind; eapply wp_set_rq_head; [done|].
  all: apply wp_bind; eapply wp_sload; [exact Hm1|]; rewrite E1, E2.
  1: destruct (Hnb b (set_sched_next (Some b)) a eq_refl) as [tb Htb].
  3: destruct (Hnb' b eq_refl) as [tb Htb].
  1,3: apply wp_bind; eapply wp_sstore; [exact Htb|].
  3,4: apply wp_bind; eapply wp_set_rq_tail; [done|].
  all: do 2 (apply wp_bind; eapply wp_sstore; [first [exact Hm2|simpl; rewrite lookup_alter_eq; rewrite Hm2; done]|]).
  all: apply wp_bind; eapply wp_rq_head; [simpl; rewrite ?list_lookup_insert_eq by (by eapply lookup_lt_Some); done|].
  all: match goal with |- context [bool_decide (?v = None)] => destruct (bool_decide (v = None)) eqn:Eb end;
       [apply wp_modify|apply wp_ret]; apply HR; first [done|simpl; by rewrite Eb].
Qed.

(** [sched_dequeue] takes the task out of its queue, wherever in it it is. *)
Lemma sched_dequeue_spec s Q x t : queues s Q → tasks s !! x = Some t →
  wp (sched_dequeue (Some x)) s (λ _ s',
    queues s' (upd Q (eff_prio t) (filter (λ y, y ≠ x) (Q (eff_prio t)))) ∧ bare s' = bare s ∧ rest s' = rest s).
Proof.
  intros HQ Ht. set (p := eff_prio t). assert (p < NUM_PRIORITIES)%nat as Hlt by apply eff_prio_lt.
  pose proof (linked_guard_spec s Q x t HQ Ht) as Hg. unfold linked_guard in Hg. fold p in Hg.
  rewrite (q_head _ _ HQ) in Hg by done.
  unfold sched_dequeue. apply wp_bind. eapply wp_sload; [done|]. fold p.
  apply wp_bind. eapply wp_rq_head; [by apply HQ|].
  match goal with |- context [if ?b then mret tt else _] => replace b with (negb (bool_decide (x ∈ Q p))) end.
  2:{ rewrite <-Hg. destruct (t_sched_next t), (t_sched_prev t); try done.
      repeat case_bool_decide; try done; exfalso; congruence. }
  destruct (decide (x ∈ Q p)) as [Hx|Hx];
    [rewrite bool_decide_true by done|rewrite bool_decide_false by done; apply wp_ret; simpl].
  2:{ rewrite filter_out by done. split_and!; [|done|done]. eapply queues_ext; [|done].
      intros q. unfold upd. by destruct (decide (q = p)) as [->|]. }
  apply list_elem_of_split in Hx as (l1 & l2 & HQp). simpl.
  pose proof (q_list _ _ HQ p Hlt) as Hd. rewrite HQp in Hd.
  destruct (dlist_lookup _ _ _ _ Hd) as (t' & Ht' & Hp & Hn). rewrite Ht in Ht'. injection Ht' as <-.
  simpl in Hp, Hn. rewrite HQp, filter_split by apply Hd.
  assert (∀ y, last l1 = Some y → y ∈ l1) as Hl1 by (intros; by apply last_Some_elem_of).
  assert (∀ y, head l2 = Some y → y ∈ l2) as Hl2 by (intros; by apply head_Some_elem_of).
  assert (x ∉ l1 ∧ x ∉ l2) as [Hx1 Hx2].
  { destruct Hd as [_ HN]. apply NoDup_app in HN as (?&H12&[??]%NoDup_cons). specialize (H12 x). set_solver. }
  assert (∀ y, y ∈ l1 ++ x :: l2 → ∃ ty, tasks s !! y = Some ty) as Hel by (intros y; by apply dlist_elem).
  eapply dequeue_links_spec; rewrite ?Hp, ?Hn; [done| | | |by apply HQ|by apply HQ|].
  { intros E. by apply Hx1, Hl1. }
  { intros E. by apply Hx2, Hl2. }
  { intros y [Hy%Hl1|Hy%Hl2]; apply Hel; set_solver. }
  intros s' h' H1 H2 H3 H4 H5. split_and!; [eapply (queues_remove s s' Q x t); try done| |done].
  { rewrite H2. destruct l1 as [|z l1 _] using rev_ind; [done|]. rewrite last_snoc.
    rewrite !decide_False; [done| |done]. by destruct l1. }
  { rewrite H3. by destruct l2. }
  { rewrite H4. unfold h'. rewrite HQp. destruct l1 as [|z l1 _] using rev_ind; [done|]. rewrite last_snoc.
    rewrite decide_False by done. by destruct l1. }
  unfold bare. rewrite H1. apply map_eq. intros y. rewrite !lookup_fmap.
  destruct (decide (y = x)) as [->|].
  - rewrite lookup_alter_eq, <-option_fmap_compose.
    replace (strip ∘ strip) with strip by done. by apply fmap_unlink.
  - rewrite lookup_alter_ne by done. by apply fmap_unlink.
Qed.

(** ** The task switch *)

Lemma bare_lookup s x u : bare s !! x = Some u → ∃ t, tasks s !! x = Some t ∧ strip t = u.
Proof. unfold bare. rewrite lookup_fmap. intros (t & ? & ->)%fmap_Some. eauto. Qed.

Lemma bare_Some s x t : tasks s !! x = Some t → bare s !! x = Some (strip t).
Proof. unfold bare. rewrite lookup_fmap. by intros ->. Qed.

Lemma ctz_from_spec b n : ∀ i, (∃ j, (i ≤ j < i + n)%nat ∧ Z.testbit b (Z.of_nat j) = true) →
  let k := ctz_from i n b in
  (i ≤ k < i + n)%nat ∧ Z.testbit b (Z.of_nat k) = true ∧
  ∀ j, (i ≤ j < k)%nat → Z.testbit b (Z.of_nat j) = false.
Proof.
  induction n as [|n IH]; intros i (j & Hj & Hb); simpl; [lia|].
  destruct (Z.testbit b (Z.of_nat i)) eqn:Ei; [split_and!; [lia|lia|done|lia]|].
  destruct (IH (S i)) as (Hk & Hbk & Hlow).
  { exists j. split; [|done]. destruct (decide (j = i)) as [->|]; [congruence|lia]. }
  split_and!; [lia|lia|done|]. intros j' Hj'. destruct (decide (j' = i)) as [->|]; [done|]. apply Hlow. lia.
Qed.

(** The bitmap selects the first non-empty queue. *)
Lemma builtin_ctz_queue s Q : queues s Q → active_priority_bitmap s ≠ 0 →
  let p := builtin_ctz (active_priority_bitmap s) in
  (p < NUM_PRIORITIES)%nat ∧ Q p ≠ [] ∧ ∀ q, (q < p)%nat → Q q = [].
Proof.
  intros HQ Hb. set (b := active_priority_bitmap s) in *.
  assert (∀ j, Z.testbit b (Z.of_nat j) = true ↔ (j < NUM_PRIORITIES)%nat ∧ Q j ≠ []) as Hbit.
  { intros j. unfold b. rewrite (q_bits _ _ HQ) by lia. rewrite Nat2Z.id, <-Nat2Z.inj_lt. done. }
  destruct (ctz_from_spec b 32 0) as (Hk & Hbk & Hlow).
  { pose proof (Z.bit_log2 b ltac:(pose proof (q_bits_pos _ _ HQ); unfold b in *; lia)) as Hl.
    pose proof (Z.log2_nonneg b). exists (Z.to_nat (Z.log2 b)).
    rewrite <-(Z2Nat.id (Z.log2 b)) in Hl by done. split; [|done]. apply Hbit in Hl as [? _].
    unfold NUM_PRIORITIES in *. lia. }
  fold (builtin_ctz b) in *. apply Hbit in Hbk as [??]. split_and!; [done|done|].
  intros q Hq. destruct (Q q) eqn:E; [done|]. exfalso.
  assert (Z.testbit b (Z.of_nat q) = true) as Ht by (apply Hbit; split; [lia|by rewrite E]).
  rewrite Hlow in Ht by lia. done.
Qed.

Lemma bitmap_zero s Q : queues s Q → active_priority_bitmap s = 0 → ∀ q, (q < NUM_PRIORITIES)%nat → Q q = [].
Proof.
  intros HQ Hb q Hq. destruct (Q q) eqn:E; [done|]. exfalso.
  assert (Z.testbit (active_priority_bitmap s) (Z.of_nat q) = true) as Ht.
  { apply (q_bits _ _ HQ); [lia|]. rewrite Nat2Z.id. split; [lia|by rewrite E]. }
  rewrite Hb, Z.bits_0 in Ht. done.
Qed.

(** The queues after the running task [c] gave up the processor. *)
Definition requeued (s : sched) (Q : nat → list Z) (c : Z) (tc : task) : nat → list Z :=
  if bool_decide (idle_task s = Some c) then Q
  else upd Q (eff_prio tc) (filter (λ y, y ≠ c) (Q (eff_prio tc)) ++
                            (if bool_decide (t_state tc = RUNNABLE) then [c] else [])).

(** The head of the first non-empty queue, or the idle task. *)
Definition chosen (Q : nat → list Z) (idle : option Z) (n : Z) : Prop :=
  (∃ p, (p < NUM_PRIORITIES)%nat ∧ head (Q p) = Some n ∧ ∀ q, (q < p)%nat → Q q = []) ∨
  ((∀ q, (q < NUM_PRIORITIES)%nat → Q q = []) ∧ idle = Some n).

(** The processor with the context of [tn] loaded. *)
Definition loaded (s : sched) (tn : task) : cpu :=
  mk_cpu (match t_process_cr3 tn with
          | Some c => if c =? 0 then kernel_cr3 s else c
          | None => kernel_cr3 s
          end)
         (t_kstack_at_bottom tn)
         (if t_fs_base tn =? 0 then c_fs_base (hw s) else t_fs_base tn)
         (t_fpu tn).

Lemma requeue_spec s Q c tc : queues s Q → tasks s !! c = Some tc →
  wp (requeue c) s (λ _ s', queues s' (requeued s Q c tc) ∧ rest s' = rest s ∧
    bare s' = if bool_decide (idle_task s = Some c) then bare s
              else if bool_decide (t_state tc = RUNNABLE) then alter awake c (bare s) else bare s).
Proof.
  intros HQ Hc. unfold requeue, requeued. apply wp_bind, wp_gets.
  destruct (decide (idle_task s = Some c)) as [Hi|Hi].
  { rewrite (bool_decide_true (idle_task s = _)), bool_decide_false by auto. by apply wp_ret. }
  rewrite (bool_decide_false (idle_task s = _)), bool_decide_true by congruence.
  apply wp_bind. eapply wp_mono; [by apply sched_dequeue_spec|]. intros [] s1 (HQ1 & Hb1 & Hr1).
  assert (bare s1 !! c = Some (strip tc)) as Hc1 by (rewrite Hb1; by apply bare_Some).
  apply bare_lookup in Hc1 as (t1 & Ht1 & Hs1).
  assert (eff_prio t1 = eff_prio tc ∧ t_state t1 = t_state tc) as [Hp1 Hst1] by
    (split; [change (eff_prio t1) with (eff_prio (strip t1))|change (t_state t1) with (t_state (strip t1))]; by rewrite Hs1).
  apply wp_bind. eapply wp_sload; [done|]. rewrite Hst1.
  case_bool_decide; [|apply wp_ret; rewrite app_nil_r; done].
  eapply wp_mono; [by apply sched_enqueue_spec|]. rewrite Hp1, upd_eq.
  rewrite bool_decide_false by (rewrite list_elem_of_filter; tauto).
  intros [] s2 (HQ2 & Hb2 & Hr2). rewrite Hb2, Hr2, Hb1. split_and!; [|done|done].
  eapply queues_ext; [|done]. intros q. unfold upd. by case_decide.
Qed.

Lemma queues_tasks s s' Q : (∀ x, ∃ f : task → task, tasks s' !! x = f <$> tasks s !! x ∧
    ∀ t, t_sched_next (f t) = t_sched_next t ∧ t_sched_prev (f t) = t_sched_prev t ∧ t_priority (f t) = t_priority t) →
  run_queues s' = run_queues s → run_queues_tail s' = run_queues_tail s →
  active_priority_bitmap s' = active_priority_bitmap s → queues s Q → queues s' Q.
Proof.
  intros Hm E1 E2 E3 HQ.
  assert (∀ f : task → task, (∀ t, t_sched_next (f t) = t_sched_next t ∧ t_sched_prev (f t) = t_sched_prev t ∧
            t_priority (f t) = t_priority t) → ∀ t, eff_prio (f t) = eff_prio t) as He.
  { intros f Hf t. unfold eff_prio. by destruct (Hf t) as (_ & _ & ->). }
  split; rewrite ?E1, ?E2, ?E3; try apply HQ.
  - intros p Hp. destruct (q_list _ _ HQ p Hp) as [Hd HN]. split; [|done].
    clear -Hm Hd. revert Hd. generalize (@None Z) at 1 3. generalize (@None Z) at 1 2.
    induction (Q p) as [|x l IH]; intros n o; [done|]. simpl. intros [(a & Ha & Hp & Hn) Hd]. split; [|by apply IH].
    destruct (Hm x) as (f & Hx & Hf). destruct (Hf a) as (? & ? & _). exists (f a). rewrite Hx, Ha.
    split_and!; [done|congruence|congruence].
  - intros p x Hp Hx. destruct (Hm x) as (f & -> & Hf). rewrite <-(q_prio _ _ HQ p x Hp Hx).
    destruct (tasks s !! x); [|done]. simpl. by rewrite He.
  - intros x t Ht Hx. destruct (Hm x) as (f & Hx' & Hf). rewrite Hx' in Ht.
    apply fmap_Some in Ht as (t0 & Ht0 & ->). rewrite He in Hx by done.
    destruct (Hf t0) as (-> & -> & _). by apply (q_off _ _ HQ x).
Qed.

(** Writing a field of one task that is not a link or the priority. *)
Lemma queues_store s Q x f :
  (∀ t, t_sched_next (f t) = t_sched_next t ∧ t_sched_prev (f t) = t_sched_prev t ∧ t_priority (f t) = t_priority t) →
  queues s Q → queues (with_tasks (alter f x) s) Q.
Proof.
  intros Hf. apply queues_tasks; try done. intros y. destruct (decide (y = x)) as [->|].
  - exists f. simpl. by rewrite lookup_alter_eq.
  - exists id. simpl. rewrite lookup_alter_ne, option_fmap_id by done. done.
Qed.

Lemma bare_store s x f : (∀ t, strip (f t) = f (strip t)) →
  bare (with_tasks (alter f x) s) = alter f x (bare s).
Proof.
  intros Hf. unfold bare. simpl. apply map_eq. intros y. rewrite lookup_fmap.
  destruct (decide (y = x)) as [->|].
  - rewrite !lookup_alter_eq, lookup_fmap. destruct (tasks s !! x); simpl; [by rewrite Hf|done].
  - by rewrite !lookup_alter_ne, lookup_fmap by done.
Qed.

Lemma restore_hardware_spec s Q prev next tp tn : queues s Q → prev ≠ next →
  tasks s !! prev = Some tp → tasks s !! next = Some tn →
  wp (restore_hardware prev next) s (λ _ s', queues s' Q ∧
    bare s' = alter (set_fpu (c_fpu (hw s))) prev (bare s) ∧
    tasks s' !! next = Some tn ∧
    rest s' = (sleep_queue_head s, io_waiters s, current_task s, idle_task s, kernel_cr3 s, loaded s tn)).
Proof.
  intros HQ Hne Hp Hn. unfold restore_hardware. apply wp_bind, wp_get.
  apply wp_bind. eapply wp_sstore; [done|]. apply wp_bind.
  eapply wp_sload; [simpl; by rewrite lookup_alter_ne|].
  do 3 apply wp_bind, wp_modify. cbn [with_hw with_tasks hw c_cr3 c_tss_stack c_fs_base c_fpu].
  set (s1 := with_tasks (alter (set_fpu (c_fpu (hw s))) prev) s).
  assert (∀ s', (∃ h, s' = with_hw (λ _, h) s1) → queues s' Q ∧ bare s' = alter (set_fpu (c_fpu (hw s))) prev (bare s) ∧
            tasks s' !! next = Some tn) as Hs.
  { intros s' [h ->]. split_and!.
    - eapply (queues_tasks s1); [intros x; exists id; simpl; by rewrite option_fmap_id|done..|].
      by apply queues_store.
    - change (bare (with_hw (λ _, h) s1)) with (bare s1). by apply bare_store.
    - simpl. by rewrite lookup_alter_ne. }
  assert (∀ s', s' = with_hw (λ _, loaded s tn) s1 → queues s' Q ∧ bare s' = alter (set_fpu (c_fpu (hw s))) prev (bare s) ∧
    tasks s' !! next = Some tn ∧
    rest s' = (sleep_queue_head s, io_waiters s, current_task s, idle_task s, kernel_cr3 s, loaded s tn)) as Hfin.
  { intros s' ->. destruct (Hs (with_hw (λ _, loaded s tn) s1)) as (?&?&?); [eauto|]. done. }
  assert (∀ a b : Z, (if a =? b then a else b) = b) as Hite.
  { intros a b. destruct (Z.eqb_spec a b); done. }
  destruct (t_fs_base tn =? 0) eqn:E; simpl; [apply wp_ret|apply wp_modify];
    apply Hfin; unfold loaded, with_hw; rewrite E; simpl; by rewrite Hite.
Qed.

(** What the task heap holds after the switch from [c] to [n]. *)
Definition switched_bare (s : sched) (c n rsp : Z) (tc : task) : gmap Z task :=
  let m1 := alter (set_rsp rsp) c (bare s) in
  let m2 := if bool_decide (idle_task s = Some c) then m1
            else if bool_decide (t_state tc = RUNNABLE) then alter awake c m1 else m1 in
  if bool_decide (n = c) then m2 else alter (set_fpu (c_fpu (hw s))) c m2.

Lemma chosen_lookup s Q i n : queues s Q → is_Some (tasks s !! i) → chosen Q (Some i) n → ∃ tn, tasks s !! n = Some tn.
Proof.
  intros HQ Hi [(p & Hp & Hh & _)|[_ [= <-]]]; [|done].
  eapply dlist_elem; [by apply HQ|]. by apply head_Some_elem_of.
Qed.

Lemma rest_inv s s' : rest s' = rest s → sleep_queue_head s' = sleep_queue_head s ∧ io_waiters s' = io_waiters s ∧
  current_task s' = current_task s ∧ idle_task s' = idle_task s ∧ kernel_cr3 s' = kernel_cr3 s ∧ hw s' = hw s.
Proof. unfold rest. intros [= -> -> -> -> -> ->]. done. Qed.

Lemma sched_switch_spec s Q c tc i rsp : queues s Q → current_task s = Some c → tasks s !! c = Some tc →
  idle_task s = Some i → is_Some (tasks s !! i) →
  wp (sched_switch rsp) s (λ r s', ∃ n tn,
    queues s' (requeued s Q c tc) ∧ chosen (requeued s Q c tc) (Some i) n ∧ current_task s' = Some n ∧
    bare s' = switched_bare s c n rsp tc ∧ bare s' !! n = Some tn ∧ r = t_rsp tn ∧
    hw s' = (if bool_decide (n = c) then hw s else loaded s tn) ∧
    sleep_queue_head s' = sleep_queue_head s ∧ io_waiters s' = io_waiters s ∧
    idle_task s' = idle_task s ∧ kernel_cr3 s' = kernel_cr3 s).
Proof.
  intros HQ Hcur Hc Hi Hti. unfold sched_switch. apply wp_bind, wp_gets. rewrite Hcur.
  apply wp_bind. eapply wp_sstore; [done|]. set (s1 := with_tasks _ s).
  assert (queues s1 Q) as HQ1 by by apply queues_store.
  apply wp_bind. eapply wp_mono; [apply (requeue_spec s1 Q c (set_rsp rsp tc)); [done|]|].
  { simpl. by rewrite lookup_alter_eq, Hc. }
  intros [] s2 (HQ2 & Hr2 & Hb2). change (requeued s1 Q c (set_rsp rsp tc)) with (requeued s Q c tc) in HQ2.
  set (Q' := requeued s Q c tc) in *. apply rest_inv in Hr2 as (Hsl & Hio & Hcu & Hid & Hkc & Hhw).
  unfold s1 in Hb2. rewrite bare_store in Hb2 by done.
  change (idle_task (with_tasks _ s)) with (idle_task s) in Hb2.
  change (t_state (set_rsp rsp tc)) with (t_state tc) in Hb2.
  assert (∀ x, is_Some (tasks s !! x) → ∃ tx, tasks s2 !! x = Some tx) as Hdom.
  { intros x [tx Hx]. assert (is_Some (bare s2 !! x)) as [u Hu].
    { rewrite Hb2. repeat case_bool_decide; rewrite ?lookup_alter_is_Some; unfold bare; by rewrite lookup_fmap, Hx. }
    apply bare_lookup in Hu as (?&?&_). eauto. }
  apply wp_bind, wp_gets. apply wp_bind, wp_gets. rewrite Hid. change (idle_task s1) with (idle_task s). rewrite Hi.
  apply wp_bind. apply (wp_mono _ _ (λ o s3, s3 = s2 ∧ ∃ n, o = Some n ∧ chosen Q' (Some i) n)).
  { destruct (Z.eqb_spec (active_priority_bitmap s2) 0) as [Hz|Hz].
    - apply wp_ret. split; [done|]. exists i. split; [done|]. right. split; [|done]. by eapply bitmap_zero.
    - destruct (builtin_ctz_queue s2 Q' HQ2 Hz) as (Hp & Hne & Hlow).
      eapply wp_rq_head; [by apply HQ2|]. split; [done|].
      destruct (Q' (builtin_ctz (active_priority_bitmap s2))) as [|n l] eqn:E; [done|].
      exists n. split; [done|]. left. eexists. rewrite E. done. }
  intros o s3 (-> & n & -> & Hn). rewrite (bool_decide_false (Some i = None)), andb_false_r by done.
  apply wp_bind, wp_modify. destruct (chosen_lookup s2 Q' i n HQ2) as [tn Htn]; [|done|].
  { destruct (Hdom i Hti) as [? ->]. done. }
  set (s3 := with_current (Some n) s2).
  assert (queues s3 Q') as HQ3 by (eapply (queues_tasks s2); [intros x; exists id; by rewrite option_fmap_id|done..]).
  unfold switched_bare. apply wp_bind. destruct (decide (n = c)) as [->|Hne].
  - rewrite bool_decide_true by done. apply wp_ret. apply wp_bind. eapply wp_sload; [exact Htn|].
    apply wp_ret. exists c, (strip tn). rewrite !(bool_decide_true (c = c)) by done. split_and!; try done.
    + by apply (bare_Some s3).
    + simpl. by rewrite Hid.
  - rewrite bool_decide_false by done. destruct (Hdom c) as [tc2 Htc2]; [by eexists|].
    eapply wp_mono; [by eapply (restore_hardware_spec s3 Q' c n tc2 tn)|].
    intros [] s4 (HQ4 & Hb4 & Ht4 & Hr4). apply wp_bind. eapply wp_sload; [done|]. apply wp_ret.
    unfold rest in Hr4. injection Hr4 as E1 E2 E3 E4 E5 E6.
    exists n, (strip tn). rewrite !(bool_decide_false (n = c)) by done. rewrite Hb4.
    split_and!; try done; try congruence.
    + change (bare s3) with (bare s2). rewrite Hb2. unfold s3; simpl. rewrite Hhw. done.
    + rewrite <-Hb4. by apply bare_Some.
    + rewrite E6. unfold loaded, s3. simpl. by rewrite Hkc, Hhw.
    + by rewrite E1.
    + by rewrite E2.
    + rewrite E4. simpl. by rewrite Hid.
    + by rewrite E5.
Qed.

(** ** Fairness *)

(** Successive switches; the task chosen by each one is recorded. *)
Fixpoint switches (rsps : list Z) : M sched (list (option Z)) :=
  match rsps with
  | [] => mret []
  | rsp :: rsps' =>
      _ ← schedule rsp;
      n ← gets current_task;
      ns ← switches rsps';
      mret (n :: ns)
  end.

(** The tasks of [l] share the processor: they are the most urgent queue, all
    runnable, and the first one is running. *)
Record sharing (s : sched) (i : Z) (p : nat) (l : list Z) : Prop := {
  sh_queues : ∃ Q, queues s Q ∧ Q p = l ∧ ∀ q, (q < p)%nat → Q q = [];
  sh_prio : (p < NUM_PRIORITIES)%nat;
  sh_current : current_task s = head l;
  sh_idle : idle_task s = Some i ∧ is_Some (bare s !! i) ∧ i ∉ l;
  sh_runnable x : x ∈ l → t_state <$> bare s !! x = Some RUNNABLE;
}.

Lemma schedule_rotates s i p c l rsp : sharing s i p (c :: l) →
  wp (schedule rsp) s (λ _ s', sharing s' i p (l ++ [c])).
Proof.
  intros [(Q & HQ & HQp & Hlow) Hp Hcur (Hi & Hti & Hil) Hrun].
  destruct (q_list _ _ HQ p Hp) as [_ HN]. rewrite HQp in HN. apply NoDup_cons in HN as [Hcl HN].
  pose proof (q_prio _ _ HQ p c Hp ltac:(rewrite HQp; left)) as Hpc.
  apply fmap_Some in Hpc as (tc & Htc & Hep).
  pose proof (Hrun c ltac:(left)) as Hst. rewrite (bare_Some s c tc Htc) in Hst. injection Hst as Hst.
  unfold schedule. eapply wp_mono.
  { eapply (sched_switch_spec s Q c tc i rsp); [done|by rewrite Hcur|done|done|].
    destruct Hti as [u Hu]. apply bare_lookup in Hu as (?&->&_). done. }
  intros r s' (n & tn & HQ' & Hch & Hcur' & Hb' & Hn & _ & _ & _ & _ & Hid & _).
  assert (idle_task s ≠ Some c) as Hci by (rewrite Hi; intros [= ->]; set_solver).
  assert (requeued s Q c tc p = l ++ [c] ∧ ∀ q, q ≠ p → requeued s Q c tc q = Q q) as [HQp' HQne].
  { unfold requeued. rewrite (bool_decide_false (idle_task s = _)) by done. rewrite <-Hep. split.
    - rewrite upd_eq, HQp, filter_cons_False, filter_out by auto. by rewrite bool_decide_true.
    - intros q Hq. by rewrite upd_ne. }
  assert (∀ x, t_state <$> bare s !! x = Some RUNNABLE → t_state <$> bare s' !! x = Some RUNNABLE) as Hrun'.
  { intros x Hx. rewrite Hb'. unfold switched_bare. apply fmap_Some in Hx as (u & Hu & Hs).
    destruct (decide (x = c)) as [->|Hxc]; repeat case_bool_decide;
      rewrite ?lookup_alter_eq, ?lookup_alter_ne by done; rewrite Hu; simpl; by rewrite Hs. }
  assert (∀ q, (q < p)%nat → requeued s Q c tc q = []) as Hlow' by (intros q Hq; rewrite HQne by lia; by apply Hlow).
  split.
  - eauto.
  - done.
  - rewrite Hcur'. destruct Hch as [(p' & Hp' & Hh & Hl)|[Hall _]].
    + destruct (lt_eq_lt_dec p' p) as [[?| ->]|?].
      * rewrite Hlow' in Hh by done. done.
      * by rewrite HQp' in Hh.
      * specialize (Hl p ltac:(lia)). rewrite HQp' in Hl. by destruct l.
    + specialize (Hall p Hp). rewrite HQp' in Hall. by destruct l.
  - rewrite Hid. split_and!; [done| |set_solver]. rewrite Hb'. unfold switched_bare.
    repeat case_bool_decide; by rewrite ?lookup_alter_is_Some.
  - intros x Hx. apply Hrun', Hrun. set_solver.
Qed.

Lemma switches_rotate a : ∀ s i p b rsps, sharing s i p (a ++ b) → length rsps = length a →
  wp (switches rsps) s (λ ns s', ns = take (length a) (tail (Some <$> (a ++ b ++ a))) ∧ sharing s' i p (b ++ a)).
Proof.
  induction a as [|c a IH]; intros s i p b [|rsp rsps] Hs Hlen; try done; simpl.
  { apply wp_ret. rewrite app_nil_r. done. }
  simpl in Hlen, Hs. apply wp_bind. eapply wp_mono; [by apply schedule_rotates|]. intros r s1 Hs1. simpl in Hs1.
  apply wp_bind, wp_gets. rewrite <-app_assoc in Hs1. apply wp_bind.
  eapply wp_mono; [apply (IH s1 i p (b ++ [c])); [done|lia]|]. intros ns s2 [-> Hs2]. apply wp_ret.
  split; [|by rewrite <-app_assoc in Hs2]. rewrite (sh_current _ _ _ _ Hs1).
  rewrite !fmap_app. simpl. destruct a as [|d a]; simpl.
  - rewrite head_snoc. by destruct b.
  - f_equal. by rewrite <-!app_assoc.
Qed.

(** ** The sleep list *)

Definition until (m : gmap Z task) (x : Z) : Z := from_option t_sleep_until 0 (m !! x).

(** The tasks of [l] are chained through [sleep_next], the last one to [n]. *)
Fixpoint chain (m : gmap Z task) (l : list Z) (n : option Z) : Prop :=
  match l with
  | [] => True
  | x :: l' => t_sleep_next <$> m !! x = Some (first_or l' n) ∧ chain m l' n
  end.

Definition by_deadline (m : gmap Z task) : Z → Z → Prop := λ x y, until m x ≤ until m y.

(** The sleep list holds the tasks of [l], all asleep, the earliest deadline
    first. *)
Record asleep (s : sched) (l : list Z) : Prop := {
  a_head : sleep_queue_head s = head l;
  a_chain : chain (bare s) l None;
  a_nodup : NoDup l;
  a_sorted : StronglySorted (by_deadline (bare s)) l;
  a_state x : x ∈ l → t_state <$> bare s !! x = Some SLEEPING;
}.

Lemma chain_app m l1 : ∀ l2 n, chain m (l1 ++ l2) n ↔ chain m l1 (first_or l2 n) ∧ chain m l2 n.
Proof.
  induction l1 as [|x l1 IH]; intros l2 n; simpl; [tauto|]. rewrite IH, first_or_app. tauto.
Qed.

Lemma chain_ext m m' l n : (∀ x, x ∈ l → t_sleep_next <$> m' !! x = t_sleep_next <$> m !! x) →
  chain m l n → chain m' l n.
Proof.
  induction l as [|x l IH]; [done|]. intros Hm [H1 H2]. split; [rewrite Hm; [done|left]|].
  apply IH; [|done]. intros y Hy. apply Hm. by right.
Qed.

Lemma first_or_head (l : list Z) : first_or l None = head l.
Proof. by destruct l. Qed.

Lemma sorted_ext m m' l : (∀ x, x ∈ l → until m' x = until m x) →
  StronglySorted (by_deadline m) l → StronglySorted (by_deadline m') l.
Proof.
  induction 2 as [|x l Hl IH Hx]; constructor.
  - apply IH. intros y Hy. apply H. by right.
  - rewrite Forall_forall in Hx |- *. intros y Hy. unfold by_deadline.
    rewrite (H x) by left. rewrite (H y) by by right. by apply Hx.
Qed.

(** Changes of tasks that are not asleep do not touch the sleep list. *)
Lemma asleep_ext s s' l : sleep_queue_head s' = sleep_queue_head s →
  (∀ x, x ∈ l → bare s' !! x = bare s !! x) → asleep s l → asleep s' l.
Proof.
  intros Hh Hm [H1 H2 H3 H4 H5]. split.
  - by rewrite Hh.
  - eapply chain_ext; [|done]. intros x Hx. by rewrite Hm.
  - done.
  - eapply sorted_ext; [|done]. intros x Hx. unfold until. by rewrite Hm.
  - intros x Hx. rewrite Hm by done. by apply H5.
Qed.

(** Behind every task with the same or an earlier deadline. *)
Fixpoint insert_sleep (m : gmap Z task) (x d : Z) (l : list Z) : list Z :=
  match l with
  | [] => [x]
  | y :: l' => if d <? until m y then x :: y :: l' else y :: insert_sleep m x d l'
  end.

Lemma insert_sleep_split m x d l : StronglySorted (by_deadline m) l → ∃ l1 l2, l = l1 ++ l2 ∧
  insert_sleep m x d l = l1 ++ x :: l2 ∧ Forall (λ y, until m y ≤ d) l1 ∧ Forall (λ y, d < until m y) l2.
Proof.
  induction 1 as [|y l Hl IH Hy]; simpl; [by exists [], []|].
  destruct (Z.ltb_spec d (until m y)).
  - exists [], (y :: l). split_and!; [done|done|done|]. constructor; [done|].
    eapply Forall_impl; [done|]. unfold by_deadline. simpl. intros; lia.
  - destruct IH as (l1 & l2 & -> & -> & H1 & H2). exists (y :: l1), l2. split_and!; [done|done| |done]. by constructor.
Qed.

Lemma sorted_insert m l1 x l2 : StronglySorted (by_deadline m) (l1 ++ l2) →
  Forall (λ y, until m y ≤ until m x) l1 → Forall (λ y, until m x ≤ until m y) l2 →
  StronglySorted (by_deadline m) (l1 ++ x :: l2).
Proof.
  induction l1 as [|y l1 IH]; simpl; intros Hs H1 H2.
  - constructor; done.
  - apply StronglySorted_inv in Hs as [Hs Hy]. apply Forall_cons in H1 as [Hyx H1].
    constructor; [by apply IH|]. apply Forall_app in Hy as [? ?]. apply Forall_app. split; [done|].
    by constructor.
Qed.

(** The loop stops at the last task of the prefix that wakes no later. *)
Lemma sleep_position_spec s l1 : ∀ n y l2 d, chain (bare s) (y :: l1 ++ l2) None →
  Forall (λ z, until (bare s) z ≤ d) l1 → Forall (λ z, d < until (bare s) z) l2 →
  (∀ z, z ∈ l1 ++ l2 → is_Some (bare s !! z)) → (length l1 < n)%nat →
  wp (sleep_position n y d) s (λ c s', s' = s ∧ Some c = last (y :: l1)).
Proof.
  induction l1 as [|z l1 IH]; intros [|n] y l2 d [Hy Hc] H1 H2 Hl Hn; simpl in Hn; try lia; simpl.
  - apply fmap_Some in Hy as (u & (ty & Hty & <-)%bare_lookup & Hny). apply wp_bind. eapply wp_sload; [done|].
    change (t_sleep_next ty) with (t_sleep_next (strip ty)). rewrite <-Hny. simpl. destruct l2 as [|w l2]; [by apply wp_ret|]. simpl.
    destruct (Hl w) as [uw Huw]; [left|]. pose proof Huw as (tw & Htw & <-)%bare_lookup.
    apply wp_bind. eapply wp_sload; [done|]. apply Forall_cons in H2 as [Hw _].
    unfold until in Hw. rewrite Huw in Hw. simpl in Hw.
    destruct (Z.leb_spec (t_sleep_until tw) d); [lia|]. by apply wp_ret.
  - apply fmap_Some in Hy as (u & (ty & Hty & <-)%bare_lookup & Hny). apply wp_bind. eapply wp_sload; [done|].
    change (t_sleep_next ty) with (t_sleep_next (strip ty)). rewrite <-Hny. simpl.
    destruct (Hl z) as [uz Huz]; [left|]. pose proof Huz as (tz & Htz & <-)%bare_lookup.
    apply wp_bind. eapply wp_sload; [done|]. apply Forall_cons in H1 as [Hz H1].
    unfold until in Hz. rewrite Huz in Hz. simpl in Hz.
    destruct (Z.leb_spec (t_sleep_until tz) d); [|lia].
    apply (IH n z l2 d); [done|done|done| |lia]. intros w Hw. apply Hl. by right.
Qed.

(** The task heap without any of the links. *)
Definition core (s : sched) : gmap Z task := set_sleep_next None <$> bare s.

Lemma core_fields s s' x : core s' !! x = core s !! x →
  t_state <$> bare s' !! x = t_state <$> bare s !! x ∧ until (bare s') x = until (bare s) x ∧
  eff_prio <$> bare s' !! x = eff_prio <$> bare s !! x.
Proof.
  unfold core, until. rewrite !lookup_fmap. intros Hc.
  assert (∀ {B} (f : task → B), (∀ v t, f (set_sleep_next v t) = f t) → f <$> bare s' !! x = f <$> bare s !! x) as Hf.
  { intros B f Hf. assert (f <$> (set_sleep_next None <$> bare s' !! x) = f <$> (set_sleep_next None <$> bare s !! x)) as He
      by by rewrite Hc. destruct (bare s' !! x), (bare s !! x); simpl in *; rewrite ?Hf in He; done. }
  split_and!; [by apply Hf| |by apply Hf].
  pose proof (Hf _ t_sleep_until ltac:(done)) as Hu.
  destruct (bare s' !! x), (bare s !! x); simpl in *; congruence.
Qed.

(** Splicing [x] into the chain. *)
Lemma asleep_insert s s' l1 l2 x : asleep s (l1 ++ l2) → x ∉ l1 ++ l2 →
  t_state <$> bare s !! x = Some SLEEPING →
  Forall (λ y, until (bare s) y ≤ until (bare s) x) l1 → Forall (λ y, until (bare s) x ≤ until (bare s) y) l2 →
  core s' = core s →
  t_sleep_next <$> bare s' !! x = Some (head l2) →
  (∀ y, y ∈ l1 ++ l2 → last l1 ≠ Some y → t_sleep_next <$> bare s' !! y = t_sleep_next <$> bare s !! y) →
  (∀ y, last l1 = Some y → t_sleep_next <$> bare s' !! y = Some (Some x)) →
  sleep_queue_head s' = head (l1 ++ [x]) →
  asleep s' (l1 ++ x :: l2).
Proof.
  intros [A1 A2 A3 A4 A5] Hx Hst H1 H2 Hc Hnx Hny Hnl Hh.
  assert (∀ y, core s' !! y = core s !! y) as Hcy by by rewrite Hc.
  split.
  - rewrite Hh. by destruct l1.
  - apply chain_app in A2 as [C1 C2]. apply NoDup_app in A3 as (N1 & N12 & N2). apply chain_app. split.
    + destruct l1 as [|z l1 _] using rev_ind; [done|]. apply NoDup_app in N1 as (? & Nz & _).
      apply chain_app in C1 as [C1 _]. apply chain_app. split.
      * eapply chain_ext; [|exact C1]. intros y Hy. apply Hny; [set_solver|]. rewrite last_snoc.
        intros [= ->]. specialize (Nz y Hy). set_solver.
      * simpl. rewrite Hnl; [done|]. apply last_snoc.
    + split; [by rewrite first_or_head|]. eapply chain_ext; [|exact C2]. intros y Hy. apply Hny; [set_solver|].
      intros Hl%last_Some_elem_of. by eapply N12.
  - apply NoDup_app in A3 as (N1 & N12 & N2). apply NoDup_app. split_and!; [done| |constructor; [set_solver|done]].
    intros y Hy [->|Hy2]%elem_of_cons; [set_solver|]. by eapply N12.
  - eapply (sorted_ext (bare s)); [intros y Hy; by apply core_fields|].
    by apply sorted_insert.
  - intros y Hy. destruct (core_fields s s' y (Hcy y)) as [-> _].
    apply elem_of_app in Hy as [Hy|[->|Hy]%elem_of_cons]; [apply A5; set_solver|done|apply A5; set_solver].
Qed.

Definition sleeping (d : Z) (t : task) : task :=
  set_sleep_next None (set_sleep_until d (set_running false (set_state SLEEPING t))).

Lemma core_sleep_store s x v : core (with_tasks (alter (set_sleep_next v) x) s) = core s.
Proof.
  unfold core. rewrite bare_store by done. apply map_eq. intros y. rewrite !lookup_fmap.
  destruct (decide (y = x)) as [->|]; [|by rewrite lookup_alter_ne].
  rewrite lookup_alter_eq. by destruct (bare s !! x).
Qed.

Lemma asleep_bare s l x : asleep s l → x ∈ l → is_Some (bare s !! x).
Proof. intros HA Hx. pose proof (a_state _ _ HA x Hx) as H. apply fmap_Some in H as (?&->&_). done. Qed.

(** The walks over the sleep list have enough fuel. *)
Lemma asleep_size s l : asleep s l → (length l ≤ size (tasks s))%nat.
Proof.
  intros HA. rewrite <-(size_list_to_set (C:=gset Z) l) by apply HA. rewrite <-size_dom.
  apply subseteq_size. intros x Hx%elem_of_list_to_set. destruct (asleep_bare s l x HA Hx) as [u Hu].
  apply bare_lookup in Hu as (t & Ht & _). apply elem_of_dom. eauto.
Qed.

(** The fields of the new sleeper are written before the list is walked. *)
Lemma mark_sleeping s Q l x t d : queues s Q → asleep s l → x ∉ l → tasks s !! x = Some t →
  let s1 := with_tasks (alter (set_sleep_next None) x) (with_tasks (alter (set_sleep_until d) x)
              (with_tasks (alter (set_running false) x) (with_tasks (alter (set_state SLEEPING) x) s))) in
  queues s1 Q ∧ asleep s1 l ∧ bare s1 = alter (sleeping d) x (bare s) ∧ is_Some (tasks s1 !! x).
Proof.
  intros HQ HA Hx Ht s1.
  assert (bare s1 = alter (sleeping d) x (bare s)) as Hb.
  { unfold s1. rewrite !bare_store by done. apply map_eq. intros y. destruct (decide (y = x)) as [->|].
    - rewrite !lookup_alter_eq. by destruct (bare s !! x).
    - by rewrite !lookup_alter_ne. }
  split_and!; [by repeat apply queues_store| |done|].
  - eapply (asleep_ext s); [done| |done]. intros y Hy. rewrite Hb, lookup_alter_ne; [done|]. by intros ->.
  - simpl. rewrite !lookup_alter_is_Some. by eexists.
Qed.

(** The three ways [x] is linked in, for a state where its fields are set. *)
Section LinkIn.
  Context (s : sched) (Q : nat → list Z) (l1 l2 : list Z) (x : Z) (t : task).
  Hypothesis HQ : queues s Q.
  Hypothesis HA : asleep s (l1 ++ l2).
  Hypothesis Hx : x ∉ l1 ++ l2.
  Hypothesis Ht : tasks s !! x = Some t.
  Hypothesis Hst : t_state t = SLEEPING.
  Hypothesis H1 : Forall (λ y, until (bare s) y ≤ t_sleep_until t) l1.
  Hypothesis H2 : Forall (λ y, t_sleep_until t < until (bare s) y) l2.

Definition linked_in (s' : sched) : Prop :=
  queues s' Q ∧ asleep s' (l1 ++ x :: l2) ∧ core s' = core s ∧
  io_waiters s' = io_waiters s ∧ current_task s' = current_task s.

Lemma until_x : until (bare s) x = t_sleep_until t.
Proof. unfold until. by rewrite (bare_Some s x t Ht). Qed.

Lemma linked_in_intro s' : queues s' Q → core s' = core s →
  t_sleep_next <$> bare s' !! x = Some (head l2) →
  (∀ y, y ∈ l1 ++ l2 → last l1 ≠ Some y → t_sleep_next <$> bare s' !! y = t_sleep_next <$> bare s !! y) →
  (∀ y, last l1 = Some y → t_sleep_next <$> bare s' !! y = Some (Some x)) →
  sleep_queue_head s' = head (l1 ++ [x]) → io_waiters s' = io_waiters s → current_task s' = current_task s →
  linked_in s'.
Proof using HQ HA Hx Ht Hst H1 H2.
  intros. split_and!; try done. apply (asleep_insert s); try done.
  - rewrite (bare_Some s x t Ht). simpl. by rewrite Hst.
  - rewrite until_x. exact H1.
  - rewrite until_x. eapply Forall_impl; [done|]. simpl. intros; lia.
Qed.

Lemma link_front : l1 = [] →
  wp (store x (set_sleep_next (head l2));; modify (with_sleep (Some x))) s (λ _ s', linked_in s').
Proof using HQ HA Hx Ht Hst H1 H2.
  intros Hl1. apply wp_bind. eapply wp_sstore; [done|]. apply wp_modify.
  set (s1 := with_tasks (alter (set_sleep_next (head l2)) x) s).
  assert (bare s1 = alter (set_sleep_next (head l2)) x (bare s)) as Hb by by apply bare_store.
  assert (queues s1 Q) as HQ1 by by apply queues_store.
  apply linked_in_intro; try done; try change (bare (with_sleep _ s1)) with (bare s1); rewrite ?Hb, ?Hl1; try done.
  - eapply (queues_tasks s1); [intros z; exists id; by rewrite option_fmap_id|done..].
  - apply core_sleep_store.
  - by rewrite lookup_alter_eq, (bare_Some s x t Ht).
  - intros z Hz _. rewrite lookup_alter_ne; [done|]. rewrite Hl1 in Hx. by intros ->.
Qed.

Lemma link_after c : last l1 = Some c →
  wp (u ← load c; store x (set_sleep_next (t_sleep_next u));; store c (set_sleep_next (Some x))) s
    (λ _ s', linked_in s').
Proof using HQ HA Hx Ht Hst H1 H2.
  intros Hlast. assert (c ∈ l1) as Hcl by by apply last_Some_elem_of.
  destruct (asleep_bare s _ c HA) as [uc Huc]; [set_solver|]. pose proof Huc as (tc & Htc & <-)%bare_lookup.
  assert (t_sleep_next tc = head l2) as Hnc.
  { pose proof (a_chain _ _ HA) as Hch.
    assert (∃ l0, l1 = l0 ++ [c]) as [l0 ->] by by apply last_Some.
    rewrite <-app_assoc in Hch. apply chain_app in Hch as [_ [Hch _]]. rewrite Huc in Hch.
    injection Hch as Hch. by rewrite <-first_or_head. }
  assert (c ≠ x) as Hcx by set_solver.
  apply wp_bind. eapply wp_sload; [done|]. rewrite Hnc.
  apply wp_bind. apply (wp_sstore x _ t); [done|]. apply (wp_sstore c _ tc); [simpl; by rewrite lookup_alter_ne|].
  apply linked_in_intro; try done; rewrite ?core_sleep_store, ?bare_store by done.
  - apply queues_store; [done|]. by apply queues_store.
  - done.
  - by rewrite lookup_alter_ne, lookup_alter_eq, (bare_Some s x t Ht) by done.
  - intros z Hz Hzl. rewrite !lookup_alter_ne; [done|congruence|congruence].
  - intros z Hz. rewrite Hlast in Hz. injection Hz as <-.
    by rewrite lookup_alter_eq, lookup_alter_ne, Huc by done.
  - simpl. rewrite (a_head s _ HA). by destruct l1.
Qed.
End LinkIn.

Lemma core_sleeping s s' x d : bare s' = alter (sleeping d) x (bare s) → core s' = alter (sleeping d) x (core s).
Proof.
  unfold core. intros ->. apply map_eq. intros y. rewrite lookup_fmap. destruct (decide (y = x)) as [->|].
  - rewrite !lookup_alter_eq, lookup_fmap. by destruct (bare s !! x).
  - by rewrite !lookup_alter_ne, lookup_fmap.
Qed.

Lemma sched_make_sleep_spec s Q l x t d : queues s Q → asleep s l → x ∉ l → tasks s !! x = Some t →
  wp (sched_make_sleep (Some x) d) s (λ _ s',
    queues s' Q ∧ asleep s' (insert_sleep (bare s) x d l) ∧ core s' = alter (sleeping d) x (core s) ∧
    io_waiters s' = io_waiters s ∧ current_task s' = current_task s).
Proof.
  intros HQ HA Hx Ht. unfold sched_make_sleep.
  do 4 (apply wp_bind; eapply wp_sstore; [simpl; rewrite ?lookup_alter_eq, Ht; done|]).
  destruct (mark_sleeping s Q l x t d HQ HA Hx Ht) as (HQ1 & HA1 & Hb1 & [t1 Ht1]).
  match goal with |- wp _ ?st _ => set (s1 := st) in * end.
  rewrite <-(core_sleeping s s1 x d Hb1).
  change (io_waiters s) with (io_waiters s1). change (current_task s) with (current_task s1).
  assert (strip t1 = sleeping d (strip t)) as Hs1.
  { pose proof (bare_Some s1 x t1 Ht1) as E. rewrite Hb1, lookup_alter_eq, (bare_Some s x t Ht) in E. by apply (inj Some) in E. }
  assert (t_state t1 = SLEEPING) as Hst by (change (t_state t1) with (t_state (strip t1)); by rewrite Hs1).
  assert (t_sleep_until t1 = d) as Hd by (change (t_sleep_until t1) with (t_sleep_until (strip t1)); by rewrite Hs1).
  destruct (insert_sleep_split (bare s) x d l) as (l1 & l2 & -> & -> & H1 & H2); [apply HA|].
  assert (∀ y, y ∈ l1 ++ l2 → until (bare s1) y = until (bare s) y) as Huy.
  { intros y Hy. unfold until. rewrite Hb1, lookup_alter_ne; [done|]. by intros ->. }
  assert (Forall (λ y, until (bare s1) y ≤ t_sleep_until t1) l1) as H1'.
  { rewrite Forall_forall in H1 |- *. intros y Hy. rewrite Hd, Huy by set_solver. by apply H1. }
  assert (Forall (λ y, t_sleep_until t1 < until (bare s1) y) l2) as H2'.
  { rewrite Forall_forall in H2 |- *. intros y Hy. rewrite Hd, Huy by set_solver. by apply H2. }
  apply wp_bind, wp_gets. rewrite (a_head _ _ HA1). rewrite <-Hd.
  destruct l1 as [|y l1].
  - pose proof (link_front s1 Q [] l2 x t1 HQ1 HA1 Hx Ht1 Hst H1' H2' eq_refl) as Hfront.
    destruct l2 as [|z l2]; [exact Hfront|]. simpl.
    destruct (asleep_bare s1 _ z HA1) as [uz Huz]; [left|]. pose proof Huz as (tz & Htz & <-)%bare_lookup.
    apply wp_bind. eapply wp_sload; [done|]. apply Forall_cons in H2' as [Hz _].
    unfold until in Hz. rewrite Huz in Hz. simpl in Hz.
    destruct (Z.ltb_spec (t_sleep_until t1) (t_sleep_until tz)); [exact Hfront|lia].
  - simpl. destruct (asleep_bare s1 _ y HA1) as [uy Huy']; [left|]. pose proof Huy' as (ty & Hty & <-)%bare_lookup.
    apply wp_bind. eapply wp_sload; [done|]. apply Forall_cons in H1' as Hy. destruct Hy as [Hy Hl1].
    unfold until in Hy. rewrite Huy' in Hy. simpl in Hy.
    destruct (Z.ltb_spec (t_sleep_until t1) (t_sleep_until ty)); [lia|].
    apply wp_bind. unfold task_count. apply wp_gets. apply wp_bind.
    pose proof (asleep_size _ _ HA1) as Hsz. rewrite length_app in Hsz. cbn [length] in Hsz.
    eapply wp_mono; [apply (sleep_position_spec s1 l1 _ y l2 (t_sleep_until t1)); [apply HA1|done|done| |lia]|].
    { intros z Hz. eapply asleep_bare; [done|]. by right. }
    intros c s2 [-> Hlast]. by apply (link_after s1 Q (y :: l1) l2 x t1).
Qed.

(** Taking [x] out of the chain. *)
Lemma asleep_remove s s' l1 l2 x : asleep s (l1 ++ x :: l2) → core s' = core s →
  (∀ y, y ∈ l1 ++ l2 → last l1 ≠ Some y → t_sleep_next <$> bare s' !! y = t_sleep_next <$> bare s !! y) →
  (∀ y, last l1 = Some y → t_sleep_next <$> bare s' !! y = Some (head l2)) →
  sleep_queue_head s' = head (l1 ++ l2) →
  asleep s' (l1 ++ l2).
Proof.
  intros [A1 A2 A3 A4 A5] Hc Hny Hnl Hh.
  assert (∀ y, core s' !! y = core s !! y) as Hcy by by rewrite Hc.
  apply chain_app in A2 as [C1 [_ C2]]. apply NoDup_app in A3 as (N1 & N12 & [Nx N2]%NoDup_cons).
  assert (∀ y, y ∈ l1 → y ∉ l2) as N12' by (intros y Hy; specialize (N12 y Hy); set_solver).
  split.
  - done.
  - apply chain_app. split.
    + destruct l1 as [|z l1 _] using rev_ind; [done|]. apply NoDup_app in N1 as (? & Nz & _).
      apply chain_app in C1 as [C1 _]. apply chain_app. split.
      * eapply chain_ext; [|exact C1]. intros y Hy. apply Hny; [set_solver|]. rewrite last_snoc.
        intros [= ->]. specialize (Nz y Hy). set_solver.
      * simpl. rewrite Hnl; [by rewrite first_or_head|]. apply last_snoc.
    + eapply chain_ext; [|exact C2]. intros y Hy. apply Hny; [set_solver|].
      intros Hl%last_Some_elem_of. by eapply N12'.
  - by apply NoDup_app.
  - eapply (sorted_ext (bare s)); [intros y Hy; by apply core_fields|].
    clear -A4. induction l1 as [|y l1 IH]; simpl in *; apply StronglySorted_inv in A4 as [A4 Hy]; [done|].
    constructor; [by apply IH|]. rewrite Forall_app, Forall_cons in Hy. rewrite Forall_app. tauto.
  - intros y Hy. destruct (core_fields s s' y (Hcy y)) as [-> _]. apply A5. set_solver.
Qed.

(** The link that points behind the prefix [l1] of the list. *)
Definition link_of (l1 : list Z) : link := match last l1 with None => LHead | Some y => LNext y end.

Lemma read_link_of s l1 l2 (R : option Z → sched → Prop) : asleep s (l1 ++ l2) → R (head l2) s → wp (read_link (link_of l1)) s R.
Proof.
  intros HA HR. unfold link_of. destruct l1 as [|y l1 _] using rev_ind; simpl.
  - apply wp_gets. by rewrite (a_head _ _ HA).
  - rewrite last_snoc. simpl. pose proof (a_chain _ _ HA) as Hch. rewrite <-app_assoc in Hch.
    apply chain_app in Hch as [_ [Hch _]]. apply fmap_Some in Hch as (u & (t & Ht & <-)%bare_lookup & Hn).
    apply wp_bind. eapply wp_sload; [done|]. apply wp_ret.
    change (t_sleep_next t) with (t_sleep_next (strip t)). rewrite <-Hn. simpl. by rewrite first_or_head.
Qed.

Lemma find_link_spec s x l2 : ∀ l1 n, asleep s (l1 ++ l2) → (length l2 < n)%nat →
  wp (find_link n (link_of l1) x) s (λ lk s', s' = s ∧ ∃ a b, l2 = a ++ b ∧ x ∉ a ∧
    (b = [] ∨ head b = Some x) ∧ lk = link_of (l1 ++ a)).
Proof.
  induction l2 as [|y l2 IH]; intros l1 [|n] HA Hn; simpl in Hn; try lia; simpl;
    apply wp_bind; (eapply read_link_of; [done|]); simpl.
  - apply wp_ret. split; [done|]. exists [], []. rewrite (app_nil_r l1). split_and!; [done|set_solver|by left|done].
  - case_bool_decide as Hy.
    + apply wp_ret. split; [done|]. exists [], (y :: l2). rewrite (app_nil_r l1), Hy. split_and!; [done|set_solver|by right|done].
    + assert (link_of (l1 ++ [y]) = LNext y) as Hlk by (unfold link_of; by rewrite last_snoc).
      eapply wp_mono; [rewrite <-Hlk; apply (IH (l1 ++ [y]) n); [by rewrite <-app_assoc|lia]|].
      intros lk s' (-> & a & b & -> & Ha & Hb & ->). split; [done|]. exists (y :: a), b.
      split_and!; [done|set_solver|done|]. by rewrite <-app_assoc.
Qed.

Lemma sleep_unlink_spec s Q l x t : queues s Q → asleep s l → tasks s !! x = Some t →
  wp (sleep_unlink x) s (λ _ s', queues s' Q ∧ asleep s' (filter (λ y, y ≠ x) l) ∧ core s' = core s ∧
    io_waiters s' = io_waiters s ∧ current_task s' = current_task s ∧ idle_task s' = idle_task s).
Proof.
  intros HQ HA Ht. unfold sleep_unlink. apply wp_bind. unfold task_count. apply wp_gets. apply wp_bind.
  eapply wp_mono; [apply (find_link_spec s x l []); [done|]|].
  { pose proof (asleep_size _ _ HA). lia. }
  intros lk s' (-> & a & b & -> & Ha & Hb & ->). simpl.
  apply wp_bind. eapply read_link_of; [done|].
  destruct b as [|z b]; simpl.
  { apply wp_ret. rewrite app_nil_r in *. rewrite filter_out by done. done. }
  destruct Hb as [|[= ->]]; [done|].
  rewrite filter_split by apply HA. apply wp_bind. eapply wp_sload; [done|].
  assert (t_sleep_next t = head b) as Hn.
  { pose proof (a_chain _ _ HA) as Hch. apply chain_app in Hch as [_ [Hch _]].
    rewrite (bare_Some s x t Ht) in Hch. injection Hch as Hch. by rewrite <-first_or_head. }
  rewrite Hn. unfold link_of. destruct (last a) as [c|] eqn:Hc; simpl.
  - assert (c ∈ a) as Hca by by apply last_Some_elem_of.
    destruct (asleep_bare s _ c HA) as [uc Huc]; [set_solver|]. pose proof Huc as (tc & Htc & <-)%bare_lookup.
    eapply wp_sstore; [done|]. split_and!; try done; [by apply queues_store| |apply core_sleep_store].
    apply (asleep_remove s _ a b x); [done|apply core_sleep_store| | |].
    + intros y Hy Hl. rewrite bare_store by done. rewrite lookup_alter_ne; [done|congruence].
    + intros y [= <-]%(eq_trans (eq_sym Hc)). rewrite bare_store by done. by rewrite lookup_alter_eq, Huc.
    + simpl. rewrite (a_head _ _ HA). by destruct a.
  - apply last_None in Hc as ->. apply wp_modify. split_and!; try done.
    + eapply (queues_tasks s); [intros z; exists id; by rewrite option_fmap_id|done..].
    + by apply (asleep_remove s _ [] b x).
Qed.

(** ** Waking up *)

(** The scheduler between two operations: no sleeper is on a run queue. *)
Record sched_inv (s : sched) (Q : nat → list Z) (l : list Z) : Prop := {
  i_queues : queues s Q;
  i_asleep : asleep s l;
  i_off x p : x ∈ l → (p < NUM_PRIORITIES)%nat → x ∉ Q p;
}.

Definition woken (t : task) : task := awake (set_sleep_until 0 (set_sleep_next None t)).

Definition prio_of (s : sched) (x : Z) : option nat := eff_prio <$> tasks s !! x.

(** [ts] appended in order, each task to the queue of its priority. *)
Definition enqueued (s : sched) (Q : nat → list Z) (ts : list Z) : nat → list Z :=
  λ p, Q p ++ filter (λ x, prio_of s x = Some p) ts.

Lemma enqueued_cons s s' Q x ts t : tasks s !! x = Some t → (∀ y, prio_of s' y = prio_of s y) →
  ∀ p, enqueued s' (upd Q (eff_prio t) (Q (eff_prio t) ++ [x])) ts p = enqueued s Q (x :: ts) p.
Proof.
  intros Ht Hp p. unfold enqueued.
  assert (filter (λ y, prio_of s' y = Some p) ts = filter (λ y, prio_of s y = Some p) ts) as ->.
  { apply list_filter_iff. intros y. by rewrite Hp. }
  assert (prio_of s x = Some (eff_prio t)) as Hx by (unfold prio_of; by rewrite Ht).
  destruct (decide (p = eff_prio t)) as [->|Hne].
  - rewrite upd_eq, filter_cons_True by done. by rewrite <-app_assoc.
  - rewrite upd_ne, filter_cons_False by (done || congruence). done.
Qed.

Lemma enqueued_app s Q a b p : enqueued s (enqueued s Q a) b p = enqueued s Q (a ++ b) p.
Proof. unfold enqueued. by rewrite filter_app, app_assoc. Qed.

Lemma enqueued_prio s s' Q ts p : (∀ y, prio_of s' y = prio_of s y) → enqueued s' Q ts p = enqueued s Q ts p.
Proof. intros Hp. unfold enqueued. f_equal. apply list_filter_iff. intros y. by rewrite Hp. Qed.

Lemma sched_inv_ext s Q Q' l l' : (∀ p, Q' p = Q p) → l' = l → sched_inv s Q l → sched_inv s Q' l'.
Proof. intros HQ -> [A B C]. split; [by eapply queues_ext|done|]. intros y p Hy Hp. rewrite HQ. by apply C. Qed.

Lemma enqueued_nil s Q p : enqueued s Q [] p = Q p.
Proof. unfold enqueued. apply app_nil_r. Qed.

Lemma prio_of_bare s x : prio_of s x = eff_prio <$> bare s !! x.
Proof. unfold prio_of, bare. rewrite lookup_fmap. by destruct (tasks s !! x). Qed.

(** The common tail of [sched_wake] and of a round of [sched_timer_tick]. *)
Lemma wake_up_spec s Q l x t : sched_inv s Q l → x ∉ l → tasks s !! x = Some t → x ∉ Q (eff_prio t) →
  wp (wake_up x) s (λ _ s', sched_inv s' (enqueued s Q [x]) l ∧ bare s' = alter woken x (bare s) ∧ rest s' = rest s).
Proof.
  intros [HQ HA Hoff] Hxl Ht HxQ. unfold wake_up.
  do 2 (apply wp_bind; eapply wp_sstore; [simpl; rewrite ?lookup_alter_eq, Ht; done|]).
  match goal with |- wp _ ?st _ => set (s1 := st) end.
  assert (queues s1 Q) as HQ1 by by repeat apply queues_store.
  assert (bare s1 = alter (λ u, set_sleep_until 0 (set_sleep_next None u)) x (bare s)) as Hb1.
  { unfold s1. rewrite !bare_store by done. apply map_eq. intros y. destruct (decide (y = x)) as [->|].
    - rewrite !lookup_alter_eq. by destruct (bare s !! x).
    - by rewrite !lookup_alter_ne. }
  eapply wp_mono; [apply (sched_enqueue_spec s1 Q x (set_sleep_until 0 (set_sleep_next None t))); [done|]|].
  { simpl. by rewrite !lookup_alter_eq, Ht. }
  change (eff_prio (set_sleep_until 0 (set_sleep_next None t))) with (eff_prio t).
  rewrite bool_decide_false by done. intros [] s' (HQ' & Hb' & Hr').
  assert (bare s' = alter woken x (bare s)) as Hb.
  { rewrite Hb', Hb1. apply map_eq. intros y. destruct (decide (y = x)) as [->|].
    - rewrite !lookup_alter_eq. by destruct (bare s !! x).
    - by rewrite !lookup_alter_ne. }
  assert (∀ q, enqueued s Q [x] q = upd Q (eff_prio t) (Q (eff_prio t) ++ [x]) q) as Hq.
  { intros q. rewrite <-(enqueued_cons s s Q x [] t) by done. unfold enqueued. by rewrite app_nil_r. }
  split_and!; [|done|by rewrite Hr'].
  split.
  - by eapply queues_ext.
  - apply rest_inv in Hr' as (Hsl & _). eapply (asleep_ext s); [done| |done].
    intros y Hy. rewrite Hb, lookup_alter_ne; [done|]. by intros ->.
  - intros y p Hy Hp. rewrite Hq. unfold upd. case_decide; [|by apply Hoff]. subst p.
    rewrite elem_of_app, list_elem_of_singleton. intros [Hin| ->]; [by eapply Hoff|done].
Qed.

(** [sched_timer_tick] pops exactly the tasks whose deadline has passed. *)
Lemma timer_loop_spec due : ∀ s Q later n now, sched_inv s Q (due ++ later) →
  Forall (λ x, until (bare s) x ≤ now) due → Forall (λ x, now < until (bare s) x) later →
  (length due < n)%nat →
  wp (timer_loop n now) s (λ _ s',
    sched_inv s' (enqueued s Q due) later ∧
    (∀ x, bare s' !! x = if bool_decide (x ∈ due) then woken <$> bare s !! x else bare s !! x) ∧
    io_waiters s' = io_waiters s ∧ current_task s' = current_task s).
Proof.
  induction due as [|x due IH]; intros s Q later [|n] now HI H1 H2 Hn; simpl in Hn; try lia; simpl;
    apply wp_bind, wp_gets; rewrite (a_head _ _ (i_asleep _ _ _ HI)).
  - assert (sched_inv s (enqueued s Q []) later) as HI' by (eapply sched_inv_ext; [apply enqueued_nil|done..]).
    destruct later as [|y later]; simpl; [by apply wp_ret|].
    destruct (asleep_bare s _ y (i_asleep _ _ _ HI)) as [u Hu]; [left|]. pose proof Hu as (t & Ht & <-)%bare_lookup.
    apply wp_bind. eapply wp_sload; [done|]. apply Forall_cons in H2 as [Hy _]. unfold until in Hy. rewrite Hu in Hy.
    simpl in Hy. destruct (Z.leb_spec (t_sleep_until t) now); [lia|]. by apply wp_ret.
  - simpl. destruct (asleep_bare s _ x (i_asleep _ _ _ HI)) as [u Hu]; [left|]. pose proof Hu as (t & Ht & <-)%bare_lookup.
    apply wp_bind. eapply wp_sload; [done|]. apply Forall_cons in H1 as [Hx H1]. unfold until in Hx. rewrite Hu in Hx.
    simpl in Hx. destruct (Z.leb_spec (t_sleep_until t) now); [|lia].
    apply wp_bind, wp_modify. destruct HI as [HQ HA Ho].
    pose proof (a_nodup _ _ HA) as HN. simpl in HN. apply NoDup_cons in HN as [Hxn HN].
    assert (t_sleep_next t = head (due ++ later)) as Hnx.
    { destruct (a_chain _ _ HA) as [Hch _]. rewrite Hu in Hch. injection Hch as Hch. by rewrite <-first_or_head. }
    set (s1 := with_sleep (t_sleep_next t) s).
    assert (sched_inv s1 Q (due ++ later)) as HI1.
    { split; [eapply (queues_tasks s); [intros z; exists id; by rewrite option_fmap_id|done..]| |].
      - apply (asleep_remove s s1 [] (due ++ later) x); try done.
      - intros y p Hy. apply Ho. by right. }
    change (bare s) with (bare s1) in *. change (tasks s) with (tasks s1) in Ht.
    apply wp_bind. eapply wp_mono; [apply (wake_up_spec s1 Q (due ++ later) x t); [done|done|done|]|].
    { apply Ho; [left|done]. }
    intros [] s2 (HI2 & Hb2 & Hr2). apply rest_inv in Hr2 as (_ & Hio2 & Hcu2 & _).
    assert (∀ y, y ∈ due ++ later → bare s2 !! y = bare s1 !! y) as Hsame.
    { intros y Hy. rewrite Hb2, lookup_alter_ne; [done|]. by intros ->. }
    assert (∀ y, prio_of s2 y = prio_of s1 y) as Hpr.
    { intros y. rewrite !prio_of_bare, Hb2. destruct (decide (y = x)) as [->|]; [|by rewrite lookup_alter_ne].
      rewrite lookup_alter_eq. by destruct (bare s1 !! x). }
    eapply wp_mono; [apply (IH s2 _ later n now HI2); [| |lia]|].
    { rewrite Forall_forall in H1 |- *. intros y Hy. unfold until. rewrite Hsame by set_solver. by apply H1. }
    { rewrite Forall_forall in H2 |- *. intros y Hy. unfold until. rewrite Hsame by set_solver. by apply H2. }
    intros [] s3 (HI3 & Hb3 & Hio3 & Hcu3). split_and!; [|  |by rewrite Hio3|by rewrite Hcu3].
    + assert (∀ p, enqueued s Q (x :: due) p = enqueued s2 (enqueued s1 Q [x]) due p) as Hq.
      { intros p. rewrite <-(enqueued_cons s s2 Q x due t) by done.
        unfold enqueued at 1 2. f_equal. rewrite <-(enqueued_cons s1 s1 Q x [] t) by done. unfold enqueued. by rewrite app_nil_r. }
      by eapply sched_inv_ext.
    + intros y. rewrite Hb3, Hb2. destruct (decide (y = x)) as [->|Hne].
      * rewrite bool_decide_false by set_solver. by rewrite bool_decide_true, lookup_alter_eq by set_solver.
      * rewrite lookup_alter_ne by done. assert (y ∈ due ↔ y ∈ (x :: due)) as Hiff by set_solver.
        by rewrite (bool_decide_ext _ _ Hiff).
Qed.

Lemma filter_true {A} (P : A → Prop) `{∀ a, Decision (P a)} l : Forall P l → filter P l = l.
Proof. induction 1; [done|]. rewrite filter_cons_True by done. by f_equal. Qed.

Lemma filter_ext_in {A} (P R : A → Prop) `{∀ a, Decision (P a)} `{∀ a, Decision (R a)} (l : list A) :
  (∀ a, a ∈ l → P a ↔ R a) → filter P l = filter R l.
Proof.
  induction l as [|a l IH]; intros HPR; [done|]. rewrite !filter_cons, IH by (intros; apply HPR; by right).
  pose proof (HPR a ltac:(left)). repeat case_decide; tauto.
Qed.

Lemma filter_false {A} (P : A → Prop) `{∀ a, Decision (P a)} l : Forall (λ a, ¬ P a) l → filter P l = [].
Proof. induction 1; [done|]. by rewrite filter_cons_False. Qed.

Lemma sorted_due m now l : StronglySorted (by_deadline m) l →
  l = filter (λ x, until m x ≤ now) l ++ filter (λ x, now < until m x) l.
Proof.
  induction 1 as [|x l Hl IH Hx]; [done|]. rewrite !filter_cons. destruct (decide (until m x ≤ now)).
  - rewrite decide_False by lia. simpl. by f_equal.
  - rewrite decide_True by lia. rewrite filter_false, filter_true; [done| |];
      (eapply Forall_impl; [exact Hx|]); unfold by_deadline; simpl; intros; lia.
Qed.

(** ** The theorems *)

(** C25. A task switch ([schedule]) moves the running task, when it is still
    runnable, from wherever it is in its queue to the tail, saves its stack
    pointer, and gives the processor to the head of the first non-empty
    queue, or to the idle task when all are empty.  When the task changes, the FPU image of
    the old task is saved and CR3, the TSS stack, the FS base and the FPU are
    those of the new one; when it does not change the hardware is left alone. *)
Theorem schedule_correct s Q c tc i rsp : queues s Q → current_task s = Some c → tasks s !! c = Some tc →
  idle_task s = Some i → is_Some (tasks s !! i) →
  wp (schedule rsp) s (λ r s', ∃ n tn,
    queues s' (requeued s Q c tc) ∧ chosen (requeued s Q c tc) (Some i) n ∧ current_task s' = Some n ∧
    bare s' = switched_bare s c n rsp tc ∧ bare s' !! n = Some tn ∧ r = t_rsp tn ∧
    hw s' = (if bool_decide (n = c) then hw s else loaded s tn) ∧
    sleep_queue_head s' = sleep_queue_head s ∧ io_waiters s' = io_waiters s ∧
    idle_task s' = idle_task s ∧ kernel_cr3 s' = kernel_cr3 s).
Proof. apply sched_switch_spec. Qed.

(** C26. Round robin: while the tasks of the most urgent queue stay runnable,
    as many switches as it has tasks give the processor to every one of them
    once, in queue order, and lead back to the same queue.  No task of the
    queue starves. *)
Theorem schedule_round_robin s i p c l rsps : sharing s i p (c :: l) → length rsps = S (length l) →
  wp (switches rsps) s (λ ns s', ns = Some <$> (l ++ [c]) ∧ sharing s' i p (c :: l)).
Proof.
  intros Hs Hlen. eapply wp_mono; [apply (switches_rotate (c :: l) s i p [] rsps); [by rewrite app_nil_r|done]|].
  intros ns s' [-> Hs']. split; [|done]. simpl. rewrite !fmap_app. simpl.
  rewrite take_app_ge by (rewrite length_fmap; lia). rewrite length_fmap.
  replace (S (length l) - length l)%nat with 1%nat by lia. done.
Qed.

(** [sched_make_sleep] keeps the sleep list ordered by deadline, puts the
    task behind every sleeper that wakes no later, and changes no other task. *)
Lemma sched_make_sleep_correct s Q l x t d : queues s Q → asleep s l → x ∉ l → tasks s !! x = Some t →
  wp (sched_make_sleep (Some x) d) s (λ _ s',
    queues s' Q ∧ asleep s' (insert_sleep (bare s) x d l) ∧ core s' = alter (sleeping d) x (core s) ∧
    io_waiters s' = io_waiters s ∧ current_task s' = current_task s).
Proof. apply sched_make_sleep_spec. Qed.

(** [sched_timer_tick] wakes exactly the sleepers whose deadline has
    passed: they are runnable, at the tail of their queues in deadline order;
    the others stay asleep and no other task changes. *)
Lemma sched_timer_tick_correct s Q l now : sched_inv s Q l →
  let due := filter (λ x, until (bare s) x ≤ now) l in
  wp (sched_timer_tick now) s (λ _ s',
    sched_inv s' (enqueued s Q due) (filter (λ x, now < until (bare s) x) l) ∧
    (∀ x, bare s' !! x = if bool_decide (x ∈ due) then woken <$> bare s !! x else bare s !! x) ∧
    io_waiters s' = io_waiters s ∧ current_task s' = current_task s).
Proof.
  intros HI due. unfold sched_timer_tick. apply wp_bind. unfold task_count. apply wp_gets.
  pose proof (sorted_due (bare s) now l (a_sorted _ _ (i_asleep _ _ _ HI))) as Hl.
  pose proof (asleep_size _ _ (i_asleep _ _ _ HI)) as Hsz.
  apply timer_loop_spec.
  - unfold due. by rewrite <-Hl.
  - apply Forall_forall. intros x. by intros [? _]%list_elem_of_filter.
  - apply Forall_forall. intros x. by intros [? _]%list_elem_of_filter.
  - pose proof (length_filter (λ x, until (bare s) x ≤ now) l) as Hf. fold due in Hf. lia.
Qed.

(** [awake] with the deadline cleared, on heaps without links. *)
Definition core_woken (t : task) : task := awake (set_sleep_until 0 t).

Lemma sched_wake_spec s Q l x : sched_inv s Q l → is_Some (core s !! x) →
  (∀ y, t_state <$> core s !! y = Some SLEEPING → y ∈ l) →
  wp (sched_wake (Some x)) s (λ _ s',
    sched_inv s' (enqueued s Q (filter (λ y, y ∈ l) [x])) (filter (λ y, y ≠ x) l) ∧ io_waiters s' = io_waiters s ∧
    ∀ y, core s' !! y = if bool_decide (y = x ∧ y ∈ l) then core_woken <$> core s !! y else core s !! y).
Proof.
  intros HI Hx Hall. assert (is_Some (tasks s !! x)) as [t Ht].
  { destruct Hx as [u Hu]. unfold core, bare in Hu. rewrite !lookup_fmap in Hu. by destruct (tasks s !! x). }
  assert (t_state t = SLEEPING ↔ x ∈ l) as Hst.
  { split; intros H.
    - apply Hall. unfold core, bare. rewrite !lookup_fmap, Ht. simpl. by rewrite H.
    - pose proof (a_state _ _ (i_asleep _ _ _ HI) x H) as HH. rewrite (bare_Some s x t Ht) in HH. by injection HH. }
  unfold sched_wake. apply wp_bind. eapply wp_sload; [done|]. rewrite filter_cons. simpl.
  case_bool_decide as Hs.
  - assert (x ∉ l) as Hxl by tauto. apply wp_ret. rewrite decide_False, filter_out by done. split_and!; [|done|].
    + eapply sched_inv_ext; [apply enqueued_nil|done..].
    + intros y. rewrite bool_decide_false; [done|]. intros [-> ?]. done.
  - assert (x ∈ l) as Hxl by (apply Hst; by destruct (decide (t_state t = SLEEPING))). rewrite decide_True by done.
    destruct HI as [HQ HA Ho]. apply wp_bind. eapply wp_mono; [by apply (sleep_unlink_spec s Q l x t)|].
    intros [] s1 (HQ1 & HA1 & Hc1 & Hio1 & _ & _).
    assert (prio_of s1 x = prio_of s x) as Hpr.
    { rewrite !prio_of_bare. apply core_fields. by rewrite Hc1. }
    assert (∃ t1, tasks s1 !! x = Some t1 ∧ eff_prio t1 = eff_prio t) as (t1 & Ht1 & Hp1).
    { unfold prio_of in Hpr. rewrite Ht in Hpr. apply fmap_Some in Hpr as (t1 & ? & ?). eauto. }
    eapply wp_mono; [apply (wake_up_spec s1 Q (filter (λ y, y ≠ x) l) x t1)|].
    + split; [done|done|]. intros y p [_ Hy]%list_elem_of_filter. by apply Ho.
    + rewrite list_elem_of_filter. tauto.
    + done.
    + by apply Ho.
    + intros [] s2 (HI2 & Hb2 & Hr2). apply rest_inv in Hr2 as (_ & Hio2 & _). split_and!; [|congruence|].
      * assert (∀ p, enqueued s Q [x] p = enqueued s1 Q [x] p) as Hq by (intros p; unfold enqueued; by rewrite !filter_cons, Hpr).
        by eapply sched_inv_ext.
      * intros y. rewrite <-Hc1. unfold core. rewrite Hb2, !lookup_fmap. destruct (decide (y = x)) as [->|].
        -- rewrite bool_decide_true, lookup_alter_eq by done. by destruct (bare s1 !! x).
        -- rewrite bool_decide_false by tauto. by rewrite lookup_alter_ne.
Qed.

Lemma wake_each_spec ts : ∀ s Q l, sched_inv s Q l → NoDup ts → (∀ x, x ∈ ts → is_Some (core s !! x)) →
  (∀ y, t_state <$> core s !! y = Some SLEEPING → y ∈ l) →
  wp (wake_each ts) s (λ _ s',
    sched_inv s' (enqueued s Q (filter (λ x, x ∈ l) ts)) (filter (λ x, x ∉ ts) l) ∧
    ∀ y, core s' !! y = if bool_decide (y ∈ ts ∧ y ∈ l) then core_woken <$> core s !! y else core s !! y).
Proof.
  induction ts as [|x ts IH]; intros s Q l HI HN Hdom Hall; simpl.
  { apply wp_ret. rewrite (filter_true (λ x, x ∉ []) l) by (apply Forall_forall; set_solver). split.
    - eapply sched_inv_ext; [apply enqueued_nil|done..].
    - done. }
  apply NoDup_cons in HN as [Hx HN].
  apply wp_bind. eapply wp_mono; [apply (sched_wake_spec s Q l x HI); [apply Hdom; left|done]|].
  intros [] s1 (HI1 & _ & Hc1). eapply wp_mono; [apply (IH s1 _ _ HI1 HN)|].
  { intros y Hy. rewrite Hc1. case_bool_decide; [apply fmap_is_Some|]; apply Hdom; by right. }
  { intros y. rewrite Hc1. case_bool_decide as Hy.
    - destruct (core s !! y); simpl; [|done]. discriminate.
    - intros Hs%Hall. apply list_elem_of_filter. split; [|done]. intros ->. tauto. }
  intros [] s2 (HI2 & Hc2). split.
  - eapply sched_inv_ext; [| |exact HI2].
    + intros p. rewrite (enqueued_prio s s1), enqueued_app.
      * f_equal. change (x :: ts) with ([x] ++ ts). rewrite (filter_app _ [x] ts). f_equal.
        apply filter_ext_in. intros y Hy. rewrite list_elem_of_filter. set_solver.
      * intros y. rewrite !prio_of_bare.
        assert (eff_prio <$> core s1 !! y = eff_prio <$> core s !! y) as He.
        { rewrite Hc1. case_bool_decide; [|done]. by destruct (core s !! y). }
        unfold core in He. rewrite !lookup_fmap in He. by destruct (bare s1 !! y), (bare s !! y).
    + rewrite list_filter_filter. apply list_filter_iff. intros y. set_solver.
  - intros y. rewrite Hc2, Hc1. destruct (decide (y = x)) as [->|Hne].
    + rewrite (bool_decide_false (x ∈ ts ∧ _)) by tauto.
      assert ((x = x ∧ x ∈ l) ↔ (x ∈ x :: ts ∧ x ∈ l)) as Hiff by set_solver. by rewrite (bool_decide_ext _ _ Hiff).
    + rewrite (bool_decide_false (y = x ∧ _)) by tauto.
      assert ((y ∈ ts ∧ y ∈ filter (λ z, z ≠ x) l) ↔ (y ∈ x :: ts ∧ y ∈ l)) as Hiff by (rewrite list_elem_of_filter; set_solver).
      by rewrite (bool_decide_ext _ _ Hiff).
Qed.

Lemma io_wake_all_spec s Q l : sched_inv s Q l → NoDup (io_waiters s) →
  (∀ x, x ∈ io_waiters s → is_Some (core s !! x)) →
  (∀ y, t_state <$> core s !! y = Some SLEEPING → y ∈ l) →
  wp io_wake_all s (λ _ s',
    sched_inv s' (enqueued s Q (filter (λ x, x ∈ l) (io_waiters s))) (filter (λ x, x ∉ io_waiters s) l) ∧
    (∀ y, core s' !! y = if bool_decide (y ∈ io_waiters s ∧ y ∈ l) then core_woken <$> core s !! y else core s !! y) ∧
    io_waiters s' = []).
Proof.
  intros HI HN Hdom Hall. unfold io_wake_all. apply wp_bind, wp_gets. apply wp_bind.
  eapply wp_mono; [by apply wake_each_spec|]. intros [] s1 [[A B C] Hc]. apply wp_modify. split_and!; [|done|done].
  split; [|by eapply (asleep_ext s1)|done].
  eapply (queues_tasks s1); [intros z; exists id; by rewrite option_fmap_id|done..].
Qed.

(** A wake-up for I/O ([io_wake_all]) makes every registered waiter that
    is asleep runnable, leaves the other tasks alone and empties the waiter
    array. *)
Lemma io_wake_all_correct s Q l : sched_inv s Q l → NoDup (io_waiters s) →
  (∀ x, x ∈ io_waiters s → is_Some (core s !! x)) →
  (∀ y, t_state <$> core s !! y = Some SLEEPING → y ∈ l) →
  wp io_wake_all s (λ _ s',
    sched_inv s' (enqueued s Q (filter (λ x, x ∈ l) (io_waiters s))) (filter (λ x, x ∉ io_waiters s) l) ∧
    (∀ y, core s' !! y = if bool_decide (y ∈ io_waiters s ∧ y ∈ l) then core_woken <$> core s !! y else core s !! y) ∧
    io_waiters s' = []).
Proof. apply io_wake_all_spec. Qed.

(** [io_waiters[i] = io_waiters[--io_waiter_count]]. *)
Lemma swap_remove_spec x todo : ∀ pre, NoDup (pre ++ todo) → x ∉ pre →
  swap_remove (length pre) x todo (pre ++ todo) ≡ₚ filter (λ y, y ≠ x) (pre ++ todo).
Proof.
  induction todo as [|y todo IH]; intros pre HN Hx; simpl.
  { rewrite filter_out; [done|]. by rewrite app_nil_r. }
  case_bool_decide as Hy.
  - subst y. rewrite filter_split by done. rewrite length_app. simpl.
    rewrite insert_app_r_alt, Nat.sub_diag by lia. simpl.
    destruct todo as [|z todo _] using rev_ind.
    + rewrite app_nil_r. apply reflexive_eq, take_app_length'. simpl. lia.
    + assert (last (pre ++ x :: todo ++ [z]) = Some z) as -> by (rewrite app_comm_cons, app_assoc; apply last_snoc).
      simpl. rewrite app_comm_cons, app_assoc, take_app_length'
        by (rewrite ?length_app; simpl; rewrite ?length_app; simpl; lia).
      by rewrite <-Permutation_cons_append.
  - replace (pre ++ y :: todo) with ((pre ++ [y]) ++ todo) in * by by rewrite <-app_assoc.
    replace (S (length pre)) with (length (pre ++ [y])) by (rewrite length_app; simpl; lia).
    apply IH; [done|set_solver].
Qed.

(** [sched_forget] removes every reference to a task: afterwards it is on
    no run queue, not on the sleep list and not among the I/O waiters, so its
    memory can be released; every other task keeps its place. *)
Lemma sched_forget_correct s Q l x t : sched_inv s Q l → NoDup (io_waiters s) → tasks s !! x = Some t →
  wp (sched_forget (Some x)) s (λ _ s',
    sched_inv s' (λ p, if (p <? NUM_PRIORITIES)%nat then filter (λ y, y ≠ x) (Q p) else Q p) (filter (λ y, y ≠ x) l) ∧
    io_waiters s' ≡ₚ filter (λ y, y ≠ x) (io_waiters s) ∧ core s' = core s ∧ current_task s' = current_task s).
Proof.
  intros [HQ HA Ho] HN Ht. unfold sched_forget. apply wp_bind.
  eapply wp_mono; [by apply sched_dequeue_spec|]. intros [] s1 (HQ1 & Hb1 & Hr1).
  apply rest_inv in Hr1 as (Hsl1 & Hio1 & Hcu1 & _).
  assert (bare s1 !! x = Some (strip t)) as (t1 & Ht1 & _)%bare_lookup by (rewrite Hb1; by apply bare_Some).
  assert (asleep s1 l) as HA1 by (eapply (asleep_ext s); [done|by rewrite Hb1|done]).
  apply wp_bind. eapply wp_mono; [by eapply (sleep_unlink_spec s1)|].
  intros [] s2 (HQ2 & HA2 & Hc2 & Hio2 & Hcu2 & _).
  assert (is_Some (core s2 !! x)) as [u Hu].
  { rewrite Hc2. unfold core. rewrite Hb1, lookup_fmap, (bare_Some s x t Ht). by eexists. }
  assert (∃ t2, tasks s2 !! x = Some t2) as [t2 Ht2].
  { unfold core, bare in Hu. rewrite !lookup_fmap in Hu. destruct (tasks s2 !! x); [eauto|done]. }
  apply wp_bind. eapply wp_sstore; [done|]. set (s3 := with_tasks _ s2).
  assert (queues s3 (upd Q (eff_prio t) (filter (λ y, y ≠ x) (Q (eff_prio t))))) as HQ3 by by apply queues_store.
  assert (asleep s3 (filter (λ y, y ≠ x) l)) as HA3.
  { eapply (asleep_ext s2); [done| |done]. intros y [Hy _]%list_elem_of_filter. unfold s3.
    rewrite bare_store by done. by rewrite lookup_alter_ne. }
  apply wp_modify. split_and!.
  - split.
    + eapply queues_ext; [|eapply (queues_tasks s3); [intros z; exists id; by rewrite option_fmap_id|done..]].
      intros p. unfold upd. destruct (decide (p = eff_prio t)) as [->|Hne].
      * destruct (Nat.ltb_spec (eff_prio t) NUM_PRIORITIES); [done|]. pose proof (eff_prio_lt t). lia.
      * destruct (Nat.ltb_spec p NUM_PRIORITIES); [|done]. apply filter_out. intros Hp. apply Hne. exact (queued_prio s Q p x t HQ ltac:(assumption) Ht Hp).
    + by eapply (asleep_ext s3).
    + intros y p [_ Hy]%list_elem_of_filter Hp. rewrite (proj2 (Nat.ltb_lt _ _) Hp), list_elem_of_filter.
      intros [_ Hin]. by eapply Ho.
  - simpl. rewrite Hio2, Hio1. apply (swap_remove_spec x (io_waiters s) []); [done|set_solver].
  - change (core s3 = core s). unfold s3. rewrite core_sleep_store, Hc2. unfold core. by rewrite Hb1.
  - simpl. by rewrite Hcu2.
Qed.

(** ** A concrete scheduler: idle task 1, tasks 2 and 3 queued at priority 8,
    tasks 4 and 5 asleep until tick 10 and 7; task 4 waits for I/O. *)

Definition demo_task (prio : nat) (rsp : Z) : task :=
  mk_task rsp (rsp + 4096) BLOCKED false prio 10 0 0 None None rsp None None.

Definition demo_empty : sched :=
  mk_sched (list_to_map [(1, demo_task 31 100); (2, demo_task 8 200); (3, demo_task 8 300); (4, demo_task 8 400); (5, demo_task 16 500)])
    (replicate 32 None) (replicate 32 None) 0 None [4] (Some 2) (Some 1) 7 (mk_cpu 7 0 0 0).

Definition demo_queued : sched := exec (sched_enqueue (Some 3)) (exec (sched_enqueue (Some 2)) demo_empty).

Definition demo : sched := exec (sched_make_sleep (Some 5) 7) (exec (sched_make_sleep (Some 4) 10) demo_queued).

Definition demo_Q : nat → list Z := upd (λ _, []) 8 [2; 3].

Definition task_at (s : sched) (x : Z) : task := default (demo_task 8 0) (tasks s !! x).

Lemma demo_empty_queues : queues demo_empty (λ _, []).
Proof.
  split; try done.
  - intros p Hp. change (run_queues demo_empty) with (replicate 32 (@None Z)). by rewrite lookup_replicate_2.
  - intros p Hp. change (run_queues_tail demo_empty) with (replicate 32 (@None Z)). by rewrite lookup_replicate_2.
  - intros p Hp. split; [done|constructor].
  - intros p x _ Hx. set_solver.
  - intros x t Ht _. revert x t Ht. change (map_Forall (λ _ t, t_sched_next t = None ∧ t_sched_prev t = None) (tasks demo_empty)).
    refine (bool_decide_unpack _ _). vm_compute. exact I.
  - intros i Hi. split; [|naive_solver]. simpl. by rewrite Z.bits_0.
Qed.

Lemma demo_queued_queues : queues demo_queued demo_Q.
Proof.
  unfold demo_queued. apply wp_exec. eapply wp_mono.
  { apply (sched_enqueue_spec _ (upd (λ _, []) 8 [2]) 3 (demo_task 8 300)); [|vm_compute; reflexivity].
    apply wp_exec. eapply wp_mono; [apply (sched_enqueue_spec _ _ 2 (demo_task 8 200) demo_empty_queues); reflexivity|].
    intros [] s' H. rewrite bool_decide_false in H by set_solver. apply H. }
  intros [] s' H. change (eff_prio (demo_task 8 300)) with 8%nat in H. rewrite upd_eq in H.
  rewrite bool_decide_false in H by set_solver. destruct H as [H _].
  eapply queues_ext; [|exact H]. intros q. unfold demo_Q, upd. by case_decide.
Qed.

Lemma demo_one_asleep : let s := exec (sched_make_sleep (Some 4) 10) demo_queued in
  queues s demo_Q ∧ asleep s [4].
Proof.
  apply wp_exec. eapply wp_mono.
  { apply (sched_make_sleep_spec _ demo_Q [] 4 (demo_task 8 400) 10 demo_queued_queues).
    - split; [done|done|constructor|constructor|set_solver].
    - set_solver.
    - vm_compute. reflexivity. }
  intros [] s' (H1 & H2 & _). done.
Qed.

Lemma demo_inv : sched_inv demo demo_Q [5; 4].
Proof.
  assert (queues demo demo_Q ∧ asleep demo [5; 4]) as [HQ HA].
  { unfold demo. apply wp_exec. eapply wp_mono.
    { eapply (sched_make_sleep_spec _ demo_Q [4] 5); [apply demo_one_asleep..|set_solver|vm_compute; reflexivity]. }
    intros [] s' (H1 & H2 & _). done. }
  split; [done|done|]. intros x p Hx _. unfold demo_Q, upd. case_decide; set_solver.
Qed.

Lemma demo_sharing : sharing demo_queued 1 8 [2; 3].
Proof.
  split.
  - exists demo_Q. split_and!; [apply demo_queued_queues|done|]. intros q Hq. unfold demo_Q. by rewrite upd_ne by lia.
  - unfold NUM_PRIORITIES. lia.
  - reflexivity.
  - split_and!; [reflexivity|vm_compute; by eexists|set_solver].
  - intros x Hx. repeat apply elem_of_cons in Hx as [->|Hx]; [reflexivity..|set_solver].
Qed.

(** At task 2 the switch goes to task 3, with its context loaded. *)
Lemma schedule_correct_witness : ∃ n tn s', schedule 250 demo_queued = Ret (t_rsp tn, s') ∧ n = 3 ∧
  current_task s' = Some n ∧ queues s' (requeued demo_queued demo_Q 2 (task_at demo_queued 2)).
Proof.
  destruct (wp_run _ _ _ (schedule_correct demo_queued demo_Q 2 (task_at demo_queued 2) 1 250
    demo_queued_queues eq_refl ltac:(vm_compute; reflexivity) eq_refl ltac:(vm_compute; by eexists)))
    as (r & s' & Hrun & n & tn & HQ & _ & Hn & _ & _ & -> & _).
  exists n, tn, s'. split_and!; [exact Hrun| |exact Hn|exact HQ].
  assert (current_task (exec (schedule 250) demo_queued) = Some 3) as H3 by reflexivity.
  unfold exec in H3. rewrite Hrun in H3. congruence.
Defined.

Lemma schedule_round_robin_witness : wp (switches [250; 350]) demo_queued (λ ns s', ns = [Some 3; Some 2] ∧ sharing s' 1 8 [2; 3]).
Proof. apply (schedule_round_robin demo_queued 1 8 2 [3] [250; 350] demo_sharing eq_refl). Defined.

Lemma sched_make_sleep_correct_witness :
  asleep (exec (sched_make_sleep (Some 3) 10) demo) [5; 4; 3].
Proof.
  apply wp_exec. eapply wp_mono.
  { apply (sched_make_sleep_correct demo demo_Q [5; 4] 3 (task_at demo 3) 10
      (i_queues _ _ _ demo_inv) (i_asleep _ _ _ demo_inv)); [set_solver|vm_compute; reflexivity]. }
  intros [] s' (_ & H & _). exact H.
Defined.

Lemma sched_timer_tick_correct_witness : sched_inv (exec (sched_timer_tick 8) demo)
  (enqueued demo demo_Q [5]) [4].
Proof.
  apply wp_exec. eapply wp_mono; [apply (sched_timer_tick_correct demo demo_Q [5; 4] 8 demo_inv)|].
  intros [] s' (H & _). exact H.
Defined.

Lemma io_wake_all_correct_witness : sched_inv (exec io_wake_all demo) (enqueued demo demo_Q [4]) [5].
Proof.
  apply wp_exec. eapply wp_mono; [apply (io_wake_all_correct demo demo_Q [5; 4] demo_inv)|].
  - apply (bool_decide_unpack _). vm_compute. exact I.
  - intros x Hx. change (x ∈ [4]) in Hx. apply list_elem_of_singleton in Hx as ->. vm_compute. by eexists.
  - intros y. revert y. assert (map_Forall (λ y t, t_state t = SLEEPING → y ∈ [5; 4]) (core demo)) as H.
    { apply (bool_decide_unpack _). vm_compute. exact I. }
    intros y (t & Ht & Hs)%fmap_Some. by apply (H y t Ht).
  - intros [] s' (H & _). exact H.
Defined.

Lemma sched_forget_correct_witness : ¬ 4 ∈ io_waiters (exec (sched_forget (Some 4)) demo) ∧
  sched_inv (exec (sched_forget (Some 4)) demo) (λ p, if (p <? NUM_PRIORITIES)%nat then filter (λ y, y ≠ 4) (demo_Q p) else demo_Q p) [5].
Proof.
  split; [apply (bool_decide_unpack _); vm_compute; exact I|]. apply wp_exec. eapply wp_mono.
  { apply (sched_forget_correct demo demo_Q [5; 4] 4 (task_at demo 4) demo_inv); [|vm_compute; reflexivity].
    apply (bool_decide_unpack _). vm_compute. exact I. }
  intros [] s' (H & _). exact H.
Defined.

End SchedSpec.
