(* ===== verification/CString.v ===== *)
(** * The kernel's C library ([libs/string.c], [libs/stdio.c])

    Memory is a map from addresses to bytes; an access to an address that is
    not mapped faults.  Pointers are addresses, NULL is 0.  A loop whose end
    depends on the memory it reads is given as many rounds as memory has bytes:
    each round reads a new address, so it faults before the rounds run out. *)
From S2P Require Import Prelude.

Module CString.

Abbreviation mem := (gmap Z Z).

Definition ld (a : Z) : M mem Z := deref (λ m, m !! a).

Definition st (a b : Z) : M mem unit := _ ← ld a; modify (<[a := u8 b]>).

(** Little-endian words of [n] bytes. *)
Fixpoint ld_le (n : nat) (a : Z) : M mem Z :=
  match n with
  | O => mret 0
  | S n' => b ← ld a; r ← ld_le n' (a + 1); mret (b + 256 * r)
  end.

Fixpoint st_le (n : nat) (a v : Z) : M mem unit :=
  match n with
  | O => mret tt
  | S n' => st a (v mod 256);; st_le n' (a + 1) (v / 256)
  end.

Definition rounds : M mem nat := gets (λ m, S (size m)).

(** ** Blocks of memory *)

(** [while (n >= 8) { *(uint64_t* )d = *(uint64_t* )s; d += 8; s += 8; n -= 8; }] *)
Fixpoint copy_words (fuel : nat) (d s n : Z) : M mem (Z * Z * Z) :=
  match fuel with
  | O => λ _, Wait
  | S fuel' =>
      if 8 <=? n then
        v ← ld_le 8 s;
        st_le 8 d v;;
        copy_words fuel' (d + 8) (s + 8) (n - 8)
      else mret (d, s, n)
  end.

(** [while (n--) *d++ = *s++;] *)
Fixpoint copy_bytes (n : nat) (d s : Z) : M mem unit :=
  match n with
  | O => mret tt
  | S n' => b ← ld s; st d b;; copy_bytes n' (d + 1) (s + 1)
  end.

Definition memcpy (dest src n : Z) : M mem Z :=
  '(d, s, k) ← (if (dest mod 8 =? 0) && (src mod 8 =? 0)
                then copy_words (S (Z.to_nat n)) dest src n
                else mret (dest, src, n));
  copy_bytes (Z.to_nat k) d s;;
  mret dest.

Definition memset (s c n : Z) : M mem Z :=
  for_loop 0 (Z.to_nat n) (λ i, st (s + i) c);;
  mret s.

(** [for (size_t i = n; i > 0; i--) d[i - 1] = s[i - 1];] *)
Fixpoint copy_backward (i : nat) (d s : Z) : M mem unit :=
  match i with
  | O => mret tt
  | S i' => b ← ld (s + Z.of_nat i'); st (d + Z.of_nat i') b;; copy_backward i' d s
  end.

Definition memmove (dest src n : Z) : M mem Z :=
  if (dest =? src) || (n =? 0) then mret dest else
  (if dest <? src
   then for_loop 0 (Z.to_nat n) (λ i, b ← ld (src + i); st (dest + i) b)
   else copy_backward (Z.to_nat n) dest src);;
  mret dest.

Fixpoint memcmp_loop (n : nat) (p1 p2 : Z) : M mem Z :=
  match n with
  | O => mret 0
  | S n' =>
      a ← ld p1; b ← ld p2;
      if a =? b then memcmp_loop n' (p1 + 1) (p2 + 1) else mret (a - b)
  end.

Definition memcmp (s1 s2 n : Z) : M mem Z := memcmp_loop (Z.to_nat n) s1 s2.

(** ** Strings *)

Fixpoint strlen_loop (fuel : nat) (s len : Z) : M mem Z :=
  match fuel with
  | O => λ _, Wait
  | S fuel' => c ← ld (s + len); if c =? 0 then mret len else strlen_loop fuel' s (len + 1)
  end.

Definition strlen (s : Z) : M mem Z := n ← rounds; strlen_loop n s 0.

Fixpoint strcmp_loop (fuel : nat) (s1 s2 : Z) : M mem Z :=
  match fuel with
  | O => λ _, Wait
  | S fuel' =>
      a ← ld s1; b ← ld s2;
      if negb (a =? 0) && (a =? b) then strcmp_loop fuel' (s1 + 1) (s2 + 1) else mret (a - b)
  end.

Definition strcmp (s1 s2 : Z) : M mem Z := n ← rounds; strcmp_loop n s1 s2.

Fixpoint strncmp_loop (n : nat) (s1 s2 : Z) : M mem Z :=
  match n with
  | O => mret 0
  | S n' =>
      a ← ld s1;
      b ← ld s2;
      if negb (a =? 0) && (a =? b) then strncmp_loop n' (s1 + 1) (s2 + 1) else mret (a - b)
  end.

Definition strncmp (s1 s2 n : Z) : M mem Z := strncmp_loop (Z.to_nat n) s1 s2.

Fixpoint strcpy_loop (fuel : nat) (d s : Z) : M mem unit :=
  match fuel with
  | O => λ _, Wait
  | S fuel' => c ← ld s; st d c;; if c =? 0 then mret tt else strcpy_loop fuel' (d + 1) (s + 1)
  end.

Definition strcpy (dest src : Z) : M mem Z := n ← rounds; strcpy_loop n dest src;; mret dest.

(** The first loop of [strncpy]: copies up to [n - i] characters, returns [i]. *)
Fixpoint strncpy_copy (k : nat) (dest src i : Z) : M mem Z :=
  match k with
  | O => mret i
  | S k' => c ← ld (src + i); if c =? 0 then mret i else st (dest + i) c;; strncpy_copy k' dest src (i + 1)
  end.

Definition strncpy (dest src n : Z) : M mem Z :=
  i ← strncpy_copy (Z.to_nat n) dest src 0;
  for_loop i (Z.to_nat (n - i)) (λ j, st (dest + j) 0);;
  mret dest.

(** [while ( *p1 && *p2 && *p1 == *p2) { p1++; p2++; }], returns [p2]. *)
Fixpoint match_here (fuel : nat) (p1 p2 : Z) : M mem Z :=
  match fuel with
  | O => λ _, Wait
  | S fuel' =>
      a ← ld p1;
      if a =? 0 then mret p2 else
      b ← ld p2;
      if negb (b =? 0) && (a =? b) then match_here fuel' (p1 + 1) (p2 + 1) else mret p2
  end.

Fixpoint strstr_loop (fuel inner : nat) (p1 needle : Z) : M mem Z :=
  match fuel with
  | O => λ _, Wait
  | S fuel' =>
      c ← ld p1;
      if c =? 0 then mret 0 else
      p2 ← match_here inner p1 needle;
      e ← ld p2;
      if e =? 0 then mret p1 else strstr_loop fuel' inner (p1 + 1) needle
  end.

Definition strstr (haystack needle : Z) : M mem Z :=
  c ← ld needle;
  if c =? 0 then mret haystack else
  n ← rounds; strstr_loop n n haystack needle.

Fixpoint strcat_loop (fuel : nat) (ptr src : Z) : M mem Z :=
  match fuel with
  | O => λ _, Wait
  | S fuel' => c ← ld src; if c =? 0 then mret ptr else st ptr c;; strcat_loop fuel' (ptr + 1) (src + 1)
  end.

Definition strcat (dest src : Z) : M mem Z :=
  l ← strlen dest; n ← rounds;
  p ← strcat_loop n (dest + l) src;
  st p 0;;
  mret dest.

(** [for (p = set; *p; p++) if (c == *p) return true;] *)
Fixpoint char_in (fuel : nat) (c set : Z) : M mem bool :=
  match fuel with
  | O => λ _, Wait
  | S fuel' => d ← ld set; if d =? 0 then mret false else if c =? d then mret true else char_in fuel' c (set + 1)
  end.

Fixpoint strpbrk_loop (fuel inner : nat) (s1 s2 : Z) : M mem Z :=
  match fuel with
  | O => λ _, Wait
  | S fuel' =>
      c ← ld s1;
      if c =? 0 then mret 0 else
      b ← char_in inner c s2;
      if (b : bool) then mret s1 else strpbrk_loop fuel' inner (s1 + 1) s2
  end.

Definition strpbrk (s1 s2 : Z) : M mem Z := n ← rounds; strpbrk_loop n n s1 s2.

Fixpoint strrchr_loop (fuel : nat) (s c last : Z) : M mem Z :=
  match fuel with
  | O => λ _, Wait
  | S fuel' =>
      x ← ld s;
      let last' := if x =? u8 c then s else last in
      if x =? 0 then mret last' else strrchr_loop fuel' (s + 1) c last'
  end.

Definition strrchr (s c : Z) : M mem Z := n ← rounds; strrchr_loop n s c 0.

Fixpoint strchr_loop (fuel : nat) (s c : Z) : M mem Z :=
  match fuel with
  | O => λ _, Wait
  | S fuel' =>
      x ← ld s;
      if x =? 0 then mret (if u8 c =? 0 then s else 0)
      else if x =? u8 c then mret s else strchr_loop fuel' (s + 1) c
  end.

Definition strchr (s c : Z) : M mem Z := n ← rounds; strchr_loop n s c.

(** [strsep]: the string pointer is passed and returned by value; the result
    is the token and the new value of [*stringp]. *)
Fixpoint strsep_loop (fuel inner : nat) (ptr delim : Z) : M mem Z :=
  match fuel with
  | O => λ _, Wait
  | S fuel' =>
      c ← ld ptr;
      if c =? 0 then mret 0 else
      b ← char_in inner c delim;
      if (b : bool) then st ptr 0;; mret (ptr + 1) else strsep_loop fuel' inner (ptr + 1) delim
  end.

Definition strsep (stringp delim : Z) : M mem (Z * Z) :=
  if stringp =? 0 then mret (0, 0) else
  n ← rounds;
  rest ← strsep_loop n n stringp delim;
  mret (stringp, rest).

(** [strtok]: [strtok_last] is passed and returned. *)
Fixpoint skip_delims (fuel : nat) (stop_at : bool) (s delim : Z) : M mem Z :=
  match fuel with
  | O => λ _, Wait
  | S fuel' =>
      c ← ld s;
      if c =? 0 then mret s else
      p ← strpbrk s delim;
      if Bool.eqb (p =? s) stop_at then mret s else skip_delims fuel' stop_at (s + 1) delim
  end.

Definition strtok (strtok_last s delim : Z) : M mem (Z * Z) :=
  let s := if s =? 0 then strtok_last else s in
  if s =? 0 then mret (0, strtok_last) else
  n ← rounds;
  start ← skip_delims n false s delim;
  c ← ld start;
  if c =? 0 then mret (0, 0) else
  e ← skip_delims n true start delim;
  x ← ld e;
  if x =? 0 then mret (start, 0) else
  st e 0;; mret (start, e + 1).

(** ** Numbers and text *)

Definition digit_lower (rem : Z) : Z := if 9 <? rem then rem - 10 + 97 else rem + 48.
Definition digit_upper (rem : Z) : Z := if 9 <? rem then rem - 10 + 65 else rem + 48.

(** The digits of [value], the last one first; returns the number of digits. *)
Fixpoint put_digits (fuel : nat) (digit : Z → Z) (value base buffer i : Z) : M mem Z :=
  match fuel with
  | O => λ _, Wait
  | S fuel' =>
      if value =? 0 then mret i else
      st (buffer + i) (digit (value mod base));;
      put_digits fuel' digit (value / base) base buffer (i + 1)
  end.

(** [while (start < end) swap(buffer[start++], buffer[end--])]. *)
Fixpoint reverse_loop (fuel : nat) (buffer start end_ : Z) : M mem unit :=
  match fuel with
  | O => λ _, Wait
  | S fuel' =>
      if start <? end_ then
        temp ← ld (buffer + start);
        e ← ld (buffer + end_);
        st (buffer + start) e;;
        st (buffer + end_) temp;;
        reverse_loop fuel' buffer (start + 1) (end_ - 1)
      else mret tt
  end.

(** A 64-bit value has at most 64 digits in any base. *)
Definition MAX_DIGITS : nat := 64.

Definition itoa (num base buffer : Z) : M mem unit :=
  if num =? 0 then st (buffer + 0) 48;; st (buffer + 1) 0 else
  let is_negative := (num <? 0) && (base =? 10) in
  let value := if is_negative then u64 (u64 (- (num + 1)) + 1) else u64 num in
  i ← put_digits (S MAX_DIGITS) digit_lower value base buffer 0;
  j ← (if is_negative then st (buffer + i) 45;; mret (i + 1) else mret i);
  st (buffer + j) 0;;
  reverse_loop (S (Z.to_nat j)) buffer 0 (j - 1).

Definition itoa_hex (num buffer : Z) : M mem unit :=
  if num =? 0 then st (buffer + 0) 48;; st (buffer + 1) 0 else
  i ← put_digits (S MAX_DIGITS) digit_upper num 16 buffer 0;
  st (buffer + i) 0;;
  reverse_loop (S (Z.to_nat i)) buffer 0 (i - 1).

Definition is_space (c : Z) : bool :=
  (c =? 32) || (c =? 9) || (c =? 10) || (c =? 13) || (c =? 12) || (c =? 11).

Definition is_digit (c : Z) : bool := (48 <=? c) && (c <=? 57).

Fixpoint skip_space (fuel : nat) (str : Z) : M mem Z :=
  match fuel with
  | O => λ _, Wait
  | S fuel' => c ← ld str; if is_space c then skip_space fuel' (str + 1) else mret str
  end.

(** The accumulator is a signed integer of [w] bits. *)
Fixpoint get_digits (fuel : nat) (w str res : Z) : M mem Z :=
  match fuel with
  | O => λ _, Wait
  | S fuel' =>
      c ← ld str;
      if is_digit c then get_digits fuel' w (str + 1) (sign w (res * 10 + (c - 48))) else mret res
  end.

Definition parse_int (w str : Z) : M mem Z :=
  if str =? 0 then mret 0 else
  n ← rounds;
  p ← skip_space n str;
  c ← ld p;
  let sgn := if c =? 45 then -1 else 1 in
  let p' := if (c =? 45) || (c =? 43) then p + 1 else p in
  res ← get_digits n w p' 0;
  mret (sign w (sgn * res)).

Definition atoi (str : Z) : M mem Z := parse_int 32 str.

Definition atoll (str : Z) : M mem Z := parse_int 64 str.

(** ** Formatted output

    The variable arguments are the 64-bit slots the caller passed. *)

Definition va_list := list Z.

Definition va_arg (args : va_list) : M mem (Z * va_list) :=
  match args with [] => fault | v :: args' => mret (v, args') end.

(** The loop variables of [vsnprintf]: [f], [ptr], [written] and the arguments. *)
Record vs := mk_vs { v_f : Z; v_ptr : Z; v_written : Z; v_args : va_list }.

Definition advance (k : Z) (v : vs) : vs := mk_vs (v_f v + k) (v_ptr v) (v_written v) (v_args v).

(** [*ptr++ = c; written++;] *)
Definition put_char (c : Z) (v : vs) : M mem vs :=
  st (v_ptr v) c;; mret (mk_vs (v_f v) (v_ptr v + 1) (v_written v + 1) (v_args v)).

Fixpoint read_width (fuel : nat) (f width : Z) : M mem (Z * Z) :=
  match fuel with
  | O => λ _, Wait
  | S fuel' =>
      c ← ld f;
      if is_digit c then read_width fuel' (f + 1) (i32 (width * 10 + (c - 48))) else mret (f, width)
  end.

(** [while (len < width && written < max_chars) *ptr++ = pad;], at most [n] rounds. *)
Fixpoint put_padding (n : nat) (pad max_chars : Z) (v : vs) : M mem vs :=
  match n with
  | O => mret v
  | S n' =>
      if v_written v <? max_chars then v' ← put_char pad v; put_padding n' pad max_chars v' else mret v
  end.

(** [while ( *t && written < max_chars) *ptr++ = *t++;] *)
Fixpoint put_string (fuel : nat) (t max_chars : Z) (v : vs) : M mem vs :=
  match fuel with
  | O => λ _, Wait
  | S fuel' =>
      c ← ld t;
      if negb (c =? 0) && (v_written v <? max_chars)
      then v' ← put_char c v; put_string fuel' (t + 1) max_chars v' else mret v
  end.

(** The string a NULL argument is replaced by, somewhere in read-only data. *)
Fixpoint put_chars (l : list Z) (max_chars : Z) (v : vs) : M mem vs :=
  match l with
  | [] => mret v
  | c :: l' => if v_written v <? max_chars then v' ← put_char c v; put_chars l' max_chars v' else mret v
  end.

Definition null_text : list Z := [40; 110; 117; 108; 108; 41].

Definition is_number_conversion (c : Z) : bool :=
  (c =? 117) || (c =? 100) || (c =? 120) || (c =? 88) || (c =? 112).

Definition is_hex_conversion (c : Z) : bool := (c =? 112) || (c =? 120) || (c =? 88).

(** The conversion the directive ends in. *)
Definition convert (temp_buf max_chars pad width : Z) (is_long : bool) (c : Z) (v : vs) : M mem vs :=
  n ← rounds;
  if is_number_conversion c then
    '(slot, args) ← va_arg (v_args v);
    let val := if (c =? 112) || is_long then slot else u32 slot in
    (if is_hex_conversion c then itoa_hex val temp_buf else itoa (i64 val) 10 temp_buf);;
    len ← strlen temp_buf;
    v1 ← put_padding (Z.to_nat (width - len)) pad max_chars (mk_vs (v_f v) (v_ptr v) (v_written v) args);
    put_string n temp_buf max_chars v1
  else if c =? 115 then
    '(s, args) ← va_arg (v_args v);
    let v1 := mk_vs (v_f v) (v_ptr v) (v_written v) args in
    if s =? 0 then put_chars null_text max_chars v1 else put_string n s max_chars v1
  else if c =? 99 then
    '(slot, args) ← va_arg (v_args v);
    put_char slot (mk_vs (v_f v) (v_ptr v) (v_written v) args)
  else if c =? 37 then put_char 37 v
  else mret v.

(** One directive, from behind the [%] on. *)
Definition directive (temp_buf max_chars : Z) (v : vs) : M mem vs :=
  n ← rounds;
  z ← ld (v_f v);
  let pad := if z =? 48 then 48 else 32 in
  let f := if z =? 48 then v_f v + 1 else v_f v in
  '(f, width) ← read_width n f 0;
  l1 ← ld f;
  l2 ← (if l1 =? 108 then ld (f + 1) else mret 0);
  let is_long := l1 =? 108 in
  let f := if l1 =? 108 then (if l2 =? 108 then f + 2 else f + 1) else f in
  c ← ld f;
  v' ← convert temp_buf max_chars pad width is_long c (mk_vs f (v_ptr v) (v_written v) (v_args v));
  mret (if c =? 0 then v' else advance 1 v').

Fixpoint vsnprintf_loop (fuel : nat) (temp_buf max_chars : Z) (v : vs) : M mem vs :=
  match fuel with
  | O => λ _, Wait
  | S fuel' =>
      c ← ld (v_f v);
      if negb (c =? 0) && (v_written v <? max_chars) then
        v' ← (if c =? 37 then directive temp_buf max_chars (advance 1 v)
              else v1 ← put_char c v; mret (advance 1 v1));
        vsnprintf_loop fuel' temp_buf max_chars v'
      else mret v
  end.

(** [temp_buf] is the address of the local array. *)
Definition vsnprintf (temp_buf buffer size format : Z) (args : va_list) : M mem Z :=
  if (buffer =? 0) || (size =? 0) then mret 0 else
  n ← rounds;
  v ← vsnprintf_loop n temp_buf (size - 1) (mk_vs format buffer 0 args);
  st (v_ptr v) 0;;
  mret (i32 (v_written v)).

Definition snprintf := vsnprintf.

Definition vsprintf (temp_buf buffer format : Z) (args : va_list) : M mem Z :=
  vsnprintf temp_buf buffer (u64 (-1)) format args.

Definition sprintf := vsprintf.

(** [printf] formats into a local buffer of 1024 bytes and hands it to the
    terminal, a parameter here. *)
Definition printf (term_print : Z → M mem unit) (temp_buf buffer format : Z) (args : va_list) : M mem unit :=
  vsnprintf temp_buf buffer 1024 format args;;
  term_print buffer.

End CString.
