(* ===== verification/CStringSpec.v ===== *)
(** * Correctness of the C library *)
From S2P Require Import Prelude CString.

Module CStringSpec.
Import CString.

Implicit Types (m : mem) (a d s x : Z) (l : list Z).

(** ** Memory

    [holds m a l]: the bytes [l] are at [a].  [writes m a l]: [m] after [l] has
    been written at [a]. *)

Definition holds (m : mem) (a : Z) (l : list Z) : Prop :=
  ∀ i b, l !! i = Some b → m !! (a + Z.of_nat i) = Some b.

Fixpoint writes (m : mem) (a : Z) (l : list Z) : mem :=
  match l with
  | [] => m
  | b :: l' => <[a := b]> (writes m (a + 1) l')
  end.

Definition byte (b : Z) : Prop := 0 ≤ b < 256.

(** Every cell holds a byte. *)
Definition bytes_ok (m : mem) : Prop := map_Forall (λ _, byte) m.

(** [n] bytes at [a] are mapped. *)
Definition mapped (m : mem) (a : Z) (n : nat) : Prop := ∀ i, (i < n)%nat → is_Some (m !! (a + Z.of_nat i)).

Lemma u8_byte b : byte b → u8 b = b.
Proof. intros Hb. apply wrap_small. exact Hb. Qed.

Lemma lookup_writes l : ∀ m a x, writes m a l !! x =
  if decide (a ≤ x < a + Z.of_nat (length l)) then l !! Z.to_nat (x - a) else m !! x.
Proof.
  induction l as [|b l IH]; intros m a x; simpl.
  - rewrite decide_False by lia. done.
  - destruct (decide (x = a)) as [->|Hne].
    + rewrite lookup_insert_eq, decide_True by lia. by rewrite Z.sub_diag.
    + rewrite lookup_insert_ne, IH by done. destruct (decide (a + 1 ≤ x < a + 1 + Z.of_nat (length l))).
      * rewrite decide_True by lia. replace (Z.to_nat (x - a)) with (S (Z.to_nat (x - (a + 1)))) by lia. done.
      * rewrite decide_False by lia. done.
Qed.

Lemma writes_in m a l i : (i < length l)%nat → writes m a l !! (a + Z.of_nat i) = l !! i.
Proof. intros Hi. rewrite lookup_writes, decide_True by lia. f_equal. lia. Qed.

Lemma writes_out m a l x : ¬ (a ≤ x < a + Z.of_nat (length l)) → writes m a l !! x = m !! x.
Proof. intros Hx. by rewrite lookup_writes, decide_False. Qed.

Lemma holds_writes m a l : holds (writes m a l) a l.
Proof. intros i b Hb. rewrite writes_in; [done|]. by eapply lookup_lt_Some. Qed.

Lemma writes_app m a l1 l2 : writes m a (l1 ++ l2) = writes (writes m (a + Z.of_nat (length l1)) l2) a l1.
Proof.
  revert a. induction l1 as [|b l1 IH]; intros a; simpl; [by rewrite Z.add_0_r|].
  rewrite IH. do 2 f_equal. f_equal. lia.
Qed.

Lemma writes_writes m a l l' : length l = length l' → writes (writes m a l) a l' = writes m a l'.
Proof.
  intros Hl. apply map_eq. intros x. rewrite !lookup_writes, Hl. by case_decide.
Qed.

(** Writes at different places commute. *)
Lemma insert_writes m a l x b : ¬ (a ≤ x < a + Z.of_nat (length l)) →
  <[x := b]> (writes m a l) = writes (<[x := b]> m) a l.
Proof.
  intros Hx. apply map_eq. intros y. rewrite lookup_writes.
  destruct (decide (y = x)) as [->|].
  - rewrite lookup_insert_eq, decide_False by done. by rewrite lookup_insert_eq.
  - rewrite lookup_insert_ne, lookup_writes by done. case_decide; [done|]. by rewrite lookup_insert_ne.
Qed.

Lemma writes_snoc m a l b : writes m a (l ++ [b]) = <[a + Z.of_nat (length l) := b]> (writes m a l).
Proof. rewrite writes_app. simpl. rewrite insert_writes by lia. done. Qed.

Lemma holds_cons m a b l : holds m a (b :: l) ↔ m !! a = Some b ∧ holds m (a + 1) l.
Proof.
  unfold holds. split.
  - intros H. split; [rewrite <-(Z.add_0_r a); by apply (H 0%nat)|].
    intros i c Hc. replace (a + 1 + Z.of_nat i) with (a + Z.of_nat (S i)) by lia. by apply H.
  - intros [H1 H2] [|i] c Hc; simpl in Hc.
    + injection Hc as ->. by rewrite Z.add_0_r.
    + replace (a + Z.of_nat (S i)) with (a + 1 + Z.of_nat i) by lia. by apply H2.
Qed.

Lemma holds_app m a l1 l2 : holds m a (l1 ++ l2) ↔ holds m a l1 ∧ holds m (a + Z.of_nat (length l1)) l2.
Proof.
  revert a. induction l1 as [|b l1 IH]; intros a; simpl.
  - rewrite Z.add_0_r. split; [intros H; split; [by intros i ?|done]|by intros [_ ?]].
  - rewrite !holds_cons, IH. replace (a + 1 + Z.of_nat (length l1)) with (a + Z.of_nat (S (length l1))) by lia. tauto.
Qed.

Lemma holds_ext m m' a l : (∀ x, a ≤ x < a + Z.of_nat (length l) → m' !! x = m !! x) → holds m a l → holds m' a l.
Proof. intros Hm H i b Hb. rewrite Hm; [by apply H|]. apply lookup_lt_Some in Hb. lia. Qed.

(** A string is untouched by writes elsewhere. *)
Lemma holds_frame m a l d l' : d + Z.of_nat (length l') ≤ a ∨ a + Z.of_nat (length l) ≤ d →
  holds m a l → holds (writes m d l') a l.
Proof. intros Hd. apply holds_ext. intros x Hx. apply writes_out. lia. Qed.

Lemma mapped_S m a n : mapped m a (S n) ↔ is_Some (m !! a) ∧ mapped m (a + 1) n.
Proof.
  unfold mapped. split.
  - intros H. split; [rewrite <-(Z.add_0_r a); apply (H 0%nat); lia|].
    intros i Hi. replace (a + 1 + Z.of_nat i) with (a + Z.of_nat (S i)) by lia. apply H. lia.
  - intros [H1 H2] [|i] Hi; [by rewrite Z.add_0_r|].
    replace (a + Z.of_nat (S i)) with (a + 1 + Z.of_nat i) by lia. apply H2. lia.
Qed.

Lemma mapped_insert m a n x b : mapped m a n → mapped (<[x := b]> m) a n.
Proof. intros H i Hi. apply lookup_insert_is_Some'. right. by apply H. Qed.

Lemma mapped_writes m a n d l : mapped m a n → mapped (writes m d l) a n.
Proof.
  intros H. revert d. induction l as [|b l IH]; intros d; simpl; [done|]. apply mapped_insert, IH.
Qed.

Lemma holds_bytes m a l : bytes_ok m → holds m a l → Forall byte l.
Proof. intros Hm H. apply Forall_lookup_2. intros i b Hb. by eapply Hm, H. Qed.

Lemma bytes_ok_insert m a b : bytes_ok m → byte b → bytes_ok (<[a := b]> m).
Proof. intros. by apply map_Forall_insert_2. Qed.

Lemma bytes_ok_writes m a l : bytes_ok m → Forall byte l → bytes_ok (writes m a l).
Proof. intros Hm Hl. revert a. induction Hl; intros a; simpl; [done|]. by apply bytes_ok_insert. Qed.

(** ** Loads and stores *)

Lemma wp_ld a b m (R : Z → mem → Prop) : m !! a = Some b → R b m → wp (ld a) m R.
Proof. apply (wp_deref (λ m, m !! a)). Qed.

Lemma wp_st a b m (R : unit → mem → Prop) : is_Some (m !! a) → byte b → R tt (<[a := b]> m) → wp (st a b) m R.
Proof.
  intros [v Hv] Hb HR. unfold st. apply wp_bind. eapply wp_ld; [done|]. apply wp_modify. by rewrite u8_byte.
Qed.

(** Little-endian value of a byte list. *)
Fixpoint le_value (l : list Z) : Z := match l with [] => 0 | b :: l' => b + 256 * le_value l' end.

Lemma wp_ld_le n : ∀ a l m (R : Z → mem → Prop), length l = n → holds m a l → R (le_value l) m → wp (ld_le n a) m R.
Proof.
  induction n as [|n IH]; intros a [|b l] m R Hl H HR; try discriminate; simpl; [by apply wp_ret|].
  apply holds_cons in H as [H1 H2]. apply wp_bind. eapply wp_ld; [done|]. apply wp_bind.
  eapply IH; [by injection Hl|done|]. by apply wp_ret.
Qed.

Lemma wp_st_le n : ∀ a l m (R : unit → mem → Prop), length l = n → Forall byte l → mapped m a n →
  R tt (writes m a l) → wp (st_le n a (le_value l)) m R.
Proof.
  induction n as [|n IH]; intros a [|b l] m R Hl Hb Hm HR; try discriminate; simpl; [by apply wp_ret|].
  apply Forall_cons in Hb as [Hb Hbs]. apply mapped_S in Hm as [Hma Hm]. unfold byte in Hb.
  rewrite (Z.mul_comm 256), Z_mod_plus_full, Z.div_add, (Z.mod_small b), (Z.div_small b) by lia.
  rewrite Z.add_0_l. apply wp_bind. apply wp_st; [done|done|].
  eapply IH; [by injection Hl|done|by apply mapped_insert|]. simpl in HR. rewrite insert_writes in HR by lia. done.
Qed.

(** ** memcpy and memmove *)

Definition disjoint (a : Z) (n : nat) (b : Z) (k : nat) : Prop := a + Z.of_nat n ≤ b ∨ b + Z.of_nat k ≤ a.

Lemma copy_bytes_spec n : ∀ d s l m (R : unit → mem → Prop), length l = n → bytes_ok m → holds m s l → mapped m d n →
  d ≤ s ∨ s + Z.of_nat n ≤ d → R tt (writes m d l) → wp (copy_bytes n d s) m R.
Proof.
  induction n as [|n IH]; intros d s [|b l] m R Hl Hok H Hm Hd HR; try discriminate; simpl; [by apply wp_ret|].
  pose proof (holds_bytes _ _ _ Hok H) as [Hb Hbs]%Forall_cons.
  apply holds_cons in H as [H1 H2]. apply mapped_S in Hm as [Hma Hm]. injection Hl as Hl.
  apply wp_bind. eapply wp_ld; [done|]. apply wp_bind. apply wp_st; [done|done|].
  eapply IH; [done|by apply bytes_ok_insert| |by apply mapped_insert|lia|].
  - eapply holds_ext; [|done]. intros x Hx. rewrite lookup_insert_ne; [done|lia].
  - simpl in HR. rewrite insert_writes in HR by lia. done.
Qed.

Lemma copy_words_spec fuel : ∀ d s n l m, (Z.to_nat n < fuel)%nat → 0 ≤ n → Z.of_nat (length l) = n →
  bytes_ok m → holds m s l → mapped m d (length l) → disjoint d (length l) s (length l) →
  wp (copy_words fuel d s n) m (λ '(d', s', n') m', ∃ k, (k ≤ length l)%nat ∧
    d' = d + Z.of_nat k ∧ s' = s + Z.of_nat k ∧ n' = n - Z.of_nat k ∧ m' = writes m d (take k l)).
Proof.
  induction fuel as [|fuel IH]; intros d s n l m Hf Hn Hl Hok H Hm Hd; [lia|]. simpl.
  destruct (Z.leb_spec 8 n) as [Hge|Hlt].
  2:{ apply wp_ret. exists 0%nat. split_and!; [lia|lia|lia|lia|done]. }
  rewrite <-(take_drop 8 l) in H. apply holds_app in H as [H1 H2].
  assert (length (take 8 l) = 8%nat) as Hl8 by (rewrite length_take; lia). rewrite Hl8 in H2.
  pose proof (holds_bytes _ _ _ Hok H1) as Hb8.
  assert (mapped m d 8) as Hm8 by (intros i Hi; apply Hm; lia).
  apply wp_bind. eapply (wp_ld_le 8); [done|done|]. apply wp_bind. eapply (wp_st_le 8); [done|done|done|].
  unfold disjoint in Hd.
  eapply wp_mono; [apply (IH (d + 8) (s + 8) (n - 8) (drop 8 l))|].
  - lia.
  - lia.
  - rewrite length_drop. lia.
  - by apply bytes_ok_writes.
  - apply holds_frame; [rewrite Hl8, length_drop; lia|done].
  - rewrite length_drop. apply mapped_writes. intros i Hi.
    replace (d + 8 + Z.of_nat i) with (d + Z.of_nat (8 + i)) by lia. apply Hm. lia.
  - rewrite length_drop. unfold disjoint. lia.
  - intros [[d' s'] n'] m' (k & Hk & -> & -> & -> & ->). rewrite length_drop in Hk. exists (8 + k)%nat.
    split_and!; [lia|lia|lia|lia|].
    rewrite <-(take_drop 8 l) at 3. rewrite take_app_ge, Hl8 by lia. replace (8 + k - 8)%nat with k by lia.
    apply map_eq. intros x. rewrite !lookup_writes, length_app, Hl8.
    repeat case_decide; try lia; try done.
    + rewrite lookup_app_r, Hl8 by lia. f_equal. lia.
    + rewrite lookup_app_l by lia. done.
Qed.

Lemma memcpy_spec d s l m : bytes_ok m → holds m s l → mapped m d (length l) →
  disjoint d (length l) s (length l) →
  wp (memcpy d s (Z.of_nat (length l))) m (λ r m', r = d ∧ m' = writes m d l).
Proof.
  intros Hok H Hm Hd. unfold memcpy. apply wp_bind.
  apply (wp_mono _ _ (λ '(d', s', n') m', ∃ k, (k ≤ length l)%nat ∧
    d' = d + Z.of_nat k ∧ s' = s + Z.of_nat k ∧ n' = Z.of_nat (length l) - Z.of_nat k ∧ m' = writes m d (take k l))).
  { destruct (_ && _).
    - apply copy_words_spec; [lia|lia|done|done|done|done|done].
    - apply wp_ret. exists 0%nat. split_and!; [lia|lia|lia|lia|done]. }
  intros [[d' s'] n'] m' (k & Hk & -> & -> & -> & ->).
  pose proof (holds_bytes _ _ _ Hok H) as Hbs. unfold disjoint in Hd.
  assert (length (take k l) = k) as Htk by (rewrite length_take; lia).
  apply wp_bind. eapply (copy_bytes_spec _ _ _ (drop k l)).
  - rewrite length_drop. lia.
  - apply bytes_ok_writes; [done|]. by apply Forall_take.
  - apply holds_frame; [rewrite Htk, length_drop; lia|].
    rewrite <-(take_drop k l) in H. apply holds_app in H as [_ H]. by rewrite Htk in H.
  - apply mapped_writes. intros i Hi. replace (d + Z.of_nat k + Z.of_nat i) with (d + Z.of_nat (k + i)) by lia.
    apply Hm. lia.
  - lia.
  - apply wp_ret. split; [done|]. rewrite <-(take_drop k l) at 3. rewrite writes_app, Htk.
    apply map_eq. intros x. rewrite !lookup_writes, Htk, length_drop. repeat case_decide; try lia; done.
Qed.

Lemma copy_backward_spec l d s m : bytes_ok m → holds m s l → mapped m d (length l) → s < d →
  ∀ k, (k ≤ length l)%nat →
  wp (copy_backward k d s) (writes m (d + Z.of_nat k) (drop k l)) (λ _ m', m' = writes m d l).
Proof.
  intros Hok H Hm Hsd k. induction k as [|k IH]; intros Hk; simpl.
  { apply wp_ret. by rewrite Z.add_0_r. }
  destruct (lookup_lt_is_Some_2 l k) as [b Hb]; [lia|].
  pose proof (proj1 (Forall_lookup _ _) (holds_bytes _ _ _ Hok H) k b Hb) as Hbb.
  apply wp_bind. eapply wp_ld; [rewrite writes_out by lia; by apply H|].
  apply wp_bind. apply wp_st; [|done|].
  - apply (mapped_writes m d (length l) _ _ Hm k). lia.
  - rewrite (drop_S l b k Hb) in IH. simpl in IH.
    replace (d + Z.of_nat k + 1) with (d + Z.of_nat (S k)) in IH by lia. apply IH. lia.
Qed.

Lemma memmove_spec d s l m : bytes_ok m → holds m s l → mapped m d (length l) →
  wp (memmove d s (Z.of_nat (length l))) m (λ r m', r = d ∧ m' = writes m d l).
Proof.
  intros Hok H Hm. unfold memmove.
  destruct (Z.eqb_spec d s) as [->|Hne]; simpl.
  { apply wp_ret. split; [done|]. apply map_eq. intros x. rewrite lookup_writes. case_decide; [|done].
    replace x with (s + Z.of_nat (Z.to_nat (x - s))) at 1 by lia.
    destruct (lookup_lt_is_Some_2 l (Z.to_nat (x - s))) as [b Hb]; [lia|]. rewrite Hb. by apply H. }
  destruct (Z.eqb_spec (Z.of_nat (length l)) 0) as [Hz|Hz]; simpl.
  { apply wp_ret. split; [done|]. by destruct l. }
  rewrite Nat2Z.id. apply wp_bind. apply (wp_mono _ _ (λ _ m', m' = writes m d l)); [|intros [] m' ->; by apply wp_ret].
  destruct (Z.ltb_spec d s).
  - apply (wp_for_loop (λ i m', m' = writes m d (take (Z.to_nat i) l))).
    + done.
    + intros j m' Hj ->. set (k := Z.to_nat j). replace j with (Z.of_nat k) by lia.
      destruct (lookup_lt_is_Some_2 l k) as [b Hb]; [lia|].
      pose proof (proj1 (Forall_lookup _ _) (holds_bytes _ _ _ Hok H) k b Hb) as Hbb.
      assert (length (take k l) = k) as Htk by (rewrite length_take; lia).
      apply wp_bind. eapply wp_ld; [rewrite writes_out by lia; by apply H|].
      apply wp_st; [apply (mapped_writes m d (length l) _ _ Hm k); lia|done|].
      replace (Z.to_nat (Z.of_nat k + 1)) with (S k) by lia.
      rewrite (take_S_r l k b Hb), writes_snoc, Htk. done.
    + intros m' ->. rewrite Z.add_0_l, Nat2Z.id. by rewrite firstn_all.
  - pose proof (copy_backward_spec l d s m Hok H Hm ltac:(lia) (length l) ltac:(lia)) as Hb.
    by rewrite drop_all in Hb.
Qed.

(** ** Strings *)

(** The string [l], ended by a zero byte, is at [a]. *)
Definition cstr (m : mem) (a : Z) (l : list Z) : Prop :=
  holds m a (l ++ [0]) ∧ Forall (λ c, c ≠ 0) l.

Lemma cstr_nil m a : cstr m a [] → m !! a = Some 0.
Proof. intros [H _]. by apply holds_cons in H as [? _]. Qed.

Lemma cstr_cons m a c l : cstr m a (c :: l) → m !! a = Some c ∧ c ≠ 0 ∧ cstr m (a + 1) l.
Proof. intros [H [Hc Hl]%Forall_cons]. apply holds_cons in H as [? H]. done. Qed.

(** [rounds] is enough for every string in memory. *)
Lemma holds_size m a l : holds m a l → (length l ≤ size m)%nat.
Proof.
  intros H. set (A := (λ i, a + Z.of_nat i) <$> seq 0 (length l)).
  assert (NoDup A) as HN by (apply NoDup_fmap_2; [intros i j ?; lia|apply NoDup_seq]).
  replace (length l) with (length A) by (unfold A; by rewrite length_fmap, length_seq).
  rewrite <-(size_list_to_set (C:=gset Z) A HN), <-size_dom. apply subseteq_size.
  intros x (i & -> & Hi%elem_of_seq)%elem_of_list_to_set%list_elem_of_fmap. apply elem_of_dom.
  destruct (lookup_lt_is_Some_2 l i) as [b Hb]; [lia|]. exists b. by apply H.
Qed.

Lemma mapped_size m a n : mapped m a n → (n ≤ size m)%nat.
Proof.
  intros Hm. set (l := (λ i, default 0 (m !! (a + Z.of_nat i))) <$> seq 0 n).
  assert (length l = n) as Hl by (unfold l; by rewrite length_fmap, length_seq). rewrite <-Hl.
  apply (holds_size m a). intros i b Hb. unfold l in Hb.
  apply list_lookup_fmap_Some in Hb as (j & -> & Hj). apply lookup_seq in Hj as [-> Hj]. simpl.
  destruct (Hm i Hj) as [c Hc]. by rewrite Hc.
Qed.

Lemma cstr_size m a l : cstr m a l → (length l < size m)%nat.
Proof. intros [H _]. apply holds_size in H. rewrite length_app in H. simpl in H. lia. Qed.

Lemma strlen_spec m a l : cstr m a l → wp (strlen a) m (λ n m', n = Z.of_nat (length l) ∧ m' = m).
Proof.
  intros Hs. unfold strlen, rounds. apply wp_bind, wp_gets. pose proof (cstr_size _ _ _ Hs) as Hsz.
  assert (∀ l fuel k, (length l < fuel)%nat → cstr m (a + k) l →
            wp (strlen_loop fuel a k) m (λ n m', n = k + Z.of_nat (length l) ∧ m' = m)) as Hloop.
  { clear. induction l as [|c l IH]; intros [|fuel] k Hf Hs; simpl in Hf; try lia; simpl.
    - apply wp_bind. eapply wp_ld; [by apply cstr_nil|]. simpl. apply wp_ret. split; [lia|done].
    - apply cstr_cons in Hs as (Hc & Hne & Hs). apply wp_bind. eapply wp_ld; [done|].
      destruct (Z.eqb_spec c 0) as [|Hc0]; [done|]. eapply wp_mono; [apply IH; [lia|by rewrite Z.add_assoc]|].
      simpl. intros n m' [-> ->]. split; [lia|done]. }
  eapply wp_mono; [apply (Hloop l _ 0); [lia|by rewrite Z.add_0_r]|]. done.
Qed.

(** ** Numbers as text *)

(** The digits of [v], the last one first; [k] bits bound their number. *)
Fixpoint digits (k : nat) (base v : Z) : list Z :=
  match k with
  | O => []
  | S k' => if v =? 0 then [] else v mod base :: digits k' base (v / base)
  end.

Lemma digits_length k base v : (length (digits k base v) ≤ k)%nat.
Proof. revert v. induction k; intros v; simpl; [lia|]. case_match; simpl; [lia|]. specialize (IHk (v / base)). lia. Qed.

Lemma digits_length_base n base v (k : nat) : 2 ≤ base → 0 ≤ v < base ^ Z.of_nat k → (length (digits n base v) ≤ k)%nat.
Proof.
  intros Hb. revert v k. induction n as [|n IH]; intros v k Hv; simpl; [lia|].
  destruct (Z.eqb_spec v 0); simpl; [lia|]. destruct k as [|k]; [change (base ^ Z.of_nat 0) with 1 in Hv; lia|].
  rewrite Nat2Z.inj_succ, Z.pow_succ_r in Hv by lia.
  apply le_n_S, IH. split; [apply Z.div_pos; lia|]. apply Z.div_lt_upper_bound; lia.
Qed.

Lemma digits_range k base v : 2 ≤ base → Forall (λ x, 0 ≤ x < base) (digits k base v).
Proof.
  intros Hb. revert v. induction k; intros v; simpl; [constructor|]. case_match; [constructor|]. constructor; [|done].
  apply Z.mod_pos_bound. lia.
Qed.

Lemma div_pow2 v base (k : nat) : 2 ≤ base → 0 ≤ v < 2 ^ Z.of_nat (S k) → 0 ≤ v / base < 2 ^ Z.of_nat k.
Proof.
  intros Hb [H1 H2]. rewrite pow2_S in H2. split; [apply Z.div_pos; lia|].
  apply Z.div_lt_upper_bound; [lia|]. nia.
Qed.

Definition digit_ok (digit : Z → Z) (base : Z) : Prop := ∀ x, 0 ≤ x < base → byte (digit x) ∧ digit x ≠ 0.

Lemma digit_lower_ok : digit_ok digit_lower 16.
Proof. intros x Hx. unfold digit_lower, byte. destruct (Z.ltb_spec 9 x); lia. Qed.

Lemma digit_upper_ok : digit_ok digit_upper 16.
Proof. intros x Hx. unfold digit_upper, byte. destruct (Z.ltb_spec 9 x); lia. Qed.

Lemma put_digits_spec digit base buffer : 2 ≤ base → digit_ok digit base → ∀ k fuel v i m,
  0 ≤ v < 2 ^ Z.of_nat k → (k < fuel)%nat →
  let ds := digit <$> digits k base v in
  mapped m (buffer + i) (length ds) →
  wp (put_digits fuel digit v base buffer i) m (λ r m', r = i + Z.of_nat (length ds) ∧ m' = writes m (buffer + i) ds).
Proof.
  intros Hb Hd. induction k as [|k IH]; intros [|fuel] v i m Hv Hf ds Hm; try lia; simpl.
  - change (2 ^ Z.of_nat 0) with 1 in Hv. replace v with 0 by lia. simpl. apply wp_ret. split; [lia|done].
  - subst ds. cbn [digits] in *. destruct (Z.eqb_spec v 0) as [|Hv0]; [apply wp_ret; split; [simpl; lia|done]|].
    rewrite fmap_cons in *. cbn [length writes] in *. apply mapped_S in Hm as [Hm1 Hm2].
    destruct (Hd (v mod base)) as [Hdb _]; [apply Z.mod_pos_bound; lia|].
    apply wp_bind. apply wp_st; [done|done|]. rewrite <-Z.add_assoc in Hm2 |- *.
    eapply wp_mono; [apply (IH fuel (v / base) (i + 1)); [by apply div_pow2|lia|by apply mapped_insert]|].
    cbv zeta. intros r m' [-> ->]. split; [lia|]. by rewrite insert_writes by lia.
Qed.

Lemma reverse_loop_spec buffer fuel : ∀ l start m, (length l < fuel)%nat → Forall byte l → holds m (buffer + start) l →
  wp (reverse_loop fuel buffer start (start + Z.of_nat (length l) - 1)) m (λ _ m', m' = writes m (buffer + start) (reverse l)).
Proof.
  induction fuel as [|fuel IH]; intros l start m Hf Hb H; [lia|]. simpl.
  assert (∀ m', writes m' (buffer + start) [] = m') as Hw0 by done.
  destruct l as [|x l]; simpl length.
  { destruct (Z.ltb_spec start (start + Z.of_nat 0 - 1)); [lia|]. by apply wp_ret. }
  destruct l as [|y l _] using rev_ind; simpl length.
  { destruct (Z.ltb_spec start (start + Z.of_nat 1 - 1)); [lia|]. apply wp_ret.
    apply holds_cons in H as [H _]. simpl. by rewrite insert_id. }
  rewrite length_app. simpl length. destruct (Z.ltb_spec start (start + Z.of_nat (S (length l + 1)) - 1)); [|lia].
  apply Forall_cons in Hb as [Hbx [Hb [Hby _]%Forall_cons]%Forall_app].
  apply holds_cons in H as [Hx H]. apply holds_app in H as [Hl [Hy _]%holds_cons].
  replace (buffer + (start + Z.of_nat (S (length l + 1)) - 1)) with (buffer + start + 1 + Z.of_nat (length l)) by lia.
  apply wp_bind. eapply wp_ld; [done|]. apply wp_bind. eapply wp_ld; [done|].
  apply wp_bind. apply wp_st; [by eexists|done|]. apply wp_bind. apply wp_st; [|done|].
  { rewrite lookup_insert_ne by lia. by eexists. }
  replace (start + Z.of_nat (S (length l + 1)) - 1 - 1) with (start + 1 + Z.of_nat (length l) - 1) by lia.
  eapply wp_mono; [apply (IH l (start + 1)); [simpl in Hf; rewrite length_app in Hf; lia|done|]|].
  { eapply holds_ext; [|rewrite Z.add_assoc; exact Hl]. intros z Hz. rewrite !lookup_insert_ne by lia. done. }
  intros [] m' ->. rewrite reverse_cons, reverse_snoc, Z.add_assoc. simpl. rewrite writes_snoc, length_reverse.
  rewrite !insert_writes by (rewrite length_reverse; lia). rewrite insert_insert_ne by lia. done.
Qed.

(** The common end of [itoa] and [itoa_hex]: terminate and turn around. *)
Lemma finish_number m buffer l : Forall byte l → mapped m buffer (length l + 1) →
  wp (st (buffer + Z.of_nat (length l)) 0;; reverse_loop (S (Z.to_nat (Z.of_nat (length l)))) buffer 0 (Z.of_nat (length l) - 1))
    (writes m buffer l) (λ _ m', m' = writes m buffer (reverse l ++ [0])).
Proof.
  intros Hl Hm. apply wp_bind. apply wp_st; [apply (mapped_writes m buffer (length l + 1) _ _ Hm); lia|done|].
  rewrite Nat2Z.id. eapply wp_mono; [apply (reverse_loop_spec buffer _ l 0); [lia|done|]|].
  - rewrite Z.add_0_r. eapply holds_ext; [|apply holds_writes]. intros x Hx. rewrite lookup_insert_ne; [done|lia].
  - intros [] m' ->. rewrite Z.add_0_r, writes_snoc, length_reverse, <-insert_writes by (rewrite length_reverse; lia).
    by rewrite writes_writes by by rewrite length_reverse.
Qed.

Definition abs_value (num base : Z) : Z := if (num <? 0) && (base =? 10) then - num else u64 num.

Definition itoa_text (num base : Z) : list Z :=
  if num =? 0 then [48] else
  (if (num <? 0) && (base =? 10) then [45] else []) ++ reverse (digit_lower <$> digits 64 base (abs_value num base)).

Definition hex_text (num : Z) : list Z :=
  if num =? 0 then [48] else reverse (digit_upper <$> digits 64 16 num).

Lemma digit_text_bytes digit k base v : 2 ≤ base ≤ 16 → digit_ok digit 16 →
  Forall byte (digit <$> digits k base v) ∧ Forall (λ c, c ≠ 0) (digit <$> digits k base v).
Proof.
  intros Hb Hd. pose proof (digits_range k base v ltac:(lia)) as H. rewrite !Forall_fmap.
  split; (eapply Forall_impl; [exact H|]); simpl; intros x Hx; apply Hd; lia.
Qed.

Lemma zero_text_spec m buffer : mapped m buffer 2 →
  wp (st (buffer + 0) 48;; st (buffer + 1) 0) m (λ _ m', m' = writes m buffer [48; 0]).
Proof.
  intros Hm. apply wp_bind. apply wp_st; [apply (Hm 0%nat); lia|done|].
  apply wp_st; [apply mapped_insert with (n := 2%nat) (i := 1%nat); [done|lia]|done|].
  simpl. rewrite insert_insert_ne by lia. by rewrite Z.add_0_r.
Qed.

Lemma itoa_spec m num base buffer : 2 ≤ base ≤ 16 → - 2 ^ 63 ≤ num < 2 ^ 63 →
  mapped m buffer (length (itoa_text num base) + 1) →
  wp (itoa num base buffer) m (λ _ m', m' = writes m buffer (itoa_text num base ++ [0])).
Proof.
  intros Hb Hn. unfold itoa, itoa_text. destruct (Z.eqb_spec num 0) as [|Hn0]; [by apply zero_text_spec|].
  set (neg := (num <? 0) && (base =? 10)).
  assert ((if neg then u64 (u64 (- (num + 1)) + 1) else u64 num) = abs_value num base) as ->.
  { unfold abs_value. fold neg. destruct neg eqn:E; [|done]. unfold neg in E. apply andb_true_iff in E as [E _].
    apply Z.ltb_lt in E. rewrite wrap_add_l, wrap_small by (change (2 ^ 64) with (2 * 2 ^ 63); lia). lia. }
  assert (0 ≤ abs_value num base < 2 ^ Z.of_nat 64) as Hv.
  { change (2 ^ Z.of_nat 64) with (2 ^ 64). unfold abs_value. fold neg. destruct neg eqn:E; [|apply wrap_range; lia].
    unfold neg in E. apply andb_true_iff in E as [E _]. apply Z.ltb_lt in E. change (2 ^ 64) with (2 * 2 ^ 63). lia. }
  set (ds := digit_lower <$> digits 64 base (abs_value num base)).
  destruct (digit_text_bytes digit_lower 64 base (abs_value num base) Hb digit_lower_ok) as [Hds _]. fold ds in Hds.
  rewrite length_app, length_reverse. intros Hm.
  apply wp_bind. eapply wp_mono; [apply (put_digits_spec digit_lower base buffer ltac:(lia)); [|exact Hv|unfold MAX_DIGITS; lia|]|].
  { intros x Hx. apply digit_lower_ok. lia. }
  { fold ds. rewrite Z.add_0_r. intros i Hi. apply Hm. lia. }
  fold ds. cbv zeta. rewrite Z.add_0_r, Z.add_0_l. intros r m' [-> ->].
  destruct neg; cbn [length app] in *.
  - apply wp_bind. apply wp_bind. apply wp_st; [apply (mapped_writes m buffer (1 + length ds + 1) _ _ Hm); lia|done|].
    apply wp_ret. rewrite <-writes_snoc.
    replace (Z.of_nat (length ds) + 1) with (Z.of_nat (length (ds ++ [45]))) by (rewrite length_app; simpl; lia).
    eapply wp_mono; [apply finish_number|].
    + apply Forall_app. split; [done|]. by constructor.
    + rewrite length_app. cbn [length]. by replace (length ds + 1 + 1)%nat with (1 + length ds + 1)%nat by lia.
    + intros [] m' ->. by rewrite reverse_snoc.
  - apply wp_bind, wp_ret. by apply finish_number.
Qed.

Lemma itoa_hex_spec m num buffer : 0 ≤ num < 2 ^ 64 → mapped m buffer (length (hex_text num) + 1) →
  wp (itoa_hex num buffer) m (λ _ m', m' = writes m buffer (hex_text num ++ [0])).
Proof.
  intros Hn. unfold itoa_hex, hex_text. destruct (Z.eqb_spec num 0) as [|Hn0]; [by apply zero_text_spec|].
  set (ds := digit_upper <$> digits 64 16 num).
  destruct (digit_text_bytes digit_upper 64 16 num ltac:(lia) digit_upper_ok) as [Hds _]. fold ds in Hds.
  rewrite length_reverse. intros Hm.
  apply wp_bind. eapply wp_mono; [apply (put_digits_spec digit_upper 16 buffer ltac:(lia) digit_upper_ok 64); [exact Hn|unfold MAX_DIGITS; lia|]|].
  { fold ds. rewrite Z.add_0_r. intros i Hi. apply Hm. lia. }
  fold ds. cbv zeta. rewrite Z.add_0_r, Z.add_0_l. intros r m' [-> ->]. by apply finish_number.
Qed.

(** *** Reading them back *)

Definition add_digit (r c : Z) : Z := r * 10 + (c - 48).

Lemma fold_digits_le l : ∀ r, Forall (λ c, is_digit c = true) l → 0 ≤ r → r ≤ fold_left add_digit l r.
Proof.
  induction l as [|c l IH]; intros r Hl Hr; simpl; [lia|]. apply Forall_cons in Hl as [Hc Hl].
  unfold is_digit in Hc. apply andb_true_iff in Hc as [H1%Z.leb_le H2%Z.leb_le].
  specialize (IH (add_digit r c) Hl). unfold add_digit in *. lia.
Qed.

Lemma sign_small w x : 0 < w → - 2 ^ (w - 1) ≤ x < 2 ^ (w - 1) → sign w x = x.
Proof.
  intros Hw Hx. assert (2 ^ w = 2 * 2 ^ (w - 1)) as E by (rewrite <-Z.pow_succ_r by lia; f_equal; lia).
  unfold sign, wrap. destruct (Z.le_gt_cases 0 x).
  - rewrite Z.mod_small by lia. destruct (Z.ltb_spec x (2 ^ (w - 1))); lia.
  - replace (x mod 2 ^ w) with (x + 2 ^ w) by (rewrite <-(Z.mod_add x 1), Z.mod_small; lia).
    destruct (Z.ltb_spec (x + 2 ^ w) (2 ^ (w - 1))); lia.
Qed.

Lemma get_digits_spec w m l : 0 < w → ∀ fuel str r c, (length l < fuel)%nat →
  Forall (λ c, is_digit c = true) l → is_digit c = false → holds m str (l ++ [c]) →
  0 ≤ r → fold_left add_digit l r < 2 ^ (w - 1) →
  wp (get_digits fuel w str r) m (λ v m', v = fold_left add_digit l r ∧ m' = m).
Proof.
  intros Hw. induction l as [|d l IH]; intros [|fuel] str r c Hf Hl Hc H Hr Hv; simpl in Hf; try lia; simpl in *.
  - apply holds_cons in H as [H _]. apply wp_bind. eapply wp_ld; [done|]. rewrite Hc. by apply wp_ret.
  - apply holds_cons in H as [Hd H]. apply Forall_cons in Hl as [Hdd Hl].
    apply wp_bind. eapply wp_ld; [done|]. rewrite Hdd. fold (add_digit r d) in *.
    assert (0 ≤ add_digit r d) as H0.
    { unfold is_digit in Hdd. apply andb_true_iff in Hdd as [H1%Z.leb_le _]. unfold add_digit. lia. }
    pose proof (fold_digits_le l (add_digit r d) Hl H0). pose proof (Z.pow_pos_nonneg 2 (w - 1)).
    rewrite sign_small by lia. apply (IH fuel _ _ c); [lia|done|done|done|lia|lia].
Qed.

Lemma fold_left_reverse_cons (x : Z) l r : fold_left add_digit (reverse (x :: l)) r = add_digit (fold_left add_digit (reverse l) r) x.
Proof. rewrite reverse_cons, fold_left_app. done. Qed.

Lemma digits_value k v : 0 ≤ v < 2 ^ Z.of_nat k →
  fold_left add_digit (reverse (digit_lower <$> digits k 10 v)) 0 = v.
Proof.
  revert v. induction k as [|k IH]; intros v Hv; simpl.
  - change (2 ^ Z.of_nat 0) with 1 in Hv. cbn. lia.
  - destruct (Z.eqb_spec v 0) as [->|]; [done|]. rewrite fmap_cons, fold_left_reverse_cons.
    rewrite IH by (apply div_pow2; [lia|done]). unfold add_digit, digit_lower.
    pose proof (Z.mod_pos_bound v 10 ltac:(lia)). destruct (Z.ltb_spec 9 (v mod 10)); [lia|].
    pose proof (Z.div_mod v 10 ltac:(lia)). lia.
Qed.

Lemma digits_are_digits k v : Forall (λ c, is_digit c = true) (reverse (digit_lower <$> digits k 10 v)).
Proof.
  apply Forall_reverse, Forall_fmap. eapply Forall_impl; [apply (digits_range k 10 v); lia|].
  simpl. intros x Hx. unfold digit_lower, is_digit. destruct (Z.ltb_spec 9 x); [lia|].
  apply andb_true_iff. split; apply Z.leb_le; lia.
Qed.

Lemma digits_nonempty k v : v ≠ 0 → digits (S k) 10 v ≠ [].
Proof. intros Hv. simpl. by destruct (Z.eqb_spec v 0). Qed.

(** What [parse_int] makes of an optional sign and digits. *)
Lemma parse_int_spec w m str (neg : bool) ds c : 0 < w → str ≠ 0 → ds ≠ [] →
  Forall (λ c, is_digit c = true) ds → is_digit c = false →
  holds m str ((if neg then [45] else []) ++ ds ++ [c]) → fold_left add_digit ds 0 < 2 ^ (w - 1) →
  wp (parse_int w str) m (λ v m', v = (if neg then - fold_left add_digit ds 0 else fold_left add_digit ds 0) ∧ m' = m).
Proof.
  intros Hw Hstr Hne Hds Hc H Hv. unfold parse_int, rounds. destruct (Z.eqb_spec str 0) as [|_]; [done|].
  apply wp_bind, wp_gets. pose proof (holds_size _ _ _ H) as Hsz. rewrite !length_app in Hsz. simpl in Hsz.
  assert (∃ x xs, (if neg then [45] else []) ++ ds ++ [c] = x :: xs ∧ is_space x = false ∧
            (x =? 45) = neg ∧ (x =? 43) = false) as (x & xs & E & Hx1 & Hx2 & Hx3).
  { destruct neg; [by exists 45, (ds ++ [c])|]. destruct ds as [|d ds]; [done|]. exists d, (ds ++ [c]).
    apply Forall_cons in Hds as [Hd _]. unfold is_digit in Hd. apply andb_true_iff in Hd as [H1%Z.leb_le H2%Z.leb_le].
    split; [done|]. unfold is_space. repeat match goal with |- context [d =? ?k] => rewrite (proj2 (Z.eqb_neq d k)) by lia end. done. }
  pose proof H as H'. rewrite E in H'. apply holds_cons in H' as [Hx _].
  apply wp_bind. cbn [skip_space]. apply wp_bind. eapply wp_ld; [done|]. rewrite Hx1. apply wp_ret.
  apply wp_bind. eapply wp_ld; [done|]. rewrite Hx2, Hx3, orb_false_r.
  apply wp_bind. eapply wp_mono; [apply (get_digits_spec w m ds Hw _ _ 0 c); [|done|done| |lia|done]|].
  - lia.
  - apply holds_app in H as [_ H]. destruct neg; simpl in H; [done|by rewrite Z.add_0_r in H].
  - intros v m' [-> ->]. apply wp_ret. split; [|done].
    pose proof (fold_digits_le ds 0 Hds ltac:(lia)). rewrite sign_small; destruct neg; lia.
Qed.

(** Printing and reading a number are inverse: [atoll] applied to what
    [itoa] wrote in base 10 gives the number back, for every 64-bit number
    whose absolute value is one too, and nothing outside the text and its
    terminator is written. *)
Lemma itoa_atoll_roundtrip m num buffer : - 2 ^ 63 < num < 2 ^ 63 → buffer ≠ 0 →
  mapped m buffer (length (itoa_text num 10) + 1) →
  wp (itoa num 10 buffer;; atoll buffer) m (λ r m', r = num ∧
    m' = writes m buffer (itoa_text num 10 ++ [0])).
Proof.
  intros Hn Hb Hm. apply wp_bind. eapply wp_mono; [apply itoa_spec; [lia|lia|done]|]. intros [] m' ->.
  pose proof (holds_writes m buffer (itoa_text num 10 ++ [0])) as H.
  set (m' := writes _ _ _) in *. clearbody m'. unfold itoa_text in H. unfold atoll.
  destruct (Z.eqb_spec num 0) as [->|Hn0].
  { eapply wp_mono; [apply (parse_int_spec 64 m' buffer false [48] 0); try done|].
    - by repeat constructor.
    - intros r m'' [-> ->]. done. }
  rewrite <-app_assoc in H.
  assert (0 < abs_value num 10 < 2 ^ 63) as Hv.
  { unfold abs_value. change (10 =? 10) with true. rewrite andb_true_r. destruct (Z.ltb_spec num 0); [lia|].
    rewrite wrap_small; [lia|]. change (2 ^ 64) with (2 * 2 ^ 63). lia. }
  assert (0 ≤ abs_value num 10 < 2 ^ Z.of_nat 64) as Hv'.
  { change (2 ^ Z.of_nat 64) with (2 * 2 ^ 63). lia. }
  set (neg := (num <? 0) && (10 =? 10)) in *. set (ds := reverse _) in *.
  eapply wp_mono; [apply (parse_int_spec 64 m' buffer neg ds 0 ltac:(lia) Hb)|].
  - unfold ds. intros E. apply (f_equal reverse) in E. rewrite reverse_involutive in E. apply fmap_nil_inv in E.
    by apply (digits_nonempty 63 (abs_value num 10)); [lia|].
  - apply digits_are_digits.
  - done.
  - exact H.
  - unfold ds. rewrite digits_value by done. apply Hv.
  - intros r m'' [-> ->]. split; [|done]. unfold ds, neg. rewrite digits_value by done. unfold abs_value.
    change (10 =? 10) with true. rewrite andb_true_r. destruct (Z.ltb_spec num 0); [lia|].
    rewrite wrap_small; [lia|]. change (2 ^ 64) with (2 * 2 ^ 63). lia.
Qed.

(** ** Searching and comparing *)

Lemma match_here_spec m h : ∀ fuel nd p1 p2, (length h < fuel)%nat → cstr m p1 h → cstr m p2 nd →
  wp (match_here fuel p1 p2) m (λ q m', m' = m ∧ ∃ u w, nd = u ++ w ∧ q = p2 + Z.of_nat (length u) ∧
    (w = [] ↔ nd `prefix_of` h)).
Proof.
  induction h as [|x h IH]; intros [|fuel] nd p1 p2 Hf H1 H2; simpl in Hf; try lia; simpl.
  - apply wp_bind. eapply wp_ld; [by apply cstr_nil|]. simpl. apply wp_ret. split; [done|].
    exists [], nd. split_and!; [done|simpl; lia|]. split; [intros ->; done|apply prefix_nil_inv].
  - apply cstr_cons in H1 as (Hx & Hx0 & H1). apply wp_bind. eapply wp_ld; [done|].
    rewrite (proj2 (Z.eqb_neq x 0)) by done. apply wp_bind. destruct nd as [|y nd].
    + eapply wp_ld; [by apply cstr_nil|]. simpl. apply wp_ret. split; [done|]. exists [], [].
      split_and!; [done|simpl; lia|]. split; [intros _; apply prefix_nil|done].
    + apply cstr_cons in H2 as (Hy & Hy0 & H2). eapply wp_ld; [done|]. rewrite (proj2 (Z.eqb_neq y 0)) by done. simpl.
      destruct (Z.eqb_spec x y) as [->|Hne].
      * eapply wp_mono; [apply (IH fuel nd (p1 + 1) (p2 + 1)); [lia|done|done]|].
        intros q m' (-> & a & b & -> & -> & Hab). split; [done|]. exists (y :: a), b. split_and!; [done|simpl; lia|].
        rewrite Hab. split; [apply prefix_cons|apply prefix_cons_inv_2].
      * apply wp_ret. split; [done|]. exists [], (y :: nd). split_and!; [done|simpl; lia|]. split; [done|].
        intros Hp. by apply prefix_cons_inv_1 in Hp.
Qed.

Lemma strstr_loop_spec m nd inner needle : cstr m needle nd → nd ≠ [] → ∀ h fuel p, (length h < fuel)%nat → (length h < inner)%nat →
  cstr m p h →
  wp (strstr_loop fuel inner p needle) m (λ r m', m' = m ∧
    ((r = 0 ∧ ∀ i, ¬ nd `prefix_of` drop i h) ∨
     (∃ i, r = p + Z.of_nat i ∧ nd `prefix_of` drop i h ∧ ∀ j, (j < i)%nat → ¬ nd `prefix_of` drop j h))).
Proof.
  intros Hnd Hne. induction h as [|x h IH]; intros [|fuel] p Hf Hi Hp; simpl in Hf, Hi; try lia; cbn [strstr_loop].
  - apply wp_bind. eapply wp_ld; [by apply cstr_nil|]. simpl. apply wp_ret. split; [done|]. left. split; [done|].
    intros i. rewrite drop_nil. by intros ->%prefix_nil_inv.
  - pose proof Hp as (Hx & Hx0 & Hp')%cstr_cons. apply wp_bind. eapply wp_ld; [done|]. rewrite (proj2 (Z.eqb_neq x 0)) by done.
    apply wp_bind. eapply wp_mono; [apply (match_here_spec m (x :: h) inner nd); [simpl; lia|done|done]|].
    intros q m' (-> & a & b & E & -> & Hab). apply wp_bind.
    assert (m !! (needle + Z.of_nat (length a)) = Some (match b with [] => 0 | c :: _ => c end)) as Hq.
    { destruct Hnd as [H _]. rewrite E, <-app_assoc in H. apply holds_app in H as [_ H]. by destruct b; apply holds_cons in H as [? _]. }
    eapply wp_ld; [done|]. destruct b as [|c b].
    + simpl. apply wp_ret. split; [done|]. right. exists 0%nat. split_and!; [lia|by apply Hab|intros; lia].
    + assert (c ≠ 0) as Hc. { destruct Hnd as [_ H]. rewrite E in H. apply Forall_app in H as [_ H]. by apply Forall_cons in H as [? _]. }
      rewrite (proj2 (Z.eqb_neq c 0)) by done.
      assert (¬ nd `prefix_of` x :: h) as Hnp by (intros Hp1; apply Hab in Hp1; done).
      eapply wp_mono; [apply (IH fuel (p + 1)); [lia|lia|done]|].
      intros r m' (-> & Hr). split; [done|]. destruct Hr as [[-> Hno]|(i & -> & Hyes & Hlt)].
      * left. split; [done|]. intros [|i]; [done|]. apply Hno.
      * right. exists (S i). split_and!; [lia|done|]. intros [|j] Hj; [done|]. apply Hlt. lia.
Qed.

(** [strstr] returns the first place where the needle occurs, the start
    of the haystack for an empty needle, and NULL when there is none. *)
Lemma strstr_correct m haystack h needle nd : cstr m haystack h → cstr m needle nd →
  wp (strstr haystack needle) m (λ r m', m' = m ∧
    ((r = 0 ∧ ∀ i, ¬ nd `prefix_of` drop i h) ∨
     (∃ i, r = haystack + Z.of_nat i ∧ nd `prefix_of` drop i h ∧ ∀ j, (j < i)%nat → ¬ nd `prefix_of` drop j h))).
Proof.
  intros Hh Hn. unfold strstr, rounds. apply wp_bind. destruct nd as [|c nd].
  - eapply wp_ld; [by apply cstr_nil|]. simpl. apply wp_ret. split; [done|]. right. exists 0%nat.
    split_and!; [lia|apply prefix_nil|intros; lia].
  - pose proof Hn as (Hc & Hc0 & _)%cstr_cons. eapply wp_ld; [done|]. rewrite (proj2 (Z.eqb_neq c 0)) by done.
    apply wp_bind, wp_gets. pose proof (cstr_size _ _ _ Hh). apply strstr_loop_spec; [done|done|lia|lia|done].
Qed.

Lemma strcmp_loop_spec m l1 : ∀ fuel s1 s2 l2, (length l1 < fuel)%nat → cstr m s1 l1 → cstr m s2 l2 →
  wp (strcmp_loop fuel s1 s2) m (λ r m', m' = m ∧ (r = 0 ↔ l1 = l2)).
Proof.
  induction l1 as [|x l1 IH]; intros [|fuel] s1 s2 l2 Hf H1 H2; simpl in Hf; try lia; simpl; apply wp_bind.
  - eapply wp_ld; [by apply cstr_nil|]. apply wp_bind. destruct l2 as [|y l2].
    + eapply wp_ld; [by apply cstr_nil|]. simpl. by apply wp_ret.
    + apply cstr_cons in H2 as (Hy & Hy0 & _). eapply wp_ld; [done|]. simpl. apply wp_ret. split; [done|].
      split; [lia|done].
  - apply cstr_cons in H1 as (Hx & Hx0 & H1). eapply wp_ld; [done|]. rewrite (proj2 (Z.eqb_neq x 0)) by done. simpl.
    apply wp_bind. destruct l2 as [|y l2].
    + eapply wp_ld; [by apply cstr_nil|]. rewrite (proj2 (Z.eqb_neq x 0)) by done. apply wp_ret. split; [done|]. split; [lia|done].
    + apply cstr_cons in H2 as (Hy & Hy0 & H2). eapply wp_ld; [done|]. destruct (Z.eqb_spec x y) as [->|Hne].
      * eapply wp_mono; [apply (IH fuel (s1 + 1) (s2 + 1) l2); [lia|done|done]|].
        intros r m' [-> Hr]. split; [done|]. rewrite Hr. split; [by intros ->|by intros [= ]].
      * apply wp_ret. split; [done|]. split; [lia|]. intros [= ]. lia.
Qed.

(** [strcmp] returns 0 exactly for equal strings. *)
Lemma strcmp_spec m s1 l1 s2 l2 : cstr m s1 l1 → cstr m s2 l2 →
  wp (strcmp s1 s2) m (λ r m', m' = m ∧ (r = 0 ↔ l1 = l2)).
Proof.
  intros H1 H2. unfold strcmp, rounds. apply wp_bind, wp_gets. pose proof (cstr_size _ _ _ H1).
  by apply strcmp_loop_spec; [lia|..].
Qed.

(** [memcpy], whose fast path moves eight bytes at a time when both
    pointers are aligned, leaves at [dest] the bytes that were at [src] and
    changes nothing else, for regions that do not overlap. *)
Lemma memcpy_correct d s l m : bytes_ok m → holds m s l → mapped m d (length l) →
  disjoint d (length l) s (length l) →
  wp (memcpy d s (Z.of_nat (length l))) m (λ r m', r = d ∧ m' = writes m d l).
Proof. apply memcpy_spec. Qed.

(** [memmove] does the same for any overlap: the bytes read are the ones
    that were at [src] before the call. *)
Lemma memmove_correct d s l m : bytes_ok m → holds m s l → mapped m d (length l) →
  wp (memmove d s (Z.of_nat (length l))) m (λ r m', r = d ∧ m' = writes m d l).
Proof. apply memmove_spec. Qed.

(** ** A small memory for the examples: twelve bytes at 16, a zero behind them. *)

Definition small_mem : mem := writes ∅ 16 [65; 66; 67; 68; 69; 70; 71; 72; 73; 74; 75; 76; 0; 0; 0; 0; 1; 1; 1; 1; 1; 1; 1; 1; 1; 1; 1; 1; 0].

Lemma small_bytes : bytes_ok small_mem.
Proof. apply (bool_decide_unpack _). vm_compute. exact I. Qed.

Lemma holds_check m a l : forallb (λ i, bool_decide (m !! (a + Z.of_nat i) = l !! i)) (seq 0 (length l)) = true → holds m a l.
Proof.
  intros H i b Hb. rewrite forallb_forall in H. specialize (H i ltac:(apply in_seq; apply lookup_lt_Some in Hb; lia)).
  apply bool_decide_eq_true in H. by rewrite H.
Qed.

Lemma mapped_check m a n : forallb (λ i, bool_decide (is_Some (m !! (a + Z.of_nat i)))) (seq 0 n) = true → mapped m a n.
Proof.
  intros H i Hi. rewrite forallb_forall in H. specialize (H i ltac:(apply in_seq; lia)). by apply bool_decide_eq_true in H.
Qed.

Lemma itoa_atoll_roundtrip_witness : wp (itoa (-9081) 10 16;; atoll 16) small_mem (λ r _, r = -9081).
Proof.
  eapply wp_mono; [apply (itoa_atoll_roundtrip small_mem (-9081) 16)|].
  - split; reflexivity.
  - discriminate.
  - apply mapped_check. vm_compute. reflexivity.
  - intros r m' [H _]. exact H.
Defined.

(** [EFG] is found at offset 4 of [ABCDEFGHIJKL]. *)
Lemma strstr_correct_witness : wp (strstr 16 45) (writes small_mem 45 [69; 70; 71; 0]) (λ r m', m' = writes small_mem 45 [69; 70; 71; 0]).
Proof.
  eapply wp_mono; [apply (strstr_correct _ 16 [65; 66; 67; 68; 69; 70; 71; 72; 73; 74; 75; 76] 45 [69; 70; 71])|].
  - split; [apply holds_check; vm_compute; reflexivity|by repeat constructor].
  - split; [apply holds_check; vm_compute; reflexivity|by repeat constructor].
  - intros r m' [H _]. exact H.
Defined.

(** Ten bytes from 16 to the disjoint, equally aligned 32. *)
Lemma memcpy_correct_witness :
  wp (memcpy 32 16 10) small_mem (λ r m', m' = writes small_mem 32 [65; 66; 67; 68; 69; 70; 71; 72; 73; 74]).
Proof.
  eapply wp_mono; [apply (memcpy_correct 32 16 [65; 66; 67; 68; 69; 70; 71; 72; 73; 74] small_mem small_bytes)|].
  - apply holds_check. vm_compute. reflexivity.
  - apply mapped_check. vm_compute. reflexivity.
  - right. vm_compute. discriminate.
  - intros r m' [_ H]. exact H.
Defined.

(** Ten bytes moved up by two: source and destination overlap. *)
Lemma memmove_correct_witness :
  wp (memmove 18 16 10) small_mem (λ r m', m' = writes small_mem 18 [65; 66; 67; 68; 69; 70; 71; 72; 73; 74]).
Proof.
  eapply wp_mono; [apply (memmove_correct 18 16 [65; 66; 67; 68; 69; 70; 71; 72; 73; 74] small_mem small_bytes)|].
  - apply holds_check. vm_compute. reflexivity.
  - apply mapped_check. vm_compute. reflexivity.
  - intros r m' [_ H]. exact H.
Defined.

End CStringSpec.
