(* ===== verification/Heap.v ===== *)
(** * The kernel heap ([core/mem/memory.c])

    Objects of up to 2048 bytes come from slab pages, one size class per
    bucket; larger blocks come straight from the page allocator behind a
    32-byte header.  All bookkeeping lives in the pages themselves, so the
    state is the byte memory of the direct map beside the bucket table and
    the page allocator.  Field offsets are those of the C structures. *)
From S2P Require Import Prelude Pmm Pages CString.

Module Heap.
Import CString.

Definition NUM_SLAB_BUCKETS : nat := 8.
Definition bucket_sizes : list Z := [16; 32; 64; 128; 256; 512; 1024; 2048].

(** [slab_page_t]: [object_size], [free_count], [free_list], [next]. *)
Definition sizeof_slab_page : Z := 32.
Definition o_object_size : Z := 0.
Definition o_free_count : Z := 8.
Definition o_free_list : Z := 16.
Definition o_next : Z := 24.

Record kmem_bucket := mk_bucket { kb_object_size : Z; kb_slabs : Z }.

(** [large_alloc_header_t], aligned to 16 bytes: [magic], [reserved],
    [page_count], [size]. *)
Definition sizeof_large_alloc_header : Z := 32.
Definition o_magic : Z := 0.
Definition o_page_count : Z := 8.
Definition o_size : Z := 16.
Definition LARGE_ALLOC_MAGIC : Z := 0x4C415247.

Definition PAGE_SIZE : Z := Pmm.PAGE_SIZE.

Record heap := mk_heap { h_mem : mem; buckets : list kmem_bucket; used_memory : Z }.

Definition with_mem f (h : heap) := mk_heap (f (h_mem h)) (buckets h) (used_memory h).
Definition with_buckets f (h : heap) := mk_heap (h_mem h) (f (buckets h)) (used_memory h).
Definition with_used f (h : heap) := mk_heap (h_mem h) (buckets h) (u64 (f (used_memory h))).

Section Heap.
  Context {A : Type} `{PageOps A} (hhdm_offset : Z).

Abbreviation state := (heap * A)%type.

(** Code over memory alone. *)
Definition in_mem {B} (c : M mem B) : M state B := λ '(h, a),
  match c (h_mem h) with
  | Ret (b, m') => Ret (b, (with_mem (λ _, m') h, a))
  | Panic => Panic
  | Fault => Fault
  | Wait => Wait
  end.

Definition ld32 (a : Z) : M state Z := in_mem (ld_le 4 a).
Definition st32 (a v : Z) : M state unit := in_mem (st_le 4 a v).
Definition ld64 (a : Z) : M state Z := in_mem (ld_le 8 a).
Definition st64 (a v : Z) : M state unit := in_mem (st_le 8 a v).

Definition hget {B} (f : heap → B) : M state B := gets (λ s : state, f s.1).
Definition hset (f : heap → heap) : M state unit := modify (λ s : state, (f s.1, s.2)).
Definition bucket_at (i : nat) : M state kmem_bucket := deref (λ s : state, buckets s.1 !! i).

Definition VIRT (a : Z) : Z := u64 (a + hhdm_offset).
Definition PHYS (a : Z) : Z := u64 (a - hhdm_offset).

Definition init_heap : M state unit :=
  hset (with_buckets (λ _, (λ sz, mk_bucket sz 0) <$> bucket_sizes));;
  hset (with_used (λ _, 0)).

(** [for (size_t i = 0; i < capacity - 1; i++)]: link each object to the next one. *)
Fixpoint link_objects (n : nat) (curr object_size : Z) : M state Z :=
  match n with
  | O => mret curr
  | S n' =>
      let next_obj := u64 (curr + object_size) in
      st64 curr next_obj;;
      curr' ← ld64 curr;
      link_objects n' curr' object_size
  end.

Definition create_slab_page (object_size : Z) : M state Z :=
  phys ← lift_r (page_alloc 0);
  if phys =? 0 then mret 0 else
  let slab := VIRT phys in
  st64 (slab + o_object_size) object_size;;
  st64 (slab + o_next) 0;;
  let payload_start := Z.land (u64 (slab + sizeof_slab_page + 15)) (not64 15) in
  let available_space := u64 (PAGE_SIZE - (payload_start - slab)) in
  let capacity := available_space / object_size in
  st64 (slab + o_free_count) capacity;;
  st64 (slab + o_free_list) payload_start;;
  curr ← link_objects (Z.to_nat (u64 (capacity - 1))) payload_start object_size;
  st64 curr 0;;
  mret slab.

(** The first bucket whose objects hold [size] bytes. *)
Fixpoint find_bucket (i : nat) (sizes : list Z) (size : Z) : option nat :=
  match sizes with
  | [] => None
  | sz :: sizes' => if size <=? sz then Some i else find_bucket (S i) sizes' size
  end.

(** [while (slab && slab->free_count == 0) slab = slab->next;] *)
Fixpoint find_slab (fuel : nat) (slab : Z) : M state Z :=
  match fuel with
  | O => λ _, Wait
  | S fuel' =>
      if slab =? 0 then mret 0 else
      n ← ld64 (slab + o_free_count);
      if n =? 0 then next ← ld64 (slab + o_next); find_slab fuel' next else mret slab
  end.

(** Pop an object from the free list of [slab]. *)
Definition take_object (object_size slab : Z) : M state Z :=
  obj ← ld64 (slab + o_free_list);
  next ← ld64 obj;
  st64 (slab + o_free_list) next;;
  n ← ld64 (slab + o_free_count);
  st64 (slab + o_free_count) (u64 (n - 1));;
  hset (with_used (λ u, u + object_size));;
  mret obj.

Definition alloc_small (bucket_idx : nat) : M state Z :=
  bucket ← bucket_at bucket_idx;
  fuel ← in_mem rounds;
  found ← find_slab fuel (kb_slabs bucket);
  slab ← (if found =? 0 then
            fresh ← create_slab_page (kb_object_size bucket);
            when negb (fresh =? 0) do
              (st64 (fresh + o_next) (kb_slabs bucket);;
               hset (with_buckets (alter (λ b, mk_bucket (kb_object_size b) fresh) bucket_idx)));;
            mret fresh
          else mret found);
  if slab =? 0 then mret 0 else take_object (kb_object_size bucket) slab.

Definition pages_for (size : Z) : Z :=
  let total_needed := u64 (size + sizeof_large_alloc_header) in
  u64 (u64 (total_needed + PAGE_SIZE) - 1) / PAGE_SIZE.

Definition alloc_large (size : Z) : M state Z :=
  let pages_needed := pages_for size in
  phys ← lift_r (page_alloc (Pmm.order_for 63 0 pages_needed));
  if phys =? 0 then mret 0 else
  let header := VIRT phys in
  st32 (header + o_magic) LARGE_ALLOC_MAGIC;;
  st64 (header + o_page_count) pages_needed;;
  st64 (header + o_size) size;;
  hset (with_used (λ u, u + u64 (pages_needed * PAGE_SIZE)));;
  mret (u64 (header + sizeof_large_alloc_header)).

Definition kmalloc (size : Z) : M state Z :=
  if size =? 0 then mret 0 else
  match (if size <=? 2048 then find_bucket 0 bucket_sizes size else None) with
  | Some bucket_idx => alloc_small bucket_idx
  | None => alloc_large size
  end.

Definition kzalloc (size : Z) : M state Z :=
  ptr ← kmalloc size;
  when negb (ptr =? 0) do (in_mem (memset ptr 0 size);; mret tt);;
  mret ptr.

(** [ptr == header + sizeof(header) && header->magic == LARGE_ALLOC_MAGIC] *)
Definition is_large (ptr : Z) : M state bool :=
  let header := Z.land ptr (not64 0xFFF) in
  if ptr =? u64 (header + sizeof_large_alloc_header) then
    magic ← ld32 (header + o_magic);
    mret (magic =? LARGE_ALLOC_MAGIC)
  else mret false.

Definition kfree (ptr : Z) : M state unit :=
  if ptr =? 0 then mret tt else
  let page_base := Z.land ptr (not64 0xFFF) in
  large ← is_large ptr;
  if (large : bool) then
    pages ← ld64 (page_base + o_page_count);
    hset (with_used (λ u, u - u64 (pages * PAGE_SIZE)));;
    lift_r (page_free (PHYS page_base) (Pmm.order_for 63 0 pages))
  else
    head ← ld64 (page_base + o_free_list);
    st64 ptr head;;
    st64 (page_base + o_free_list) ptr;;
    n ← ld64 (page_base + o_free_count);
    st64 (page_base + o_free_count) (u64 (n + 1));;
    used ← hget used_memory;
    sz ← ld64 (page_base + o_object_size);
    when sz <=? used do hset (with_used (λ u, u - sz)).

Definition krealloc (ptr new_size : Z) : M state Z :=
  if ptr =? 0 then kmalloc new_size else
  if new_size =? 0 then kfree ptr;; mret 0 else
  new_ptr ← kmalloc new_size;
  if new_ptr =? 0 then mret 0 else
  let page_base := Z.land ptr (not64 0xFFF) in
  large ← is_large ptr;
  old_size ← (if (large : bool) then ld64 (page_base + o_size) else ld64 (page_base + o_object_size));
  let copy_size := if new_size <? old_size then new_size else old_size in
  in_mem (memcpy new_ptr ptr copy_size);;
  kfree ptr;;
  mret new_ptr.

(** [kheap_dump]: the numbers of the lines it prints, a pair of object size
    and slab count per bucket, and the total in KB. *)
Fixpoint count_slabs (fuel : nat) (s total_slabs : Z) : M state Z :=
  match fuel with
  | O => λ _, Wait
  | S fuel' =>
      if s =? 0 then mret total_slabs else
      next ← ld64 (s + o_next);
      count_slabs fuel' next (u64 (total_slabs + 1))
  end.

Fixpoint dump_buckets (i : nat) (sizes : list Z) : M state (list (Z * Z)) :=
  match sizes with
  | [] => mret []
  | sz :: sizes' =>
      b ← bucket_at i;
      fuel ← in_mem rounds;
      n ← count_slabs fuel (kb_slabs b) 0;
      rest ← dump_buckets (S i) sizes';
      mret ((u32 sz, u32 n) :: rest)
  end.

Definition kheap_dump : M state (list (Z * Z) * Z) :=
  rows ← dump_buckets 0 bucket_sizes;
  used ← hget used_memory;
  mret (rows, u32 (used / 1024)).

End Heap.
End Heap.
