(* ===== verification/HeapSpec.v ===== *)
(** * The heap: words in memory, the invariant, allocation

    The pages the heap owns are described by a map from physical page
    addresses to nodes: a slab with its next link and the numbers of its free
    objects, or a large block with the size it was asked for.  The invariant
    ties the map to the bytes of memory, to the bucket table, to the blocks
    the page allocator has handed out and to the usage counter. *)
From S2P Require Import Prelude Pmm Pages CString CStringSpec Heap.

Module HeapSpec.
Import CString CStringSpec Heap.

Implicit Types (m : mem) (l fr : list Z) (x p b : Z).

(** ** Words *)

Fixpoint le_bytes (n : nat) (v : Z) : list Z :=
  match n with O => [] | S n' => v mod 256 :: le_bytes n' (v / 256) end.

Lemma le_bytes_length n v : length (le_bytes n v) = n.
Proof. revert v. induction n; intros v; simpl; [done|]. by rewrite IHn. Qed.

Lemma le_bytes_byte n v : Forall byte (le_bytes n v).
Proof.
  revert v. induction n; intros v; simpl; constructor; [|done]. apply Z.mod_pos_bound. lia.
Qed.

Lemma le_value_bytes n v : 0 ≤ v < 256 ^ Z.of_nat n → le_value (le_bytes n v) = v.
Proof.
  revert v. induction n as [|n IH]; intros v Hv; simpl; [change (256 ^ Z.of_nat 0) with 1 in Hv; lia|].
  rewrite Nat2Z.inj_succ, Z.pow_succ_r in Hv by lia. rewrite IH.
  - pose proof (Z.div_mod v 256). lia.
  - split; [apply Z.div_pos; lia|apply Z.div_lt_upper_bound; lia].
Qed.

Lemma le_bytes_take n k v : le_bytes (n + k) v = le_bytes n v ++ le_bytes k (v / 256 ^ Z.of_nat n).
Proof.
  revert v. induction n as [|n IH]; intros v; [by rewrite Z.div_1_r|].
  cbn [le_bytes Nat.add app]. rewrite IH, Zdiv_Zdiv by lia.
  by rewrite Nat2Z.inj_succ, Z.pow_succ_r by lia.
Qed.

Definition word m (a v : Z) : Prop := holds m a (le_bytes 8 v).

Lemma word_write m a v : word (writes m a (le_bytes 8 v)) a v.
Proof. apply holds_writes. Qed.

Lemma word_frame m a v d w : d + 8 ≤ a ∨ a + 8 ≤ d → word m a v → word (writes m d (le_bytes 8 w)) a v.
Proof. intros Hd. apply holds_frame. by rewrite !le_bytes_length. Qed.

Lemma word_ext m m' a v : (∀ x, a ≤ x < a + 8 → m' !! x = m !! x) → word m a v → word m' a v.
Proof. intros He. apply holds_ext. by rewrite le_bytes_length. Qed.

Lemma is_Some_writes m a l x : is_Some (m !! x) → is_Some (writes m a l !! x).
Proof.
  intros Hx. rewrite lookup_writes. case_decide; [|done]. apply lookup_lt_is_Some. lia.
Qed.

#[local] Hint Resolve le_bytes_byte bytes_ok_writes is_Some_writes word_write : kernel.

(** Memory unchanged outside [lo, hi). *)
Definition same_outside (lo hi : Z) (m m' : mem) : Prop := ∀ x, ¬ (lo ≤ x < hi) → m' !! x = m !! x.

Lemma same_outside_refl lo hi m : same_outside lo hi m m.
Proof. done. Qed.

Lemma same_outside_trans lo hi m1 m2 m3 : same_outside lo hi m1 m2 → same_outside lo hi m2 m3 → same_outside lo hi m1 m3.
Proof. intros H1 H2 x Hx. by rewrite H2, H1. Qed.

Lemma same_outside_weaken lo hi lo' hi' m m' : lo' ≤ lo → hi ≤ hi' → same_outside lo hi m m' → same_outside lo' hi' m m'.
Proof. intros ? ? Hs x Hx. apply Hs. lia. Qed.

Lemma same_outside_writes lo hi m a l : lo ≤ a → a + Z.of_nat (length l) ≤ hi → same_outside lo hi m (writes m a l).
Proof. intros ? ? x Hx. apply writes_out. lia. Qed.

Lemma same_outside_word lo hi m a v : lo ≤ a → a + 8 ≤ hi → same_outside lo hi m (writes m a (le_bytes 8 v)).
Proof. intros. apply same_outside_writes; [done|]. by rewrite le_bytes_length. Qed.

Lemma holds_outside lo hi m m' a l : same_outside lo hi m m' → a + Z.of_nat (length l) ≤ lo ∨ hi ≤ a → holds m a l → holds m' a l.
Proof. intros Hs Ha. apply holds_ext. intros x Hx. apply Hs. lia. Qed.

Lemma word_outside lo hi m m' a v : same_outside lo hi m m' → a + 8 ≤ lo ∨ hi ≤ a → word m a v → word m' a v.
Proof. intros Hs Ha. eapply holds_outside; [done|]. by rewrite le_bytes_length. Qed.

(** ** Size classes *)

Definition csize (i : nat) : Z := 16 * 2 ^ Z.of_nat i.
Definition ccap (i : nat) : Z := 4064 / csize i.

Lemma bucket_sizes_lookup i : (i < 8)%nat → bucket_sizes !! i = Some (csize i).
Proof. intros Hi. do 8 (destruct i as [|i]; [done|]). lia. Qed.

Lemma csize_facts i : (i < 8)%nat → 16 ≤ csize i ≤ 2048 ∧ csize i mod 16 = 0 ∧ 1 ≤ ccap i ∧ csize i * ccap i ≤ 4064 ∧ ccap i < 2 ^ 12.
Proof. intros Hi. do 8 (destruct i as [|i]; [vm_compute; intuition discriminate|]). lia. Qed.

Lemma find_bucket_spec size : 0 < size ≤ 2048 → ∃ i, (i < 8)%nat ∧ size ≤ csize i ∧ find_bucket 0 bucket_sizes size = Some i.
Proof.
  intros Hs. unfold bucket_sizes, find_bucket.
  repeat (case (Z.leb_spec size _); intros ?; [eexists; split; [|split; [|done]]; [lia|done]|]). lia.
Qed.

(** ** Nodes *)

Inductive node := NSlab (i : nat) (nx : Z) (fr : list Z) | NLarge (n : Z).

Definition hd_ptr l : Z := match l with [] => 0 | x :: _ => x end.

(** A free list in memory: each object begins with the address of the next. *)
Fixpoint flist m l : Prop := match l with [] => True | x :: l' => word m x (hd_ptr l') ∧ flist m l' end.

Definition node_order (nd : node) : nat :=
  match nd with NSlab _ _ _ => 0 | NLarge n => Pmm.order_for 63 0 (pages_for n) end.

(** What the node adds to [used_memory]. *)
Definition charge (nd : node) : Z :=
  match nd with
  | NSlab i _ fr => csize i * (ccap i - Z.of_nat (length fr))
  | NLarge n => pages_for n * 4096
  end.

Definition total (N : gmap Z node) : Z := map_fold (λ _ nd t, charge nd + t) 0 N.

Lemma total_insert N b nd : N !! b = None → total (<[b := nd]> N) = charge nd + total N.
Proof. intros Hb. unfold total. by rewrite map_fold_insert_L by (intros; lia || done). Qed.

Lemma total_lookup N b nd : N !! b = Some nd → total N = charge nd + total (delete b N).
Proof.
  intros Hb. rewrite <-(insert_delete_id N b nd Hb) at 1. apply total_insert, lookup_delete_eq.
Qed.

Lemma total_update N b nd nd' : N !! b = Some nd → total (<[b := nd']> N) = total N - charge nd + charge nd'.
Proof.
  intros Hb. rewrite <-insert_delete_eq, total_insert by apply lookup_delete_eq. rewrite (total_lookup N b nd Hb). lia.
Qed.

(** ** Sizes of large blocks *)

Definition size_ok (size : Z) : Prop := 0 ≤ size < 2 ^ 64 - 4128.

Lemma pages_for_eq n : size_ok n → pages_for n = (n + 32 + 4095) / 4096.
Proof.
  unfold size_ok, pages_for, sizeof_large_alloc_header, PAGE_SIZE, Pmm.PAGE_SIZE. intros Hn.
  rewrite (wrap_small 64 (n + 32)) by lia. rewrite (wrap_small 64 (n + 32 + 4096)) by lia.
  rewrite wrap_small by lia. f_equal. lia.
Qed.

Lemma pages_for_range n : size_ok n → n + 32 ≤ pages_for n * 4096 ∧ 1 ≤ pages_for n ≤ 2 ^ 52.
Proof. intros Hn. rewrite pages_for_eq by done. unfold size_ok in Hn. Z.div_mod_to_equations. lia. Qed.

Lemma order_for_spec n : ∀ k c, c ≤ 2 ^ Z.of_nat (n + k) → c ≤ 2 ^ Z.of_nat (Pmm.order_for n k c).
Proof.
  induction n as [|n IH]; intros k c Hc; cbn [Pmm.order_for]; [done|].
  rewrite Z.shiftl_1_l. destruct (Z.ltb_spec (2 ^ Z.of_nat k) c); [|done].
  apply IH. by replace (n + S k)%nat with (S n + k)%nat by lia.
Qed.

Lemma order_covers n : size_ok n → pages_for n ≤ 2 ^ Z.of_nat (Pmm.order_for 63 0 (pages_for n)).
Proof.
  intros Hn. apply order_for_spec. pose proof (pages_for_range n Hn).
  change (2 ^ Z.of_nat (63 + 0)) with (2 ^ 63). lia.
Qed.

Section Spec.
  Context {A : Type} `{PageLaws A} (hhdm : Z).
  Implicit Types (h : heap) (a : A) (v : pview) (N : gmap Z node) (B : list kmem_bucket).

Abbreviation state := (heap * A)%type.

(** The direct map of a physical address, and object [j] of a slab. *)
Definition V b : Z := hhdm + b.
Definition obj b (i : nat) (j : Z) : Z := V b + 32 + csize i * j.

Definition node_ok m b (nd : node) : Prop :=
  match nd with
  | NSlab i nx fr =>
      (i < 8)%nat ∧ NoDup fr ∧ Forall (λ j, 0 ≤ j < ccap i) fr ∧ 0 ≤ nx < 2 ^ 64 ∧
      word m (V b) (csize i) ∧ word m (V b + 8) (Z.of_nat (length fr)) ∧
      word m (V b + 16) (hd_ptr (obj b i <$> fr)) ∧ word m (V b + 24) nx ∧ flist m (obj b i <$> fr)
  | NLarge n =>
      2048 < n ∧ size_ok n ∧ holds m (V b) (le_bytes 4 LARGE_ALLOC_MAGIC) ∧
      word m (V b + 8) (pages_for n) ∧ word m (V b + 16) n
  end.

(** The slabs of class [i], in the order of the bucket's list. *)
Fixpoint linked N (i : nat) (L : list Z) : Prop :=
  match L with
  | [] => True
  | b :: L' => (∃ fr, N !! b = Some (NSlab i (hd_ptr (V <$> L')) fr)) ∧ linked N i L'
  end.

Record mem_inv m a v N : Prop := {
  mi_hhdm : 0 ≤ hhdm ∧ hhdm mod 4096 = 0;
  mi_top : hhdm + ram_end a ≤ 2 ^ 64;
  mi_pages : pa_rep a v;
  mi_mapped : ∀ x, hhdm ≤ x < hhdm + ram_end a → is_Some (m !! x);
  mi_bytes : bytes_ok m;
  mi_node : ∀ b nd, N !! b = Some nd → node_ok m b nd;
  mi_held : ∀ b nd, N !! b = Some nd → pv_held v !! b = Some (node_order nd);
}.

Definition bucket_inv B N : Prop := ∀ i, (i < 8)%nat → ∃ L,
  B !! i = Some (mk_bucket (csize i) (hd_ptr (V <$> L))) ∧ linked N i L ∧ NoDup L ∧
  (∀ b nx fr, N !! b = Some (NSlab i nx fr) → b ∈ L).

Definition heap_inv (s : state) v N : Prop :=
  mem_inv (h_mem s.1) s.2 v N ∧ bucket_inv (buckets s.1) N ∧ used_memory s.1 = total N.

(** A block handed out: its address and the number of bytes it has. *)
Definition node_live b (nd : node) (p n : Z) : Prop :=
  match nd with
  | NSlab i _ fr => ∃ j, 0 ≤ j < ccap i ∧ j ∉ fr ∧ p = obj b i j ∧ n = csize i
  | NLarge k => p = V b + 32 ∧ n = k
  end.

Definition live N (p n : Z) : Prop := ∃ b nd, N !! b = Some nd ∧ node_live b nd p n.

(** ** Regions *)

(** The bytes of a block of [2^k] pages. *)
Definition region b (k : nat) x : Prop := V b ≤ x < V b + 2 ^ Z.of_nat k * 4096.

Lemma region_page b k x : b mod 4096 = 0 → region b k x → (x - hhdm) / 4096 * 4096 ∈ pblock b k.
Proof.
  unfold region, V. intros Hb Hx. apply elem_of_pblock. exists ((x - hhdm) / 4096 - b / 4096).
  Z.div_mod_to_equations. lia.
Qed.

Lemma region_apart a v b k c j x : pa_rep a v → pv_held v !! b = Some k → pv_held v !! c = Some j → b ≠ c →
  region b k x → ¬ region c j x.
Proof.
  intros Hr Hb Hc Hne Hx Hy. destruct (held_range _ _ _ _ Hr Hb) as (_ & ? & _), (held_range _ _ _ _ Hr Hc) as (_ & ? & _).
  apply (held_disj _ _ _ _ _ _ Hr Hb Hc Hne ((x - hhdm) / 4096 * 4096)); by apply region_page.
Qed.

Lemma region_0 b x : region b 0 x ↔ V b ≤ x < V b + 4096.
Proof. unfold region. change (2 ^ Z.of_nat 0) with 1. lia. Qed.

Lemma obj_range b i j : (i < 8)%nat → 0 ≤ j < ccap i → V b + 32 ≤ obj b i j ∧ obj b i j + csize i ≤ V b + 4096.
Proof. intros Hi Hj. pose proof (csize_facts i Hi). unfold obj. nia. Qed.

Lemma obj_apart b i j k : (i < 8)%nat → j ≠ k → obj b i j + csize i ≤ obj b i k ∨ obj b i k + csize i ≤ obj b i j.
Proof. intros Hi Hj. pose proof (csize_facts i Hi). unfold obj. nia. Qed.

Lemma obj_aligned b i j : hhdm mod 4096 = 0 → b mod 4096 = 0 → (i < 8)%nat → obj b i j mod 16 = 0.
Proof.
  intros Hh Hb Hi. destruct (csize_facts i Hi) as (_ & Hc & _). unfold obj, V.
  apply Z.mod_divide in Hh as [x ->]; [|lia]. apply Z.mod_divide in Hb as [y ->]; [|lia].
  apply Z.mod_divide in Hc as [z ->]; [|lia].
  replace (_ + _) with ((x * 256 + y * 256 + 2 + z * j) * 16) by lia. by apply Z_mod_mult.
Qed.

(** The bookkeeping bytes of a node. *)
Definition meta b (nd : node) x : Prop :=
  V b ≤ x < V b + 32 ∨
  match nd with NSlab i _ fr => ∃ j, j ∈ fr ∧ obj b i j ≤ x < obj b i j + 8 | NLarge _ => False end.

Lemma flist_ext m m' l : (∀ p x, p ∈ l → p ≤ x < p + 8 → m' !! x = m !! x) → flist m l → flist m' l.
Proof.
  induction l as [|p l IH]; intros He; [done|]. intros [Hw Hl]. split.
  - eapply word_ext; [|done]. intros x Hx. apply (He p); [left|done].
  - apply IH; [|done]. intros q x Hq. apply He. by right.
Qed.

Lemma node_ok_ext m m' b nd : (∀ x, meta b nd x → m' !! x = m !! x) → node_ok m b nd → node_ok m' b nd.
Proof.
  unfold meta. destruct nd as [i nx fr|n]; cbn [node_ok]; intros He.
  - intros (? & ? & ? & ? & ? & ? & ? & ? & ?).
    split_and!; try done; try lia; try (eapply word_ext; [|done]; intros; apply He; lia).
    eapply flist_ext; [|done]. intros p x (j & -> & Hj)%list_elem_of_fmap Hx. apply He. right. by exists j.
  - intros (? & ? & ? & ? & ?). split_and!; try done; try lia; try (eapply word_ext; [|done]; intros; apply He; lia).
    eapply holds_ext; [|done]. rewrite le_bytes_length. intros x Hx. apply He. lia.
Qed.

(** A node's bookkeeping and the blocks it has handed out lie in its pages. *)
Lemma meta_region m b nd x : node_ok m b nd → meta b nd x → region b (node_order nd) x.
Proof.
  unfold meta, region. destruct nd as [i nx fr|n]; cbn [node_order].
  - intros (Hi & _ & Hfr & _) [Hx|(j & Hj & Hx)]; [change (2 ^ Z.of_nat 0) with 1; lia|].
    rewrite Forall_forall in Hfr. pose proof (obj_range b i j Hi (Hfr _ Hj)). pose proof (csize_facts i Hi).
    change (2 ^ Z.of_nat 0) with 1. lia.
  - intros _ [Hx|[]]. assert (0 < 2 ^ Z.of_nat (Pmm.order_for 63 0 (pages_for n))) by (apply Z.pow_pos_nonneg; lia). lia.
Qed.

Lemma live_region m b nd p n x : node_ok m b nd → node_live b nd p n → p ≤ x < p + n → region b (node_order nd) x.
Proof.
  unfold region. destruct nd as [i nx fr|k]; cbn [node_order node_live].
  - intros (Hi & _) (j & Hj & _ & -> & ->) Hx. pose proof (obj_range b i j Hi Hj). change (2 ^ Z.of_nat 0) with 1. lia.
  - intros (_ & Hk & _) [-> ->] Hx. pose proof (order_covers k Hk). pose proof (pages_for_range k Hk). nia.
Qed.

(** Inside one node, a block handed out shares no byte with the bookkeeping
    nor with another block. *)
Lemma live_not_meta m b nd p n x : node_ok m b nd → node_live b nd p n → p ≤ x < p + n → ¬ meta b nd x.
Proof.
  unfold meta. destruct nd as [i nx fr|k]; cbn [node_live].
  - intros (Hi & _) (j & Hj & Hn & -> & ->) Hx [Hm|(k & Hk & Hm)].
    + pose proof (obj_range b i j Hi Hj). lia.
    + assert (j ≠ k) as Hjk by (by intros ->). pose proof (obj_apart b i j k Hi Hjk). pose proof (csize_facts i Hi). lia.
  - intros _ [-> ->] Hx [?|[]]. lia.
Qed.

Lemma node_live_apart m b nd p n q k : node_ok m b nd → node_live b nd p n → node_live b nd q k → p ≠ q →
  p + n ≤ q ∨ q + k ≤ p.
Proof.
  destruct nd as [i nx fr|u]; cbn [node_live].
  - intros (Hi & _) (j & Hj & _ & -> & ->) (j' & _ & _ & -> & ->) Hne. apply obj_apart; [done|]. by intros ->.
  - intros _ [-> _] [-> _]. done.
Qed.

Lemma live_pos m b nd p n : node_ok m b nd → node_live b nd p n → 0 < n.
Proof.
  destruct nd as [i nx fr|u]; cbn [node_live].
  - intros (Hi & _) (j & _ & _ & _ & ->). pose proof (csize_facts i Hi). lia.
  - intros (? & _) [_ ->]. lia.
Qed.

(** Blocks handed out never overlap. *)
Lemma live_apart m a v N p n q k : mem_inv m a v N → live N p n → live N q k → p ≠ q → p + n ≤ q ∨ q + k ≤ p.
Proof.
  intros HI (b & nd & Hb & Hp) (c & nd' & Hc & Hq) Hne.
  pose proof (mi_node _ _ _ _ HI _ _ Hb) as Hnb. pose proof (mi_node _ _ _ _ HI _ _ Hc) as Hnc.
  destruct (decide (b = c)) as [->|Hbc]; [assert (nd' = nd) as -> by congruence; by eapply node_live_apart|].
  pose proof (live_pos _ _ _ _ _ Hnb Hp). pose proof (live_pos _ _ _ _ _ Hnc Hq).
  destruct (decide (p + n ≤ q ∨ q + k ≤ p)) as [?|Hno]; [done|exfalso].
  apply (region_apart _ _ _ _ _ _ (p `max` q) (mi_pages _ _ _ _ HI) (mi_held _ _ _ _ HI _ _ Hb) (mi_held _ _ _ _ HI _ _ Hc) Hbc).
  - eapply live_region; [done..|]. lia.
  - eapply live_region; [done..|]. lia.
Qed.

Lemma node_base m a v N b nd : mem_inv m a v N → N !! b = Some nd →
  0 < b ∧ b mod 4096 = 0 ∧ hhdm ≤ V b ∧ 0 < V b ∧ V b + 2 ^ Z.of_nat (node_order nd) * 4096 ≤ hhdm + ram_end a.
Proof.
  intros HI Hb. destruct (held_range _ _ _ _ (mi_pages _ _ _ _ HI) (mi_held _ _ _ _ HI _ _ Hb)) as (? & ? & ?).
  pose proof (mi_hhdm _ _ _ _ HI). unfold V. lia.
Qed.

Lemma live_facts m a v N p n : mem_inv m a v N → live N p n → 0 < n ∧ 0 < p ∧ p mod 16 = 0 ∧ hhdm ≤ p ∧ p + n ≤ hhdm + ram_end a.
Proof.
  intros HI (b & nd & Hb & Hp). pose proof (mi_node _ _ _ _ HI _ _ Hb) as Hn. pose proof (live_pos _ _ _ _ _ Hn Hp) as Hn0.
  destruct (node_base _ _ _ _ _ _ HI Hb) as (? & Hb4 & ? & ? & ?).
  pose proof (live_region _ _ _ _ _ p Hn Hp ltac:(lia)) as Hr1. pose proof (live_region _ _ _ _ _ (p + n - 1) Hn Hp ltac:(lia)) as Hr2.
  unfold region in *. split_and!; try lia. destruct (mi_hhdm _ _ _ _ HI) as [_ Hh]. destruct nd as [i nx fr|k].
  - destruct Hn as (Hi & _). destruct Hp as (j & _ & _ & -> & _). by apply obj_aligned.
  - destruct Hp as [-> _]. unfold V. Z.div_mod_to_equations. lia.
Qed.

(** ** Updates of the invariant *)

Lemma size_pblock b k : Z.of_nat (size (pblock b k)) = 2 ^ Z.of_nat k.
Proof.
  unfold pblock. rewrite size_list_to_set.
  - rewrite length_fmap, length_seqZ. lia.
  - apply NoDup_fmap_2; [intros x y; lia|apply NoDup_seqZ].
Qed.

Lemma charge_range m b nd : node_ok m b nd → 0 ≤ charge nd ≤ 4096 * 2 ^ Z.of_nat (node_order nd).
Proof.
  destruct nd as [i nx fr|n]; cbn [charge node_order].
  - intros (Hi & Hnd & Hfr & _). pose proof (csize_facts i Hi).
    assert (Z.of_nat (length fr) ≤ ccap i); [|change (2 ^ Z.of_nat 0) with 1; nia].
    assert (length fr ≤ length (seqZ 0 (ccap i)))%nat as Hl; [|rewrite length_seqZ in Hl; lia].
    apply submseteq_length, NoDup_submseteq; [done|]. intros j Hj. apply elem_of_seqZ. rewrite Forall_forall in Hfr. by apply Hfr.
  - intros (_ & Hk & _). pose proof (order_covers n Hk). pose proof (pages_for_range n Hk). lia.
Qed.

(** The usage counter stays below the size of memory: it never overflows. *)
Lemma total_cover m a v N : pa_rep a v → (∀ b nd, N !! b = Some nd → node_ok m b nd ∧ pv_held v !! b = Some (node_order nd)) →
  ∃ X : gset Z, (∀ p, p ∈ X ↔ ∃ b nd, N !! b = Some nd ∧ p ∈ pblock b (node_order nd)) ∧ 0 ≤ total N ≤ 4096 * Z.of_nat (size X).
Proof.
  intros Hr. induction N as [|b nd N Hb IH] using map_ind; intros HN.
  { exists ∅. split; [|done]. intros p. split; [set_solver|]. by intros (b & nd & Hb & _). }
  destruct IH as (X & HX & Ht).
  { intros c nd' Hc. apply HN. rewrite lookup_insert_ne; [done|]. intros ->. congruence. }
  destruct (HN b nd (lookup_insert_eq _ _ _)) as [Hok Hheld]. exists (pblock b (node_order nd) ∪ X). split.
  - intros p. rewrite elem_of_union, HX. split.
    + intros [Hp|(c & nd' & Hc & Hp)]; [exists b, nd; by rewrite lookup_insert_eq|].
      exists c, nd'. rewrite lookup_insert_ne; [done|]. intros ->. congruence.
    + intros (c & nd' & Hc & Hp). apply lookup_insert_Some in Hc as [[-> ->]|[? Hc]]; [by left|]. right. by exists c, nd'.
  - rewrite total_insert, size_union by (done || (intros p Hp (c & nd' & Hc & Hp')%HX;
      assert (b ≠ c) as Hne by congruence;
      refine (held_disj _ _ _ _ _ _ Hr Hheld (proj2 (HN c nd' _)) Hne p Hp Hp'); by rewrite lookup_insert_ne)).
    pose proof (charge_range _ _ _ Hok). rewrite Nat2Z.inj_add, size_pblock. lia.
Qed.

Lemma total_bound m a v N : mem_inv m a v N → 0 ≤ total N < 2 ^ 64.
Proof.
  intros HI. destruct (total_cover m a v N) as (X & HX & Ht).
  { apply HI. }
  { intros b nd Hb. split; [by apply HI|by eapply mi_held]. }
  assert (4096 * Z.of_nat (size X) ≤ 4096 * (ram_end a / 4096 - 1) ∨ X = ∅) as [?| ->].
  { destruct (decide (X = ∅)) as [?|Hne]; [by right|left].
    transitivity (4096 * Z.of_nat (size (list_to_set ((λ i, 4096 * i) <$> seqZ 1 (ram_end a / 4096 - 1)) : gset Z))).
    - apply Z.mul_le_mono_nonneg_l; [lia|]. apply inj_le, subseteq_size. intros p (b & nd & Hb & Hp)%HX.
      apply elem_of_pblock in Hp as (k & Hk & ->). destruct (node_base _ _ _ _ _ _ HI Hb) as (? & ? & ? & ? & ?).
      rewrite elem_of_list_to_set, list_elem_of_fmap. exists (b / 4096 + k). rewrite elem_of_seqZ. unfold V in *.
      Z.div_mod_to_equations. lia.
    - rewrite size_list_to_set, length_fmap, length_seqZ.
      + apply set_choose_L in Hne as [p (b & nd & Hb & Hp)%HX]. destruct (node_base _ _ _ _ _ _ HI Hb) as (? & ? & ? & ? & ?).
        assert (0 < 2 ^ Z.of_nat (node_order nd)) by (apply Z.pow_pos_nonneg; lia). unfold V in *. Z.div_mod_to_equations. lia.
      + apply NoDup_fmap_2; [intros x y; lia|apply NoDup_seqZ]. }
  - pose proof (mi_top _ _ _ _ HI). pose proof (mi_hhdm _ _ _ _ HI). Z.div_mod_to_equations. lia.
  - rewrite size_empty in Ht. lia.
Qed.

(** A node is added or replaced; memory changes inside its pages only. *)
Lemma mem_inv_insert m a v N m' a' v' b nd : mem_inv m a v N →
  pa_rep a' v' → ram_end a' = ram_end a →
  pv_held v' !! b = Some (node_order nd) → (∀ c k, c ≠ b → pv_held v !! c = Some k → pv_held v' !! c = Some k) →
  (∀ x, ¬ region b (node_order nd) x → m' !! x = m !! x) → (∀ x, is_Some (m !! x) → is_Some (m' !! x)) → bytes_ok m' →
  node_ok m' b nd →
  mem_inv m' a' v' (<[b := nd]> N).
Proof.
  intros HI Hr He Hb Hheld Hout Hmap Hok Hnd.
  assert (∀ c nd', c ≠ b → N !! c = Some nd' → pv_held v' !! c = Some (node_order nd')) as Hh.
  { intros c nd' Hne Hc. apply Hheld; [done|]. by eapply mi_held. }
  split; rewrite ?He; try by apply HI.
  - done.
  - intros x Hx. apply Hmap. eapply mi_mapped; [exact HI|done].
  - done.
  - intros c nd' Hc. apply lookup_insert_Some in Hc as [[-> <-]|[Hne Hc]]; [done|].
    eapply node_ok_ext; [|by eapply mi_node]. intros x Hx. apply Hout. intros Hx'.
    eapply (region_apart a' v' c (node_order nd') b (node_order nd) x Hr); [apply Hh; congruence|done|congruence| |done].
    eapply meta_region; [|done]. by eapply mi_node.
  - intros c nd' Hc. apply lookup_insert_Some in Hc as [[-> <-]|[Hne Hc]]; [done|]. apply Hh; congruence.
Qed.

(** The blocks of the other nodes keep their contents. *)
Lemma live_untouched m a v N m' b nd p n x c nd' : mem_inv m a v N → N !! c = Some nd' → node_live c nd' p n → p ≤ x < p + n →
  c ≠ b → pa_rep a v → pv_held v !! b = Some (node_order nd) →
  (∀ x, ¬ region b (node_order nd) x → m' !! x = m !! x) → m' !! x = m !! x.
Proof.
  intros HI Hc Hl Hx Hne Hr Hb Hout. apply Hout. intros Hx'.
  eapply (region_apart a v c (node_order nd') b (node_order nd) x Hr); [by eapply mi_held|done|done| |done].
  eapply live_region; [by eapply mi_node|done|done].
Qed.

(** A byte of a block handed out is changed by its owner. *)
Lemma mem_inv_store m a v N p n x (y : Z) : mem_inv m a v N → live N p n → p ≤ x < p + n → byte y →
  mem_inv (<[x := y]> m) a v N.
Proof.
  intros HI (b & nd & Hb & Hl) Hx Hy. split; try by apply HI.
  - intros z Hz. apply lookup_insert_is_Some'. right. eapply mi_mapped; [exact HI|done].
  - apply bytes_ok_insert; [apply HI|done].
  - intros c nd' Hc. eapply node_ok_ext; [|by eapply mi_node]. intros z Hz. rewrite lookup_insert_ne; [done|]. intros <-.
    destruct (decide (c = b)) as [->|Hne].
    + assert (nd' = nd) as -> by congruence. eapply live_not_meta; [by eapply mi_node|done|done|done].
    + eapply (region_apart a v c (node_order nd') b (node_order nd)); [apply HI|by eapply mi_held|by eapply mi_held|done| |].
      * eapply meta_region; [by eapply mi_node|done].
      * eapply live_region; [by eapply mi_node|done|done].
Qed.

(** ** Buckets *)

Lemma linked_insert N i L b nd : (∀ nx fr, N !! b = Some (NSlab i nx fr) → ∃ fr', nd = NSlab i nx fr') → linked N i L →
  linked (<[b := nd]> N) i L.
Proof.
  intros Hb. induction L as [|c L IH]; [done|]. intros [[fr Hc] HL]. split; [|by apply IH].
  destruct (decide (c = b)) as [->|Hne].
  - destruct (Hb _ _ Hc) as [fr' ->]. exists fr'. by rewrite lookup_insert_eq.
  - exists fr. by rewrite lookup_insert_ne.
Qed.

Lemma linked_delete N i L n b : N !! b = Some (NLarge n) → linked N i L → linked (delete b N) i L.
Proof.
  intros Hb. induction L as [|c L IH]; [done|]. intros [[fr Hc] HL]. split; [|by apply IH].
  exists fr. rewrite lookup_delete_ne; [done|]. intros ->. congruence.
Qed.

Lemma linked_in N i L b : linked N i L → b ∈ L → ∃ nx fr, N !! b = Some (NSlab i nx fr).
Proof.
  induction L as [|c L IH]; [by intros ? ?%not_elem_of_nil|]. intros [[fr Hc] HL] [->|Hb]%elem_of_cons; [by eexists _, _|by apply IH].
Qed.

(** The free objects of a slab change. *)
Lemma bucket_inv_update B N b i nx fr fr' : N !! b = Some (NSlab i nx fr) → bucket_inv B N →
  bucket_inv B (<[b := NSlab i nx fr']> N).
Proof.
  intros Hb HB k Hk. destruct (HB k Hk) as (L & HL & Hl & Hnd & Hall). exists L. split_and!; [done| |done|].
  - apply linked_insert; [|done]. intros nx' fr'' Hb'. rewrite Hb in Hb'. injection Hb' as -> -> ->. by exists fr'.
  - intros c nx' fr'' Hc. apply lookup_insert_Some in Hc as [[<- [= -> -> _]]|[_ Hc]]; [by eapply Hall|by eapply Hall].
Qed.

Lemma bucket_inv_large B N b n : N !! b = None → bucket_inv B N → bucket_inv B (<[b := NLarge n]> N).
Proof.
  intros Hb HB k Hk. destruct (HB k Hk) as (L & HL & Hl & Hnd & Hall). exists L. split_and!; [done| |done|].
  - apply linked_insert; [|done]. congruence.
  - intros c nx' fr'' Hc. apply lookup_insert_Some in Hc as [[_ ?]|[_ Hc]]; [done|by eapply Hall].
Qed.

Lemma bucket_inv_delete B N b n : N !! b = Some (NLarge n) → bucket_inv B N → bucket_inv B (delete b N).
Proof.
  intros Hb HB k Hk. destruct (HB k Hk) as (L & HL & Hl & Hnd & Hall). exists L. split_and!; [done| |done|].
  - by eapply linked_delete.
  - intros c nx' fr'' [_ Hc]%lookup_delete_Some. by eapply Hall.
Qed.

(** A new slab at the front of its bucket. *)
Lemma bucket_inv_push B N b i fr bk : (i < 8)%nat → N !! b = None → bucket_inv B N → B !! i = Some bk →
  bucket_inv (alter (λ bk, mk_bucket (kb_object_size bk) (V b)) i B) (<[b := NSlab i (kb_slabs bk) fr]> N).
Proof.
  intros Hi Hb HB Hbk k Hk. destruct (HB k Hk) as (L & HL & Hl & Hnd & Hall).
  assert (linked (<[b := NSlab i (kb_slabs bk) fr]> N) k L) as Hl' by (apply linked_insert; [congruence|done]).
  destruct (decide (k = i)) as [->|Hne].
  - exists (b :: L). rewrite list_lookup_alter_eq, HL. simpl. rewrite HL in Hbk. injection Hbk as <-. split_and!; [done| |done| |].
    + exists fr. by rewrite lookup_insert_eq.
    + apply NoDup_cons. split; [|done]. intros Hin. destruct (linked_in _ _ _ _ Hl Hin) as (? & ? & ?). congruence.
    + intros c nx' fr' Hc. apply lookup_insert_Some in Hc as [[<- _]|[_ Hc]]; [by left|right; by eapply Hall].
  - exists L. rewrite list_lookup_alter_ne by done. split_and!; [done|done|done|].
    intros c nx' fr' Hc. apply lookup_insert_Some in Hc as [[_ ?]|[_ Hc]]; [congruence|by eapply Hall].
Qed.

(** ** Loads and stores of the heap *)

Lemma wp_in_mem {R} (c : M mem R) h a (Q : R → state → Prop) :
  wp c (h_mem h) (λ r m', Q r (with_mem (λ _, m') h, a)) → wp (in_mem c) (h, a) Q.
Proof. unfold wp, in_mem. by destruct (c (h_mem h)) as [[r m']| | |]. Qed.

Lemma with_mem_id h : with_mem (λ _, h_mem h) h = h.
Proof. by destruct h. Qed.

Lemma wp_ld64 m B u a p w (Q : Z → state → Prop) : word m p w → 0 ≤ w < 2 ^ 64 →
  Q w (mk_heap m B u, a) → wp (ld64 p) (mk_heap m B u, a) Q.
Proof.
  intros Hw Hr HQ. apply wp_in_mem. eapply wp_ld_le; [|exact Hw|]; [apply le_bytes_length|]. by rewrite le_value_bytes.
Qed.

Lemma wp_st64 m B u a p w (Q : unit → state → Prop) : (∀ x, p ≤ x < p + 8 → is_Some (m !! x)) → 0 ≤ w < 2 ^ 64 →
  Q tt (mk_heap (writes m p (le_bytes 8 w)) B u, a) → wp (st64 p w) (mk_heap m B u, a) Q.
Proof.
  intros Hm Hr HQ. apply wp_in_mem. rewrite <-(le_value_bytes 8 w) by done.
  apply wp_st_le; [apply le_bytes_length|apply le_bytes_byte|intros i Hi; apply Hm; lia|done].
Qed.

Lemma wp_st32 m B u a p w (Q : unit → state → Prop) : (∀ x, p ≤ x < p + 4 → is_Some (m !! x)) → 0 ≤ w < 2 ^ 32 →
  Q tt (mk_heap (writes m p (le_bytes 4 w)) B u, a) → wp (st32 p w) (mk_heap m B u, a) Q.
Proof.
  intros Hm Hr HQ. apply wp_in_mem. rewrite <-(le_value_bytes 4 w) by done.
  apply wp_st_le; [apply le_bytes_length|apply le_bytes_byte|intros i Hi; apply Hm; lia|done].
Qed.

End Spec.
End HeapSpec.
