(* ===== verification/HeapAlloc.v ===== *)
(** * The heap: allocation

    Every path of [kmalloc] against the invariant: an object from a slab that
    has one, an object from a fresh slab, a large block, or NULL. *)
From S2P Require Import Prelude Pmm Pages CString CStringSpec Heap HeapSpec.

Module HeapAlloc.
Import CString CStringSpec Heap HeapSpec.

Section Alloc.
  Context {A : Type} `{PageLaws A} (hhdm : Z).
  Implicit Types (h : heap) (a : A) (v : pview) (N : gmap Z node) (B : list kmem_bucket) (m : mem) (l fr : list Z) (x p b : Z).

Abbreviation state := (heap * A)%type.
Abbreviation V := (HeapSpec.V hhdm).
Abbreviation obj := (HeapSpec.obj hhdm).
Abbreviation mem_inv := (HeapSpec.mem_inv hhdm).

Lemma hd_ptr_range b i fr : (i < 8)%nat → 0 < V b → V b + 4096 ≤ 2 ^ 64 → Forall (λ j, 0 ≤ j < ccap i) fr →
  0 ≤ hd_ptr (obj b i <$> fr) < 2 ^ 64.
Proof.
  intros Hi Hb He [|j fr' Hj _]; simpl; [lia|]. pose proof (obj_range hhdm b i j Hi Hj). pose proof (csize_facts i Hi). lia.
Qed.

(** What the code may rely on when it holds a slab. *)
Record slab_facts m a b (i : nat) nx fr : Prop := {
  sf_class : (i < 8)%nat;
  sf_nodup : NoDup fr;
  sf_slots : Forall (λ j, 0 ≤ j < ccap i) fr;
  sf_next : 0 ≤ nx < 2 ^ 64;
  sf_size_w : word m (V b) (csize i);
  sf_count_w : word m (V b + 8) (Z.of_nat (length fr));
  sf_list_w : word m (V b + 16) (hd_ptr (obj b i <$> fr));
  sf_next_w : word m (V b + 24) nx;
  sf_flist : flist m (obj b i <$> fr);
  sf_base : 0 < V b ∧ V b mod 4096 = 0 ∧ V b + 4096 ≤ 2 ^ 64;
  sf_mapped : ∀ x, V b ≤ x < V b + 4096 → is_Some (m !! x);
  sf_count : Z.of_nat (length fr) ≤ ccap i;
  sf_head : 0 ≤ hd_ptr (obj b i <$> fr) < 2 ^ 64;
}.

Lemma slab_of m a v N b i nx fr : mem_inv m a v N → N !! b = Some (NSlab i nx fr) → slab_facts m a b i nx fr.
Proof.
  intros HI Hb. pose proof (mi_node _ _ _ _ _ HI _ _ Hb) as Hn. destruct (node_base _ _ _ _ _ _ _ HI Hb) as (? & ? & ? & ? & Htop).
  pose proof (charge_range _ _ _ _ Hn) as Hch. destruct Hn as (Hi & ? & ? & ? & ? & ? & ? & ? & ?).
  pose proof (mi_top _ _ _ _ _ HI). destruct (mi_hhdm _ _ _ _ _ HI). pose proof (csize_facts i Hi). cbn [node_order charge] in *.
  change (2 ^ Z.of_nat 0) with 1 in *. split; try done.
  - split_and!; [done| |lia]. unfold HeapSpec.V. rewrite Z.add_mod by lia. by replace (hhdm mod 4096) with 0; replace (b mod 4096) with 0.
  - intros x Hx. eapply mi_mapped; [exact HI|]. lia.
  - nia.
  - apply hd_ptr_range; [done|done|lia|done].
Qed.

Lemma find_slab_spec m B u a v N i L : ∀ fuel, (i < 8)%nat → (length L < fuel)%nat → mem_inv m a v N → linked hhdm N i L →
  wp (find_slab fuel (hd_ptr (V <$> L))) (mk_heap m B u, a) (λ r s', s' = (mk_heap m B u, a) ∧
    ((r = 0 ∧ ∀ b nx fr, b ∈ L → N !! b = Some (NSlab i nx fr) → fr = []) ∨
     ∃ b nx j fr, r = V b ∧ r ≠ 0 ∧ N !! b = Some (NSlab i nx (j :: fr)))).
Proof.
  induction L as [|b L IH]; intros [|fuel] Hi Hf HI HL; simpl in Hf; try lia; cbn [find_slab fmap list_fmap hd_ptr].
  - apply wp_ret. split; [done|]. left. split; [done|]. by intros b nx fr ?%not_elem_of_nil.
  - destruct HL as [[fr Hb] HL]. pose proof (slab_of _ _ _ _ _ _ _ _ HI Hb) as Hs.
    destruct (Z.eqb_spec (V b) 0); [pose proof (sf_base _ _ _ _ _ _ Hs); lia|]. apply wp_bind.
    eapply wp_ld64; [apply (sf_count_w _ _ _ _ _ _ Hs)| |].
    { pose proof (sf_count _ _ _ _ _ _ Hs). pose proof (csize_facts i Hi). lia. }
    destruct fr as [|j fr]; cbn [length].
    + apply wp_bind. eapply wp_ld64; [apply (sf_next_w _ _ _ _ _ _ Hs)|apply (sf_next _ _ _ _ _ _ Hs)|].
      eapply wp_mono; [apply IH; [done|lia|done|done]|]. intros r s' [-> Hr]. split; [done|].
      destruct Hr as [[-> Hall]|Hr]; [|by right]. left. split; [done|]. intros c nx fr [->|Hc]%elem_of_cons Hc'; [congruence|by eapply Hall].
    + destruct (Z.eqb_spec (Z.of_nat (S (length fr))) 0); [lia|]. apply wp_ret. split; [done|]. right. by eexists b, _, j, fr.
Qed.

(** Writes into a page go through when the page is mapped. *)
Lemma mapped_word m (w : Z) p : bytes_ok m → bytes_ok (writes m p (le_bytes 8 w)).
Proof. intros Hm. apply bytes_ok_writes; [done|]. apply le_bytes_byte. Qed.

#[local] Hint Resolve is_Some_writes mapped_word : kernel.

Lemma take_object_spec m B a v N b i nx j fr : mem_inv m a v N → N !! b = Some (NSlab i nx (j :: fr)) →
  let N' := <[b := NSlab i nx fr]> N in
  wp (take_object (csize i) (V b)) (mk_heap m B (total N), a) (λ p s', ∃ m', p = obj b i j ∧
    s' = (mk_heap m' B (total N'), a) ∧ mem_inv m' a v N' ∧ same_outside (V b) (V b + 32) m m').
Proof.
  intros HI Hb N'. pose proof (slab_of _ _ _ _ _ _ _ _ HI Hb) as Hs. pose proof (sf_class _ _ _ _ _ _ Hs) as Hi.
  destruct (sf_base _ _ _ _ _ _ Hs) as (? & ? & ?). pose proof (sf_mapped _ _ _ _ _ _ Hs) as Hm. pose proof (csize_facts i Hi) as Hc.
  pose proof (sf_slots _ _ _ _ _ _ Hs) as [Hj Hfr]%Forall_cons. pose proof (obj_range hhdm b i j Hi Hj) as Hoj.
  pose proof (sf_nodup _ _ _ _ _ _ Hs) as [Hjn Hnd]%NoDup_cons. destruct (sf_flist _ _ _ _ _ _ Hs) as [Hw Hl].
  pose proof (sf_count _ _ _ _ _ _ Hs) as Hcnt. cbn [length] in Hcnt.
  pose proof (hd_ptr_range b i fr Hi ltac:(lia) ltac:(lia) Hfr) as Hhd.
  unfold take_object, o_free_list, o_free_count. apply wp_bind.
  eapply wp_ld64; [apply (sf_list_w _ _ _ _ _ _ Hs)|apply (sf_head _ _ _ _ _ _ Hs)|]. cbn [fmap list_fmap hd_ptr].
  apply wp_bind. eapply wp_ld64; [exact Hw|done|]. apply wp_bind. eapply wp_st64; [intros; apply Hm; lia|done|].
  apply wp_bind. eapply wp_ld64; [eapply word_frame; [|apply (sf_count_w _ _ _ _ _ _ Hs)]; lia|cbn [length]; lia|]. cbn [length].
  apply wp_bind. eapply wp_st64; [intros; apply is_Some_writes, Hm; lia|apply wrap_range; lia|].
  apply wp_bind, wp_modify, wp_ret. replace (u64 _) with (Z.of_nat (length fr)) by (rewrite wrap_small; lia). eexists. split; [done|].
  assert (total N' = total N + csize i) as Ht by (unfold N'; erewrite total_update by done; cbn [charge length]; lia).
  assert (mem_inv (writes (writes m (V b + 16) (le_bytes 8 (hd_ptr (list_fmap Z Z (obj b i) fr)))) (V b + 8)
    (le_bytes 8 (Z.of_nat (length fr)))) a v N') as HI'.
  { eapply mem_inv_insert; try done; try by apply HI.
    - cbn [node_order]. by apply (mi_held _ _ _ _ _ HI _ _ Hb).
    - intros x Hx. rewrite region_0 in Hx. rewrite !writes_out; [done|..]; rewrite le_bytes_length; lia.
    - eauto with kernel.
    - do 2 apply mapped_word; try done. apply HI.
    - split_and!; try done; try lia; try by apply (sf_next _ _ _ _ _ _ Hs).
      + eapply word_frame, word_frame, (sf_size_w _ _ _ _ _ _ Hs); lia.
      + apply word_write.
      + apply word_frame; [lia|]. apply word_write.
      + eapply word_frame, word_frame, (sf_next_w _ _ _ _ _ _ Hs); lia.
      + eapply flist_ext; [|exact Hl]. intros q x (k & -> & Hk)%list_elem_of_fmap Hx.
        rewrite Forall_forall in Hfr. pose proof (obj_range hhdm b i k Hi (Hfr _ Hk)).
        rewrite !writes_out; [done|..]; rewrite le_bytes_length; lia. }
  split_and!; [|done|].
  - unfold hset, with_used. cbn. f_equal. f_equal. rewrite wrap_small; [lia|]. pose proof (total_bound _ _ _ _ _ HI'). lia.
  - intros x Hx. rewrite !writes_out; [done|..]; rewrite le_bytes_length; lia.
Qed.

(** Memory keeps its shape: what was mapped stays mapped, bytes stay bytes. *)
Definition same_shape m m' : Prop := (∀ x, is_Some (m !! x) → is_Some (m' !! x)) ∧ (bytes_ok m → bytes_ok m').

Lemma same_shape_refl m : same_shape m m.
Proof. done. Qed.

Lemma same_shape_write m m' p n (w : Z) : same_shape m m' → same_shape m (writes m' p (le_bytes n w)).
Proof.
  intros [H1 H2]. split; [intros x Hx; by apply is_Some_writes, H1|intros Hm; apply bytes_ok_writes; [by apply H2|]].
  apply le_bytes_byte.
Qed.

Lemma same_shape_trans m1 m2 m3 : same_shape m1 m2 → same_shape m2 m3 → same_shape m1 m3.
Proof. intros [? ?] [? ?]. split; eauto. Qed.

#[local] Hint Resolve same_shape_refl same_shape_write : kernel.

Lemma obj_S b i j : obj b i (j + 1) = obj b i j + csize i.
Proof. unfold HeapSpec.obj. lia. Qed.

Lemma link_objects_spec B u a b i n : ∀ j m, (i < 8)%nat → 0 ≤ j → j + Z.of_nat n < ccap i → 0 < V b → V b + 4096 ≤ 2 ^ 64 →
  (∀ x, V b ≤ x < V b + 4096 → is_Some (m !! x)) →
  wp (link_objects n (obj b i j) (csize i)) (mk_heap m B u, a) (λ r s', ∃ m', s' = (mk_heap m' B u, a) ∧
    r = obj b i (j + Z.of_nat n) ∧ same_outside (obj b i j) (obj b i (j + Z.of_nat n)) m m' ∧
    (∀ k, j ≤ k < j + Z.of_nat n → word m' (obj b i k) (obj b i (k + 1))) ∧ same_shape m m').
Proof.
  induction n as [|n IH]; intros j m Hi Hj Hn Hb Ht Hm; cbn [link_objects].
  { apply wp_ret. exists m. rewrite Z.add_0_r. split_and!; [done|done|done| |done]. intros k Hk. lia. }
  pose proof (obj_range hhdm b i j Hi ltac:(lia)). pose proof (obj_range hhdm b i (j + 1) Hi ltac:(lia)).
  pose proof (csize_facts i Hi). rewrite wrap_small by (rewrite <-obj_S; lia). rewrite <-obj_S.
  apply wp_bind, wp_st64; [intros; apply Hm; lia|lia|]. apply wp_bind. eapply wp_ld64; [apply word_write|lia|].
  eapply wp_mono; [apply (IH (j + 1)); [done|lia|lia|done|done|intros; apply is_Some_writes; by apply Hm]|].
  intros r s' (m' & -> & -> & Hs & Hw & Hsh). exists m'.
  replace (j + 1 + Z.of_nat n) with (j + Z.of_nat (S n)) in * by lia. split_and!; [done|done| | |].
  - intros x Hx. unfold HeapSpec.obj in *. rewrite Hs, writes_out; [done|rewrite le_bytes_length; nia|nia].
  - intros k Hk. destruct (decide (k = j)) as [->|]; [|apply Hw; lia].
    eapply word_outside; [exact Hs| |apply word_write]. left. rewrite obj_S. lia.
  - eapply same_shape_trans; [|exact Hsh]. auto with kernel.
Qed.

Lemma flist_seq m b i n : ∀ j, (∀ k, j ≤ k < j + Z.of_nat n → word m (obj b i k) (obj b i (k + 1))) →
  word m (obj b i (j + Z.of_nat n)) 0 → flist m (obj b i <$> seqZ j (Z.of_nat n + 1)).
Proof.
  induction n as [|n IH]; intros j Hw H0'; rewrite seqZ_cons by lia; cbn [fmap list_fmap flist].
  - rewrite Z.add_0_r in H0'. done.
  - replace (Z.pred (Z.of_nat (S n) + 1)) with (Z.of_nat n + 1) by lia.
    replace (j + Z.of_nat (S n)) with (Z.succ j + Z.of_nat n) in H0' by lia. split.
    + rewrite seqZ_cons by lia. apply Hw. lia.
    + apply IH; [|done]. intros k Hk. apply Hw. lia.
Qed.

(** Blocks from the page allocator are new. *)
Lemma fresh_block a v b k : pa_rep a v → pblock b k ⊆ pv_free v → pv_held v !! b = None.
Proof.
  intros Hr Hs. destruct (pv_held v !! b) as [j|] eqn:Hb; [|done]. destruct (held_not_free _ _ _ _ Hr Hb).
  apply Hs, page_of_block.
Qed.

Lemma align16 y : y mod 16 = 0 → 0 ≤ y < 2 ^ 64 - 15 → Z.land (u64 (y + 15)) (not64 15) = y.
Proof.
  intros Hy Hr. rewrite wrap_small by lia. rewrite land_not64 by lia. change 15 with (Z.ones 4) at 2.
  rewrite Z.ldiff_ones_r, Z.shiftl_mul_pow2, Z.shiftr_div_pow2 by lia. change (2 ^ 4) with 16. Z.div_mod_to_equations. lia.
Qed.

(** A view with one more block held. *)
Definition hold v b (k : nat) : pview := mk_view (pv_free v ∖ pblock b k) (<[b := k]> (pv_held v)).

Record fresh_page m a v b (k : nat) m' a' : Prop := {
  fp_rep : pa_rep a' (hold v b k);
  fp_new : pv_held v !! b = None;
  fp_end : ram_end a' = ram_end a;
  fp_out : ∀ x, ¬ region hhdm b k x → m' !! x = m !! x;
  fp_shape : same_shape m m';
}.

Lemma mem_inv_fresh m a v N b nd m' a' : mem_inv m a v N → fresh_page m a v b (node_order nd) m' a' → node_ok hhdm m' b nd →
  mem_inv m' a' (hold v b (node_order nd)) (<[b := nd]> N) ∧ N !! b = None.
Proof.
  intros HI [Hr Hn He Ho [Hs1 Hs2]] Hok. split.
  - eapply mem_inv_insert; try done.
    + apply lookup_insert_eq.
    + intros c k Hne Hc. unfold hold. cbn [pv_held]. by rewrite lookup_insert_ne.
    + apply Hs2, HI.
  - destruct (N !! b) as [nd'|] eqn:Hb; [|done]. pose proof (mi_held _ _ _ _ _ HI _ _ Hb). congruence.
Qed.

(** The direct map of a block just handed out. *)
Lemma fresh_range m a v N b k a' : mem_inv m a v N → pa_rep a' (hold v b k) → ram_end a' = ram_end a →
  VIRT hhdm b = V b ∧ 0 < V b ∧ V b mod 4096 = 0 ∧ V b + 2 ^ Z.of_nat k * 4096 ≤ 2 ^ 64 ∧
  (∀ x, V b ≤ x < V b + 2 ^ Z.of_nat k * 4096 → is_Some (m !! x)).
Proof.
  intros HI Hr He. destruct (held_range a' _ b k Hr) as (? & Hb & Ht); [apply lookup_insert_eq|].
  destruct (mi_hhdm _ _ _ _ _ HI) as [? Hh]. pose proof (mi_top _ _ _ _ _ HI). rewrite He in Ht.
  assert (0 < 2 ^ Z.of_nat k) by (apply Z.pow_pos_nonneg; lia). unfold HeapSpec.V, VIRT. split_and!; [| | |lia|].
  - rewrite wrap_small; lia.
  - lia.
  - rewrite Z.add_mod by lia. by rewrite Hh, Hb.
  - intros x Hx. eapply mi_mapped; [exact HI|]. lia.
Qed.

Lemma create_slab_page_spec m B u a v N i : mem_inv m a v N → (i < 8)%nat →
  wp (create_slab_page hhdm (csize i)) (mk_heap m B u, a) (λ r s',
    (r = 0 ∧ s' = (mk_heap m B u, a) ∧ pv_free v = ∅) ∨
    ∃ b m' a', r = V b ∧ r ≠ 0 ∧ s' = (mk_heap m' B u, a') ∧ fresh_page m a v b 0 m' a' ∧
      node_ok hhdm m' b (NSlab i 0 (seqZ 0 (ccap i)))).
Proof.
  intros HI Hi. unfold create_slab_page. apply wp_bind, wp_lift_r.
  eapply wp_mono; [apply (alloc_law a v 0); [apply HI|unfold Pmm.PMM_MAX_ORDER; lia]|].
  intros b a' [He [(-> & Hz & ->)|(Hb0 & Hsub & _ & Hr)]].
  { apply wp_ret. left. split_and!; [done|done|by apply Hz]. }
  destruct (Z.eqb_spec b 0); [done|]. fold (hold v b 0) in Hr. pose proof (fresh_block _ _ _ _ (mi_pages _ _ _ _ _ HI) Hsub) as Hnew.
  destruct (fresh_range _ _ _ _ _ _ _ HI Hr He) as (-> & ? & Hal & Htop & Hm). change (2 ^ Z.of_nat 0) with 1 in *.
  rewrite Z.mul_1_l in *. pose proof (csize_facts i Hi) as Hc.
  unfold o_object_size, o_next, o_free_count, o_free_list, sizeof_slab_page, PAGE_SIZE, Pmm.PAGE_SIZE.
  rewrite align16, Z.add_0_r by (Z.div_mod_to_equations; lia).
  replace (4096 - (V b + 32 - V b)) with 4064 by lia. rewrite (wrap_small 64 4064) by lia. fold (ccap i).
  rewrite (wrap_small 64 (ccap i - 1)) by lia.
  apply wp_bind, wp_st64; [intros; apply Hm; lia|lia|]. apply wp_bind, wp_st64; [intros; apply is_Some_writes, Hm; lia|lia|].
  apply wp_bind, wp_st64; [intros; do 2 apply is_Some_writes; apply Hm; lia|lia|].
  apply wp_bind, wp_st64; [intros; do 3 apply is_Some_writes; apply Hm; lia|lia|]. apply wp_bind.
  match goal with |- context [mk_heap ?M' B u] => set (m1 := M') end.
  assert (same_shape m m1) as Hsh1 by (unfold m1; eauto 10 with kernel).
  replace (V b + 32) with (obj b i 0) by (unfold HeapSpec.obj; lia).
  eapply wp_mono; [apply (link_objects_spec B u a' b i (Z.to_nat (ccap i - 1)) 0 m1 Hi); [lia|lia|done|done|]|].
  { intros x Hx. by apply Hsh1, Hm. }
  intros r s' (m2 & -> & -> & Hs2 & Hw2 & Hsh2). rewrite Z2Nat.id, Z.add_0_l in * by lia.
  pose proof (obj_range hhdm b i (ccap i - 1) Hi ltac:(lia)). pose proof (obj_range hhdm b i 0 Hi ltac:(lia)).
  apply wp_bind, wp_st64; [intros; by apply Hsh2, Hsh1, Hm; lia|lia|]. apply wp_ret. right. eexists b, _, a'.
  split_and!; [done|lia|done| |].
  - split; [done|done|done| |].
    + intros x Hx. rewrite region_0 in Hx. rewrite writes_out, Hs2 by (rewrite ?le_bytes_length; lia). unfold m1.
      rewrite !writes_out; [done|..]; rewrite le_bytes_length; lia.
    + apply same_shape_write. by eapply same_shape_trans.
  - assert (∀ y w, V b ≤ y → y + 8 ≤ V b + 32 → word m1 y w → word (writes m2 (obj b i (ccap i - 1)) (le_bytes 8 0)) y w) as Hhead.
    { intros y w ? ? Hw. apply word_frame; [lia|]. eapply word_outside; [exact Hs2|lia|done]. }
    split_and!; [done|apply NoDup_seqZ|apply Forall_forall; intros j; by rewrite elem_of_seqZ|lia|lia|..].
    + apply Hhead; [lia|lia|]. do 3 (apply word_frame; [lia|]). apply word_write.
    + rewrite length_seqZ, Z2Nat.id by lia. apply Hhead; [lia|lia|]. apply word_frame; [lia|]. apply word_write.
    + rewrite seqZ_cons by lia. cbn [fmap list_fmap hd_ptr]. apply Hhead; [lia|lia|]. unfold m1.
      replace (obj b i 0) with (V b + 32) by (unfold HeapSpec.obj; lia). apply word_write.
    + apply Hhead; [lia|lia|]. do 2 (apply word_frame; [lia|]). apply word_write.
    + replace (ccap i) with (Z.of_nat (Z.to_nat (ccap i - 1)) + 1) at 2 by lia. apply flist_seq; rewrite Z2Nat.id, Z.add_0_l by lia.
      * intros k Hk. apply word_frame; [|by apply Hw2]. right. unfold HeapSpec.obj. nia.
      * apply word_write.
Qed.

(** ** The set of blocks handed out *)

Abbreviation live := (HeapSpec.live hhdm).

Lemma live_insert N b nd p n : live (<[b := nd]> N) p n ↔ node_live hhdm b nd p n ∨ live (delete b N) p n.
Proof.
  unfold HeapSpec.live. split.
  - intros (c & nd' & [[<- <-]|[Hne Hc]]%lookup_insert_Some & Hl); [by left|right]. exists c, nd'. by rewrite lookup_delete_ne.
  - intros [Hl|(c & nd' & [Hne Hc]%lookup_delete_Some & Hl)]; [exists b, nd; by rewrite lookup_insert_eq|].
    exists c, nd'. by rewrite lookup_insert_ne.
Qed.

Lemma live_lookup N b nd p n : N !! b = Some nd → live N p n ↔ node_live hhdm b nd p n ∨ live (delete b N) p n.
Proof. intros Hb. rewrite <-(insert_id N b nd Hb) at 1. apply live_insert. Qed.

Lemma node_live_take b i nx j fr p n : NoDup (j :: fr) → 0 ≤ j < ccap i →
  node_live hhdm b (NSlab i nx fr) p n ↔ node_live hhdm b (NSlab i nx (j :: fr)) p n ∨ (p = obj b i j ∧ n = csize i).
Proof.
  intros [Hj _]%NoDup_cons Hr. cbn [node_live]. split.
  - intros (k & Hk & Hn & -> & ->). destruct (decide (k = j)) as [->|]; [by right|left]. exists k. set_solver.
  - intros [(k & Hk & Hn & -> & ->)|[-> ->]]; [exists k; set_solver|by exists j].
Qed.

Lemma node_live_full b i nx p n : ¬ node_live hhdm b (NSlab i nx (seqZ 0 (ccap i))) p n.
Proof. intros (j & Hj & Hn & _). apply Hn, elem_of_seqZ. lia. Qed.

(** Blocks of other nodes lie outside the pages of this one. *)
Lemma live_elsewhere m a v N b nd q k x : mem_inv m a v N → N !! b = Some nd → live (delete b N) q k → q ≤ x < q + k →
  ¬ region hhdm b (node_order nd) x.
Proof.
  intros HI Hb (c & nd' & [Hne Hc]%lookup_delete_Some & Hl) Hx.
  eapply region_apart; [apply HI|apply (mi_held _ _ _ _ _ HI _ _ Hc)|apply (mi_held _ _ _ _ _ HI _ _ Hb)|done|].
  eapply live_region; [by eapply mi_node|done|done].
Qed.

Lemma live_delete_pos m a v N b q k : mem_inv m a v N → live (delete b N) q k → 0 < k.
Proof. intros HI (c & nd' & [Hne Hc]%lookup_delete_Some & Hl). eapply live_pos; [by eapply mi_node|done]. Qed.

(** What a successful allocation of [n] bytes at [p] leaves behind. *)
Record alloc_post (s : state) v N (n p : Z) (s' : state) v' N' : Prop := {
  ap_inv : heap_inv hhdm s' v' N';
  ap_end : ram_end s'.2 = ram_end s.2;
  ap_held : pv_held v ⊆ pv_held v';
  ap_live : ∀ q k, live N' q k ↔ live N q k ∨ (q = p ∧ k = n);
  ap_new : ∀ k, ¬ live N p k;
  ap_same : ∀ q k x, live N q k → q ≤ x < q + k → h_mem s'.1 !! x = h_mem s.1 !! x;
}.

(** A free object of a known slab is taken. *)
Lemma take_post m B a v N b i nx j fr : heap_inv hhdm (mk_heap m B (total N), a) v N → N !! b = Some (NSlab i nx (j :: fr)) →
  wp (take_object (csize i) (V b)) (mk_heap m B (total N), a) (λ p s', p ≠ 0 ∧
    ∃ v' N', alloc_post (mk_heap m B (total N), a) v N (csize i) p s' v' N').
Proof.
  intros (HI & HB & _) Hb. cbn [fst snd h_mem buckets] in HI, HB. pose proof (slab_of _ _ _ _ _ _ _ _ HI Hb) as Hs.
  pose proof (sf_slots _ _ _ _ _ _ Hs) as [Hj _]%Forall_cons. pose proof (sf_class _ _ _ _ _ _ Hs) as Hi.
  pose proof (obj_range hhdm b i j Hi Hj) as Ho. pose proof (sf_base _ _ _ _ _ _ Hs). pose proof (sf_nodup _ _ _ _ _ _ Hs) as Hnd.
  eapply wp_mono; [by eapply take_object_spec|]. intros p s' (m' & -> & -> & HI' & Hout). split; [lia|].
  assert (∀ q k, live (<[b := NSlab i nx fr]> N) q k ↔ live N q k ∨ (q = obj b i j ∧ k = csize i)) as Hlive.
  { intros q k. rewrite live_insert, (live_lookup N b _ q k Hb), (node_live_take b i nx j fr) by done. tauto. }
  assert (∀ k, ¬ live N (obj b i j) k) as Hnew.
  { intros k [(j' & _ & Hn & He & _)|Hl]%(live_lookup N b _ _ _ Hb).
    - apply Hn. assert (j' = j) as -> by (pose proof (csize_facts i Hi); unfold HeapSpec.obj in He; nia). by left.
    - pose proof (live_delete_pos _ _ _ _ _ _ _ HI Hl). pose proof (csize_facts i Hi).
      apply (live_elsewhere _ _ _ _ _ _ _ _ (obj b i j) HI Hb Hl); [lia|]. apply region_0. lia. }
  eexists v, _. split; cbn [fst snd h_mem]; [|done|done|done|done|].
  - split_and!; cbn [fst snd h_mem buckets used_memory]; [done|by eapply bucket_inv_update|done].
  - intros q k x [Hl|Hl]%(live_lookup N b _ _ _ Hb) Hx; apply Hout; intros Hx'.
    + eapply live_not_meta; [by apply (mi_node _ _ _ _ _ HI _ _ Hb)|done|done|]. by left.
    + apply (live_elsewhere _ _ _ _ _ _ _ _ x HI Hb Hl Hx). apply region_0. lia.
Qed.

Lemma fresh_region m a v N b k m' a' q n x : mem_inv m a v N → fresh_page m a v b k m' a' → live N q n → q ≤ x < q + n →
  ¬ region hhdm b k x.
Proof.
  intros HI Hf (c & nd & Hc & Hl) Hx. pose proof (mi_held _ _ _ _ _ HI _ _ Hc) as Hh. pose proof (fp_new _ _ _ _ _ _ _ Hf) as Hn.
  assert (c ≠ b) as Hne by congruence.
  eapply (region_apart hhdm a' (hold v b k)); [apply Hf| |apply lookup_insert_eq|exact Hne|].
  - unfold hold. cbn [pv_held]. by rewrite lookup_insert_ne.
  - eapply live_region; [by eapply mi_node|done|done].
Qed.

Lemma fresh_same m a v N b k m' a' q n x : mem_inv m a v N → fresh_page m a v b k m' a' → live N q n → q ≤ x < q + n →
  m' !! x = m !! x.
Proof. intros HI Hf Hl Hx. apply (fp_out _ _ _ _ _ _ _ Hf). by eapply fresh_region. Qed.

Lemma fresh_write m a v b k m' a' p (w : Z) : fresh_page m a v b k m' a' → V b ≤ p → p + 8 ≤ V b + 2 ^ Z.of_nat k * 4096 →
  fresh_page m a v b k (writes m' p (le_bytes 8 w)) a'.
Proof.
  intros [Hr Hn He Ho Hs] ? ?. split; [done..| |by apply same_shape_write]. intros x Hx. unfold region in Hx.
  rewrite writes_out; [by apply Ho|]. rewrite le_bytes_length. lia.
Qed.

Lemma chain_fuel m a v N i L : mem_inv m a v N → linked hhdm N i L → NoDup L → (length L ≤ size m)%nat.
Proof.
  intros HI HL Hnd. rewrite <-size_dom, <-(length_fmap V L), <-(size_list_to_set (C := gset Z) (V <$> L)).
  - apply subseteq_size. intros x (b & -> & Hb)%elem_of_list_to_set%list_elem_of_fmap. apply elem_of_dom.
    destruct (linked_in _ _ _ _ _ HL Hb) as (nx & fr & Hn). destruct (node_base _ _ _ _ _ _ _ HI Hn) as (? & ? & ? & ? & ?).
    eapply mi_mapped; [exact HI|]. cbn [node_order] in *. change (2 ^ Z.of_nat 0) with 1 in *. lia.
  - apply NoDup_fmap_2; [|done]. intros x y. unfold HeapSpec.V. lia.
Qed.

(** No slab of the class has an object left. *)
Definition class_empty N (i : nat) : Prop := ∀ b nx fr, N !! b = Some (NSlab i nx fr) → fr = [].

(** A fresh slab enters the heap; nothing is handed out yet. *)
Lemma push_slab m B a v N b i m' a' bk : heap_inv hhdm (mk_heap m B (total N), a) v N → (i < 8)%nat → B !! i = Some bk →
  0 ≤ kb_slabs bk < 2 ^ 64 → fresh_page m a v b 0 m' a' → node_ok hhdm m' b (NSlab i 0 (seqZ 0 (ccap i))) →
  let m1 := writes m' (V b + 24) (le_bytes 8 (kb_slabs bk)) in
  let N1 := <[b := NSlab i (kb_slabs bk) (seqZ 0 (ccap i))]> N in
  heap_inv hhdm (mk_heap m1 (alter (λ bk, mk_bucket (kb_object_size bk) (V b)) i B) (total N1), a') (hold v b 0) N1 ∧
  total N1 = total N ∧ (∀ q k, live N1 q k ↔ live N q k) ∧ fresh_page m a v b 0 m1 a' ∧ N !! b = None.
Proof.
  intros (HI & HB & _) Hi Hbk Hr Hf Hok m1 N1. cbn [fst snd h_mem buckets] in HI, HB. pose proof (csize_facts i Hi) as Hc.
  assert (fresh_page m a v b 0 m1 a') as Hf1 by (apply fresh_write; [done|lia|change (2 ^ Z.of_nat 0) with 1; lia]).
  assert (node_ok hhdm m1 b (NSlab i (kb_slabs bk) (seqZ 0 (ccap i)))) as Hok1.
  { destruct Hok as (? & Hnd & Hfr & _ & ? & ? & ? & ? & Hl). split_and!; try done; try lia; try (apply word_frame; [lia|done]).
    - apply word_write.
    - eapply flist_ext; [|exact Hl]. intros q x (j & -> & Hj)%list_elem_of_fmap Hx. rewrite Forall_forall in Hfr.
      pose proof (obj_range hhdm b i j Hi (Hfr _ Hj)). apply writes_out. rewrite le_bytes_length. lia. }
  destruct (mem_inv_fresh _ _ _ _ _ (NSlab i (kb_slabs bk) (seqZ 0 (ccap i))) _ _ HI Hf1 Hok1) as [HI1 Hnone].
  assert (total N1 = total N) as Ht.
  { unfold N1. rewrite total_insert by done. cbn [charge]. rewrite length_seqZ, Z2Nat.id by lia. lia. }
  split_and!; [|done| |done|done].
  - split_and!; cbn [fst snd h_mem buckets used_memory]; [done|by apply bucket_inv_push|done].
  - intros q k. unfold N1. rewrite live_insert, delete_id by done. split; [intros [Hl|?]; [by apply node_live_full in Hl|done]|by right].
Qed.

Lemma alloc_small_spec m B a v N i : heap_inv hhdm (mk_heap m B (total N), a) v N → (i < 8)%nat →
  wp (alloc_small hhdm i) (mk_heap m B (total N), a) (λ p s',
    (p = 0 ∧ s' = (mk_heap m B (total N), a) ∧ pv_free v = ∅ ∧ class_empty N i) ∨
    (p ≠ 0 ∧ ∃ v' N', alloc_post (mk_heap m B (total N), a) v N (csize i) p s' v' N')).
Proof.
  intros HH Hi. pose proof HH as (HI & HB & Hu). cbn [fst snd h_mem buckets] in HI, HB.
  destruct (HB i Hi) as (L & HL & Hlk & Hnd & Hall). unfold alloc_small. apply wp_bind. eapply wp_deref; [exact HL|].
  cbn [kb_slabs kb_object_size]. apply wp_bind, wp_in_mem, wp_gets. rewrite with_mem_id. apply wp_bind.
  eapply wp_mono; [apply (find_slab_spec m B (total N) a v N i L); [done| |done|done]|].
  { pose proof (chain_fuel _ _ _ _ _ _ HI Hlk Hnd). cbn [h_mem]. lia. }
  intros r s' [-> [[-> Hemp]|(b & nx & j & fr & -> & Hr & Hb)]]; apply wp_bind.
  2:{ destruct (Z.eqb_spec (V b) 0); [done|]. apply wp_ret. destruct (Z.eqb_spec (V b) 0); [done|].
      eapply wp_mono; [by eapply take_post|]. intros p s' Hp. by right. }
  cbn [Z.eqb]. apply wp_bind. eapply wp_mono; [by eapply create_slab_page_spec|].
  intros r s' [(-> & -> & Hf)|(b & m' & a' & -> & Hb0 & -> & Hf & Hok)].
  { cbn. do 2 apply wp_ret. left. split_and!; [done|done|done|]. intros b nx fr Hb. eapply Hemp; [|done]. by eapply Hall. }
  destruct (Z.eqb_spec (V b) 0); [done|]. cbn [negb].
  set (bk := mk_bucket (csize i) (hd_ptr (V <$> L))) in *.
  assert (0 ≤ kb_slabs bk < 2 ^ 64) as Hbk.
  { destruct L as [|c L]; cbn; [lia|]. destruct Hlk as [[fr Hc] _]. pose proof (sf_base _ _ _ _ _ _ (slab_of _ _ _ _ _ _ _ _ HI Hc)). lia. }
  destruct (push_slab _ _ _ _ _ _ _ _ _ _ HH Hi HL Hbk Hf Hok) as (HH1 & Ht & Hlive & Hf1 & Hnone).
  destruct (fresh_range _ _ _ _ _ _ _ HI (fp_rep _ _ _ _ _ _ _ Hf) (fp_end _ _ _ _ _ _ _ Hf)) as (_ & ? & _ & ? & Hm).
  change (2 ^ Z.of_nat 0) with 1 in *. apply wp_bind, wp_bind, wp_st64; [intros; apply (fp_shape _ _ _ _ _ _ _ Hf), Hm; unfold o_next in *; lia|done|].
  apply wp_modify, wp_ret. destruct (Z.eqb_spec (V b) 0); [done|]. cbn [fst snd with_buckets h_mem buckets used_memory].
  pose proof (csize_facts i Hi). rewrite (seqZ_cons 0 (ccap i)) in HH1, Ht, Hlive by lia. rewrite <-Ht.
  eapply wp_mono; [eapply take_post; [exact HH1|apply lookup_insert_eq]|]. intros p s' (Hp & v' & N' & Hpost). right. split; [done|].
  exists v', N'. destruct Hpost as [P1 P2 P3 P4 P5 P6]. cbn [fst snd h_mem] in *. split; cbn [fst snd h_mem].
  - done.
  - rewrite P2. apply Hf.
  - etrans; [|exact P3]. apply insert_subseteq, Hf.
  - intros q k. by rewrite P4, Hlive.
  - intros k. rewrite <-Hlive. apply P5.
  - intros q k x Hq Hx. rewrite (P6 q k x); [by eapply fresh_same|by apply Hlive|done].
Qed.

(** ** Large blocks *)

Lemma pages_for_bound n : 0 ≤ pages_for n < 2 ^ 52.
Proof.
  unfold pages_for, PAGE_SIZE, Pmm.PAGE_SIZE.
  pose proof (wrap_range 64 (u64 (u64 (n + sizeof_large_alloc_header) + 4096) - 1) ltac:(lia)).
  split; [apply Z.div_pos; lia|apply Z.div_lt_upper_bound; lia].
Qed.

(** The page allocator on a request of any order. *)
Lemma page_alloc_spec a v k : pa_rep a v → wp (page_alloc k) a (λ b a', ram_end a' = ram_end a ∧
  ((b = 0 ∧ (k = 0%nat → pv_free v = ∅) ∧ a' = a) ∨
   (b ≠ 0 ∧ pblock b k ⊆ pv_free v ∧ pa_rep a' (hold v b k)))).
Proof.
  intros Hr. destruct (decide (k < Pmm.PMM_MAX_ORDER)%nat) as [Hk|Hk].
  - eapply wp_mono; [by apply alloc_law|]. intros b a' [He [(? & ? & ?)|(? & ? & _ & ?)]]; (split; [done|]); [by left|by right].
  - eapply wp_mono; [apply alloc_big; lia|]. intros b a' [-> ->]. split; [done|]. left. split_and!; [done| |done].
    intros ->. unfold Pmm.PMM_MAX_ORDER in Hk. lia.
Qed.

Lemma alloc_large_gen m B u a v N n : mem_inv m a v N → 0 ≤ n < 2 ^ 64 →
  let k := Pmm.order_for 63 0 (pages_for n) in
  wp (alloc_large hhdm n) (mk_heap m B u, a) (λ p s',
    (p = 0 ∧ s' = (mk_heap m B u, a) ∧ (k = 0%nat → pv_free v = ∅)) ∨
    ∃ b m' a', p = V b + 32 ∧ s' = (mk_heap m' B (u64 (u + pages_for n * 4096)), a') ∧
      0 < V b ∧ b ∈ pv_free v ∧ fresh_page m a v b k m' a' ∧
      holds m' (V b) (le_bytes 4 LARGE_ALLOC_MAGIC) ∧ word m' (V b + 8) (pages_for n) ∧ word m' (V b + 16) n).
Proof.
  intros HI Hn k. unfold alloc_large. fold k. apply wp_bind, wp_lift_r. eapply wp_mono; [apply page_alloc_spec, HI|].
  intros b a' [He [(-> & Hz & ->)|(Hb0 & Hsub & Hr)]]; [by apply wp_ret; left|].
  destruct (Z.eqb_spec b 0); [done|]. pose proof (fresh_block _ _ _ _ (mi_pages _ _ _ _ _ HI) Hsub) as Hnew.
  destruct (fresh_range _ _ _ _ _ _ _ HI Hr He) as (-> & ? & _ & Htop & Hm). pose proof (pages_for_bound n) as Hpg.
  assert (0 < 2 ^ Z.of_nat k) by (apply Z.pow_pos_nonneg; lia).
  unfold o_magic, o_page_count, o_size, sizeof_large_alloc_header. rewrite Z.add_0_r.
  apply wp_bind, wp_st32; [intros; apply Hm; lia|unfold LARGE_ALLOC_MAGIC; lia|].
  apply wp_bind, wp_st64; [intros; apply is_Some_writes, Hm; lia|lia|].
  apply wp_bind, wp_st64; [intros; do 2 apply is_Some_writes; apply Hm; lia|lia|].
  apply wp_bind, wp_modify, wp_ret. right. eexists b, _, a'. rewrite (wrap_small 64 (V b + 32)) by lia.
  split_and!; [done| |done|apply Hsub, page_of_block| | | |].
  - unfold with_used. cbn [fst snd h_mem buckets used_memory]. unfold PAGE_SIZE, Pmm.PAGE_SIZE. by rewrite (wrap_small 64 (pages_for n * 4096)) by lia.
  - split; [done|done|done| |]; [|do 3 apply same_shape_write; done]. intros x Hx. unfold region in Hx.
    rewrite !writes_out; [done|..]; rewrite le_bytes_length; lia.
  - apply holds_frame; [rewrite !le_bytes_length; lia|]. apply holds_frame; [rewrite !le_bytes_length; lia|]. apply holds_writes.
  - apply word_frame; [lia|]. apply word_write.
  - apply word_write.
Qed.

Lemma alloc_large_spec m B a v N n : heap_inv hhdm (mk_heap m B (total N), a) v N → 2048 < n → size_ok n →
  wp (alloc_large hhdm n) (mk_heap m B (total N), a) (λ p s',
    (p = 0 ∧ s' = (mk_heap m B (total N), a)) ∨
    (p ≠ 0 ∧ ∃ v' N', alloc_post (mk_heap m B (total N), a) v N n p s' v' N')).
Proof.
  intros (HI & HB & _) Hn Hok. cbn [fst snd h_mem buckets] in HI, HB.
  eapply wp_mono; [apply (alloc_large_gen _ _ _ _ _ _ _ HI)|]; [unfold size_ok in Hok; lia|].
  intros p s' [(-> & -> & _)|(b & m' & a' & -> & -> & ? & _ & Hf & Hw1 & Hw2 & Hw3)]; [by left|right]. split; [lia|].
  destruct (mem_inv_fresh _ _ _ _ _ (NLarge n) _ _ HI Hf) as [HI' Hnone]; [by split_and!|].
  assert (total (<[b := NLarge n]> N) = total N + pages_for n * 4096) as Ht by (rewrite total_insert by done; cbn [charge]; lia).
  eexists _, (<[b := NLarge n]> N). split; cbn [fst snd h_mem].
  - split_and!; cbn [fst snd h_mem buckets used_memory]; [exact HI'|by apply bucket_inv_large|].
    rewrite <-Ht. apply wrap_small. by eapply total_bound.
  - apply Hf.
  - apply insert_subseteq, Hf.
  - intros q k. rewrite live_insert, delete_id by done. cbn [node_live]. tauto.
  - intros k Hl. pose proof Hl as (c & nd & Hc & Hlc). pose proof (live_pos _ _ _ _ _ _ (mi_node _ _ _ _ _ HI _ _ Hc) Hlc).
    apply (fresh_region _ _ _ _ _ _ _ _ _ _ (V b + 32) HI Hf Hl); [lia|]. unfold region.
    assert (0 < 2 ^ Z.of_nat (Pmm.order_for 63 0 (pages_for n))) by (apply Z.pow_pos_nonneg; lia). lia.
  - intros q k x Hq Hx. by eapply fresh_same.
Qed.

(** [kmalloc] on every request whose size does not overflow. *)
Lemma heap_kmalloc_spec h a v N n : heap_inv hhdm (h, a) v N → size_ok n →
  wp (kmalloc hhdm n) (h, a) (λ p s',
    (p = 0 ∧ s' = (h, a) ∧ (0 < n ≤ 2048 → pv_free v = ∅ ∧ ∃ i, n ≤ csize i ∧ class_empty N i)) ∨
    (p ≠ 0 ∧ 0 < n ∧ ∃ c v' N', n ≤ c ∧ alloc_post (h, a) v N c p s' v' N')).
Proof.
  intros HH Hok. destruct h as [m B u]. pose proof HH as (_ & _ & Hu). cbn [fst used_memory] in Hu. subst u.
  unfold size_ok in Hok. unfold kmalloc. destruct (Z.eqb_spec n 0); [apply wp_ret; left; split_and!; [done|done|lia]|].
  destruct (Z.leb_spec n 2048).
  - destruct (find_bucket_spec n ltac:(lia)) as (i & Hi & Hni & ->). eapply wp_mono; [by apply alloc_small_spec|].
    intros p s' [(-> & -> & ? & ?)|(? & v' & N' & ?)]; [left|right]; (split; [done|]).
    + split; [done|]. intros _. split; [done|]. by exists i.
    + split; [lia|]. by exists (csize i), v', N'.
  - eapply wp_mono; [by apply alloc_large_spec; [|lia|unfold size_ok; lia]|].
    intros p s' [(-> & ->)|(? & v' & N' & ?)]; [left|right]; (split; [done|]).
    + split; [done|lia].
    + split; [lia|]. by exists n, v', N'.
Qed.

End Alloc.
End HeapAlloc.
