(* ===== verification/HeapTheorems.v ===== *)
(** * The heap: release, reallocation, and the abstract heap

    The heap refines a map from block addresses to byte strings: blocks do not
    overlap, keep what was stored in them, and are gone once freed. *)
From S2P Require Import Prelude Pmm Pages CString CStringSpec Heap HeapSpec HeapAlloc.

Module HeapTheorems.
Import CString CStringSpec Heap HeapSpec HeapAlloc.

Section Free.
  Context {A : Type} `{PageLaws A} (hhdm : Z).
  Implicit Types (h : heap) (a : A) (v : pview) (N : gmap Z node) (B : list kmem_bucket) (m : mem) (l fr : list Z) (x p b : Z).

Abbreviation state := (heap * A)%type.
Abbreviation V := (HeapSpec.V hhdm).
Abbreviation obj := (HeapSpec.obj hhdm).
Abbreviation mem_inv := (HeapSpec.mem_inv hhdm).
Abbreviation live := (HeapSpec.live hhdm).

Record free_post (s : state) N p (s' : state) v' N' : Prop := {
  fr_inv : heap_inv hhdm s' v' N';
  fr_end : ram_end s'.2 = ram_end s.2;
  fr_live : ∀ q k, live N' q k ↔ live N q k ∧ q ≠ p;
  fr_same : ∀ q k x, live N q k → q ≠ p → q ≤ x < q + k → h_mem s'.1 !! x = h_mem s.1 !! x;
}.

Lemma page_base_of b p : V b mod 4096 = 0 → 0 ≤ V b → V b ≤ p < V b + 4096 → p < 2 ^ 64 → Z.land p (not64 0xFFF) = V b.
Proof.
  intros Hb H0' Hp Ht. rewrite land_not64 by lia. change 0xFFF with (Z.ones 12).
  rewrite Z.ldiff_ones_r, Z.shiftl_mul_pow2, Z.shiftr_div_pow2 by lia. change (2 ^ 12) with 4096. Z.div_mod_to_equations. lia.
Qed.

Lemma wp_ld32 m B u a p w (Q : Z → state → Prop) : holds m p (le_bytes 4 w) → 0 ≤ w < 2 ^ 32 →
  Q w (mk_heap m B u, a) → wp (ld32 p) (mk_heap m B u, a) Q.
Proof.
  intros Hw Hr HQ. apply wp_in_mem. eapply wp_ld_le; [|exact Hw|]; [apply le_bytes_length|]. by rewrite le_value_bytes.
Qed.

Definition is_large_node (nd : node) : bool := match nd with NLarge _ => true | NSlab _ _ _ => false end.

(** The base of the page a block begins in. *)
Lemma live_base m a v N b nd p n : mem_inv m a v N → N !! b = Some nd → node_live hhdm b nd p n →
  Z.land p (not64 0xFFF) = V b ∧ V b + 32 ≤ p < 2 ^ 64 ∧ 0 < V b.
Proof.
  intros HI Hb Hl. destruct (node_base _ _ _ _ _ _ _ HI Hb) as (? & Hb4 & ? & ? & Ht). pose proof (mi_top _ _ _ _ _ HI).
  destruct (mi_hhdm _ _ _ _ _ HI) as [? Hh]. pose proof (mi_node _ _ _ _ _ HI _ _ Hb) as Hn. pose proof (live_pos _ _ _ _ _ _ Hn Hl).
  assert (V b mod 4096 = 0) as Hv by (unfold HeapSpec.V; rewrite Z.add_mod by lia; by rewrite Hh, Hb4).
  assert (0 < 2 ^ Z.of_nat (node_order nd)) by (apply Z.pow_pos_nonneg; lia).
  assert (V b + 32 ≤ p < V b + 4096); [|split_and!; [apply page_base_of; (done || lia)|lia|lia|lia]].
  destruct nd as [i nx fr|k]; cbn [node_live] in Hl.
  - destruct Hn as (Hi & _), Hl as (j & Hj & _ & -> & _). pose proof (obj_range hhdm b i j Hi Hj). pose proof (csize_facts i Hi). lia.
  - destruct Hl as [-> _]. lia.
Qed.

(** [kfree] and [krealloc] tell the two kinds of block apart: the first word
    of a slab is its object size, never the magic number. *)
Lemma is_large_spec m B u a v N b nd p n : mem_inv m a v N → N !! b = Some nd → node_live hhdm b nd p n →
  wp (is_large p) (mk_heap m B u, a) (λ r s', r = is_large_node nd ∧ s' = (mk_heap m B u, a)).
Proof.
  intros HI Hb Hl. destruct (live_base _ _ _ _ _ _ _ _ HI Hb Hl) as (He & Hp & ?). unfold is_large, o_magic, sizeof_large_alloc_header.
  rewrite He, Z.add_0_r, wrap_small by lia. pose proof (mi_node _ _ _ _ _ HI _ _ Hb) as Hn. destruct nd as [i nx fr|k].
  - destruct (Z.eqb_spec p (V b + 32)); [|by apply wp_ret]. destruct Hn as (Hi & _ & _ & _ & Hw & _).
    unfold word in Hw. rewrite (le_bytes_take 4 4) in Hw. apply holds_app in Hw as [Hw _]. pose proof (csize_facts i Hi).
    apply wp_bind. eapply wp_ld32; [exact Hw|lia|]. apply wp_ret. split; [|done]. unfold LARGE_ALLOC_MAGIC. apply Z.eqb_neq. lia.
  - destruct Hl as [-> _]. rewrite Z.eqb_refl. destruct Hn as (_ & _ & Hw & _). apply wp_bind.
    eapply wp_ld32; [exact Hw|unfold LARGE_ALLOC_MAGIC; lia|]. by apply wp_ret.
Qed.

Lemma live_here m a v N b nd p n q k : mem_inv m a v N → N !! b = Some nd → node_live hhdm b nd p n → live (delete b N) q k → q ≠ p.
Proof.
  intros HI Hb Hp Hq ->. pose proof (mi_node _ _ _ _ _ HI _ _ Hb) as Hn. pose proof (live_pos _ _ _ _ _ _ Hn Hp).
  pose proof (live_delete_pos _ _ _ _ _ _ _ _ HI Hq).
  apply (live_elsewhere _ _ _ _ _ _ _ _ _ p HI Hb Hq); [lia|]. eapply live_region; [done|done|lia].
Qed.

Lemma node_live_give b i nx j fr q k : (i < 8)%nat →
  node_live hhdm b (NSlab i nx (j :: fr)) q k ↔ node_live hhdm b (NSlab i nx fr) q k ∧ q ≠ obj b i j.
Proof.
  intros Hi. pose proof (csize_facts i Hi). cbn [node_live]. split.
  - intros (k' & Hk & Hn & -> & ->). split; [exists k'; set_solver|]. intros He.
    assert (k' = j) as -> by (unfold HeapSpec.obj in He; nia). set_solver.
  - intros [(k' & Hk & Hn & -> & ->) Hne]. exists k'. split_and!; try done; try lia. intros [->|?]%elem_of_cons; done.
Qed.

Lemma free_large m B a v N b n : heap_inv hhdm (mk_heap m B (total N), a) v N → N !! b = Some (NLarge n) →
  wp (kfree hhdm (V b + 32)) (mk_heap m B (total N), a) (λ _ s', ∃ v' N', free_post (mk_heap m B (total N), a) N (V b + 32) s' v' N').
Proof.
  intros (HI & HB & _) Hb. cbn [fst snd h_mem buckets] in HI, HB. assert (node_live hhdm b (NLarge n) (V b + 32) n) as Hl by done.
  destruct (live_base _ _ _ _ _ _ _ _ HI Hb Hl) as (He & Hp & ?). pose proof (mi_node _ _ _ _ _ HI _ _ Hb) as (_ & Hok & _ & Hw & _).
  unfold kfree. destruct (Z.eqb_spec (V b + 32) 0); [lia|]. apply wp_bind. eapply wp_mono; [by eapply is_large_spec|].
  intros r s' [-> ->]. cbn [is_large_node]. rewrite He. pose proof (pages_for_range n Hok) as [_ Hpg].
  apply wp_bind. eapply wp_ld64; [exact Hw|lia|]. apply wp_bind, wp_modify, wp_lift_r. cbn [fst snd with_used h_mem buckets used_memory].
  destruct (node_base _ _ _ _ _ _ _ HI Hb) as (? & _ & ? & ? & ?). pose proof (mi_top _ _ _ _ _ HI).
  assert (0 < 2 ^ Z.of_nat (node_order (NLarge n))) by (apply Z.pow_pos_nonneg; lia).
  assert (PHYS hhdm (V b) = b) as -> by (unfold PHYS, HeapSpec.V in *; rewrite wrap_small; [lia|destruct (mi_hhdm _ _ _ _ _ HI); lia]).
  eapply wp_mono; [apply free_law; [apply HI|exact (mi_held _ _ _ _ _ HI _ _ Hb)]|].
  intros [] a' [Hend Hr]. eexists _, (delete b N). pose proof (total_lookup _ _ _ Hb) as Ht. cbn [charge] in Ht.
  assert (mem_inv m a' (mk_view (pv_free v ∪ pblock b (node_order (NLarge n))) (delete b (pv_held v))) (delete b N)) as HI'.
  { split; rewrite ?Hend; try by apply HI.
    - exact Hr.
    - intros c nd [_ Hc]%lookup_delete_Some. by eapply mi_node.
    - intros c nd [Hne Hc]%lookup_delete_Some. cbn [pv_held]. rewrite lookup_delete_ne by done. by apply (mi_held _ _ _ _ _ HI). }
  split; cbn [fst snd h_mem]; [|done| |done].
  - split_and!; cbn [fst snd h_mem buckets used_memory]; [exact HI'|by eapply bucket_inv_delete|].
    pose proof (total_bound _ _ _ _ _ HI'). pose proof (pages_for_bound n). unfold PAGE_SIZE, Pmm.PAGE_SIZE. rewrite (wrap_small 64 (pages_for n * 4096)) by lia.
    unfold with_used. cbn [used_memory]. rewrite Ht, wrap_small; lia.
  - intros q k. rewrite (live_lookup hhdm N b _ q k Hb). cbn [node_live]. split; [|tauto].
    intros Hq. split; [by right|]. by apply (live_here _ _ _ _ _ _ _ _ _ _ HI Hb Hl Hq).
Qed.

Lemma free_small m B a v N b i nx fr j : heap_inv hhdm (mk_heap m B (total N), a) v N → N !! b = Some (NSlab i nx fr) →
  0 ≤ j < ccap i → j ∉ fr →
  wp (kfree hhdm (obj b i j)) (mk_heap m B (total N), a) (λ _ s', ∃ v' N', free_post (mk_heap m B (total N), a) N (obj b i j) s' v' N').
Proof.
  intros (HI & HB & _) Hb Hj Hjn. cbn [fst snd h_mem buckets] in HI, HB. pose proof (slab_of _ _ _ _ _ _ _ _ _ HI Hb) as Hs.
  assert (node_live hhdm b (NSlab i nx fr) (obj b i j) (csize i)) as Hl by by exists j.
  destruct (live_base _ _ _ _ _ _ _ _ HI Hb Hl) as (He & Hp & ?). destruct (sf_base _ _ _ _ _ _ _ Hs) as (_ & _ & Htop).
  pose proof (sf_class _ _ _ _ _ _ _ Hs) as Hi. pose proof (csize_facts i Hi) as Hc. pose proof (obj_range hhdm b i j Hi Hj) as Ho.
  pose proof (sf_mapped _ _ _ _ _ _ _ Hs) as Hm. pose proof (sf_count _ _ _ _ _ _ _ Hs). pose proof (sf_slots _ _ _ _ _ _ _ Hs) as Hfr.
  unfold kfree. destruct (Z.eqb_spec (obj b i j) 0); [lia|]. apply wp_bind. eapply wp_mono; [by eapply is_large_spec|].
  intros r s' [-> ->]. cbn [is_large_node]. rewrite He. unfold o_free_list, o_free_count, o_object_size. rewrite Z.add_0_r.
  apply wp_bind. eapply wp_ld64; [apply Hs|apply Hs|]. apply wp_bind, wp_st64; [intros; apply Hm; lia|apply Hs|].
  apply wp_bind, wp_st64; [intros; apply is_Some_writes, Hm; lia|lia|]. apply wp_bind.
  eapply wp_ld64; [apply word_frame; [lia|]; apply word_frame; [lia|]; apply Hs|lia|].
  rewrite (wrap_small 64) by lia. apply wp_bind, wp_st64; [intros; do 2 apply is_Some_writes; apply Hm; lia|lia|].
  match goal with |- context [mk_heap ?M' B _] => set (m' := M') end.
  assert (word m' (V b) (csize i)) as Hsz by (do 3 (apply word_frame; [lia|]); apply Hs).
  apply wp_bind, wp_gets. apply wp_bind. eapply wp_ld64; [exact Hsz|lia|]. cbn [fst used_memory].
  assert (mem_inv m' a v (<[b := NSlab i nx (j :: fr)]> N)) as HI'.
  { eapply mem_inv_insert; try done; try by apply HI.
    - by apply (mi_held _ _ _ _ _ HI _ _ Hb).
    - intros x Hx. rewrite region_0 in Hx. unfold m'. rewrite !writes_out; [done|..]; rewrite le_bytes_length; lia.
    - intros x Hx. by do 3 apply is_Some_writes.
    - do 3 apply mapped_word. apply HI.
    - split_and!; try done; try by apply Hs.
      + apply NoDup_cons. split; [done|apply Hs].
      + by constructor.
      + cbn [length]. rewrite Nat2Z.inj_succ. apply word_write.
      + apply word_frame; [lia|]. apply word_write.
      + do 3 (apply word_frame; [lia|]). apply Hs.
      + split; [do 2 (apply word_frame; [lia|]); apply word_write|]. eapply flist_ext; [|apply Hs].
        intros q x (k & -> & Hk)%list_elem_of_fmap Hx. rewrite Forall_forall in Hfr. pose proof (obj_range hhdm b i k Hi (Hfr _ Hk)).
        assert (j ≠ k) as Hjk by (by intros ->). pose proof (obj_apart hhdm b i j k Hi Hjk).
        unfold m'. rewrite !writes_out; [done|..]; rewrite le_bytes_length; lia. }
  pose proof (total_bound _ _ _ _ _ HI') as Hb'. erewrite total_update in Hb' by done. cbn [charge length] in Hb'.
  destruct (Z.leb_spec (csize i) (total N)); [|lia].
  apply wp_modify. eexists v, _. split; cbn [fst snd h_mem with_used]; [|done| |].
  - split_and!; unfold with_used; cbn [fst snd h_mem buckets used_memory]; [exact HI'|by eapply bucket_inv_update|].
    erewrite total_update by done. cbn [charge length]. rewrite wrap_small; lia.
  - intros q k. rewrite live_insert, (live_lookup hhdm N b _ q k Hb), node_live_give by done. split.
    + intros [[? ?]|Hq]; [by split; [left|]|]. split; [by right|]. by apply (live_here _ _ _ _ _ _ _ _ _ _ HI Hb Hl Hq).
    + intros [[?|?] ?]; [by left|by right].
  - intros q k x [Hq|Hq]%(live_lookup hhdm N b _ _ _ Hb) Hne Hx; unfold with_used, m'; cbn [h_mem].
    + pose proof (live_not_meta _ _ _ _ _ _ x (mi_node _ _ _ _ _ HI _ _ Hb) Hq Hx) as Hnm. unfold meta in Hnm.
      pose proof (node_live_apart _ _ _ _ _ _ _ _ (mi_node _ _ _ _ _ HI _ _ Hb) Hq Hl Hne).
      rewrite !writes_out; [done|..]; rewrite le_bytes_length; [lia|lia|lia].
    + pose proof (live_elsewhere _ _ _ _ _ _ _ _ _ x HI Hb Hq Hx) as Hr. rewrite region_0 in Hr.
      rewrite !writes_out; [done|..]; rewrite le_bytes_length; lia.
Qed.

(** [kfree] of a block handed out. *)
Lemma kfree_spec h a v N p n : heap_inv hhdm (h, a) v N → live N p n →
  wp (kfree hhdm p) (h, a) (λ _ s', ∃ v' N', free_post (h, a) N p s' v' N').
Proof.
  intros HH (b & nd & Hb & Hl). destruct h as [m B u]. pose proof HH as (_ & _ & Hu). cbn [fst used_memory] in Hu. subst u.
  destruct nd as [i nx fr|k]; cbn [node_live] in Hl.
  - destruct Hl as (j & Hj & Hn & -> & ->). by eapply free_small.
  - destruct Hl as [-> ->]. by apply (free_large m B a v N b k).
Qed.

(** ** Contents of blocks *)

(** [n] bytes at [p]. *)
Definition read m p (n : Z) : list Z := (λ i, default 0 (m !! (p + i))) <$> seqZ 0 n.

Lemma read_length m p n : 0 ≤ n → Z.of_nat (length (read m p n)) = n.
Proof. intros Hn. unfold read. rewrite length_fmap, length_seqZ. lia. Qed.

Lemma read_holds m p n : (∀ x, p ≤ x < p + n → is_Some (m !! x)) → holds m p (read m p n).
Proof.
  intros Hm i y Hy. unfold read in Hy. apply list_lookup_fmap_Some in Hy as (k & -> & Hk). apply lookup_seqZ in Hk as [-> Hi].
  rewrite Z.add_0_l. destruct (Hm (p + Z.of_nat i)) as [z Hz]; [lia|]. by rewrite Hz.
Qed.

Lemma mem_inv_writes m a v N p n l : ∀ d, mem_inv m a v N → live N p n → p ≤ d → d + Z.of_nat (length l) ≤ p + n → Forall byte l →
  mem_inv (writes m d l) a v N.
Proof.
  induction l as [|y l IH]; intros d HI Hp Hd He Hl; simpl; [done|]. apply Forall_cons in Hl as [Hy Hl]. simpl in He.
  eapply mem_inv_store; [apply IH; [done|done|lia|lia|done]|done|lia|done].
Qed.

Lemma memset_spec m p c n : byte c → 0 ≤ n → (∀ x, p ≤ x < p + n → is_Some (m !! x)) →
  wp (memset p c n) m (λ r m', r = p ∧ m' = writes m p (replicate (Z.to_nat n) c)).
Proof.
  intros Hc Hn Hm. unfold memset. apply wp_bind.
  apply (wp_for_loop (λ i m', 0 ≤ i ∧ m' = writes m p (replicate (Z.to_nat i) c))).
  - done.
  - intros i m' Hi [_ ->]. apply wp_st; [apply is_Some_writes, Hm; lia|done|]. split; [lia|].
    replace (Z.to_nat (i + 1)) with (S (Z.to_nat i)) by lia. rewrite replicate_S_end, writes_snoc, length_replicate.
    do 2 f_equal. lia.
  - intros m' [_ ->]. apply wp_ret. split; [done|]. do 2 f_equal. lia.
Qed.

(** [krealloc] reads the size of a block from its page. *)
Lemma old_size_spec m B u a v N p n : mem_inv m a v N → live N p n →
  wp (large ← is_large p;
      if (large : bool) then ld64 (Z.land p (not64 0xFFF) + o_size) else ld64 (Z.land p (not64 0xFFF) + o_object_size))
    (mk_heap m B u, a) (λ r s', r = n ∧ s' = (mk_heap m B u, a)).
Proof.
  intros HI (b & nd & Hb & Hl). destruct (live_base _ _ _ _ _ _ _ _ HI Hb Hl) as (He & Hp & ?). apply wp_bind.
  eapply wp_mono; [by eapply is_large_spec|]. intros r s' [-> ->]. rewrite He. unfold o_size, o_object_size. rewrite Z.add_0_r.
  pose proof (mi_node _ _ _ _ _ HI _ _ Hb) as Hn. destruct nd as [i nx fr|k]; cbn [is_large_node].
  - destruct Hn as (Hi & _ & _ & _ & Hw & _), Hl as (j & _ & _ & _ & ->). pose proof (csize_facts i Hi). eapply wp_ld64; [exact Hw|lia|done].
  - destruct Hn as (_ & Hok & _ & _ & Hw), Hl as [_ ->]. unfold size_ok in Hok. eapply wp_ld64; [exact Hw|lia|done].
Qed.

(** ** The abstract heap *)

(** What the kernel does with the heap. *)
Inductive hop :=
| Malloc (n : Z)
| Zalloc (n : Z)
| Free (p : Z)
| Realloc (p n : Z)
| Store (p k y : Z)
| Load (p k : Z).

Definition run_op (o : hop) : M state Z :=
  match o with
  | Malloc n => kmalloc hhdm n
  | Zalloc n => kzalloc hhdm n
  | Free p => kfree hhdm p;; mret 0
  | Realloc p n => krealloc hhdm p n
  | Store p k y => in_mem (st (p + k) y);; mret 0
  | Load p k => in_mem (ld (p + k))
  end.

Implicit Types (C : gmap Z (list Z)).

(** A client passes sizes that do not overflow, frees what it holds, and
    stays inside its blocks. *)
Definition op_ok C (o : hop) : Prop :=
  match o with
  | Malloc n | Zalloc n => size_ok n
  | Free p => p = 0 ∨ is_Some (C !! p)
  | Realloc p n => size_ok n ∧ (p = 0 ∨ is_Some (C !! p))
  | Store p k y => byte y ∧ ∃ l, C !! p = Some l ∧ 0 ≤ k < Z.of_nat (length l)
  | Load p k => ∃ l, C !! p = Some l ∧ 0 ≤ k < Z.of_nat (length l)
  end.

(** [p] is a usable new block of [n] bytes: aligned, and apart from the others. *)
Definition new_block C p (n : Z) : Prop :=
  0 < n ∧ p ≠ 0 ∧ p mod 16 = 0 ∧ C !! p = None ∧ ∀ q l, C !! q = Some l → p + n ≤ q ∨ q + Z.of_nat (length l) ≤ p.

Inductive abs_step C : hop → Z → gmap Z (list Z) → Prop :=
| abs_malloc_null n : abs_step C (Malloc n) 0 C
| abs_malloc n p l : new_block C p n → Z.of_nat (length l) = n → abs_step C (Malloc n) p (<[p := l]> C)
| abs_zalloc_null n : abs_step C (Zalloc n) 0 C
| abs_zalloc n p : new_block C p n → abs_step C (Zalloc n) p (<[p := replicate (Z.to_nat n) 0]> C)
| abs_free_null : abs_step C (Free 0) 0 C
| abs_free p : p ≠ 0 → abs_step C (Free p) 0 (delete p C)
| abs_realloc_alloc n r C' : abs_step C (Malloc n) r C' → abs_step C (Realloc 0 n) r C'
| abs_realloc_free p : p ≠ 0 → abs_step C (Realloc p 0) 0 (delete p C)
| abs_realloc_null p n : p ≠ 0 → abs_step C (Realloc p n) 0 C
| abs_realloc p n q l l' : p ≠ 0 → C !! p = Some l → new_block C q n → Z.of_nat (length l') = n →
    take (length l) l' = take (Z.to_nat n) l → abs_step C (Realloc p n) q (<[q := l']> (delete p C))
| abs_store p k y l : C !! p = Some l → abs_step C (Store p k y) 0 (<[p := <[Z.to_nat k := y]> l]> C)
| abs_load p k l y : C !! p = Some l → l !! Z.to_nat k = Some y → abs_step C (Load p k) y C.

Definition holds_blocks m N C : Prop := ∀ p l, C !! p = Some l → ∃ c, live N p c ∧ Z.of_nat (length l) ≤ c ∧ holds m p l.

Definition heap_rel (s : state) C : Prop := ∃ v N, heap_inv hhdm s v N ∧ holds_blocks (h_mem s.1) N C.

Lemma post_new_block s v N C c p s' v' N' n : heap_inv hhdm s v N → holds_blocks (h_mem s.1) N C → alloc_post hhdm s v N c p s' v' N' →
  0 < n ≤ c → new_block C p n.
Proof.
  intros _ HC Hp Hn. destruct (ap_inv _ _ _ _ _ _ _ _ _ Hp) as (HI & _ & _).
  assert (live N' p c) as Hl by (apply (ap_live _ _ _ _ _ _ _ _ _ Hp); by right).
  destruct (live_facts _ _ _ _ _ _ _ HI Hl) as (? & ? & ? & _). split_and!; [lia|lia|done| |].
  - destruct (C !! p) as [l|] eqn:E; [|done]. destruct (HC _ _ E) as (k & Hk & _). by destruct (ap_new _ _ _ _ _ _ _ _ _ Hp k).
  - intros q l Hq. destruct (HC _ _ Hq) as (k & Hk & Hlen & _). assert (q ≠ p) as Hne.
    { intros ->. by destruct (ap_new _ _ _ _ _ _ _ _ _ Hp k). }
    assert (live N' q k) as Hk' by (apply (ap_live _ _ _ _ _ _ _ _ _ Hp); by left).
    destruct (live_apart _ _ _ _ _ _ _ _ _ HI Hk' Hl Hne); lia.
Qed.

(** Old blocks survive an allocation. *)
Lemma post_keeps s v N C c p s' v' N' : holds_blocks (h_mem s.1) N C → alloc_post hhdm s v N c p s' v' N' →
  holds_blocks (h_mem s'.1) N' C.
Proof.
  intros HC Hp q l Hq. destruct (HC _ _ Hq) as (k & Hk & Hlen & Hh). exists k. split_and!; [|done|].
  - apply (ap_live _ _ _ _ _ _ _ _ _ Hp). by left.
  - eapply holds_ext; [|exact Hh]. intros x Hx. eapply (ap_same _ _ _ _ _ _ _ _ _ Hp); [exact Hk|lia].
Qed.

Lemma holds_blocks_insert m N C p l c : holds_blocks m N C → live N p c → Z.of_nat (length l) ≤ c → holds m p l →
  holds_blocks m N (<[p := l]> C).
Proof.
  intros HC Hl Hc Hh q l' [[<- <-]|[_ Hq]]%lookup_insert_Some; [by exists c|by apply HC].
Qed.

(** Writing a block leaves the others alone. *)
Lemma holds_blocks_writes m a v N C p c l : mem_inv m a v N → holds_blocks m N C → live N p c → Z.of_nat (length l) ≤ c →
  ∀ d, p ≤ d → d + Z.of_nat (length l) ≤ p + c → holds_blocks (writes m d l) N (delete p C).
Proof.
  intros HI HC Hl Hc d Hd He q l' [Hne Hq]%lookup_delete_Some. destruct (HC _ _ Hq) as (k & Hk & Hlen & Hh). exists k. split_and!; [done|done|].
  apply holds_frame; [|done]. destruct (live_apart _ _ _ _ _ _ _ _ _ HI Hk Hl); [congruence|lia|lia].
Qed.

Lemma free_keeps s N C p s' v' N' : holds_blocks (h_mem s.1) N C → free_post s N p s' v' N' → holds_blocks (h_mem s'.1) N' (delete p C).
Proof.
  intros HC Hp q l [Hne Hq]%lookup_delete_Some. destruct (HC _ _ Hq) as (k & Hk & Hlen & Hh). exists k. split_and!; [|done|].
  - apply (fr_live _ _ _ _ _ _ Hp). by split.
  - eapply holds_ext; [|exact Hh]. intros x Hx. eapply (fr_same _ _ _ _ _ _ Hp); [exact Hk|done|lia].
Qed.

Lemma live_mapped m a v N p n x : mem_inv m a v N → live N p n → p ≤ x < p + n → is_Some (m !! x).
Proof. intros HI Hl Hx. destruct (live_facts _ _ _ _ _ _ _ HI Hl) as (_ & _ & _ & ? & ?). eapply mi_mapped; [exact HI|lia]. Qed.

(** The goal of every operation below. *)
Definition simulates C (o : hop) (c : M state Z) (s : state) : Prop :=
  wp c s (λ r s', ∃ C', abs_step C o r C' ∧ heap_rel s' C').

Lemma malloc_sim s C n : heap_rel s C → size_ok n → simulates C (Malloc n) (kmalloc hhdm n) s.
Proof.
  destruct s as [h a]. intros (v & N & HH & HC) Hn. eapply wp_mono; [by apply heap_kmalloc_spec|].
  intros p s' [(-> & -> & _)|(Hp & Hn0 & c & v' & N' & Hnc & Hpost)].
  { exists C. split; [constructor|by exists v, N]. }
  pose proof (ap_inv _ _ _ _ _ _ _ _ _ Hpost) as HH'. pose proof HH' as (HI' & _ & _).
  assert (live N' p c) as Hl by (apply (ap_live _ _ _ _ _ _ _ _ _ Hpost); by right).
  exists (<[p := read (h_mem s'.1) p n]> C). split.
  - apply abs_malloc; [eapply (post_new_block (h, a)); [exact HH|exact HC|exact Hpost|lia]|apply read_length; lia].
  - exists v', N'. split; [done|]. eapply holds_blocks_insert; [by eapply post_keeps|exact Hl|rewrite read_length; lia|].
    apply read_holds. intros x Hx. eapply live_mapped; [exact HI'|exact Hl|lia].
Qed.

Lemma zalloc_sim s C n : heap_rel s C → size_ok n → simulates C (Zalloc n) (kzalloc hhdm n) s.
Proof.
  destruct s as [h a]. intros (v & N & HH & HC) Hn. unfold simulates, kzalloc. apply wp_bind. eapply wp_mono; [by apply heap_kmalloc_spec|].
  intros p s' [(-> & -> & _)|(Hp & Hn0 & c & v' & N' & Hnc & Hpost)].
  { apply wp_bind, wp_ret, wp_ret. exists C. split; [constructor|by exists v, N]. }
  destruct s' as [h' a']. pose proof (ap_inv _ _ _ _ _ _ _ _ _ Hpost) as (HI' & HB' & Hu'). cbn [fst snd] in *.
  assert (live N' p c) as Hl by (apply (ap_live _ _ _ _ _ _ _ _ _ Hpost); by right).
  destruct (Z.eqb_spec p 0); [done|]. cbn [negb]. apply wp_bind, wp_bind, wp_in_mem.
  eapply wp_mono; [apply memset_spec; [done|lia|intros x Hx; eapply live_mapped; [exact HI'|exact Hl|lia]]|].
  intros r m' [-> ->]. do 2 apply wp_ret. assert (Z.of_nat (length (replicate (Z.to_nat n) 0)) = n) as Hlen by (rewrite length_replicate; lia).
  exists (<[p := replicate (Z.to_nat n) 0]> C). split; [apply abs_zalloc; eapply (post_new_block (h, a)); [exact HH|exact HC|exact Hpost|lia]|].
  assert (mem_inv (writes (h_mem h') p (replicate (Z.to_nat n) 0)) a' v' N') as HIw.
  { eapply mem_inv_writes; [exact HI'|exact Hl|lia|lia|by apply Forall_replicate]. }
  exists v', N'. split; [by split_and!|]. cbn [fst with_mem h_mem]. rewrite <-insert_delete_eq.
  eapply holds_blocks_insert; [|exact Hl|lia|apply holds_writes].
  eapply holds_blocks_writes; [exact HI'|exact (post_keeps (h, a) _ _ _ _ _ (h', a') _ _ HC Hpost)|exact Hl|lia|lia|lia].
Qed.

Lemma free_sim s C p : heap_rel s C → op_ok C (Free p) → simulates C (Free p) (run_op (Free p)) s.
Proof.
  destruct s as [h a]. intros (v & N & HH & HC) Hp. unfold simulates, run_op. destruct (decide (p = 0)) as [->|Hne].
  { apply wp_bind, wp_ret, wp_ret. exists C. split; [constructor|by exists v, N]. }
  destruct Hp as [?|[l Hl]]; [done|]. destruct (HC _ _ Hl) as (c & Hlive & _). apply wp_bind. eapply wp_mono; [by eapply kfree_spec|].
  intros [] s' (v' & N' & Hpost). apply wp_ret. exists (delete p C). split; [by constructor|]. exists v', N'.
  split; [apply Hpost|by eapply free_keeps].
Qed.

Lemma read_lookup m p n i : Z.of_nat i < n → read m p n !! i = Some (default 0 (m !! (p + Z.of_nat i))).
Proof. intros Hi. unfold read. rewrite list_lookup_fmap. rewrite (proj2 (lookup_seqZ 0 n i (Z.of_nat i))); [done|lia]. Qed.

(** What the copy of the first [cs] bytes means for the block's contents. *)
Lemma copied_prefix m m1 p q l n cs : holds m1 q (read m p cs) → 0 ≤ n → (Z.of_nat (length l) ≤ cs ∨ cs = n) → cs ≤ n → holds m p l →
  take (length l) (read m1 q n) = take (Z.to_nat n) l.
Proof.
  intros Hcp Hn Hcs Hcn Hh. apply list_eq. intros i. destruct (decide (i < length l)%nat) as [Hl|Hl].
  - rewrite lookup_take_lt by done. destruct (decide (Z.of_nat i < n)) as [Hi|Hi].
    + rewrite (lookup_take_lt l) by lia. apply lookup_lt_is_Some in Hl as [y Hy]. pose proof (lookup_lt_Some _ _ _ Hy).
      rewrite read_lookup by done. rewrite (Hcp i y); [done|]. rewrite read_lookup by lia. by rewrite (Hh _ _ Hy).
    + rewrite (lookup_take_ge l) by lia. apply lookup_ge_None_2. pose proof (read_length m1 q n Hn). lia.
  - rewrite lookup_take_ge by lia. symmetry. apply lookup_ge_None_2. rewrite length_take. lia.
Qed.

(** The copy and the release behind the allocation in [krealloc]. *)
Lemma move_block m B a v N C p q l k c n : heap_inv hhdm (mk_heap m B (total N), a) v N → holds_blocks m N C → C !! p = Some l →
  live N p k → Z.of_nat (length l) ≤ k → live N q c → p ≠ q → p ≠ 0 → 0 < n ≤ c → C !! q = None →
  wp (in_mem (memcpy q p (if n <? k then n else k));; kfree hhdm p;; mret q) (mk_heap m B (total N), a) (λ r s', r = q ∧
    ∃ l', Z.of_nat (length l') = n ∧ take (length l) l' = take (Z.to_nat n) l ∧ heap_rel s' (<[q := l']> (delete p C))).
Proof.
  intros (HI & HB & Hu) HC Hpl Hp Hlk Hq Hne Hp0 Hn Hqn. cbn [fst snd h_mem buckets used_memory] in *.
  destruct (live_facts _ _ _ _ _ _ _ HI Hp) as (Hk0 & _). set (cs := if n <? k then n else k).
  assert (0 < cs ∧ cs ≤ n ∧ cs ≤ k ∧ (cs = n ∨ cs = k)) as Hcs by (unfold cs; destruct (Z.ltb_spec n k); lia).
  assert (holds m p (read m p cs)) as Hrd by (apply read_holds; intros x Hx; eapply live_mapped; [exact HI|exact Hp|lia]).
  assert (Z.of_nat (length (read m p cs)) = cs) as Hrl by (apply read_length; lia). rewrite <-Hrl at 1.
  apply wp_bind, wp_in_mem. cbn [h_mem]. eapply wp_mono; [apply memcpy_spec; [apply HI|done| |]|].
  { intros i Hi. eapply live_mapped; [exact HI|exact Hq|lia]. }
  { unfold disjoint. destruct (live_apart _ _ _ _ _ _ _ _ _ HI Hp Hq Hne); lia. }
  intros r m' [-> ->]. cbn [with_mem h_mem buckets used_memory]. set (m1 := writes m q (read m p cs)).
  assert (mem_inv m1 a v N) as HI1.
  { eapply mem_inv_writes; [exact HI|exact Hq|lia|lia|]. eapply holds_bytes; [apply HI|exact Hrd]. }
  assert (holds_blocks m1 N C) as HC1.
  { rewrite <-(delete_id C q) by done. eapply holds_blocks_writes; [exact HI|exact HC|exact Hq|lia|lia|lia]. }
  assert (holds m1 q (read m1 q n)) as Hq1 by (apply read_holds; intros x Hx; eapply live_mapped; [exact HI1|exact Hq|lia]).
  assert (holds_blocks m1 N (<[q := read m1 q n]> C)) as HC2.
  { eapply holds_blocks_insert; [done|exact Hq|rewrite read_length; lia|done]. }
  apply wp_bind. eapply wp_mono; [eapply (kfree_spec (mk_heap m1 B (total N)) a v N p k); [by split_and!|done]|].
  intros [] s' (v' & N' & Hpost). apply wp_ret. split; [done|]. exists (read m1 q n). split_and!; [apply read_length; lia| |].
  - destruct (HC _ _ Hpl) as (_ & _ & _ & Hh). by apply copied_prefix with (m := m) (p := p) (cs := cs); [apply holds_writes|lia..|].
  - exists v', N'. split; [apply Hpost|]. rewrite <-delete_insert_ne by done.
    exact (free_keeps (mk_heap m1 B (total N), a) _ _ _ _ _ _ HC2 Hpost).
Qed.

Lemma store_sim s C p k y : heap_rel s C → op_ok C (Store p k y) → simulates C (Store p k y) (run_op (Store p k y)) s.
Proof.
  destruct s as [h a]. intros (v & N & (HI & HB & Hu) & HC) (Hy & l & Hl & Hk). cbn [fst snd] in *.
  destruct (HC _ _ Hl) as (c & Hlive & Hlen & Hh). unfold simulates, run_op. apply wp_bind, wp_in_mem.
  apply wp_st; [eapply live_mapped; [exact HI|exact Hlive|lia]|done|]. apply wp_ret. eexists. split; [by apply abs_store|].
  exists v, N. cbn [fst with_mem h_mem]. split; [split_and!; [|done|done]|].
  - cbn [fst snd h_mem with_mem]. eapply mem_inv_store; [exact HI|exact Hlive|lia|done].
  - change (<[p + k := y]> (h_mem h)) with (writes (h_mem h) (p + k) [y]). rewrite <-insert_delete_eq.
    eapply holds_blocks_insert; [|exact Hlive|by rewrite length_insert|].
    + eapply holds_blocks_writes; [exact HI|done|exact Hlive|simpl; lia|lia|simpl; lia].
    + intros i z Hz. simpl. destruct (decide (i = Z.to_nat k)) as [->|Hne].
      * rewrite list_lookup_insert_eq in Hz by lia. rewrite Z2Nat.id, lookup_insert_eq by lia. done.
      * rewrite list_lookup_insert_ne in Hz by done. rewrite lookup_insert_ne by lia. by apply Hh.
Qed.

Lemma load_sim s C p k : heap_rel s C → op_ok C (Load p k) → simulates C (Load p k) (run_op (Load p k)) s.
Proof.
  destruct s as [h a]. intros (v & N & HH & HC) (l & Hl & Hk). destruct (HC _ _ Hl) as (c & Hlive & Hlen & Hh).
  destruct (lookup_lt_is_Some_2 l (Z.to_nat k)) as [y Hy]; [lia|]. unfold simulates, run_op. apply wp_in_mem.
  eapply wp_ld; [rewrite <-(Z2Nat.id k) by lia; by apply Hh|]. exists C. split; [by econstructor|]. rewrite with_mem_id. by exists v, N.
Qed.

Lemma realloc_sim s C p n : heap_rel s C → op_ok C (Realloc p n) → simulates C (Realloc p n) (krealloc hhdm p n) s.
Proof.
  intros Hrel [Hn Hp]. unfold simulates, krealloc. destruct (Z.eqb_spec p 0) as [->|Hp0].
  { eapply wp_mono; [by eapply malloc_sim|]. intros r s' (C' & Hs & Hr). exists C'. by split; [constructor|]. }
  destruct Hp as [?|[l Hl]]; [done|]. destruct (Z.eqb_spec n 0) as [->|Hn0].
  { eapply wp_mono; [by apply (free_sim s C p); [|right; eexists]|]. intros r s' (C' & Hs & Hr). exists C'. split; [|done].
    inversion Hs; subst; [done|by constructor]. }
  destruct s as [h a]. destruct Hrel as (v & N & HH & HC). apply wp_bind. eapply wp_mono; [by apply heap_kmalloc_spec|].
  intros q s' [(-> & -> & _)|(Hq & Hn1 & c & v' & N' & Hnc & Hpost)].
  { apply wp_ret. exists C. split; [by constructor|by exists v, N]. }
  destruct (Z.eqb_spec q 0); [done|]. pose proof (post_new_block (h, a) _ _ _ _ _ _ _ _ n HH HC Hpost ltac:(lia)) as Hnew.
  pose proof (post_keeps (h, a) _ _ _ _ _ _ _ _ HC Hpost) as HC'. pose proof (ap_inv _ _ _ _ _ _ _ _ _ Hpost) as HH'.
  assert (live N' q c) as Hlq by (apply (ap_live _ _ _ _ _ _ _ _ _ Hpost); by right).
  destruct s' as [[m B u] a']. pose proof HH' as (HI' & _ & Hu'). cbn [fst snd h_mem used_memory] in *. subst u.
  destruct (HC' _ _ Hl) as (k & Hlp & Hlk & _). pose proof Hnew as (_ & _ & _ & Hqn & _). assert (p ≠ q) as Hne by congruence.
  apply wp_unassoc. apply wp_bind. eapply wp_mono; [by eapply old_size_spec|]. intros r s' [-> ->].
  eapply wp_mono; [by eapply (move_block m B a' v' N' C p q l k c n)|].
  intros r s' (-> & l' & Hlen & Htk & Hrel'). eexists. split; [|exact Hrel']. by eapply abs_realloc.
Qed.

Lemma op_sim s C o : heap_rel s C → op_ok C o → simulates C o (run_op o) s.
Proof.
  intros Hr Ho. destruct o as [n|n|p|p n|p k y|p k].
  - by apply malloc_sim.
  - by apply zalloc_sim.
  - by apply free_sim.
  - by apply realloc_sim.
  - by apply store_sim.
  - by apply load_sim.
Qed.

(** C8. The heap refines a map of blocks.  From a state related to the
    blocks [C] and their contents, every call of [kmalloc], [kzalloc],
    [kfree] and [krealloc] and every access inside a block returns, and its
    result and the state it leaves are one of the outcomes of the abstract
    heap: a new block is 16-byte aligned and apart from every other block, a
    zeroed one is zero, a reallocated one begins with what the old one held,
    and all other blocks keep their contents. *)
Theorem heap_refines s C o : heap_rel s C → op_ok C o → wp (run_op o) s (λ r s', ∃ C', abs_step C o r C' ∧ heap_rel s' C').
Proof. apply op_sim. Qed.

(** A request of 1 to 2048 bytes is answered with NULL only when memory
    is exhausted: the page allocator has no page left and no slab of the
    class that serves the request has a free object; the state is unchanged
    then. *)
Lemma kmalloc_small_null h a v N n : heap_inv hhdm (h, a) v N → 0 < n ≤ 2048 →
  wp (kmalloc hhdm n) (h, a) (λ p s', p = 0 →
    s' = (h, a) ∧ pv_free v = ∅ ∧ ∃ i, n ≤ csize i ∧ ∀ b nx fr, N !! b = Some (NSlab i nx fr) → fr = []).
Proof.
  intros HH Hn. eapply wp_mono; [by apply heap_kmalloc_spec; [|unfold size_ok; lia]|].
  intros p s' [(-> & -> & Hz)|(Hp & _)] E; [|done]. destruct (Hz Hn) as [? ?]. done.
Qed.

(** The size computation of a large request overflows for the last 4127
    sizes: the request succeeds although the block handed out is a single
    page. *)
Lemma kmalloc_overflow h a v N n : heap_inv hhdm (h, a) v N → 2 ^ 64 - 4127 ≤ n < 2 ^ 64 → pv_free v ≠ ∅ →
  wp (kmalloc hhdm n) (h, a) (λ p s', ∃ b, p = hhdm + b + 32 ∧ b ∈ pv_free v ∧
    pa_rep s'.2 (mk_view (pv_free v ∖ {[b]}) (<[b := 0%nat]> (pv_held v)))).
Proof.
  intros (HI & _) Hn Hf. destruct h as [m B u]. cbn [fst snd h_mem] in HI. unfold kmalloc.
  destruct (Z.eqb_spec n 0); [lia|]. destruct (Z.leb_spec n 2048); [lia|].
  assert (Pmm.order_for 63 0 (pages_for n) = 0%nat) as Hk.
  { cbn [Pmm.order_for]. rewrite Z.shiftl_0_r. destruct (Z.ltb_spec 1 (pages_for n)) as [Hlt|]; [exfalso|done].
    unfold pages_for, sizeof_large_alloc_header, PAGE_SIZE, Pmm.PAGE_SIZE, wrap in Hlt. Z.div_mod_to_equations. lia. }
  eapply wp_mono; [apply (alloc_large_gen _ _ _ _ _ _ _ _ HI); lia|]. cbv zeta. rewrite Hk.
  intros p s' [(_ & _ & Hz)|(b & m' & a' & -> & -> & _ & Hb & Hfp & _)]; [by rewrite Hz in Hf|].
  exists b. split_and!; [done|done|]. pose proof (fp_rep _ _ _ _ _ _ _ _ Hfp) as Hr. unfold hold in Hr. by rewrite pblock_0 in Hr.
Qed.

(** [init_heap] establishes the invariant: nothing is allocated. *)
Lemma init_heap_inv h a v : 0 ≤ hhdm → hhdm mod 4096 = 0 → hhdm + ram_end a ≤ 2 ^ 64 → pa_rep a v →
  (∀ x, hhdm ≤ x < hhdm + ram_end a → is_Some (h_mem h !! x)) → bytes_ok (h_mem h) →
  wp init_heap (h, a) (λ _ s', heap_inv hhdm s' v ∅).
Proof.
  intros H1 H2 H3 Hr Hm Hb. unfold init_heap. apply wp_bind, wp_modify, wp_modify. split_and!.
  - by split.
  - intros i Hi. exists []. cbn [fst buckets with_used with_buckets]. rewrite list_lookup_fmap, bucket_sizes_lookup by done.
    split_and!; [done|done|constructor|done].
  - done.
Qed.

End Free.

(** ** A machine with 64 pages *)

Definition demo_hhdm : Z := 0xFFFF800000000000.

Lemma zero_memory lo n : ∃ m, (∀ x, lo ≤ x < lo + n → is_Some (m !! x)) ∧ bytes_ok m.
Proof.
  exists (gset_to_gmap 0 (list_to_set (seqZ lo n))). split.
  - intros x Hx. exists 0. apply lookup_gset_to_gmap_Some. split; [|done]. by apply elem_of_list_to_set, elem_of_seqZ.
  - by intros x y [_ <-]%lookup_gset_to_gmap_Some.
Qed.

Lemma demo_heap_inv : ∃ s : heap * (Pmm.pmm * unit), heap_inv demo_hhdm s (mk_view PmmPages.demo_free ∅) ∅.
Proof.
  destruct PmmPages.demo_boot as (a & Hr & He). destruct (zero_memory demo_hhdm (64 * 4096)) as (m & Hm & Hb).
  eassert (wp init_heap (mk_heap m [] 0, a) _) as Hw.
  { apply (init_heap_inv demo_hhdm _ a (mk_view PmmPages.demo_free ∅)); [done|done|by rewrite He|exact Hr| |exact Hb].
    intros x Hx. apply Hm. by rewrite He in Hx. }
  apply wp_run in Hw as (u & s & _ & Hs). by exists s.
Qed.

Lemma heap_refines_witness : ∃ s : heap * (Pmm.pmm * unit), heap_rel demo_hhdm s ∅ ∧
  wp (run_op demo_hhdm (Malloc 100)) s (λ r s', ∃ C', abs_step ∅ (Malloc 100) r C' ∧ heap_rel demo_hhdm s' C').
Proof.
  destruct demo_heap_inv as [s Hs]. exists s.
  assert (heap_rel demo_hhdm s ∅) as Hr by (exists (mk_view PmmPages.demo_free ∅), ∅; by split).
  split; [exact Hr|]. apply (heap_refines demo_hhdm s ∅ (Malloc 100) Hr). split; lia.
Defined.

Lemma kmalloc_small_null_witness : ∃ s : heap * (Pmm.pmm * unit), wp (kmalloc demo_hhdm 100) s (λ p s', p = 0 →
    s' = s ∧ PmmPages.demo_free = ∅ ∧ ∃ i, 100 ≤ csize i ∧ ∀ b nx fr, (∅ : gmap Z node) !! b = Some (NSlab i nx fr) → fr = []).
Proof.
  destruct demo_heap_inv as [[h a] Hs]. exists (h, a).
  apply (kmalloc_small_null demo_hhdm h a (mk_view PmmPages.demo_free ∅) ∅ 100 Hs). lia.
Defined.

Lemma kmalloc_overflow_witness : ∃ s : heap * (Pmm.pmm * unit), wp (kmalloc demo_hhdm (2 ^ 64 - 16)) s (λ p s', ∃ b,
  p = demo_hhdm + b + 32 ∧ b ∈ PmmPages.demo_free ∧ pa_rep s'.2 (mk_view (PmmPages.demo_free ∖ {[b]}) (<[b := 0%nat]> ∅))).
Proof.
  destruct demo_heap_inv as [[h a] Hs]. exists (h, a).
  apply (kmalloc_overflow demo_hhdm h a (mk_view PmmPages.demo_free ∅) ∅ (2 ^ 64 - 16) Hs); [lia|]. cbn [pv_free].
  intros E. assert (2 * 4096 ∈ PmmPages.demo_free) as Hin by (apply PmmPages.elem_of_demo_free; exists 2; split; [done|lia]).
  rewrite E in Hin. by apply elem_of_empty in Hin.
Defined.

End HeapTheorems.
