(* ===== verification/PageCache.v ===== *)
(** * The page cache ([fs/pagecache.c])

    File pages by inode and page number: entries on a hash chain and on one
    LRU list, each with a physical page.  Entries are records in a heap
    indexed by address.  The heap and the page allocator are those of the
    kernel; the file system below is whatever driver the node belongs to,
    an instance of [FileOps]. *)
From S2P Require Import Prelude Links Pages.

(** A [vfs_node_t] as far as the cache looks at it.  [vn_ops] names the
    driver; the flags say whether its table has the call. *)
Record vfs_node := mk_vnode {
  vn_ops : Z;
  vn_inode : Z;
  vn_length : Z;
  vn_has_read : bool;
  vn_has_write : bool;
}.

Definition set_length (len : Z) (n : vfs_node) : vfs_node :=
  mk_vnode (vn_ops n) (vn_inode n) len (vn_has_read n) (vn_has_write n).

(** The calls of a driver's table: [read] yields its result code and the bytes
    it stored in the caller's buffer, [write] its result code and the node as
    the driver leaves it.  The cache looks at neither code. *)
Class FileOps (D : Type) := {
  fo_read : vfs_node → Z → Z → M D (Z * list Z);
  fo_write : vfs_node → Z → list Z → M D (Z * vfs_node);
}.

Module PageCache.

Definition PAGE_SIZE : Z := 4096.
Definition PAGE_CACHE_HASH_SIZE : Z := 1024.
Definition PAGE_CACHE_MAX_PAGES : Z := 2048.
Definition PAGE_CACHE_READ_AHEAD_PAGES : nat := 4.
Definition PAGE_CACHE_SEQ_TRACK : nat := 16.

Record page_cache_entry := mk_entry {
  pe_inode : Z;
  pe_page_index : Z;
  pe_phys_addr : Z;
  pe_dirty : bool;
  pe_referenced : bool;
  pe_hash_next : option Z;
  pe_lru_next : option Z;
  pe_lru_prev : option Z;
}.

Definition set_dirty b e := mk_entry (pe_inode e) (pe_page_index e) (pe_phys_addr e) b (pe_referenced e)
  (pe_hash_next e) (pe_lru_next e) (pe_lru_prev e).
Definition set_referenced b e := mk_entry (pe_inode e) (pe_page_index e) (pe_phys_addr e) (pe_dirty e) b
  (pe_hash_next e) (pe_lru_next e) (pe_lru_prev e).
Definition set_hash_next p e := mk_entry (pe_inode e) (pe_page_index e) (pe_phys_addr e) (pe_dirty e) (pe_referenced e)
  p (pe_lru_next e) (pe_lru_prev e).
Definition set_lru_next p e := mk_entry (pe_inode e) (pe_page_index e) (pe_phys_addr e) (pe_dirty e) (pe_referenced e)
  (pe_hash_next e) p (pe_lru_prev e).
Definition set_lru_prev p e := mk_entry (pe_inode e) (pe_page_index e) (pe_phys_addr e) (pe_dirty e) (pe_referenced e)
  (pe_hash_next e) (pe_lru_next e) p.

#[global] Instance entry_linked : Linked page_cache_entry :=
  Build_Linked _ pe_lru_next pe_lru_prev set_lru_next set_lru_prev.
#[global] Instance entry_linked_laws : LinkedLaws page_cache_entry.
Proof. by split. Qed.

Record seq_track := mk_seq { sq_valid : bool; sq_inode : Z; sq_next_off : Z }.

Record pcache := mk_pc {
  hash_table : list (option Z);
  entries : gmap Z page_cache_entry;
  lru_head : option Z;
  lru_tail : option Z;
  cached_page_count : Z;
  seq_table : list seq_track;
  seq_victim : Z; (* [static int victim] of [page_cache_seq_observe] *)
  page_data : gmap Z (list Z); (* the bytes of physical pages *)
}.

Definition with_hash f c := mk_pc (f (hash_table c)) (entries c) (lru_head c) (lru_tail c) (cached_page_count c)
  (seq_table c) (seq_victim c) (page_data c).
Definition with_entries f c := mk_pc (hash_table c) (f (entries c)) (lru_head c) (lru_tail c) (cached_page_count c)
  (seq_table c) (seq_victim c) (page_data c).
Definition with_head (h : option Z) c := mk_pc (hash_table c) (entries c) h (lru_tail c) (cached_page_count c)
  (seq_table c) (seq_victim c) (page_data c).
Definition with_tail (t : option Z) c := mk_pc (hash_table c) (entries c) (lru_head c) t (cached_page_count c)
  (seq_table c) (seq_victim c) (page_data c).
Definition with_count f c := mk_pc (hash_table c) (entries c) (lru_head c) (lru_tail c) (u64 (f (cached_page_count c)))
  (seq_table c) (seq_victim c) (page_data c).
Definition with_seq f c := mk_pc (hash_table c) (entries c) (lru_head c) (lru_tail c) (cached_page_count c)
  (f (seq_table c)) (seq_victim c) (page_data c).
Definition with_victim (v : Z) c := mk_pc (hash_table c) (entries c) (lru_head c) (lru_tail c) (cached_page_count c)
  (seq_table c) v (page_data c).
Definition with_data f c := mk_pc (hash_table c) (entries c) (lru_head c) (lru_tail c) (cached_page_count c)
  (seq_table c) (seq_victim c) (f (page_data c)).

(** [entry->field] *)
Definition load (e : Z) : M pcache page_cache_entry := deref (λ c, entries c !! e).
Definition store (e : Z) (f : page_cache_entry → page_cache_entry) : M pcache unit :=
  _ ← load e; modify (with_entries (alter f e)).

Definition page_cache_hash (inode page_index : Z) : Z :=
  let key := Z.lxor inode (u64 (page_index * 0x9E3779B97F4A7C15)) in
  u32 (key mod PAGE_CACHE_HASH_SIZE).

Definition bucket_get (b : Z) : M pcache (option Z) := deref (λ c, hash_table c !! Z.to_nat b).
Definition bucket_set (b : Z) (p : option Z) : M pcache unit :=
  _ ← bucket_get b; modify (with_hash <[Z.to_nat b := p]>).

(** ** The LRU list *)

Definition lru_remove (entry : Z) : M pcache unit :=
  e ← load entry;
  (match pe_lru_prev e with
   | Some q => store q (set_lru_next (pe_lru_next e))
   | None => modify (with_head (pe_lru_next e))
   end);;
  e' ← load entry;
  (match pe_lru_next e' with
   | Some q => store q (set_lru_prev (pe_lru_prev e'))
   | None => modify (with_tail (pe_lru_prev e'))
   end);;
  store entry (set_lru_next None);;
  store entry (set_lru_prev None).

Definition lru_push_front (entry : Z) : M pcache unit :=
  store entry (set_lru_prev None);;
  h ← gets lru_head;
  store entry (set_lru_next h);;
  (match h with
   | Some q => store q (set_lru_prev (Some entry))
   | None => modify (with_tail (Some entry))
   end);;
  modify (with_head (Some entry)).

(** ** Lookup *)

Definition rounds : M pcache nat := gets (λ c, S (size (entries c))).

Fixpoint find_entry (fuel : nat) (curr : option Z) (inode page_index : Z) : M pcache (option Z) :=
  match fuel, curr with
  | O, _ => λ _, Wait
  | _, None => mret None
  | S fuel', Some e =>
      en ← load e;
      if (pe_inode en =? inode) && (pe_page_index en =? page_index) then mret (Some e)
      else find_entry fuel' (pe_hash_next en) inode page_index
  end.

Definition page_cache_lookup (inode page_index : Z) : M pcache (option Z) :=
  curr ← bucket_get (page_cache_hash inode page_index);
  fuel ← rounds;
  r ← find_entry fuel curr inode page_index;
  match r with
  | Some e => store e (set_referenced true);; lru_remove e;; lru_push_front e;; mret (Some e)
  | None => mret None
  end.

(** ** Eviction *)

(** [while (victim && victim->referenced) { victim->referenced = false; victim = victim->lru_prev; }] *)
Fixpoint clock (fuel : nat) (victim : option Z) : M pcache (option Z) :=
  match fuel, victim with
  | O, _ => λ _, Wait
  | _, None => mret None
  | S fuel', Some e =>
      en ← load e;
      if pe_referenced en then
        store e (set_referenced false);;
        en' ← load e;
        clock fuel' (pe_lru_prev en')
      else mret (Some e)
  end.

(** [tracer]: the address of a bucket's head or of an entry's [hash_next]. *)
Inductive tracer := AtBucket (b : Z) | AtEntry (e : Z).

Definition tracer_get (t : tracer) : M pcache (option Z) :=
  match t with
  | AtBucket b => bucket_get b
  | AtEntry e => en ← load e; mret (pe_hash_next en)
  end.

Definition tracer_set (t : tracer) (p : option Z) : M pcache unit :=
  match t with
  | AtBucket b => bucket_set b p
  | AtEntry e => store e (set_hash_next p)
  end.

(** [while ( *tracer && *tracer != victim) tracer = &( *tracer)->hash_next;] *)
Fixpoint trace (fuel : nat) (t : tracer) (victim : Z) : M pcache tracer :=
  match fuel with
  | O => λ _, Wait
  | S fuel' =>
      p ← tracer_get t;
      match p with
      | Some e => if e =? victim then mret t else trace fuel' (AtEntry e) victim
      | None => mret t
      end
  end.

Definition unhash (victim : Z) : M pcache unit :=
  v ← load victim;
  fuel ← rounds;
  t ← trace fuel (AtBucket (page_cache_hash (pe_inode v) (pe_page_index v))) victim;
  p ← tracer_get t;
  match p with
  | Some _ => v' ← load victim; tracer_set t (pe_hash_next v')
  | None => mret tt
  end.

(** ** Sequential streams *)

Fixpoint seq_find (i : nat) (l : list seq_track) (inode : Z) : option nat :=
  match l with
  | [] => None
  | t :: l' => if sq_valid t && (sq_inode t =? inode) then Some i else seq_find (S i) l' inode
  end.

(** The stream at [i] moves to the front of the table. *)
Definition move_to_front (i : nat) (l : list seq_track) : list seq_track :=
  match l !! i with Some t => t :: take i l ++ drop (S i) l | None => l end.

Definition set_next_off (off : Z) (t : seq_track) : seq_track := mk_seq (sq_valid t) (sq_inode t) off.

Definition page_cache_seq_observe (inode offset : Z) : M pcache bool :=
  tbl ← gets seq_table;
  match seq_find 0 tbl inode with
  | None =>
      victim ← gets seq_victim;
      modify (with_victim ((victim + 1) mod Z.of_nat PAGE_CACHE_SEQ_TRACK));;
      modify (with_seq <[Z.to_nat victim := mk_seq true inode offset]>);;
      mret true
  | Some i =>
      t ← deref (λ c, seq_table c !! i);
      let sequential := offset =? sq_next_off t in
      modify (with_seq (move_to_front i));;
      modify (with_seq (alter (set_next_off offset) 0%nat));;
      mret sequential
  end.

Definition page_cache_seq_anchor (inode next_off : Z) : M pcache unit :=
  tbl ← gets seq_table;
  match seq_find 0 tbl inode with
  | Some i => modify (with_seq (alter (set_next_off next_off) i))
  | None => mret tt
  end.

Definition page_cache_init : M pcache unit :=
  modify (with_hash (λ _, replicate (Z.to_nat PAGE_CACHE_HASH_SIZE) None));;
  modify (with_head None);;
  modify (with_tail None);;
  modify (with_count (λ _, 0)).

(** [page_cache_sync_node] and [page_cache_sync_all]: clear dirty flags along
    the chains of every bucket. *)
Fixpoint sync_chain (fuel : nat) (curr : option Z) (which : page_cache_entry → bool) : M pcache unit :=
  match fuel, curr with
  | O, _ => λ _, Wait
  | _, None => mret tt
  | S fuel', Some e =>
      en ← load e;
      when which en do store e (set_dirty false);;
      en' ← load e;
      sync_chain fuel' (pe_hash_next en') which
  end.

Definition sync_buckets (which : page_cache_entry → bool) : M pcache unit :=
  for_loop 0 (Z.to_nat PAGE_CACHE_HASH_SIZE) (λ b,
    curr ← bucket_get b; fuel ← rounds; sync_chain fuel curr which).

Definition page_cache_sync_node (node : vfs_node) : M pcache unit := sync_buckets (λ e, pe_inode e =? vn_inode node).
Definition page_cache_sync_all : M pcache unit := sync_buckets (λ _, true).

Section Cache.
  Context {A D : Type} `{PageOps A} `{FileOps D}.
  (** [kmalloc(sizeof(page_cache_entry_t))]: an address no entry has, or NULL. *)
  Context (kmalloc : gmap Z page_cache_entry → option Z).

Abbreviation state := (pcache * (A * D))%type.

Definition pc {B} (c : M pcache B) : M state B := lift_l c.
Definition pmm {B} (c : M A B) : M state B := lift_r (lift_l c).
Definition fs {B} (c : M D B) : M state B := lift_r (lift_r c).

Definition page_cache_evict_one : M state unit :=
  tail ← pc (gets lru_tail);
  fuel ← pc rounds;
  found ← pc (clock fuel tail);
  again ← pc (gets lru_tail);
  match (match found with Some e => Some e | None => again end) with
  | None => mret tt
  | Some victim =>
      pc (unhash victim);;
      pc (lru_remove victim);;
      v ← pc (load victim);
      when negb (pe_phys_addr v =? 0) do pmm (page_free (pe_phys_addr v) 0);;
      pc (modify (with_entries (delete victim)));;
      pc (modify (with_count (λ n, n - 1)))
  end.

Definition page_cache_allocate (inode page_index : Z) : M state (option Z) :=
  n ← pc (gets cached_page_count);
  when PAGE_CACHE_MAX_PAGES <=? n do page_cache_evict_one;;
  phys ← pmm (page_alloc 0);
  if phys =? 0 then mret None else
  r ← pc (gets (λ c, kmalloc (entries c)));
  match r with
  | None => pmm (page_free phys 0);; mret None
  | Some entry =>
      let bucket := page_cache_hash inode page_index in
      h ← pc (bucket_get bucket);
      pc (modify (with_entries <[entry := mk_entry inode page_index phys false true h None None]>));;
      pc (bucket_set bucket (Some entry));;
      pc (lru_push_front entry);;
      pc (modify (with_count (λ n, n + 1)));;
      mret (Some entry)
  end.

(** Overwrite bytes of a page; [read]/[write] of [n] bytes at [off]. *)
Definition page_get (phys : Z) : M pcache (list Z) := deref (λ c, page_data c !! phys).
Definition put_bytes (off : Z) (bs page : list Z) : list Z :=
  take (Z.to_nat off) page ++ bs ++ drop (Z.to_nat off + length bs) page.
Definition page_put (phys off : Z) (bs : list Z) : M pcache unit :=
  _ ← page_get phys; modify (with_data (alter (put_bytes off bs) phys)).
Definition page_zero (phys : Z) : M pcache unit := page_put phys 0 (replicate 4096 0).

(** [node->ops->read(node, page_idx * PAGE_SIZE, PAGE_SIZE, page_virt)] *)
Definition read_page (node : vfs_node) (page_idx phys : Z) : M state unit :=
  r ← fs (fo_read node (u64 (page_idx * PAGE_SIZE)) PAGE_SIZE);
  pc (page_put phys 0 r.2).

Fixpoint prefetch_loop (count : nat) (node : vfs_node) (page_idx : Z) : M state unit :=
  match count with
  | O => mret tt
  | S count' =>
      if vn_length node <=? u64 (page_idx * PAGE_SIZE) then mret tt else
      hit ← pc (page_cache_lookup (vn_inode node) page_idx);
      match hit with
      | Some _ => prefetch_loop count' node (u64 (page_idx + 1))
      | None =>
          entry ← page_cache_allocate (vn_inode node) page_idx;
          match entry with
          | None => mret tt
          | Some e =>
              en ← pc (load e);
              pc (page_zero (pe_phys_addr en));;
              read_page node page_idx (pe_phys_addr en);;
              prefetch_loop count' node (u64 (page_idx + 1))
          end
      end
  end.

Definition page_cache_prefetch (node : vfs_node) (first_idx : Z) (count : nat) : M state unit :=
  when vn_has_read node do prefetch_loop count node first_idx.

(** The entry of page [page_idx], filled from the file when it is new. *)
Definition get_page (node : vfs_node) (sequential : bool) (page_idx : Z) : M state (option Z) :=
  hit ← pc (page_cache_lookup (vn_inode node) page_idx);
  match hit with
  | Some e => mret (Some e)
  | None =>
      r ← page_cache_allocate (vn_inode node) page_idx;
      match r with
      | None => mret None
      | Some e =>
          en ← pc (load e);
          pc (page_zero (pe_phys_addr en));;
          when vn_has_read node do read_page node page_idx (pe_phys_addr en);;
          when sequential do page_cache_prefetch node (u64 (page_idx + 1)) PAGE_CACHE_READ_AHEAD_PAGES;;
          mret (Some e)
      end
  end.

(** The loop of [page_cache_read]; the result is what was copied to the
    caller's buffer, in order. *)
Fixpoint read_loop (fuel : nat) (node : vfs_node) (sequential : bool) (offset bytes_to_read : Z) (done : list Z) : M state (list Z) :=
  let bytes_done := Z.of_nat (length done) in
  match fuel with
  | O => λ _, Wait
  | S fuel' =>
      if bytes_to_read <=? bytes_done then mret done else
      let cur_offset := u64 (offset + bytes_done) in
      let page_idx := cur_offset / PAGE_SIZE in
      let page_off := cur_offset mod PAGE_SIZE in
      let chunk := Z.min (PAGE_SIZE - page_off) (bytes_to_read - bytes_done) in
      cached ← get_page node sequential page_idx;
      match cached with
      | None => mret done
      | Some e =>
          en ← pc (load e);
          page ← pc (page_get (pe_phys_addr en));
          read_loop fuel' node sequential offset bytes_to_read
            (done ++ take (Z.to_nat chunk) (drop (Z.to_nat page_off) page))
      end
  end.

(** One round per page, and one to leave the loop. *)
Definition loop_rounds (n : Z) : nat := Z.to_nat (n / PAGE_SIZE + 3).

Definition page_cache_read (node : vfs_node) (offset size : Z) : M state (list Z) :=
  if (vn_length node <=? offset) || (size =? 0) then mret [] else
  let bytes_to_read := if vn_length node <? u64 (offset + size) then vn_length node - offset else size in
  sequential ← pc (page_cache_seq_observe (vn_inode node) offset);
  data ← read_loop (loop_rounds bytes_to_read) node sequential offset bytes_to_read [];
  pc (page_cache_seq_anchor (vn_inode node) (u64 (offset + Z.of_nat (length data))));;
  mret data.

(** The entry a write goes to. *)
Definition get_page_for_write (node : vfs_node) (cur_offset chunk : Z) : M state (option Z) :=
  let page_idx := cur_offset / PAGE_SIZE in
  let page_off := cur_offset mod PAGE_SIZE in
  hit ← pc (page_cache_lookup (vn_inode node) page_idx);
  match hit with
  | Some e => mret (Some e)
  | None =>
      r ← page_cache_allocate (vn_inode node) page_idx;
      match r with
      | None => mret None
      | Some e =>
          en ← pc (load e);
          when negb (page_off =? 0) || negb (chunk =? PAGE_SIZE) do
            (if (cur_offset <? vn_length node) && vn_has_read node
             then read_page node page_idx (pe_phys_addr en)
             else pc (page_zero (pe_phys_addr en)));;
          mret (Some e)
      end
  end.

(** The loop of [page_cache_write]: the bytes not yet written, and the count
    of those that are. *)
Fixpoint write_loop (fuel : nat) (node : vfs_node) (offset bytes_done : Z) (rest : list Z) : M state (vfs_node * Z) :=
  match fuel with
  | O => λ _, Wait
  | S fuel' =>
      match rest with
      | [] => mret (node, bytes_done)
      | _ =>
          let cur_offset := u64 (offset + bytes_done) in
          let page_off := cur_offset mod PAGE_SIZE in
          let chunk := Z.min (PAGE_SIZE - page_off) (Z.of_nat (length rest)) in
          cached ← get_page_for_write node cur_offset chunk;
          match cached with
          | None => mret (node, bytes_done)
          | Some e =>
              en ← pc (load e);
              let piece := take (Z.to_nat chunk) rest in
              pc (page_put (pe_phys_addr en) page_off piece);;
              pc (store e (set_dirty true));;
              node' ← (if vn_has_write node then r ← fs (fo_write node cur_offset piece); mret r.2 else mret node);
              write_loop fuel' node' offset (bytes_done + chunk) (drop (Z.to_nat chunk) rest)
          end
      end
  end.

Definition page_cache_write (node : vfs_node) (offset : Z) (buffer : list Z) : M state (vfs_node * Z) :=
  if Z.of_nat (length buffer) =? 0 then mret (node, -1) else
  '(node', bytes_done) ← write_loop (loop_rounds (Z.of_nat (length buffer))) node offset 0 buffer;
  mret (if vn_length node' <? u64 (offset + bytes_done) then set_length (u64 (offset + bytes_done)) node' else node', bytes_done).

End Cache.
End PageCache.
