(* ===== verification/PageCacheLru.v ===== *)
(** * The page cache: LRU list, hash chains, eviction

    The pointer structure refines two mathematical objects: the list [L] of
    entries in LRU order, and the map from entries to what they hold
    ([core]).  The operations on the structure are given as operations on
    these. *)
From S2P Require Import Prelude Links Pages PageCache.

Module PageCacheLru.
Import PageCache.

(** An entry without its place in the LRU list. *)
Record core := mk_core {
  k_inode : Z; k_index : Z; k_phys : Z; k_dirty : bool; k_ref : bool; k_hnext : option Z;
}.

Definition core_of (e : page_cache_entry) : core :=
  mk_core (pe_inode e) (pe_page_index e) (pe_phys_addr e) (pe_dirty e) (pe_referenced e) (pe_hash_next e).

Definition cores (c : pcache) : gmap Z core := core_of <$> entries c.

Implicit Types (c : pcache) (L : list Z) (e : Z) (K : gmap Z core) (en : page_cache_entry).

Record lru_ok c L : Prop := {
  lo_list : dlist (entries c) L;
  lo_head : lru_head c = head L;
  lo_tail : lru_tail c = last L;
  lo_all : ∀ e, is_Some (entries c !! e) ↔ e ∈ L;
}.

Lemma lo_nodup c L : lru_ok c L → NoDup L.
Proof. intros HL. apply (lo_list _ _ HL). Qed.

(** The LRU fields only: everything else of the cache is as before. *)
Definition relinked c c' : Prop :=
  ∃ m h t, c' = with_tail t (with_head h (with_entries (λ _, m) c)) ∧ core_of <$> m = core_of <$> entries c.

Lemma relinked_refl c : relinked c c.
Proof. exists (entries c), (lru_head c), (lru_tail c). by destruct c. Qed.

Lemma relinked_trans c1 c2 c3 : relinked c1 c2 → relinked c2 c3 → relinked c1 c3.
Proof. intros (m & h & t & -> & H1) (m' & h' & t' & -> & H2). exists m', h', t'. split; [done|]. simpl in *. congruence. Qed.

Lemma cores_relinked c c' : relinked c c' → cores c' = cores c.
Proof. intros (m & h & t & -> & Hm). exact Hm. Qed.

Lemma pc_wp_load e c en (Q : page_cache_entry → pcache → Prop) : entries c !! e = Some en → Q en c → wp (load e) c Q.
Proof. intros. by eapply (wp_deref (λ c, entries c !! e)). Qed.

Lemma pc_wp_store e f c (Q : unit → pcache → Prop) : is_Some (entries c !! e) → Q tt (with_entries (alter f e) c) → wp (store e f) c Q.
Proof. intros [en He] HQ. unfold store. apply wp_bind. eapply pc_wp_load; [done|]. by apply wp_modify. Qed.

Lemma pc_core_alter f (m : gmap Z page_cache_entry) e : (∀ a, core_of (f a) = core_of a) → core_of <$> alter f e m = core_of <$> m.
Proof.
  intros Hf. apply map_eq. intros x. rewrite !lookup_fmap. destruct (decide (x = e)) as [->|Hne].
  - rewrite lookup_alter_eq. destruct (m !! e); simpl; [by rewrite Hf|done].
  - by rewrite lookup_alter_ne.
Qed.

Lemma cores_is_Some c e : is_Some (cores c !! e) ↔ is_Some (entries c !! e).
Proof. unfold cores. rewrite lookup_fmap. apply fmap_is_Some. Qed.

(** What [lru_remove] makes of the entry table. *)
Definition removed e en (m : gmap Z page_cache_entry) : gmap Z page_cache_entry :=
  alter (set_lru_prev None) e (alter (set_lru_next None) e (unlink e en m)).

Lemma removed_core e en m : core_of <$> removed e en m = core_of <$> m.
Proof.
  unfold removed, unlink. rewrite !pc_core_alter by done. destruct (lnext en), (lprev en); rewrite ?pc_core_alter by done; done.
Qed.

Lemma pc_removed_dlist e en m l1 l2 : dlist m (l1 ++ e :: l2) → m !! e = Some en → dlist (removed e en m) (l1 ++ l2).
Proof.
  intros Hd Ha. eapply dlist_ext; [|by apply (dlist_unlink e en)].
  intros y Hy. unfold removed. assert (y ≠ e).
  { intros ->. destruct Hd as [_ (?&?&[??]%NoDup_cons)%NoDup_app]. set_solver. }
  by rewrite !lookup_alter_ne.
Qed.

Lemma is_Some_core (m m' : gmap Z page_cache_entry) e : core_of <$> m' = core_of <$> m → is_Some (m' !! e) ↔ is_Some (m !! e).
Proof.
  intros E. rewrite <-!(fmap_is_Some core_of), <-!lookup_fmap. by rewrite E.
Qed.

(** [lru_remove] takes the entry off the list; the entry itself stays in the
    table. *)
Lemma lru_remove_spec e c l1 l2 : dlist (entries c) (l1 ++ e :: l2) → lru_head c = head (l1 ++ e :: l2) → lru_tail c = last (l1 ++ e :: l2) →
  wp (lru_remove e) c (λ _ c', relinked c c' ∧ dlist (entries c') (l1 ++ l2) ∧ lru_head c' = head (l1 ++ l2) ∧ lru_tail c' = last (l1 ++ l2)).
Proof.
  intros Hd Hh Ht. destruct (dlist_lookup _ _ _ _ Hd) as (a & Ha & Hp & Hn). simpl in Hp, Hn.
  assert (∀ q, q ∈ l1 ++ l2 → q ≠ e ∧ is_Some (entries c !! q)) as Hin.
  { intros q Hq. split.
    - intros ->. destruct Hd as [_ (?&?&[??]%NoDup_cons)%NoDup_app]. set_solver.
    - apply (dlist_elem _ _ _ Hd). set_solver. }
  assert (∀ q, last l1 = Some q → q ≠ e ∧ is_Some (entries c !! q)) as Hin1.
  { intros q Hq. apply Hin, elem_of_app. left. by apply last_Some_elem_of. }
  assert (∀ q, head l2 = Some q → q ≠ e ∧ is_Some (entries c !! q)) as Hin2.
  { intros q Hq. apply Hin, elem_of_app. right. by apply head_Some_elem_of. }
  unfold lru_remove. apply wp_bind. eapply pc_wp_load; [done|]. apply wp_bind.
  apply (wp_mono _ _ (λ _ c', c' = with_head (head (l1 ++ l2))
    (with_entries (λ m, match pe_lru_prev a with Some q => alter (set_lnext (pe_lru_next a)) q m | None => m end) c))).
  { rewrite Hp. destruct (last l1) as [q|] eqn:El.
    - apply pc_wp_store; [by apply Hin1|]. destruct c; simpl in *. unfold with_head, with_entries. simpl. f_equal. rewrite Hh.
      by destruct l1.
    - apply last_None in El as ->. apply wp_modify. destruct c; simpl in *. unfold with_head, with_entries. simpl. by rewrite Hn. }
  intros [] c1 ->. apply wp_bind. eapply (pc_wp_load _ _ a).
  { simpl. destruct (pe_lru_prev a) as [q|] eqn:E; [|done]. rewrite lookup_alter_ne; [done|]. apply Hin1. by rewrite <-Hp. }
  apply wp_bind. apply (wp_mono _ _ (λ _ c', c' = with_tail (last (l1 ++ l2)) (with_head (head (l1 ++ l2)) (with_entries (unlink e a) c)))).
  { unfold unlink. simpl. destruct (pe_lru_next a) as [q|] eqn:E.
    - apply pc_wp_store.
      + simpl. destruct (Hin2 q) as [? Hq]; [by rewrite <-Hn|]. destruct (pe_lru_prev a); [|done]. by apply lookup_alter_is_Some.
      + destruct c; simpl in *. unfold with_tail, with_head, with_entries. simpl. f_equal. rewrite Ht.
        destruct l2 as [|y l2]; [done|]. by rewrite !last_app_cons, last_cons_cons.
    - apply wp_modify. destruct c; simpl in *. unfold with_tail, with_head, with_entries. simpl. f_equal.
      destruct l2; [|done]. by rewrite app_nil_r, Hp. }
  intros [] c2 ->. assert (is_Some (unlink e a (entries c) !! e)) as He.
  { rewrite (unlink_frame _ _ _ _ _ _ Hd) by (done || intros [? _]%Hin; done). done. }
  apply wp_bind, pc_wp_store; [done|]. apply pc_wp_store; [by apply lookup_alter_is_Some|].
  split_and!; [|by apply pc_removed_dlist|done|done].
  exists (removed e a (entries c)), (head (l1 ++ l2)), (last (l1 ++ l2)). split; [done|]. apply removed_core.
Qed.

(** [lru_push_front] of an entry that is on no list. *)
Lemma lru_push_front_spec e c L : dlist (entries c) L → lru_head c = head L → lru_tail c = last L → e ∉ L → is_Some (entries c !! e) →
  wp (lru_push_front e) c (λ _ c', relinked c c' ∧ dlist (entries c') (e :: L) ∧ lru_head c' = Some e ∧ lru_tail c' = last (e :: L)).
Proof.
  intros Hd Hh Ht Hn [a Ha]. unfold lru_push_front. apply wp_bind, pc_wp_store; [done|]. apply wp_bind, wp_gets.
  apply wp_bind, pc_wp_store; [by apply lookup_alter_is_Some|]. apply wp_bind. cbn [lru_head with_entries]. rewrite Hh.
  set (m1 := alter (set_lru_next (head L)) e (alter (set_lru_prev None) e (entries c))).
  assert (core_of <$> m1 = core_of <$> entries c) as Hc1 by (unfold m1; by rewrite !pc_core_alter).
  assert (m1 !! e = Some (set_lru_next (head L) (set_lru_prev None a))) as He by (unfold m1; by rewrite !lookup_alter_eq, Ha).
  assert (∀ y, y ≠ e → m1 !! y = entries c !! y) as Hother by (intros y Hy; unfold m1; by rewrite !lookup_alter_ne).
  destruct L as [|q L].
  - apply wp_modify, wp_modify. split_and!; [| |done|done].
    2:{ eapply (dlist_push_front (entries c) _ e []); [done|done|exact He|done|done|by intros y ?%not_elem_of_nil]. }
    exists m1, (Some e), (Some e). by destruct c.
  - destruct (dlist_elem _ _ q Hd) as [b Hb]; [left|]. assert (q ≠ e) as Hqe by set_solver.
    apply pc_wp_store; [simpl; fold m1; rewrite Hother; [done|done]|]. apply wp_modify. split_and!; [| |done|].
    + exists (alter (set_lru_prev (Some e)) q m1), (Some e), (lru_tail c). split; [by destruct c|]. by rewrite pc_core_alter.
    + eapply (dlist_push_front (entries c)); [done|done|cbn; rewrite lookup_alter_ne by done; exact He|done|done|].
      intros y Hy. cbn. destruct (decide (Some q = Some y)) as [[= <-]|Hne].
      * by rewrite lookup_alter_eq, Hother.
      * rewrite lookup_alter_ne by congruence. apply Hother. set_solver.
    + cbn. by rewrite Ht.
Qed.

(** ** Hash chains *)

Fixpoint chain K (H : list Z) : Prop :=
  match H with
  | [] => True
  | e :: H' => (∃ k, K !! e = Some k ∧ k_hnext k = head H') ∧ chain K H'
  end.

Definition key_hash (k : core) : Z := page_cache_hash (k_inode k) (k_index k).

Lemma hash_range i x : 0 ≤ page_cache_hash i x < 1024.
Proof.
  unfold page_cache_hash, PAGE_CACHE_HASH_SIZE. pose proof (Z.mod_pos_bound (Z.lxor i (u64 (x * 0x9E3779B97F4A7C15))) 1024 ltac:(lia)).
  rewrite wrap_small; lia.
Qed.

Definition bucket_ok (ht : list (option Z)) K (b : Z) (H : list Z) : Prop :=
  ht !! Z.to_nat b = Some (head H) ∧ chain K H ∧ NoDup H ∧ ∀ e, e ∈ H ↔ ∃ k, K !! e = Some k ∧ key_hash k = b.

Definition hash_ok (ht : list (option Z)) K : Prop := length ht = 1024%nat ∧ ∀ b, 0 ≤ b < 1024 → ∃ H, bucket_ok ht K b H.

(** Keys and hash links. *)
Definition hcore (k : core) := (k_inode k, k_index k, k_hnext k).

Lemma pc_chain_ext K K' H : (∀ e, e ∈ H → hcore <$> K' !! e = hcore <$> K !! e) → chain K H → chain K' H.
Proof.
  induction H as [|e H IH]; [done|]. intros He [(k & Hk & Hn) Hc]. split.
  - specialize (He e ltac:(left)). rewrite Hk in He. destruct (K' !! e) as [k'|] eqn:E; [|done]. exists k'. split; [done|].
    unfold hcore in He. simpl in He. congruence.
  - apply IH; [|done]. intros x Hx. apply He. by right.
Qed.

Lemma hash_ok_ext ht K K' : (∀ e, hcore <$> K' !! e = hcore <$> K !! e) → hash_ok ht K → hash_ok ht K'.
Proof.
  intros He [Hl Hb]. split; [done|]. intros b Hr. destruct (Hb b Hr) as (H & H1 & H2 & H3 & H4). exists H. split_and!; [done| |done|].
  - apply (pc_chain_ext K); [|done]. intros e _. apply He.
  - intros e. rewrite H4. specialize (He e). unfold key_hash.
    split; intros (k & Hk & <-); rewrite Hk in He; [destruct (K' !! e) as [k'|] eqn:E|destruct (K !! e) as [k'|] eqn:E]; try done;
      exists k'; (split; [done|]); unfold hcore in He; simpl in He; congruence.
Qed.

Lemma length_keys {B} (m : gmap Z B) (l : list Z) : NoDup l → (∀ x, x ∈ l → is_Some (m !! x)) → (length l ≤ size m)%nat.
Proof.
  intros Hn Hl. rewrite <-size_dom, <-(size_list_to_set (C := gset Z) l) by done. apply subseteq_size.
  intros x Hx%elem_of_list_to_set. by apply elem_of_dom, Hl.
Qed.

Lemma chain_elem K H e : chain K H → e ∈ H → is_Some (K !! e).
Proof. induction H as [|x H IH]; [by intros ? ?%not_elem_of_nil|]. intros [(k & Hk & _) Hc] [->|He]%elem_of_cons; eauto. Qed.

Lemma chain_rounds c H : chain (cores c) H → NoDup H → (length H < S (size (entries c)))%nat.
Proof.
  intros Hc Hn. assert (length H ≤ size (entries c))%nat; [|lia]. apply length_keys; [done|]. intros x Hx.
  apply cores_is_Some. by eapply chain_elem.
Qed.

Lemma cores_lookup c e k : cores c !! e = Some k → ∃ en, entries c !! e = Some en ∧ core_of en = k.
Proof. unfold cores. rewrite lookup_fmap. intros (en & He & Hk)%fmap_Some. by exists en. Qed.

Definition has_key (k : core) (i x : Z) : Prop := k_inode k = i ∧ k_index k = x.

Lemma find_entry_spec i x c H : ∀ fuel, chain (cores c) H → (length H < fuel)%nat →
  wp (find_entry fuel (head H) i x) c (λ r c', c' = c ∧
    match r with
    | Some e => e ∈ H ∧ ∃ k, cores c !! e = Some k ∧ has_key k i x
    | None => ∀ e k, e ∈ H → cores c !! e = Some k → ¬ has_key k i x
    end).
Proof.
  induction H as [|e H IH]; intros [|fuel] Hc Hf; simpl in Hf; try lia; cbn [find_entry head].
  - apply wp_ret. split; [done|]. by intros e k ?%not_elem_of_nil.
  - destruct Hc as [(k & Hk & Hn) Hc]. destruct (cores_lookup _ _ _ Hk) as (en & He & <-). apply wp_bind.
    eapply pc_wp_load; [done|]. destruct (Z.eqb_spec (pe_inode en) i) as [Hi|Hi], (Z.eqb_spec (pe_page_index en) x) as [Hx|Hx]; cbn [andb].
    1:{ apply wp_ret. split; [done|]. split; [left|]. by exists (core_of en). }
    all: cbn in Hn; rewrite Hn; (eapply wp_mono; [apply IH; [done|lia]|]); intros [e'|] c' [-> Hr]; (split; [done|]);
      [destruct Hr as [? ?]; split; [by right|done]|];
      intros e' k [->|He']%elem_of_cons Hk'; [rewrite Hk in Hk'; injection Hk' as <-; intros [? ?]; done|by eapply Hr].
Qed.

(** Everything but the entries and the LRU ends. *)
Definition same_rest c c' : Prop :=
  hash_table c' = hash_table c ∧ cached_page_count c' = cached_page_count c ∧ seq_table c' = seq_table c ∧
  seq_victim c' = seq_victim c ∧ page_data c' = page_data c.

Lemma relinked_rest c c' : relinked c c' → same_rest c c'.
Proof. by intros (m & h & t & -> & _). Qed.

Lemma same_rest_trans c1 c2 c3 : same_rest c1 c2 → same_rest c2 c3 → same_rest c1 c3.
Proof. intros (?&?&?&?&?) (?&?&?&?&?). split_and!; congruence. Qed.

Definition core_ref (b : bool) (k : core) : core := mk_core (k_inode k) (k_index k) (k_phys k) (k_dirty k) b (k_hnext k).

Lemma cores_alter f g c e : (∀ a, core_of (f a) = g (core_of a)) → cores (with_entries (alter f e) c) = alter g e (cores c).
Proof.
  intros Hf. apply map_eq. intros x. unfold cores. cbn. rewrite lookup_fmap. destruct (decide (x = e)) as [->|Hne].
  - rewrite !lookup_alter_eq, lookup_fmap. destruct (entries c !! e); simpl; [by rewrite Hf|done].
  - by rewrite !lookup_alter_ne, lookup_fmap.
Qed.

(** A hit marks the entry and moves it to the front. *)
Lemma page_cache_lookup_spec i x c L : lru_ok c L → hash_ok (hash_table c) (cores c) →
  wp (page_cache_lookup i x) c (λ r c', same_rest c c' ∧
    match r with
    | None => c' = c ∧ ∀ e k, cores c !! e = Some k → ¬ has_key k i x
    | Some e => ∃ k l1 l2, L = l1 ++ e :: l2 ∧ cores c !! e = Some k ∧ has_key k i x ∧
        cores c' = <[e := core_ref true k]> (cores c) ∧ lru_ok c' (e :: l1 ++ l2)
    end).
Proof.
  intros HL [Hlen HH]. destruct (HH _ (hash_range i x)) as (H & H1 & H2 & H3 & H4). unfold page_cache_lookup.
  apply wp_bind. eapply (wp_deref (λ c, hash_table c !! _)); [exact H1|]. apply wp_bind, wp_gets, wp_bind.
  eapply wp_mono; [apply find_entry_spec; [done|by apply chain_rounds]|]. intros [e|] c' [-> Hr].
  2:{ apply wp_ret. split; [done|]. split; [done|]. intros e k Hk Hkey. eapply Hr; [|done|done]. apply H4. exists k. split; [done|].
      unfold key_hash. by destruct Hkey as [-> ->]. }
  destruct Hr as (_ & k & Hk & Hkey). destruct (cores_lookup _ _ _ Hk) as (en & He & Hcore).
  assert (e ∈ L) as (l1 & l2 & ->)%list_elem_of_split by (apply (lo_all _ _ HL); by rewrite He).
  set (c1 := with_entries (alter (set_referenced true) e) c). apply wp_bind, pc_wp_store; [by rewrite He|]. fold c1.
  assert (dlist (entries c1) (l1 ++ e :: l2)) as Hd1 by (split; [apply dseg_alter_frame; [done|apply HL]|apply HL]).
  apply wp_bind. eapply wp_mono; [apply (lru_remove_spec e c1 l1 l2); [done|apply HL|apply HL]|].
  intros [] c2 (Hr2 & Hd2 & Hh2 & Ht2). pose proof (lo_nodup _ _ HL) as Hnd.
  assert (e ∉ l1 ++ l2) as Hnin by (apply NoDup_app in Hnd as (_ & Hx & [? _]%NoDup_cons); set_solver).
  assert (cores c1 = <[e := core_ref true k]> (cores c)) as Hc1.
  { unfold c1. rewrite (cores_alter _ (core_ref true)) by done. by apply alter_as_insert. }
  assert (∀ y, is_Some (entries c2 !! y) ↔ y ∈ l1 ++ e :: l2) as Hall2.
  { intros y. rewrite <-cores_is_Some, (cores_relinked _ _ Hr2), cores_is_Some. unfold c1. cbn. rewrite lookup_alter_is_Some. apply HL. }
  apply wp_bind. eapply wp_mono; [apply (lru_push_front_spec e c2 (l1 ++ l2) Hd2 Hh2 Ht2 Hnin); apply Hall2; set_solver|].
  intros [] c3 (Hr3 & Hd3 & Hh3 & Ht3). apply wp_ret. pose proof (relinked_trans _ _ _ Hr2 Hr3) as Hr. split.
  { eapply same_rest_trans; [|by apply relinked_rest]. done. }
  exists k, l1, l2. split_and!; [done|done|done| |].
  - by rewrite (cores_relinked _ _ Hr).
  - split; [done|done|done|]. intros y. rewrite <-cores_is_Some, (cores_relinked _ _ Hr3), cores_is_Some, Hall2. set_solver.
Qed.

(** ** The clock *)

(** The entries of [sw] have lost their mark. *)
Definition cleared (sw : list Z) K K' : Prop := ∀ e, K' !! e = if decide (e ∈ sw) then core_ref false <$> K !! e else K !! e.

Definition marked K (e : Z) : Prop := ∃ k, K !! e = Some k ∧ k_ref k = true.
Definition unmarked K (e : Z) : Prop := ∃ k, K !! e = Some k ∧ k_ref k = false.

(** The hand moves from the end towards the front, clearing marks, and stops
    at the first entry without one. *)
Lemma clock_spec l : ∀ suf c fuel, dlist (entries c) (l ++ suf) → (length l < fuel)%nat →
  wp (clock fuel (last l)) c (λ r c', ∃ m' l1 sw, l = l1 ++ sw ∧ c' = with_entries (λ _, m') c ∧ dlist m' (l ++ suf) ∧
    cleared sw (cores c) (core_of <$> m') ∧ (∀ e, e ∈ sw → marked (cores c) e) ∧
    match r with None => l1 = [] | Some e => ∃ l0, l1 = l0 ++ [e] ∧ unmarked (cores c) e end).
Proof.
  induction l as [|e l IH] using rev_ind; intros suf c [|fuel] Hd Hf; try (rewrite ?length_app in Hf; simpl in Hf; lia).
  - apply wp_ret. exists (entries c), [], []. split_and!; [done|by destruct c|done| |by intros e ?%not_elem_of_nil|done].
    intros e. by rewrite decide_False by apply not_elem_of_nil.
  - rewrite last_snoc. cbn [clock]. assert (dlist (entries c) (l ++ e :: suf)) as Hd' by (by rewrite <-app_assoc in Hd).
    destruct (dlist_lookup _ _ _ _ Hd') as (en & He & Hp & _). apply wp_bind. eapply pc_wp_load; [done|].
    assert (cores c !! e = Some (core_of en)) as Hce by (unfold cores; by rewrite lookup_fmap, He).
    destruct (pe_referenced en) eqn:Er.
    + apply wp_bind, pc_wp_store; [by rewrite He|]. apply wp_bind. eapply pc_wp_load; [cbn; by rewrite lookup_alter_eq, He|].
      cbn [set_referenced pe_lru_prev]. simpl in Hp. rewrite Hp. set (c1 := with_entries (alter (set_referenced false) e) c).
      eapply wp_mono; [apply (IH (e :: suf) c1 fuel); [|rewrite length_app in Hf; simpl in Hf; lia]|].
      { split; [apply dseg_alter_frame; [done|apply Hd']|apply Hd']. }
      assert (cores c1 = alter (core_ref false) e (cores c)) as Hc1 by (unfold c1; by apply cores_alter).
      intros r c' (m' & l1 & sw & -> & -> & Hd2 & Hcl & Hm & Hr). exists m', l1, (sw ++ [e]).
      assert (NoDup ((l1 ++ sw) ++ e :: suf)) as Hnd by apply Hd'.
      assert (e ∉ l1 ++ sw) as Hen by (apply NoDup_app in Hnd as (_ & Hx & _); intros Hin; by apply (Hx e Hin); left).
      split_and!; [by rewrite app_assoc|done|by rewrite <-app_assoc| | |].
      * intros x. rewrite Hcl, Hc1. destruct (decide (x = e)) as [->|Hne].
        -- rewrite decide_False by set_solver. rewrite decide_True by set_solver. by rewrite lookup_alter_eq.
        -- rewrite lookup_alter_ne by done. destruct (decide (x ∈ sw)); [rewrite decide_True by set_solver|rewrite decide_False by set_solver]; done.
      * intros x [Hx| ->%list_elem_of_singleton]%elem_of_app; [|by exists (core_of en)]. destruct (Hm x Hx) as (k & Hk & Hkr).
        exists k. split; [|done]. rewrite Hc1, lookup_alter_ne in Hk; [done|]. intros ->. set_solver.
      * destruct r as [x|]; [|done]. destruct Hr as (l0 & -> & k & Hk & Hkr). exists l0. split; [done|]. exists k. split; [|done].
        rewrite Hc1, lookup_alter_ne in Hk; [done|]. intros ->. apply Hen. set_solver.
    + apply wp_ret. exists (entries c), (l ++ [e]), []. split_and!; [by rewrite app_nil_r|by destruct c|done| |by intros x ?%not_elem_of_nil|].
      * intros x. by rewrite decide_False by apply not_elem_of_nil.
      * exists l. split; [done|]. exists (core_of en). by split.
Qed.

(** ** Taking an entry off its hash chain *)

Lemma pc_chain_app K h1 h2 : chain K (h1 ++ h2) → chain K h2 ∧ ∀ q, last h1 = Some q → ∃ k, K !! q = Some k ∧ k_hnext k = head h2.
Proof.
  induction h1 as [|e h1 IH]; [done|]. intros [(k & Hk & Hn) Hc]. destruct (IH Hc) as [H2 H3]. split; [done|].
  intros q Hq. destruct h1 as [|y h1]; [injection Hq as <-; by exists k|]. rewrite last_cons_cons in Hq. by apply H3.
Qed.

(** The tracer behind [pre]. *)
Definition tracer_of (b : Z) (pre : list Z) : tracer := match last pre with None => AtBucket b | Some q => AtEntry q end.

Lemma wp_tracer_get b c pre rest (Q : option Z → pcache → Prop) : bucket_ok (hash_table c) (cores c) b (pre ++ rest) →
  Q (head rest) c → wp (tracer_get (tracer_of b pre)) c Q.
Proof.
  intros (H1 & H2 & _) HQ. unfold tracer_of. destruct (last pre) as [q|] eqn:El.
  - destruct (proj2 (pc_chain_app _ _ _ H2) q El) as (k & Hk & Hn). destruct (cores_lookup _ _ _ Hk) as (en & He & <-).
    apply wp_bind. eapply pc_wp_load; [done|]. apply wp_ret. cbn in Hn. by rewrite Hn.
  - apply last_None in El as ->. by eapply (wp_deref (λ c, hash_table c !! _)).
Qed.

Lemma trace_spec victim b c h1 h2 : ∀ pre fuel, bucket_ok (hash_table c) (cores c) b (pre ++ h1 ++ victim :: h2) →
  (length h1 < fuel)%nat → wp (trace fuel (tracer_of b pre) victim) c (λ t' c', c' = c ∧ t' = tracer_of b (pre ++ h1)).
Proof.
  induction h1 as [|e h1 IH]; intros pre [|fuel] Hb Hf; simpl in Hf; try lia; cbn [trace]; apply wp_bind;
    (eapply wp_tracer_get; [exact Hb|]); cbn [head app].
  - rewrite Z.eqb_refl. apply wp_ret. by rewrite app_nil_r.
  - destruct (Z.eqb_spec e victim) as [->|Hne].
    + destruct Hb as (_ & _ & Hnd & _). apply NoDup_app in Hnd as (_ & _ & [Hx _]%NoDup_cons). set_solver.
    + replace (AtEntry e) with (tracer_of b (pre ++ [e])) by (unfold tracer_of; by rewrite last_snoc).
      replace (pre ++ e :: h1) with ((pre ++ [e]) ++ h1) by (by rewrite <-app_assoc). apply IH; [|lia].
      by rewrite <-app_assoc.
Qed.

(** A piece of a chain that goes on at [n]. *)
Fixpoint cseg K (H : list Z) (n : option Z) : Prop :=
  match H with
  | [] => True
  | e :: H' => (∃ k, K !! e = Some k ∧ k_hnext k = first_or H' n) ∧ cseg K H' n
  end.

Lemma chain_cseg K H : chain K H ↔ cseg K H None.
Proof.
  induction H as [|e H IH]; [done|]. cbn [chain cseg]. rewrite IH. by replace (first_or H None) with (head H) by by destruct H.
Qed.

Lemma cseg_app K h1 h2 n : cseg K (h1 ++ h2) n ↔ cseg K h1 (first_or h2 n) ∧ cseg K h2 n.
Proof.
  induction h1 as [|e h1 IH]; [cbn; tauto|]. cbn [cseg app]. rewrite IH, first_or_app. tauto.
Qed.

Lemma cseg_ext K K' n H : (∀ e, e ∈ H → K' !! e = K !! e) → cseg K H n → cseg K' H n.
Proof.
  induction H as [|e H IH]; [done|]. intros He [(k & Hk & Hn) Hc]. split.
  - exists k. split; [|done]. rewrite He; [done|left].
  - apply IH; [|done]. intros x Hx. apply He. by right.
Qed.

Definition core_hnext (p : option Z) (k : core) : core :=
  mk_core (k_inode k) (k_index k) (k_phys k) (k_dirty k) (k_ref k) p.

(** The predecessor of [victim], or the bucket, now points behind it. *)
Lemma chain_splice K h1 victim h2 : chain K (h1 ++ victim :: h2) → NoDup (h1 ++ victim :: h2) →
  chain (delete victim (match last h1 with None => K | Some q => alter (core_hnext (head h2)) q K end)) (h1 ++ h2).
Proof.
  intros Hc (N1 & N2 & [N3 N4]%NoDup_cons)%NoDup_app. rewrite chain_cseg, cseg_app in Hc. destruct Hc as [Hc1 [_ Hc2]].
  rewrite chain_cseg, cseg_app. replace (first_or h2 None) with (head h2) by by destruct h2.
  destruct h1 as [|q h1 _] using rev_ind; [split; [done|]; eapply cseg_ext; [|exact Hc2]; intros e He; apply lookup_delete_ne; by intros ->|].
  rewrite last_snoc. apply NoDup_app in N1 as (N5 & N6 & _).
  assert (∀ e, e ≠ victim → e ≠ q → delete victim (alter (core_hnext (head h2)) q K) !! e = K !! e) as Hother.
  { intros e ? ?. by rewrite lookup_delete_ne, lookup_alter_ne. }
  split.
  - rewrite cseg_app in Hc1 |- *. destruct Hc1 as [Hc1 [(k & Hk & _) _]]. split; [|split; [|done]].
    + eapply cseg_ext; [|exact Hc1]. intros e He. apply Hother.
      * intros ->. apply (N2 victim); set_solver.
      * intros ->. apply (N6 q He). left.
    + exists (core_hnext (head h2) k). rewrite lookup_delete_ne; [by rewrite lookup_alter_eq, Hk|]. intros <-. apply (N2 victim); set_solver.
  - eapply cseg_ext; [|exact Hc2]. intros e He. apply Hother; [by intros ->|]. intros ->. apply (N2 q); set_solver.
Qed.

(** The chains once [victim] is off its own. *)
Lemma unchain ht K b h1 victim h2 : bucket_ok ht K b (h1 ++ victim :: h2) →
  let ht' := match last h1 with None => <[Z.to_nat b := head h2]> ht | Some _ => ht end in
  let K' := match last h1 with None => K | Some q => alter (core_hnext (head h2)) q K end in
  hash_ok ht K → 0 ≤ b < 1024 → hash_ok ht' (delete victim K').
Proof.
  intros (B1 & B2 & B3 & B4) ht' K' [Hlen HH] Hb. pose proof B3 as (N1 & N2 & [N3 N4]%NoDup_cons)%NoDup_app.
  assert (∀ q, last h1 = Some q → q ∈ h1) as Hlast by (intros q; apply last_Some_elem_of).
  assert (∀ e, (k_inode <$> K' !! e) = k_inode <$> K !! e ∧ (k_index <$> K' !! e) = k_index <$> K !! e) as Hkey.
  { intros e. unfold K'. destruct (last h1) as [q|]; [|done]. destruct (decide (e = q)) as [->|]; [|by rewrite lookup_alter_ne].
    rewrite lookup_alter_eq. by destruct (K !! q). }
  assert (∀ e b', (∃ k, delete victim K' !! e = Some k ∧ key_hash k = b') ↔ e ≠ victim ∧ ∃ k, K !! e = Some k ∧ key_hash k = b') as Hmem.
  { intros e b'. destruct (Hkey e) as [Hk1 Hk2]. unfold key_hash. split.
    - intros (k & [Hne Hk]%lookup_delete_Some & <-). rewrite Hk in Hk1, Hk2. destruct (K !! e) as [k'|]; [|done].
      split; [done|]. exists k'. split; [done|]. simpl in Hk1, Hk2. congruence.
    - intros [Hne (k & Hk & <-)]. rewrite Hk in Hk1, Hk2. destruct (K' !! e) as [k'|] eqn:E; [|done].
      exists k'. rewrite lookup_delete_ne by done. split; [done|]. simpl in Hk1, Hk2. congruence. }
  split; [unfold ht'; destruct (last h1); by rewrite ?length_insert|]. intros b' Hb'. destruct (decide (b' = b)) as [->|Hne].
  - exists (h1 ++ h2). split_and!.
    + unfold ht'. destruct (last h1) as [q|] eqn:El.
      * rewrite B1. destruct h1; [done|done].
      * apply last_None in El as ->. apply list_lookup_insert_eq. lia.
    + by apply chain_splice.
    + apply NoDup_app. split_and!; [done| |done]. intros x Hx Hx'. apply (N2 x Hx). by right.
    + intros e. rewrite Hmem, <-B4. split; [|set_solver]. intros He. split; [|set_solver].
      intros ->. apply elem_of_app in He as [He|He]; [|done]. apply (N2 _ He). by left.
  - destruct (HH b' Hb') as (H & H1 & H2 & H3 & H4). exists H. split_and!; [| |done|].
    + unfold ht'. destruct (last h1); [done|]. rewrite list_lookup_insert_ne by lia. done.
    + eapply pc_chain_ext; [|exact H2]. intros e He. rewrite lookup_delete_ne.
      * unfold K'. destruct (last h1) as [q|] eqn:El; [|done]. rewrite lookup_alter_ne; [done|]. intros <-.
        apply H4 in He as (k & Hk & Hh). assert (q ∈ h1 ++ victim :: h2) as (k' & Hk' & Hh')%B4 by set_solver. congruence.
      * intros <-. apply H4 in He as (k & Hk & Hh). assert (victim ∈ h1 ++ victim :: h2) as (k' & Hk' & Hh')%B4 by set_solver. congruence.
    + intros e. rewrite Hmem, H4. split; [|naive_solver]. intros (k & Hk & Hh). split; [|by exists k].
      intros ->. assert (victim ∈ h1 ++ victim :: h2) as (k' & Hk' & Hh')%B4 by set_solver. congruence.
Qed.

(** An entry without its links. *)
Definition pay (k : core) := (k_inode k, k_index k, k_phys k, k_dirty k, k_ref k).

Definition same_pay K K' : Prop := ∀ e, pay <$> K' !! e = pay <$> K !! e.

Lemma unhash_spec c L victim k : dlist (entries c) L → hash_ok (hash_table c) (cores c) → cores c !! victim = Some k →
  wp (unhash victim) c (λ _ c', ∃ ht' m', c' = with_hash (λ _, ht') (with_entries (λ _, m') c) ∧ dlist m' L ∧
    same_pay (cores c) (core_of <$> m') ∧ hash_ok ht' (delete victim (core_of <$> m'))).
Proof.
  intros Hd HH Hk. pose proof (hash_range (k_inode k) (k_index k)) as Hb. set (b := page_cache_hash (k_inode k) (k_index k)) in *.
  destruct (proj2 HH b Hb) as (H & HB). pose proof HB as (_ & Hch & Hnd & Hmem).
  assert (victim ∈ H) as (h1 & h2 & ->)%list_elem_of_split by (apply Hmem; by exists k).
  pose proof (chain_rounds _ _ Hch Hnd) as Hf. rewrite length_app in Hf. simpl in Hf.
  destruct (cores_lookup _ _ _ Hk) as (en & He & Hen). unfold unhash. apply wp_bind. eapply pc_wp_load; [done|].
  replace (page_cache_hash (pe_inode en) (pe_page_index en)) with b by (unfold b; by rewrite <-Hen).
  apply wp_bind, wp_gets, wp_bind. change (AtBucket b) with (tracer_of b []).
  eapply wp_mono; [apply (trace_spec victim b c h1 h2 []); [done|lia]|]. intros t c' [-> ->]. cbn [app].
  apply wp_bind. eapply wp_tracer_get; [exact HB|]. cbn [head]. apply wp_bind. eapply pc_wp_load; [done|].
  assert (pe_hash_next en = head h2) as ->.
  { apply pc_chain_app in Hch as [[(k' & Hk' & Hn) _] _]. rewrite Hk in Hk'. injection Hk' as <-. rewrite <-Hen in Hn. exact Hn. }
  pose proof (unchain _ _ _ _ _ _ HB HH Hb) as Hun. cbv zeta in Hun. unfold tracer_of, tracer_set.
  destruct (last h1) as [q|] eqn:El.
  - assert (is_Some (entries c !! q)) as Hq.
    { apply cores_is_Some. eapply chain_elem; [exact Hch|]. apply elem_of_app. left. by apply last_Some_elem_of. }
    apply pc_wp_store; [done|]. exists (hash_table c), (alter (set_hash_next (head h2)) q (entries c)). split_and!; [by destruct c| | |].
    + split; [apply dseg_alter_frame; [done|apply Hd]|apply Hd].
    + intros e. rewrite lookup_fmap. unfold cores. rewrite lookup_fmap. destruct (decide (e = q)) as [->|]; [|by rewrite lookup_alter_ne].
      rewrite lookup_alter_eq. by destruct (entries c !! q).
    + assert (core_of <$> alter (set_hash_next (head h2)) q (entries c) = alter (core_hnext (head h2)) q (cores c)) as ->; [|done].
      exact (cores_alter (set_hash_next (head h2)) (core_hnext (head h2)) c q (λ _, eq_refl)).
  - unfold bucket_set. apply wp_bind. eapply (wp_deref (λ c, hash_table c !! _)); [apply HB|]. apply wp_modify.
    exists (<[Z.to_nat b := head h2]> (hash_table c)), (entries c). split_and!; [by destruct c|done|done|done].
Qed.

(** ** Protection of a recently used entry *)

(** [x] is among the first [n + 1] entries, and it is marked or nothing
    behind it is. *)
Definition protected K L (x : Z) (n : nat) : Prop :=
  ∃ l1 l2, L = l1 ++ x :: l2 ∧ (length l1 ≤ n)%nat ∧ (marked K x ∨ ∀ y, y ∈ l2 → unmarked K y).

(** What an eviction does to the list and the marks: [sw] is the part the hand
    has passed. *)
Record evicted L K (victim : Z) L' K' : Prop := {
  ev_split : ∃ l1 l2, L = l1 ++ victim :: l2 ∧ L' = l1 ++ l2;
  ev_marks : ∃ pre sw, L = pre ++ sw ∧ (∀ e, e ∈ sw → marked K e) ∧
    (last pre = Some victim ∧ unmarked K victim ∨ pre = [] ∧ last sw = Some victim) ∧
    ∀ e, e ≠ victim → pay <$> K' !! e = if decide (e ∈ sw) then pay <$> (core_ref false <$> K !! e) else pay <$> K !! e;
  ev_gone : K' !! victim = None;
}.

Lemma marked_unmarked K e : marked K e → unmarked K e → False.
Proof. intros (k & Hk & Hr) (k' & Hk' & Hr'). congruence. Qed.

Lemma unmarked_pay K K' e : pay <$> K' !! e = pay <$> K !! e → unmarked K e → unmarked K' e.
Proof.
  intros Hp (k & Hk & Hr). rewrite Hk in Hp. destruct (K' !! e) as [k'|] eqn:E; [|done]. exists k'. split; [done|].
  unfold pay in Hp. simpl in Hp. congruence.
Qed.

Lemma marked_pay K K' e : pay <$> K' !! e = pay <$> K !! e → marked K e → marked K' e.
Proof.
  intros Hp (k & Hk & Hr). rewrite Hk in Hp. destruct (K' !! e) as [k'|] eqn:E; [|done]. exists k'. split; [done|].
  unfold pay in Hp. simpl in Hp. congruence.
Qed.

Lemma cleared_pay K K' e : pay <$> K' !! e = pay <$> (core_ref false <$> K !! e) → marked K e → unmarked K' e.
Proof.
  intros Hp (k & Hk & Hr). rewrite Hk in Hp. destruct (K' !! e) as [k'|] eqn:E; [|done]. exists k'. split; [done|].
  unfold pay in Hp. simpl in Hp. congruence.
Qed.

Lemma split_unique {B} (v : B) a1 a2 b1 b2 : NoDup (a1 ++ v :: a2) → a1 ++ v :: a2 = b1 ++ v :: b2 → a1 = b1 ∧ a2 = b2.
Proof.
  revert b1. induction a1 as [|y a1 IH]; intros [|z b1] Hn E; simpl in *.
  - injection E as ->. done.
  - injection E as <- ->. apply NoDup_cons in Hn as [Hn _]. set_solver.
  - injection E as -> <-. apply NoDup_cons in Hn as [Hn _]. set_solver.
  - injection E as -> E. apply NoDup_cons in Hn as [_ Hn]. destruct (IH _ Hn E) as [-> ->]. done.
Qed.

(** The hand passed [x]: everything behind [x] has lost its mark. *)
Lemma passed K K' x pre l l2 victim a1 a2 n : NoDup ((pre ++ l) ++ x :: l2) → a1 ++ victim :: a2 = (pre ++ l) ++ x :: l2 → l2 ≠ [] →
  (length (pre ++ l) ≤ n)%nat → (∀ y, y ≠ victim → y ∈ l ++ x :: l2 → unmarked K' y) →
  (last pre = Some victim ∧ unmarked K victim ∨ pre = [] ∧ last (l ++ x :: l2) = Some victim) →
  victim ≠ x ∧ protected K' (a1 ++ a2) x n.
Proof.
  intros Hnd HL Hl2 Hn Hclr Hhow. pose proof Hnd as (N1 & N2 & [N3 N4]%NoDup_cons)%NoDup_app.
  destruct Hhow as [[[p ->]%last_Some _]|[-> Hl]].
  - assert (victim ≠ x) as Hvx by (intros ->; apply (N2 x); set_solver). split; [done|].
    assert (a1 ++ victim :: a2 = p ++ victim :: l ++ x :: l2) as E by (by rewrite HL, <-!app_assoc).
    rewrite <-HL in Hnd. destruct (split_unique _ _ _ _ _ Hnd E) as [-> ->]. exists (p ++ l), l2. split_and!.
    + by rewrite <-app_assoc.
    + rewrite !length_app in *. simpl in Hn. lia.
    + right. intros y Hy. apply Hclr; [|set_solver]. intros ->. apply (N2 victim); set_solver.
  - rewrite last_app_cons, last_cons in Hl. destruct (last l2) as [w|] eqn:El; [|by apply last_None in El].
    injection Hl as ->. apply last_Some in El as [l3 ->]. assert (victim ≠ x) as Hvx by set_solver. split; [done|].
    assert (a1 ++ victim :: a2 = (l ++ x :: l3) ++ victim :: []) as E by (rewrite HL; cbn [app]; by rewrite <-app_assoc).
    rewrite <-HL in Hnd. destruct (split_unique _ _ _ _ _ Hnd E) as [-> ->]. rewrite app_nil_r. exists l, l3. split_and!; [done|done|].
    right. intros y Hy. apply Hclr; [|set_solver]. intros ->. apply NoDup_app in N4 as (_ & Hx & _). apply (Hx victim); set_solver.
Qed.

(** The clock never takes a protected entry while something is behind it. *)
Lemma evict_protected L K victim L' K' x n : NoDup L → evicted L K victim L' K' → protected K L x n → (n + 1 < length L)%nat →
  victim ≠ x ∧ protected K' L' x n.
Proof.
  intros Hnd [(a1 & a2 & HL & ->) (pre & sw & HL' & Hsw & Hhow & Hpay) _] (l1 & l2 & HLx & Hn & Hmark) Hlen.
  assert (l2 ≠ []) as Hl2 by (intros ->; rewrite HLx, length_app in Hlen; simpl in Hlen; lia).
  assert (∀ y, y ≠ victim → y ∈ sw → unmarked K' y) as Hclr.
  { intros y Hy Hin. eapply cleared_pay; [rewrite Hpay, decide_True by done; done|by apply Hsw]. }
  assert (∀ b1 b2, L = b1 ++ victim :: b2 → a1 ++ a2 = b1 ++ b2) as Huniq.
  { intros b1 b2 E. rewrite HL in E, Hnd. by destruct (split_unique _ _ _ _ _ Hnd E) as [-> ->]. }
  assert (NoDup (l1 ++ x :: l2)) as (N1 & N2 & [N3 N4]%NoDup_cons)%NoDup_app by by rewrite <-HLx.
  destruct (app_eq_inv pre sw l1 (x :: l2)) as [(l & -> & E)|(l & -> & ->)]; [congruence| |].
  - destruct l as [|z l]; simpl in E; [subst sw; rewrite app_nil_r in *|injection E as <- ->].
    + apply (passed K K' x l1 [] l2 victim a1 a2 n); rewrite ?app_nil_r; (done || congruence).
    + destruct Hhow as [[Hl Hu]|[Hl _]]; [|by destruct l1]. rewrite last_app_cons, last_cons in Hl.
      destruct (last l) as [w|] eqn:El; injection Hl as ->.
      * apply last_Some in El as [l3 ->]. rewrite <-app_assoc in *. cbn [app] in *.
        assert (victim ≠ x) as Hvx by set_solver. split; [done|]. exists l1, (l3 ++ sw). split_and!; [|done|].
        { rewrite (Huniq (l1 ++ x :: l3) sw); [by rewrite <-app_assoc|]. rewrite HLx. by rewrite <-!app_assoc. }
        assert (∀ y, y ∉ sw → y ≠ victim → pay <$> K' !! y = pay <$> K !! y) as Hsame by (intros y ? ?; by rewrite Hpay, decide_False).
        apply NoDup_app in N4 as (_ & N5 & [N6 _]%NoDup_cons). destruct Hmark as [Hm|Hm].
        -- left. eapply marked_pay; [|exact Hm]. apply Hsame; [set_solver|done].
        -- right. intros y Hy. specialize (Hm y ltac:(set_solver)).
           assert (y ∉ sw) as Hysw by (intros ?; eapply marked_unmarked; [by apply Hsw|done]).
           eapply unmarked_pay; [|exact Hm]. apply Hsame; [done|]. intros ->. apply (N5 victim); set_solver.
      * apply last_None in El as ->. exfalso. destruct Hmark as [Hm|Hm]; [by eapply marked_unmarked|].
        destruct sw as [|y sw]; [done|]. eapply marked_unmarked; [apply (Hsw y); left|apply Hm; left].
  - apply (passed K K' x pre l l2 victim a1 a2 n); (done || congruence).
Qed.

End PageCacheLru.
