(* ===== verification/PageCacheSpec.v ===== *)
(** * Correctness of the page cache: the invariant, eviction, allocation *)
From S2P Require Import Prelude Links Pages PageCache PageCacheLru.

Definition splice (off : Z) (bs f : list Z) : list Z := take (Z.to_nat off) f ++ bs ++ drop (Z.to_nat off + length bs) f.

(** What the cache relies on below it.  [fl_ok d]: the driver's structures are
    in order; [served d n]: [n] is a node of one of its files; [file d o i]:
    the contents of inode [i] of driver [o]; [errors d]: how many calls have
    failed so far; [ready d n m]: there are memory and room for calls on [n]
    that take its file up to [m] bytes, so that they do not fail.

    A read that starts in the file stores the bytes of the file, and anything
    behind its end, or fails; no file changes.  A write that is ready
    overwrites or extends, and keeps the node's length up to date. *)
Class FileLaws (D : Type) `{FileOps D} := {
  fl_ok : D → Prop;
  served : D → vfs_node → Prop;
  file : D → Z → Z → list Z;
  errors : D → Z;
  ready : D → vfs_node → Z → Prop;
  served_length d n : served d n → vn_length n = Z.of_nat (length (file d (vn_ops n) (vn_inode n)));
  ready_le d n m m' : m' ≤ m → ready d n m → ready d n m';
  fo_read_law d n off k : fl_ok d → served d n → vn_has_read n = true → 0 ≤ off < vn_length n → 0 ≤ k < 2 ^ 63 →
    wp (fo_read n off k) d (λ r d', fl_ok d' ∧ served d' n ∧ (∀ o i, file d' o i = file d o i) ∧ errors d ≤ errors d' ∧
      Z.of_nat (length r.2) ≤ k ∧
      (errors d' = errors d → ∀ j : nat, Z.of_nat j < k → off + Z.of_nat j < vn_length n →
         r.2 !! j = file d (vn_ops n) (vn_inode n) !! (Z.to_nat off + j)%nat) ∧
      (∀ m, ready d n m → errors d' = errors d ∧ ready d' n m));
  fo_write_law d n off bs : fl_ok d → served d n → vn_has_write n = true → ready d n (off + Z.of_nat (length bs)) → bs ≠ [] →
    0 ≤ off ≤ vn_length n → off + Z.of_nat (length bs) < 2 ^ 63 →
    wp (fo_write n off bs) d (λ r d', fl_ok d' ∧ errors d' = errors d ∧
      r.2 = set_length (Z.max (vn_length n) (off + Z.of_nat (length bs))) n ∧ served d' r.2 ∧
      file d' (vn_ops n) (vn_inode n) = splice off bs (file d (vn_ops n) (vn_inode n)) ∧
      (∀ o i, (o, i) ≠ (vn_ops n, vn_inode n) → file d' o i = file d o i) ∧
      (∀ m, ready d n m → ready d' r.2 m));
}.

Module PageCacheSpec.
Import PageCache PageCacheLru.

(** Which page of which file an entry is, and where. *)
Definition kid (k : core) := (k_inode k, k_index k, k_phys k).

(** The entries of [K'] are among those of [K]. *)
Definition subcache (K K' : gmap Z core) : Prop := ∀ e k', K' !! e = Some k' → ∃ k, K !! e = Some k ∧ kid k' = kid k.

Lemma subcache_refl K : subcache K K.
Proof. intros e k Hk. by exists k. Qed.

Lemma subcache_trans K1 K2 K3 : subcache K1 K2 → subcache K2 K3 → subcache K1 K3.
Proof. intros H1 H2 e k Hk. destruct (H2 _ _ Hk) as (k2 & Hk2 & ->). by apply H1. Qed.

Lemma pay_kid (k k' : core) : pay k' = pay k → kid k' = kid k.
Proof. unfold pay, kid. congruence. Qed.

Section Spec.
  Context {A D : Type} `{PageLaws A} `{FileOps D}.
  Context (kmalloc : gmap Z page_cache_entry → option Z).
  Hypothesis kmalloc_fresh : ∀ m e, kmalloc m = Some e → m !! e = None.
  Implicit Types (c : pcache) (a : A) (d : D) (v : pview) (L : list Z) (e : Z) (K : gmap Z core).

Abbreviation state := (pcache * (A * D))%type.

Record cache_inv c a v L : Prop := {
  ci_lru : lru_ok c L;
  ci_hash : hash_ok (hash_table c) (cores c);
  ci_keys : ∀ e1 e2 k1 k2, cores c !! e1 = Some k1 → cores c !! e2 = Some k2 →
    k_inode k1 = k_inode k2 → k_index k1 = k_index k2 → e1 = e2;
  ci_phys : ∀ e1 e2 k1 k2, cores c !! e1 = Some k1 → cores c !! e2 = Some k2 → k_phys k1 = k_phys k2 → e1 = e2;
  ci_held : ∀ e k, cores c !! e = Some k → pv_held v !! k_phys k = Some 0%nat;
  ci_count : cached_page_count c = Z.of_nat (length L);
  ci_max : (length L ≤ 2048)%nat;
  ci_pages : pa_rep a v;
  ci_data : ∀ p, 0 < p → p + 4096 ≤ ram_end a → p mod 4096 = 0 → ∃ bs, page_data c !! p = Some bs ∧ length bs = 4096%nat;
}.

(** Only entries, chains, list and count change: not the data of pages, not
    the stream table. *)
Definition same_data c c' : Prop :=
  page_data c' = page_data c ∧ seq_table c' = seq_table c ∧ seq_victim c' = seq_victim c.

Lemma kid_range c a v L e k : cache_inv c a v L → cores c !! e = Some k →
  0 < k_phys k ∧ k_phys k mod 4096 = 0 ∧ k_phys k + 4096 ≤ ram_end a.
Proof.
  intros HI Hk. destruct (held_range _ _ _ _ (ci_pages _ _ _ _ HI) (ci_held _ _ _ _ HI _ _ Hk)) as (? & ? & ?).
  change (2 ^ Z.of_nat 0) with 1 in *. lia.
Qed.

(** Removing entries keeps keys and pages distinct. *)
Lemma sub_keys c a v L K' : cache_inv c a v L → subcache (cores c) K' →
  (∀ e1 e2 k1 k2, K' !! e1 = Some k1 → K' !! e2 = Some k2 → k_inode k1 = k_inode k2 → k_index k1 = k_index k2 → e1 = e2) ∧
  (∀ e1 e2 k1 k2, K' !! e1 = Some k1 → K' !! e2 = Some k2 → k_phys k1 = k_phys k2 → e1 = e2) ∧
  (∀ e k, K' !! e = Some k → pv_held v !! k_phys k = Some 0%nat).
Proof.
  intros HI Hs. split_and!.
  - intros e1 e2 k1 k2 H1' H2' E1 E2. destruct (Hs _ _ H1') as (j1 & Hj1 & Q1), (Hs _ _ H2') as (j2 & Hj2 & Q2). unfold kid in *.
    eapply (ci_keys _ _ _ _ HI); [done|done|congruence|congruence].
  - intros e1 e2 k1 k2 H1' H2' E. destruct (Hs _ _ H1') as (j1 & Hj1 & Q1), (Hs _ _ H2') as (j2 & Hj2 & Q2). unfold kid in *.
    eapply (ci_phys _ _ _ _ HI); [done|done|congruence].
  - intros e k Hk. destruct (Hs _ _ Hk) as (j & Hj & Q). unfold kid in Q. injection Q as _ _ ->. by eapply (ci_held _ _ _ _ HI).
Qed.

(** The hand of the clock runs over a cache: the victim and the marks left. *)
Lemma clock_run c L : lru_ok c L → L ≠ [] →
  wp (clock (S (size (entries c))) (lru_tail c)) c (λ found c', ∃ m' victim, (match found with Some e => Some e | None => last L end) = Some victim ∧
    victim ∈ L ∧ c' = with_entries (λ _, m') c ∧ dlist m' L ∧
    ∃ pre sw, L = pre ++ sw ∧ (∀ e, e ∈ sw → marked (cores c) e) ∧ cleared sw (cores c) (core_of <$> m') ∧
      (last pre = Some victim ∧ unmarked (cores c) victim ∨ pre = [] ∧ last sw = Some victim)).
Proof.
  intros HL Hne. rewrite (lo_tail _ _ HL).
  eapply wp_mono; [apply (clock_spec L []); [rewrite app_nil_r; apply HL|]|].
  { pose proof (length_keys (entries c) L (lo_nodup _ _ HL) (λ x Hx, proj2 (lo_all _ _ HL x) Hx)). lia. }
  intros r c' (m' & l1 & sw & HLs & -> & Hd & Hcl & Hm & Hr). rewrite app_nil_r in Hd. destruct r as [e|].
  - destruct Hr as (l0 & -> & Hu). exists m', e. split_and!; [done|rewrite HLs; set_solver|done|done|]. exists (l0 ++ [e]), sw.
    split_and!; [done|done|done|]. left. by rewrite last_snoc.
  - subst l1. destruct (last L) as [e|] eqn:El; [|by apply last_None in El]. exists m', e.
    split_and!; [done|by apply last_Some_elem_of|done|done|]. exists [], sw. split_and!; [done|done|done|]. right. split; [done|].
    cbn [app] in HLs. by rewrite <-HLs.
Qed.

Lemma cleared_hash sw ht K K' : cleared sw K K' → hash_ok ht K → hash_ok ht K'.
Proof. intros Hc. apply hash_ok_ext. intros e. rewrite (Hc e). destruct (decide (e ∈ sw)); [|done]. by destruct (K !! e). Qed.

Lemma wp_pc {B} (m : M pcache B) c (w : A * D) (Q : B → state → Prop) : wp m c (λ b c', Q b (c', w)) → wp (pc m) (c, w) Q.
Proof. apply wp_lift_l. Qed.

Lemma wp_pmm {B} (m : M A B) c a d (Q : B → state → Prop) : wp m a (λ b a', Q b (c, (a', d))) → wp (pmm m) (c, (a, d)) Q.
Proof. intros Hw. by apply wp_lift_r, wp_lift_l. Qed.

Lemma wp_fs {B} (m : M D B) c a d (Q : B → state → Prop) : wp m d (λ b d', Q b (c, (a, d'))) → wp (fs m) (c, (a, d)) Q.
Proof. intros Hw. by apply wp_lift_r, wp_lift_r. Qed.

(** The payloads after an eviction: those of [sw] are unmarked, [victim] is gone. *)
Lemma evicted_sub L K victim L' K' : evicted L K victim L' K' → subcache K K'.
Proof.
  intros [_ (pre & sw & _ & _ & _ & Hpay) Hgone] e k' Hk'. destruct (decide (e = victim)) as [->|Hne]; [congruence|].
  specialize (Hpay e Hne). rewrite Hk' in Hpay. destruct (K !! e) as [k|]; [|by destruct (decide (e ∈ sw))]. exists k. split; [done|].
  unfold pay, kid in *. destruct (decide (e ∈ sw)); simpl in Hpay; congruence.
Qed.

Lemma evict_spec c a d v L : cache_inv c a v L → L ≠ [] →
  wp page_cache_evict_one (c, (a, d)) (λ _ s', ∃ c' a' v' L' victim, s' = (c', (a', d)) ∧ cache_inv c' a' v' L' ∧
    evicted L (cores c) victim L' (cores c') ∧ same_data c c' ∧ ram_end a' = ram_end a ∧ length L = S (length L')).
Proof.
  intros HI Hne. pose proof (ci_lru _ _ _ _ HI) as HL. unfold page_cache_evict_one.
  apply wp_bind, wp_pc, wp_gets, wp_bind, wp_pc, wp_gets, wp_bind, wp_pc. eapply wp_mono; [by apply clock_run|].
  intros found c1 (m1 & victim & Hv & Hin & -> & Hd1 & pre & sw & HLs & Hsw & Hcl & Hhow).
  apply wp_bind, wp_pc, wp_gets. cbn [lru_tail with_entries]. rewrite (lo_tail _ _ HL), Hv.
  set (c1 := with_entries (λ _, m1) c). assert (hash_ok (hash_table c1) (cores c1)) as HH1 by (eapply cleared_hash; [exact Hcl|apply HI]).
  assert (∃ k, cores c !! victim = Some k) as [k Hk] by (apply cores_is_Some, (lo_all _ _ HL); done).
  assert (∃ k1, cores c1 !! victim = Some k1 ∧ kid k1 = kid k) as (k1 & Hk1 & Hkid).
  { unfold c1, cores. cbn [entries with_entries]. rewrite (Hcl victim), Hk.
    destruct (decide (victim ∈ sw)); by eexists. }
  apply wp_bind, wp_pc. eapply wp_mono; [by apply (unhash_spec c1 L victim k1)|].
  intros [] c2 (ht & m2 & -> & Hd2 & Hp2 & HH2). set (c2 := with_hash (λ _, ht) (with_entries (λ _, m2) c1)).
  apply list_elem_of_split in Hin as (l1 & l2 & HLv). apply wp_bind, wp_pc.
  eapply wp_mono; [apply (lru_remove_spec victim c2 l1 l2); [by rewrite <-HLv|by rewrite <-HLv; apply HL|by rewrite <-HLv; apply HL]|].
  intros [] c3 (Hr3 & Hd3 & Hh3 & Ht3). pose proof (cores_relinked _ _ Hr3) as Hc3.
  assert (∃ k3, cores c3 !! victim = Some k3 ∧ kid k3 = kid k) as (k3 & Hk3 & Hkid3).
  { rewrite Hc3. unfold cores, c2. cbn [entries with_entries with_hash]. specialize (Hp2 victim). rewrite Hk1 in Hp2.
    destruct ((core_of <$> m2) !! victim) as [k3|]; [|done]. exists k3. split; [done|]. rewrite <-Hkid. apply pay_kid. simpl in Hp2. congruence. }
  destruct (cores_lookup _ _ _ Hk3) as (en & He & Hen). apply wp_bind, wp_pc. eapply pc_wp_load; [exact He|].
  assert (pe_phys_addr en = k_phys k) as Hph by (unfold kid in Hkid3; rewrite <-Hen in Hkid3; cbn in Hkid3; congruence).
  destruct (kid_range _ _ _ _ _ _ HI Hk) as (? & ? & ?). rewrite Hph. destruct (Z.eqb_spec (k_phys k) 0); [lia|]. cbn [negb].
  apply wp_bind, wp_pmm. eapply wp_mono; [apply free_law; [apply HI|by eapply (ci_held _ _ _ _ HI)]|].
  intros [] a' [Hend Hrep]. apply wp_bind, wp_pc, wp_modify, wp_pc, wp_modify.
  set (c' := with_count (λ n, n - 1) (with_entries (delete victim) c3)).
  assert (cores c' = delete victim (core_of <$> m2)) as Hc'.
  { unfold cores, c'. cbn [entries with_entries with_count]. rewrite fmap_delete. f_equal. exact Hc3. }
  assert (evicted L (cores c) victim (l1 ++ l2) (cores c')) as Hev.
  { split; [by exists l1, l2| |by rewrite Hc', lookup_delete_eq]. exists pre, sw. split_and!; [done|done|done|].
    intros e He'. rewrite Hc', lookup_delete_ne by done. rewrite (Hp2 e). unfold cores at 1. cbn [c1 entries with_entries]. rewrite (Hcl e).
    by destruct (decide (e ∈ sw)). }
  pose proof (evicted_sub _ _ _ _ _ Hev) as Hsub. destruct (sub_keys _ _ _ _ _ HI Hsub) as (S1 & S2 & S3).
  pose proof (lo_nodup _ _ HL) as Hnd. assert (length L = S (length (l1 ++ l2))) as Hlen by (rewrite HLv, !length_app; simpl; lia).
  assert (same_data c c') as Hsame by (destruct Hr3 as (mm & hh & tt' & -> & _); done).
  exists c', a', (mk_view (pv_free v ∪ pblock (k_phys k) 0) (delete (k_phys k) (pv_held v))), (l1 ++ l2), victim.
  split_and!; [done| |done|done|done|done]. split.
  - split; [|exact Hh3|exact Ht3|].
    + cbn. eapply dlist_ext; [|exact Hd3]. intros x Hx. apply lookup_delete_ne. intros <-.
      rewrite HLv in Hnd. apply NoDup_app in Hnd as (_ & Hy & [? _]%NoDup_cons). set_solver.
    + intros e. rewrite <-cores_is_Some, Hc', lookup_delete_is_Some. split.
      * intros [Hne' He']. assert (e ∈ L) as HeL; [|rewrite HLv in HeL; set_solver]. apply (lo_all _ _ HL), cores_is_Some.
        destruct He' as [k' Hk']. destruct (Hsub e k') as (k'' & ? & _); [by rewrite Hc', lookup_delete_ne|]. by exists k''.
      * intros He'. assert (e ≠ victim) as Hne' by (intros ->; rewrite HLv in Hnd; apply NoDup_app in Hnd as (_ & Hy & [? _]%NoDup_cons); set_solver).
        split; [done|]. rewrite <-(fmap_is_Some pay), (Hp2 e), (fmap_is_Some pay). unfold cores. cbn [c1 entries with_entries].
        rewrite (Hcl e). assert (is_Some (cores c !! e)) as Hs by (apply cores_is_Some, (lo_all _ _ HL); rewrite HLv; set_solver).
        destruct (decide (e ∈ sw)); [by apply fmap_is_Some|done].
  - rewrite Hc'. destruct Hr3 as (mm & hh & tt' & -> & _). exact HH2.
  - exact S1.
  - exact S2.
  - intros e k' Hk'. cbn [pv_held]. rewrite lookup_delete_ne; [by eapply S3|]. intros E. destruct (Hsub _ _ Hk') as (k'' & Hk'' & Q).
    unfold kid in Q. assert (e = victim) as -> by (eapply (ci_phys _ _ _ _ HI); [done|done|congruence]). rewrite Hc', lookup_delete_eq in Hk'. done.
  - cbn. destruct Hr3 as (mm & hh & tt' & -> & _). cbn. rewrite (ci_count _ _ _ _ HI). pose proof (ci_max _ _ _ _ HI). rewrite wrap_small; lia.
  - pose proof (ci_max _ _ _ _ HI). lia.
  - done.
  - rewrite Hend. destruct Hsame as (-> & _). apply HI.
Qed.

(** ** Allocation *)

Lemma hash_insert ht K e k : hash_ok ht K → K !! e = None → ht !! Z.to_nat (key_hash k) = Some (k_hnext k) →
  hash_ok (<[Z.to_nat (key_hash k) := Some e]> ht) (<[e := k]> K).
Proof.
  intros [Hlen HH] He Hk. pose proof (hash_range (k_inode k) (k_index k)) as Hr. fold (key_hash k) in Hr.
  split; [by rewrite length_insert|]. intros b Hb. destruct (HH b Hb) as (Hc & H1' & H2' & H3 & H4).
  assert (e ∉ Hc) as Hn by (intros (k' & Hk' & _)%H4; congruence).
  assert (chain (<[e := k]> K) Hc) as Hch.
  { eapply pc_chain_ext; [|exact H2']. intros x Hx. rewrite lookup_insert_ne; [done|]. by intros ->. }
  destruct (decide (b = key_hash k)) as [->|Hne].
  - exists (e :: Hc). split_and!.
    + apply list_lookup_insert_eq. lia.
    + split; [|done]. exists k. rewrite lookup_insert_eq. split; [done|]. congruence.
    + by constructor.
    + intros x. rewrite elem_of_cons, H4. split.
      * intros [->|(k' & Hk' & Hb')]; [exists k; by rewrite lookup_insert_eq|]. exists k'. rewrite lookup_insert_ne; [done|]. congruence.
      * intros (k' & [[-> _]|[_ Hk']]%lookup_insert_Some & Hb'); [by left|right; by exists k'].
  - exists Hc. split_and!; [|done|done|].
    + rewrite list_lookup_insert_ne by lia. done.
    + intros x. rewrite H4. split.
      * intros (k' & Hk' & Hb'). exists k'. rewrite lookup_insert_ne; [done|]. congruence.
      * intros (k' & [[_ <-]|[_ Hk']]%lookup_insert_Some & Hb'); [congruence|by exists k'].
Qed.

(** A protected entry stays in the cache, in the same page. *)
Definition keeps K L K' L' : Prop := ∀ y n, protected K L y n → (n + 1 < 2048)%nat →
  protected K' L' y (S n) ∧ ∃ k k', K !! y = Some k ∧ K' !! y = Some k' ∧ kid k' = kid k.

Lemma protected_weaken K L y n : protected K L y n → protected K L y (S n).
Proof. intros (l1 & l2 & -> & Hn & Hm). exists l1, l2. split_and!; [done|lia|done]. Qed.

Lemma protected_elem c L y n : lru_ok c L → protected (cores c) L y n → is_Some (cores c !! y).
Proof. intros HL (l1 & l2 & -> & _). apply cores_is_Some, (lo_all _ _ HL). set_solver. Qed.

Lemma keeps_refl c L : lru_ok c L → keeps (cores c) L (cores c) L.
Proof.
  intros HL y n Hp _. split; [by apply protected_weaken|]. destruct (protected_elem _ _ _ _ HL Hp) as [k Hk]. by exists k, k.
Qed.

(** What an allocation leaves behind, with or without a new entry. *)
Record alloc_post c a v L c' a' v' L' : Prop := {
  al_inv : cache_inv c' a' v' L';
  al_data : same_data c c';
  al_end : ram_end a' = ram_end a;
}.

(** Room is made when the cache is full. *)
Lemma make_room c a d v L : cache_inv c a v L →
  wp (n ← pc (gets cached_page_count); when PAGE_CACHE_MAX_PAGES <=? n do page_cache_evict_one) (c, (a, d)) (λ _ s', ∃ c' a' v' L',
    s' = (c', (a', d)) ∧ alloc_post c a v L c' a' v' L' ∧ (length L' < 2048)%nat ∧ subcache (cores c) (cores c') ∧
    ∀ y n, protected (cores c) L y n → (n + 1 < 2048)%nat → protected (cores c') L' y n ∧ is_Some (cores c' !! y)).
Proof.
  intros HI. apply wp_bind, wp_pc, wp_gets. rewrite (ci_count _ _ _ _ HI). unfold PAGE_CACHE_MAX_PAGES.
  destruct (Z.leb_spec 2048 (Z.of_nat (length L))).
  - eapply wp_mono; [apply (evict_spec c a d v L HI); intros ->; simpl in *; lia|].
    intros [] s' (c' & a' & v' & L' & victim & -> & HI' & Hev & Hsame & Hend & Hlen). exists c', a', v', L'.
    pose proof (ci_max _ _ _ _ HI). split_and!; [done|done|lia|by eapply evicted_sub|]. intros y n Hp Hn.
    destruct (evict_protected _ _ _ _ _ _ _ (lo_nodup _ _ (ci_lru _ _ _ _ HI)) Hev Hp ltac:(lia)) as [_ Hp'].
    split; [done|]. eapply protected_elem; [apply HI'|done].
  - apply wp_ret. exists c, a, v, L. split_and!; [done|done|lia|apply subcache_refl|]. intros y n Hp _. split; [done|].
    eapply protected_elem; [apply HI|done].
Qed.

(** The new entry enters the table, its chain and the front of the list. *)
Lemma enter_spec c a v L e i x phys : cache_inv c a v L → (length L < 2048)%nat → entries c !! e = None →
  (∀ e' k, cores c !! e' = Some k → ¬ has_key k i x) → (∀ e' k, cores c !! e' = Some k → k_phys k ≠ phys) → pv_held v !! phys = Some 0%nat →
  let b := page_cache_hash i x in
  wp (h ← bucket_get b; modify (with_entries <[e := mk_entry i x phys false true h None None]>);; bucket_set b (Some e);;
      lru_push_front e;; modify (with_count (λ n, n + 1))) c (λ _ c', cache_inv c' a v (e :: L) ∧ same_data c c' ∧
      ∃ h, cores c' = <[e := mk_core i x phys false true h]> (cores c)).
Proof.
  intros HI Hlen He Hkey Hphys Hheld b. destruct (ci_hash _ _ _ _ HI) as [Hl HH]. destruct (HH b (hash_range i x)) as (Hc & Hb & _).
  apply wp_bind. eapply (wp_deref (λ c, hash_table c !! _)); [exact Hb|]. apply wp_bind, wp_modify, wp_bind. unfold bucket_set.
  apply wp_bind. eapply (wp_deref (λ c, hash_table c !! _)); [exact Hb|]. apply wp_modify.
  set (k := mk_core i x phys false true (head Hc)). set (c1 := with_hash _ _).
  assert (e ∉ L) as HeL by (rewrite <-(lo_all _ _ (ci_lru _ _ _ _ HI)), He; by intros []).
  assert (cores c1 = <[e := k]> (cores c)) as Hc1 by (unfold cores, c1; cbn [entries with_hash with_entries]; by rewrite fmap_insert).
  assert (cores c !! e = None) as Hce by (unfold cores; by rewrite lookup_fmap, He).
  apply wp_bind. eapply wp_mono; [apply (lru_push_front_spec e c1 L); [|apply HI|apply HI|done|]|].
  { split; [|apply HI]. apply dseg_insert_fresh; [done|apply HI]. }
  { unfold c1. cbn. by rewrite lookup_insert_eq. }
  intros [] c2 (Hr2 & Hd2 & Hh2 & Ht2). apply wp_modify. pose proof (cores_relinked _ _ Hr2) as Hc2. rewrite Hc1 in Hc2.
  destruct (sub_keys _ _ _ _ (cores c) HI (subcache_refl _)) as (S1 & S2 & S3).
  change (cores c2) with (cores (with_count (λ n, n + 1) c2)) in Hc2.
  split; [|split; [by destruct Hr2 as (mm & hh & tt' & -> & _)|by exists (head Hc)]].
  split; rewrite ?Hc2.
  - split; [exact Hd2|exact Hh2|exact Ht2|]. intros y.
    rewrite <-cores_is_Some, Hc2, lookup_insert_is_Some', cores_is_Some, (lo_all _ _ (ci_lru _ _ _ _ HI)), elem_of_cons.
    split; intros [?|?]; auto.
  - destruct Hr2 as (mm & hh & tt' & -> & _). apply (hash_insert _ _ e k); [apply HI|done|exact Hb].
  - intros e1 e2 k1 k2 [[<- <-]|[? Hk1]]%lookup_insert_Some [[<- <-]|[? Hk2]]%lookup_insert_Some E1 E2; try done.
    + by destruct (Hkey _ _ Hk2).
    + by destruct (Hkey _ _ Hk1).
    + by eapply S1.
  - intros e1 e2 k1 k2 [[<- <-]|[? Hk1]]%lookup_insert_Some [[<- <-]|[? Hk2]]%lookup_insert_Some E; try done.
    + by destruct (Hphys _ _ Hk2).
    + by destruct (Hphys _ _ Hk1).
    + by eapply S2.
  - intros e1 k1 [[<- <-]|[? Hk1]]%lookup_insert_Some; [done|by eapply S3].
  - destruct Hr2 as (mm & hh & tt' & -> & _). cbn. rewrite (ci_count _ _ _ _ HI), wrap_small; simpl; lia.
  - simpl. lia.
  - apply HI.
  - destruct Hr2 as (mm & hh & tt' & -> & _). apply HI.
Qed.

Lemma protected_push K L y n e k : e ∉ L → y ∈ L → protected K L y n → protected (<[e := k]> K) (e :: L) y (S n).
Proof.
  intros He Hy (l1 & l2 & -> & Hn & Hm). exists (e :: l1), l2. split_and!; [done|simpl; lia|].
  assert (∀ z, z ∈ l1 ++ y :: l2 → <[e := k]> K !! z = K !! z) as Hz by (intros z ?; rewrite lookup_insert_ne; [done|]; by intros ->).
  destruct Hm as [(j & Hj & ?)|Hm]; [left; exists j; by rewrite Hz|right]. intros z Hz'. destruct (Hm z Hz') as (j & Hj & ?).
  exists j. rewrite Hz; [done|]. set_solver.
Qed.

(** The page allocator's part of the invariant can change under the entries. *)
Lemma cache_inv_pages c a v L a' v' : cache_inv c a v L → pa_rep a' v' → ram_end a' = ram_end a →
  (∀ e k, cores c !! e = Some k → pv_held v' !! k_phys k = Some 0%nat) → cache_inv c a' v' L.
Proof. intros HI Hr He Hh. destruct HI. split; try done. by rewrite He. Qed.

Lemma allocate_spec c a d v L i x : cache_inv c a v L → (∀ e k, cores c !! e = Some k → ¬ has_key k i x) →
  wp (page_cache_allocate kmalloc i x) (c, (a, d)) (λ r s', ∃ c' a' v' L', s' = (c', (a', d)) ∧ alloc_post c a v L c' a' v' L' ∧
    keeps (cores c) L (cores c') L' ∧
    match r with
    | None => subcache (cores c) (cores c') ∧ (pv_free v' = ∅ ∨ kmalloc (entries c') = None)
    | Some e => ∃ k, cores c' !! e = Some k ∧ has_key k i x ∧ subcache (cores c) (delete e (cores c')) ∧
        protected (cores c') L' e 0
    end).
Proof.
  intros HI Hkey. unfold page_cache_allocate. apply wp_unassoc, wp_bind. eapply wp_mono; [by apply make_room|].
  intros [] s' (c1 & a1 & v1 & L1 & -> & [HI1 Hd1 He1] & Hlen1 & Hsub1 & Hprot1). apply wp_bind, wp_pmm.
  assert (keeps (cores c) L (cores c1) L1) as Hkeep1.
  { intros y j Hy Hj. destruct (Hprot1 y j Hy Hj) as [Hp1 [k1 Hk1]]. split; [by apply protected_weaken|].
    destruct (Hsub1 _ _ Hk1) as (k0 & Hk0 & Q). by exists k0, k1. }
  eapply wp_mono; [apply (alloc_law a1 v1 0); [apply HI1|unfold Pmm.Pmm.PMM_MAX_ORDER; lia]|].
  intros ph a2 [He2 [(-> & Hz & ->)|(Hp & Hfree & _ & Hr2)]].
  { apply wp_ret. exists c1, a1, v1, L1. split_and!; [done|done|done|done|left; by apply Hz]. }
  destruct (Z.eqb_spec ph 0); [done|]. apply wp_bind, wp_pc, wp_gets. rewrite pblock_0 in *.
  assert (∀ e k, cores c1 !! e = Some k → k_phys k ≠ ph) as Hnew.
  { intros e k Hk <-. eapply (held_not_free a1 v1); [apply HI1|by eapply (ci_held _ _ _ _ HI1)|set_solver]. }
  assert (cache_inv c1 a2 (mk_view (pv_free v1 ∖ {[ph]}) (<[ph := 0%nat]> (pv_held v1))) L1) as HI2.
  { eapply cache_inv_pages; [done|done|done|]. intros e k Hk. cbn [pv_held]. rewrite lookup_insert_ne; [by eapply (ci_held _ _ _ _ HI1)|].
    intros E. by apply (Hnew _ _ Hk). }
  destruct (kmalloc (entries c1)) as [e|] eqn:Ek.
  - pose proof (kmalloc_fresh _ _ Ek) as He. assert (∀ e' k, cores c1 !! e' = Some k → ¬ has_key k i x) as Hkey1.
    { intros e' k Hk [E1 E2]. destruct (Hsub1 _ _ Hk) as (k0 & Hk0 & Q). apply (Hkey _ _ Hk0). unfold kid in Q. split; congruence. }
    pose proof (enter_spec _ _ _ _ e i x ph HI2 Hlen1 He Hkey1 Hnew (lookup_insert_eq _ _ _)) as Hw. cbv zeta in Hw.
    do 4 (apply wp_bind, wp_pc; apply wp_unbind in Hw; eapply wp_mono; [exact Hw|]; clear Hw; intros ? ? Hw; cbv beta in Hw).
    apply wp_bind, wp_pc. eapply wp_mono; [exact Hw|]. clear Hw. intros [] c' (HI' & Hd' & h & Hc'). apply wp_ret.
    assert (e ∉ L1) as HeL by (rewrite <-(lo_all _ _ (ci_lru _ _ _ _ HI1)), He; by intros []).
    eexists c', a2, _, (e :: L1). split_and!; [done| | |].
    + split; [exact HI'| |congruence]. destruct Hd1 as (?&?&?), Hd' as (?&?&?). split_and!; congruence.
    + intros y j Hy Hj. destruct (Hprot1 y j Hy Hj) as [Hp1 [k1 Hk1]].
      assert (y ∈ L1) as HyL by (destruct Hp1 as (? & ? & -> & _); set_solver). rewrite Hc'. split; [by apply protected_push|].
      destruct (Hsub1 _ _ Hk1) as (k0 & Hk0 & Q). exists k0, k1. rewrite lookup_insert_ne; [done|]. by intros ->.
    + exists (mk_core i x ph false true h). rewrite Hc', lookup_insert_eq. split_and!; [done|done| |].
      * rewrite delete_insert_id; [done|]. unfold cores. by rewrite lookup_fmap, He.
      * exists [], L1. split_and!; [done|done|]. left. eexists. by rewrite lookup_insert_eq.
  - apply wp_bind, wp_pmm. eapply wp_mono; [apply free_law; [apply HI2|apply lookup_insert_eq]|]. intros [] a3 [He3 Hr3]. apply wp_ret.
    eexists c1, a3, _, L1. split_and!; [done| |done|done|by right]. split; [|done|congruence].
    eapply cache_inv_pages; [exact HI2|exact Hr3|done|]. intros e k Hk. cbn [pv_held]. rewrite !lookup_delete_ne by (intros E; by apply (Hnew _ _ Hk)).
    rewrite lookup_insert_ne by (intros E; by apply (Hnew _ _ Hk)). by eapply (ci_held _ _ _ _ HI1).
Qed.

End Spec.
End PageCacheSpec.
