(* ===== verification/PageCacheTheorems.v ===== *)
(** * The page cache returns what is in the file

    Every cached page agrees with the file below it up to the file's end;
    reads keep that and yield the file's bytes, as long as no call of the
    driver below fails: the cache does not look at their result codes. *)
From S2P Require Import Prelude Links Pages PageCache PageCacheLru PageCacheSpec.

Module PageCacheTheorems.
Import PageCache PageCacheLru PageCacheSpec.

(** The bytes of page [x] of the file [f], as far as the file goes. *)
Definition page_matches (f : list Z) (x : Z) (bs : list Z) : Prop :=
  length bs = 4096%nat ∧ ∀ j : nat, (j < 4096)%nat → 4096 * x + Z.of_nat j < Z.of_nat (length f) →
    bs !! j = f !! Z.to_nat (4096 * x + Z.of_nat j).

Lemma put_bytes_length off bs page : 0 ≤ off → off + Z.of_nat (length bs) ≤ Z.of_nat (length page) → length (put_bytes off bs page) = length page.
Proof. intros ? ?. unfold put_bytes. rewrite !length_app, length_take, length_drop. lia. Qed.

Lemma put_bytes_lookup off bs page j : 0 ≤ off → off + Z.of_nat (length bs) ≤ Z.of_nat (length page) →
  put_bytes off bs page !! j = if decide (off ≤ Z.of_nat j < off + Z.of_nat (length bs)) then bs !! (j - Z.to_nat off)%nat else page !! j.
Proof.
  intros ? ?. unfold put_bytes. assert (length (take (Z.to_nat off) page) = Z.to_nat off) as Hl by (rewrite length_take; lia).
  case_decide.
  - rewrite lookup_app_r, Hl, lookup_app_l by lia. done.
  - destruct (decide (Z.of_nat j < off)).
    + rewrite lookup_app_l, lookup_take_lt by lia. done.
    + rewrite lookup_app_r, Hl, lookup_app_r, lookup_drop by lia. f_equal. lia.
Qed.

(** A page read from the file over any old contents, whatever is stored behind
    the end of the file. *)
Lemma filled_matches f x bs page : 0 ≤ x → length page = 4096%nat → (length bs ≤ 4096)%nat →
  (∀ j : nat, Z.of_nat j < 4096 → x * 4096 + Z.of_nat j < Z.of_nat (length f) → bs !! j = f !! (Z.to_nat (x * 4096) + j)%nat) →
  page_matches f x (put_bytes 0 bs page).
Proof.
  intros Hx Hp Hb Hbs. split; [rewrite put_bytes_length; lia|]. intros j Hj Hf. rewrite put_bytes_lookup by lia.
  specialize (Hbs j ltac:(lia) ltac:(lia)). rewrite Nat.sub_0_r.
  assert (is_Some (f !! (Z.to_nat (x * 4096) + j)%nat)) as Hs by (apply lookup_lt_is_Some; lia).
  rewrite <-Hbs in Hs. apply lookup_lt_is_Some in Hs. rewrite decide_True by lia. rewrite Hbs. f_equal. lia.
Qed.

Lemma chunk_of_page f x bs off cnt : page_matches f x bs → 0 ≤ x → 0 ≤ off → 0 ≤ cnt → off + cnt ≤ 4096 →
  4096 * x + off + cnt ≤ Z.of_nat (length f) →
  take (Z.to_nat cnt) (drop (Z.to_nat off) bs) = take (Z.to_nat cnt) (drop (Z.to_nat (4096 * x + off)) f).
Proof.
  intros [Hl Hm] ? ? ? ? ?. apply list_eq. intros i. destruct (decide (i < Z.to_nat cnt)%nat) as [Hi|Hi].
  - rewrite !lookup_take_lt, !lookup_drop by done. rewrite Hm by lia. f_equal. lia.
  - rewrite !lookup_take_ge by lia. done.
Qed.

(** What the caller gets: [m] bytes of the file from [off] on. *)
Definition slice (f : list Z) (off : Z) (m : nat) : list Z := take m (drop (Z.to_nat off) f).

Lemma slice_length f off m : 0 ≤ off → off + Z.of_nat m ≤ Z.of_nat (length f) → length (slice f off m) = m.
Proof. intros ? ?. unfold slice. rewrite length_take, length_drop. lia. Qed.

Lemma pc_slice_app f off m j : 0 ≤ off → slice f off (m + j) = slice f off m ++ slice f (off + Z.of_nat m) j.
Proof.
  intros Ho. unfold slice. rewrite <-take_take_drop, drop_drop. do 3 f_equal. lia.
Qed.

(** Rounds left for [total - got] bytes at [offset + got]. *)
Definition enough (fuel : nat) (offset total got : Z) : Prop :=
  got = total ∧ (1 ≤ fuel)%nat ∨ (offset + total) / 4096 - (offset + got) / 4096 + 2 ≤ Z.of_nat fuel.

Lemma enough_step fuel offset total got : 0 ≤ offset → 0 ≤ got < total → enough (S fuel) offset total got →
  enough fuel offset total (got + Z.min (4096 - (offset + got) mod 4096) (total - got)).
Proof.
  intros ? ? [[? ?]|He]; [lia|]. unfold enough. destruct (Z.min_spec (4096 - (offset + got) mod 4096) (total - got)) as [[? ->]|[? ->]].
  - right. Z.div_mod_to_equations. lia.
  - left. Z.div_mod_to_equations. lia.
Qed.

Lemma enough_start offset total : 0 ≤ offset → 0 ≤ total → enough (loop_rounds total) offset total 0.
Proof. intros ? ?. right. unfold loop_rounds, PAGE_SIZE. rewrite Z.add_0_r. Z.div_mod_to_equations. lia. Qed.

Section Cache.
  Context {A D : Type} `{PageLaws A} `{FileLaws D}.
  Context (kmalloc : gmap Z page_cache_entry → option Z).
  Hypothesis kmalloc_fresh : ∀ m e, kmalloc m = Some e → m !! e = None.
  (** The driver an inode belongs to: inodes of different drivers differ. *)
  Context (own : Z → Z).
  Implicit Types (c : pcache) (a : A) (d : D) (v : pview) (L : list Z) (e : Z) (K : gmap Z core) (n : vfs_node).

Abbreviation state := (pcache * (A * D))%type.
Abbreviation file_of d i := (file d (own i) i).

(** Every cached page agrees with its file. *)
Definition agrees c d (k : core) : Prop :=
  ∃ bs, page_data c !! k_phys k = Some bs ∧ page_matches (file_of d (k_inode k)) (k_index k) bs.

Definition coherent c d : Prop := ∀ e k, cores c !! e = Some k → 0 ≤ k_index k ∧ agrees c d k.

Record node_ok d n : Prop := {
  no_read : vn_has_read n = true;
  no_own : vn_ops n = own (vn_inode n);
  no_ok : fl_ok d;
  no_served : served d n;
  no_range : vn_length n < 2 ^ 63;
}.

Lemma no_length d n : node_ok d n → vn_length n = Z.of_nat (length (file_of d (vn_inode n))).
Proof. intros Hn. rewrite (served_length _ _ (no_served _ _ Hn)). by rewrite (no_own _ _ Hn). Qed.

(** What reads of [n] do to the driver: files stay, calls may fail. *)
Record dkeep n d d' : Prop := {
  dk_files o i : file d' o i = file d o i;
  dk_errors : errors d ≤ errors d';
  dk_ready m : ready d n m → errors d' = errors d ∧ ready d' n m;
}.

Lemma dkeep_refl n d : dkeep n d d.
Proof. by split. Qed.

Lemma dkeep_trans n d1 d2 d3 : dkeep n d1 d2 → dkeep n d2 d3 → dkeep n d1 d3.
Proof.
  intros [F1 G1 R1] [F2 G2 R2]. split; [intros o i; by rewrite F2, F1|lia|]. intros m [E1 H1']%R1. destruct (R2 m H1') as [E2 H2']. split; [congruence|done].
Qed.

#[local] Hint Resolve dkeep_refl : core.

(** Agreement while at most [E0] calls have failed. *)
  Context (E0 : Z).

Definition node_in d n : Prop := node_ok d n ∧ E0 ≤ errors d.

Definition entry_ok c d (k : core) : Prop := 0 ≤ k_index k ∧ (errors d ≤ E0 → agrees c d k).

Definition coherent_upto c d : Prop := ∀ e k, cores c !! e = Some k → entry_ok c d k.

Lemma coherent_start c d : coherent c d → coherent_upto c d.
Proof. intros Hc e k Hk. destruct (Hc e k Hk). by split. Qed.

Lemma coherent_end c d : coherent_upto c d → errors d ≤ E0 → coherent c d.
Proof. intros Hc HE e k Hk. destruct (Hc e k Hk). split; auto. Qed.

Lemma entry_ok_kid c c' d k k' : kid k' = kid k → page_data c' = page_data c → entry_ok c d k → entry_ok c' d k'.
Proof. unfold kid, entry_ok, agrees. intros [= -> -> ->] ->. done. Qed.

Lemma entry_ok_keep n c d d' k : dkeep n d d' → entry_ok c d k → entry_ok c d' k.
Proof.
  intros Hk [Hx Ha]. split; [done|]. pose proof (dk_errors _ _ _ Hk). intros HE. destruct Ha as (bs & Hb & Hm); [lia|]. exists bs. split; [done|].
  by rewrite (dk_files _ _ _ Hk).
Qed.

Lemma coherent_keep n c d d' : dkeep n d d' → coherent_upto c d → coherent_upto c d'.
Proof. intros Hd Hc e k Hk. eapply entry_ok_keep; [done|by eapply Hc]. Qed.

Lemma coherent_sub c c' d : subcache (cores c) (cores c') → page_data c' = page_data c → coherent_upto c d → coherent_upto c' d.
Proof. intros Hs Hd Hc e k Hk. destruct (Hs _ _ Hk) as (k0 & Hk0 & Hkid). eapply entry_ok_kid; [done|done|by eapply Hc]. Qed.

(** ** Hits *)

Lemma hit_inv c a v L c' e k l1 l2 : cache_inv c a v L → L = l1 ++ e :: l2 → cores c !! e = Some k → same_rest c c' →
  cores c' = <[e := core_ref true k]> (cores c) → lru_ok c' (e :: l1 ++ l2) → cache_inv c' a v (e :: l1 ++ l2).
Proof.
  intros HI HL Hk (R1 & R2 & R3 & R4 & R5) Hc Hlru.
  assert (subcache (cores c) (cores c')) as Hsub.
  { rewrite Hc. intros x kx [[<- <-]|[_ Hx]]%lookup_insert_Some; [by exists k|by exists kx]. }
  destruct (sub_keys _ _ _ _ _ HI Hsub) as (S1 & S2 & S3).
  assert (length (e :: l1 ++ l2) = length L) as Hlen by (rewrite HL; simpl; rewrite !length_app; simpl; lia).
  split; [done| |done|done|done| | |apply HI|].
  - rewrite R1, Hc. eapply hash_ok_ext; [|apply HI]. intros x. destruct (decide (x = e)) as [->|]; [by rewrite lookup_insert_eq, Hk|by rewrite lookup_insert_ne].
  - rewrite R2, Hlen. apply HI.
  - rewrite Hlen. apply HI.
  - rewrite R5. apply HI.
Qed.

Lemma hit_protected K l1 e l2 k x m : K !! e = Some k → NoDup (l1 ++ e :: l2) → protected K (l1 ++ e :: l2) x m →
  protected (<[e := core_ref true k]> K) (e :: l1 ++ l2) x (S m).
Proof.
  intros Hk Hnd (p & q & HL & Hm & Hmark). assert (∀ y, y ≠ e → <[e := core_ref true k]> K !! y = K !! y) as Hoth by (intros y ?; by rewrite lookup_insert_ne).
  destruct (decide (x = e)) as [->|Hxe].
  { exists [], (l1 ++ l2). split_and!; [done|simpl; lia|]. left. exists (core_ref true k). by rewrite lookup_insert_eq. }
  assert (∀ q' : list Z, (∀ y, y ∈ q' → y ∈ q ∧ y ≠ e) →
    marked (<[e := core_ref true k]> K) x ∨ ∀ y, y ∈ q' → unmarked (<[e := core_ref true k]> K) y) as Hmk.
  { intros q' Hq'. destruct Hmark as [(j & Hj & ?)|Hu]; [left; exists j; by rewrite Hoth|right]. intros y Hy. destruct (Hq' y Hy) as [Hyq Hye].
    destruct (Hu y Hyq) as (j & Hj & ?). exists j. by rewrite Hoth. }
  apply NoDup_app in Hnd as (N1 & N2 & [N3 N4]%NoDup_cons).
  destruct (app_eq_inv l1 (e :: l2) p (x :: q)) as [(w & -> & E)|(w & -> & E)]; [done| |].
  - destruct w as [|z w]; simpl in E; [congruence|injection E as <- ->]. exists (e :: p), (w ++ l2).
    split_and!; [by rewrite <-app_assoc|simpl; lia|]. apply Hmk. intros y Hy. split; [set_solver|]. intros ->.
    apply elem_of_app in Hy as [Hy|Hy]; [|done]. apply (N2 e); set_solver.
  - destruct w as [|z w]; simpl in E; [congruence|injection E as <- ->]. exists (e :: l1 ++ w), q.
    split_and!; [cbn [app]; by rewrite <-app_assoc|simpl; rewrite !length_app in *; simpl in Hm; lia|]. apply Hmk. intros y Hy. split; [done|].
    intros ->. set_solver.
Qed.

(** ** Filling a page *)

Lemma wp_page_put ph off bs c old (Q : unit → pcache → Prop) : page_data c !! ph = Some old →
  Q tt (with_data (<[ph := put_bytes off bs old]>) c) → wp (page_put ph off bs) c Q.
Proof.
  intros Hp HQ. unfold page_put, page_get. apply wp_bind. eapply (wp_deref (λ c, page_data c !! ph)); [done|]. apply wp_modify.
  unfold with_data in *. by rewrite (alter_as_insert _ _ _ _ Hp).
Qed.

(** Writing a page of the cache keeps the structure. *)
Lemma cache_inv_data c a v L ph bs : cache_inv c a v L → length bs = 4096%nat → cache_inv (with_data (<[ph := bs]>) c) a v L.
Proof.
  intros [? ? ? ? ? ? ? ? Hd] Hl. split; try done.
  - destruct ci_lru0. by split.
  - intros p H1' H2' H3'. cbn. destruct (decide (p = ph)) as [->|Hne]; [exists bs; by rewrite lookup_insert_eq|].
    rewrite lookup_insert_ne by done. by apply Hd.
Qed.

Lemma entry_data c a v L e k : cache_inv c a v L → cores c !! e = Some k → ∃ bs, page_data c !! k_phys k = Some bs ∧ length bs = 4096%nat.
Proof. intros HI Hk. destruct (kid_range _ _ _ _ _ _ HI Hk) as (? & ? & ?). by apply (ci_data _ _ _ _ HI). Qed.

(** All entries but [e] are right already; [e] is now. *)
Lemma coherent_fill c a v L d e k bs : cache_inv c a v L → cores c !! e = Some k → 0 ≤ k_index k →
  (∀ e' k', e' ≠ e → cores c !! e' = Some k' → entry_ok c d k') →
  (errors d ≤ E0 → page_matches (file_of d (k_inode k)) (k_index k) bs) → coherent_upto (with_data (<[k_phys k := bs]>) c) d.
Proof.
  intros HI Hk Hx Hoth Hm e' k' Hk'. change (cores _) with (cores c) in Hk'. destruct (decide (e' = e)) as [->|Hne].
  - assert (k' = k) as -> by congruence. split; [done|]. intros HE. exists bs. cbn. rewrite lookup_insert_eq. auto.
  - destruct (Hoth e' k' Hne Hk') as [Hx' Ha]. split; [done|]. intros HE. destruct (Ha HE) as (bs' & Hbs' & Hm'). exists bs'. cbn. rewrite lookup_insert_ne; [done|].
    intros E. apply Hne. by eapply (ci_phys _ _ _ _ HI).
Qed.

(** [read_page] over the contents [old]. *)
Lemma read_page_spec c a d n x ph old (Q : unit → state → Prop) : node_ok d n → 0 ≤ x → x * 4096 < vn_length n → page_data c !! ph = Some old →
  length old = 4096%nat →
  (∀ d' bs, node_ok d' n → dkeep n d d' → length bs = 4096%nat → (errors d' = errors d → page_matches (file_of d (vn_inode n)) x bs) →
     Q tt (with_data (<[ph := bs]>) c, (a, d'))) →
  wp (read_page n x ph) (c, (a, d)) Q.
Proof.
  intros Hn Hx Hr Hp Hlen HQ. pose proof (no_range _ _ Hn). unfold read_page, PAGE_SIZE. rewrite wrap_small by lia. apply wp_bind, wp_fs.
  eapply wp_mono; [apply fo_read_law; [apply Hn|apply Hn|apply Hn|lia|lia]|].
  intros [ret bs] d' (Hok & Hs & Hf & HE & Hl & Hbs & Hrd). cbn [snd] in *. apply wp_pc. eapply wp_page_put; [exact Hp|].
  apply HQ; [split; (done || apply Hn)|by split|rewrite put_bytes_length; lia|]. intros HE'. apply filled_matches; [done|done|lia|].
  intros j Hj Hjl. rewrite (Hbs HE' j) by (rewrite ?(no_length _ _ Hn); lia). by rewrite (no_own _ _ Hn).
Qed.

(** The state an operation on the cache leaves: the files are as before. *)
Record cstep n c a d v L c' a' d' v' L' : Prop := {
  cs_inv : cache_inv c' a' v' L';
  cs_coh : coherent_upto c' d';
  cs_end : ram_end a' = ram_end a;
  cs_keep : dkeep n d d';
  cs_node : node_in d' n;
}.

(** A fresh entry is zeroed and filled from the file. *)
Lemma fill_spec c a d v L n x e k (Q : unit → state → Prop) : node_in d n → cache_inv c a v L → cores c !! e = Some k → has_key k (vn_inode n) x →
  0 ≤ x → x * 4096 < vn_length n → (∀ e' k', e' ≠ e → cores c !! e' = Some k' → entry_ok c d k') →
  (∀ c' d', cache_inv c' a v L → coherent_upto c' d' → cores c' = cores c → dkeep n d d' → node_in d' n → Q tt (c', (a, d'))) →
  wp (pc (page_zero (k_phys k));; read_page n x (k_phys k)) (c, (a, d)) Q.
Proof.
  intros [Hn HE0] HI Hk [Hki Hkx] Hx Hr Hoth HQ. destruct (entry_data _ _ _ _ _ _ HI Hk) as (old & Hold & Hlen).
  apply wp_bind, wp_pc. eapply wp_page_put; [exact Hold|]. set (z := put_bytes 0 (replicate 4096 0) old).
  assert (length z = 4096%nat) as Hz by (unfold z; rewrite put_bytes_length; rewrite ?length_replicate; lia).
  set (c1 := with_data (<[k_phys k := z]>) c). pose proof (cache_inv_data _ _ _ _ (k_phys k) z HI Hz) as HI1. fold c1 in HI1.
  eapply read_page_spec; [done|done|done|unfold c1; cbn; apply lookup_insert_eq|done|]. intros d' bs Hn' Hkeep Hl Hm. pose proof (dk_errors _ _ _ Hkeep) as Hge. apply HQ; [by apply cache_inv_data| |done|done|split; [done|lia]].
  eapply (coherent_fill c1); [exact HI1|exact Hk|lia| |].
  - intros e' k' Hne Hk'. eapply entry_ok_keep; [exact Hkeep|]. destruct (Hoth e' k' Hne Hk') as [Hx' Ha]. split; [done|]. intros HE.
    destruct (Ha HE) as (bs' & Hbs' & Hm'). exists bs'. unfold c1. cbn. rewrite lookup_insert_ne; [done|]. intros E. apply Hne. by eapply (ci_phys _ _ _ _ HI).
  - intros HE. rewrite Hki, Hkx, (dk_files _ _ _ Hkeep). apply Hm. lia.
Qed.

Lemma others_ok c c' d e : coherent_upto c d → subcache (cores c) (delete e (cores c')) → page_data c' = page_data c →
  ∀ e' k', e' ≠ e → cores c' !! e' = Some k' → entry_ok c' d k'.
Proof.
  intros Hc Hs Hd e' k' Hne Hk'. destruct (Hs e' k') as (k0 & Hk0 & Hkid); [by rewrite lookup_delete_ne|].
  eapply entry_ok_kid; [done|done|by eapply Hc].
Qed.

(** ** Read-ahead

    The page being read survives its own read-ahead: [y] is protected. *)
Lemma prefetch_spec n y count : ∀ c a d v L x m ky, node_in d n → cache_inv c a v L → coherent_upto c d → 0 ≤ x ≤ 2 ^ 51 →
  protected (cores c) L y m → (m + count + 1 < 2048)%nat → cores c !! y = Some ky →
  wp (prefetch_loop kmalloc count n x) (c, (a, d)) (λ _ s', ∃ c' a' d' v' L' k', s' = (c', (a', d')) ∧ cstep n c a d v L c' a' d' v' L' ∧
    cores c' !! y = Some k' ∧ kid k' = kid ky).
Proof.
  induction count as [|count IH]; intros c a d v L x m ky Hn HI Hc Hx Hp Hm Hky; cbn [prefetch_loop].
  { apply wp_ret. by exists c, a, d, v, L, ky. }
  unfold PAGE_SIZE. rewrite (wrap_small 64 (x * 4096)) by lia. destruct (Z.leb_spec (vn_length n) (x * 4096)).
  { apply wp_ret. by exists c, a, d, v, L, ky. }
  pose proof (no_range _ _ (proj1 Hn)). rewrite (wrap_small 64 (x + 1)) by lia.
  apply wp_bind, wp_pc. eapply wp_mono; [apply page_cache_lookup_spec; apply HI|].
  intros [e|] c1 [Hrest Hr].
  - destruct Hr as (k & l1 & l2 & HL & Hk & Hkey & Hc1 & Hlru1). pose proof (hit_inv _ _ _ _ _ _ _ _ _ HI HL Hk Hrest Hc1 Hlru1) as HI1.
    assert (subcache (cores c) (cores c1)) as Hs1 by (rewrite Hc1; intros z kz [[<- <-]|[_ Hz]]%lookup_insert_Some; [by exists k|by exists kz]).
    assert (∃ k1, cores c1 !! y = Some k1 ∧ kid k1 = kid ky) as (k1 & Hk1 & Hkid1).
    { rewrite Hc1. destruct (decide (y = e)) as [->|]; [rewrite lookup_insert_eq|rewrite lookup_insert_ne by done; by exists ky].
      rewrite Hk in Hky. injection Hky as ->. by exists (core_ref true ky). }
    eapply wp_mono; [apply (IH c1 a d v (e :: l1 ++ l2) (x + 1) (S m) k1); [done|done| |lia| |lia|done]|].
    { eapply coherent_sub; [exact Hs1|apply Hrest|done]. }
    { rewrite Hc1. apply hit_protected; [done|rewrite <-HL; by eapply lo_nodup, HI|by rewrite <-HL]. }
    intros [] s' (c' & a' & d' & v' & L' & k' & -> & [? ? ? ? ?] & Hk' & Hkid). exists c', a', d', v', L', k'. split_and!; [done|done|done|congruence].
  - destruct Hr as [-> Hnone]. apply wp_bind. eapply wp_mono; [by apply allocate_spec|].
    intros r s' (c1 & a1 & v1 & L1 & -> & [HI1 (D1 & _) E1] & Hkeep & Hr).
    destruct (Hkeep y m Hp ltac:(lia)) as (Hp1 & k0 & k1 & Hk0 & Hk1 & Hkid1). assert (k0 = ky) as -> by congruence. destruct r as [e|].
    + destruct Hr as (k & Hk & Hkey & Hsub & _).
      destruct (cores_lookup _ _ _ Hk) as (en & He & Hen). apply wp_bind, wp_pc. eapply pc_wp_load; [exact He|].
      replace (pe_phys_addr en) with (k_phys k) by by rewrite <-Hen. apply wp_unassoc, wp_bind.
      eapply (fill_spec _ _ _ _ _ _ _ _ _ _ Hn HI1 Hk Hkey); [lia|lia|by eapply others_ok|].
      intros c2 d2 HI2 Hc2 Hcores2 Hd2 Hn2.
      eapply wp_mono; [apply (IH c2 a1 d2 v1 L1 (x + 1) (S m) k1); rewrite ?Hcores2; (done || lia)|].
      intros [] s' (c' & a' & d' & v' & L' & k' & -> & [? ? ? ? ?] & Hk' & Hkid). exists c', a', d', v', L', k'.
      split_and!; [done|split; [done|done|congruence|by eapply dkeep_trans|done]|done|congruence].
    + destruct Hr as [Hsub _]. apply wp_ret. exists c1, a1, d, v1, L1, k1. split_and!; [done| |done|done]. split; [done|by eapply coherent_sub|done|done|done].
Qed.

(** Memory is exhausted: no page, or no room for an entry. *)
Definition exhausted c v : Prop := pv_free v = ∅ ∨ kmalloc (entries c) = None.

(** The page [x] of the file is in the cache and agrees with the file. *)
Lemma get_page_spec c a d v L n sq x : node_in d n → cache_inv c a v L → coherent_upto c d → 0 ≤ x → x * 4096 < vn_length n →
  wp (get_page kmalloc n sq x) (c, (a, d)) (λ r s', ∃ c' a' d' v' L', s' = (c', (a', d')) ∧ cstep n c a d v L c' a' d' v' L' ∧
    match r with
    | Some e => ∃ k, cores c' !! e = Some k ∧ has_key k (vn_inode n) x
    | None => exhausted c' v'
    end).
Proof.
  intros Hn HI Hc Hx Hxl. pose proof (no_range _ _ (proj1 Hn)). unfold get_page. apply wp_bind, wp_pc.
  eapply wp_mono; [apply page_cache_lookup_spec; apply HI|]. intros [e|] c1 [Hrest Hr].
  { destruct Hr as (k & l1 & l2 & HL & Hk & Hkey & Hc1 & Hlru1). pose proof (hit_inv _ _ _ _ _ _ _ _ _ HI HL Hk Hrest Hc1 Hlru1) as HI1.
    apply wp_ret. exists c1, a, d, v, (e :: l1 ++ l2). split_and!; [done| |exists (core_ref true k); by rewrite Hc1, lookup_insert_eq].
    split; [done| |done|done|done]. eapply coherent_sub; [|apply Hrest|done]. rewrite Hc1.
    intros z kz [[<- <-]|[_ Hz]]%lookup_insert_Some; [by exists k|by exists kz]. }
  destruct Hr as [-> Hnone]. apply wp_bind. eapply wp_mono; [by apply allocate_spec|].
  intros [e|] s' (c1 & a1 & v1 & L1 & -> & [HI1 (D1 & _) E1] & _ & Hr).
  2:{ destruct Hr as [Hsub Hex]. apply wp_ret. exists c1, a1, d, v1, L1. split_and!; [done|split; [done|by eapply coherent_sub|done|done|done]|exact Hex]. }
  destruct Hr as (k & Hk & Hkey & Hsub & Hprot).
  destruct (cores_lookup _ _ _ Hk) as (en & He & Hen). apply wp_bind, wp_pc. eapply pc_wp_load; [exact He|].
  replace (pe_phys_addr en) with (k_phys k) by by rewrite <-Hen. rewrite (no_read _ _ (proj1 Hn)). apply wp_unassoc, wp_bind.
  eapply (fill_spec _ _ _ _ _ _ _ _ _ _ Hn HI1 Hk Hkey); [lia|lia|by eapply others_ok|]. intros c2 d2 HI2 Hc2 Hcores2 Hd2 Hn2.
  apply wp_bind. destruct sq.
  - unfold page_cache_prefetch. rewrite (no_read _ _ (proj1 Hn)). rewrite (wrap_small 64 (x + 1)) by lia.
    eapply wp_mono; [apply (prefetch_spec n e PAGE_CACHE_READ_AHEAD_PAGES c2 a1 d2 v1 L1 (x + 1) 0 k); rewrite ?Hcores2; (done || unfold PAGE_CACHE_READ_AHEAD_PAGES; lia)|].
    intros [] s' (c' & a' & d' & v' & L' & k' & -> & [? ? ? ? ?] & Hk' & Hkid). apply wp_ret. exists c', a', d', v', L'.
    split_and!; [done|split; [done|done|congruence|by eapply dkeep_trans|done]|]. exists k'. split; [done|]. unfold kid in Hkid. destruct Hkey. split; congruence.
  - do 2 apply wp_ret. exists c2, a1, d2, v1, L1. split_and!; [done|done|]. exists k. by rewrite Hcores2.
Qed.

(** ** Reading *)

Lemma pc_read_loop_spec f n (sq : bool) offset total : 0 ≤ offset → offset + total ≤ vn_length n → ∀ fuel c a d v L got,
  node_in d n → file_of d (vn_inode n) = f → cache_inv c a v L → coherent_upto c d → Z.of_nat (length got) ≤ total →
  (errors d ≤ E0 → got = slice f offset (length got)) → enough fuel offset total (Z.of_nat (length got)) →
  wp (read_loop kmalloc fuel n sq offset total got) (c, (a, d)) (λ data s', ∃ c' a' d' v' L', s' = (c', (a', d')) ∧ cstep n c a d v L c' a' d' v' L' ∧
    (errors d' ≤ E0 → data = slice f offset (length data)) ∧ Z.of_nat (length data) ≤ total ∧
    (Z.of_nat (length data) = total ∨ exhausted c' v')).
Proof.
  intros Ho Ht. induction fuel as [|fuel IH]; intros c a d v L got Hn Hf0 HI Hc Hg Hgot Hf; [unfold enough in Hf; Z.div_mod_to_equations; lia|].
  pose proof (no_range _ _ (proj1 Hn)). pose proof (no_length _ _ (proj1 Hn)) as Hlen. rewrite Hf0 in Hlen.
  cbn [read_loop]. destruct (Z.leb_spec total (Z.of_nat (length got))) as [Hle|Hlt].
  { apply wp_ret. exists c, a, d, v, L. split_and!; [done|done|done|done|left; lia]. }
  rewrite (wrap_small 64) by lia. unfold PAGE_SIZE. set (g := Z.of_nat (length got)) in *. set (cur := offset + g).
  apply wp_bind. eapply wp_mono; [apply (get_page_spec c a d v L n sq (cur / 4096)); [done|done|done|unfold cur; Z.div_mod_to_equations; lia..]|].
  intros [e|] s' (c1 & a1 & d1 & v1 & L1 & -> & [HI1 Hc1 E1 Hd1 Hn1] & Hr); pose proof (dk_errors _ _ _ Hd1) as Hge.
  2:{ apply wp_ret. exists c1, a1, d1, v1, L1. split_and!; [done|done|intros ?; apply Hgot; lia|done|by right]. }
  destruct Hr as (k & Hk & Hki & Hkx). destruct (cores_lookup _ _ _ Hk) as (en & He & Hen). apply wp_bind, wp_pc. eapply pc_wp_load; [exact He|].
  replace (pe_phys_addr en) with (k_phys k) by by rewrite <-Hen. destruct (entry_data _ _ _ _ _ _ HI1 Hk) as (bs & Hbs & Hbl).
  apply wp_bind, wp_pc. eapply (wp_deref (λ c, page_data c !! _)); [exact Hbs|]. assert (file_of d1 (vn_inode n) = f) as Hf1 by (by rewrite (dk_files _ _ _ Hd1)).
  set (chunk := Z.min (4096 - cur mod 4096) (total - g)). set (piece := take (Z.to_nat chunk) (drop (Z.to_nat (cur mod 4096)) bs)).
  assert (errors d1 ≤ E0 → piece = slice f cur (Z.to_nat chunk)) as Hpiece.
  { intros HE. destruct (Hc1 _ _ Hk) as [_ Ha]. destruct (Ha HE) as (bs' & Hbs' & Hm). rewrite Hbs in Hbs'. injection Hbs' as <-. rewrite Hki, Hkx, Hf1 in Hm.
    unfold piece, slice, chunk. rewrite (chunk_of_page f (cur / 4096)); [|done|..]; try (unfold cur; Z.div_mod_to_equations; lia).
    do 3 f_equal. Z.div_mod_to_equations. lia. }
  assert (0 < chunk ∧ g + chunk ≤ total ∧ cur mod 4096 + chunk ≤ 4096 ∧ 0 ≤ cur mod 4096) as Hchk by (unfold chunk, cur; Z.div_mod_to_equations; lia).
  assert (length piece = Z.to_nat chunk) as Hsl by (unfold piece; rewrite length_take, length_drop; lia).
  assert (Z.of_nat (length (got ++ piece)) = g + chunk) as Hnew by (rewrite length_app, Hsl; unfold g; lia).
  eapply wp_mono; [apply (IH c1 a1 d1 v1 L1); [done|done|done|done|lia| |]|].
  - intros HE. rewrite length_app, Hsl, pc_slice_app by lia. rewrite <-Hgot by lia. f_equal. by apply Hpiece.
  - rewrite Hnew. apply enough_step; [lia|lia|done].
  - intros data s' (c' & a' & d' & v' & L' & -> & [? ? ? ? ?] & ? & ? & ?). exists c', a', d', v', L'.
    split_and!; [done|split; [done|done|congruence|by eapply dkeep_trans|done]|done|done|done].
Qed.

(** The stream table does not touch the cache. *)
Lemma seq_find_lookup i l : ∀ j k, seq_find j l i = Some k → ∃ t, l !! (k - j)%nat = Some t ∧ (j ≤ k)%nat.
Proof.
  induction l as [|t l IH]; intros j k; cbn [seq_find]; [done|]. destruct (sq_valid t && (sq_inode t =? i)).
  - intros [= <-]. exists t. by rewrite Nat.sub_diag.
  - intros (t' & Ht & Hk)%IH. exists t'. split; [|lia]. by replace (k - j)%nat with (S (k - S j)) by lia.
Qed.

Lemma with_seq_ok f c a v L d : cache_inv c a v L → coherent_upto c d → cache_inv (with_seq f c) a v L ∧ coherent_upto (with_seq f c) d.
Proof. intros [[] ? ? ? ? ? ? ? ?] Hc. by split. Qed.

Lemma with_victim_ok x c a v L d : cache_inv c a v L → coherent_upto c d → cache_inv (with_victim x c) a v L ∧ coherent_upto (with_victim x c) d.
Proof. intros [[] ? ? ? ? ? ? ? ?] Hc. by split. Qed.

Lemma seq_observe_spec i off c a v L d : cache_inv c a v L → coherent_upto c d →
  wp (page_cache_seq_observe i off) c (λ _ c', cache_inv c' a v L ∧ coherent_upto c' d).
Proof.
  intros HI Hc. unfold page_cache_seq_observe. apply wp_bind, wp_gets. destruct (seq_find 0 (seq_table c) i) as [j|] eqn:E.
  - destruct (seq_find_lookup _ _ _ _ E) as (t & Ht & _). rewrite Nat.sub_0_r in Ht. apply wp_bind.
    eapply (wp_deref (λ c, seq_table c !! j)); [exact Ht|]. apply wp_bind, wp_modify, wp_bind, wp_modify, wp_ret.
    destruct (with_seq_ok (move_to_front j) _ _ _ _ _ HI Hc). by apply with_seq_ok.
  - apply wp_bind, wp_gets, wp_bind, wp_modify, wp_bind, wp_modify, wp_ret.
    destruct (with_victim_ok ((seq_victim c + 1) mod Z.of_nat PAGE_CACHE_SEQ_TRACK) _ _ _ _ _ HI Hc). by apply with_seq_ok.
Qed.

Lemma seq_anchor_spec i off c (Q : unit → pcache → Prop) : Q tt c → (∀ f, Q tt (with_seq f c)) → wp (page_cache_seq_anchor i off) c Q.
Proof.
  intros H1' H2'. unfold page_cache_seq_anchor. apply wp_bind, wp_gets. destruct (seq_find 0 (seq_table c) i); [by apply wp_modify|by apply wp_ret].
Qed.

Lemma page_cache_read_spec c a d v L n offset size : node_in d n → cache_inv c a v L → coherent_upto c d →
  0 ≤ offset → 0 ≤ size → offset + size < 2 ^ 64 →
  wp (page_cache_read kmalloc n offset size) (c, (a, d)) (λ data s', ∃ c' a' d' v' L', s' = (c', (a', d')) ∧
    cstep n c a d v L c' a' d' v' L' ∧ (errors d' ≤ E0 → data = slice (file_of d (vn_inode n)) offset (length data)) ∧
    (Z.of_nat (length data) = Z.min size (Z.max 0 (vn_length n - offset)) ∨
     Z.of_nat (length data) < Z.min size (vn_length n - offset) ∧ exhausted c' v')).
Proof.
  intros Hn HI Hc Ho Hs Hos. pose proof (no_range _ _ (proj1 Hn)). pose proof (no_length _ _ (proj1 Hn)) as Hlen. unfold page_cache_read.
  destruct (Z.leb_spec (vn_length n) offset); cbn [orb].
  { apply wp_ret. exists c, a, d, v, L. split_and!; [done|done|done|left; simpl; lia]. }
  destruct (Z.eqb_spec size 0); [apply wp_ret; exists c, a, d, v, L; split_and!; [done|done|done|left; simpl; lia]|].
  rewrite (wrap_small 64 (offset + size)) by lia. set (total := if vn_length n <? offset + size then _ else _).
  assert (total = Z.min size (vn_length n - offset)) as Htot by (unfold total; destruct (Z.ltb_spec (vn_length n) (offset + size)); lia).
  apply wp_bind, wp_pc. eapply wp_mono; [by eapply seq_observe_spec|]. intros sq c1 [HI1 Hc1]. apply wp_bind.
  eapply wp_mono; [apply (pc_read_loop_spec (file_of d (vn_inode n)) n sq offset total Ho ltac:(lia)); [done|done|done|done|simpl; lia|done|apply enough_start; lia]|].
  intros data s' (c2 & a2 & d2 & v2 & L2 & -> & [HI2 Hc2 E2 D2 N2] & Hdata & Hle & Hor).
  assert (Z.of_nat (length data) = Z.min size (Z.max 0 (vn_length n - offset)) ∨ Z.of_nat (length data) < Z.min size (vn_length n - offset) ∧ exhausted c2 v2) as Hlast.
  { rewrite Htot in *. destruct Hor as [->|Hx]; [left; lia|].
    destruct (decide (Z.of_nat (length data) = Z.min size (vn_length n - offset))); [left; lia|right; split; [lia|exact Hx]]. }
  apply wp_bind, wp_pc, seq_anchor_spec.
  - apply wp_ret. exists c2, a2, d2, v2, L2. by split_and!.
  - intros f. apply wp_ret. destruct (with_seq_ok f _ _ _ _ _ HI2 Hc2) as [HI3 Hc3]. exists (with_seq f c2), a2, d2, v2, L2. by split_and!.
Qed.

(** [page_cache_init] on a machine whose pages are free: nothing is cached. *)
Lemma page_cache_init_spec c a v d : entries c = ∅ → pa_rep a v →
  (∀ p, 0 < p → p + 4096 ≤ ram_end a → p mod 4096 = 0 → ∃ bs, page_data c !! p = Some bs ∧ length bs = 4096%nat) →
  wp page_cache_init c (λ _ c', cache_inv c' a v [] ∧ coherent c' d ∧ cores c' = ∅).
Proof.
  intros He Hr Hd. unfold page_cache_init. do 3 apply wp_bind, wp_modify. apply wp_modify.
  match goal with |- cache_inv ?X _ _ _ ∧ _ => set (c' := X) end.
  assert (cores c' = ∅) as Hc by (unfold cores, c'; cbn; rewrite He; apply fmap_empty).
  split; [|split; [intros e k; by rewrite Hc, lookup_empty|done]]. split; try (rewrite Hc; by intros *; rewrite lookup_empty); try done.
  - split; [by split; [|constructor]|done|done|]. intros e. unfold c'. cbn. rewrite He, lookup_empty. split; [by intros []|by intros ?%not_elem_of_nil].
  - rewrite Hc. split; [apply length_replicate|]. intros b Hb. exists []. split_and!; [|done|constructor|].
    + unfold c'. cbn [hash_table with_hash with_head with_tail with_count]. apply lookup_replicate_2. unfold PAGE_CACHE_HASH_SIZE. lia.
    + intros e. split; [by intros ?%not_elem_of_nil|]. intros (k & Hk & _). by rewrite lookup_empty in Hk.
  - cbn. lia.
Qed.

End Cache.

(** C9. [page_cache_read] returns the file.  On a cache whose pages agree with
    the files below, a read of any extent that does not overflow returns as
    many bytes as were asked for up to the end of the file, fewer only when
    memory ran out; the files are untouched and the cache stays well formed,
    through eviction and read-ahead.  The cache ignores the results of the
    driver's calls: as long as none of them fails ([errors] does not grow,
    and it does not while the driver has memory and room), the bytes are the
    file's from [offset] on and the cache stays in agreement. *)
Theorem page_cache_read_correct {A D : Type} `{PageLaws A} `{FileLaws D} (kmalloc : gmap Z page_cache_entry → option Z) (own : Z → Z)
    c (a : A) (d : D) v L n offset size :
  (∀ m e, kmalloc m = Some e → m !! e = None) → node_ok own d n → cache_inv c a v L → coherent own c d →
  0 ≤ offset → 0 ≤ size → offset + size < 2 ^ 64 →
  wp (page_cache_read kmalloc n offset size) (c, (a, d)) (λ data s', ∃ c' a' d' v' L', s' = (c', (a', d')) ∧
    cache_inv c' a' v' L' ∧ node_ok own d' n ∧ (∀ o i, file d' o i = file d o i) ∧ (∀ m, ready d n m → errors d' = errors d ∧ ready d' n m) ∧
    (errors d' = errors d → coherent own c' d' ∧
       data = take (length data) (drop (Z.to_nat offset) (file d (vn_ops n) (vn_inode n)))) ∧
    (Z.of_nat (length data) = Z.min size (Z.max 0 (vn_length n - offset)) ∨
     Z.of_nat (length data) < Z.min size (vn_length n - offset) ∧ (pv_free v' = ∅ ∨ kmalloc (entries c') = None))).
Proof.
  intros Hf Hn HI Hc Ho Hs Hos.
  eapply wp_mono; [apply (page_cache_read_spec kmalloc Hf own (errors d) c a d v L n offset size); [by split|done|by apply coherent_start|done..]|].
  intros data s' (c' & a' & d' & v' & L' & -> & [HI' Hc' _ Hk [Hn' _]] & Hdata & Hlen). exists c', a', d', v', L'.
  split_and!; [done|done|done|apply Hk|intros m; apply Hk| |exact Hlen]. intros HE. split; [apply (coherent_end own (errors d)); [done|lia]|].
  rewrite (no_own _ _ _ Hn). apply Hdata. lia.
Qed.

(** ** A store of files in memory *)
Module MemDisk.

Abbreviation disk := (gmap (Z * Z) (list Z)).
Definition contents (d : disk) (o i : Z) : list Z := default [] (d !! (o, i)).

#[global] Instance disk_ops : FileOps disk := {|
  fo_read n off k := gets (λ d, let bs := take (Z.to_nat k) (drop (Z.to_nat off) (contents d (vn_ops n) (vn_inode n))) in (Z.of_nat (length bs), bs));
  fo_write n off bs := modify (λ d, <[(vn_ops n, vn_inode n) := splice off bs (contents d (vn_ops n) (vn_inode n))]> d);;
    gets (λ d, (Z.of_nat (length bs), set_length (Z.of_nat (length (contents d (vn_ops n) (vn_inode n)))) n));
|}.

Lemma length_splice off bs f : 0 ≤ off ≤ Z.of_nat (length f) →
  Z.of_nat (length (splice off bs f)) = Z.max (Z.of_nat (length f)) (off + Z.of_nat (length bs)).
Proof. intros Ho. unfold splice. rewrite !length_app, length_take, length_drop. lia. Qed.

#[global] Instance disk_laws : FileLaws disk.
Proof.
  refine {| fl_ok _ := True; served d n := vn_length n = Z.of_nat (length (contents d (vn_ops n) (vn_inode n))); file := contents; errors _ := 0; ready _ _ _ := True |}.
  - done.
  - done.
  - intros d n off k _ Hl _ Ho Hk. apply wp_gets. cbn [snd]. split_and!; try done.
    + rewrite length_take. lia.
    + intros _ j Hj Hjl. by rewrite lookup_take_lt, lookup_drop by lia.
  - intros d n off bs _ Hl _ _ _ Ho _. apply wp_bind, wp_modify, wp_gets. cbn [snd]. unfold contents in *. rewrite lookup_insert_eq. cbn [default].
    unfold id in *. rewrite length_splice, <-Hl by lia. split_and!; try done.
    + cbn [vn_length vn_ops vn_inode set_length]. rewrite lookup_insert_eq. cbn [default]. unfold id. rewrite length_splice by lia. lia.
    + intros o i Hne. by rewrite lookup_insert_ne.
Defined.

(** One file of 5000 bytes, inode 5 of driver 1. *)
Definition demo_file : list Z := replicate 5000 7.
Definition demo_disk : disk := {[(1, 5) := demo_file]}.
Definition demo_node : vfs_node := mk_vnode 1 5 5000 true true.

(** Addresses the allocator has not handed out: above all that it has. *)
Definition new_address (m : gmap Z page_cache_entry) : option Z := Some (64 + foldr Z.max 0 (map_to_list m).*1).

Lemma new_address_fresh m e : new_address m = Some e → m !! e = None.
Proof.
  intros [= <-]. destruct (m !! _) as [x|] eqn:E; [exfalso|done]. apply elem_of_map_to_list, (list_elem_of_fmap_2 fst) in E. cbn in E.
  revert E. generalize (map_to_list m).*1. intros l.
  assert (∀ y, y ∈ l → y ≤ foldr Z.max 0 l) as Hmax.
  { induction l as [|z l IH]; [by intros y ?%not_elem_of_nil|]. intros y [->|Hy]%elem_of_cons; simpl; [lia|]. specialize (IH y Hy). lia. }
  intros Hin. specialize (Hmax _ Hin). lia.
Qed.

Lemma demo_node_ok : node_ok (λ _, 1) demo_disk demo_node.
Proof. by split. Qed.

Lemma zero_pages hi : ∃ m : gmap Z (list Z), ∀ p, 0 < p → p + 4096 ≤ hi → p mod 4096 = 0 → ∃ bs, m !! p = Some bs ∧ length bs = 4096%nat.
Proof.
  exists (gset_to_gmap (replicate 4096 0) (list_to_set (seqZ 0 hi))). intros p ? ? _. exists (replicate 4096 0).
  split; [|apply length_replicate]. apply lookup_gset_to_gmap_Some. split; [|done]. apply elem_of_list_to_set, elem_of_seqZ. lia.
Qed.

Lemma demo_cache : ∃ c (a : Pmm.Pmm.pmm * unit), cache_inv c a (mk_view PmmPages.demo_free ∅) [] ∧ coherent (λ _, 1) c demo_disk ∧ cores c = ∅.
Proof.
  destruct PmmPages.demo_boot as (a & Hr & He). destruct (zero_pages (ram_end a)) as [m Hm].
  pose proof (page_cache_init_spec (λ _, 1) (mk_pc [] ∅ None None 0 [] 0 m) a _ demo_disk eq_refl Hr Hm) as Hw.
  apply wp_run in Hw as (u & c & _ & Hc). by exists c, a.
Qed.

End MemDisk.

End PageCacheTheorems.
