(* ===== verification/PageCacheWrite.v ===== *)
(** * Writing through the page cache

    A write that begins inside the file, or on a page boundary, or in a page
    that is cached, and for which the driver has memory and room, reaches the
    file and leaves cache and file in agreement.
    An append in the middle of a page that is not cached does not: the cache
    then holds zeros in place of what the file has before the append. *)
From S2P Require Import Prelude Links Pages PageCache PageCacheLru PageCacheSpec PageCacheTheorems.

Module PageCacheWrite.
Import PageCache PageCacheLru PageCacheSpec PageCacheTheorems.

Lemma splice_length off bs f : 0 ≤ off ≤ Z.of_nat (length f) →
  Z.of_nat (length (splice off bs f)) = Z.max (Z.of_nat (length f)) (off + Z.of_nat (length bs)).
Proof. intros Ho. unfold splice. rewrite !length_app, length_take, length_drop. lia. Qed.

Lemma splice_lookup off bs f j : 0 ≤ off ≤ Z.of_nat (length f) →
  splice off bs f !! j = if decide (off ≤ Z.of_nat j < off + Z.of_nat (length bs)) then bs !! (j - Z.to_nat off)%nat else f !! j.
Proof.
  intros Ho. unfold splice. assert (length (take (Z.to_nat off) f) = Z.to_nat off) as Hl by (rewrite length_take; lia). case_decide.
  - rewrite lookup_app_r, Hl, lookup_app_l by lia. done.
  - destruct (decide (Z.of_nat j < off)); [rewrite lookup_app_l, lookup_take_lt by lia; done|].
    rewrite lookup_app_r, Hl, lookup_app_r, lookup_drop by lia. f_equal. lia.
Qed.

Lemma splice_nil off f : splice off [] f = f.
Proof. unfold splice. cbn [app length]. rewrite Nat.add_0_r. apply take_drop. Qed.

Lemma splice_splice off bs bs' f : 0 ≤ off ≤ Z.of_nat (length f) →
  splice (off + Z.of_nat (length bs)) bs' (splice off bs f) = splice off (bs ++ bs') f.
Proof.
  intros Ho. apply list_eq. intros j. pose proof (splice_length off bs f Ho). rewrite splice_lookup by lia. rewrite !splice_lookup by done.
  rewrite length_app. repeat case_decide; try lia; try done.
  - rewrite lookup_app_r by lia. f_equal. lia.
  - rewrite lookup_app_l by lia. done.
Qed.

(** A piece is written into page [x], in the cache and in the file. *)
Lemma put_matches f x bs off piece : 0 ≤ x → 0 ≤ off → off + Z.of_nat (length piece) ≤ 4096 → 4096 * x + off ≤ Z.of_nat (length f) →
  length bs = 4096%nat → page_matches f x bs ∨ (off = 0 ∧ length piece = 4096%nat) →
  page_matches (splice (4096 * x + off) piece f) x (put_bytes off piece bs).
Proof.
  intros Hx Ho Hp Hf Hl Hor. split; [rewrite put_bytes_length; lia|]. intros j Hj Hjf. rewrite put_bytes_lookup, splice_lookup by lia.
  destruct (decide (off ≤ Z.of_nat j < off + Z.of_nat (length piece))) as [Hin|Hout].
  - rewrite decide_True by lia. f_equal. lia.
  - rewrite decide_False by lia. destruct Hor as [[_ Hm]|[-> Hlp]]; [|lia]. apply Hm; [done|].
    rewrite splice_length in Hjf by lia. lia.
Qed.

(** Other pages do not notice. *)
Lemma splice_other f x x' bs off piece : 0 ≤ x → 0 ≤ x' → x' ≠ x → 0 ≤ off → off + Z.of_nat (length piece) ≤ 4096 →
  4096 * x + off ≤ Z.of_nat (length f) → page_matches f x' bs → page_matches (splice (4096 * x + off) piece f) x' bs.
Proof.
  intros Hx Hx' Hne Ho Hp Hf [Hl Hm]. split; [done|]. intros j Hj Hjf. rewrite splice_length in Hjf by lia. rewrite splice_lookup by lia.
  rewrite decide_False by lia. apply Hm; [done|]. lia.
Qed.

Section Write.
  Context {A D : Type} `{PageLaws A} `{FileLaws D}.
  Context (kmalloc : gmap Z page_cache_entry → option Z).
  Hypothesis kmalloc_fresh : ∀ m e, kmalloc m = Some e → m !! e = None.
  Context (own : Z → Z).
  Implicit Types (c : pcache) (a : A) (d : D) (v : pview) (L : list Z) (e : Z) (n : vfs_node).

Abbreviation state := (pcache * (A * D))%type.
Abbreviation file_of d i := (file d (own i) i).

Definition is_cached c (i x : Z) : Prop := ∃ e k, cores c !! e = Some k ∧ has_key k i x.

(** Where a write may begin for the cache to stay in agreement. *)
Definition write_start c n (offset : Z) : Prop :=
  0 ≤ offset ≤ vn_length n ∧
  (offset < vn_length n ∨ offset mod 4096 = 0 ∨ is_cached c (vn_inode n) (offset / 4096)).

(** While the driver is ready for a file of [m] bytes no call fails. *)
  Context (E0 m : Z).

Abbreviation coherent0 := (coherent_upto own E0).
Abbreviation entry_ok0 := (entry_ok own E0).

Definition node_rd d n : Prop := node_ok own d n ∧ errors d = E0 ∧ ready d n m.

(** The entry a write goes to: all other entries agree with their files, and
    so does this one unless the write replaces the whole page. *)
Definition page_for_write a d n (cur chunk : Z) (r : option Z) (s' : state) : Prop :=
  ∃ c' a' d' v' L', s' = (c', (a', d')) ∧ cache_inv c' a' v' L' ∧ ram_end a' = ram_end a ∧ node_rd d' n ∧ dkeep n d d' ∧
    match r with
    | Some e => ∃ k bs, cores c' !! e = Some k ∧ has_key k (vn_inode n) (cur / 4096) ∧ page_data c' !! k_phys k = Some bs ∧ length bs = 4096%nat ∧
        (∀ e' k', e' ≠ e → cores c' !! e' = Some k' → entry_ok0 c' d' k') ∧
        (page_matches (file_of d (vn_inode n)) (cur / 4096) bs ∨ cur mod 4096 = 0 ∧ chunk = 4096)
    | None => coherent0 c' d' ∧ exhausted kmalloc c' v'
    end.

Lemma get_page_for_write_spec c a d v L n cur chunk : node_rd d n → cache_inv c a v L → coherent0 c d → write_start c n cur →
  wp (get_page_for_write kmalloc n cur chunk) (c, (a, d)) (page_for_write a d n cur chunk).
Proof.
  intros Hrd HI Hc [Hcur Hstart]. pose proof Hrd as (Hn & HE0 & Hready). pose proof (no_range _ _ _ Hn). pose proof (no_length _ _ _ Hn) as Hlen.
  assert (0 ≤ cur / 4096 ∧ cur / 4096 * 4096 ≤ cur) as Hx by (Z.div_mod_to_equations; lia).
  unfold get_page_for_write, PAGE_SIZE. apply wp_bind, wp_pc. eapply wp_mono; [apply page_cache_lookup_spec; apply HI|].
  intros [e|] c1 [Hrest Hr].
  { destruct Hr as (k & l1 & l2 & HL & Hk & Hkey & Hc1 & Hlru1). pose proof (hit_inv _ _ _ _ _ _ _ _ _ HI HL Hk Hrest Hc1 Hlru1) as HI1.
    apply wp_ret. exists c1, a, d, v, (e :: l1 ++ l2). split_and!; [done|done|done|done|apply dkeep_refl|].
    assert (coherent0 c1 d) as Hco1.
    { eapply coherent_sub; [|apply Hrest|done]. rewrite Hc1. intros z kz [[<- <-]|[_ Hz]]%lookup_insert_Some; [by exists k|by exists kz]. }
    assert (cores c1 !! e = Some (core_ref true k)) as Hk1 by (by rewrite Hc1, lookup_insert_eq).
    destruct (Hco1 _ _ Hk1) as [_ Ha]. destruct (Ha ltac:(lia)) as (bs & Hbs & Hm). exists (core_ref true k), bs. split_and!; [done|done|done|apply Hm| |].
    - intros e' k' _ Hk'. by eapply Hco1.
    - left. destruct Hkey as [<- <-]. exact Hm. }
  destruct Hr as [-> Hnone].
  assert (cur < vn_length n ∨ cur mod 4096 = 0) as Hst.
  { destruct Hstart as [?|[?|(e & k & Hk & Hkey)]]; [by left|by right|]. by destruct (Hnone _ _ Hk). }
  apply wp_bind. eapply wp_mono; [by apply allocate_spec|].
  intros [e|] s' (c1 & a1 & v1 & L1 & -> & [HI1 (D1 & _) E1] & _ & Hr).
  2:{ destruct Hr as [Hsub Hex]. apply wp_ret. exists c1, a1, d, v1, L1. split_and!; [done|done|done|done|apply dkeep_refl|by eapply coherent_sub|exact Hex]. }
  destruct Hr as (k & Hk & Hkey & Hsub & _). destruct (cores_lookup _ _ _ Hk) as (en & He & Hen). apply wp_bind, wp_pc. eapply pc_wp_load; [exact He|].
  replace (pe_phys_addr en) with (k_phys k) by by rewrite <-Hen. destruct (entry_data _ _ _ _ _ _ HI1 Hk) as (old & Hold & Hol).
  pose proof (others_ok own _ _ _ _ _ Hc Hsub D1) as Hoth.
  assert (∀ bs d', node_rd d' n → dkeep n d d' → length bs = 4096%nat → (page_matches (file_of d (vn_inode n)) (cur / 4096) bs ∨ cur mod 4096 = 0 ∧ chunk = 4096) →
    wp (mret (Some e)) (with_data (<[k_phys k := bs]>) c1, (a1, d')) (page_for_write a d n cur chunk)) as Hfin.
  { intros bs d' Hrd' Hdk Hbl Hbm. apply wp_ret. eexists _, a1, d', v1, L1. split_and!; [done|by apply cache_inv_data|done|done|done|]. exists k, bs.
    split_and!; [done|done|cbn; apply lookup_insert_eq|done| |done]. intros e' k' Hne Hk'. eapply entry_ok_keep; [exact Hdk|].
    destruct (Hoth e' k' Hne Hk') as [Hx' Ha]. split; [done|]. intros HE. destruct (Ha HE) as (b' & Hb' & Hm').
    exists b'. cbn. rewrite lookup_insert_ne; [done|]. intros E. apply Hne. by eapply (ci_phys _ _ _ _ HI1). }
  apply wp_bind. destruct (negb (cur mod 4096 =? 0) || negb (chunk =? 4096)) eqn:Epart.
  - rewrite (no_read _ _ _ Hn), andb_true_r. destruct (Z.ltb_spec cur (vn_length n)).
    + eapply read_page_spec; [done|lia|lia|exact Hold|done|]. intros d' bs Hn' Hdk Hbl Hm. destruct (dk_ready _ _ _ Hdk _ Hready) as [HE' Hready'].
      apply Hfin; [split_and!; [done|congruence|done]|done|done|left; by apply Hm].
    + apply wp_pc. eapply wp_page_put; [exact Hold|]. apply Hfin; [done|apply dkeep_refl|rewrite put_bytes_length; rewrite ?length_replicate; lia|]. left.
      split; [rewrite put_bytes_length; rewrite ?length_replicate; lia|]. intros j Hj Hjf. exfalso. rewrite <-Hlen in Hjf. Z.div_mod_to_equations. lia.
  - apply wp_ret. apply orb_false_iff in Epart as [E2 E3]. apply negb_false_iff, Z.eqb_eq in E2, E3.
    assert (with_data (<[k_phys k := old]>) c1 = c1) as <- by (destruct c1; unfold with_data; cbn in *; by rewrite insert_id). apply Hfin; [done|apply dkeep_refl|done|by right].
Qed.

(** ** The loop *)

Lemma dirty_ok c a v L e : cache_inv c a v L → is_Some (cores c !! e) → ∃ c', cache_inv c' a v L ∧
  wp (store e (set_dirty true)) c (λ _ c'', c'' = c') ∧ page_data c' = page_data c ∧ ∀ x, kid <$> cores c' !! x = kid <$> cores c !! x.
Proof.
  intros HI He. set (c' := with_entries (alter (set_dirty true) e) c). exists c'.
  assert (cores c' = alter (λ k, mk_core (k_inode k) (k_index k) (k_phys k) true (k_ref k) (k_hnext k)) e (cores c)) as Hc.
  { unfold c'. by apply cores_alter. }
  assert (∀ x, kid <$> cores c' !! x = kid <$> cores c !! x) as Hkid.
  { intros x. rewrite Hc. destruct (decide (x = e)) as [->|]; [rewrite lookup_alter_eq; by destruct (cores c !! e)|by rewrite lookup_alter_ne]. }
  assert (subcache (cores c) (cores c')) as Hsub.
  { intros x k Hk. specialize (Hkid x). rewrite Hk in Hkid. destruct (cores c !! x) as [k0|]; [|done]. exists k0. simpl in Hkid. split; congruence. }
  destruct (sub_keys _ _ _ _ _ HI Hsub) as (S1 & S2 & S3). split_and!; [|by apply pc_wp_store; [apply cores_is_Some|]|done|done].
  split; [|eapply hash_ok_ext; [|apply HI]|done|done|done|apply HI|apply HI|apply HI|apply HI].
  - destruct (ci_lru _ _ _ _ HI) as [[Hd Hn] Hh Ht Ha]. split; [|done|done|].
    + split; [by apply dseg_alter_frame|done].
    + intros x. unfold c'. cbn. rewrite lookup_alter_is_Some. apply Ha.
  - intros x. rewrite Hc. destruct (decide (x = e)) as [->|]; [rewrite lookup_alter_eq; by destruct (cores c !! e)|by rewrite lookup_alter_ne].
Qed.

(** The piece reaches the page and the file. *)
Lemma write_piece c a d d' v L n e k bs x off piece : node_ok own d n → cache_inv c a v L → cores c !! e = Some k → has_key k (vn_inode n) x → 0 ≤ x →
  page_data c !! k_phys k = Some bs → length bs = 4096%nat → (∀ e' k', e' ≠ e → cores c !! e' = Some k' → entry_ok0 c d k') →
  (page_matches (file_of d (vn_inode n)) x bs ∨ off = 0 ∧ length piece = 4096%nat) →
  0 ≤ off → off + Z.of_nat (length piece) ≤ 4096 → 4096 * x + off ≤ vn_length n →
  file_of d' (vn_inode n) = splice (4096 * x + off) piece (file_of d (vn_inode n)) →
  (∀ i, i ≠ vn_inode n → file_of d' i = file_of d i) →
  errors d' = errors d → coherent0 (with_data (<[k_phys k := put_bytes off piece bs]>) c) d'.
Proof.
  intros Hn HI Hk [Hki Hkx] Hx Hbs Hl Hoth Hm Ho Hp Hlen Hf Hf' HE'. rewrite (no_length _ _ _ Hn) in Hlen.
  eapply coherent_fill; [exact HI|exact Hk|lia| |].
  - intros e' k' Hne Hk'. destruct (Hoth e' k' Hne Hk') as [Hx' Ha]. split; [done|]. intros HE. destruct Ha as (b' & Hb' & Hm'); [lia|]. exists b'. split; [done|].
    destruct (decide (k_inode k' = vn_inode n)) as [E|E]; [|by rewrite Hf']. rewrite E, Hf. rewrite E in Hm'. apply splice_other; try done; try lia.
    intros E2. apply Hne. eapply (ci_keys _ _ _ _ HI); [done|done|congruence|congruence].
  - intros _. rewrite Hki, Hkx, Hf. apply put_matches; (done || lia).
Qed.

(** [cnt] bytes of [buf] are in the file [f0] of inode [i0], and nothing else
    has changed below the cache. *)
Definition wrote (i0 : Z) (f0 : list Z) (offset : Z) (buf : list Z) (got : Z) n d (r : vfs_node * Z) (s' : state) : Prop :=
  let '(n', cnt) := r in ∃ c' a' d' v' L', s' = (c', (a', d')) ∧
    cache_inv c' a' v' L' ∧ coherent0 c' d' ∧ got ≤ cnt ≤ Z.of_nat (length buf) ∧ node_rd d' n' ∧ n' = set_length (vn_length n') n ∧
    file_of d' i0 = splice offset (take (Z.to_nat cnt) buf) f0 ∧ (∀ i, i ≠ i0 → file_of d' i = file_of d i) ∧
    (cnt = Z.of_nat (length buf) ∨ exhausted kmalloc c' v').

(** One round with the page at hand. *)
Lemma write_round i0 f0 offset buf c a d v L n got e k bs (g : vfs_node → M state (vfs_node * Z)) Q :
  let cur := offset + got in
  let chunk := Z.min (4096 - cur mod 4096) (Z.of_nat (length buf) - got) in
  let piece := take (Z.to_nat chunk) (drop (Z.to_nat got) buf) in
  0 ≤ offset ≤ Z.of_nat (length f0) → offset + Z.of_nat (length buf) < 2 ^ 63 → node_rd d n → m = offset + Z.of_nat (length buf) → vn_has_write n = true → vn_inode n = i0 →
  0 ≤ got < Z.of_nat (length buf) → file_of d i0 = splice offset (take (Z.to_nat got) buf) f0 →
  cache_inv c a v L → cores c !! e = Some k → has_key k i0 (cur / 4096) → page_data c !! k_phys k = Some bs → length bs = 4096%nat →
  (∀ e' k', e' ≠ e → cores c !! e' = Some k' → entry_ok0 c d k') →
  (page_matches (file_of d i0) (cur / 4096) bs ∨ cur mod 4096 = 0 ∧ chunk = 4096) →
  (∀ c' d' n', cache_inv c' a v L → coherent0 c' d' → node_rd d' n' → n' = set_length (vn_length n') n →
     cur + chunk ≤ vn_length n' → file_of d' i0 = splice offset (take (Z.to_nat (got + chunk)) buf) f0 →
     (∀ i, i ≠ i0 → file_of d' i = file_of d i) → wp (g n') (c', (a, d')) Q) →
  wp (pc (page_put (k_phys k) (cur mod 4096) piece);; pc (store e (set_dirty true));;
      n' ← (if vn_has_write n then r ← fs (fo_write n cur piece); mret r.2 else mret n); g n') (c, (a, d)) Q.
Proof.
  intros cur chunk piece Ho Hb (Hn & HE0 & Hready) Hend Hw Hi Hg Hf HI Hk Hkey Hbs Hbl Hoth Hm HQ. rewrite <-Hi in Hkey.
  assert (0 ≤ cur mod 4096 < 4096 ∧ cur = 4096 * (cur / 4096) + cur mod 4096 ∧ 0 ≤ cur / 4096) as (Hmod & Hdiv & Hx)
    by (unfold cur; Z.div_mod_to_equations; lia).
  assert (0 < chunk ≤ 4096 ∧ cur mod 4096 + chunk ≤ 4096 ∧ got + chunk ≤ Z.of_nat (length buf)) as Hchk by (unfold chunk; lia).
  assert (Z.of_nat (length piece) = chunk) as Hpl by (unfold piece; rewrite length_take, length_drop; lia).
  assert (length (take (Z.to_nat got) buf) = Z.to_nat got) as Htk by (rewrite length_take; lia).
  assert (vn_length n = Z.max (Z.of_nat (length f0)) cur) as Hlen.
  { rewrite (no_length _ _ _ Hn), Hi, Hf, splice_length, Htk by done. unfold cur. lia. }
  apply wp_bind, wp_pc. eapply wp_page_put; [exact Hbs|]. set (c1 := with_data _ c).
  assert (cache_inv c1 a v L) as HI1 by (apply cache_inv_data; [done|rewrite put_bytes_length; lia]).
  destruct (dirty_ok c1 a v L e HI1) as (c2 & HI2 & Hw2 & Hd2 & Hkid2); [by exists k|].
  apply wp_bind, wp_pc. eapply wp_mono; [exact Hw2|]. intros [] ? ->. rewrite Hw. apply wp_bind, wp_bind, wp_fs.
  eapply wp_mono; [apply fo_write_law; [apply Hn|apply Hn|done|eapply ready_le; [|exact Hready]; unfold cur; lia|intros E; rewrite E in Hpl; simpl in Hpl; lia|lia|lia]|].
  rewrite (no_own _ _ _ Hn), Hi. intros [ret n'] d' (Hok' & HE' & En' & Hs' & Hf' & Hoth' & Hrd'). cbn [snd] in *. apply wp_ret. rewrite Hf in Hf'.
  assert (splice cur piece (splice offset (take (Z.to_nat got) buf) f0) = splice offset (take (Z.to_nat (got + chunk)) buf) f0) as Hsp.
  { unfold cur. rewrite <-(Z2Nat.id got) at 1 by lia. rewrite <-Htk at 1. rewrite splice_splice by done. f_equal. unfold piece.
    rewrite Z2Nat.inj_add by lia. apply take_take_drop. }
  assert (∀ i, i ≠ i0 → file_of d' i = file_of d i) as Hfo by (intros i Hne; apply Hoth'; congruence).
  assert (Z.of_nat (length (file_of d' i0)) = Z.max (Z.of_nat (length f0)) (cur + chunk)) as Hl'.
  { rewrite Hf', Hsp, splice_length, length_take by done. unfold cur. lia. }
  apply HQ; [done| | |rewrite En'; by destruct n|rewrite En'; cbn; lia|congruence|done].
  - assert (coherent0 c1 d') as Hc1.
    { eapply (write_piece c a d d' v L n e k bs (cur / 4096) (cur mod 4096) piece); try done; rewrite ?Hi; try lia.
      - destruct Hm as [?|[? ?]]; [by left|right; lia].
      - rewrite <-Hdiv, Hf, Hf', Hsp. done.
      - done. }
    intros x kx Hkx. specialize (Hkid2 x). rewrite Hkx in Hkid2. destruct (cores c1 !! x) as [k1|] eqn:E1; [|done].
    eapply (entry_ok_kid own E0 c1); [|done|by eapply Hc1]. simpl in Hkid2. congruence.
  - split_and!; [|congruence|by apply Hrd']. split; [by rewrite En'; apply Hn|by rewrite En'; apply Hn|done|done|]. pose proof (no_range _ _ _ Hn). rewrite En'. cbn. lia.
Qed.

Lemma pc_write_loop_spec i0 f0 offset buf : 0 ≤ offset ≤ Z.of_nat (length f0) → offset + Z.of_nat (length buf) < 2 ^ 63 → m = offset + Z.of_nat (length buf) → ∀ fuel c a d v L n got,
  node_rd d n → vn_has_write n = true → vn_inode n = i0 → cache_inv c a v L → coherent0 c d → 0 ≤ got ≤ Z.of_nat (length buf) →
  file_of d i0 = splice offset (take (Z.to_nat got) buf) f0 → (got = Z.of_nat (length buf) ∨ write_start c n (offset + got)) →
  enough fuel offset (Z.of_nat (length buf)) got →
  wp (write_loop kmalloc fuel n offset got (drop (Z.to_nat got) buf)) (c, (a, d)) (wrote i0 f0 offset buf got n d).
Proof.
  intros Ho Hb Hend. induction fuel as [|fuel IH]; intros c a d v L n got Hn Hw Hi HI Hc Hg Hf Hst Hfu; [unfold enough in Hfu; Z.div_mod_to_equations; lia|].
  cbn [write_loop]. assert (length (drop (Z.to_nat got) buf) = (length buf - Z.to_nat got)%nat) as Hdl by apply length_drop.
  destruct (decide (got = Z.of_nat (length buf))) as [Hall|Hmore].
  { destruct (drop (Z.to_nat got) buf); [|simpl in Hdl; lia]. apply wp_ret. exists c, a, d, v, L.
    split_and!; try done; try lia. by destruct n. }
  destruct Hst as [?|Hst]; [done|]. rewrite (wrap_small 64) by lia. rewrite Hdl. unfold PAGE_SIZE.
  replace (Z.of_nat (length buf - Z.to_nat got)) with (Z.of_nat (length buf) - got) by lia.
  set (chunk := Z.min (4096 - (offset + got) mod 4096) (Z.of_nat (length buf) - got)).
  assert (0 < chunk ∧ got + chunk ≤ Z.of_nat (length buf)) as Hchk by (unfold chunk; Z.div_mod_to_equations; lia).
  destruct (drop (Z.to_nat got) buf) as [|y rest] eqn:Erest; [simpl in Hdl; lia|]. rewrite <-Erest.
  apply wp_bind. eapply wp_mono; [by apply (get_page_for_write_spec c a d v L n (offset + got) chunk)|].
  intros [e|] s' (c1 & a1 & d1 & v1 & L1 & -> & HI1 & E1 & Hrd1 & Hdk1 & Hr); pose proof (λ i, dk_files _ _ _ Hdk1 (own i) i) as Hf1.
  2:{ destruct Hr as [Hc1 Hex]. apply wp_ret. exists c1, a1, d1, v1, L1. split_and!; try done; try lia; [by destruct n|by rewrite Hf1|by right]. }
  destruct Hr as (k & bs & Hk & Hkey & Hbs & Hbl & Hoth & Hm). destruct (cores_lookup _ _ _ Hk) as (en & He & Hen).
  apply wp_bind, wp_pc. eapply pc_wp_load; [exact He|]. replace (pe_phys_addr en) with (k_phys k) by by rewrite <-Hen.
  rewrite <-Hi in *. eapply (write_round (vn_inode n) f0 offset buf c1 a1 d1 v1 L1 n got e k bs); try done; [lia|by rewrite Hf1|by rewrite Hf1|].
  intros c' d' n' HI' Hc' Hn' En' Hlen' Hf' Hfo. rewrite drop_drop.
  replace (Z.to_nat got + Z.to_nat chunk)%nat with (Z.to_nat (got + chunk)) by lia.
  assert (vn_inode n' = vn_inode n) as Ein by (by rewrite En').
  eapply wp_mono; [apply (IH c' a1 d' v1 L1 n' (got + chunk)); try done; [by rewrite En'|lia| |]|].
  - destruct (decide (got + chunk = Z.of_nat (length buf))); [by left|right]. split; [fold chunk in Hlen'; lia|]. right. left.
    unfold chunk in *. Z.div_mod_to_equations. lia.
  - apply (enough_step fuel offset (Z.of_nat (length buf)) got); [lia|lia|done].
  - intros [n2 cnt] s' (c2 & a2 & d2 & v2 & L2 & -> & ? & ? & ? & ? & E2 & ? & Hfo2 & ?). exists c2, a2, d2, v2, L2.
    split_and!; try done; try lia; [by rewrite E2, En'|]. intros i Hne. by rewrite Hfo2, Hfo, Hf1.
Qed.

Lemma page_cache_write_spec c a d v L n offset buf : node_rd d n → m = offset + Z.of_nat (length buf) → vn_has_write n = true → cache_inv c a v L → coherent0 c d →
  write_start c n offset → buf ≠ [] → offset + Z.of_nat (length buf) < 2 ^ 63 →
  wp (page_cache_write kmalloc n offset buf) (c, (a, d)) (λ r s', 0 ≤ r.2 ∧ wrote (vn_inode n) (file_of d (vn_inode n)) offset buf 0 n d r s').
Proof.
  intros Hrd Hend Hw HI Hc Hst Hne Hb. pose proof Hrd as (Hn & _ & _). unfold page_cache_write. destruct (Z.eqb_spec (Z.of_nat (length buf)) 0) as [E|_]; [by destruct buf|].
  pose proof Hst as [Ho _]. rewrite (no_length _ _ _ Hn) in Ho. apply wp_bind.
  eapply wp_mono; [apply (pc_write_loop_spec (vn_inode n) (file_of d (vn_inode n)) offset buf Ho Hb Hend (loop_rounds (Z.of_nat (length buf))) c a d v L n 0);
    try done; [lia|cbn [take Z.to_nat]; by rewrite splice_nil|right; by rewrite Z.add_0_r|apply enough_start; lia]|].
  intros [n' cnt] s' (c' & a' & d' & v' & L' & -> & HI' & Hc' & Hcnt & Hn' & En' & Hf & Hfo & Hor). apply wp_ret.
  assert (offset + cnt ≤ vn_length n') as Hlen.
  { rewrite (no_length _ _ _ (proj1 Hn')). replace (vn_inode n') with (vn_inode n) by by rewrite En'. rewrite Hf, splice_length, length_take by done. lia. }
  rewrite wrap_small by lia. destruct (Z.ltb_spec (vn_length n') (offset + cnt)); [lia|]. cbn [snd]. split; [lia|]. exists c', a', d', v', L'. split_and!; (done || lia).
Qed.

End Write.

(** C10. [page_cache_write] reaches the file.  A write inside the file, at a
    page boundary or into a cached page, for which the driver below has memory
    and room ([ready]), makes none of the driver's calls fail, writes the
    returned number of bytes of the buffer over the file (all of them unless
    memory runs out), changes no other file, and leaves the cache in agreement
    with all files.  The condition on the driver is needed: the cache ignores
    the results of its calls. *)
Theorem page_cache_write_correct {A D : Type} `{PageLaws A} `{FileLaws D} (kmalloc : gmap Z page_cache_entry → option Z) (own : Z → Z)
    c (a : A) (d : D) v L n offset buf :
  (∀ m e, kmalloc m = Some e → m !! e = None) → node_ok own d n → vn_has_write n = true → ready d n (offset + Z.of_nat (length buf)) →
  cache_inv c a v L → coherent own c d → write_start c n offset → buf ≠ [] → offset + Z.of_nat (length buf) < 2 ^ 63 →
  wp (page_cache_write kmalloc n offset buf) (c, (a, d)) (λ '(n', cnt) s', ∃ c' a' d' v' L', s' = (c', (a', d')) ∧
    cache_inv c' a' v' L' ∧ coherent own c' d' ∧ errors d' = errors d ∧ 0 ≤ cnt ≤ Z.of_nat (length buf) ∧ node_ok own d' n' ∧
    file d' (vn_ops n) (vn_inode n) = splice offset (take (Z.to_nat cnt) buf) (file d (vn_ops n) (vn_inode n)) ∧
    (∀ i, i ≠ vn_inode n → file d' (own i) i = file d (own i) i) ∧
    (cnt = Z.of_nat (length buf) ∨ pv_free v' = ∅ ∨ kmalloc (entries c') = None)).
Proof.
  intros Hf Hn Hw Hr HI Hc Hst Hne Hb.
  eapply wp_mono; [apply (page_cache_write_spec kmalloc Hf own (errors d) (offset + Z.of_nat (length buf)) c a d v L n offset buf);
    [by split|done|done|done|by apply coherent_start|done..]|].
  intros [n' cnt] s' (_ & c' & a' & d' & v' & L' & -> & HI' & Hc' & Hcnt & (Hn' & HE & _) & _ & Hfl & Ho & Hor). exists c', a', d', v', L'.
  rewrite (no_own _ _ _ Hn). split_and!; try done; try lia. apply (coherent_end own (errors d)); [done|lia].
Qed.

(** ** Appending in the middle of a page *)

Lemma loop_rounds_S m : 0 ≤ m → ∃ k, loop_rounds m = S (S k).
Proof. intros Hm. exists (Z.to_nat (m / 4096 + 1)). unfold loop_rounds, PAGE_SIZE. pose proof (Z.div_pos m 4096). lia. Qed.

Section Append.
  Context {A D : Type} `{PageLaws A} `{FileLaws D}.
  Context (kmalloc : gmap Z page_cache_entry → option Z).
  Hypothesis kmalloc_fresh : ∀ m e, kmalloc m = Some e → m !! e = None.
  Context (own : Z → Z).
  Implicit Types (c : pcache) (a : A) (d : D) (v : pview) (L : list Z) (e : Z) (n : vfs_node).

Abbreviation file_of d i := (file d (own i) i).

(** With a page and an entry to be had and room in the cache, allocation
    succeeds. *)
Lemma allocate_ok c a d v L i x e : cache_inv c a v L → (∀ e' k, cores c !! e' = Some k → ¬ has_key k i x) →
  (length L < 2048)%nat → pv_free v ≠ ∅ → kmalloc (entries c) = Some e →
  wp (page_cache_allocate kmalloc i x) (c, (a, d)) (λ r s', r = Some e ∧ ∃ c' a' v' k, s' = (c', (a', d)) ∧ cache_inv c' a' v' (e :: L) ∧
    cores c' !! e = Some k ∧ has_key k i x).
Proof.
  intros HI Hkey Hlen Hfree Hk. unfold page_cache_allocate. apply wp_bind, wp_pc, wp_gets. rewrite (ci_count _ _ _ _ HI).
  unfold PAGE_CACHE_MAX_PAGES. destruct (Z.leb_spec 2048 (Z.of_nat (length L))); [lia|]. apply wp_bind, wp_ret, wp_bind, wp_pmm.
  eapply wp_mono; [apply alloc_page_law; [apply HI|done]|]. intros ph a2 (He2 & Hin & Hr2).
  destruct (free_range _ _ _ (ci_pages _ _ _ _ HI) Hin) as (? & _ & _). destruct (Z.eqb_spec ph 0); [lia|].
  apply wp_bind, wp_pc, wp_gets. rewrite Hk.
  assert (∀ e' k, cores c !! e' = Some k → k_phys k ≠ ph) as Hnew.
  { intros e' k Hk' <-. eapply (held_not_free a v); [apply HI|by eapply (ci_held _ _ _ _ HI)|done]. }
  assert (cache_inv c a2 (mk_view (pv_free v ∖ {[ph]}) (<[ph := 0%nat]> (pv_held v))) L) as HI2.
  { eapply cache_inv_pages; [done|done|done|]. intros e' k Hk'. cbn [pv_held]. rewrite lookup_insert_ne; [by eapply (ci_held _ _ _ _ HI)|].
    intros E. by apply (Hnew _ _ Hk'). }
  pose proof (enter_spec _ _ _ _ e i x ph HI2 Hlen (kmalloc_fresh _ _ Hk) Hkey Hnew (lookup_insert_eq _ _ _)) as Hw. cbv zeta in Hw.
  do 4 (apply wp_bind, wp_pc; apply wp_unbind in Hw; eapply wp_mono; [exact Hw|]; clear Hw; intros ? ? Hw; cbv beta in Hw).
  apply wp_bind, wp_pc. eapply wp_mono; [exact Hw|]. clear Hw. intros [] c' (HI' & _ & h & Hc'). apply wp_ret. split; [done|].
  eexists c', a2, _, _. split_and!; [done|exact HI'|by rewrite Hc', lookup_insert_eq|done].
Qed.

(** A read inside one cached page returns the bytes of that page. *)
Lemma read_hit c a d v L n e k x size bs : cache_inv c a v L → cores c !! e = Some k → has_key k (vn_inode n) x → page_data c !! k_phys k = Some bs →
  length bs = 4096%nat → 0 ≤ x → 0 < size ≤ 4096 → 4096 * x + size ≤ vn_length n < 2 ^ 63 →
  wp (page_cache_read kmalloc n (4096 * x) size) (c, (a, d)) (λ data s', data = take (Z.to_nat size) bs ∧ s'.2.2 = d).
Proof.
  intros HI Hk Hkey Hbs Hbl Hx Hs Hl. unfold page_cache_read.
  destruct (Z.leb_spec (vn_length n) (4096 * x)); [lia|]. destruct (Z.eqb_spec size 0); [lia|]. cbn [orb].
  rewrite (wrap_small 64 (4096 * x + size)) by lia. destruct (Z.ltb_spec (vn_length n) (4096 * x + size)); [lia|].
  apply wp_bind, wp_pc. apply (wp_mono _ _ (λ _ c', cache_inv c' a v L ∧ cores c' = cores c ∧ page_data c' = page_data c)).
  { unfold page_cache_seq_observe. apply wp_bind, wp_gets. destruct HI as [[] ? ? ? ? ? ? ? ?].
    destruct (seq_find 0 (seq_table c) (vn_inode n)) as [j|] eqn:E; [|apply wp_bind, wp_gets, wp_bind, wp_modify, wp_bind, wp_modify, wp_ret; by split].
    destruct (seq_find_lookup _ _ _ _ E) as (t & Ht & _). rewrite Nat.sub_0_r in Ht. apply wp_bind.
    eapply (wp_deref (λ c, seq_table c !! j)); [exact Ht|]. apply wp_bind, wp_modify, wp_bind, wp_modify, wp_ret. by split. }
  intros sq c1 (HI1 & Hc1 & Hd1). destruct (loop_rounds_S size) as [r ->]; [lia|]. apply wp_bind. cbn [read_loop length].
  destruct (Z.leb_spec size (Z.of_nat 0)); [lia|]. rewrite (wrap_small 64) by lia. rewrite Z.add_0_r, Z.sub_0_r. unfold PAGE_SIZE.
  rewrite (Z.mul_comm 4096 x), Z.div_mul, Z.mod_mul, Z.sub_0_r by lia. rewrite Z.min_r by lia.
  apply wp_bind. unfold get_page. apply wp_bind, wp_pc. eapply wp_mono; [apply page_cache_lookup_spec; apply HI1|].
  intros [e'|] c2 [Hrest Hr]; [|destruct Hr as [_ Hno]; rewrite Hc1 in Hno; by destruct (Hno _ _ Hk)].
  destruct Hr as (k' & l1 & l2 & HL & Hk' & Hkey' & Hc2 & _). apply wp_ret.
  assert (e' = e) as -> by (destruct Hkey, Hkey'; eapply (ci_keys _ _ _ _ HI1); [done|by rewrite Hc1|congruence|congruence]).
  rewrite Hc1, Hk in Hk'. injection Hk' as <-.
  assert (cores c2 !! e = Some (core_ref true k)) as Hk2 by (by rewrite Hc2, lookup_insert_eq).
  destruct (cores_lookup _ _ _ Hk2) as (en & He & Hen). apply wp_bind, wp_pc. eapply pc_wp_load; [exact He|].
  assert (pe_phys_addr en = k_phys k) as -> by (change (k_phys (core_of en) = k_phys k); by rewrite Hen).
  destruct Hrest as (_ & _ & _ & _ & Hd2). apply wp_bind, wp_pc.
  eapply (wp_deref (λ c, page_data c !! _)); [rewrite Hd2, Hd1; exact Hbs|]. cbn [app read_loop].
  rewrite length_take, drop_0, Hbl. destruct (Z.leb_spec size (Z.of_nat (Z.to_nat size `min` 4096))); [|lia]. apply wp_ret, wp_bind, wp_pc, seq_anchor_spec.
  - by apply wp_ret.
  - intros f. by apply wp_ret.
Qed.

(** The append goes to a fresh page of zeros. *)
Lemma append_page c a d v L n buf e : node_ok own d n → vn_has_write n = true → cache_inv c a v L →
  let x := vn_length n / 4096 in let off := vn_length n mod 4096 in
  off ≠ 0 → ¬ is_cached c (vn_inode n) x → (length L < 2048)%nat → pv_free v ≠ ∅ → kmalloc (entries c) = Some e →
  0 < Z.of_nat (length buf) ≤ 4096 - off → ready d n (vn_length n + Z.of_nat (length buf)) → vn_length n + 4096 < 2 ^ 63 →
  wp (page_cache_write kmalloc n (vn_length n) buf) (c, (a, d)) (λ '(n', cnt) s', cnt = Z.of_nat (length buf) ∧ ∃ c' a' d' v' L' k bs,
    s' = (c', (a', d')) ∧ cache_inv c' a' v' L' ∧ cores c' !! e = Some k ∧ has_key k (vn_inode n') x ∧ vn_inode n' = vn_inode n ∧
    page_data c' !! k_phys k = Some bs ∧ length bs = 4096%nat ∧ take (Z.to_nat off) bs = replicate (Z.to_nat off) 0 ∧
    file_of d' (vn_inode n) = file_of d (vn_inode n) ++ buf ∧ vn_length n' = vn_length n + Z.of_nat (length buf)).
Proof.
  intros Hn Hw HI x off Hoff Hnc Hlen Hfree Hk Hb Hrd Hmax. set (ln := vn_length n) in *.
  assert (ln = Z.of_nat (length (file_of d (vn_inode n)))) as Hl by apply (no_length _ _ _ Hn).
  assert (0 ≤ off < 4096 ∧ ln = 4096 * x + off ∧ 0 ≤ x) as (Ho & Hdiv & Hx) by (unfold off, x; Z.div_mod_to_equations; lia).
  unfold page_cache_write. destruct (Z.eqb_spec (Z.of_nat (length buf)) 0); [lia|]. apply wp_bind.
  destruct (loop_rounds_S (Z.of_nat (length buf))) as [r ->]; [lia|]. cbn [write_loop]. destruct buf as [|y buf']; [done|]. set (buf := y :: buf') in *.
  rewrite Z.add_0_r, (wrap_small 64) by lia. unfold PAGE_SIZE. fold off. rewrite Z.min_r by lia. rewrite Nat2Z.id.
  apply wp_bind. unfold get_page_for_write, PAGE_SIZE. fold x off. apply wp_bind, wp_pc. eapply wp_mono; [apply page_cache_lookup_spec; apply HI|].
  intros [e'|] c1 [Hrest Hr]; [destruct Hr as (k' & _ & _ & _ & Hk' & Hkey' & _); destruct Hnc; by exists e', k'|]. destruct Hr as [-> Hnone].
  apply wp_bind. eapply wp_mono; [by eapply allocate_ok|]. intros ? s' (-> & c2 & a2 & v2 & k & -> & HI2 & Hk2 & Hkey).
  destruct (cores_lookup _ _ _ Hk2) as (en & He & Hen). apply wp_bind, wp_pc. eapply pc_wp_load; [exact He|].
  assert (pe_phys_addr en = k_phys k) as -> by by rewrite <-Hen. destruct (Z.eqb_spec off 0); [done|]. cbn [negb orb].
  destruct (Z.ltb_spec ln (vn_length n)); [unfold ln in *; lia|]. cbn [andb]. destruct (entry_data _ _ _ _ _ _ HI2 Hk2) as (old & Hold & Hol).
  apply wp_bind, wp_pc. eapply wp_page_put; [exact Hold|]. set (z := put_bytes 0 (replicate 4096 0) old).
  assert (length z = 4096%nat) as Hz by (unfold z; rewrite put_bytes_length; rewrite ?length_replicate; lia).
  apply wp_ret. set (c3 := with_data _ c2). assert (cache_inv c3 a2 v2 (e :: L)) as HI3 by (by apply cache_inv_data).
  apply wp_bind, wp_pc. eapply (pc_wp_load _ c3); [exact He|]. assert (pe_phys_addr en = k_phys k) as -> by by rewrite <-Hen.
  rewrite (take_ge buf (length buf)) by lia. apply wp_bind, wp_pc. eapply wp_page_put; [cbn; apply lookup_insert_eq|]. set (c4 := with_data _ c3).
  assert (cache_inv c4 a2 v2 (e :: L)) as HI4 by (apply cache_inv_data; [done|rewrite put_bytes_length; lia]).
  destruct (dirty_ok c4 a2 v2 (e :: L) e HI4) as (c5 & HI5 & Hw5 & Hd5 & Hkid5); [by exists k|].
  apply wp_bind, wp_pc. eapply wp_mono; [exact Hw5|]. intros [] ? ->. rewrite Hw. apply wp_bind, wp_bind, wp_fs.
  eapply wp_mono; [apply fo_write_law; [apply Hn|apply Hn|done|done|done|lia|lia]|]. rewrite (no_own _ _ _ Hn).
  intros [ret n'] d' (_ & _ & En' & Hs' & Hf' & _ & _). cbn [snd] in *. subst n'. apply wp_ret. rewrite (drop_ge buf (length buf)) by lia. cbn [write_loop]. apply wp_ret, wp_ret.
  assert (file_of d' (vn_inode n) = file_of d (vn_inode n) ++ buf) as Hfile.
  { rewrite Hf'. unfold splice. rewrite take_ge, drop_ge, app_nil_r by lia. done. }
  assert (Z.of_nat (length (file_of d' (vn_inode n))) = ln + Z.of_nat (length buf)) as Hlf by (rewrite Hfile, length_app; lia).
  rewrite Z.add_0_l, wrap_small by lia. cbn [vn_length set_length]. rewrite Z.max_r by lia.
  destruct (Z.ltb_spec (ln + Z.of_nat (length buf)) (ln + Z.of_nat (length buf))); [lia|]. split; [done|].
  specialize (Hkid5 e). change (cores c4) with (cores c2) in Hkid5. rewrite Hk2 in Hkid5.
  destruct (cores c5 !! e) as [k5|] eqn:E5; [|done]. assert (kid k5 = kid k) as Hkid by (simpl in Hkid5; congruence).
  unfold kid in Hkid. injection Hkid as Hk5i Hk5x Hk5p. destruct Hkey as [Hki Hkx].
  eexists c5, a2, d', v2, _, k5, _. split_and!; [done|exact HI5|done|split; cbn; congruence|done| | | |done|done].
  - rewrite Hd5, Hk5p. cbn. apply lookup_insert_eq.
  - rewrite put_bytes_length; lia.
  - apply list_eq. intros j. destruct (decide (j < Z.to_nat off)%nat) as [Hj|Hj].
    + rewrite lookup_take_lt, put_bytes_lookup, decide_False by lia. unfold z. rewrite put_bytes_lookup, length_replicate, decide_True by (rewrite ?length_replicate; lia).
      rewrite Nat.sub_0_r, !lookup_replicate_2 by lia. done.
    + rewrite lookup_take_ge by lia. symmetry. apply lookup_ge_None_2. rewrite length_replicate. lia.
Qed.

(** Appending to a file that does not end on a page boundary, while its
    last page is not cached, hides what that page held: the write succeeds
    and the file is extended correctly, but a read of the bytes in front of
    the appended ones, from the start of the page, now returns zeros. *)
Lemma page_cache_append_hides c a d v L n buf e : node_ok own d n → vn_has_write n = true → cache_inv c a v L →
  let x := vn_length n / 4096 in let off := vn_length n mod 4096 in
  off ≠ 0 → ¬ is_cached c (vn_inode n) x → (length L < 2048)%nat → pv_free v ≠ ∅ → kmalloc (entries c) = Some e →
  0 < Z.of_nat (length buf) ≤ 4096 - off → ready d n (vn_length n + Z.of_nat (length buf)) → vn_length n + 4096 < 2 ^ 63 →
  wp ('(n', cnt) ← page_cache_write kmalloc n (vn_length n) buf; page_cache_read kmalloc n' (4096 * x) off) (c, (a, d)) (λ data s',
    data = replicate (Z.to_nat off) 0 ∧ file_of s'.2.2 (vn_inode n) = file_of d (vn_inode n) ++ buf).
Proof.
  intros Hn Hw HI x off Hoff Hnc Hlen Hfree Hk Hb Hrd Hmax. apply wp_bind. eapply wp_mono; [by apply (append_page c a d v L n buf e)|].
  fold x off. intros [n' cnt] s' (_ & c' & a' & d' & v' & L' & k & bs & -> & HI' & Hk' & Hkey & _ & Hbs & Hbl & Htk & Hf & Hln).
  assert (0 ≤ off < 4096 ∧ vn_length n = 4096 * x + off) as (? & ?) by (unfold off, x; Z.div_mod_to_equations; lia).
  assert (0 ≤ x) by (rewrite (no_length _ _ _ Hn) in *; lia).
  eapply wp_mono; [eapply (read_hit c' a' d' v' L' n' e k x off bs); [done|done|done|done|done|done|lia|lia]|].
  intros data s' [-> ->]. done.
Qed.

(** Pages are looked up by inode number alone: reading any other node
    with the same inode number, of whatever driver, returns the bytes of the
    file that was cached first. *)
Lemma page_cache_aliases c a d v L n1 n2 x size : node_ok own d n1 → cache_inv c a v L → coherent own c d →
  is_cached c (vn_inode n1) x → vn_inode n2 = vn_inode n1 → 0 ≤ x → 0 < size ≤ 4096 →
  4096 * x + size ≤ vn_length n1 → 4096 * x + size ≤ vn_length n2 < 2 ^ 63 →
  wp (page_cache_read kmalloc n2 (4096 * x) size) (c, (a, d)) (λ data _,
    data = take (Z.to_nat size) (drop (Z.to_nat (4096 * x)) (file d (vn_ops n1) (vn_inode n1)))).
Proof.
  intros Hn HI Hc (e & k & Hk & [Hki Hkx]) Hi Hx Hs Hl1 Hl2. destruct (Hc _ _ Hk) as [_ (bs & Hbs & Hm)].
  eapply wp_mono; [eapply (read_hit c a d v L n2 e k x size bs); try done; [split; congruence|apply Hm]|].
  intros data s' [-> _]. rewrite Hki, Hkx in Hm. rewrite (no_own _ _ _ Hn). rewrite (no_length _ _ _ Hn) in Hl1.
  pose proof (chunk_of_page _ _ _ 0 size Hm Hx ltac:(lia) ltac:(lia) ltac:(lia) ltac:(lia)) as E. by rewrite drop_0, Z.add_0_r in E.
Qed.

End Append.

Import MemDisk.

Lemma demo_not_cached c i x : cores c = ∅ → ¬ is_cached c i x.
Proof. intros Hc (e & k & Hk & _). by rewrite Hc, lookup_empty in Hk. Qed.

Lemma demo_free_ne : PmmPages.demo_free ≠ ∅.
Proof.
  intros E. assert (2 * 4096 ∈ PmmPages.demo_free) as Hin by (apply PmmPages.elem_of_demo_free; exists 2; split; [done|lia]).
  rewrite E in Hin. by apply elem_of_empty in Hin.
Qed.

Lemma page_cache_append_hides_witness : ∃ c (a : Pmm.Pmm.pmm * unit),
  wp ('(n', cnt) ← page_cache_write new_address demo_node 5000 [1; 2; 3]; page_cache_read new_address n' (4096 * 1) 904) (c, (a, demo_disk)) (λ data s',
    data = replicate 904 0 ∧ contents s'.2.2 1 5 = demo_file ++ [1; 2; 3]).
Proof.
  destruct demo_cache as (c & a & HI & Hc & Hemp). exists c, a.
  destruct (new_address (entries c)) as [e|] eqn:Ee; [|done].
  apply (page_cache_append_hides new_address new_address_fresh (λ _, 1) c a demo_disk _ [] demo_node [1; 2; 3] e demo_node_ok eq_refl HI);
    [done|by apply demo_not_cached|cbn; lia|exact demo_free_ne|exact Ee|by vm_compute|done|done].
Defined.

(** A cache that holds the first page of the file. *)
Lemma demo_warm : ∃ c (a : Pmm.Pmm.pmm * unit) v L, cache_inv c a v L ∧ coherent (λ _, 1) c demo_disk ∧ is_cached c 5 0.
Proof.
  destruct demo_cache as (c & a & HI & Hc & Hemp). destruct (new_address (entries c)) as [e|] eqn:Ee; [|done].
  assert (∀ e' k, cores c !! e' = Some k → ¬ has_key k 5 0) as Hno by (intros e' k; by rewrite Hemp, lookup_empty).
  pose proof (allocate_ok new_address new_address_fresh c a demo_disk _ [] 5 0 e HI Hno ltac:(cbn; lia) demo_free_ne Ee) as Hw.
  apply wp_run in Hw as (r & s & _ & -> & c1 & a1 & v1 & k & -> & HI1 & Hk & Hkey).
  assert (∀ e' k', e' ≠ e → cores c1 !! e' = Some k' → entry_ok (λ _, 1) 0 c1 demo_disk k') as Hoth.
  { intros e' k' Hne Hk'. assert (e' ∈ [e]) as ?%list_elem_of_singleton; [|done]. apply (lo_all _ _ (ci_lru _ _ _ _ HI1)), cores_is_Some. by exists k'. }
  assert (wp (pc (page_zero (k_phys k));; read_page demo_node 0 (k_phys k)) (c1, (a1, demo_disk)) (λ _ s',
    ∃ c', cache_inv c' a1 v1 [e] ∧ coherent (λ _, 1) c' demo_disk ∧ cores c' = cores c1)) as Hf.
  { eapply (fill_spec (λ _, 1) 0); [split; [exact demo_node_ok|done]|exact HI1|exact Hk|exact Hkey|lia|cbn; lia|exact Hoth|].
    intros c' d' ? Hc' ? Hd _. exists c'. split_and!; [done| |done].
    apply (coherent_end (λ _, 1) 0); [|done]. intros y ky Hy. destruct (Hc' y ky Hy) as [? Ha]. split; [done|]. intros HE. destruct (Ha HE) as (bs & ? & Hm).
    exists bs. split; [done|]. by rewrite <-(dk_files _ _ _ Hd). }
  apply wp_run in Hf as (_ & _ & _ & c' & HI' & Hc' & Hcores). exists c', a1, v1, [e]. split_and!; [done|done|]. exists e, k. by rewrite Hcores.
Qed.

Lemma page_cache_aliases_witness : ∃ c (a : Pmm.Pmm.pmm * unit),
  wp (page_cache_read new_address (mk_vnode 2 5 300 true true) (4096 * 0) 100) (c, (a, demo_disk)) (λ data _,
    data = take (Z.to_nat 100) (drop (Z.to_nat (4096 * 0)) (contents demo_disk 1 5))).
Proof.
  destruct demo_warm as (c & a & v & L & HI & Hc & Hin). exists c, a.
  apply (page_cache_aliases new_address (λ _, 1) c a demo_disk v L demo_node (mk_vnode 2 5 300 true true) 0 100 demo_node_ok HI Hc Hin);
    [done|lia|lia|cbn; lia|cbn; lia].
Defined.

End PageCacheWrite.
