(* ===== verification/Kheap.v ===== *)
(** * The kernel heap as its clients see it

    File systems keep their data in blocks from [kmalloc].  [KHeap] holds the
    calls and the accesses inside blocks, [KHeapLaws] what they promise: a map
    from block addresses to byte strings.  The slab heap of [Heap] is an
    instance, and so is the map itself. *)
From S2P Require Import Prelude Pmm Pages CString CStringSpec Heap HeapSpec HeapAlloc HeapTheorems.
Import CStringSpec HeapSpec HeapTheorems.

Class KHeap (H : Type) := kh_run : hop → M H Z.

Class KHeapLaws (H : Type) `{KHeap H} := {
  kh_rel : H → gmap Z (list Z) → Prop;
  kh_sim h C o : kh_rel h C → op_ok C o → wp (kh_run o) h (λ r h', ∃ C', abs_step C o r C' ∧ kh_rel h' C');
}.

#[export] Instance slab_heap {A} `{PageOps A} (hhdm : Z) : KHeap (Heap.heap * A) := run_op hhdm.

#[export] Program Instance slab_heap_laws {A} `{PageLaws A} (hhdm : Z) : @KHeapLaws (Heap.heap * A) (slab_heap hhdm) := {|
  kh_rel := heap_rel hhdm;
|}.
Next Obligation. intros A O L hhdm h C o Hr Ho. by apply op_sim. Qed.

Module Kheap.

Section Ops.
  Context {H : Type} `{KHeap H}.

Definition kmalloc (n : Z) : M H Z := kh_run (Malloc n).
Definition kzalloc (n : Z) : M H Z := kh_run (Zalloc n).
Definition kfree (p : Z) : M H unit := kh_run (Free p);; mret tt.
Definition krealloc (p n : Z) : M H Z := kh_run (Realloc p n).

(** [memcpy] out of a block and into one, [n] bytes from offset [k]. *)
Fixpoint copy_from (p k : Z) (n : nat) : M H (list Z) :=
  match n with
  | O => mret []
  | S n' => y ← kh_run (Load p k); l ← copy_from p (k + 1) n'; mret (y :: l)
  end.

Fixpoint copy_to (p k : Z) (l : list Z) : M H unit :=
  match l with
  | [] => mret tt
  | y :: l' => kh_run (Store p k y);; copy_to p (k + 1) l'
  end.

End Ops.

Section Laws.
  Context {H : Type} `{KHeapLaws H}.
  Implicit Types (h : H) (C : gmap Z (list Z)) (p q k : Z) (l : list Z).

Lemma wp_kh_malloc h C n (Q : Z → H → Prop) : kh_rel h C → size_ok n →
  (∀ h', kh_rel h' C → Q 0 h') →
  (∀ p l h', new_block C p n → Z.of_nat (length l) = n → kh_rel h' (<[p := l]> C) → Q p h') → wp (kmalloc n) h Q.
Proof.
  intros Hr Hn Hnull Hnew. eapply wp_mono; [by apply (kh_sim h C)|]. intros r h' (C' & Hs & Hr'). inversion Hs; subst; eauto.
Qed.

Lemma wp_kzalloc h C n (Q : Z → H → Prop) : kh_rel h C → size_ok n →
  (∀ h', kh_rel h' C → Q 0 h') →
  (∀ p h', new_block C p n → kh_rel h' (<[p := replicate (Z.to_nat n) 0]> C) → Q p h') → wp (kzalloc n) h Q.
Proof.
  intros Hr Hn Hnull Hnew. eapply wp_mono; [by apply (kh_sim h C)|]. intros r h' (C' & Hs & Hr'). inversion Hs; subst; eauto.
Qed.

Lemma wp_kfree h C p (Q : unit → H → Prop) : kh_rel h C → p ≠ 0 → is_Some (C !! p) →
  (∀ h', kh_rel h' (delete p C) → Q tt h') → wp (kfree p) h Q.
Proof.
  intros Hr Hp HC HQ. apply wp_bind. eapply wp_mono; [apply (kh_sim h C (Free p)); [done|by right]|].
  intros r h' (C' & Hs & Hr'). apply wp_ret. inversion Hs; subst; [done|eauto].
Qed.

(** Growing a block, or making one when there is none. *)
Lemma wp_krealloc h C p l n (Q : Z → H → Prop) : kh_rel h C → size_ok n → 0 < n →
  (p = 0 ∧ l = [] ∨ p ≠ 0 ∧ C !! p = Some l) → Z.of_nat (length l) ≤ n →
  (∀ h', kh_rel h' C → Q 0 h') →
  (∀ q g h', new_block C q n → Z.of_nat (length g) = n - Z.of_nat (length l) → kh_rel h' (<[q := l ++ g]> (if p =? 0 then C else delete p C)) → Q q h') →
  wp (krealloc p n) h Q.
Proof.
  intros Hr Hn Hpos Hp Hl Hnull Hnew. eapply wp_mono; [apply (kh_sim h C (Realloc p n)); [done|split; [done|naive_solver]]|].
  intros r h' (C' & Hs & Hr'). destruct Hp as [[-> ->]|[Hp0 Hpl]].
  - inversion Hs as [| | | | | |? ? ? Hm| | | | |]; subst; [|done..]. inversion Hm; subst; [by apply Hnull|].
    eapply (Hnew _ l); [done|simpl; lia|done].
  - destruct (Z.eqb_spec p 0); [done|]. inversion Hs as [| | | | | | | | |? ? ? l0 l' ? Hl0 Hnb Hln Htk| |]; subst; [done|lia|by apply Hnull|].
    rewrite Hpl in Hl0. injection Hl0 as <-. rewrite (take_ge l) in Htk by lia.
    apply (Hnew _ (drop (length l) l')); [done|rewrite length_drop; lia|]. by rewrite <-Htk at 1; rewrite take_drop.
Qed.

Lemma wp_copy_from n : ∀ h C p k l (Q : list Z → H → Prop), kh_rel h C → C !! p = Some l → 0 ≤ k → k + Z.of_nat n ≤ Z.of_nat (length l) →
  (∀ h', kh_rel h' C → Q (take n (drop (Z.to_nat k) l)) h') → wp (copy_from p k n) h Q.
Proof.
  induction n as [|n IH]; intros h C p k l Q Hr HC Hk Hn HQ; cbn [copy_from]; [by apply wp_ret, HQ|].
  apply wp_bind. eapply wp_mono; [apply (kh_sim h C (Load p k)); [done|]|].
  { exists l. split; [done|lia]. }
  intros y h' (C' & Hs & Hr'). inversion Hs as [| | | | | | | | | | |? ? l0 ? Hl0 Hy]; subst. rewrite HC in Hl0. injection Hl0 as <-.
  apply wp_bind. eapply (IH _ _ _ _ l); [done|done|lia|lia|]. intros h'' Hr''. apply wp_ret.
  specialize (HQ _ Hr''). rewrite (drop_S _ _ _ Hy) in HQ. cbn [take] in HQ. by replace (Z.to_nat (k + 1)) with (S (Z.to_nat k)) by lia.
Qed.

Lemma wp_copy_to bs : ∀ h C p k l (Q : unit → H → Prop), kh_rel h C → C !! p = Some l → 0 ≤ k → k + Z.of_nat (length bs) ≤ Z.of_nat (length l) →
  Forall byte bs → (∀ h', kh_rel h' (<[p := list_inserts (Z.to_nat k) bs l]> C) → Q tt h') → wp (copy_to p k bs) h Q.
Proof.
  induction bs as [|y bs IH]; intros h C p k l Q Hr HC Hk Hn Hb HQ; cbn [copy_to length] in *.
  { apply wp_ret, HQ. cbn [list_inserts]. by rewrite insert_id. }
  apply Forall_cons in Hb as [Hy Hb]. apply wp_bind. eapply wp_mono; [apply (kh_sim h C (Store p k y)); [done|]|].
  { split; [done|]. exists l. split; [done|lia]. }
  intros r h' (C' & Hs & Hr'). inversion Hs as [| | | | | | | | | |? ? ? l0 Hl0|]; subst. rewrite HC in Hl0. injection Hl0 as <-.
  eapply IH; [done|by rewrite lookup_insert_eq|lia|rewrite length_insert; lia|done|]. intros h'' Hr''. apply HQ.
  cbn [list_inserts]. rewrite insert_insert_eq in Hr''. replace (Z.to_nat (k + 1)) with (S (Z.to_nat k)) in Hr'' by lia.
  by rewrite list_insert_inserts_lt by lia.
Qed.

End Laws.

(** ** The map as a heap

    Blocks follow each other in memory; a fresh block holds the pattern 0xAA,
    and requests of [2^40] bytes or more fail. *)
Abbreviation map_heap := (gmap Z (list Z)).

Definition top (C : map_heap) : Z := map_fold (λ q l t, Z.max t (q + Z.of_nat (length l) + 1)) 16 C.

Definition place (C : map_heap) (n : Z) (fill : list Z) : Z * map_heap :=
  if (n =? 0) || (2 ^ 40 <=? n) then (0, C) else
  let p := (top C + 15) / 16 * 16 in (p, <[p := fill]> C).

Definition map_heap_run (o : hop) : M map_heap Z := λ C,
  match o with
  | Malloc n => Ret (place C n (replicate (Z.to_nat n) 0xAA))
  | Zalloc n => Ret (place C n (replicate (Z.to_nat n) 0))
  | Free p => Ret (0, if p =? 0 then C else delete p C)
  | Realloc p n =>
      if p =? 0 then Ret (place C n (replicate (Z.to_nat n) 0xAA)) else
      if n =? 0 then Ret (0, delete p C) else
      match C !! p with
      | None => Fault
      | Some l =>
          let '(q, C') := place C n (take (Z.to_nat n) l ++ replicate (Z.to_nat n - length l) 0xAA) in
          Ret (q, if q =? 0 then C else delete p C')
      end
  | Store p k y => match C !! p with
                   | Some l => if (0 <=? k) && (k <? Z.of_nat (length l)) then Ret (0, <[p := <[Z.to_nat k := y]> l]> C) else Fault
                   | None => Fault
                   end
  | Load p k => match C !! p with
                | Some l => if 0 <=? k then match l !! Z.to_nat k with Some y => Ret (y, C) | None => Fault end else Fault
                | None => Fault
                end
  end.

#[export] Instance map_heap_ops : KHeap map_heap := map_heap_run.

Lemma top_spec C : 16 ≤ top C ∧ ∀ q l, C !! q = Some l → q + Z.of_nat (length l) < top C.
Proof.
  unfold top. apply (map_fold_weak_ind (λ t (m : map_heap), 16 ≤ t ∧ ∀ q l, m !! q = Some l → q + Z.of_nat (length l) < t)).
  - split; [lia|]. intros q l Hq. by rewrite lookup_empty in Hq.
  - intros q l m t Hq [Ht IH]. split; [lia|]. intros q' l'. destruct (decide (q' = q)) as [->|Hne].
    + rewrite lookup_insert_eq. intros [= ->]. lia.
    + rewrite lookup_insert_ne by done. intros Hl. specialize (IH _ _ Hl). lia.
Qed.

Lemma place_spec C n fill : 0 ≤ n → let '(p, C') := place C n fill in
  p = 0 ∧ C' = C ∨ p ≠ 0 ∧ new_block C p n ∧ C' = <[p := fill]> C.
Proof.
  intros Hn. unfold place. destruct (Z.eqb_spec n 0); [by left|]. destruct (2 ^ 40 <=? n); [by left|]. right. cbn [orb].
  destruct (top_spec C) as [Ht HC]. set (p := (top C + 15) / 16 * 16).
  assert (top C ≤ p) by (unfold p; Z.div_mod_to_equations; lia). split_and!; [lia| |done].
  split_and!; [lia|lia|apply Z_mod_mult| |].
  - destruct (C !! p) as [l|] eqn:E; [|done]. specialize (HC _ _ E). lia.
  - intros q l Hq. specialize (HC _ _ Hq). lia.
Qed.

#[export] Program Instance map_heap_laws : KHeapLaws map_heap := {| kh_rel := λ h C, h = C |}.
Next Obligation.
  intros h C o -> Ho. unfold wp, kh_run, map_heap_ops, map_heap_run. destruct o as [n|n|p|p n|p k y|p k]; cbn in Ho.
  - pose proof (place_spec C n (replicate (Z.to_nat n) 0xAA) (proj1 Ho)) as Hp. destruct (place _ _ _) as [p C'].
    eexists. split; [|done]. destruct Hp as [[-> ->]|(_ & Hp & ->)]; constructor; [done|]. rewrite length_replicate. destruct Ho. lia.
  - pose proof (place_spec C n (replicate (Z.to_nat n) 0) (proj1 Ho)) as Hp. destruct (place _ _ _) as [p C'].
    eexists. split; [|done]. destruct Hp as [[-> ->]|(_ & Hp & ->)]; by constructor.
  - eexists. split; [|done]. destruct (Z.eqb_spec p 0) as [->|]; by constructor.
  - destruct Ho as [Hn Hp]. destruct (Z.eqb_spec p 0) as [->|Hp0].
    { pose proof (place_spec C n (replicate (Z.to_nat n) 0xAA) (proj1 Hn)) as Hm. destruct (place _ _ _) as [p C'].
      eexists. split; [|done]. constructor. destruct Hm as [[-> ->]|(_ & Hm & ->)]; constructor; [done|]. rewrite length_replicate. destruct Hn. lia. }
    destruct (Z.eqb_spec n 0) as [->|Hn0]; [eexists; split; [by constructor|done]|].
    destruct Hp as [?|[l Hl]]; [done|]. rewrite Hl.
    pose proof (place_spec C n (take (Z.to_nat n) l ++ replicate (Z.to_nat n - length l) 0xAA) (proj1 Hn)) as Hm. destruct (place _ _ _) as [q C'].
    eexists. split; [|done]. destruct Hm as [[-> ->]|(Hq & Hm & ->)]; [by constructor|]. destruct (Z.eqb_spec q 0); [done|].
    assert (p ≠ q) by (destruct Hm as (_ & _ & _ & Hm & _); congruence). rewrite delete_insert_ne by done.
    destruct Hn. eapply abs_realloc; [done|done|done| |].
    + rewrite length_app, length_take, length_replicate. lia.
    + destruct (decide (length l ≤ Z.to_nat n)%nat).
      * rewrite !(take_ge l) by lia. by rewrite take_app_length.
      * rewrite take_ge; [|rewrite length_app, length_take, length_replicate; lia].
        replace (Z.to_nat n - length l)%nat with 0%nat by lia. by rewrite app_nil_r.
  - destruct Ho as (Hy & l & Hl & Hk). rewrite Hl. destruct (Z.leb_spec 0 k); [|lia]. destruct (Z.ltb_spec k (Z.of_nat (length l))); [|lia].
    eexists. split; [by constructor|done].
  - destruct Ho as (l & Hl & Hk). rewrite Hl. destruct (Z.leb_spec 0 k); [|lia].
    destruct (lookup_lt_is_Some_2 l (Z.to_nat k)) as [y Hy]; [lia|]. rewrite Hy. eexists. split; [by econstructor|done].
Qed.

End Kheap.
