(* ===== verification/Vfs.v ===== *)
(** * The virtual file system ([fs/vfs.c])

    Nodes are records at the addresses [kzalloc] gave them; NULL is [None].  A
    C string is the list of its characters without the terminator.  A driver
    is the address of its table of operations ([fops]); its calls run on the
    same state, so that they may create nodes, and on a state [X] of their
    own.  The page cache takes over files marked cacheable. *)
From S2P Require Import Prelude HeapTheorems Kheap.

Definition FS_FILE : Z := 2 ^ 16.
Definition FS_DIRECTORY : Z := 2 ^ 17.
Definition FS_MOUNTPOINT : Z := 2 ^ 18.
Definition FS_SOCKET : Z := 2 ^ 19.
Definition FS_SYMLINK : Z := 2 ^ 20.
Definition FS_CACHEABLE : Z := 2 ^ 21.

Definition slash : Z := 47.
Definition dot : list Z := [46].
Definition dotdot : list Z := [46; 46].
Definition dev_prefix : list Z := [47; 100; 101; 118; 47]. (* "/dev/" *)

(** [vfs_node_t]. *)
Record node := mk_node {
  n_name : list Z;
  n_flags : Z;
  n_permissions : Z;
  n_refcount : Z;
  n_length : Z;
  n_inode : Z;
  n_ops : option Z;
  n_ptr : option Z;
  n_parent : option Z;
  n_children : option Z;
  n_next : option Z;
}.

(** A node as [kzalloc] leaves it. *)
Definition zero_node : node := mk_node [] 0 0 0 0 0 None None None None None.
Definition sizeof_vfs_node : Z := 200.

Definition set_name v n := mk_node v (n_flags n) (n_permissions n) (n_refcount n) (n_length n) (n_inode n) (n_ops n) (n_ptr n) (n_parent n) (n_children n) (n_next n).
Definition set_flags v n := mk_node (n_name n) v (n_permissions n) (n_refcount n) (n_length n) (n_inode n) (n_ops n) (n_ptr n) (n_parent n) (n_children n) (n_next n).
Definition set_length v n := mk_node (n_name n) (n_flags n) (n_permissions n) (n_refcount n) v (n_inode n) (n_ops n) (n_ptr n) (n_parent n) (n_children n) (n_next n).
Definition set_ptr v n := mk_node (n_name n) (n_flags n) (n_permissions n) (n_refcount n) (n_length n) (n_inode n) (n_ops n) v (n_parent n) (n_children n) (n_next n).
Definition set_parent v n := mk_node (n_name n) (n_flags n) (n_permissions n) (n_refcount n) (n_length n) (n_inode n) (n_ops n) (n_ptr n) v (n_children n) (n_next n).
Definition set_children v n := mk_node (n_name n) (n_flags n) (n_permissions n) (n_refcount n) (n_length n) (n_inode n) (n_ops n) (n_ptr n) (n_parent n) v (n_next n).
Definition set_next v n := mk_node (n_name n) (n_flags n) (n_permissions n) (n_refcount n) (n_length n) (n_inode n) (n_ops n) (n_ptr n) (n_parent n) (n_children n) v.

(** [ramfs_file_data_t], what [ptr] of a ramfs file points to. *)
Record ramfs_file_data := mk_fdata { fd_buffer : Z; fd_capacity : Z }.

Record vfs := mk_vfs {
  nodes : gmap Z node;
  fdatas : gmap Z ramfs_file_data;
  vfs_root : option Z;
  devfs_root : option Z; (* what devfs_get_root returns *)
}.

Definition with_nodes f v := mk_vfs (f (nodes v)) (fdatas v) (vfs_root v) (devfs_root v).
Definition with_fdatas f v := mk_vfs (nodes v) (f (fdatas v)) (vfs_root v) (devfs_root v).
Definition with_root (r : option Z) v := mk_vfs (nodes v) (fdatas v) r (devfs_root v).

(** [vfs_file_operations_t].  [op_read] yields the return value and the bytes
    stored in the buffer. *)
Record file_operations (S : Type) := mk_fops {
  op_read : option (Z → Z → Z → M S (Z * list Z));
  op_write : option (Z → Z → Z → list Z → M S Z);
  op_open : option (Z → M S unit);
  op_close : option (Z → M S unit);
  op_readdir : option (Z → Z → M S (option Z));
  op_finddir : option (Z → list Z → M S (option Z));
  op_create : option (Z → list Z → Z → M S (option Z));
}.
Arguments mk_fops {S}.
Arguments op_read {S}.
Arguments op_write {S}.
Arguments op_open {S}.
Arguments op_close {S}.
Arguments op_readdir {S}.
Arguments op_finddir {S}.
Arguments op_create {S}.

Module Vfs.

Section Vfs.
  Context {H X : Type} `{KHeap H}.

Abbreviation state := (vfs * (H * X))%type.

Definition vget {B} (f : vfs → B) : M state B := gets (λ s : state, f s.1).
Definition vset (f : vfs → vfs) : M state unit := modify (λ s : state, (f s.1, s.2)).
Definition load (p : Z) : M state node := deref (λ s : state, nodes s.1 !! p).
Definition store (p : Z) (f : node → node) : M state unit :=
  load p;; vset (with_nodes (alter f p)).
Definition heap {B} (c : M H B) : M state B := lift_r (lift_l c).

  Variable fops : Z → file_operations state.
  Variable page_cache_read : Z → Z → Z → M state (Z * list Z).
  Variable page_cache_write : Z → Z → Z → list Z → M state Z.

Definition ops_of (n : node) : option (file_operations state) := fops <$> n_ops n.

Definition vfs_init : M state unit := vset (with_root None).

(** [if (node->flags & FS_MOUNTPOINT && node->ptr) node = node->ptr]. *)
Definition cross (p : Z) : M state Z :=
  n ← load p;
  mret (if has (n_flags n) FS_MOUNTPOINT then default p (n_ptr n) else p).

Definition vfs_finddir (dir : option Z) (name : list Z) : M state (option Z) :=
  match dir with
  | None => mret None
  | Some p =>
      q ← cross p;
      n ← load q;
      match ops_of n ≫= op_finddir with
      | Some finddir => if has (n_flags n) FS_DIRECTORY then finddir q name else mret None
      | None => mret None
      end
  end.

Definition vfs_readdir (dir : option Z) (index : Z) : M state (option Z) :=
  match dir with
  | None => mret None
  | Some p =>
      n ← load p;
      match ops_of n ≫= op_readdir with
      | Some readdir => if has (n_flags n) FS_DIRECTORY then readdir p index else mret None
      | None => mret None
      end
  end.

(** ** Paths *)

(** The inner loop over a path below /dev: up to [k] characters, in front of
    the next slash. *)
Fixpoint take_comp (k : nat) (sub : list Z) : list Z * list Z :=
  match k, sub with
  | S k', c :: sub' => if c =? slash then ([], sub) else let '(comp, rest) := take_comp k' sub' in (c :: comp, rest)
  | _, _ => ([], sub)
  end.

Definition skip_slash (sub : list Z) : list Z :=
  match sub with c :: sub' => if c =? slash then sub' else sub | [] => [] end.

Fixpoint dev_loop (fuel : nat) (sub : list Z) (curr : option Z) : M state (option Z) :=
  match sub, curr with
  | [], _ | _, None => mret curr
  | _, Some _ =>
      match fuel with
      | O => λ _, Wait
      | S fuel' =>
          let '(comp, rest) := take_comp 63 sub in
          let sub' := skip_slash rest in
          curr' ← (if bool_decide (comp = []) then mret curr else vfs_finddir curr comp);
          dev_loop fuel' sub' curr'
      end
  end.

(** [strsep(&rest, "/")]: the token, and what is left behind the slash. *)
Fixpoint strsep (l : list Z) : list Z * option (list Z) :=
  match l with
  | [] => ([], None)
  | c :: l' => if c =? slash then ([], Some l') else let '(t, r) := strsep l' in (c :: t, r)
  end.

Fixpoint walk (fuel : nat) (current : Z) (rest : option (list Z)) : M state (option Z) :=
  match rest with
  | None => mret (Some current)
  | Some l =>
      match fuel with
      | O => λ _, Wait
      | S fuel' =>
          let '(token, rest') := strsep l in
          if bool_decide (token = []) || bool_decide (token = dot) then walk fuel' current rest'
          else if bool_decide (token = dotdot) then
            n ← load current;
            walk fuel' (default current (n_parent n)) rest'
          else
            next ← vfs_finddir (Some current) token;
            match next with
            | None => mret None
            | Some nx => c ← cross nx; walk fuel' c rest'
            end
      end
  end.

(** From the root on.  A path of 256 characters or more is copied to a buffer
    from the heap, which is released on both ways out. *)
Definition resolve_from_root (path : list Z) : M state (option Z) :=
  root ← vget vfs_root;
  match root with
  | None => mret None
  | Some r =>
      current ← cross r;
      match path with
      | [_] => mret (Some current)
      | [_; c] => if c =? slash then mret (Some current) else walk (S (length path)) current (Some (tail path))
      | _ =>
          let len := Z.of_nat (length path) in
          if 256 <=? len then
            buffer ← heap (Kheap.kmalloc (u64 (len + 1)));
            if buffer =? 0 then mret None else
            res ← walk (S (length path)) current (Some (tail path));
            heap (Kheap.kfree buffer);;
            mret res
          else walk (S (length path)) current (Some (tail path))
      end
  end.

Definition vfs_resolve_path (path : option (list Z)) : M state (option Z) :=
  match path with
  | None => mret None
  | Some path =>
      match path with
      | c :: _ =>
          if negb (c =? slash) then mret None else
          dev ← vget devfs_root;
          found ← (if bool_decide (take 5 path = dev_prefix) && bool_decide (is_Some dev)
                   then dev_loop (S (length path)) (drop 5 path) dev else mret None);
          match found with
          | Some q => mret (Some q)
          | None => resolve_from_root path
          end
      | [] => mret None
      end
  end.

(** ** The calls *)

Definition vfs_open (path : option (list Z)) (flags : Z) : M state (option Z) :=
  r ← vfs_resolve_path path;
  match r with
  | None => mret None
  | Some p =>
      n ← load p;
      match ops_of n ≫= op_open with
      | Some open => open p;; mret (Some p)
      | None => mret (Some p)
      end
  end.

Definition vfs_mount (path : option (list Z)) (local_root : option Z) : M state (option Z) :=
  match local_root with
  | None => mret None
  | Some lr =>
      root ← vget vfs_root;
      match root with
      | None => vset (with_root (Some lr));; mret (Some lr)
      | Some _ =>
          mountpoint ← vfs_open path 0;
          match mountpoint with
          | None => mret None
          | Some mp =>
              store mp (λ n, set_flags (Z.lor (n_flags n) FS_MOUNTPOINT) n);;
              store mp (set_ptr (Some lr));;
              mret (Some lr)
          end
      end
  end.

Definition vfs_create (dir : option Z) (name : list Z) (flags : Z) : M state (option Z) :=
  match dir with
  | None => mret None
  | Some p =>
      if bool_decide (name = []) then mret None else
      q ← cross p;
      n ← load q;
      match ops_of n ≫= op_create with
      | Some create =>
          if has (n_flags n) FS_DIRECTORY then
            let type := Z.land flags (Z.lor (Z.lor (Z.lor FS_FILE FS_DIRECTORY) FS_SOCKET) FS_SYMLINK) in
            create q name (if type =? 0 then FS_FILE else type)
          else mret None
      | None => mret None
      end
  end.

Definition vfs_read (node : option Z) (offset size : Z) : M state (Z * list Z) :=
  match node with
  | None => mret (-1, [])
  | Some p =>
      n ← load p;
      match ops_of n with
      | None => mret (-1, [])
      | Some ops =>
          if has (n_flags n) FS_CACHEABLE && negb (n_inode n =? 0) then page_cache_read p offset size else
          match op_read ops with
          | None => mret (-1, [])
          | Some read => read p offset size
          end
      end
  end.

Definition vfs_write (node : option Z) (offset size : Z) (buffer : list Z) : M state Z :=
  match node with
  | None => mret (-1)
  | Some p =>
      n ← load p;
      match ops_of n with
      | None => mret (-1)
      | Some ops =>
          if has (n_flags n) FS_CACHEABLE && negb (n_inode n =? 0) then page_cache_write p offset size buffer else
          match op_write ops with
          | None => mret (-1)
          | Some write => write p offset size buffer
          end
      end
  end.

Definition vfs_close (node : option Z) : M state unit :=
  match node with
  | None => mret tt
  | Some p =>
      n ← load p;
      match ops_of n ≫= op_close with
      | Some close => close p
      | None => mret tt
      end
  end.

End Vfs.
End Vfs.
