(* ===== verification/VfsSpec.v ===== *)
(** * Path resolution

    The reference is a walk along the components of the path: fields between
    slashes that are neither empty nor a dot, where two dots lead to the
    parent and a mount point stands for the root mounted there.  It walks over
    places, not nodes: a driver may make a new node in each lookup, as the
    drivers of disks do, or hand out the node it has, as ramfs does. *)
From S2P Require Import Prelude HeapSpec HeapTheorems Kheap Vfs.

Module VfsSpec.
Import HeapTheorems Kheap Vfs.

(** The fields of a string between slashes. *)
Fixpoint split (l : list Z) : list (list Z) :=
  match l with
  | [] => [[]]
  | c :: l' =>
      if c =? slash then [] :: split l' else
      match split l' with f :: fs => (c :: f) :: fs | [] => [[c]] end
  end.

Definition comps (path : list Z) : list (list Z) := filter (λ c, c ≠ [] ∧ c ≠ dot) (split path).

(** A string in pieces of at most [k + 1] characters. *)
Fixpoint chunks (fuel k : nat) (l : list Z) : list (list Z) :=
  match fuel, l with
  | S fuel', _ :: _ => take (S k) l :: chunks fuel' k (drop (S k) l)
  | _, _ => []
  end.

(** Below /dev a field of more than 63 characters counts as several. *)
Definition dev_comps (sub : list Z) : list (list Z) := concat ((λ f, chunks (length f) 62 f) <$> split sub).

Lemma split_ne l : split l ≠ [].
Proof. destruct l as [|c l]; simpl; [done|]. destruct (c =? slash); [done|]. by destruct (split l). Qed.

Lemma split_strsep l : split l = (strsep l).1 :: match (strsep l).2 with Some l' => split l' | None => [] end.
Proof.
  induction l as [|c l IH]; [done|]. cbn [split strsep]. destruct (c =? slash); [done|]. rewrite IH.
  by destruct (strsep l) as [t r].
Qed.

Lemma strsep_shorter l l' : (strsep l).2 = Some l' → (length l' < length l)%nat.
Proof.
  induction l as [|c l IH]; [done|]. cbn [strsep]. destruct (c =? slash); cbn [snd length]; [intros [= ->]; lia|].
  destruct (strsep l) as [t r]. cbn [snd] in *. intros E. specialize (IH E). lia.
Qed.

(** What follows the first field. *)
Definition behind (r : option (list Z)) : list Z := match r with Some l => slash :: l | None => [] end.

Lemma strsep_app l t r : strsep l = (t, r) → l = t ++ behind r ∧ slash ∉ t.
Proof.
  revert t. induction l as [|c l IH]; intros t; cbn [strsep]; [intros [= <- <-]; split; [done|set_solver]|].
  destruct (Z.eqb_spec c slash) as [->|Hc]; [intros [= <- <-]; split; [done|set_solver]|].
  destruct (strsep l) as [t' r']. intros [= <- <-]. destruct (IH t' eq_refl) as [-> Ht]. split; [done|set_solver].
Qed.

Lemma split_field g r : slash ∉ g → split (g ++ behind r) = g :: match r with Some l => split l | None => [] end.
Proof.
  induction g as [|c g IH]; intros Hg; cbn [app split].
  - destruct r as [l|]; cbn [behind split]; [|done]. by rewrite Z.eqb_refl.
  - destruct (Z.eqb_spec c slash) as [->|]; [set_solver|]. rewrite IH by set_solver. done.
Qed.

Lemma chunks_fuel k : ∀ n l, (length l ≤ n)%nat → chunks n k l = chunks (length l) k l.
Proof.
  assert (∀ m n l, (length l ≤ n)%nat → (length l ≤ m)%nat → chunks n k l = chunks m k l) as Hall.
  { induction m as [|m IH]; intros n l Hn Hm; [destruct l; [by destruct n|simpl in *; lia]|].
    destruct n, l as [|y l]; cbn [length] in *; [done|lia|done|]. cbn [chunks]. f_equal. apply IH; rewrite length_drop; cbn [length]; lia. }
  intros n l Hn. by apply Hall.
Qed.

Lemma chunks_small k f : (length f ≤ S k)%nat → f ≠ [] → chunks (length f) k f = [f].
Proof.
  intros Hf Hne. destruct f as [|y f]; [done|]. cbn [length chunks]. rewrite take_ge by done. rewrite drop_ge by done. by destruct (length f).
Qed.

Lemma chunks_large k f : (S k < length f)%nat → chunks (length f) k f = take (S k) f :: chunks (length (drop (S k) f)) k (drop (S k) f).
Proof.
  intros Hf. destruct f as [|y f]; [simpl in Hf; lia|]. cbn [length chunks]. f_equal. apply chunks_fuel. rewrite length_drop. cbn [length]. lia.
Qed.

Lemma take_comp_field k g r : slash ∉ g → take_comp k (g ++ behind r) = (take k g, drop k g ++ behind r).
Proof.
  revert g. induction k as [|k IH]; intros g Hg; [done|]. destruct g as [|c g]; cbn [app take_comp take drop].
  - destruct r as [l|]; cbn [behind]; [|done]. by rewrite Z.eqb_refl.
  - destruct (Z.eqb_spec c slash) as [->|]; [set_solver|]. rewrite IH by set_solver. done.
Qed.

Lemma dev_comps_field g r : slash ∉ g →
  dev_comps (g ++ behind r) = chunks (length g) 62 g ++ match r with Some l => dev_comps l | None => [] end.
Proof. intros Hg. unfold dev_comps. rewrite split_field by done. by destruct r. Qed.

(** One round of the loop over a path below /dev. *)
Lemma dev_round sub : sub ≠ [] → let '(comp, rest) := take_comp 63 sub in let sub' := skip_slash rest in
  (length sub' < length sub)%nat ∧ dev_comps sub = (if bool_decide (comp = []) then [] else [comp]) ++ dev_comps sub'.
Proof.
  intros Hne. destruct (strsep sub) as [g r] eqn:E. apply strsep_app in E as [-> Hg]. rewrite take_comp_field by done. cbv zeta.
  rewrite dev_comps_field by done. destruct (decide (length g ≤ 63)%nat) as [Hs|Hl].
  - rewrite take_ge, drop_ge by done. cbn [app]. assert (skip_slash (behind r) = default [] r) as -> by (destruct r; cbn; [by rewrite ?Z.eqb_refl|done]).
    split.
    + rewrite length_app. destruct r as [l|]; simpl; [lia|]. destruct g; [done|simpl; lia].
    + f_equal; [|by destruct r]. destruct (bool_decide_reflect (g = [])) as [->|Hg0]; [done|]. by apply chunks_small.
  - destruct (drop 63 g) as [|c g'] eqn:Ed; [apply (f_equal length) in Ed; rewrite length_drop in Ed; simpl in Ed; lia|].
    assert (slash ∉ c :: g') as Hg' by (rewrite <-Ed; intros Hin; apply Hg; rewrite <-(take_drop 63 g); set_solver).
    assert (skip_slash ((c :: g') ++ behind r) = (c :: g') ++ behind r) as ->.
    { cbn [app skip_slash]. destruct (Z.eqb_spec c slash) as [->|]; [set_solver|done]. }
    rewrite bool_decide_false by (intros Ht; apply (f_equal length) in Ht; rewrite length_take in Ht; cbn [length] in Ht; lia).
    split; [rewrite !length_app; apply (f_equal length) in Ed; rewrite length_drop in Ed; lia|].
    rewrite dev_comps_field by done. rewrite chunks_large by lia. by rewrite Ed.
Qed.

(** Only the components count: slashes may be doubled and trail. *)
Lemma comps_app l1 l2 : comps (l1 ++ slash :: l2) = comps l1 ++ comps l2.
Proof.
  unfold comps. rewrite <-filter_app. f_equal. induction l1 as [|c l1 IH]; cbn [app split]; [by rewrite Z.eqb_refl|].
  destruct (c =? slash); [by rewrite IH|]. rewrite IH. pose proof (split_ne l1). by destruct (split l1).
Qed.

(** A call that returns as [Q] says, or faults where [E] holds. *)
Definition wpf {S B} (E : Prop) (m : M S B) (s : S) (Q : B → S → Prop) : Prop :=
  match m s with Ret (b, s') => Q b s' | Fault => E | _ => False end.

Lemma wpf_wp {S B} E (m : M S B) s (Q : B → S → Prop) : wp m s Q → wpf E m s Q.
Proof. unfold wp, wpf. by destruct (m s) as [[b s']| | |]. Qed.

Lemma wpf_ret {S B} E (b : B) (s : S) (Q : B → S → Prop) : Q b s → wpf E (mret b) s Q.
Proof. done. Qed.

Lemma wpf_mono {S B} (E E' : Prop) (m : M S B) s (P Q : B → S → Prop) :
  wpf E m s P → (E → E') → (∀ b s', P b s' → Q b s') → wpf E' m s Q.
Proof. unfold wpf. destruct (m s) as [[b s']| | |]; auto. Qed.

Lemma wpf_bind {S B1 B2} E (m : M S B1) (k : B1 → M S B2) s (Q : B2 → S → Prop) :
  wpf E m s (λ b s', wpf E (k b) s' Q) → wpf E (m ≫= k) s Q.
Proof. unfold wpf, mbind, M_bind. by destruct (m s) as [[b s']| | |]. Qed.

(** ** The reference walk over places *)
Section Walk.
  Context {A : Type} (afind : A → list Z → option A) (aup across : A → A).
  Context (aroot adev : option A).
  Implicit Types (a b : A) (cs : list (list Z)) (path : list Z).

(** One component, then a whole path. *)
Definition pstep a (c : list Z) : option A :=
  if bool_decide (c = dotdot) then Some (aup a) else across <$> afind (across a) c.

Fixpoint psteps a cs : option A :=
  match cs with [] => Some a | c :: cs' => pstep a c ≫= λ b, psteps b cs' end.

Fixpoint dev_psteps a cs : option A :=
  match cs with [] => Some a | c :: cs' => afind (across a) c ≫= λ b, dev_psteps b cs' end.

Definition dev_place path : option A :=
  if bool_decide (take 5 path = dev_prefix) then adev ≫= λ d, dev_psteps d (dev_comps (drop 5 path)) else None.

Definition root_place path : option A := aroot ≫= λ r, psteps (across r) (comps path).

(** The place a path leads to. *)
Definition place_of path : option A :=
  if bool_decide (head path = Some slash) then
    match dev_place path with Some a => Some a | None => root_place path end
  else None.

(** The directories in which a name is looked up on the way. *)
Fixpoint looked a cs : list A :=
  match cs with
  | [] => []
  | c :: cs' =>
      if bool_decide (c = dotdot) then looked (aup a) cs' else
      across a :: match afind (across a) c with Some b => looked (across b) cs' | None => [] end
  end.

Fixpoint dev_looked a cs : list A :=
  match cs with
  | [] => []
  | c :: cs' => across a :: match afind (across a) c with Some b => dev_looked b cs' | None => [] end
  end.

Definition dev_visits path : list A :=
  if bool_decide (take 5 path = dev_prefix) then match adev with Some d => dev_looked d (dev_comps (drop 5 path)) | None => [] end else [].

Definition root_visits path : list A := match aroot with Some r => looked (across r) (comps path) | None => [] end.

End Walk.

(** The node mounted at [p], or [p]; the parent of [p], or [p]. *)
Definition crossed (v : vfs) (p : Z) : Z :=
  match nodes v !! p with
  | Some n => if has (n_flags n) FS_MOUNTPOINT then default p (n_ptr n) else p
  | None => p
  end.

Definition up (v : vfs) (p : Z) : Z := match nodes v !! p with Some n => default p (n_parent n) | None => p end.

(** ** Resolution follows the walk *)
Section Places.
  Context {H X A : Type} `{KHeapLaws H}.
  Variable fops : Z → file_operations (vfs * (H * X)).
  Context (afind : A → list Z → option A) (aup across : A → A) (aroot adev : option A).

  (** [stands v p a]: node [p] stands for the place [a].  [inv O v x]: what the
      drivers keep, with the blocks [O] of the heap they own.  [fallible a]:
      lookups in [a] need memory. *)
  Context (stands : vfs → Z → A → Prop) (inv : gmap Z (list Z) → vfs → X → Prop) (fallible : A → Prop).
  Implicit Types (v : vfs) (h : H) (x : X) (O C D : gmap Z (list Z)) (p q : Z) (a b : A) (name path : list Z).

Abbreviation state := (vfs * (H * X))%type.

Abbreviation psteps' := (psteps afind aup across).
Abbreviation dev_psteps' := (dev_psteps afind across).
Abbreviation looked' := (looked afind aup across).
Abbreviation dev_looked' := (dev_looked afind across).

Definition world O C (s : state) : Prop := inv O s.1 s.2.2 ∧ O ⊆ C ∧ kh_rel s.2.1 C.

(** New blocks [D] were taken from the heap; every node stands for what it
    stood for. *)
Definition grown D O C (s s' : state) : Prop :=
  D ##ₘ C ∧ world (O ∪ D) (C ∪ D) s' ∧ ∀ q b, stands s.1 q b → stands s'.1 q b.

(** A node for the wanted place; or none, because there is no such place or a
    lookup had no memory. *)
Definition answers (want : option A) (short : Prop) (r : option Z) (s' : state) : Prop :=
  match r with Some q => ∃ b, want = Some b ∧ stands s'.1 q b | None => want = None ∨ short end.

(** What resolution asks of the file systems: crossing and parents are
    followed in places, and a lookup in a directory finds a node for the place
    of that name and may take memory for it; a lookup that needs memory may
    find none and then return NULL or fault. *)
Record places : Prop := {
  pl_cross O v x p a : inv O v x → stands v p a → is_Some (nodes v !! p) ∧ stands v (crossed v p) (across a);
  pl_up O v x p a : inv O v x → stands v p a → stands v (up v p) (aup a);
  pl_root O v x : inv O v x → match vfs_root v with Some q => ∃ a, aroot = Some a ∧ stands v q a | None => aroot = None end;
  pl_dev O v x : inv O v x → match devfs_root v with Some q => ∃ a, adev = Some a ∧ stands v q a | None => adev = None end;
  pl_leaf O v x p a n name : inv O v x → stands v p a → nodes v !! p = Some n →
    has (n_flags n) FS_DIRECTORY = false ∨ ops_of fops n ≫= op_finddir = None → afind a name = None;
  pl_dir O C v h x p a n f name : world O C (v, (h, x)) → stands v p a → nodes v !! p = Some n →
    has (n_flags n) FS_DIRECTORY = true → ops_of fops n ≫= op_finddir = Some f →
    wpf (fallible a) (f p name) (v, (h, x)) (λ r s',
      (∃ D, grown D O C (v, (h, x)) s') ∧ answers (afind a name) (fallible a) r s');
}.

  Hypothesis laws : places.

Lemma grown_refl O C s : world O C s → grown ∅ O C s s.
Proof. intros Hw. split; [solve_map_disjoint|]. by rewrite !map_union_empty. Qed.

Lemma grown_trans D1 D2 O C s s1 s2 : grown D1 O C s s1 → grown D2 (O ∪ D1) (C ∪ D1) s1 s2 → grown (D1 ∪ D2) O C s s2.
Proof.
  intros (Hd1 & _ & Hs1) (Hd2 & Hw2 & Hs2). split; [solve_map_disjoint|]. rewrite !map_union_assoc. split; [done|]. auto.
Qed.

Lemma wp_node_load v h x p n (Q : node → state → Prop) : nodes v !! p = Some n → Q n (v, (h, x)) → wp (load p) (v, (h, x)) Q.
Proof. intros Hp HQ. by apply wp_deref with n. Qed.

Lemma cross_spec v h x p (Q : Z → state → Prop) : is_Some (nodes v !! p) → Q (crossed v p) (v, (h, x)) → wp (cross p) (v, (h, x)) Q.
Proof. intros [n Hn] HQ. apply wp_bind. eapply wp_node_load; [done|]. apply wp_ret. unfold crossed in HQ. by rewrite Hn in HQ. Qed.

(** A lookup, of any node: what lies beyond its mount point is searched. *)
Lemma vfs_finddir_spec O C s p a name : world O C s → stands s.1 p a →
  wpf (fallible (across a)) (vfs_finddir fops (Some p) name) s (λ r s',
    (∃ D, grown D O C s s') ∧ answers (afind (across a) name) (fallible (across a)) r s').
Proof using laws.
  destruct s as [v [h x]]. intros Hw Hp. destruct (pl_cross laws _ _ _ _ _ (proj1 Hw) Hp) as [Hn Hc]. apply wpf_bind, wpf_wp, cross_spec; [done|].
  destruct (pl_cross laws _ _ _ _ _ (proj1 Hw) Hc) as [[n Hq] _]. apply wpf_bind, wpf_wp. eapply wp_node_load; [done|].
  assert (has (n_flags n) FS_DIRECTORY = false ∨ ops_of fops n ≫= op_finddir = None → wpf (fallible (across a)) (mret None) (v, (h, x)) (λ r s',
    (∃ D, grown D O C (v, (h, x)) s') ∧ answers (afind (across a) name) (fallible (across a)) r s')) as Hleaf.
  { intros Hl. apply wpf_ret. split; [exists ∅; by apply grown_refl|]. left. by eapply (pl_leaf laws _ _ _ _ _ _ _ (proj1 Hw) Hc). }
  destruct (ops_of fops n ≫= op_finddir) as [f|] eqn:Ef; [|apply Hleaf; by right].
  destruct (has (n_flags n) FS_DIRECTORY) eqn:E; [|apply Hleaf; by left].
  by eapply (pl_dir laws).
Qed.

(** What a loop of lookups yields. *)
Definition found O C s want (E : Prop) (r : option Z) (s' : state) : Prop := (∃ D, grown D O C s s') ∧ answers want E r s'.

Lemma found_none O C s (E : Prop) : world O C s → E → found O C s None E None s.
Proof. intros Hw HE. split; [exists ∅; by apply grown_refl|by left]. Qed.

Lemma found_later D O C s s1 want (E E' : Prop) r s' : grown D O C s s1 → (E → E') → found (O ∪ D) (C ∪ D) s1 want E r s' → found O C s want E' r s'.
Proof.
  intros Hg HE [[D' Hg'] Ha]. split; [exists (D ∪ D'); by eapply grown_trans|]. destruct r; [done|]. destruct Ha; [by left|right; auto].
Qed.

Lemma walk_spec : ∀ fuel O C s p a l, world O C s → stands s.1 p a → (length l < fuel)%nat →
  let E := Exists fallible (looked' a (comps l)) in
  wpf E (walk fops fuel p (Some l)) s (found O C s (psteps' a (comps l)) E).
Proof using laws.
  induction fuel as [|fuel IH]; intros O C s p a l Hw Hp Hl; [lia|]. cbn [walk]. cbv zeta.
  assert (∀ O C s q b, world O C s → stands s.1 q b →
    let cs := filter (λ c, c ≠ [] ∧ c ≠ dot) (match (strsep l).2 with Some l' => split l' | None => [] end) in
    let E := Exists fallible (looked' b cs) in
    wpf E (walk fops fuel q (strsep l).2) s (found O C s (psteps' b cs) E)) as Hgo.
  { intros O1 C1 s1 q b Hw1 Hq. destruct ((strsep l).2) as [l'|] eqn:E.
    - apply strsep_shorter in E. apply IH; [done|done|lia].
    - assert (found O1 C1 s1 (Some b) False (Some q) s1) as Hf by (split; [exists ∅; by apply grown_refl|by exists b]). by destruct fuel; apply wpf_ret. }
  unfold comps. rewrite split_strsep. destruct (strsep l) as [t r]. cbn [fst snd] in *.
  destruct (bool_decide_reflect (t = [])) as [->|Ht].
  { rewrite filter_cons_False by naive_solver. cbn [orb]. by apply Hgo. }
  destruct (bool_decide_reflect (t = dot)) as [->|Htd]; cbn [orb].
  { rewrite filter_cons_False by naive_solver. by apply Hgo. }
  rewrite filter_cons_True by done. cbn [psteps looked]. unfold pstep. destruct (bool_decide_reflect (t = dotdot)) as [->|Hdd].
  { pose proof (pl_up laws _ _ _ _ _ (proj1 Hw) Hp) as Hu. destruct (pl_cross laws _ _ _ _ _ (proj1 Hw) Hp) as [[n Hn] _]. destruct s as [v [h x]].
    apply wpf_bind, wpf_wp. eapply wp_node_load; [done|]. cbn [mbind option_bind fst] in *. unfold up in Hu. rewrite Hn in Hu. by apply Hgo. }
  apply wpf_bind. eapply wpf_mono; [by apply (vfs_finddir_spec O C s p a t)|intros ?; by constructor|]. intros r' s' [[D Hg] Ha].
  destruct r' as [c|]; cbn [answers] in Ha.
  - destruct Ha as (b & -> & Hc). cbn [mbind option_bind fmap option_fmap option_map]. pose proof Hg as (_ & Hw' & _).
    destruct (pl_cross laws _ _ _ _ _ (proj1 Hw') Hc) as [Hn Hcc]. destruct s' as [v' [h' x']]. apply wpf_bind, wpf_wp, cross_spec; [done|].
    eapply wpf_mono; [by apply (Hgo (O ∪ D) (C ∪ D))|by right|]. intros r2 s2. eapply found_later; [done|by right].
  - apply wpf_ret. split; [by exists D|]. destruct Ha as [->|Hf]; [by left|]. right. by constructor.
Qed.

Lemma dev_loop_spec : ∀ fuel O C s p a sub, world O C s → stands s.1 p a → (length sub < fuel)%nat →
  let E := Exists fallible (dev_looked' a (dev_comps sub)) in
  wpf E (dev_loop fops fuel sub (Some p)) s (found O C s (dev_psteps' a (dev_comps sub)) E).
Proof using laws.
  induction fuel as [|fuel IH]; intros O C s p a sub Hw Hp Hl; [lia|]. cbv zeta.
  destruct (decide (sub = [])) as [->|Hne]; [apply wpf_ret; split; [exists ∅; by apply grown_refl|by exists a]|].
  pose proof (dev_round sub Hne) as Hr. cbn [dev_loop]. destruct sub as [|c0 sub0] eqn:Es; [done|]. rewrite <-Es in *.
  destruct (take_comp 63 sub) as [comp rest]. cbv zeta in Hr. destruct Hr as [Hlt ->]. apply wpf_bind.
  destruct (bool_decide_reflect (comp = [])) as [->|Hc]; [apply wpf_ret; apply IH; [done|done|lia]|]. cbn [app dev_psteps dev_looked].
  eapply wpf_mono; [by apply (vfs_finddir_spec O C s p a comp)|intros ?; by constructor|]. intros r s' [[D Hg] Ha].
  destruct r as [q|]; cbn [answers] in Ha.
  - destruct Ha as (b & -> & Hq). cbn [mbind option_bind]. pose proof Hg as (_ & Hw' & _).
    eapply wpf_mono; [apply (IH (O ∪ D) (C ∪ D)); [done|done|lia]|by right|]. intros r2 s2. eapply found_later; [done|by right].
  - assert (wpf (Exists fallible (dev_looked' a (comp :: dev_comps (skip_slash rest)))) (mret None) s' (found O C s
      (afind (across a) comp ≫= λ b, dev_psteps' b (dev_comps (skip_slash rest))) (Exists fallible (dev_looked' a (comp :: dev_comps (skip_slash rest)))))) as Hn.
    { apply wpf_ret. split; [by exists D|]. destruct Ha as [->|Hf]; [by left|]. right. by constructor. }
    destruct fuel; [lia|]. by destruct (skip_slash rest).
Qed.

Lemma wp_heap {B} (c : M H B) v h x (Q : B → state → Prop) : wp c h (λ r h', Q r (v, (h', x))) → wp (heap c) (v, (h, x)) Q.
Proof. intros Hc. apply wp_lift_r, wp_lift_l. done. Qed.

Lemma comps_tail path c : comps (slash :: c) = comps c.
Proof. unfold comps. cbn [split]. rewrite Z.eqb_refl. by rewrite filter_cons_False by naive_solver. Qed.

(** The blocks of a walk stay when the buffer of the path is released. *)
Lemma grown_release (k : Z) l D O C s v' h' h'' x' : grown D O (<[k := l]> C) s (v', (h', x')) → C !! k = None → O ⊆ C →
  kh_rel h'' (delete k (<[k := l]> C ∪ D)) → grown D O C s (v', (h'', x')).
Proof.
  intros (Hd & (Hi & _ & _) & Hs) Hb HO Hr. apply map_disjoint_insert_r in Hd as [HDb Hd]. split; [done|]. split; [|done].
  split_and!; [done|by apply map_union_mono_r|]. cbn [fst snd].
  by rewrite <-insert_union_l, delete_insert_id in Hr by (by apply lookup_union_None).
Qed.

Lemma resolve_from_root_spec O C s path : world O C s → Z.of_nat (length path) < 2 ^ 63 → head path = Some slash →
  let E := Exists fallible (root_visits afind aup across aroot path) in
  wpf E (resolve_from_root fops path) s (found O C s (root_place afind aup across aroot path) (E ∨ 256 ≤ Z.of_nat (length path))).
Proof using laws.
  intros Hw Hmax Hp E. subst E. pose proof (pl_root laws _ _ _ (proj1 Hw)) as Hroot. destruct s as [v [h x]]. apply wpf_bind, wpf_wp, wp_gets. cbn [fst snd] in *.
  unfold root_place, root_visits. destruct (vfs_root v) as [r|] eqn:Er; [|rewrite Hroot; apply wpf_ret; split; [exists ∅; by apply grown_refl|by left]].
  destruct Hroot as (a & Ea & Hr). rewrite Ea. cbn [mbind option_bind]. destruct (pl_cross laws _ _ _ _ _ (proj1 Hw) Hr) as [Hn Hc].
  apply wpf_bind, wpf_wp, cross_spec; [done|]. destruct path as [|c0 path]; [done|]. injection Hp as ->. rewrite comps_tail by exact path.
  set (E := Exists fallible (looked' (across a) (comps path))). set (long := 256 ≤ _).
  assert (∀ C1 h1, world O C1 (v, (h1, x)) → wpf E (walk fops (S (length (slash :: path))) (crossed v r) (Some path)) (v, (h1, x))
    (found O C1 (v, (h1, x)) (psteps' (across a) (comps path)) (E ∨ long))) as Hwalk.
  { intros C1 h1 Hw1. eapply wpf_mono; [apply (walk_spec (S (length (slash :: path))) O C1 _ _ (across a)); [done|done|cbn [length]; lia]|done|].
    intros r' s' [Hg Ha]. split; [done|]. destruct r'; [done|]. destruct Ha; [by left|by right; left]. }
  assert (wpf E (mret (Some (crossed v r))) (v, (h, x)) (found O C (v, (h, x)) (Some (across a)) (E ∨ long))) as Hhere.
  { apply wpf_ret. split; [exists ∅; by apply grown_refl|by exists (across a)]. }
  destruct path as [|c1 path]; [done|]. destruct path as [|c2 path].
  { destruct (Z.eqb_spec c1 slash) as [->|]; [done|]. by apply Hwalk. }
  cbn [tail]. destruct (Z.leb_spec 256 (Z.of_nat (length (slash :: c1 :: c2 :: path)))) as [Hlong|]; [|by apply Hwalk].
  apply wpf_bind, wpf_wp, wp_heap. rewrite wrap_small by lia. destruct Hw as (Hi & HO & Hk). cbn [fst snd] in *. eapply wp_kh_malloc; [done|unfold HeapSpec.size_ok; lia| |].
  { intros h' Hr'. apply wpf_ret. split; [exists ∅; apply (grown_refl O C (v, (h', x)))|right; by right]. split_and!; [done..|]. done. }
  intros b l h' Hnb _ Hr'. pose proof Hnb as (_ & Hb0 & _ & Hb & _). destruct (Z.eqb_spec b 0); [done|].
  apply wpf_bind. eapply wpf_mono; [apply (Hwalk (<[b := l]> C))|done|].
  { split_and!; [done|etrans; [exact HO|by apply insert_subseteq]|done]. }
  intros r' [v' [h1 x']] [[D Hg] Ha]. pose proof Hg as (_ & (_ & _ & Hk1) & _). cbn [fst snd] in *.
  apply wpf_bind, wpf_wp, wp_heap. eapply wp_kfree; [done|done|rewrite lookup_union_l', lookup_insert_eq by (by rewrite lookup_insert_eq; eexists); by eexists|].
  intros h'' Hr''. apply wpf_ret. split; [|done]. exists D. by eapply grown_release.
Qed.

Lemma resolve_path_spec O C s path : world O C s → Z.of_nat (length path) < 2 ^ 63 →
  let devs := Exists fallible (dev_visits afind across adev path) in
  let roots := Exists fallible (root_visits afind aup across aroot path) in
  wpf (devs ∨ roots) (vfs_resolve_path fops (Some path)) s (λ r s', (∃ D, grown D O C s s') ∧
    match r with
    | Some q => ∃ a, stands s'.1 q a ∧ (place_of afind aup across aroot adev path = Some a ∨ devs ∧ root_place afind aup across aroot path = Some a)
    | None => place_of afind aup across aroot adev path = None ∨ 256 ≤ Z.of_nat (length path) ∨ devs ∨ roots
    end).
Proof using laws.
  intros Hw Hmax devs roots. destruct s as [v [h x]]. pose proof Hw as (Hi & _ & _). cbn [fst snd] in Hi.
  unfold place_of. destruct path as [|c path]; [apply wpf_ret; split; [exists ∅; by apply grown_refl|by left]|].
  cbn [vfs_resolve_path head]. destruct (Z.eqb_spec c slash) as [->|Hc].
  2: { rewrite (bool_decide_false (Some c = Some slash)) by congruence. apply wpf_ret. split; [exists ∅; by apply grown_refl|by left]. }
  rewrite (bool_decide_true (Some slash = Some slash)) by done. cbn [negb]. apply wpf_bind, wpf_wp, wp_gets. cbn [fst]. apply wpf_bind.
  assert (∀ r s', found O C (v, (h, x)) (dev_place afind across adev (slash :: path)) devs r s' →
    wpf (devs ∨ roots) match r with Some q => mret (Some q) | None => resolve_from_root fops (slash :: path) end s' (λ r s',
      (∃ D, grown D O C (v, (h, x)) s') ∧ match r with
      | Some q => ∃ a, stands s'.1 q a ∧ (match dev_place afind across adev (slash :: path) with Some a => Some a | None => root_place afind aup across aroot (slash :: path) end = Some a ∨
          devs ∧ root_place afind aup across aroot (slash :: path) = Some a)
      | None => match dev_place afind across adev (slash :: path) with Some a => Some a | None => root_place afind aup across aroot (slash :: path) end = None ∨
          256 ≤ Z.of_nat (length (slash :: path)) ∨ devs ∨ roots
      end)) as Hgo.
  { intros r s' [[D Hg] Ha]. destruct r as [q|]; cbn [answers] in Ha.
    - destruct Ha as (a & -> & Hq). apply wpf_ret. split; [by exists D|]. exists a. by split; [|left].
    - pose proof Hg as (_ & Hw' & _). eapply wpf_mono; [by apply (resolve_from_root_spec (O ∪ D) (C ∪ D))|by right|]. intros r s2 [[D' Hg'] Ha'].
      split; [exists (D ∪ D'); by eapply grown_trans|]. destruct r as [q|]; cbn [answers] in Ha'.
      + destruct Ha' as (a & Ea & Hq). exists a. split; [done|]. destruct Ha as [->|Hf]; [by left|by right].
      + destruct Ha as [->|Hf]; [|tauto]. destruct Ha' as [?|[?|?]]; tauto. }
  unfold dev_place, dev_visits in *. subst devs. pose proof (pl_dev laws _ _ _ Hi) as Hdev.
  destruct (bool_decide (take 5 (slash :: path) = dev_prefix)); cbn [andb].
  2: { apply wpf_ret, (Hgo None). split; [exists ∅; by apply grown_refl|by left]. }
  destruct (devfs_root v) as [d|].
  2: { rewrite Hdev in *. rewrite bool_decide_false by (by intros [? ?]). apply wpf_ret, (Hgo None). split; [exists ∅; by apply grown_refl|by left]. }
  destruct Hdev as (a & Ea & Hd). rewrite Ea in *. rewrite bool_decide_true by (by eexists). cbn [mbind option_bind] in *.
  eapply wpf_mono; [apply (dev_loop_spec (S (length (slash :: path))) O C _ d a); [done|done|rewrite length_drop; lia]|by left|].
  intros r s' Hf. by apply Hgo.
Qed.

(** C11. A path is resolved component by component: empty components and
    single dots are skipped, two dots lead to the parent, a mount point
    stands for the root mounted there, and what lies below /dev is looked up
    in the device file system first, with names longer than 63 characters in
    pieces.  Lookups may make new nodes ([places]: every driver that answers
    for the right place).  Resolution returns a node that stands for the place
    of the reference walk, keeps what every other node stands for, and leaves
    in the heap, besides the blocks of before, only those the lookups took for
    their nodes.  It returns NULL for an existing place only for want of
    memory, for the copy of a path of 256 characters or more or in a lookup
    that needs memory, and faults only when such a lookup does; a failing
    lookup below /dev can also make it answer from the root. *)
Theorem path_resolution O C v h x path : inv O v x → O ⊆ C → kh_rel h C → Z.of_nat (length path) < 2 ^ 63 →
  let devs := Exists fallible (dev_visits afind across adev path) in
  let roots := Exists fallible (root_visits afind aup across aroot path) in
  match vfs_resolve_path fops (Some path) (v, (h, x)) with
  | Ret (r, (v', (h', x'))) =>
      (∃ D, D ##ₘ C ∧ kh_rel h' (C ∪ D) ∧ inv (O ∪ D) v' x' ∧ ∀ q a, stands v q a → stands v' q a) ∧
      match r with
      | Some q => ∃ a, stands v' q a ∧
          (place_of afind aup across aroot adev path = Some a ∨ devs ∧ root_place afind aup across aroot path = Some a)
      | None => place_of afind aup across aroot adev path = None ∨ 256 ≤ Z.of_nat (length path) ∨ devs ∨ roots
      end
  | Fault => devs ∨ roots
  | _ => False
  end.
Proof using laws.
  intros Hi HO Hk Hmax devs roots. pose proof (resolve_path_spec O C (v, (h, x)) path ltac:(done) Hmax) as Hwp. cbv zeta in Hwp. fold devs roots in Hwp.
  unfold wpf in Hwp. destruct (vfs_resolve_path fops (Some path) (v, (h, x))) as [[r [v' [h' x']]]| | |]; [|done..].
  destruct Hwp as [(D & Hd & (Hi' & _ & Hk') & Hs) Hr]. split; [by exists D|done].
Qed.

End Places.

(** ** Drivers whose lookups leave the state alone

    The node itself is the place. *)
Section Spec.
  Context {H X : Type} `{KHeapLaws H}.
  Variable fops : Z → file_operations (vfs * (H * X)).
  Implicit Types (v : vfs) (h : H) (x : X) (C : gmap Z (list Z)) (p q : Z) (name path : list Z).

Abbreviation state := (vfs * (H * X))%type.

  Variable find : Z → list Z → option Z.

(** [dirs v]: pointers lead to nodes, and every directory is looked up by
    [find] without a change of state. *)
Record dirs v : Prop := {
  d_parent p n q : nodes v !! p = Some n → n_parent n = Some q → is_Some (nodes v !! q);
  d_mount p n q : nodes v !! p = Some n → has (n_flags n) FS_MOUNTPOINT = true → n_ptr n = Some q → is_Some (nodes v !! q);
  d_root q : vfs_root v = Some q → is_Some (nodes v !! q);
  d_dev q : devfs_root v = Some q → is_Some (nodes v !! q);
  d_find q name c : find q name = Some c → is_Some (nodes v !! c);
  d_leaf p n name : nodes v !! p = Some n → has (n_flags n) FS_DIRECTORY = false → find p name = None;
  d_dir p n name : nodes v !! p = Some n → has (n_flags n) FS_DIRECTORY = true →
    match ops_of fops n ≫= op_finddir with
    | Some f => ∀ (h : H) (x : X), wp (f p name) (v, (h, x)) (λ r s', r = find p name ∧ s' = (v, (h, x)))
    | None => find p name = None
    end;
}.

(** The reference: one component, then a whole path. *)
Definition step v p (c : list Z) : option Z :=
  if bool_decide (c = dotdot) then Some (up v p) else crossed v <$> find (crossed v p) c.

Fixpoint steps v p (cs : list (list Z)) : option Z :=
  match cs with [] => Some p | c :: cs' => step v p c ≫= λ q, steps v q cs' end.

Fixpoint dev_steps v p (cs : list (list Z)) : option Z :=
  match cs with [] => Some p | c :: cs' => find (crossed v p) c ≫= λ q, dev_steps v q cs' end.

Definition dev_resolve v path : option Z :=
  if bool_decide (take 5 path = dev_prefix) then devfs_root v ≫= λ d, dev_steps v d (dev_comps (drop 5 path)) else None.

Definition root_resolve v path : option Z := vfs_root v ≫= λ r, steps v (crossed v r) (comps path).

Definition resolve v path : option Z :=
  if bool_decide (head path = Some slash) then
    match dev_resolve v path with Some q => Some q | None => root_resolve v path end
  else None.

Lemma crossed_node v p : dirs v → is_Some (nodes v !! p) → is_Some (nodes v !! crossed v p).
Proof.
  intros Hd [n Hn]. unfold crossed. rewrite Hn. destruct (has _ _) eqn:E; [|by exists n].
  destruct (n_ptr n) as [q|] eqn:Eq; [by eapply d_mount|by exists n].
Qed.

Lemma up_node v p : dirs v → is_Some (nodes v !! p) → is_Some (nodes v !! up v p).
Proof. intros Hd [n Hn]. unfold up. rewrite Hn. destruct (n_parent n) as [q|] eqn:Eq; [by eapply d_parent|by exists n]. Qed.

Lemma steps_places v p cs : steps v p cs = psteps find (up v) (crossed v) p cs.
Proof. revert p. induction cs as [|c cs IH]; intros p; [done|]. cbn [steps psteps]. change (step v p c) with (pstep find (up v) (crossed v) p c). by destruct (pstep find (up v) (crossed v) p c) as [q|]; cbn; [apply IH|]. Qed.

Lemma dev_steps_places v p cs : dev_steps v p cs = dev_psteps find (crossed v) p cs.
Proof. revert p. induction cs as [|c cs IH]; intros p; [done|]. cbn [dev_steps dev_psteps]. by destruct (find (crossed v p) c) as [q|]; cbn; [apply IH|]. Qed.

Lemma resolve_places v path : resolve v path = place_of find (up v) (crossed v) (vfs_root v) (devfs_root v) path.
Proof.
  unfold resolve, place_of, dev_resolve, dev_place, root_resolve, root_place. destruct (bool_decide (head path = _)); [|done].
  destruct (vfs_root v) as [r|], (devfs_root v) as [d|]; cbn [mbind option_bind]; rewrite ?steps_places, ?dev_steps_places; done.
Qed.

(** Such a state, as places. *)
Lemma dirs_places v x : dirs v →
  places fops find (up v) (crossed v) (vfs_root v) (devfs_root v)
    (λ v' p q, p = q ∧ v' = v ∧ is_Some (nodes v !! q)) (λ O v' x', O = ∅ ∧ v' = v ∧ x' = x) (λ _, False).
Proof.
  intros Hd. split.
  - intros O v' x' p a (_ & -> & ->) (-> & _ & Hp). split; [done|]. split_and!; [done..|by apply crossed_node].
  - intros O v' x' p a (_ & -> & ->) (-> & _ & Hp). split_and!; [done..|by apply up_node].
  - intros O v' x' (_ & -> & ->). destruct (vfs_root v) as [q|] eqn:E; [|done]. exists q. split_and!; [done..|by apply (d_root _ Hd)].
  - intros O v' x' (_ & -> & ->). destruct (devfs_root v) as [q|] eqn:E; [|done]. exists q. split_and!; [done..|by apply (d_dev _ Hd)].
  - intros O v' x' p a n name (_ & -> & ->) (-> & _ & _) Hn Hl. destruct (has (n_flags n) FS_DIRECTORY) eqn:E; [|by apply (d_leaf _ Hd _ _ name Hn E)].
    destruct Hl as [|Hl]; [done|]. pose proof (d_dir _ Hd _ _ name Hn E) as Hf. by rewrite Hl in Hf.
  - intros O C v' h x' p a n f name ((E0 & E1 & E2) & HO & Hk) (-> & _ & Hp) Hn Hdir Hf. cbn [fst snd] in *. subst O v' x'.
    pose proof (d_dir _ Hd _ _ name Hn Hdir) as Hw. rewrite Hf in Hw. apply wpf_wp. eapply wp_mono; [apply Hw|].
    intros r s' [-> ->]. split; [exists ∅; by apply grown_refl|]. destruct (find a name) as [c|] eqn:Ef; [|by left].
    exists c. split_and!; [done..|by eapply d_find].
Qed.

(** What resolution may do besides: take a buffer from the heap and give it
    back, or fail for want of one. *)
Definition resolved v h x C path (want : option Z) (r : option Z) (s' : state) : Prop :=
  (r = want ∨ r = None ∧ 256 ≤ Z.of_nat (length path)) ∧ ∃ h', s' = (v, (h', x)) ∧ kh_rel h' C.

Lemma vfs_resolve_path_spec v h x C path : dirs v → kh_rel h C → Z.of_nat (length path) < 2 ^ 63 →
  wp (vfs_resolve_path fops (Some path)) (v, (h, x)) (resolved v h x C path (resolve v path)).
Proof.
  intros Hd Hk Hmax.
  pose proof (resolve_path_spec _ _ _ _ _ _ _ _ _ (dirs_places v x Hd) ∅ C (v, (h, x)) path (conj (conj eq_refl (conj eq_refl eq_refl)) (conj (map_empty_subseteq C) Hk)) Hmax) as Hr.
  cbv zeta in Hr. assert (∀ l : list Z, ¬ Exists (λ _, False) l) as Hno by (intros l [? [_ []]]%Exists_exists). rewrite <-resolve_places in Hr.
  unfold wp. unfold wpf in Hr. destruct (vfs_resolve_path fops (Some path) (v, (h, x))) as [[r s']| | |]; [|done|by destruct Hr as [[]%Hno|[]%Hno]|done].
  destruct Hr as [(D & _ & ((HD & E1 & E2) & _ & Hk') & _) Hr]. rewrite (left_id_L ∅ (∪)) in HD. subst D. rewrite map_union_empty in Hk'.
  destruct s' as [v' [h' x']]. cbn [fst snd] in *. subst v' x'. split; [|by exists h'].
  destruct r as [q|]; [destruct Hr as (a & (-> & _) & [Hr|[[]%Hno _]]); by left|].
  destruct Hr as [Hr|[Hr|[[]%Hno|[]%Hno]]]; [by left|by right].
Qed.

Lemma steps_app v p cs ds : steps v p (cs ++ ds) = steps v p cs ≫= λ q, steps v q ds.
Proof.
  revert p. induction cs as [|c cs IH]; intros p; cbn [app steps]; [done|]. destruct (step v p c) as [q|]; cbn [mbind option_bind]; [apply IH|done].
Qed.

Lemma steps_node v cs : dirs v → ∀ p q, is_Some (nodes v !! p) → steps v p cs = Some q → is_Some (nodes v !! q).
Proof.
  intros Hd. induction cs as [|c cs IH]; intros p q Hp; cbn [steps]; [by intros [= <-]|]. unfold step.
  destruct (bool_decide (c = dotdot)); cbn [mbind option_bind]; [apply IH; by apply up_node|].
  destruct (find (crossed v p) c) as [e|] eqn:Ef; [|done]. cbn. apply IH. apply crossed_node; [done|by eapply d_find].
Qed.

Lemma dev_steps_node v cs : dirs v → ∀ p q, is_Some (nodes v !! p) → dev_steps v p cs = Some q → is_Some (nodes v !! q).
Proof.
  intros Hd. induction cs as [|c cs IH]; intros p q Hp; cbn [dev_steps]; [by intros [= <-]|].
  destruct (find (crossed v p) c) as [e|] eqn:Ef; [|done]. cbn. apply IH. by eapply d_find.
Qed.

Lemma root_resolve_node v path q : dirs v → root_resolve v path = Some q → is_Some (nodes v !! q).
Proof.
  intros Hd. unfold root_resolve. destruct (vfs_root v) as [r|] eqn:Er; [|done]. cbn. apply steps_node; [done|].
  apply crossed_node; [done|by eapply d_root].
Qed.

Lemma resolve_node v path q : dirs v → resolve v path = Some q → is_Some (nodes v !! q).
Proof.
  intros Hd. unfold resolve. destruct (bool_decide _); [|done]. destruct (dev_resolve v path) as [e|] eqn:Ed; [|by apply root_resolve_node].
  intros [= <-]. unfold dev_resolve in Ed. destruct (bool_decide _); [|done]. destruct (devfs_root v) as [d|] eqn:Er; [|done].
  eapply dev_steps_node; [done|by eapply d_dev|exact Ed].
Qed.

End Spec.
End VfsSpec.
