(* ===== verification/Ramfs.v ===== *)
(** * The RAM file system ([fs/ramfs.c])

    The root file system.  Directories link their children through [children]
    and [next]; a file points to a [ramfs_file_data_t], whose buffer is a
    block of the heap. *)
From S2P Require Import Prelude HeapTheorems Kheap Vfs.

Module Ramfs.
Import Kheap Vfs.

(** The address of [ramfs_fops]. *)
Definition RAMFS : Z := 1.
Definition sizeof_file_data : Z := 16.

Section Ramfs.
  Context {H X : Type} `{KHeap H}.

Abbreviation state := (vfs * (H * X))%type.

Definition load_fdata (p : Z) : M state ramfs_file_data := deref (λ s : state, fdatas s.1 !! p).

Definition ramfs_read (p offset size : Z) : M state (Z * list Z) :=
  n ← load p;
  match n_ptr n with
  | None => mret (0, [])
  | Some f =>
      if n_length n <=? offset then mret (0, []) else
      let bytes_to_read := if n_length n <? u64 (offset + size) then u64 (n_length n - offset) else size in
      fdata ← load_fdata f;
      data ← heap (copy_from (fd_buffer fdata) offset (Z.to_nat bytes_to_read));
      mret (bytes_to_read, data)
  end.

(** [fdata->buffer] grown to hold [required_size] bytes; [None] when the heap
    has no room. *)
Definition grow (f : Z) (required_size : Z) : M state (option Z) :=
  fdata ← load_fdata f;
  if fd_capacity fdata <? required_size then
    let new_cap := u64 (required_size + 1024) in
    new_buf ← heap (krealloc (fd_buffer fdata) new_cap);
    if new_buf =? 0 then mret None else
    vset (with_fdatas <[f := mk_fdata new_buf new_cap]>);;
    mret (Some new_buf)
  else mret (Some (fd_buffer fdata)).

Definition ramfs_write (p offset size : Z) (buffer : list Z) : M state Z :=
  n ← load p;
  match n_ptr n with
  | None => mret (-1)
  | Some f =>
      let required_size := u64 (offset + size) in
      r ← grow f required_size;
      match r with
      | None => mret (-1)
      | Some dest =>
          heap (copy_to dest offset (take (Z.to_nat size) buffer));;
          when Z.of_nat (length buffer) <? size do fault;;
          when n_length n <? required_size do store p (set_length required_size);;
          mret size
      end
  end.

(** Walks along [next]; the number of nodes bounds the walk. *)
Definition rounds : M state nat := vget (λ v, S (size (nodes v))).

Fixpoint nth_child (fuel : nat) (child : option Z) (index i : Z) : M state (option Z) :=
  match fuel, child with
  | O, _ => λ _, Wait
  | _, None => mret None
  | S fuel', Some c => if i =? index then mret (Some c) else n ← load c; nth_child fuel' (n_next n) index (u32 (i + 1))
  end.

Definition ramfs_readdir (p index : Z) : M state (option Z) :=
  n ← load p;
  if negb (has (n_flags n) FS_DIRECTORY) then mret None else
  fuel ← rounds;
  nth_child fuel (n_children n) index 0.

Fixpoint find_child (fuel : nat) (child : option Z) (name : list Z) : M state (option Z) :=
  match fuel, child with
  | O, _ => λ _, Wait
  | _, None => mret None
  | S fuel', Some c =>
      n ← load c;
      if bool_decide (n_name n = name) then mret (Some c) else find_child fuel' (n_next n) name
  end.

Definition ramfs_finddir (p : Z) (name : list Z) : M state (option Z) :=
  n ← load p;
  if negb (has (n_flags n) FS_DIRECTORY) then mret None else
  fuel ← rounds;
  find_child fuel (n_children n) name.

(** ** Creation *)

(** [kzalloc(sizeof(vfs_node_t))]. *)
Definition new_node : M state (option Z) :=
  p ← heap (kzalloc sizeof_vfs_node);
  if p =? 0 then mret None else
  vset (with_nodes <[p := zero_node]>);;
  mret (Some p).

(** [strncpy(node->name, name, sizeof(node->name) - 1)] on a zeroed node. *)
Definition node_name (name : list Z) : list Z := take 127 name.

Fixpoint last_child (fuel : nat) (curr : Z) : M state Z :=
  match fuel with
  | O => λ _, Wait
  | S fuel' => n ← load curr; match n_next n with Some nx => last_child fuel' nx | None => mret curr end
  end.

Definition append_child (parent child : Z) : M state unit :=
  n ← load parent;
  match n_children n with
  | None => store parent (set_children (Some child))
  | Some first =>
      fuel ← rounds;
      curr ← last_child fuel first;
      store curr (set_next (Some child))
  end.

Definition ramfs_create_root : M state Z :=
  r ← new_node;
  match r with
  | None => fault
  | Some root =>
      store root (λ _, mk_node [slash] FS_DIRECTORY 493 0 0 0 (Some RAMFS) None (Some root) None None);;
      mret root
  end.

Definition ramfs_create_directory (parent : option Z) (name : list Z) : M state (option Z) :=
  if bool_decide (name = []) then mret None else
  existing ← match parent with Some p => ramfs_finddir p name | None => mret None end;
  match existing with
  | Some e => mret (Some e)
  | None =>
      r ← new_node;
      match r with
      | None => mret None
      | Some dir =>
          store dir (λ _, mk_node (node_name name) FS_DIRECTORY 493 0 0 0 (Some RAMFS) None (Some (default dir parent)) None None);;
          match parent with Some p => append_child p dir | None => mret tt end;;
          mret (Some dir)
      end
  end.

Definition free_node (p : Z) : M state unit := heap (kfree p);; vset (with_nodes (delete p)).
Definition free_fdata (p : Z) : M state unit := heap (kfree p);; vset (with_fdatas (delete p)).

(** The buffer of a new file; [None] when the heap has no room. *)
Definition initial_data (data : option (list Z)) (size : Z) : M state (option ramfs_file_data) :=
  match data with
  | Some d =>
      if 0 <? size then
        buffer ← heap (kmalloc size);
        if buffer =? 0 then mret None else
        heap (copy_to buffer 0 (take (Z.to_nat size) d));;
        mret (Some (mk_fdata buffer size))
      else mret (Some (mk_fdata 0 0))
  | None => mret (Some (mk_fdata 0 0))
  end.

Definition ramfs_create_file (parent : option Z) (name : list Z) (data : option (list Z)) (size : Z) : M state (option Z) :=
  r ← new_node;
  match r with
  | None => mret None
  | Some file =>
      store file (λ _, mk_node (node_name name) FS_FILE 420 0 size 0 (Some RAMFS) None parent None None);;
      f ← heap (kzalloc sizeof_file_data);
      if f =? 0 then free_node file;; mret None else
      vset (with_fdatas <[f := mk_fdata 0 0]>);;
      init ← initial_data data size;
      match init with
      | None => free_fdata f;; free_node file;; mret None
      | Some fd =>
          vset (with_fdatas <[f := fd]>);;
          store file (set_ptr (Some f));;
          match parent with Some p => append_child p file | None => mret tt end;;
          mret (Some file)
      end
  end.

Definition ramfs_vfs_create (dir : Z) (name : list Z) (flags : Z) : M state (option Z) :=
  if has flags FS_DIRECTORY then ramfs_create_directory (Some dir) name
  else ramfs_create_file (Some dir) name None 0.

Definition ramfs_fops : file_operations state :=
  mk_fops (Some ramfs_read) (Some ramfs_write) None None (Some ramfs_readdir) (Some ramfs_finddir) (Some ramfs_vfs_create).

Fixpoint ramfs_mkdir_p (dir : option Z) (names : list (list Z)) : M state (option Z) :=
  match dir, names with
  | Some _, name :: names' => d ← ramfs_create_directory dir name; ramfs_mkdir_p d names'
  | _, _ => mret dir
  end.

  (** Other drivers by the addresses of their tables. *)
  Variable others : Z → file_operations state.

Definition fops (t : Z) : file_operations state := if t =? RAMFS then ramfs_fops else others t.

(** Copies of the node of busybox under other names, in front of the
    children of /bin. *)
Fixpoint ramfs_create_busybox_links (bin_dir bbox_node : Z) (applets : list (list Z)) : M state unit :=
  match applets with
  | [] => mret tt
  | applet :: rest =>
      found ← vfs_finddir fops (Some bin_dir) applet;
      match found with
      | Some _ => mret tt
      | None =>
          r ← new_node;
          match r with
          | None => mret tt
          | Some link =>
              bbox ← load bbox_node;
              dir ← load bin_dir;
              store link (λ _, set_next (n_children dir) (set_parent (Some bin_dir) (set_name (node_name applet) bbox)));;
              store bin_dir (set_children (Some link))
          end
      end;;
      ramfs_create_busybox_links bin_dir bbox_node rest
  end.

  Variable page_cache_init : M state unit.

(** [vfs_subsys_initcall] of [vfs.c]: an empty cache, an empty root. *)
Definition vfs_subsys_initcall : M state unit :=
  vfs_init;;
  page_cache_init;;
  ramfs_root ← ramfs_create_root;
  vfs_mount fops (Some [slash]) (Some ramfs_root);;
  mret tt.

End Ramfs.
End Ramfs.
