(* ===== verification/RamfsSpec.v ===== *)
(** * Correctness of the RAM file system: directories

    [K] gives the children of every ramfs directory, in order.  Lookups find
    the first child of a name; creating a node appends it. *)
From S2P Require Import Prelude Links HeapSpec HeapTheorems Kheap Vfs VfsSpec Ramfs.

Module RamfsSpec.
Import HeapTheorems Kheap Vfs VfsSpec Ramfs.

(** The nodes of [l] are linked in this order through [next]. *)
Fixpoint siblings (N : gmap Z node) (l : list Z) : Prop :=
  match l with
  | [] => True
  | c :: l' => n_next <$> N !! c = Some (head l') ∧ siblings N l'
  end.

(** The first node of [l] with this name. *)
Fixpoint find_name (N : gmap Z node) (l : list Z) (name : list Z) : option Z :=
  match l with
  | [] => None
  | c :: l' => if bool_decide (n_name <$> N !! c = Some name) then Some c else find_name N l' name
  end.

Definition is_dir (n : node) : Prop := has (n_flags n) FS_DIRECTORY = true ∧ n_ops n = Some RAMFS.

#[export] Instance is_dir_dec n : Decision (is_dir n).
Proof. unfold is_dir. apply _. Defined.

(** The blocks behind nodes and files. *)
Definition fdata_ok (C : gmap Z (list Z)) (d : ramfs_file_data) : Prop :=
  fd_buffer d = 0 ∧ fd_capacity d = 0 ∨
  fd_buffer d ≠ 0 ∧ fd_capacity d < 2 ^ 63 ∧ ∃ b, C !! fd_buffer d = Some b ∧ Z.of_nat (length b) = fd_capacity d.

Record blocks_ok (v : vfs) (C : gmap Z (list Z)) : Prop := {
  bo_node p : is_Some (nodes v !! p) → p ≠ 0 ∧ length <$> C !! p = Some 200%nat;
  bo_fdata f : is_Some (fdatas v !! f) → f ≠ 0 ∧ length <$> C !! f = Some 16%nat;
  bo_buffer f d : fdatas v !! f = Some d → fdata_ok C d;
  bo_apart f d : fdatas v !! f = Some d → fd_buffer d ≠ 0 → nodes v !! fd_buffer d = None ∧ fdatas v !! fd_buffer d = None;
  bo_inj f g d e : fdatas v !! f = Some d → fdatas v !! g = Some e → fd_buffer d ≠ 0 → fd_buffer d = fd_buffer e → f = g;
}.

Record tree_ok (v : vfs) (K : gmap Z (list Z)) : Prop := {
  to_dom p : is_Some (K !! p) ↔ ∃ n, nodes v !! p = Some n ∧ is_dir n;
  to_head p l n : K !! p = Some l → nodes v !! p = Some n → n_children n = head l;
  to_kids p l : K !! p = Some l → siblings (nodes v) l ∧ NoDup l;
  to_parent p l c : K !! p = Some l → c ∈ l → ∃ n, nodes v !! c = Some n ∧ n_parent n = Some p;
}.

(** A file's bytes are in its buffer. *)
Definition files_ok (v : vfs) : Prop := ∀ p n f, nodes v !! p = Some n → n_ops n = Some RAMFS → has (n_flags n) FS_DIRECTORY = false →
  n_ptr n = Some f → ∃ d, fdatas v !! f = Some d ∧ 0 ≤ n_length n ≤ fd_capacity d.

Record fs_ok (v : vfs) (C K : gmap Z (list Z)) : Prop := {
  fo_blocks : blocks_ok v C;
  fo_tree : tree_ok v K;
  fo_files : files_ok v;
}.

Lemma siblings_node N l c : siblings N l → c ∈ l → is_Some (N !! c).
Proof.
  induction l as [|y l IH]; cbn [siblings]; intros Hs Hc; [set_solver|]. destruct Hs as [Hy Hs].
  apply elem_of_cons in Hc as [->|Hc]; [|by apply IH]. destruct (N !! y); [by eexists|done].
Qed.

Lemma siblings_ext N N' l : (∀ c, c ∈ l → n_next <$> N' !! c = n_next <$> N !! c) → siblings N l → siblings N' l.
Proof.
  induction l as [|y l IH]; cbn [siblings]; intros He Hs; [done|]. destruct Hs as [Hy Hs].
  split; [rewrite He; [done|set_solver]|]. apply IH; [|done]. intros c Hc. apply He. set_solver.
Qed.

Lemma siblings_rounds N l : siblings N l → NoDup l → (length l < S (size N))%nat.
Proof.
  intros Hs Hn. assert (length l ≤ size N)%nat; [|lia]. rewrite <-size_dom, <-(size_list_to_set (C := gset Z) l) by done.
  apply subseteq_size. intros c Hc%elem_of_list_to_set. apply elem_of_dom. by eapply siblings_node.
Qed.

Lemma find_name_ext N N' l name : (∀ c, c ∈ l → n_name <$> N' !! c = n_name <$> N !! c) → find_name N' l name = find_name N l name.
Proof.
  induction l as [|y l IH]; cbn [find_name]; intros He; [done|]. rewrite He by set_solver. rewrite IH; [done|].
  intros c Hc. apply He. set_solver.
Qed.

Lemma find_name_app N l l' name : find_name N (l ++ l') name = match find_name N l name with Some c => Some c | None => find_name N l' name end.
Proof. induction l as [|y l IH]; cbn [app find_name]; [done|]. by destruct (bool_decide _). Qed.

Lemma find_name_elem N l name c : find_name N l name = Some c → c ∈ l ∧ n_name <$> N !! c = Some name.
Proof.
  induction l as [|y l IH]; cbn [find_name]; [done|]. destruct (bool_decide_reflect (n_name <$> N !! y = Some name)).
  - intros [= ->]. split; [set_solver|done].
  - intros E%IH. set_solver.
Qed.

(** A node without its links. *)
Definition core (n : node) : node := set_next None (set_children None n).

Definition same_core (N N' : gmap Z node) : Prop := ∀ q, core <$> N' !! q = core <$> N !! q.

Lemma node_core_alter f e N : (∀ n, core (f n) = core n) → same_core N (alter f e N).
Proof.
  intros Hf q. destruct (decide (q = e)) as [->|]; [|by rewrite lookup_alter_ne]. rewrite lookup_alter_eq.
  destruct (N !! e) as [n|]; [|done]. cbn [fmap option_fmap option_map]. by rewrite Hf.
Qed.

Lemma same_core_fmap {B} (g : node → B) N N' q : (∀ n m, core n = core m → g n = g m) → same_core N N' → g <$> N' !! q = g <$> N !! q.
Proof.
  intros Hg He. specialize (He q). destruct (N' !! q) as [n|], (N !! q) as [m|]; try done. cbn. f_equal. apply Hg. by apply (inj Some) in He.
Qed.

Lemma same_core_name N N' q : same_core N N' → n_name <$> N' !! q = n_name <$> N !! q.
Proof. apply same_core_fmap. by intros [] [] [= -> -> -> -> -> -> -> -> ->]. Qed.

Lemma same_core_Some N N' q n : same_core N N' → N' !! q = Some n → ∃ m, N !! q = Some m ∧ core n = core m.
Proof. intros He Hn. specialize (He q). rewrite Hn in He. destruct (N !! q) as [m|]; [|done]. exists m. split; [done|]. by apply (inj Some) in He. Qed.

Lemma same_core_sym N N' : same_core N N' → same_core N' N.
Proof. intros He q. symmetry. apply He. Qed.

Lemma core_is_dir n m : core n = core m → is_dir n → is_dir m.
Proof. unfold is_dir. destruct n, m. by intros [= -> -> -> -> -> -> -> -> ->]. Qed.

Lemma core_parent n m : core n = core m → n_parent n = n_parent m.
Proof. destruct n, m. by intros [= -> -> -> -> -> -> -> -> ->]. Qed.

Lemma siblings_snoc N l e c : siblings N (l ++ [e]) → NoDup (l ++ [e]) → c ∉ l ++ [e] → n_next <$> N !! c = Some None →
  siblings (alter (set_next (Some c)) e N) ((l ++ [e]) ++ [c]).
Proof.
  induction l as [|y l IH]; cbn [app siblings]; intros Hs Hn Hc Hcn.
  - destruct Hs as [He _]. rewrite lookup_alter_eq, lookup_alter_ne by set_solver. destruct (N !! e); [|done]. done.
  - destruct Hs as [Hy Hs]. apply NoDup_cons in Hn as [Hny Hn]. rewrite lookup_alter_ne by set_solver. split.
    + rewrite Hy. by destruct l.
    + apply IH; [done|done|set_solver|done].
Qed.

Section Walks.
  Context {H X : Type} `{KHeapLaws H}.
  Implicit Types (v : vfs) (h : H) (x : X) (N : gmap Z node) (K C : gmap Z (list Z)) (p q c : Z) (l name : list Z).

Abbreviation state := (vfs * (H * X))%type.

Lemma find_child_spec (s : state) name : ∀ l fuel, siblings (nodes s.1) l → (length l < fuel)%nat →
  wp (find_child fuel (head l) name) s (λ r s', r = find_name (nodes s.1) l name ∧ s' = s).
Proof.
  induction l as [|y l IH]; intros fuel Hs Hf; destruct fuel as [|fuel]; simpl in Hf; try lia; cbn [find_child head find_name]; [by apply wp_ret|].
  destruct Hs as [Hy Hs]. destruct (nodes s.1 !! y) as [n|] eqn:En; [|done]. injection Hy as Hy.
  apply wp_bind. eapply wp_deref; [done|]. cbn [fmap option_fmap option_map].
  destruct (bool_decide_reflect (n_name n = name)) as [->|Hne]; [by rewrite bool_decide_true by done; apply wp_ret|].
  rewrite bool_decide_false by congruence. rewrite Hy. apply IH; [done|lia].
Qed.

Lemma nth_child_spec (s : state) index : ∀ l fuel i, siblings (nodes s.1) l → (length l < fuel)%nat → 0 ≤ i ≤ index → index < 2 ^ 32 - 1 →
  wp (nth_child fuel (head l) index i) s (λ r s', r = l !! Z.to_nat (index - i) ∧ s' = s).
Proof.
  induction l as [|y l IH]; intros fuel i Hs Hf Hi Hx; destruct fuel as [|fuel]; simpl in Hf; try lia; cbn [nth_child head]; [by apply wp_ret|].
  destruct (Z.eqb_spec i index) as [->|Hne]; [apply wp_ret; by rewrite Z.sub_diag|].
  destruct Hs as [Hy Hs]. destruct (nodes s.1 !! y) as [n|] eqn:En; [|done]. injection Hy as Hy.
  apply wp_bind. eapply wp_deref; [done|]. rewrite Hy, wrap_small by lia.
  replace (Z.to_nat (index - i)) with (S (Z.to_nat (index - (i + 1)))) by lia. apply IH; [done|lia|lia|lia].
Qed.

Lemma last_child_spec (s : state) c : ∀ l fuel, siblings (nodes s.1) (l ++ [c]) → (length l < fuel)%nat →
  wp (last_child fuel (default c (head l))) s (λ r s', r = c ∧ s' = s).
Proof.
  induction l as [|y l IH]; intros fuel Hs Hf; destruct fuel as [|fuel]; simpl in Hf; try lia; cbn [last_child head default app siblings] in *.
  - destruct Hs as [Hc _]. destruct (nodes s.1 !! c) as [n|] eqn:En; [|done]. injection Hc as Hc.
    apply wp_bind. eapply wp_deref; [done|]. rewrite Hc. by apply wp_ret.
  - destruct Hs as [Hy Hs]. destruct (nodes s.1 !! y) as [n|] eqn:En; [|done]. injection Hy as Hy.
    apply wp_bind. eapply wp_deref; [done|]. rewrite Hy. destruct l as [|z l]; (apply IH; [exact Hs|lia]).
Qed.

Lemma ramfs_finddir_spec v h x K p l name : tree_ok v K → K !! p = Some l →
  wp (ramfs_finddir p name) (v, (h, x)) (λ r s', r = find_name (nodes v) l name ∧ s' = (v, (h, x))).
Proof.
  intros HT Hp. destruct (proj1 (to_dom _ _ HT p) ltac:(by eexists)) as (n & Hn & Hd & _). destruct (to_kids _ _ HT _ _ Hp) as [Hs Hnd].
  apply wp_bind. eapply wp_deref; [done|]. rewrite Hd. cbn [negb]. apply wp_bind, wp_gets. rewrite (to_head _ _ HT _ _ _ Hp Hn).
  apply (find_child_spec (v, (h, x))); [done|]. by apply siblings_rounds.
Qed.

Lemma ramfs_readdir_spec v h x K p l index : tree_ok v K → K !! p = Some l → 0 ≤ index < 2 ^ 32 - 1 →
  wp (ramfs_readdir p index) (v, (h, x)) (λ r s', r = l !! Z.to_nat index ∧ s' = (v, (h, x))).
Proof.
  intros HT Hp Hi. destruct (proj1 (to_dom _ _ HT p) ltac:(by eexists)) as (n & Hn & Hd & _). destruct (to_kids _ _ HT _ _ Hp) as [Hs Hnd].
  apply wp_bind. eapply wp_deref; [done|]. rewrite Hd. cbn [negb]. apply wp_bind, wp_gets. rewrite (to_head _ _ HT _ _ _ Hp Hn).
  eapply wp_mono; [apply (nth_child_spec (v, (h, x))); [done|by apply siblings_rounds|lia|lia]|]. by rewrite Z.sub_0_r.
Qed.

Lemma tree_ok_append v K p c l n N' : tree_ok v K → K !! p = Some l → nodes v !! c = Some n → n_parent n = Some p →
  (∀ q l', K !! q = Some l' → c ∉ l') → same_core (nodes v) N' →
  (∀ q l' m, <[p := l ++ [c]]> K !! q = Some l' → N' !! q = Some m → n_children m = head l') →
  (∀ q l', <[p := l ++ [c]]> K !! q = Some l' → siblings N' l') →
  tree_ok (with_nodes (λ _, N') v) (<[p := l ++ [c]]> K).
Proof.
  intros HT Hp Hc Hpar Hnew He Hhead Hsib. split; cbn [with_nodes nodes].
  - intros q. assert (is_Some (<[p := l ++ [c]]> K !! q) ↔ is_Some (K !! q)) as ->.
    { destruct (decide (q = p)) as [->|]; [rewrite lookup_insert_eq|by rewrite lookup_insert_ne]. split; by eexists. }
    rewrite (to_dom _ _ HT). split; intros (m & Hm & Hd).
    + destruct (same_core_Some _ _ _ _ (same_core_sym _ _ He) Hm) as (m' & Hm' & Em). exists m'. split; [done|by eapply core_is_dir].
    + destruct (same_core_Some _ _ _ _ He Hm) as (m' & Hm' & Em). exists m'. split; [done|by eapply core_is_dir].
  - exact Hhead.
  - intros q l' Hq. split; [by eapply Hsib|]. destruct (decide (q = p)) as [->|Hne].
    + rewrite lookup_insert_eq in Hq. injection Hq as <-. apply NoDup_app. destruct (to_kids _ _ HT _ _ Hp) as [_ Hn].
      split_and!; [done| |apply NoDup_singleton]. intros y Hy ->%list_elem_of_singleton. by eapply Hnew.
    + rewrite lookup_insert_ne in Hq by done. by apply (to_kids _ _ HT _ _ Hq).
  - assert (∀ q y, (∃ m, nodes v !! y = Some m ∧ n_parent m = Some q) → ∃ m, N' !! y = Some m ∧ n_parent m = Some q) as Hpp.
    { intros q y (m & Hm & Hq). destruct (same_core_Some _ _ _ _ (same_core_sym _ _ He) Hm) as (m' & Hm' & Em). exists m'. split; [done|].
      by rewrite <-(core_parent _ _ Em). }
    intros q l' y Hq Hy. apply Hpp. destruct (decide (q = p)) as [->|Hne].
    + rewrite lookup_insert_eq in Hq. injection Hq as <-. apply elem_of_app in Hy as [Hy| ->%list_elem_of_singleton]; [by eapply to_parent|by exists n].
    + rewrite lookup_insert_ne in Hq by done. by eapply to_parent.
Qed.

Lemma wp_node_store v h x p n f (Q : unit → state → Prop) : nodes v !! p = Some n →
  Q tt (with_nodes (λ _, <[p := f n]> (nodes v)) v, (h, x)) → wp (store p f) (v, (h, x)) Q.
Proof.
  intros Hn HQ. apply wp_bind. eapply wp_deref; [done|]. apply wp_modify. unfold with_nodes in *. cbn [fst snd].
  by rewrite (alter_as_insert _ _ _ _ Hn).
Qed.

Lemma append_child_spec v h x K p c l n : tree_ok v K → K !! p = Some l → nodes v !! c = Some n → n_parent n = Some p → n_next n = None →
  (∀ q l', K !! q = Some l' → c ∉ l') →
  wp (append_child p c) (v, (h, x)) (λ _ s', ∃ N', s' = (with_nodes (λ _, N') v, (h, x)) ∧
    tree_ok (with_nodes (λ _, N') v) (<[p := l ++ [c]]> K) ∧ same_core (nodes v) N').
Proof.
  intros HT Hp Hc Hpar Hnx Hnew. destruct (proj1 (to_dom _ _ HT p) ltac:(by eexists)) as (np & Hnp & _).
  destruct (to_kids _ _ HT _ _ Hp) as [Hs Hnd]. apply wp_bind. eapply wp_deref; [done|]. rewrite (to_head _ _ HT _ _ _ Hp Hnp).
  destruct l as [|e l _] using rev_ind.
  - eapply wp_node_store; [done|]. rewrite <-(alter_as_insert (set_children (Some c)) _ _ _ Hnp).
    assert (same_core (nodes v) (alter (set_children (Some c)) p (nodes v))) as He by by apply node_core_alter.
    exists (alter (set_children (Some c)) p (nodes v)). split_and!; [done| |done]. eapply tree_ok_append; [done|done|done|done|done|done| |].
    + intros q l' m Hq Hm. destruct (decide (q = p)) as [->|Hne].
      * rewrite lookup_insert_eq in Hq. injection Hq as <-. rewrite lookup_alter_eq, Hnp in Hm. by injection Hm as <-.
      * rewrite lookup_insert_ne in Hq by done. rewrite lookup_alter_ne in Hm by done. by eapply to_head.
    + assert (∀ y, n_next <$> alter (set_children (Some c)) p (nodes v) !! y = n_next <$> nodes v !! y) as Hsame.
      { intros y. destruct (decide (y = p)) as [->|]; [rewrite lookup_alter_eq, Hnp; done|by rewrite lookup_alter_ne]. }
      intros q l' Hq. destruct (decide (q = p)) as [->|Hne].
      * rewrite lookup_insert_eq in Hq. injection Hq as <-. cbn [app siblings head]. rewrite Hsame, Hc. cbn. by rewrite Hnx.
      * rewrite lookup_insert_ne in Hq by done. eapply siblings_ext; [|by apply (to_kids _ _ HT _ _ Hq)]. intros y _. apply Hsame.
  - destruct (siblings_node _ _ e Hs) as [ne Hne]; [set_solver|].
    assert (head (l ++ [e]) = Some (default e (head l))) as -> by by destruct l.
    apply wp_bind, wp_gets, wp_bind. eapply wp_mono; [apply (last_child_spec (v, (h, x)) e l); [done|]|].
    { pose proof (siblings_rounds _ _ Hs Hnd) as Hr. rewrite length_app in Hr. cbn [fst]. lia. }
    intros r s' [-> ->]. eapply wp_node_store; [done|]. rewrite <-(alter_as_insert (set_next (Some c)) _ _ _ Hne).
    assert (same_core (nodes v) (alter (set_next (Some c)) e (nodes v))) as He by by apply node_core_alter.
    exists (alter (set_next (Some c)) e (nodes v)). split_and!; [done| |done]. eapply tree_ok_append; [done|done|done|done|done|done| |].
    + intros q l' m Hq Hm. assert (∃ m', nodes v !! q = Some m' ∧ n_children m' = n_children m) as (m' & Hm' & <-).
      { destruct (decide (q = e)) as [->|]; [rewrite lookup_alter_eq, Hne in Hm; injection Hm as <-; by exists ne|].
        rewrite lookup_alter_ne in Hm by done. by exists m. }
      destruct (decide (q = p)) as [->|Hqp].
      * rewrite lookup_insert_eq in Hq. injection Hq as <-. rewrite (to_head _ _ HT _ _ _ Hp Hm'). by destruct l.
      * rewrite lookup_insert_ne in Hq by done. by eapply to_head.
    + intros q l' Hq. destruct (decide (q = p)) as [->|Hqp].
      * rewrite lookup_insert_eq in Hq. injection Hq as <-. apply siblings_snoc; [done|done|by eapply Hnew|]. rewrite Hc. cbn. by rewrite Hnx.
      * rewrite lookup_insert_ne in Hq by done. eapply siblings_ext; [|by apply (to_kids _ _ HT _ _ Hq)].
        intros y Hy. rewrite lookup_alter_ne; [done|]. intros <-.
        destruct (to_parent _ _ HT _ _ e Hp ltac:(set_solver)) as (m1 & Hm1 & Hp1), (to_parent _ _ HT _ _ e Hq Hy) as (m2 & Hm2 & Hp2). congruence.
Qed.

End Walks.
End RamfsSpec.
