(* ===== verification/RamfsCreate.v ===== *)
(** * Correctness of the RAM file system: creating nodes

    A new node is a fresh block of the heap at the end of its directory;
    nothing else changes, and when the heap has no room nothing changes at
    all. *)
From S2P Require Import Prelude Links CStringSpec HeapSpec HeapTheorems Kheap Vfs VfsSpec Ramfs RamfsSpec.

Module RamfsCreate.
Import HeapTheorems Kheap Vfs VfsSpec Ramfs RamfsSpec.

Implicit Types (v : vfs) (N : gmap Z node) (K C : gmap Z (list Z)) (p q c : Z) (l name : list Z) (d : ramfs_file_data).

Lemma blocks_ok_fresh v C p : blocks_ok v C → C !! p = None → nodes v !! p = None ∧ fdatas v !! p = None.
Proof.
  intros HB Hp. split.
  - destruct (nodes v !! p) as [n|] eqn:E; [|done]. destruct (bo_node _ _ HB p) as [_ Hl]; [by eexists|]. by rewrite Hp in Hl.
  - destruct (fdatas v !! p) as [n|] eqn:E; [|done]. destruct (bo_fdata _ _ HB p) as [_ Hl]; [by eexists|]. by rewrite Hp in Hl.
Qed.

Lemma fdata_ok_insert C d p l : fdata_ok C d → C !! p = None → fdata_ok (<[p := l]> C) d.
Proof.
  intros [?|(Hb & Hc & b & HC & Hl)] Hp; [by left|]. right. split_and!; [done|done|]. exists b. split; [|done].
  rewrite lookup_insert_ne; [done|]. congruence.
Qed.

Lemma length_insert_ne C p q (l : list Z) n : length <$> C !! q = Some n → C !! p = None → length <$> <[p := l]> C !! q = Some n.
Proof. intros Hq Hp. destruct (decide (p = q)) as [->|]; [by rewrite Hp in Hq|by rewrite lookup_insert_ne]. Qed.

Lemma blocks_ok_node v C p n l : blocks_ok v C → C !! p = None → p ≠ 0 → length l = 200%nat →
  blocks_ok (with_nodes <[p := n]> v) (<[p := l]> C).
Proof.
  intros HB Hp H0 Hl. split; cbn [with_nodes nodes fdatas].
  - intros q. destruct (decide (p = q)) as [<-|Hne].
    + intros _. by rewrite lookup_insert_eq, <-Hl.
    + rewrite lookup_insert_ne by done. intros Hq. destruct (bo_node _ _ HB _ Hq) as [? Hlq]. split; [done|by apply length_insert_ne].
  - intros f Hf. destruct (bo_fdata _ _ HB _ Hf) as [? Hlf]. split; [done|by apply length_insert_ne].
  - intros f d Hf. apply fdata_ok_insert; [by eapply bo_buffer|done].
  - intros f d Hf Hd. destruct (bo_apart _ _ HB _ _ Hf Hd) as [? ?]. split; [|done]. rewrite lookup_insert_ne; [done|]. intros ->.
    destruct (bo_buffer _ _ HB _ _ Hf) as [[? ?]|(_ & _ & b & Hb & _)]; congruence.
  - apply HB.
Qed.

Lemma blocks_ok_fdata v C p d l : blocks_ok v C → C !! p = None → p ≠ 0 → length l = 16%nat → fd_buffer d = 0 → fd_capacity d = 0 →
  blocks_ok (with_fdatas <[p := d]> v) (<[p := l]> C).
Proof.
  intros HB Hp H0 Hl Hd0 Hc0. split; cbn [with_fdatas nodes fdatas].
  - intros q Hq. destruct (bo_node _ _ HB _ Hq) as [? Hlq]. split; [done|by apply length_insert_ne].
  - intros f. destruct (decide (p = f)) as [<-|Hne].
    + intros _. by rewrite lookup_insert_eq, <-Hl.
    + rewrite lookup_insert_ne by done. intros Hf. destruct (bo_fdata _ _ HB _ Hf) as [? Hlf]. split; [done|by apply length_insert_ne].
  - intros f e. destruct (decide (p = f)) as [<-|Hne].
    + rewrite lookup_insert_eq. intros [= <-]. by left.
    + rewrite lookup_insert_ne by done. intros Hf. apply fdata_ok_insert; [by eapply bo_buffer|done].
  - intros f e. destruct (decide (p = f)) as [<-|Hne]; [rewrite lookup_insert_eq; by intros [= <-]|].
    rewrite lookup_insert_ne by done. intros Hf He. destruct (bo_apart _ _ HB _ _ Hf He) as [? ?]. split; [done|]. rewrite lookup_insert_ne; [done|]. intros ->.
    destruct (bo_buffer _ _ HB _ _ Hf) as [[? ?]|(_ & _ & b & Hb & _)]; congruence.
  - intros f g e e'. destruct (decide (p = f)) as [<-|Hne]; [rewrite lookup_insert_eq; by intros [= <-]|]. rewrite (lookup_insert_ne _ p f) by done.
    destruct (decide (p = g)) as [<-|Hne']; [rewrite lookup_insert_eq; intros ? [= <-]; congruence|]. rewrite lookup_insert_ne by done. apply HB.
Qed.

Lemma blocks_ok_dom v v' C : (∀ q, is_Some (nodes v' !! q) ↔ is_Some (nodes v !! q)) → fdatas v' = fdatas v → blocks_ok v C → blocks_ok v' C.
Proof.
  intros Hn Hf HB. split; rewrite ?Hf; try apply HB.
  - intros p. rewrite Hn. apply HB.
  - intros f d Hd Hb. destruct (bo_apart _ _ HB _ _ Hd Hb) as [Ha ?]. split; [|done]. apply eq_None_not_Some. rewrite Hn. by apply eq_None_not_Some.
Qed.

Lemma tree_ok_add v K c n : tree_ok v K → nodes v !! c = None → n_children n = None →
  tree_ok (with_nodes <[c := n]> v) (if decide (is_dir n) then <[c := []]> K else K).
Proof.
  intros HT Hc Hch.
  assert (K !! c = None) as HKc.
  { destruct (K !! c) eqn:E; [|done]. destruct (proj1 (to_dom _ _ HT c)) as (m & Hm & _); [by eexists|congruence]. }
  assert (∀ q l, K !! q = Some l → q ≠ c) as Hqc by (intros q l Hq ->; congruence).
  assert (∀ q l y, K !! q = Some l → y ∈ l → y ≠ c) as Hyc.
  { intros q l y Hq Hy ->. destruct (to_parent _ _ HT _ _ _ Hq Hy) as (m & Hm & _). congruence. }
  assert (∀ q l, (if decide (is_dir n) then <[c := []]> K else K) !! q = Some l → q = c ∧ l = [] ∨ q ≠ c ∧ K !! q = Some l) as Hcase.
  { intros q l. destruct (decide (is_dir n)); [|intros Hq; right; split; [by eapply Hqc|done]].
    destruct (decide (q = c)) as [->|]; [rewrite lookup_insert_eq; intros [= <-]; by left|rewrite lookup_insert_ne by done; by right]. }
  split; cbn [with_nodes nodes].
  - intros q. destruct (decide (q = c)) as [->|Hne].
    + rewrite lookup_insert_eq. destruct (decide (is_dir n)) as [Hd|Hd].
      * rewrite lookup_insert_eq. split; [by intros _; exists n|by eexists].
      * rewrite HKc. split; [by intros [? ?]|by intros (m & [= <-] & ?)].
    + rewrite lookup_insert_ne by done. rewrite <-(to_dom _ _ HT). destruct (decide (is_dir n)); [by rewrite lookup_insert_ne|done].
  - intros q l m Hq Hm. destruct (Hcase _ _ Hq) as [[-> ->]|[Hne Hq']].
    + rewrite lookup_insert_eq in Hm. by injection Hm as <-.
    + rewrite lookup_insert_ne in Hm by done. by eapply to_head.
  - intros q l Hq. destruct (Hcase _ _ Hq) as [[-> ->]|[Hne Hq']]; [split; [done|constructor]|].
    destruct (to_kids _ _ HT _ _ Hq') as [Hs Hn]. split; [|done]. eapply siblings_ext; [|done]. intros y Hy. by rewrite lookup_insert_ne by (by apply not_eq_sym; eapply Hyc).
  - intros q l y Hq Hy. destruct (Hcase _ _ Hq) as [[-> ->]|[Hne Hq']]; [set_solver|].
    rewrite lookup_insert_ne by (by apply not_eq_sym; eapply Hyc). by eapply to_parent.
Qed.


Lemma same_core_is_Some N N' q : same_core N N' → is_Some (N' !! q) ↔ is_Some (N !! q).
Proof. intros He. specialize (He q). destruct (N' !! q), (N !! q); done || (split; by eexists). Qed.

Lemma files_ok_core v N' : same_core (nodes v) N' → files_ok v → files_ok (with_nodes (λ _, N') v).
Proof.
  intros He HF p n f Hn Ho Hd Hp. destruct (same_core_Some _ _ _ _ He Hn) as (m & Hm & Ec). destruct n, m. injection Ec as -> -> -> -> -> -> -> -> ->.
  by apply (HF _ _ _ Hm).
Qed.

Lemma files_ok_add v c n : files_ok v → n_ptr n = None → files_ok (with_nodes <[c := n]> v).
Proof.
  intros HF Hn p m f Hm Ho Hd Hf. cbn [with_nodes nodes] in Hm. destruct (decide (c = p)) as [->|Hne].
  - rewrite lookup_insert_eq in Hm. injection Hm as <-. congruence.
  - rewrite lookup_insert_ne in Hm by done. by apply (HF _ _ _ Hm).
Qed.

Lemma blocks_ok_rebuffer v C f old b cap l : blocks_ok v C → fdatas v !! f = Some old → C !! b = None → b ≠ 0 →
  Z.of_nat (length l) = cap → cap < 2 ^ 63 →
  blocks_ok (with_fdatas <[f := mk_fdata b cap]> v) (<[b := l]> (if fd_buffer old =? 0 then C else delete (fd_buffer old) C)).
Proof.
  intros HB Hf Hb Hb0 Hl Hcap. destruct (blocks_ok_fresh _ _ _ HB Hb) as [Hnb Hfb].
  assert (∀ q, is_Some (C !! q) → q ≠ fd_buffer old ∨ fd_buffer old = 0 →
    <[b := l]> (if fd_buffer old =? 0 then C else delete (fd_buffer old) C) !! q = C !! q) as Hkeep.
  { intros q [y Hq] Hne. rewrite lookup_insert_ne by congruence. destruct (Z.eqb_spec (fd_buffer old) 0); [done|].
    rewrite lookup_delete_ne by naive_solver. done. }
  assert (∀ q, is_Some (nodes v !! q) ∨ is_Some (fdatas v !! q) → q ≠ fd_buffer old ∨ fd_buffer old = 0) as Hold.
  { intros q Hq. destruct (decide (fd_buffer old = 0)) as [|Hn]; [by right|left]. intros ->. destruct (bo_apart _ _ HB _ _ Hf Hn) as [E1 E2].
    rewrite E1, E2 in Hq. by destruct Hq as [[? ?]|[? ?]]. }
  assert (∀ q k, length <$> C !! q = Some k → is_Some (C !! q)) as Hsome by (intros q k; destruct (C !! q); [by eexists|done]).
  split; cbn [with_fdatas nodes fdatas].
  - intros q Hq. destruct (bo_node _ _ HB _ Hq) as [? Hlq]. split; [done|]. rewrite Hkeep; [done|by eapply Hsome|by apply Hold; left].
  - intros q Hq. assert (is_Some (fdatas v !! q)) as Hq'.
    { destruct (decide (f = q)) as [<-|]; [by eexists|by rewrite lookup_insert_ne in Hq]. }
    destruct (bo_fdata _ _ HB _ Hq') as [? Hlq]. split; [done|]. rewrite Hkeep; [done|by eapply Hsome|by apply Hold; right].
  - intros q d. destruct (decide (f = q)) as [<-|Hne].
    + rewrite lookup_insert_eq. intros [= <-]. right. cbn [fd_buffer fd_capacity]. split_and!; [done|done|]. exists l. by rewrite lookup_insert_eq.
    + rewrite lookup_insert_ne by done. intros Hd. destruct (bo_buffer _ _ HB _ _ Hd) as [?|(Hd0 & Hdc & y & Hy & Hyl)]; [by left|].
      right. split_and!; [done|done|]. exists y. split; [|done]. rewrite Hkeep; [done|by eexists|]. left. intros E. by apply Hne, eq_sym, (bo_inj _ _ HB q f d old).
  - intros q d. destruct (decide (f = q)) as [<-|Hne].
    + rewrite lookup_insert_eq. intros [= <-] _. cbn [fd_buffer]. split; [done|]. rewrite lookup_insert_ne; [done|]. congruence.
    + rewrite lookup_insert_ne by done. intros Hd Hd0. destruct (bo_apart _ _ HB _ _ Hd Hd0) as [? ?]. split; [done|]. rewrite lookup_insert_ne; [done|]. congruence.
  - assert (∀ q d, fdatas v !! q = Some d → fd_buffer d ≠ 0 → fd_buffer d ≠ b) as Hnob.
    { intros q d Hd Hd0 E. destruct (bo_buffer _ _ HB _ _ Hd) as [[? ?]|(_ & _ & y & Hy & _)]; congruence. }
    intros q r d e. destruct (decide (f = q)) as [<-|Hne], (decide (f = r)) as [<-|Hne']; rewrite ?lookup_insert_eq, ?lookup_insert_ne by done.
    + done.
    + intros [= <-] He Hd0 E. cbn [fd_buffer] in *. exfalso. eapply Hnob; [exact He|congruence|done].
    + intros Hd [= <-] Hd0 E. cbn [fd_buffer] in *. exfalso. by eapply Hnob; [exact Hd|..].
    + apply HB.
Qed.

Lemma tree_ok_nodes v v' K : nodes v' = nodes v → tree_ok v K → tree_ok v' K.
Proof. intros E [H1 H2 H3 H4]. split; rewrite ?E; done. Qed.

Lemma with_fdatas_twice v f a b : with_fdatas <[f := a]> (with_fdatas <[f := b]> v) = with_fdatas <[f := a]> v.
Proof. unfold with_fdatas. cbn. by rewrite insert_insert_eq. Qed.

Lemma with_nodes_twice v p a b : with_nodes <[p := a]> (with_nodes <[p := b]> v) = with_nodes <[p := a]> v.
Proof. unfold with_nodes. cbn. by rewrite insert_insert_eq. Qed.

(** The bytes of a file. *)
Definition content v C p : option (list Z) :=
  n ← nodes v !! p;
  f ← n_ptr n;
  d ← fdatas v !! f;
  take (Z.to_nat (n_length n)) <$> (if fd_buffer d =? 0 then Some [] else C !! fd_buffer d).

(** [c] is new at the end of the directory [p]; everything else is as before. *)
Record created v C K p l c n v' C' K' : Prop := {
  cr_ok : fs_ok v' C' K';
  cr_fresh : nodes v !! c = None;
  cr_core : same_core (<[c := n]> (nodes v)) (nodes v');
  cr_kids : K' = <[p := l ++ [c]]> (if decide (is_dir n) then <[c := []]> K else K);
  cr_root : vfs_root v' = vfs_root v ∧ devfs_root v' = devfs_root v;
  cr_fdatas f : is_Some (fdatas v !! f) → fdatas v' !! f = fdatas v !! f;
  cr_blocks q : is_Some (C !! q) → C' !! q = C !! q;
}.

Section Create.
  Context {H X : Type} `{KHeapLaws H}.
  Implicit Types (h : H) (x : X).

Abbreviation state := (vfs * (H * X))%type.

Lemma wp_new_node v h x C (Q : option Z → state → Prop) : kh_rel h C →
  (∀ h', kh_rel h' C → Q None (v, (h', x))) →
  (∀ c h', c ≠ 0 → C !! c = None → kh_rel h' (<[c := replicate 200 0]> C) → Q (Some c) (with_nodes <[c := zero_node]> v, (h', x))) →
  wp new_node (v, (h, x)) Q.
Proof.
  intros Hr HN HS. apply wp_bind, wp_heap. eapply wp_kzalloc; [done|unfold HeapSpec.size_ok, sizeof_vfs_node; lia| |].
  - intros h' Hr'. by apply wp_ret, HN.
  - intros c h' Hnb Hr'. destruct Hnb as (_ & Hc & _ & HC & _). destruct (Z.eqb_spec c 0); [done|].
    apply wp_bind, wp_modify, wp_ret. by apply HS.
Qed.

(** The last step of a creation: linking a complete node. *)
Lemma link_spec v h x C K p c l n : fs_ok v C K → K !! p = Some l → nodes v !! c = Some n → n_parent n = Some p → n_next n = None →
  (∀ q l', K !! q = Some l' → c ∉ l') →
  wp (append_child p c) (v, (h, x)) (λ _ s', ∃ N', s' = (with_nodes (λ _, N') v, (h, x)) ∧
    fs_ok (with_nodes (λ _, N') v) C (<[p := l ++ [c]]> K) ∧ same_core (nodes v) N').
Proof.
  intros HF Hp Hc Hpar Hnx Hnew. eapply wp_mono; [by eapply append_child_spec; [apply HF|..]|].
  intros [] s' (N' & -> & HT & He). exists N'. split_and!; [done| |done]. split.
  - apply (blocks_ok_dom v); [|done|apply HF]. intros q. by apply same_core_is_Some.
  - done.
  - apply files_ok_core; [done|apply HF].
Qed.

Lemma ramfs_create_directory_spec v h x C K p l name : kh_rel h C → fs_ok v C K → K !! p = Some l → name ≠ [] →
  wp (ramfs_create_directory (Some p) name) (v, (h, x)) (λ r s',
    (∃ e h', r = Some e ∧ find_name (nodes v) l name = Some e ∧ s' = (v, (h', x)) ∧ kh_rel h' C) ∨
    find_name (nodes v) l name = None ∧
    ((r = None ∧ ∃ h', s' = (v, (h', x)) ∧ kh_rel h' C) ∨
     ∃ c v' h' C' K', r = Some c ∧ s' = (v', (h', x)) ∧ kh_rel h' C' ∧
       created v C K p l c (mk_node (node_name name) FS_DIRECTORY 493 0 0 0 (Some RAMFS) None (Some p) None None) v' C' K')).
Proof.
  intros Hr HF Hp Hname. unfold ramfs_create_directory. rewrite bool_decide_false by done. apply wp_bind.
  eapply wp_mono; [by eapply ramfs_finddir_spec; [apply HF|]|]. intros r s' [-> ->].
  destruct (find_name (nodes v) l name) as [e|] eqn:Ef; [apply wp_ret; left; by exists e, h|].
  apply wp_bind. eapply wp_new_node; [done| |].
  { intros h' Hr'. apply wp_ret. right. split; [done|]. left. split; [done|by exists h']. }
  intros c h' Hc HC Hr'. destruct (blocks_ok_fresh _ _ _ (fo_blocks _ _ _ HF) HC) as [Hnc _]. cbn [default].
  set (n := mk_node _ _ _ _ _ _ _ _ _ _ _). assert (is_dir n) as Hdir by done.
  apply wp_bind. eapply wp_node_store; [cbn [with_nodes nodes]; by rewrite lookup_insert_eq|]. cbn [with_nodes nodes fdatas vfs_root devfs_root]. rewrite insert_insert_eq.
  change (mk_vfs (<[c := n]> (nodes v)) (fdatas v) (vfs_root v) (devfs_root v)) with (with_nodes <[c := n]> v).
  assert (fs_ok (with_nodes <[c := n]> v) (<[c := replicate 200 0]> C) (<[c := []]> K)) as HF1.
  { split; [apply blocks_ok_node; [apply HF|done|done|apply length_replicate]| |apply files_ok_add; [apply HF|done]].
    pose proof (tree_ok_add _ _ c n (fo_tree _ _ _ HF) Hnc eq_refl) as HT. by rewrite decide_True in HT by done. }
  assert (p ≠ c) as Hpc. { intros ->. destruct (proj1 (to_dom _ _ (fo_tree _ _ _ HF) c)) as (m & Hm & _); [by eexists|congruence]. }
  apply wp_bind. eapply wp_mono; [eapply (link_spec _ _ _ _ _ p c l n); [exact HF1|by rewrite lookup_insert_ne|apply lookup_insert_eq|done|done|]|].
  { intros q l' Hq Hin. destruct (decide (q = c)) as [->|Hne]; [rewrite lookup_insert_eq in Hq; injection Hq as <-; set_solver|].
    rewrite lookup_insert_ne in Hq by done. destruct (to_parent _ _ (fo_tree _ _ _ HF) _ _ _ Hq Hin) as (m & Hm & _). congruence. }
  intros [] s' (N' & -> & HF2 & He). apply wp_ret. right. split; [done|]. right.
  exists c, (with_nodes (λ _, N') (with_nodes <[c := n]> v)), h', (<[c := replicate 200 0]> C), (<[p := l ++ [c]]> (<[c := []]> K)).
  split_and!; [done|done|done|]. split; [done|done|done|by rewrite decide_True|done|done|].
  intros q [b Hq]. rewrite lookup_insert_ne; [done|]. congruence.
Qed.

(** What [ramfs_create_file] is asked to put into the file. *)
Definition initial (data : option (list Z)) (size : Z) (d : list Z) : Prop :=
  (data = None ∨ data = Some d) ∧ size = Z.of_nat (length d) ∧ (data = None → d = []) ∧ Forall CStringSpec.byte d ∧ size < 2 ^ 63.

Lemma initial_data_spec v h x C data size bs : kh_rel h C → initial data size bs →
  wp (initial_data data size) (v, (h, x)) (λ r s', ∃ h' C', s' = (v, (h', x)) ∧ kh_rel h' C' ∧
    (r = None ∧ C' = C ∨ r = Some (mk_fdata 0 0) ∧ C' = C ∧ bs = [] ∨
     ∃ b, r = Some (mk_fdata b size) ∧ C !! b = None ∧ b ≠ 0 ∧ C' = <[b := bs]> C)).
Proof.
  intros Hr (Hdata & -> & Hnone & Hby & Hmax). unfold initial_data. destruct Hdata as [->| ->].
  { apply wp_ret. exists h, C. split_and!; [done|done|]. right. left. by rewrite Hnone. }
  destruct (Z.ltb_spec 0 (Z.of_nat (length bs))).
  2: { apply wp_ret. exists h, C. split_and!; [done|done|]. right. left. split_and!; [done|done|]. destruct bs; [done|simpl in *; lia]. }
  apply wp_bind, wp_heap. eapply wp_kh_malloc; [done|unfold HeapSpec.size_ok; lia| |].
  { intros h' Hr'. apply wp_ret. exists h', C. split_and!; [done|done|by left]. }
  intros b l h' (_ & Hb0 & _ & HC & _) Hl Hr'. destruct (Z.eqb_spec b 0); [done|]. apply wp_bind, wp_heap.
  rewrite Nat2Z.id, take_ge by lia. eapply wp_copy_to; [done|apply lookup_insert_eq|lia|lia|done|]. intros h'' Hr''. apply wp_ret.
  rewrite insert_insert_eq in Hr''. exists h'', (<[b := bs]> C). split_and!; [done| |right; right; by exists b].
  replace (list_inserts (Z.to_nat 0) bs l) with bs in Hr''; [done|]. apply list_eq. intros i. destruct (decide (i < length bs)%nat).
  - rewrite list_lookup_inserts by lia. f_equal. lia.
  - rewrite list_lookup_inserts_ge by lia. rewrite !lookup_ge_None_2 by lia. done.
Qed.

Definition file_node name size f p : node := mk_node (node_name name) FS_FILE 420 0 size 0 (Some RAMFS) f (Some p) None None.

(** The state in which a new file is linked: node [c], file data [f] and the
    buffer of [fd] are new. *)
Lemma file_ready v C K c f fd name size p bs C2 C3 : fs_ok v C K → c ≠ 0 → C !! c = None → f ≠ 0 →
  <[c := replicate 200 0]> C !! f = None → C2 = <[f := replicate 16 0]> (<[c := replicate 200 0]> C) →
  size = Z.of_nat (length bs) → size < 2 ^ 63 →
  (fd = mk_fdata 0 0 ∧ C3 = C2 ∧ bs = [] ∨ ∃ b, fd = mk_fdata b size ∧ C2 !! b = None ∧ b ≠ 0 ∧ C3 = <[b := bs]> C2) →
  let v3 := with_nodes <[c := file_node name size (Some f) p]> (with_fdatas <[f := fd]> v) in
  fs_ok v3 C3 K ∧ content v3 C3 c = Some bs ∧ (∀ q, is_Some (C !! q) → C3 !! q = C !! q).
Proof.
  intros HF Hc HC Hf HCf -> Hsize Hmax Hfd v3. destruct (blocks_ok_fresh _ _ _ (fo_blocks _ _ _ HF) HC) as [Hnc _].
  set (n0 := file_node name size None p). pose proof (blocks_ok_node _ _ c n0 (replicate 200 0) (fo_blocks _ _ _ HF) HC Hc eq_refl) as HB1.
  pose proof (blocks_ok_fdata _ _ f (mk_fdata 0 0) (replicate 16 0) HB1 HCf Hf eq_refl eq_refl eq_refl) as HB2.
  assert (blocks_ok v3 C3) as HB3.
  { apply (blocks_ok_dom (with_fdatas <[f := fd]> (with_nodes <[c := n0]> v))); [|done|].
    { intros q. cbn. destruct (decide (c = q)) as [<-|]; [by rewrite !lookup_insert_eq|by rewrite !lookup_insert_ne]. }
    destruct Hfd as [(-> & -> & _)|(b & -> & Hb & Hb0 & ->)]; [done|].
    pose proof (blocks_ok_rebuffer _ _ f (mk_fdata 0 0) b size bs HB2 (lookup_insert_eq _ _ _) Hb Hb0 (eq_sym Hsize) Hmax) as HB. cbn [fd_buffer] in HB.
    by rewrite Z.eqb_refl, with_fdatas_twice in HB. }
  assert (0 ≤ size ≤ fd_capacity fd) as Hcap by (destruct Hfd as [(-> & _ & ->)|(b & -> & _)]; cbn in *; lia).
  split_and!.
  - split; [done| |].
    + pose proof (tree_ok_add (with_fdatas <[f := fd]> v) K c (file_node name size (Some f) p)) as HT.
      rewrite decide_False in HT by (by intros []). apply HT; [|done|done]. eapply tree_ok_nodes; [|apply HF]. done.
    + assert (fdatas v !! f = None) as Hfv by (by apply (blocks_ok_fresh _ _ f HB1)).
      intros q n g Hn Ho Hd Hg. cbn [v3 with_nodes with_fdatas nodes fdatas] in *. destruct (decide (c = q)) as [<-|Hne].
      * rewrite lookup_insert_eq in Hn. injection Hn as <-. injection Hg as <-. exists fd. by rewrite lookup_insert_eq.
      * rewrite lookup_insert_ne in Hn by done. destruct (fo_files _ _ _ HF _ _ _ Hn Ho Hd Hg) as (d & Hd' & ?). exists d. split; [|done].
        rewrite lookup_insert_ne; [done|congruence].
  - unfold content. cbn [v3 with_nodes with_fdatas nodes fdatas]. rewrite lookup_insert_eq. cbn [mbind option_bind n_ptr file_node].
    rewrite lookup_insert_eq. cbn [mbind option_bind n_length]. destruct Hfd as [(-> & -> & ->)|(b & -> & Hb & Hb0 & ->)]; cbn [fd_buffer].
    + subst. done.
    + destruct (Z.eqb_spec b 0); [done|]. rewrite lookup_insert_eq. cbn. f_equal. apply take_ge. lia.
  - intros q [y Hq]. assert (<[f := replicate 16 0]> (<[c := replicate 200 0]> C) !! q = C !! q) as Hq2.
    { rewrite lookup_insert_ne; [rewrite lookup_insert_ne; [done|congruence]|]. intros <-. rewrite lookup_insert_ne in HCf by congruence. congruence. }
    destruct Hfd as [(-> & -> & ->)|(b & -> & Hb & Hb0 & ->)]; [done|]. rewrite lookup_insert_ne; [done|]. congruence.
Qed.

Lemma free_node_spec v h x C c n b (Q : unit → state → Prop) : kh_rel h (<[c := b]> C) → c ≠ 0 → C !! c = None → nodes v !! c = None →
  (∀ h', kh_rel h' C → Q tt (v, (h', x))) → wp (free_node c) (with_nodes <[c := n]> v, (h, x)) Q.
Proof.
  intros Hr Hc HC Hn HQ. apply wp_bind, wp_heap. eapply wp_kfree; [done|done|rewrite lookup_insert_eq; by eexists|].
  intros h' Hr'. rewrite delete_insert_id in Hr' by done. apply wp_modify. cbn [fst snd]. specialize (HQ _ Hr').
  unfold with_nodes. cbn [nodes fdatas vfs_root devfs_root]. rewrite delete_insert_id by done. by destruct v.
Qed.

Lemma free_fdata_spec v h x C f d b (Q : unit → state → Prop) : kh_rel h (<[f := b]> C) → f ≠ 0 → C !! f = None → fdatas v !! f = None →
  (∀ h', kh_rel h' C → Q tt (v, (h', x))) → wp (free_fdata f) (with_fdatas <[f := d]> v, (h, x)) Q.
Proof.
  intros Hr Hf HC Hn HQ. apply wp_bind, wp_heap. eapply wp_kfree; [done|done|rewrite lookup_insert_eq; by eexists|].
  intros h' Hr'. rewrite delete_insert_id in Hr' by done. apply wp_modify. cbn [fst snd]. specialize (HQ _ Hr').
  unfold with_fdatas. cbn [nodes fdatas vfs_root devfs_root]. rewrite delete_insert_id by done. by destruct v.
Qed.

Lemma ramfs_create_file_spec v h x C K p l name data size bs : kh_rel h C → fs_ok v C K → K !! p = Some l → initial data size bs →
  wp (ramfs_create_file (Some p) name data size) (v, (h, x)) (λ r s',
    (r = None ∧ ∃ h', s' = (v, (h', x)) ∧ kh_rel h' C) ∨
    ∃ c f v' h' C' K', r = Some c ∧ s' = (v', (h', x)) ∧ kh_rel h' C' ∧
      created v C K p l c (file_node name size (Some f) p) v' C' K' ∧ content v' C' c = Some bs).
Proof.
  intros Hr HF Hp Hinit. apply wp_bind. eapply wp_new_node; [done|intros h' Hr'; apply wp_ret; left; split; [done|by exists h']|].
  intros c h1 Hc HC Hr1. destruct (blocks_ok_fresh _ _ _ (fo_blocks _ _ _ HF) HC) as [Hnc _].
  apply wp_bind. eapply wp_node_store; [cbn [with_nodes nodes]; by rewrite lookup_insert_eq|].
  change (with_nodes (λ _, _) (with_nodes <[c := zero_node]> v)) with
    (with_nodes <[c := file_node name size None p]> (with_nodes <[c := zero_node]> v)). rewrite with_nodes_twice.
  set (v1 := with_nodes <[c := file_node name size None p]> v).
  pose proof (blocks_ok_node _ _ c (file_node name size None p) (replicate 200 0) (fo_blocks _ _ _ HF) HC Hc eq_refl) as HB1. fold v1 in HB1.
  apply wp_bind, wp_heap. eapply wp_kzalloc; [done|unfold HeapSpec.size_ok, sizeof_file_data; lia| |].
  { intros h2 Hr2. rewrite Z.eqb_refl. apply wp_bind. eapply free_node_spec; [done..|]. intros h3 Hr3. apply wp_ret. left. split; [done|by exists h3]. }
  intros f h2 (_ & Hf0 & _ & HCf & _) Hr2. change (Z.to_nat sizeof_file_data) with 16%nat in Hr2. destruct (Z.eqb_spec f 0); [done|].
  destruct (blocks_ok_fresh _ _ _ HB1 HCf) as [_ Hff]. apply wp_bind, wp_modify. cbn [fst snd].
  apply wp_bind. eapply wp_mono; [by eapply initial_data_spec|]. intros r s' (h3 & C3 & -> & Hr3 & Hcase).
  destruct r as [fd|].
  2: { destruct Hcase as [[_ ->]|[(? & _)|(? & ? & _)]]; [|done|done]. apply wp_bind. eapply free_fdata_spec; [done..|]. intros h4 Hr4.
       apply wp_bind. eapply free_node_spec; [done..|]. intros h5 Hr5. apply wp_ret. left. split; [done|by exists h5]. }
  destruct Hinit as (_ & Hsize & _ & _ & Hmax).
  destruct (file_ready v C K c f fd name size p bs _ C3 HF Hc HC Hf0 HCf eq_refl Hsize Hmax) as (HF3 & Hct & Hkeep).
  { destruct Hcase as [[? _]|[([= ->] & ? & ?)|(b & [= ->] & ?)]]; [done|by left|right; by exists b]. }
  apply wp_bind, wp_modify. cbn [fst snd]. rewrite with_fdatas_twice.
  apply wp_bind. eapply wp_node_store; [cbn; by rewrite lookup_insert_eq|].
  change (with_nodes (λ _, _) (with_fdatas <[f := fd]> v1)) with (with_nodes <[c := file_node name size (Some f) p]> (with_nodes <[c := file_node name size None p]> (with_fdatas <[f := fd]> v))).
  rewrite with_nodes_twice. set (v3 := with_nodes <[c := file_node name size (Some f) p]> (with_fdatas <[f := fd]> v)) in *.
  apply wp_bind. eapply wp_mono; [eapply (link_spec v3 h3 x C3 K p c l); [done|done|apply lookup_insert_eq|done|done|]|].
  { intros q l' Hq Hin. destruct (to_parent _ _ (fo_tree _ _ _ HF) _ _ _ Hq Hin) as (m & Hm & _). congruence. }
  intros [] s' (N' & -> & HF4 & He). apply wp_ret. right.
  exists c, f, (with_nodes (λ _, N') v3), h3, C3, (<[p := l ++ [c]]> K). split_and!; [done|done|done| |].
  - split; [done|done|done|by rewrite decide_False by (by intros [])|done| |done].
    intros g [d Hg]. cbn. rewrite lookup_insert_ne; [done|]. cbn in Hff. congruence.
  - rewrite <-Hct. unfold content. destruct (same_core_Some _ _ c _ (same_core_sym _ _ He) (lookup_insert_eq _ _ _)) as (m & Hm & Em).
    cbn [with_nodes nodes fdatas] in *. rewrite Hm. destruct m. injection Em as <- <- <- <- <- <- <- <- <-. cbn [v3 with_nodes nodes]. by rewrite lookup_insert_eq.
Qed.

End Create.
End RamfsCreate.
