(* ===== verification/RamfsTheorems.v ===== *)
(** * The RAM file system behind the VFS: paths and directories

    Path resolution over ramfs directories, before and after a creation. *)
From S2P Require Import Prelude Links CStringSpec HeapSpec HeapTheorems Kheap Vfs VfsSpec Ramfs RamfsSpec RamfsCreate.

Module RamfsTheorems.
Import HeapTheorems Kheap Vfs VfsSpec Ramfs RamfsSpec RamfsCreate.

Implicit Types (v : vfs) (N : gmap Z node) (K C : gmap Z (list Z)) (p q c : Z) (l name path : list Z) (d : ramfs_file_data).

(** Lookup in the directories [K]. *)
Definition kfind v K q name : option Z := match K !! q with Some l => find_name (nodes v) l name | None => None end.

(** Pointers lead to nodes, and every directory is one of ramfs. *)
Record closed v : Prop := {
  c_parent p n q : nodes v !! p = Some n → n_parent n = Some q → is_Some (nodes v !! q);
  c_mount p n q : nodes v !! p = Some n → has (n_flags n) FS_MOUNTPOINT = true → n_ptr n = Some q → is_Some (nodes v !! q);
  c_root q : vfs_root v = Some q → is_Some (nodes v !! q);
  c_dev q : devfs_root v = Some q → is_Some (nodes v !! q);
  c_dir p n : nodes v !! p = Some n → has (n_flags n) FS_DIRECTORY = true → n_ops n = Some RAMFS;
}.

(** ** What a creation leaves as it was *)

Lemma core_flags n m : core n = core m → n_flags n = n_flags m ∧ n_ptr n = n_ptr m ∧ n_ops n = n_ops m ∧ n_parent n = n_parent m ∧ n_name n = n_name m.
Proof. destruct n, m. by intros [= -> -> -> -> -> -> -> -> ->]. Qed.

Lemma created_old v C K p l c n v' C' K' q m : created v C K p l c n v' C' K' → nodes v !! q = Some m →
  ∃ m', nodes v' !! q = Some m' ∧ core m' = core m.
Proof.
  intros Hcr Hq. assert (<[c := n]> (nodes v) !! q = Some m) as Hq'.
  { rewrite lookup_insert_ne; [done|]. intros <-. by rewrite (cr_fresh _ _ _ _ _ _ _ _ _ _ Hcr) in Hq. }
  destruct (same_core_Some _ _ _ _ (same_core_sym _ _ (cr_core _ _ _ _ _ _ _ _ _ _ Hcr)) Hq') as (m' & Hm' & E). by exists m'.
Qed.

Lemma created_new v C K p l c n v' C' K' q m' : created v C K p l c n v' C' K' → nodes v' !! q = Some m' →
  (q = c ∧ core m' = core n) ∨ ∃ m, nodes v !! q = Some m ∧ core m' = core m.
Proof.
  intros Hcr Hq. destruct (same_core_Some _ _ _ _ (cr_core _ _ _ _ _ _ _ _ _ _ Hcr) Hq) as (m & Hm & E).
  destruct (decide (c = q)) as [<-|Hne]; [left; rewrite lookup_insert_eq in Hm; by injection Hm as ->|].
  rewrite lookup_insert_ne in Hm by done. right. by exists m.
Qed.

Lemma created_is_Some v C K p l c n v' C' K' q : created v C K p l c n v' C' K' → is_Some (nodes v !! q) → is_Some (nodes v' !! q).
Proof. intros Hcr [m Hm]. destruct (created_old _ _ _ _ _ _ _ _ _ _ _ _ Hcr Hm) as (m' & ? & _). by exists m'. Qed.

Lemma created_node v C K p l c n v' C' K' : created v C K p l c n v' C' K' → ∃ m, nodes v' !! c = Some m ∧ core m = core n.
Proof.
  intros Hcr. destruct (same_core_Some _ _ c n (same_core_sym _ _ (cr_core _ _ _ _ _ _ _ _ _ _ Hcr)) (lookup_insert_eq _ _ _)) as (m' & Hm' & E).
  by exists m'.
Qed.

Lemma created_crossed v C K p l c n v' C' K' q : created v C K p l c n v' C' K' → is_Some (nodes v !! q) → crossed v' q = crossed v q ∧ up v' q = up v q.
Proof.
  intros Hcr [m Hm]. destruct (created_old _ _ _ _ _ _ _ _ _ _ _ _ Hcr Hm) as (m' & Hm' & (Ef & Ep & _ & Epar & _)%core_flags).
  unfold crossed, up. by rewrite Hm, Hm', Ef, Ep, Epar.
Qed.

Lemma created_closed v C K p l c n v' C' K' : created v C K p l c n v' C' K' → closed v → K !! p = Some l → fs_ok v C K →
  n_parent n = Some p → has (n_flags n) FS_MOUNTPOINT = false → n_ops n = Some RAMFS → closed v'.
Proof.
  intros Hcr Hcl Hp HF Hpar Hmt Hops. destruct (cr_root _ _ _ _ _ _ _ _ _ _ Hcr) as [Hroot Hdev].
  assert (is_Some (nodes v !! p)) as Hpn. { destruct (proj1 (to_dom _ _ (fo_tree _ _ _ HF) p)) as (m & Hm & _); by eexists. }
  assert (∀ q, is_Some (nodes v !! q) → is_Some (nodes v' !! q)) as Hold by (intros q; by eapply created_is_Some).
  split.
  - intros q m' r Hm' Hr. destruct (created_new _ _ _ _ _ _ _ _ _ _ _ _ Hcr Hm') as [[-> (_ & _ & _ & E & _)%core_flags]|(m & Hm & (_ & _ & _ & E & _)%core_flags)].
    + replace r with p by congruence. by apply Hold.
    + eapply Hold, c_parent; [done|exact Hm|congruence].
  - intros q m' r Hm' Hf Hr. destruct (created_new _ _ _ _ _ _ _ _ _ _ _ _ Hcr Hm') as [[-> (E & _)%core_flags]|(m & Hm & (E1 & E2 & _)%core_flags)].
    + congruence.
    + eapply Hold, c_mount; [done|exact Hm|congruence|congruence].
  - intros q Hq. rewrite Hroot in Hq. by eapply Hold, c_root.
  - intros q Hq. rewrite Hdev in Hq. by eapply Hold, c_dev.
  - intros q m' Hm' Hf. destruct (created_new _ _ _ _ _ _ _ _ _ _ _ _ Hcr Hm') as [[-> (_ & _ & E & _)%core_flags]|(m & Hm & (E1 & _ & E2 & _)%core_flags)].
    + congruence.
    + rewrite E2. eapply c_dir; [done|exact Hm|congruence].
Qed.

Lemma created_find v C K p l c n v' C' K' q name e : created v C K p l c n v' C' K' → K !! p = Some l → fs_ok v C K →
  kfind v K q name = Some e → kfind v' K' q name = Some e.
Proof.
  intros Hcr Hp HF. unfold kfind. destruct (K !! q) as [k|] eqn:Eq; [|done]. intros Hf.
  assert (q ≠ c) as Hqc.
  { intros ->. destruct (proj1 (to_dom _ _ (fo_tree _ _ _ HF) c)) as (m & Hm & _); [by eexists|]. by rewrite (cr_fresh _ _ _ _ _ _ _ _ _ _ Hcr) in Hm. }
  assert (∀ k', find_name (nodes v') (k ++ k') name = Some e) as Hk.
  { intros k'. rewrite find_name_app. rewrite (find_name_ext (nodes v)); [by rewrite Hf|]. intros y Hy.
    destruct (siblings_node _ _ y (proj1 (to_kids _ _ (fo_tree _ _ _ HF) _ _ Eq)) Hy) as [m Hm].
    destruct (created_old _ _ _ _ _ _ _ _ _ _ _ _ Hcr Hm) as (m' & Hm' & (_ & _ & _ & _ & E)%core_flags). rewrite Hm, Hm'. cbn. by rewrite E. }
  rewrite (cr_kids _ _ _ _ _ _ _ _ _ _ Hcr). destruct (decide (q = p)) as [->|Hqp].
  - rewrite lookup_insert_eq. replace k with l in * by congruence. apply Hk.
  - rewrite lookup_insert_ne by done. assert ((if decide (is_dir n) then <[c := []]> K else K) !! q = Some k) as ->.
    { destruct (decide (is_dir n)); [by rewrite lookup_insert_ne|done]. }
    specialize (Hk []). by rewrite app_nil_r in Hk.
Qed.

Lemma kfind_node v C K q name e : fs_ok v C K → kfind v K q name = Some e → is_Some (nodes v !! e).
Proof.
  intros HF. unfold kfind. destruct (K !! q) as [k|] eqn:Eq; [|done]. intros [He _]%find_name_elem.
  eapply siblings_node; [|done]. by apply (to_kids _ _ (fo_tree _ _ _ HF) _ _ Eq).
Qed.

(** ** Paths *)

Section Paths.
  Context {H X : Type} `{KHeapLaws H}.
  Variable others : Z → file_operations (vfs * (H * X)).
  Implicit Types (h : H) (x : X).

Abbreviation state := (vfs * (H * X))%type.
Abbreviation fops := (Ramfs.fops others).

Lemma ops_of_ramfs n : n_ops n = Some RAMFS → ops_of fops n = Some ramfs_fops.
Proof. unfold ops_of. by intros ->. Qed.

(** The drivers the paths go through keep the contract of [VfsSpec]. *)
Lemma ramfs_dirs v C K : fs_ok v C K → closed v → dirs fops (kfind v K) v.
Proof.
  intros HF Hcl. split; try apply Hcl.
  - intros q name e He. by eapply kfind_node.
  - intros p n name Hn Hd. unfold kfind. destruct (K !! p) as [k|] eqn:E; [|done].
    destruct (proj1 (to_dom _ _ (fo_tree _ _ _ HF) p)) as (m & Hm & Hd' & _); [by eexists|]. congruence.
  - intros p n name Hn Hd. rewrite ops_of_ramfs by by eapply c_dir. cbn [mbind option_bind op_finddir ramfs_fops].
    intros h x. destruct (proj2 (to_dom _ _ (fo_tree _ _ _ HF) p)) as [k Hk].
    { exists n. split; [done|]. split; [done|]. by eapply c_dir. }
    unfold kfind. rewrite Hk. by eapply ramfs_finddir_spec; [apply HF|].
Qed.

Lemma crossed_closed v q : closed v → is_Some (nodes v !! q) → is_Some (nodes v !! crossed v q) ∧ is_Some (nodes v !! up v q).
Proof.
  intros Hcl [n Hn]. unfold crossed, up. rewrite Hn. split.
  - destruct (has _ _) eqn:E; [|by exists n]. destruct (n_ptr n) eqn:Ep; [by eapply c_mount|by exists n].
  - destruct (n_parent n) eqn:Ep; [by eapply c_parent|by exists n].
Qed.

Lemma created_steps v C K p l c n v' C' K' cs : created v C K p l c n v' C' K' → K !! p = Some l → fs_ok v C K → closed v →
  ∀ q r, is_Some (nodes v !! q) → steps (kfind v K) v q cs = Some r → steps (kfind v' K') v' q cs = Some r.
Proof.
  intros Hcr Hp HF Hcl. induction cs as [|a cs IH]; intros q r Hq; [done|]. cbn [steps]. unfold step.
  destruct (created_crossed _ _ _ _ _ _ _ _ _ _ q Hcr Hq) as [Ec Eu]. rewrite Ec, Eu. destruct (bool_decide (a = dotdot)).
  - cbn [mbind option_bind]. apply IH. by apply crossed_closed.
  - destruct (kfind v K (crossed v q) a) as [e|] eqn:Ef; [|done]. rewrite (created_find _ _ _ _ _ _ _ _ _ _ _ _ _ Hcr Hp HF Ef).
    cbn [fmap option_fmap option_map mbind option_bind]. pose proof (kfind_node _ _ _ _ _ _ HF Ef) as He.
    destruct (created_crossed _ _ _ _ _ _ _ _ _ _ e Hcr He) as [-> _]. apply IH. by apply crossed_closed.
Qed.

Lemma created_dev_steps v C K p l c n v' C' K' cs : created v C K p l c n v' C' K' → K !! p = Some l → fs_ok v C K → closed v →
  ∀ q r, is_Some (nodes v !! q) → dev_steps (kfind v K) v q cs = Some r → dev_steps (kfind v' K') v' q cs = Some r.
Proof.
  intros Hcr Hp HF Hcl. induction cs as [|a cs IH]; intros q r Hq; [done|]. cbn [dev_steps].
  destruct (created_crossed _ _ _ _ _ _ _ _ _ _ q Hcr Hq) as [-> _].
  destruct (kfind v K (crossed v q) a) as [e|] eqn:Ef; [|done]. rewrite (created_find _ _ _ _ _ _ _ _ _ _ _ _ _ Hcr Hp HF Ef).
  cbn [mbind option_bind]. apply IH. by eapply kfind_node.
Qed.

Lemma created_resolve v C K p l c n v' C' K' path q : created v C K p l c n v' C' K' → K !! p = Some l → fs_ok v C K → closed v →
  take 5 path ≠ dev_prefix → resolve (kfind v K) v path = Some q → resolve (kfind v' K') v' path = Some q.
Proof.
  intros Hcr Hp HF Hcl Hdev. unfold resolve, dev_resolve, root_resolve. rewrite !(bool_decide_false (take 5 path = dev_prefix)) by done.
  destruct (bool_decide (head path = Some slash)); [|done]. destruct (cr_root _ _ _ _ _ _ _ _ _ _ Hcr) as [-> _].
  destruct (vfs_root v) as [r|] eqn:Er; [|done]. cbn [mbind option_bind]. pose proof (c_root _ Hcl _ Er) as Hr.
  destruct (created_crossed _ _ _ _ _ _ _ _ _ _ r Hcr Hr) as [-> _]. eapply created_steps; [done..|]. by apply crossed_closed.
Qed.

(** The new node is found under its name. *)
Lemma created_find_new v C K p l c n v' C' K' : created v C K p l c n v' C' K' → K !! p = Some l → fs_ok v C K →
  find_name (nodes v) l (n_name n) = None → kfind v' K' p (n_name n) = Some c.
Proof.
  intros Hcr Hp HF Hno. unfold kfind. rewrite (cr_kids _ _ _ _ _ _ _ _ _ _ Hcr), lookup_insert_eq, find_name_app.
  rewrite (find_name_ext (nodes v)).
  - rewrite Hno. cbn [find_name]. destruct (created_node _ _ _ _ _ _ _ _ _ _ Hcr) as (m & -> & (_ & _ & _ & _ & E)%core_flags).
    rewrite bool_decide_true; [done|]. cbn. by rewrite E.
  - intros y Hy. destruct (siblings_node _ _ y (proj1 (to_kids _ _ (fo_tree _ _ _ HF) _ _ Hp)) Hy) as [m Hm].
    destruct (created_old _ _ _ _ _ _ _ _ _ _ _ _ Hcr Hm) as (m' & Hm' & (_ & _ & _ & _ & E)%core_flags). rewrite Hm, Hm'. cbn. by rewrite E.
Qed.

(** A name that can be a path component and fits a node. *)
Definition name_ok name : Prop := name ≠ [] ∧ name ≠ dot ∧ name ≠ dotdot ∧ slash ∉ name ∧ (length name ≤ 127)%nat.

Lemma comps_name name : name_ok name → comps name = [name].
Proof.
  intros (H1' & H2 & _ & H4 & _). unfold comps. replace (split name) with (split (name ++ behind None)) by (cbn [behind]; by rewrite app_nil_r).
  rewrite split_field by done. by rewrite filter_cons_True.
Qed.

(** What a creation through the VFS gives: nothing but a changed heap, or one
    new node, of the name, in the directory at [p]. *)
Definition create_post v C K p name (r : option Z) (v' : vfs) (C' K' : gmap Z (list Z)) : Prop :=
  (r = None ∧ v' = v ∧ C' = C ∧ K' = K) ∨
  ∃ l c n, r = Some c ∧ K !! crossed v p = Some l ∧ created v C K (crossed v p) l c n v' C' K' ∧ n_name n = name ∧
    n_parent n = Some (crossed v p) ∧ has (n_flags n) FS_MOUNTPOINT = false ∧ n_ops n = Some RAMFS.

Lemma vfs_create_spec v h x C K p name flags l : kh_rel h C → fs_ok v C K → closed v → is_Some (nodes v !! p) →
  K !! crossed v p = Some l → find_name (nodes v) l name = None → name ≠ [] → (length name ≤ 127)%nat →
  wp (vfs_create fops (Some p) name flags) (v, (h, x)) (λ r s', ∃ v' h' C' K', s' = (v', (h', x)) ∧ kh_rel h' C' ∧ create_post v C K p name r v' C' K').
Proof.
  intros Hr HF Hcl Hpn Hp Hno Hne Hlen. unfold vfs_create. rewrite bool_decide_false by done. apply wp_bind, cross_spec; [done|].
  destruct (proj1 (to_dom _ _ (fo_tree _ _ _ HF) (crossed v p))) as (n & Hn & Hd & Ho); [by eexists|].
  apply wp_bind. eapply wp_node_load; [done|]. rewrite ops_of_ramfs by done. cbn [mbind option_bind op_create ramfs_fops]. rewrite Hd.
  unfold ramfs_vfs_create. assert (node_name name = name) as Hnn by (by apply take_ge).
  destruct (has _ FS_DIRECTORY) in |- *.
  - eapply wp_mono; [by eapply ramfs_create_directory_spec|]. intros r s' [(e & h' & _ & ? & _)|(_ & [(-> & h' & -> & Hr')|(c & v' & h' & C' & K' & -> & -> & Hr' & Hcr)])]; [congruence| |].
    + exists v, h', C, K. split_and!; [done|done|by left].
    + exists v', h', C', K'. split_and!; [done|done|]. right. rewrite Hnn in Hcr. by eexists l, c, _.
  - eapply wp_mono; [eapply (ramfs_create_file_spec v h x C K _ l name None 0 []); [done|done|done|]|].
    { split_and!; [by left|done|done|constructor|lia]. }
    intros r s' [(-> & h' & -> & Hr')|(c & f & v' & h' & C' & K' & -> & -> & Hr' & Hcr & _)].
    + exists v, h', C, K. split_and!; [done|done|by left].
    + exists v', h', C', K'. split_and!; [done|done|]. right. unfold file_node in Hcr. rewrite Hnn in Hcr. by eexists l, c, _.
Qed.

Lemma create_post_ok v C K p name r v' C' K' : fs_ok v C K → closed v → create_post v C K p name r v' C' K' → fs_ok v' C' K' ∧ closed v'.
Proof.
  intros HF Hcl [(-> & -> & -> & ->)|(l & c & n & -> & Hp & Hcr & _ & Hpar & Hmt & Ho)]; [done|].
  split; [by eapply cr_ok|by eapply created_closed].
Qed.

(** The path of a new node leads to it. *)
Lemma created_path v C K p l c n v' C' K' P : created v C K (crossed v p) l c n v' C' K' → K !! crossed v p = Some l → fs_ok v C K → closed v →
  find_name (nodes v) l (n_name n) = None → name_ok (n_name n) → has (n_flags n) FS_MOUNTPOINT = false →
  root_resolve (kfind v K) v P = Some p → is_Some (nodes v !! p) → head (P ++ slash :: n_name n) = Some slash →
  take 5 (P ++ slash :: n_name n) ≠ dev_prefix →
  resolve (kfind v' K') v' (P ++ slash :: n_name n) = Some c.
Proof.
  intros Hcr Hp HF Hcl Hno Hok Hmt HP Hpn Hhd Hdev. unfold resolve, dev_resolve. rewrite (bool_decide_true (head _ = _)) by done.
  rewrite bool_decide_false by done. unfold root_resolve in *. destruct (cr_root _ _ _ _ _ _ _ _ _ _ Hcr) as [-> _].
  destruct (vfs_root v) as [r|] eqn:Er; [|done]. cbn [mbind option_bind] in *. pose proof (c_root _ Hcl _ Er) as Hr.
  destruct (created_crossed _ _ _ _ _ _ _ _ _ _ r Hcr Hr) as [-> _]. rewrite comps_app, (comps_name _ Hok), steps_app.
  erewrite (created_steps v C K); [|done..|by apply crossed_closed|exact HP]. cbn [mbind option_bind steps]. unfold step.
  destruct Hok as (_ & _ & Hdd & _). rewrite bool_decide_false by done.
  destruct (created_crossed _ _ _ _ _ _ _ _ _ _ p Hcr Hpn) as [-> _]. rewrite (created_find_new _ _ _ _ _ _ _ _ _ _ Hcr Hp HF Hno).
  cbn. unfold crossed. destruct (created_node _ _ _ _ _ _ _ _ _ _ Hcr) as (m & -> & (E & _)%core_flags). by rewrite E, Hmt.
Qed.

Definition only_ramfs v : Prop := ∀ q n, nodes v !! q = Some n → n_ops n = Some RAMFS ∨ n_ops n = None.

Lemma vfs_open_spec v h x C K path : kh_rel h C → fs_ok v C K → closed v → Z.of_nat (length path) < 2 ^ 63 →
  only_ramfs v →
  wp (vfs_open fops (Some path) 0) (v, (h, x)) (resolved v h x C path (resolve (kfind v K) v path)).
Proof.
  intros Hr HF Hcl Hlen Hops. apply wp_bind. eapply wp_mono; [by apply (vfs_resolve_path_spec fops (kfind v K)); [eapply ramfs_dirs|..]|].
  intros [q|] s' (Hres & h' & -> & Hr'); [|apply wp_ret; split; [done|by exists h']].
  destruct Hres as [Hres|[? _]]; [|done].
  destruct (resolve_node fops (kfind v K) v path q) as [n Hn]; [by eapply ramfs_dirs|done|].
  apply wp_bind. eapply wp_node_load; [done|]. assert (ops_of fops n ≫= op_open = None) as ->.
  { destruct (Hops _ _ Hn) as [Ho|Ho]; [by rewrite ops_of_ramfs|by unfold ops_of; rewrite Ho]. }
  apply wp_ret. split; [by left|by exists h'].
Qed.

(** C12. Creating a file or directory through the VFS keeps the invariants of
    the tree (directories list exactly their children, every node, file and
    buffer has its own block of the heap), and every path outside /dev that
    led to a node before leads to the same node afterwards; when memory runs
    out, nothing has changed. *)
Theorem vfs_create_keeps v h x C K p name flags l : kh_rel h C → fs_ok v C K → closed v → is_Some (nodes v !! p) →
  K !! crossed v p = Some l → find_name (nodes v) l name = None → name ≠ [] → (length name ≤ 127)%nat →
  wp (vfs_create fops (Some p) name flags) (v, (h, x)) (λ r s', ∃ v' h' C' K', s' = (v', (h', x)) ∧ kh_rel h' C' ∧
    fs_ok v' C' K' ∧ closed v' ∧ (r = None → v' = v ∧ C' = C) ∧
    ∀ path q, take 5 path ≠ dev_prefix → resolve (kfind v K) v path = Some q → resolve (kfind v' K') v' path = Some q).
Proof.
  intros Hr HF Hcl Hpn Hp Hno Hne Hlen. eapply wp_mono; [by eapply vfs_create_spec|].
  intros r s' (v' & h' & C' & K' & -> & Hr' & Hpost). exists v', h', C', K'.
  destruct (create_post_ok _ _ _ _ _ _ _ _ _ HF Hcl Hpost) as [HF' Hcl']. split_and!; [done..| |].
  - intros ->. by destruct Hpost as [(_ & -> & -> & _)|(? & ? & ? & [=] & _)].
  - intros path q Hdev Hq. destruct Hpost as [(_ & -> & _ & ->)|(l' & c & n & _ & Hp' & Hcr & _)]; [done|]. by eapply created_resolve.
Qed.

(** What is created can be opened: after [vfs_create] of a new name in the
    directory a path leads to, [vfs_open] of that path followed by a slash
    and the name returns the node that was created. *)
Lemma create_then_open v h x C K P p name flags l : kh_rel h C → fs_ok v C K → closed v → only_ramfs v →
  root_resolve (kfind v K) v P = Some p → K !! crossed v p = Some l → find_name (nodes v) l name = None → name_ok name →
  head (P ++ slash :: name) = Some slash → take 5 (P ++ slash :: name) ≠ dev_prefix → Z.of_nat (length (P ++ slash :: name)) < 256 →
  wp (r ← vfs_create fops (Some p) name flags; o ← vfs_open fops (Some (P ++ slash :: name)) 0; mret (r, o)) (v, (h, x))
    (λ '(r, o) _, r = None ∨ o = r).
Proof.
  intros Hr HF Hcl Hops HP Hp Hno Hok Hhd Hdev Hlen. pose proof (root_resolve_node fops _ _ _ _ (ramfs_dirs _ _ _ HF Hcl) HP) as Hpn.
  pose proof Hok as (Hne & _ & _ & _ & Hl). apply wp_bind. eapply wp_mono; [by eapply vfs_create_spec|].
  intros r s' (v' & h' & C' & K' & -> & Hr' & Hpost). destruct (create_post_ok _ _ _ _ _ _ _ _ _ HF Hcl Hpost) as [HF' Hcl'].
  assert (only_ramfs v') as Hops'.
  { destruct Hpost as [(_ & -> & _ & _)|(l' & c & n & _ & _ & Hcr & _ & _ & _ & Hn)]; [done|]. intros q m Hm.
    destruct (created_new _ _ _ _ _ _ _ _ _ _ _ _ Hcr Hm) as [[-> (_ & _ & -> & _)%core_flags]|(m0 & Hm0 & (_ & _ & -> & _)%core_flags)];
      [by left|by eapply Hops]. }
  apply wp_bind. eapply wp_mono; [by eapply (vfs_open_spec v' h' x C' K'); [..|lia|]|]. intros o s' (Ho & _). apply wp_ret.
  destruct Hpost as [(-> & _)|(l' & c & n & -> & Hp' & Hcr & <- & Hpar & Hmt & _)]; [by left|right].
  destruct Ho as [->|[_ ?]]; [|lia]. replace l' with l in * by congruence. by eapply created_path.
Qed.

End Paths.
End RamfsTheorems.
