(* ===== verification/RamfsFiles.v ===== *)
(** * The RAM file system: reading and writing files

    A file is a byte string.  A read returns a stretch of it; a write
    replaces one and may extend the file, with bytes the heap left over in
    the gap when it starts behind the end. *)
From S2P Require Import Prelude Links CStringSpec HeapSpec HeapTheorems Kheap Vfs VfsSpec Ramfs RamfsSpec RamfsCreate RamfsTheorems.

Module RamfsFiles.
Import HeapTheorems Kheap Vfs VfsSpec Ramfs RamfsSpec RamfsCreate RamfsTheorems.

Implicit Types (v : vfs) (N : gmap Z node) (K C : gmap Z (list Z)) (p q c f off : Z) (l name path bs : list Z) (d : ramfs_file_data).

(** [l] with [bs] put at offset [o]. *)
Definition overwrite (o : nat) (bs l : list Z) : list Z := take o l ++ bs ++ drop (o + length bs) l.

Lemma inserts_overwrite o bs l : (o + length bs ≤ length l)%nat → list_inserts o bs l = overwrite o bs l.
Proof.
  intros Hl. apply list_eq. intros i. unfold overwrite. destruct (decide (i < o)%nat).
  - rewrite list_lookup_inserts_lt by done. rewrite lookup_app_l by (rewrite length_take; lia). by rewrite lookup_take_lt.
  - rewrite lookup_app_r by (rewrite length_take; lia). rewrite length_take. replace (o `min` length l)%nat with o by lia.
    destruct (decide (i < o + length bs)%nat).
    + rewrite list_lookup_inserts by lia. by rewrite lookup_app_l by lia.
    + rewrite list_lookup_inserts_ge by lia. rewrite lookup_app_r by lia. rewrite lookup_drop. f_equal. lia.
Qed.

Lemma lookup_overwrite o bs l i : (o ≤ length l)%nat →
  overwrite o bs l !! i = if decide (o ≤ i < o + length bs)%nat then bs !! (i - o)%nat else l !! i.
Proof.
  intros Ho. unfold overwrite. destruct (decide (i < o)%nat).
  - rewrite lookup_app_l by (rewrite length_take; lia). rewrite lookup_take_lt by done. by rewrite decide_False by lia.
  - rewrite lookup_app_r by (rewrite length_take; lia). rewrite length_take. replace (o `min` length l)%nat with o by lia.
    destruct (decide _).
    + by rewrite lookup_app_l by lia.
    + rewrite lookup_app_r by lia. rewrite lookup_drop. f_equal. lia.
Qed.

(** The bytes behind [len] count only as far as the write reaches. *)
Lemma overwrite_take len o bs B : (len ≤ length B)%nat → (o + length bs ≤ length B)%nat →
  take (len `max` (o + length bs)) (overwrite o bs B) = overwrite o bs (take len B ++ take (o - len) (drop len B)).
Proof.
  intros Hlen Ho. assert (take len B ++ take (o - len) (drop len B) = take (len `max` o) B) as ->.
  { apply list_eq. intros i. destruct (decide (i < len)%nat).
    - rewrite lookup_app_l by (rewrite length_take; lia). rewrite !lookup_take_lt by lia. done.
    - rewrite lookup_app_r by (rewrite length_take; lia). rewrite length_take. replace (len `min` length B)%nat with len by lia.
      destruct (decide (i < o)%nat); [rewrite !lookup_take_lt, lookup_drop by lia; f_equal; lia|by rewrite !lookup_take_ge by lia]. }
  apply list_eq. intros i. rewrite lookup_overwrite by (rewrite length_take; lia). destruct (decide (i < len `max` (o + length bs))%nat).
  - rewrite lookup_take_lt, lookup_overwrite by lia. destruct (decide _); [done|]. rewrite lookup_take_lt; [done|lia].
  - rewrite lookup_take_ge by lia. rewrite decide_False by lia. by rewrite lookup_take_ge by lia.
Qed.

(** The bytes of a buffer. *)
Definition block C d : list Z := if fd_buffer d =? 0 then [] else default [] (C !! fd_buffer d).

Lemma block_spec v C f d : blocks_ok v C → fdatas v !! f = Some d →
  Z.of_nat (length (block C d)) = fd_capacity d ∧ fd_capacity d < 2 ^ 63 ∧ (fd_buffer d ≠ 0 → C !! fd_buffer d = Some (block C d)).
Proof.
  intros HB Hf. unfold block. destruct (bo_buffer _ _ HB _ _ Hf) as [[-> ->]|(Hb & Hc & b & HC & Hl)]; [cbn; split_and!; [done|lia|done]|].
  destruct (Z.eqb_spec (fd_buffer d) 0); [done|]. rewrite HC. done.
Qed.

(** A node that is a file of ramfs with its data at [f]. *)
Definition is_file v p n f : Prop :=
  nodes v !! p = Some n ∧ n_ops n = Some RAMFS ∧ has (n_flags n) FS_DIRECTORY = false ∧ n_ptr n = Some f.

Lemma content_file v C p n f d : is_file v p n f → fdatas v !! f = Some d → blocks_ok v C →
  content v C p = Some (take (Z.to_nat (n_length n)) (block C d)).
Proof.
  intros (Hn & _ & _ & Hf) Hd HB. unfold content. rewrite Hn. cbn. rewrite Hf. cbn. rewrite Hd. cbn.
  destruct (block_spec _ _ _ _ HB Hd) as (_ & _ & Hb). unfold block in *. destruct (Z.eqb_spec (fd_buffer d) 0); [done|]. by rewrite Hb.
Qed.

Lemma with_fdatas_id v f d : fdatas v !! f = Some d → with_fdatas <[f := d]> v = v.
Proof. intros Hd. unfold with_fdatas. rewrite insert_id by done. by destruct v. Qed.

Lemma blocks_ok_update v C q l l' : blocks_ok v C → C !! q = Some l → length l' = length l → blocks_ok v (<[q := l']> C).
Proof.
  intros HB Hq Hl. assert (∀ r, length <$> <[q := l']> C !! r = length <$> C !! r) as E.
  { intros r. destruct (decide (q = r)) as [<-|]; [rewrite lookup_insert_eq, Hq; cbn; by rewrite Hl|by rewrite lookup_insert_ne]. }
  split; try apply HB.
  - intros p. rewrite E. apply HB.
  - intros f. rewrite E. apply HB.
  - intros f d Hd. destruct (bo_buffer _ _ HB _ _ Hd) as [?|(H1 & H2 & b & Hb & Hbl)]; [by left|]. right. split_and!; [done|done|].
    specialize (E (fd_buffer d)). rewrite Hb in E. destruct (<[q := l']> C !! fd_buffer d) as [b'|]; [|done]. injection E as E. exists b'. split; [done|lia].
Qed.

(** Other buffers than the one at [q] keep their bytes. *)
Lemma block_insert_ne C q l d : fd_buffer d ≠ q → block (<[q := l]> C) d = block C d.
Proof. intros Hq. unfold block. by rewrite lookup_insert_ne by done. Qed.

Lemma with_nodes_id v p n : nodes v !! p = Some n → with_nodes <[p := n]> v = v.
Proof. intros Hd. unfold with_nodes. rewrite insert_id by done. by destruct v. Qed.

Lemma tree_ok_rewrite v K p n n' : tree_ok v K → nodes v !! p = Some n → n_flags n' = n_flags n → n_ops n' = n_ops n →
  n_children n' = n_children n → n_next n' = n_next n → n_parent n' = n_parent n → tree_ok (with_nodes <[p := n']> v) K.
Proof.
  intros HT Hp Hf Ho Hc Hx Hpar.
  assert (∀ q m, <[p := n']> (nodes v) !! q = Some m → ∃ m0, nodes v !! q = Some m0 ∧ n_flags m = n_flags m0 ∧ n_ops m = n_ops m0 ∧
    n_children m = n_children m0 ∧ n_parent m = n_parent m0) as Hback.
  { intros q m. destruct (decide (p = q)) as [<-|]; [rewrite lookup_insert_eq; intros [= <-]; by exists n|rewrite lookup_insert_ne by done; by exists m]. }
  assert (∀ q, n_next <$> <[p := n']> (nodes v) !! q = n_next <$> nodes v !! q) as Hnext.
  { intros q. destruct (decide (p = q)) as [<-|]; [rewrite lookup_insert_eq, Hp; cbn; by rewrite Hx|by rewrite lookup_insert_ne]. }
  split; cbn [with_nodes nodes].
  - intros q. rewrite (to_dom _ _ HT). unfold is_dir. split.
    + intros (m & Hm & Hd). destruct (decide (p = q)) as [<-|].
      * exists n'. rewrite lookup_insert_eq. split; [done|]. rewrite Hf, Ho. replace n with m by congruence. done.
      * exists m. by rewrite lookup_insert_ne.
    + intros (m & Hm & Hd). destruct (Hback _ _ Hm) as (m0 & Hm0 & E1 & E2 & _). exists m0. rewrite <-E1, <-E2. done.
  - intros q l m Hq Hm. destruct (Hback _ _ Hm) as (m0 & Hm0 & _ & _ & -> & _). by eapply to_head.
  - intros q l Hq. destruct (to_kids _ _ HT _ _ Hq) as [Hs Hn]. split; [|done]. eapply siblings_ext; [|done]. intros c _. apply Hnext.
  - intros q l c Hq Hin. destruct (to_parent _ _ HT _ _ _ Hq Hin) as (m & Hm & Hmp). destruct (decide (p = c)) as [<-|].
    + exists n'. rewrite lookup_insert_eq. split; [done|]. congruence.
    + exists m. by rewrite lookup_insert_ne.
Qed.

(** The file system once the buffer of a file and its length have grown. *)
Lemma rewritten v C K p n f d d' C' reach : fs_ok v C K → is_file v p n f → fdatas v !! f = Some d →
  blocks_ok (with_fdatas <[f := d']> v) C' → 0 ≤ reach ≤ fd_capacity d' → fd_capacity d ≤ fd_capacity d' →
  let v' := with_nodes <[p := set_length (n_length n `max` reach) n]> (with_fdatas <[f := d']> v) in
  fs_ok v' C' K ∧ is_file v' p (set_length (n_length n `max` reach) n) f.
Proof.
  intros HF Hfile Hd HB Hreach Hcap v'. pose proof Hfile as (Hn & Hops & Hdir & Hptr).
  destruct (fo_files _ _ _ HF _ _ _ Hn Hops Hdir Hptr) as (d0 & Hd0 & Hlen). replace d0 with d in * by congruence.
  split; [|split_and!; [apply lookup_insert_eq|done..]]. split.
  - eapply blocks_ok_dom; [| |exact HB]; [|done]. intros q. cbn. destruct (decide (p = q)) as [<-|]; [rewrite lookup_insert_eq|by rewrite lookup_insert_ne].
    split; [by eexists|by eexists].
  - eapply tree_ok_rewrite; try done. eapply tree_ok_nodes; [|apply HF]. done.
  - intros q m e Hm Hmo Hmd Hme. cbn [v' with_nodes with_fdatas nodes fdatas] in *. assert (∃ m0, nodes v !! q = Some m0 ∧ n_ops m0 = n_ops m ∧
      n_flags m0 = n_flags m ∧ n_ptr m0 = n_ptr m ∧ (n_length m = n_length m0 ∨ e = f ∧ n_length m = n_length m0 `max` reach)) as (m0 & Hm0 & E1 & E2 & E3 & E4).
    { destruct (decide (p = q)) as [<-|].
      - rewrite lookup_insert_eq in Hm. injection Hm as <-. exists n. split_and!; [done..|]. right. split; [|done]. cbn in Hme. congruence.
      - rewrite lookup_insert_ne in Hm by done. exists m. split_and!; [done..|by left]. }
    destruct (fo_files _ _ _ HF q m0 e Hm0) as (de & Hde & Hle); [congruence|congruence|congruence|].
    destruct (decide (f = e)) as [<-|].
    + exists d'. rewrite lookup_insert_eq. split; [done|]. replace de with d in * by congruence. destruct E4 as [E4|[_ E4]]; lia.
    + exists de. rewrite lookup_insert_ne by done. split; [done|]. destruct E4 as [E4|[? _]]; [lia|congruence].
Qed.

Section Files.
  Context {H X : Type} `{KHeapLaws H}.
  Implicit Types (h : H) (x : X).

Abbreviation state := (vfs * (H * X))%type.

Lemma wp_load_fdata v h x f d (Q : ramfs_file_data → state → Prop) : fdatas v !! f = Some d → Q d (v, (h, x)) → wp (load_fdata f) (v, (h, x)) Q.
Proof. intros Hd HQ. by apply wp_deref with d. Qed.

Lemma ramfs_read_spec v h x C K p n f bs off size : kh_rel h C → fs_ok v C K → is_file v p n f → content v C p = Some bs →
  0 ≤ off → 0 ≤ size → off + size < 2 ^ 64 →
  wp (ramfs_read p off size) (v, (h, x)) (λ '(r, data) s', data = take (Z.to_nat size) (drop (Z.to_nat off) bs) ∧
    r = Z.of_nat (length data) ∧ ∃ h', s' = (v, (h', x)) ∧ kh_rel h' C).
Proof.
  intros Hr HF Hfile Hct Ho Hs Hmax. pose proof Hfile as (Hn & Hops & Hdir & Hptr).
  destruct (fo_files _ _ _ HF _ _ _ Hn Hops Hdir Hptr) as (d & Hd & Hlen). destruct (block_spec _ _ _ _ (fo_blocks _ _ _ HF) Hd) as (Hbl & Hcap & Hb).
  rewrite (content_file _ _ _ _ _ _ Hfile Hd (fo_blocks _ _ _ HF)) in Hct. injection Hct as <-.
  apply wp_bind. eapply wp_node_load; [done|]. rewrite Hptr. destruct (Z.leb_spec (n_length n) off).
  { apply wp_ret. rewrite drop_ge by (rewrite length_take; lia). rewrite take_nil. split_and!; [done|done|by exists h]. }
  set (k := if n_length n <? u64 (off + size) then u64 (n_length n - off) else size).
  assert (k = Z.min size (n_length n - off)) as Hk.
  { unfold k. rewrite !wrap_small by lia. destruct (Z.ltb_spec (n_length n) (off + size)); lia. }
  apply wp_bind. eapply wp_load_fdata; [done|]. apply wp_bind, wp_heap. eapply wp_copy_from; [done|apply Hb|lia|lia|].
  { intros E. unfold block in Hbl. rewrite E in Hbl. cbn in Hbl. lia. }
  intros h' Hr'. apply wp_ret. split_and!; [| |by exists h'].
  - apply list_eq. intros i. destruct (decide (i < Z.to_nat k)%nat).
    + rewrite !lookup_take_lt, !lookup_drop by lia. rewrite lookup_take_lt by lia. done.
    + rewrite lookup_take_ge by lia. destruct (decide (i < Z.to_nat size)%nat); [|by rewrite lookup_take_ge by lia].
      rewrite lookup_take_lt, lookup_drop by lia. by rewrite lookup_take_ge by lia.
  - rewrite length_take, length_drop. lia.
Qed.

Lemma grow_spec v h x C f d req : kh_rel h C → blocks_ok v C → fdatas v !! f = Some d → 0 ≤ req → req + 1024 < 2 ^ 63 →
  wp (grow f req) (v, (h, x)) (λ r s',
    (r = None ∧ ∃ h', s' = (v, (h', x)) ∧ kh_rel h' C) ∨
    ∃ d' g h' C', r = Some (fd_buffer d') ∧ s' = (with_fdatas <[f := d']> v, (h', x)) ∧ kh_rel h' C' ∧
      blocks_ok (with_fdatas <[f := d']> v) C' ∧ block C' d' = block C d ++ g ∧ fd_capacity d `max` req ≤ fd_capacity d' ∧
      (∀ r e, r ≠ f → fdatas v !! r = Some e → block C' e = block C e)).
Proof.
  intros Hr HB Hd Hreq Hmax. destruct (block_spec _ _ _ _ HB Hd) as (Hbl & Hcap & Hb).
  apply wp_bind. eapply wp_load_fdata; [done|]. destruct (Z.ltb_spec (fd_capacity d) req) as [Hlt|].
  2: { apply wp_ret. right. exists d, [], h, C. rewrite with_fdatas_id, app_nil_r by done. split_and!; [done..|lia|done]. }
  rewrite wrap_small by lia. apply wp_bind, wp_heap.
  eapply (wp_krealloc h C (fd_buffer d) (block C d)); [done|unfold HeapSpec.size_ok; lia|lia| |lia| |].
  { destruct (decide (fd_buffer d = 0)) as [E|E]; [left; split; [done|by unfold block; rewrite E]|right; split; [done|by apply Hb]]. }
  { intros h' Hr'. apply wp_ret. left. split; [done|by exists h']. }
  intros q g h' (_ & Hq0 & _ & HCq & _) Hg Hr'. destruct (Z.eqb_spec q 0); [done|]. apply wp_bind, wp_modify, wp_ret. right. cbn [fst snd].
  pose proof (blocks_ok_rebuffer _ _ f d q (req + 1024) (block C d ++ g) HB Hd HCq Hq0 ltac:(rewrite length_app; lia) ltac:(lia)) as HB'.
  eexists (mk_fdata q (req + 1024)), g, h', _. split_and!; [done|done|exact Hr'|exact HB'| |cbn; lia|].
  - unfold block at 1. cbn [fd_buffer]. destruct (Z.eqb_spec q 0); [done|]. by rewrite lookup_insert_eq.
  - intros r e Hrf He. destruct (decide (fd_buffer e = 0)) as [E|E]; [by unfold block; rewrite E|].
    rewrite block_insert_ne.
    + destruct (Z.eqb_spec (fd_buffer d) 0); [done|]. unfold block. rewrite lookup_delete_ne; [done|].
      intros E'. apply Hrf. by eapply (bo_inj _ _ HB r f e d).
    + intros E'. destruct (block_spec _ _ _ _ HB He) as (_ & _ & He'). rewrite <-E', He' in HCq; done.
Qed.

(** The copy into a buffer that is large enough. *)
Lemma put_spec h C d off data (Q : unit → H → Prop) : kh_rel h C → (fd_buffer d ≠ 0 → C !! fd_buffer d = Some (block C d)) →
  Z.of_nat (length (block C d)) = fd_capacity d → 0 ≤ off → off + Z.of_nat (length data) ≤ fd_capacity d → Forall CStringSpec.byte data →
  (∀ h' C', kh_rel h' C' → block C' d = overwrite (Z.to_nat off) data (block C d) →
    (C' = C ∨ ∃ b, fd_buffer d ≠ 0 ∧ C' = <[fd_buffer d := b]> C ∧ length b = length (block C d)) → Q tt h') →
  wp (copy_to (fd_buffer d) off data) h Q.
Proof.
  intros Hr Hb Hl Ho Hd Hby HQ. destruct (decide (fd_buffer d = 0)) as [E|E].
  - assert (block C d = []) as Hbn by (unfold block; by rewrite E). rewrite Hbn in *. destruct data as [|y data]; [|cbn in *; lia].
    apply wp_ret, (HQ h C); [done| |by left]. rewrite Hbn. unfold overwrite. cbn. by rewrite take_nil, drop_nil.
  - eapply wp_copy_to; [done|by apply Hb|done|lia|done|]. intros h' Hr'. eapply HQ; [exact Hr'| |right; eexists; split_and!; [done|done|]].
    + unfold block at 1. destruct (Z.eqb_spec (fd_buffer d) 0); [done|]. rewrite lookup_insert_eq. cbn. apply inserts_overwrite. lia.
    + apply length_inserts.
Qed.

Lemma ramfs_write_spec v h x C K p n f bs off data : kh_rel h C → fs_ok v C K → is_file v p n f → content v C p = Some bs →
  0 ≤ off → off + Z.of_nat (length data) + 1024 < 2 ^ 63 → Forall CStringSpec.byte data →
  wp (ramfs_write p off (Z.of_nat (length data)) data) (v, (h, x)) (λ r s', ∃ v' h' C', s' = (v', (h', x)) ∧ kh_rel h' C' ∧ fs_ok v' C' K ∧
    (r = -1 ∧ v' = v ∧ C' = C ∨
     r = Z.of_nat (length data) ∧ is_file v' p (set_length (n_length n `max` (off + r)) n) f ∧
     (∃ gap, length gap = (Z.to_nat off - length bs)%nat ∧ content v' C' p = Some (overwrite (Z.to_nat off) data (bs ++ gap))) ∧
     (∀ q m e, is_file v q m e → e ≠ f → is_file v' q m e ∧ content v' C' q = content v C q))).
Proof.
  intros Hr HF Hfile Hct Ho Hmax Hby. pose proof Hfile as (Hn & Hops & Hdir & Hptr). pose proof (fo_blocks _ _ _ HF) as HB.
  destruct (fo_files _ _ _ HF _ _ _ Hn Hops Hdir Hptr) as (d & Hd & Hlen). destruct (block_spec _ _ _ _ HB Hd) as (Hbl & Hcap & Hb).
  rewrite (content_file _ _ _ _ _ _ Hfile Hd HB) in Hct. injection Hct as <-.
  apply wp_bind. eapply wp_node_load; [done|]. rewrite Hptr. rewrite wrap_small by lia. apply wp_bind.
  eapply wp_mono; [by apply (grow_spec v h x C f d); [..|lia|lia]|].
  intros r s' [(-> & h' & -> & Hr')|(d' & g & h' & C' & -> & -> & Hr' & HB' & Hblk & Hcap' & Hoth)].
  { apply wp_ret. exists v, h', C. split_and!; [done..|by left]. }
  set (v1 := with_fdatas <[f := d']> v) in *. rewrite Nat2Z.id, (take_ge data) by lia.
  assert (fdatas v1 !! f = Some d') as Hd' by apply lookup_insert_eq. destruct (block_spec _ _ _ _ HB' Hd') as (Hbl' & _ & Hb').
  apply wp_bind, wp_heap. eapply (put_spec h' C' d' off data); [done|done|done|done|lia|done|]. intros h2 C2 Hr2 Hblk2 Hsame2.
  apply wp_bind. rewrite Z.ltb_irrefl. apply wp_ret.
  set (n' := set_length (n_length n `max` (off + Z.of_nat (length data))) n).
  assert (∀ Q : Z → state → Prop, Q (Z.of_nat (length data)) (with_nodes <[p := n']> v1, (h2, x)) →
    wp ((when n_length n <? off + Z.of_nat (length data) do store p (set_length (off + Z.of_nat (length data))));; mret (Z.of_nat (length data))) (v1, (h2, x)) Q) as Hst.
  { intros Q HQ. apply wp_bind. destruct (Z.ltb_spec (n_length n) (off + Z.of_nat (length data))).
    - eapply wp_node_store; [exact Hn|]. apply wp_ret. unfold n' in HQ. by rewrite Z.max_r in HQ by lia.
    - apply wp_ret, wp_ret. unfold n' in HQ. rewrite Z.max_l in HQ by lia. replace (set_length (n_length n) n) with n in HQ by by destruct n.
      by rewrite (with_nodes_id v1) in HQ. }
  apply Hst. exists (with_nodes <[p := n']> v1), h2, C2.
  assert (blocks_ok v1 C2) as HB2.
  { destruct Hsame2 as [->|(b & Hb0 & -> & Hlb)]; [done|]. eapply blocks_ok_update; [done|by apply Hb'|done]. }
  pose proof (rewritten v C K p n f d d' C2 (off + Z.of_nat (length data)) HF Hfile Hd HB2 ltac:(lia) ltac:(lia)) as (HF' & Hfile').
  split_and!; [done|done|done|]. right. split_and!; [done|done| |].
  - exists (take (Z.to_nat off - Z.to_nat (n_length n)) (drop (Z.to_nat (n_length n)) (block C' d'))). split.
    { rewrite length_take, length_drop, length_take. lia. }
    erewrite (content_file (with_nodes <[p := n']> v1) C2 p n' f d'); [|done|done|apply HF'].
    rewrite Hblk2. unfold n'. cbn [n_length set_length].
    replace (Z.to_nat (n_length n `max` (off + Z.of_nat (length data)))) with (Z.to_nat (n_length n) `max` (Z.to_nat off + length data))%nat by lia.
    rewrite overwrite_take by lia. do 3 f_equal. rewrite Hblk. by rewrite take_app_le by lia.
  - intros q m e Hq He. pose proof Hq as (Hm & Hmo & Hmd & Hmp). destruct (fo_files _ _ _ HF _ _ _ Hm Hmo Hmd Hmp) as (de & Hde & _).
    assert (q ≠ p) as Hqp by (intros ->; congruence).
    assert (is_file (with_nodes <[p := n']> v1) q m e) as Hq'. { split_and!; [cbn; by rewrite lookup_insert_ne|done..]. }
    split; [done|]. assert (fdatas v1 !! e = Some de) as Hde' by (cbn; by rewrite lookup_insert_ne).
    rewrite (content_file _ _ _ _ _ de Hq'), (content_file _ _ _ _ _ de Hq) by (done || apply HF'). do 2 f_equal.
    rewrite <-(Hoth e de) by done. destruct Hsame2 as [->|(b & Hb0 & -> & _)]; [done|]. apply block_insert_ne.
    intros E. apply He. apply (bo_inj _ _ HB' e f de d'); [done|done|congruence|done].
Qed.

  Variable others : Z → file_operations (vfs * (H * X)).
  Variable page_cache_read : Z → Z → Z → M (vfs * (H * X)) (Z * list Z).
  Variable page_cache_write : Z → Z → Z → list Z → M (vfs * (H * X)) Z.

Abbreviation fops := (Ramfs.fops others).
Abbreviation vfs_read := (Vfs.vfs_read fops page_cache_read).
Abbreviation vfs_write := (Vfs.vfs_write fops page_cache_write).

(** The VFS leaves files of ramfs, which are not marked cacheable, to ramfs. *)
Lemma wp_vfs_read v h x p n f off size (Q : Z * list Z → state → Prop) : is_file v p n f → has (n_flags n) FS_CACHEABLE = false →
  wp (ramfs_read p off size) (v, (h, x)) Q → wp (vfs_read (Some p) off size) (v, (h, x)) Q.
Proof.
  intros (Hn & Ho & _) Hc HQ. apply wp_bind. eapply wp_node_load; [done|]. rewrite ops_of_ramfs by done. rewrite Hc. done.
Qed.

Lemma wp_vfs_write v h x p n f off size data (Q : Z → state → Prop) : is_file v p n f → has (n_flags n) FS_CACHEABLE = false →
  wp (ramfs_write p off size data) (v, (h, x)) Q → wp (vfs_write (Some p) off size data) (v, (h, x)) Q.
Proof.
  intros (Hn & Ho & _) Hc HQ. apply wp_bind. eapply wp_node_load; [done|]. rewrite ops_of_ramfs by done. rewrite Hc. done.
Qed.

(** Writing to a file of the RAM file system replaces the bytes from the
    offset on and extends the file where needed; between the old end and the
    offset the file then has bytes of the heap block.  Every file with other
    data keeps its contents, and a write that fails has changed nothing. *)
Lemma ramfs_file_write v h x C K p n f bs off data : kh_rel h C → fs_ok v C K → is_file v p n f → content v C p = Some bs →
  has (n_flags n) FS_CACHEABLE = false → 0 ≤ off → off + Z.of_nat (length data) + 1024 < 2 ^ 63 → Forall CStringSpec.byte data →
  wp (vfs_write (Some p) off (Z.of_nat (length data)) data) (v, (h, x)) (λ r s', ∃ v' h' C', s' = (v', (h', x)) ∧ kh_rel h' C' ∧ fs_ok v' C' K ∧
    (r = -1 ∧ v' = v ∧ C' = C ∨
     r = Z.of_nat (length data) ∧
     (∃ gap, length gap = (Z.to_nat off - length bs)%nat ∧ content v' C' p = Some (overwrite (Z.to_nat off) data (bs ++ gap))) ∧
     (∀ q m e, is_file v q m e → e ≠ f → is_file v' q m e ∧ content v' C' q = content v C q))).
Proof.
  intros Hr HF Hfile Hct Hc Ho Hmax Hby. eapply wp_vfs_write; [done|done|]. eapply wp_mono; [by eapply ramfs_write_spec|].
  intros r s' (v' & h' & C' & -> & Hr' & HF' & Hcase). exists v', h', C'. split_and!; [done..|].
  destruct Hcase as [?|(-> & _ & Hg & Hoth)]; [by left|]. right. by split.
Qed.

(** C13. What is written to a file of the RAM file system is read back. *)
Theorem ramfs_write_read v h x C K p n f off data : kh_rel h C → fs_ok v C K → is_file v p n f →
  has (n_flags n) FS_CACHEABLE = false → 0 ≤ off → off + Z.of_nat (length data) + 1024 < 2 ^ 63 → Forall CStringSpec.byte data →
  wp (r ← vfs_write (Some p) off (Z.of_nat (length data)) data; got ← vfs_read (Some p) off (Z.of_nat (length data)); mret (r, got)) (v, (h, x))
    (λ '(r, got) _, r = -1 ∨ r = Z.of_nat (length data) ∧ got = (Z.of_nat (length data), data)).
Proof.
  intros Hr HF Hfile Hc Ho Hmax Hby. pose proof Hfile as (Hn & Hops & Hdir & Hptr).
  destruct (fo_files _ _ _ HF _ _ _ Hn Hops Hdir Hptr) as (d & Hd & _). pose proof (content_file _ _ _ _ _ _ Hfile Hd (fo_blocks _ _ _ HF)) as Hct.
  apply wp_bind. eapply wp_vfs_write; [done|done|]. eapply wp_mono; [by eapply ramfs_write_spec|].
  intros r s' (v' & h' & C' & -> & Hr' & HF' & [(-> & -> & ->)|(-> & Hfile' & (gap & Hgap & Hct') & _)]); apply wp_bind.
  - eapply wp_vfs_read; [done|done|]. eapply wp_mono; [eapply (ramfs_read_spec v h' x C K p n f); [done..|lia|lia]|].
    intros [k got] s' _. apply wp_ret. by left.
  - eapply wp_vfs_read; [exact Hfile'|done|]. eapply wp_mono; [eapply ramfs_read_spec; [done|done|exact Hfile'|exact Hct'|done|lia|lia]|].
    intros [k got] s' (-> & -> & _). apply wp_ret. right. split; [done|]. unfold overwrite.
    rewrite drop_app_length' by (rewrite length_take, length_app; lia). rewrite Nat2Z.id, take_app_length. done.
Qed.

End Files.

(** ** A request size that overflows *)

Lemma copy_from_fault (C : gmap Z (list Z)) p l : C !! p = Some l → ∀ n k, 0 ≤ k ≤ Z.of_nat (length l) → Z.of_nat (length l) < k + Z.of_nat n →
  copy_from p k n C = Fault.
Proof.
  intros Hp. induction n as [|n IH]; intros k Hk Hn; [lia|]. cbn [copy_from].
  destruct (decide (k = Z.of_nat (length l))) as [->|Hne].
  - apply bind_Fault. unfold kh_run, map_heap_ops, map_heap_run. rewrite Hp. destruct (Z.leb_spec 0 (Z.of_nat (length l))); [|done].
    rewrite Nat2Z.id, lookup_ge_None_2 by lia. done.
  - destruct (lookup_lt_is_Some_2 l (Z.to_nat k)) as [y Hy]; [lia|].
    rewrite (bind_Ret _ _ _ y C); [|unfold kh_run, map_heap_ops, map_heap_run; rewrite Hp; destruct (Z.leb_spec 0 k); [by rewrite Hy|lia]].
    apply bind_Fault. apply IH; lia.
Qed.

(** A read whose offset and size add up to more than 64 bits is not cut
    to the length of the file: the sum wraps around, the check passes, and
    the copy runs over the end of the file's buffer. *)
Lemma ramfs_read_overflow {X} others pcr v C (x : X) K p n f off size : fs_ok v C K → is_file v p n f → has (n_flags n) FS_CACHEABLE = false →
  0 < off < n_length n → size < 2 ^ 64 ≤ off + size →
  Vfs.vfs_read (Ramfs.fops others) pcr (Some p) off size (v, (C, x)) = Fault.
Proof.
  intros HF (Hn & Hops & Hdir & Hptr) Hc Ho Hs. destruct (fo_files _ _ _ HF _ _ _ Hn Hops Hdir Hptr) as (d & Hd & Hlen).
  destruct (block_spec _ _ _ _ (fo_blocks _ _ _ HF) Hd) as (Hbl & Hcap & Hb).
  unfold Vfs.vfs_read. rewrite (bind_Ret _ _ _ n (v, (C, x))) by (unfold load, deref; cbn [fst]; by rewrite Hn).
  rewrite ops_of_ramfs, Hc by done. cbn [andb op_read ramfs_fops]. unfold ramfs_read.
  rewrite (bind_Ret _ _ _ n (v, (C, x))) by (unfold load, deref; cbn [fst]; by rewrite Hn). rewrite Hptr.
  destruct (Z.leb_spec (n_length n) off); [lia|].
  rewrite (bind_Ret _ _ _ d (v, (C, x))) by (unfold load_fdata, deref; cbn [fst]; by rewrite Hd).
  assert (u64 (off + size) = off + size - 2 ^ 64) as -> by (unfold wrap; symmetry; apply Z.mod_unique_pos with 1; lia).
  destruct (Z.ltb_spec (n_length n) (off + size - 2 ^ 64)); [lia|]. apply bind_Fault. unfold heap, lift_r, lift_l.
  rewrite (copy_from_fault _ _ (block C d)); [done| |lia|lia]. apply Hb. intros E. unfold block in Hbl. rewrite E in Hbl. cbn in Hbl. lia.
Qed.
(** ** A file system with one file

    The root at address 16, the file "a" with the bytes 1, 2, 3 at 224. *)

Definition no_ops {S} (t : Z) : file_operations S := mk_fops None None None None None None None.

Definition demo_boot : outcome (unit * (vfs * (gmap Z (list Z) * unit))) :=
  vfs_subsys_initcall no_ops (mret tt) (mk_vfs ∅ ∅ None None, (∅, tt)).

Definition demo_root : node := mk_node [slash] FS_DIRECTORY 493 0 0 0 (Some RAMFS) None (Some 16) None None.
Definition demo_v0 : vfs := mk_vfs {[16 := demo_root]} ∅ (Some 16) None.
Definition demo_C0 : gmap Z (list Z) := {[16 := replicate 200 0]}.

Lemma demo_boot_eq : demo_boot = Ret (tt, (demo_v0, (demo_C0, tt))).
Proof. vm_compute. reflexivity. Qed.

Lemma demo_ok0 : fs_ok demo_v0 demo_C0 {[16 := []]} ∧ closed demo_v0 ∧ only_ramfs demo_v0.
Proof.
  assert (∀ p n, nodes demo_v0 !! p = Some n → p = 16 ∧ n = demo_root) as Hn.
  { intros p n Hp. change (nodes demo_v0) with ({[16 := demo_root]} : gmap Z node) in Hp. by apply lookup_singleton_Some in Hp as [<- <-]. }
  split_and!.
  - split; [split|split|].
    + intros p [n [-> ->]%Hn]. done.
    + by intros f [d Hd].
    + by intros f d Hd.
    + by intros f d Hd.
    + by intros f g d e Hd.
    + intros p. split.
      * intros [l [<- _]%lookup_singleton_Some]. exists demo_root. done.
      * intros (n & [-> ->]%Hn & _). by eexists.
    + intros p l n [<- <-]%lookup_singleton_Some [_ ->]%Hn. done.
    + intros p l [<- <-]%lookup_singleton_Some. split; [done|constructor].
    + intros p l c [<- <-]%lookup_singleton_Some Hc. by apply elem_of_nil in Hc.
    + intros p n f [_ ->]%Hn. done.
  - split.
    + intros p n q [_ ->]%Hn [= <-]. by eexists.
    + intros p n q [_ ->]%Hn. done.
    + intros q [= <-]. by eexists.
    + done.
    + intros p n [_ ->]%Hn. done.
  - intros q n [_ ->]%Hn. by left.
Qed.

Definition demo_create : M (vfs * (gmap Z (list Z) * unit)) (option Z) := ramfs_create_file (Some 16) [97] (Some [1; 2; 3]) 3.

Definition result {S B} (o : outcome (B * S)) : option B := match o with Ret (b, _) => Some b | _ => None end.

Lemma demo_create_eq : result (demo_create (demo_v0, (demo_C0, tt))) = Some (Some 224).
Proof. vm_compute. reflexivity. Qed.

Lemma map_rel (C : gmap Z (list Z)) : kh_rel C C.
Proof. done. Qed.

Lemma demo_file : ∃ v (C : gmap Z (list Z)) K n f, fs_ok v C K ∧ is_file v 224 n f ∧ has (n_flags n) FS_CACHEABLE = false ∧ n_length n = 3 ∧
  content v C 224 = Some [1; 2; 3].
Proof.
  destruct demo_ok0 as (HF & _ & _).
  assert (initial (Some [1; 2; 3]) 3 [1; 2; 3]) as Hi by (split_and!; [by right|done|done|repeat constructor; lia|lia]).
  pose proof (ramfs_create_file_spec (H := gmap Z (list Z)) demo_v0 demo_C0 tt demo_C0 {[16 := []]} 16 [] [97] (Some [1; 2; 3]) 3 [1; 2; 3] eq_refl HF
    (lookup_singleton_eq _ _) Hi) as Hw.
  apply wp_run in Hw as (r & s & Hrun & Hpost). pose proof demo_create_eq as Hc. unfold demo_create in Hc. rewrite Hrun in Hc. injection Hc as ->.
  destruct Hpost as [[? _]|(c & f & v' & h' & C' & K' & [= <-] & _ & _ & Hcr & Hct)]; [done|].
  destruct (created_node _ _ _ _ _ _ _ _ _ _ Hcr) as (m & Hm & Em). destruct m. injection Em as -> -> -> -> -> -> -> -> ->.
  eexists v', C', K', _, f. split_and!; [by eapply cr_ok|split_and!; [exact Hm|done..]|done|done|done].
Qed.

Abbreviation demo_state := (vfs * (gmap Z (list Z) * unit))%type.

Definition demo_pcr (p off size : Z) : M demo_state (Z * list Z) := mret (0, []).
Definition demo_pcw (p off size : Z) (data : list Z) : M demo_state Z := mret 0.

Lemma ramfs_file_write_witness : ∃ v (C : gmap Z (list Z)) K n f, is_file v 224 n f ∧
  wp (Vfs.vfs_write (Ramfs.fops no_ops) demo_pcw (Some 224) 5 2 [8; 9]) (v, (C, tt)) (λ r s', ∃ v' h' C', s' = (v', (h', tt)) ∧ kh_rel h' C' ∧ fs_ok v' C' K ∧
    (r = -1 ∧ v' = v ∧ C' = C ∨
     r = 2 ∧
     (∃ gap, length gap = 2%nat ∧ content v' C' 224 = Some (overwrite 5 [8; 9] ([1; 2; 3] ++ gap))) ∧
     (∀ q m e, is_file v q m e → e ≠ f → is_file v' q m e ∧ content v' C' q = content v C q))).
Proof.
  destruct demo_file as (v & C & K & n & f & HF & Hf & Hc & _ & Hct). exists v, C, K, n, f. split; [exact Hf|].
  apply (ramfs_file_write (H := gmap Z (list Z)) no_ops demo_pcw v C tt C K 224 n f [1; 2; 3] 5 [8; 9] (map_rel C) HF Hf Hct Hc); [lia|cbn; lia|repeat constructor; lia].
Defined.

Lemma ramfs_write_read_witness : ∃ v (C : gmap Z (list Z)) K n f, fs_ok v C K ∧ is_file v 224 n f ∧
  wp (r ← Vfs.vfs_write (Ramfs.fops no_ops) demo_pcw (Some 224) 5 2 [8; 9]; got ← Vfs.vfs_read (Ramfs.fops no_ops) demo_pcr (Some 224) 5 2; mret (r, got)) (v, (C, tt))
    (λ '(r, got) _, r = -1 ∨ r = 2 ∧ got = (2, [8; 9])).
Proof.
  destruct demo_file as (v & C & K & n & f & HF & Hf & Hc & _ & _). exists v, C, K, n, f. split; [exact HF|]. split; [exact Hf|].
  apply (ramfs_write_read (H := gmap Z (list Z)) no_ops demo_pcr demo_pcw v C tt C K 224 n f 5 [8; 9] (map_rel C) HF Hf Hc); [lia|cbn; lia|repeat constructor; lia].
Defined.

Lemma ramfs_read_overflow_witness : ∃ v C, Vfs.vfs_read (Ramfs.fops no_ops) demo_pcr (Some 224) 1 (2 ^ 64 - 1) (v, (C, tt)) = Fault.
Proof.
  destruct demo_file as (v & C & K & n & f & HF & Hf & Hc & Hlen & _). exists v, C.
  apply (ramfs_read_overflow no_ops demo_pcr v C tt K 224 n f 1 (2 ^ 64 - 1) HF Hf Hc); lia.
Defined.

Lemma vfs_create_keeps_witness : wp (vfs_create (Ramfs.fops no_ops) (Some 16) [98] FS_DIRECTORY) (demo_v0, (demo_C0, tt)) (λ r s',
  ∃ v' h' C' K', s' = (v', (h', tt)) ∧ kh_rel h' C' ∧ fs_ok v' C' K' ∧ closed v' ∧ (r = None → v' = demo_v0 ∧ C' = demo_C0) ∧
    ∀ path q, take 5 path ≠ dev_prefix → resolve (kfind demo_v0 {[16 := []]}) demo_v0 path = Some q → resolve (kfind v' K') v' path = Some q).
Proof.
  destruct demo_ok0 as (HF & Hcl & _).
  apply (vfs_create_keeps (H := gmap Z (list Z)) no_ops demo_v0 demo_C0 tt demo_C0 {[16 := []]} 16 [98] FS_DIRECTORY [] (map_rel demo_C0) HF Hcl); [by eexists|done|done|done|cbn; lia].
Defined.

Lemma create_then_open_witness :
  wp (r ← vfs_create (Ramfs.fops no_ops) (Some 16) [98] FS_DIRECTORY; o ← vfs_open (Ramfs.fops no_ops) (Some [47; 98]) 0; mret (r, o)) (demo_v0, (demo_C0, tt))
    (λ '(r, o) _, r = None ∨ o = r).
Proof.
  destruct demo_ok0 as (HF & Hcl & Hr).
  apply (create_then_open (H := gmap Z (list Z)) no_ops demo_v0 demo_C0 tt demo_C0 {[16 := []]} [] 16 [98] FS_DIRECTORY [] (map_rel demo_C0) HF Hcl Hr);
    [done|done|done| |done|done|cbn; lia].
  split_and!; [done|done|done|by intros ?%list_elem_of_singleton|cbn; lia].
Defined.

(** A file that is extended by a write behind its end shows what its heap
    block held before: a fresh block of [map_heap] holds 0xAA. *)
Lemma gap_shows_heap : result ((f ← ramfs_create_file (Some 16) [97] None 0;
    match f with
    | Some p => ramfs_write p 4 1 [7];; '(_, got) ← ramfs_read p 0 5; mret got
    | None => mret []
    end) ((demo_v0, (demo_C0, tt)) : demo_state)) = Some [0xAA; 0xAA; 0xAA; 0xAA; 7].
Proof. vm_compute. reflexivity. Qed.

End RamfsFiles.
