(* ===== verification/Block.v ===== *)
(** * Block devices and byte images

    A disk is seen by the file systems as sectors of 512 bytes behind the two
    calls of [block_device_t] ([drivers/disk/block.h]).  [BlockOps] names the
    calls, [BlockLaws] what the drivers promise about them in terms of the
    bytes of the disk; a disk in memory is an instance.  The lemmas on ranges
    of byte lists and on little-endian numbers are shared by the file systems. *)
From S2P Require Import Prelude.

(** ** Ranges of a byte list *)

Definition slice (off len : Z) (l : list Z) : list Z := take (Z.to_nat len) (drop (Z.to_nat off) l).

(** [memcpy(l + off, bs, length bs)] *)
Definition patch (off : Z) (bs l : list Z) : list Z := take (Z.to_nat off) l ++ bs ++ drop (Z.to_nat off + length bs) l.

(** The range of [n] bytes from [off] on lies in [l]. *)
Definition inside (off n : Z) (l : list Z) : Prop := 0 ≤ off ∧ 0 ≤ n ∧ off + n ≤ Z.of_nat (length l).

Definition len (l : list Z) : Z := Z.of_nat (length l).

(** Little-endian numbers. *)
Fixpoint le_bytes (n : nat) (v : Z) : list Z := match n with O => [] | S n' => v mod 256 :: le_bytes n' (v / 256) end.
Fixpoint le_val (l : list Z) : Z := match l with [] => 0 | b :: l' => b + 256 * le_val l' end.

(** Fields of a buffer. *)
Definition get8 (o : Z) (l : list Z) : Z := le_val (slice o 1 l).
Definition get16 (o : Z) (l : list Z) : Z := le_val (slice o 2 l).
Definition get32 (o : Z) (l : list Z) : Z := le_val (slice o 4 l).
Definition put8 (o v : Z) : list Z → list Z := patch o (le_bytes 1 v).
Definition put16 (o v : Z) : list Z → list Z := patch o (le_bytes 2 v).
Definition put32 (o v : Z) : list Z → list Z := patch o (le_bytes 4 v).

Lemma slice_size off n l : inside off n l → length (slice off n l) = Z.to_nat n.
Proof. intros (?&?&?). unfold slice. rewrite length_take, length_drop. lia. Qed.

Lemma slice_lookup off n l i : 0 ≤ off → slice off n l !! i = if decide (Z.of_nat i < n) then l !! (Z.to_nat off + i)%nat else None.
Proof.
  intros. unfold slice. case_decide.
  - rewrite lookup_take_lt by lia. apply lookup_drop.
  - apply lookup_take_ge. lia.
Qed.

Lemma patch_length off bs l : inside off (len bs) l → length (patch off bs l) = length l.
Proof. intros (?&?&?). unfold patch, len in *. rewrite !length_app, length_take, length_drop. lia. Qed.

Lemma patch_lookup off bs l j : inside off (len bs) l →
  patch off bs l !! j = if decide (off ≤ Z.of_nat j < off + len bs) then bs !! (j - Z.to_nat off)%nat else l !! j.
Proof.
  intros (Ho & _ & Hl). unfold patch, len in *. assert (length (take (Z.to_nat off) l) = Z.to_nat off) as Ht by (rewrite length_take; lia). case_decide.
  - rewrite lookup_app_r, Ht by lia. by rewrite lookup_app_l by lia.
  - destruct (decide (Z.of_nat j < off)); [rewrite lookup_app_l, lookup_take_lt by lia; done|].
    rewrite lookup_app_r, Ht, lookup_app_r, lookup_drop by lia. f_equal. lia.
Qed.

(** Reading where nothing was written, and where all of it was. *)
Lemma slice_patch_out off n o bs l : inside o (len bs) l → 0 ≤ off → off + n ≤ o ∨ o + len bs ≤ off → slice off n (patch o bs l) = slice off n l.
Proof.
  intros Hi Ho Hd. apply list_eq. intros i. rewrite !slice_lookup by done. case_decide; [|done]. rewrite patch_lookup by done. case_decide; [lia|done].
Qed.

Lemma slice_patch_eq off bs l : inside off (len bs) l → slice off (len bs) (patch off bs l) = bs.
Proof.
  intros Hi. pose proof Hi as (Ho & _ & _). apply list_eq. intros i. rewrite slice_lookup by done. case_decide.
  - rewrite patch_lookup by done. rewrite decide_True by (unfold len in *; lia). f_equal. lia.
  - symmetry. apply lookup_ge_None_2. unfold len in *. lia.
Qed.

(** A range of a range. *)
Lemma slice_slice a n b m l : 0 ≤ a → 0 ≤ b → a + n ≤ m → slice a n (slice b m l) = slice (b + a) n l.
Proof.
  intros. apply list_eq. intros i. rewrite !slice_lookup by lia. case_decide; [|done]. rewrite decide_True by lia. f_equal. lia.
Qed.

(** Writing inside a range that is then read. *)
Lemma slice_patch_in a bs b m l : inside b m l → 0 ≤ a → a + len bs ≤ m → slice b m (patch (b + a) bs l) = patch a bs (slice b m l).
Proof.
  intros Hi Ha Hm. pose proof Hi as (Hb & Hm0 & Hl). assert (inside (b + a) (len bs) l) as Hp by (unfold inside, len in *; lia).
  assert (inside a (len bs) (slice b m l)) as Hs by (unfold inside; rewrite slice_size by done; unfold len in *; lia).
  apply list_eq. intros i. rewrite slice_lookup by done. rewrite (patch_lookup a bs (slice b m l)) by done. rewrite slice_lookup by done. case_decide.
  - rewrite patch_lookup by done. destruct (decide (a ≤ Z.of_nat i < a + len bs)).
    + rewrite decide_True by lia. f_equal. lia.
    + by rewrite decide_False by lia.
  - rewrite decide_False by lia. done.
Qed.

(** Ranges across the border of two lists. *)
Lemma slice_app_l o n a b : 0 ≤ o → o + n ≤ len a → slice o n (a ++ b) = slice o n a.
Proof.
  intros Ho Hn. apply list_eq. intros i. rewrite !slice_lookup by done. case_decide; [|done]. apply lookup_app_l. unfold len in Hn. lia.
Qed.

Lemma slice_app_r o n a b : 0 ≤ o ≤ len a → len a ≤ o + n → slice o n (a ++ b) = slice o (len a - o) a ++ slice 0 (n - (len a - o)) b.
Proof.
  unfold len. intros Ho Hn. apply list_eq. intros i. assert (length (slice o (Z.of_nat (length a) - o) a) = Z.to_nat (Z.of_nat (length a) - o)) as Hl by (apply slice_size; unfold inside; lia).
  rewrite slice_lookup by lia. destruct (decide (i < length a - Z.to_nat o)%nat).
  - rewrite decide_True, !lookup_app_l by lia. rewrite slice_lookup, decide_True by lia. done.
  - rewrite (lookup_app_r (slice _ _ _)) by lia. rewrite Hl, slice_lookup by lia. case_decide.
    + rewrite lookup_app_r by lia. rewrite decide_True by lia. f_equal. lia.
    + by rewrite decide_False by lia.
Qed.

Lemma slice_nil o l : slice o 0 l = [].
Proof. done. Qed.

Lemma slice_all l : slice 0 (len l) l = l.
Proof. unfold slice, len. rewrite drop_0. apply take_ge. lia. Qed.

Lemma patch_all l bs : length bs = length l → patch 0 bs l = bs.
Proof. intros Hl. unfold patch. rewrite take_0. cbn [app]. rewrite drop_ge by lia. apply app_nil_r. Qed.

(** Writing back what was read. *)
Lemma patch_slice o n l : inside o n l → patch o (slice o n l) l = l.
Proof.
  intros Hi. assert (len (slice o n l) = n) as Hn by (unfold len; rewrite slice_size by done; destruct Hi; lia).
  assert (inside o (len (slice o n l)) l) as Hp by by rewrite Hn.
  apply list_eq. intros j. rewrite patch_lookup by done. case_decide; [|done]. rewrite Hn in *. destruct Hi. rewrite slice_lookup, decide_True by lia. f_equal. lia.
Qed.

Lemma patch_patch o b1 b2 l : inside o (len b1) l → len b1 = len b2 → patch o b2 (patch o b1 l) = patch o b2 l.
Proof.
  intros Hi Hl. assert (inside o (len b2) l) by by rewrite <-Hl. assert (inside o (len b2) (patch o b1 l)) by (unfold inside; rewrite patch_length by done; done).
  apply list_eq. intros j. rewrite !patch_lookup by done. case_decide; [done|]. by rewrite decide_False by lia.
Qed.

Lemma patch_comm o b o' b' l : inside o (len b) l → inside o' (len b') l → o + len b ≤ o' ∨ o' + len b' ≤ o →
  patch o b (patch o' b' l) = patch o' b' (patch o b l).
Proof.
  intros H1 H2 Hd. assert (inside o (len b) (patch o' b' l)) by (unfold inside; by rewrite patch_length).
  assert (inside o' (len b') (patch o b l)) by (unfold inside; by rewrite patch_length).
  apply list_eq. intros j. rewrite !patch_lookup by done. repeat case_decide; done || lia.
Qed.

(** A piece of a range written back with the range. *)
Lemma patch_in_slice a n o bs l : inside a n l → 0 ≤ o → o + len bs ≤ n → patch a (patch o bs (slice a n l)) l = patch (a + o) bs l.
Proof.
  intros Hin Ho Hn. rewrite <-slice_patch_in by done. set (l' := patch (a + o) bs l). assert (inside (a + o) (len bs) l) as Hi by (unfold inside, len in *; lia).
  assert (inside a n l') as Hin' by (unfold inside, l' in *; by rewrite patch_length). pose proof (slice_size _ _ _ Hin') as Hsl.
  assert (inside a (len (slice a n l')) l) as Hip by (unfold len; rewrite Hsl; destruct Hin as (?&?&?); unfold inside; lia).
  apply list_eq. intros j. rewrite patch_lookup by done. case_decide as Hj; unfold len in Hj; rewrite Hsl in Hj; destruct Hin as (?&?&?).
  - rewrite slice_lookup, decide_True by lia. f_equal. lia.
  - unfold l'. rewrite patch_lookup, decide_False by (done || lia). done.
Qed.

Lemma patch_nil o l : patch o [] l = l.
Proof. unfold patch. cbn [app length]. rewrite Nat.add_0_r. apply take_drop. Qed.

(** Two pieces, one behind the other. *)
Lemma patch_behind o b1 b2 l : inside o (len b1 + len b2) l → patch (o + len b1) b2 (patch o b1 l) = patch o (b1 ++ b2) l.
Proof.
  intros (Ho & _ & Hl). assert (len (b1 ++ b2) = len b1 + len b2) as Hlen by (unfold len; rewrite length_app; lia).
  assert (inside o (len b1) l) by (unfold inside, len in *; lia).
  assert (inside (o + len b1) (len b2) (patch o b1 l)) by (unfold inside; rewrite patch_length by done; unfold len in *; lia).
  assert (inside o (len (b1 ++ b2)) l) by (rewrite Hlen; unfold inside, len in *; lia).
  apply list_eq. intros j. rewrite !patch_lookup by done. rewrite Hlen. unfold len in *. repeat case_decide; try lia; try done.
  - rewrite lookup_app_r by lia. f_equal. lia.
  - by rewrite lookup_app_l by lia.
Qed.

Lemma patch_app_l o bs a b : inside o (len bs) a → patch o bs (a ++ b) = patch o bs a ++ b.
Proof.
  intros (Ho & _ & Hl). unfold patch, len in *. rewrite take_app_le, drop_app_le by lia. by rewrite <-!app_assoc.
Qed.

Lemma patch_app_r o bs a b : 0 ≤ o → patch (len a + o) bs (a ++ b) = a ++ patch o bs b.
Proof.
  intros Ho. unfold patch, len. rewrite take_app_ge, drop_app_ge by lia. rewrite <-app_assoc. f_equal. f_equal; [f_equal; lia|]. f_equal. f_equal. lia.
Qed.

(** ** Little-endian numbers *)

Lemma le_bytes_len n v : length (le_bytes n v) = n.
Proof. revert v. induction n as [|n IH]; intros v; simpl; [done|by rewrite IH]. Qed.

Lemma le_val_bytes n : ∀ v, le_val (le_bytes n v) = v mod 2 ^ (8 * Z.of_nat n).
Proof.
  induction n as [|n IH]; intros v; cbn [le_bytes le_val]; [by rewrite Z.mod_1_r|]. rewrite IH.
  replace (8 * Z.of_nat (S n)) with (8 + 8 * Z.of_nat n) by lia. rewrite Z.pow_add_r by lia. change (2 ^ 8) with 256.
  rewrite Z.rem_mul_r by lia. done.
Qed.

Lemma le_val_range l : Forall (λ b, 0 ≤ b < 256) l → 0 ≤ le_val l < 2 ^ (8 * len l).
Proof.
  unfold len. induction 1 as [|b l Hb _ IH]; cbn [le_val length]; [done|]. replace (8 * Z.of_nat (S (length l))) with (8 + 8 * Z.of_nat (length l)) by lia.
  rewrite Z.pow_add_r by lia. change (2 ^ 8) with 256. nia.
Qed.

Lemma le_bytes_range n : ∀ v, Forall (λ b, 0 ≤ b < 256) (le_bytes n v).
Proof. induction n as [|n IH]; intros v; constructor; [by apply Z.mod_pos_bound|apply IH]. Qed.

(** A field just stored, and one stored elsewhere. *)
Lemma get_put n o v l : inside o (Z.of_nat n) l → le_val (slice o (Z.of_nat n) (patch o (le_bytes n v) l)) = v mod 2 ^ (8 * Z.of_nat n).
Proof.
  intros Hi. assert (len (le_bytes n v) = Z.of_nat n) as Hl by (unfold len; by rewrite le_bytes_len).
  rewrite <-Hl at 1. rewrite slice_patch_eq by by rewrite Hl. apply le_val_bytes.
Qed.

Lemma put_le_length n o v l : inside o (Z.of_nat n) l → length (patch o (le_bytes n v) l) = length l.
Proof. intros Hi. apply patch_length. unfold len. by rewrite le_bytes_len. Qed.

(** ** The interface *)

(** [dev.read(lba, count, buffer)] and [dev.write(lba, count, buffer)]: the
    return code, and what a read leaves in the buffer. *)
Class BlockOps (D : Type) := {
  dev_read : Z → Z → M D (Z * list Z);
  dev_write : Z → Z → list Z → M D Z;
}.

Class BlockLaws (D : Type) `{BlockOps D} := {
  content : D → list Z;
  dev_read_law d lba n : inside (512 * lba) (512 * n) (content d) →
    wp (dev_read lba n) d (λ '(rc, buf) d', rc = 0 ∧ buf = slice (512 * lba) (512 * n) (content d) ∧ content d' = content d);
  dev_write_law d lba n buf : inside (512 * lba) (512 * n) (content d) → len buf = 512 * n →
    wp (dev_write lba n buf) d (λ rc d', rc = 0 ∧ content d' = patch (512 * lba) buf (content d));
}.

(** A disk in memory: accesses past its end fail. *)
Definition ramdisk_fits (lba n : Z) (d : list Z) : bool := (0 <=? lba) && (0 <=? n) && (512 * (lba + n) <=? len d).

#[global] Instance ramdisk_ops : BlockOps (list Z) := {|
  dev_read lba n := λ d, Ret (if ramdisk_fits lba n d then (0, slice (512 * lba) (512 * n) d) else (-1, replicate (Z.to_nat (512 * n)) 0), d);
  dev_write lba n buf := λ d, Ret (if ramdisk_fits lba n d then (0, patch (512 * lba) (take (Z.to_nat (512 * n)) buf) d) else (-1, d));
|}.

Lemma ramdisk_fits_inside lba n d : inside (512 * lba) (512 * n) d → ramdisk_fits lba n d = true.
Proof. intros (?&?&?). unfold ramdisk_fits, len. rewrite !andb_true_iff, !Z.leb_le. lia. Qed.

#[global] Program Instance ramdisk_laws : BlockLaws (list Z) := {| content d := d |}.
Next Obligation. intros d lba n Hi. unfold wp. cbn. by rewrite ramdisk_fits_inside. Qed.
Next Obligation. intros d lba n buf Hi Hb. unfold wp. cbn. rewrite ramdisk_fits_inside by done. unfold len in Hb. by rewrite take_ge by lia. Qed.
