(* ===== verification/Fat32.v ===== *)
(** * FAT32 ([fs/fat32.c])

    The driver of one mounted FAT32 volume over a block device: the cluster
    table and its copies, cluster allocation, files as chains of clusters,
    directories with long file names, mounting and formatting.  A directory
    entry is the 32 bytes of the disk.  The volume record is the one global
    of the driver, as in the code.  [kmalloc] is seen as a sequence of
    answers: no memory, or a block with some contents. *)
From S2P Require Import Prelude Block.

Module Fat32.

Definition FAT32_ATTR_DIRECTORY : Z := 0x10.
Definition FAT32_ATTR_ARCHIVE : Z := 0x20.
Definition FAT32_ATTR_LONG_NAME : Z := 0x0F.
Definition LFN_LAST_ENTRY_FLAG : Z := 0x40.
Definition FS_FILE : Z := 0x10000.
Definition FS_DIRECTORY : Z := 0x20000.
Definition FS_CACHEABLE : Z := 0x200000.
Definition sizeof_dir_entry : Z := 32.
Definition sizeof_vfs_node : Z := 200.
Definition EOC : Z := 0x0FFFFFFF.
Definition EOC_MIN : Z := 0x0FFFFFF8.

Record fat32_volume := mk_vol {
  v_partition_lba : Z;
  v_partition_sectors : Z;
  v_bytes_per_sector : Z;
  v_sectors_per_cluster : Z;
  v_reserved_sectors : Z;
  v_num_fats : Z;
  v_fat_size_sectors : Z;
  v_root_cluster : Z;
  v_first_fat_sector : Z;
  v_first_data_sector : Z;
  v_total_clusters : Z;
}.

(** A node of the driver; [fn_parent] is the [ptr] of the parent node. *)
Record fnode := mk_fnode {
  fn_name : list Z;
  fn_flags : Z;
  fn_length : Z;
  fn_inode : Z;
  fn_ptr : Z;
  fn_parent : option Z;
}.

Definition set_fptr v n := mk_fnode (fn_name n) (fn_flags n) (fn_length n) v v (fn_parent n).
Definition set_flength v n := mk_fnode (fn_name n) (fn_flags n) v (fn_inode n) (fn_ptr n) (fn_parent n).

Record fat := mk_fat {
  current_vol : fat32_volume;
  fat32_last_alloc : Z;
  heap_answers : list (option (list Z));
}.

(** ** Names *)

Definition DOT : Z := 46.
Definition SPACE : Z := 32.

(** [sum = ((sum & 1) ? 0x80 : 0) + (sum >> 1) + c] over the 11 bytes. *)
Definition checksum_step (sum c : Z) : Z := u8 ((if has sum 1 then 0x80 else 0) + Z.shiftr sum 1 + c).
Definition fat32_calc_lfn_checksum (short_name_11 : list Z) : Z := foldl checksum_step 0 short_name_11.

(** [strchr] and [strrchr]: the position of the first and the last [c]. *)
Fixpoint strchr (c : Z) (s : list Z) : option nat :=
  match s with [] => None | b :: s' => if b =? c then Some O else S <$> strchr c s' end.
Fixpoint strrchr (c : Z) (s : list Z) : option nat :=
  match s with
  | [] => None
  | b :: s' => match strrchr c s' with Some k => Some (S k) | None => if b =? c then Some O else None end
  end.

Definition lower (c : Z) : bool := (97 <=? c) && (c <=? 122).
Definition upcase (c : Z) : Z := if lower c then c - 32 else c.

Definition short_char (c : Z) : bool :=
  (c =? DOT) || negb (lower c) && negb (bool_decide (c ∈ [32; 43; 44; 59; 61; 91; 93])) && negb ((c <? 0x21) || (0x7E <? c)).

Definition fat32_is_pure_short_name (name : list Z) : bool :=
  let n := len name in
  if (n =? 0) || (12 <? n) then false else
  if bool_decide (name = [DOT]) || bool_decide (name = [DOT; DOT]) then true else
  match strchr DOT name with
  | Some dot =>
      let ext := drop (S dot) name in
      if bool_decide (is_Some (strchr DOT ext)) then false else
      if (Z.of_nat dot =? 0) || (8 <? Z.of_nat dot) || (3 <? len ext) then false else forallb short_char name
  | None => if 8 <? n then false else forallb short_char name
  end.

(** The first [n] bytes of [s], padded with spaces. *)
Definition pad (n : nat) (s : list Z) : list Z := take n s ++ replicate (n - length (take n s)) SPACE.

(** The base of an alias: up to six characters, dots and spaces left out. *)
Definition alias_base (name_part : list Z) : list Z :=
  take 6 (upcase <$> filter (λ c, c ≠ DOT ∧ c ≠ SPACE) name_part).

Definition fat32_gen_short_alias (long_name : list Z) : list Z * list Z :=
  if bool_decide (long_name = [DOT]) then (pad 8 [DOT], pad 3 []) else
  if bool_decide (long_name = [DOT; DOT]) then (pad 8 [DOT; DOT], pad 3 []) else
  let last_dot := match strrchr DOT long_name with Some O => None | d => d end in
  let name_part := match last_dot with Some d => take d long_name | None => long_name end in
  let ext := match last_dot with Some d => drop (S d) long_name | None => [] end in
  if fat32_is_pure_short_name long_name then (pad 8 name_part, pad 3 ext)
  else (pad 8 (alias_base name_part ++ [126; 49]), pad 3 (upcase <$> take 3 ext)).

(** ** Directory entries *)

Definition cstr (l : list Z) : list Z := match strchr 0 l with Some k => take k l | None => l end.

(** Up to the first space. *)
Definition until_space (l : list Z) : list Z := match strchr SPACE l with Some k => take k l | None => l end.

Definition fat32_format_short_name (e : list Z) : list Z :=
  let ext := slice 8 3 e in
  cstr (until_space (slice 0 8 e) ++ (if get8 8 e =? SPACE then [] else DOT :: until_space ext)).

(** [name1], [name2] and [name3] of a long name entry. *)
Definition lfn_units (o : Z) (n : nat) (e : list Z) : list Z := (λ j, get16 (o + 2 * Z.of_nat j) e) <$> seq 0 n.

(** One of the three copy loops; [bound] is [sizeof(lfn_acc) - 1] where the
    loop checks it. *)
Fixpoint lfn_copy (bound : option Z) (units : list Z) (acc : list Z) (char_idx : Z) : list Z * Z :=
  match units with
  | [] => (acc, char_idx)
  | u :: units' =>
      if match bound with Some b => b <=? char_idx | None => false end then (acc, char_idx) else
      if (u =? 0) || (u =? 0xFFFF) then (acc, char_idx) else
      lfn_copy bound units' (<[Z.to_nat char_idx := Z.land u 0xFF]> acc) (char_idx + 1)
  end.

Definition lfn_accumulate (max_seq : Z) (bound : option Z) (e acc : list Z) : list Z :=
  let seq := Z.land (get8 0 e) 0x1F in
  if (0 <? seq) && (seq <=? max_seq) then
    let '(acc, i) := lfn_copy bound (lfn_units 1 5 e) acc ((seq - 1) * 13) in
    let '(acc, i) := lfn_copy bound (lfn_units 14 6 e) acc i in
    fst (lfn_copy bound (lfn_units 28 2 e) acc i)
  else acc.

Definition LFN_ACC_SIZE : Z := 260.
Definition empty_acc : list Z := replicate 260 0.

(** The name of an entry; [None] when [strcpy] runs past an accumulator
    without a terminator. *)
Definition entry_name (acc e : list Z) : option (list Z) :=
  if get8 0 acc =? 0 then Some (fat32_format_short_name e) else
  match strchr 0 acc with Some k => Some (take k acc) | None => None end.

Definition first_cluster (e : list Z) : Z := Z.lor (Z.shiftl (get16 20 e) 16) (get16 26 e).
Definition entry_flags (e : list Z) : Z := if has (get8 11 e) FAT32_ATTR_DIRECTORY then FS_DIRECTORY else Z.lor FS_FILE FS_CACHEABLE.

(** [entries[i]] of a cluster. *)
Definition entry_at (i : Z) (buf : list Z) : list Z := slice (sizeof_dir_entry * i) sizeof_dir_entry buf.
Definition entries (n : Z) (buf : list Z) : list (list Z) := (λ i, entry_at (Z.of_nat i) buf) <$> seq 0 (Z.to_nat n).

(** The change of an entry after its file has been written. *)
Definition update_entry (first_cluster file_size : Z) (e : list Z) : list Z :=
  put16 18 0x5D31 (put16 22 0x6000 (put16 24 0x5D31 (put16 14 0x6000 (put16 16 0x5D31
    (put32 28 file_size (put16 26 (Z.land first_cluster 0xFFFF) (put16 20 (Z.land (Z.shiftr first_cluster 16) 0xFFFF) e))))))).

(** The scan of [fat32_update_dir_entry] over one cluster: an entry with the
    name, or the accumulator for the next cluster; [None] is an overrun. *)
Fixpoint update_scan (filename : list Z) (es : list (list Z)) (i : Z) (acc : list Z) : option (Z + list Z) :=
  match es with
  | [] => Some (inr acc)
  | e :: es' =>
      if get8 0 e =? 0 then Some (inr acc) else
      if get8 0 e =? 0xE5 then update_scan filename es' (i + 1) acc else
      if get8 11 e =? FAT32_ATTR_LONG_NAME then update_scan filename es' (i + 1) (lfn_accumulate 20 None e acc) else
      match entry_name acc e with
      | None => None
      | Some nm => if bool_decide (nm = filename) then Some (inl i) else update_scan filename es' (i + 1) empty_acc
      end
  end.

(** The scan of [fat32_finddir]: an entry and its name, the end of the
    directory, or the accumulator for the next cluster. *)
Inductive scan_result := Found (e nm : list Z) | EndOfDir | More (acc : list Z) (index : Z).

Fixpoint find_scan (name : list Z) (es : list (list Z)) (acc : list Z) : option scan_result :=
  match es with
  | [] => Some (More acc 0)
  | e :: es' =>
      if get8 0 e =? 0 then Some EndOfDir else
      if get8 0 e =? 0xE5 then find_scan name es' acc else
      if get8 11 e =? FAT32_ATTR_LONG_NAME then find_scan name es' (lfn_accumulate 20 None e acc) else
      match entry_name acc e with
      | None => None
      | Some nm => if bool_decide (nm = name) then Some (Found e nm) else find_scan name es' empty_acc
      end
  end.

(** [strncpy(entry_name, lfn_acc, 259)] and a terminator. *)
Definition entry_name_n (acc e : list Z) : list Z :=
  if get8 0 acc =? 0 then fat32_format_short_name e else take 259 (cstr acc).

Fixpoint read_scan (index : Z) (es : list (list Z)) (acc : list Z) (current : Z) : scan_result :=
  match es with
  | [] => More acc current
  | e :: es' =>
      if get8 0 e =? 0 then EndOfDir else
      if get8 0 e =? 0xE5 then read_scan index es' acc current else
      if get8 11 e =? FAT32_ATTR_LONG_NAME then read_scan index es' (lfn_accumulate 19 (Some (LFN_ACC_SIZE - 1)) e acc) current else
      let nm := entry_name_n acc e in
      if bool_decide (nm = [DOT]) || bool_decide (nm = [DOT; DOT]) then read_scan index es' empty_acc current else
      if current =? index then Found e nm else read_scan index es' empty_acc (u32 (current + 1))
  end.

Definition entry_node (e nm : list Z) (parent : Z) : fnode :=
  mk_fnode nm (entry_flags e) (get32 28 e) (first_cluster e) (first_cluster e) (Some parent).

(** ** Entries a new file gets *)

(** The [c]-th unit from [str_pos] on: the name, a terminator, then 0xFFFF. *)
Definition lfn_unit (name : list Z) (pos : Z) : Z :=
  if pos <? len name then get8 pos name else if pos =? len name then 0 else 0xFFFF.

Definition put_units (o pos : Z) (n : nat) (name e : list Z) : list Z :=
  patch o ((seq 0 n) ≫= λ c, le_bytes 2 (lfn_unit name (pos + Z.of_nat c))) e.

Definition lfn_entry (name : list Z) (checksum num_lfn seq : Z) : list Z :=
  let order := if seq =? num_lfn then Z.lor (u8 seq) LFN_LAST_ENTRY_FLAG else u8 seq in
  let pos := (seq - 1) * 13 in
  put_units 28 (pos + 11) 2 name (put_units 14 (pos + 5) 6 name (put_units 1 pos 5 name
    (put16 26 0 (put8 13 checksum (put8 12 0 (put8 11 FAT32_ATTR_LONG_NAME (put8 0 order (replicate 32 0xFF)))))))).

Definition short_entry (short_name short_ext : list Z) (is_dir : bool) (initial_cluster : Z) : list Z :=
  put16 18 0x5D31 (put16 22 0x6000 (put16 24 0x5D31 (put16 14 0x6000 (put16 16 0x5D31 (put32 28 0
    (put16 26 (Z.land initial_cluster 0xFFFF) (put16 20 (Z.land (Z.shiftr initial_cluster 16) 0xFFFF)
      (put8 11 (if is_dir then FAT32_ATTR_DIRECTORY else FAT32_ATTR_ARCHIVE) (patch 8 short_ext (patch 0 short_name (replicate 32 0))))))))))).

Definition dot_entry (name : list Z) (cluster : Z) : list Z :=
  put16 22 0x6000 (put16 24 0x5D31 (put16 14 0x6000 (put16 16 0x5D31 (put16 26 (Z.land cluster 0xFFFF)
    (put16 20 (Z.land (Z.shiftr cluster 16) 0xFFFF) (put8 11 FAT32_ATTR_DIRECTORY (patch 0 (pad 8 name ++ pad 3 []) (replicate 32 0)))))))).

Section Ops.
  Context {D : Type} `{BlockOps D}.

Definition state : Type := fat * D.

Definition vol {A} (f : fat32_volume → A) : M state A := gets (λ s : state, f (current_vol s.1)).

(** [kmalloc(size)]: the next answer. *)
Definition kmalloc (size : Z) : M state (option (list Z)) := λ s,
  match heap_answers s.1 with
  | [] => Ret (Some (replicate (Z.to_nat size) 0), s)
  | a :: rest => Ret ((λ g, take (Z.to_nat size) (g ++ replicate (Z.to_nat size) 0)) <$> a,
                      (mk_fat (current_vol s.1) (fat32_last_alloc s.1) rest, s.2))
  end.

Definition kzalloc (size : Z) : M state (option (list Z)) :=
  b ← kmalloc size; mret ((λ _, replicate (Z.to_nat size) 0) <$> b).

Definition bread (lba n : Z) : M state (Z * list Z) := lift_r (dev_read lba n).
Definition bwrite (lba n : Z) (buf : list Z) : M state Z := lift_r (dev_write lba n buf).

(** A 32-bit load at [buf + o]. *)
Definition load32 (buf : list Z) (o : Z) : M state Z :=
  deref (λ _ : state, if (0 <=? o) && (o + 4 <=? len buf) then Some (get32 o buf) else None).

(** A store into a buffer: past its end it faults. *)
Definition store_at (o : Z) (bs buf : list Z) : M state (list Z) :=
  if (0 <=? o) && (o + len bs <=? len buf) then mret (patch o bs buf) else fault.

(** ** Clusters *)

Definition fat32_cluster_to_lba (cluster : Z) : M state Z :=
  vol (λ v, u32 (u32 (v_partition_lba v + v_first_data_sector v) + u32 (u32 (cluster - 2) * v_sectors_per_cluster v))).

(** The sector of the first table that holds the entry, and the place in it. *)
Definition fat_position (cluster : Z) : M state (Z * Z) :=
  bps ← vol v_bytes_per_sector;
  if bps =? 0 then fault else
  first ← vol v_first_fat_sector;
  let fat_offset := u32 (cluster * 4) in
  mret (u32 (first + fat_offset / bps), fat_offset mod bps).

Definition out_of_table (cluster : Z) : M state bool :=
  total ← vol v_total_clusters; mret ((cluster <? 2) || (u32 (total + 2) <=? cluster)).

Definition fat32_get_next_cluster (cluster : Z) : M state Z :=
  bad ← out_of_table cluster;
  if (bad : bool) then mret EOC else
  pos ← fat_position cluster;
  plba ← vol v_partition_lba;
  r ← bread (u32 (plba + pos.1)) 1;
  e ← load32 r.2 pos.2;
  mret (Z.land e 0x0FFFFFFF).

(** The loop over the copies of the table. *)
Fixpoint set_copies (n : nat) (f fat_sector ent_offset next_cluster : Z) : M state unit :=
  match n with
  | O => mret tt
  | S n' =>
      plba ← vol v_partition_lba;
      size ← vol v_fat_size_sectors;
      let lba := u32 (u32 (plba + fat_sector) + u32 (f * size)) in
      r ← bread lba 1;
      e ← load32 r.2 ent_offset;
      buf ← store_at ent_offset (le_bytes 4 (Z.lor (Z.land e 0xF0000000) (Z.land next_cluster 0x0FFFFFFF))) r.2;
      bwrite lba 1 buf;;
      set_copies n' (f + 1) fat_sector ent_offset next_cluster
  end.

Definition fat32_set_next_cluster (cluster next_cluster : Z) : M state unit :=
  bad ← out_of_table cluster;
  if (bad : bool) then mret tt else
  pos ← fat_position cluster;
  n ← vol v_num_fats;
  set_copies (Z.to_nat n) 0 pos.1 pos.2 next_cluster.

(** The search loop of [fat32_alloc_cluster], [n] rounds from round [i] on. *)
Fixpoint alloc_search (n : nat) (i start total : Z) : M state Z :=
  match n with
  | O => mret 0
  | S n' =>
      let c0 := u32 (start + i) in
      let cluster := if total <=? c0 then u32 (2 + (c0 - total)) else c0 in
      pos ← fat_position cluster;
      plba ← vol v_partition_lba;
      r ← bread (u32 (plba + pos.1)) 1;
      e ← load32 r.2 pos.2;
      if Z.land e 0x0FFFFFFF =? 0 then
        fat32_set_next_cluster cluster EOC;;
        modify (λ s : state, (mk_fat (current_vol s.1) (u32 (cluster + 1)) (heap_answers s.1), s.2));;
        mret cluster
      else alloc_search n' (i + 1) start total
  end.

Definition fat32_alloc_cluster : M state Z :=
  tc ← vol v_total_clusters;
  la ← gets (λ s : state, fat32_last_alloc s.1);
  let total := u32 (tc + 2) in
  let start := if (2 <=? la) && (la <? total) then la else 2 in
  alloc_search (Z.to_nat total) 0 start total.

Definition cluster_size : M state Z := vol (λ v, u32 (v_sectors_per_cluster v * v_bytes_per_sector v)).

Definition in_chain (cluster : Z) : bool := (2 <=? cluster) && (cluster <? EOC_MIN).

(** A walk along a chain visits every cluster at most once, or never ends. *)
Definition chain_fuel : M state nat := vol (λ v, Z.to_nat (v_total_clusters v + 4)).

Definition next_of (cluster : Z) : M state Z :=
  n ← fat32_get_next_cluster cluster; mret (Z.land n 0x0FFFFFFF).

(** ** Files *)

Fixpoint update_loop (fuel : nat) (cluster : Z) (filename : list Z) (first_cl file_size : Z) (acc : list Z) : M state unit :=
  if negb (in_chain cluster) then mret tt else
  match fuel with
  | O => λ _, Wait
  | S fuel' =>
      lba ← fat32_cluster_to_lba cluster;
      spc ← vol v_sectors_per_cluster;
      cs ← cluster_size;
      r ← bread lba spc;
      match update_scan filename (entries (cs / sizeof_dir_entry) r.2) 0 acc with
      | None => fault
      | Some (inl i) =>
          bwrite lba spc (patch (sizeof_dir_entry * i) (update_entry first_cl file_size (entry_at i r.2)) r.2);; mret tt
      | Some (inr acc') =>
          next ← next_of cluster;
          update_loop fuel' next filename first_cl file_size acc'
      end
  end.

Definition fat32_update_dir_entry (parent_cluster : Z) (filename : list Z) (first_cl file_size : Z) : M state unit :=
  cs ← cluster_size;
  b ← kmalloc cs;
  match b with
  | None => mret tt
  | Some _ => fuel ← chain_fuel; update_loop fuel parent_cluster filename first_cl file_size empty_acc
  end.

(** [while (offset >= cluster_size && cluster < 0x0FFFFFF8)] *)
Fixpoint skip_clusters (fuel : nat) (cluster offset cs : Z) : M state (Z * Z) :=
  if (cs <=? offset) && (cluster <? EOC_MIN) then
    match fuel with
    | O => λ _, Wait
    | S fuel' => next ← next_of cluster; skip_clusters fuel' next (offset - cs) cs
    end
  else mret (cluster, offset).

(** The copy loop of [fat32_read]: the bytes stored in the buffer. *)
Fixpoint read_loop (fuel : nat) (cluster offset cs bytes_to_read bytes_read : Z) : M state (list Z) :=
  if (bytes_read <? bytes_to_read) && in_chain cluster then
    match fuel with
    | O => λ _, Wait
    | S fuel' =>
        lba ← fat32_cluster_to_lba cluster;
        spc ← vol v_sectors_per_cluster;
        r ← bread lba spc;
        let chunk_offset := if bytes_read =? 0 then offset else 0 in
        let whole := u64 (cs - chunk_offset) in
        let chunk_size := if bytes_to_read - bytes_read <? whole then bytes_to_read - bytes_read else whole in
        next ← next_of cluster;
        rest ← read_loop fuel' next offset cs bytes_to_read (bytes_read + chunk_size);
        mret (slice chunk_offset chunk_size r.2 ++ rest)
    end
  else mret [].

Definition fat32_read (node : fnode) (offset size : Z) : M state (Z * list Z) :=
  if fn_length node <=? offset then mret (0, []) else
  cs ← cluster_size;
  co ← skip_clusters (Z.to_nat (offset / cs + 1)) (u32 (fn_ptr node)) offset cs;
  let '(cluster, offset) := co in
  let bytes_to_read := if fn_length node <? u64 (offset + size) then u64 (fn_length node - offset) else size in
  b ← kmalloc cs;
  match b with
  | None => mret (-1, [])
  | Some _ =>
      data ← read_loop (Z.to_nat (bytes_to_read / cs + 2)) cluster offset cs bytes_to_read 0;
      mret (len data, data)
  end.

(** The next cluster of a chain that is being written, a new one at its end;
    [None] when the disk is full. *)
Definition next_or_new (cluster : Z) : M state (option Z) :=
  next ← next_of cluster;
  if EOC_MIN <=? next then
    new_c ← fat32_alloc_cluster;
    if new_c =? 0 then mret None else
    fat32_set_next_cluster cluster new_c;;
    fat32_set_next_cluster new_c EOC;;
    mret (Some new_c)
  else mret (Some next).

Fixpoint seek_loop (fuel : nat) (cluster curr_off offset cs : Z) : M state (option Z) :=
  if u64 (curr_off + cs) <=? offset then
    match fuel with
    | O => λ _, Wait
    | S fuel' =>
        n ← next_or_new cluster;
        match n with
        | None => mret None
        | Some next => seek_loop fuel' next (u64 (curr_off + cs)) offset cs
        end
    end
  else mret (Some cluster).

(** The copy loop of [fat32_write]; the number of bytes written. *)
Fixpoint write_loop (fuel : nat) (cluster offset cs : Z) (buffer cluster_buf : list Z) (bytes_written : Z) : M state Z :=
  if bytes_written <? len buffer then
    match fuel with
    | O => λ _, Wait
    | S fuel' =>
        lba ← fat32_cluster_to_lba cluster;
        spc ← vol v_sectors_per_cluster;
        (if cs =? 0 then fault else mret tt);;
        let chunk_off := u64 (offset + bytes_written) mod cs in
        let whole := cs - chunk_off in
        let chunk_size := if len buffer - bytes_written <? whole then len buffer - bytes_written else whole in
        buf ← (if negb (chunk_off =? 0) || negb (chunk_size =? cs) then r ← bread lba spc; mret r.2 else mret cluster_buf);
        buf' ← store_at chunk_off (slice bytes_written chunk_size buffer) buf;
        bwrite lba spc buf';;
        let written := bytes_written + chunk_size in
        if written <? len buffer then
          n ← next_or_new cluster;
          match n with
          | None => mret written
          | Some next => write_loop fuel' next offset cs buffer buf' written
          end
        else mret written
    end
  else mret bytes_written.

Definition fat32_write (node : fnode) (offset : Z) (buffer : list Z) : M state (Z * fnode) :=
  cs ← cluster_size;
  first ← (if u32 (fn_ptr node) =? 0 then
             c ← fat32_alloc_cluster;
             (if c =? 0 then mret () else fat32_set_next_cluster c EOC);;
             mret (c, if c =? 0 then node else set_fptr c node)
           else mret (u32 (fn_ptr node), node));
  let '(cluster, node) := first in
  if cluster =? 0 then mret (-1, node) else
  b ← kmalloc cs;
  match b with
  | None => mret (-1, node)
  | Some cluster_buf =>
      c ← seek_loop (Z.to_nat (offset / cs + 1)) cluster 0 offset cs;
      match c with
      | None => mret (-1, node)
      | Some current =>
          written ← write_loop (Z.to_nat (len buffer / cs + 2)) current offset cs buffer cluster_buf 0;
          let node := if fn_length node <? u64 (offset + written) then set_flength (u64 (offset + written)) node else node in
          (match fn_parent node with
           | Some parent_cluster => fat32_update_dir_entry (u32 parent_cluster) (fn_name node) cluster (u32 (fn_length node))
           | None => mret tt
           end);;
          mret (written, node)
      end
  end.

(** ** Directories *)

Fixpoint readdir_loop (fuel : nat) (cluster index : Z) (acc : list Z) (current : Z) : M state (option (list Z * list Z)) :=
  if negb (in_chain cluster) then mret None else
  match fuel with
  | O => λ _, Wait
  | S fuel' =>
      lba ← fat32_cluster_to_lba cluster;
      spc ← vol v_sectors_per_cluster;
      cs ← cluster_size;
      r ← bread lba spc;
      if negb (r.1 =? 0) then mret None else
      match read_scan index (entries (cs / sizeof_dir_entry) r.2) acc current with
      | Found e nm => mret (Some (e, nm))
      | EndOfDir => mret None
      | More acc' current' => next ← next_of cluster; readdir_loop fuel' next index acc' current'
      end
  end.

Definition fat32_readdir (node : fnode) (index : Z) : M state (option fnode) :=
  if negb (has (fn_flags node) FS_DIRECTORY) then mret None else
  if u32 (fn_ptr node) <? 2 then mret None else
  cs ← cluster_size;
  if cs =? 0 then mret None else
  b ← kmalloc cs;
  match b with
  | None => mret None
  | Some _ =>
      fuel ← chain_fuel;
      r ← readdir_loop fuel (u32 (fn_ptr node)) index empty_acc 0;
      match r with
      | None => mret None
      | Some (e, nm) =>
          v ← kzalloc sizeof_vfs_node;
          mret ((λ _, entry_node e (take 127 nm) (fn_ptr node)) <$> v)
      end
  end.

Fixpoint finddir_loop (fuel : nat) (cluster : Z) (name acc : list Z) : M state (option (list Z * list Z)) :=
  if negb (in_chain cluster) then mret None else
  match fuel with
  | O => λ _, Wait
  | S fuel' =>
      lba ← fat32_cluster_to_lba cluster;
      spc ← vol v_sectors_per_cluster;
      cs ← cluster_size;
      r ← bread lba spc;
      match find_scan name (entries (cs / sizeof_dir_entry) r.2) acc with
      | None => fault
      | Some (Found e nm) => mret (Some (e, nm))
      | Some EndOfDir => mret None
      | Some (More acc' _) => next ← next_of cluster; finddir_loop fuel' next name acc'
      end
  end.

(** The name is copied with [strcpy] into the 128 bytes of a new node. *)
Definition fat32_finddir (node : fnode) (name : list Z) : M state (option fnode) :=
  if negb (has (fn_flags node) FS_DIRECTORY) then mret None else
  cs ← cluster_size;
  b ← kmalloc cs;
  match b with
  | None => mret None
  | Some _ =>
      fuel ← chain_fuel;
      r ← finddir_loop fuel (u32 (fn_ptr node)) name empty_acc;
      match r with
      | None => mret None
      | Some (e, nm) =>
          v ← kzalloc sizeof_vfs_node;
          match v with
          | None => fault
          | Some _ => if 128 <=? len nm then fault else mret (Some (entry_node e nm (fn_ptr node)))
          end
      end
  end.

(** ** Creating files and directories *)

(** The inner loop of the slot search: the first of [n] entries from [i] on
    that is in use. *)
Fixpoint first_used (n : nat) (j i : Z) (buf : list Z) : M state (option Z) :=
  match n with
  | O => mret None
  | S n' =>
      b ← deref (λ _ : state, buf !! Z.to_nat (sizeof_dir_entry * u32 (i + j)));
      if negb (b =? 0) && negb (b =? 0xE5) then mret (Some j) else first_used n' (j + 1) i buf
  end.

(** [for (i = 0; i <= entries_per_cluster - slots_needed; i++)] *)
Fixpoint slot_search (fuel : nat) (i last slots_needed : Z) (buf : list Z) : M state (option Z) :=
  if i <=? last then
    match fuel with
    | O => λ _, Wait
    | S fuel' =>
        u ← first_used (Z.to_nat slots_needed) 0 i buf;
        match u with
        | None => mret (Some i)
        | Some j => slot_search fuel' (u32 (i + j + 1)) last slots_needed buf
        end
    end
  else mret None.

(** The loop over the clusters of the directory: the sector and the contents
    of the cluster with the slots, and the first of them; a new cluster at
    the end of the chain; [None] when the disk is full or the chain empty. *)
Fixpoint slots_loop (fuel : nat) (cluster slots_needed cs : Z) : M state (option (Z * list Z * Z)) :=
  if negb (in_chain cluster) then mret None else
  match fuel with
  | O => λ _, Wait
  | S fuel' =>
      lba ← fat32_cluster_to_lba cluster;
      spc ← vol v_sectors_per_cluster;
      r ← bread lba spc;
      let epc := cs / sizeof_dir_entry in
      slot ← slot_search (Z.to_nat (epc + 1)) 0 (u32 (epc - slots_needed)) slots_needed r.2;
      match slot with
      | Some i => mret (Some (lba, r.2, i))
      | None =>
          next ← next_of cluster;
          if EOC_MIN <=? next then
            c ← fat32_alloc_cluster;
            if c =? 0 then mret None else
            fat32_set_next_cluster cluster c;;
            fat32_set_next_cluster c EOC;;
            let zero := replicate (Z.to_nat cs) 0 in
            lba' ← fat32_cluster_to_lba c;
            bwrite lba' spc zero;;
            mret (Some (lba', zero, 0))
          else slots_loop fuel' next slots_needed cs
      end
  end.

(** The first cluster of a new directory, with its two entries. *)
Definition new_directory (parent_cluster cs : Z) : M state Z :=
  c ← fat32_alloc_cluster;
  if c =? 0 then mret 0 else
  fat32_set_next_cluster c EOC;;
  d ← kzalloc cs;
  (match d with
   | None => mret tt
   | Some dir_data =>
       root ← vol v_root_cluster;
       buf ← store_at 0 (dot_entry [DOT] c) dir_data;
       buf ← store_at sizeof_dir_entry (dot_entry [DOT; DOT] (if parent_cluster =? root then 0 else parent_cluster)) buf;
       lba ← fat32_cluster_to_lba c;
       spc ← vol v_sectors_per_cluster;
       bwrite lba spc buf;;
       mret tt
   end);;
  mret c.

(** The long name entries, from [seq] down to 1. *)
Fixpoint write_lfn (seq : nat) (name : list Z) (checksum num_lfn start : Z) (buf : list Z) : M state (list Z) :=
  match seq with
  | O => mret buf
  | S seq' =>
      buf ← store_at (sizeof_dir_entry * (start + (num_lfn - Z.of_nat seq))) (lfn_entry name checksum num_lfn (Z.of_nat seq)) buf;
      write_lfn seq' name checksum num_lfn start buf
  end.

Definition num_lfn (name : list Z) : Z := if fat32_is_pure_short_name name then 0 else (len name + 12) / 13.

Definition fat32_create (dir : fnode) (name : list Z) (flags : Z) : M state (option fnode) :=
  existing ← fat32_finddir dir name;
  match existing with
  | Some n => mret (Some n)
  | None =>
      let parent_cluster := u32 (fn_ptr dir) in
      cs ← cluster_size;
      b ← kmalloc cs;
      match b with
      | None => mret None
      | Some _ =>
          let n := num_lfn name in
          let '(short_name, short_ext) := fat32_gen_short_alias name in
          let checksum := fat32_calc_lfn_checksum (short_name ++ short_ext) in
          fuel ← chain_fuel;
          slots ← slots_loop fuel parent_cluster (n + 1) cs;
          match slots with
          | None => mret None
          | Some (target_lba, cluster_buf, start) =>
              let is_dir := has flags FS_DIRECTORY in
              initial ← (if is_dir then new_directory parent_cluster cs else mret 0);
              if is_dir && (initial =? 0) then mret None else
              buf ← write_lfn (Z.to_nat n) name checksum n start cluster_buf;
              buf ← store_at (sizeof_dir_entry * (start + n)) (short_entry short_name short_ext is_dir initial) buf;
              spc ← vol v_sectors_per_cluster;
              bwrite target_lba spc buf;;
              v ← kzalloc sizeof_vfs_node;
              match v with
              | None => fault
              | Some _ => mret (Some (mk_fnode (take 127 name) (if is_dir then FS_DIRECTORY else FS_FILE) 0 initial initial (Some (fn_ptr dir))))
              end
          end
      end
  end.

(** ** Mounting and formatting *)

(** The checks of [fat32_mount_partition] on the boot sector. *)
Definition bpb_rejected (b : list Z) : bool :=
  let bps := get16 11 b in
  let spc := get8 13 b in
  negb ((bps =? 512) || (bps =? 1024) || (bps =? 2048) || (bps =? 4096)) ||
  (spc =? 0) || negb (Z.land spc (spc - 1) =? 0) || (get16 14 b =? 0) || (get8 16 b =? 0).

Definition bpb_volume (b : list Z) (partition_lba partition_sectors : Z) : fat32_volume :=
  let bps := get16 11 b in
  let spc := get8 13 b in
  let reserved := get16 14 b in
  let num_fats := get8 16 b in
  let ts := if negb (get16 19 b =? 0) then get16 19 b else get32 32 b in
  let total_sectors := if ts =? 0 then partition_sectors else ts in
  let fat_size := if negb (get16 22 b =? 0) then get16 22 b else get32 36 b in
  let root_dir_sectors := (get16 17 b * 32 + (bps - 1)) / bps in
  let data_sectors := u32 (total_sectors - u32 (u32 (reserved + u32 (num_fats * fat_size)) + root_dir_sectors)) in
  mk_vol partition_lba partition_sectors bps spc reserved num_fats fat_size (get32 44 b) reserved
    (u32 (reserved + u32 (num_fats * fat_size))) (data_sectors / spc).

Definition fat32_mount_partition (partition_lba partition_sectors : Z) : M state (option fnode) :=
  r ← bread partition_lba 1;
  if negb (r.1 =? 0) then mret None else
  if bpb_rejected r.2 then mret None else
  let v := bpb_volume r.2 partition_lba partition_sectors in
  if (v_fat_size_sectors v =? 0) || (v_root_cluster v <? 2) then mret None else
  modify (λ s : state, (mk_fat v 2 (heap_answers s.1), s.2));;
  n ← kzalloc sizeof_vfs_node;
  match n with
  | None => fault
  | Some _ => mret (Some (mk_fnode [47] FS_DIRECTORY 0 0 (v_root_cluster v) None))
  end.

(** The volume boot record. *)
Definition boot_sector (start_lba sector_count fat_size : Z) (label : option (list Z)) : list Z :=
  let text := match label with Some l => take 11 l | None => [69; 70; 73; 32; 83; 89; 83; 84; 69; 77; 32] end in
  put8 511 0xAA (put8 510 0x55 (patch 82 [70; 65; 84; 51; 50; 32; 32; 32] (patch 71 text (patch 71 (replicate 11 SPACE)
  (put32 67 0x12345678 (put8 66 0x29 (put8 65 0 (put8 64 0x80 (put16 50 6 (put16 48 1 (put32 44 2 (put16 42 0 (put16 40 0
  (put32 36 fat_size (put32 32 sector_count (put32 28 start_lba (put16 26 64 (put16 24 32 (put16 22 0 (put8 21 0xF8 (put16 19 0
  (put16 17 0 (put8 16 2 (put16 14 32 (put8 13 1 (put16 11 512 (patch 3 [77; 83; 87; 73; 78; 52; 46; 49]
  (patch 0 [0xEB; 0x58; 0x90] (replicate 512 0))))))))))))))))))))))))))))).

Definition fsinfo_sector (total_clusters : Z) : list Z :=
  put32 508 0xAA550000 (put32 492 3 (put32 488 (u32 (total_clusters - 1)) (put32 484 0x61417272 (put32 0 0x41615252 (replicate 512 0))))).

Definition fat_sector_0 : list Z := patch 0 [0xF8; 0xFF; 0xFF; 0x0F; 0xFF; 0xFF; 0xFF; 0x0F; 0xFF; 0xFF; 0xFF; 0x0F] (replicate 512 0).
Definition zero_sector : list Z := replicate 512 0.

(** [((total_data_sectors * 4) + 512 - 1) / (512 + 2 * 4)] *)
Definition mkfs_fat_size (sector_count : Z) : Z := u32 (u32 (u32 (u32 (sector_count - 32) * 4) + 512) - 1) / 520.
Definition mkfs_clusters (sector_count : Z) : Z := u32 (sector_count - u32 (32 + u32 (2 * mkfs_fat_size sector_count))).

Definition clear_fat (start_lba fat_size f : Z) : M state unit :=
  let fat_start := u32 (u32 (start_lba + 32) + u32 (f * fat_size)) in
  bwrite fat_start 1 fat_sector_0;;
  for_loop 1 (Z.to_nat (fat_size - 1)) (λ s, bwrite (u32 (fat_start + s)) 1 zero_sector;; mret tt).

Definition mkfs_fat32 (start_lba sector_count : Z) (label : option (list Z)) : M state Z :=
  if sector_count <? 65536 then mret (-1) else
  let fat_size := mkfs_fat_size sector_count in
  let total_clusters := mkfs_clusters sector_count in
  if total_clusters <? 65525 then mret (-1) else
  b ← kzalloc 512;
  match b with
  | None => mret (-1)
  | Some _ =>
      let vbr := boot_sector start_lba sector_count fat_size label in
      bwrite start_lba 1 vbr;;
      bwrite (u32 (start_lba + 6)) 1 vbr;;
      bwrite (u32 (start_lba + 1)) 1 (fsinfo_sector total_clusters);;
      bwrite (u32 (start_lba + 7)) 1 (fsinfo_sector total_clusters);;
      clear_fat start_lba fat_size 0;;
      clear_fat start_lba fat_size 1;;
      bwrite (u32 (u32 (start_lba + 32) + u32 (2 * fat_size))) 1 zero_sector;;
      mret 0
  end.

End Ops.
End Fat32.
