(* ===== verification/Fat32Spec.v ===== *)
(** * The cluster table of a FAT32 volume

    What the table on the disk says ([tab]), and that reading an entry,
    setting one in all copies and allocating a cluster act on it as intended;
    also the one state in which the allocator hands out a cluster that does
    not exist. *)
From S2P Require Import Prelude Block Fat32.

Module Fat32Spec.
Import Fat32.

Implicit Types (v : fat32_volume) (l : list Z) (c : Z) (f : fat).

(** ** Layout *)

Abbreviation spc v := (v_sectors_per_cluster v).
Abbreviation clusters v := (v_total_clusters v).

(** The table [copy] and the data area, in bytes from the start of the disk. *)
Definition table_at v (copy : Z) : Z := 512 * (v_partition_lba v + v_first_fat_sector v + copy * v_fat_size_sectors v).
Definition data_at v c : Z := 512 * (v_partition_lba v + v_first_data_sector v + (c - 2) * spc v).
Definition csize v : Z := 512 * spc v.

(** The geometry is that of a volume on a disk of [size] bytes. *)
Record vol_ok v (size : Z) : Prop := {
  vo_bps : v_bytes_per_sector v = 512;
  vo_spc : 0 < spc v ≤ 128;
  vo_fats : 1 ≤ v_num_fats v ≤ 255;
  vo_lba : 0 ≤ v_partition_lba v;
  vo_first : 0 ≤ v_first_fat_sector v;
  vo_tables : v_first_fat_sector v + v_num_fats v * v_fat_size_sectors v ≤ v_first_data_sector v;
  vo_total : 0 < clusters v;
  vo_max : clusters v + 2 ≤ EOC_MIN;
  vo_room : clusters v + 2 ≤ 128 * v_fat_size_sectors v;
  vo_u32 : v_partition_lba v + v_first_data_sector v + clusters v * spc v < 2 ^ 32;
  vo_disk : 512 * (v_partition_lba v + v_first_data_sector v + clusters v * spc v) ≤ size;
}.

Definition valid v c : Prop := 2 ≤ c < clusters v + 2.

#[global] Instance valid_dec v c : Decision (valid v c).
Proof. unfold valid. apply _. Defined.

(** The entry of a cluster in the first table, and its bytes. *)
Definition tab v l c : Z := Z.land (get32 (table_at v 0 + 4 * c) l) 0x0FFFFFFF.
Definition cl v l c : list Z := slice (data_at v c) (csize v) l.

(** Only bytes of the tables differ. *)
Definition tables_only v l l' : Prop := length l' = length l ∧
  ∀ off n, 0 ≤ off → off + n ≤ table_at v 0 ∨ table_at v (v_num_fats v) ≤ off → slice off n l' = slice off n l.

Lemma tables_only_refl v l : tables_only v l l.
Proof. done. Qed.

Lemma tables_only_trans v l1 l2 l3 : tables_only v l1 l2 → tables_only v l2 l3 → tables_only v l1 l3.
Proof. intros [H1 H2] [H3 H4]. split; [congruence|]. intros. rewrite H4, H2; done. Qed.

Lemma data_behind v size c : vol_ok v size → valid v c → table_at v (v_num_fats v) ≤ data_at v c ∧ data_at v c + csize v ≤ size ∧ 0 ≤ data_at v c.
Proof.
  intros [] [? ?]. unfold table_at, data_at, csize. assert (0 ≤ (c - 2) * spc v) by nia.
  assert ((c - 2) * spc v + spc v ≤ clusters v * spc v) by nia. assert (0 ≤ v_num_fats v * v_fat_size_sectors v) by nia. lia.
Qed.

Lemma tables_only_cl v l l' c : vol_ok v (len l) → valid v c → tables_only v l l' → cl v l' c = cl v l c.
Proof. intros Hv Hc [_ Ho]. destruct (data_behind _ _ _ Hv Hc) as (?&?&?). apply Ho; [lia|right; lia]. Qed.

(** An entry of a table lies in it. *)
Lemma entry_in_table v size copy c : vol_ok v size → 0 ≤ copy < v_num_fats v → 0 ≤ c < 128 * v_fat_size_sectors v →
  table_at v 0 ≤ table_at v copy + 4 * c ∧ table_at v copy + 4 * c + 4 ≤ table_at v (copy + 1) ∧ table_at v (copy + 1) ≤ table_at v (v_num_fats v) ∧
  table_at v (v_num_fats v) ≤ size ∧ 0 ≤ table_at v 0.
Proof.
  intros [] Hk Hc. unfold table_at. assert (0 ≤ copy * v_fat_size_sectors v) by nia.
  assert ((copy + 1) * v_fat_size_sectors v ≤ v_num_fats v * v_fat_size_sectors v) by nia. assert (0 ≤ clusters v * spc v) by nia. lia.
Qed.

(** [l'] is [l] with the entry of [c] set to [n]. *)
Definition tab_set v c n l l' : Prop := tables_only v l l' ∧ tab v l' c = n ∧
  ∀ c', 0 ≤ c' < 128 * v_fat_size_sectors v → c' ≠ c → tab v l' c' = tab v l c'.

Lemma valid_entry v size c : vol_ok v size → valid v c → 0 ≤ c < 128 * v_fat_size_sectors v.
Proof. intros [] []. lia. Qed.

Lemma land_28 x : 0 ≤ x < 2 ^ 28 → Z.land x 0x0FFFFFFF = x.
Proof. intros Hx. change 0x0FFFFFFF with (Z.ones 28). rewrite Z.land_ones by lia. by apply Z.mod_small. Qed.

Lemma land_28_range x : 0 ≤ Z.land x 0x0FFFFFFF < 2 ^ 28.
Proof. change 0x0FFFFFFF with (Z.ones 28). rewrite Z.land_ones by lia. apply Z.mod_pos_bound. lia. Qed.

Lemma tab_range v l c : 0 ≤ tab v l c < 2 ^ 28.
Proof. apply land_28_range. Qed.

(** The bits of an entry above the 28 are kept, the others are the new ones. *)
Lemma mixed_28 e n : Z.land (Z.lor (Z.land e 0xF0000000) (Z.land n 0x0FFFFFFF) mod 2 ^ 32) 0x0FFFFFFF = Z.land n 0x0FFFFFFF.
Proof.
  change 0x0FFFFFFF with (Z.ones 28). rewrite <-(Z.land_ones (Z.lor _ _) 32) by lia. change 0xF0000000 with (Z.shiftl 15 28).
  apply Z.bits_inj'. intros i Hi. rewrite !Z.land_spec, Z.lor_spec, !Z.land_spec, !Z.testbit_ones by lia.
  destruct (Z.ltb_spec i 28).
  - rewrite Z.shiftl_spec_low by lia. rewrite !(proj2 (Z.ltb_lt i _)) by lia. rewrite !(proj2 (Z.leb_le 0 i)) by lia. cbn. by rewrite andb_false_r, !andb_true_r.
  - by rewrite !andb_false_r.
Qed.

Section Table.
  Context {D : Type} `{BlockLaws D}.
  Implicit Types (d : D) (s : state (D := D)).

Lemma wp_bread f d lba n (Q : Z * list Z → state → Prop) : inside (512 * lba) (512 * n) (content d) →
  (∀ d', content d' = content d → Q (0, slice (512 * lba) (512 * n) (content d)) (f, d')) → wp (bread lba n) (f, d) Q.
Proof. intros Hi HQ. apply wp_lift_r. eapply wp_mono; [by apply dev_read_law|]. intros [rc buf] d' (-> & -> & E). by apply HQ. Qed.

Lemma wp_bwrite f d lba n buf (Q : Z → state → Prop) : inside (512 * lba) (512 * n) (content d) → len buf = 512 * n →
  (∀ d', content d' = patch (512 * lba) buf (content d) → Q 0 (f, d')) → wp (bwrite lba n buf) (f, d) Q.
Proof. intros Hi Hb HQ. apply wp_lift_r. eapply wp_mono; [by apply dev_write_law|]. intros rc d' (-> & E). by apply HQ. Qed.

Lemma wp_vol {A} (g : fat32_volume → A) f d (Q : A → state → Prop) : Q (g (current_vol f)) (f, d) → wp (vol g) (f, d) Q.
Proof. intros HQ. by apply (wp_gets (λ s : state, g (current_vol s.1)) (f, d)). Qed.

Lemma wp_load32 buf o s (Q : Z → state → Prop) : 0 ≤ o → o + 4 ≤ len buf → Q (get32 o buf) s → wp (load32 buf o) s Q.
Proof. intros Ho Hl HQ. eapply wp_deref; [|done]. rewrite (proj2 (Z.leb_le 0 o)), (proj2 (Z.leb_le (o + 4) _)) by done. done. Qed.

Lemma wp_store_at o bs buf s (Q : list Z → state → Prop) : inside o (len bs) buf → Q (patch o bs buf) s → wp (store_at o bs buf) s Q.
Proof.
  intros (Ho & _ & Hl) HQ. unfold store_at, len in *. rewrite (proj2 (Z.leb_le 0 o)), (proj2 (Z.leb_le (o + _) _)) by done. by apply wp_ret.
Qed.

(** Where the entry of a cluster is. *)
Lemma wp_fat_position f d c (Q : Z * Z → state → Prop) : vol_ok (current_vol f) (len (content d)) → 0 ≤ c < 128 * v_fat_size_sectors (current_vol f) → c < 2 ^ 28 →
  Q (v_first_fat_sector (current_vol f) + 4 * c / 512, (4 * c) mod 512) (f, d) → wp (fat_position c) (f, d) Q.
Proof.
  intros Hv Hc Hc' HQ. unfold fat_position. apply wp_bind, wp_vol. rewrite (vo_bps _ _ Hv). change (512 =? 0) with false. cbv iota.
  apply wp_bind, wp_vol. apply wp_ret. rewrite (Z.mul_comm c 4).
  assert (u32 (4 * c) = 4 * c) as -> by (apply wrap_small; lia). rewrite wrap_small; [done|].
  pose proof (Z.div_le_upper_bound (4 * c) 512 (v_fat_size_sectors (current_vol f))). destruct Hv. assert (0 ≤ 4 * c / 512) by (apply Z.div_pos; lia).
  assert (v_fat_size_sectors (current_vol f) ≤ v_num_fats (current_vol f) * v_fat_size_sectors (current_vol f)) by nia.
  assert (0 ≤ clusters (current_vol f) * spc (current_vol f)) by nia. lia.
Qed.

(** The sector of an entry, in any copy, and the entry in it. *)
Lemma entry_sector v l copy c : vol_ok v (len l) → 0 ≤ copy < v_num_fats v → 0 ≤ c < 128 * v_fat_size_sectors v →
  let lba := v_partition_lba v + (v_first_fat_sector v + 4 * c / 512) + copy * v_fat_size_sectors v in
  u32 (u32 (v_partition_lba v + (v_first_fat_sector v + 4 * c / 512)) + u32 (copy * v_fat_size_sectors v)) = lba ∧
  inside (512 * lba) 512 l ∧ 0 ≤ (4 * c) mod 512 ∧ (4 * c) mod 512 + 4 ≤ 512 ∧ 512 * lba + (4 * c) mod 512 = table_at v copy + 4 * c.
Proof.
  intros Hv Hk Hc lba. destruct (entry_in_table v _ copy c Hv Hk Hc) as (H1 & H2 & H3 & H4 & H5).
  pose proof (Z.div_mod (4 * c) 512 ltac:(lia)) as Hdm. pose proof (Z.mod_pos_bound (4 * c) 512 ltac:(lia)) as Hm.
  assert ((4 * c) mod 512 + 4 ≤ 512) as Hm4.
  { assert (((4 * c) mod 512) mod 4 = 0) as Hd. { rewrite Z.mod_mod_divide by by exists 128. rewrite Z.mul_comm. apply Z.mod_mul. lia. }
    clear -Hd Hm. Z.div_mod_to_equations. lia. }
  assert (512 * lba + (4 * c) mod 512 = table_at v copy + 4 * c) as Ha by (unfold lba, table_at; lia).
  unfold table_at in *. destruct Hv. assert (0 ≤ copy * v_fat_size_sectors v) by nia. assert (0 ≤ 4 * c / 512) by (apply Z.div_pos; lia).
  assert (4 * c / 512 < v_fat_size_sectors v) by (apply Z.div_lt_upper_bound; lia).
  assert ((copy + 1) * v_fat_size_sectors v ≤ v_num_fats v * v_fat_size_sectors v) by nia. assert (0 ≤ clusters v * spc v) by nia.
  assert (0 ≤ lba < 2 ^ 32 ∧ lba + 1 ≤ v_partition_lba v + v_first_data_sector v) as [Hlba Hlt] by (unfold lba; lia). split_and!; try done; try lia.
  - rewrite (wrap_small 32 (v_partition_lba v + _)) by lia. rewrite (wrap_small 32 (copy * _)) by lia. apply wrap_small. unfold lba in Hlba. lia.
  - unfold inside, len in *. lia.
Qed.

(** ** Reading an entry *)

Lemma get32_sector v l copy c : vol_ok v (len l) → 0 ≤ copy < v_num_fats v → 0 ≤ c < 128 * v_fat_size_sectors v →
  get32 ((4 * c) mod 512) (slice (512 * (v_partition_lba v + (v_first_fat_sector v + 4 * c / 512) + copy * v_fat_size_sectors v)) 512 l) =
  get32 (table_at v copy + 4 * c) l.
Proof.
  intros Hv Hk Hc. destruct (entry_sector v l copy c Hv Hk Hc) as (_ & (? & _ & _) & ? & ? & <-). unfold get32. rewrite slice_slice by lia. done.
Qed.

Lemma wp_read_entry f d c (Q : Z → state → Prop) : vol_ok (current_vol f) (len (content d)) → 0 ≤ c < 128 * v_fat_size_sectors (current_vol f) → c < 2 ^ 28 →
  (∀ d', content d' = content d → Q (tab (current_vol f) (content d) c) (f, d')) →
  wp (pos ← fat_position c; plba ← vol v_partition_lba; r ← bread (u32 (plba + pos.1)) 1; e ← load32 r.2 pos.2; mret (Z.land e 0x0FFFFFFF)) (f, d) Q.
Proof.
  intros Hv Hc Hc' HQ. apply wp_bind, wp_fat_position; [done|done|done|]. apply wp_bind, wp_vol. cbn [fst snd].
  assert (0 ≤ 0 < v_num_fats (current_vol f)) as Hk by (destruct Hv; lia). destruct (entry_sector _ _ 0 c Hv Hk Hc) as (E1 & E2 & E3 & E4 & E5).
  rewrite Z.mul_0_l, Z.add_0_r in E2, E5. rewrite Z.mul_0_l, !Z.add_0_r in E1. change (u32 0) with 0 in E1. rewrite ?Z.add_0_r in E1. rewrite wrap_wrap in E1 by lia. rewrite E1.
  apply wp_bind, wp_bread; [done|]. intros d' Ed. apply wp_bind. cbn [fst snd]. apply wp_load32; [done|unfold len; rewrite slice_size by done; lia|].
  apply wp_ret. pose proof (get32_sector _ _ 0 c Hv Hk Hc) as Eg. rewrite Z.mul_0_l, Z.add_0_r in Eg. rewrite Z.mul_1_r, Eg. by apply HQ.
Qed.

Lemma wp_out_of_table f d c (Q : bool → state → Prop) : vol_ok (current_vol f) (len (content d)) →
  Q (bool_decide (¬ valid (current_vol f) c)) (f, d) → wp (out_of_table c) (f, d) Q.
Proof.
  intros Hv HQ. unfold out_of_table. apply wp_bind, wp_vol, wp_ret. rewrite wrap_small by (destruct Hv; unfold EOC_MIN in *; lia).
  replace (_ || _) with (bool_decide (¬ valid (current_vol f) c)); [done|].
  destruct (decide (valid (current_vol f) c)) as [Hd|Hd]; [rewrite bool_decide_false by tauto|rewrite bool_decide_true by done];
    unfold valid in Hd; destruct (Z.ltb_spec c 2), (Z.leb_spec (clusters (current_vol f) + 2) c); done || lia.
Qed.

Lemma get_next_spec f d c (Q : Z → state → Prop) : vol_ok (current_vol f) (len (content d)) → valid (current_vol f) c →
  (∀ d', content d' = content d → Q (tab (current_vol f) (content d) c) (f, d')) → wp (fat32_get_next_cluster c) (f, d) Q.
Proof.
  intros Hv Hc HQ. apply wp_bind, wp_out_of_table; [done|]. rewrite bool_decide_false by tauto.
  apply wp_read_entry; [done|by eapply valid_entry|destruct Hv, Hc; unfold EOC_MIN in *; lia|done].
Qed.

Lemma next_of_spec f d c (Q : Z → state → Prop) : vol_ok (current_vol f) (len (content d)) → valid (current_vol f) c →
  (∀ d', content d' = content d → Q (tab (current_vol f) (content d) c) (f, d')) → wp (next_of c) (f, d) Q.
Proof.
  intros Hv Hc HQ. apply wp_bind. apply get_next_spec; [done|done|]. intros d' Ed. apply wp_ret. rewrite land_28 by apply tab_range. by apply HQ.
Qed.

(** ** Setting an entry *)

(** Writing an entry of one copy. *)
Lemma entry_patched v l copy c n : vol_ok v (len l) → 0 ≤ copy < v_num_fats v → 0 ≤ c < 128 * v_fat_size_sectors v →
  let l' := patch (table_at v copy + 4 * c) (le_bytes 4 n) l in
  tables_only v l l' ∧ (∀ c', 0 ≤ c' < 128 * v_fat_size_sectors v → c' ≠ c ∨ copy ≠ 0 → tab v l' c' = tab v l c') ∧
  (copy = 0 → tab v l' c = Z.land (n mod 2 ^ 32) 0x0FFFFFFF).
Proof.
  intros Hv Hk Hc l'. destruct (entry_in_table v _ copy c Hv Hk Hc) as (H1 & H2 & H3 & H4 & H5).
  assert (len (le_bytes 4 n) = 4) as Hn by done. assert (inside (table_at v copy + 4 * c) (len (le_bytes 4 n)) l) as Hi by (unfold inside, len in *; simpl; lia).
  split_and!.
  - split; [by apply patch_length|]. intros off m Ho Hd. apply slice_patch_out; [done|done|]. rewrite Hn. lia.
  - intros c' Hc' Hne. unfold tab, get32. f_equal. f_equal. apply slice_patch_out; [done|lia|]. rewrite Hn.
    destruct (decide (copy = 0)) as [->|Hk0]; [assert (c' ≠ c) by naive_solver; unfold table_at; lia|]. left.
    unfold table_at in *. assert (v_fat_size_sectors v ≤ copy * v_fat_size_sectors v) by nia. lia.
  - intros ->. unfold tab, get32, l'. pose proof (get_put 4 (table_at v 0 + 4 * c) n l Hi) as E. change (Z.of_nat 4) with 4 in E. by rewrite E.
Qed.

Lemma sector_patched v l copy c n : vol_ok v (len l) → 0 ≤ copy < v_num_fats v → 0 ≤ c < 128 * v_fat_size_sectors v →
  let lba := v_partition_lba v + (v_first_fat_sector v + 4 * c / 512) + copy * v_fat_size_sectors v in
  patch (512 * lba) (patch ((4 * c) mod 512) (le_bytes 4 n) (slice (512 * lba) 512 l)) l = patch (table_at v copy + 4 * c) (le_bytes 4 n) l.
Proof.
  intros Hv Hk Hc lba. destruct (entry_sector v l copy c Hv Hk Hc) as (_ & Hin & H1 & H2 & H3). fold lba in Hin, H3. rewrite <-H3. by apply patch_in_slice.
Qed.

Lemma set_copies_spec c n k : ∀ copy f d (Q : unit → state → Prop), vol_ok (current_vol f) (len (content d)) → 0 ≤ c < 128 * v_fat_size_sectors (current_vol f) →
  0 ≤ copy → copy + Z.of_nat k = v_num_fats (current_vol f) →
  (∀ d', tables_only (current_vol f) (content d) (content d') →
     (∀ c', 0 ≤ c' < 128 * v_fat_size_sectors (current_vol f) → c' ≠ c ∨ copy ≠ 0 → tab (current_vol f) (content d') c' = tab (current_vol f) (content d) c') →
     (copy = 0 → (0 < k)%nat → tab (current_vol f) (content d') c = Z.land n 0x0FFFFFFF) → Q tt (f, d')) →
  wp (set_copies k copy (v_first_fat_sector (current_vol f) + 4 * c / 512) ((4 * c) mod 512) n) (f, d) Q.
Proof.
  induction k as [|k IH]; intros copy f d Q Hv Hc Hk Hn HQ; cbn [set_copies].
  { apply wp_ret, HQ; [done|done|lia]. }
  set (v := current_vol f) in *. assert (0 ≤ copy < v_num_fats v) as Hkk by lia. destruct (entry_sector v _ copy c Hv Hkk Hc) as (E1 & E2 & E3 & E4 & E5).
  apply wp_bind, wp_vol. apply wp_bind, wp_vol. cbv zeta. fold v. rewrite E1. set (lba := v_partition_lba v + _ + _) in *.
  apply wp_bind, wp_bread; [done|]. intros d1 Ed1. apply wp_bind. cbn [fst snd]. rewrite Z.mul_1_r.
  assert (len (slice (512 * lba) 512 (content d)) = 512) as Hsl by (unfold len; rewrite slice_size by done; done).
  apply wp_load32; [done|lia|]. set (e := get32 _ _). set (m := Z.lor _ _).
  assert (inside ((4 * c) mod 512) (len (le_bytes 4 m)) (slice (512 * lba) 512 (content d))) as Hins.
  { split_and!; [done|by unfold len; simpl|]. change (len (le_bytes 4 m)) with 4. unfold len in Hsl. lia. }
  apply wp_bind, wp_store_at; [done|]. apply wp_bind. assert (inside (512 * lba) (512 * 1) (content d1)) as Hin1 by (rewrite Ed1; done).
  apply wp_bwrite; [done|unfold len; rewrite patch_length by done; unfold len in Hsl; lia|]. intros d2 Ed2. rewrite Ed1 in Ed2.
  pose proof (sector_patched v (content d) copy c m Hv Hkk Hc) as Hsp. cbv zeta in Hsp. fold lba in Hsp. rewrite Hsp in Ed2. clear Hsp.
  destruct (entry_patched v (content d) copy c m Hv Hkk Hc) as (T1 & T2 & T3). cbv zeta in T1, T2, T3. rewrite <-Ed2 in T1, T2, T3.
  assert (len (content d2) = len (content d)) as Hlen by (unfold len; destruct T1 as [-> _]; done).
  apply (IH (copy + 1) f d2); [by rewrite Hlen|done|lia|fold v; lia|]. intros d3 U1 U2 U3. fold v in U1, U2.
  apply HQ; [by eapply tables_only_trans|intros c' Hc' Hne; rewrite U2 by (done || (right; lia)); by apply T2|].
  intros -> _. rewrite U2 by (done || (right; lia)). rewrite T3 by done. apply mixed_28.
Qed.

Lemma set_next_spec f d c n (Q : unit → state → Prop) : vol_ok (current_vol f) (len (content d)) → valid (current_vol f) c → 0 ≤ n < 2 ^ 28 →
  (∀ d', tab_set (current_vol f) c n (content d) (content d') → Q tt (f, d')) → wp (fat32_set_next_cluster c n) (f, d) Q.
Proof.
  intros Hv Hc Hn HQ. pose proof (valid_entry _ _ _ Hv Hc) as Hce. apply wp_bind, wp_out_of_table; [done|]. rewrite bool_decide_false by tauto.
  apply wp_bind, wp_fat_position; [done|done|destruct Hv, Hc; unfold EOC_MIN in *; lia|]. apply wp_bind, wp_vol. cbn [fst snd].
  apply set_copies_spec; [done|done|lia|destruct Hv; lia|]. intros d' T1 T2 T3. apply HQ. split_and!; [done| |].
  - rewrite T3; [by apply land_28|done|destruct Hv; lia].
  - intros c' Hc' Hne. apply T2; [done|by left].
Qed.

Lemma set_next_ignored f d c n (Q : unit → state → Prop) : vol_ok (current_vol f) (len (content d)) → ¬ valid (current_vol f) c →
  Q tt (f, d) → wp (fat32_set_next_cluster c n) (f, d) Q.
Proof. intros Hv Hc HQ. apply wp_bind, wp_out_of_table; [done|]. rewrite bool_decide_true by done. by apply wp_ret. Qed.

(** ** Allocation *)

(** The cluster looked at in round [i]. *)
Definition round (start total i : Z) : Z := if total <=? start + i then 2 + (start + i - total) else start + i.

Definition take_cluster (c : Z) : M state Z :=
  fat32_set_next_cluster c EOC;; modify (λ s : state, (mk_fat (current_vol s.1) (u32 (c + 1)) (heap_answers s.1), s.2));; mret c.

(** One round: an entry is read, and the cluster taken when it is free. *)
Lemma alloc_round f d n i start (Q : Z → state → Prop) : let v := current_vol f in let total := clusters v + 2 in let c := round start total i in
  vol_ok v (len (content d)) → 2 ≤ start < total → 0 ≤ i < total → c < 128 * v_fat_size_sectors v →
  (∀ d', content d' = content d → wp (if tab v (content d) c =? 0 then take_cluster c else alloc_search n (i + 1) start total) (f, d') Q) →
  wp (alloc_search (S n) i start total) (f, d) Q.
Proof.
  intros v total c Hv Hs Hi Hc HQ. cbn [alloc_search].
  assert (total ≤ EOC_MIN) as Hmax by (destruct Hv; done). unfold EOC_MIN in Hmax.
  assert (u32 (start + i) = start + i) as -> by (apply wrap_small; lia).
  assert ((if total <=? start + i then u32 (2 + (start + i - total)) else start + i) = c) as ->.
  { unfold c, round. destruct (Z.leb_spec total (start + i)); [|done]. apply wrap_small. lia. }
  assert (0 ≤ c) as Hc0 by (unfold c, round; destruct (total <=? start + i) eqn:E; [apply Z.leb_le in E|]; lia).
  assert (c < 2 ^ 28) as Hc28 by (unfold c, round; destruct (Z.leb_spec total (start + i)); lia).
  assert (∀ (k : Z → M state Z) s, wp (x ← (pos ← fat_position c; plba ← vol v_partition_lba; r ← bread (u32 (plba + pos.1)) 1; e ← load32 r.2 pos.2;
    mret (Z.land e 0x0FFFFFFF)); k x) s Q → wp (pos ← fat_position c; plba ← vol v_partition_lba; r ← bread (u32 (plba + pos.1)) 1; e ← load32 r.2 pos.2;
    k (Z.land e 0x0FFFFFFF)) s Q) as Hassoc.
  { intros k s Hk. unfold mbind, M_bind, wp in *. destruct (fat_position c s) as [[pos s1]| | |]; try done. destruct (vol v_partition_lba s1) as [[plba s2]| | |]; try done.
    destruct (bread _ 1 s2) as [[r s3]| | |]; try done. destruct (load32 _ _ s3) as [[e s4]| | |]; done. }
  apply (Hassoc (λ x, if x =? 0 then take_cluster c else alloc_search n (i + 1) start total)). apply wp_bind, wp_read_entry; [done|done|done|]. intros d' Ed. by apply HQ.
Qed.

Lemma alloc_search_hit f start j n : let v := current_vol f in let total := clusters v + 2 in
  2 ≤ start < total → ∀ i d (Q : Z → state → Prop), vol_ok v (len (content d)) → 0 ≤ i ≤ j → j < i + Z.of_nat n → i + Z.of_nat n ≤ total →
  (∀ k, i ≤ k ≤ j → round start total k < 128 * v_fat_size_sectors v) →
  (∀ k, i ≤ k < j → tab v (content d) (round start total k) ≠ 0) → tab v (content d) (round start total j) = 0 →
  (∀ d', content d' = content d → wp (take_cluster (round start total j)) (f, d') Q) →
  wp (alloc_search n i start total) (f, d) Q.
Proof.
  intros v total Hs. induction n as [|n IH]; intros i d Q Hv Hi Hj Hn Hr Hu Hz HQ; [lia|].
  apply alloc_round; [done|done|fold v total; lia|apply Hr; lia|]. fold v total. intros d' Ed. destruct (decide (i = j)) as [->|Hne].
  { rewrite Hz. by apply HQ. }
  rewrite (proj2 (Z.eqb_neq _ 0)) by (apply Hu; lia). apply IH; rewrite ?Ed; try done; try lia.
  - intros k Hk. apply Hr. lia.
  - intros k Hk. apply Hu. lia.
Qed.

Lemma alloc_search_miss f start n : let v := current_vol f in let total := clusters v + 2 in
  2 ≤ start < total → ∀ i d (Q : Z → state → Prop), vol_ok v (len (content d)) → 0 ≤ i → i + Z.of_nat n ≤ total →
  (∀ k, i ≤ k < i + Z.of_nat n → round start total k < 128 * v_fat_size_sectors v ∧ tab v (content d) (round start total k) ≠ 0) →
  (∀ d', content d' = content d → Q 0 (f, d')) → wp (alloc_search n i start total) (f, d) Q.
Proof.
  intros v total Hs. induction n as [|n IH]; intros i d Q Hv Hi Hn Hr HQ; [by apply wp_ret, HQ|].
  destruct (Hr i) as [H1 H2]; [lia|]. apply alloc_round; [done|done|fold v total; lia|done|]. fold v total. intros d' Ed.
  rewrite (proj2 (Z.eqb_neq _ 0)) by done. apply IH; rewrite ?Ed; try done; try lia.
  intros k Hk. apply Hr. lia.
Qed.

(** Where the search starts. *)
Definition alloc_start f : Z := let total := clusters (current_vol f) + 2 in
  if (2 <=? fat32_last_alloc f) && (fat32_last_alloc f <? total) then fat32_last_alloc f else 2.

Lemma alloc_unfold f d (Q : Z → state → Prop) : let v := current_vol f in vol_ok v (len (content d)) →
  wp (alloc_search (Z.to_nat (clusters v + 2)) 0 (alloc_start f) (clusters v + 2)) (f, d) Q → wp fat32_alloc_cluster (f, d) Q.
Proof.
  intros v Hv HQ. apply wp_bind, wp_vol. apply wp_bind, wp_gets. cbv zeta. cbn [fst]. fold v.
  assert (u32 (clusters v + 2) = clusters v + 2) as ->; [|done]. apply wrap_small. destruct Hv. unfold EOC_MIN in *. lia.
Qed.

Lemma alloc_start_range f size : vol_ok (current_vol f) size → 2 ≤ alloc_start f < clusters (current_vol f) + 2.
Proof.
  intros []. unfold alloc_start. destruct (Z.leb_spec 2 (fat32_last_alloc f)), (Z.ltb_spec (fat32_last_alloc f) (clusters (current_vol f) + 2)); cbn; lia.
Qed.

(** Every cluster comes up in the first [clusters v] rounds, and they are
    all rounds with a cluster of the volume. *)
Lemma round_valid v start i : 2 ≤ start < clusters v + 2 → 0 ≤ i < clusters v → valid v (round start (clusters v + 2) i).
Proof. intros. unfold round, valid. destruct (Z.leb_spec (clusters v + 2) (start + i)); lia. Qed.

Lemma round_onto v start c : 2 ≤ start < clusters v + 2 → valid v c → ∃ j, 0 ≤ j < clusters v ∧ round start (clusters v + 2) j = c.
Proof.
  intros Hs Hc. unfold valid in Hc. destruct (decide (start ≤ c)).
  - exists (c - start). split; [lia|]. unfold round. destruct (Z.leb_spec (clusters v + 2) (start + (c - start))); lia.
  - exists (c + clusters v - start). split; [lia|]. unfold round. destruct (Z.leb_spec (clusters v + 2) (start + (c + clusters v - start))); lia.
Qed.

(** The first round that finds a free entry. *)
Lemma first_zero (g : Z → Z) (n : nat) : (∃ j, 0 ≤ j < Z.of_nat n ∧ g j = 0) → ∃ j, 0 ≤ j < Z.of_nat n ∧ g j = 0 ∧ ∀ k, 0 ≤ k < j → g k ≠ 0.
Proof.
  induction n as [|n IH]; intros (j & Hj & Hz); [lia|]. destruct (decide (Exists (λ k, g k = 0) (seqZ 0 (Z.of_nat n)))) as [He|He].
  - apply Exists_exists in He as (k & Hk & Hgk). apply elem_of_seqZ in Hk. destruct IH as (j' & Hj' & Hz' & Hm); [exists k; lia|]. exists j'. split; [lia|done].
  - assert (∀ k, 0 ≤ k < Z.of_nat n → g k ≠ 0) as Hn. { intros k Hk Hgk. apply He, Exists_exists. exists k. rewrite elem_of_seqZ. split; [lia|done]. }
    exists j. split; [done|]. split; [done|]. intros k Hk. apply Hn. destruct (decide (j < Z.of_nat n)) as [Hl|Hl]; [exfalso; apply (Hn j); [lia|done]|lia].
Qed.

Lemma take_cluster_spec f d c (Q : Z → state → Prop) : vol_ok (current_vol f) (len (content d)) → valid (current_vol f) c →
  (∀ d', tab_set (current_vol f) c EOC (content d) (content d') → Q c (mk_fat (current_vol f) (c + 1) (heap_answers f), d')) → wp (take_cluster c) (f, d) Q.
Proof.
  intros Hv Hc HQ. apply wp_bind, set_next_spec; [done|done|unfold EOC; lia|]. intros d' Hd. apply wp_bind, wp_modify. apply wp_ret. cbn [fst snd].
  rewrite wrap_small by (destruct Hv, Hc; unfold EOC_MIN in *; lia). by apply HQ.
Qed.

(** With a free cluster on the volume, one is taken and marked as the end of
    a chain. *)
Lemma alloc_spec f d (Q : Z → state → Prop) : let v := current_vol f in vol_ok v (len (content d)) → (∃ c, valid v c ∧ tab v (content d) c = 0) →
  (∀ c d', valid v c → tab v (content d) c = 0 → tab_set v c EOC (content d) (content d') → Q c (mk_fat v (c + 1) (heap_answers f), d')) →
  wp fat32_alloc_cluster (f, d) Q.
Proof.
  intros v Hv (c & Hc & Hz) HQ. apply alloc_unfold; [done|]. fold v. pose proof (alloc_start_range f _ Hv) as Hs. fold v in Hs. set (start := alloc_start f) in *.
  destruct (round_onto v start c Hs Hc) as (j0 & Hj0 & Ej0). assert (0 < clusters v) as Hpos by (by destruct Hv).
  destruct (first_zero (λ i, tab v (content d) (round start (clusters v + 2) i)) (Z.to_nat (clusters v))) as (j & Hj & Hzj & Hm).
  { exists j0. rewrite Ej0. split; [lia|done]. }
  rewrite Z2Nat.id in Hj by lia. apply (alloc_search_hit f start j); fold v; [done|done|lia|lia|lia| | |done|].
  - intros k Hk. apply (valid_entry v _ _ Hv). apply round_valid; lia.
  - intros k Hk. apply Hm. lia.
  - intros d' Ed. apply take_cluster_spec; [fold v; by rewrite Ed|apply round_valid; lia|]. fold v. rewrite Ed. intros d'' Hset. apply HQ; [apply round_valid; lia|done|done].
Qed.

(** With none, and the search not starting at the very last cluster, nothing
    is taken. *)
Lemma alloc_full f d (Q : Z → state → Prop) : let v := current_vol f in vol_ok v (len (content d)) → (∀ c, valid v c → tab v (content d) c ≠ 0) →
  alloc_start f ≠ clusters v + 1 → (∀ d', content d' = content d → Q 0 (f, d')) → wp fat32_alloc_cluster (f, d) Q.
Proof.
  intros v Hv Hfull Hst HQ. apply alloc_unfold; [done|]. fold v. pose proof (alloc_start_range f _ Hv) as Hs. fold v in Hs. set (start := alloc_start f) in *.
  apply alloc_search_miss; fold v; [done|done|lia|lia| |done]. intros k Hk. rewrite Z2Nat.id in Hk by lia.
  assert (valid v (round start (clusters v + 2) k)) as Hval.
  { unfold valid, round. destruct (Z.leb_spec (clusters v + 2) (start + k)); lia. }
  split; [by apply (valid_entry v _ _ Hv)|by apply Hfull].
Qed.

(** The search for a free cluster runs two rounds too many.  On a full
    volume, when it starts at the last cluster, it gets to the entry behind
    the table's last one; if that is zero, as in a table with room left in
    its last sector, the call hands out a cluster behind the end of the
    volume instead of failing. *)
Lemma fat32_alloc_past_end f d : let v := current_vol f in let l := content d in vol_ok v (len l) → (∀ c, valid v c → tab v l c ≠ 0) →
  fat32_last_alloc f = clusters v + 1 → clusters v + 2 < 128 * v_fat_size_sectors v → tab v l (clusters v + 2) = 0 →
  wp fat32_alloc_cluster (f, d) (λ c st', c = clusters v + 2 ∧ ¬ valid v c ∧
    data_at v c = 512 * (v_partition_lba v + v_first_data_sector v + clusters v * spc v) ∧ content st'.2 = l).
Proof.
  intros v l Hv Hfull Hla Hroom Hz. assert (0 < clusters v) as Hpos by by destruct Hv. assert (alloc_start f = clusters v + 1) as Hst.
  { unfold alloc_start. fold v. rewrite Hla, (proj2 (Z.leb_le 2 _)), (proj2 (Z.ltb_lt _ _)) by lia. done. }
  assert (round (clusters v + 1) (clusters v + 2) (clusters v + 1) = clusters v + 2) as Hr by (unfold round; rewrite (proj2 (Z.leb_le _ _)) by lia; lia).
  assert (∀ k, 0 ≤ k < clusters v + 1 → valid v (round (clusters v + 1) (clusters v + 2) k)) as Hval.
  { intros k Hk. unfold valid, round. destruct (Z.leb_spec (clusters v + 2) (clusters v + 1 + k)); lia. }
  apply alloc_unfold; [done|]. fold v. rewrite Hst. apply (alloc_search_hit f (clusters v + 1) (clusters v + 1)); fold v l; [lia|done|lia|lia|lia| | |by rewrite Hr|].
  - intros k Hk. destruct (decide (k = clusters v + 1)) as [->|]; [by rewrite Hr|]. apply (valid_entry v _ _ Hv), Hval. lia.
  - intros k Hk. apply Hfull, Hval. lia.
  - intros d' Ed. rewrite Hr. assert (¬ valid v (clusters v + 2)) as Hnv by (unfold valid; lia). apply wp_bind, set_next_ignored; [fold v; by rewrite Ed|done|].
    apply wp_bind, wp_modify. apply wp_ret. split; [done|]. split; [done|]. split; [unfold data_at; f_equal; f_equal; nia|done].
Qed.

End Table.

(** A property of every number of a range, by evaluation. *)
Lemma range_check (p : Z → bool) (a n : Z) : forallb p (seqZ a n) = true → ∀ c, a ≤ c < n + a → p c = true.
Proof. intros Hp c Hc. rewrite forallb_forall in Hp. apply Hp, list_elem_of_In, elem_of_seqZ. lia. Qed.

(** ** A small volume in memory

    Twenty clusters of one sector behind two tables of one sector each. *)

Definition demo_vol : fat32_volume := mk_vol 0 23 512 1 1 2 1 2 1 3 20.
Definition demo_blank : list Z := replicate (Z.to_nat 11776) 0.

(** The disk with the given table in both copies. *)
Definition demo_disk (table : list Z) (l : list Z) : list Z := let t := table ≫= le_bytes 4 in patch 512 t (patch 1024 t l).

Lemma demo_vol_ok (l : list Z) : len l = 11776 → vol_ok demo_vol (len l).
Proof. intros ->. split; vm_compute; repeat split; done. Qed.

Definition demo_full : list Z := demo_disk (replicate 22 EOC) demo_blank.

Lemma fat32_alloc_past_end_witness : wp fat32_alloc_cluster (mk_fat demo_vol 21 [], demo_full) (λ c st', c = 22 ∧ ¬ valid demo_vol c).
Proof.
  eapply wp_mono; [apply (fat32_alloc_past_end (mk_fat demo_vol 21 []) demo_full)|].
  - apply demo_vol_ok. vm_compute. reflexivity.
  - intros c Hc. apply (range_check (λ c, negb (tab demo_vol demo_full c =? 0)) 2 20) in Hc as Ht; [|vm_compute; reflexivity].
    by apply negb_true_iff, Z.eqb_neq in Ht.
  - reflexivity.
  - reflexivity.
  - vm_compute. reflexivity.
  - intros c st' (-> & Hn & _). split; [reflexivity|exact Hn].
Defined.
End Fat32Spec.
