(* ===== verification/Fat32Files.v ===== *)
(** * Files of a FAT32 volume

    A file is a chain of clusters; what a read returns and what a write does
    to the chain and to every other chain of the volume. *)
From S2P Require Import Prelude Block Fat32 Fat32Spec.

Module Fat32Files.
Import Fat32 Fat32Spec.

Implicit Types (v : fat32_volume) (l : list Z) (c : Z) (f : fat) (ch : list Z).

(** The clusters of a chain, from the first one to the end mark. *)
Fixpoint chain v l ch : Prop :=
  match ch with
  | [] => False
  | c :: rest => valid v c ∧ match rest with [] => EOC_MIN ≤ tab v l c | c' :: _ => tab v l c = c' ∧ chain v l rest end
  end.

(** The bytes of its clusters. *)
Definition bytes_of v l ch : list Z := ch ≫= cl v l.

Lemma chain_valid v l ch : chain v l ch → Forall (valid v) ch.
Proof. induction ch as [|c rest IH]; [done|]. intros [Hc Hr]. constructor; [done|]. destruct rest as [|c1 rest]; [constructor|]. apply IH, Hr. Qed.

Lemma chain_used v l ch c : chain v l ch → c ∈ ch → tab v l c ≠ 0.
Proof.
  induction ch as [|c0 rest IH]; [done|]. intros [Hc Hr] Hin. apply list_elem_of_In in Hin as [->|Hin%list_elem_of_In].
  - destruct rest as [|c' rest]; [unfold EOC_MIN in Hr; lia|]. destruct Hr as [-> Hr]. apply chain_valid, Forall_cons in Hr as [[? ?] _]. lia.
  - destruct rest as [|c' rest]; [by apply elem_of_nil in Hin|]. apply IH; [apply Hr|done].
Qed.

(** A chain only depends on its own entries. *)
Lemma chain_same v l l' ch : (∀ c, c ∈ ch → tab v l' c = tab v l c) → chain v l ch → chain v l' ch.
Proof.
  induction ch as [|c rest IH]; [done|]. intros He [Hc Hr]. split; [done|]. destruct rest as [|c' rest].
  - rewrite He by set_solver. done.
  - rewrite He by (apply list_elem_of_here). split; [apply Hr|]. apply IH; [|apply Hr]. intros y Hy. apply He. by apply list_elem_of_further.
Qed.

Lemma chain_drop v l ch k c : chain v l ch → ch !! k = Some c → chain v l (c :: drop (S k) ch).
Proof.
  revert k. induction ch as [|c0 rest IH]; intros k Hch Hk; [done|]. destruct k as [|k]; cbn in Hk; [injection Hk as ->; exact Hch|].
  destruct Hch as [_ Hr]. destruct rest as [|c' rest]; [done|]. apply IH; [apply Hr|done].
Qed.

(** The next cluster, or the end mark behind the last one. *)
Lemma chain_next v l ch k c : chain v l ch → ch !! k = Some c →
  match ch !! S k with Some c' => tab v l c = c' | None => EOC_MIN ≤ tab v l c end.
Proof.
  intros Hch Hk. pose proof (chain_drop v l ch k c Hch Hk) as [_ Hn]. pose proof (lookup_drop ch (S k) 0) as Hl. rewrite Nat.add_0_r in Hl. rewrite <-Hl.
  destruct (drop (S k) ch) as [|c' rest]; [done|]. cbn. apply Hn.
Qed.

Lemma cl_length v l c : vol_ok v (len l) → valid v c → length (cl v l c) = Z.to_nat (csize v).
Proof.
  intros Hv Hc. destruct (data_behind _ _ _ Hv Hc) as (?&?&?). apply slice_size. unfold inside, csize, len in *. destruct Hv. lia.
Qed.

Lemma csize_pos v size : vol_ok v size → 0 < csize v ≤ 65536.
Proof. intros []. unfold csize. lia. Qed.

Lemma bytes_of_cons v l c ch : bytes_of v l (c :: ch) = cl v l c ++ bytes_of v l ch.
Proof. done. Qed.

Lemma bytes_of_app v l ch ch' : bytes_of v l (ch ++ ch') = bytes_of v l ch ++ bytes_of v l ch'.
Proof. apply bind_app. Qed.

Lemma bytes_of_length v l ch : vol_ok v (len l) → Forall (valid v) ch → len (bytes_of v l ch) = csize v * Z.of_nat (length ch).
Proof.
  intros Hv. pose proof (csize_pos v _ Hv). unfold len in *. induction 1 as [|c ch Hc _ IH]; [simpl; lia|].
  rewrite bytes_of_cons, length_app, cl_length by done. cbn [length]. lia.
Qed.

Section Read.
  Context {D : Type} `{BlockLaws D}.
  Implicit Types (d : D).

Lemma wp_cluster_size f d (Q : Z → state → Prop) : vol_ok (current_vol f) (len (content d)) → Q (csize (current_vol f)) (f, d) → wp cluster_size (f, d) Q.
Proof.
  intros Hv HQ. apply wp_vol. rewrite (vo_bps _ _ Hv). unfold csize in HQ. rewrite Z.mul_comm, wrap_small by (destruct Hv; lia). done.
Qed.

Lemma wp_cluster_lba f d c (Q : Z → state → Prop) : vol_ok (current_vol f) (len (content d)) → valid (current_vol f) c →
  (∀ lba, 512 * lba = data_at (current_vol f) c → Q lba (f, d)) → wp (fat32_cluster_to_lba c) (f, d) Q.
Proof.
  intros Hv Hc HQ. apply wp_vol. apply HQ. set (v := current_vol f) in *. unfold data_at. destruct Hv, Hc. assert (0 ≤ (c - 2) * spc v) by nia.
  assert ((c - 2) * spc v + spc v ≤ clusters v * spc v) by nia. assert (0 ≤ v_num_fats v * v_fat_size_sectors v) by nia.
  assert (clusters v ≤ clusters v * spc v) by nia.
  rewrite (wrap_small 32 (c - 2)) by lia. rewrite (wrap_small 32 ((c - 2) * _)) by lia. rewrite (wrap_small 32 (v_partition_lba v + _)) by lia. rewrite wrap_small; lia.
Qed.

(** A cluster read into the buffer. *)
Lemma wp_read_cluster {A} f d c (k : Z * list Z → M state A) (Q : A → state → Prop) : vol_ok (current_vol f) (len (content d)) → valid (current_vol f) c →
  (∀ d', content d' = content d → wp (k (0, cl (current_vol f) (content d) c)) (f, d') Q) →
  wp (lba ← fat32_cluster_to_lba c; n ← vol v_sectors_per_cluster; r ← bread lba n; k r) (f, d) Q.
Proof.
  intros Hv Hc HQ. apply wp_bind, wp_cluster_lba; [done|done|]. intros lba El. apply wp_bind, wp_vol. destruct (data_behind _ _ _ Hv Hc) as (?&?&?).
  apply wp_bind, wp_bread.
  - rewrite El. fold (csize (current_vol f)). pose proof (csize_pos _ _ Hv). unfold inside, len in *. lia.
  - intros d' Ed. rewrite El. fold (csize (current_vol f)). fold (cl (current_vol f) (content d) c). by apply HQ.
Qed.

Lemma skip_spec f ch k : ∀ fuel i off d (Q : Z * Z → state → Prop), vol_ok (current_vol f) (len (content d)) → chain (current_vol f) (content d) ch →
  (i + k < length ch)%nat → (k < fuel)%nat → Z.of_nat k = off / csize (current_vol f) → 0 ≤ off →
  (∀ d', content d' = content d → Q (ch !!! (i + k)%nat, off mod csize (current_vol f)) (f, d')) →
  wp (skip_clusters fuel (ch !!! i) off (csize (current_vol f))) (f, d) Q.
Proof.
  set (v := current_vol f). induction k as [|k IH]; intros fuel i off d Q Hv Hch Hlt Hf Hk Ho HQ; pose proof (csize_pos v _ Hv) as Hcs; destruct fuel as [|fuel]; try lia; cbn [skip_clusters].
  - assert (off < csize v) by (symmetry in Hk; apply Z.div_small_iff in Hk; lia). rewrite (proj2 (Z.leb_gt (csize v) off)) by done. cbn [andb].
    rewrite Nat.add_0_r, Z.mod_small in HQ by lia. by apply wp_ret, HQ.
  - assert (csize v ≤ off). { destruct (decide (off < csize v)); [rewrite Z.div_small in Hk by lia; lia|lia]. }
    rewrite (proj2 (Z.leb_le (csize v) off)) by done. destruct (lookup_lt_is_Some_2 ch i) as [c Hc]; [lia|].
    assert (ch !!! i = c) as Hci by by apply list_lookup_total_correct. rewrite Hci. pose proof (chain_valid _ _ _ Hch) as Hval.
    pose proof (proj1 (Forall_lookup _ _) Hval i c Hc) as Hcv. rewrite (proj2 (Z.ltb_lt c EOC_MIN)) by (destruct Hv, Hcv; lia). cbn [andb].
    apply wp_bind, next_of_spec; [done|done|]. fold v. intros d' Ed. destruct (lookup_lt_is_Some_2 ch (S i)) as [c' Hc']; [lia|].
    pose proof (chain_next _ _ _ _ _ Hch Hc) as Hn. rewrite Hc' in Hn. rewrite Hn. assert (ch !!! S i = c') as <- by by apply list_lookup_total_correct.
    assert ((off - csize v) / csize v = Z.of_nat k) as Hdk.
    { replace (off - csize v) with (off + (-1) * csize v) by lia. rewrite Z.div_add by lia. lia. }
    apply IH; rewrite ?Ed; try done; try lia. intros d'' Ed''. replace (S i + k)%nat with (i + S k)%nat by lia.
    replace ((off - csize v) mod csize v) with (off mod csize v); [by apply HQ; rewrite Ed''|].
    replace (off - csize v) with (off + (-1) * csize v) by lia. by rewrite Z.mod_add by lia.
Qed.

Lemma read_loop_done fuel cluster off cs btr br s (Q : list Z → state → Prop) : btr ≤ br ∨ EOC_MIN ≤ cluster → Q [] s → wp (read_loop fuel cluster off cs btr br) s Q.
Proof.
  intros Hd HQ. assert ((br <? btr) && in_chain cluster = false) as E.
  { destruct Hd; [by rewrite (proj2 (Z.ltb_ge br btr))|]. unfold in_chain. rewrite (proj2 (Z.ltb_ge cluster EOC_MIN)) by done. by rewrite !andb_false_r. }
  destruct fuel; cbn [read_loop]; rewrite E; by apply wp_ret.
Qed.

(** What the copy loop collects from the rest of a chain. *)
Lemma fat_read_loop_spec f off btr rest : ∀ c fuel br d (Q : list Z → state → Prop), let v := current_vol f in let o := if br =? 0 then off else 0 in
  vol_ok v (len (content d)) → chain v (content d) (c :: rest) → 0 ≤ off < csize v → 0 ≤ br ≤ btr → o + (btr - br) ≤ Z.of_nat fuel * csize v →
  (∀ d', content d' = content d → Q (slice o (btr - br) (bytes_of v (content d) (c :: rest))) (f, d')) →
  wp (read_loop fuel c off (csize v) btr br) (f, d) Q.
Proof.
  set (v := current_vol f). induction rest as [|c' rest IH]; intros c fuel br d Q v' o Hv Hch Ho Hbr Hf HQ; subst v'; pose proof (csize_pos v _ Hv) as Hcs;
    pose proof Hch as [Hcv Hnext];
    (destruct (decide (br = btr)) as [->|Hne]; [apply read_loop_done; [left; lia|]; rewrite Z.sub_diag, slice_nil in HQ; by apply HQ|]);
    (assert (0 ≤ o < csize v) as Hoo by (unfold o; destruct (br =? 0); lia));
    (destruct fuel as [|fuel]; [lia|]); cbn [read_loop]; rewrite (proj2 (Z.ltb_lt br btr)) by lia; unfold in_chain;
    rewrite (proj2 (Z.leb_le 2 c)), (proj2 (Z.ltb_lt c EOC_MIN)) by (destruct Hv, Hcv; lia); cbn [andb]; (apply wp_read_cluster; [done|done|]); fold v; intros d1 Ed1;
    cbv zeta; cbn [snd]; fold o; (assert (u64 (csize v - o) = csize v - o) as -> by (apply wrap_small; lia));
    set (chunk := if btr - br <? csize v - o then btr - br else csize v - o); (assert (0 < chunk ≤ btr - br) as Hchunk by (unfold chunk; destruct (Z.ltb_spec (btr - br) (csize v - o)); lia));
    (assert (len (cl v (content d) c) = csize v) as Hcl by (unfold len; rewrite cl_length by done; lia)); rewrite bytes_of_cons in HQ;
    (apply wp_bind, next_of_spec; [by rewrite Ed1|done|]); fold v; rewrite Ed1; intros d2 Ed2.
  - apply wp_bind, read_loop_done; [by right|]. apply wp_ret. rewrite app_nil_r. cbn [mbind list_bind] in HQ. rewrite app_nil_r in HQ.
    replace (slice o chunk (cl v (content d) c)) with (slice o (btr - br) (cl v (content d) c)); [by apply HQ; congruence|].
    unfold chunk. destruct (Z.ltb_spec (btr - br) (csize v - o)); [done|]. unfold slice, len in *. rewrite !take_ge by (rewrite length_drop; lia). done.
  - destruct Hnext as [En Hch']. rewrite En. assert ((br + chunk =? 0) = false) as E0 by (apply Z.eqb_neq; lia).
    apply wp_bind, IH; rewrite ?Ed2, ?E0; try done; [lia|unfold chunk; destruct (Z.ltb_spec (btr - br) (csize v - o)); lia|]. intros d3 Ed3. apply wp_ret.
    replace (slice o chunk (cl v (content d) c) ++ slice 0 (btr - (br + chunk)) (bytes_of v (content d) (c' :: rest)))
      with (slice o (btr - br) (cl v (content d) c ++ bytes_of v (content d) (c' :: rest))); [by apply HQ; congruence|].
    unfold chunk. destruct (Z.ltb_spec (btr - br) (csize v - o)).
    + rewrite slice_app_l by lia. replace (btr - (br + (btr - br))) with 0 by lia. by rewrite slice_nil, app_nil_r.
    + rewrite slice_app_r, Hcl by lia. f_equal. f_equal. lia.
Qed.

(** The next call of [kmalloc] finds no memory. *)
Definition no_memory f : bool := bool_decide (head (heap_answers f) = Some None).

(** The driver after a call of [kmalloc]. *)
Definition popped f : fat := mk_fat (current_vol f) (fat32_last_alloc f) (tail (heap_answers f)).

Lemma wp_fat_kmalloc size f d (Q : option (list Z) → state → Prop) : (no_memory f = true → Q None (popped f, d)) →
  (no_memory f = false → ∀ b, length b = Z.to_nat size → Q (Some b) (popped f, d)) → wp (kmalloc size) (f, d) Q.
Proof.
  unfold kmalloc, no_memory, popped, wp. destruct f as [v la [|[g|] h]]; cbn [heap_answers fst head tail current_vol fat32_last_alloc].
  - intros _ HQ. apply HQ; [by apply bool_decide_eq_false|by rewrite length_replicate].
  - intros _ HQ. apply HQ; [by apply bool_decide_eq_false|]. rewrite length_take, length_app, length_replicate. lia.
  - intros HQ _. apply HQ. by apply bool_decide_eq_true.
Qed.

(** ** Reading *)

(** The node stands for the file of the chain [ch]. *)
Record is_file v l (n : fnode) ch : Prop := {
  if_chain : chain v l ch;
  if_first : head ch = Some (u32 (fn_ptr n));
  if_length : 0 ≤ fn_length n ≤ csize v * Z.of_nat (length ch);
}.

(** What [fat32_read] asks the copy loop for: the size is cut where the
    offset inside the cluster, not in the file, reaches the end. *)
Definition request (cs length offset size : Z) : Z :=
  if length <? u64 (offset mod cs + size) then u64 (length - offset mod cs) else size.

Lemma fat32_read_spec f d n ch offset size (Q : Z * list Z → state → Prop) : let v := current_vol f in let l := content d in
  vol_ok v (len l) → is_file v l n ch → 0 ≤ offset < fn_length n → 0 ≤ size < 2 ^ 63 → fn_length n < 2 ^ 63 →
  (∀ d', content d' = l → Q (if no_memory f then (-1, []) else
     let data := slice offset (request (csize v) (fn_length n) offset size) (bytes_of v l ch) in (len data, data)) (popped f, d')) →
  wp (fat32_read n offset size) (f, d) Q.
Proof.
  intros v l Hv [Hch Hfst Hlen] Ho Hs Hl63 HQ. pose proof (csize_pos v _ Hv) as Hcs. unfold fat32_read. rewrite (proj2 (Z.leb_gt (fn_length n) offset)) by lia.
  apply wp_bind, wp_cluster_size; [done|]. fold v. pose proof (Z.div_pos offset (csize v) ltac:(lia) ltac:(lia)) as Hdp.
  set (k := Z.to_nat (offset / csize v)). assert (k < length ch)%nat as Hk.
  { assert (offset / csize v < Z.of_nat (length ch)) by (apply Z.div_lt_upper_bound; lia). lia. }
  assert (u32 (fn_ptr n) = ch !!! 0%nat) as -> by (destruct ch; [done|]; injection Hfst as ->; done).
  apply wp_bind, (skip_spec f ch k); [done|done|lia|lia|fold v; lia|lia|]. fold v. cbn [Nat.add]. intros d1 Ed1.
  cbv zeta. fold (request (csize v) (fn_length n) offset size). set (btr := request _ _ _ _) in *.
  pose proof (Z.mod_pos_bound offset (csize v) ltac:(lia)) as Hm. pose proof (Z.mod_le offset (csize v) ltac:(lia) ltac:(lia)) as Hmle. assert (0 ≤ btr) as Hbtr.
  { unfold btr, request. destruct (_ <? _); [|lia]. rewrite wrap_small; lia. }
  apply wp_bind, wp_fat_kmalloc; intros Em; rewrite Em in HQ; [by apply wp_ret, HQ|]. intros b _.
  destruct (lookup_lt_is_Some_2 ch k Hk) as [c Hc]. rewrite (list_lookup_total_correct _ _ _ Hc). pose proof (chain_drop _ _ _ _ _ Hch Hc) as Hsuf.
  apply wp_bind, (fat_read_loop_spec (popped f) (offset mod csize v) btr (drop (S k) ch)); cbn [popped current_vol]; fold v; rewrite ?Ed1; fold l; try done.
  - rewrite Z.eqb_refl. pose proof (Z.div_mod btr (csize v) ltac:(lia)). pose proof (Z.mod_pos_bound btr (csize v) ltac:(lia)). pose proof (Z.div_pos btr (csize v)). nia.
  - intros d2 Ed2. rewrite Z.eqb_refl, Z.sub_0_r. apply wp_ret.
    assert (slice (offset mod csize v) btr (bytes_of v l (c :: drop (S k) ch)) = slice offset btr (bytes_of v l ch)) as ->; [|by apply HQ; congruence].
    rewrite <-(take_drop_middle ch k c Hc) at 2. rewrite bytes_of_app.
    assert (len (bytes_of v l (take k ch)) = csize v * Z.of_nat k) as Hpre.
    { rewrite bytes_of_length; [|done|by apply Forall_take, chain_valid with l]. rewrite length_take. lia. }
    pose proof (Z.div_mod offset (csize v) ltac:(lia)) as Hdm. rewrite <-(Z2Nat.id (offset / csize v)) in Hdm by done. fold k in Hdm. unfold len in Hpre.
    unfold slice. f_equal. rewrite drop_app_ge by lia. f_equal. lia.
Qed.

(** C16. Reading a file of a FAT32 volume yields its bytes: those from the
    offset on, as many as were asked for when they lie in the file, and as
    many as are left when the read starts in the first cluster; nothing on
    the disk changes.  Without memory for the buffer the call fails. *)
Theorem fat32_read_correct f d n ch offset size : let v := current_vol f in let l := content d in
  vol_ok v (len l) → is_file v l n ch → 0 ≤ offset < fn_length n → fn_length n < 2 ^ 63 → 0 ≤ size < 2 ^ 63 →
  offset + size ≤ fn_length n ∨ offset < csize v →
  wp (fat32_read n offset size) (f, d) (λ '(ret, data) st', content st'.2 = l ∧ current_vol st'.1 = v ∧
    if no_memory f then ret = -1 else
    data = slice offset size (take (Z.to_nat (fn_length n)) (bytes_of v l ch)) ∧ ret = Z.min size (fn_length n - offset)).
Proof.
  intros v l Hv Hn Ho Hl63 Hs Hor. pose proof Hn as [Hch _ Hlen]. pose proof (bytes_of_length v l ch Hv (chain_valid _ _ _ Hch)) as Hbl.
  pose proof (csize_pos v _ Hv) as Hcs. apply (fat32_read_spec f d n ch); try done. fold v l. intros d' Ed. cbn [fst snd popped current_vol].
  destruct (no_memory f); [done|]. cbv zeta. split; [done|]. split; [done|].
  set (m := Z.min size (fn_length n - offset)). assert (request (csize v) (fn_length n) offset size = m) as ->.
  { pose proof (Z.mod_pos_bound offset (csize v) ltac:(lia)) as Hm. pose proof (Z.mod_le offset (csize v) ltac:(lia) ltac:(lia)) as Hmle. unfold request, m.
    rewrite wrap_small by lia. destruct (Z.ltb_spec (fn_length n) (offset mod csize v + size)).
    - rewrite wrap_small by lia. destruct Hor as [Hor|Hor]; [lia|]. rewrite Z.mod_small in * by lia. lia.
    - destruct Hor as [Hor|Hor]; [lia|]. rewrite Z.mod_small in * by lia. lia. }
  assert (inside offset m (bytes_of v l ch)) as Hi by (unfold inside, len, m in *; lia). split.
  - apply list_eq. intros i. rewrite !slice_lookup by lia. destruct (decide (Z.of_nat i < m)) as [Hlt|Hge].
    + rewrite decide_True by lia. rewrite lookup_take_lt by lia. done.
    + case_decide; [|done]. rewrite lookup_take_ge by lia. done.
  - unfold len. rewrite slice_size by done. unfold m in *. lia.
Qed.

(** A read that starts behind the first cluster is not cut at the end of
    the file when the offset inside its cluster plus the size stays below the
    length: it returns the unused rest of the last cluster as file data. *)
Lemma fat32_read_past_end f d n ch offset size : let v := current_vol f in let l := content d in
  vol_ok v (len l) → is_file v l n ch → 0 ≤ offset < fn_length n → fn_length n < 2 ^ 63 → 0 ≤ size < 2 ^ 63 → no_memory f = false →
  fn_length n < offset + size ≤ csize v * Z.of_nat (length ch) → offset mod csize v + size ≤ fn_length n →
  wp (fat32_read n offset size) (f, d) (λ '(ret, data) st', content st'.2 = l ∧
    ret = size ∧ fn_length n - offset < ret ∧ data = slice offset size (bytes_of v l ch)).
Proof.
  intros v l Hv Hn Ho Hl63 Hs Hmem Hend Hin. pose proof Hn as [Hch _ Hlen]. pose proof (bytes_of_length v l ch Hv (chain_valid _ _ _ Hch)) as Hbl.
  pose proof (csize_pos v _ Hv) as Hcs. apply (fat32_read_spec f d n ch); try done. fold v l. intros d' Ed. rewrite Hmem. cbv zeta.
  pose proof (Z.mod_pos_bound offset (csize v) ltac:(lia)) as Hm. assert (request (csize v) (fn_length n) offset size = size) as ->.
  { unfold request. rewrite wrap_small by lia. destruct (Z.ltb_spec (fn_length n) (offset mod csize v + size)); [lia|done]. }
  assert (inside offset size (bytes_of v l ch)) as Hi by (unfold inside, len in *; lia). cbn [snd]. split; [done|]. unfold len. rewrite slice_size by done. split_and!; [lia|lia|done].
Qed.

End Read.

(** ** The small volume with a file

    [A.TXT] in the root directory: 600 bytes in the clusters 3 and 4, whose
    rest holds other bytes. *)

Definition demo_entry : list Z := update_entry 3 600 (short_entry (pad 8 [65]) (pad 3 [84; 88; 84]) false 3).
Definition demo_one : list Z := demo_disk [EOC; EOC; EOC; 4; EOC] (patch 1536 demo_entry (patch 2048 (replicate 600 65 ++ replicate 424 66) demo_blank)).
Definition demo_root : fnode := mk_fnode [47] FS_DIRECTORY 0 0 2 None.
Definition demo_node : fnode := mk_fnode [65; 46; 84; 88; 84] FS_FILE 600 3 3 (Some 2).
Definition demo_fat : fat := mk_fat demo_vol 2 [].

Lemma demo_one_len : len demo_one = 11776.
Proof. vm_compute. reflexivity. Qed.

Lemma demo_chain : chain demo_vol demo_one [3; 4].
Proof. split; [by vm_compute|]. split; [vm_compute; reflexivity|]. by vm_compute. Qed.

Lemma demo_is_file : is_file demo_vol demo_one demo_node [3; 4].
Proof. split; [exact demo_chain|reflexivity|by vm_compute]. Qed.

Lemma fat32_read_correct_witness : wp (fat32_read demo_node 510 20) (demo_fat, demo_one) (λ '(ret, data) st', ret = 20 ∧ data = replicate 20 65).
Proof.
  eapply wp_mono; [apply (fat32_read_correct demo_fat demo_one demo_node [3; 4] 510 20)|].
  - exact (demo_vol_ok _ demo_one_len).
  - exact demo_is_file.
  - change (fn_length demo_node) with 600. lia.
  - reflexivity.
  - lia.
  - left. change (fn_length demo_node) with 600. lia.
  - intros [ret data] st' (_ & _ & E & R). split; [exact R|]. rewrite E. vm_compute. reflexivity.
Defined.

Lemma fat32_read_past_end_witness : wp (fat32_read demo_node 520 200) (demo_fat, demo_one) (λ '(ret, data) st', ret = 200 ∧ data = replicate 80 65 ++ replicate 120 66).
Proof.
  eapply wp_mono; [apply (fat32_read_past_end demo_fat demo_one demo_node [3; 4] 520 200)|].
  - exact (demo_vol_ok _ demo_one_len).
  - exact demo_is_file.
  - change (fn_length demo_node) with 600. lia.
  - reflexivity.
  - lia.
  - reflexivity.
  - change (600 < 520 + 200 ≤ 512 * 2). lia.
  - change (520 mod 512 + 200 ≤ 600). by vm_compute.
  - intros [ret data] st' (_ & R & _ & E). split; [exact R|]. rewrite E. vm_compute. reflexivity.
Defined.
End Fat32Files.
