(* ===== verification/Fat32Write.v ===== *)
(** * Writing files of a FAT32 volume

    A write puts the bytes at their place in the file, extends its chain by
    free clusters as far as needed, and leaves every other chain and cluster
    alone. *)
From S2P Require Import Prelude Block Fat32 Fat32Spec Fat32Files.

Module Fat32Write.
Import Fat32 Fat32Spec Fat32Files.

Implicit Types (v : fat32_volume) (l : list Z) (c : Z) (f : fat) (ch new : list Z).

(** ** Chains *)

(** From a cluster on there is at most one chain, so none comes back. *)
Lemma chain_unique v l c r1 : ∀ r2, vol_ok v (len l) → chain v l (c :: r1) → chain v l (c :: r2) → r1 = r2.
Proof.
  revert c. induction r1 as [|c1 r1 IH]; intros c [|c2 r2] Hv [_ H1] [_ H2]; [done| | |].
  - destruct H2 as [H2 [[? ?] _]]. destruct Hv. lia.
  - destruct H1 as [H1 [[? ?] _]]. destruct Hv. lia.
  - destruct H1 as [E1 C1], H2 as [E2 C2]. assert (c1 = c2) as -> by congruence. f_equal. by apply (IH c2).
Qed.

Lemma chain_NoDup v l ch : vol_ok v (len l) → chain v l ch → NoDup ch.
Proof.
  intros Hv. induction ch as [|c rest IH]; [constructor|]. intros Hch. constructor.
  - intros [j Hj]%list_elem_of_lookup. pose proof (chain_drop v l (c :: rest) (S j) c Hch Hj) as Hsuf. cbn [drop] in Hsuf.
    pose proof (chain_unique v l c rest (drop (S j) rest) Hv Hch Hsuf) as He. apply (f_equal length) in He. rewrite length_drop in He. apply lookup_lt_Some in Hj. lia.
  - destruct rest as [|c' rest]; [constructor|]. apply IH, Hch.
Qed.

(** A chain with one more cluster behind its last one. *)
Lemma chain_snoc v l l' ch c c' : chain v l (ch ++ [c]) → (∀ y, y ∈ ch → tab v l' y = tab v l y) → tab v l' c = c' → valid v c' →
  EOC_MIN ≤ tab v l' c' → chain v l' (ch ++ [c; c']).
Proof.
  induction ch as [|c0 ch IH]; cbn [app]; intros Hch He Hc Hc' Hend.
  - destruct Hch as [Hcv _]. split; [done|]. split; [done|]. by split.
  - destruct Hch as [Hcv Hr]. split; [done|]. assert (chain v l' (ch ++ [c; c'])) as Hrec.
    { apply IH; try done; [|intros y Hy; apply He; by apply list_elem_of_further]. destruct ch; apply Hr. }
    destruct ch as [|c1 ch]; cbn [app] in *; (rewrite He by apply list_elem_of_here; split; [apply Hr|done]).
Qed.

(** ** Free clusters *)

Definition free v l : list Z := filter (λ c, tab v l c = 0) (seqZ 2 (clusters v)).
Definition nfree v l : Z := len (free v l).

Lemma elem_of_free v l c : c ∈ free v l ↔ valid v c ∧ tab v l c = 0.
Proof. unfold free, valid. rewrite list_elem_of_filter, elem_of_seqZ. intuition lia. Qed.

Lemma filter_same (P P' : Z → Prop) `{!∀ y, Decision (P y), !∀ y, Decision (P' y)} (xs : list Z) :
  (∀ y, y ∈ xs → P' y ↔ P y) → filter P' xs = filter P xs.
Proof.
  induction xs as [|x xs IH]; intros He; [done|]. rewrite !filter_cons. rewrite (decide_ext (P' x) (P x)) by (apply He, list_elem_of_here).
  rewrite IH; [done|]. intros y Hy. apply He. by apply list_elem_of_further.
Qed.

(** Dropping one element of a list without repetitions. *)
Lemma filter_one (P P' : Z → Prop) `{!∀ y, Decision (P y), !∀ y, Decision (P' y)} (xs : list Z) c : NoDup xs → c ∈ xs → P c → ¬ P' c →
  (∀ y, y ∈ xs → y ≠ c → P' y ↔ P y) → len (filter P xs) = len (filter P' xs) + 1.
Proof.
  intros Hn. induction Hn as [|x xs Hx Hn IH]; intros Hin HP HP' He; [by apply elem_of_nil in Hin|]. unfold len in *. rewrite !filter_cons.
  apply list_elem_of_In in Hin as [->|Hin%list_elem_of_In].
  - rewrite decide_True, decide_False by done. cbn [length].
    rewrite (filter_same P P' xs); [lia|]. intros y Hy. apply He; [by apply list_elem_of_further|]. by intros ->.
  - assert (x ≠ c) by by intros ->. rewrite (decide_ext (P' x) (P x)) by (apply He; [apply list_elem_of_here|done]).
    assert (Z.of_nat (length (filter P xs)) = Z.of_nat (length (filter P' xs)) + 1) as Hrec.
    { apply IH; [done..|]. intros y Hy. apply He. by apply list_elem_of_further. }
    destruct (decide (P x)); cbn [length]; lia.
Qed.

Lemma nfree_take v c n l l' : vol_ok v (len l) → valid v c → tab v l c = 0 → n ≠ 0 → tab_set v c n l l' → nfree v l = nfree v l' + 1.
Proof.
  intros Hv Hc Hz Hn (_ & Ht & Ho). unfold nfree, free. apply (filter_one _ _ _ c); [apply NoDup_seqZ|unfold valid in Hc; apply elem_of_seqZ; lia|done|by rewrite Ht|].
  intros y Hy Hne. apply elem_of_seqZ in Hy. rewrite Ho; [done| |done]. apply (valid_entry v _ _ Hv). unfold valid. lia.
Qed.

Lemma nfree_kept v c n l l' : vol_ok v (len l) → valid v c → tab v l c ≠ 0 → n ≠ 0 → tab_set v c n l l' → nfree v l' = nfree v l.
Proof.
  intros Hv Hc Hz Hn (_ & Ht & Ho). unfold nfree, free. f_equal. apply filter_same. intros y Hy. apply elem_of_seqZ in Hy.
  destruct (decide (y = c)) as [->|Hne]; [rewrite Ht; tauto|]. rewrite Ho; [done| |done]. apply (valid_entry v _ _ Hv). unfold valid. lia.
Qed.

(** ** Growing a chain *)

(** From [l] to [l'] the chain [ch] has got the clusters [new] at its end;
    entries, and clusters outside of it, are otherwise the same. *)
Record extends v l l' ch new : Prop := {
  e_length : length l' = length l;
  e_chain : chain v l' (ch ++ new);
  e_new : Forall (λ c, valid v c ∧ tab v l c = 0) new;
  e_tab c : valid v c → c ∉ ch → c ∉ new → tab v l' c = tab v l c;
  e_free : nfree v l = nfree v l' + len new;
  e_cl c : valid v c → c ∉ ch → c ∉ new → cl v l' c = cl v l c;
  e_before off n : 0 ≤ off → off + n ≤ table_at v 0 → slice off n l' = slice off n l;
  e_behind off n : data_at v (clusters v + 2) ≤ off → slice off n l' = slice off n l;
}.

Lemma extends_refl v l ch : chain v l ch → extends v l l ch [].
Proof. intros Hch. split; try done; [by rewrite app_nil_r|unfold len; simpl; lia]. Qed.

(** New clusters are not among those of a chain. *)
Lemma free_not_in v l ch c : chain v l ch → tab v l c = 0 → c ∉ ch.
Proof. intros Hch Hz Hin. by apply (chain_used v l ch c). Qed.

Lemma extends_trans v l l1 l2 ch n1 n2 : extends v l l1 ch n1 → extends v l1 l2 (ch ++ n1) n2 → extends v l l2 ch (n1 ++ n2).
Proof.
  intros [A1 A2 A3 A4 A5 A6 A7 A8] [B1 B2 B3 B4 B5 B6 B7 B8].
  assert (∀ c, c ∈ n2 → valid v c ∧ tab v l1 c = 0 ∧ c ∉ ch ∧ c ∉ n1) as Hn2.
  { intros c Hc. rewrite Forall_forall in B3. destruct (B3 c Hc) as [Hv Hz]. pose proof (free_not_in v l1 _ c A2 Hz) as Hni. apply not_elem_of_app in Hni. tauto. }
  split.
  - congruence.
  - by rewrite app_assoc.
  - apply Forall_app. split; [done|]. apply Forall_forall. intros c Hc. destruct (Hn2 c Hc) as (Hv & Hz & H1 & H2). split; [done|]. by rewrite <-A4.
  - intros c Hv Hc Hn. apply not_elem_of_app in Hn as [H1 H2]. rewrite B4, A4; try done. by apply not_elem_of_app.
  - unfold len in *. rewrite length_app. lia.
  - intros c Hv Hc Hn. apply not_elem_of_app in Hn as [H1 H2]. rewrite B6, A6; try done. by apply not_elem_of_app.
  - intros off n H1 H2. by rewrite B7, A7.
  - intros off n H1. by rewrite B8, A8.
Qed.

Lemma tables_only_outside v l l' : vol_ok v (len l) → tables_only v l l' →
  (∀ off n, 0 ≤ off → off + n ≤ table_at v 0 → slice off n l' = slice off n l) ∧ (∀ off n, data_at v (clusters v + 2) ≤ off → slice off n l' = slice off n l).
Proof.
  intros Hv [_ Ho]. split; intros off n; [auto|]. intros Hoff. assert (table_at v (v_num_fats v) ≤ data_at v (clusters v + 2) ∧ 0 ≤ table_at v (v_num_fats v)).
  { unfold table_at, data_at. destruct Hv. assert (0 ≤ clusters v * spc v) by nia. assert (0 ≤ v_num_fats v * v_fat_size_sectors v) by nia. lia. }
  apply Ho; [lia|right; lia].
Qed.

(** The last cluster [c] of a chain points to a free one, which ends it. *)
Lemma extends_one v l l' ch c c' : vol_ok v (len l) → chain v l (ch ++ [c]) → valid v c' → tab v l c' = 0 → tables_only v l l' →
  tab v l' c' = EOC → tab v l' c = c' → (∀ y, valid v y → y ≠ c → y ≠ c' → tab v l' y = tab v l y) → nfree v l = nfree v l' + 1 →
  extends v l l' (ch ++ [c]) [c'].
Proof.
  intros Hv Hch Hc' Hz Ht E1 E2 Eo Hf. pose proof (chain_valid _ _ _ Hch) as Hval. rewrite Forall_forall in Hval.
  pose proof (chain_NoDup v l _ Hv Hch) as Hnd. apply NoDup_app in Hnd as (_ & Hnd & _).
  destruct (tables_only_outside v l l' Hv Ht) as [Hb Ha]. split; try done.
  - apply Ht.
  - rewrite <-app_assoc. apply (chain_snoc v l); try done; [|rewrite E1; unfold EOC, EOC_MIN; lia]. intros y Hy.
    apply Eo; [apply Hval; set_solver|intros ->; by apply (Hnd c), list_elem_of_singleton|]. intros ->. apply (chain_used v l _ c' Hch); [set_solver|done].
  - by constructor.
  - intros y Hy H1 H2. apply Eo; [done|set_solver|set_solver].
  - intros y Hy _ _. by apply tables_only_cl.
Qed.

Lemma bytes_of_ext v l l' ch : (∀ y, y ∈ ch → cl v l' y = cl v l y) → bytes_of v l' ch = bytes_of v l ch.
Proof.
  induction ch as [|y ch IH]; intros Hy; [done|]. rewrite !bytes_of_cons. rewrite Hy by apply list_elem_of_here. f_equal. apply IH.
  intros z Hz. apply Hy. by apply list_elem_of_further.
Qed.

Lemma bytes_of_tables v l l' ch : vol_ok v (len l) → Forall (valid v) ch → tables_only v l l' → bytes_of v l' ch = bytes_of v l ch.
Proof. intros Hv Hval Ht. rewrite Forall_forall in Hval. apply bytes_of_ext. intros y Hy. apply tables_only_cl; auto. Qed.

(** ** Writing into a cluster *)

Lemma clusters_apart v size c c' : vol_ok v size → c ≠ c' → data_at v c + csize v ≤ data_at v c' ∨ data_at v c' + csize v ≤ data_at v c.
Proof.
  intros [] Hne. unfold data_at, csize. assert (c + 1 ≤ c' ∨ c' + 1 ≤ c) as [Hl|Hl] by lia.
  - left. assert ((c + 1) * spc v ≤ c' * spc v) by nia. nia.
  - right. assert ((c' + 1) * spc v ≤ c * spc v) by nia. nia.
Qed.

Lemma cl_patched v l c o bs y : vol_ok v (len l) → valid v c → valid v y → 0 ≤ o → o + len bs ≤ csize v →
  cl v (patch (data_at v c + o) bs l) y = if decide (y = c) then patch o bs (cl v l c) else cl v l y.
Proof.
  intros Hv Hc Hy Ho Hb. destruct (data_behind _ _ _ Hv Hc) as (D1 & D2 & D3). pose proof (csize_pos v _ Hv) as Hcs. case_decide as Heq.
  - subst y. apply slice_patch_in; [unfold inside, len in *; lia|done|done].
  - assert (inside (data_at v c + o) (len bs) l) as Hi by (unfold inside, len in *; lia). destruct (data_behind _ _ _ Hv Hy) as (?&?&?).
    apply slice_patch_out; [done|lia|]. destruct (clusters_apart v _ c y Hv); [done|lia|lia].
Qed.

Lemma cluster_written v l ch k c o bs : vol_ok v (len l) → chain v l ch → ch !! k = Some c → 0 ≤ o → o + len bs ≤ csize v →
  let l' := patch (data_at v c + o) bs l in
  extends v l l' ch [] ∧ bytes_of v l' ch = patch (csize v * Z.of_nat k + o) bs (bytes_of v l ch).
Proof.
  intros Hv Hch Hk Ho Hb l'. pose proof (chain_valid _ _ _ Hch) as Hval. pose proof (proj1 (Forall_lookup _ _) Hval k c Hk) as Hcv.
  destruct (data_behind _ _ _ Hv Hcv) as (D1 & D2 & D3). pose proof (csize_pos v _ Hv) as Hcs.
  assert (inside (data_at v c + o) (len bs) l) as Hi by (unfold inside, len in *; lia).
  assert (∀ y, 0 ≤ y < 128 * v_fat_size_sectors v → tab v l' y = tab v l y) as Htab.
  { intros y Hy. destruct (entry_in_table v _ 0 y Hv) as (T1 & T2 & T3 & T4 & T5); [destruct Hv; lia|done|].
    unfold tab, get32, l'. f_equal. f_equal. apply slice_patch_out; [done|lia|left; lia]. }
  assert (∀ y, valid v y → tab v l' y = tab v l y) as Htv by (intros y Hy; apply Htab; by apply (valid_entry v _ _ Hv)).
  assert (∀ y, valid v y → y ≠ c → cl v l' y = cl v l y) as Hcl.
  { intros y Hy Hne. unfold l'. by rewrite cl_patched, decide_False. }
  assert (cl v l' c = patch o bs (cl v l c)) as Hclc by (unfold l'; by rewrite cl_patched, decide_True). split.
  - split.
    + by apply patch_length.
    + rewrite app_nil_r. apply (chain_same v l); [|done]. intros y Hy. rewrite Forall_forall in Hval. by apply Htv, Hval.
    + constructor.
    + intros y Hy _ _. by apply Htv.
    + unfold nfree, free. rewrite (filter_same (λ y, tab v l' y = 0) (λ y, tab v l y = 0)); [unfold len; simpl; lia|]. intros y Hy%elem_of_seqZ. rewrite Htv by (unfold valid; lia). done.
    + intros y Hy Hn _. apply Hcl; [done|]. intros ->. apply Hn, list_elem_of_lookup. by exists k.
    + intros off n H1 H2. destruct (entry_in_table v _ 0 2 Hv) as (T1 & T2 & T3 & T4 & T5); [destruct Hv; lia|destruct Hv; lia|]. apply slice_patch_out; [done|lia|left; lia].
    + intros off n H1. assert (data_at v c + csize v ≤ data_at v (clusters v + 2)).
      { unfold data_at, csize. destruct Hcv, Hv. assert ((c + 1) * spc v ≤ (clusters v + 2) * spc v) by nia. nia. }
      apply slice_patch_out; [done|lia|right; lia].
  - pose proof (chain_NoDup v l ch Hv Hch) as Hnd. rewrite <-(take_drop_middle ch k c Hk) in Hnd. apply NoDup_app in Hnd as (_ & Hn1 & Hn2). apply NoDup_cons in Hn2 as [Hn2 _].
    rewrite <-(take_drop_middle ch k c Hk) in Hval. apply Forall_app in Hval as [V1 V2]. apply Forall_cons in V2 as [_ V2].
    rewrite <-(take_drop_middle ch k c Hk). rewrite !bytes_of_app, !bytes_of_cons, Hclc. rewrite Forall_forall in V1, V2.
    rewrite (bytes_of_ext v l l' (take k ch)) by (intros y Hy; apply Hcl; [by apply V1|intros ->; by apply (Hn1 c Hy), list_elem_of_here]).
    rewrite (bytes_of_ext v l l' (drop (S k) ch)) by (intros y Hy; apply Hcl; [by apply V2|intros ->; done]).
    assert (len (bytes_of v l (take k ch)) = csize v * Z.of_nat k) as Hlk.
    { rewrite bytes_of_length; [|done|by apply Forall_forall]. rewrite length_take, Nat.min_l; [done|]. apply lookup_lt_Some in Hk. lia. }
    rewrite <-Hlk, patch_app_r by done. f_equal. symmetry. apply patch_app_l. unfold inside, len in *. rewrite cl_length by done. lia.
Qed.

(** The clusters of a chain after a write into one of them. *)
Lemma bufs_patched v l ch k c o bs : vol_ok v (len l) → chain v l ch → ch !! k = Some c → 0 ≤ o → o + len bs ≤ csize v →
  cl v (patch (data_at v c + o) bs l) <$> ch = <[k := patch o bs (cl v l c)]> (cl v l <$> ch).
Proof.
  intros Hv Hch Hk Ho Hb. pose proof (chain_valid _ _ _ Hch) as Hval. pose proof (proj1 (Forall_lookup _ _) Hval k c Hk) as Hcv.
  pose proof (chain_NoDup v l ch Hv Hch) as Hnd. pose proof (lookup_lt_Some _ _ _ Hk) as Hlt. apply list_eq. intros j. rewrite list_lookup_fmap. destruct (ch !! j) as [y|] eqn:Hy; cbn [fmap option_fmap option_map].
  - pose proof (proj1 (Forall_lookup _ _) Hval j y Hy) as Hyv. rewrite cl_patched by done. case_decide as Heq.
    + subst y. assert (j = k) as -> by by eapply NoDup_lookup. by rewrite list_lookup_insert_eq by by rewrite length_fmap.
    + assert (j ≠ k) by (intros ->; congruence). by rewrite list_lookup_insert_ne, list_lookup_fmap, Hy.
  - symmetry. apply lookup_ge_None. rewrite length_insert, length_fmap. by apply lookup_ge_None.
Qed.

Section Write.
  Context {D : Type} `{BlockLaws D}.
  Implicit Types (d : D).

(** The driver after allocations: the volume and the heap are the same. *)
Definition moved f f' : Prop := current_vol f' = current_vol f ∧ heap_answers f' = heap_answers f.

Lemma moved_trans f1 f2 f3 : moved f1 f2 → moved f2 f3 → moved f1 f3.
Proof. unfold moved. intuition congruence. Qed.

Lemma some_free v l : 0 < nfree v l → ∃ c, valid v c ∧ tab v l c = 0.
Proof.
  unfold nfree, len. destruct (free v l) as [|c r] eqn:E; [simpl; lia|]. intros _. exists c. apply elem_of_free. rewrite E. apply list_elem_of_here.
Qed.

Lemma next_or_new_spec f d ch k c (Q : option Z → state → Prop) : let v := current_vol f in let l := content d in
  vol_ok v (len l) → chain v l ch → ch !! k = Some c → (S k < length ch)%nat ∨ 0 < nfree v l →
  (∀ c' f' d' new, moved f f' → extends v l (content d') ch new → tables_only v l (content d') → (ch ++ new) !! S k = Some c' →
     length (ch ++ new) = (length ch `max` S (S k))%nat → Q (Some c') (f', d')) →
  wp (next_or_new c) (f, d) Q.
Proof.
  intros v l Hv Hch Hk Hor HQ. pose proof (chain_valid _ _ _ Hch) as Hval. pose proof (proj1 (Forall_lookup _ _) Hval k c Hk) as Hcv.
  apply wp_bind, next_of_spec; [done|done|]. fold v l. intros d1 Ed1. pose proof (chain_next _ _ _ _ _ Hch Hk) as Hn. destruct (ch !! S k) as [c'|] eqn:Hk'.
  { pose proof (proj1 (Forall_lookup _ _) Hval _ _ Hk') as [? ?]. rewrite Hn. rewrite (proj2 (Z.leb_gt EOC_MIN c')) by (destruct Hv; lia). apply wp_ret.
    apply (HQ c' f d1 []); rewrite ?Ed1, ?app_nil_r; try done; [by apply extends_refl|]. apply lookup_lt_Some in Hk'. lia. }
  rewrite (proj2 (Z.leb_le EOC_MIN _)) by done. apply lookup_ge_None in Hk'. pose proof (lookup_lt_Some _ _ _ Hk) as Hlt. destruct Hor as [?|Hfree]; [lia|].
  assert (ch = take k ch ++ [c]) as Hsplit by (rewrite <-(take_S_r _ _ _ Hk); by rewrite take_ge by lia).
  apply wp_bind, alloc_spec; fold v; rewrite ?Ed1; fold l; [done|by apply some_free|]. intros c' d2 Hc' Hz S1. rewrite (proj2 (Z.eqb_neq c' 0)) by (destruct Hc'; lia).
  assert (c ∈ ch) as Hin by (apply list_elem_of_lookup; by exists k). assert (c ≠ c') as Hne by (intros ->; by apply (chain_used v l ch c' Hch)).
  pose proof S1 as ((L1 & O1) & T1 & U1). assert (len (content d2) = len l) as Hl2 by (unfold len; by rewrite L1).
  apply wp_bind, set_next_spec; cbn [current_vol]; rewrite ?Hl2; try done; [destruct Hv, Hc'; unfold EOC_MIN in *; lia|]. intros d3 S2.
  pose proof S2 as ((L2 & O2) & T2 & U2). assert (len (content d3) = len l) as Hl3 by (unfold len; by rewrite L2, L1).
  apply wp_bind, set_next_spec; cbn [current_vol]; rewrite ?Hl3; try done. intros d4 S3. pose proof S3 as ((L3 & O3) & T3 & U3).
  assert (∀ y, valid v y → 0 ≤ y < 128 * v_fat_size_sectors v) as Hve by (intros y Hy; by apply (valid_entry v _ _ Hv)).
  assert (tables_only v l (content d4)) as Ht by (do 2 (eapply tables_only_trans; [done|]); done). apply wp_ret.
  assert (nfree v l = nfree v (content d4) + 1) as Hnf.
  { rewrite (nfree_take v c' EOC l (content d2)) by done. f_equal. rewrite (nfree_kept v c' EOC (content d3) (content d4)); rewrite ?Hl3; try done.
    - symmetry. apply (nfree_kept v c c' (content d2)); rewrite ?Hl2; try done; [|destruct Hc'; lia]. rewrite U1 by auto. by apply (chain_used v l ch).
    - rewrite U2, T1 by auto. done. }
  apply (HQ c' _ d4 [c']); [done| | | |].
  - rewrite Hsplit. apply extends_one; rewrite <-?Hsplit; try done; [by rewrite U3, T2 by auto|]. intros y Hy H1 H2. by rewrite U3, U2, U1 by auto.
  - done.
  - rewrite lookup_app_r by lia. by replace (S k - length ch)%nat with 0%nat by lia.
  - rewrite length_app. simpl. lia.
Qed.

Lemma extends_len v l l' ch new : extends v l l' ch new → len l' = len l.
Proof. intros [Hl]. unfold len. by rewrite Hl. Qed.

Lemma seek_spec fuel : ∀ f d ch k c offset (Q : option Z → state → Prop), let v := current_vol f in let l := content d in
  vol_ok v (len l) → chain v l ch → ch !! k = Some c → 0 ≤ offset < 2 ^ 63 → Z.of_nat k ≤ offset / csize v < Z.of_nat k + Z.of_nat fuel →
  offset / csize v < len ch + nfree v l →
  (∀ c' f' d' new, moved f f' → extends v l (content d') ch new → tables_only v l (content d') → (ch ++ new) !! Z.to_nat (offset / csize v) = Some c' →
     Z.of_nat (length (ch ++ new)) = Z.max (len ch) (offset / csize v + 1) → Q (Some c') (f', d')) →
  wp (seek_loop fuel c (csize v * Z.of_nat k) offset (csize v)) (f, d) Q.
Proof.
  induction fuel as [|fuel IH]; intros f d ch k c offset Q v l Hv Hch Hk Ho HK Hroom HQ; [lia|]. pose proof (csize_pos v _ Hv) as Hcs. cbn [seek_loop].
  pose proof (lookup_lt_Some _ _ _ Hk) as Hlt. pose proof (Z.div_mod offset (csize v) ltac:(lia)) as Hdm. pose proof (Z.mod_pos_bound offset (csize v) ltac:(lia)) as Hmb.
  assert (csize v * Z.of_nat k ≤ offset) as Hle by nia. rewrite wrap_small by lia.
  destruct (Z.leb_spec (csize v * Z.of_nat k + csize v) offset) as [Hnext|Hhere].
  - assert (Z.of_nat k < offset / csize v) by nia. apply wp_bind, (next_or_new_spec f d ch k c); fold v l; [done|done|done|unfold len in Hroom; lia|].
    intros c' f1 d1 new [M1 M2] E1 T1 K1 L1. pose proof (extends_len _ _ _ _ _ E1) as El. pose proof (e_free _ _ _ _ _ E1) as Hfr. fold v in M1.
    replace (csize v * Z.of_nat k + csize v) with (csize (current_vol f1) * Z.of_nat (S k)) by (rewrite M1; lia). rewrite <-M1.
    apply (IH f1 d1 (ch ++ new) (S k)); rewrite ?M1, ?El; try done; try lia; [apply E1|unfold len in *; rewrite length_app; lia|].
    intros c2 f2 d2 new2 M3 E2 T2 K2 L2. rewrite <-app_assoc in K2, L2. apply (HQ c2 f2 d2 (new ++ new2)); [by eapply moved_trans|by eapply extends_trans|by eapply tables_only_trans|done|].
    rewrite L2. unfold len. lia.
  - assert (offset / csize v = Z.of_nat k) as HKk by nia. apply wp_ret. apply (HQ c f d []); [done|by apply extends_refl|done|rewrite app_nil_r, HKk, Nat2Z.id; done|].
    rewrite app_nil_r. unfold len. lia.
Qed.

Lemma seek_start fuel f d ch c offset (Q : option Z → state → Prop) : let v := current_vol f in let l := content d in
  vol_ok v (len l) → chain v l ch → ch !! 0%nat = Some c → 0 ≤ offset < 2 ^ 63 → 0 ≤ offset / csize v < Z.of_nat fuel → offset / csize v < len ch + nfree v l →
  (∀ c' f' d' new, moved f f' → extends v l (content d') ch new → tables_only v l (content d') → (ch ++ new) !! Z.to_nat (offset / csize v) = Some c' →
     Z.of_nat (length (ch ++ new)) = Z.max (len ch) (offset / csize v + 1) → Q (Some c') (f', d')) →
  wp (seek_loop fuel c 0 offset (csize v)) (f, d) Q.
Proof.
  intros v l Hv Hch Hk Ho HK Hroom HQ. pose proof (seek_spec fuel f d ch 0 c offset Q Hv Hch Hk Ho) as Hs. cbv zeta in Hs. fold v l in Hs.
  change (Z.of_nat 0) with 0 in Hs. rewrite Z.mul_0_r in Hs. by apply Hs.
Qed.

(** One cluster of the copy loop, read, changed and written back. *)
Lemma write_cluster {A} f d ch k c o bs cbuf (kont : list Z → M state A) (Q : A → state → Prop) : let v := current_vol f in let l := content d in
  vol_ok v (len l) → chain v l ch → ch !! k = Some c → 0 ≤ o → o + len bs ≤ csize v → len cbuf = csize v →
  (∀ d' cbuf', len cbuf' = csize v → content d' = patch (data_at v c + o) bs l → wp (kont cbuf') (f, d') Q) →
  wp (lba ← fat32_cluster_to_lba c; n ← vol v_sectors_per_cluster; (if csize v =? 0 then fault else mret tt);;
      buf ← (if negb (o =? 0) || negb (len bs =? csize v) then r ← bread lba n; mret r.2 else mret cbuf);
      buf' ← store_at o bs buf; bwrite lba n buf';; kont buf') (f, d) Q.
Proof.
  intros v l Hv Hch Hk Ho Hb Hcb HQ. pose proof (csize_pos v _ Hv) as Hcs. pose proof (proj1 (Forall_lookup _ _) (chain_valid _ _ _ Hch) k c Hk) as Hcv.
  destruct (data_behind _ _ _ Hv Hcv) as (D1 & D2 & D3). apply wp_bind, wp_cluster_lba; [done|done|]. fold v. intros lba El. apply wp_bind, wp_vol. fold v.
  apply wp_bind. rewrite (proj2 (Z.eqb_neq (csize v) 0)) by lia. apply wp_ret. fold (csize v) in *.
  assert (inside (512 * lba) (512 * spc v) l) as Hin by (rewrite El; fold (csize v); unfold inside, len in *; lia).
  assert (∀ buf d', content d' = l → (buf = cl v l c ∨ o = 0 ∧ len bs = csize v ∧ len buf = csize v) →
    wp (buf' ← store_at o bs buf; bwrite lba (spc v) buf';; kont buf') (f, d') Q) as Hstore.
  { intros buf d' Ed Hbuf. assert (len (cl v l c) = csize v) as Hcll by (unfold len; rewrite cl_length by done; lia).
    assert (len buf = csize v) as Hbl by (destruct Hbuf as [->|(_ & _ & ?)]; done). assert (inside o (len bs) buf) as Hib by (unfold inside, len in *; lia).
    apply wp_bind, wp_store_at; [done|]. assert (len (patch o bs buf) = csize v) as Hpl by (unfold len in *; by rewrite patch_length).
    apply wp_bind, wp_bwrite; rewrite ?Ed; [done|done|]. rewrite El. intros d2 Ed2. apply HQ; [done|]. rewrite Ed2. destruct Hbuf as [->|(-> & Hf & _)].
    - apply patch_in_slice; [unfold inside, len in *; lia|done|done].
    - rewrite patch_all by (unfold len in *; lia). by rewrite Z.add_0_r. }
  apply wp_bind. destruct (negb (o =? 0) || negb (len bs =? csize v)) eqn:E.
  - apply wp_bind, wp_bread; [done|]. intros d' Ed. apply wp_ret. apply Hstore; [done|]. left. cbn [snd]. by rewrite El.
  - apply wp_ret. apply orb_false_iff in E as [E1%negb_false_iff%Z.eqb_eq E2%negb_false_iff%Z.eqb_eq]. apply Hstore; [done|]. right. done.
Qed.

(** The bytes after several steps: a piece written, the chain grown, the
    rest written behind the piece. *)
Lemma bytes_compose v l l1 l2 l3 ch n1 n2 p b1 b2 : vol_ok v (len l) → chain v l ch →
  extends v l l1 ch [] → bytes_of v l1 ch = patch p b1 (bytes_of v l ch) →
  extends v l1 l2 ch n1 → tables_only v l1 l2 →
  extends v l2 l3 (ch ++ n1) n2 → bytes_of v l3 (ch ++ n1 ++ n2) = patch (p + len b1) b2 (bytes_of v l2 (ch ++ n1 ++ n2)) →
  inside p (len b1) (bytes_of v l ch) → inside p (len b1 + len b2) (bytes_of v l (ch ++ n1 ++ n2)) →
  extends v l l3 ch (n1 ++ n2) ∧ bytes_of v l3 (ch ++ n1 ++ n2) = patch p (b1 ++ b2) (bytes_of v l (ch ++ n1 ++ n2)).
Proof.
  intros Hv Hch E1 B1 E2 T2 E3 B3 I1 I2. assert (extends v l l2 ch n1) as E12.
  { apply (extends_trans v l l1 l2 ch [] n1); [done|by rewrite app_nil_r]. }
  assert (extends v l l3 ch (n1 ++ n2)) as E by by eapply extends_trans. split; [done|].
  assert (Forall (valid v) (ch ++ n1 ++ n2)) as Hval by by eapply chain_valid, E.
  assert (∀ c, c ∈ n1 ++ n2 → valid v c ∧ c ∉ ch) as Hnew.
  { intros c Hc. pose proof (e_new _ _ _ _ _ E) as Hn. rewrite Forall_forall in Hn. destruct (Hn c Hc) as [Hcv Hz]. split; [done|]. by apply (free_not_in v l). }
  assert (bytes_of v l2 (ch ++ n1 ++ n2) = patch p b1 (bytes_of v l (ch ++ n1 ++ n2))) as Hb.
  { rewrite (bytes_of_tables v l1); [|by rewrite (extends_len _ _ _ _ _ E1)|done|done]. rewrite !(bytes_of_app v _ ch (n1 ++ n2)). rewrite B1, patch_app_l by done. f_equal. apply bytes_of_ext. intros y Hy. destruct (Hnew y Hy). by apply (e_cl _ _ _ _ _ E1); [| |apply not_elem_of_nil]. }
  rewrite B3, Hb. by apply patch_behind.
Qed.

Lemma fat_write_loop_spec fuel : ∀ f d ch k c offset buffer cbuf bw (Q : Z → state → Prop), let v := current_vol f in let l := content d in
  vol_ok v (len l) → chain v l ch → ch !! k = Some c → 0 ≤ offset → offset + len buffer < 2 ^ 63 → 0 ≤ bw < len buffer →
  Z.of_nat k = (offset + bw) / csize v → (offset + bw) mod csize v + (len buffer - bw) ≤ Z.of_nat fuel * csize v → len cbuf = csize v →
  (offset + len buffer - 1) / csize v < len ch + nfree v l →
  (∀ f' d' new, moved f f' → extends v l (content d') ch new →
     bytes_of v (content d') (ch ++ new) = patch (offset + bw) (slice bw (len buffer - bw) buffer) (bytes_of v l (ch ++ new)) →
     len (ch ++ new) = Z.max (len ch) ((offset + len buffer - 1) / csize v + 1) → Q (len buffer) (f', d')) →
  wp (write_loop fuel c offset (csize v) buffer cbuf bw) (f, d) Q.
Proof.
  induction fuel as [|fuel IH]; intros f d ch k c offset buffer cbuf bw Q v l Hv Hch Hk Ho Hmax Hbw Hkk Hf Hcb Hroom HQ; pose proof (csize_pos v _ Hv) as Hcs.
  { pose proof (Z.mod_pos_bound (offset + bw) (csize v)). lia. }
  cbn [write_loop]. rewrite (proj2 (Z.ltb_lt bw (len buffer))) by lia. cbv zeta. rewrite wrap_small by lia. set (o := (offset + bw) mod csize v) in *.
  pose proof (Z.mod_pos_bound (offset + bw) (csize v) ltac:(lia)) as Hom. fold o in Hom. pose proof (Z.div_mod (offset + bw) (csize v) ltac:(lia)) as Hdm. fold o in Hdm. rewrite <-Hkk in Hdm.
  set (chunk := if len buffer - bw <? csize v - o then len buffer - bw else csize v - o).
  assert (0 < chunk ≤ len buffer - bw ∧ chunk ≤ csize v - o) as [Hch1 Hch2] by (unfold chunk; destruct (Z.ltb_spec (len buffer - bw) (csize v - o)); lia).
  set (piece := slice bw chunk buffer). assert (inside bw chunk buffer) as Hinb by (unfold inside, len in *; lia).
  assert (len piece = chunk) as Hlp by (unfold len, piece; rewrite slice_size by done; lia). replace (chunk =? csize v) with (len piece =? csize v) by by rewrite Hlp.
  apply (write_cluster f d ch k c o piece cbuf); fold v l; try done; [lia|lia|]. intros d1 cbuf1 Hcb1 Ed1.
  destruct (cluster_written v l ch k c o piece Hv Hch Hk) as [E1 B1]; [lia|lia|]. cbv zeta in E1, B1. rewrite <-Ed1 in E1, B1. rewrite <-Hdm in B1.
  pose proof (extends_len _ _ _ _ _ E1) as El1. pose proof (e_free _ _ _ _ _ E1) as Hf1. pose proof (e_chain _ _ _ _ _ E1) as Hch'. rewrite app_nil_r in Hch'.
  pose proof (lookup_lt_Some _ _ _ Hk) as Hlt. assert (len (bytes_of v l ch) = csize v * Z.of_nat (length ch)) as Hbl by (apply bytes_of_length; [done|by eapply chain_valid]).
  assert (inside (offset + bw) (len piece) (bytes_of v l ch)) as I1.
  { unfold inside. split_and!; [lia|lia|]. fold (len (bytes_of v l ch)). rewrite Hbl, Hdm, Hlp. assert (csize v * (Z.of_nat k + 1) ≤ csize v * Z.of_nat (length ch)) by nia. lia. }
  set (K := (offset + len buffer - 1) / csize v) in *. destruct (Z.ltb_spec (bw + chunk) (len buffer)) as [Hmore|Hlast].
  - assert (chunk = csize v - o) as Hfull by (unfold chunk in *; destruct (Z.ltb_spec (len buffer - bw) (csize v - o)); lia).
    assert ((offset + (bw + chunk)) = csize v * (Z.of_nat k + 1)) as Hnext by lia.
    assert (Z.of_nat k + 1 ≤ K) as HkK. { unfold K. apply Z.div_le_lower_bound; lia. }
    apply wp_bind, (next_or_new_spec f d1 ch k c); fold v; rewrite ?El1; try done; [unfold len in *; simpl in *; lia|]. intros c' f2 d2 n1 M2 E2 T2 K2 L2. pose proof M2 as [M2v M2h]. fold v in M2v.
    pose proof (extends_len _ _ _ _ _ E2) as El2. pose proof (e_free _ _ _ _ _ E2) as Hf2. rewrite <-M2v.
    apply (IH f2 d2 (ch ++ n1) (S k) c'); rewrite ?M2v, ?El2, ?El1; try done; try lia; [apply E2| | | |].
    + rewrite Hnext, Z.mul_comm, Z.div_mul by lia. lia.
    + rewrite Hnext, Z.mul_comm, Z.mod_mul by lia. lia.
    + fold K. unfold len in *. simpl in *. rewrite length_app. lia.
    + fold K. intros f3 d3 n2 M3 E3 B3 L3. rewrite <-app_assoc in B3, L3.
      assert (slice bw (len buffer - bw) buffer = piece ++ slice (bw + chunk) (len buffer - (bw + chunk)) buffer) as Hsp.
      { unfold piece. apply list_eq. intros i. assert (length (slice bw chunk buffer) = Z.to_nat chunk) as Hsl by by apply slice_size.
        destruct (decide (Z.of_nat i < chunk)); [rewrite lookup_app_l by lia|rewrite lookup_app_r by lia]; rewrite !slice_lookup by lia.
        - by rewrite !decide_True by lia.
        - rewrite Hsl. case_decide; [rewrite decide_True by lia; f_equal; lia|by rewrite decide_False by lia]. }
      destruct (bytes_compose v l (content d1) (content d2) (content d3) ch n1 n2 (offset + bw) piece (slice (bw + chunk) (len buffer - (bw + chunk)) buffer)) as [E B]; try done.
      { rewrite B3. f_equal. lia. }
      { assert (Forall (valid v) (ch ++ n1 ++ n2)) as Hval by (rewrite app_assoc; eapply chain_valid, E3).
        assert (len (slice (bw + chunk) (len buffer - (bw + chunk)) buffer) = len buffer - (bw + chunk)) as Hl2.
        { unfold len at 1. rewrite slice_size by (unfold inside, len in *; lia). lia. }
        unfold inside. split_and!; [lia|lia|]. fold (len (bytes_of v l (ch ++ n1 ++ n2))). rewrite bytes_of_length by done. fold (len (ch ++ n1 ++ n2)). rewrite L3, Hlp, Hl2.
        pose proof (Z.div_mod (offset + len buffer - 1) (csize v) ltac:(lia)) as Hd2. pose proof (Z.mod_pos_bound (offset + len buffer - 1) (csize v) ltac:(lia)).
        fold K in Hd2. assert (csize v * (K + 1) ≤ csize v * Z.max (len (ch ++ n1)) (K + 1)) by nia. lia. }
      apply (HQ f3 d3 (n1 ++ n2)); [by eapply moved_trans|done|by rewrite Hsp|]. rewrite L3. unfold len in *. lia.
  - assert (chunk = len buffer - bw) as Hall by lia. assert (K = Z.of_nat k) as HK.
    { unfold K. symmetry. apply (Z.div_unique _ _ _ (offset + len buffer - 1 - csize v * Z.of_nat k)); lia. }
    apply wp_ret. replace (bw + chunk) with (len buffer) by lia. apply (HQ f d1 []); [done|done|rewrite app_nil_r; unfold piece in B1; by rewrite Hall in B1|]. rewrite app_nil_r. unfold len. lia.
Qed.

End Write.
End Fat32Write.
