(* ===== verification/Fat32Dir.v ===== *)
(** * Directories of a FAT32 volume

    Looking up a name in the clusters of a directory, as a function of their
    bytes, and the change [fat32_update_dir_entry] makes to them. *)
From S2P Require Import Prelude Block Fat32 Fat32Spec Fat32Files Fat32Write.

Module Fat32Dir.
Import Fat32 Fat32Spec Fat32Files Fat32Write.

Implicit Types (v : fat32_volume) (l e acc name : list Z) (c : Z) (f : fat) (ch new : list Z) (es : list (list Z)).

(** Entries of a cluster of [n] bytes. *)
Definition entries_of v (buf : list Z) : list (list Z) := entries (csize v / sizeof_dir_entry) buf.

(** The two scans over the clusters of a directory; [None] when a name runs
    past the accumulator. *)
Fixpoint dir_find v name (bufs : list (list Z)) acc : option (option (list Z)) :=
  match bufs with
  | [] => Some None
  | b :: bufs' =>
      match find_scan name (entries_of v b) acc with
      | None => None
      | Some (Found e _) => Some (Some e)
      | Some EndOfDir => Some None
      | Some (More acc' _) => dir_find v name bufs' acc'
      end
  end.

Fixpoint dir_update v name (bufs : list (list Z)) acc : option (option (nat * Z)) :=
  match bufs with
  | [] => Some None
  | b :: bufs' =>
      match update_scan name (entries_of v b) 0 acc with
      | None => None
      | Some (inl i) => Some (Some (0%nat, i))
      | Some (inr acc') => match dir_update v name bufs' acc' with Some (Some (j, i)) => Some (Some (S j, i)) | r => r end
      end
  end.

Lemma dir_update_cons v name b bufs acc : dir_update v name (b :: bufs) acc =
  match update_scan name (entries_of v b) 0 acc with
  | None => None
  | Some (inl i) => Some (Some (0%nat, i))
  | Some (inr acc') => match dir_update v name bufs acc' with Some (Some (j, i)) => Some (Some (S j, i)) | r => r end
  end.
Proof. done. Qed.

(** ** Entries *)

Lemma entries_lookup n buf i : (i < Z.to_nat n)%nat → entries n buf !! i = Some (entry_at (Z.of_nat i) buf).
Proof. intros Hi. unfold entries. rewrite list_lookup_fmap, lookup_seq_lt by done. done. Qed.

Lemma entries_length n buf : length (entries n buf) = Z.to_nat n.
Proof. unfold entries. by rewrite length_fmap, length_seq. Qed.

(** A cluster with one entry replaced. *)
Lemma entries_patch n buf i e : len buf = 32 * n → 0 ≤ i < n → len e = 32 → entries n (patch (32 * i) e buf) = <[Z.to_nat i := e]> (entries n buf).
Proof.
  intros Hb Hi He. assert (inside (32 * i) (len e) buf) as Hin by (unfold inside, len in *; lia). apply list_eq. intros j.
  destruct (decide (j < Z.to_nat n)%nat) as [Hj|Hj].
  - rewrite entries_lookup by done. destruct (decide (j = Z.to_nat i)) as [->|Hne].
    + rewrite list_lookup_insert_eq by by rewrite entries_length. f_equal. unfold entry_at, sizeof_dir_entry. rewrite Z2Nat.id by lia. pose proof (slice_patch_eq (32 * i) e buf Hin) as Es. by rewrite He in Es.
    + rewrite list_lookup_insert_ne, entries_lookup by done. f_equal. apply slice_patch_out; [done|unfold sizeof_dir_entry; lia|unfold sizeof_dir_entry in *; lia].
  - rewrite !lookup_ge_None_2; [done|rewrite length_insert, entries_length; lia|rewrite entries_length; lia].
Qed.

(** What a scan looks at in an entry. *)
Definition same_head e e' : Prop := slice 0 14 e' = slice 0 14 e.

Lemma head_slice e e' o n : same_head e e' → 0 ≤ o → o + n ≤ 14 → slice o n e' = slice o n e.
Proof. intros He Ho Hn. pose proof (slice_slice o n 0 14 e Ho ltac:(lia) Hn) as E1. pose proof (slice_slice o n 0 14 e' Ho ltac:(lia) Hn) as E2. rewrite He in E2. rewrite Z.add_0_l in E1, E2. congruence. Qed.

Lemma head_name e e' acc : same_head e e' → entry_name acc e' = entry_name acc e ∧ get8 0 e' = get8 0 e ∧ get8 11 e' = get8 11 e.
Proof.
  intros He. unfold entry_name, fat32_format_short_name, get8. rewrite !(head_slice e e') by (done || lia). done.
Qed.

(** An entry that is found is found again after its fields have changed, and
    the two scans agree on where it is. *)
Lemma find_scan_index name es : ∀ acc i0 e nm, find_scan name es acc = Some (Found e nm) → ∃ i : nat, es !! i = Some e ∧ nm = name ∧
  update_scan name es i0 acc = Some (inl (i0 + Z.of_nat i)) ∧ ∀ e', same_head e e' → find_scan name (<[i := e']> es) acc = Some (Found e' nm).
Proof.
  induction es as [|e0 es IH]; intros acc i0 e nm; cbn [find_scan update_scan]; [done|]. destruct (get8 0 e0 =? 0) eqn:E0; [done|].
  destruct (get8 0 e0 =? 0xE5) eqn:E1.
  { intros Hf. destruct (IH _ (i0 + 1) _ _ Hf) as (i & H1 & H2 & H3 & H4). exists (S i). split_and!; [done|done|rewrite H3; do 2 f_equal; lia|].
    intros e' He. cbn [insert list_insert find_scan]. rewrite E0, E1. by apply H4. }
  destruct (get8 11 e0 =? FAT32_ATTR_LONG_NAME) eqn:E2.
  { intros Hf. destruct (IH _ (i0 + 1) _ _ Hf) as (i & H1 & H2 & H3 & H4). exists (S i). split_and!; [done|done|rewrite H3; do 2 f_equal; lia|].
    intros e' He. cbn [insert list_insert find_scan]. rewrite E0, E1, E2. by apply H4. }
  destruct (entry_name acc e0) as [nm0|] eqn:E3; [|done]. destruct (bool_decide (nm0 = name)) eqn:E4.
  - intros [= <- <-]. exists 0%nat. apply bool_decide_eq_true in E4 as E5. split_and!; [done|done|do 2 f_equal; lia|]. intros e' He. cbn [insert list_insert find_scan].
    destruct (head_name e0 e' acc He) as (N1 & N2 & N3). by rewrite N2, N3, E0, E1, E2, N1, E3, E4.
  - intros Hf. destruct (IH _ (i0 + 1) _ _ Hf) as (i & H1 & H2 & H3 & H4). exists (S i). split_and!; [done|done|rewrite H3; do 2 f_equal; lia|].
    intros e' He. cbn [insert list_insert find_scan]. rewrite E0, E1, E2, E3, E4. by apply H4.
Qed.

Lemma find_scan_more name es : ∀ acc i0 acc' n, find_scan name es acc = Some (More acc' n) → update_scan name es i0 acc = Some (inr acc').
Proof.
  induction es as [|e0 es IH]; intros acc i0 acc' n; cbn [find_scan update_scan]; [by intros [= <- <-]|]. destruct (get8 0 e0 =? 0); [done|].
  destruct (get8 0 e0 =? 0xE5); [apply IH|]. destruct (get8 11 e0 =? FAT32_ATTR_LONG_NAME); [apply IH|]. destruct (entry_name acc e0); [|done].
  destruct (bool_decide _); [done|apply IH].
Qed.

Lemma update_scan_bound name es : ∀ i0 acc i, update_scan name es i0 acc = Some (inl i) → i0 ≤ i < i0 + Z.of_nat (length es).
Proof.
  induction es as [|e0 es IH]; intros i0 acc i; cbn [update_scan length]; [done|]. destruct (get8 0 e0 =? 0); [done|].
  destruct (get8 0 e0 =? 0xE5); [intros H%IH; lia|]. destruct (get8 11 e0 =? FAT32_ATTR_LONG_NAME); [intros H%IH; lia|]. destruct (entry_name acc e0); [|done].
  destruct (bool_decide _); [intros [= <-]; lia|intros H%IH; lia].
Qed.

Lemma epc_size v : csize v / sizeof_dir_entry = 16 * spc v ∧ csize v = 32 * (csize v / sizeof_dir_entry).
Proof. unfold csize, sizeof_dir_entry. replace (512 * spc v) with (16 * spc v * 32) by lia. rewrite Z.div_mul by lia. lia. Qed.

Lemma dir_find_cons v name b bufs acc : dir_find v name (b :: bufs) acc =
  match find_scan name (entries_of v b) acc with
  | None => None
  | Some (Found e _) => Some (Some e)
  | Some EndOfDir => Some None
  | Some (More acc' _) => dir_find v name bufs acc'
  end.
Proof. done. Qed.

(** An entry that is found can be changed, and is then found with its new
    fields. *)
Lemma dir_find_update v name bufs : 0 < spc v → Forall (λ b, len b = csize v) bufs → ∀ acc e, dir_find v name bufs acc = Some (Some e) →
  ∃ j i buf, bufs !! j = Some buf ∧ dir_update v name bufs acc = Some (Some (j, i)) ∧ entry_at i buf = e ∧ 0 ≤ i < csize v / sizeof_dir_entry ∧
  ∀ e', same_head e e' → len e' = 32 → dir_find v name (<[j := patch (32 * i) e' buf]> bufs) acc = Some (Some e').
Proof.
  intros Hspc. destruct (epc_size v) as [Hepc Hs]. induction 1 as [|b bufs Hb _ IH]; intros acc e; [done|]. rewrite dir_find_cons, dir_update_cons.
  destruct (find_scan name (entries_of v b) acc) as [[e1 nm| |acc' k]|] eqn:Es; try done.
  - intros [= ->]. destruct (find_scan_index _ _ _ 0 _ _ Es) as (i & H1 & H2 & H3 & H4). pose proof (lookup_lt_Some _ _ _ H1) as Hlt. unfold entries_of in Hlt. rewrite entries_length in Hlt.
    exists 0%nat, (Z.of_nat i), b. rewrite H3. unfold entries_of in H1. rewrite entries_lookup in H1 by done. injection H1 as H1. split_and!; try done; try lia.
    intros e' He Hl. cbn [insert list_insert]. rewrite dir_find_cons. unfold entries_of. rewrite entries_patch by lia. rewrite Nat2Z.id. fold (entries_of v b). by rewrite H4.
  - intros Hf. rewrite (find_scan_more _ _ _ 0 _ _ Es). destruct (IH _ _ Hf) as (j & i & buf & H1 & H2 & H3 & H4 & H5). rewrite H2. exists (S j), i, buf.
    split_and!; try done; try lia. intros e' He Hl. cbn [insert list_insert]. rewrite dir_find_cons, Es. by apply H5.
Qed.

(** ** The fields of an updated entry *)

Ltac explode e := do 32 (destruct e as [|? e]; [simpl in *; lia|]); destruct e as [|? e]; [|simpl in *; lia].

Lemma update_entry_length fc sz e : length e = 32%nat → length (update_entry fc sz e) = 32%nat.
Proof. intros He. explode e. reflexivity. Qed.

Lemma update_entry_head fc sz e : length e = 32%nat → same_head e (update_entry fc sz e).
Proof. intros He. explode e. reflexivity. Qed.

Lemma update_entry_fields fc sz e : length e = 32%nat → slice 20 2 (update_entry fc sz e) = le_bytes 2 (Z.land (Z.shiftr fc 16) 0xFFFF) ∧
  slice 26 2 (update_entry fc sz e) = le_bytes 2 (Z.land fc 0xFFFF) ∧ slice 28 4 (update_entry fc sz e) = le_bytes 4 sz.
Proof. intros He. explode e. split_and!; reflexivity. Qed.

(** The two halves of a cluster number. *)
Lemma halves c : 0 ≤ c < 2 ^ 32 →
  Z.lor (Z.shiftl (Z.land (Z.shiftr c 16) 0xFFFF mod 2 ^ 16) 16) (Z.land c 0xFFFF mod 2 ^ 16) = c.
Proof.
  intros Hc. change 0xFFFF with (Z.ones 16). rewrite !Z.land_ones by lia. rewrite !Z.mod_mod by lia. rewrite Z.shiftr_div_pow2 by lia.
  rewrite (Z.mod_small (c / 2 ^ 16)) by (split; [apply Z.div_pos; lia|apply Z.div_lt_upper_bound; lia]).
  rewrite <-Z.land_ones, <-Z.shiftr_div_pow2 by lia. apply Z.bits_inj'. intros i Hi. rewrite Z.lor_spec, Z.land_spec, Z.testbit_ones by lia.
  destruct (Z.ltb_spec i 16).
  - rewrite Z.shiftl_spec_low by lia. rewrite (proj2 (Z.leb_le 0 i)) by lia. cbn. by rewrite andb_true_r.
  - rewrite Z.shiftl_spec, Z.shiftr_spec by lia. rewrite !andb_false_r, orb_false_r. f_equal. lia.
Qed.

Lemma update_entry_values fc sz e : length e = 32%nat → 0 ≤ fc < 2 ^ 32 → 0 ≤ sz < 2 ^ 32 →
  first_cluster (update_entry fc sz e) = fc ∧ get32 28 (update_entry fc sz e) = sz.
Proof.
  intros He Hfc Hsz. destruct (update_entry_fields fc sz e He) as (F1 & F2 & F3). unfold first_cluster, get16, get32. rewrite F1, F2, F3, !le_val_bytes.
  split; [by apply halves|]. by apply Z.mod_small.
Qed.

(** ** The loops over the clusters *)

Lemma chain_short v l ch : vol_ok v (len l) → chain v l ch → Z.of_nat (length ch) ≤ clusters v.
Proof.
  intros Hv Hch. assert (ch ⊆+ seqZ 2 (clusters v)) as Hsub.
  { apply NoDup_submseteq; [by apply (chain_NoDup v l)|]. intros c Hc. apply chain_valid in Hch. rewrite Forall_forall in Hch. destruct (Hch c Hc). apply elem_of_seqZ. lia. }
  apply submseteq_length in Hsub. rewrite length_seqZ in Hsub. destruct Hv. lia.
Qed.

Section Loops.
  Context {D : Type} `{BlockLaws D}.
  Implicit Types (d : D).

Lemma wp_dir_cluster {A} f d c (k : Z → Z → Z → Z * list Z → M state A) (Q : A → state → Prop) : let v := current_vol f in
  vol_ok v (len (content d)) → valid v c →
  (∀ lba d', 512 * lba = data_at v c → content d' = content d → wp (k lba (spc v) (csize v) (0, cl v (content d) c)) (f, d') Q) →
  wp (lba ← fat32_cluster_to_lba c; n ← vol v_sectors_per_cluster; cs ← cluster_size; r ← bread lba n; k lba n cs r) (f, d) Q.
Proof.
  intros v Hv Hc HQ. apply wp_bind, wp_cluster_lba; [done|done|]. intros lba El. apply wp_bind, wp_vol. apply wp_bind, wp_cluster_size; [done|]. fold v in El |- *.
  destruct (data_behind _ _ _ Hv Hc) as (?&?&?). pose proof (csize_pos _ _ Hv). apply wp_bind, wp_bread.
  - rewrite El. fold (csize v). unfold inside, len in *. lia.
  - intros d' Ed. specialize (HQ lba d' El Ed). unfold cl, csize in HQ. by rewrite <-El in HQ.
Qed.

Lemma in_chain_valid v size c : vol_ok v size → valid v c → in_chain c = true.
Proof. intros [] []. unfold in_chain. rewrite andb_true_iff, Z.leb_le, Z.ltb_lt. lia. Qed.

Lemma in_chain_end c : EOC_MIN ≤ c → in_chain c = false.
Proof. intros Hc. unfold in_chain. rewrite (proj2 (Z.ltb_ge c EOC_MIN)) by done. apply andb_false_r. Qed.

Lemma finddir_loop_spec f name rest : ∀ c fuel acc d (Q : option (list Z * list Z) → state → Prop) r, let v := current_vol f in let l := content d in
  vol_ok v (len l) → chain v l (c :: rest) → (S (length rest) < fuel)%nat → dir_find v name (cl v l <$> (c :: rest)) acc = Some r →
  (∀ d', content d' = l → Q ((λ e, (e, name)) <$> r) (f, d')) → wp (finddir_loop fuel c name acc) (f, d) Q.
Proof.
  induction rest as [|c' rest IH]; intros c fuel acc d Q r v l Hv Hch Hf Hr HQ; (destruct fuel as [|fuel]; [simpl in Hf; lia|]); pose proof Hch as [Hcv Hn];
    cbn [finddir_loop]; rewrite (in_chain_valid v _ c Hv Hcv); cbn [negb];
    (apply (wp_dir_cluster f d c (λ lba n cs r0, match find_scan name (entries (cs / sizeof_dir_entry) r0.2) acc with
      | None => fault | Some (Found e nm) => mret (Some (e, nm)) | Some EndOfDir => mret None
      | Some (More acc' _) => next ← next_of c; finddir_loop fuel next name acc' end)); [done|done|]); fold v l; intros lba d1 _ Ed1; cbn [snd];
    rewrite !fmap_cons in Hr; cbn [dir_find] in Hr; fold (entries_of v (cl v l c));
    destruct (find_scan name (entries_of v (cl v l c)) acc) as [[e nm| |acc' k]|] eqn:Es; try done;
    try (injection Hr as <-; destruct (find_scan_index _ _ _ 0 _ _ Es) as (? & _ & -> & _); by apply wp_ret, (HQ d1));
    try (injection Hr as <-; by apply wp_ret, (HQ d1)); (apply wp_bind, next_of_spec; [by rewrite Ed1|done|]); fold v; rewrite Ed1; fold l; intros d2 Ed2.
  - cbn in Hr. injection Hr as <-. destruct fuel as [|fuel]; [simpl in Hf; lia|]. cbn [finddir_loop]. rewrite in_chain_end by done. by apply wp_ret, (HQ d2).
  - destruct Hn as [-> Hch']. apply (IH c' fuel acc' d2 Q r); fold v; rewrite ?Ed2; try done. cbn [length] in Hf. lia.
Qed.

(** The place of an entry on the disk. *)
Definition entry_pos v ch (j : nat) (i : Z) : Z := data_at v (ch !!! j) + 32 * i.

Lemma entry_length v l c i : vol_ok v (len l) → valid v c → 0 ≤ i < csize v / sizeof_dir_entry → length (entry_at i (cl v l c)) = 32%nat.
Proof.
  intros Hv Hc Hi. destruct (epc_size v) as [_ Hs]. pose proof (csize_pos _ _ Hv). apply slice_size. unfold inside, sizeof_dir_entry in *. rewrite cl_length by done. lia.
Qed.

(** An entry changed in its cluster, and the cluster written back. *)
Lemma write_entry f d d1 lba c i fc sz (Q : unit → state → Prop) : let v := current_vol f in let l := content d in
  vol_ok v (len l) → valid v c → 512 * lba = data_at v c → content d1 = l → 0 ≤ i < 0 + Z.of_nat (length (entries_of v (cl v l c))) →
  (∀ d', content d' = patch (data_at v c + 32 * i) (update_entry fc sz (entry_at i (cl v l c))) l → Q tt (f, d')) →
  wp (bwrite lba (spc v) (patch (sizeof_dir_entry * i) (update_entry fc sz (entry_at i (cl v l c))) (cl v l c));; mret tt) (f, d1) Q.
Proof.
  intros v l Hv Hc El Ed Hi HQ. unfold entries_of in Hi. rewrite entries_length in Hi. destruct (epc_size v) as [_ Hs]. pose proof (csize_pos _ _ Hv) as Hcs.
  assert (0 ≤ i < csize v / sizeof_dir_entry) as Hi' by lia. pose proof (entry_length v l c i Hv Hc Hi') as Hel. set (e' := update_entry _ _ _).
  assert (length e' = 32%nat) as He' by by apply update_entry_length. destruct (data_behind _ _ _ Hv Hc) as (?&?&?).
  assert (inside (sizeof_dir_entry * i) (len e') (cl v l c)) as Hin by (unfold inside, len, sizeof_dir_entry in *; rewrite He', cl_length by done; lia).
  apply wp_bind, wp_bwrite; rewrite ?Ed.
  - rewrite El. fold (csize v). unfold inside, len in *. lia.
  - unfold len. rewrite patch_length, cl_length by done. fold (csize v). lia.
  - rewrite El. intros d' Ed'. apply wp_ret, HQ. rewrite Ed'. apply patch_in_slice; [unfold inside, len in *; lia|unfold sizeof_dir_entry; lia|].
    fold e'. unfold len, sizeof_dir_entry in *. lia.
Qed.

Lemma update_loop_spec f name fc sz rest : ∀ c fuel acc d (Q : unit → state → Prop) r, let v := current_vol f in let l := content d in
  vol_ok v (len l) → chain v l (c :: rest) → (S (length rest) < fuel)%nat → dir_update v name (cl v l <$> (c :: rest)) acc = Some r →
  (∀ d', content d' = match r with
     | Some (j, i) => patch (entry_pos v (c :: rest) j i) (update_entry fc sz (entry_at i (cl v l ((c :: rest) !!! j)))) l
     | None => l end → Q tt (f, d')) → wp (update_loop fuel c name fc sz acc) (f, d) Q.
Proof.
  induction rest as [|c' rest IH]; intros c fuel acc d Q r v l Hv Hch Hf Hr HQ; (destruct fuel as [|fuel]; [simpl in Hf; lia|]); pose proof Hch as [Hcv Hn];
    cbn [update_loop]; rewrite (in_chain_valid v _ c Hv Hcv); cbn [negb];
    (apply (wp_dir_cluster f d c (λ lba n cs r0, match update_scan name (entries (cs / sizeof_dir_entry) r0.2) 0 acc with
      | None => fault
      | Some (inl i) => bwrite lba n (patch (sizeof_dir_entry * i) (update_entry fc sz (entry_at i r0.2)) r0.2);; mret tt
      | Some (inr acc') => next ← next_of c; update_loop fuel next name fc sz acc' end)); [done|done|]); fold v l; intros lba d1 El Ed1; cbn [snd];
    rewrite !fmap_cons, dir_update_cons in Hr; fold (entries_of v (cl v l c));
    destruct (update_scan name (entries_of v (cl v l c)) 0 acc) as [[i|acc']|] eqn:Es; try done.
  - injection Hr as <-. eapply write_entry; [done|done|done|done|by eapply update_scan_bound|]. intros d2 Ed2. by apply (HQ d2).
  - cbn in Hr. injection Hr as <-. apply wp_bind, next_of_spec; [by rewrite Ed1|done|]. fold v. rewrite Ed1. fold l. intros d2 Ed2.
    destruct fuel as [|fuel]; [simpl in Hf; lia|]. cbn [update_loop]. rewrite in_chain_end by done. by apply wp_ret, (HQ d2).
  - injection Hr as <-. eapply write_entry; [done|done|done|done|by eapply update_scan_bound|]. intros d2 Ed2. by apply (HQ d2).
  - apply wp_bind, next_of_spec; [by rewrite Ed1|done|]. fold v. rewrite Ed1. fold l. intros d2 Ed2. destruct Hn as [-> Hch'].
    destruct (dir_update v name (cl v l c' :: (cl v l <$> rest)) acc') as [r'|] eqn:Er; [|done].
    apply (IH c' fuel acc' d2 Q r'); fold v; rewrite ?Ed2; try done; [cbn [length] in Hf; lia|]. intros d3 Ed3. apply (HQ d3).
    destruct r' as [[j i]|]; injection Hr as <-; done.
Qed.

Lemma wp_chain_fuel f d (Q : nat → state → Prop) : Q (Z.to_nat (clusters (current_vol f) + 4)) (f, d) → wp chain_fuel (f, d) Q.
Proof. intros HQ. by apply wp_vol. Qed.

(** The disk after [fat32_update_dir_entry], by what the scan found. *)
Definition dir_written v l dch (r : option (nat * Z)) fc sz : list Z :=
  match r with
  | Some (j, i) => patch (entry_pos v dch j i) (update_entry fc sz (entry_at i (cl v l (dch !!! j)))) l
  | None => l
  end.

Lemma update_dir_entry_spec f d dch name fc sz r (Q : unit → state → Prop) : let v := current_vol f in let l := content d in
  vol_ok v (len l) → chain v l dch → dir_update v name (cl v l <$> dch) empty_acc = Some r →
  (∀ d', content d' = (if no_memory f then l else dir_written v l dch r fc sz) → Q tt (popped f, d')) →
  wp (fat32_update_dir_entry (dch !!! 0%nat) name fc sz) (f, d) Q.
Proof.
  intros v l Hv Hch Hr HQ. pose proof (chain_short v l dch Hv Hch) as Hlen. destruct dch as [|c rest]; [done|]. apply wp_bind, wp_cluster_size; [done|].
  apply wp_bind, wp_fat_kmalloc; intros Em; rewrite Em in HQ; [by apply wp_ret, HQ|]. intros b _. apply wp_bind, wp_chain_fuel. cbn [popped current_vol]. fold v.
  eapply (update_loop_spec (popped f) name fc sz rest); cbn [popped current_vol]; fold v l; [done|done|cbn [length] in Hlen; lia|done|]. intros d' Ed. by apply HQ.
Qed.

Lemma dir_update_bound v l name dch : ∀ acc j i, vol_ok v (len l) → dir_update v name (cl v l <$> dch) acc = Some (Some (j, i)) →
  (j < length dch)%nat ∧ 0 ≤ i < csize v / sizeof_dir_entry.
Proof.
  induction dch as [|c dch IH]; intros acc j i Hv; [done|]. rewrite fmap_cons, dir_update_cons. pose proof (csize_pos v _ Hv) as Hcs.
  destruct (update_scan name (entries_of v (cl v l c)) 0 acc) as [[i'|acc']|] eqn:Es; [| |done].
  - intros [= <- <-]. apply update_scan_bound in Es. unfold entries_of in Es. rewrite entries_length in Es. cbn [length]. lia.
  - destruct (dir_update v name (cl v l <$> dch) acc') as [[[j' i']|]|] eqn:Er; try done. intros [= <- <-]. destruct (IH _ _ _ Hv Er). cbn [length]. lia.
Qed.

Lemma dir_written_extends v l dch name acc r fc sz : vol_ok v (len l) → chain v l dch → dir_update v name (cl v l <$> dch) acc = Some r →
  extends v l (dir_written v l dch r fc sz) dch [].
Proof.
  intros Hv Hch Hr. destruct r as [[j i]|]; [|by apply extends_refl]. destruct (dir_update_bound v l name dch acc j i Hv Hr) as [Hj Hi].
  destruct (lookup_lt_is_Some_2 dch j Hj) as [c Hc]. unfold dir_written, entry_pos. rewrite (list_lookup_total_correct _ _ _ Hc).
  pose proof (proj1 (Forall_lookup _ _) (chain_valid _ _ _ Hch) j c Hc) as Hcv. destruct (epc_size v) as [_ Hs].
  apply (cluster_written v l dch j c (32 * i)); try done; [lia|]. unfold len. rewrite update_entry_length by by apply entry_length. unfold sizeof_dir_entry in *. lia.
Qed.

End Loops.
End Fat32Dir.
