(* ===== verification/VfsFat.v ===== *)
(** * A FAT32 volume under the virtual file system

    [fat32_finddir] of [fs/fat32.c] on nodes of the virtual file system and
    blocks of the kernel heap: every lookup takes a node from the heap.  The
    directories of a volume are places in the sense of [VfsSpec], so that path
    resolution works on them. *)
From S2P Require Import Prelude Block HeapSpec HeapTheorems Kheap Fat32 Fat32Spec Fat32Files Fat32Write Fat32Dir Vfs VfsSpec.

Module VfsFat.
Import Kheap HeapTheorems Fat32 Fat32Spec Fat32Files Fat32Write Fat32Dir Vfs VfsSpec.

Abbreviation FS_DIRECTORY := Vfs.FS_DIRECTORY.

Section Driver.
  Context {H D : Type} `{KHeapLaws H} `{BlockLaws D}.

(** The address of the table [fat32_fops]; its other operations. *)
  Context (fat32_fops : Z) (rest : file_operations (vfs * (H * (fat * D)))).

Abbreviation state := (vfs * (H * (fat * D)))%type.

Definition on_fat {B} (m : M (fat * D) B) : M state B := lift_r (lift_r m).

Definition pointer (x : Z) : option Z := if x =? 0 then None else Some x.

(** The fields [fat32_finddir] sets in a new node. *)
Definition entry_vnode (e nm : list Z) (dir : Z) : node :=
  mk_node nm (entry_flags e) 0 0 (get32 28 e) (first_cluster e) (Some fat32_fops) (pointer (first_cluster e)) (Some dir) None None.

Definition fat32_finddir (p : Z) (name : list Z) : M state (option Z) :=
  n ← load p;
  if negb (has (n_flags n) FS_DIRECTORY) then mret None else
  cs ← on_fat cluster_size;
  cluster_buf ← heap (Kheap.kmalloc cs);
  if cluster_buf =? 0 then mret None else
  fuel ← on_fat chain_fuel;
  r ← on_fat (finddir_loop fuel (u32 (default 0 (n_ptr n))) name empty_acc);
  match r with
  | None => heap (Kheap.kfree cluster_buf);; mret None
  | Some (e, nm) =>
      vnode ← heap (Kheap.kzalloc sizeof_vfs_node);
      if vnode =? 0 then fault else
      if 128 <=? len nm then fault else
      vset (with_nodes <[vnode := entry_vnode e nm p]>);;
      heap (Kheap.kfree cluster_buf);;
      mret (Some vnode)
  end.

Definition fops (ops : Z) : file_operations state :=
  if ops =? fat32_fops then
    mk_fops (op_read rest) (op_write rest) (op_open rest) (op_close rest) (op_readdir rest) (Some fat32_finddir) (op_create rest)
  else rest.

(** ** The names of a directory *)

(** Names and entries of a cluster; the accumulator with which the scan goes
    on, or [None] at the end of the directory. *)
Fixpoint scan_names (es : list (list Z)) (acc : list Z) : option (list (list Z * list Z) * option (list Z)) :=
  match es with
  | [] => Some ([], Some acc)
  | e :: es' =>
      if get8 0 e =? 0 then Some ([], None) else
      if get8 0 e =? 0xE5 then scan_names es' acc else
      if get8 11 e =? FAT32_ATTR_LONG_NAME then scan_names es' (lfn_accumulate 20 None e acc) else
      nm ← entry_name acc e; '(l, k) ← scan_names es' empty_acc; Some ((nm, e) :: l, k)
  end.

Fixpoint dir_names v (bufs : list (list Z)) (acc : list Z) : option (list (list Z * list Z)) :=
  match bufs with
  | [] => Some []
  | b :: bufs' =>
      '(l, k) ← scan_names (entries_of v b) acc;
      match k with None => Some l | Some acc' => (l ++.) <$> dir_names v bufs' acc' end
  end.

Definition named (name : list Z) (l : list (list Z * list Z)) : option (list Z) := snd <$> head (filter (λ ne, ne.1 = name) l).

Lemma named_cons name nm e l : named name ((nm, e) :: l) = if decide (nm = name) then Some e else named name l.
Proof. unfold named. by case_decide; [rewrite filter_cons_True|rewrite filter_cons_False]. Qed.

Lemma named_app name l1 l2 : named name (l1 ++ l2) = match named name l1 with Some e => Some e | None => named name l2 end.
Proof.
  induction l1 as [|[nm e] l1 IH]; [done|]. cbn [app]. rewrite !named_cons. by destruct (decide (nm = name)).
Qed.

Lemma named_elem name l e : named name l = Some e → (name, e) ∈ l.
Proof.
  induction l as [|[nm e'] l IH]; [done|]. rewrite named_cons. case_decide as E; [intros [= ->]; subst; left|intros Hn; right; auto].
Qed.

Lemma find_scan_names name es : ∀ acc l k, scan_names es acc = Some (l, k) →
  match named name l with
  | Some e => find_scan name es acc = Some (Found e name)
  | None => match k with None => find_scan name es acc = Some EndOfDir | Some acc' => find_scan name es acc = Some (More acc' 0) end
  end.
Proof.
  induction es as [|e es IH]; intros acc l k; cbn [scan_names find_scan]; [by intros [= <- <-]|].
  destruct (get8 0 e =? 0); [by intros [= <- <-]|]. destruct (get8 0 e =? 0xE5); [by apply IH|].
  destruct (get8 11 e =? FAT32_ATTR_LONG_NAME); [by apply IH|]. destruct (entry_name acc e) as [nm|]; [|done]. cbn [mbind option_bind].
  destruct (scan_names es empty_acc) as [[l' k']|] eqn:Es; [|done]. cbn. intros [= <- <-]. rewrite named_cons.
  case_decide as En; [by rewrite bool_decide_true by done; subst|]. rewrite bool_decide_false by done. by apply IH.
Qed.

Lemma dir_find_names v name bufs : ∀ acc l, dir_names v bufs acc = Some l → dir_find v name bufs acc = Some (named name l).
Proof.
  induction bufs as [|b bufs IH]; intros acc l; cbn [dir_names dir_find]; [by intros [= <-]|].
  destruct (scan_names (entries_of v b) acc) as [[l1 k]|] eqn:Es; [|done]. cbn [mbind option_bind]. apply (find_scan_names name) in Es. destruct k as [acc'|].
  - destruct (dir_names v bufs acc') as [l2|] eqn:Ed; [|done]. cbn. intros [= <-]. rewrite named_app.
    destruct (named name l1); rewrite Es; [done|]. by apply IH.
  - intros [= <-]. by destruct (named name l1); rewrite Es.
Qed.

(** ** Places

    A place on a volume is the way to it: first cluster and kind, its
    directory behind it, and so on up to the root. *)
Abbreviation fplace := (list (Z * bool)).

(** [ways c] is the chain of clusters of the directory at [c]. *)
  Context (vol : fat32_volume) (l : list Z) (ways : Z → option (list Z)).

Definition is_dir (e : list Z) : bool := has (get8 11 e) FAT32_ATTR_DIRECTORY.

(** A directory with clusters, or without. *)
Definition dir_at (c : Z) : Prop := is_Some (ways c) ∨ ways c = None ∧ in_chain c = false.

Definition names_at (c : Z) : list (list Z * list Z) :=
  match ways c with Some ch => default [] (dir_names vol (cl vol l <$> ch) empty_acc) | None => [] end.

(** The directories of the volume: chains, names that fit, entries of
    subdirectories that lead to directories again. *)
Record tree_ok : Prop := {
  to_vol : vol_ok vol (len l);
  to_chain c ch : ways c = Some ch → chain vol l ch ∧ head ch = Some c;
  to_names c ch : ways c = Some ch → is_Some (dir_names vol (cl vol l <$> ch) empty_acc);
  to_entry c nm e : (nm, e) ∈ names_at c → len nm < 128 ∧ (is_dir e = true → dir_at (u32 (first_cluster e)));
}.

Definition afind (pl : fplace) (name : list Z) : option fplace :=
  match pl with
  | (c, true) :: _ => (λ e, (u32 (first_cluster e), is_dir e) :: pl) <$> named name (names_at c)
  | _ => None
  end.

Definition aup (pl : fplace) : fplace := match pl with _ :: ((_ :: _) as t) => t | _ => pl end.

Fixpoint stands (v : vfs) (p : Z) (pl : fplace) : Prop :=
  match pl with
  | [] => False
  | (c, b) :: t => ∃ n, nodes v !! p = Some n ∧ u32 (default 0 (n_ptr n)) = c ∧ has (n_flags n) FS_DIRECTORY = b ∧
      has (n_flags n) FS_MOUNTPOINT = false ∧ n_ops n = Some fat32_fops ∧ (b = true → dir_at c) ∧
      match t with [] => n_parent n = None | _ => ∃ q, n_parent n = Some q ∧ stands v q t end
  end.

Definition inv (root : fplace) (O : gmap Z (list Z)) (v : vfs) (x : fat * D) : Prop :=
  current_vol x.1 = vol ∧ content x.2 = l ∧ (∀ p, is_Some (nodes v !! p) → is_Some (O !! p)) ∧
  (∃ r, vfs_root v = Some r ∧ stands v r root) ∧ devfs_root v = None.

Lemma stands_insert v p n q pl : nodes v !! p = None → stands v q pl → stands (with_nodes <[p := n]> v) q pl.
Proof.
  intros Hp. revert q. induction pl as [|[c b] t IH]; intros q; [done|]. cbn [stands]. intros (m & Hm & F1 & F2 & F3 & F4 & F5 & F6). exists m. cbn.
  assert (p ≠ q) by congruence. rewrite lookup_insert_ne by done. split_and!; try done.
  destruct t as [|y t]; [done|]. destruct F6 as (q' & ? & ?). exists q'. split; [done|by apply IH].
Qed.

Lemma wp_on_fat {B} (m : M (fat * D) B) v h x (Q : B → state → Prop) : wp m x (λ b x', Q b (v, (h, x'))) → wp (on_fat m) (v, (h, x)) Q.
Proof. intros Hm. by apply wp_lift_r, wp_lift_r. Qed.

(** The scan finds the entry of the name. *)
Lemma finddir_loop_named f d c name (Q : option (list Z * list Z) → fat * D → Prop) : tree_ok → current_vol f = vol → content d = l → dir_at c →
  (∀ d', content d' = l → Q ((λ e, (e, name)) <$> named name (names_at c)) (f, d')) →
  wp (finddir_loop (Z.to_nat (clusters vol + 4)) c name empty_acc) (f, d) Q.
Proof.
  intros Ht Ef Ed Hc HQ. unfold names_at in HQ. destruct Hc as [[ch Hch]|[Hn Hin]].
  - destruct (to_chain Ht _ _ Hch) as [Hchain Hhd]. destruct (to_names Ht _ _ Hch) as [ns Hns]. rewrite Hch, Hns in HQ. cbn [default] in HQ.
    pose proof (chain_short vol l ch (to_vol Ht) Hchain) as Hlen. destruct ch as [|c' rest']; [done|]. injection Hhd as ->.
    eapply (finddir_loop_spec f name rest' c); rewrite ?Ef, ?Ed; [apply Ht|done|cbn [length] in Hlen; lia|by apply dir_find_names|done].
  - rewrite Hn in HQ. destruct (Z.to_nat (clusters vol + 4)) eqn:E; [pose proof (vo_total _ _ (to_vol Ht)); lia|]. cbn [finddir_loop]. rewrite Hin. by apply wp_ret, (HQ d).
Qed.

Lemma entry_flags_dir e : has (entry_flags e) FS_DIRECTORY = is_dir e ∧ has (entry_flags e) FS_MOUNTPOINT = false.
Proof. unfold entry_flags, is_dir. by destruct (has (get8 11 e) FAT32_ATTR_DIRECTORY). Qed.

(** The node of an entry stands for the place of its name. *)
Lemma entry_stands v p c t name e b : tree_ok → nodes v !! b = None → stands v p ((c, true) :: t) → named name (names_at c) = Some e →
  stands (with_nodes <[b := entry_vnode e name p]> v) b ((u32 (first_cluster e), is_dir e) :: (c, true) :: t).
Proof.
  intros Ht Hb Hp He. destruct (entry_flags_dir e) as [Hd Hm]. destruct (to_entry Ht c name e) as [_ Hdir]; [by apply named_elem|].
  exists (entry_vnode e name p). split; [apply lookup_insert_eq|]. split_and!; try done.
  - cbn. unfold pointer. by destruct (Z.eqb_spec (first_cluster e) 0) as [->|].
  - exists p. split; [done|]. by apply (stands_insert v b _ p ((c, true) :: t)).
Qed.

(** The directories of a volume are places. *)
Lemma fat_places root : tree_ok → places fops afind aup id (Some root) None stands (inv root) (λ _, True).
Proof.
  intros Ht. split.
  - intros O v x p a _ Hs. destruct a as [|[c b] t]; [done|]. pose proof Hs as (n & Hn & _ & _ & Hm & _). split; [by exists n|]. unfold crossed. by rewrite Hn, Hm.
  - intros O v x p a _ Hs. destruct a as [|[c b] t]; [done|]. pose proof Hs as (n & Hn & _ & _ & _ & _ & _ & Hp). unfold up. rewrite Hn.
    destruct t as [|y t]; [by rewrite Hp|]. destruct Hp as (q & -> & Hq). done.
  - intros O v x (_ & _ & _ & (r & -> & Hr) & _). by exists root.
  - intros O v x (_ & _ & _ & _ & ->). done.
  - intros O v x p a n name _ Hs Hn Hl. destruct a as [|[c b] t]; [done|]. destruct Hs as (n' & Hn' & _ & Hd & _ & Ho & _). rewrite Hn in Hn'. injection Hn' as <-.
    destruct Hl as [Hl|Hl]; [by rewrite <-Hd, Hl|]. unfold ops_of in Hl. rewrite Ho in Hl. cbn in Hl. unfold fops in Hl. by rewrite Z.eqb_refl in Hl.
  - intros O C v h [f d] p a n g name Hw Hs Hn Hdir Hf. destruct a as [|[c b] t]; [done|]. pose proof Hs as (n' & Hn' & Hc & Hd & _ & Ho & Hat & _).
    rewrite Hn in Hn'. injection Hn' as <-. rewrite Hdir in Hd. subst b. unfold ops_of in Hf. rewrite Ho in Hf. cbn in Hf. unfold fops in Hf. rewrite Z.eqb_refl in Hf. injection Hf as <-.
    pose proof Hw as ((Ef & Ed & Hown & Hroot & Hdev) & HO & Hk). cbn [fst snd] in *.
    pose proof (vo_spc _ _ (to_vol Ht)) as Hspc. unfold fat32_finddir.
    apply wpf_bind, wpf_wp. eapply wp_node_load; [done|]. rewrite Hdir. cbn [negb]. apply wpf_bind, wpf_wp, wp_on_fat, wp_cluster_size; [rewrite Ef, Ed; apply Ht|]. rewrite Ef.
    apply wpf_bind, wpf_wp, wp_heap. eapply wp_kh_malloc; [done|unfold HeapSpec.size_ok, csize; lia| |].
    { intros h' Hk'. apply wpf_ret. split; [|by right]. exists ∅. by apply (grown_refl stands (inv root) O C (v, (h', (f, d)))). }
    intros b1 l1 h1 Hb1 _ Hk1. pose proof Hb1 as (_ & Hb10 & _ & Hb1C & _). destruct (Z.eqb_spec b1 0); [done|].
    apply wpf_bind, wpf_wp, wp_on_fat, wp_chain_fuel. rewrite Ef. apply wpf_bind, wpf_wp, wp_on_fat. rewrite Hc.
    eapply finddir_loop_named; [done|done|done|by apply Hat|]. intros d' Ed'. destruct (named name (names_at c)) as [e|] eqn:En; cbn [fmap option_fmap option_map].
    2: { apply wpf_bind, wpf_wp, wp_heap. eapply wp_kfree; [done|done|rewrite lookup_insert_eq; by eexists|]. intros h2 Hk2. rewrite delete_insert_id in Hk2 by done.
      apply wpf_ret. split; [|left; cbn [afind]; by rewrite En]. exists ∅. apply (grown_refl stands (inv root) O C (v, (h2, (f, d')))). split_and!; [|done|done].
      by split_and!. }
    apply wpf_bind, wpf_wp, wp_heap. eapply wp_kzalloc; [done|unfold HeapSpec.size_ok, sizeof_vfs_node; lia|intros h2 _; done|].
    intros b2 h2 Hb2 Hk2. pose proof Hb2 as (_ & Hb20 & _ & Hb2C & _). destruct (Z.eqb_spec b2 0); [done|].
    apply lookup_insert_None in Hb2C as [Hb2C Hne]. assert (nodes v !! b2 = None) as Hfresh.
    { destruct (nodes v !! b2) eqn:E; [|done]. destruct (Hown b2) as [y Hy]; [by eexists|]. by rewrite (lookup_weaken _ _ _ _ Hy HO) in Hb2C. }
    destruct (to_entry Ht c name e) as [Hlen _]; [by apply named_elem|]. rewrite (proj2 (Z.leb_gt 128 (len name))) by lia.
    apply wpf_bind, wpf_wp, wp_modify. apply wpf_bind, wpf_wp, wp_heap.
    eapply wp_kfree; [done|done|rewrite lookup_insert_ne, lookup_insert_eq by done; by eexists|]. intros h3 Hk3. rewrite delete_insert_ne, delete_insert_id in Hk3 by done.
    apply wpf_ret. set (z := replicate _ _) in Hk3. split.
    + exists {[b2 := z]}. split; [by apply map_disjoint_singleton_l|]. split; [|intros q a Hq; cbn [fst] in *; by apply stands_insert].
      assert (∀ E : gmap Z (list Z), E !! b2 = None → E ∪ {[b2 := z]} = <[b2 := z]> E) as Hun by (intros E HE; by rewrite insert_union_singleton_r).
      assert (O !! b2 = None) as HOb by by eapply lookup_weaken_None.
      split_and!; [|rewrite !Hun by done; by apply insert_mono|rewrite Hun by done; exact Hk3].
      rewrite Hun by done. cbn [fst snd]. split_and!; [done|done| | |done].
      * intros q. cbn. destruct (decide (q = b2)) as [->|]; [intros _; rewrite lookup_insert_eq; by eexists|]. rewrite !lookup_insert_ne by done. apply Hown.
      * destruct Hroot as (r & Hr & Hrs). exists r. split; [done|by apply stands_insert].
    + cbn [answers afind]. rewrite En. eexists. split; [done|]. by apply entry_stands.
Qed.

End Driver.

(** ** The small volume as the root: [A.TXT] is looked up *)

Definition no_rest : file_operations (vfs * (gmap Z (list Z) * (fat * list Z))) := mk_fops None None None None None None None.

Definition demo_ways (c : Z) : option (list Z) := if c =? 2 then Some [2] else None.
Definition demo_heap : gmap Z (list Z) := {[16 := replicate 200 0]}.
Definition demo_vfs : vfs := mk_vfs {[16 := mk_node [47] FS_DIRECTORY 0 0 0 0 (Some 99) (Some 2) None None None]} ∅ (Some 16) None.
Definition demo_path : list Z := [47; 65; 46; 84; 88; 84].

Lemma demo_tree : tree_ok demo_vol demo_one demo_ways.
Proof.
  assert (∀ c ch, demo_ways c = Some ch → c = 2 ∧ ch = [2]) as Hw by (intros c ch; unfold demo_ways; destruct (Z.eqb_spec c 2); naive_solver).
  split.
  - exact (demo_vol_ok _ demo_one_len).
  - intros c ch [-> ->]%Hw. split; [|done]. split; by vm_compute.
  - intros c ch [-> ->]%Hw. apply (bool_decide_unpack _). by vm_compute.
  - intros c nm e He. assert (names_at demo_vol demo_one demo_ways c = if c =? 2 then [([65; 46; 84; 88; 84], demo_entry)] else []) as E.
    { unfold names_at, demo_ways. destruct (Z.eqb_spec c 2); [by vm_compute|done]. }
    rewrite E in He. destruct (c =? 2); [|by apply elem_of_nil in He]. apply list_elem_of_singleton in He as [= -> ->]. split; [done|]. by vm_compute.
Qed.

Lemma demo_volume_inv : inv 99 demo_vol demo_one demo_ways [(2, true)] demo_heap demo_vfs (demo_fat, demo_one).
Proof.
  split_and!; [done|done| | |done].
  - intros p [n Hn]. cbn [demo_vfs nodes] in Hn. apply lookup_singleton_Some in Hn as [<- _]. by eexists.
  - exists 16. split; [done|]. eexists. split; [apply lookup_singleton_eq|]. split_and!; try done. intros _. left. by exists [2].
Qed.

Definition demo_run := vfs_resolve_path (fops 99 no_rest) (Some demo_path) (demo_vfs, (demo_heap, (demo_fat, demo_one))).

Lemma path_resolution_witness : ∃ q v' h' x', demo_run = Ret (Some q, (v', (h', x'))) ∧ nodes demo_vfs !! q = None ∧
  stands 99 demo_ways v' q [(3, false); (2, true)].
Proof.
  pose proof (path_resolution (fops 99 no_rest) (afind demo_vol demo_one demo_ways) aup id (Some [(2, true)]) None (stands 99 demo_ways)
    (inv 99 demo_vol demo_one demo_ways [(2, true)]) (λ _, True) (fat_places 99 no_rest demo_vol demo_one demo_ways [(2, true)] demo_tree)
    demo_heap demo_heap demo_vfs demo_heap (demo_fat, demo_one) demo_path demo_volume_inv (reflexivity demo_heap) eq_refl ltac:(by vm_compute)) as Hr.
  cbv zeta in Hr. fold demo_run in Hr.
  assert (match demo_run with Ret (Some q, _) => bool_decide (nodes demo_vfs !! q = None) | _ => false end = true) as Hrun by (vm_compute; reflexivity).
  destruct demo_run as [[[q|] [v' [h' x']]]| | |]; [|discriminate Hrun..]. exists q, v', h', x'. split; [reflexivity|]. split; [exact (bool_decide_eq_true_1 _ Hrun)|].
  destruct Hr as [_ (a & Ha & [Hp|[Hv _]])]; [|by apply Exists_nil in Hv].
  assert (place_of (afind demo_vol demo_one demo_ways) aup id (Some [(2, true)]) None demo_path = Some [(3, false); (2, true)]) as Hpl by (vm_compute; reflexivity).
  rewrite Hpl in Hp. injection Hp as <-. exact Ha.
Defined.

End VfsFat.
