(* ===== verification/Fat32Theorems.v ===== *)
(** * Theorems on FAT32 files

    A whole write, from the node to the directory entry. *)
From S2P Require Import Prelude Block Fat32 Fat32Spec Fat32Files Fat32Write Fat32Dir.

Module Fat32Theorems.
Import Fat32 Fat32Spec Fat32Files Fat32Write Fat32Dir.

Implicit Types (v : fat32_volume) (l e acc name : list Z) (c : Z) (f : fat) (ch new dch : list Z) (n : fnode).

(** The clusters of the file of a node: none as long as it is empty. *)
Definition file_of v l n ch : Prop := (ch = [] ∧ u32 (fn_ptr n) = 0) ∨ (chain v l ch ∧ head ch = Some (u32 (fn_ptr n))).

(** The directory of a node, whose names all fit. *)
Record parent_ok v l n dch (r : option (nat * Z)) : Prop := {
  p_chain : chain v l dch;
  p_first : ∃ p, fn_parent n = Some p ∧ head dch = Some (u32 p);
  p_scan : dir_update v (fn_name n) (cl v l <$> dch) empty_acc = Some r;
}.

(** The first cluster of an empty file. *)
Lemma extends_first v l l1 l2 c : vol_ok v (len l) → valid v c → tab v l c = 0 → tab_set v c EOC l l1 → tab_set v c EOC l1 l2 →
  extends v l l2 [] [c] ∧ tables_only v l l2.
Proof.
  intros Hv Hc Hz S1 S2. pose proof S1 as (T1 & E1 & O1). pose proof S2 as (T2 & E2 & O2). assert (tables_only v l l2) as Ht by by eapply tables_only_trans.
  assert (∀ y, valid v y → 0 ≤ y < 128 * v_fat_size_sectors v) as Hve by (intros y Hy; by apply (valid_entry v _ _ Hv)).
  destruct (tables_only_outside v l l2 Hv Ht) as [Hb Ha]. assert (len l1 = len l) as Hl1 by (unfold len; destruct T1 as [-> _]; done). split; [|done]. split; try done.
  - apply Ht.
  - split; [done|]. rewrite E2. unfold EOC, EOC_MIN. lia.
  - by constructor.
  - intros y Hy _ Hn. assert (y ≠ c) by set_solver. by rewrite O2, O1 by auto.
  - rewrite (nfree_take v c EOC l l1) by done. f_equal. symmetry. apply (nfree_kept v c EOC); rewrite ?Hl1; try done. by rewrite E1.
  - intros y Hy _ _. by apply tables_only_cl.
Qed.

Section Files.
  Context {D : Type} `{BlockLaws D}.
  Implicit Types (d : D).

(** The first part of [fat32_write]: a chain to write to. *)
Lemma first_spec f d n ch (Q : Z * fnode → state → Prop) : let v := current_vol f in let l := content d in
  vol_ok v (len l) → file_of v l n ch → 0 < len ch + nfree v l →
  (∀ c f' d' new, moved f f' → extends v l (content d') ch new → tables_only v l (content d') → head (ch ++ new) = Some c → c ≠ 0 → u32 c = c →
     len (ch ++ new) = Z.max (len ch) 1 → Q (c, if u32 (fn_ptr n) =? 0 then set_fptr c n else n) (f', d')) →
  wp (if u32 (fn_ptr n) =? 0 then
        c ← fat32_alloc_cluster; (if c =? 0 then mret () else fat32_set_next_cluster c EOC);; mret (c, if c =? 0 then n else set_fptr c n)
      else mret (u32 (fn_ptr n), n)) (f, d) Q.
Proof.
  intros v l Hv Hfile Hroom HQ. destruct Hfile as [[-> Hz]|[Hch Hhd]].
  - rewrite Hz in *. cbn [Z.eqb]. apply wp_bind, alloc_spec; fold v l; [done|by apply some_free|]. intros c d1 Hc Hzc S1. rewrite (proj2 (Z.eqb_neq c 0)) by (destruct Hc; lia).
    pose proof S1 as ((L1 & _) & _ & _). apply wp_bind, set_next_spec; cbn [current_vol]; [unfold len in *; by rewrite L1|done|done|]. intros d2 S2. apply wp_ret.
    destruct (extends_first v l (content d1) (content d2) c Hv Hc Hzc S1 S2) as [E T]. apply (HQ c _ d2 [c]); try done; [destruct Hc; lia|].
    apply wrap_small. destruct Hc, Hv. unfold EOC_MIN in *. lia.
  - assert (u32 (fn_ptr n) ≠ 0) as Hne.
    { pose proof (chain_valid _ _ _ Hch) as Hval. destruct ch as [|c ch]; [done|]. injection Hhd as <-. apply Forall_cons in Hval as [[? ?] _]. lia. }
    rewrite (proj2 (Z.eqb_neq _ 0)) in * by done. apply wp_ret. apply (HQ (u32 (fn_ptr n)) f d []); rewrite ?app_nil_r; try done; [by apply extends_refl|by apply wrap_wrap|].
    destruct ch as [|c ch]; [done|]. unfold len. cbn [length]. lia.
Qed.

(** A directory, or any chain, that a growing file does not touch. *)
Lemma extends_frame v l l' ch new ch2 : extends v l l' ch new → chain v l ch2 → (∀ c, c ∈ ch2 → c ∉ ch) →
  (∀ c, c ∈ ch2 → c ∉ new) ∧ chain v l' ch2 ∧ (∀ c, c ∈ ch2 → cl v l' c = cl v l c).
Proof.
  intros E Hch Hd. assert (∀ c, c ∈ ch2 → c ∉ new) as Hn.
  { intros c Hc Hnew. pose proof (e_new _ _ _ _ _ E) as Hf. rewrite Forall_forall in Hf. destruct (Hf c Hnew) as [_ Hz]. by apply (chain_used v l ch2 c). }
  pose proof (chain_valid _ _ _ Hch) as Hval. rewrite Forall_forall in Hval. split_and!; [done| |].
  - apply (chain_same v l); [|done]. intros c Hc. apply E; auto.
  - intros c Hc. apply E; auto.
Qed.

Lemma fat32_write_spec f d n ch dch r offset buffer (Q : Z * fnode → state → Prop) : let v := current_vol f in let l := content d in
  vol_ok v (len l) → file_of v l n ch → 0 ≤ fn_length n < 2 ^ 32 → 0 ≤ offset → offset + len buffer < 2 ^ 32 → buffer ≠ [] →
  (offset + len buffer - 1) / csize v < len ch + nfree v l → no_memory f = false → parent_ok v l n dch r → (∀ c, c ∈ dch → c ∉ ch) →
  (∀ f' d' l2 c new, current_vol f' = v → heap_answers f' = tail (tail (heap_answers f)) → extends v l l2 ch new → head (ch ++ new) = Some c → u32 c = c →
     bytes_of v l2 (ch ++ new) = patch offset buffer (bytes_of v l (ch ++ new)) →
     len (ch ++ new) = Z.max (len ch) ((offset + len buffer - 1) / csize v + 1) →
     let n' := set_flength (Z.max (fn_length n) (offset + len buffer)) (if u32 (fn_ptr n) =? 0 then set_fptr c n else n) in
     content d' = (if bool_decide (head (tail (heap_answers f)) = Some None) then l2 else dir_written v l2 dch r c (fn_length n')) → Q (len buffer, n') (f', d')) →
  wp (fat32_write n offset buffer) (f, d) Q.
Proof.
  intros v l Hv Hfile Hlen Ho Hmax Hne Hroom Hmem Hpar Hdis HQ. pose proof (csize_pos v _ Hv) as Hcs.
  assert (0 < len buffer) as Hlb by (destruct buffer; [done|unfold len; simpl; lia]). set (K := (offset + len buffer - 1) / csize v) in *.
  assert (0 ≤ offset / csize v ≤ K) as HK by (split; [by apply Z.div_pos; lia|by apply Z.div_le_mono; lia]).
  unfold fat32_write. apply wp_bind, wp_cluster_size; [done|]. fold v. apply wp_bind, (first_spec f d n ch); fold v l; [done|done|lia|].
  intros c f1 d1 new0 [M1 M1h] E0 T0 Hhd Hc0 Hcu L0. fold v in M1. set (n1 := if u32 (fn_ptr n) =? 0 then set_fptr c n else n) in *. cbv beta iota.
  rewrite (proj2 (Z.eqb_neq c 0)) by done. pose proof (extends_len _ _ _ _ _ E0) as El0. pose proof (e_free _ _ _ _ _ E0) as Hf0. pose proof (e_chain _ _ _ _ _ E0) as Hch0.
  assert (no_memory f1 = false) as Hmem1 by (unfold no_memory in *; by rewrite M1h). apply wp_bind, wp_fat_kmalloc; intros Em; [congruence|]. intros cbuf Hcb. clear Em.
  set (f2 := popped f1) in *. assert (current_vol f2 = v) as M2 by done. assert ((ch ++ new0) !! 0%nat = Some c) as Hk0 by by destruct (ch ++ new0).
  assert (len (ch ++ new0) = len ch + len new0) as Hla by (unfold len; rewrite length_app; lia).
  apply wp_bind. rewrite <-M2.
  apply (seek_start _ f2 d1 (ch ++ new0) c); rewrite ?M2, ?El0; try done; try lia. intros c2 f3 d2 new1 M3 E1 T1 K1 L1. pose proof M3 as [M3v M3h]. rewrite M2 in M3v.
  pose proof (extends_len _ _ _ _ _ E1) as El1. pose proof (e_free _ _ _ _ _ E1) as Hf1. pose proof (e_chain _ _ _ _ _ E1) as Hch1.
  assert (len ((ch ++ new0) ++ new1) = len (ch ++ new0) + len new1) as Hlb1 by (unfold len; rewrite (length_app (ch ++ new0)); lia).
  apply wp_bind. rewrite <-M3v. pose proof (Z.div_mod (len buffer) (csize v) ltac:(lia)) as Hdm. pose proof (Z.mod_pos_bound (len buffer) (csize v) ltac:(lia)) as Hmb.
  apply (fat_write_loop_spec _ f3 d2 ((ch ++ new0) ++ new1) (Z.to_nat (offset / csize v)) c2); rewrite ?M3v, ?El1, ?El0; fold K; try done; try lia.
  { rewrite Z.add_0_r. lia. }
  { rewrite Z.add_0_r. pose proof (Z.mod_pos_bound offset (csize v) ltac:(lia)). pose proof (Z.div_pos (len buffer) (csize v)). nia. }
  { unfold len. rewrite Hcb. lia. }
  intros f4 d3 new2 M4 E2 B2 L2. pose proof M4 as [M4v M4h]. rewrite M3v in M4v. set (new := new0 ++ new1 ++ new2). rewrite Z.add_0_r, Z.sub_0_r, slice_all in B2.
  assert (extends v l (content d2) ch (new0 ++ new1)) as E01 by (eapply extends_trans; [done|done]).
  assert (extends v l (content d3) ch new) as E by (unfold new; rewrite (app_assoc new0); eapply extends_trans; [done|by rewrite app_assoc]).
  assert (((ch ++ new0) ++ new1) ++ new2 = ch ++ new) as Happ by (unfold new; by rewrite <-!app_assoc). rewrite Happ in B2, L2.
  assert (bytes_of v (content d3) (ch ++ new) = patch offset buffer (bytes_of v l (ch ++ new))) as B.
  { rewrite B2. f_equal. apply bytes_of_tables; [done|eapply chain_valid, E|by eapply tables_only_trans]. }
  assert (head (ch ++ new) = Some c) as Hhd' by (unfold new; rewrite app_assoc; destruct (ch ++ new0); [done|]; done).
  assert (fn_length n1 = fn_length n ∧ fn_parent n1 = fn_parent n ∧ fn_name n1 = fn_name n) as (N1 & N2 & N3) by (unfold n1; by destruct (u32 (fn_ptr n) =? 0)).
  rewrite (wrap_small 64) by lia. rewrite N1.
  assert ((if fn_length n <? offset + len buffer then set_flength (offset + len buffer) n1 else n1) = set_flength (Z.max (fn_length n) (offset + len buffer)) n1) as ->.
  { destruct (Z.ltb_spec (fn_length n) (offset + len buffer)); [by rewrite Z.max_r by lia|]. rewrite Z.max_l by lia. rewrite <-N1. by destruct n1. }
  set (n' := set_flength _ n1). destruct Hpar as [Pc (pp & Pp & Ph) Ps]. assert (fn_parent n' = Some pp ∧ fn_name n' = fn_name n) as [-> ->] by (unfold n'; cbn; by rewrite N2, N3).
  destruct (extends_frame v l (content d3) ch new dch E Pc Hdis) as (Hdn & Hdc & Hdcl). assert (u32 pp = dch !!! 0%nat) as -> by (destruct dch; [done|]; by injection Ph as ->).
  assert (cl v (content d3) <$> dch = cl v l <$> dch) as Hbufs by (apply list_fmap_ext; intros i y Hy; apply Hdcl, list_elem_of_lookup; by exists i).
  apply wp_bind. eapply update_dir_entry_spec; rewrite ?M4v, ?(extends_len _ _ _ _ _ E); [done|done|by rewrite Hbufs|]. intros d4 Ed4. apply wp_ret.
  assert (heap_answers f4 = tail (heap_answers f)) as Hh4 by (rewrite M4h, M3h; unfold f2; cbn; by rewrite M1h).
  apply (HQ _ _ (content d3) c new); try done; [by cbn; rewrite Hh4|rewrite L2; unfold len in *; lia|]. fold n1 n'. rewrite Ed4. unfold no_memory. rewrite Hh4.
  assert (u32 (fn_length n') = fn_length n') as ->; [|done]. apply wrap_small. unfold n'. cbn [fn_length set_flength]. lia.
Qed.

(** What a write leaves of the rest of the volume, directory included. *)
Lemma written_frame v l l2 ch new dch r fc sz (nomem : bool) : let l' := if nomem then l2 else dir_written v l2 dch r fc sz in
  vol_ok v (len l) → extends v l l2 ch new → chain v l dch → (∀ c, c ∈ dch → c ∉ ch) → (∃ name, dir_update v name (cl v l <$> dch) empty_acc = Some r) →
  chain v l' (ch ++ new) ∧ bytes_of v l' (ch ++ new) = bytes_of v l2 (ch ++ new) ∧ nfree v l' = nfree v l2 ∧ chain v l' dch ∧
  ∀ ch2, chain v l ch2 → (∀ c, c ∈ ch2 → c ∉ ch ∧ c ∉ dch) → chain v l' ch2 ∧ bytes_of v l' ch2 = bytes_of v l ch2.
Proof.
  intros l' Hv E Hdch Hdis [name Hr]. destruct (extends_frame v l l2 ch new dch E Hdch Hdis) as (Hdn & Hdc & Hdcl).
  assert (cl v l2 <$> dch = cl v l <$> dch) as Hbufs by (apply list_fmap_ext; intros i y Hy; apply Hdcl, list_elem_of_lookup; by exists i).
  assert (extends v l2 l' dch []) as E'.
  { unfold l'. destruct nomem; [by apply extends_refl|]. eapply dir_written_extends; [by rewrite (extends_len _ _ _ _ _ E)|done|by rewrite Hbufs]. }
  pose proof (e_chain _ _ _ _ _ E) as Hfc. assert (∀ c, c ∈ ch ++ new → c ∉ dch) as Hfd.
  { intros c [Hc|Hc]%elem_of_app Hd; [by apply (Hdis c)|by apply (Hdn c)]. }
  destruct (extends_frame v l2 l' dch [] (ch ++ new) E' Hfc Hfd) as (_ & F1 & F2). split_and!.
  - done.
  - by apply bytes_of_ext.
  - pose proof (e_free _ _ _ _ _ E') as Hf. unfold len in Hf. simpl in Hf. lia.
  - pose proof (e_chain _ _ _ _ _ E') as Hc. by rewrite app_nil_r in Hc.
  - intros ch2 Hch2 Hd2. destruct (extends_frame v l l2 ch new ch2 E Hch2) as (_ & G1 & G2); [intros c Hc; by apply Hd2|].
    destruct (extends_frame v l2 l' dch [] ch2 E' G1) as (_ & G3 & G4); [intros c Hc; by apply Hd2|]. split; [done|]. apply bytes_of_ext. intros c Hc. rewrite G4, G2 by done. done.
Qed.

(** C14. A write to a FAT32 file that the disk has room for stores all its
    bytes at the offset, whatever the old bytes there were, lengthens the
    chain of the file by just the clusters it needs, each of them free
    before, and the file to the end of the written range; an empty file gets
    its first cluster.  No other chain of the volume changes, neither its
    clusters nor their bytes, but for the directory of the file. *)
Theorem fat32_write_correct f d n ch dch r offset buffer : let v := current_vol f in let l := content d in
  vol_ok v (len l) → file_of v l n ch → 0 ≤ fn_length n < 2 ^ 32 → 0 ≤ offset → offset + len buffer < 2 ^ 32 → buffer ≠ [] →
  (offset + len buffer - 1) / csize v < len ch + nfree v l → no_memory f = false → parent_ok v l n dch r → (∀ c, c ∈ dch → c ∉ ch) →
  wp (fat32_write n offset buffer) (f, d) (λ '(ret, n') st', let l' := content st'.2 in ret = len buffer ∧ current_vol st'.1 = v ∧ ∃ new,
    file_of v l' n' (ch ++ new) ∧ fn_length n' = Z.max (fn_length n) (offset + len buffer) ∧
    len (ch ++ new) = Z.max (len ch) ((offset + len buffer - 1) / csize v + 1) ∧ Forall (λ c, valid v c ∧ tab v l c = 0) new ∧ nfree v l = nfree v l' + len new ∧
    bytes_of v l' (ch ++ new) = patch offset buffer (bytes_of v l (ch ++ new)) ∧
    ∀ ch2, chain v l ch2 → (∀ c, c ∈ ch2 → c ∉ ch ∧ c ∉ dch) → chain v l' ch2 ∧ bytes_of v l' ch2 = bytes_of v l ch2).
Proof.
  intros v l Hv Hfile Hlen Ho Hmax Hne Hroom Hmem Hpar Hdis. apply (fat32_write_spec f d n ch dch r); try done. fold v l.
  intros f' d' l2 c new M1 M2 E Hhd Hcu B L n' Ed. cbn [fst snd]. split; [done|]. split; [done|]. exists new.
  destruct (written_frame v l l2 ch new dch r c (fn_length n') (bool_decide (head (tail (heap_answers f)) = Some None)) Hv E (p_chain _ _ _ _ _ Hpar) Hdis)
    as (F1 & F2 & F3 & _ & F4); [exists (fn_name n); by apply Hpar|]. rewrite Ed.
  assert (head (ch ++ new) = Some (u32 (fn_ptr n'))) as Hhd'.
  { destruct Hfile as [[-> Hz]|[Hch Hh]]; [unfold n'; rewrite Hz; cbn; by rewrite Hcu|]. destruct ch as [|c0 ch]; [done|]. injection Hhd as ->. injection Hh as Hc0.
    unfold n'. pose proof (chain_valid _ _ _ Hch) as [[? ?] _]%Forall_cons. rewrite (proj2 (Z.eqb_neq (u32 (fn_ptr n)) 0)) by lia. cbn. by rewrite <-Hc0. }
  split_and!; try done; [by right|apply E|by rewrite F3; apply E|by rewrite F2].
Qed.

(** ** Finding a file again *)

(** [kmalloc] always finds memory. *)
Definition memory f : Prop := heap_answers f = [].

Lemma wp_kmalloc_ok size f d (Q : option (list Z) → state → Prop) : memory f → (∀ b, length b = Z.to_nat size → Q (Some b) (f, d)) → wp (kmalloc size) (f, d) Q.
Proof. unfold memory, kmalloc, wp. cbn. intros -> HQ. apply HQ. by rewrite length_replicate. Qed.

Lemma wp_kzalloc_ok size f d (Q : option (list Z) → state → Prop) : memory f → Q (Some (replicate (Z.to_nat size) 0)) (f, d) → wp (kzalloc size) (f, d) Q.
Proof. intros Hm HQ. apply wp_bind, wp_kmalloc_ok; [done|]. intros b _. by apply wp_ret. Qed.

Lemma finddir_spec f d dir name dch r (Q : option fnode → state → Prop) : let v := current_vol f in let l := content d in
  vol_ok v (len l) → memory f → has (fn_flags dir) FS_DIRECTORY = true → chain v l dch → head dch = Some (u32 (fn_ptr dir)) → len name < 128 →
  dir_find v name (cl v l <$> dch) empty_acc = Some r →
  (∀ d', content d' = l → Q ((λ e, entry_node e name (fn_ptr dir)) <$> r) (f, d')) → wp (fat32_finddir dir name) (f, d) Q.
Proof.
  intros v l Hv Hm Hd Hch Hhd Hn Hr HQ. pose proof (chain_short v l dch Hv Hch) as Hlen. destruct dch as [|c rest]; [done|]. injection Hhd as Ec.
  unfold fat32_finddir. rewrite Hd. cbn [negb]. apply wp_bind, wp_cluster_size; [done|]. apply wp_bind, wp_kmalloc_ok; [done|]. intros b _.
  apply wp_bind, wp_chain_fuel. apply wp_bind. rewrite <-Ec. eapply (finddir_loop_spec f name rest c); [done|done|fold v; cbn [length] in Hlen; lia|done|]. intros d' Ed.
  destruct r as [e|]; cbn; [|by apply wp_ret, (HQ d')]. apply wp_bind, wp_kzalloc_ok; [done|]. rewrite (proj2 (Z.leb_gt 128 (len name))) by lia. by apply wp_ret, (HQ d').
Qed.

(** The clusters of a directory after one of its entries has been changed. *)
Lemma dir_written_bufs v l dch j i fc sz c : vol_ok v (len l) → chain v l dch → dch !! j = Some c → 0 ≤ i < csize v / sizeof_dir_entry →
  cl v (dir_written v l dch (Some (j, i)) fc sz) <$> dch = <[j := patch (32 * i) (update_entry fc sz (entry_at i (cl v l c))) (cl v l c)]> (cl v l <$> dch).
Proof.
  intros Hv Hch Hc Hi. pose proof (chain_valid _ _ _ Hch) as Hval. pose proof (proj1 (Forall_lookup _ _) Hval j c Hc) as Hcv.
  destruct (epc_size v) as [_ Hs]. unfold dir_written, entry_pos. rewrite (list_lookup_total_correct _ _ _ Hc). apply bufs_patched; [done|done|done|lia|].
  unfold len. rewrite update_entry_length by by apply entry_length. unfold sizeof_dir_entry in *. lia.
Qed.

(** C15. After a write, looking the file up in its directory finds the name
    with the new length and the first cluster of the chain, also for a file
    that was empty before. *)
Theorem fat32_write_then_find f d n dir ch dch e offset buffer : let v := current_vol f in let l := content d in
  vol_ok v (len l) → file_of v l n ch → 0 ≤ fn_length n < 2 ^ 32 → 0 ≤ offset → offset + len buffer < 2 ^ 32 → buffer ≠ [] →
  (offset + len buffer - 1) / csize v < len ch + nfree v l → memory f → chain v l dch → (∀ c, c ∈ dch → c ∉ ch) →
  has (fn_flags dir) FS_DIRECTORY = true → head dch = Some (u32 (fn_ptr dir)) → fn_parent n = Some (fn_ptr dir) → len (fn_name n) < 128 →
  dir_find v (fn_name n) (cl v l <$> dch) empty_acc = Some (Some e) →
  wp (w ← fat32_write n offset buffer; g ← fat32_finddir dir (fn_name n); mret (w, g)) (f, d) (λ '((ret, n'), g) st', let l' := content st'.2 in ret = len buffer ∧
    ∃ m new, g = Some m ∧ fn_name m = fn_name n ∧ fn_length m = Z.max (fn_length n) (offset + len buffer) ∧ file_of v l' m (ch ++ new) ∧
      bytes_of v l' (ch ++ new) = patch offset buffer (bytes_of v l (ch ++ new))).
Proof.
  intros v l Hv Hfile Hlen Ho Hmax Hne Hroom Hmem Hdch Hdis Hdir Hdh Hpar Hnm Hfind. pose proof (chain_valid _ _ _ Hdch) as Hval.
  destruct (dir_find_update v (fn_name n) (cl v l <$> dch)) with (acc := empty_acc) (e := e) as (j & i & buf & Hj & Hu & He & Hi & Hrep); [by destruct Hv; lia| |done|].
  { apply Forall_fmap. eapply Forall_impl; [exact Hval|]. intros c Hc. cbn. unfold len. rewrite cl_length by done. pose proof (csize_pos v _ Hv). lia. }
  apply list_lookup_fmap_Some in Hj as (cj & -> & Hcj). pose proof (proj1 (Forall_lookup _ _) Hval j cj Hcj) as Hcjv.
  apply wp_bind, (fat32_write_spec f d n ch dch (Some (j, i))); fold v l; try done; [unfold no_memory; by rewrite Hmem|by split; [|exists (fn_ptr dir)|]|].
  intros f' d' l2 c new M1 M2 E Hhd Hcu B L n' Ed. rewrite Hmem in Ed, M2. cbn [tail head] in Ed, M2. rewrite bool_decide_false in Ed by done.
  destruct (written_frame v l l2 ch new dch (Some (j, i)) c (fn_length n') false Hv E Hdch Hdis) as (F1 & F2 & _ & F4 & _); [by exists (fn_name n)|]. rewrite <-Ed in F1, F2, F4.
  destruct (extends_frame v l l2 ch new dch E Hdch Hdis) as (_ & Hdc & Hdcl). pose proof (extends_len _ _ _ _ _ E) as El2.
  assert (cl v l2 <$> dch = cl v l <$> dch) as Hbufs by (apply list_fmap_ext; intros k y Hy; apply Hdcl, list_elem_of_lookup; by exists k).
  assert (len (content d') = len l) as El.
  { rewrite Ed, <-El2. eapply extends_len, dir_written_extends; [by rewrite El2|done|]. by rewrite Hbufs. }
  assert (length e = 32%nat) as Hel by (rewrite <-He; by apply entry_length). set (sz := fn_length n') in *. assert (0 ≤ sz < 2 ^ 32) as Hsz by (unfold sz, n'; cbn; lia).
  assert (0 ≤ c < 2 ^ 32) as Hc32 by (rewrite <-Hcu; by apply wrap_range). destruct (update_entry_values c sz e Hel Hc32 Hsz) as [V1 V2].
  assert (dir_find v (fn_name n) (cl v (content d') <$> dch) empty_acc = Some (Some (update_entry c sz e))) as Hfind'.
  { rewrite Ed, (dir_written_bufs v l2 dch j i c sz cj) by (done || by rewrite El2). rewrite Hbufs, !Hdcl by (apply list_elem_of_lookup; by exists j). rewrite He.
    apply Hrep; [by apply update_entry_head|unfold len; by rewrite update_entry_length]. }
  apply wp_bind. eapply (finddir_spec f' d' dir (fn_name n) dch); rewrite ?M1, ?El; try done. intros d2 Ed2. apply wp_ret. cbn [snd]. rewrite Ed2. split; [done|].
  exists (entry_node (update_entry c sz e) (fn_name n) (fn_ptr dir)), new. split_and!; try done.
      - right. split; [done|]. change (head (ch ++ new) = Some (u32 (first_cluster (update_entry c sz e)))). by rewrite V1, Hcu.
  - by rewrite F2.
Qed.

End Files.

(** ** Writing to the file of the small volume *)

Lemma demo_root_chain : chain demo_vol demo_one [2].
Proof. split; by vm_compute. Qed.

Lemma demo_file_of : file_of demo_vol demo_one demo_node [3; 4].
Proof. right. split; [exact demo_chain|reflexivity]. Qed.

Lemma demo_nfree : nfree demo_vol demo_one = 17.
Proof. vm_compute. reflexivity. Qed.

Lemma demo_apart c : c ∈ [2] → c ∉ [3; 4].
Proof. intros ->%list_elem_of_singleton. apply (bool_decide_unpack _). by vm_compute. Qed.

(** 600 bytes at offset 900 need one more cluster. *)
Lemma fat32_write_correct_witness : wp (fat32_write demo_node 900 (replicate 600 67)) (demo_fat, demo_one) (λ '(ret, n') st', ret = 600 ∧ fn_length n' = 1500).
Proof.
  eapply wp_mono; [apply (fat32_write_correct demo_fat demo_one demo_node [3; 4] [2] (Some (0%nat, 0)) 900 (replicate 600 67))|].
  - exact (demo_vol_ok _ demo_one_len).
  - exact demo_file_of.
  - change (fn_length demo_node) with 600. lia.
  - lia.
  - vm_compute. reflexivity.
  - discriminate.
  - change (nfree _ _) with (nfree demo_vol demo_one). rewrite demo_nfree. vm_compute. reflexivity.
  - reflexivity.
  - split; [exact demo_root_chain|exists 2; by split|vm_compute; reflexivity].
  - exact demo_apart.
  - intros [ret n'] st' (R & _ & new & _ & L & _). split; [exact R|]. rewrite L. vm_compute. reflexivity.
Defined.

Lemma fat32_write_then_find_witness :
  wp (w ← fat32_write demo_node 900 (replicate 600 67); g ← fat32_finddir demo_root (fn_name demo_node); mret (w, g)) (demo_fat, demo_one)
    (λ '(w, g) st', ∃ m, g = Some m ∧ fn_length m = 1500).
Proof.
  eapply wp_mono; [apply (fat32_write_then_find demo_fat demo_one demo_node demo_root [3; 4] [2] demo_entry 900 (replicate 600 67))|].
  - exact (demo_vol_ok _ demo_one_len).
  - exact demo_file_of.
  - change (fn_length demo_node) with 600. lia.
  - lia.
  - vm_compute. reflexivity.
  - discriminate.
  - change (nfree _ _) with (nfree demo_vol demo_one). rewrite demo_nfree. vm_compute. reflexivity.
  - reflexivity.
  - exact demo_root_chain.
  - exact demo_apart.
  - reflexivity.
  - reflexivity.
  - reflexivity.
  - vm_compute. reflexivity.
  - vm_compute. reflexivity.
  - intros [[ret n'] g] st' (_ & m & new & E & _ & L & _). exists m. split; [exact E|]. rewrite L. vm_compute. reflexivity.
Defined.
End Fat32Theorems.
