(* ===== verification/PageCacheFat.v ===== *)
(** * The page cache over the FAT32 driver

    [fat32_read] and [fat32_write] below the cache: the driver meets what the
    cache relies on.  The cache's nodes carry the fields the cache looks at;
    the others that the driver needs, name, first cluster and directory, are
    in a table of the nodes by inode number, the first cluster of the file. *)
From S2P Require Import Prelude Links Pages PageCache PageCacheLru PageCacheSpec PageCacheTheorems PageCacheWrite Block Fat32 Fat32Spec Fat32Files Fat32Write Fat32Dir Fat32Theorems.

Module PageCacheFat.
Import Block Fat32 Fat32Spec Fat32Files Fat32Write Fat32Dir Fat32Theorems.

(** ** Directories under writes to their files *)

(** A file's entry is rewritten: scans for any name end where they did. *)
Lemma update_scan_entry name es : ∀ i0 acc i, update_scan name es i0 acc = Some (inl i) →
  ∃ e, es !! Z.to_nat (i - i0) = Some e ∧ get8 11 e ≠ FAT32_ATTR_LONG_NAME.
Proof.
  induction es as [|e es IH]; intros i0 acc i; cbn [update_scan]; [done|].
  assert (∀ acc', update_scan name es (i0 + 1) acc' = Some (inl i) → ∃ e', (e :: es) !! Z.to_nat (i - i0) = Some e' ∧ get8 11 e' ≠ FAT32_ATTR_LONG_NAME) as Hnext.
  { intros acc' Hs. pose proof (update_scan_bound _ _ _ _ _ Hs). destruct (IH _ _ _ Hs) as (e' & He & Ha). exists e'. split; [|done].
    by replace (Z.to_nat (i - i0)) with (S (Z.to_nat (i - (i0 + 1)))) by lia. }
  destruct (get8 0 e =? 0); [done|]. destruct (get8 0 e =? 0xE5); [by apply Hnext|]. destruct (Z.eqb_spec (get8 11 e) FAT32_ATTR_LONG_NAME); [by apply Hnext|].
  destruct (entry_name acc e) as [nm|]; [|done]. destruct (bool_decide (nm = name)); [|by apply Hnext]. intros [= <-]. exists e. by rewrite Z.sub_diag.
Qed.

Lemma update_scan_insert name es e' : ∀ (k : nat) e i0 acc, es !! k = Some e → get8 11 e ≠ FAT32_ATTR_LONG_NAME → same_head e e' →
  update_scan name (<[k := e']> es) i0 acc = update_scan name es i0 acc.
Proof.
  induction es as [|e0 es IH]; intros k e i0 acc Hk Ha Hh; [done|]. destruct k as [|k]; cbn [lookup list_lookup insert list_insert update_scan] in *.
  - injection Hk as ->. destruct (head_name e e' acc Hh) as (-> & -> & ->). by rewrite (proj2 (Z.eqb_neq _ _) Ha).
  - rewrite !(IH k e) by done. done.
Qed.

Lemma dir_update_insert v name1 name2 : 0 < spc v → ∀ bufs acc1 acc2 j i buf e', Forall (λ b, len b = csize v) bufs →
  dir_update v name1 bufs acc1 = Some (Some (j, i)) → bufs !! j = Some buf → same_head (entry_at i buf) e' → len e' = 32 →
  dir_update v name2 (<[j := patch (32 * i) e' buf]> bufs) acc2 = dir_update v name2 bufs acc2.
Proof.
  intros Hspc. destruct (epc_size v) as [Hepc Hs]. induction bufs as [|b bufs IH]; intros acc1 acc2 j i buf e' Hl Hu Hj Hh He; [done|].
  apply Forall_cons in Hl as [Hb Hl]. rewrite dir_update_cons in Hu. destruct (update_scan name1 (entries_of v b) 0 acc1) as [[i'|acc']|] eqn:Es; [| |done].
  - injection Hu as <- <-. injection Hj as ->. cbn [insert list_insert]. rewrite !dir_update_cons.
    pose proof (update_scan_bound _ _ _ _ _ Es) as Hi. unfold entries_of in Hi. rewrite entries_length in Hi.
    destruct (update_scan_entry _ _ _ _ _ Es) as (e & He0 & Ha). rewrite Z.sub_0_r in He0. pose proof He0 as He1. unfold entries_of in He1.
    rewrite entries_lookup, Z2Nat.id in He1 by lia. injection He1 as He1. rewrite He1 in Hh.
    assert (entries_of v (patch (32 * i') e' buf) = <[Z.to_nat i' := e']> (entries_of v buf)) as -> by (apply entries_patch; lia).
    by rewrite (update_scan_insert name2 _ e' _ e).
  - destruct (dir_update v name1 bufs acc') as [[[j' i']|]|] eqn:Er; try done. injection Hu as <- <-.
    change (<[S j' := ?x]> (b :: bufs)) with (b :: <[j' := x]> bufs). change ((b :: bufs) !! S j') with (bufs !! j') in Hj.
    rewrite !dir_update_cons. destruct (update_scan name2 (entries_of v b) 0 acc2) as [[k|acc2']|]; [done| |done]. by rewrite (IH acc' acc2' j' i' buf e').
Qed.

(** ** The clusters of a file, found by following the table *)

Fixpoint follow (fuel : nat) (v : fat32_volume) (l : list Z) (c : Z) : list Z :=
  match fuel with
  | O => []
  | S k => c :: (if EOC_MIN <=? tab v l c then [] else follow k v l (tab v l c))
  end.

Definition clusters_of (v : fat32_volume) (l : list Z) (c : Z) : list Z := follow (Z.to_nat (clusters v)) v l c.

Lemma follow_chain v l size ch : vol_ok v size → ∀ c fuel, chain v l (c :: ch) → (length (c :: ch) ≤ fuel)%nat → follow fuel v l c = c :: ch.
Proof.
  intros Hv. induction ch as [|c' ch IH]; intros c fuel [Hc Hn] Hf; (destruct fuel as [|fuel]; [simpl in Hf; lia|]); cbn [follow]; f_equal.
  - by rewrite (proj2 (Z.leb_le _ _) Hn).
  - destruct Hn as [-> Hch]. pose proof (chain_valid _ _ _ Hch) as [Hc' _]%Forall_cons. rewrite (proj2 (Z.leb_gt EOC_MIN c')) by (destruct Hv, Hc'; lia).
    apply IH; [done|simpl in *; lia].
Qed.

Lemma clusters_of_chain v l ch c : vol_ok v (len l) → chain v l ch → head ch = Some c → clusters_of v l c = ch.
Proof.
  intros Hv Hch Hh. pose proof (chain_short v l ch Hv Hch). destruct ch as [|c' ch]; [done|]. injection Hh as ->. apply (follow_chain v l (len l)); [done|done|lia].
Qed.

Definition dir_of (v : fat32_volume) (l : list Z) (fn : fnode) : list Z := clusters_of v l (u32 (default 0 (fn_parent fn))).

(** The node of a file that has clusters, in a directory whose names fit. *)
Record node_sound v l (i : Z) (fn : fnode) : Prop := {
  ns_inode : fn_inode fn = i;
  ns_ptr : u32 (fn_ptr fn) = i;
  ns_chain : chain v l (clusters_of v l i);
  ns_length : 0 ≤ fn_length fn ≤ csize v * Z.of_nat (length (clusters_of v l i));
  ns_max : fn_length fn < 2 ^ 32;
  ns_parent : is_Some (fn_parent fn);
  ns_dir : chain v l (dir_of v l fn);
  ns_scan : is_Some (dir_update v (fn_name fn) (cl v l <$> dir_of v l fn) empty_acc);
}.

Definition apart (ch1 ch2 : list Z) : Prop := ∀ c, c ∈ ch1 → c ∉ ch2.

(** The files of the table: apart from each other and from directories. *)
Record table_sound v l (t : gmap Z fnode) : Prop := {
  ts_vol : vol_ok v (len l);
  ts_node i fn : t !! i = Some fn → node_sound v l i fn;
  ts_files i j fi fj : t !! i = Some fi → t !! j = Some fj → i ≠ j → apart (clusters_of v l i) (clusters_of v l j);
  ts_dirs i j fi fj : t !! i = Some fi → t !! j = Some fj → apart (dir_of v l fi) (clusters_of v l j);
  ts_same i j fi fj : t !! i = Some fi → t !! j = Some fj → dir_of v l fi = dir_of v l fj ∨ apart (dir_of v l fi) (dir_of v l fj);
}.

Lemma clusters_of_head v l c : chain v l (clusters_of v l c) → head (clusters_of v l c) = Some c.
Proof. unfold clusters_of. by destruct (Z.to_nat (clusters v)). Qed.

(** A chain seen again: the table leads along the same clusters. *)
Lemma clusters_of_same v l l' c : len l' = len l → vol_ok v (len l) → chain v l (clusters_of v l c) → chain v l' (clusters_of v l c) →
  clusters_of v l' c = clusters_of v l c.
Proof. intros El Hv Hch Hch'. apply clusters_of_chain; [by rewrite El|done|by apply clusters_of_head]. Qed.

(** ** A write, seen from the rest of the volume *)
Section Written.
  Context (v : fat32_volume) (l l2 : list Z) (ch new dch : list Z) (name : list Z) (r : option (nat * Z)) (fc sz : Z).
  Hypothesis Hv : vol_ok v (len l).
  Hypothesis Hext : extends v l l2 ch new.
  Hypothesis Hdch : chain v l dch.
  Hypothesis Hapart : apart dch ch.
  Hypothesis Hscan : dir_update v name (cl v l <$> dch) empty_acc = Some r.

Abbreviation l' := (dir_written v l2 dch r fc sz).

Lemma bufs_before : cl v l2 <$> dch = cl v l <$> dch.
Proof.
  destruct (extends_frame v l l2 ch new dch Hext Hdch Hapart) as (_ & _ & Hcl). apply list_fmap_ext. intros k y Hy. apply Hcl, list_elem_of_lookup. by exists k.
Qed.

Lemma dir_chain_before : chain v l2 dch.
Proof. by destruct (extends_frame v l l2 ch new dch Hext Hdch Hapart) as (_ & Hc & _). Qed.

Lemma dir_extends : extends v l2 l' dch [].
Proof. eapply dir_written_extends; [by rewrite (extends_len _ _ _ _ _ Hext)|exact dir_chain_before|by rewrite bufs_before]. Qed.

Lemma written_len : len l' = len l.
Proof. rewrite (extends_len _ _ _ _ _ dir_extends). by apply (extends_len _ _ _ _ _ Hext). Qed.

Lemma written_other ch2 : chain v l ch2 → apart ch2 ch → apart ch2 dch → chain v l' ch2 ∧ (∀ c, c ∈ ch2 → cl v l' c = cl v l c) ∧ apart ch2 new.
Proof.
  intros Hch2 H1 H2. destruct (extends_frame v l l2 ch new ch2 Hext Hch2 H1) as (N & G1 & G2).
  destruct (extends_frame v l2 l' dch [] ch2 dir_extends G1 H2) as (_ & G3 & G4). split_and!; [done| |done]. intros c Hc. by rewrite G4, G2.
Qed.

(** The directory: still a chain, and every name is found where it was. *)
Lemma written_dir : chain v l' dch ∧ apart dch new ∧ ∀ name2, dir_update v name2 (cl v l' <$> dch) empty_acc = dir_update v name2 (cl v l <$> dch) empty_acc.
Proof.
  destruct (extends_frame v l l2 ch new dch Hext Hdch Hapart) as (N & _ & _). pose proof (e_chain _ _ _ _ _ dir_extends) as Hc. rewrite app_nil_r in Hc.
  split_and!; [done|done|]. intros name2. pose proof (extends_len _ _ _ _ _ Hext) as El2. pose proof bufs_before as Hb. pose proof dir_chain_before as Hd2.
  destruct r as [[j i]|]; [|by cbn [dir_written]; rewrite Hb].
  destruct (dir_update_bound v l name dch _ _ _ Hv Hscan) as [Hj Hi]. destruct (lookup_lt_is_Some_2 dch j Hj) as [c Hcj].
  pose proof (chain_valid _ _ _ Hdch) as Hval. pose proof (proj1 (Forall_lookup _ _) Hval j c Hcj) as Hcv.
  assert (length (entry_at i (cl v l2 c)) = 32%nat) as He by (apply entry_length; [by rewrite El2|done|done]).
  rewrite (dir_written_bufs v l2 dch j i fc sz c) by (done || by rewrite El2). rewrite Hb.
  eapply (dir_update_insert v name name2); [by destruct Hv; lia| |exact Hscan| |by apply update_entry_head|unfold len; by rewrite update_entry_length].
  - apply Forall_fmap. eapply Forall_impl; [exact Hval|]. intros y Hy. cbn. unfold len. rewrite cl_length by done. pose proof (csize_pos v _ Hv). lia.
  - rewrite <-Hb, list_lookup_fmap, Hcj. done.
Qed.

(** The file itself. *)
Lemma written_file : chain v l' (ch ++ new) ∧ bytes_of v l' (ch ++ new) = bytes_of v l2 (ch ++ new) ∧ nfree v l' = nfree v l2.
Proof.
  destruct (written_frame v l l2 ch new dch r fc sz false Hv Hext Hdch Hapart) as (F1 & F2 & F3 & _); [by exists name|]. done.
Qed.

End Written.

Section Table.
  Context (v : fat32_volume) (l l2 : list Z) (t : gmap Z fnode) (i0 : Z) (fn0 : fnode) (new : list Z) (r : option (nat * Z)) (fc sz len' : Z).
  Hypothesis Ht : table_sound v l t.
  Hypothesis Hi0 : t !! i0 = Some fn0.
  Hypothesis Hext : extends v l l2 (clusters_of v l i0) new.
  Hypothesis Hscan : dir_update v (fn_name fn0) (cl v l <$> dir_of v l fn0) empty_acc = Some r.

Abbreviation l' := (dir_written v l2 (dir_of v l fn0) r fc sz).

Lemma table_len : len l' = len l.
Proof. eapply written_len; [apply Ht|exact Hext|by eapply ns_dir, (ts_node _ _ _ Ht)|by eapply (ts_dirs _ _ _ Ht)|exact Hscan]. Qed.

Lemma table_file : clusters_of v l' i0 = clusters_of v l i0 ++ new ∧ chain v l' (clusters_of v l i0 ++ new) ∧
  bytes_of v l' (clusters_of v l i0 ++ new) = bytes_of v l2 (clusters_of v l i0 ++ new) ∧ nfree v l' = nfree v l2.
Proof.
  pose proof (ts_node _ _ _ Ht _ _ Hi0) as Hn. pose proof (clusters_of_head _ _ _ (ns_chain _ _ _ _ Hn)) as Hh.
  destruct (written_file v l l2 (clusters_of v l i0) new (dir_of v l fn0) (fn_name fn0) r fc sz) as (F1 & F2 & F3);
    [apply Ht|done|apply Hn|by eapply (ts_dirs _ _ _ Ht)|done|]. split; [|done].
  apply clusters_of_chain; [rewrite table_len; apply Ht|done|]. by destruct (clusters_of v l i0).
Qed.

Lemma table_other i fn : t !! i = Some fn → i ≠ i0 → clusters_of v l' i = clusters_of v l i ∧ chain v l' (clusters_of v l i) ∧
  bytes_of v l' (clusters_of v l i) = bytes_of v l (clusters_of v l i) ∧ apart (clusters_of v l i) new.
Proof.
  intros Hi Hne. pose proof (ts_node _ _ _ Ht _ _ Hi) as Hn. pose proof (ts_node _ _ _ Ht _ _ Hi0) as Hn0.
  destruct (written_other v l l2 (clusters_of v l i0) new (dir_of v l fn0) (fn_name fn0) r fc sz) with (ch2 := clusters_of v l i) as (F1 & F2 & F3);
    [apply Ht|done|apply Hn0|by eapply (ts_dirs _ _ _ Ht)|done|apply Hn|by eapply (ts_files _ _ _ Ht)| |].
  { intros c Hc Hd. by eapply (ts_dirs _ _ _ Ht _ _ _ _ Hi0 Hi). }
  split_and!; [|done|by apply bytes_of_ext|done]. apply (clusters_of_same v l); [apply table_len|apply Ht|apply Hn|done].
Qed.

Lemma table_dir i fn : t !! i = Some fn → dir_of v l' fn = dir_of v l fn ∧ chain v l' (dir_of v l fn) ∧ apart (dir_of v l fn) new ∧
  dir_update v (fn_name fn) (cl v l' <$> dir_of v l fn) empty_acc = dir_update v (fn_name fn) (cl v l <$> dir_of v l fn) empty_acc.
Proof.
  intros Hi. pose proof (ts_node _ _ _ Ht _ _ Hi) as Hn. pose proof (ts_node _ _ _ Ht _ _ Hi0) as Hn0.
  assert (chain v l' (dir_of v l fn) ∧ apart (dir_of v l fn) new ∧
    dir_update v (fn_name fn) (cl v l' <$> dir_of v l fn) empty_acc = dir_update v (fn_name fn) (cl v l <$> dir_of v l fn) empty_acc) as (F1 & F2 & F3).
  { destruct (ts_same _ _ _ Ht _ _ _ _ Hi Hi0) as [E|Ha].
    - rewrite E. destruct (written_dir v l l2 (clusters_of v l i0) new (dir_of v l fn0) (fn_name fn0) r fc sz) as (G1 & G2 & G3);
        [apply Ht|done|apply Hn0|by eapply (ts_dirs _ _ _ Ht)|done|done].
    - destruct (written_other v l l2 (clusters_of v l i0) new (dir_of v l fn0) (fn_name fn0) r fc sz) with (ch2 := dir_of v l fn) as (G1 & G2 & G3);
        [apply Ht|done|apply Hn0|by eapply (ts_dirs _ _ _ Ht)|done|apply Hn|by eapply (ts_dirs _ _ _ Ht)|done|].
      split_and!; [done|done|]. f_equal. apply list_fmap_ext. intros k y Hy. apply G2, list_elem_of_lookup. by exists k. }
  split_and!; [|done|done|done]. apply (clusters_of_same v l); [apply table_len|apply Ht|apply Hn|done].
Qed.

Lemma table_written : 0 ≤ len' < 2 ^ 32 → len' ≤ csize v * Z.of_nat (length (clusters_of v l i0 ++ new)) →
  table_sound v l' (<[i0 := set_flength len' fn0]> t).
Proof.
  intros Hr Hl. destruct table_file as (C0 & Ch0 & _).
  assert (∀ i fn, <[i0 := set_flength len' fn0]> t !! i = Some fn → ∃ fn1, t !! i = Some fn1 ∧ dir_of v l' fn = dir_of v l fn1 ∧
    (fn = fn1 ∧ i ≠ i0 ∨ fn = set_flength len' fn1 ∧ i = i0)) as Hold.
  { intros i fn [[<- <-]|[Hne Hi]]%lookup_insert_Some; [exists fn0|exists fn]; (split; [done|]).
    - split; [|by right]. change (dir_of v l' (set_flength len' fn0)) with (dir_of v l' fn0). by eapply table_dir.
    - split; [|by left]. by eapply table_dir. }
  split.
  - rewrite table_len. apply Ht.
  - intros i fn (fn1 & Hi & Ed & Hor)%Hold. pose proof (ts_node _ _ _ Ht _ _ Hi) as Hn. destruct (table_dir i fn1 Hi) as (_ & D1 & _ & D2). destruct Hor as [[-> Hne]|[-> ->]].
    + destruct (table_other i fn1 Hi Hne) as (E & Hc & _). split; rewrite ?E, ?Ed; try apply Hn; try done. rewrite D2. apply Hn.
    + split; rewrite ?C0, ?Ed; try apply Hn; try done; [cbn; lia|cbn; lia|cbn [fn_name set_flength]; rewrite D2; apply Hn].
  - intros i j fi fj (f1 & Hi & _ & Hor1)%Hold (f2 & Hj & _ & Hor2)%Hold Hne.
    destruct Hor1 as [[-> Hi']|[-> ->]], Hor2 as [[-> Hj']|[-> ->]]; try done.
    + rewrite (proj1 (table_other i f1 Hi Hi')), (proj1 (table_other j f2 Hj Hj')). by eapply (ts_files _ _ _ Ht).
    + destruct (table_other i f1 Hi Hi') as (-> & _ & _ & Hn). rewrite C0. intros c Hc [Hc'|Hc']%elem_of_app; [by eapply (ts_files _ _ _ Ht i i0)|by eapply Hn].
    + destruct (table_other j f2 Hj Hj') as (-> & _ & _ & Hn). rewrite C0. intros c [Hc|Hc]%elem_of_app Hc'; [by eapply (ts_files _ _ _ Ht i0 j)|by eapply Hn].
  - intros i j fi fj (f1 & Hi & -> & _)%Hold (f2 & Hj & _ & Hor2)%Hold. destruct (table_dir i f1 Hi) as (_ & _ & Hn & _). destruct Hor2 as [[-> Hj']|[-> ->]].
    + rewrite (proj1 (table_other j f2 Hj Hj')). by eapply (ts_dirs _ _ _ Ht).
    + rewrite C0. intros c Hc [Hc'|Hc']%elem_of_app; [by eapply (ts_dirs _ _ _ Ht i i0)|by eapply Hn].
  - intros i j fi fj (f1 & Hi & -> & _)%Hold (f2 & Hj & -> & _)%Hold. by eapply (ts_same _ _ _ Ht).
Qed.

End Table.

(** ** The driver as the cache calls it *)

(** [fat32_fops] *)
Definition fat32_ops : Z := 1.

(** A splice of the part of the clusters that the file takes up. *)
Lemma splice_take off (bs f : list Z) (k : nat) : 0 ≤ off ≤ Z.of_nat k → (k ≤ length f)%nat → off + len bs ≤ len f →
  splice off bs (take k f) = take (Z.to_nat (Z.max (Z.of_nat k) (off + len bs))) (patch off bs f).
Proof.
  intros Ho Hk Hb. assert (inside off (len bs) f) as Hin by (unfold inside, len in *; lia). apply list_eq. intros j.
  rewrite PageCacheWrite.splice_lookup by (rewrite length_take; lia). unfold len in *. destruct (decide (off ≤ Z.of_nat j < off + Z.of_nat (length bs))) as [Hj|Hj].
  - rewrite lookup_take_lt, patch_lookup, decide_True by (done || unfold len; lia). done.
  - destruct (decide (j < k)%nat).
    + rewrite !lookup_take_lt, patch_lookup, decide_False by (done || unfold len; lia). done.
    + rewrite !lookup_take_ge by lia. done.
Qed.

(** The bytes of the file after a write, from those of its clusters. *)
Lemma written_bytes v l l2 ch new off bs k : vol_ok v (len l) → Forall (valid v) ch → Forall (valid v) (ch ++ new) →
  bytes_of v l2 (ch ++ new) = patch off bs (bytes_of v l (ch ++ new)) → 0 ≤ off ≤ k → k ≤ csize v * len ch → off + len bs ≤ csize v * len (ch ++ new) →
  take (Z.to_nat (Z.max k (off + len bs))) (bytes_of v l2 (ch ++ new)) = splice off bs (take (Z.to_nat k) (bytes_of v l ch)).
Proof.
  intros Hv Hc Hcn B Ho Hk Hfit. pose proof (bytes_of_length v l _ Hv Hc) as Hbl. pose proof (bytes_of_length v l _ Hv Hcn) as Hbl'. rewrite B.
  rewrite bytes_of_app in *. set (b1 := bytes_of v l ch) in *. set (b2 := bytes_of v l new) in *. unfold len in *.
  rewrite <-(take_app_le b1 b2 (Z.to_nat k)) by lia. rewrite splice_take by (rewrite ?length_app; unfold len in *; rewrite ?length_app in *; lia). unfold len. do 2 f_equal. lia.
Qed.

(** Clusters for the last byte are clusters for all. *)
Lemma enough_clusters cs k n m e : 0 < cs → n ≤ cs * k → k ≤ m → (e - 1) / cs + 1 ≤ m → Z.max n e ≤ cs * m.
Proof.
  intros Hcs Hn Hk He. pose proof (Z.div_mod (e - 1) cs ltac:(lia)). pose proof (Z.mod_pos_bound (e - 1) cs ltac:(lia)). nia.
Qed.

Section Driver.
  Context {Dk : Type} `{BlockLaws Dk}.

(** The mounted volume: driver and disk, the nodes by inode number, and how
    many calls have failed. *)
Abbreviation volume := ((fat * Dk) * (gmap Z fnode * Z))%type.

Implicit Types (d : volume) (n : vfs_node).

Definition vol_of d : fat32_volume := current_vol d.1.1.
Definition image d : list Z := content d.1.2.
Definition table d : gmap Z fnode := d.2.1.

Definition the_node n : M volume fnode :=
  fn ← deref (λ d, d.2.1 !! vn_inode n); mret (set_flength (vn_length n) fn).

Definition note (ret : Z) : M volume unit := modify (λ d, (d.1, (d.2.1, if ret <? 0 then d.2.2 + 1 else d.2.2))).

#[global] Instance fat_ops : FileOps volume := {|
  fo_read n off k := fn ← the_node n; r ← lift_l (fat32_read fn off k); note r.1;; mret r;
  fo_write n off bs := fn ← the_node n; '(ret, fn') ← lift_l (fat32_write fn off bs); note ret;;
    modify (λ d, (d.1, (<[fn_inode fn' := fn']> d.2.1, d.2.2)));;
    mret (ret, mk_vnode (vn_ops n) (fn_inode fn') (fn_length fn') (vn_has_read n) (vn_has_write n));
|}.

Definition fat_file d (o i : Z) : list Z :=
  match (if o =? fat32_ops then table d !! i else None) with
  | Some fn => take (Z.to_nat (fn_length fn)) (bytes_of (vol_of d) (image d) (clusters_of (vol_of d) (image d) i))
  | None => []
  end.

Definition fat_served d n : Prop :=
  vn_ops n = fat32_ops ∧ (∃ fn, table d !! vn_inode n = Some fn ∧ fn_length fn = vn_length n) ∧ vn_length n = len (fat_file d (vn_ops n) (vn_inode n)).

(** Memory for the driver's buffers, and clusters for [m] bytes. *)
Definition fat_ready d n (m : Z) : Prop := memory d.1.1 ∧ m < 2 ^ 32 ∧
  (m - 1) / csize (vol_of d) < len (clusters_of (vol_of d) (image d) (vn_inode n)) + nfree (vol_of d) (image d) ∧ 0 < csize (vol_of d).

Lemma fat_ready_le d n m m' : m' ≤ m → fat_ready d n m → fat_ready d n m'.
Proof. intros Hm (H1 & H2 & H3 & H4). split_and!; [done|lia| |done]. pose proof (Z.div_le_mono (m' - 1) (m - 1) (csize (vol_of d)) H4 ltac:(lia)). lia. Qed.

Lemma wp_the_node d n fn (Q : fnode → volume → Prop) : table d !! vn_inode n = Some fn → fn_length fn = vn_length n → Q fn d → wp (the_node n) d Q.
Proof.
  intros Hn Hl HQ. unfold the_node. apply wp_bind. eapply (wp_deref (λ d : volume, d.2.1 !! vn_inode n)); [exact Hn|]. apply wp_ret. rewrite <-Hl. by destruct fn.
Qed.

Lemma sound_bytes v l i fn : vol_ok v (len l) → node_sound v l i fn → Z.of_nat (Z.to_nat (fn_length fn)) = fn_length fn ∧
  fn_length fn ≤ len (bytes_of v l (clusters_of v l i)).
Proof.
  intros Hv Hn. pose proof (ns_length _ _ _ _ Hn). rewrite (bytes_of_length v l _ Hv (chain_valid _ _ _ (ns_chain _ _ _ _ Hn))). lia.
Qed.

Lemma fat_read_law d n off k : table_sound (vol_of d) (image d) (table d) → fat_served d n → 0 ≤ off < vn_length n → 0 ≤ k < 2 ^ 63 →
  wp (fo_read n off k) d (λ r d', table_sound (vol_of d') (image d') (table d') ∧ fat_served d' n ∧ (∀ o i, fat_file d' o i = fat_file d o i) ∧ d.2.2 ≤ d'.2.2 ∧
    Z.of_nat (length r.2) ≤ k ∧
    (d'.2.2 = d.2.2 → ∀ j : nat, Z.of_nat j < k → off + Z.of_nat j < vn_length n → r.2 !! j = fat_file d (vn_ops n) (vn_inode n) !! (Z.to_nat off + j)%nat) ∧
    (∀ m, fat_ready d n m → d'.2.2 = d.2.2 ∧ fat_ready d' n m)).
Proof.
  destruct d as [[f x] [t er]]. unfold vol_of, image, table. cbn [fst snd]. set (v := current_vol f). set (l := content x).
  intros Ht (Ho & (fn & Hi & Hl) & Hlen) Hoff Hk. change (t !! vn_inode n = Some fn) in Hi. pose proof (ts_node _ _ _ Ht _ _ Hi) as Hn. destruct (sound_bytes v l _ _ (ts_vol _ _ _ Ht) Hn) as [_ Hb].
  apply wp_bind. eapply wp_the_node; [exact Hi|done|]. apply wp_bind, wp_lift_l.
  apply (fat32_read_spec f x fn (clusters_of v l (vn_inode n))); fold v l; [apply Ht|split; [apply Hn|rewrite (ns_ptr _ _ _ _ Hn); apply clusters_of_head, Hn|apply Hn]|
    lia|done|pose proof (ns_max _ _ _ _ Hn); lia|].
  intros x' Ex. set (res := if no_memory f then _ else _). apply wp_bind, wp_modify, wp_ret. cbn [fst snd popped current_vol]. fold v. rewrite Ex.
  assert (fat_file ((popped f, x'), (t, if res.1 <? 0 then er + 1 else er)) = fat_file ((f, x), (t, er))) as Ef
    by (unfold fat_file, vol_of, image, table; cbn [fst snd popped current_vol]; fold v l; by rewrite Ex).
  unfold fat_served, table. rewrite !Ef. cbn [fst snd]. pose proof (csize_pos v _ (ts_vol _ _ _ Ht)) as Hcs.
  pose proof (Z.mod_pos_bound off (csize v) ltac:(lia)) as Hm. pose proof (Z.mod_le off (csize v) ltac:(lia) ltac:(lia)) as Hmle.
  pose proof (ns_max _ _ _ _ Hn) as Hmax. set (bt := request (csize v) (fn_length fn) off k) in *.
  assert (0 ≤ bt ≤ k ∧ Z.min k (vn_length n - off) ≤ bt) as Hbt.
  { unfold bt, request. rewrite (wrap_small 64 (off mod csize v + k)) by lia. destruct (Z.ltb_spec (fn_length fn) (off mod csize v + k)); [rewrite wrap_small by lia|]; lia. }
  split_and!; try done.
  - by exists fn.
  - destruct (res.1 <? 0); lia.
  - unfold res. destruct (no_memory f); cbn [snd length]; [lia|]. unfold slice. rewrite length_take. lia.
  - intros HE j Hj Hjl. unfold res in *. destruct (no_memory f) eqn:Em; cbn [fst snd] in *; [cbn in HE; lia|].
    rewrite slice_lookup, decide_True by lia. unfold fat_file, table, vol_of, image. cbn [fst snd]. rewrite Ho, Z.eqb_refl, Hi. fold v l. rewrite lookup_take_lt by lia. done.
  - intros m (Hmem & M2 & M3 & M4). unfold vol_of, image in *. cbn [fst snd] in *. fold v l in M3, M4.
    assert (no_memory f = false) as Em by (unfold no_memory; by rewrite Hmem). split.
    + unfold res. rewrite Em. cbn [fst]. rewrite (proj2 (Z.ltb_ge _ 0)) by (unfold len; lia). done.
    + unfold fat_ready, vol_of, image. cbn [fst snd popped current_vol]. fold v. rewrite Ex. split_and!; try done. unfold memory in *. cbn. by rewrite Hmem.
Qed.

Lemma fat_write_law d n off bs : table_sound (vol_of d) (image d) (table d) → fat_served d n → fat_ready d n (off + len bs) → bs ≠ [] →
  0 ≤ off ≤ vn_length n →
  wp (fo_write n off bs) d (λ r d', table_sound (vol_of d') (image d') (table d') ∧ d'.2.2 = d.2.2 ∧
    r.2 = set_length (Z.max (vn_length n) (off + len bs)) n ∧ fat_served d' r.2 ∧
    fat_file d' (vn_ops n) (vn_inode n) = splice off bs (fat_file d (vn_ops n) (vn_inode n)) ∧
    (∀ o i, (o, i) ≠ (vn_ops n, vn_inode n) → fat_file d' o i = fat_file d o i) ∧
    (∀ m, fat_ready d n m → fat_ready d' r.2 m)).
Proof.
  destruct d as [[f x] [t er]]. unfold vol_of, image, table. cbn [fst snd]. set (v := current_vol f). set (l := content x).
  intros Ht (Ho & (fn & Hi & Hl) & Hlen) (Hmem & R2 & R3 & Hcs) Hne Hoff. change (t !! vn_inode n = Some fn) in Hi. set (i0 := vn_inode n) in *.
  unfold vol_of, image in R3, Hcs. cbn [fst snd] in R3, Hcs, Hmem. fold v l in R3, Hcs.
  pose proof (ts_node _ _ _ Ht _ _ Hi) as Hn. destruct (sound_bytes v l _ _ (ts_vol _ _ _ Ht) Hn) as [_ Hb]. pose proof (ns_max _ _ _ _ Hn) as Hmax.
  destruct (ns_scan _ _ _ _ Hn) as [r Hscan]. pose proof (clusters_of_head _ _ _ (ns_chain _ _ _ _ Hn)) as Hhead.
  assert (u32 (fn_ptr fn) ≠ 0) as Hptr.
  { rewrite (ns_ptr _ _ _ _ Hn). pose proof (chain_valid _ _ _ (ns_chain _ _ _ _ Hn)) as Hval. destruct (clusters_of v l i0) as [|c ch]; [done|]. injection Hhead as ->.
    apply Forall_cons in Hval as [[? ?] _]. lia. }
  apply wp_bind. eapply wp_the_node; [exact Hi|done|]. apply wp_bind, wp_lift_l.
  apply (fat32_write_spec f x fn (clusters_of v l i0) (dir_of v l fn) r); fold v l; try done; try lia.
  { apply Ht. }
  { right. split; [apply Hn|]. by rewrite (ns_ptr _ _ _ _ Hn). }
  { unfold no_memory. by rewrite Hmem. }
  { split; [apply Hn| |done]. destruct (ns_parent _ _ _ _ Hn) as [p Hp]. exists p. split; [done|]. pose proof (clusters_of_head v l _ (ns_dir _ _ _ _ Hn)) as Hh. unfold dir_of. by rewrite Hp in *. }
  { by eapply (ts_dirs _ _ _ Ht). }
  intros f' x' l2 c new M1 M2 E Hhd Hcu B L fn' Ed. rewrite Hmem in Ed, M2. cbn [tail head] in Ed, M2. rewrite bool_decide_false in Ed by done.
  set (len' := Z.max (fn_length fn) (off + len bs)) in *. assert (fn' = set_flength len' fn) as Efn by (unfold fn'; by rewrite (proj2 (Z.eqb_neq _ 0)) by done).
  clearbody fn'. subst fn'. set (fn' := set_flength len' fn) in *.
  apply wp_bind, wp_modify, wp_bind, wp_modify, wp_ret. cbn [fst snd]. rewrite (proj2 (Z.ltb_ge (len bs) 0)) by (unfold len; lia).
  pose proof (ns_inode _ _ _ _ Hn) as Hino. change (fn_inode fn') with (fn_inode fn). rewrite Hino, M1.
  assert (fn_length fn' = len') as Hl' by done.
  assert (0 < len bs) as Hlb by (destruct bs; [done|unfold len; cbn [length]; lia]). assert (0 ≤ len' < 2 ^ 32) as Hlr by (unfold len'; lia).
  assert (len' ≤ csize v * Z.of_nat (length (clusters_of v l i0 ++ new))) as Hfit.
  { apply (enough_clusters _ (len (clusters_of v l i0))); [done|apply Hn| |]; fold (len (clusters_of v l i0 ++ new)); lia. }
  destruct (table_file v l l2 t i0 fn new r c len' Ht Hi E Hscan) as (C1 & C2 & C3 & C4).
  pose proof (table_written v l l2 t i0 fn new r c len' len' Ht Hi E Hscan Hlr Hfit) as Ht'. rewrite Hl' in Ed. rewrite <-Ed in *. fold len' fn' in Ht'.
  set (d' := ((f', x'), (<[i0 := fn']> t, er))) in *.
  assert (vol_of d' = v ∧ image d' = content x' ∧ table d' = <[i0 := fn']> t) as (V1 & V2 & V3) by done.
  assert (fat_file d' (vn_ops n) i0 = splice off bs (fat_file ((f, x), (t, er)) (vn_ops n) i0)) as Hfile.
  { unfold fat_file. rewrite Ho, Z.eqb_refl, V1, V2, V3, lookup_insert_eq. unfold table, vol_of, image. cbn [fst snd]. fold v l. rewrite Hi, C1, C3, Hl'.
    apply written_bytes; [apply Ht|by eapply chain_valid, Hn|by eapply chain_valid|done|lia|apply Hn|unfold len' in Hfit; fold (len (clusters_of v l i0 ++ new)) in Hfit; lia]. }
  split_and!; try done.
  - unfold set_length. f_equal. rewrite Hl'. unfold len'. by rewrite Hl.
  - split; [done|]. split; [exists fn'; split; [apply lookup_insert_eq|done]|]. cbn [vn_ops vn_inode vn_length]. rewrite Hfile, Hl'. fold i0 in Hlen.
    unfold len in *. rewrite PageCacheWrite.splice_length by lia. unfold len'. lia.
  - intros o i Hoi. unfold fat_file. rewrite V1, V2, V3. unfold table, vol_of, image. cbn [fst snd]. fold v l. destruct (Z.eqb_spec o fat32_ops); [|done].
    assert (i ≠ i0) by congruence. rewrite lookup_insert_ne by done. destruct (t !! i) as [fi|] eqn:Ei; [|done].
    destruct (table_other v l l2 t i0 fn new r c len' Ht Hi E Hscan i fi Ei) as (G1 & _ & G2 & _); [done|]. rewrite <-Ed in *. by rewrite G1, G2.
  - intros m (_ & Q2 & Q3 & Q4). unfold fat_ready. rewrite V1, V2. cbn [vn_inode]. split_and!; [exact M2|done| |done]. unfold vol_of, image in Q3. cbn [fst snd] in Q3.
    fold v l i0 in Q3. rewrite C1, C4. pose proof (e_free _ _ _ _ _ E). unfold len in *. rewrite length_app. lia.
Qed.

#[global] Instance fat_laws : FileLaws volume.
Proof.
  refine {| fl_ok d := table_sound (vol_of d) (image d) (table d); served := fat_served; file := fat_file; errors d := d.2.2; ready := fat_ready |}.
  - intros d n (_ & _ & Hl). exact Hl.
  - exact fat_ready_le.
  - intros d n off k Hd Hs _ Ho Hk. by apply fat_read_law.
  - intros d n off bs Hd Hs _ Hr Hne Ho _. by apply fat_write_law.
Defined.

End Driver.

(** ** The small volume below the cache: [A.TXT], 600 bytes, inode 3 *)

Definition demo_mounted : (fat * list Z) * (gmap Z fnode * Z) := ((demo_fat, demo_one), ({[3 := demo_node]}, 0)).
Definition demo_vnode : vfs_node := mk_vnode fat32_ops 3 600 true true.

Lemma demo_table : table_sound demo_vol demo_one {[3 := demo_node]}.
Proof.
  assert (clusters_of demo_vol demo_one 3 = [3; 4]) as E1 by (vm_compute; reflexivity).
  assert (dir_of demo_vol demo_one demo_node = [2]) as E2 by (vm_compute; reflexivity).
  split.
  - exact (demo_vol_ok _ demo_one_len).
  - intros i fn [<- <-]%lookup_singleton_Some. split; rewrite ?E1, ?E2.
    + reflexivity.
    + reflexivity.
    + exact demo_chain.
    + by vm_compute.
    + reflexivity.
    + by eexists.
    + exact demo_root_chain.
    + exists (Some (0%nat, 0)). vm_compute. reflexivity.
  - by intros i j fi fj [<- <-]%lookup_singleton_Some [<- <-]%lookup_singleton_Some.
  - intros i j fi fj [<- <-]%lookup_singleton_Some [<- <-]%lookup_singleton_Some. rewrite E1, E2. exact demo_apart.
  - intros i j fi fj [<- <-]%lookup_singleton_Some [<- <-]%lookup_singleton_Some. by left.
Qed.

Lemma demo_contents : fat_file demo_mounted fat32_ops 3 = replicate 600 65.
Proof. vm_compute. reflexivity. Qed.

Lemma demo_vnode_ok : PageCacheTheorems.node_ok (λ _, fat32_ops) demo_mounted demo_vnode.
Proof.
  split; [done|done|exact demo_table| |done]. split; [done|]. split; [by exists demo_node|]. cbn [vn_ops vn_inode vn_length demo_vnode]. by rewrite demo_contents.
Qed.

Lemma demo_ready m : m ≤ 9000 → fat_ready demo_mounted demo_vnode m.
Proof.
  intros Hm. apply (fat_ready_le _ _ 9000); [done|]. split; [done|]. split; [done|]. split; [|done].
  change (nfree _ _) with (nfree demo_vol demo_one). rewrite demo_nfree. vm_compute. reflexivity.
Qed.

Import PageCache PageCacheSpec PageCacheTheorems PageCacheWrite MemDisk.

Lemma demo_cold : ∃ c (a : Pmm.Pmm.pmm * unit), cache_inv c a (mk_view PmmPages.demo_free ∅) [] ∧ coherent (λ _, fat32_ops) c demo_mounted.
Proof. destruct demo_cache as (c & a & HI & _ & Hemp). exists c, a. split; [done|]. intros e k. by rewrite Hemp, lookup_empty. Qed.

Lemma page_cache_read_correct_witness : ∃ c (a : Pmm.Pmm.pmm * unit),
  wp (page_cache_read new_address demo_vnode 510 20) (c, (a, demo_mounted)) (λ data s',
    data = take (length data) (replicate 90 65) ∧ errors s'.2.2 = 0 ∧ fat_file s'.2.2 fat32_ops 3 = replicate 600 65).
Proof.
  destruct demo_cold as (c & a & HI & Hc). exists c, a.
  eapply wp_mono; [apply (page_cache_read_correct new_address (λ _, fat32_ops) c a demo_mounted _ [] demo_vnode 510 20 new_address_fresh demo_vnode_ok HI Hc); lia|].
  intros data s' (c' & a' & d' & v' & L' & -> & _ & _ & Hf & Hr & He & _). cbn [snd]. destruct (Hr 600 (demo_ready 600 ltac:(lia))) as [E _].
  destruct (He E) as [_ Hd]. split; [|split; [exact E|rewrite <-demo_contents; exact (Hf _ _)]].
  change (file demo_mounted (vn_ops demo_vnode) (vn_inode demo_vnode)) with (fat_file demo_mounted fat32_ops 3) in Hd. by rewrite demo_contents in Hd.
Defined.

(** The write takes the file to a third cluster. *)
Lemma page_cache_write_correct_witness : ∃ c (a : Pmm.Pmm.pmm * unit),
  wp (page_cache_write new_address demo_vnode 590 (replicate 600 66)) (c, (a, demo_mounted)) (λ '(n', cnt) s', 0 ≤ cnt ≤ 600 ∧ errors s'.2.2 = 0 ∧
    fat_file s'.2.2 fat32_ops 3 = splice 590 (take (Z.to_nat cnt) (replicate 600 66)) (replicate 600 65)).
Proof.
  destruct demo_cold as (c & a & HI & Hc). exists c, a.
  eapply wp_mono; [apply (page_cache_write_correct new_address (λ _, fat32_ops) c a demo_mounted _ [] demo_vnode 590 (replicate 600 66) new_address_fresh demo_vnode_ok
    eq_refl (demo_ready (590 + Z.of_nat (length (replicate 600 66))) ltac:(rewrite length_replicate; lia)) HI Hc); [split; [cbn; lia|left; cbn; lia]|done|by vm_compute]|].
  intros [n' cnt] s' (c' & a' & d' & v' & L' & -> & _ & _ & E & Hcnt & _ & Hf & _). rewrite length_replicate in Hcnt. split; [lia|]. split; [exact E|].
  rewrite <-demo_contents. exact Hf.
Defined.

End PageCacheFat.
