(* ===== verification/Fat32Names.v ===== *)
(** * Names in FAT32 directories

    The entries [fat32_create] writes for a name are read back by the scan of
    a directory as that name: long names through the accumulator, 13
    characters per entry and last entry first, short names through the fields
    of the entry itself. *)
From S2P Require Import Prelude Block Fat32.

Module Fat32Names.
Import Fat32.

Implicit Types (name e acc l : list Z) (es : list (list Z)).

(** ** Strings *)

Lemma strchr_app c l rest : c ∉ l → strchr c (l ++ c :: rest) = Some (length l).
Proof.
  induction l as [|b l IH]; intros Hc; cbn [app strchr length]; [by rewrite Z.eqb_refl|]. apply not_elem_of_cons in Hc as [Hb Hc].
  rewrite (proj2 (Z.eqb_neq b c)) by done. by rewrite IH.
Qed.

Lemma strchr_none c l : c ∉ l ↔ strchr c l = None.
Proof.
  induction l as [|b l IH]; cbn [strchr]; [set_solver|]. destruct (Z.eqb_spec b c) as [->|Hb]; [set_solver|].
  rewrite not_elem_of_cons. destruct (strchr c l); naive_solver.
Qed.

Lemma strchr_some c l k : strchr c l = Some k → l = take k l ++ c :: drop (S k) l ∧ c ∉ take k l.
Proof.
  revert k. induction l as [|b l IH]; intros k; cbn [strchr]; [done|]. destruct (Z.eqb_spec b c) as [->|Hb]; [intros [= <-]; cbn; set_solver|].
  destruct (strchr c l) as [j|]; cbn; [|done]. intros [= <-]. destruct (IH j eq_refl) as [H1 H2]. cbn [take drop app]. split; [by f_equal|]. set_solver.
Qed.

Lemma strrchr_last c l1 l2 : c ∉ l2 → strrchr c (l1 ++ c :: l2) = Some (length l1).
Proof.
  intros Hc. assert (strrchr c l2 = None) as Hn.
  { revert Hc. induction l2 as [|b l2 IH]; intros Hc; [done|]. apply not_elem_of_cons in Hc as [Hb Hc]. cbn [strrchr]. rewrite IH by done. by rewrite (proj2 (Z.eqb_neq b c)). }
  induction l1 as [|b l1 IH]; cbn [app strrchr length]; [by rewrite Hn, Z.eqb_refl|]. by rewrite IH.
Qed.

Lemma strrchr_none c l : c ∉ l → strrchr c l = None.
Proof. induction l as [|b l IH]; intros Hc; [done|]. apply not_elem_of_cons in Hc as [Hb Hc]. cbn [strrchr]. rewrite IH by done. by rewrite (proj2 (Z.eqb_neq b c)). Qed.

(** ** One long name entry *)

Definition units name (p : Z) (m : nat) : list Z := (λ j, lfn_unit name (p + Z.of_nat j)) <$> seq 0 m.

Lemma units_S name p m : units name p (S m) = lfn_unit name p :: units name (p + 1) m.
Proof.
  unfold units. cbn [seq fmap list_fmap]. f_equal; [f_equal; lia|]. rewrite <-fmap_S_seq, <-list_fmap_compose. apply list_fmap_ext. intros i x Hx. cbn. f_equal. lia.
Qed.

(** No byte of a name is zero. *)
Definition text name : Prop := Forall (λ b, 0 < b < 256) name.

Lemma get8_lookup p l b : 0 ≤ p → l !! Z.to_nat p = Some b → get8 p l = b.
Proof.
  intros Hp Hb. unfold get8. assert (slice p 1 l = [b]) as ->; [|cbn; lia]. apply list_eq. intros i. rewrite slice_lookup by done. destruct i as [|i].
  - rewrite decide_True by lia. by rewrite Nat.add_0_r.
  - rewrite decide_False by lia. done.
Qed.

Lemma lfn_unit_range name p : text name → 0 ≤ p → 0 ≤ lfn_unit name p < 65536.
Proof.
  intros Ht Hp. unfold lfn_unit. destruct (Z.ltb_spec p (len name)) as [Hl|Hl]; [|destruct (p =? len name); lia].
  destruct (lookup_lt_is_Some_2 name (Z.to_nat p)) as [b Hb]; [unfold len in Hl; lia|]. rewrite (get8_lookup p name b) by done. pose proof (proj1 (Forall_lookup _ _) Ht _ _ Hb). cbn in *. lia.
Qed.

(** The copy loops put a piece of the name at its place, and stop at its end. *)
Lemma lfn_copy_units name m : text name → ∀ p acc, 0 ≤ p → len name ≤ len acc →
  lfn_copy None (units name p m) acc (Z.min p (len name)) = (patch p (slice p (Z.of_nat m) name) acc, Z.min (p + Z.of_nat m) (len name)).
Proof.
  intros Ht. induction m as [|m IH]; intros p acc Hp Hl.
  { unfold units. cbn [seq fmap list_fmap lfn_copy]. change (Z.of_nat 0) with 0. rewrite slice_nil, patch_nil. f_equal. f_equal. lia. }
  rewrite units_S. cbn [lfn_copy]. unfold lfn_unit at 1. destruct (Z.ltb_spec p (len name)) as [Hlt|Hge].
  - destruct (lookup_lt_is_Some_2 name (Z.to_nat p)) as [b Hb]; [unfold len in Hlt; lia|]. pose proof (proj1 (Forall_lookup _ _) Ht _ _ Hb) as Hbr. cbn in Hbr.
    unfold lfn_unit. rewrite (proj2 (Z.ltb_lt p (len name))) by done. rewrite (get8_lookup p name b) by done.
    rewrite (proj2 (Z.eqb_neq b 0)), (proj2 (Z.eqb_neq b 0xFFFF)) by lia. cbn [orb].
    change 0xFF with (Z.ones 8). rewrite Z.land_ones, (Z.mod_small b) by lia. replace (Z.min p (len name)) with p by lia.
    assert (<[Z.to_nat p := b]> acc = patch p [b] acc) as ->.
    { apply list_eq. intros j. rewrite patch_lookup by (unfold inside, len in *; simpl; lia). change (len [b]) with 1. case_decide.
      - assert (j = Z.to_nat p) as -> by lia. rewrite list_lookup_insert_eq by (unfold len in *; lia). by rewrite Nat.sub_diag.
      - rewrite list_lookup_insert_ne by lia. done. }
    replace (p + 1) with (Z.min (p + 1) (len name)) at 2 by lia. assert (inside p (len [b]) acc) as Hi by (unfold inside, len in *; simpl; lia).
    rewrite IH; [|lia|unfold len in *; rewrite patch_length; done]. f_equal; [|f_equal; lia].
    assert (slice p (Z.of_nat (S m)) name = b :: slice (p + 1) (Z.of_nat m) name) as ->.
    { unfold slice. rewrite (drop_S name b (Z.to_nat p)) by done. replace (Z.to_nat (Z.of_nat (S m))) with (S m) by lia. replace (Z.to_nat (Z.of_nat m)) with m by lia.
      cbn [take]. do 2 f_equal. f_equal. lia. }
    apply (patch_behind p [b]). unfold inside. change (len [b]) with 1.
    assert (Z.of_nat (length (slice (p + 1) (Z.of_nat m) name)) ≤ len name - (p + 1)) by (unfold slice, len in *; rewrite length_take, length_drop; lia). unfold len in *. lia.
  - unfold lfn_unit. rewrite ?(proj2 (Z.ltb_ge p (len name))) by lia. assert (slice p (Z.of_nat (S m)) name = []) as ->.
    { unfold slice. rewrite drop_ge by (unfold len in *; lia). by rewrite take_nil. }
    rewrite patch_nil. destruct (Z.eqb_spec p (len name)) as [He|Hne]; cbn [Z.eqb orb Pos.eqb]; f_equal; lia.
Qed.

(** The fields of a long name entry. *)
Lemma lfn_entry_fields name cs n k : let e := lfn_entry name cs n k in let u i := le_bytes 2 (lfn_unit name ((k - 1) * 13 + i)) in
  slice 0 1 e = le_bytes 1 (if k =? n then Z.lor (u8 k) LFN_LAST_ENTRY_FLAG else u8 k) ∧ slice 11 1 e = [FAT32_ATTR_LONG_NAME] ∧ length e = 32%nat ∧
  slice 1 10 e = u 0 ++ u 1 ++ u 2 ++ u 3 ++ u 4 ∧ slice 14 12 e = u 5 ++ u 6 ++ u 7 ++ u 8 ++ u 9 ++ u 10 ∧ slice 28 4 e = u 11 ++ u 12.
Proof.
  intros e u. unfold e, lfn_entry, put_units. cbn [seq mbind list_bind app]. rewrite <-!Z.add_assoc. unfold u. cbn [le_bytes].
  split_and!; reflexivity.
Qed.

Lemma le_val_unit a b name p l : text name → 0 ≤ p → slice a b l = le_bytes 2 (lfn_unit name p) → le_val (slice a b l) = lfn_unit name p.
Proof. intros Ht Hp ->. rewrite le_val_bytes. change (2 ^ _) with 65536. apply Z.mod_small. by apply lfn_unit_range. Qed.

(** The units of an entry, from the bytes of one of its three fields. *)
Lemma lfn_units_bytes name m : text name → ∀ o p e, 0 ≤ o → 0 ≤ p →
  slice o (2 * Z.of_nat m) e = (seq 0 m) ≫= (λ j, le_bytes 2 (lfn_unit name (p + Z.of_nat j))) → lfn_units o m e = units name p m.
Proof.
  intros Ht o p e Ho Hp Hs. unfold lfn_units, units. apply list_fmap_ext. intros i j Hj. apply lookup_seq in Hj as [-> Hi]. cbn. unfold get16.
  assert (∀ k n q, (k < n)%nat → slice (2 * Z.of_nat k) 2 ((seq q n) ≫= (λ j, le_bytes 2 (lfn_unit name (p + Z.of_nat j)))) = le_bytes 2 (lfn_unit name (p + Z.of_nat (q + k)))) as Hg.
  { induction k as [|k IH]; intros n q Hk; (destruct n as [|n]; [lia|]); cbn [seq mbind list_bind].
    - change (2 * Z.of_nat 0) with 0. rewrite slice_app_l by (unfold len; rewrite ?le_bytes_len; lia). rewrite Nat.add_0_r.
      assert (len (le_bytes 2 (lfn_unit name (p + Z.of_nat q))) = 2) as <- by done. apply slice_all.
    - replace (2 * Z.of_nat (S k)) with (2 + 2 * Z.of_nat k) by lia. replace (q + S k)%nat with (S q + k)%nat by lia. rewrite <-(IH n (S q)) by lia.
      unfold slice. replace (Z.to_nat (2 + 2 * Z.of_nat k)) with (2 + Z.to_nat (2 * Z.of_nat k))%nat by lia. done. }
  apply le_val_unit; [done|lia|]. rewrite <-(slice_slice (2 * Z.of_nat i) 2 o (2 * Z.of_nat m)) by lia. rewrite Hs. by apply (Hg i m 0%nat).
Qed.

(** Pieces of one text, one behind the other. *)
Lemma slice_join p a b l : 0 ≤ p → 0 ≤ a → 0 ≤ b → slice p a l ++ slice (p + a) b l = slice p (a + b) l.
Proof.
  intros. unfold slice. replace (Z.to_nat (a + b)) with (Z.to_nat a + Z.to_nat b)%nat by lia. replace (Z.to_nat (p + a)) with (Z.to_nat p + Z.to_nat a)%nat by lia.
  rewrite <-drop_drop. apply take_take_drop.
Qed.

Lemma len_slice p a l : 0 ≤ p → 0 ≤ a → len (slice p a l) = Z.max 0 (Z.min a (len l - p)).
Proof. intros. unfold slice, len. rewrite length_take, length_drop. lia. Qed.

Lemma patch_join p a b name acc : 0 ≤ p → 0 ≤ a → 0 ≤ b → len name ≤ len acc →
  patch (p + a) (slice (p + a) b name) (patch p (slice p a name) acc) = patch p (slice p (a + b) name) acc.
Proof.
  intros Hp Ha Hb Hl. rewrite <-slice_join by done. destruct (decide (p + a ≤ len name)) as [Hle|Hgt].
  - assert (len (slice p a name) = a) as Hla by (rewrite len_slice by done; lia). pose proof (len_slice (p + a) b name ltac:(lia) Hb).
    rewrite <-patch_behind by (unfold inside, len in *; lia). by rewrite Hla.
  - assert (slice (p + a) b name = []) as -> by (unfold slice; rewrite drop_ge by (unfold len in *; lia); apply take_nil). by rewrite patch_nil, app_nil_r.
Qed.

(** An entry adds its 13 characters to the accumulator. *)
Lemma accumulate_entry name cs n k acc : text name → 1 ≤ k ≤ n → n ≤ 20 → 13 * (k - 1) ≤ len name → len name ≤ len acc →
  let e := lfn_entry name cs n k in
  get8 0 e ≠ 0 ∧ get8 0 e ≠ 0xE5 ∧ get8 11 e = FAT32_ATTR_LONG_NAME ∧ lfn_accumulate 20 None e acc = patch (13 * (k - 1)) (slice (13 * (k - 1)) 13 name) acc.
Proof.
  intros Ht Hk Hn Hp Hl e. destruct (lfn_entry_fields name cs n k) as (F0 & F1 & _ & F2 & F3 & F4). fold e in F0, F1, F2, F3, F4.
  set (p := 13 * (k - 1)) in *. replace ((k - 1) * 13) with p in * by (unfold p; lia).
  assert (Z.land (get8 0 e) 0x1F = k ∧ get8 0 e ≠ 0 ∧ get8 0 e ≠ 0xE5) as (G1 & G2 & G3).
  { unfold get8. rewrite F0, le_val_bytes. clear -Hk Hn. destruct (k =? n); assert (k = 1 ∨ k = 2 ∨ k = 3 ∨ k = 4 ∨ k = 5 ∨ k = 6 ∨ k = 7 ∨ k = 8 ∨ k = 9 ∨ k = 10 ∨
      k = 11 ∨ k = 12 ∨ k = 13 ∨ k = 14 ∨ k = 15 ∨ k = 16 ∨ k = 17 ∨ k = 18 ∨ k = 19 ∨ k = 20) as Hcases by lia;
      repeat (destruct Hcases as [->|Hcases]; [by vm_compute|]); subst k; by vm_compute. }
  split_and!; [done|done|unfold get8; by rewrite F1|]. clear G2 G3 F0 F1.
  unfold lfn_accumulate. rewrite G1. rewrite (proj2 (Z.ltb_lt 0 k)), (proj2 (Z.leb_le k 20)) by lia. cbn [andb].
  rewrite (lfn_units_bytes name 5 Ht 1 p), (lfn_units_bytes name 6 Ht 14 (p + 5)), (lfn_units_bytes name 2 Ht 28 (p + 11)); try lia; cycle 1.
  { cbn [seq mbind list_bind app]. rewrite app_nil_r, <-!Z.add_assoc. exact F4. }
  { cbn [seq mbind list_bind app]. rewrite app_nil_r, <-!Z.add_assoc. exact F3. }
  { cbn [seq mbind list_bind app]. rewrite app_nil_r. exact F2. }
  replace ((k - 1) * 13) with (Z.min p (len name)) by (unfold p in *; lia). change (p + 11) with (p + (5 + 6)).
  rewrite lfn_copy_units by (done || lia). change (Z.of_nat 5) with 5. cbv beta iota.
  assert (∀ a m, 0 ≤ a → 0 ≤ m → len (patch p (slice p a name) acc) = len acc) as Hlen.
  { intros a m Ha _. unfold len at 1. rewrite patch_length; [done|]. pose proof (len_slice p a name ltac:(lia) Ha). unfold inside, len in *. lia. }
  rewrite lfn_copy_units by (rewrite ?(Hlen 5 5); done || lia). change (Z.of_nat 6) with 6. cbv beta iota. rewrite patch_join by lia. rewrite <-Z.add_assoc.
  rewrite lfn_copy_units by (rewrite ?(Hlen (5 + 6) 5); done || lia). cbn [fst]. by rewrite patch_join by lia.
Qed.

(** ** The entries of a new file *)

Fixpoint lfn_entries name (cs n : Z) (k : nat) : list (list Z) :=
  match k with O => [] | S k' => lfn_entry name cs n (Z.of_nat k) :: lfn_entries name cs n k' end.

Definition short_of name (is_dir : bool) (initial : Z) : list Z := let '(sn, se) := fat32_gen_short_alias name in short_entry sn se is_dir initial.
Definition checksum_of name : Z := let '(sn, se) := fat32_gen_short_alias name in fat32_calc_lfn_checksum (sn ++ se).

Definition new_entries name (is_dir : bool) (initial : Z) : list (list Z) :=
  lfn_entries name (checksum_of name) (num_lfn name) (Z.to_nat (num_lfn name)) ++ [short_of name is_dir initial].

(** Names a directory can hold: no zero byte, not the mark of a deleted
    entry, no dot at the end of a name stored as a short one only. *)
Record storable name : Prop := {
  st_text : text name;
  st_mark : 0xE5 ∉ name;
  st_some : name ≠ [];
  st_fits : len name ≤ 259;
  st_dot : fat32_is_pure_short_name name = true → last name ≠ Some DOT;
}.

Lemma find_lfn_entries name cs n k : text name → len name ≤ 259 → n ≤ 20 → Z.of_nat k ≤ n → 13 * (Z.of_nat k - 1) ≤ len name → ∀ acc want rest, length acc = 260%nat →
  find_scan want (lfn_entries name cs n k ++ rest) (patch (13 * Z.of_nat k) (slice (13 * Z.of_nat k) 260 name) acc) = find_scan want rest (patch 0 name acc).
Proof.
  intros Ht Hl Hn. induction k as [|k IH]; intros Hk Hp acc want rest Ha.
  { change (13 * Z.of_nat 0) with 0. cbn [lfn_entries app]. do 2 f_equal. unfold slice, len in *. rewrite drop_0. apply take_ge. lia. }
  cbn [lfn_entries app find_scan]. set (p := 13 * Z.of_nat k) in *. pose proof (len_slice (13 * Z.of_nat (S k)) 260 name ltac:(lia) ltac:(lia)) as Hs.
  pose proof (len_slice p 13 name ltac:(lia) ltac:(lia)) as Hs2. assert (inside (13 * Z.of_nat (S k)) (len (slice (13 * Z.of_nat (S k)) 260 name)) acc ∨ slice (13 * Z.of_nat (S k)) 260 name = []) as Hi.
  { destruct (decide (13 * Z.of_nat (S k) < len name)); [left|right]; [unfold inside, len in *; lia|]. unfold slice. rewrite drop_ge by (unfold len in *; lia). apply take_nil. }
  destruct (accumulate_entry name cs n (Z.of_nat (S k)) (patch (13 * Z.of_nat (S k)) (slice (13 * Z.of_nat (S k)) 260 name) acc)) as (G1 & G2 & G3 & ->); try done; try lia.
  { destruct Hi as [Hi| ->]; [unfold len in *; rewrite patch_length by done; lia|]. rewrite patch_nil. unfold len in *. lia. }
  rewrite (proj2 (Z.eqb_neq _ 0)), (proj2 (Z.eqb_neq _ 0xE5)), G3 by done. cbn [Z.eqb FAT32_ATTR_LONG_NAME Pos.eqb].
  replace (13 * (Z.of_nat (S k) - 1)) with p in * by (unfold p; lia). replace (13 * Z.of_nat (S k)) with (p + 13) in * by (unfold p; lia).
  assert (patch p (slice p 13 name) (patch (p + 13) (slice (p + 13) 260 name) acc) = patch p (slice p 260 name) acc) as ->.
  { destruct Hi as [Hi|He].
    - rewrite patch_comm; [|unfold inside, len in *; lia|done|lia]. rewrite patch_join by (unfold len in *; lia). f_equal.
      unfold slice. rewrite !take_ge; [done| |]; rewrite length_drop; unfold len in *; lia.
    - rewrite He, patch_nil. f_equal. rewrite <-(app_nil_r (slice p 13 name)), <-He, slice_join by lia. unfold slice. rewrite !take_ge; [done| |]; rewrite length_drop; unfold len in *; lia. }
  apply IH; [lia|lia|done].
Qed.

Lemma pad_length n l : length (pad n l) = n.
Proof. unfold pad. rewrite length_app, length_replicate, length_take. lia. Qed.

Lemma until_space_pad n l : (length l ≤ n)%nat → SPACE ∉ l → until_space (pad n l) = l.
Proof.
  intros Hn Hs. unfold until_space, pad. rewrite take_ge by done. destruct (n - length l)%nat as [|m] eqn:E.
  - cbn [replicate]. rewrite app_nil_r. by rewrite (proj1 (strchr_none SPACE l) Hs).
  - cbn [replicate]. rewrite strchr_app by done. by rewrite take_app_length.
Qed.

Lemma alias_lengths name : let '(sn, se) := fat32_gen_short_alias name in length sn = 8%nat ∧ length se = 3%nat.
Proof. unfold fat32_gen_short_alias. repeat case_bool_decide; [by vm_compute..|]. destruct (fat32_is_pure_short_name name); by rewrite !pad_length. Qed.

(** The fields of a short entry. *)
Lemma short_entry_fields sn se (is_dir : bool) c : length sn = 8%nat → length se = 3%nat → let e := short_entry sn se is_dir c in
  length e = 32%nat ∧ slice 0 8 e = sn ∧ slice 8 3 e = se ∧ get8 11 e = (if is_dir then FAT32_ATTR_DIRECTORY else FAT32_ATTR_ARCHIVE) ∧ get32 28 e = 0 ∧
  slice 20 2 e = le_bytes 2 (Z.land (Z.shiftr c 16) 0xFFFF) ∧ slice 26 2 e = le_bytes 2 (Z.land c 0xFFFF).
Proof.
  intros Hn He e. do 8 (destruct sn as [|? sn]; [done|]). destruct sn; [|done]. do 3 (destruct se as [|? se]; [done|]). destruct se; [|done].
  split_and!; destruct is_dir; reflexivity.
Qed.

Lemma short_char_bounds c : short_char c = true → c ≠ DOT → 0x21 ≤ c ≤ 0x7E.
Proof.
  unfold short_char. intros Hs Hd. rewrite (proj2 (Z.eqb_neq c DOT)) in Hs by done. cbn [orb] in Hs. apply andb_true_iff in Hs as [_ Hs].
  apply negb_true_iff, orb_false_iff in Hs as [H1%Z.ltb_ge H2%Z.ltb_ge]. lia.
Qed.

(** What a pure short name looks like. *)
Lemma pure_short_form name : fat32_is_pure_short_name name = true → last name ≠ Some DOT → ∃ np ext,
  fat32_gen_short_alias name = (pad 8 np, pad 3 ext) ∧ name = np ++ (if bool_decide (ext = []) then [] else DOT :: ext) ∧
  (0 < length np ≤ 8)%nat ∧ (length ext ≤ 3)%nat ∧ Forall (λ c, 0x21 ≤ c ≤ 0x7E) (np ++ ext).
Proof.
  intros Hp Hl. pose proof Hp as Hp'. unfold fat32_is_pure_short_name in Hp. destruct ((len name =? 0) || (12 <? len name)) eqn:E0; [done|]. apply orb_false_iff in E0 as [E0 _]. apply Z.eqb_neq in E0.
  destruct (decide (name = [DOT])) as [->|N1]; [done|]. destruct (decide (name = [DOT; DOT])) as [->|N2]; [done|].
  rewrite (bool_decide_false (name = [DOT])), (bool_decide_false (name = [DOT; DOT])) in Hp by done. cbn [orb] in Hp.
  unfold fat32_gen_short_alias. rewrite (bool_decide_false (name = [DOT])), (bool_decide_false (name = [DOT; DOT])), Hp' by done.
  destruct (strchr DOT name) as [d|] eqn:Ed.
  - destruct (strchr_some _ _ _ Ed) as [En Hnp]. set (np := take d name) in *. set (ext := drop (S d) name) in *.
    case_bool_decide as Hx; [done|]. assert (DOT ∉ ext) as Hext by (apply strchr_none; destruct (strchr DOT ext); [exfalso; apply Hx; eauto|done]).
    destruct (_ || _) eqn:E1 in Hp; [done|]. apply orb_false_iff in E1 as [[E1%Z.eqb_neq E2%Z.ltb_ge]%orb_false_iff E3%Z.ltb_ge].
    assert (length np = d) as Hd by (unfold np; rewrite length_take; pose proof (f_equal length En); rewrite length_app in *; unfold np in *; simpl in *; rewrite length_take in *; lia).
    assert (strrchr DOT name = Some d) as -> by (rewrite En, strrchr_last by done; by rewrite Hd). exists np, ext. destruct d as [|d]; [lia|].
    assert (ext ≠ []) as Hne by (intros He; rewrite He in En; apply Hl; rewrite En; by rewrite last_snoc).
    split_and!; try done; [by rewrite bool_decide_false|lia|lia|unfold len in E3; lia|].
    rewrite En in Hp. rewrite forallb_app in Hp. cbn [forallb] in Hp. apply andb_true_iff in Hp as [P1 [_ P2]%andb_true_iff].
    rewrite forallb_forall in P1, P2. apply Forall_app. split; apply Forall_forall; intros c Hc; apply short_char_bounds.
    all: first [apply P1; by apply list_elem_of_In | apply P2; by apply list_elem_of_In | congruence].
  - apply strchr_none in Ed. rewrite strrchr_none by done. exists name, []. destruct (8 <? len name) eqn:E1; [done|]. apply Z.ltb_ge in E1.
    rewrite bool_decide_true by done. unfold len in *. rewrite !app_nil_r. split_and!; try done; [lia|lia|cbn; lia|]. rewrite forallb_forall in Hp.
    apply Forall_forall. intros c Hc. apply short_char_bounds; [apply Hp; by apply list_elem_of_In|congruence].
Qed.

Lemma short_of_fields name is_dir c : let e := short_of name is_dir c in let '(sn, se) := fat32_gen_short_alias name in
  length e = 32%nat ∧ slice 0 8 e = sn ∧ slice 8 3 e = se ∧ get8 11 e = (if is_dir then FAT32_ATTR_DIRECTORY else FAT32_ATTR_ARCHIVE) ∧ get32 28 e = 0 ∧
  slice 20 2 e = le_bytes 2 (Z.land (Z.shiftr c 16) 0xFFFF) ∧ slice 26 2 e = le_bytes 2 (Z.land c 0xFFFF).
Proof. unfold short_of. pose proof (alias_lengths name) as Hl. destruct (fat32_gen_short_alias name) as [sn se]. destruct Hl. by apply short_entry_fields. Qed.

Lemma get8_head e l : slice 0 8 e = l → (0 < length l)%nat → get8 0 e = l !!! 0%nat.
Proof.
  intros Hs Hl. unfold get8. pose proof (slice_slice 0 1 0 8 e ltac:(lia) ltac:(lia) ltac:(lia)) as E. rewrite Hs in E. change (0 + 0) with 0 in E. rewrite <-E. destruct l as [|b l]; [simpl in Hl; lia|]. change (b + 256 * 0 = b). lia.
Qed.

Lemma upcase_text c : 0 < c < 256 → c ≠ 0xE5 → upcase c ≠ 0 ∧ upcase c ≠ 0xE5.
Proof. unfold upcase, lower. destruct ((97 <=? c) && (c <=? 122)) eqn:E; [apply andb_true_iff in E as [? ?]|]; lia. Qed.

(** The first byte of the short entry marks neither the end of the directory
    nor a deleted entry. *)
Lemma alias_head name : storable name → let sn := (fat32_gen_short_alias name).1 in sn !!! 0%nat ≠ 0 ∧ sn !!! 0%nat ≠ 0xE5.
Proof.
  intros [Ht Hm Hs _ Hd]. destruct (fat32_is_pure_short_name name) eqn:Ep.
  - destruct (pure_short_form name Ep (Hd eq_refl)) as (np & ext & -> & _ & Hn & _ & Hf). cbn [fst]. destruct np as [|c np]; [simpl in Hn; lia|]. cbn in *. apply Forall_cons in Hf as [Hc _]. cbn in Hc. lia.
  - unfold fat32_gen_short_alias. rewrite Ep. case_bool_decide; [by vm_compute|]. case_bool_decide; [by vm_compute|]. cbn [fst].
    set (np := match _ with Some d => take d name | None => name end). assert (∀ c, c ∈ np → c ∈ name) as Hin.
    { unfold np. intros c Hc. destruct (match strrchr DOT name with Some O => None | d => d end); [|done]. by eapply elem_of_take in Hc as (? & ? & ?); eapply list_elem_of_lookup_2. }
    unfold alias_base. destruct (filter _ np) as [|c cs] eqn:Ef; [by vm_compute|]. cbn.
    assert (c ∈ np) as Hc by (eapply list_elem_of_filter; rewrite Ef; constructor). unfold text in Ht. rewrite Forall_forall in Ht. pose proof (Ht c (Hin c Hc)).
    apply upcase_text; [done|]. intros ->. by apply Hm, Hin.
Qed.

Lemma short_name_read name is_dir c : fat32_is_pure_short_name name = true → last name ≠ Some DOT → fat32_format_short_name (short_of name is_dir c) = name.
Proof.
  intros Hp Hd. pose proof (short_of_fields name is_dir c) as F. cbv zeta in F. destruct (pure_short_form name Hp Hd) as (np & ext & Ea & En & Hn & Hx & Hf). rewrite Ea in F. destruct F as (_ & F1 & F2 & _).
  set (e := short_of name is_dir c) in *. apply Forall_app in Hf as [Hf1 Hf2].
  assert (∀ l, Forall (λ c, 0x21 ≤ c ≤ 0x7E) l → SPACE ∉ l ∧ 0 ∉ l) as Hno.
  { intros l Hl. rewrite Forall_forall in Hl. split; intros Hin; apply Hl in Hin; unfold SPACE in *; lia. }
  unfold fat32_format_short_name. rewrite F1, F2, !until_space_pad by (done || lia || by apply Hno).
  assert (get8 8 e = pad 3 ext !!! 0%nat) as ->.
  { unfold get8. pose proof (slice_slice 0 1 8 3 e ltac:(lia) ltac:(lia) ltac:(lia)) as E. rewrite F2 in E. change (8 + 0) with 8 in E. rewrite <-E. pose proof (pad_length 3 ext) as Hl. destruct (pad 3 ext) as [|b q]; [done|]. change (b + 256 * 0 = b). lia. }
  assert ((if pad 3 ext !!! 0%nat =? SPACE then [] else DOT :: ext) = if bool_decide (ext = []) then [] else DOT :: ext) as ->.
  { destruct ext as [|x ext]; [done|]. cbn. apply Forall_cons in Hf2 as [Hx2 _]. cbn in Hx2. by rewrite (proj2 (Z.eqb_neq x SPACE)) by (unfold SPACE; lia). }
  rewrite <-En. unfold cstr. rewrite (proj1 (strchr_none 0 name)); [done|]. rewrite En. destruct (Hno np Hf1), (Hno ext Hf2). case_bool_decide; [by rewrite app_nil_r|].
  rewrite not_elem_of_app, not_elem_of_cons. done.
Qed.

Lemma num_lfn_bounds name : storable name → fat32_is_pure_short_name name = false → 1 ≤ num_lfn name ≤ 20 ∧ 13 * (num_lfn name - 1) ≤ len name ∧ len name ≤ 13 * num_lfn name.
Proof.
  intros [_ _ Hs Hl _] Hp. unfold num_lfn. rewrite Hp. assert (1 ≤ len name) by (destruct name; [done|unfold len; simpl; lia]). Z.div_mod_to_equations. lia.
Qed.

Lemma scan_new_entries name is_dir c want rest : storable name →
  find_scan want (new_entries name is_dir c ++ rest) empty_acc = if bool_decide (name = want) then Some (Found (short_of name is_dir c) name) else find_scan want rest empty_acc.
Proof.
  intros Hst. pose proof (short_of_fields name is_dir c) as F. pose proof (alias_head name Hst) as Hh. cbv zeta in F, Hh. pose proof (alias_lengths name) as Hal. pose proof Hst as [Ht Hm Hs Hl Hd].
  destruct (fat32_gen_short_alias name) as [sn se] eqn:Ea. cbn [fst] in Hh. destruct F as (_ & F1 & F2 & F3 & _), Hh as [H1 H2], Hal as [Hal _]. set (e := short_of name is_dir c) in *.
  rewrite <-(get8_head e sn F1) in H1, H2 by lia. assert (get8 11 e ≠ FAT32_ATTR_LONG_NAME) as H3 by (rewrite F3; by destruct is_dir).
  assert (∀ acc, entry_name acc e = Some name → find_scan want (e :: rest) acc = if bool_decide (name = want) then Some (Found e name) else find_scan want rest empty_acc) as Hshort.
  { intros acc Hn. cbn [find_scan]. rewrite (proj2 (Z.eqb_neq _ 0)), (proj2 (Z.eqb_neq _ 0xE5)), (proj2 (Z.eqb_neq (get8 11 e) _)), Hn by done. done. }
  unfold new_entries. rewrite <-app_assoc. fold e. cbn [app]. destruct (fat32_is_pure_short_name name) eqn:Ep.
  - unfold num_lfn. rewrite Ep. cbn [Z.to_nat lfn_entries app]. apply Hshort. unfold entry_name. change (get8 0 empty_acc =? 0) with true. cbv iota. f_equal. apply short_name_read; auto.
  - destruct (num_lfn_bounds name Hst Ep) as (B1 & B2 & B3). set (n := num_lfn name) in *.
    pose proof (find_lfn_entries name (checksum_of name) n (Z.to_nat n) Ht Hl ltac:(lia) ltac:(lia) ltac:(lia) empty_acc want (e :: rest) eq_refl) as Hf.
    rewrite Z2Nat.id in Hf by lia. assert (slice (13 * n) 260 name = []) as Hsl by (unfold slice; rewrite drop_ge by (unfold len in *; lia); apply take_nil).
    rewrite Hsl, patch_nil in Hf. rewrite Hf. apply Hshort. assert (patch 0 name empty_acc = name ++ replicate (260 - length name) 0) as ->.
    { unfold patch, empty_acc. rewrite drop_replicate. done. }
    assert (replicate (260 - length name) 0 = 0 :: replicate (259 - length name) 0) as -> by (replace (260 - length name)%nat with (S (259 - length name)) by (unfold len in Hl; lia); done).
    assert (0 ∉ name) as Hz by (intros Hin; unfold text in Ht; rewrite Forall_forall in Ht; apply Ht in Hin; lia).
    unfold entry_name. rewrite strchr_app, take_app_length by done. destruct name as [|b name]; [done|]. apply not_elem_of_cons in Hz as [Hz _]. rewrite (get8_lookup 0 _ b) by done. by rewrite (proj2 (Z.eqb_neq b 0)).
Qed.

End Fat32Names.
