(* ===== verification/Fat32Create.v ===== *)
(** * Creating files on a FAT32 volume

    Where [fat32_create] puts the entries of a new file, and when the lookup
    finds them: whenever the scan of the directory gets as far as the slots.
    Every other name of the directory and every other chain stays as it was. *)
From S2P Require Import Prelude Block Fat32 Fat32Spec Fat32Files Fat32Write Fat32Dir Fat32Names Fat32Theorems.

Module Fat32Create.
Import Fat32 Fat32Spec Fat32Files Fat32Write Fat32Dir Fat32Names Fat32Theorems.

Implicit Types (v : fat32_volume) (l e acc name buf : list Z) (c : Z) (f : fat) (ch new dch : list Z) (es bufs : list (list Z)).

(** ** The scan over all clusters of a directory *)

Definition all_entries v bufs : list (list Z) := bufs ≫= entries_of v.

Lemma find_scan_app want es1 es2 : ∀ acc, find_scan want (es1 ++ es2) acc =
  match find_scan want es1 acc with Some (More acc' _) => find_scan want es2 acc' | r => r end.
Proof.
  induction es1 as [|e es1 IH]; intros acc; [done|]. cbn [app find_scan]. destruct (get8 0 e =? 0); [done|]. destruct (get8 0 e =? 0xE5); [apply IH|].
  destruct (get8 11 e =? FAT32_ATTR_LONG_NAME); [apply IH|]. destruct (entry_name acc e); [|done]. destruct (bool_decide _); [done|apply IH].
Qed.

Definition find_in (want : list Z) es acc : option (option (list Z)) :=
  match find_scan want es acc with None => None | Some (Found e _) => Some (Some e) | Some _ => Some None end.

Lemma dir_find_all v want bufs : ∀ acc, dir_find v want bufs acc = find_in want (all_entries v bufs) acc.
Proof.
  unfold find_in. induction bufs as [|b bufs IH]; intros acc; [done|]. rewrite dir_find_cons. unfold all_entries. cbn [mbind list_bind]. rewrite find_scan_app.
  destruct (find_scan want (entries_of v b) acc) as [[e nm| |acc' k]|]; try done; apply IH.
Qed.

(** Scans for two names that both get through leave the same accumulator. *)
Lemma find_scan_acc want want' es : ∀ acc acc1 i1, find_scan want es acc = Some (More acc1 i1) →
  (∃ i2, find_scan want' es acc = Some (More acc1 i2)) ∨ ∃ e nm, find_scan want' es acc = Some (Found e nm).
Proof.
  induction es as [|e es IH]; intros acc acc1 i1; cbn [find_scan]; [intros [= <- <-]; eauto|]. destruct (get8 0 e =? 0); [done|]. destruct (get8 0 e =? 0xE5); [apply IH|].
  destruct (get8 11 e =? FAT32_ATTR_LONG_NAME); [apply IH|]. destruct (entry_name acc e) as [nm|]; [|done]. case_bool_decide; [done|]. intros Hf. case_bool_decide; [eauto|]. by apply IH in Hf.
Qed.

(** ** Slots *)

Definition free_entry e : bool := (get8 0 e =? 0) || (get8 0 e =? 0xE5).

(** [n] free entries from [s] on. *)
Definition run_at (n : Z) buf (s : Z) : Prop := ∀ j, s ≤ j < s + n → free_entry (entry_at j buf) = true.

(** The first run of [n] free entries that lies in one cluster: cluster [k]
    of the directory, entry [s] of it. *)
Fixpoint slot_at v (n : Z) bufs (k : nat) (s : Z) : Prop :=
  match bufs, k with
  | b :: _, O => 0 ≤ s ∧ s + n ≤ csize v / sizeof_dir_entry ∧ run_at n b s ∧ ∀ i, 0 ≤ i < s → ¬ run_at n b i
  | b :: bufs', S k' => (∀ i, 0 ≤ i → i + n ≤ csize v / sizeof_dir_entry → ¬ run_at n b i) ∧ slot_at v n bufs' k' s
  | [], _ => False
  end.

Lemma entry_head buf j : 0 ≤ j → 32 * (j + 1) ≤ len buf → ∃ b, buf !! Z.to_nat (32 * j) = Some b ∧ get8 0 (entry_at j buf) = b.
Proof.
  intros Hj Hl. destruct (lookup_lt_is_Some_2 buf (Z.to_nat (32 * j))) as [b Hb]; [unfold len in Hl; lia|]. exists b. split; [done|]. apply get8_lookup; [done|].
  unfold entry_at, sizeof_dir_entry. rewrite slice_lookup, decide_True by lia. by rewrite Nat.add_0_r.
Qed.

Lemma free_entry_false e : free_entry e = false ↔ negb (get8 0 e =? 0) && negb (get8 0 e =? 0xE5) = true.
Proof. unfold free_entry. destruct (get8 0 e =? 0), (get8 0 e =? 0xE5); done. Qed.

(** ** The entries written *)

Lemma lfn_entries_length name cs n k : length (lfn_entries name cs n k) = k.
Proof. induction k as [|k IH]; [done|]. cbn [lfn_entries length]. by rewrite IH. Qed.

Lemma lfn_entries_sizes name cs n k : Forall (λ e, len e = 32) (lfn_entries name cs n k).
Proof. induction k as [|k IH]; constructor; [|done]. destruct (lfn_entry_fields name cs n (Z.of_nat (S k))) as (_ & _ & Hl & _). unfold len. by rewrite Hl. Qed.

Lemma short_of_length name is_dir c : len (short_of name is_dir c) = 32.
Proof. pose proof (short_of_fields name is_dir c) as F. cbv zeta in F. destruct (fat32_gen_short_alias name). unfold len. by rewrite (proj1 F). Qed.

Lemma num_lfn_pos name : 0 ≤ num_lfn name.
Proof. unfold num_lfn. destruct (fat32_is_pure_short_name name); [lia|]. apply Z.div_pos; unfold len; lia. Qed.

Lemma mjoin_sizes es : Forall (λ e, len e = 32) es → len (mjoin es) = 32 * Z.of_nat (length es).
Proof. induction 1 as [|e es He _ IH]; [done|]. change (mjoin (e :: es)) with (e ++ mjoin es). cbn [length]. unfold len in *. rewrite length_app. lia. Qed.

Lemma new_entries_sizes name is_dir c : Forall (λ e, len e = 32) (new_entries name is_dir c) ∧ len (mjoin (new_entries name is_dir c)) = 32 * (num_lfn name + 1) ∧
  Z.of_nat (length (new_entries name is_dir c)) = num_lfn name + 1.
Proof.
  assert (Forall (λ e, len e = 32) (new_entries name is_dir c)) as Hs by (apply Forall_app; split; [apply lfn_entries_sizes|constructor; [apply short_of_length|constructor]]).
  assert (Z.of_nat (length (new_entries name is_dir c)) = num_lfn name + 1) as Hl.
  { unfold new_entries. rewrite length_app, lfn_entries_length. simpl. pose proof (num_lfn_pos name). lia. }
  split; [done|]. by rewrite mjoin_sizes, Hl.
Qed.

(** A run of entries replaced in a cluster. *)
Lemma entries_replaced n es : Forall (λ e, len e = 32) es → ∀ buf (s : nat), len buf = 32 * n → Z.of_nat s + Z.of_nat (length es) ≤ n →
  entries n (patch (32 * Z.of_nat s) (mjoin es) buf) = take s (entries n buf) ++ es ++ drop (s + length es) (entries n buf).
Proof.
  induction 1 as [|e es He Hes IH]; intros buf s Hb Hs.
  { cbn [mjoin list_join length app]. by rewrite patch_nil, Nat.add_0_r, take_drop. }
  change (mjoin (e :: es)) with (e ++ mjoin es). cbn [length] in *. pose proof (mjoin_sizes es Hes) as Hj.
  assert (inside (32 * Z.of_nat s) (len e) buf) as Hi by (unfold inside, len in *; lia).
  rewrite <-patch_behind by (unfold inside, len in *; lia). rewrite He. replace (32 * Z.of_nat s + 32) with (32 * Z.of_nat (S s)) by lia.
  rewrite IH; [|unfold len in *; by rewrite patch_length|lia]. rewrite entries_patch by lia. rewrite Nat2Z.id.
  assert (s < length (entries n buf))%nat as Hlt by (rewrite entries_length; lia).
  rewrite (take_S_r _ _ e) by by rewrite list_lookup_insert_eq. rewrite take_insert_ge by lia. rewrite drop_insert_lt by lia. rewrite <-app_assoc. cbn [app].
  do 4 f_equal. lia.
Qed.

(** ** What the lookup sees *)

(** The entries of a directory in front of slot [s] of cluster [k]. *)
Definition before v bufs (k : nat) (s : Z) : list (list Z) := all_entries v (take k bufs) ++ take (Z.to_nat s) (entries_of v (bufs !!! k)).

(** Nothing but end marks behind an end mark. *)
Definition ended es : Prop := ∀ i j e e', (i < j)%nat → es !! i = Some e → get8 0 e = 0 → es !! j = Some e' → get8 0 e' = 0.

Lemma all_entries_split v bufs k b s (m : nat) : bufs !! k = Some b →
  ∃ mid post, all_entries v bufs = before v bufs k s ++ mid ++ post ∧ mid = take m (drop (Z.to_nat s) (entries_of v b)) ∧
    ∀ b' es, entries_of v b' = take (Z.to_nat s) (entries_of v b) ++ es ++ drop (Z.to_nat s + m) (entries_of v b) →
      all_entries v (<[k := b']> bufs) = before v bufs k s ++ es ++ post.
Proof.
  intros Hk. exists (take m (drop (Z.to_nat s) (entries_of v b))), (drop (Z.to_nat s + m) (entries_of v b) ++ all_entries v (drop (S k) bufs)).
  pose proof (lookup_lt_Some _ _ _ Hk) as Hlt. unfold before. rewrite (list_lookup_total_correct _ _ _ Hk). split_and!; [|done|].
  - unfold all_entries. rewrite <-(take_drop_middle bufs k b Hk) at 1. rewrite bind_app. cbn [mbind list_bind]. rewrite <-!app_assoc. f_equal.
    rewrite (app_assoc (take m _)), <-drop_drop, take_drop. by rewrite (app_assoc (take _ _)), take_drop.
  - intros b' es Hb'. rewrite insert_take_drop by done. unfold all_entries. rewrite bind_app. cbn [mbind list_bind]. rewrite Hb', <-!app_assoc. done.
Qed.

(** Free entries are passed over, up to an end mark. *)
Lemma find_scan_free want mid post : Forall (λ e, free_entry e = true) mid → ∀ acc,
  find_scan want (mid ++ post) acc = if bool_decide (Exists (λ e, get8 0 e = 0) mid) then Some EndOfDir else find_scan want post acc.
Proof.
  induction 1 as [|e mid He _ IH]; intros acc; [done|]. cbn [app find_scan]. destruct (Z.eqb_spec (get8 0 e) 0) as [E0|E0].
  - rewrite bool_decide_true; [done|]. by left.
  - unfold free_entry in He. rewrite (proj2 (Z.eqb_neq _ _) E0) in He. cbn [orb] in He. rewrite He, IH. erewrite bool_decide_ext; [done|]. rewrite Exists_cons. naive_solver.
Qed.

Lemma find_in_marks want post acc : Forall (λ e, get8 0 e = 0) post → find_in want post acc = Some None.
Proof. intros Hp. unfold find_in. destruct Hp as [|e post He _]; [done|]. cbn [find_scan]. by rewrite He. Qed.

(** The directory after the entries of [name] have replaced free ones: the
    name is found, and every other lookup is the same. *)
Lemma find_new name is_dir c pre mid post : storable name → find_scan name pre empty_acc = Some (More empty_acc 0) →
  find_in name (pre ++ new_entries name is_dir c ++ post) empty_acc = Some (Some (short_of name is_dir c)) ∧
  (Forall (λ e, free_entry e = true) mid → ended (pre ++ mid ++ post) → ∀ want, want ≠ name →
    find_in want (pre ++ new_entries name is_dir c ++ post) empty_acc = find_in want (pre ++ mid ++ post) empty_acc).
Proof.
  intros Hst Hpre. split.
  { unfold find_in. rewrite find_scan_app, Hpre, scan_new_entries by done. by rewrite bool_decide_true. }
  intros Hm He want Hw. unfold find_in. rewrite !(find_scan_app want pre). destruct (find_scan_acc name want pre _ _ _ Hpre) as [[i2 ->]|(e & nm & ->)]; [|done].
  rewrite scan_new_entries, bool_decide_false, find_scan_free by done. case_bool_decide as Hx; [|done]. apply Exists_exists in Hx as (e & Hin & Hz). apply list_elem_of_lookup in Hin as [i Hi].
  pose proof (lookup_lt_Some _ _ _ Hi) as Hlt. fold (find_in want post empty_acc). apply find_in_marks. apply Forall_lookup. intros j e' Hj.
  apply (He (length pre + i)%nat (length pre + (length mid + j))%nat e); [lia| |done|]; rewrite lookup_app_r by lia.
  - replace (length pre + i - length pre)%nat with i by lia. by apply lookup_app_l_Some.
  - replace (length pre + (length mid + j) - length pre)%nat with (length mid + j)%nat by lia. rewrite lookup_app_r by lia. by replace (length mid + j - length mid)%nat with j by lia.
Qed.

Section Create.
  Context {D : Type} `{BlockLaws D}.
  Implicit Types (d : D) (st : state (D := D)).

Lemma first_used_spec buf i n : ∀ j st (Q : option Z → state → Prop), 0 ≤ i → 0 ≤ j → 32 * (i + j + Z.of_nat n) ≤ len buf → len buf < 2 ^ 32 →
  (∀ r, match r with None => ∀ x, j ≤ x < j + Z.of_nat n → free_entry (entry_at (i + x) buf) = true
        | Some x => j ≤ x < j + Z.of_nat n ∧ free_entry (entry_at (i + x) buf) = false end → Q r st) → wp (first_used n j i buf) st Q.
Proof.
  induction n as [|n IH]; intros j st Q Hi Hj Hl Hm HQ; cbn [first_used]; [apply wp_ret, HQ; lia|].
  rewrite wrap_small by lia. destruct (entry_head buf (i + j)) as (b & Hb & Eb); [lia|lia|]. apply wp_bind. eapply wp_deref; [exact Hb|]. rewrite <-Eb.
  destruct (negb _ && negb _) eqn:E; [apply wp_ret, HQ; split; [lia|by apply free_entry_false]|]. assert (free_entry (entry_at (i + j) buf) = true) as Hf.
  { apply not_false_iff_true. rewrite free_entry_false. congruence. }
  apply IH; [lia..|]. intros r Hr. apply HQ. destruct r as [x|]; [destruct Hr; split; [lia|done]|]. intros x Hx. destruct (decide (x = j)) as [->|]; [done|]. apply Hr. lia.
Qed.

Lemma slot_search_spec buf n epc fuel : ∀ i st (Q : option Z → state → Prop), len buf = 32 * epc → 0 < n ≤ epc → len buf < 2 ^ 32 → 0 ≤ i → epc - i < Z.of_nat fuel →
  (∀ r, match r with None => ∀ x, i ≤ x → x + n ≤ epc → ¬ run_at n buf x
        | Some s => i ≤ s ∧ s + n ≤ epc ∧ run_at n buf s ∧ ∀ x, i ≤ x < s → ¬ run_at n buf x end → Q r st) → wp (slot_search fuel i (epc - n) n buf) st Q.
Proof.
  induction fuel as [|fuel IH]; intros i st Q Hb Hn Hm Hi Hf HQ; cbn [slot_search]; (destruct (Z.leb_spec i (epc - n)); [|apply wp_ret, HQ; intros x Hx1 Hx2; lia]); [lia|].
  apply wp_bind. apply first_used_spec; [done|done|lia|done|]. intros [x|] Hr.
  - destruct Hr as [Hx Hu]. rewrite wrap_small by lia. assert (∀ y, i ≤ y ≤ i + x → ¬ run_at n buf y) as Hno. { intros y Hy Hrun. rewrite Hrun in Hu; [done|lia]. }
    apply IH; [done|done|done|lia|lia|]. intros r Hr. apply HQ. destruct r as [s|].
    + destruct Hr as (R1 & R2 & R3 & R4). split_and!; [lia|done|done|]. intros y Hy. destruct (decide (y ≤ i + x)); [apply Hno; lia|apply R4; lia].
    + intros y Hy1 Hy2. destruct (decide (y ≤ i + x)); [apply Hno; lia|apply Hr; lia].
  - apply wp_ret, HQ. split_and!; [lia|lia| |lia]. intros j Hj. replace j with (i + (j - i)) by lia. apply Hr. lia.
Qed.

Lemma slots_loop_spec f n rest : ∀ c fuel d k s (Q : option (Z * list Z * Z) → state → Prop), let v := current_vol f in let l := content d in
  vol_ok v (len l) → chain v l (c :: rest) → (S (length rest) < fuel)%nat → 0 < n ≤ csize v / sizeof_dir_entry → slot_at v n (cl v l <$> (c :: rest)) k s →
  (∀ d' lba ck, content d' = l → (c :: rest) !! k = Some ck → 512 * lba = data_at v ck → Q (Some (lba, cl v l ck, s)) (f, d')) →
  wp (slots_loop fuel c n (csize v)) (f, d) Q.
Proof.
  induction rest as [|c' rest IH]; intros c fuel d k s Q v l Hv Hch Hf Hn Hs HQ; (destruct fuel as [|fuel]; [simpl in Hf; lia|]); pose proof Hch as [Hcv Hnx];
    cbn [slots_loop]; rewrite (in_chain_valid v _ c Hv Hcv); cbn [negb]; pose proof (csize_pos v _ Hv) as Hcs; destruct (epc_size v) as [_ Hep];
    (apply wp_bind, wp_cluster_lba; [done|done|]); fold v; intros lba El; (apply wp_bind, wp_vol); fold v; destruct (data_behind _ _ _ Hv Hcv) as (D1 & D2 & D3);
    (apply wp_bind, wp_bread; [rewrite El; fold (csize v); unfold inside, len, l in *; lia|]); intros d1 Ed1; rewrite El; fold (csize v) l; fold (cl v l c); cbn [snd];
    (assert (len (cl v l c) = csize v) as Hcl by (unfold len; rewrite cl_length by done; lia)); rewrite (wrap_small 32) by lia;
    apply wp_bind, slot_search_spec; try lia; intros r Hr.
  - destruct k as [|k]; [|by destruct Hs as [_ []]]. cbn [slot_at fmap list_fmap] in Hs. destruct Hs as (S1 & S2 & S3 & S4). destruct r as [s'|].
    + destruct Hr as (R1 & R2 & R3 & R4). assert (s' = s) as -> by (destruct (Z.lt_trichotomy s' s) as [Hlt|[->|Hlt]]; [exfalso; apply (S4 s'); [lia|done]|done|exfalso; apply (R4 s); [lia|done]]).
      apply wp_ret. by apply (HQ d1 lba c).
    + exfalso; apply (Hr s); done.
  - destruct k as [|k]; cbn [slot_at fmap list_fmap] in Hs.
    + destruct Hs as (S1 & S2 & S3 & S4). destruct r as [s'|]; [|exfalso; apply (Hr s); done]. destruct Hr as (R1 & R2 & R3 & R4).
      assert (s' = s) as -> by (destruct (Z.lt_trichotomy s' s) as [Hlt|[->|Hlt]]; [exfalso; apply (S4 s'); [lia|done]|done|exfalso; apply (R4 s); [lia|done]]).
      apply wp_ret. by apply (HQ d1 lba c).
    + destruct Hs as [S1 S2]. destruct r as [s'|]; [destruct Hr as (R1 & R2 & R3 & _); exfalso; apply (S1 s'); done|]. destruct Hnx as [En Hch'].
      apply wp_bind, next_of_spec; [by rewrite Ed1|done|]. fold v. rewrite Ed1. fold l. rewrite En. intros d2 Ed2.
      rewrite (proj2 (Z.leb_gt EOC_MIN c')) by (apply chain_valid, Forall_cons in Hch' as [[? ?] _]; destruct Hv; lia).
      apply (IH c' fuel d2 k s); fold v; rewrite ?Ed2; try done; try (cbn [length] in Hf; lia).
Qed.

Lemma write_lfn_spec name cs n start k : ∀ buf st (Q : list Z → state → Prop), 0 ≤ start → Z.of_nat k ≤ n → 32 * (start + n) ≤ len buf →
  Q (patch (32 * (start + (n - Z.of_nat k))) (mjoin (lfn_entries name cs n k)) buf) st → wp (write_lfn k name cs n start buf) st Q.
Proof.
  induction k as [|k IH]; intros buf st Q Hs Hk Hb HQ; cbn [write_lfn]; [cbn [lfn_entries mjoin list_join] in HQ; rewrite patch_nil in HQ; by apply wp_ret|].
  set (e := lfn_entry name cs n (Z.of_nat (S k))). assert (len e = 32) as He by (destruct (lfn_entry_fields name cs n (Z.of_nat (S k))) as (_ & _ & Hl & _); unfold len, e; by rewrite Hl).
  pose proof (mjoin_sizes _ (lfn_entries_sizes name cs n k)) as Hj. rewrite lfn_entries_length in Hj.
  assert (inside (32 * (start + (n - Z.of_nat (S k)))) (len e) buf) as Hi by (unfold inside, len in *; lia).
  apply wp_bind, wp_store_at; [done|]. apply IH; [done|lia|unfold len in *; by rewrite patch_length|]. unfold sizeof_dir_entry.
  replace (32 * (start + (n - Z.of_nat k))) with (32 * (start + (n - Z.of_nat (S k))) + len e) by lia. rewrite patch_behind by (unfold inside, len in *; lia). exact HQ.
Qed.

(** All entries of a new file stored in the buffer of a cluster. *)
Lemma write_entries_spec {A} name is_dir c start buf st (k : list Z → M state A) (Q : A → state → Prop) : let '(sn, se) := fat32_gen_short_alias name in
  0 ≤ start → 32 * (start + num_lfn name + 1) ≤ len buf → wp (k (patch (32 * start) (mjoin (new_entries name is_dir c)) buf)) st Q →
  wp (b ← write_lfn (Z.to_nat (num_lfn name)) name (fat32_calc_lfn_checksum (sn ++ se)) (num_lfn name) start buf;
      b' ← store_at (sizeof_dir_entry * (start + num_lfn name)) (short_entry sn se is_dir c) b; k b') st Q.
Proof.
  destruct (fat32_gen_short_alias name) as [sn se] eqn:Ea. intros Hs Hb HQ. pose proof (num_lfn_pos name) as Hn. set (n := num_lfn name) in *.
  assert (fat32_calc_lfn_checksum (sn ++ se) = checksum_of name) as -> by (unfold checksum_of; by rewrite Ea).
  assert (short_entry sn se is_dir c = short_of name is_dir c) as -> by (unfold short_of; by rewrite Ea).
  pose proof (mjoin_sizes _ (lfn_entries_sizes name (checksum_of name) n (Z.to_nat n))) as Hj. rewrite lfn_entries_length, Z2Nat.id in Hj by done. pose proof (short_of_length name is_dir c) as Hsl.
  apply wp_bind, write_lfn_spec; [done|lia|lia|]. rewrite Z2Nat.id by done. replace (start + (n - n)) with start by lia. set (es := mjoin (lfn_entries name (checksum_of name) n (Z.to_nat n))) in *.
  assert (inside (32 * start) (len es) buf) as Hi by (unfold inside, len in *; lia). unfold sizeof_dir_entry.
  replace (32 * (start + n)) with (32 * start + len es) by lia. apply wp_bind, wp_store_at; [unfold inside; rewrite patch_length by done; unfold len in *; lia|].
  rewrite patch_behind by (unfold inside, len in *; lia). unfold new_entries in HQ. rewrite join_app in HQ. cbn [mjoin list_join] in HQ. by rewrite app_nil_r in HQ.
Qed.

(** The end of [fat32_create]: entries, cluster, node. *)
Lemma create_tail f d l0 ptr name is_dir c k ck start lba dch (Q : option fnode → state → Prop) : let v := current_vol f in let l := content d in
  let l' := patch (data_at v ck + 32 * start) (mjoin (new_entries name is_dir c)) l in
  let '(sn, se) := fat32_gen_short_alias name in
  vol_ok v (len l) → memory f → chain v l dch → dch !! k = Some ck → 512 * lba = data_at v ck → cl v l0 ck = cl v l ck →
  0 ≤ start → start + (num_lfn name + 1) ≤ csize v / sizeof_dir_entry →
  (∀ d', content d' = l' → extends v l l' dch [] → cl v l' <$> dch = <[k := patch (32 * start) (mjoin (new_entries name is_dir c)) (cl v l ck)]> (cl v l <$> dch) →
     Q (Some (mk_fnode (take 127 name) (if is_dir then FS_DIRECTORY else FS_FILE) 0 c c (Some ptr))) (f, d')) →
  wp (buf ← write_lfn (Z.to_nat (num_lfn name)) name (fat32_calc_lfn_checksum (sn ++ se)) (num_lfn name) start (cl v l0 ck);
      buf ← store_at (sizeof_dir_entry * (start + num_lfn name)) (short_entry sn se is_dir c) buf;
      n ← vol v_sectors_per_cluster; bwrite lba n buf;; g ← kzalloc sizeof_vfs_node;
      match g with None => fault | Some _ => mret (Some (mk_fnode (take 127 name) (if is_dir then FS_DIRECTORY else FS_FILE) 0 c c (Some ptr))) end) (f, d) Q.
Proof.
  intros v l l'. pose proof (write_entries_spec (A := option fnode) name is_dir c start (cl v l0 ck) (f, d)) as Hw. destruct (fat32_gen_short_alias name) as [sn se].
  intros Hv Hm Hch Hk El Eb Hs Hfit HQ. pose proof (chain_valid _ _ _ Hch) as Hval. pose proof (proj1 (Forall_lookup _ _) Hval k ck Hk) as Hcv.
  destruct (epc_size v) as [_ Hep]. pose proof (csize_pos v _ Hv) as Hcs. destruct (data_behind _ _ _ Hv Hcv) as (D1 & D2 & D3). rewrite Eb in *.
  assert (len (cl v l ck) = csize v) as Hcl by (unfold len; rewrite cl_length by done; lia). destruct (new_entries_sizes name is_dir c) as (_ & Hns & _). set (bs := mjoin (new_entries name is_dir c)) in *.
  apply Hw; [done|unfold sizeof_dir_entry in *; lia|]. clear Hw. assert (inside (32 * start) (len bs) (cl v l ck)) as Hi by (unfold inside, len, sizeof_dir_entry in *; lia).
  apply wp_bind, wp_vol. fold v. apply wp_bind, wp_bwrite.
  { rewrite El. fold (csize v). unfold inside, len, l in *. lia. }
  { unfold len. rewrite patch_length by done. fold (csize v). unfold len in *. lia. }
  rewrite El. fold l. intros d' Ed. unfold cl in Ed. rewrite patch_in_slice in Ed; [|unfold inside, len in *; lia|lia|unfold sizeof_dir_entry in *; lia].
  apply wp_bind, wp_kzalloc_ok; [done|]. apply wp_ret, HQ; [done| |].
  - apply (cluster_written v l dch k ck (32 * start)); [done|done|done|lia|unfold sizeof_dir_entry in *; lia].
  - apply bufs_patched; [done|done|done|lia|unfold sizeof_dir_entry in *; lia].
Qed.

Lemma slot_at_bound v n bufs k s : slot_at v n bufs k s → 0 ≤ s ∧ s + n ≤ csize v / sizeof_dir_entry ∧ ∃ b, bufs !! k = Some b ∧ run_at n b s.
Proof. revert k. induction bufs as [|b bufs IH]; intros [|k]; cbn [slot_at]; [done|done| |]; [intros (? & ? & ? & _); eauto|]. intros [_ Hs]. by apply IH. Qed.

(** The entries of a cluster with the new ones in it. *)
Lemma replaced_entries v l c es s : vol_ok v (len l) → valid v c → Forall (λ e, len e = 32) es → 0 ≤ s → s + Z.of_nat (length es) ≤ csize v / sizeof_dir_entry →
  entries_of v (patch (32 * s) (mjoin es) (cl v l c)) = take (Z.to_nat s) (entries_of v (cl v l c)) ++ es ++ drop (Z.to_nat s + length es) (entries_of v (cl v l c)).
Proof.
  intros Hv Hc Hes Hs Hfit. destruct (epc_size v) as [_ Hep]. pose proof (csize_pos v _ Hv) as Hcs. unfold entries_of. rewrite <-(Z2Nat.id s) at 1 by done.
  apply entries_replaced; [done| |lia]. unfold len. rewrite cl_length by done. unfold sizeof_dir_entry in *. lia.
Qed.

(** What the directory says after the entries have been written. *)
Lemma created_lookup v l l' dch name is_dir c k ck s : vol_ok v (len l) → chain v l dch → dch !! k = Some ck → let bufs := cl v l <$> dch in
  slot_at v (num_lfn name + 1) bufs k s → storable name → find_scan name (before v bufs k s) empty_acc = Some (More empty_acc 0) →
  cl v l' <$> dch = <[k := patch (32 * s) (mjoin (new_entries name is_dir c)) (cl v l ck)]> bufs →
  dir_find v name (cl v l' <$> dch) empty_acc = Some (Some (short_of name is_dir c)) ∧
  (ended (all_entries v bufs) → ∀ want, want ≠ name → dir_find v want (cl v l' <$> dch) empty_acc = dir_find v want bufs empty_acc).
Proof.
  intros Hv Hch Hk bufs Hslot Hst Hpre ->. destruct (slot_at_bound _ _ _ _ _ Hslot) as (S1 & S2 & b & Hb & Hrun).
  assert (b = cl v l ck) as -> by (unfold bufs in Hb; rewrite list_lookup_fmap, Hk in Hb; by injection Hb). pose proof (proj1 (Forall_lookup _ _) (chain_valid _ _ _ Hch) k ck Hk) as Hcv.
  destruct (new_entries_sizes name is_dir c) as (N1 & N2 & N3). destruct (epc_size v) as [_ Hep]. pose proof (csize_pos v _ Hv) as Hcs.
  destruct (all_entries_split v bufs k (cl v l ck) s (length (new_entries name is_dir c)) Hb) as (mid & post & A1 & A2 & A3).
  assert (Forall (λ e, free_entry e = true) mid) as Hmid.
  { apply Forall_lookup. intros i e Hi. rewrite A2 in Hi. apply lookup_take_Some in Hi as [Hi Hlt]. rewrite lookup_drop in Hi. pose proof (lookup_lt_Some _ _ _ Hi) as Hl. unfold entries_of in Hi, Hl. rewrite entries_length in Hl.
    rewrite entries_lookup in Hi by done. injection Hi as <-. apply Hrun. lia. }
  assert (all_entries v (<[k := patch (32 * s) (mjoin (new_entries name is_dir c)) (cl v l ck)]> bufs) = before v bufs k s ++ new_entries name is_dir c ++ post) as Hnew.
  { apply A3. by apply replaced_entries; [..|lia]. }
  destruct (find_new name is_dir c (before v bufs k s) mid post Hst Hpre) as [F1 F2]. rewrite dir_find_all, Hnew. split; [done|].
  intros He want Hw. rewrite !dir_find_all, Hnew, A1. apply F2; [done|by rewrite <-A1|done].
Qed.

Lemma short_of_values name is_dir c : 0 ≤ c < 2 ^ 32 → let e := short_of name is_dir c in
  first_cluster e = c ∧ get32 28 e = 0 ∧ entry_flags e = if is_dir then FS_DIRECTORY else Z.lor FS_FILE FS_CACHEABLE.
Proof.
  intros Hc e. pose proof (short_of_fields name is_dir c) as F. cbv zeta in F. fold e in F. destruct (fat32_gen_short_alias name) as [sn se]. destruct F as (_ & _ & _ & F1 & F2 & F3 & F4).
  unfold first_cluster, get16, entry_flags. rewrite F1, F3, F4, !le_val_bytes. split_and!; [by apply halves|done|by destruct is_dir].
Qed.

Lemma fat32_create_start f d dir name flags dch k s (Q : option fnode → state → Prop) : let v := current_vol f in let l := content d in let bufs := cl v l <$> dch in
  let '(sn, se) := fat32_gen_short_alias name in
  vol_ok v (len l) → memory f → has (fn_flags dir) FS_DIRECTORY = true → chain v l dch → head dch = Some (u32 (fn_ptr dir)) → len name < 128 →
  dir_find v name bufs empty_acc = Some None → slot_at v (num_lfn name + 1) bufs k s →
  (∀ d' lba ck, content d' = l → dch !! k = Some ck → 512 * lba = data_at v ck →
    wp (initial ← (if has flags FS_DIRECTORY then new_directory (u32 (fn_ptr dir)) (csize v) else mret 0);
        if has flags FS_DIRECTORY && (initial =? 0) then mret None else
        buf ← write_lfn (Z.to_nat (num_lfn name)) name (fat32_calc_lfn_checksum (sn ++ se)) (num_lfn name) s (cl v l ck);
        buf ← store_at (sizeof_dir_entry * (s + num_lfn name)) (short_entry sn se (has flags FS_DIRECTORY) initial) buf;
        n ← vol v_sectors_per_cluster; bwrite lba n buf;; g ← kzalloc sizeof_vfs_node;
        match g with None => fault
        | Some _ => mret (Some (mk_fnode (take 127 name) (if has flags FS_DIRECTORY then FS_DIRECTORY else FS_FILE) 0 initial initial (Some (fn_ptr dir)))) end) (f, d') Q) →
  wp (fat32_create dir name flags) (f, d) Q.
Proof.
  intros v l bufs. destruct (fat32_gen_short_alias name) as [sn se] eqn:Ea. intros Hv Hm Hd Hch Hhd Hn Hnone Hslot HQ. pose proof (chain_short v l dch Hv Hch) as Hlen.
  destruct (slot_at_bound _ _ _ _ _ Hslot) as (S1 & S2 & _). pose proof (num_lfn_pos name) as Hnp. unfold fat32_create.
  apply wp_bind. eapply (finddir_spec f d dir name dch); [done..|]. cbn [fmap option_fmap option_map]. intros d1 Ed1. apply wp_bind, wp_cluster_size; [by rewrite Ed1|].
  apply wp_bind, wp_kmalloc_ok; [done|]. intros b _. rewrite Ea. apply wp_bind, wp_chain_fuel. apply wp_bind. destruct dch as [|c0 rest]; [done|]. injection Hhd as Ec. fold v. rewrite <-Ec in *.
  eapply (slots_loop_spec f (num_lfn name + 1) rest c0 _ d1 k s); fold v; rewrite ?Ed1; fold l; [done|done|cbn [length] in Hlen; lia|lia|done|]. intros d2 lba ck Ed2 Hk El. by apply HQ.
Qed.

(** C17. A file created in a directory is found there by its name, long or
    short, as an empty file, provided the lookup gets as far as the slots
    chosen for it.  Every other name of the directory is looked up as before,
    and no other chain of the volume changes. *)
Theorem fat32_create_then_find f d dir name flags dch k s : let v := current_vol f in let l := content d in let bufs := cl v l <$> dch in
  vol_ok v (len l) → memory f → has (fn_flags dir) FS_DIRECTORY = true → chain v l dch → head dch = Some (u32 (fn_ptr dir)) →
  storable name → len name < 128 → has flags FS_DIRECTORY = false → dir_find v name bufs empty_acc = Some None →
  slot_at v (num_lfn name + 1) bufs k s → find_scan name (before v bufs k s) empty_acc = Some (More empty_acc 0) →
  wp (g ← fat32_create dir name flags; h ← fat32_finddir dir name; mret (g, h)) (f, d) (λ '(g, h) st', let l' := content st'.2 in
    (∃ m m', g = Some m ∧ h = Some m' ∧ Forall (λ n, fn_name n = name ∧ fn_length n = 0 ∧ fn_parent n = Some (fn_ptr dir) ∧ file_of v l' n []) [m; m']) ∧
    chain v l' dch ∧ (ended (all_entries v bufs) → ∀ want, want ≠ name → dir_find v want (cl v l' <$> dch) empty_acc = dir_find v want bufs empty_acc) ∧
    ∀ ch2, chain v l ch2 → (∀ c, c ∈ ch2 → c ∉ dch) → chain v l' ch2 ∧ bytes_of v l' ch2 = bytes_of v l ch2).
Proof.
  intros v l bufs Hv Hm Hd Hch Hhd Hst Hn Hfl Hnone Hslot Hpre. apply wp_bind. pose proof (fat32_create_start f d dir name flags dch k s) as Hstart. cbv zeta in Hstart.
  pose proof (λ d0 lba ck, create_tail f d0 l (fn_ptr dir) name false 0 k ck s lba dch) as Htail. cbv zeta in Htail.
  destruct (fat32_gen_short_alias name) as [sn se]. apply Hstart; try done. clear Hstart. fold v l. intros d1 lba ck Ed1 Hk El. rewrite Hfl. apply wp_bind, wp_ret. cbn [andb].
  destruct (slot_at_bound _ _ _ _ _ Hslot) as (S1 & S2 & _). apply (Htail d1 lba ck); fold v; rewrite ?Ed1; fold l; try done. clear Htail. intros d2 Ed2 E Hbufs.
  set (l' := patch _ _ l) in *. destruct (created_lookup v l l' dch name false 0 k ck s Hv Hch Hk Hslot Hst Hpre Hbufs) as [L1 L2]. pose proof (extends_len _ _ _ _ _ E) as Elen.
  pose proof (e_chain _ _ _ _ _ E) as Hch'. rewrite app_nil_r in Hch'.
  apply wp_bind. eapply (finddir_spec f d2 dir name dch); fold v; rewrite ?Ed2, ?Elen; try done. cbn [fmap option_fmap option_map]. intros d3 Ed3. apply wp_ret. cbn [snd]. rewrite Ed3.
  destruct (short_of_values name false 0) as (V1 & V2 & _); [lia|]. split_and!; [|done|done|].
  - eexists _, _. split; [done|]. split; [done|]. repeat constructor; cbn [fn_name fn_length fn_parent fn_ptr entry_node]; try done.
    + apply take_ge. unfold len in Hn. lia.
    + by rewrite V1.
  - intros ch2 Hch2 Hdis. destruct (extends_frame v l l' dch [] ch2 E Hch2 Hdis) as (_ & G1 & G2). split; [done|]. by apply bytes_of_ext.
Qed.

(** When the lookup meets an end mark in front of the slots chosen for
    the new entries, the file is created, but looking it up fails: a cluster
    whose last few free entries are too few for a long name is passed over,
    and the scan never leaves it. *)
Lemma fat32_create_hidden f d dir name flags dch k s : let v := current_vol f in let l := content d in let bufs := cl v l <$> dch in
  vol_ok v (len l) → memory f → has (fn_flags dir) FS_DIRECTORY = true → chain v l dch → head dch = Some (u32 (fn_ptr dir)) →
  len name < 128 → has flags FS_DIRECTORY = false → slot_at v (num_lfn name + 1) bufs k s → find_scan name (before v bufs k s) empty_acc = Some EndOfDir →
  wp (g ← fat32_create dir name flags; h ← fat32_finddir dir name; mret (g, h)) (f, d) (λ '(g, h) st', is_Some g ∧ h = None).
Proof.
  intros v l bufs Hv Hm Hd Hch Hhd Hn Hfl Hslot Hpre. apply wp_bind. pose proof (fat32_create_start f d dir name flags dch k s) as Hstart. cbv zeta in Hstart.
  pose proof (λ d0 lba ck, create_tail f d0 l (fn_ptr dir) name false 0 k ck s lba dch) as Htail. cbv zeta in Htail. destruct (slot_at_bound _ _ _ _ _ Hslot) as (S1 & S2 & b & Hb & _).
  assert (∀ bufs' es', all_entries v bufs' = before v bufs k s ++ es' → dir_find v name bufs' empty_acc = Some None) as Hlook.
  { intros bufs' es' E. rewrite dir_find_all, E. unfold find_in. by rewrite find_scan_app, Hpre. }
  destruct (all_entries_split v bufs k b s (length (new_entries name false 0)) Hb) as (mid & post & A1 & _ & A3).
  destruct (fat32_gen_short_alias name) as [sn se]. apply Hstart; try done; [by eapply Hlook|]. clear Hstart. fold v l. intros d1 lba ck Ed1 Hk El. rewrite Hfl. apply wp_bind, wp_ret. cbn [andb].
  apply (Htail d1 lba ck); fold v; rewrite ?Ed1; fold l; try done. clear Htail. intros d2 Ed2 E Hbufs. set (l' := patch _ _ l) in *. pose proof (extends_len _ _ _ _ _ E) as Elen.
  pose proof (e_chain _ _ _ _ _ E) as Hch'. rewrite app_nil_r in Hch'. pose proof (proj1 (Forall_lookup _ _) (chain_valid _ _ _ Hch) k ck Hk) as Hcv.
  assert (b = cl v l ck) as -> by (unfold bufs in Hb; rewrite list_lookup_fmap, Hk in Hb; by injection Hb). destruct (new_entries_sizes name false 0) as (N1 & N2 & N3).
  destruct (epc_size v) as [_ Hep]. pose proof (csize_pos v _ Hv) as Hcs.
  apply wp_bind. eapply (finddir_spec f d2 dir name dch None); fold v; rewrite ?Ed2, ?Elen; try done.
  { rewrite Hbufs. eapply Hlook. apply A3. apply replaced_entries; [done|done|done|done|lia]. }
Qed.

End Create.

(** ** New files on the small volume *)

(** [hello.txt] takes two entries behind that of [A.TXT]. *)
Definition demo_name : list Z := [104; 101; 108; 108; 111; 46; 116; 120; 116].

Lemma demo_storable : storable demo_name.
Proof. split; [repeat constructor; lia|apply (bool_decide_unpack _); by vm_compute|done|by vm_compute|by vm_compute]. Qed.

Lemma demo_slot : slot_at demo_vol (num_lfn demo_name + 1) (cl demo_vol demo_one <$> [2]) 0 1.
Proof.
  change (num_lfn demo_name + 1) with 2. cbn [slot_at fmap list_fmap]. split_and!; [lia|by vm_compute| |].
  - intros j Hj. apply (range_check (λ j, free_entry (entry_at j (cl demo_vol demo_one 2))) 1 2); [vm_compute; reflexivity|lia].
  - intros i Hi Hrun. assert (i = 0) as -> by lia. specialize (Hrun 0 ltac:(lia)). by vm_compute in Hrun.
Qed.

Lemma fat32_create_then_find_witness :
  wp (g ← fat32_create demo_root demo_name FS_FILE; h ← fat32_finddir demo_root demo_name; mret (g, h)) (demo_fat, demo_one) (λ '(g, h) st', is_Some g ∧ is_Some h).
Proof.
  eapply wp_mono; [apply (fat32_create_then_find demo_fat demo_one demo_root demo_name FS_FILE [2] 0 1)|].
  - exact (demo_vol_ok _ demo_one_len).
  - reflexivity.
  - reflexivity.
  - exact demo_root_chain.
  - reflexivity.
  - exact demo_storable.
  - vm_compute. reflexivity.
  - reflexivity.
  - vm_compute. reflexivity.
  - exact demo_slot.
  - vm_compute. reflexivity.
  - intros [g h] st' ((m & m' & -> & -> & _) & _). by split.
Defined.

(** A root directory of the clusters 2 and 3 with one free entry at the end of
    the first. *)
Definition demo_crowded : list Z := demo_disk [EOC; EOC; 3; EOC] (patch 1536 (mjoin (replicate 15 demo_entry)) demo_blank).

Lemma demo_crowded_slot : slot_at demo_vol (num_lfn demo_name + 1) (cl demo_vol demo_crowded <$> [2; 3]) 1 0.
Proof.
  change (num_lfn demo_name + 1) with 2. cbn [slot_at fmap list_fmap]. change (csize demo_vol / sizeof_dir_entry) with 16. split; [|split_and!; [lia|lia| |lia]].
  - intros i Hi1 Hi2 Hrun. specialize (Hrun i ltac:(lia)).
    pose proof (range_check (λ j, negb (free_entry (entry_at j (cl demo_vol demo_crowded 2)))) 0 15 ltac:(vm_compute; reflexivity) i ltac:(lia)) as Hn.
    cbv beta in Hn. by rewrite Hrun in Hn.
  - intros j Hj. apply (range_check (λ j, free_entry (entry_at j (cl demo_vol demo_crowded 3))) 0 2); [vm_compute; reflexivity|lia].
Qed.

Lemma fat32_create_hidden_witness :
  wp (g ← fat32_create demo_root demo_name FS_FILE; h ← fat32_finddir demo_root demo_name; mret (g, h)) (demo_fat, demo_crowded) (λ '(g, h) st', is_Some g ∧ h = None).
Proof.
  apply (fat32_create_hidden demo_fat demo_crowded demo_root demo_name FS_FILE [2; 3] 1 0).
  - apply demo_vol_ok. vm_compute. reflexivity.
  - reflexivity.
  - reflexivity.
  - split; [by vm_compute|]. split; [vm_compute; reflexivity|]. split; by vm_compute.
  - reflexivity.
  - vm_compute. reflexivity.
  - reflexivity.
  - exact demo_crowded_slot.
  - vm_compute. reflexivity.
Defined.
End Fat32Create.
