(* ===== verification/Fat32Mkfs.v ===== *)
(** * Formatting and mounting

    [mkfs_fat32] leaves a disk that [fat32_mount_partition] accepts, with an
    empty root directory and every other cluster free; and the sizes for which
    the table it lays out is too short for the clusters of the volume. *)
From S2P Require Import Prelude Block Fat32 Fat32Spec Fat32Files Fat32Write Fat32Dir Fat32Names Fat32Theorems.

Module Fat32Mkfs.
Import Fat32 Fat32Spec Fat32Files Fat32Write Fat32Dir Fat32Names Fat32Theorems.

Implicit Types (v : fat32_volume) (l buf : list Z) (c s : Z) (f : fat).

(** ** Sectors *)

Definition sec l s : list Z := slice (512 * s) 512 l.

(** [s] is a sector of the disk [l]. *)
Definition on_disk l s : Prop := 0 ≤ s ∧ 512 * (s + 1) ≤ len l.

(** The disk [l'] has the length of [l] and the sectors [g]. *)
Definition image l l' (g : Z → list Z) : Prop := len l' = len l ∧ ∀ s, on_disk l s → sec l' s = g s.

Lemma image_refl l : image l l (sec l).
Proof. done. Qed.

Lemma sec_patched l t buf s : on_disk l t → len buf = 512 → 0 ≤ s → sec (patch (512 * t) buf l) s = if decide (s = t) then buf else sec l s.
Proof.
  intros [Ht Hl] Hb Hs. assert (inside (512 * t) (len buf) l) as Hi by (unfold inside, len in *; lia). unfold sec. case_decide as Heq.
  - subst s. pose proof (slice_patch_eq (512 * t) buf l Hi) as E. by rewrite Hb in E.
  - apply slice_patch_out; [done|lia|lia].
Qed.

(** ** The boot sector *)

(** The part of the boot sector in front of the label. *)
Definition bpb_image (start_lba sector_count fat_size : Z) : list Z :=
  put32 67 0x12345678 (put8 66 0x29 (put8 65 0 (put8 64 0x80 (put16 50 6 (put16 48 1 (put32 44 2 (put16 42 0 (put16 40 0
  (put32 36 fat_size (put32 32 sector_count (put32 28 start_lba (put16 26 64 (put16 24 32 (put16 22 0 (put8 21 0xF8 (put16 19 0
  (put16 17 0 (put8 16 2 (put16 14 32 (put8 13 1 (put16 11 512 (patch 3 [77; 83; 87; 73; 78; 52; 46; 49]
  (patch 0 [0xEB; 0x58; 0x90] (replicate 512 0)))))))))))))))))))))))).

Lemma bpb_image_fields a b s : let x := bpb_image a b s in length x = 512%nat ∧
  slice 11 2 x = le_bytes 2 512 ∧ slice 13 1 x = [1] ∧ slice 14 2 x = le_bytes 2 32 ∧ slice 16 1 x = [2] ∧ slice 17 2 x = [0; 0] ∧ slice 19 2 x = [0; 0] ∧
  slice 22 2 x = [0; 0] ∧ slice 32 4 x = le_bytes 4 b ∧ slice 36 4 x = le_bytes 4 s ∧ slice 44 4 x = le_bytes 4 2.
Proof.
  intros x. unfold x, bpb_image, put32. generalize (le_bytes_len 4 a), (le_bytes_len 4 b), (le_bytes_len 4 s).
  generalize (le_bytes 4 a), (le_bytes 4 b), (le_bytes 4 s). intros la lb ls Ha Hb Hs.
  do 4 (destruct la as [|? la]; [done|]; destruct lb as [|? lb]; [done|]; destruct ls as [|? ls]; [done|]). destruct la; [|done]. destruct lb; [|done]. destruct ls; [|done].
  vm_compute. split_and!; reflexivity.
Qed.

Definition label_text (label : option (list Z)) : list Z := match label with Some t => take 11 t | None => [69; 70; 73; 32; 83; 89; 83; 84; 69; 77; 32] end.

Lemma label_length label : len (label_text label) ≤ 11.
Proof. unfold len. destruct label as [t|]; cbn; [rewrite length_take; lia|lia]. Qed.

Lemma boot_sector_parts a b s label : boot_sector a b s label =
  put8 511 0xAA (put8 510 0x55 (patch 82 [70; 65; 84; 51; 50; 32; 32; 32] (patch 71 (label_text label) (patch 71 (replicate 11 SPACE) (bpb_image a b s))))).
Proof. unfold boot_sector, label_text, bpb_image. reflexivity. Qed.

Lemma boot_sector_fields a b s label o n : 0 ≤ o → 0 ≤ n → o + n ≤ 71 →
  slice o n (boot_sector a b s label) = slice o n (bpb_image a b s) ∧ len (boot_sector a b s label) = 512.
Proof.
  intros Ho Hn Hon. rewrite boot_sector_parts. pose proof (label_length label) as Hl.
  destruct (bpb_image_fields a b s) as [Hx _]. set (x := bpb_image a b s) in *. unfold put8.
  assert (∀ y bs k, len y = 512 → 71 ≤ k → k + len bs ≤ 512 → slice o n (patch k bs y) = slice o n y ∧ len (patch k bs y) = 512) as Hp.
  { intros y bs k Hy Hk Hb. assert (inside k (len bs) y) as Hi by (unfold inside, len in *; lia). split; [apply slice_patch_out; [done|done|lia]|].
    unfold len in *. by rewrite patch_length. }
  assert (len x = 512) as Hx' by (unfold len; by rewrite Hx).
  destruct (Hp x (replicate 11 SPACE) 71) as [E1 L1]; [done|lia|unfold len; simpl; lia|].
  destruct (Hp _ (label_text label) 71 L1) as [E2 L2]; [lia|lia|]. destruct (Hp _ [70; 65; 84; 51; 50; 32; 32; 32] 82 L2) as [E3 L3]; [lia|unfold len; simpl; lia|].
  destruct (Hp _ (le_bytes 1 0x55) 510 L3) as [E4 L4]; [lia|unfold len; simpl; lia|]. destruct (Hp _ (le_bytes 1 0xAA) 511 L4) as [E5 L5]; [lia|unfold len; simpl; lia|].
  split; [congruence|done].
Qed.

(** ** Sizes *)

Lemma mkfs_sizes count : 65536 ≤ count < 2 ^ 30 - 96 → let F := (4 * (count - 32) + 511) / 520 in
  mkfs_fat_size count = F ∧ mkfs_clusters count = count - 32 - 2 * F ∧ 0 < F ∧ 130 * F ≤ count + 100.
Proof.
  intros Hc F. assert (520 * F ≤ 4 * (count - 32) + 511 < 520 * F + 520) as HF by (unfold F; Z.div_mod_to_equations; lia).
  assert (mkfs_fat_size count = F) as EF.
  { unfold mkfs_fat_size. rewrite (wrap_small 32 (count - 32)) by lia. rewrite (wrap_small 32 ((count - 32) * 4)) by lia. rewrite (wrap_small 32 ((count - 32) * 4 + 512)) by lia.
    rewrite wrap_small by lia. unfold F. f_equal. lia. }
  split_and!; [done| |lia|lia]. unfold mkfs_clusters. rewrite EF. rewrite (wrap_small 32 (2 * F)) by lia. rewrite (wrap_small 32 (32 + 2 * F)) by lia. rewrite wrap_small; lia.
Qed.

(** Whether the table has an entry for every cluster. *)
Lemma mkfs_table_room count : 65536 ≤ count < 2 ^ 30 - 96 → mkfs_clusters count + 2 ≤ 128 * mkfs_fat_size count ↔ 3 ≤ (count - 32) mod 130 ≤ 128.
Proof. intros Hc. destruct (mkfs_sizes count Hc) as (-> & -> & _). set (T := count - 32). Z.div_mod_to_equations. lia. Qed.

(** ** The sectors mkfs writes *)

Definition mkfs_image l (start count : Z) (label : option (list Z)) (s : Z) : list Z :=
  let F := mkfs_fat_size count in
  if decide (s = start ∨ s = start + 6) then boot_sector start count F label else
  if decide (s = start + 1 ∨ s = start + 7) then fsinfo_sector (mkfs_clusters count) else
  if decide (s = start + 32 ∨ s = start + 32 + F) then fat_sector_0 else
  if decide (start + 32 < s ≤ start + 32 + 2 * F) then zero_sector else sec l s.

Lemma image_ext l l' g g' : image l l' g → (∀ s, on_disk l s → g s = g' s) → image l l' g'.
Proof. intros [Hl Hg] He. split; [done|]. intros s Hs. rewrite Hg, He by done. done. Qed.

Section Mkfs.
  Context {D : Type} `{BlockLaws D}.
  Implicit Types (d : D).

Lemma wp_write_sector f d l g t buf (Q : Z → state → Prop) : image l (content d) g → on_disk l t → len buf = 512 →
  (∀ d', image l (content d') (λ s, if decide (s = t) then buf else g s) → Q 0 (f, d')) → wp (bwrite t 1 buf) (f, d) Q.
Proof.
  intros [Hl Hg] Ht Hb HQ. assert (on_disk (content d) t) as Ht' by (unfold on_disk; by rewrite Hl). apply wp_bwrite; [destruct Ht'; unfold inside, len in *; lia|lia|].
  intros d' Ed. apply HQ. rewrite Ed. split.
  - unfold len in *. rewrite patch_length; [done|]. destruct Ht'. unfold inside, len in *. lia.
  - intros s Hs. rewrite sec_patched by (done || apply Hs). case_decide; [done|]. by apply Hg.
Qed.

Lemma clear_fat_spec f d l g start F i (Q : unit → state → Prop) : let t := start + 32 + i * F in
  image l (content d) g → 0 < F → 0 ≤ start → 0 ≤ i ≤ 1 → start + 32 + 2 * F < 2 ^ 32 → 512 * (start + 32 + 2 * F) ≤ len l →
  (∀ d', image l (content d') (λ s, if decide (s = t) then fat_sector_0 else if decide (t < s < t + F) then zero_sector else g s) → Q tt (f, d')) →
  wp (clear_fat start F i) (f, d) Q.
Proof.
  intros t Hg HF Hst Hi Hmax Hl HQ. unfold clear_fat. assert (0 ≤ i * F ≤ F) as HiF by nia. assert (start + 32 + i * F + F ≤ start + 32 + 2 * F) as Hend by nia.
  rewrite (wrap_small 32 (start + 32)) by lia. rewrite (wrap_small 32 (i * F)) by lia. rewrite (wrap_small 32 (start + 32 + _)) by lia. fold t.
  apply wp_bind. apply (wp_write_sector f d l g); [done|unfold on_disk, t; lia|done|]. intros d1 Hd1.
  apply (wp_for_loop (λ k (st : state), st.1 = f ∧ image l (content st.2) (λ s, if decide (s = t) then fat_sector_0 else if decide (t < s < t + k) then zero_sector else g s))).
  - split; [done|]. cbn [snd]. eapply image_ext; [exact Hd1|]. intros s Hs. cbn beta. repeat case_decide; done || lia.
  - intros k [f' d2] Hk [Ef Hd2]. cbn [fst snd] in Ef, Hd2. subst f'. rewrite wrap_small by (unfold t; lia). apply wp_bind, (wp_write_sector f d2 l _ (t + k) zero_sector _ Hd2); [unfold on_disk, t; lia|done|].
    intros d3 Hd3. apply wp_ret. split; [done|]. cbn [snd]. eapply image_ext; [exact Hd3|]. intros s Hs. cbn beta. repeat case_decide; done || lia.
  - intros [f' d2] [Ef Hd2]. cbn [fst snd] in Ef, Hd2. subst f'. apply HQ. replace (1 + Z.of_nat (Z.to_nat (F - 1))) with F in Hd2 by lia. exact Hd2.
Qed.

Lemma mkfs_spec f d start count label (Q : Z → state → Prop) : memory f → 65536 ≤ count < 2 ^ 30 - 96 → 0 ≤ start → start + count < 2 ^ 32 →
  512 * (start + count) ≤ len (content d) → 65525 ≤ mkfs_clusters count →
  (∀ d', image (content d) (content d') (mkfs_image (content d) start count label) → Q 0 (f, d')) → wp (mkfs_fat32 start count label) (f, d) Q.
Proof.
  intros Hm Hc Hs Hmax Hl Hcl HQ. destruct (mkfs_sizes count Hc) as (EF & EC & HF & HF2). unfold mkfs_fat32. set (F := (4 * (count - 32) + 511) / 520) in *.
  rewrite (proj2 (Z.ltb_ge count 65536)), (proj2 (Z.ltb_ge _ 65525)) by lia. apply wp_bind, wp_kzalloc_ok; [done|]. cbv zeta. rewrite EF.
  destruct (boot_sector_fields start count F label 0 0) as [_ Hb]; [lia..|]. set (vbr := boot_sector start count F label) in *.
  assert (len (fsinfo_sector (mkfs_clusters count)) = 512) as Hfs by done. set (info := fsinfo_sector (mkfs_clusters count)) in *.
  set (l := content d) in *. rewrite !(wrap_small 32 (start + _)) by lia. rewrite (wrap_small 32 (2 * F)) by lia. rewrite (wrap_small 32 (start + 32 + _)) by lia.
  apply wp_bind, (wp_write_sector f d l (sec l)); [apply image_refl|unfold on_disk; lia|done|]. intros d1 I1.
  apply wp_bind, (wp_write_sector f d1 l _ _ _ _ I1); [unfold on_disk; lia|done|]. intros d2 I2.
  apply wp_bind, (wp_write_sector f d2 l _ _ _ _ I2); [unfold on_disk; lia|done|]. intros d3 I3.
  apply wp_bind, (wp_write_sector f d3 l _ _ _ _ I3); [unfold on_disk; lia|done|]. intros d4 I4.
  apply wp_bind, (clear_fat_spec f d4 l _ start F 0 _ I4); [lia..|]. intros d5 I5. apply wp_bind, (clear_fat_spec f d5 l _ start F 1 _ I5); [lia..|]. intros d6 I6.
  apply wp_bind, (wp_write_sector f d6 l _ _ _ _ I6); [unfold on_disk; lia|done|]. intros d7 I7. apply wp_ret, HQ. eapply image_ext; [exact I7|].
  intros s Hsd. unfold mkfs_image. rewrite EF. fold vbr info. cbv beta. clear -HF HF2 Hs. rewrite Z.mul_0_l, Z.mul_1_l, Z.add_0_r. repeat case_decide; done || lia.
Qed.

(** ** Mounting *)

(** The volume of a fresh file system. *)
Definition mkfs_volume (start part count : Z) : fat32_volume := let F := mkfs_fat_size count in
  mk_vol start part 512 1 32 2 F 2 32 (32 + 2 * F) (mkfs_clusters count).

Lemma boot_volume start part count label : 65536 ≤ count < 2 ^ 30 - 96 → let b := boot_sector start count (mkfs_fat_size count) label in
  bpb_rejected b = false ∧ bpb_volume b start part = mkfs_volume start part count.
Proof.
  intros Hc b. destruct (mkfs_sizes count Hc) as (EF & EC & HF & HF2). unfold b. rewrite EF. set (F := (4 * (count - 32) + 511) / 520) in *.
  destruct (bpb_image_fields start count F) as (_ & F1 & F2 & F3 & F4 & F5 & F6 & F7 & F8 & F9 & F10). unfold bpb_rejected, bpb_volume, get8, get16, get32.
  rewrite !(λ o n H1 H2 H3, proj1 (boot_sector_fields start count F label o n H1 H2 H3)) by lia. rewrite F1, F2, F3, F4, F5, F6, F7, F8, F9, F10, !le_val_bytes.
  change (2 ^ (8 * Z.of_nat 4)) with (2 ^ 32). rewrite !(Z.mod_small count), !(Z.mod_small F) by lia. split; [done|].
  cbn [le_val]. change (512 mod _) with 512. change (32 mod _) with 32. change (2 mod _) with 2. change (0 + 256 * (0 + 256 * 0)) with 0. change (2 + 256 * 0) with 2. change (1 + 256 * 0) with 1.
  change (negb (0 =? 0)) with false. cbv iota. unfold mkfs_volume. rewrite EF, EC.
  rewrite (proj2 (Z.eqb_neq count 0)) by lia. change ((0 * 32 + (512 - 1)) / 512) with 0. rewrite (wrap_small 32 (2 * F)) by lia. rewrite (wrap_small 32 (32 + 2 * F)) by lia.
  rewrite Z.add_0_r, (wrap_small 32 (32 + 2 * F)) by lia. rewrite wrap_small by lia. rewrite Z.div_1_r. f_equal. lia.
Qed.

(** The volume is well formed just when the table is long enough. *)
Lemma mkfs_vol_ok start part count size : 65536 ≤ count ≤ 2 ^ 28 → 0 ≤ start → start + count < 2 ^ 32 → 512 * (start + count) ≤ size →
  vol_ok (mkfs_volume start part count) size ↔ 3 ≤ (count - 32) mod 130 ≤ 128.
Proof.
  intros Hc Hs Hmax Hsz. assert (65536 ≤ count < 2 ^ 30 - 96) as Hc' by lia. rewrite <-(mkfs_table_room count Hc'). split; [by intros []|]. intros Hroom.
  destruct (mkfs_sizes count Hc') as (EF & EC & HF & HF2). rewrite EF, EC in *. unfold mkfs_volume. rewrite EF, EC. split; cbn; unfold EOC_MIN; lia.
Qed.

Lemma zero_get32 o : 0 ≤ o → get32 o zero_sector = 0.
Proof.
  intros Ho. unfold get32, zero_sector, slice. rewrite drop_replicate, take_replicate. generalize (Z.to_nat 4 `min` (512 - Z.to_nat o))%nat as n.
  induction n as [|n IH]; [done|]. cbn [replicate le_val]. lia.
Qed.

Lemma fat_sector_0_get32 c : 3 ≤ c < 128 → get32 (4 * c) fat_sector_0 = 0.
Proof.
  intros Hc. apply Z.eqb_eq, (range_check (λ y, get32 (4 * y) fat_sector_0 =? 0) 3 125); [vm_compute; reflexivity|lia].
Qed.

(** The table of a fresh file system. *)
Lemma mkfs_table l l' start part count label c : 65536 ≤ count ≤ 2 ^ 28 → 0 ≤ start → image l l' (mkfs_image l start count label) →
  let v := mkfs_volume start part count in vol_ok v (len l) → valid v c → tab v l' c = if decide (c = 2) then EOC else 0.
Proof.
  intros Hc Hs [Hl Hg] v Hv Hval. pose proof (valid_entry _ _ _ Hv Hval) as He. destruct (mkfs_sizes count ltac:(lia)) as (EF & _ & HF & _).
  assert (0 ≤ 0 < v_num_fats v) as Hk by (cbn; lia). rewrite <-Hl in Hv. unfold tab. rewrite <-(get32_sector v l' 0 c Hv Hk He). rewrite Z.mul_0_l, Z.add_0_r.
  change (v_partition_lba v) with start. change (v_first_fat_sector v) with 32. change (v_fat_size_sectors v) with (mkfs_fat_size count) in He.
  destruct (entry_sector v l' 0 c Hv Hk ltac:(done)) as (_ & (Hi1 & _ & Hi3) & _). rewrite Z.mul_0_l, Z.add_0_r in Hi1, Hi3.
  change (v_partition_lba v) with start in *. change (v_first_fat_sector v) with 32 in *. change (v_fat_size_sectors v) with (mkfs_fat_size count) in *.
  fold (sec l' (start + (32 + 4 * c / 512))). rewrite Hg by (unfold on_disk, len in *; lia). destruct Hval as [Hc2 _].
  assert (4 * c / 512 < mkfs_fat_size count) as Hdiv by (apply Z.div_lt_upper_bound; lia). unfold mkfs_image. rewrite EF in *. pose proof (Z.div_pos (4 * c) 512 ltac:(lia) ltac:(lia)) as Hdp.
  rewrite decide_False by lia. rewrite decide_False by lia. destruct (decide (4 * c / 512 = 0)) as [Ez|Ez].
  - rewrite decide_True by lia. apply Z.div_small_iff in Ez as [?|?]; [|lia|lia]. rewrite Z.mod_small by lia. case_decide; [subst c; by vm_compute|]. rewrite fat_sector_0_get32; [done|lia].
  - rewrite decide_False by lia. rewrite decide_True by lia. rewrite zero_get32 by (apply Z.mod_pos_bound; lia). rewrite decide_False; [done|]. intros ->. by apply Ez.
Qed.

Lemma filter_all (P : Z → Prop) `{!∀ y, Decision (P y)} (xs : list Z) : (∀ y, y ∈ xs → P y) → filter P xs = xs.
Proof. induction xs as [|x xs IH]; intros Hp; [done|]. rewrite filter_cons, decide_True by (apply Hp, list_elem_of_here). f_equal. apply IH. intros y Hy. apply Hp. by apply list_elem_of_further. Qed.

(** C18. Formatting a partition and mounting it gives the empty root directory
    of a volume with every cluster but the root's free, and leaves the disk
    outside the partition alone.  The volume is well formed for all sizes
    but four of every 130, for which the table has too few sectors. *)
Theorem mkfs_then_mount f d start count label part : let l := content d in memory f → 65536 ≤ count ≤ 2 ^ 28 → 0 ≤ start → start + count < 2 ^ 32 →
  512 * (start + count) ≤ len l → 65525 ≤ mkfs_clusters count →
  wp (r ← mkfs_fat32 start count label; n ← fat32_mount_partition start part; mret (r, n)) (f, d) (λ '(r, n) st',
    let l' := content st'.2 in let v := current_vol st'.1 in r = 0 ∧ clusters v = mkfs_clusters count ∧ fat32_last_alloc st'.1 = 2 ∧
    (∃ root, n = Some root ∧ has (fn_flags root) FS_DIRECTORY = true ∧ fn_ptr root = 2) ∧
    (vol_ok v (len l') ↔ 3 ≤ (count - 32) mod 130 ≤ 128) ∧
    (vol_ok v (len l') → chain v l' [2] ∧ (∀ name, dir_find v name [cl v l' 2] empty_acc = Some None) ∧ nfree v l' = clusters v - 1) ∧
    ∀ s, on_disk l s → s < start ∨ start + count ≤ s → sec l' s = sec l s).
Proof.
  intros l Hm Hc Hs Hmax Hl Hcl. assert (65536 ≤ count < 2 ^ 30 - 96) as Hc' by lia. destruct (mkfs_sizes count Hc') as (EF & EC & HF & HF2). set (F := (4 * (count - 32) + 511) / 520) in *.
  apply wp_bind, mkfs_spec; try done. fold l. intros d1 I1. destruct (boot_volume start part count label Hc') as [B1 B2]. pose proof I1 as [L1 G1].
  assert (sec (content d1) start = boot_sector start count (mkfs_fat_size count) label) as Hboot.
  { rewrite G1 by (unfold on_disk; lia). unfold mkfs_image. by rewrite decide_True by lia. }
  apply wp_bind. unfold fat32_mount_partition. apply wp_bind, wp_bread; [unfold inside, len in *; lia|]. intros d2 Ed2. cbn [fst snd]. change (512 * 1) with 512. fold (sec (content d1) start). rewrite Hboot.
  cbn [Z.eqb negb]. rewrite B1. cbv zeta. rewrite B2. set (v := mkfs_volume start part count). assert ((v_fat_size_sectors v =? 0) || (v_root_cluster v <? 2) = false) as ->.
  { apply orb_false_iff. split; [|done]. apply Z.eqb_neq. cbn. lia. }
  apply wp_bind, wp_modify. cbn [fst snd]. apply wp_bind, wp_kzalloc_ok; [done|]. apply wp_ret. apply wp_ret. cbn [fst snd current_vol fat32_last_alloc]. rewrite Ed2.
  pose proof (mkfs_vol_ok start part count (len (content d1)) Hc Hs Hmax) as Hok. fold v in Hok. split; [done|]. split; [done|]. split; [done|]. split; [eexists; split; [reflexivity|done]|]. split; [apply Hok; lia|]. split.
  - intros Hv. assert (∀ c, valid v c → tab v (content d1) c = if decide (c = 2) then EOC else 0) as Htab. { intros c Hcv. apply (mkfs_table l (content d1) start part count label c Hc Hs I1); [by rewrite <-L1|exact Hcv]. }
    assert (valid v 2) as H2 by (unfold valid; cbn; lia). assert (cl v (content d1) 2 = zero_sector) as ->.
    { unfold cl, data_at, csize, v. cbn [mkfs_volume v_partition_lba v_first_data_sector v_sectors_per_cluster]. rewrite Z.sub_diag, Z.mul_0_l, Z.add_0_r. change (512 * 1) with 512.
      fold (sec (content d1) (start + (32 + 2 * mkfs_fat_size count))). rewrite G1 by (unfold on_disk; lia). unfold mkfs_image. rewrite EF. by rewrite !decide_False, decide_True by lia. }
    split_and!; [|done|].
    + split; [done|]. rewrite Htab, decide_True by done. unfold EOC, EOC_MIN. lia.
    + unfold nfree, free. change (clusters v) with (mkfs_clusters count). rewrite seqZ_cons by lia. rewrite filter_cons, decide_False by (rewrite Htab, decide_True by done; done).
      rewrite filter_all; [unfold len; rewrite length_seqZ; lia|]. intros y Hy. apply elem_of_seqZ in Hy. rewrite Htab, decide_False by (unfold valid; cbn; lia). done.
  - intros s Hsd Hout. rewrite G1 by done. unfold mkfs_image. rewrite EF. by rewrite !decide_False by lia.
Qed.

End Mkfs.

(** A disk of 70000 sectors, all of it one partition. *)
Definition blank_disk : list Z := replicate (Z.to_nat (512 * 70000)) 0.

Lemma blank_disk_len : len blank_disk = 512 * 70000.
Proof. unfold len, blank_disk. rewrite length_replicate. lia. Qed.

Lemma mkfs_then_mount_witness :
  wp (r ← mkfs_fat32 0 70000 None; n ← fat32_mount_partition 0 70000; mret (r, n)) (demo_fat, blank_disk)
    (λ '(r, n) st', r = 0 ∧ vol_ok (current_vol st'.1) (len st'.2) ∧ nfree (current_vol st'.1) st'.2 = 68889).
Proof.
  eapply wp_mono; [apply (mkfs_then_mount demo_fat blank_disk 0 70000 None 70000)|].
  - reflexivity.
  - lia.
  - lia.
  - lia.
  - change (512 * (0 + 70000) ≤ len blank_disk). rewrite blank_disk_len. lia.
  - by vm_compute.
  - intros [r n] st' (R & C & _ & _ & Hok & Hvol & _). assert (vol_ok (current_vol st'.1) (len st'.2)) as Hv by (apply Hok; vm_compute; split; discriminate).
    split; [exact R|]. split; [exact Hv|]. destruct (Hvol Hv) as (_ & _ & Hf). change (nfree (current_vol st'.1) st'.2) with (nfree (current_vol st'.1) (content st'.2)).
    rewrite Hf, C. vm_compute. reflexivity.
Defined.

End Fat32Mkfs.
