(* ===== verification/Partition.v ===== *)
(** * Partition tables ([fs/mbr.c], [fs/gpt.c], [fs/partition.c])

    The three scanners keep their results in static arrays: the records of a
    master boot record, the entries of a GUID partition table, and the union
    of what a disk has.  The arrays are modelled with all their fields, since
    a scan only overwrites some of them.  Buffers are read byte by byte and a
    read past their end faults; [kmalloc] is a sequence of answers. *)
From S2P Require Import Prelude Block.

Module Partition.

Definition MBR_SIGNATURE : Z := 0xAA55.
Definition MBR_TYPE_EMPTY : Z := 0.
Definition GPT_SIGNATURE : Z := 0x5452415020494645.
Definition MAX_PARTITIONS : Z := 4.
Definition MAX_GPT_PARTITIONS : Z := 128.
Definition MAX_TOTAL_PARTITIONS : Z := 32.

Inductive partition_kind := PARTITION_TYPE_UNKNOWN | PARTITION_TYPE_FAT32 | PARTITION_TYPE_EXT2 | PARTITION_TYPE_ESP | PARTITION_TYPE_UNALLOCATED.

#[global] Instance partition_kind_eq_dec : EqDecision partition_kind.
Proof. solve_decision. Defined.

Record partition_info := mk_part {
  pi_index : Z;
  pi_start_lba : Z;
  pi_sector_count : Z;
  pi_raw_type : Z;
  pi_type : Z;
  pi_kind : partition_kind;
  pi_fs_name : list Z;
  pi_is_esp : bool;
}.

Definition zero_part : partition_info := mk_part 0 0 0 0 0 PARTITION_TYPE_UNKNOWN [] false.

#[global] Instance partition_info_inhabited : Inhabited partition_info := populate zero_part.

Definition set_index v p := mk_part v (pi_start_lba p) (pi_sector_count p) (pi_raw_type p) (pi_type p) (pi_kind p) (pi_fs_name p) (pi_is_esp p).
Definition set_esp v p := mk_part (pi_index p) (pi_start_lba p) (pi_sector_count p) (pi_raw_type p) (pi_type p) (pi_kind p) (pi_fs_name p) v.
Definition set_fs_name v p := mk_part (pi_index p) (pi_start_lba p) (pi_sector_count p) (pi_raw_type p) (pi_type p) (pi_kind p) v (pi_is_esp p).

(** The four assignments of the scanners to an element of their array. *)
Definition record_part (index type start_lba sector_count : Z) p : partition_info :=
  mk_part index start_lba sector_count (pi_raw_type p) type (pi_kind p) (pi_fs_name p) (pi_is_esp p).

Record tables := mk_tables {
  detected_partitions : list partition_info;
  partition_count : Z;
  gpt_partitions : list partition_info;
  gpt_partition_count : Z;
  unified_partitions : list partition_info;
  unified_partition_count : Z;
  heap_answers : list bool;
}.

Definition set_mbr l n t := mk_tables l n (gpt_partitions t) (gpt_partition_count t) (unified_partitions t) (unified_partition_count t) (heap_answers t).
Definition set_gpt l n t := mk_tables (detected_partitions t) (partition_count t) l n (unified_partitions t) (unified_partition_count t) (heap_answers t).
Definition set_unified l n t := mk_tables (detected_partitions t) (partition_count t) (gpt_partitions t) (gpt_partition_count t) l n (heap_answers t).
Definition set_heap h t := mk_tables (detected_partitions t) (partition_count t) (gpt_partitions t) (gpt_partition_count t) (unified_partitions t) (unified_partition_count t) h.

(** The tables at boot. *)
Definition boot_tables : tables := mk_tables (replicate 4 zero_part) 0 (replicate 128 zero_part) 0 (replicate 32 zero_part) 0 [].

Definition get64 (o : Z) (l : list Z) : Z := le_val (slice o 8 l).

Section Ops.
  Context {D : Type} `{BlockOps D}.

Definition state : Type := tables * D.

Definition tabs {A} (f : tables → A) : M state A := gets (λ s : state, f s.1).
Definition upd (f : tables → tables) : M state unit := modify (λ s : state, (f s.1, s.2)).
Definition bread (lba n : Z) : M state (Z * list Z) := lift_r (dev_read lba n).

(** An element of an array; an index outside of it faults. *)
Definition elem (l : list partition_info) (i : Z) : M state partition_info :=
  deref (λ _ : state, if 0 <=? i then l !! Z.to_nat i else None).

(** [kmalloc(size)]: memory or not. *)
Definition kmalloc : M state bool :=
  h ← tabs heap_answers;
  upd (set_heap (tail h));; mret (default true (head h)).

(** ** Master boot record *)

Definition mbr_entry (i : Z) (buf : list Z) : list Z := slice (446 + 16 * i) 16 buf.

(** The loop over the four records. *)
Definition mbr_record (buf : list Z) (i : Z) : M state unit :=
  let e := mbr_entry i buf in
  if get8 4 e =? MBR_TYPE_EMPTY then mret tt else
  n ← tabs partition_count;
  l ← tabs detected_partitions;
  p ← elem l n;
  upd (set_mbr (<[Z.to_nat n := record_part i (get8 4 e) (get32 8 e) (get32 12 e) p]> l) (n + 1)).

Definition mbr_init_device : M state unit :=
  l ← tabs detected_partitions;
  upd (set_mbr l 0);;
  r ← bread 0 1;
  if negb (r.1 =? 0) then mret tt else
  if negb (get16 510 r.2 =? MBR_SIGNATURE) then mret tt else
  for_loop 0 4 (mbr_record r.2).

(** With the device of the NVMe driver. *)
Definition mbr_init : M state unit := mbr_init_device.

Definition mbr_get_partition_count : M state Z := tabs partition_count.

Definition mbr_get_partition (index : Z) : M state (option partition_info) :=
  n ← tabs partition_count;
  if (index <? 0) || (n <=? index) then mret None else
  l ← tabs detected_partitions; p ← elem l index; mret (Some p).

(** ** GUID partition table *)

(** The loop over the bytes of the type: it stops at the first that is not
    zero. *)
Fixpoint guid_empty (n : nat) (o : Z) (buf : list Z) : M state bool :=
  match n with
  | O => mret true
  | S n' => b ← deref (λ _ : state, if 0 <=? o then buf !! Z.to_nat o else None); if negb (b =? 0) then mret false else guid_empty n' (o + 1) buf
  end.

Definition load64 (buf : list Z) (o : Z) : M state Z :=
  deref (λ _ : state, if (0 <=? o) && (o + 8 <=? len buf) then Some (get64 o buf) else None).

(** An entry with a type goes to the end of the array. *)
Definition gpt_entry (buf : list Z) (o n : Z) : M state unit :=
  empty ← guid_empty 16 o buf;
  if (empty : bool) then mret tt else
  first ← load64 buf (o + 32);
  last ← load64 buf (o + 40);
  l ← tabs gpt_partitions;
  p ← elem l n;
  upd (set_gpt (<[Z.to_nat n := record_part (u8 n) 0x0C (u32 first) (u32 (last - first + 1)) p]> l) (n + 1)).

(** [rounds] entries from [i] on, as long as the array has room. *)
Fixpoint gpt_loop (rounds : nat) (i entry_size : Z) (buf : list Z) : M state unit :=
  match rounds with
  | O => mret tt
  | S rounds' =>
      n ← tabs gpt_partition_count;
      if negb (n <? MAX_GPT_PARTITIONS) then mret tt else
      gpt_entry buf (u32 (i * entry_size)) n;;
      gpt_loop rounds' (i + 1) entry_size buf
  end.

Definition gpt_init_device : M state unit :=
  l ← tabs gpt_partitions;
  upd (set_gpt l 0);;
  r ← bread 0 1;
  if negb (r.1 =? 0) then mret tt else
  if negb (get16 510 r.2 =? 0xAA55) || negb (get8 (446 + 4) r.2 =? 0xEE) then mret tt else
  r ← bread 1 1;
  if negb (r.1 =? 0) then mret tt else
  if negb (get64 0 r.2 =? GPT_SIGNATURE) then mret tt else
  let entries_lba := get64 72 r.2 in
  let num_entries := get32 80 r.2 in
  let entry_size := get32 84 r.2 in
  let total_bytes := u32 (num_entries * entry_size) in
  let sectors_to_read := u32 (total_bytes + 511) / 512 in
  m ← kmalloc;
  if negb m then mret tt else
  r ← bread entries_lba sectors_to_read;
  if negb (r.1 =? 0) then mret tt else
  gpt_loop (Z.to_nat num_entries) 0 entry_size (take (Z.to_nat (u32 (sectors_to_read * 512))) r.2).

Definition gpt_get_partition_count : M state Z := tabs gpt_partition_count.

Definition gpt_get_partition (index : Z) : M state (option partition_info) :=
  n ← tabs gpt_partition_count;
  if (index <? 0) || (n <=? index) then mret None else
  l ← tabs gpt_partitions; p ← elem l index; mret (Some p).

(** ** The union *)

(** "EFI System (ESP)", "FAT32", "EXT2", "Unknown/Raw", "ESP/Protective" and
    "EXT2/Linux". *)
Definition name_esp : list Z := [69; 70; 73; 32; 83; 121; 115; 116; 101; 109; 32; 40; 69; 83; 80; 41].
Definition name_fat32 : list Z := [70; 65; 84; 51; 50].
Definition name_ext2 : list Z := [69; 88; 84; 50].
Definition name_unknown : list Z := [85; 110; 107; 110; 111; 119; 110; 47; 82; 97; 119].
Definition name_protective : list Z := [69; 83; 80; 47; 80; 114; 111; 116; 101; 99; 116; 105; 118; 101].
Definition name_linux : list Z := [69; 88; 84; 50; 47; 76; 105; 110; 117; 120].

Definition label_gpt p : partition_info :=
  if (pi_raw_type p =? 0xEF) || bool_decide (pi_kind p = PARTITION_TYPE_ESP) then set_fs_name name_esp (set_esp true p)
  else if bool_decide (pi_kind p = PARTITION_TYPE_FAT32) then set_fs_name name_fat32 p
  else if bool_decide (pi_kind p = PARTITION_TYPE_EXT2) then set_fs_name name_ext2 p
  else set_fs_name name_unknown p.

Definition label_mbr p : partition_info :=
  if (pi_raw_type p =? 0xEF) || (pi_raw_type p =? 0xEE) then set_fs_name name_protective (set_esp true p)
  else if (pi_raw_type p =? 0x0B) || (pi_raw_type p =? 0x0C) then set_fs_name name_fat32 p
  else if pi_raw_type p =? 0x83 then set_fs_name name_linux p
  else set_fs_name name_unknown p.

(** One round of the copy loops: from the element [i] of a table to the end of
    the union, while there is room. *)
Definition unify (get : Z → M state (option partition_info)) (label : partition_info → partition_info) (i : Z) : M state unit :=
  n ← tabs unified_partition_count;
  if negb (n <? MAX_TOTAL_PARTITIONS) then mret tt else
  p ← get i;
  match p with
  | None => mret tt
  | Some p =>
      l ← tabs unified_partitions;
      elem l n;;
      upd (set_unified (<[Z.to_nat n := label (set_index (u8 n) p)]> l) (n + 1))
  end.

Definition disk_partition_scan_device : M state unit :=
  upd (set_unified (replicate 32 zero_part) 0);;
  gpt_init_device;;
  gpt_count ← gpt_get_partition_count;
  if 0 <? gpt_count then for_loop 0 (Z.to_nat gpt_count) (unify gpt_get_partition label_gpt) else
  mbr_init_device;;
  mbr_count ← mbr_get_partition_count;
  for_loop 0 (Z.to_nat mbr_count) (unify mbr_get_partition label_mbr).

Definition disk_get_partition_count : M state Z := tabs unified_partition_count.

Definition disk_get_partition (index : Z) : M state (option partition_info) :=
  n ← tabs unified_partition_count;
  if (index <? 0) || (n <=? index) then mret None else
  l ← tabs unified_partitions; p ← elem l index; mret (Some p).

End Ops.

(** The gaps [disk_find_unallocated_space] reports: their first and last
    sector. *)
Fixpoint gaps (last_lba : Z) (l : list partition_info) : list (Z * Z) :=
  match l with
  | [] => []
  | p :: l' =>
      (if u32 (last_lba + 2048) <? pi_start_lba p then [(last_lba, pi_start_lba p)] else []) ++
      gaps (u32 (pi_start_lba p + pi_sector_count p)) l'
  end.

Definition disk_find_unallocated_space (partitions : list partition_info) : list (Z * Z) := gaps 2048 partitions.

End Partition.
