(* ===== verification/PartitionSpec.v ===== *)
(** * What the partition scanners find

    A scan leaves in the union the entries of the GUID partition table, or
    else of the master boot record, in the order of the disk and numbered
    from zero.  The mark that protects the EFI system partition is never
    set, on any disk. *)
From S2P Require Import Prelude Block Partition.

Module PartitionSpec.
Import Partition.

Implicit Types (t : tables) (l buf : list Z) (p : partition_info) (arr : list partition_info) (out : list (Z * Z)).

(** ** Arrays *)

(** No scanner sets these fields. *)
Definition unmarked p : Prop := pi_raw_type p = 0 ∧ pi_kind p = PARTITION_TYPE_UNKNOWN ∧ pi_is_esp p = false.

(** What a user of an element of the union sees as protection. *)
Definition unprotected p : Prop := pi_is_esp p = false ∧ (pi_fs_name p = [] ∨ pi_fs_name p = name_unknown).

Record tables_ok t : Prop := {
  to_mbr : length (detected_partitions t) = 4%nat;
  to_mbr_plain : Forall unmarked (detected_partitions t);
  to_gpt : length (gpt_partitions t) = 128%nat;
  to_gpt_plain : Forall unmarked (gpt_partitions t);
  to_all : length (unified_partitions t) = 32%nat;
  to_all_plain : Forall unprotected (unified_partitions t);
}.

Lemma boot_ok : tables_ok boot_tables.
Proof. split; [done|by apply Forall_replicate|done|by apply Forall_replicate|done|]. apply Forall_replicate. split; [done|by left]. Qed.

Lemma unmarked_record i ty s n p : unmarked p → unmarked (record_part i ty s n p).
Proof. done. Qed.

Lemma label_unmarked i p : unmarked p → unprotected (label_gpt (set_index i p)) ∧ unprotected (label_mbr (set_index i p)).
Proof. intros (Hr & Hk & He). unfold label_gpt, label_mbr, unprotected. cbn. rewrite Hr, Hk. cbn. auto. Qed.

(** ** Calls that may fault *)

(** Partial correctness: what holds if the call returns. *)
Definition wlp {S A} (m : M S A) (s : S) (Q : A → S → Prop) : Prop := ∀ a s', m s = Ret (a, s') → Q a s'.

Section Wlp.
  Context {S : Type}.

Lemma wlp_bind {A B} (m : M S A) (k : A → M S B) s Q : wlp m s (λ a s', wlp (k a) s' Q) → wlp (m ≫= k) s Q.
Proof. unfold wlp, mbind, M_bind. intros Hm b s'. destruct (m s) as [[a s1]| | |]; [|done..]. by apply Hm. Qed.

Lemma wlp_mono {A} (m : M S A) s (P Q : A → S → Prop) : wlp m s P → (∀ a s', P a s' → Q a s') → wlp m s Q.
Proof. unfold wlp. naive_solver. Qed.

Lemma wlp_ret {A} (a : A) s (Q : A → S → Prop) : Q a s → wlp (mret a) s Q.
Proof. by intros HQ ? ? [= <- <-]. Qed.

Lemma wlp_gets {A} (f : S → A) s (Q : A → S → Prop) : Q (f s) s → wlp (gets f) s Q.
Proof. by intros HQ ? ? [= <- <-]. Qed.

Lemma wlp_modify f s (Q : unit → S → Prop) : Q tt (f s) → wlp (modify f) s Q.
Proof. by intros HQ ? ? [= <- <-]. Qed.

Lemma wlp_deref {A} (f : S → option A) s (Q : A → S → Prop) : (∀ a, f s = Some a → Q a s) → wlp (deref f) s Q.
Proof. intros HQ a s'. unfold deref. destruct (f s) eqn:E; [|done]. intros [= <- <-]. by apply HQ. Qed.

Lemma wlp_for_loop (I : S → Prop) (body : Z → M S unit) n : (∀ j s, I s → wlp (body j) s (λ _ s', I s')) → ∀ i s, I s → wlp (for_loop i n body) s (λ _ s', I s').
Proof.
  intros Hb. induction n as [|n IH]; intros i s Hs; cbn [for_loop]; [by apply wlp_ret|]. apply wlp_bind. eapply wlp_mono; [by apply Hb|]. intros [] s' Hs'. by apply IH.
Qed.

End Wlp.

Section Inv.
  Context {D : Type} `{BlockOps D}.
  Implicit Types (st : state (D := D)).

Definition ok st : Prop := tables_ok st.1.

Lemma wlp_tabs {A} (g : tables → A) st (Q : A → state → Prop) : Q (g st.1) st → wlp (tabs g) st Q.
Proof. apply (wlp_gets (λ s : state, g s.1)). Qed.

Lemma wlp_upd g st (Q : unit → state → Prop) : Q tt (g st.1, st.2) → wlp (upd g) st Q.
Proof. apply (wlp_modify (λ s : state, (g s.1, s.2))). Qed.

Lemma wlp_bread lba n st (Q : Z * list Z → state → Prop) : (∀ r d', Q r (st.1, d')) → wlp (bread lba n) st Q.
Proof. destruct st as [t d]. intros HQ r s'. unfold bread, lift_r. destruct (dev_read lba n d) as [[a d']| | |]; [|done..]. intros [= <- <-]. apply HQ. Qed.

Lemma wlp_elem arr i st (Q : partition_info → state → Prop) : (∀ p, 0 ≤ i → arr !! Z.to_nat i = Some p → Q p st) → wlp (elem arr i) st Q.
Proof. intros HQ. apply wlp_deref. intros p. destruct (Z.leb_spec 0 i); [|done]. by apply HQ. Qed.

Lemma mbr_record_ok buf i st : ok st → wlp (mbr_record buf i) st (λ _ st', ok st').
Proof.
  intros Hok. unfold mbr_record. destruct (_ =? _); [by apply wlp_ret|]. apply wlp_bind, wlp_tabs. apply wlp_bind, wlp_tabs. apply wlp_bind, wlp_elem. intros p Hi Hp. apply wlp_upd.
  destruct Hok. split; cbn; rewrite ?length_insert; try done. apply Forall_insert; [done|]. apply unmarked_record. by eapply Forall_lookup_1; [|exact Hp].
Qed.

Lemma mbr_init_ok st : ok st → wlp mbr_init_device st (λ _ st', ok st').
Proof.
  intros Hok. apply wlp_bind, wlp_tabs. apply wlp_bind, wlp_upd. apply wlp_bind, wlp_bread. intros r d'. cbn [fst].
  assert (tables_ok (set_mbr (detected_partitions st.1) 0 st.1)) as Hok' by (by destruct Hok; split). destruct (negb _); [by apply wlp_ret|]. destruct (negb _); [by apply wlp_ret|].
  apply wlp_for_loop; [|done]. intros j s Hs. by apply mbr_record_ok.
Qed.

Lemma gpt_entry_ok buf o n st : ok st → wlp (gpt_entry buf o n) st (λ _ st', ok st').
Proof.
  intros Hok. apply wlp_bind. assert (∀ k o, wlp (guid_empty k o buf) st (λ _ s', s' = st)) as Hg.
  { induction k as [|k IH]; intros o'; cbn [guid_empty]; [by apply wlp_ret|]. apply wlp_bind, wlp_deref. intros b _. destruct (negb _); [by apply wlp_ret|apply IH]. }
  eapply wlp_mono; [apply Hg|]. intros e ? ->. destruct e; [by apply wlp_ret|]. apply wlp_bind, wlp_deref. intros first _. apply wlp_bind, wlp_deref. intros last _.
  apply wlp_bind, wlp_tabs. apply wlp_bind, wlp_elem. intros p Hi Hp. apply wlp_upd.
  destruct Hok. split; cbn; rewrite ?length_insert; try done. apply Forall_insert; [done|]. apply unmarked_record. by eapply Forall_lookup_1; [|exact Hp].
Qed.

Lemma gpt_init_ok st : ok st → wlp gpt_init_device st (λ _ st', ok st').
Proof.
  intros Hok. apply wlp_bind, wlp_tabs. apply wlp_bind, wlp_upd. apply wlp_bind, wlp_bread. intros r d1. cbn [fst].
  assert (tables_ok (set_gpt (gpt_partitions st.1) 0 st.1)) as Hok' by (by destruct Hok; split). destruct (negb _); [by apply wlp_ret|]. destruct (_ || _); [by apply wlp_ret|].
  apply wlp_bind, wlp_bread. intros r2 d2. cbn [fst]. destruct (negb _); [by apply wlp_ret|]. destruct (negb _); [by apply wlp_ret|].
  apply wlp_bind. apply wlp_bind, wlp_tabs. apply wlp_bind, wlp_upd. apply wlp_ret. cbn [fst snd]. set (t' := set_heap _ _). assert (tables_ok t') as Hok2 by (by destruct Hok'; split).
  destruct (negb _); [by apply wlp_ret|]. apply wlp_bind, wlp_bread. intros r3 d3. cbn [fst]. destruct (negb _); [by apply wlp_ret|].
  assert (∀ k i sz buf s, ok s → wlp (gpt_loop k i sz buf) s (λ _ st', ok st')) as Hl; [|by apply Hl].
  induction k as [|k IH]; intros i sz buf s Hs; cbn [gpt_loop]; [by apply wlp_ret|]. apply wlp_bind, wlp_tabs. destruct (negb _); [by apply wlp_ret|].
  apply wlp_bind. eapply wlp_mono; [by apply gpt_entry_ok|]. intros [] s' Hs'. by apply IH.
Qed.

Lemma unify_ok get label i st : ok st → (∀ st i, ok st → wlp (get i) st (λ r s', s' = st ∧ ∀ q, r = Some q → unmarked q)) →
  (∀ n q, unmarked q → unprotected (label (set_index n q))) → wlp (unify get label i) st (λ _ st', ok st').
Proof.
  intros Hok Hget Hlab. apply wlp_bind, wlp_tabs. destruct (negb _); [by apply wlp_ret|]. apply wlp_bind. eapply wlp_mono; [by apply Hget|]. intros p ? [-> Hp].
  destruct p as [q|]; [|by apply wlp_ret]. apply wlp_bind, wlp_tabs. apply wlp_bind, wlp_elem. intros p0 _ _. apply wlp_upd.
  destruct Hok. split; cbn; rewrite ?length_insert; try done. apply Forall_insert; [done|]. by apply Hlab, Hp.
Qed.

Lemma mbr_get_ok st i : ok st → wlp (mbr_get_partition i) st (λ r s', s' = st ∧ ∀ q, r = Some q → unmarked q).
Proof.
  intros Hok. apply wlp_bind, wlp_tabs. destruct (_ || _); [by apply wlp_ret|]. apply wlp_bind, wlp_tabs. apply wlp_bind, wlp_elem. intros p _ Hp. apply wlp_ret.
  split; [done|]. intros q [= <-]. exact (Forall_lookup_1 _ _ _ _ (to_mbr_plain _ Hok) Hp).
Qed.

Lemma gpt_get_ok st i : ok st → wlp (gpt_get_partition i) st (λ r s', s' = st ∧ ∀ q, r = Some q → unmarked q).
Proof.
  intros Hok. apply wlp_bind, wlp_tabs. destruct (_ || _); [by apply wlp_ret|]. apply wlp_bind, wlp_tabs. apply wlp_bind, wlp_elem. intros p _ Hp. apply wlp_ret.
  split; [done|]. intros q [= <-]. exact (Forall_lookup_1 _ _ _ _ (to_gpt_plain _ Hok) Hp).
Qed.

Lemma scan_ok st : ok st → wlp disk_partition_scan_device st (λ _ st', ok st').
Proof.
  intros Hok. apply wlp_bind, wlp_upd. assert (tables_ok (set_unified (replicate 32 zero_part) 0 st.1)) as Hok'.
  { destruct Hok. split; try done. apply Forall_replicate. split; [done|by left]. }
  apply wlp_bind. eapply wlp_mono; [by apply gpt_init_ok|]. intros [] s1 H1. apply wlp_bind, wlp_tabs. destruct (_ <? _).
  - apply wlp_for_loop; [|done]. intros j s Hs. apply unify_ok; [done|by apply gpt_get_ok|]. intros n q Hq. by apply label_unmarked.
  - apply wlp_bind. eapply wlp_mono; [by apply mbr_init_ok|]. intros [] s2 H2. apply wlp_bind, wlp_tabs.
    apply wlp_for_loop; [|done]. intros j s Hs. apply unify_ok; [done|by apply mbr_get_ok|]. intros n q Hq. by apply label_unmarked.
Qed.

(** The tables after any number of scans, of any disks. *)
Inductive scanned : tables → Prop :=
| scanned_boot : scanned boot_tables
| scanned_more t d x t' d' : scanned t → disk_partition_scan_device (t, d) = Ret (x, (t', d')) → scanned t'.

(** C20. Whatever the disks hold, no scan ever marks a partition as the EFI
    system partition or recognises its file system: the fields these
    decisions look at are not filled in by the parsers. *)
Theorem partition_never_protected t : scanned t → Forall unprotected (unified_partitions t).
Proof.
  intros Hs. apply to_all_plain. induction Hs as [|t d x t' d' _ IH Hr]; [exact boot_ok|]. exact (scan_ok (t, d) IH _ _ Hr).
Qed.

End Inv.

(** ** What a disk holds *)

Definition mbr_rec l (i : Z) : option (Z * Z) :=
  let e := mbr_entry i (slice 0 512 l) in if get8 4 e =? MBR_TYPE_EMPTY then None else Some (get32 8 e, get32 12 e).

Definition mbr_found l : list (Z * Z) := if get16 510 (slice 0 512 l) =? MBR_SIGNATURE then omap (mbr_rec l) (seqZ 0 4) else [].

(** The header of the GUID table and its fields. *)
Definition gpt_head l : list Z := slice 512 512 l.
Definition gpt_lba l : Z := get64 72 (gpt_head l).
Definition gpt_num l : Z := get32 80 (gpt_head l).
Definition gpt_size l : Z := get32 84 (gpt_head l).

Definition gpt_rec (buf : list Z) (size i : Z) : option (Z * Z) :=
  let e := slice (i * size) 48 buf in
  if forallb (λ b, b =? 0) (take 16 e) then None else Some (u32 (get64 32 e), u32 (get64 40 e - get64 32 e + 1)).

Definition gpt_present l : bool :=
  (get16 510 (slice 0 512 l) =? 0xAA55) && (get8 450 (slice 0 512 l) =? 0xEE) && (get64 0 (gpt_head l) =? GPT_SIGNATURE).

Definition gpt_sectors l : Z := (gpt_num l * gpt_size l + 511) / 512.
Definition gpt_entries l : list Z := slice (512 * gpt_lba l) (512 * gpt_sectors l) l.

Definition gpt_found l : list (Z * Z) :=
  if gpt_present l then take 128 (omap (gpt_rec (gpt_entries l) (gpt_size l)) (seqZ 0 (gpt_num l))) else [].

(** The table lies on the disk and its entries have room for their fields. *)
Definition gpt_sane l : Prop := gpt_present l = true → 0 ≤ gpt_num l ∧ 48 ≤ gpt_size l ∧ gpt_num l * gpt_size l + 511 < 2 ^ 32 ∧
  inside (512 * gpt_lba l) (512 * gpt_sectors l) l.

Definition found l : list (Z * Z) := match gpt_found l with [] => mbr_found l | g => g end.

(** The first elements of an array are those of [out]. *)
Definition holds arr (n : Z) out : Prop := n = Z.of_nat (length out) ∧ ∀ k e, out !! k = Some e → ∃ p, arr !! k = Some p ∧ (pi_start_lba p, pi_sector_count p) = e.

Lemma array_holds_nil arr : holds arr 0 [].
Proof. by split. Qed.

Lemma holds_push arr n out i ty s c p : holds arr n out → arr !! Z.to_nat n = Some p →
  holds (<[Z.to_nat n := record_part i ty s c p]> arr) (n + 1) (out ++ [(s, c)]).
Proof.
  intros [-> Hh] Hp. rewrite Nat2Z.id in *. split; [rewrite length_app; simpl; lia|]. intros k e [Hk|[-> Hk]]%lookup_snoc_Some.
  - destruct Hk as [Hlt Hk]. destruct (Hh k e Hk) as (q & Hq & Eq). exists q. rewrite list_lookup_insert_ne by lia. done.
  - subst e. eexists. rewrite list_lookup_insert_eq by by eapply lookup_lt_Some. done.
Qed.

Lemma omap_length {A B} (g : A → option B) (xs : list A) : (length (omap g xs) ≤ length xs)%nat.
Proof. induction xs as [|x xs IH]; [done|]. cbn. destruct (g x); cbn [length]; lia. Qed.

Lemma seqZ_snoc (a : Z) (n : nat) : seqZ a (Z.of_nat (S n)) = seqZ a (Z.of_nat n) ++ [a + Z.of_nat n].
Proof. replace (Z.of_nat (S n)) with (Z.of_nat n + 1) by lia. rewrite seqZ_app by lia. done. Qed.

Section Scan.
  Context {D : Type} `{BlockLaws D}.
  Implicit Types (d : D) (st : state (D := D)).

Lemma wp_tabs {A} (g : tables → A) st (Q : A → state → Prop) : Q (g st.1) st → wp (tabs g) st Q.
Proof. apply (wp_gets (λ s : state, g s.1)). Qed.

Lemma wp_upd g st (Q : unit → state → Prop) : Q tt (g st.1, st.2) → wp (upd g) st Q.
Proof. apply (wp_modify (λ s : state, (g s.1, s.2))). Qed.

Lemma wp_elem arr i st (Q : partition_info → state → Prop) p : 0 ≤ i → arr !! Z.to_nat i = Some p → Q p st → wp (elem arr i) st Q.
Proof. intros Hi Hp HQ. eapply wp_deref; [|done]. by rewrite (proj2 (Z.leb_le 0 i)). Qed.

Lemma wp_part_read t d lba n (Q : Z * list Z → state → Prop) : inside (512 * lba) (512 * n) (content d) →
  (∀ d', content d' = content d → Q (0, slice (512 * lba) (512 * n) (content d)) (t, d')) → wp (bread lba n) (t, d) Q.
Proof. intros Hi HQ. apply wp_lift_r. eapply wp_mono; [by apply dev_read_law|]. intros [rc buf] d' (-> & -> & E). by apply HQ. Qed.

(** The state during a scan of the disk [l]. *)
Definition scanning l st : Prop := tables_ok st.1 ∧ content st.2 = l.

Lemma mbr_init_spec l st (Q : unit → state → Prop) : scanning l st → 512 ≤ len l → unified_partition_count st.1 = 0 →
  (∀ st', scanning l st' → unified_partition_count st'.1 = 0 → holds (detected_partitions st'.1) (partition_count st'.1) (mbr_found l) → Q tt st') → wp mbr_init_device st Q.
Proof.
  intros [Hok Hl] Hlen Hu HQ. destruct st as [t d]. cbn [fst snd] in *. apply wp_bind, wp_tabs. apply wp_bind, wp_upd. cbn [fst snd]. set (t0 := set_mbr _ _ _).
  assert (tables_ok t0) as Hok0 by (by destruct Hok; split). apply wp_bind, wp_part_read; [rewrite Hl; unfold inside, len in *; lia|]. rewrite Hl. intros d1 Ed1. cbn [fst snd Z.eqb negb].
  change (512 * 0) with 0. change (512 * 1) with 512. unfold mbr_found in HQ. destruct (get16 510 (slice 0 512 l) =? MBR_SIGNATURE); cbn [negb]; [|by apply wp_ret, HQ; [|..|apply array_holds_nil]].
  apply (wp_for_loop (λ i st', scanning l st' ∧ unified_partition_count st'.1 = 0 ∧ holds (detected_partitions st'.1) (partition_count st'.1) (omap (mbr_rec l) (seqZ 0 i)))).
  - split_and!; [by split|done|apply array_holds_nil].
  - intros j [t1 d2] Hj ([Hok1 Hl1] & Hu1 & Hh). cbn [fst snd] in *. unfold mbr_record. assert (seqZ 0 (j + 1) = seqZ 0 j ++ [j]) as ->.
    { rewrite <-(Z2Nat.id j) by lia. rewrite <-seqZ_snoc. f_equal. lia. }
    rewrite omap_app. cbn [omap list_omap]. set (e := mbr_entry j (slice 0 512 l)) in *. assert (mbr_rec l j = if get8 4 e =? MBR_TYPE_EMPTY then None else Some (get32 8 e, get32 12 e)) as -> by done.
    destruct (get8 4 e =? MBR_TYPE_EMPTY).
    + apply wp_ret. rewrite app_nil_r. split_and!; [by split|done|done].
    + apply wp_bind, wp_tabs. apply wp_bind, wp_tabs. cbn [fst]. pose proof Hh as [Hn _]. pose proof (omap_length (mbr_rec l) (seqZ 0 j)) as Hol. rewrite length_seqZ in Hol.
      destruct (lookup_lt_is_Some_2 (detected_partitions t1) (Z.to_nat (partition_count t1))) as [p Hp]; [rewrite (to_mbr _ Hok1); lia|].
      apply wp_bind, (wp_elem _ _ _ _ p); [lia|done|]. apply wp_upd. cbn [fst snd]. split_and!; [|done|by apply holds_push].
      split; [|done]. destruct Hok1. split; cbn; rewrite ?length_insert; try done. apply Forall_insert; [done|]. apply unmarked_record. by eapply Forall_lookup_1; [|exact Hp].
  - intros st' (H1 & H2 & H3). by apply HQ.
Qed.

(** ** The GUID table *)

Lemma guid_empty_spec buf k : ∀ o st (Q : bool → state → Prop), 0 ≤ o → o + Z.of_nat k ≤ len buf →
  Q (forallb (λ b, b =? 0) (slice o (Z.of_nat k) buf)) st → wp (guid_empty k o buf) st Q.
Proof.
  induction k as [|k IH]; intros o st Q Ho Hl HQ; cbn [guid_empty]; [by apply wp_ret|]. destruct (lookup_lt_is_Some_2 buf (Z.to_nat o)) as [b Hb]; [unfold len in Hl; lia|].
  assert (slice o (Z.of_nat (S k)) buf = b :: slice (o + 1) (Z.of_nat k) buf) as Hs.
  { unfold slice. rewrite (drop_S buf b (Z.to_nat o)) by done. rewrite !Nat2Z.id. cbn [take]. do 3 f_equal. lia. }
  rewrite Hs in HQ. cbn [forallb] in HQ. apply wp_bind. eapply wp_deref; [by rewrite (proj2 (Z.leb_le 0 o))|]. destruct (b =? 0); cbn [negb andb] in *; [|by apply wp_ret]. apply IH; [lia|lia|done].
Qed.

Lemma wp_load64 buf o st (Q : Z → state → Prop) : 0 ≤ o → o + 8 ≤ len buf → Q (get64 o buf) st → wp (load64 buf o) st Q.
Proof. intros Ho Hl HQ. eapply wp_deref; [|done]. by rewrite (proj2 (Z.leb_le 0 o)), (proj2 (Z.leb_le (o + 8) _)). Qed.

(** One entry. *)
Lemma gpt_entry_spec l t d buf size i out (Q : unit → state → Prop) : scanning l (t, d) → holds (gpt_partitions t) (gpt_partition_count t) out → (length out < 128)%nat →
  0 ≤ i * size → i * size + 48 ≤ len buf →
  (∀ t', scanning l (t', d) → unified_partition_count t' = unified_partition_count t →
     holds (gpt_partitions t') (gpt_partition_count t') (out ++ option_list (gpt_rec buf size i)) → Q tt (t', d)) →
  wp (gpt_entry buf (i * size) (gpt_partition_count t)) (t, d) Q.
Proof.
  intros [Hok Hl] Hh Hlt Hi Hb HQ. cbn [fst snd] in *. assert (∀ a n, 0 ≤ a → a + n ≤ 48 → slice a n (slice (i * size) 48 buf) = slice (i * size + a) n buf) as Hsl by (intros; apply slice_slice; lia).
  assert (gpt_rec buf size i = if forallb (λ b, b =? 0) (slice (i * size) 16 buf) then None else
            Some (u32 (get64 (i * size + 32) buf), u32 (get64 (i * size + 40) buf - get64 (i * size + 32) buf + 1))) as Er.
  { unfold gpt_rec, get64. rewrite !Hsl by lia. assert (take 16 (slice (i * size) 48 buf) = slice (i * size) 16 buf) as ->; [|done]. unfold slice. rewrite take_take. done. }
  rewrite Er in HQ. clear Er Hsl. apply wp_bind, guid_empty_spec; [done|lia|]. change (Z.of_nat 16) with 16. destruct (forallb _ _); cbn [option_list].
  - apply wp_ret, HQ; [by split|done|]. by rewrite app_nil_r.
  - apply wp_bind, wp_load64; [lia|lia|]. apply wp_bind, wp_load64; [lia|lia|]. apply wp_bind, wp_tabs. cbn [fst]. pose proof Hh as [Hn _].
    destruct (lookup_lt_is_Some_2 (gpt_partitions t) (Z.to_nat (gpt_partition_count t))) as [p Hp]; [rewrite (to_gpt _ Hok); lia|].
    apply wp_bind, (wp_elem _ _ _ _ p); [lia|done|]. apply wp_upd. cbn [fst snd]. apply HQ; [|done|by apply holds_push].
    split; [|done]. cbn [fst]. destruct Hok. split; cbn; rewrite ?length_insert; try done. apply Forall_insert; [done|]. apply unmarked_record. by eapply Forall_lookup_1; [|exact Hp].
Qed.

Lemma gpt_loop_spec l buf size k : ∀ i t d out (Q : unit → state → Prop), scanning l (t, d) → holds (gpt_partitions t) (gpt_partition_count t) out → (length out ≤ 128)%nat →
  0 ≤ i → 48 ≤ size → (i + Z.of_nat k) * size ≤ len buf → len buf < 2 ^ 32 →
  (∀ t', scanning l (t', d) → unified_partition_count t' = unified_partition_count t →
     holds (gpt_partitions t') (gpt_partition_count t') (take 128 (out ++ omap (gpt_rec buf size) (seqZ i (Z.of_nat k)))) → Q tt (t', d)) →
  wp (gpt_loop k i size buf) (t, d) Q.
Proof.
  induction k as [|k IH]; intros i t d out Q Hs Hh Hle Hi Hsz Hb Hm HQ; cbn [gpt_loop].
  { apply wp_ret, HQ; [done|done|]. cbn. by rewrite app_nil_r, take_ge. }
  apply wp_bind, wp_tabs. cbn [fst]. pose proof Hh as [Hn _]. unfold MAX_GPT_PARTITIONS. destruct (Z.ltb_spec (gpt_partition_count t) 128) as [Hlt|Hge]; cbn [negb].
  - rewrite wrap_small by nia. apply wp_bind. eapply (gpt_entry_spec l t d buf size i out); [done|done|lia|nia|nia|]. intros t' Hs' Hu' Hh'.
    assert (length (out ++ option_list (gpt_rec buf size i)) ≤ 128)%nat as Hle'. { rewrite length_app. destruct (gpt_rec buf size i); simpl; lia. }
    eapply (IH (i + 1) t' d _ Q); [done|exact Hh'|done|lia|done|nia|done|]. intros t2 Hs2 Hu2 Hh2. apply HQ; [done|congruence|].
    replace (seqZ i (Z.of_nat (S k))) with (i :: seqZ (i + 1) (Z.of_nat k)) by (rewrite (seqZ_cons i) by lia; unfold Z.succ, Z.pred; do 2 f_equal; lia).
    rewrite <-app_assoc in Hh2. cbn [omap list_omap]. destruct (gpt_rec buf size i); exact Hh2.
  - apply wp_ret, HQ; [done|done|]. rewrite take_app_le by lia. by rewrite take_ge by lia.
Qed.

Lemma gpt_init_spec l st (Q : unit → state → Prop) : scanning l st → 1024 ≤ len l → gpt_sane l → heap_answers st.1 = [] → unified_partition_count st.1 = 0 →
  (∀ st', scanning l st' → unified_partition_count st'.1 = 0 → holds (gpt_partitions st'.1) (gpt_partition_count st'.1) (gpt_found l) → Q tt st') → wp gpt_init_device st Q.
Proof.
  intros [Hok Hl] Hlen Hsane Hm Hu HQ. destruct st as [t d]. cbn [fst snd] in *. apply wp_bind, wp_tabs. apply wp_bind, wp_upd. cbn [fst snd]. set (t0 := set_gpt _ _ _).
  assert (tables_ok t0) as Hok0 by (by destruct Hok; split). apply wp_bind, wp_part_read; [rewrite Hl; unfold inside, len in *; lia|]. rewrite Hl. intros d1 Ed1. cbn [fst snd Z.eqb negb].
  change (512 * 0) with 0. change (512 * 1) with 512. change (446 + 4) with 450. unfold gpt_sane, gpt_found, gpt_present in *.
  destruct (get16 510 (slice 0 512 l) =? 0xAA55); cbn [negb orb andb] in *; [|by apply wp_ret, HQ; [|..|apply array_holds_nil]].
  destruct (get8 450 (slice 0 512 l) =? 0xEE); cbn [negb orb andb] in *; [|by apply wp_ret, HQ; [|..|apply array_holds_nil]].
  apply wp_bind, wp_part_read; [rewrite Ed1; unfold inside, len in *; lia|]. rewrite Ed1. intros d2 Ed2. cbn [fst snd Z.eqb negb]. change (512 * 1) with 512. fold (gpt_head l).
  destruct (get64 0 (gpt_head l) =? GPT_SIGNATURE); cbn [negb] in *; [|by apply wp_ret, HQ; [|..|apply array_holds_nil]].
  destruct (Hsane eq_refl) as (S1 & S2 & S3 & S4). cbv zeta. fold (gpt_lba l) (gpt_num l) (gpt_size l). rewrite (wrap_small 32 (gpt_num l * gpt_size l)) by nia. rewrite (wrap_small 32 (gpt_num l * gpt_size l + 511)) by nia.
  fold (gpt_sectors l). apply wp_bind. apply wp_bind, wp_tabs. apply wp_bind, wp_upd. apply wp_ret. cbn [fst snd]. change (heap_answers t0) with (heap_answers t). rewrite Hm. cbn [head default negb].
  assert (0 ≤ gpt_num l * gpt_size l ≤ 512 * gpt_sectors l ∧ 512 * gpt_sectors l ≤ gpt_num l * gpt_size l + 511) as [Hsec1 Hsec2] by (unfold gpt_sectors; assert (0 ≤ gpt_num l * gpt_size l) by nia; generalize dependent (gpt_num l * gpt_size l); intros; Z.div_mod_to_equations; lia).
  apply wp_bind, wp_part_read; [by rewrite Ed2|]. rewrite Ed2. intros d3 Ed3. cbn [fst snd Z.eqb negb]. rewrite (wrap_small 32) by lia. fold (gpt_entries l).
  assert (len (gpt_entries l) = 512 * gpt_sectors l) as Hel by (unfold len, gpt_entries; rewrite slice_size by done; lia).
  rewrite take_ge by (unfold len in Hel; lia). set (t1 := set_heap _ _). assert (tables_ok t1) as Hok1 by (by destruct Hok0; split).
  eapply (gpt_loop_spec l _ _ _ 0 t1 d3 []); [by split|apply array_holds_nil|simpl; lia|lia|done|rewrite Z2Nat.id by done; lia|lia|]. rewrite Z2Nat.id by done. cbn [app].
  intros t' Hs' Hu' Hh'. apply HQ; [done|by cbn; rewrite Hu'|done].
Qed.

(** ** The union *)

(** The first elements of the union, numbered. *)
Definition united arr (n : Z) out : Prop := holds arr n out ∧ ∀ k p, (k < length out)%nat → arr !! k = Some p → pi_index p = Z.of_nat k.

Lemma label_keeps i p : let keeps q := pi_start_lba q = pi_start_lba p ∧ pi_sector_count q = pi_sector_count p ∧ pi_index q = i in
  keeps (label_gpt (set_index i p)) ∧ keeps (label_mbr (set_index i p)).
Proof. unfold label_gpt, label_mbr. cbn. repeat (case_match; cbn); done. Qed.

(** The tables the union is made from are the same. *)
Definition same_sources t t' : Prop := detected_partitions t' = detected_partitions t ∧ partition_count t' = partition_count t ∧
  gpt_partitions t' = gpt_partitions t ∧ gpt_partition_count t' = gpt_partition_count t.

(** The copy loops. *)
Lemma unify_loop l (get : Z → M state (option partition_info)) label out st (Q : unit → state → Prop) : scanning l st → unified_partition_count st.1 = 0 →
  (∀ i p, let q := label (set_index i p) in pi_start_lba q = pi_start_lba p ∧ pi_sector_count q = pi_sector_count p ∧ pi_index q = i) →
  (∀ i p, unmarked p → unprotected (label (set_index i p))) →
  (∀ i t d e (R : option partition_info → state → Prop), 0 ≤ i → out !! Z.to_nat i = Some e → tables_ok t → same_sources st.1 t →
     (∀ p, unmarked p → (pi_start_lba p, pi_sector_count p) = e → R (Some p) (t, d)) → wp (get i) (t, d) R) →
  (∀ st', scanning l st' → united (unified_partitions st'.1) (unified_partition_count st'.1) (take 32 out) → Q tt st') →
  wp (for_loop 0 (length out) (unify get label)) st Q.
Proof.
  intros Hsc Hu Hlab Hpl Hget HQ.
  apply (wp_for_loop (λ i st', scanning l st' ∧ same_sources st.1 st'.1 ∧ united (unified_partitions st'.1) (unified_partition_count st'.1) (take 32 (take (Z.to_nat i) out)))).
  - split_and!; [done|done|]. rewrite Hu. change (Z.to_nat 0) with 0%nat. rewrite take_0, take_nil. split; [apply array_holds_nil|]. simpl. lia.
  - intros j [t1 d1] Hj ([Hok1 Hl1] & Hsame & [Hh Hidx]). cbn [fst snd] in *. apply wp_bind, wp_tabs. cbn [fst]. pose proof Hh as [Hn Hel]. rewrite !length_take in Hn.
    destruct (lookup_lt_is_Some_2 out (Z.to_nat j)) as [e He]; [lia|]. assert (Z.to_nat (j + 1) = S (Z.to_nat j)) as Ej by lia. rewrite Ej, (take_S_r _ _ _ He). unfold MAX_TOTAL_PARTITIONS.
    destruct (Z.ltb_spec (unified_partition_count t1) 32) as [Hlt|Hge]; cbn [negb].
    + apply wp_bind, (Hget j t1 d1 e); [lia|done|done|done|]. intros p Hp Ep. apply wp_bind, wp_tabs. cbn [fst]. set (n := unified_partition_count t1) in *.
      destruct (lookup_lt_is_Some_2 (unified_partitions t1) (Z.to_nat n)) as [p0 Hp0]; [rewrite (to_all _ Hok1); lia|].
      apply wp_bind, (wp_elem _ _ _ _ p0); [lia|done|]. apply wp_upd. cbn [fst snd]. assert (length (take (Z.to_nat j) out) = Z.to_nat j) as Hlj by (rewrite length_take; lia).
      assert (n = j) as Enj by lia. rewrite (take_ge (take _ _ ++ _)) by (rewrite length_app; simpl; lia). rewrite (take_ge (take (Z.to_nat j) out)) in Hel, Hidx by lia.
      destruct (Hlab (u8 n) p) as (L1 & L2 & L3). set (q := label (set_index (u8 n) p)) in *. split_and!; [|done|].
      * split; [|done]. cbn [fst]. destruct Hok1. split; cbn; rewrite ?length_insert; try done. apply Forall_insert; [done|]. by apply Hpl.
      * cbn. assert (<[Z.to_nat n := q]> (unified_partitions t1) !! Z.to_nat n = Some q) as Hq by (apply list_lookup_insert_eq; by eapply lookup_lt_Some). split.
        -- split; [rewrite length_app; simpl; lia|]. intros k e' [[Hk Hk']|[-> Hk']]%lookup_snoc_Some.
           ++ destruct (Hel k e' Hk') as (r & Hr & Er). exists r. rewrite list_lookup_insert_ne by lia. done.
           ++ subst e'. exists q. rewrite Hlj, <-Enj, Hq, L1, L2. done.
        -- intros k r Hk Hr. rewrite length_app in Hk. simpl in Hk. destruct (decide (k = Z.to_nat n)) as [->|Hne].
           ++ rewrite Hq in Hr. injection Hr as <-. rewrite L3, wrap_small by lia. lia.
           ++ rewrite list_lookup_insert_ne in Hr by done. apply Hidx; [lia|done].
    + apply wp_ret. split_and!; [by split|done|]. assert (32 ≤ length (take (Z.to_nat j) out))%nat by (rewrite length_take; lia). rewrite take_app_le by lia. by split.
  - intros st' (Hs' & _ & Hun). apply HQ; [done|]. rewrite Z.add_0_l, Nat2Z.id, firstn_all in Hun. done.
Qed.

(** Both tables are read with the same guard. *)
Lemma get_holds (count : tables → Z) (parts : tables → list partition_info) out i t d e (R : option partition_info → state → Prop) :
  holds (parts t) (count t) out → Forall unmarked (parts t) → 0 ≤ i → out !! Z.to_nat i = Some e →
  (∀ p, unmarked p → (pi_start_lba p, pi_sector_count p) = e → R (Some p) (t, d)) →
  wp (n ← tabs count; if (i <? 0) || (n <=? i) then mret None else l ← tabs parts; p ← elem l i; mret (Some p)) (t, d) R.
Proof.
  intros [Hn Hh] Hpl Hi He HR. destruct (Hh _ _ He) as (p & Hp & Ep). pose proof (lookup_lt_Some _ _ _ He) as Hlt. apply wp_bind, wp_tabs. cbn [fst].
  rewrite (proj2 (Z.ltb_ge i 0)), (proj2 (Z.leb_gt _ i)) by lia. cbn [orb]. apply wp_bind, wp_tabs. cbn [fst]. apply wp_bind, (wp_elem _ _ _ _ p); [done|done|]. apply wp_ret, HR; [|done].
  exact (Forall_lookup_1 _ _ _ _ Hpl Hp).
Qed.

(** C19. Scanning a disk with a sane partition table leaves in the union, in
    the order of the disk and numbered from zero, the entries of the GUID
    table (the first 128, of which the union keeps 32), or those of the
    master boot record when there is none; the disk is not written. *)
Theorem partition_scan_correct l st : scanning l st → 1024 ≤ len l → gpt_sane l → heap_answers st.1 = [] →
  wp disk_partition_scan_device st (λ _ st', scanning l st' ∧ united (unified_partitions st'.1) (unified_partition_count st'.1) (take 32 (found l))).
Proof.
  intros Hs Hlen Hsane Hm. apply wp_bind, wp_upd. set (t0 := set_unified _ _ _). assert (scanning l (t0, st.2)) as Hs0.
  { destruct Hs as [[] ?]. split; [|done]. split; try done. apply Forall_replicate. split; [done|by left]. }
  apply wp_bind, (gpt_init_spec l); [done|done|done|done|done|]. intros st1 Hs1 Hu1 Hh1. apply wp_bind, wp_tabs. pose proof Hh1 as [Hn1 _]. unfold found.
  destruct (gpt_found l) as [|g gs] eqn:Eg.
  - rewrite Hn1. cbn [length Z.of_nat Z.ltb Z.compare]. apply wp_bind, (mbr_init_spec l); [done|lia|done|]. intros st2 Hs2 Hu2 Hh2. apply wp_bind, wp_tabs. pose proof Hh2 as [Hn2 _]. rewrite Hn2, Nat2Z.id.
    apply (unify_loop l); [done|done|intros i p; apply label_keeps|intros i p Hp; by apply label_unmarked| |by intros st' ? ?].
    intros i t d e R Hi He Hok (E1 & E2 & _). apply (get_holds partition_count detected_partitions (mbr_found l)); [by rewrite E1, E2|by destruct Hok|done|done].
  - rewrite Hn1. rewrite (proj2 (Z.ltb_lt _ _)) by (simpl; lia). rewrite Nat2Z.id.
    apply (unify_loop l); [done|done|intros i p; apply label_keeps|intros i p Hp; by apply label_unmarked| |by intros st' ? ?].
    intros i t d e R Hi He Hok (_ & _ & E3 & E4). apply (get_holds gpt_partition_count gpt_partitions (g :: gs)); [by rewrite E3, E4|by destruct Hok|done|done].
Qed.

End Scan.

(** ** A disk with an EFI system partition and a Linux partition *)

Definition demo_parts : list Z := put16 510 0xAA55 (put32 474 500 (put32 470 600 (put8 466 0x83 (put32 458 400 (put32 454 100 (put8 450 0xEF (replicate 1024 0))))))).

Lemma partition_scan_correct_witness : wp disk_partition_scan_device (boot_tables, demo_parts)
  (λ _ st', unified_partition_count st'.1 = 2 ∧ ∃ p, unified_partitions st'.1 !! 1%nat = Some p ∧ (pi_start_lba p, pi_sector_count p) = (600, 500)).
Proof.
  eapply wp_mono; [apply (partition_scan_correct demo_parts (boot_tables, demo_parts))|].
  - split; [exact boot_ok|reflexivity].
  - by vm_compute.
  - intros Hp. vm_compute in Hp. discriminate Hp.
  - reflexivity.
  - intros [] st' (_ & [Hn Hh] & _). assert (take 32 (found demo_parts) = [(100, 400); (600, 500)]) as E by (vm_compute; reflexivity). rewrite E in Hn, Hh.
    split; [exact Hn|]. by apply (Hh 1%nat).
Defined.

(** Its scan reports the first partition, of type 0xEF, without protection. *)
Lemma partition_never_protected_witness : let t := (exec disk_partition_scan_device (boot_tables, demo_parts)).1 in
  pi_type <$> unified_partitions t !! 0%nat = Some 0xEF ∧ Forall unprotected (unified_partitions t).
Proof.
  split; [vm_compute; reflexivity|]. apply (partition_never_protected (D := list Z)).
  apply (scanned_more boot_tables demo_parts tt _ demo_parts); [apply scanned_boot|]. vm_compute. reflexivity.
Defined.

End PartitionSpec.
