(* ===== verification/Printf.v ===== *)
(** * Correctness of formatted output ([libs/stdio.c])

    [render] is the text a format and its arguments stand for; [vsnprintf]
    stores a prefix of it that fits the buffer, and a terminator. *)
From S2P Require Import Prelude CString CStringSpec.

Module Printf.
Import CString CStringSpec.

(** ** The text of a format *)

(** An argument as the directive that uses it sees it. *)
Inductive farg := FInt (slot : Z) | FStr (l : list Z) | FNull.

Fixpoint width_of (l : list Z) (w : Z) : Z * list Z :=
  match l with
  | c :: l' => if is_digit c then width_of l' (i32 (w * 10 + (c - 48))) else (w, l)
  | [] => (w, [])
  end.

Definition pad_of (l : list Z) : Z * list Z :=
  match l with c :: l' => if c =? 48 then (48, l') else (32, l) | [] => (32, []) end.

Definition long_of (l : list Z) : bool * list Z :=
  match l with
  | c :: l' =>
      if c =? 108 then
        match l' with
        | d :: l'' => if d =? 108 then (true, l'') else (true, l')
        | [] => (true, [])
        end
      else (false, l)
  | [] => (false, [])
  end.

Definition number_text (is_long : bool) (c slot : Z) : list Z :=
  let val := if (c =? 112) || is_long then slot else u32 slot in
  if is_hex_conversion c then hex_text val else itoa_text (i64 val) 10.

Definition padded (pad width : Z) (l : list Z) : list Z :=
  replicate (Z.to_nat (width - Z.of_nat (length l))) pad ++ l.

Definition conversion (pad width : Z) (is_long : bool) (c : Z) (args : list farg) : option (list Z * list farg) :=
  if is_number_conversion c then
    match args with FInt slot :: args' => Some (padded pad width (number_text is_long c slot), args') | _ => None end
  else if c =? 115 then
    match args with
    | FStr l :: args' => Some (l, args')
    | FNull :: args' => Some (null_text, args')
    | _ => None
    end
  else if c =? 99 then
    match args with FInt slot :: args' => Some ([u8 slot], args') | _ => None end
  else if c =? 37 then Some ([37], args)
  else Some ([], args).

Fixpoint render (fuel : nat) (fmt : list Z) (args : list farg) : option (list Z) :=
  match fuel with
  | O => None
  | S fuel' =>
      match fmt with
      | [] => Some []
      | c :: l =>
          if c =? 37 then
            let '(pad, l1) := pad_of l in
            let '(width, l2) := width_of l1 0 in
            let '(is_long, l3) := long_of l2 in
            match l3 with
            | [] => Some []
            | d :: rest =>
                '(out, args') ← conversion pad width is_long d args;
                tail ← render fuel' rest args';
                Some (out ++ tail)
            end
          else tail ← render fuel' l args; Some (c :: tail)
      end
  end.

Lemma number_text_ok is_long c slot : 0 ≤ slot < 2 ^ 64 →
  let t := number_text is_long c slot in
  (length t ≤ 21)%nat ∧ Forall byte t ∧ Forall (λ x, x ≠ 0) t.
Proof.
  intros Hs. unfold number_text. set (val := if _ : bool then slot else u32 slot).
  assert (0 ≤ val < 2 ^ 64) as Hval.
  { unfold val. destruct (_ || _); [done|]. pose proof (wrap_range 32 slot). change (2 ^ 64) with (2 ^ 32 * 2 ^ 32). lia. }
  destruct (is_hex_conversion c); simpl.
  - unfold hex_text. destruct (val =? 0); [split; [simpl; lia|by split; repeat constructor]|].
    destruct (digit_text_bytes digit_upper 64 16 val ltac:(lia) digit_upper_ok).
    rewrite length_reverse, length_fmap, !Forall_reverse. split_and!; [|done|done].
    assert (0 ≤ val < 16 ^ Z.of_nat 16) as Hv.
    { change (16 ^ Z.of_nat 16) with 18446744073709551616. change (2 ^ 64) with 18446744073709551616 in Hval. exact Hval. }
    pose proof (digits_length_base 64 16 val 16 ltac:(lia) Hv). lia.
  - unfold itoa_text. destruct (i64 val =? 0); [split; [simpl; lia|by split; repeat constructor]|].
    destruct (digit_text_bytes digit_lower 64 10 (abs_value (i64 val) 10) ltac:(lia) digit_lower_ok).
    assert (0 ≤ abs_value (i64 val) 10 < 10 ^ Z.of_nat 20) as Hv.
    { change (10 ^ Z.of_nat 20) with 100000000000000000000. unfold abs_value.
      pose proof (wrap_range 64 (i64 val)) as H1. pose proof (wrap_range 64 val) as H2.
      change (2 ^ 64) with 18446744073709551616 in *.
      destruct (Z.ltb_spec (i64 val) 0) as [Hlt|]; simpl; [|lia]. unfold sign in Hlt |- *.
      change (2 ^ 64) with 18446744073709551616 in *. destruct (u64 val <? 2 ^ (64 - 1)); lia. }
    pose proof (digits_length_base 64 10 _ 20 ltac:(lia) Hv).
    rewrite length_app, length_reverse, length_fmap, !Forall_app, !Forall_reverse.
    set (ds := digits 64 10 _) in *. clearbody ds.
    destruct (_ && _); cbn [length]; split_and!; try assumption; try lia; by repeat constructor.
Qed.

Lemma pad_of_length l : (length (pad_of l).2 ≤ length l)%nat.
Proof. destruct l as [|c l]; simpl; [lia|]. destruct (c =? 48); simpl; lia. Qed.

Lemma width_of_length l : ∀ w, (length (width_of l w).2 ≤ length l)%nat.
Proof.
  induction l as [|c l IH]; intros w; simpl; [lia|]. destruct (is_digit c); simpl; [|lia].
  specialize (IH (i32 (w * 10 + (c - 48)))). lia.
Qed.

Lemma long_of_length l : (length (long_of l).2 ≤ length l)%nat.
Proof.
  destruct l as [|c [|d l]]; simpl; [lia|destruct (c =? 108); simpl; lia|].
  destruct (c =? 108); simpl; [|lia]. destruct (d =? 108); simpl; lia.
Qed.

(** ** The loops of vsnprintf *)

Lemma take_app_split {A} k (l1 l2 : list A) : take k (l1 ++ l2) = take k l1 ++ take (k - length (take k l1)) l2.
Proof. rewrite take_app, length_take. f_equal. f_equal. lia. Qed.

Section Output.
  Context (m0 : mem) (buffer : Z) (max : nat) (temp_buf : Z).
  Hypothesis Hbuf : mapped m0 buffer (S max).
  Hypothesis Htemp : mapped m0 temp_buf 64.
  Hypothesis Hdis : disjoint buffer (S max) temp_buf 64.
  Hypothesis Hok0 : bytes_ok m0.

(** Outside the buffer and the local array. *)
Definition elsewhere (x : Z) : Prop :=
  ¬ (buffer ≤ x < buffer + Z.of_nat (S max)) ∧ ¬ (temp_buf ≤ x < temp_buf + 64).

(** [out] has been produced so far. *)
Record produced (m : mem) (v : vs) (out : list Z) : Prop := {
  p_len : (length out ≤ max)%nat;
  p_written : v_written v = Z.of_nat (length out);
  p_ptr : v_ptr v = buffer + Z.of_nat (length out);
  p_out : holds m buffer out;
  p_dom x : is_Some (m0 !! x) → is_Some (m !! x);
  p_frame x : elsewhere x → m !! x = m0 !! x;
  p_bytes : bytes_ok m;
}.

Lemma produced_mapped m v out a n : produced m v out → mapped m0 a n → mapped m a n.
Proof. intros [] Ha i Hi. by apply p_dom0, Ha. Qed.

Lemma produced_cstr m v out a l : produced m v out → cstr m0 a l →
  (∀ i, (i ≤ length l)%nat → elsewhere (a + Z.of_nat i)) → cstr m a l.
Proof.
  intros HP [H Hl] He. split; [|done]. eapply holds_ext; [|done]. intros x Hx. rewrite length_app in Hx. simpl in Hx.
  replace x with (a + Z.of_nat (Z.to_nat (x - a))) by lia. apply (p_frame _ _ _ HP), He. lia.
Qed.

Lemma put_char_spec m v out c : produced m v out → (length out < max)%nat →
  wp (put_char c v) m (λ v' m', produced m' v' (out ++ [u8 c]) ∧ v_f v' = v_f v ∧ v_args v' = v_args v ∧
    ∀ x, ¬ (buffer ≤ x < buffer + Z.of_nat (S max)) → m' !! x = m !! x).
Proof using Hbuf.
  intros HP Hlt. pose proof HP as [P1 P2 P3 P4 P5 P6 P7]. unfold put_char. apply wp_bind.
  unfold st. apply wp_bind. destruct (P5 (v_ptr v)) as [b Hb].
  { rewrite P3. apply Hbuf. lia. }
  eapply wp_ld; [done|]. apply wp_modify. apply wp_ret. split_and!; [|done|done|].
  - split; simpl.
    + rewrite length_app. simpl. lia.
    + rewrite length_app, P2. simpl. lia.
    + rewrite length_app, P3. simpl. lia.
    + apply holds_app. split.
      * eapply holds_ext; [|done]. intros x Hx. rewrite lookup_insert_ne; [done|]. rewrite P3. lia.
      * apply holds_cons. split; [|by intros i ?]. by rewrite P3, lookup_insert_eq.
    + intros x Hx. apply lookup_insert_is_Some'. right. by apply P5.
    + intros x Hx. rewrite lookup_insert_ne by (rewrite P3; destruct Hx; lia). by apply P6.
    + apply bytes_ok_insert; [done|]. apply wrap_range. lia.
  - intros x Hx. rewrite lookup_insert_ne; [done|]. rewrite P3. lia.
Qed.

(** The loops that append text share this postcondition. *)
Definition appended (m : mem) (v : vs) (out l : list Z) (v' : vs) (m' : mem) : Prop :=
  produced m' v' (out ++ take (max - length out) l) ∧ v_f v' = v_f v ∧ v_args v' = v_args v ∧
  ∀ x, ¬ (buffer ≤ x < buffer + Z.of_nat (S max)) → m' !! x = m !! x.

Lemma appended_full m v out l : produced m v out → ¬ (length out < max)%nat → appended m v out l v m.
Proof.
  intros HP Hn. split_and!; try done. replace (max - length out)%nat with 0%nat by lia. simpl. by rewrite app_nil_r.
Qed.

Lemma appended_nil m v out : produced m v out → appended m v out [] v m.
Proof. intros HP. split_and!; try done. rewrite take_nil, app_nil_r. done. Qed.

Lemma appended_cons m v out c l v1 m1 v2 m2 : (length out < max)%nat → 
  v_f v1 = v_f v → v_args v1 = v_args v →
  (∀ x, ¬ (buffer ≤ x < buffer + Z.of_nat (S max)) → m1 !! x = m !! x) →
  appended m1 v1 (out ++ [c]) l v2 m2 → appended m v out (c :: l) v2 m2.
Proof.
  intros Hlt Hf Ha Hm (HP & Hf' & Ha' & Hm'). split_and!; [|congruence|congruence|].
  - rewrite <-app_assoc, length_app in HP. simpl in HP.
    destruct (max - length out)%nat as [|k] eqn:E; [lia|]. simpl. by replace (max - (length out + 1))%nat with k in HP by lia.
  - intros x Hx. rewrite Hm', Hm by done. done.
Qed.

Lemma written_ltb m v out : produced m v out → (v_written v <? Z.of_nat max) = bool_decide (length out < max)%nat.
Proof.
  intros HP. rewrite (p_written _ _ _ HP). case_bool_decide; [apply Z.ltb_lt; lia|apply Z.ltb_ge; lia].
Qed.

Lemma put_string_spec l : ∀ fuel t m v out, produced m v out → cstr m t l → Forall byte l → (length l < fuel)%nat →
  (∀ i, (i ≤ length l)%nat → ¬ (buffer ≤ t + Z.of_nat i < buffer + Z.of_nat (S max))) →
  wp (put_string fuel t (Z.of_nat max) v) m (λ v' m', appended m v out l v' m').
Proof using Hbuf.
  induction l as [|c l IH]; intros [|fuel] t m v out HP Hs Hb Hf Ho; simpl in Hf; try lia; simpl.
  - apply wp_bind. eapply wp_ld; [by apply cstr_nil|]. simpl. apply wp_ret. by apply appended_nil.
  - apply cstr_cons in Hs as (Hc & Hc0 & Hs). apply Forall_cons in Hb as [Hbc Hb].
    apply wp_bind. eapply wp_ld; [done|]. rewrite (proj2 (Z.eqb_neq c 0)), (written_ltb m v out HP) by done. simpl.
    case_bool_decide as Hlt; [|apply wp_ret; by apply appended_full].
    apply wp_bind. eapply wp_mono; [by apply (put_char_spec m v out)|]. intros v1 m1 (HP1 & Hf1 & Ha1 & Hm1).
    rewrite u8_byte in HP1 by done.
    eapply wp_mono; [apply (IH fuel (t + 1) m1 v1 _ HP1); [|done|lia|]|].
    + destruct Hs as [Hh Hn]. split; [|done]. eapply holds_ext; [|done]. intros x Hx. rewrite length_app in Hx. simpl in Hx.
      apply Hm1. replace x with (t + Z.of_nat (Z.to_nat (x - t))) by lia. apply Ho. simpl. lia.
    + intros i Hi. replace (t + 1 + Z.of_nat i) with (t + Z.of_nat (S i)) by lia. apply Ho. simpl. lia.
    + intros v2 m2 H2. by eapply appended_cons.
Qed.

Lemma put_padding_spec pad n : byte pad → ∀ m v out, produced m v out →
  wp (put_padding n pad (Z.of_nat max) v) m (λ v' m', appended m v out (replicate n pad) v' m').
Proof using Hbuf.
  intros Hp. induction n as [|n IH]; intros m v out HP; simpl; [apply wp_ret; by apply appended_nil|].
  rewrite (written_ltb m v out HP). case_bool_decide as Hlt; [|apply wp_ret; by apply appended_full].
  apply wp_bind. eapply wp_mono; [by apply (put_char_spec m v out)|]. intros v1 m1 (HP1 & Hf1 & Ha1 & Hm1).
  rewrite u8_byte in HP1 by done. eapply wp_mono; [by apply IH|]. intros v2 m2 H2. by eapply appended_cons.
Qed.

Lemma put_chars_spec l : ∀ m v out, produced m v out → Forall byte l →
  wp (put_chars l (Z.of_nat max) v) m (λ v' m', appended m v out l v' m').
Proof using Hbuf.
  induction l as [|c l IH]; intros m v out HP Hb; simpl; [apply wp_ret; by apply appended_nil|].
  apply Forall_cons in Hb as [Hbc Hb].
  rewrite (written_ltb m v out HP). case_bool_decide as Hlt; [|apply wp_ret; by apply appended_full].
  apply wp_bind. eapply wp_mono; [by apply (put_char_spec m v out)|]. intros v1 m1 (HP1 & Hf1 & Ha1 & Hm1).
  rewrite u8_byte in HP1 by done. eapply wp_mono; [by apply IH|]. intros v2 m2 H2. by eapply appended_cons.
Qed.

(** ** Strings the code reads *)

(** The string [l] at [f], out of reach of the writes. *)
Definition text (f : Z) (l : list Z) : Prop :=
  cstr m0 f l ∧ ∀ i, (i ≤ length l)%nat → elsewhere (f + Z.of_nat i).

Lemma text_cstr m v out f l : produced m v out → text f l → cstr m f l.
Proof. intros HP [Hs He]. by eapply produced_cstr. Qed.

Lemma text_bytes f l : text f l → Forall byte l.
Proof using Hok0. intros [[H _] _]. apply holds_bytes in H; [|done]. by apply Forall_app in H as [? _]. Qed.

Lemma text_cons f c l : text f (c :: l) → c ≠ 0 ∧ text (f + 1) l.
Proof.
  intros [Hs He]. apply cstr_cons in Hs as (_ & Hc & Hs). split; [done|]. split; [done|].
  intros i Hi. replace (f + 1 + Z.of_nat i) with (f + Z.of_nat (S i)) by lia. apply He. simpl. lia.
Qed.

(** The first character of the string at [f], or its terminator. *)
Definition char_at (l : list Z) : Z := match l with [] => 0 | c :: _ => c end.

Lemma wp_ld_text m v out f l (R : Z → mem → Prop) : produced m v out → text f l → R (char_at l) m → wp (ld f) m R.
Proof.
  intros HP Ht HR. pose proof (text_cstr _ _ _ _ _ HP Ht) as Hs. destruct l as [|c l]; simpl in HR.
  - eapply wp_ld; [by apply cstr_nil|done].
  - apply cstr_cons in Hs as (Hc & _). by eapply wp_ld.
Qed.

Lemma text_size m v out f l : produced m v out → text f l → (length l < size m)%nat.
Proof. intros HP Ht. eapply cstr_size. by eapply text_cstr. Qed.

Lemma read_width_spec m v out l : produced m v out → ∀ fuel f w, text f l → (length l < fuel)%nat →
  wp (read_width fuel f w) m (λ r m', m' = m ∧ r.2 = (width_of l w).1 ∧ text r.1 (width_of l w).2).
Proof.
  intros HP. induction l as [|c l IH]; intros [|fuel] f w Ht Hf; simpl in Hf; try lia; simpl;
    apply wp_bind; (eapply wp_ld_text; [done|done|]); simpl.
  - apply wp_ret. done.
  - destruct (is_digit c); [|by apply wp_ret]. apply text_cons in Ht as [_ Ht]. apply IH; [done|lia].
Qed.

(** ** Conversions *)

Definition arg_ok (slot : Z) (a : farg) : Prop :=
  match a with
  | FInt v => slot = v ∧ 0 ≤ v < 2 ^ 64
  | FStr l => slot ≠ 0 ∧ text slot l
  | FNull => slot = 0
  end.

(** Writing a number into the local array. *)
Lemma temp_number m v out is_long c slot : produced m v out → 0 ≤ slot < 2 ^ 64 →
  let t := number_text is_long c slot in
  let val := if (c =? 112) || is_long then slot else u32 slot in
  wp (if is_hex_conversion c then itoa_hex val temp_buf else itoa (i64 val) 10 temp_buf) m (λ _ m',
    produced m' v out ∧ cstr m' temp_buf t).
Proof using Htemp Hdis.
  intros HP Hslot t val. destruct (number_text_ok is_long c slot Hslot) as (Hlen & Hb & Hnz). fold t in Hlen, Hb, Hnz.
  assert (mapped m temp_buf (length t + 1)) as Hm.
  { intros i Hi. apply (produced_mapped m v out temp_buf 64 HP Htemp). lia. }
  assert (0 ≤ val < 2 ^ 64) as Hval.
  { unfold val. destruct (_ || _); [done|]. pose proof (wrap_range 32 slot). change (2 ^ 64) with (2 ^ 32 * 2 ^ 32). lia. }
  apply (wp_mono _ _ (λ _ m', m' = writes m temp_buf (t ++ [0]))).
  - unfold t, number_text in Hm |- *. fold val in Hm |- *. destruct (is_hex_conversion c).
    + by apply itoa_hex_spec.
    + apply itoa_spec; [lia| |done]. unfold sign. change (2 ^ (64 - 1)) with (2 ^ 63). rewrite wrap_small by done.
      change (2 ^ 64) with (2 * 2 ^ 63) in Hval |- *. destruct (Z.ltb_spec val (2 ^ 63)); lia.
  - intros [] m' ->. split; [|split; [apply holds_writes|done]].
    destruct HP as [P1 P2 P3 P4 P5 P6 P7]. unfold disjoint in Hdis. split; try done.
    + apply holds_frame; [|done]. rewrite length_app. simpl. lia.
    + intros x Hx. rewrite lookup_writes. case_decide as Hd; [|by apply P5].
      apply lookup_lt_is_Some_2. lia.
    + intros x [Hx1 Hx2]. rewrite writes_out; [by apply P6|]. rewrite length_app. simpl. lia.
    + apply bytes_ok_writes; [done|]. apply Forall_app. split; [done|]. by repeat constructor.
Qed.

(** What a directive adds: its text, as far as it fits. *)
Definition extended (v : vs) (out l : list Z) (slots : list Z) (v' : vs) (m' : mem) : Prop :=
  produced m' v' (out ++ take (max - length out) l) ∧ v_f v' = v_f v ∧ v_args v' = slots.

Lemma convert_spec m v out pad width is_long c args o args' : produced m v out → (length out < max)%nat →
  byte pad → Forall2 arg_ok (v_args v) args → conversion pad width is_long c args = Some (o, args') →
  wp (convert temp_buf (Z.of_nat max) pad width is_long c v) m (λ v' m',
    ∃ slots, extended v out o slots v' m' ∧ Forall2 arg_ok slots args').
Proof using Hbuf Htemp Hdis Hok0.
  intros HP Hlt Hpad Hargs Hc. unfold convert, rounds. apply wp_bind, wp_gets. unfold conversion in Hc.
  assert (∀ args1, produced m (mk_vs (v_f v) (v_ptr v) (v_written v) args1) out) as HPa by (intros; by destruct HP).
  destruct (is_number_conversion c).
  { destruct args as [|[slot| |] args]; try done. injection Hc as <- <-.
    apply Forall2_cons_inv_r in Hargs as (x & slots & [-> Hslot] & Hargs & ->). simpl va_arg. apply wp_bind, wp_ret.
    apply wp_bind. eapply wp_mono; [by apply (temp_number m _ out is_long c slot (HPa slots))|].
    intros [] m1 [HP1 Hs1]. set (t := number_text is_long c slot) in *.
    destruct (number_text_ok is_long c slot Hslot) as (Hlen & Hb & Hnz). fold t in Hlen, Hb, Hnz.
    apply wp_bind. eapply wp_mono; [by apply strlen_spec|]. intros len m1' [-> ->].
    apply wp_bind. eapply wp_mono; [by apply (put_padding_spec pad _ Hpad m1 _ out)|].
    intros v2 m2 (HP2 & Hf2 & Ha2 & Hm2). unfold disjoint in Hdis. simpl in Hf2, Ha2.
    eapply wp_mono; [apply (put_string_spec t _ temp_buf m2 v2 _ HP2); [|done| |]|].
    - destruct Hs1 as [Hh Hn]. split; [|done]. eapply holds_ext; [|done]. intros x Hx. rewrite length_app in Hx. simpl in Hx.
      apply Hm2. lia.
    - pose proof (mapped_size m temp_buf 64 ltac:(by eapply produced_mapped)). lia.
    - intros i Hi. lia.
    - intros v3 m3 (HP3 & Hf3 & Ha3 & _). exists slots. split; [|done]. split_and!; [|congruence|congruence].
      unfold padded. rewrite (take_app_split (max - length out)), app_assoc.
      rewrite length_app in HP3. by replace (max - (length out + length (take (max - length out) (replicate (Z.to_nat (width - Z.of_nat (length t))) pad))))%nat
        with (max - length out - length (take (max - length out) (replicate (Z.to_nat (width - Z.of_nat (length t))) pad)))%nat in HP3 by lia. }
  destruct (c =? 115).
  { destruct args as [|[slot|l|] args]; try done; injection Hc as <- <-;
      apply Forall2_cons_inv_r in Hargs as (x & slots & Hx & Hargs & ->); simpl va_arg; apply wp_bind, wp_ret.
    - destruct Hx as [Hx Ht]. rewrite (proj2 (Z.eqb_neq x 0)) by done.
      eapply wp_mono; [apply (put_string_spec l _ x m _ out (HPa slots)); [by eapply text_cstr|by eapply text_bytes| |]|].
      + pose proof (text_size m v out x l HP Ht). lia.
      + intros i Hi. by apply Ht.
      + intros v3 m3 (HP3 & Hf3 & Ha3 & _). by exists slots.
    - simpl in Hx. subst x. simpl.
      eapply wp_mono; [apply (put_chars_spec null_text m _ out (HPa slots)); by repeat constructor|].
      intros v3 m3 (HP3 & Hf3 & Ha3 & _). by exists slots. }
  assert (∀ x : Z, take (max - length out) [x] = [x]) as Htake1.
  { intros x. destruct (max - length out)%nat as [|k] eqn:E; [lia|]. simpl. by rewrite take_nil. }
  destruct (c =? 99).
  { destruct args as [|[slot| |] args]; try done. injection Hc as <- <-.
    apply Forall2_cons_inv_r in Hargs as (x & slots & [-> Hslot] & Hargs & ->). simpl va_arg. apply wp_bind, wp_ret.
    eapply wp_mono; [by apply (put_char_spec m _ out slot (HPa slots))|].
    intros v3 m3 (HP3 & Hf3 & Ha3 & _). exists slots. split; [|done]. split_and!; [|done|done]. by rewrite Htake1. }
  destruct (c =? 37); injection Hc as <- <-.
  { eapply wp_mono; [by apply (put_char_spec m v out 37)|].
    intros v3 m3 (HP3 & Hf3 & Ha3 & _). exists (v_args v). split; [|done]. split_and!; [|done|done].
    rewrite Htake1. exact HP3. }
  apply wp_ret. exists (v_args v). split; [|done]. split_and!; [|done|done]. by rewrite take_nil, app_nil_r.
Qed.

(** The flags, the width and the length modifiers of a directive are read the
    way [pad_of], [width_of] and [long_of] split the format. *)
Lemma directive_parse m v out l (R : vs → mem → Prop) : produced m v out → text (v_f v) l →
  (∀ pad width is_long l3 f, pad = (pad_of l).1 → width = (width_of (pad_of l).2 0).1 →
     is_long = (long_of (width_of (pad_of l).2 0).2).1 → l3 = (long_of (width_of (pad_of l).2 0).2).2 → text f l3 → byte pad →
     wp (v' ← convert temp_buf (Z.of_nat max) pad width is_long (char_at l3) (mk_vs f (v_ptr v) (v_written v) (v_args v));
         mret (if char_at l3 =? 0 then v' else advance 1 v')) m R) →
  wp (directive temp_buf (Z.of_nat max) v) m R.
Proof.
  intros HP Ht HR. unfold directive, rounds. apply wp_bind, wp_gets. apply wp_bind. eapply wp_ld_text; [done|done|].
  assert (∃ f1, text f1 (pad_of l).2 ∧ f1 = (if char_at l =? 48 then v_f v + 1 else v_f v) ∧
            (if char_at l =? 48 then 48 else 32) = (pad_of l).1) as (f1 & Ht1 & -> & ->).
  { unfold pad_of. destruct l as [|c l]; simpl; [by eexists|]. destruct (c =? 48); [|by eexists].
    apply text_cons in Ht as [_ Ht]. by eexists. }
  apply wp_bind. eapply wp_mono; [apply (read_width_spec m v out (pad_of l).2 HP); [done|]|].
  { pose proof (text_size _ _ _ _ _ HP Ht1). lia. }
  intros [f2 width] m' (-> & Hw & Ht2). simpl in Hw, Ht2. set (l2 := (width_of (pad_of l).2 0).2) in *.
  apply wp_bind. eapply wp_ld_text; [done|done|]. apply wp_bind.
  apply (wp_mono _ _ (λ c2 m', m' = m ∧ (char_at l2 = 108 → ∃ r, l2 = 108 :: r ∧ c2 = char_at r ∧ text (f2 + 1) r))).
  { destruct (Z.eqb_spec (char_at l2) 108) as [E|E]; [|by apply wp_ret].
    destruct l2 as [|c r]; [done|]. simpl in E. subst c. apply text_cons in Ht2 as [_ Ht2].
    eapply wp_ld_text; [done|done|]. split; [done|]. intros _. by exists r. }
  intros c2 m' [-> Hc2].
  assert (∃ f3, text f3 (long_of l2).2 ∧
     f3 = (if char_at l2 =? 108 then (if c2 =? 108 then f2 + 2 else f2 + 1) else f2) ∧
     (char_at l2 =? 108) = (long_of l2).1) as (f3 & Ht3 & Ef3 & El).
  { destruct (Z.eqb_spec (char_at l2) 108) as [E|E].
    - destruct (Hc2 E) as (r & -> & -> & Htr). simpl. destruct r as [|d r]; simpl; [by eexists|].
      destruct (d =? 108); [|by eexists]. apply text_cons in Htr as [_ Htr]. exists (f2 + 2). split_and!; try done.
      by replace (f2 + 2) with (f2 + 1 + 1) by lia.
    - unfold long_of. destruct l2 as [|c r]; simpl in *; [by eexists|]. rewrite (proj2 (Z.eqb_neq c 108)) by done. by eexists. }
  rewrite <-Ef3. apply wp_bind. eapply wp_ld_text; [done|done|]. apply HR; try done.
  unfold pad_of, byte. destruct l as [|c l']; [simpl; lia|]. destruct (c =? 48); simpl; lia.
Qed.

(** A directive, from behind the percent sign on. *)
Lemma directive_spec m v out l args : produced m v out → (length out < max)%nat → text (v_f v) l →
  Forall2 arg_ok (v_args v) args →
  let '(pad, l1) := pad_of l in
  let '(width, l2) := width_of l1 0 in
  let '(is_long, l3) := long_of l2 in
  match l3 with
  | [] => wp (directive temp_buf (Z.of_nat max) v) m (λ v' m', produced m' v' out ∧ text (v_f v') [])
  | d :: rest => ∀ o args', conversion pad width is_long d args = Some (o, args') →
      wp (directive temp_buf (Z.of_nat max) v) m (λ v' m',
        produced m' v' (out ++ take (max - length out) o) ∧ text (v_f v') rest ∧ Forall2 arg_ok (v_args v') args')
  end.
Proof using Hbuf Htemp Hdis Hok0.
  intros HP Hlt Ht Hargs.
  pose proof (λ R, directive_parse m v out l R HP Ht) as Hparse.
  destruct (pad_of l) as [pad l1]. destruct (width_of l1 0) as [width l2] eqn:Ew. simpl in Hparse.
  rewrite Ew in Hparse. simpl in Hparse. destruct (long_of l2) as [is_long l3]. simpl in Hparse.
  assert (∀ f, produced m (mk_vs f (v_ptr v) (v_written v) (v_args v)) out) as HPf by (intros; by destruct HP).
  destruct l3 as [|d rest].
  - apply Hparse. intros ? ? ? ? f -> -> -> -> Htf Hpad. apply wp_bind. simpl. unfold convert, rounds. apply wp_bind, wp_gets.
    apply wp_ret, wp_ret. done.
  - intros o args' Hconv. apply Hparse. intros ? ? ? ? f -> -> -> -> Htf Hpad. apply wp_bind. simpl.
    eapply wp_mono; [by eapply (convert_spec m _ out pad width is_long d args o args' (HPf f))|].
    intros v' m' (slots & (HP' & Hf' & Ha') & Hargs'). simpl in Hf'. apply text_cons in Htf as [Hd Htf].
    apply wp_ret. rewrite (proj2 (Z.eqb_neq d 0)) by done. simpl. rewrite Hf', Ha'. split_and!; [by destruct HP'|done|done].
Qed.

Lemma vsnprintf_loop_spec fuel : ∀ fmt args full m v out rfuel,
  produced m v out → text (v_f v) fmt → Forall2 arg_ok (v_args v) args →
  (length fmt < fuel)%nat → render rfuel fmt args = Some full →
  wp (vsnprintf_loop fuel temp_buf (Z.of_nat max) v) m (λ v' m', produced m' v' (out ++ take (max - length out) full)).
Proof using Hbuf Htemp Hdis Hok0.
  induction fuel as [|fuel IH]; intros fmt args full m v out rfuel HP Ht Hargs Hf Hr; [lia|].
  cbn [vsnprintf_loop]. apply wp_bind. eapply wp_ld_text; [done|done|].
  destruct rfuel as [|rfuel]; [done|].
  destruct fmt as [|c fmt]; simpl in Hr; simpl char_at.
  { simpl. apply wp_ret. injection Hr as <-. by rewrite take_nil, app_nil_r. }
  pose proof Ht as [Hc0 Ht1]%text_cons. rewrite (proj2 (Z.eqb_neq c 0)), (written_ltb m v out HP) by done. simpl negb.
  rewrite andb_true_l. case_bool_decide as Hlt.
  2:{ apply wp_ret. replace (max - length out)%nat with 0%nat by lia. simpl. by rewrite app_nil_r. }
  simpl in Hf. apply wp_bind. destruct (c =? 37).
  - assert (produced m (advance 1 v) out) as HP1 by by destruct HP.
    pose proof (directive_spec m (advance 1 v) out fmt args HP1 Hlt Ht1 Hargs) as Hd.
    destruct (pad_of fmt) as [pad l1] eqn:E1. destruct (width_of l1 0) as [width l2] eqn:E2.
    destruct (long_of l2) as [is_long l3] eqn:E3.
    assert (length l3 ≤ length fmt)%nat as Hl3.
    { pose proof (pad_of_length fmt). pose proof (width_of_length l1 0). pose proof (long_of_length l2).
      rewrite E1 in *. rewrite E2 in *. rewrite E3 in *. simpl in *. lia. }
    destruct l3 as [|d rest].
    + injection Hr as <-. rewrite take_nil, app_nil_r. eapply wp_mono; [exact Hd|]. intros v' m' [HP' Ht'].
      destruct fuel as [|fuel']; [lia|]. cbn [vsnprintf_loop]. apply wp_bind. eapply wp_ld_text; [done|done|]. simpl. by apply wp_ret.
    + destruct (conversion pad width is_long d args) as [[o args']|]; [|done]. simpl in Hr.
      destruct (render rfuel rest args') as [tl|] eqn:Er; [|done]. injection Hr as <-.
      eapply wp_mono; [by apply Hd|]. intros v' m' (HP' & Ht' & Hargs').
      eapply wp_mono; [apply (IH rest args' tl m' v' _ rfuel HP' Ht' Hargs'); [simpl in Hl3; lia|done]|].
      intros v2 m2 HP2. rewrite <-app_assoc in HP2. rewrite take_app_split, length_app in *.
      by replace (max - (length out + length (take (max - length out) o)))%nat
        with (max - length out - length (take (max - length out) o))%nat in HP2 by lia.
  - destruct (render rfuel fmt args) as [tl|] eqn:Er; [|done]. injection Hr as <-.
    assert (byte c) as Hbc. { apply text_bytes in Ht. by apply Forall_cons in Ht as [? _]. }
    apply wp_bind. eapply wp_mono; [by apply (put_char_spec m v out c)|]. intros v1 m1 (HP1 & Hf1 & Ha1 & _). apply wp_ret.
    rewrite u8_byte in HP1 by done.
    eapply wp_mono; [apply (IH fmt args tl m1 (advance 1 v1) (out ++ [c]) rfuel); [by destruct HP1| | |lia|done]|].
    + simpl. by rewrite Hf1.
    + simpl. by rewrite Ha1.
    + intros v2 m2 HP2. rewrite <-app_assoc, length_app in HP2. simpl in HP2.
      destruct (max - length out)%nat as [|k] eqn:E; [lia|]. simpl. by replace (max - (length out + 1))%nat with k in HP2 by lia.
Qed.

End Output.

(** C27. [vsnprintf] stores the text of the format and its arguments, cut to
    [size - 1] characters, and a terminating zero; it returns the number of
    characters stored; and it writes nowhere but into the buffer and its own
    local array.  (The format and the [%s] arguments are strings outside both;
    the arguments are of the kinds the directives ask for.) *)
Theorem vsnprintf_correct m buffer (max : nat) temp_buf format fmt slots args full :
  bytes_ok m → buffer ≠ 0 → Z.of_nat max < 2 ^ 31 →
  mapped m buffer (S max) → mapped m temp_buf 64 → disjoint buffer (S max) temp_buf 64 →
  text m buffer max temp_buf format fmt → Forall2 (arg_ok m buffer max temp_buf) slots args →
  render (S (length fmt)) fmt args = Some full →
  wp (vsnprintf temp_buf buffer (Z.of_nat (S max)) format slots) m (λ r m',
    r = Z.of_nat (length (take max full)) ∧ holds m' buffer (take max full ++ [0]) ∧
    ∀ x, elsewhere buffer max temp_buf x → m' !! x = m !! x).
Proof.
  intros Hok Hb0 Hmax Hbuf Htemp Hdis Ht Hargs Hr. unfold vsnprintf, rounds.
  rewrite (proj2 (Z.eqb_neq buffer 0)), (proj2 (Z.eqb_neq (Z.of_nat (S max)) 0)) by lia. simpl orb. cbv iota.
  apply wp_bind, wp_gets. replace (Z.of_nat (S max) - 1) with (Z.of_nat max) by lia.
  assert (produced m buffer max temp_buf m (mk_vs format buffer 0 slots) []) as HP.
  { split; simpl; try done; lia. }
  apply wp_bind. eapply wp_mono.
  { eapply (vsnprintf_loop_spec m buffer max temp_buf Hbuf Htemp Hdis Hok _ fmt args full m _ [] (S (length fmt)) HP Ht Hargs); [|done].
    pose proof (text_size _ _ _ _ _ _ _ _ _ HP Ht). lia. }
  intros v m' HP'. simpl in HP'. rewrite Nat.sub_0_r in HP'. destruct HP' as [P1 P2 P3 P4 P5 P6 P7].
  apply wp_bind. apply wp_st; [|done|].
  { rewrite P3. apply P5, Hbuf. lia. }
  apply wp_ret. rewrite P2. split_and!.
  - apply sign_small; [lia|]. change (2 ^ (32 - 1)) with (2 ^ 31). lia.
  - apply holds_app. split.
    + eapply holds_ext; [|done]. intros x Hx. rewrite lookup_insert_ne; [done|]. rewrite P3. lia.
    + apply holds_cons. split; [|by intros i ?]. by rewrite P3, lookup_insert_eq.
  - intros x Hx. rewrite lookup_insert_ne; [by apply P6|]. rewrite P3. destruct Hx. lia.
Qed.

(** A small memory: a buffer of 12 bytes at 100, the local array at 200, the
    format [n=%04d %s!] at 300 and the argument [abc] at 400. *)
Definition demo_format : list Z := [110; 61; 37; 48; 52; 100; 32; 37; 115; 33].
Definition demo_mem : mem :=
  writes (writes (writes (writes ∅ 100 (replicate 12 7)) 200 (replicate 64 7)) 300 (demo_format ++ [0])) 400 [97; 98; 99; 0].

Lemma demo_text buffer max temp_buf f l : bool_decide (Forall (λ c, c ≠ 0) l) = true →
  forallb (λ '(i, b), bool_decide (demo_mem !! (f + Z.of_nat i) = Some b)) (zip (seq 0 (S (length l))) (l ++ [0])) = true →
  f + Z.of_nat (length l) < buffer ∨ buffer + Z.of_nat (S max) ≤ f →
  f + Z.of_nat (length l) < temp_buf ∨ temp_buf + 64 ≤ f → text demo_mem buffer max temp_buf f l.
Proof.
  intros Hz H Hb Ht. apply bool_decide_eq_true in Hz. split.
  - split; [|done]. intros i b Hb'. rewrite forallb_forall in H.
    assert (i < S (length l))%nat as Hi. { apply lookup_lt_Some in Hb'. rewrite length_app in Hb'. simpl in Hb'. lia. }
    assert (In (i, b) (zip (seq 0 (S (length l))) (l ++ [0]))) as Hin.
    { apply list_elem_of_In, elem_of_lookup_zip_with. exists i, i, b. split_and!; [done| |done].
      apply lookup_seq. split; [lia|done]. }
    by specialize (H _ Hin); apply bool_decide_eq_true in H.
  - intros i Hi. unfold elsewhere. lia.
Qed.

(** 42 and the string come out as [n=0042 abc!], cut to eleven characters. *)
Lemma vsnprintf_correct_witness :
  wp (vsnprintf 200 100 12 300 [42; 400]) demo_mem (λ r m', r = 11 ∧
    holds m' 100 [110; 61; 48; 48; 52; 50; 32; 97; 98; 99; 33; 0]).
Proof.
  eapply wp_mono.
  { apply (vsnprintf_correct demo_mem 100 11 200 300 demo_format [42; 400] [FInt 42; FStr [97; 98; 99]]
             [110; 61; 48; 48; 52; 50; 32; 97; 98; 99; 33]).
    - apply (bool_decide_unpack _). vm_compute. exact I.
    - done.
    - done.
    - apply mapped_check. vm_compute. reflexivity.
    - apply mapped_check. vm_compute. reflexivity.
    - left. done.
    - apply demo_text; [vm_compute; reflexivity|vm_compute; reflexivity|right; done|right; done].
    - apply Forall2_cons. split; [done|]. apply Forall2_cons. split; [|done]. split; [done|].
      apply demo_text; [vm_compute; reflexivity|vm_compute; reflexivity|right; done|right; done].
    - vm_compute. reflexivity. }
  intros r m' (-> & H & _). split; [reflexivity|exact H].
Defined.

(** A negative [int] printed with [%d] comes out as a large positive
    number: the argument is read as unsigned and never sign-extended, so the
    text for [-1] is [4294967295]. *)
Lemma printf_d_negative :
  wp (vsnprintf 200 100 12 300 [u64 (-1)]) (writes demo_mem 300 [37; 100; 0]) (λ r m', r = 10 ∧
    (λ i, m' !! (100 + Z.of_nat i)) <$> seq 0 11 = Some <$> [52; 50; 57; 52; 57; 54; 55; 50; 57; 53; 0]).
Proof. vm_compute. split; reflexivity. Qed.

End Printf.
