(* ===== verification/Blocking.v ===== *)
(** * The scheduler as its clients see it

    Pipes, sockets and event counters put the running task to sleep and wake
    others up; they rely on nothing else of [proc/sched.c].  [SchedOps] names
    the calls, [SchedLaws] what they promise, in terms of the tasks that are
    [ready] to run.  The instance at the end shows that the run queues of
    [Sched] keep the promises. *)
From S2P Require Import Prelude Links Sched SchedSpec.

Class SchedOps (S : Type) := {
  block : Z → M S unit; (* sched_block *)
  unblock : Z → M S unit; (* sched_unblock *)
  wake_all : M S unit; (* io_wake_all *)
}.

Class SchedLaws (S : Type) `{SchedOps S} := {
  sched_ok : S → Prop;
  known : S → Z → Prop;
  ready : S → Z → Prop;
  block_law s t : sched_ok s → known s t → ready s t → wp (block t) s (λ _ s',
    sched_ok s' ∧ (∀ u, known s u → known s' u) ∧ ¬ ready s' t ∧ ∀ u, u ≠ t → ready s' u ↔ ready s u);
  unblock_law s t : sched_ok s → known s t → wp (unblock t) s (λ _ s',
    sched_ok s' ∧ (∀ u, known s u → known s' u) ∧ ready s' t ∧ ∀ u, ready s u → ready s' u);
  wake_all_law s : sched_ok s → wp wake_all s (λ _ s',
    sched_ok s' ∧ (∀ u, known s u → known s' u) ∧ ∀ u, ready s u → ready s' u);
}.

(** ** The implementation *)

Module SchedClient.
Import Sched SchedSpec.

#[global] Instance sched_ops : SchedOps sched := {|
  block t := sched_block (Some t);
  unblock t := sched_unblock (Some t);
  wake_all := io_wake_all;
|}.

(** A task is ready when it is linked into a run queue. *)
Definition queued (s : sched) (x : Z) : Prop := ∃ t, tasks s !! x = Some t ∧ linked_guard s x t = true.

(** Run queues, sleep list and waiter array are consistent. *)
Definition consistent (s : sched) : Prop := ∃ Q l, sched_inv s Q l ∧ NoDup (io_waiters s) ∧
  (∀ x, x ∈ io_waiters s → is_Some (core s !! x)) ∧ (∀ y, t_state <$> core s !! y = Some SLEEPING → y ∈ l).

Lemma queued_iff s Q x t : queues s Q → tasks s !! x = Some t → queued s x ↔ x ∈ Q (eff_prio t).
Proof.
  intros HQ Ht. unfold queued. split.
  - intros (t' & Ht' & Hg). rewrite Ht in Ht'. injection Ht' as <-.
    rewrite (linked_guard_spec s Q x t HQ Ht) in Hg. by apply bool_decide_eq_true in Hg.
  - intros Hx. exists t. split; [done|]. rewrite (linked_guard_spec s Q x t HQ Ht). by apply bool_decide_eq_true.
Qed.

Lemma core_Some s x : is_Some (core s !! x) ↔ is_Some (tasks s !! x).
Proof. unfold core, bare. rewrite !lookup_fmap. destruct (tasks s !! x); split; intros [? ?]; try done; by eexists. Qed.

Lemma core_prio s x : eff_prio <$> core s !! x = prio_of s x.
Proof. unfold core, bare, prio_of. rewrite !lookup_fmap. by destruct (tasks s !! x). Qed.

(** Being queued, in terms of the abstract queues. *)
Lemma queued_prio_iff s Q x : queues s Q → queued s x ↔ ∃ p, prio_of s x = Some p ∧ x ∈ Q p.
Proof.
  intros HQ. destruct (tasks s !! x) as [t|] eqn:Ht.
  - rewrite (queued_iff s Q x t HQ Ht). unfold prio_of. rewrite Ht. simpl. naive_solver.
  - split; [intros (t & Ht' & _); congruence|]. unfold prio_of. rewrite Ht. naive_solver.
Qed.

(** Larger queues and unchanged priorities: nobody lost its place. *)
Lemma queued_mono s s' Q Q' : queues s Q → queues s' Q' → (∀ x p, prio_of s x = Some p → prio_of s' x = Some p) →
  (∀ x p, x ∈ Q p → x ∈ Q' p) → ∀ x, queued s x → queued s' x.
Proof.
  intros HQ HQ' Hp Hsub x. rewrite (queued_prio_iff s Q), (queued_prio_iff s' Q') by done.
  intros (p & ? & ?). exists p. eauto.
Qed.

(** A task that is not on the sleep list. *)
Definition present (s : sched) (x : Z) : Prop := ∃ u, core s !! x = Some u ∧ t_state u ≠ SLEEPING.

Lemma present_awake s Q l x : sched_inv s Q l → present s x → x ∉ l.
Proof.
  intros HI (u & Hu & Hst) Hx. pose proof (a_state _ _ (i_asleep _ _ _ HI) x Hx) as H.
  unfold core in Hu. rewrite lookup_fmap in Hu. apply fmap_Some in Hu as (v & Hv & ->). rewrite Hv in H.
  injection H as H. done.
Qed.

Lemma present_tasks s x : present s x → ∃ t, tasks s !! x = Some t.
Proof. intros (u & Hu & _). apply core_Some. by exists u. Qed.

(** One task changes state, to something other than asleep; the rest of the
    scheduler's bookkeeping stays. *)
Lemma consistent_step s s' Q Q' l x f : sched_inv s Q l → x ∉ l → queues s' Q' →
  (∀ y p, y ∈ l → (p < NUM_PRIORITIES)%nat → y ∉ Q' p) →
  bare s' = alter f x (bare s) → (∀ t, set_sleep_next None (f t) = f (set_sleep_next None t)) →
  (∀ t, t_state t ≠ SLEEPING → t_state (f t) ≠ SLEEPING) → (∀ t, eff_prio (f t) = eff_prio t) →
  sleep_queue_head s' = sleep_queue_head s → io_waiters s' = io_waiters s →
  NoDup (io_waiters s) → (∀ x, x ∈ io_waiters s → is_Some (core s !! x)) →
  (∀ y, t_state <$> core s !! y = Some SLEEPING → y ∈ l) → is_Some (core s !! x) →
  consistent s' ∧ (∀ u, present s u → present s' u) ∧ (∀ y, prio_of s' y = prio_of s y).
Proof.
  intros HI Hx HQ' Hoff Hb Hf Hst Hep Hsl Hio HN Hdom Hall Hxs.
  assert (core s' = alter f x (core s)) as Hc.
  { unfold core. rewrite Hb. apply map_eq. intros y. rewrite lookup_fmap. destruct (decide (y = x)) as [->|].
    - rewrite !lookup_alter_eq, lookup_fmap. destruct (bare s !! x); simpl; [by rewrite Hf|done].
    - by rewrite !lookup_alter_ne, lookup_fmap. }
  assert (∀ t, core s !! x = Some t → t_state t ≠ SLEEPING) as Hxst.
  { intros t Ht Hs. apply Hx, Hall. by rewrite Ht; simpl; rewrite Hs. }
  split_and!.
  - exists Q', l. split_and!.
    + split; [done| |done]. eapply (asleep_ext s); [done| |apply HI]. intros y Hy. rewrite Hb, lookup_alter_ne; [done|]. by intros ->.
    + by rewrite Hio.
    + intros y Hy. rewrite Hio in Hy. rewrite Hc, lookup_alter_is_Some. by apply Hdom.
    + intros y. rewrite Hc. destruct (decide (y = x)) as [->|Hne]; [|rewrite lookup_alter_ne by done; apply Hall].
      rewrite lookup_alter_eq. destruct (core s !! x) as [t|] eqn:E; [|done]. intros [= H]. exfalso. by apply (Hst t (Hxst t eq_refl)).
  - intros u (v & Hv & Hvs). unfold present. rewrite Hc. destruct (decide (u = x)) as [->|Hne].
    + rewrite lookup_alter_eq, Hv. simpl. eauto.
    + rewrite lookup_alter_ne by done. eauto.
  - intros y. rewrite <-!core_prio, Hc. destruct (decide (y = x)) as [->|Hne]; [|by rewrite lookup_alter_ne].
    rewrite lookup_alter_eq. destruct (core s !! x); [|done]. simpl. by rewrite Hep.
Qed.

Lemma sched_unblock_law s x : consistent s → present s x → wp (sched_unblock (Some x)) s (λ _ s',
  consistent s' ∧ (∀ u, present s u → present s' u) ∧ queued s' x ∧ ∀ u, queued s u → queued s' u).
Proof.
  intros (Q & l & HI & HN & Hdom & Hall) Hx. destruct (present_tasks s x Hx) as [t Ht].
  pose proof (present_awake s Q l x HI Hx) as Hxl. pose proof (i_queues _ _ _ HI) as HQ.
  simpl. eapply wp_mono; [by apply (sched_enqueue_spec s Q x t)|].
  intros [] s' H. case_bool_decide as Hin.
  { subst s'. split_and!; [by exists Q, l|done| |done]. by apply (queued_iff s Q x t). }
  destruct H as (HQ' & Hb & Hr). apply rest_inv in Hr as (Hsl & Hio & _).
  destruct (consistent_step s s' Q _ l x awake HI Hxl HQ') as (H1 & H2 & H3); try done.
  { intros y p Hy Hp. unfold upd. case_decide; [|by apply HI]. subst p. rewrite elem_of_app, list_elem_of_singleton.
    intros [Hq| ->]; [|done]. by eapply (i_off _ _ _ HI). }
  { apply core_Some. by exists t. }
  split_and!; [done|done| |].
  - apply (queued_prio_iff s' _ x HQ'). exists (eff_prio t). rewrite upd_eq. split; [|set_solver].
    rewrite H3. unfold prio_of. by rewrite Ht.
  - apply (queued_mono s s' _ _ HQ HQ' (λ y p E, eq_trans (H3 y) E)). intros y p Hy. unfold upd. case_decide; [subst p; set_solver|done].
Qed.

Lemma sched_block_law s x : consistent s → present s x → queued s x → wp (sched_block (Some x)) s (λ _ s',
  consistent s' ∧ (∀ u, present s u → present s' u) ∧ ¬ queued s' x ∧ ∀ u, u ≠ x → queued s' u ↔ queued s u).
Proof.
  intros (Q & l & HI & HN & Hdom & Hall) Hx _. destruct (present_tasks s x Hx) as [t Ht].
  pose proof (present_awake s Q l x HI Hx) as Hxl. pose proof (i_queues _ _ _ HI) as HQ.
  simpl. apply wp_bind. eapply wp_mono; [by apply (sched_dequeue_spec s Q x t)|].
  intros [] s1 (HQ1 & Hb1 & Hr1). apply rest_inv in Hr1 as (Hsl & Hio & _).
  assert (bare s1 !! x = Some (strip t)) as (t1 & Ht1 & _)%bare_lookup by (rewrite Hb1; by apply bare_Some).
  apply wp_bind. eapply wp_sstore; [done|]. eapply wp_sstore; [simpl; rewrite lookup_alter_eq, Ht1; done|].
  set (s' := with_tasks _ _). set (Q' := upd Q _ _) in *.
  assert (queues s' Q') as HQ' by (apply queues_store; [done|]; by apply queues_store).
  destruct (consistent_step s s' Q Q' l x (λ u, set_running false (set_state BLOCKED u)) HI Hxl HQ') as (H1 & H2 & H3); try done.
  { intros y p Hy Hp Hin. apply (i_off _ _ _ HI y p Hy Hp). revert Hin. unfold Q', upd. case_decide; [|done]. subst p.
    by intros [_ ?]%list_elem_of_filter. }
  { unfold s'. rewrite !bare_store by done. rewrite Hb1. apply map_eq. intros y. destruct (decide (y = x)) as [->|].
    - rewrite !lookup_alter_eq. by destruct (bare s !! x).
    - by rewrite !lookup_alter_ne. }
  { apply core_Some. by exists t. }
  split_and!; [done|done| |].
  - intros (p & Hp & Hin)%(queued_prio_iff s' Q' x HQ').
    rewrite H3 in Hp. unfold prio_of in Hp. rewrite Ht in Hp. injection Hp as <-.
    unfold Q' in Hin. rewrite upd_eq, list_elem_of_filter in Hin. tauto.
  - intros u Hu. rewrite (queued_prio_iff s Q u HQ), (queued_prio_iff s' Q' u HQ').
    assert (∀ p, u ∈ Q' p ↔ u ∈ Q p) as Hq.
    { intros p. unfold Q', upd. case_decide; [|done]. subst p. rewrite list_elem_of_filter. tauto. }
    rewrite H3. naive_solver.
Qed.

Lemma io_wake_all_law s : consistent s → wp io_wake_all s (λ _ s',
  consistent s' ∧ (∀ u, present s u → present s' u) ∧ ∀ u, queued s u → queued s' u).
Proof.
  intros (Q & l & HI & HN & Hdom & Hall). eapply wp_mono; [by apply (io_wake_all_spec s Q l)|].
  intros [] s' (HI' & Hc & Hio).
  assert (∀ y p, prio_of s y = Some p → prio_of s' y = Some p) as H3.
  { intros y p. rewrite <-!core_prio, Hc. case_bool_decide; [|done]. by destruct (core s !! y). }
  split_and!.
  - eexists _, _. split; [exact HI'|]. rewrite Hio. split_and!; [constructor|set_solver|].
    intros y. rewrite Hc. case_bool_decide as Hy; [by destruct (core s !! y)|].
    intros Hs%Hall. apply list_elem_of_filter. split; [|done]. intros Hw. by apply Hy.
  - intros u (v & Hv & Hs). unfold present. rewrite Hc, Hv. case_bool_decide; simpl; eauto.
  - apply (queued_mono s s' _ _ (i_queues _ _ _ HI) (i_queues _ _ _ HI') H3).
    intros x p Hx. unfold enqueued. set_solver.
Qed.

#[global] Instance sched_laws : SchedLaws sched := {|
  sched_ok := consistent;
  known := present;
  ready := queued;
  block_law := sched_block_law;
  unblock_law := sched_unblock_law;
  wake_all_law := io_wake_all_law;
|}.

(** The scheduler of [SchedSpec.demo] is one. *)
Lemma demo_consistent : consistent demo.
Proof.
  exists demo_Q, [5; 4]. split_and!; [apply demo_inv| | |].
  - apply (bool_decide_unpack _). vm_compute. exact I.
  - intros x Hx. change (x ∈ [4]) in Hx. apply list_elem_of_singleton in Hx as ->. vm_compute. by eexists.
  - assert (map_Forall (λ y t, t_state t = SLEEPING → y ∈ [5; 4]) (core demo)) as H.
    { apply (bool_decide_unpack _). vm_compute. exact I. }
    intros y (t & Ht & Hs)%fmap_Some. by apply (H y t Ht).
Qed.

Lemma demo_present x : x = 2 ∨ x = 3 → present demo x.
Proof. intros [-> | ->]; eexists; (split; [vm_compute; reflexivity|done]). Qed.

Lemma demo_queued x : x = 2 ∨ x = 3 → queued demo x.
Proof. intros [-> | ->]; eexists; (split; [vm_compute; reflexivity|vm_compute; reflexivity]). Qed.

End SchedClient.
