(* ===== verification/Eventfd.v ===== *)
(** * Event counters ([ipc/eventfd.c])

    A 64-bit counter behind a descriptor.  A call is cut where it gives up the
    processor, as in [Pipe]; a sleeping reader or writer runs its loop again
    when it comes back.  The counter is [None] once it has been released. *)
From S2P Require Import Prelude Sched SchedSpec.

Module Eventfd.

Definition EFD_EAGAIN : Z := 11.
Definition EFD_EINVAL : Z := 22.
Definition EFD_SEMAPHORE : Z := 1.
Definition UINT64_MAX : Z := 2 ^ 64 - 1.

Record eventfd := mk_efd { efd_count : Z; efd_semaphore : bool }.

Definition state : Type := option eventfd * Sched.sched.

(** [Done ret value]: the call returned, [value] is what went to or came from
    the buffer; [Sleeping]: it is waiting. *)
Inductive result := Done (ret value : Z) | Sleeping.

(** [ok] says whether both allocations succeed. *)
Definition eventfd_create (ok : bool) (initval flags : Z) : option eventfd :=
  if ok then Some (mk_efd initval (has flags EFD_SEMAPHORE)) else None.

Definition eventfd_close_op : M state unit := modify (λ s, (None, s.2)).

Definition set_count (n : Z) : M state unit :=
  modify (λ s : state, (option_map (λ e, mk_efd n (efd_semaphore e)) s.1, s.2)).

(** From the head of the waiting loop on. *)
Definition read_loop (current_task : option Z) (tick : Z) (nonblock : bool) : M state result :=
  e ← deref fst;
  if efd_count e =? 0 then
    if nonblock then mret (Done (- EFD_EAGAIN) 0) else
    lift_r Sched.io_wait_prepare;;
    lift_r (Sched.sched_make_sleep current_task (u64 (tick + 2)));;
    mret Sleeping
  else if efd_semaphore e then
    set_count (u64 (efd_count e - 1));;
    mret (Done 8 1)
  else
    set_count 0;;
    mret (Done 8 (efd_count e)).

Definition eventfd_read (current_task : option Z) (tick count : Z) (nonblock : bool) : M state result :=
  e ← gets fst;
  match e with
  | None => mret (Done (- EFD_EINVAL) 0)
  | Some _ => if count <? 8 then mret (Done (- EFD_EINVAL) 0) else read_loop current_task tick nonblock
  end.

Definition read_resume (current_task : option Z) (tick : Z) : M state result :=
  lift_r Sched.io_wait_done;; read_loop current_task tick false.

Definition write_loop (current_task : option Z) (tick value : Z) (nonblock : bool) : M state result :=
  e ← deref fst;
  if u64 (UINT64_MAX - 1 - efd_count e) <? value then
    if nonblock then mret (Done (- EFD_EAGAIN) 0) else
    lift_r (Sched.sched_make_sleep current_task (u64 (tick + 1)));;
    mret Sleeping
  else
    set_count (u64 (efd_count e + value));;
    (when negb (value =? 0) do lift_r Sched.io_wake_all);;
    mret (Done 8 value).

Definition eventfd_write (current_task : option Z) (tick value count : Z) (nonblock : bool) : M state result :=
  e ← gets fst;
  match e with
  | None => mret (Done (- EFD_EINVAL) 0)
  | Some _ =>
      if count <? 8 then mret (Done (- EFD_EINVAL) 0) else
      if value =? UINT64_MAX then mret (Done (- EFD_EINVAL) 0) else
      write_loop current_task tick value nonblock
  end.

Definition write_resume (current_task : option Z) (tick value : Z) : M state result :=
  write_loop current_task tick value false.

Definition eventfd_read_op (current_task : option Z) (tick size : Z) : M state result :=
  eventfd_read current_task tick size false.

Definition eventfd_write_op (current_task : option Z) (tick value size : Z) : M state result :=
  eventfd_write current_task tick value size false.

Definition eventfd_readable (e : option eventfd) : bool :=
  match e with Some e => 0 <? efd_count e | None => false end.

(** ** Every interleaving of calls *)

(** One call, or the rest of a sleeping one; [rd] and [wr] are the amounts
    that were taken out and put in.  Other code may change the scheduler in
    between. *)
Inductive step : state → state → Z → Z → Prop :=
| step_read t tick n nb e sc r s' : eventfd_read t tick n nb (Some e, sc) = Ret (r, s') →
    step (Some e, sc) s' (match r with Done ret v => if 0 <? ret then v else 0 | Sleeping => 0 end) 0
| step_read_resume t tick e sc r s' : read_resume t tick (Some e, sc) = Ret (r, s') →
    step (Some e, sc) s' (match r with Done ret v => if 0 <? ret then v else 0 | Sleeping => 0 end) 0
| step_write t tick v n nb e sc r s' : 0 ≤ v < 2 ^ 64 → eventfd_write t tick v n nb (Some e, sc) = Ret (r, s') →
    step (Some e, sc) s' 0 (match r with Done ret _ => if 0 <? ret then v else 0 | Sleeping => 0 end)
| step_write_resume t tick v e sc r s' : 0 ≤ v < 2 ^ 64 - 1 → write_resume t tick v (Some e, sc) = Ret (r, s') →
    step (Some e, sc) s' 0 (match r with Done ret _ => if 0 <? ret then v else 0 | Sleeping => 0 end)
| step_other e sc sc' : step (Some e, sc) (Some e, sc') 0 0.

Inductive run (s0 : state) : state → Z → Z → Prop :=
| run_start : run s0 s0 0 0
| run_step s s' rd wr a b : run s0 s rd wr → step s s' a b → run s0 s' (rd + a) (wr + b).

Definition bounded (e : eventfd) : Prop := 0 ≤ efd_count e ≤ UINT64_MAX - 1.

(** The scheduler calls leave the counter alone. *)
Lemma lift_r_count {B} (m : M Sched.sched B) {C} (k : B → M state C) e sc r s' :
  (lift_r m ≫= k) (e, sc) = Ret (r, s') → ∃ b sc', k b (e, sc') = Ret (r, s').
Proof. unfold mbind, M_bind, lift_r. destruct (m sc) as [[b sc']| | |]; [|done..]. eauto. Qed.

Lemma read_loop_inv t tick nb e sc r s' : bounded e → read_loop t tick nb (Some e, sc) = Ret (r, s') →
  ∃ n sc', s' = (Some (mk_efd n (efd_semaphore e)), sc') ∧
    efd_count e = n + match r with Done ret v => if 0 <? ret then v else 0 | Sleeping => 0 end ∧ 0 ≤ n ≤ efd_count e.
Proof.
  intros [H0 H1]. unfold read_loop. rewrite (bind_Ret _ _ _ e (Some e, sc)) by done.
  destruct (Z.eqb_spec (efd_count e) 0) as [E|E].
  - assert (∀ sc' : Sched.sched, ∃ n sc'', (Some e, sc') = (Some (mk_efd n (efd_semaphore e)), sc'') ∧ efd_count e = n + 0 ∧ 0 ≤ n ≤ efd_count e) as Hsame.
    { intros sc'. exists (efd_count e), sc'. destruct e; simpl in *. split_and!; (done || lia). }
    destruct nb; [intros [= <- <-]; apply Hsame|]. intros (b & sc1 & Hk)%lift_r_count.
    apply lift_r_count in Hk as (b' & sc2 & Hk). injection Hk as <- <-. apply Hsame.
  - destruct (efd_semaphore e) eqn:Es; intros [= <- <-]; simpl.
    + rewrite wrap_small by (unfold UINT64_MAX in *; lia). eexists _, sc. rewrite Es. split_and!; (done || lia).
    + eexists _, sc. rewrite Es. split_and!; (done || lia).
Qed.

Lemma write_loop_inv t tick v nb e sc r s' : bounded e → 0 ≤ v < 2 ^ 64 - 1 → write_loop t tick v nb (Some e, sc) = Ret (r, s') →
  ∃ n sc', s' = (Some (mk_efd n (efd_semaphore e)), sc') ∧
    n = efd_count e + match r with Done ret _ => if 0 <? ret then v else 0 | Sleeping => 0 end ∧ 0 ≤ n ≤ UINT64_MAX - 1.
Proof.
  intros [H0 H1] Hv. unfold write_loop. rewrite (bind_Ret _ _ _ e (Some e, sc)) by done. unfold UINT64_MAX in *.
  rewrite wrap_small by lia. destruct (Z.ltb_spec (2 ^ 64 - 1 - 1 - efd_count e) v) as [E|E].
  - assert (∀ sc' : Sched.sched, ∃ n sc'', (Some e, sc') = (Some (mk_efd n (efd_semaphore e)), sc'') ∧ n = efd_count e + 0 ∧ 0 ≤ n ≤ 2 ^ 64 - 1 - 1) as Hsame.
    { intros sc'. exists (efd_count e), sc'. destruct e; simpl in *. split_and!; (done || lia). }
    destruct nb; [intros [= <- <-]; apply Hsame|]. intros (b & sc1 & Hk)%lift_r_count. injection Hk as <- <-. apply Hsame.
  - rewrite wrap_small by lia. unfold set_count. rewrite (bind_Ret _ _ _ tt (Some (mk_efd (efd_count e + v) (efd_semaphore e)), sc)) by done.
    destruct (v =? 0); cbn [negb].
    + intros [= <- <-]. eexists _, sc. split_and!; (done || simpl; lia).
    + intros (b & sc1 & Hk)%lift_r_count. injection Hk as <- <-. eexists _, sc1. split_and!; (done || simpl; lia).
Qed.

Lemma efd_step_inv s s' rd wr : step s s' rd wr → ∀ e, s.1 = Some e → bounded e →
  ∃ e', s'.1 = Some e' ∧ bounded e' ∧ efd_semaphore e' = efd_semaphore e ∧ efd_count e' + rd = efd_count e + wr.
Proof.
  intros Hstep e0 He0 Hb. destruct Hstep as [t tick n nb e sc r s' Hr|t tick e sc r s' Hr|t tick v n nb e sc r s' Hv Hr|t tick v e sc r s' Hv Hr|e sc sc'];
    injection He0 as <-.
  - unfold eventfd_read in Hr. rewrite (bind_Ret _ _ _ (Some e) (Some e, sc)) in Hr by done.
    destruct (n <? 8); [injection Hr as <- <-; exists e; split_and!; (done || simpl; lia)|].
    apply read_loop_inv in Hr as (m & sc' & -> & Hc & Hm); [|done]. unfold bounded in *.
    eexists. split_and!; [done|simpl; lia..|done|simpl; lia].
  - unfold read_resume in Hr. apply lift_r_count in Hr as (b & sc1 & Hr).
    apply read_loop_inv in Hr as (m & sc' & -> & Hc & Hm); [|done]. unfold bounded in *.
    eexists. split_and!; [done|simpl; lia..|done|simpl; lia].
  - unfold eventfd_write in Hr. rewrite (bind_Ret _ _ _ (Some e) (Some e, sc)) in Hr by done.
    destruct (n <? 8); [injection Hr as <- <-; exists e; split_and!; (done || simpl; lia)|].
    destruct (Z.eqb_spec v UINT64_MAX); [injection Hr as <- <-; exists e; split_and!; (done || simpl; lia)|].
    apply write_loop_inv in Hr as (m & sc' & -> & Hc & Hm); [|done|unfold UINT64_MAX in *; lia].
    eexists. split_and!; [done|exact Hm|done|simpl; lia].
  - apply write_loop_inv in Hr as (m & sc' & -> & Hc & Hm); [|done|done].
    eexists. split_and!; [done|exact Hm|done|simpl; lia].
  - exists e. split_and!; (done || simpl; lia).
Qed.

Lemma run_inv s0 s rd wr e0 : run s0 s rd wr → s0.1 = Some e0 → bounded e0 →
  ∃ e, s.1 = Some e ∧ bounded e ∧ efd_semaphore e = efd_semaphore e0 ∧ efd_count e + rd = efd_count e0 + wr.
Proof.
  intros Hrun He0 Hb0. induction Hrun as [|s s' rd wr a b Hrun IH Hstep].
  - exists e0. split_and!; (done || lia).
  - destruct IH as (e & He & Hb & Hs & Hc). destruct (efd_step_inv _ _ _ _ Hstep e He Hb) as (e' & He' & Hb' & Hs' & Hc').
    exists e'. split_and!; [done|exact Hb'|congruence|lia].
Qed.

(** C38. Conservation: over every interleaving of reads and writes, sleeping
    ones included, the counter is the initial value plus all that was written
    minus all that was read; it stays below the largest 64-bit value, so no
    addition overflows; a semaphore hands out 1 at a time. *)
Theorem eventfd_conservation initval flags e sc s rd wr : 0 ≤ initval ≤ UINT64_MAX - 1 →
  eventfd_create true initval flags = Some e → run (Some e, sc) s rd wr →
  ∃ e', s.1 = Some e' ∧ efd_count e' = initval + wr - rd ∧ 0 ≤ efd_count e' ≤ UINT64_MAX - 1 ∧
    (eventfd_readable s.1 = true ↔ rd < initval + wr) ∧
    ∀ t tick, eventfd_read t tick 8 true s = Ret (
      if efd_count e' =? 0 then (Done (- EFD_EAGAIN) 0, s)
      else if has flags EFD_SEMAPHORE then (Done 8 1, (Some (mk_efd (efd_count e' - 1) true), s.2))
      else (Done 8 (efd_count e'), (Some (mk_efd 0 false), s.2))).
Proof.
  intros Hi [= <-] Hrun. destruct (run_inv _ _ _ _ _ Hrun eq_refl Hi) as (e' & He' & Hb' & Hs' & Hc'). exists e'. simpl in *.
  split_and!; [done|lia|apply Hb'|apply Hb'|..].
  - unfold eventfd_readable. rewrite He'. rewrite Z.ltb_lt. destruct Hb'. lia.
  - intros t tick. destruct s as [o sc']. simpl in He'. subst o. destruct e' as [n sem]. simpl in *. subst sem. cbn [fst snd].
    unfold eventfd_read. rewrite (bind_Ret _ _ _ (Some (mk_efd n (has flags EFD_SEMAPHORE))) (Some (mk_efd n (has flags EFD_SEMAPHORE)), sc')) by done.
    cbn [Z.ltb Z.compare Pos.compare Pos.compare_cont]. unfold read_loop.
    rewrite (bind_Ret _ _ _ (mk_efd n (has flags EFD_SEMAPHORE)) (Some (mk_efd n (has flags EFD_SEMAPHORE)), sc')) by done. cbn [efd_count efd_semaphore].
    destruct (Z.eqb_spec n 0); [done|]. destruct (has flags EFD_SEMAPHORE); [|done].
    unfold set_count. simpl. rewrite wrap_small by (destruct Hb' as [A B]; unfold UINT64_MAX in *; simpl in *; lia). done.
Qed.

(** Five is written, then read in one go, on a machine with a few tasks. *)
Definition demo_start : state := (Some (mk_efd 0 false), SchedSpec.SchedSpec.demo).
Definition demo_written : state := exec (eventfd_write None 0 5 8 true) demo_start.
Definition demo_read : state := exec (eventfd_read None 0 8 true) demo_written.

Lemma demo_run : run demo_start demo_read 5 5.
Proof.
  assert (eventfd_write None 0 5 8 true (Some (mk_efd 0 false), SchedSpec.SchedSpec.demo) = Ret (Done 8 5, demo_written)) as E1
    by (vm_compute; reflexivity).
  assert (demo_written = (Some (mk_efd 5 false), demo_written.2)) as E2 by (vm_compute; reflexivity).
  assert (eventfd_read None 0 8 true demo_written = Ret (Done 8 5, demo_read)) as E3 by (vm_compute; reflexivity).
  assert (0 ≤ 5 < 2 ^ 64) as H5 by lia. generalize dependent demo_read. generalize dependent demo_written. intros [o sc] E1 E2 r E3. injection E2 as ->.
  exact (run_step _ _ _ 0 5 5 0 (run_step _ _ _ 0 0 0 5 (run_start _)
    (step_write _ _ 5 _ _ _ _ _ _ H5 E1)) (step_read _ _ _ _ _ _ _ _ E3)).
Qed.

Lemma eventfd_conservation_witness : run demo_start demo_read 5 5 ∧ ∃ e', demo_read.1 = Some e' ∧ efd_count e' = 0.
Proof.
  split; [exact demo_run|]. destruct (eventfd_conservation 0 0 (mk_efd 0 false) SchedSpec.SchedSpec.demo demo_read 5 5) as (e' & He' & Hc & _);
    [unfold UINT64_MAX; lia|reflexivity|exact demo_run|]. exists e'. split; [exact He'|lia].
Defined.

End Eventfd.
