(* ===== verification/Ring.v ===== *)
(** * Ring buffers

    Pipes and UNIX sockets keep the bytes in flight in an array with a read
    position, a write position and a count; the same lines of C appear in
    [proc/pipe.c] and [ipc/af_unix.c].  [rep] relates the array to the queue of
    bytes it stands for. *)
From S2P Require Import Prelude.

Module Ring.

Record ring := mk_ring { r_buf : list Z; r_read_pos : Z; r_write_pos : Z; r_count : Z }.

(** [buf[write_pos] = b; write_pos = (write_pos + 1) % size; count++;] *)
Definition ring_put (size b : Z) : M ring unit :=
  r ← get;
  _ ← deref (λ r, r_buf r !! Z.to_nat (r_write_pos r));
  modify (λ r, mk_ring (<[Z.to_nat (r_write_pos r) := u8 b]> (r_buf r)) (r_read_pos r)
                 (u32 (r_write_pos r + 1) mod size) (u32 (r_count r + 1))).

(** [b = buf[read_pos]; read_pos = (read_pos + 1) % size; count--;] *)
Definition ring_get (size : Z) : M ring Z :=
  b ← deref (λ r, r_buf r !! Z.to_nat (r_read_pos r));
  modify (λ r, mk_ring (r_buf r) (u32 (r_read_pos r + 1) mod size) (r_write_pos r) (u32 (r_count r - 1)));;
  mret b.

(** [for (i = 0; i < to_read; i++) buffer[i] = ...;] *)
Fixpoint drain (size : Z) (n : nat) : M ring (list Z) :=
  match n with
  | O => mret []
  | S n' => b ← ring_get size; l ← drain size n'; mret (b :: l)
  end.

(** The ring [r] holds the bytes [q], the oldest first. *)
Record rep (size : Z) (r : ring) (q : list Z) : Prop := {
  rep_size : 0 < size < 2 ^ 32;
  rep_len : Z.of_nat (length (r_buf r)) = size;
  rep_rpos : 0 ≤ r_read_pos r < size;
  rep_count : r_count r = Z.of_nat (length q);
  rep_fits : Z.of_nat (length q) ≤ size;
  rep_wpos : r_write_pos r = (r_read_pos r + Z.of_nat (length q)) mod size;
  rep_bytes i b : q !! i = Some b → r_buf r !! Z.to_nat ((r_read_pos r + Z.of_nat i) mod size) = Some b;
}.

Lemma mod_inj size a b : 0 < size → 0 ≤ b - a < size → a mod size = b mod size → a = b.
Proof.
  intros Hs Hd He. pose proof (Z.div_mod a size ltac:(lia)). pose proof (Z.div_mod b size ltac:(lia)).
  rewrite He in *. assert (b - a = size * (b / size - a / size)) by lia.
  assert (b / size - a / size = 0) by nia. lia.
Qed.

Lemma ring_put_spec size r q b : rep size r q → Z.of_nat (length q) < size → 0 ≤ b < 256 →
  wp (ring_put size b) r (λ _ r', rep size r' (q ++ [b])).
Proof.
  intros [Hs Hl Hr Hc Hf Hw Hb] Hlt Hbb.
  pose proof (Z.mod_pos_bound (r_read_pos r + Z.of_nat (length q)) size ltac:(lia)) as Hwr.
  unfold ring_put. apply wp_bind, wp_get. apply wp_bind.
  destruct (lookup_lt_is_Some_2 (r_buf r) (Z.to_nat (r_write_pos r))) as [v Hv]; [lia|].
  eapply (wp_deref (λ r, r_buf r !! Z.to_nat (r_write_pos r))); [done|]. apply wp_modify.
  assert (u8 b = b) as -> by (by apply wrap_small).
  split; simpl.
  - done.
  - by rewrite length_insert.
  - done.
  - rewrite Hc, length_app. simpl. rewrite wrap_small; lia.
  - rewrite length_app. simpl. lia.
  - rewrite Hw, length_app, wrap_small by lia. simpl. rewrite Zplus_mod_idemp_l. f_equal. lia.
  - intros i c Hi. destruct (decide (i = length q)) as [->|Hne].
    + rewrite lookup_app_r, Nat.sub_diag in Hi by lia. injection Hi as <-. rewrite <-Hw.
      rewrite list_lookup_insert_eq by lia. done.
    + pose proof (lookup_lt_Some _ _ _ Hi) as Hi'. rewrite length_app in Hi'. simpl in Hi'.
      rewrite lookup_app_l in Hi by lia. rewrite list_lookup_insert_ne; [by apply Hb|].
      intros He. apply Z2Nat.inj in He; [|lia|apply Z.mod_pos_bound; lia].
      rewrite Hw in He. symmetry in He. apply mod_inj in He; lia.
Qed.

Lemma ring_get_spec size r q b : rep size r (b :: q) →
  wp (ring_get size) r (λ c r', c = b ∧ rep size r' q).
Proof.
  intros [Hs Hl Hr Hc Hf Hw Hb]. unfold ring_get. simpl in *.
  pose proof (Hb 0%nat b eq_refl) as H0. rewrite Z.add_0_r, Z.mod_small in H0 by done.
  apply wp_bind. eapply (wp_deref (λ r, r_buf r !! Z.to_nat (r_read_pos r))); [done|].
  apply wp_bind, wp_modify, wp_ret. split; [done|]. rewrite (wrap_small 32 (r_read_pos r + 1)) by lia. split; simpl.
  - done.
  - done.
  - apply Z.mod_pos_bound. lia.
  - rewrite Hc, wrap_small; lia.
  - lia.
  - rewrite Hw, Zplus_mod_idemp_l. f_equal. lia.
  - intros i c Hi. rewrite Zplus_mod_idemp_l. replace (r_read_pos r + 1 + Z.of_nat i) with (r_read_pos r + Z.of_nat (S i)) by lia.
    by apply Hb.
Qed.

Lemma drain_spec size n : ∀ r q, rep size r q → (n ≤ length q)%nat →
  wp (drain size n) r (λ l r', l = take n q ∧ rep size r' (drop n q)).
Proof.
  induction n as [|n IH]; intros r q Hr Hn; simpl; [by apply wp_ret|].
  destruct q as [|b q]; simpl in Hn; [lia|].
  apply wp_bind. eapply wp_mono; [by apply ring_get_spec|]. intros c r1 [-> Hr1].
  apply wp_bind. eapply wp_mono; [apply IH; [done|lia]|]. intros l r2 [-> Hr2]. by apply wp_ret.
Qed.

Definition empty_ring (size : Z) : ring := mk_ring (replicate (Z.to_nat size) 0) 0 0 0.

Lemma empty_ring_rep size : 0 < size < 2 ^ 32 → rep size (empty_ring size) [].
Proof.
  intros Hs. split; simpl; try done; try lia.
  - rewrite length_replicate. lia.
Qed.

End Ring.
