(* ===== verification/Pipe.v ===== *)
(** * Pipes ([proc/pipe.c])

    A blocking call is cut at its calls of [sched_yield]: it runs up to the
    point where the task gives up the processor, and is resumed behind it.  No
    other task runs in between, since interrupts are masked in system calls.
    The pipe is [None] once it has been released, so that a use after
    [kfree] is a fault. *)
From S2P Require Import Prelude Ring Blocking.

Module Pipe.
Import Ring.

Definition PIPE_BUF_SIZE : Z := 4096.
Definition EBADF : Z := 9.
Definition EINVAL : Z := 22.
Definition ENOMEM : Z := 12.
Definition EMFILE : Z := 24.
Definition EPIPE : Z := 32.
Definition MAX_OPEN_FILES : nat := 128.

Record pipe := mk_pipe {
  p_ring : ring; (* buf, read_pos, write_pos, count *)
  p_write_closed : bool;
  p_read_closed : bool;
  p_ref_count : Z;
  p_blocked_reader : option Z;
  p_blocked_writer : option Z;
}.

Definition set_ring v p := mk_pipe v (p_write_closed p) (p_read_closed p) (p_ref_count p) (p_blocked_reader p) (p_blocked_writer p).
Definition set_write_closed v p := mk_pipe (p_ring p) v (p_read_closed p) (p_ref_count p) (p_blocked_reader p) (p_blocked_writer p).
Definition set_read_closed v p := mk_pipe (p_ring p) (p_write_closed p) v (p_ref_count p) (p_blocked_reader p) (p_blocked_writer p).
Definition set_ref_count v p := mk_pipe (p_ring p) (p_write_closed p) (p_read_closed p) v (p_blocked_reader p) (p_blocked_writer p).
Definition set_blocked_reader v p := mk_pipe (p_ring p) (p_write_closed p) (p_read_closed p) (p_ref_count p) v (p_blocked_writer p).
Definition set_blocked_writer v p := mk_pipe (p_ring p) (p_write_closed p) (p_read_closed p) (p_ref_count p) (p_blocked_reader p) v.

(** How a call ends, or where it stops. *)
Inductive read_result := RDone (ret : Z) (data : list Z) | RBlocked.
Inductive write_result := WDone (ret : Z) | WBlocked (rest : list Z) (total : Z).

Section Ops.
  Context {SC : Type} `{SchedOps SC}.

Definition state : Type := option pipe * SC.

Definition pget {A} (f : pipe → A) : M state A := deref (λ s, f <$> s.1).

Definition pset (f : pipe → pipe) : M state unit := _ ← pget id; modify (λ s, (f <$> s.1, s.2)).

Definition on_ring {A} (m : M ring A) : M state A := λ s,
  match s.1 with
  | None => Fault
  | Some p => match m (p_ring p) with
              | Ret (a, r) => Ret (a, (Some (set_ring r p), s.2))
              | Panic => Panic
              | Fault => Fault
              | Wait => Wait
              end
  end.

Definition kfree_pipe : M state unit := _ ← pget id; modify (λ s, (None, s.2)).

(** [if (p->blocked_x) { sched_unblock(p->blocked_x); p->blocked_x = NULL; }] *)
Definition wake_reader : M state unit :=
  b ← pget p_blocked_reader;
  match b with Some t => lift_r (unblock t);; pset (set_blocked_reader None) | None => mret tt end.

Definition wake_writer : M state unit :=
  b ← pget p_blocked_writer;
  match b with Some t => lift_r (unblock t);; pset (set_blocked_writer None) | None => mret tt end.

(** The body from the head of the waiting loop on; without a current task the
    loop spins. *)
Definition pipe_read_loop (current_task : option Z) (size : Z) : M state read_result :=
  c ← pget (λ p, r_count (p_ring p));
  if c =? 0 then
    wc ← pget p_write_closed;
    if (wc : bool) then mret (RDone 0 []) else
    match current_task with
    | Some t => pset (set_blocked_reader (Some t));; lift_r (block t);; mret RBlocked
    | None => λ _, Wait
    end
  else
    let to_read := if size <? c then size else c in
    data ← on_ring (drain PIPE_BUF_SIZE (Z.to_nat to_read));
    wake_writer;;
    mret (RDone to_read data).

(** [valid] stands for [node && node->ptr && buffer]. *)
Definition pipe_read_op (current_task : option Z) (valid : bool) (size : Z) : M state read_result :=
  if negb valid || (size =? 0) then mret (RDone (- EBADF) []) else pipe_read_loop current_task size.

Definition pipe_read_resume (current_task : option Z) (size : Z) : M state read_result :=
  pset (set_blocked_reader None);; pipe_read_loop current_task size.

(** The loop over the bytes still to write. *)
Fixpoint pipe_write_loop (current_task : option Z) (rest : list Z) (total : Z) : M state write_result :=
  match rest with
  | [] => mret (WDone total)
  | b :: rest' =>
      c ← pget (λ p, r_count (p_ring p));
      if PIPE_BUF_SIZE <=? c then
        rc ← pget p_read_closed;
        if (rc : bool) then mret (WDone (if 0 <? total then total else - EPIPE)) else
        match current_task with
        | Some t => pset (set_blocked_writer (Some t));; lift_r (block t);; mret (WBlocked rest total)
        | None => λ _, Wait
        end
      else
        on_ring (ring_put PIPE_BUF_SIZE b);;
        lift_r wake_all;;
        wake_reader;;
        pipe_write_loop current_task rest' (total + 1)
  end.

(** [buffer] is the user's buffer of [size] bytes. *)
Definition pipe_write_op (current_task : option Z) (valid : bool) (buffer : list Z) : M state write_result :=
  if negb valid || (Z.of_nat (length buffer) =? 0) then mret (WDone (- EBADF)) else
  rc ← pget p_read_closed;
  if (rc : bool) then mret (WDone (- EPIPE)) else pipe_write_loop current_task buffer 0.

Definition pipe_write_resume (current_task : option Z) (rest : list Z) (total : Z) : M state write_result :=
  pset (set_blocked_writer None);; pipe_write_loop current_task rest total.

Definition pipe_read_close_op : M state unit :=
  pset (set_read_closed true);;
  pset (λ p, set_ref_count (p_ref_count p - 1) p);;
  wake_writer;;
  n ← pget p_ref_count;
  when (n <=? 0) do kfree_pipe.

Definition pipe_write_close_op : M state unit :=
  pset (set_write_closed true);;
  pset (λ p, set_ref_count (p_ref_count p - 1) p);;
  wake_reader;;
  n ← pget p_ref_count;
  when (n <=? 0) do kfree_pipe.

(** Which of the two operation tables the node has. *)
Inductive pipe_end := ReadEnd | WriteEnd | OtherNode.

Record poll := mk_poll { readable : bool; writable : bool; hangup : bool; error : bool }.

Definition pipe_poll_state (e : pipe_end) : M state (option poll) :=
  p ← pget id;
  mret (match e with
        | ReadEnd => Some (mk_poll (0 <? r_count (p_ring p)) false (p_write_closed p) false)
        | WriteEnd => Some (mk_poll false (r_count (p_ring p) <? PIPE_BUF_SIZE) false (p_read_closed p))
        | OtherNode => None
        end).

End Ops.

(** A new pipe. *)
Definition new_pipe : pipe := mk_pipe (empty_ring PIPE_BUF_SIZE) false false 2 None None.

(** The first two free descriptors from [i] on. *)
Fixpoint free_fds (files : list (option Z)) (i : Z) (rfd : option Z) : option Z * option Z :=
  match files with
  | [] => (rfd, None)
  | Some _ :: files' => free_fds files' (i + 1) rfd
  | None :: files' =>
      match rfd with
      | None => free_fds files' (i + 1) (Some i)
      | Some _ => (rfd, Some i)
      end
  end.

(** The descriptor table of a process: [files], [file_offsets], [file_flags]. *)
Record fd_table := mk_fds { fd_files : list (option Z); fd_offsets : list Z; fd_flags : list Z }.

Definition O_RDONLY : Z := 0.
Definition O_WRONLY : Z := 1.

(** [files[fd] = node; file_offsets[fd] = 0; file_flags[fd] = flags;] *)
Definition install (fd node flags : Z) (t : fd_table) : fd_table :=
  mk_fds (<[Z.to_nat fd := Some node]> (fd_files t)) (<[Z.to_nat fd := 0]> (fd_offsets t))
         (<[Z.to_nat fd := flags]> (fd_flags t)).

(** [pipe_create]: [ok_p], [ok_r], [ok_w] say which of the three allocations
    succeed, [fds] is the descriptor table of the process and [r_node],
    [w_node] are the new nodes; the result is the error or the descriptors,
    with the new table. *)
Definition pipe_create (valid ok_p ok_r ok_w : bool) (fds : fd_table) (r_node w_node : Z)
    : (Z + Z * Z) * fd_table :=
  if negb valid then (inl (- EINVAL), fds) else
  if negb ok_p then (inl (- ENOMEM), fds) else
  if negb ok_r || negb ok_w then (inl (- ENOMEM), fds) else
  match free_fds (drop 3 (fd_files fds)) 3 None with
  | (Some rfd, Some wfd) => (inr (rfd, wfd), install wfd w_node O_WRONLY (install rfd r_node O_RDONLY fds))
  | _ => (inl (- EMFILE), fds)
  end.

End Pipe.
