(* ===== verification/PipeSpec.v ===== *)
(** * Correctness of pipes

    One task reads, one task writes; the calls run in any order, cut at the
    points where a task gives up the processor, and other tasks run in
    between.  The scheduler is any one that keeps [SchedLaws]. *)
From S2P Require Import Prelude Sched SchedSpec Ring Blocking Pipe.

Module PipeSpec.
Import Ring Pipe.

Section System.
  Context {SC : Type} `{SchedLaws SC}.
  Context (R W : Z).
  Hypothesis HRW : R ≠ W.

Implicit Types (p : pipe) (q : list Z) (sc : SC).

Definition byte (b : Z) : Prop := 0 ≤ b < 256.

Definition rep_pipe p q : Prop := rep PIPE_BUF_SIZE (p_ring p) q.

(** ** The operations *)

Lemma wp_pget {A} (f : pipe → A) p sc (Q : A → state → Prop) : Q (f p) (Some p, sc) → wp (pget f) (Some p, sc) Q.
Proof. done. Qed.

Lemma wp_pset f p sc (Q : unit → state → Prop) : Q tt (Some (f p), sc) → wp (pset f) (Some p, sc) Q.
Proof. done. Qed.

Lemma wp_on_ring {A} (m : M ring A) p sc (Q : A → state → Prop) :
  wp m (p_ring p) (λ a r, Q a (Some (set_ring r p), sc)) → wp (on_ring m) (Some p, sc) Q.
Proof. unfold wp, on_ring. simpl. by destruct (m (p_ring p)) as [[a r]| | |]. Qed.

(** The scheduler after a step: still consistent, nobody lost the processor
    except possibly the tasks of [X]. *)
Definition sched_step sc sc' (X : Z → Prop) : Prop :=
  sched_ok sc' ∧ (∀ u, known sc u → known sc' u) ∧ (∀ u, ¬ X u → ready sc u → ready sc' u).

Definition nobody : Z → Prop := λ _, False.

Lemma sched_step_refl sc X : sched_ok sc → sched_step sc sc X.
Proof. unfold sched_step. auto. Qed.

Lemma sched_step_trans sc1 sc2 sc3 X : sched_step sc1 sc2 nobody → sched_step sc2 sc3 X → sched_step sc1 sc3 X.
Proof. unfold sched_step, nobody. intros (?&?&?) (?&?&?). split_and!; auto. Qed.

(** The blocked task, if any, is known to the scheduler. *)
Definition known_opt sc (o : option Z) : Prop := ∀ t, o = Some t → known sc t.

Lemma wake_writer_spec p sc : sched_ok sc → known_opt sc (p_blocked_writer p) →
  wp wake_writer (Some p, sc) (λ _ s', ∃ sc', s' = (Some (set_blocked_writer None p), sc') ∧
    sched_step sc sc' nobody ∧ ∀ t, p_blocked_writer p = Some t → ready sc' t).
Proof.
  intros Hok Hk. unfold wake_writer. apply wp_bind, wp_pget. destruct (p_blocked_writer p) as [t|] eqn:E.
  - apply wp_bind, wp_lift_r. eapply wp_mono; [apply (unblock_law sc t Hok); by apply Hk|].
    intros [] sc' (H1 & H2 & H3 & H4). apply wp_pset. exists sc'. split_and!; [done|unfold sched_step; by auto|]. by intros u [= <-].
  - apply wp_ret. exists sc. split_and!; [|by apply sched_step_refl|done]. destruct p. simpl in *. by subst.
Qed.

Lemma wake_reader_spec p sc : sched_ok sc → known_opt sc (p_blocked_reader p) →
  wp wake_reader (Some p, sc) (λ _ s', ∃ sc', s' = (Some (set_blocked_reader None p), sc') ∧
    sched_step sc sc' nobody ∧ ∀ t, p_blocked_reader p = Some t → ready sc' t).
Proof.
  intros Hok Hk. unfold wake_reader. apply wp_bind, wp_pget. destruct (p_blocked_reader p) as [t|] eqn:E.
  - apply wp_bind, wp_lift_r. eapply wp_mono; [apply (unblock_law sc t Hok); by apply Hk|].
    intros [] sc' (H1 & H2 & H3 & H4). apply wp_pset. exists sc'. split_and!; [done|unfold sched_step; by auto|]. by intros u [= <-].
  - apply wp_ret. exists sc. split_and!; [|by apply sched_step_refl|done]. destruct p. simpl in *. by subst.
Qed.

#[local] Ltac fin := split_and!; try done; try (simpl; lia); try (by left); try (by right); try (by apply sched_step_refl).

(** What a read does, from the head of the waiting loop on. *)
Definition read_post p q sc (size : Z) (res : read_result) (s' : state) : Prop :=
  match res with
  | RBlocked => ∃ sc', s' = (Some (set_blocked_reader (Some R) p), sc') ∧ q = [] ∧ p_write_closed p = false ∧
      sched_step sc sc' (λ u, u = R) ∧ ¬ ready sc' R
  | RDone ret data => ∃ p' sc' n, s' = (Some p', sc') ∧ data = take n q ∧ ret = Z.of_nat (length data) ∧
      rep_pipe p' (drop n q) ∧ (ret = 0 → q = [] ∧ p_write_closed p = true) ∧ ret ≤ size ∧
      p_write_closed p' = p_write_closed p ∧ p_read_closed p' = p_read_closed p ∧ p_ref_count p' = p_ref_count p ∧
      p_blocked_reader p' = p_blocked_reader p ∧
      (p_blocked_writer p' = p_blocked_writer p ∧ n = 0%nat ∨
       p_blocked_writer p' = None ∧ ∀ t, p_blocked_writer p = Some t → ready sc' t) ∧
      sched_step sc sc' nobody
  end.

Lemma pipe_read_loop_spec p q sc size : rep_pipe p q → sched_ok sc → known sc R → ready sc R →
  known_opt sc (p_blocked_writer p) → 0 < size →
  wp (pipe_read_loop (Some R) size) (Some p, sc) (read_post p q sc size).
Proof.
  intros Hr Hok HkR HrR Hkw Hs. unfold pipe_read_loop. apply wp_bind, wp_pget. rewrite (rep_count _ _ _ Hr).
  destruct (Z.eqb_spec (Z.of_nat (length q)) 0) as [Hz|Hz].
  - assert (q = []) as -> by by destruct q. apply wp_bind, wp_pget. destruct (p_write_closed p) eqn:Ewc.
    + apply wp_ret. exists p, sc, 0%nat. fin.
    + apply wp_bind, wp_pset. apply wp_bind, wp_lift_r. eapply wp_mono; [by apply (block_law sc R)|].
      intros [] sc' (H1 & H2 & H3 & H4'). pose proof (λ u Hu, proj2 (H4' u Hu)) as H4. apply wp_ret. exists sc'. by split_and!.
  - set (n := if size <? Z.of_nat (length q) then size else Z.of_nat (length q)).
    assert (0 < n ≤ Z.of_nat (length q) ∧ n ≤ size) as Hn by (unfold n; destruct (Z.ltb_spec size (Z.of_nat (length q))); lia).
    apply wp_bind, wp_on_ring. eapply wp_mono; [apply (drain_spec _ _ _ q Hr); lia|]. intros data r [-> Hr'].
    apply wp_bind. eapply wp_mono; [by apply (wake_writer_spec (set_ring r p) sc)|].
    intros [] s' (sc' & -> & Hst & Hw). apply wp_ret.
    exists (set_blocked_writer None (set_ring r p)), sc', (Z.to_nat n). fin. rewrite length_take. lia.
Qed.

(** What a write does, from the head of its loop on. *)
Definition write_post p q sc (rest : list Z) (total : Z) (res : write_result) (s' : state) : Prop :=
  ∃ p' sc' k, s' = (Some p', sc') ∧ (k ≤ length rest)%nat ∧ rep_pipe p' (q ++ take k rest) ∧
    p_write_closed p' = p_write_closed p ∧ p_read_closed p' = p_read_closed p ∧ p_ref_count p' = p_ref_count p ∧
    (p_blocked_reader p' = p_blocked_reader p ∧ k = 0%nat ∨
     p_blocked_reader p' = None ∧ ∀ t, t ≠ W → p_blocked_reader p = Some t → ready sc' t) ∧
    match res with
    | WDone ret => p_blocked_writer p' = p_blocked_writer p ∧ sched_step sc sc' nobody ∧
        ((k = length rest ∧ ret = total + Z.of_nat k) ∨
         (p_read_closed p = true ∧ ret = if 0 <? total + Z.of_nat k then total + Z.of_nat k else - EPIPE))
    | WBlocked rest' total' => rest' = drop k rest ∧ total' = total + Z.of_nat k ∧ rest' ≠ [] ∧
        p_blocked_writer p' = Some W ∧ p_read_closed p = false ∧
        Z.of_nat (length (q ++ take k rest)) = PIPE_BUF_SIZE ∧
        sched_step sc sc' (λ u, u = W) ∧ ¬ ready sc' W
    end.

Lemma pipe_write_loop_spec rest : ∀ p q sc total, rep_pipe p q → sched_ok sc → known sc W → ready sc W →
  known_opt sc (p_blocked_reader p) → Forall byte rest →
  wp (pipe_write_loop (Some W) rest total) (Some p, sc) (write_post p q sc rest total).
Proof.
  induction rest as [|b rest IH]; intros p q sc total Hr Hok HkW HrW Hkr Hb; simpl.
  { apply wp_ret. exists p, sc, 0%nat. rewrite app_nil_r. fin. }
  apply Forall_cons in Hb as [Hbb Hb]. apply wp_bind, wp_pget. rewrite (rep_count _ _ _ Hr).
  pose proof (rep_fits _ _ _ Hr) as Hfit.
  destruct (Z.leb_spec PIPE_BUF_SIZE (Z.of_nat (length q))) as [Hfull|Hroom].
  - apply wp_bind, wp_pget. destruct (p_read_closed p) eqn:Erc.
    + apply wp_ret. exists p, sc, 0%nat. rewrite take_0, app_nil_r, Z.add_0_r. fin.
    + apply wp_bind, wp_pset. apply wp_bind, wp_lift_r. eapply wp_mono; [by apply (block_law sc W)|].
      intros [] sc' (H1 & H2 & H3 & H4'). pose proof (λ u Hu, proj2 (H4' u Hu)) as H4. apply wp_ret. exists (set_blocked_writer (Some W) p), sc', 0%nat.
      rewrite take_0, app_nil_r, Z.add_0_r. fin.
  - apply wp_bind, wp_on_ring. eapply wp_mono; [by apply (ring_put_spec _ _ q b Hr)|]. intros [] r Hr'.
    apply wp_bind, wp_lift_r. eapply wp_mono; [by apply wake_all_law|]. intros [] sc1 (Hok1 & Hk1 & Hr1).
    apply wp_bind. eapply wp_mono; [apply (wake_reader_spec (set_ring r p) sc1); [done|]|].
    { intros t Ht. by apply Hk1, Hkr. }
    intros [] s' (sc2 & -> & Hst2 & Hrd2). pose proof Hst2 as (Hok2 & Hk2 & Hrdy2).
    assert (sched_step sc sc2 nobody) as Hst.
    { eapply sched_step_trans; [|done]. unfold sched_step. auto. }
    eapply wp_mono; [apply (IH (set_blocked_reader None (set_ring r p)) (q ++ [b]) sc2 (total + 1)); try done|].
    { by apply Hk2, Hk1. } { apply Hrdy2; [by intros []|]. by apply Hr1. }
    intros res s'' (p' & sc' & k & -> & Hk & Hrep & Hwc & Hrc & Hrf & Hbr & Hres).
    assert (∀ t, t ≠ W → p_blocked_reader p = Some t → ready sc' t) as Hready.
    { intros t Hne Ht. destruct res.
      - destruct Hres as (_ & (_ & _ & Hmono) & _). apply Hmono; [by intros []|]. by apply Hrd2.
      - destruct Hres as (_ & _ & _ & _ & _ & _ & (_ & _ & Hmono) & _). apply Hmono; [done|]. by apply Hrd2. }
    exists p', sc', (S k). simpl take. split_and!; try done; [simpl; lia|by rewrite <-app_assoc in Hrep| |].
    + right. split; [|done]. destruct Hbr as [[-> _]|[-> _]]; done.
    + destruct res as [ret|rest' total'].
      * destruct Hres as (Hbw & Hst' & Hret). split_and!; [done|by apply (sched_step_trans _ sc2)|].
        replace (total + Z.of_nat (S k)) with (total + 1 + Z.of_nat k) by lia.
        destruct Hret as [[-> Hret]|Hret]; [left; split; [done|lia]|by right].
      * destruct Hres as (Hre & Hto & Hne & Hbw & Hrc' & Hfull & Hst' & Hnr).
        rewrite <-app_assoc in Hfull. split_and!; try done; [lia|by apply (sched_step_trans _ sc2)].
Qed.

(** ** The system *)

Inductive reader_status := RIdle | RWaiting (size : Z).
Inductive writer_status := WIdle | WWaiting (rest : list Z) (total : Z).

Record config := mk_config {
  c_pipe : option pipe;
  c_sched : SC;
  c_reader : reader_status;
  c_writer : writer_status;
  c_ropen : bool; (* the read end is open *)
  c_wopen : bool; (* the write end is open *)
  c_sent : list Z; (* bytes accepted from the writer *)
  c_got : list Z; (* bytes delivered to the reader *)
}.

(** The configuration after a call of the reader or the writer. *)
Definition after_read (c : config) (size : Z) (res : read_result) (s' : state) : config :=
  mk_config s'.1 s'.2 (match res with RBlocked => RWaiting size | RDone _ _ => RIdle end) (c_writer c)
    (c_ropen c) (c_wopen c) (c_sent c) (c_got c ++ match res with RBlocked => [] | RDone _ data => data end).

(** The bytes a call took from the user's buffer, of which [total] had been
    taken before. *)
Definition taken (rest : list Z) (total : Z) (res : write_result) : list Z :=
  take (Z.to_nat (match res with WDone ret => ret | WBlocked _ t => t end - total)) rest.

Definition after_write (c : config) (rest : list Z) (total : Z) (res : write_result) (s' : state) : config :=
  mk_config s'.1 s'.2 (c_reader c) (match res with WDone _ => WIdle | WBlocked r t => WWaiting r t end)
    (c_ropen c) (c_wopen c) (c_sent c ++ taken rest total res) (c_got c).

Definition before (c : config) : state := (c_pipe c, c_sched c).

(** A task runs only while the scheduler has it ready; an end is used until it
    is closed; between the calls anything may happen to the scheduler except
    that the two tasks lose the processor. *)
Inductive step (c : config) : config → Prop :=
| step_read size res s' : c_reader c = RIdle → c_ropen c = true → ready (c_sched c) R → 0 < size →
    pipe_read_op (Some R) true size (before c) = Ret (res, s') → step c (after_read c size res s')
| step_read_resume size res s' : c_reader c = RWaiting size → ready (c_sched c) R →
    pipe_read_resume (Some R) size (before c) = Ret (res, s') → step c (after_read c size res s')
| step_write buffer res s' : c_writer c = WIdle → c_wopen c = true → ready (c_sched c) W → buffer ≠ [] → Forall byte buffer →
    pipe_write_op (Some W) true buffer (before c) = Ret (res, s') → step c (after_write c buffer 0 res s')
| step_write_resume rest total res s' : c_writer c = WWaiting rest total → ready (c_sched c) W →
    pipe_write_resume (Some W) rest total (before c) = Ret (res, s') → step c (after_write c rest total res s')
| step_close_read s' : c_reader c = RIdle → c_ropen c = true →
    pipe_read_close_op (before c) = Ret (tt, s') →
    step c (mk_config s'.1 s'.2 RIdle (c_writer c) false (c_wopen c) (c_sent c) (c_got c))
| step_close_write s' : c_writer c = WIdle → c_wopen c = true →
    pipe_write_close_op (before c) = Ret (tt, s') →
    step c (mk_config s'.1 s'.2 (c_reader c) WIdle (c_ropen c) false (c_sent c) (c_got c))
| step_others sc' : sched_step (c_sched c) sc' nobody →
    step c (mk_config (c_pipe c) sc' (c_reader c) (c_writer c) (c_ropen c) (c_wopen c) (c_sent c) (c_got c)).

Definition start (sc : SC) : config := mk_config (Some new_pipe) sc RIdle WIdle true true [] [].

Inductive reachable (sc0 : SC) : config → Prop :=
| reach_start : reachable sc0 (start sc0)
| reach_step c c' : reachable sc0 c → step c c' → reachable sc0 c'.

(** ** The invariant *)

Record pipe_inv (c : config) (p : pipe) (q : list Z) : Prop := {
  v_rep : rep_pipe p q;
  v_fifo : c_got c ++ q = c_sent c;
  v_wclosed : p_write_closed p = negb (c_wopen c);
  v_rclosed : p_read_closed p = negb (c_ropen c);
  v_refs : p_ref_count p = Z.b2z (c_ropen c) + Z.b2z (c_wopen c);
  v_open : c_ropen c = true ∨ c_wopen c = true;
  v_reader : ∀ t, p_blocked_reader p = Some t → t = R;
  v_writer : ∀ t, p_blocked_writer p = Some t → t = W;
  v_rwait : ∀ size, c_reader c = RWaiting size → c_ropen c = true ∧ 0 < size;
  v_wwait : ∀ rest total, c_writer c = WWaiting rest total → c_wopen c = true ∧ Forall byte rest ∧ 0 ≤ total;
  v_rsleep : ∀ size, c_reader c = RWaiting size → ¬ ready (c_sched c) R →
    p_blocked_reader p = Some R ∧ q = [] ∧ c_wopen c = true;
  v_wsleep : ∀ rest total, c_writer c = WWaiting rest total → ¬ ready (c_sched c) W →
    p_blocked_writer p = Some W ∧ Z.of_nat (length q) = PIPE_BUF_SIZE ∧ c_ropen c = true;
}.

Record inv (c : config) : Prop := {
  i_sched : sched_ok (c_sched c) ∧ known (c_sched c) R ∧ known (c_sched c) W;
  i_pipe : match c_pipe c with
           | Some p => ∃ q, pipe_inv c p q
           | None => c_ropen c = false ∧ c_wopen c = false ∧ c_reader c = RIdle ∧ c_writer c = WIdle ∧
                     ∃ q, c_got c ++ q = c_sent c
           end;
}.

Lemma inv_start sc : sched_ok sc → known sc R → known sc W → inv (start sc).
Proof.
  intros H1 H2 H3. split; [done|]. exists []. split; try done; simpl; try (by left).
Qed.

Lemma known_reader c p q : pipe_inv c p q → known (c_sched c) R → known_opt (c_sched c) (p_blocked_reader p).
Proof. intros HI HR t Ht. by rewrite (v_reader _ _ _ HI t Ht). Qed.

Lemma known_writer c p q : pipe_inv c p q → known (c_sched c) W → known_opt (c_sched c) (p_blocked_writer p).
Proof. intros HI HW t Ht. by rewrite (v_writer _ _ _ HI t Ht). Qed.

(** A read, started or resumed, keeps the invariant. *)
Lemma read_step_inv c p q size p1 : inv c → c_pipe c = Some p → pipe_inv c p q → ready (c_sched c) R → 0 < size →
  c_ropen c = true → (p1 = p ∨ p1 = set_blocked_reader None p) →
  wp (pipe_read_loop (Some R) size) (Some p1, c_sched c) (λ res s', inv (after_read c size res s')).
Proof.
  intros [(Hok & HkR & HkW) _] Hp HI HrR Hs Hro Hp1.
  assert (rep_pipe p1 q) as Hrep by (destruct Hp1 as [-> | ->]; apply HI).
  assert (p_blocked_writer p1 = p_blocked_writer p ∧ p_write_closed p1 = p_write_closed p ∧
          p_read_closed p1 = p_read_closed p ∧ p_ref_count p1 = p_ref_count p) as (E1 & E2 & E3 & E4)
    by (by destruct Hp1 as [-> | ->]).
  assert (∀ t, p_blocked_reader p1 = Some t → t = R) as Hbr by (destruct Hp1 as [-> | ->]; [apply HI|done]).
  eapply wp_mono; [apply (pipe_read_loop_spec p1 q); [done..| |done]|].
  { rewrite E1. by eapply known_writer. }
  intros [ret data|] s'; simpl.
  - intros (p' & sc' & n & -> & -> & -> & Hrep' & Hz & Hle & F1 & F2 & F3 & F4 & F5 & (S1 & S2 & S3)). split; [by auto|].
    simpl. exists (drop n q). destruct HI as [I1 I2 I3 I4 I5 I6 I7 I8 I9 I10 I11 I12].
    split; simpl; try congruence; try done.
    + rewrite <-app_assoc, take_drop. done.
    + rewrite F4. done.
    + intros t. destruct F5 as [[-> _]|[-> _]]; [|done]. rewrite E1. apply I8.
    + intros rest total Hw Hnr. assert (¬ ready (c_sched c) W) as Hnr0 by (intros Hx; apply Hnr, S3; [by intros []|done]).
      destruct (I12 rest total Hw Hnr0) as (A1 & A2 & A3). destruct F5 as [[F5 ->]|[F5 Hrd]].
      * rewrite F5, E1. by rewrite drop_0.
      * exfalso. apply Hnr, Hrd. by rewrite E1.
  - intros (sc' & -> & -> & Hwc & (S1 & S2 & S3) & Hnr). split; [by auto|]. simpl. exists [].
    destruct HI as [I1 I2 I3 I4 I5 I6 I7 I8 I9 I10 I11 I12].
    split; simpl; try congruence; try done.
    + rewrite app_nil_r in I2. by rewrite !app_nil_r.
    + rewrite E1. apply I8.
    + intros size' [= <-]. done.
    + intros size' [= <-] _. split_and!; [done|done|]. rewrite E2, I3 in Hwc. by destruct (c_wopen c).
    + intros rest total Hw Hnr'. rewrite E1. apply (I12 rest total Hw). intros Hx. apply Hnr', S3; [congruence|done].
Qed.

(** The same for a write. *)
Lemma write_step_inv c p q rest total p1 : inv c → c_pipe c = Some p → pipe_inv c p q → ready (c_sched c) W → 0 ≤ total →
  Forall byte rest → c_wopen c = true → (p1 = p ∨ p1 = set_blocked_writer None p) →
  wp (pipe_write_loop (Some W) rest total) (Some p1, c_sched c) (λ res s', inv (after_write c rest total res s')).
Proof.
  intros [(Hok & HkR & HkW) _] Hp HI HrW Ht Hb Hwo Hp1.
  assert (rep_pipe p1 q) as Hrep by (destruct Hp1 as [-> | ->]; apply HI).
  assert (p_blocked_reader p1 = p_blocked_reader p ∧ p_write_closed p1 = p_write_closed p ∧
          p_read_closed p1 = p_read_closed p ∧ p_ref_count p1 = p_ref_count p) as (E1 & E2 & E3 & E4)
    by (by destruct Hp1 as [-> | ->]).
  assert (∀ t, p_blocked_writer p1 = Some t → t = W) as Hbw by (destruct Hp1 as [-> | ->]; [apply HI|done]).
  eapply wp_mono; [apply (pipe_write_loop_spec rest p1 q); [done..| |done]|].
  { rewrite E1. by eapply known_reader. }
  intros res s' (p' & sc' & k & -> & Hk & Hrep' & F1 & F2 & F3 & F4 & Hres).
  destruct HI as [I1 I2 I3 I4 I5 I6 I7 I8 I9 I10 I11 I12].
  assert (taken rest total res = take k rest) as Htk.
  { unfold taken. destruct res as [ret|rest' total'].
    - destruct Hres as (_ & _ & [[-> ->]|[_ ->]]); [f_equal; lia|].
      destruct (Z.ltb_spec 0 (total + Z.of_nat k)); [f_equal; lia|]. replace k with 0%nat by lia. f_equal. unfold EPIPE. lia.
    - destruct Hres as (_ & -> & _). f_equal. lia. }
  assert (sched_ok sc' ∧ (∀ u, known (c_sched c) u → known sc' u) ∧ (ready (c_sched c) R → ready sc' R)) as (S1 & S2 & S3).
  { destruct res; [destruct Hres as (_ & (A & B & D) & _)|destruct Hres as (_ & _ & _ & _ & _ & _ & (A & B & D) & _)];
      (split_and!; [done|done|]); apply D; by auto. }
  split; [by auto|]. simpl. exists (q ++ take k rest).
  split; simpl; try congruence; try done.
  - rewrite Htk, app_assoc. congruence.
  - intros t. destruct F4 as [[-> _]|[-> _]]; [|done]. rewrite E1. apply I7.
  - destruct res as [ret|rest' total']; [destruct Hres as (-> & _); done|].
    destruct Hres as (_ & _ & _ & -> & _). congruence.
  - destruct res as [ret|rest' total']; [done|]. intros r t [= <- <-].
    destruct Hres as (-> & -> & _). split_and!; [done|by apply Forall_drop|lia].
  - intros size Hr Hnr. assert (¬ ready (c_sched c) R) as Hnr0 by auto.
    destruct (I11 size Hr Hnr0) as (A1 & A2 & A3). destruct F4 as [[F4 ->]|[F4 Hrd]].
    + rewrite F4, E1, A2. done.
    + exfalso. apply Hnr, Hrd; [done|]. by rewrite E1.
  - destruct res as [ret|rest' total']; [done|]. intros r t [= <- <-] Hnr.
    destruct Hres as (_ & _ & _ & Hw & Hrc & Hfull & _). split_and!; [done|done|].
    rewrite E3, I4 in Hrc. by destruct (c_ropen c).
Qed.

(** Closing an end: the other side is woken, the last one releases the pipe. *)
Lemma close_read_spec c p q : inv c → c_pipe c = Some p → pipe_inv c p q → c_reader c = RIdle → c_ropen c = true →
  wp pipe_read_close_op (before c) (λ _ s', inv (mk_config s'.1 s'.2 RIdle (c_writer c) false (c_wopen c) (c_sent c) (c_got c))).
Proof.
  intros [(Hok & HkR & HkW) _] Hp HI Hr Hro. unfold before. rewrite Hp. unfold pipe_read_close_op.
  apply wp_bind, wp_pset. apply wp_bind, wp_pset. apply wp_bind.
  eapply wp_mono; [apply wake_writer_spec; [done|by eapply (known_writer c p q)]|].
  intros [] s' (sc' & -> & (S1 & S2 & S3) & Hw). apply wp_bind, wp_pget. simpl.
  destruct HI as [I1 I2 I3 I4 I5 I6 I7 I8 I9 I10 I11 I12].
  rewrite Hro in I5. simpl in I5. destruct (Z.leb_spec (p_ref_count p - 1) 0) as [Hle|Hgt].
  - assert (c_wopen c = false) as Hwo by (destruct (c_wopen c); simpl in I5; [lia|done]).
    apply wp_bind, wp_pget. apply wp_modify. split; [by auto|]. simpl. split_and!; try done; [|eauto].
    destruct (c_writer c) as [|rest total] eqn:E; [done|]. destruct (I10 rest total eq_refl). congruence.
  - assert (c_wopen c = true) as Hwo by (destruct (c_wopen c); simpl in I5; [done|lia]).
    apply wp_ret. split; [by auto|]. simpl. exists q. split; simpl; try done; try (by right).
    + rewrite I5, Hwo. done.
    + intros rest total Hwr Hnr. exfalso. assert (¬ ready (c_sched c) W) as Hnr0 by (intros Hx; by apply Hnr, S3; [intros []|]).
      destruct (I12 rest total Hwr Hnr0) as (A1 & _). by apply Hnr, Hw.
Qed.

Lemma close_write_spec c p q : inv c → c_pipe c = Some p → pipe_inv c p q → c_writer c = WIdle → c_wopen c = true →
  wp pipe_write_close_op (before c) (λ _ s', inv (mk_config s'.1 s'.2 (c_reader c) WIdle (c_ropen c) false (c_sent c) (c_got c))).
Proof.
  intros [(Hok & HkR & HkW) _] Hp HI Hr Hwo. unfold before. rewrite Hp. unfold pipe_write_close_op.
  apply wp_bind, wp_pset. apply wp_bind, wp_pset. apply wp_bind.
  eapply wp_mono; [apply wake_reader_spec; [done|by eapply (known_reader c p q)]|].
  intros [] s' (sc' & -> & (S1 & S2 & S3) & Hw). apply wp_bind, wp_pget. simpl.
  destruct HI as [I1 I2 I3 I4 I5 I6 I7 I8 I9 I10 I11 I12].
  rewrite Hwo in I5. simpl in I5. destruct (Z.leb_spec (p_ref_count p - 1) 0) as [Hle|Hgt].
  - assert (c_ropen c = false) as Hro by (destruct (c_ropen c); simpl in I5; [lia|done]).
    apply wp_bind, wp_pget. apply wp_modify. split; [by auto|]. simpl. split_and!; try done; [|eauto].
    destruct (c_reader c) as [|size] eqn:E; [done|]. destruct (I9 size eq_refl). congruence.
  - assert (c_ropen c = true) as Hro by (destruct (c_ropen c); simpl in I5; [done|lia]).
    apply wp_ret. split; [by auto|]. simpl. exists q. split; simpl; try done; try (by left).
    + rewrite I5, Hro. done.
    + intros size Hrd Hnr. exfalso. assert (¬ ready (c_sched c) R) as Hnr0 by (intros Hx; by apply Hnr, S3; [intros []|]).
      destruct (I11 size Hrd Hnr0) as (A1 & _). by apply Hnr, Hw.
Qed.

(** ** Every call returns, and keeps the invariant *)

Lemma open_pipe c : inv c → (c_ropen c = true ∨ c_wopen c = true) → ∃ p q, c_pipe c = Some p ∧ pipe_inv c p q.
Proof. intros [_ Hp] Ho. destruct (c_pipe c) as [p|]; [destruct Hp as [q ?]; eauto|]. destruct Hp as (?&?&_). destruct Ho; congruence. Qed.

Lemma read_call c size : inv c → c_ropen c = true → ready (c_sched c) R → 0 < size →
  wp (pipe_read_op (Some R) true size) (before c) (λ res s', inv (after_read c size res s')).
Proof using HRW.
  intros HI Ho Hr Hs. destruct (open_pipe c HI) as (p & q & Hp & HP); [by left|].
  unfold pipe_read_op, before. rewrite Hp. destruct (Z.eqb_spec size 0); [lia|]. simpl.
  eapply read_step_inv; try done. by left.
Qed.

Lemma read_resume_call c size : inv c → c_reader c = RWaiting size → ready (c_sched c) R →
  wp (pipe_read_resume (Some R) size) (before c) (λ res s', inv (after_read c size res s')).
Proof using HRW.
  intros HI Hw Hr.
  assert (∃ p q, c_pipe c = Some p ∧ pipe_inv c p q) as (p & q & Hp & HP).
  { destruct HI as [_ HI]. destruct (c_pipe c) as [p|]; [destruct HI as [q ?]; eauto|]. destruct HI as (_&_&?&_). congruence. }
  destruct (v_rwait _ _ _ HP size Hw) as [Ho Hs].
  unfold pipe_read_resume, before. rewrite Hp. apply wp_bind, wp_pset. eapply read_step_inv; try done. by right.
Qed.

Lemma write_call c buffer : inv c → c_wopen c = true → ready (c_sched c) W → c_writer c = WIdle → buffer ≠ [] → Forall byte buffer →
  wp (pipe_write_op (Some W) true buffer) (before c) (λ res s', inv (after_write c buffer 0 res s')).
Proof using HRW.
  intros HI Ho Hr Hw Hne Hb. destruct (open_pipe c HI) as (p & q & Hp & HP); [by right|].
  unfold pipe_write_op, before. rewrite Hp. destruct (Z.eqb_spec (Z.of_nat (length buffer)) 0); [by destruct buffer|]. simpl.
  apply wp_bind, wp_pget. destruct (p_read_closed p) eqn:E.
  - apply wp_ret. destruct HI as [A B]. rewrite Hp in B. split; [done|]. simpl. exists q.
    destruct HP as [I1 I2 I3 I4 I5 I6 I7 I8 I9 I10 I11 I12]. split; simpl; try done. by rewrite app_nil_r.
  - eapply write_step_inv; try done; by left.
Qed.

Lemma write_resume_call c rest total : inv c → c_writer c = WWaiting rest total → ready (c_sched c) W →
  wp (pipe_write_resume (Some W) rest total) (before c) (λ res s', inv (after_write c rest total res s')).
Proof using HRW.
  intros HI Hw Hr.
  assert (∃ p q, c_pipe c = Some p ∧ pipe_inv c p q) as (p & q & Hp & HP).
  { destruct HI as [_ HI]. destruct (c_pipe c) as [p|]; [destruct HI as [q ?]; eauto|]. destruct HI as (_&_&_&?&_). congruence. }
  destruct (v_wwait _ _ _ HP rest total Hw) as (Ho & Hb & Ht).
  unfold pipe_write_resume, before. rewrite Hp. apply wp_bind, wp_pset. eapply write_step_inv; try done. by right.
Qed.

Lemma others_inv c sc' : inv c → sched_step (c_sched c) sc' nobody →
  inv (mk_config (c_pipe c) sc' (c_reader c) (c_writer c) (c_ropen c) (c_wopen c) (c_sent c) (c_got c)).
Proof.
  intros [(Hok & HkR & HkW) HP] (S1 & S2 & S3). split; [by auto|]. simpl. destruct (c_pipe c) as [p|]; [|done].
  destruct HP as [q [I1 I2 I3 I4 I5 I6 I7 I8 I9 I10 I11 I12]]. exists q. split; simpl; try done.
  - intros size Hw Hnr. eapply I11; [done|]. intros Hx. by apply Hnr, S3; [intros []|].
  - intros rest total Hw Hnr. eapply I12; [done|]. intros Hx. by apply Hnr, S3; [intros []|].
Qed.

Lemma step_inv c c' : inv c → step c c' → inv c'.
Proof using HRW.
  intros HI. destruct 1 as [size res s' Hr Ho Hrd Hs Hrun|size res s' Hr Hrd Hrun|buffer res s' Hw Ho Hrd Hne Hb Hrun
                           |rest total res s' Hw Hrd Hrun|s' Hr Ho Hrun|s' Hw Ho Hrun|sc' Hst].
  - exact (wp_Ret _ _ _ _ _ (read_call c size HI Ho Hrd Hs) Hrun).
  - exact (wp_Ret _ _ _ _ _ (read_resume_call c size HI Hr Hrd) Hrun).
  - exact (wp_Ret _ _ _ _ _ (write_call c buffer HI Ho Hrd Hw Hne Hb) Hrun).
  - exact (wp_Ret _ _ _ _ _ (write_resume_call c rest total HI Hw Hrd) Hrun).
  - destruct (open_pipe c HI) as (p & q & Hp & HP); [by left|].
    exact (wp_Ret _ _ _ _ _ (close_read_spec c p q HI Hp HP Hr Ho) Hrun).
  - destruct (open_pipe c HI) as (p & q & Hp & HP); [by right|].
    exact (wp_Ret _ _ _ _ _ (close_write_spec c p q HI Hp HP Hw Ho) Hrun).
  - by apply others_inv.
Qed.

Lemma reachable_inv sc0 c : sched_ok sc0 → known sc0 R → known sc0 W → reachable sc0 c → inv c.
Proof using HRW. intros H1 H2 H3. induction 1; [by apply inv_start|by eapply step_inv]. Qed.

(** ** The theorems *)

(** C33. A pipe is a queue: in every run of one reader and one writer, with
    calls blocked, resumed and interleaved in any order, the bytes delivered
    followed by the bytes in the buffer are the bytes accepted, in order; none
    is lost, duplicated or reordered. *)
Theorem pipe_fifo sc0 c : sched_ok sc0 → known sc0 R → known sc0 W → reachable sc0 c →
  ∃ q, c_got c ++ q = c_sent c ∧ ∀ p, c_pipe c = Some p → rep_pipe p q.
Proof using HRW.
  intros H1 H2 H3 Hr. apply (reachable_inv sc0 c H1 H2 H3) in Hr as [_ HP]. destruct (c_pipe c) as [p|].
  - destruct HP as [q HP]. exists q. split; [apply HP|]. intros p' [= <-]. apply HP.
  - destruct HP as (_ & _ & _ & _ & q & Hq). exists q. done.
Qed.

(** C34. With one reader task and one writer task no wake-up is lost: a reader
    that waits and is not ready to run waits for an empty pipe whose write end
    is open, a writer for a full pipe whose read end is open; so the two never
    wait for each other.  With a second reader this fails, see
    [second_reader_stranded] below. *)
Theorem pipe_no_lost_wakeup sc0 c : sched_ok sc0 → known sc0 R → known sc0 W → reachable sc0 c →
  (∀ size, c_reader c = RWaiting size → ¬ ready (c_sched c) R → c_got c = c_sent c ∧ c_wopen c = true) ∧
  (∀ rest total, c_writer c = WWaiting rest total → ¬ ready (c_sched c) W →
     Z.of_nat (length (c_sent c) - length (c_got c)) = PIPE_BUF_SIZE ∧ c_ropen c = true) ∧
  ¬ (∃ size rest total, c_reader c = RWaiting size ∧ c_writer c = WWaiting rest total ∧
       ¬ ready (c_sched c) R ∧ ¬ ready (c_sched c) W).
Proof using HRW.
  intros H1 H2 H3 Hr. apply (reachable_inv sc0 c H1 H2 H3) in Hr as [_ HP]. destruct (c_pipe c) as [p|].
  2:{ destruct HP as (_ & _ & Er & Ew & _). rewrite Er, Ew. split_and!; try done. by intros (?&?&?&?&_). }
  destruct HP as [q [I1 I2 I3 I4 I5 I6 I7 I8 I9 I10 I11 I12]]. split_and!.
  - intros size Hw Hn. destruct (I11 size Hw Hn) as (_ & -> & ?). by rewrite app_nil_r in I2.
  - intros rest total Hw Hn. destruct (I12 rest total Hw Hn) as (_ & <- & ?). rewrite <-I2, length_app. split; [lia|done].
  - intros (size & rest & total & Hw1 & Hw2 & Hn1 & Hn2). destruct (I11 size Hw1 Hn1) as (_ & -> & _).
    destruct (I12 rest total Hw2 Hn2) as (_ & Hfull & _). by unfold PIPE_BUF_SIZE in Hfull.
Qed.

(** C35. With one reader task and one writer task no call faults: in every reachable state the calls of an open end,
    started, resumed or closing it, run to their next stop; in particular none
    touches the pipe after the last close has released it. *)
Theorem pipe_calls_return sc0 c : sched_ok sc0 → known sc0 R → known sc0 W → reachable sc0 c →
  (c_ropen c = true → ready (c_sched c) R → c_reader c = RIdle →
     (∀ size, 0 < size → ∃ res s', pipe_read_op (Some R) true size (before c) = Ret (res, s')) ∧
     ∃ s', pipe_read_close_op (before c) = Ret (tt, s')) ∧
  (∀ size, c_reader c = RWaiting size → ready (c_sched c) R →
     ∃ res s', pipe_read_resume (Some R) size (before c) = Ret (res, s')) ∧
  (c_wopen c = true → ready (c_sched c) W → c_writer c = WIdle →
     (∀ buffer, buffer ≠ [] → Forall byte buffer → ∃ res s', pipe_write_op (Some W) true buffer (before c) = Ret (res, s')) ∧
     ∃ s', pipe_write_close_op (before c) = Ret (tt, s')) ∧
  (∀ rest total, c_writer c = WWaiting rest total → ready (c_sched c) W →
     ∃ res s', pipe_write_resume (Some W) rest total (before c) = Ret (res, s')).
Proof using HRW.
  intros H1 H2 H3 Hr. apply (reachable_inv sc0 c H1 H2 H3) in Hr as HI.
  assert (∀ {A} (m : M state A) (Q : A → state → Prop), wp m (before c) Q → ∃ a s', m (before c) = Ret (a, s')) as Hret.
  { intros A m Q Hm. apply wp_run in Hm as (a & s' & ? & _). eauto. }
  split_and!.
  - intros Ho Hrd Hi. split; [intros size Hs; eapply Hret, read_call; done|].
    destruct (open_pipe c HI) as (p & q & Hp & HP); [by left|].
    destruct (Hret _ _ _ (close_read_spec c p q HI Hp HP Hi Ho)) as ([] & s' & ?). eauto.
  - intros size Hw Hrd. eapply Hret, read_resume_call; done.
  - intros Ho Hrd Hi. split; [intros buffer Hne Hb; eapply Hret, write_call; done|].
    destruct (open_pipe c HI) as (p & q & Hp & HP); [by right|].
    destruct (Hret _ _ _ (close_write_spec c p q HI Hp HP Hi Ho)) as ([] & s' & ?). eauto.
  - intros rest total Hw Hrd. eapply Hret, write_resume_call; done.
Qed.

End System.

(** ** A run: task 3 writes three bytes, task 2 reads two of them *)

Import Sched SchedSpec SchedClient.

Definition run_1 : config := after_write (start demo) [10; 20; 30] 0 (WDone 3)
  (exec (pipe_write_op (Some 3) true [10; 20; 30]) (before (start demo))).

Definition run_2 : config := after_read run_1 2 (RDone 2 [10; 20])
  (exec (pipe_read_op (Some 2) true 2) (before run_1)).

Lemma exec_Ret {S A} (m : M S A) s a : (match m s with Ret (b, _) => Some b | _ => None end) = Some a → m s = Ret (a, exec m s).
Proof. unfold exec. destruct (m s) as [[b s']| | |]; try done. by intros [= ->]. Qed.

Lemma run_1_reachable : reachable 2 3 demo run_1.
Proof.
  eapply reach_step; [apply reach_start|].
  refine (step_write 2 3 (start demo) [10; 20; 30] (WDone 3) _ eq_refl eq_refl (demo_queued 3 _) _ _ _).
  - by right.
  - discriminate.
  - repeat constructor; discriminate.
  - apply exec_Ret. vm_compute. reflexivity.
Qed.

Lemma run_1_ready : ready (c_sched run_1) 2.
Proof. change (queued (c_sched run_1) 2). unfold queued. eexists. split; vm_compute; reflexivity. Qed.

Lemma run_2_reachable : reachable 2 3 demo run_2.
Proof.
  eapply reach_step; [exact run_1_reachable|].
  refine (step_read 2 3 run_1 2 (RDone 2 [10; 20]) _ eq_refl eq_refl run_1_ready eq_refl _).
  apply exec_Ret. vm_compute. reflexivity.
Qed.

Lemma pipe_fifo_witness : ∃ q, [10; 20] ++ q = [10; 20; 30] ∧ ∀ p, c_pipe run_2 = Some p → rep_pipe p q.
Proof.
  exact (pipe_fifo 2 3 ltac:(done) demo run_2 demo_consistent (demo_present 2 ltac:(by left)) (demo_present 3 ltac:(by right)) run_2_reachable).
Defined.

(** Task 2 reads from the new pipe and is put to sleep. *)
Definition run_w : config := after_read (start demo) 2 RBlocked
  (exec (pipe_read_op (Some 2) true 2) (before (start demo))).

Lemma run_w_reachable : reachable 2 3 demo run_w.
Proof.
  eapply reach_step; [apply reach_start|].
  refine (step_read 2 3 (start demo) 2 RBlocked _ eq_refl eq_refl (demo_queued 2 _) eq_refl _); [by left|].
  apply exec_Ret. vm_compute. reflexivity.
Qed.

Definition asleep_in (sc : sched) (x : Z) : bool :=
  match tasks sc !! x with Some t => negb (linked_guard sc x t) | None => false end.

Lemma asleep_not_ready sc x : asleep_in sc x = true → ¬ ready sc x.
Proof.
  unfold asleep_in. intros Ha. change (¬ queued sc x). intros (t & Ht & Hl). rewrite Ht, Hl in Ha. done.
Qed.

Lemma pipe_no_lost_wakeup_witness : c_reader run_w = RWaiting 2 ∧ ¬ ready (c_sched run_w) 2 ∧
  c_got run_w = c_sent run_w ∧ c_wopen run_w = true.
Proof.
  assert (¬ ready (c_sched run_w) 2) as Hn by (apply asleep_not_ready; vm_compute; reflexivity).
  split; [reflexivity|]. split; [exact Hn|].
  exact (proj1 (pipe_no_lost_wakeup 2 3 ltac:(done) demo run_w demo_consistent (demo_present 2 ltac:(by left))
    (demo_present 3 ltac:(by right)) run_w_reachable) 2 eq_refl Hn).
Defined.

(** The pipe remembers one sleeping reader only: when tasks 2 and 3 wait for
    the same pipe, a write of two bytes wakes task 3 and forgets task 2, which
    sleeps on while the pipe has data. *)
Example second_reader_stranded :
  (pipe_read_op (Some 2) true 1;; pipe_read_op (Some 3) true 1;; pipe_write_op (Some 1) true [10; 20];;
   n ← pget (λ p, r_count (p_ring p)); b ← pget p_blocked_reader; sc ← gets snd;
   mret (n, b, asleep_in sc 2, asleep_in sc 3)) (Some new_pipe, demo) =
  (let s' := exec (pipe_read_op (Some 2) true 1;; pipe_read_op (Some 3) true 1;; pipe_write_op (Some 1) true [10; 20]) (Some new_pipe, demo) in
   Ret ((2, None, true, false), s')).
Proof. vm_compute. reflexivity. Qed.

Lemma pipe_calls_return_witness : ∃ res s', pipe_read_op (Some 2) true 1 (before run_1) = Ret (res, s').
Proof.
  exact (proj1 (proj1 (pipe_calls_return 2 3 ltac:(done) demo run_1 demo_consistent (demo_present 2 ltac:(by left))
    (demo_present 3 ltac:(by right)) run_1_reachable) eq_refl run_1_ready eq_refl) 1 eq_refl).
Defined.

End PipeSpec.
