(* ===== verification/Fips180.v ===== *)
(** * SHA-256 as the standard (FIPS 180-4) describes it

    Nothing of the code is used here: words are built bit by bit, the
    constants are the fractional parts of roots of primes, blocks are read
    and digests written as big-endian numbers. *)
From Stdlib Require Import Znumtheory.
From S2P Require Import Prelude Bits.

Module Fips.

Definition is_byte (x : Z) : Prop := 0 ≤ x < 256.
Definition word32 (x : Z) : Prop := 0 ≤ x < 2 ^ 32.

#[global] Instance is_byte_dec x : Decision (is_byte x).
Proof. unfold is_byte. apply _. Defined.

(** ** Words *)

(** The word with the given 32 bits. *)
Definition bits (f : Z → bool) : Z := foldr (λ i acc, Z.b2z (f i) + 2 * acc) 0 (seqZ 0 32).

(** Rotation and shift to the right. *)
Definition rotr (n x : Z) : Z := bits (λ i, Z.testbit x ((i + n) mod 32)).
Definition shr (n x : Z) : Z := bits (λ i, Z.testbit x (i + n)).

(** Bit by bit: the parity of three words, a choice, a majority. *)
Definition xor3 (x y z : Z) : Z := bits (λ i, xorb (xorb (Z.testbit x i) (Z.testbit y i)) (Z.testbit z i)).
Definition Ch (x y z : Z) : Z := bits (λ i, if Z.testbit x i then Z.testbit y i else Z.testbit z i).
Definition Maj (x y z : Z) : Z := bits (λ i, 2 <=? Z.b2z (Z.testbit x i) + Z.b2z (Z.testbit y i) + Z.b2z (Z.testbit z i)).

Definition Sigma0 (x : Z) : Z := xor3 (rotr 2 x) (rotr 13 x) (rotr 22 x).
Definition Sigma1 (x : Z) : Z := xor3 (rotr 6 x) (rotr 11 x) (rotr 25 x).
Definition sigma0 (x : Z) : Z := xor3 (rotr 7 x) (rotr 18 x) (shr 3 x).
Definition sigma1 (x : Z) : Z := xor3 (rotr 17 x) (rotr 19 x) (shr 10 x).

(** ** Constants *)

Definition is_prime (p : Z) : bool := (1 <? p) && forallb (λ d, negb (p mod d =? 0)) (seqZ 2 (p - 2)).

(** The first [n] primes, for [n] up to 64. *)
Definition primes (n : nat) : list Z := take n (filter (λ p, is_prime p = true) (seqZ 2 310)).

(** The integer part of the [k]-th root, for roots below [2^36]. *)
Definition iroot (k n : Z) : Z :=
  foldr (λ i c, if (c + 2 ^ i) ^ k <=? n then c + 2 ^ i else c) 0 (seqZ 0 36).

(** The first 32 bits of the fractional part of the [k]-th root of [p]. *)
Definition root_fraction (k p : Z) : Z := iroot k (p * 2 ^ (32 * k)) mod 2 ^ 32.

Definition K : list Z := root_fraction 3 <$> primes 64.
Definition H0 : list Z := root_fraction 2 <$> primes 8.

(** ** Messages *)

(** Bytes, the most significant one first. *)
Definition be_number (l : list Z) : Z := foldl (λ x b, 256 * x + b) 0 l.
Definition be_bytes (n : nat) (x : Z) : list Z := (λ i, x / 256 ^ Z.of_nat (n - 1 - i) mod 256) <$> seq 0 n.

(** A message with a one bit, the least number of zeros that leaves room for
    the length at the end of a block, and the length in bits. *)
Definition zeros (n : nat) : nat := Z.to_nat ((55 - Z.of_nat n) `mod` 64).
Definition pad (msg : list Z) : list Z :=
  msg ++ 0x80 :: replicate (zeros (length msg)) 0 ++ be_bytes 8 (8 * Z.of_nat (length msg)).

(** The pieces of [n] bytes of a message. *)
Definition blocks_of (n : nat) (l : list Z) : list (list Z) := (λ i, take n (drop (n * i) l)) <$> seq 0 (length l / n).

(** ** The hash *)

(** The schedule: the sixteen words of the block, then [n] further words, each
    made of four earlier ones. *)
Fixpoint W (n : nat) (M : list Z) : list Z :=
  match n with
  | O => M
  | S n =>
      let w := W n M in
      let t := length w in
      w ++ [(sigma1 (w !!! (t - 2)%nat) + w !!! (t - 7)%nat + sigma0 (w !!! (t - 15)%nat) + w !!! (t - 16)%nat) mod 2 ^ 32]
  end.

Definition step (v : list Z) (kw : Z * Z) : list Z :=
  match v with
  | [a; b; c; d; e; f; g; h] =>
      let T1 := (h + Sigma1 e + Ch e f g + kw.1 + kw.2) mod 2 ^ 32 in
      let T2 := (Sigma0 a + Maj a b c) mod 2 ^ 32 in
      [(T1 + T2) mod 2 ^ 32; a; b; c; (d + T1) mod 2 ^ 32; e; f; g]
  | _ => v
  end.

Definition compress (H block : list Z) : list Z :=
  zip_with (λ x y, (x + y) mod 2 ^ 32) H
    (foldl step H (zip K (W 48 (be_number <$> blocks_of 4 block)))).

Definition sha256 (msg : list Z) : list Z := foldl compress H0 (blocks_of 64 (pad msg)) ≫= be_bytes 4.

(** ** The pieces mean what they say *)

Lemma testbit_sum_seq f n : ∀ s i, 0 ≤ n → 0 ≤ i →
  Z.testbit (foldr (λ i acc, Z.b2z (f i) + 2 * acc) 0 (seqZ s n)) i = if i <? n then f (s + i) else false.
Proof.
  intros s i Hn. revert s i. pattern n. apply natlike_ind; [|clear n Hn; intros n Hn IH|done]; intros s i Hi.
  - cbn. rewrite Z.bits_0. by destruct (Z.ltb_spec i 0); [lia|].
  - rewrite seqZ_cons by lia. cbn [foldr]. rewrite Z.pred_succ. rewrite (Z.add_comm (Z.b2z _)).
    destruct (Z.eq_dec i 0) as [->|].
    + rewrite Z.testbit_0_r, Z.add_0_r. by destruct (Z.ltb_spec 0 (Z.succ n)); [|lia].
    + replace i with (Z.succ (i - 1)) at 1 by lia. rewrite Z.testbit_succ_r, IH by lia.
      replace (Z.succ s + (i - 1)) with (s + i) by lia.
      by destruct (Z.ltb_spec (i - 1) n), (Z.ltb_spec i (Z.succ n)); try lia.
Qed.

Lemma testbit_bits f i : 0 ≤ i < 32 → Z.testbit (bits f) i = f i.
Proof. intros Hi. unfold bits. rewrite testbit_sum_seq by lia. by destruct (Z.ltb_spec i 32); [|lia]. Qed.

(** A word is told by its bits. *)
Lemma word32_eq x f : word32 x → (∀ i, 0 ≤ i < 32 → Z.testbit x i = f i) → x = bits f.
Proof.
  intros Hx Hf. apply Z.bits_inj'. intros i Hi. unfold bits. rewrite testbit_sum_seq by lia.
  destruct (Z.ltb_spec i 32); [by apply Hf|]. by apply (testbit_small x 32).
Qed.

Lemma bits_word f : word32 (bits f).
Proof.
  unfold bits. cut (∀ s n, 0 ≤ n → 0 ≤ foldr (λ i acc, Z.b2z (f i) + 2 * acc) 0 (seqZ s n) < 2 ^ n); [exact (λ Hall, Hall 0 32 ltac:(lia))|].
  intros s n Hn. revert s. pattern n. apply natlike_ind; [|clear n Hn; intros n Hn IH|done]; intros s; [change (0 ≤ 0 < 1); lia|].
  rewrite seqZ_cons by lia. cbn [foldr]. rewrite Z.pred_succ, Z.pow_succ_r by lia. specialize (IH (Z.succ s)).
  destruct (f s); cbn [Z.b2z]; lia.
Qed.

Lemma is_prime_ok p : is_prime p = true ↔ prime p.
Proof.
  rewrite <-prime_alt. unfold is_prime, Z.prime. rewrite andb_true_iff, Z.ltb_lt, forallb_forall. split; intros [H1 Hd]; (split; [done|]).
  - intros d Hr Hdiv. specialize (Hd d). rewrite <-list_elem_of_In, elem_of_seqZ in Hd. specialize (Hd ltac:(lia)).
    apply Z.mod_divide in Hdiv; [|lia]. by rewrite Hdiv in Hd.
  - intros d. rewrite <-list_elem_of_In, elem_of_seqZ. intros Hr. apply negb_true_iff, Z.eqb_neq. intros E.
    apply (Hd d); [lia|]. apply Z.mod_divide; [lia|done].
Qed.

Lemma iroot_ok k n : 1 ≤ k → 0 ≤ n < 2 ^ (36 * k) → iroot k n ^ k ≤ n < (iroot k n + 1) ^ k.
Proof.
  intros Hk Hn. unfold iroot.
  cut (∀ j, (j ≤ 36)%nat → let c := foldr (λ i c, if (c + 2 ^ i) ^ k <=? n then c + 2 ^ i else c) 0 (seqZ (Z.of_nat (36 - j)) (Z.of_nat j)) in
    0 ≤ c ∧ c ^ k ≤ n < (c + 2 ^ Z.of_nat (36 - j)) ^ k).
  { intros Hall. specialize (Hall 36%nat ltac:(lia)). cbv zeta in Hall. apply Hall. }
  induction j as [|j IH]; intros Hj.
  - change (0 ≤ 0 ∧ 0 ^ k ≤ n < (2 ^ 36) ^ k). rewrite Z.pow_0_l, <-Z.pow_mul_r by lia. lia.
  - rewrite seqZ_cons by lia. cbn [foldr]. replace (Z.succ (Z.of_nat (36 - S j))) with (Z.of_nat (36 - j)) by lia.
    replace (Z.pred (Z.of_nat (S j))) with (Z.of_nat j) by lia. specialize (IH ltac:(lia)).
    set (c := foldr _ _ (seqZ (Z.of_nat (36 - j)) _)) in *. cbv zeta in IH |- *. destruct IH as (Hc & Hlo & Hhi).
    pose proof (Z.pow_pos_nonneg 2 (Z.of_nat (36 - S j)) ltac:(lia) ltac:(lia)).
    assert (2 ^ Z.of_nat (36 - j) = 2 * 2 ^ Z.of_nat (36 - S j)) as E.
    { rewrite <-Z.pow_succ_r by lia. f_equal. lia. }
    destruct (Z.leb_spec ((c + 2 ^ Z.of_nat (36 - S j)) ^ k) n); split_and!; try lia.
    replace (c + _ + _) with (c + 2 ^ Z.of_nat (36 - j)) by lia. lia.
Qed.

(** There are 64 primes up to 311: the list [primes] of the constants is not cut short. *)
Example primes_64 : length (primes 64) = 64%nat ∧ primes 8 = [2; 3; 5; 7; 11; 13; 17; 19].
Proof. by vm_compute. Qed.

(** The first test vector of the standard. *)
Example sha256_abc : be_number (sha256 [97; 98; 99]) = 0xba7816bf8f01cfea414140de5dae2223b00361a396177a9cb410ff61f20015ad.
Proof. by vm_compute. Qed.

End Fips.
