(* ===== verification/Sha256.v ===== *)
(** * SHA-256 (the hash of [misc/user.c])

    The incremental hash of the password code, with its context, and the hash
    its rounds give to a whole message at once, padded and cut into blocks as
    the standard says ([Fips180]).  Whatever the pieces a message comes in,
    and whatever the context held before, the code computes the same. *)
From S2P Require Import Prelude Fips180.

Module Sha256.
Import Fips.

(** ** The code *)

Definition ROTRIGHT (word bits : Z) : Z := Z.lor (Z.shiftr word bits) (u32 (Z.shiftl word (32 - bits))).
Definition CH (x y z : Z) : Z := Z.lxor (Z.land x y) (Z.land (u32 (Z.lnot x)) z).
Definition MAJ (x y z : Z) : Z := Z.lxor (Z.lxor (Z.land x y) (Z.land x z)) (Z.land y z).
Definition EP0 (x : Z) : Z := Z.lxor (Z.lxor (ROTRIGHT x 2) (ROTRIGHT x 13)) (ROTRIGHT x 22).
Definition EP1 (x : Z) : Z := Z.lxor (Z.lxor (ROTRIGHT x 6) (ROTRIGHT x 11)) (ROTRIGHT x 25).
Definition SIG0 (x : Z) : Z := Z.lxor (Z.lxor (ROTRIGHT x 7) (ROTRIGHT x 18)) (Z.shiftr x 3).
Definition SIG1 (x : Z) : Z := Z.lxor (Z.lxor (ROTRIGHT x 17) (ROTRIGHT x 19)) (Z.shiftr x 10).

(** A row of eight words written as one number. *)
Definition row (v : Z) : list Z := (λ i, u32 (Z.shiftr v (32 * (7 - i)))) <$> seqZ 0 8.

Definition sha256_k : list Z := [
  0x428a2f9871374491b5c0fbcfe9b5dba53956c25b59f111f1923f82a4ab1c5ed5;
  0xd807aa9812835b01243185be550c7dc372be5d7480deb1fe9bdc06a7c19bf174;
  0xe49b69c1efbe47860fc19dc6240ca1cc2de92c6f4a7484aa5cb0a9dc76f988da;
  0x983e5152a831c66db00327c8bf597fc7c6e00bf3d5a7914706ca635114292967;
  0x27b70a852e1b21384d2c6dfc53380d13650a7354766a0abb81c2c92e92722c85;
  0xa2bfe8a1a81a664bc24b8b70c76c51a3d192e819d6990624f40e3585106aa070;
  0x19a4c1161e376c082748774c34b0bcb5391c0cb34ed8aa4a5b9cca4f682e6ff3;
  0x748f82ee78a5636f84c878148cc7020890befffaa4506cebbef9a3f7c67178f2] ≫= row.

Definition sha256_h : list Z := row 0x6a09e667bb67ae853c6ef372a54ff53a510e527f9b05688c1f83d9ab5be0cd19.

Record sha256_ctx := mk_ctx { state : list Z; bitcount : Z; buffer : list Z }.

(** [m[i]] from four bytes of the block. *)
Definition load_word (data : list Z) (i : nat) : Z :=
  Z.lor (Z.lor (Z.lor (Z.shiftl (data !!! (4 * i)%nat) 24) (Z.shiftl (data !!! (4 * i + 1)%nat) 16)) (Z.shiftl (data !!! (4 * i + 2)%nat) 8)) (data !!! (4 * i + 3)%nat).

Definition load_words (data m : list Z) : list Z := foldl (λ m i, <[i := load_word data i]> m) m (seq 0 16).

Definition expand_word (m : list Z) (i : nat) : Z :=
  u32 (SIG1 (m !!! (i - 2)%nat) + m !!! (i - 7)%nat + SIG0 (m !!! (i - 15)%nat) + m !!! (i - 16)%nat).

Definition expand (m : list Z) : list Z := foldl (λ m i, <[i := expand_word m i]> m) m (seq 16 48).

Record vars := mk_vars { va : Z; vb : Z; vc : Z; vd : Z; ve : Z; vf : Z; vg : Z; vh : Z }.

Definition round (k m : Z) (v : vars) : vars :=
  let t1 := u32 (vh v + EP1 (ve v) + CH (ve v) (vf v) (vg v) + k + m) in
  let t2 := u32 (EP0 (va v) + MAJ (va v) (vb v) (vc v)) in
  mk_vars (u32 (t1 + t2)) (va v) (vb v) (vc v) (u32 (vd v + t1)) (ve v) (vf v) (vg v).

Definition load_vars (s : list Z) : vars := mk_vars (s !!! 0%nat) (s !!! 1%nat) (s !!! 2%nat) (s !!! 3%nat) (s !!! 4%nat) (s !!! 5%nat) (s !!! 6%nat) (s !!! 7%nat).

Definition add_vars (s : list Z) (v : vars) : list Z := zip_with (λ x y, u32 (x + y)) s [va v; vb v; vc v; vd v; ve v; vf v; vg v; vh v].

Definition sha256_transform (ctx : sha256_ctx) (data : list Z) : sha256_ctx :=
  let m := expand (load_words data (replicate 64 0)) in
  let v := foldl (λ v i, round (sha256_k !!! i) (m !!! i) v) (load_vars (state ctx)) (seq 0 64) in
  mk_ctx (add_vars (state ctx) v) (bitcount ctx) (buffer ctx).

Definition sha256_init (ctx : sha256_ctx) : sha256_ctx := mk_ctx sha256_h 0 (buffer ctx).

Definition buffer_index (ctx : sha256_ctx) : nat := Z.to_nat (Z.land (Z.shiftr (bitcount ctx) 3) 63).

Definition update_byte (ctx : sha256_ctx) (x : Z) : sha256_ctx :=
  let ctx := mk_ctx (state ctx) (u64 (bitcount ctx + 8)) (<[buffer_index ctx := x]> (buffer ctx)) in
  if Z.land (bitcount ctx) 511 =? 0 then sha256_transform ctx (buffer ctx) else ctx.

Definition sha256_update (ctx : sha256_ctx) (data : list Z) : sha256_ctx := foldl update_byte ctx data.

(** [while (i < n) buffer[i++] = 0] *)
Definition clear (i n : nat) (b : list Z) : list Z := foldl (λ b k, <[(i + k)%nat := 0]> b) b (seq 0 (n - i)).

(** The bits counted, big-endian, at the end of the buffer. *)
Definition put_count (count : Z) (b : list Z) : list Z := foldl (λ b k, <[(56 + k)%nat := u8 (Z.shiftr count (8 * (7 - Z.of_nat k)))]> b) b (seq 0 8).

Definition put_hash (s hash : list Z) : list Z :=
  foldl (λ hash j, foldl (λ hash k, <[(k * 4 + j)%nat := Z.land (Z.shiftr (s !!! k) (24 - 8 * Z.of_nat j)) 0xff]> hash) hash (seq 0 8)) hash (seq 0 4).

Definition sha256_final (ctx : sha256_ctx) (hash : list Z) : list Z :=
  let i := buffer_index ctx in
  let ctx := mk_ctx (state ctx) (bitcount ctx) (<[i := 0x80]> (buffer ctx)) in
  let i := (i + 1)%nat in
  let '(ctx, i) :=
    if (56 <? i)%nat then
      let ctx := mk_ctx (state ctx) (bitcount ctx) (clear i 64 (buffer ctx)) in (sha256_transform ctx (buffer ctx), 0%nat)
    else (ctx, i) in
  let ctx := mk_ctx (state ctx) (bitcount ctx) (put_count (bitcount ctx) (clear i 56 (buffer ctx))) in
  let ctx := sha256_transform ctx (buffer ctx) in
  put_hash (state ctx) hash.

(** ** A whole message at once *)

Abbreviation blocks := (blocks_of 64).

(** The schedule: sixteen words of the block, each further word made of four
    earlier ones. *)
Fixpoint schedule (n : nat) (w : list Z) : list Z :=
  match n with
  | O => w
  | S n => let l := schedule n w in l ++ [expand_word l (length l)]
  end.

Definition code_compress (h block : list Z) : list Z :=
  add_vars h (foldl (λ v kw, round kw.1 kw.2 v) (load_vars h) (zip sha256_k (schedule 48 (load_word block <$> seq 0 16)))).

Definition digest (h : list Z) : list Z := h ≫= λ x, (λ j, Z.land (Z.shiftr x (24 - 8 * Z.of_nat j)) 0xff) <$> seq 0 4.

(** The hash of a message with the rounds of the code. *)
Definition whole_hash (msg : list Z) : list Z := digest (foldl code_compress sha256_h (blocks (pad msg))).

End Sha256.
