(* ===== verification/Sha256Spec.v ===== *)
(** * The incremental hash is the hash of the standard *)
From S2P Require Import Prelude Bits Fips180 Sha256.

Module Sha256Spec.
Import Fips Sha256.

Implicit Types (l b m s data : list Z) (c : sha256_ctx) (i n k : nat).

(** ** Arrays written in order *)

(** A run of elements that do not depend on the array. *)
Lemma foldl_insert_run (f : nat → Z) m i n : (i + n ≤ length m)%nat →
  foldl (λ b k, <[(i + k)%nat := f k]> b) m (seq 0 n) = take i m ++ (f <$> seq 0 n) ++ drop (i + n) m.
Proof.
  induction n as [|n IH]; intros Hn.
  - cbn. by rewrite Nat.add_0_r, take_drop.
  - rewrite seq_S, foldl_app, IH by lia. cbn [foldl Nat.add]. rewrite insert_app_r_alt by (rewrite length_take; lia). f_equal.
    rewrite length_take_le by lia. rewrite insert_app_r_alt by (rewrite length_fmap, length_seq; lia). rewrite length_fmap, length_seq, fmap_app, <-app_assoc. f_equal.
    replace (i + n - i - n)%nat with 0%nat by lia. destruct (drop (i + n) m) as [|x r] eqn:E; [apply (f_equal length) in E; rewrite length_drop in E; cbn in E; lia|].
    cbn. f_equal. replace (i + S n)%nat with (1 + (i + n))%nat by lia. by rewrite Nat.add_comm, <-drop_drop, E.
Qed.

(** ** Blocks *)

Lemma blocks_nil l : (length l < 64)%nat → blocks l = [].
Proof. intros Hl. unfold blocks_of. by rewrite Nat.div_small. Qed.

Lemma blocks_cons b l : length b = 64%nat → blocks (b ++ l) = b :: blocks l.
Proof.
  intros Hb. unfold blocks_of. rewrite length_app, Hb. replace ((64 + length l) / 64)%nat with (S (length l / 64)) by (rewrite <-(Nat.div_add_l 1 64) by lia; f_equal; lia).
  cbn [seq fmap list_fmap]. rewrite Nat.mul_0_r, drop_0, take_app_length' by done. f_equal. rewrite <-fmap_S_seq, <-list_fmap_compose.
  apply list_fmap_ext. intros j k _. cbn. rewrite drop_app_ge by lia. do 2 f_equal. lia.
Qed.

Lemma blocks_one b : length b = 64%nat → blocks b = [b].
Proof. intros Hb. rewrite <-(app_nil_r b) at 1. by rewrite blocks_cons. Qed.

(** The blocks a message fills, and what is left of it. *)
Definition left_over l : list Z := drop (64 * (length l / 64)) l.

Lemma length_left_over l : length (left_over l) = (length l mod 64)%nat.
Proof. unfold left_over. rewrite length_drop. pose proof (Nat.div_mod_eq (length l) 64). lia. Qed.

Lemma blocks_full n : ∀ l r, length l = (64 * n)%nat → blocks (l ++ r) = blocks l ++ blocks r.
Proof.
  induction n as [|n IH]; intros l r Hl.
  - by destruct l; [|cbn in Hl; lia].
  - rewrite <-(take_drop 64 l), <-app_assoc. rewrite (blocks_cons (take 64 l) (drop 64 l ++ r)), (blocks_cons (take 64 l) (drop 64 l)) by (rewrite length_take; lia). cbn [app]. f_equal. apply IH. rewrite length_drop. lia.
Qed.

Lemma blocks_app l r : blocks (l ++ r) = blocks l ++ blocks (left_over l ++ r).
Proof.
  set (n := (length l / 64)%nat). pose proof (Nat.div_mod_eq (length l) 64) as Hd. pose proof (Nat.mod_upper_bound (length l) 64) as Hm. fold n in Hd.
  assert (length (take (64 * n) l) = (64 * n)%nat) as Ht by (rewrite length_take; lia).
  assert (l = take (64 * n) l ++ left_over l) as E by (unfold left_over; fold n; by rewrite take_drop).
  replace (l ++ r) with (take (64 * n) l ++ (left_over l ++ r)) by (by rewrite app_assoc, <-E).
  replace (blocks l) with (blocks (take (64 * n) l) ++ blocks (left_over l)) by (rewrite <-(blocks_full n) by done; by rewrite <-E).
  rewrite (blocks_full n), (blocks_nil (left_over l)) by (done || rewrite length_left_over; lia). by rewrite app_nil_r.
Qed.

(** ** The transform *)

Lemma load_words_eq data : load_words data (replicate 64 0) = (load_word data <$> seq 0 16) ++ replicate 48 0.
Proof. apply (foldl_insert_run (load_word data) (replicate 64 0) 0 16). rewrite length_replicate. lia. Qed.

Lemma length_schedule n l : length (schedule n l) = (length l + n)%nat.
Proof. induction n as [|n IH]; cbn; [lia|]. rewrite length_app, IH. cbn. lia. Qed.

Lemma expand_word_app l r i : (16 ≤ i ≤ length l)%nat → expand_word (l ++ r) i = expand_word l i.
Proof. intros Hi. unfold expand_word. by rewrite !lookup_total_app_l by lia. Qed.

Lemma expand_eq w : length w = 16%nat → expand (w ++ replicate 48 0) = schedule 48 w.
Proof.
  intros Hw. unfold expand. cut (∀ n, (n ≤ 48)%nat → foldl (λ m i, <[i := expand_word m i]> m) (w ++ replicate 48 0) (seq 16 n) = schedule n w ++ replicate (48 - n) 0).
  { intros Hall. rewrite (Hall 48%nat) by lia. by rewrite app_nil_r. }
  induction n as [|n IH]; intros Hn; [done|]. rewrite seq_S, foldl_app, IH by lia. cbn [foldl schedule]. pose proof (length_schedule n w) as Hl. rewrite Hw in Hl.
  rewrite expand_word_app by lia. rewrite insert_app_r_alt by lia. rewrite <-app_assoc, Hl. f_equal. replace (16 + n - (16 + n))%nat with 0%nat by lia.
  by replace (48 - n)%nat with (S (48 - S n)) by lia.
Qed.

Lemma foldl_zip {A} (f : A → Z → Z → A) a l r n : length l = n → length r = n →
  foldl (λ v i, f v (l !!! i) (r !!! i)) a (seq 0 n) = foldl (λ v kw, f v kw.1 kw.2) a (zip l r).
Proof.
  revert a l r. induction n as [|n IH]; intros a l r Hl Hr; [by destruct l, r|]. destruct l as [|x l]; [done|]. destruct r as [|y r]; [done|]. cbn [zip_with foldl seq]. injection Hl as Hl. injection Hr as Hr.
  rewrite <-(IH _ l r Hl Hr). cbn. rewrite <-fmap_S_seq. by rewrite foldl_fmap.
Qed.

Lemma transform_eq c data : sha256_transform c data = mk_ctx (code_compress (state c) data) (bitcount c) (buffer c).
Proof.
  unfold sha256_transform, code_compress. cbv zeta. rewrite load_words_eq, expand_eq by (by rewrite length_fmap, length_seq).
  by rewrite (foldl_zip (λ v x y, round x y v) _ _ _ 64) by (done || by rewrite length_schedule, length_fmap, length_seq).
Qed.

(** ** Absorbing a message *)

Record absorbed c l : Prop := {
  ab_state : state c = foldl code_compress sha256_h (blocks l);
  ab_count : bitcount c = 8 * Z.of_nat (length l);
  ab_len : length (buffer c) = 64%nat;
  ab_left : take (length l mod 64) (buffer c) = left_over l;
}.

Lemma index_eq c l : bitcount c = 8 * Z.of_nat (length l) → buffer_index c = (length l mod 64)%nat.
Proof.
  intros Hc. unfold buffer_index. rewrite Hc, Z.shiftr_div_pow2 by lia. change (Z.land ?x 63) with (Z.land x (Z.ones 6)). rewrite Z.land_ones by lia.
  change (2 ^ 3) with 8. change (2 ^ 6) with 64. rewrite Z.mul_comm, Z.div_mul by lia. rewrite <-(Nat2Z.id (length l mod 64)). f_equal. by rewrite Nat2Z.inj_mod.
Qed.

Lemma block_end n : (Z.land (8 * Z.of_nat n) 511 =? 0) = (n mod 64 =? 0)%nat.
Proof.
  change (Z.land ?x 511) with (Z.land x (Z.ones 9)). rewrite Z.land_ones by lia. change (2 ^ 9) with (8 * 64). rewrite Z.mul_mod_distr_l by lia.
  change 64 with (Z.of_nat 64). rewrite <-Nat2Z.inj_mod. destruct (Z.eqb_spec (8 * Z.of_nat (n mod 64)) 0), (Nat.eqb_spec (n mod 64) 0); lia.
Qed.

Lemma take_insert_end b i x : (i < length b)%nat → take (S i) (<[i := x]> b) = take i b ++ [x].
Proof.
  intros Hi. rewrite (take_S_r _ _ x) by (by rewrite list_lookup_insert_eq). f_equal. by rewrite take_insert_ge.
Qed.

Lemma update_byte_absorbed c l x : absorbed c l → 8 * (Z.of_nat (length l) + 1) < 2 ^ 64 → absorbed (update_byte c x) (l ++ [x]).
Proof.
  intros [Hs Hc Hb Hl] Hmax. set (r := (length l mod 64)%nat) in *. assert (r < 64)%nat as Hr by (apply Nat.mod_upper_bound; lia).
  pose proof (index_eq c l Hc) as Hi. fold r in Hi. pose proof (Nat.div_mod_eq (length l) 64) as Hd. fold r in Hd.
  pose proof (Nat.div_mod_eq (length (l ++ [x])) 64) as Hd'. pose proof (Nat.mod_upper_bound (length (l ++ [x])) 64 ltac:(lia)) as Hm'.
  assert (bitcount c + 8 = 8 * Z.of_nat (length (l ++ [x]))) as Hc' by (rewrite length_app, Hc; cbn; lia).
  assert (u64 (bitcount c + 8) = 8 * Z.of_nat (length (l ++ [x]))) as Hu by (rewrite wrap_small; [done|rewrite Hc; lia]).
  pose proof (take_insert_end (buffer c) r x ltac:(lia)) as Ht. rewrite Hl in Ht.
  assert (length (left_over l) = r) as Hlo by apply length_left_over.
  unfold update_byte. cbv zeta. cbn [bitcount buffer]. rewrite Hu, block_end, Hi. destruct (Nat.eqb_spec (length (l ++ [x]) mod 64) 0) as [Hz|Hz].
  - assert (r = 63%nat) as Er by (rewrite length_app in Hd', Hz; cbn [length] in *; lia).
    rewrite transform_eq. cbn [state bitcount buffer]. rewrite Er in *. rewrite firstn_all2 in Ht by (rewrite length_insert; lia). rewrite Ht. split; cbn [state bitcount buffer].
    + rewrite Hs, blocks_app, foldl_app, (blocks_one (left_over l ++ [x])); [done|]. by rewrite length_app, Hlo.
    + done.
    + rewrite length_app, Hlo. done.
    + rewrite Hz. symmetry. apply nil_length_inv. by rewrite length_left_over.
  - assert (r ≠ 63%nat) as Hlt. { intros E. apply Hz. rewrite length_app in Hd', Hm' |- *. cbn [length] in *. lia. }
    assert (length (l ++ [x]) / 64 = length l / 64 ∧ length (l ++ [x]) mod 64 = S r)%nat as [Eq Em] by (rewrite length_app in Hd', Hm' |- *; cbn [length] in *; lia).
    split; cbn [state bitcount buffer].
    + rewrite Hs, blocks_app, (blocks_nil (left_over l ++ [x])), app_nil_r; [done|]. rewrite length_app, Hlo. cbn [length]. lia.
    + done.
    + by rewrite length_insert.
    + rewrite Em, Ht. unfold left_over. rewrite Eq.
      symmetry. apply drop_app_le. lia.
Qed.

Lemma update_absorbed data : ∀ c l, absorbed c l → 8 * Z.of_nat (length (l ++ data)) < 2 ^ 64 → absorbed (sha256_update c data) (l ++ data).
Proof.
  induction data as [|x data IH]; intros c l Hc Hmax; [by rewrite app_nil_r|]. cbn [sha256_update foldl]. replace (l ++ x :: data) with ((l ++ [x]) ++ data) in * by by rewrite <-app_assoc.
  apply IH; [|done]. apply update_byte_absorbed; [done|]. rewrite !length_app in Hmax. cbn in Hmax. lia.
Qed.

Lemma init_absorbed c : length (buffer c) = 64%nat → absorbed (sha256_init c) [].
Proof. intros Hb. by split. Qed.

(** ** The end of a message *)

Lemma clear_eq i n b : (i ≤ n ≤ length b)%nat → clear i n b = take i b ++ replicate (n - i) 0 ++ drop n b.
Proof.
  intros Hi. unfold clear. rewrite (foldl_insert_run (λ _, 0)) by lia. replace (i + (n - i))%nat with n by lia. do 2 f_equal.
  symmetry. apply replicate_as_elem_of. split; [by rewrite length_fmap, length_seq|]. by intros x (?&->&_)%list_elem_of_fmap.
Qed.

Lemma put_count_eq count b : length b = 64%nat → put_count count b = take 56 b ++ be_bytes 8 count.
Proof.
  intros Hb. unfold put_count. rewrite (foldl_insert_run (λ k, u8 (Z.shiftr count (8 * (7 - Z.of_nat k))))) by lia. rewrite drop_ge by lia. rewrite app_nil_r. f_equal.
  apply list_fmap_ext. intros k j [-> Hj]%lookup_seq. cbn [Nat.add]. unfold wrap. rewrite Z.shiftr_div_pow2 by lia. do 2 f_equal.
  rewrite Z.pow_mul_r by lia. do 2 f_equal. lia.
Qed.

Lemma put_hash_eq s hash : length s = 8%nat → length hash = 32%nat → put_hash s hash = digest s.
Proof.
  intros Hs Hh. do 8 (destruct s as [|? s]; [done|]). destruct s; [|done]. do 32 (destruct hash as [|? hash]; [done|]). by destruct hash.
Qed.

Lemma length_code_compress h b : length h = 8%nat → length (code_compress h b) = 8%nat.
Proof. intros Hh. unfold code_compress, add_vars. by rewrite length_zip_with, Hh. Qed.

Lemma length_chain bs : ∀ h, length h = 8%nat → length (foldl code_compress h bs) = 8%nat.
Proof. induction bs as [|b bs IH]; intros h Hh; [done|]. apply IH. by apply length_code_compress. Qed.

(** The padding of a message, by what its last block holds. *)
Lemma zeros_eq n : zeros n = (if (56 <? n mod 64 + 1)%nat then 63 - n mod 64 + 56 else 55 - n mod 64)%nat.
Proof.
  unfold zeros. pose proof (Nat.div_mod_eq n 64) as Hd. pose proof (Nat.mod_upper_bound n 64 ltac:(lia)) as Hm. set (r := (n mod 64)%nat) in *. set (q := (n / 64)%nat) in *.
  destruct (Nat.ltb_spec 56 (r + 1)).
  - rewrite <-(Z.mod_unique_pos (55 - Z.of_nat n) 64 (- Z.of_nat q - 1) (119 - Z.of_nat r)); lia.
  - rewrite <-(Z.mod_unique_pos (55 - Z.of_nat n) 64 (- Z.of_nat q) (55 - Z.of_nat r)); lia.
Qed.

Lemma final_eq c l hash : absorbed c l → length hash = 32%nat → sha256_final c hash = whole_hash l.
Proof.
  intros [Hs Hc Hb Hl] Hh. unfold sha256_final, whole_hash, pad. cbv zeta. rewrite (index_eq c l Hc), zeros_eq, blocks_app, foldl_app, <-Hs.
  pose proof (Nat.mod_upper_bound (length l) 64 ltac:(lia)) as Hr. assert (length (left_over l) = length l mod 64)%nat as Hlo by apply length_left_over.
  set (r := (length l mod 64)%nat) in *. pose proof (take_insert_end (buffer c) r 0x80 ltac:(lia)) as Ht. rewrite Hl in Ht. set (b1 := <[r := 0x80]> (buffer c)) in *.
  assert (length b1 = 64%nat) as Hb1 by (unfold b1; by rewrite length_insert). cbn [state bitcount buffer]. rewrite Hc. set (cnt := be_bytes 8 _). rewrite Nat.add_1_r.
  assert (length (state c) = 8%nat) as H8 by (rewrite Hs; by apply length_chain).
  destruct (56 <? S r)%nat eqn:E; [apply Nat.ltb_lt in E|apply Nat.ltb_ge in E].
  - rewrite !transform_eq. cbn [state bitcount buffer]. rewrite (clear_eq (S r) 64 b1), Ht, (drop_ge b1), app_nil_r by lia. rewrite put_hash_eq by (done || by repeat apply length_code_compress). f_equal.
    set (b2 := (left_over l ++ [128]) ++ replicate (64 - S r) 0). assert (length b2 = 64%nat) as Hb2 by (unfold b2; rewrite !length_app, length_replicate, Hlo; cbn [length]; lia).
    replace (left_over l ++ _ :: _) with (b2 ++ replicate 56 0 ++ cnt) by (unfold b2; rewrite replicate_add, <-!app_assoc; by replace (64 - S r)%nat with (63 - r)%nat by lia).
    rewrite blocks_cons, blocks_one by done. cbn [foldl]. do 2 f_equal. rewrite (clear_eq 0 56 b2) by lia. rewrite put_count_eq by (rewrite !length_app, length_drop, Hb2; done). done.
  - rewrite transform_eq. cbn [state bitcount buffer]. rewrite (clear_eq (S r) 56 b1), Ht by lia. rewrite put_hash_eq by (done || by repeat apply length_code_compress). f_equal.
    rewrite put_count_eq by (rewrite !length_app, length_replicate, length_drop, Hlo, Hb1; cbn [length]; lia). rewrite app_assoc, take_app_length' by (rewrite !length_app, length_replicate, Hlo; cbn [length]; lia).
    rewrite blocks_one; [|rewrite length_app; cbn [length]; rewrite length_app, length_replicate, Hlo; change (length cnt) with 8%nat; lia].
    cbn [foldl]. f_equal. rewrite <-!app_assoc. by replace (56 - S r)%nat with (55 - r)%nat by lia.
Qed.

(** ** The rounds of the code are those of the standard *)

Lemma word32_bits x : 0 ≤ x → (∀ j : Z, 32 ≤ j → Z.testbit x j = false) → word32 x.
Proof. intros H0 Hb. split; [done|]. by apply (bits_range x 32). Qed.

Lemma word32_high x (i : Z) : word32 x → 32 ≤ i → Z.testbit x i = false.
Proof. intros Hx. by apply (testbit_small x 32). Qed.

Lemma word32_u32 x : word32 (u32 x).
Proof. apply wrap_range. lia. Qed.

Lemma ROTRIGHT_eq x (n : Z) : word32 x → 0 < n < 32 → ROTRIGHT x n = rotr n x.
Proof.
  intros Hx Hn. pose proof (word32_u32 (Z.shiftl x (32 - n))) as Hu. unfold ROTRIGHT, rotr. apply word32_eq.
  - apply word32_bits; [apply Z.lor_nonneg; split; [apply Z.shiftr_nonneg, Hx|apply Hu]|]. intros i Hi.
    rewrite Z.lor_spec, Z.shiftr_spec by lia. by rewrite !word32_high by (done || lia).
  - intros i Hi. rewrite Z.lor_spec, Z.shiftr_spec by lia. unfold wrap. rewrite Z.mod_pow2_bits_low, Z.shiftl_spec by lia.
    destruct (Z.ltb_spec (i + n) 32).
    + rewrite (Z.testbit_neg_r x (i - (32 - n))), orb_false_r by lia. by rewrite Z.mod_small by lia.
    + rewrite word32_high by (done || lia). cbn [orb]. f_equal. apply (Z.mod_unique_pos _ _ 1); lia.
Qed.

Lemma shiftr_shr x (n : Z) : word32 x → 0 ≤ n → Z.shiftr x n = shr n x.
Proof.
  intros Hx Hn. apply word32_eq; [|intros i Hi; apply Z.shiftr_spec; lia].
  apply word32_bits; [apply Z.shiftr_nonneg, Hx|]. intros i Hi. rewrite Z.shiftr_spec by lia. apply word32_high; [done|lia].
Qed.

Lemma lxor_xor3 x y z : word32 x → word32 y → word32 z → Z.lxor (Z.lxor x y) z = xor3 x y z.
Proof.
  intros Hx Hy Hz. apply word32_eq; [|intros i _; by rewrite !Z.lxor_spec].
  apply word32_bits; [rewrite !Z.lxor_nonneg; destruct Hx, Hy, Hz; lia|]. intros i Hi. by rewrite !Z.lxor_spec, !word32_high.
Qed.

Lemma CH_eq x y z : word32 x → word32 y → word32 z → CH x y z = Ch x y z.
Proof.
  intros Hx Hy Hz. pose proof (word32_u32 (Z.lnot x)) as Hn. unfold CH. apply word32_eq.
  - apply word32_bits; [apply Z.lxor_nonneg; rewrite !Z.land_nonneg; destruct Hx, Hz; lia|]. intros i Hi.
    by rewrite Z.lxor_spec, !Z.land_spec, (word32_high x), (word32_high z), andb_false_r.
  - intros i Hi. rewrite Z.lxor_spec, !Z.land_spec. unfold wrap. rewrite Z.mod_pow2_bits_low, Z.lnot_spec by lia.
    by destruct (Z.testbit x i), (Z.testbit y i), (Z.testbit z i).
Qed.

Lemma MAJ_eq x y z : word32 x → word32 y → word32 z → MAJ x y z = Maj x y z.
Proof.
  intros Hx Hy Hz. unfold MAJ. apply word32_eq.
  - apply word32_bits; [rewrite !Z.lxor_nonneg, !Z.land_nonneg; destruct Hx, Hy, Hz; lia|]. intros i Hi.
    by rewrite !Z.lxor_spec, !Z.land_spec, (word32_high x), (word32_high y).
  - intros i _. rewrite !Z.lxor_spec, !Z.land_spec. by destruct (Z.testbit x i), (Z.testbit y i), (Z.testbit z i).
Qed.

Lemma sigmas_eq x : word32 x → EP0 x = Sigma0 x ∧ EP1 x = Sigma1 x ∧ SIG0 x = sigma0 x ∧ SIG1 x = sigma1 x.
Proof.
  intros Hx. unfold EP0, EP1, SIG0, SIG1. rewrite !ROTRIGHT_eq, !shiftr_shr by (done || lia).
  rewrite !lxor_xor3 by apply bits_word. done.
Qed.

Lemma lor_shift a (b n : Z) : 0 ≤ n → 0 ≤ b < 2 ^ n → Z.lor (Z.shiftl a n) b = 2 ^ n * a + b.
Proof.
  intros Hn Hb. rewrite Z.shiftl_mul_pow2, (Z.mul_comm a) by lia. rewrite Z.add_nocarry_lxor; [symmetry; apply Z.lxor_lor|].
  all: apply Z.bits_inj'; intros i Hi; rewrite Z.land_spec, Z.bits_0, Z.mul_comm; destruct (Z.ltb_spec i n);
    [by rewrite Z.mul_pow2_bits_low|rewrite (testbit_small b n) by done; apply andb_false_r].
Qed.

Lemma be_number_4 (a b c d : Z) : is_byte a → is_byte b → is_byte c → is_byte d →
  Z.lor (Z.lor (Z.lor (Z.shiftl a 24) (Z.shiftl b 16)) (Z.shiftl c 8)) d = be_number [a; b; c; d] ∧ word32 (be_number [a; b; c; d]).
Proof.
  unfold is_byte, word32. intros Ha Hb Hc Hd. cbn [be_number foldl].
  replace (Z.shiftl b 16) with (Z.shiftl (Z.shiftl b 0) 16) by (by rewrite Z.shiftl_0_r).
  rewrite (Z.shiftl_0_r b), (Z.shiftl_mul_pow2 b), (Z.shiftl_mul_pow2 c) by lia.
  rewrite (lor_shift a (b * 2 ^ 16)) by lia.
  replace (2 ^ 24 * a + b * 2 ^ 16) with (Z.shiftl (2 ^ 8 * a + b) 16) by (rewrite Z.shiftl_mul_pow2 by lia; lia).
  rewrite lor_shift by lia.
  replace (2 ^ 16 * (2 ^ 8 * a + b) + c * 2 ^ 8) with (Z.shiftl (2 ^ 16 * a + 2 ^ 8 * b + c) 8) by (rewrite Z.shiftl_mul_pow2 by lia; lia).
  rewrite lor_shift by lia. lia.
Qed.

Lemma load_word_ok data i : length data = 64%nat → Forall is_byte data → (i < 16)%nat →
  load_word data i = be_number (take 4 (drop (4 * i) data)) ∧ word32 (load_word data i).
Proof.
  intros Hl Hb Hi. assert (∀ j, (j < 4)%nat → data !!! (4 * i + j)%nat = drop (4 * i) data !!! j) as Hd.
  { intros j Hj. by rewrite lookup_total_drop. }
  apply (Forall_drop _ (4 * i)) in Hb. assert (4 ≤ length (drop (4 * i) data))%nat as Hr by (rewrite length_drop; lia).
  pose proof (Hd 0%nat ltac:(lia)) as Hd0. rewrite Nat.add_0_r in Hd0. unfold load_word. rewrite Hd0, !Hd by lia. clear Hd Hd0.
  destruct (drop (4 * i) data) as [|a [|b [|c [|d r]]]]; try (cbn in Hr; lia).
  do 4 (apply Forall_cons in Hb as [? Hb]). destruct (be_number_4 a b c d) as [E Hw]; [done..|].
  cbn. rewrite E. done.
Qed.

Lemma W_words n w : Forall word32 w → Forall word32 (W n w).
Proof.
  intros Hw. induction n as [|n IH]; [done|]. cbn [W]. apply Forall_app_2; [done|]. constructor; [|constructor]. apply Z.mod_pos_bound. lia.
Qed.

Lemma word_lookup w i : Forall word32 w → (i < length w)%nat → word32 (w !!! i).
Proof. intros Hw Hi. apply (Forall_lookup_total_1 _ _ _ Hw Hi). Qed.

Lemma schedule_W n w : length w = 16%nat → Forall word32 w → schedule n w = W n w.
Proof.
  intros Hl Hw. induction n as [|n IH]; [done|]. cbn [schedule W]. rewrite IH. f_equal. f_equal.
  pose proof (length_schedule n w) as Hn. rewrite IH, Hl in Hn. unfold expand_word, wrap.
  assert (∀ i, (i < length (W n w))%nat → word32 (W n w !!! i)) as Hall by (intros i; apply word_lookup; by apply W_words).
  destruct (sigmas_eq (W n w !!! (length (W n w) - 2)%nat)) as (_ & _ & _ & ->); [apply Hall; lia|].
  by destruct (sigmas_eq (W n w !!! (length (W n w) - 15)%nat)) as (_ & _ & -> & _); [apply Hall; lia|].
Qed.

Definition vars_list (v : vars) : list Z := [va v; vb v; vc v; vd v; ve v; vf v; vg v; vh v].

Lemma round_step x y v : Forall word32 (vars_list v) →
  vars_list (round x y v) = step (vars_list v) (x, y) ∧ Forall word32 (vars_list (round x y v)).
Proof.
  destruct v as [a b c d e f g h]. unfold vars_list, round. cbn [va vb vc vd ve vf vg vh step fst snd]. intros Hv. repeat (apply Forall_cons in Hv as [? Hv]).
  destruct (sigmas_eq a) as (-> & _); [done|]. destruct (sigmas_eq e) as (_ & -> & _); [done|].
  rewrite CH_eq, MAJ_eq by done. split; [done|].
  do 8 (apply Forall_cons_2; [first [assumption|apply word32_u32]|]). constructor.
Qed.

Lemma rounds_steps kws : ∀ v, Forall word32 (vars_list v) →
  vars_list (foldl (λ v kw, round kw.1 kw.2 v) v kws) = foldl step (vars_list v) kws.
Proof.
  induction kws as [|[x y] kws IH]; intros v Hv; [done|]. cbn [foldl fst snd]. destruct (round_step x y v Hv) as [E Hw].
  by rewrite IH, E.
Qed.

(** The tables of the code are roots of primes. *)
Lemma tables_eq : sha256_k = K ∧ sha256_h = H0.
Proof. by vm_compute. Qed.

Lemma code_compress_eq h b : length h = 8%nat → Forall word32 h → length b = 64%nat → Forall is_byte b →
  code_compress h b = compress h b ∧ Forall word32 (code_compress h b).
Proof.
  intros Hh Hw Hl Hb. assert (vars_list (load_vars h) = h) as Ev.
  { do 8 (destruct h as [|? h]; [done|]). by destruct h. }
  assert (load_word b <$> seq 0 16 = be_number <$> blocks_of 4 b) as Em.
  { unfold blocks_of. rewrite Hl, <-list_fmap_compose. apply list_fmap_ext. intros j i [-> Hi]%lookup_seq. by apply load_word_ok. }
  assert (Forall word32 (load_word b <$> seq 0 16)) as Hm.
  { apply Forall_fmap, Forall_seq. intros j Hj. apply load_word_ok; [done|done|lia]. }
  split.
  - unfold code_compress, compress, add_vars. rewrite schedule_W by done. rewrite Em, (proj1 tables_eq).
    fold (vars_list (foldl (λ v kw, round kw.1 kw.2 v) (load_vars h) (zip K (W 48 (be_number <$> blocks_of 4 b))))).
    rewrite rounds_steps by (by rewrite Ev). by rewrite Ev.
  - unfold code_compress, add_vars. apply Forall_forall. intros x (i & y & z & -> & _)%elem_of_lookup_zip_with. apply word32_u32.
Qed.

Lemma chain_eq bs : ∀ h, length h = 8%nat → Forall word32 h → Forall (λ b, length b = 64%nat ∧ Forall is_byte b) bs →
  foldl code_compress h bs = foldl compress h bs.
Proof.
  induction bs as [|b bs IH]; intros h Hh Hw Hbs; [done|]. apply Forall_cons in Hbs as [[Hl Hb] Hbs]. cbn [foldl].
  destruct (code_compress_eq h b Hh Hw Hl Hb) as [E Hw']. rewrite IH; [by rewrite E| |done|done]. by apply length_code_compress.
Qed.

Lemma digest_be h : digest h = h ≫= be_bytes 4.
Proof.
  unfold digest. apply list_bind_ext; [|done]. intros x. apply list_fmap_ext. intros j i [-> Hj]%lookup_seq. cbn [Nat.add].
  change 0xff with (Z.ones 8). rewrite shiftr_mask by lia. do 2 f_equal. change 256 with (2 ^ 8). rewrite <-Z.pow_mul_r by lia. f_equal. lia.
Qed.

Lemma pad_bytes l : Forall is_byte l → Forall is_byte (pad l).
Proof.
  intros Hl. unfold pad. apply Forall_app_2; [done|]. constructor; [split; lia|]. apply Forall_app_2.
  - apply Forall_replicate. split; lia.
  - apply Forall_forall. intros x (i & -> & _)%list_elem_of_fmap. apply Z.mod_pos_bound. lia.
Qed.

Lemma blocks_bytes l : Forall is_byte l → Forall (λ b, length b = 64%nat ∧ Forall is_byte b) (blocks l).
Proof.
  intros Hl. apply Forall_fmap, Forall_seq. intros j Hj. split; [|by apply Forall_take, Forall_drop].
  rewrite length_take, length_drop. pose proof (Nat.div_mod_eq (length l) 64). lia.
Qed.

(** The rounds of the code give the hash of the standard to every message of bytes. *)
Lemma whole_hash_eq l : Forall is_byte l → whole_hash l = sha256 l.
Proof.
  intros Hl. unfold whole_hash, sha256. rewrite digest_be, chain_eq, (proj2 tables_eq); [done|done| |by apply blocks_bytes, pad_bytes].
  apply (bool_decide_unpack _). by vm_compute.
Qed.

(** C23. The code hashes: whatever the context and the result array held
    before, absorbing a message of bytes in any number of pieces and finishing
    gives the SHA-256 digest of the whole message, for messages below [2^61]
    bytes.  The digest is that of FIPS 180-4, defined without the code: bits
    for rotations, choice and majority, roots of primes for the constants,
    big-endian numbers for blocks, bit count and digest. *)
Theorem sha256_correct c (pieces : list (list Z)) hash : length (buffer c) = 64%nat → length hash = 32%nat →
  Forall (Forall is_byte) pieces → 8 * Z.of_nat (length (mjoin pieces)) < 2 ^ 64 →
  sha256_final (foldl sha256_update (sha256_init c) pieces) hash = Fips.sha256 (mjoin pieces).
Proof.
  intros Hb Hh Hp Hmax. rewrite <-whole_hash_eq by (by apply Forall_join). apply final_eq; [|done].
  change (mjoin pieces) with ([] ++ mjoin pieces) in *. revert Hmax. generalize (init_absorbed c Hb). generalize (sha256_init c). generalize (@nil Z).
  clear Hp. induction pieces as [|data pieces IH]; intros l c' Hc Hmax; cbn [foldl mjoin list_join] in *; [by rewrite app_nil_r|].
  rewrite app_assoc in *. apply IH; [|done]. apply update_absorbed; [done|]. rewrite !length_app in *. lia.
Qed.

(** Three pieces, the first longer than a block, into a used context. *)
Definition sample_pieces : list (list Z) := [replicate 70 97; []; [98; 99]].

Lemma sha256_correct_witness :
  sha256_final (foldl sha256_update (sha256_init (mk_ctx [1] 5 (replicate 64 0xa5))) sample_pieces) (replicate 32 0xa5) = Fips.sha256 (mjoin sample_pieces).
Proof.
  apply (sha256_correct (mk_ctx [1] 5 (replicate 64 0xa5)) sample_pieces (replicate 32 0xa5)); [done|done| |cbn; lia].
  apply (bool_decide_unpack _). by vm_compute.
Defined.

End Sha256Spec.
