(* ===== verification/User.v ===== *)
(** * User accounts ([misc/user.c])

    The table of accounts, the session and the credentials of the current
    process.  Character arrays are lists of their size; a string argument is
    the bytes before its terminator, [None] is NULL.  What local variables
    hold before they are written is a parameter. *)
From Stdlib Require Import Ascii String.
From S2P Require Import Prelude Sha256.

Module User.
Import Sha256.

Definition chars (s : string) : list Z := (λ c, Z.of_N (N_of_ascii c)) <$> list_ascii_of_string s.

Definition MAX_USERS : nat := 16.
Definition USER_NAME_MAX : nat := 32.
Definition USER_HASH_LEN : nat := 65.
Definition UID_ROOT : Z := 0.
Definition GID_ROOT : Z := 0.
Definition UID_DEFAULT_USER : Z := 1000.
Definition GID_DEFAULT_USER : Z := 1000.

Definition DEFAULT_SALT : list Z := chars "EquantOS_v0.1_SecuritySalt_2026".
Definition hex_digits : list Z := chars "0123456789abcdef".

Record user_account := mk_account {
  uid : Z; gid : Z;
  username : list Z; password_hash : list Z; home_dir : list Z; shell_path : list Z;
  active : bool;
}.

Definition zero_account : user_account :=
  mk_account 0 0 (replicate USER_NAME_MAX 0) (replicate USER_HASH_LEN 0) (replicate 64 0) (replicate 32 0) false.

(** [uid], [gid], [euid] and [egid] of a process. *)
Record creds := mk_creds { c_uid : Z; c_gid : Z; c_euid : Z; c_egid : Z }.

(** The globals, with the credentials of the current process. *)
Record users := mk_users { user_table : list user_account; active_user : option nat; process : option creds }.

Definition set_table t s := mk_users t (active_user s) (process s).
Definition set_active a s := mk_users (user_table s) a (process s).
Definition set_process p s := mk_users (user_table s) (active_user s) p.

(** Strings in arrays: the bytes before the terminator, [strncpy] and
    [snprintf] into an array of its size. *)
Fixpoint cstr (a : list Z) : list Z :=
  match a with [] => [] | x :: a => if x =? 0 then [] else x :: cstr a end.

Definition strncpy (a s : list Z) (n : nat) : list Z := take n s ++ replicate (n - length s) 0 ++ drop n a.
Definition snprintf (a s : list Z) : list Z := let t := take (length a - 1) s in t ++ 0 :: drop (S (length t)) a.

Definition copy_max (a s : list Z) : list Z := strncpy a s (length a - 1).

Section Code.
  (** Uninitialised locals: the context of the hash, the raw hash, the hash
      compared with. *)
  Context (ctx : sha256_ctx) (raw_hash test_hash : list Z).

Definition hex (hash : list Z) : list Z := hash ≫= λ x, [hex_digits !!! Z.to_nat (Z.land (Z.shiftr x 4) 0xf); hex_digits !!! Z.to_nat (Z.land x 0xf)].

Definition user_hash_password (password salt : option (list Z)) (output_hash : list Z) : list Z :=
  match password with
  | None => output_hash
  | Some p =>
      let active_salt := default DEFAULT_SALT salt in
      let c := sha256_update (sha256_update (sha256_init ctx) active_salt) p in
      hex (sha256_final c raw_hash) ++ 0 :: drop USER_HASH_LEN output_hash
  end.

(** The index of the first account that passes a test. *)
Fixpoint find_account (f : user_account → bool) (t : list user_account) : option nat :=
  match t with
  | [] => None
  | u :: t => if f u then Some O else S <$> find_account f t
  end.

Definition user_get_current (s : users) : option nat := active_user s.

Definition user_find_by_name (name : option (list Z)) (s : users) : option nat :=
  name ← name; find_account (λ u, active u && bool_decide (cstr (username u) = name)) (user_table s).

Definition user_find_by_uid (id : Z) (s : users) : option nat := find_account (λ u, active u && (uid u =? id)) (user_table s).

Definition user_is_root (s : users) : bool :=
  match (i ← active_user s; user_table s !! i) with Some u => uid u =? UID_ROOT | None => false end.

(** A pointer into the table is followed, or written through. *)
Definition get_account (i : nat) : M users user_account := deref (λ s, user_table s !! i).
Definition put_account (i : nat) (u : user_account) : M users unit := modify (λ s, set_table (<[i := u]> (user_table s)) s).

Definition fill_account (u : user_account) (name password : list Z) (id g : Z) : user_account :=
  mk_account id g (copy_max (username u) name) (user_hash_password (Some password) (Some DEFAULT_SALT) (password_hash u))
    (snprintf (home_dir u) (chars "/home/" ++ name)) (copy_max (shell_path u) (chars "/bin/sh")) true.

Definition user_add (name password : option (list Z)) (id g : Z) : M users bool :=
  s ← get;
  match name, password with
  | Some n, Some p =>
      if (length n =? 0)%nat then mret false else
      match user_find_by_name name s, user_find_by_uid id s with
      | None, None =>
          match find_account (λ u, negb (active u)) (user_table s) with
          | None => mret false
          | Some i => u ← get_account i; put_account i (fill_account u n p id g);; mret true
          end
      | _, _ => mret false
      end
  | _, _ => mret false
  end.

Definition user_set_password (name password : option (list Z)) : M users bool :=
  s ← get;
  match user_find_by_name name s with
  | None => mret false
  | Some i =>
      u ← get_account i;
      put_account i (mk_account (uid u) (gid u) (username u) (user_hash_password password (Some DEFAULT_SALT) (password_hash u)) (home_dir u) (shell_path u) (active u));;
      mret true
  end.

Definition user_authenticate (name password : option (list Z)) : M users bool :=
  s ← get;
  match user_find_by_name name s with
  | None => mret false
  | Some i =>
      u ← get_account i;
      mret (bool_decide (cstr (password_hash u) = cstr (user_hash_password password (Some DEFAULT_SALT) test_hash)))
  end.

Definition sync_current_task_credentials : M users unit :=
  s ← get;
  match process s, active_user s with
  | Some _, Some i => u ← get_account i; modify (set_process (Some (mk_creds (uid u) (gid u) (uid u) (gid u))))
  | _, _ => mret tt
  end.

Definition switch_to (target : option nat) : M users unit := modify (set_active target);; sync_current_task_credentials.

Definition user_switch (name password : option (list Z)) : M users bool :=
  match name, password with
  | Some _, Some _ =>
      s ← get;
      if user_is_root s then
        match user_find_by_name name s with
        | None => mret false
        | Some i => switch_to (Some i);; mret true
        end
      else
        ok ← user_authenticate name password;
        if negb ok then mret false else
        s ← get;
        switch_to (user_find_by_name name s);; mret true
  | _, _ => mret false
  end.

Definition user_switch_force (id : Z) : M users bool :=
  s ← get;
  match user_find_by_uid id s with
  | None => mret false
  | Some i => switch_to (Some i);; mret true
  end.

(** [strncpy] of a home directory and a shell into an account, if there is one. *)
Definition set_dirs (id : Z) (home : list Z) : M users (option nat) :=
  s ← get;
  match user_find_by_uid id s with
  | None => mret None
  | Some i =>
      u ← get_account i;
      put_account i (mk_account (uid u) (gid u) (username u) (password_hash u) (copy_max (home_dir u) home) (copy_max (shell_path u) (chars "/bin/sh")) (active u));;
      mret (Some i)
  end.

Definition user_subsys_init : M users unit :=
  modify (set_table (replicate MAX_USERS zero_account));;
  user_add (Some (chars "root")) (Some (chars "root")) UID_ROOT GID_ROOT;;
  root ← set_dirs UID_ROOT (chars "/root");
  user_add (Some (chars "default")) (Some (chars "default")) UID_DEFAULT_USER GID_DEFAULT_USER;;
  set_dirs UID_DEFAULT_USER (chars "/home/default");;
  modify (set_active root);;
  s ← get;
  match process s with
  | None => mret tt
  | Some _ => i ← deref (λ _ : users, root); u ← get_account i; modify (set_process (Some (mk_creds (uid u) (gid u) (uid u) (gid u))))
  end.

End Code.
End User.
