(* ===== verification/UserSpec.v ===== *)
(** * Accounts without arrays

    The table of accounts refines a list of entries with names, numbers and
    password digests: adding, changing a password, authenticating and
    switching do to the table what they should do to the list.  A password is
    accepted exactly when its salted SHA-256 digest is the stored one. *)
From Stdlib Require Import Ascii String.
From S2P Require Import Prelude Fips180 Sha256 Sha256Spec User.

Module UserSpec.
Import Sha256 Sha256Spec User.

(** ** Strings *)

Definition is_str (s : list Z) : Prop := Forall (λ x, x ≠ 0) s.

#[global] Instance is_str_dec s : Decision (is_str s).
Proof. unfold is_str. apply _. Defined.

Lemma cstr_app_zero s r : is_str s → cstr (s ++ 0 :: r) = s.
Proof. induction 1 as [|x s Hx _ IH]; [done|]. cbn. by rewrite (proj2 (Z.eqb_neq x 0) Hx), IH. Qed.

Lemma is_str_take n s : is_str s → is_str (take n s).
Proof. apply Forall_take. Qed.

Lemma cstr_copy_zero n s : is_str s → cstr (copy_max (replicate (S n) 0) s) = take n s.
Proof.
  intros Hs. unfold copy_max, strncpy. rewrite length_replicate, Nat.sub_succ, Nat.sub_0_r, drop_replicate. replace (S n - n)%nat with 1%nat by lia.
  destruct (n - length s)%nat; cbn [replicate app]; by apply cstr_app_zero, is_str_take.
Qed.

Lemma cstr_copy_short a s : is_str s → (length s < length a - 1)%nat → cstr (copy_max a s) = s.
Proof.
  intros Hs Hl. unfold copy_max, strncpy. rewrite take_ge by lia. destruct (length a - 1 - length s)%nat as [|k] eqn:E; [lia|]. cbn [replicate app]. by apply cstr_app_zero.
Qed.

Lemma length_copy_max a s : (1 ≤ length a)%nat → length (copy_max a s) = length a.
Proof. intros Ha. unfold copy_max, strncpy. rewrite !length_app, length_take, length_replicate, length_drop. lia. Qed.

Lemma cstr_snprintf a s : is_str s → cstr (snprintf a s) = take (length a - 1) s.
Proof. intros Hs. unfold snprintf. by apply cstr_app_zero, is_str_take. Qed.

Lemma length_snprintf a s : (1 ≤ length a)%nat → length (snprintf a s) = length a.
Proof. intros Ha. unfold snprintf. rewrite length_app. cbn [length]. rewrite length_drop, length_take. lia. Qed.

(** ** Digests *)

Abbreviation is_byte := Fips.is_byte.

Definition hex2 (x : Z) : list Z := [hex_digits !!! Z.to_nat (Z.land (Z.shiftr x 4) 0xf); hex_digits !!! Z.to_nat (Z.land x 0xf)].
Definition unhex (c : Z) : Z := if c <? 97 then c - 48 else c - 87.
Definition unhex2 (l : list Z) : Z := match l with [a; b] => 16 * unhex a + unhex b | _ => 0 end.

Lemma hex2_ok x : is_byte x → unhex2 (hex2 x) = x ∧ is_str (hex2 x).
Proof.
  intros Hx. assert (Forall (λ x, unhex2 (hex2 x) = x ∧ is_str (hex2 x)) (seqZ 0 256)) as Hall by (apply (bool_decide_unpack _); by vm_compute).
  rewrite Forall_forall in Hall. apply Hall, elem_of_seqZ. unfold is_byte in Hx. lia.
Qed.

Lemma hex_cons x l : hex (x :: l) = hex2 x ++ hex l.
Proof. done. Qed.

Lemma length_hex l : length (hex l) = (2 * length l)%nat.
Proof. induction l as [|x l IH]; [done|]. rewrite hex_cons, length_app, IH. cbn. lia. Qed.

Lemma hex_str l : Forall is_byte l → is_str (hex l).
Proof. induction 1 as [|x l Hx _ IH]; [constructor|]. rewrite hex_cons. apply Forall_app_2; [by apply hex2_ok|done]. Qed.

Lemma hex_inj l : ∀ r, Forall is_byte l → Forall is_byte r → hex l = hex r → l = r.
Proof.
  induction l as [|x l IH]; intros [|y r] Hl Hr E; [done|by apply (f_equal length) in E; rewrite !length_hex in E..|]. apply Forall_cons in Hl as [Hx Hl]. apply Forall_cons in Hr as [Hy Hr]. rewrite !hex_cons in E.
  apply app_inj_1 in E as [E1 E2]; [|done]. f_equal; [|by apply IH]. by rewrite <-(proj1 (hex2_ok x Hx)), E1, (proj1 (hex2_ok y Hy)).
Qed.

Lemma digest_bytes h : Forall is_byte (digest h).
Proof.
  apply Forall_forall. intros x (y&Hx&_)%list_elem_of_bind. apply list_elem_of_fmap in Hx as (j&->&_).
  change 0xff with (Z.ones 8). rewrite Z.land_ones by lia. apply Z.mod_pos_bound. lia.
Qed.

Lemma length_digest h : length (digest h) = (4 * length h)%nat.
Proof. unfold digest. induction h as [|x h IH]; [done|]. cbn [mbind list_bind]. rewrite length_app, IH. cbn. lia. Qed.

(** The digest of a password: its hash after the salt, which is the SHA-256
    digest of the standard ([password_digest_standard]). *)
Definition password_digest (p : list Z) : list Z := whole_hash (DEFAULT_SALT ++ p).

Lemma password_digest_standard p : Forall is_byte p → password_digest p = Fips.sha256 (DEFAULT_SALT ++ p).
Proof.
  intros Hp. apply whole_hash_eq, Forall_app_2; [|done]. apply (bool_decide_unpack _). by vm_compute.
Qed.

Lemma length_password_digest p : length (password_digest p) = 32%nat.
Proof. unfold password_digest, whole_hash. by rewrite length_digest, length_chain. Qed.

(** A password short enough for the bit count of the hash. *)
Definition short_enough (p : list Z) : Prop := Z.of_nat (length p) < 2 ^ 60.

Lemma hash_password_eq ctx raw p out : length (buffer ctx) = 64%nat → length raw = 32%nat → short_enough p →
  user_hash_password ctx raw (Some p) (Some DEFAULT_SALT) out = hex (password_digest p) ++ 0 :: drop USER_HASH_LEN out.
Proof.
  intros Hc Hr Hp. unfold user_hash_password. cbn [default]. rewrite (final_eq _ (DEFAULT_SALT ++ p)); [done| |done].
  apply update_absorbed; [apply (update_absorbed _ _ []); [by apply init_absorbed|done]|]. rewrite length_app. change (length DEFAULT_SALT) with 31%nat. unfold short_enough in Hp. lia.
Qed.

(** ** The machine *)

Record entry := mk_entry { e_name : list Z; e_uid : Z; e_gid : Z; e_digest : list Z; e_home : list Z }.
Record session := mk_session { entries : list entry; who : option nat; held : option creds }.

Inductive call :=
  | Add (name password : option (list Z)) (id g : Z)
  | SetPassword (name password : option (list Z))
  | Authenticate (name : option (list Z)) (password : list Z)
  | Switch (name password : option (list Z))
  | SwitchForce (id : Z).

Fixpoint find_entry (f : entry → bool) (l : list entry) : option nat :=
  match l with [] => None | e :: l => if f e then Some O else S <$> find_entry f l end.

Definition named (name : option (list Z)) (a : session) : option nat := n ← name; find_entry (λ e, bool_decide (e_name e = n)) (entries a).
Definition numbered (id : Z) (a : session) : option nat := find_entry (λ e, e_uid e =? id) (entries a).

Definition is_root (a : session) : bool := match (i ← who a; entries a !! i) with Some e => e_uid e =? UID_ROOT | None => false end.

Definition accepts (name : option (list Z)) (p : list Z) (a : session) : bool :=
  match (i ← named name a; entries a !! i) with Some e => bool_decide (e_digest e = password_digest p) | None => false end.

(** A session of another user: the process gets the numbers of the account. *)
Definition log_in (i : nat) (a : session) : session :=
  mk_session (entries a) (Some i)
    (match held a, entries a !! i with Some _, Some e => Some (mk_creds (e_uid e) (e_gid e) (e_uid e) (e_gid e)) | h, _ => h end).

Definition new_digest (d : list Z) (e : entry) : entry := mk_entry (e_name e) (e_uid e) (e_gid e) d (e_home e).
Definition set_entries l (a : session) : session := mk_session l (who a) (held a).

Definition spec (c : call) (a : session) : session * bool :=
  match c with
  | Add (Some n) (Some p) id g =>
      if bool_decide (n = []) || bool_decide (is_Some (named (Some n) a)) || bool_decide (is_Some (numbered id a)) || (MAX_USERS <=? length (entries a))%nat then (a, false)
      else (set_entries (entries a ++ [mk_entry (take 31 n) id g (password_digest p) (take 63 (chars "/home/" ++ n))]) a, true)
  | Add _ _ _ _ => (a, false)
  | SetPassword name p =>
      match named name a, p with
      | None, _ => (a, false)
      | Some _, None => (a, true)
      | Some i, Some p => (set_entries (alter (new_digest (password_digest p)) i (entries a)) a, true)
      end
  | Authenticate name p => (a, accepts name p a)
  | Switch (Some n) (Some p) =>
      match named (Some n) a with
      | Some i => if is_root a || accepts (Some n) p a then (log_in i a, true) else (a, false)
      | None => (a, false)
      end
  | Switch _ _ => (a, false)
  | SwitchForce id => match numbered id a with Some i => (log_in i a, true) | None => (a, false) end
  end.

(** Names and passwords are C strings. *)
Definition valid (c : call) : Prop :=
  let str o := match o with Some s => is_str s ∧ short_enough s | None => True end in
  match c with
  | Add n p _ _ | SetPassword n p | Switch n p => str n ∧ str p
  | Authenticate n p => str n ∧ str (Some p)
  | SwitchForce _ => True
  end.

(** ** The table against the machine *)

Record is_entry (u : user_account) (e : entry) : Prop := {
  ie_active : active u = true;
  ie_uid : uid u = e_uid e;
  ie_gid : gid u = e_gid e;
  ie_name : cstr (username u) = e_name e;
  ie_hash : password_hash u = hex (e_digest e) ++ [0];
  ie_bytes : Forall is_byte (e_digest e);
  ie_len : length (e_digest e) = 32%nat;
  ie_home : cstr (home_dir u) = e_home e;
  ie_home_len : length (home_dir u) = 64%nat;
  ie_shell : cstr (shell_path u) = chars "/bin/sh";
  ie_shell_len : length (shell_path u) = 32%nat;
}.

Record related (s : users) (a : session) : Prop := {
  re_table : ∃ l, user_table s = l ++ replicate (MAX_USERS - length l) zero_account ∧ (length l ≤ MAX_USERS)%nat ∧ Forall2 is_entry l (entries a);
  re_uids : NoDup (e_uid <$> entries a);
  re_who : active_user s = who a;
  re_in i : who a = Some i → (i < length (entries a))%nat;
  re_held : process s = held a;
}.

Lemma find_account_rest f n : f zero_account = false → find_account f (replicate n zero_account) = None.
Proof. intros Hf. induction n as [|n IH]; [done|]. cbn. by rewrite Hf, IH. Qed.

Lemma find_account_app f l r : find_account f r = None → find_account f (l ++ r) = find_account f l.
Proof. intros Hr. induction l as [|u l IH]; [done|]. cbn. by rewrite IH. Qed.

Lemma find_account_entries f g l es : Forall2 is_entry l es → (∀ u e, is_entry u e → f u = g e) → find_account f l = find_entry g es.
Proof. intros Hl Hf. induction Hl as [|u e l es Hu Hl IH]; [done|]. cbn. by rewrite (Hf u e Hu), IH. Qed.

Lemma find_entry_lt f l i : find_entry f l = Some i → (i < length l)%nat.
Proof.
  revert i. induction l as [|e l IH]; intros i Hi; [done|]. cbn in Hi. destruct (f e); [injection Hi as <-; cbn; lia|].
  apply fmap_Some in Hi as (j&Hj&->). apply IH in Hj. cbn. lia.
Qed.

Lemma named_eq s a n : related s a → user_find_by_name n s = named n a.
Proof.
  intros [(l&Ht&Hl&Hes) _ _ _ _]. unfold user_find_by_name, named. destruct n as [n|]; [cbn|done]. rewrite Ht, find_account_app by (by apply find_account_rest).
  apply find_account_entries with (1 := Hes). intros u e Hu. rewrite (ie_active _ _ Hu), (ie_name _ _ Hu). done.
Qed.

Lemma numbered_eq s a id : related s a → user_find_by_uid id s = numbered id a.
Proof.
  intros [(l&Ht&Hl&Hes) _ _ _ _]. unfold user_find_by_uid, numbered. rewrite Ht, find_account_app by (by apply find_account_rest).
  apply find_account_entries with (1 := Hes). intros u e Hu. rewrite (ie_active _ _ Hu), (ie_uid _ _ Hu). done.
Qed.

(** An entry of the machine is an account of the table. *)
Lemma account_of s a i : related s a → (i < length (entries a))%nat → ∃ u e, user_table s !! i = Some u ∧ entries a !! i = Some e ∧ is_entry u e.
Proof.
  intros [(l&Ht&Hl&Hes) _ _ _ _] Hi. destruct (lookup_lt_is_Some_2 _ _ Hi) as [e He]. destruct (Forall2_lookup_r _ _ _ _ _ Hes He) as (u&Hu&Hue).
  exists u, e. rewrite Ht. split; [|done]. rewrite lookup_app_l; [done|]. by eapply lookup_lt_Some.
Qed.

Lemma is_root_eq s a : related s a → user_is_root s = is_root a.
Proof.
  intros Hr. unfold user_is_root, is_root. rewrite (re_who _ _ Hr). destruct (who a) as [i|] eqn:Hw; [cbn|done].
  destruct (account_of s a i Hr (re_in _ _ Hr i Hw)) as (u&e&->&->&Hue). by rewrite (ie_uid _ _ Hue).
Qed.

(** ** The calls *)

Lemma alter_insert_list {A} (f : A → A) i (l : list A) x : l !! i = Some x → alter f i l = <[i := f x]> l.
Proof. revert i. induction l as [|y l IH]; intros [|i] Hi; [done..| |]; [by injection Hi as ->|]. change (y :: alter f i l = y :: <[i := f x]> l). by rewrite (IH i Hi). Qed.

Lemma put_related s a i u e e' : related s a → entries a !! i = Some e → is_entry u e' → e_uid e' = e_uid e →
  related (set_table (<[i := u]> (user_table s)) s) (set_entries (<[i := e']> (entries a)) a).
Proof.
  intros [(l&Ht&Hl&Hes) Hnd Hw Hin Hp] Hi Hu Hid. assert (i < length l)%nat as Hlt by (rewrite (Forall2_length _ _ _ Hes); by eapply lookup_lt_Some).
  split; cbn [set_table set_entries user_table active_user process entries who held]; [|..|done].
  - exists (<[i := u]> l). rewrite Ht, insert_app_l, length_insert by done. split; [done|]. split; [done|]. by apply Forall2_insert.
  - rewrite list_fmap_insert, list_insert_id; [done|]. by rewrite list_lookup_fmap, Hi, Hid.
  - done.
  - intros j Hj. rewrite length_insert. by apply Hin.
Qed.

Lemma find_entry_none f l : find_entry f l = None → Forall (λ e, f e = false) l.
Proof. induction l as [|e l IH]; [done|]. cbn. destruct (f e) eqn:E; [done|]. intros Hn%fmap_None. constructor; [done|]. by apply IH. Qed.

Lemma find_free l es n : Forall2 is_entry l es → find_account (λ u, negb (active u)) (l ++ replicate n zero_account) = match n with O => None | S _ => Some (length l) end.
Proof.
  induction 1 as [|u e l es Hu _ IH]; [by destruct n|]. cbn. rewrite (ie_active _ _ Hu), IH. by destruct n.
Qed.

(** A new account at the end of the entries. *)
Lemma append_related s a u e : related s a → is_entry u e → (length (entries a) < MAX_USERS)%nat → numbered (e_uid e) a = None →
  related (set_table (<[length (entries a) := u]> (user_table s)) s) (set_entries (entries a ++ [e]) a).
Proof.
  intros [(l&Ht&Hl&Hes) Hnd Hw Hin Hp] Hu Hroom Hid. pose proof (Forall2_length _ _ _ Hes) as Hlen.
  split; cbn [set_table set_entries user_table active_user process entries who held]; [|..|done].
  - exists (l ++ [u]). rewrite Ht, insert_app_r_alt, <-Hlen, Nat.sub_diag, length_app by lia. cbn [length]. replace (MAX_USERS - length l)%nat with (S (MAX_USERS - (length l + 1))) by lia.
    cbn. rewrite <-app_assoc. split; [done|]. split; [lia|]. apply Forall2_app; [done|]. by apply Forall2_cons.
  - rewrite fmap_app. apply NoDup_app. split; [done|]. split; [|apply NoDup_singleton]. intros x Hx ->%list_elem_of_singleton. apply list_elem_of_fmap in Hx as (e'&E&He').
    apply find_entry_none in Hid. rewrite Forall_forall in Hid. specialize (Hid e' He'). cbn in Hid. rewrite E, Z.eqb_refl in Hid. done.
  - done.
  - intros j Hj. rewrite length_app. specialize (Hin j Hj). lia.
Qed.

Lemma zero_related s : active_user s = None → related (set_table (replicate MAX_USERS zero_account) s) (mk_session [] None (process s)).
Proof. intros Hs. split; [|constructor|done|done|done]. exists []. split; [done|]. split; [cbn; lia|constructor]. Qed.

Lemma str_lit (x : string) : bool_decide (is_str (chars x)) = true → is_str (chars x).
Proof. apply bool_decide_eq_true_1. Qed.

Section Refine.
  Context (ctx : sha256_ctx) (raw_hash test_hash : list Z).
  Hypotheses (Hctx : length (buffer ctx) = 64%nat) (Hraw : length raw_hash = 32%nat) (Htest : length test_hash = USER_HASH_LEN).

Definition run (c : call) : M users bool :=
  match c with
  | Add n p id g => user_add ctx raw_hash n p id g
  | SetPassword n p => user_set_password ctx raw_hash n p
  | Authenticate n p => user_authenticate ctx raw_hash test_hash n (Some p)
  | Switch n p => user_switch ctx raw_hash test_hash n p
  | SwitchForce id => user_switch_force id
  end.

Definition meets (x : session * bool) (r : bool) (s : users) : Prop := related s x.1 ∧ r = x.2.

Lemma hash_eq p out : short_enough p → length out = USER_HASH_LEN → user_hash_password ctx raw_hash (Some p) (Some DEFAULT_SALT) out = hex (password_digest p) ++ [0].
Proof. intros Hp Ho. rewrite hash_password_eq by done. by rewrite drop_ge by lia. Qed.

Lemma home_str n : is_str n → is_str (chars "/home/" ++ n).
Proof. intros Hn. apply Forall_app_2; [apply (bool_decide_unpack _); by vm_compute|done]. Qed.

Lemma fill_is_entry n p id g : is_str n → short_enough p →
  is_entry (fill_account ctx raw_hash zero_account n p id g) (mk_entry (take 31 n) id g (password_digest p) (take 63 (chars "/home/" ++ n))).
Proof.
  intros Hn Hp. split; cbn [fill_account active uid gid username password_hash home_dir shell_path e_name e_uid e_gid e_digest e_home]; [done..| | | | | | | |].
  - by apply cstr_copy_zero.
  - by apply hash_eq.
  - apply digest_bytes.
  - apply length_password_digest.
  - rewrite cstr_snprintf by by apply home_str. done.
  - rewrite length_snprintf; [done|cbn; lia].
  - by vm_compute.
  - rewrite length_copy_max; [done|cbn; lia].
Qed.

Lemma add_meets s a n p id g : related s a → is_str n → short_enough p → wp (run (Add (Some n) (Some p) id g)) s (meets (spec (Add (Some n) (Some p) id g) a)).
Proof.
  intros Hr Hn Hp. cbn [run spec]. apply wp_bind, wp_get. rewrite (named_eq s a _ Hr), (numbered_eq s a _ Hr). destruct n as [|x n].
  { rewrite bool_decide_true by done. by apply wp_ret. }
  rewrite (bool_decide_false (x :: n = [])) by done. cbn [length Nat.eqb orb]. destruct (named (Some (x :: n)) a) as [j|] eqn:En; [by rewrite bool_decide_true by eauto; apply wp_ret|]. rewrite (bool_decide_false (is_Some None)) by by intros [].
  destruct (numbered id a) as [j|] eqn:Ei; [by rewrite bool_decide_true by eauto; apply wp_ret|]. rewrite (bool_decide_false (is_Some None)) by by intros []. cbn [orb].
  pose proof Hr as [(l&Ht&Hl&Hes) _ _ _ _]. pose proof (Forall2_length _ _ _ Hes) as Hlen. rewrite Ht at 1. rewrite (find_free l _ _ Hes). rewrite <-Hlen.
  destruct (Nat.leb_spec MAX_USERS (length l)) as [Hfull|Hroom].
  - replace (MAX_USERS - length l)%nat with 0%nat by lia. by apply wp_ret.
  - destruct (MAX_USERS - length l)%nat as [|m] eqn:Em; [lia|]. apply wp_bind. eapply wp_deref; [rewrite Ht, lookup_app_r, Nat.sub_diag by done; done|]. apply wp_bind, wp_modify, wp_ret. split; [|done]. cbn [fst].
    rewrite Hlen. apply append_related; [done|by apply fill_is_entry|lia|done].
Qed.

Lemma named_lt n a i : named n a = Some i → (i < length (entries a))%nat.
Proof. unfold named. intros (m&_&Hi)%bind_Some. by eapply find_entry_lt. Qed.

Lemma set_password_meets s a n p : related s a → valid (SetPassword n p) → wp (run (SetPassword n p)) s (meets (spec (SetPassword n p) a)).
Proof.
  intros Hr [_ Hp]. cbn [run spec]. apply wp_bind, wp_get. rewrite (named_eq s a _ Hr). destruct (named n a) as [i|] eqn:Ei; [|by apply wp_ret].
  destruct (account_of s a i Hr (named_lt _ _ _ Ei)) as (u&e&Hu&He&Hue). apply wp_bind. eapply wp_deref; [done|]. apply wp_bind, wp_modify, wp_ret.
  destruct p as [p|]; (split; [|done]); cbn [fst].
  - destruct Hp as [_ Hp]. rewrite (alter_insert_list _ _ _ e He). apply put_related with e; [done..| |done]. destruct Hue.
    split; cbn [active uid gid username password_hash home_dir shell_path new_digest e_name e_uid e_gid e_digest e_home]; try done; [|apply digest_bytes|apply length_password_digest].
    apply hash_eq; [done|]. rewrite ie_hash0, length_app, length_hex, ie_len0. done.
  - cbn [user_hash_password]. rewrite list_insert_id by by rewrite Hu; destruct u. by destruct s.
Qed.

Lemma authenticate_meets s a n p : related s a → valid (Authenticate n p) → wp (run (Authenticate n p)) s (λ r s', s' = s ∧ r = accepts n p a).
Proof.
  intros Hr (_&_&Hp). cbn [run]. apply wp_bind, wp_get. rewrite (named_eq s a _ Hr). unfold accepts. destruct (named n a) as [i|] eqn:Ei; [|by apply wp_ret]. cbn [mbind option_bind].
  destruct (account_of s a i Hr (named_lt _ _ _ Ei)) as (u&e&Hu&He&Hue). rewrite He. apply wp_bind. eapply wp_deref; [done|]. apply wp_ret. split; [done|]. rewrite hash_eq, (ie_hash _ _ Hue) by done.
  rewrite !cstr_app_zero by (apply hex_str; first [apply (ie_bytes _ _ Hue)|apply digest_bytes]). apply bool_decide_ext. split; [|by intros ->].
  apply hex_inj; [apply (ie_bytes _ _ Hue)|apply digest_bytes].
Qed.

Lemma switch_to_related s a i : related s a → (i < length (entries a))%nat → wp (switch_to (Some i)) s (λ _ s', related s' (log_in i a)).
Proof.
  intros Hr Hi. destruct (account_of s a i Hr Hi) as (u&e&Hu&He&Hue). apply wp_bind, wp_modify, wp_bind, wp_get. unfold log_in. rewrite He. destruct Hr as [Ht Hnd Hw Hin Hp]. cbn [set_active active_user process]. rewrite <-Hp.
  destruct (process s) as [c|] eqn:Ep.
  - apply wp_bind. eapply wp_deref; [done|]. apply wp_modify. rewrite (ie_uid _ _ Hue), (ie_gid _ _ Hue). split; cbn [set_process set_active user_table active_user process entries who held]; [done..| |done]. by intros j [= <-].
  - apply wp_ret. split; cbn [set_process set_active user_table active_user process entries who held]; [done..| |done]. by intros j [= <-].
Qed.

Lemma switch_meets s a n p : related s a → valid (Switch n p) → wp (run (Switch n p)) s (meets (spec (Switch n p) a)).
Proof.
  intros Hr Hv. destruct n as [n|]; [|by apply wp_ret]. destruct p as [p|]; [|by apply wp_ret]. cbn [run spec user_switch]. apply wp_bind, wp_get. rewrite (is_root_eq s a Hr).
  destruct (is_root a); cbn [orb].
  - rewrite (named_eq s a _ Hr). destruct (named (Some n) a) as [i|] eqn:Ei; [|by apply wp_ret]. apply wp_bind. eapply wp_mono; [by apply (switch_to_related s a i); [|eapply named_lt]|]. intros [] s' Hr'. by apply wp_ret.
  - apply wp_bind. eapply wp_mono; [by apply (authenticate_meets s a (Some n) p)|]. intros ok s' [-> ->]. destruct (named (Some n) a) as [i|] eqn:Ei.
    + destruct (accepts (Some n) p a); cbn [negb]; [|by apply wp_ret]. apply wp_bind, wp_get. rewrite (named_eq s a _ Hr), Ei. apply wp_bind. eapply wp_mono; [by apply (switch_to_related s a i); [|eapply named_lt]|]. intros [] s' Hr'. by apply wp_ret.
    + unfold accepts. rewrite Ei. by apply wp_ret.
Qed.

(** *** Boot *)

Definition new_home (h : list Z) (e : entry) : entry := mk_entry (e_name e) (e_uid e) (e_gid e) (e_digest e) h.

Lemma set_dirs_related s a id home i e : related s a → numbered id a = Some i → entries a !! i = Some e → is_str home → (length home < 63)%nat →
  wp (set_dirs id home) s (λ r s', r = Some i ∧ related s' (set_entries (<[i := new_home home e]> (entries a)) a)).
Proof.
  intros Hr Hi He Hs Hl. apply wp_bind, wp_get. rewrite (numbered_eq s a _ Hr), Hi. destruct (account_of s a i Hr) as (u&e'&Hu&He'&Hue); [by eapply lookup_lt_Some|]. assert (e' = e) as -> by congruence.
  apply wp_bind. eapply wp_deref; [done|]. apply wp_bind, wp_modify, wp_ret. split; [done|]. apply put_related with e; [done..| |done]. destruct Hue.
  split; cbn [active uid gid username password_hash home_dir shell_path new_home e_name e_uid e_gid e_digest e_home]; try done.
  - apply cstr_copy_short; [done|lia].
  - rewrite length_copy_max; lia.
  - apply cstr_copy_short; [apply (bool_decide_unpack _); by vm_compute|]. rewrite ie_shell_len0. change (length (chars "/bin/sh")) with 7%nat. lia.
  - rewrite length_copy_max; lia.
Qed.

Definition root_entry : entry := mk_entry (chars "root") UID_ROOT GID_ROOT (password_digest (chars "root")) (chars "/root").
Definition default_entry : entry := mk_entry (chars "default") UID_DEFAULT_USER GID_DEFAULT_USER (password_digest (chars "default")) (chars "/home/default").

(** The session at boot: two accounts, the superuser logged in. *)
Definition boot_session (h : option creds) : session := mk_session [root_entry; default_entry] (Some O) ((λ _, mk_creds 0 0 0 0) <$> h).

Lemma user_init_related s : active_user s = None → wp (user_subsys_init ctx raw_hash) s (λ _ s', related s' (boot_session (process s))).
Proof.
  intros Hs. apply wp_bind, wp_modify. pose proof (zero_related s Hs) as H0. set (p := process s) in *. clearbody p.
  set (a1 := mk_session [new_home (chars "/home/root") root_entry] None p). set (a2 := mk_session [root_entry] None p).
  set (a3 := mk_session [root_entry; default_entry] None p).
  apply wp_bind. eapply wp_mono; [apply (add_meets _ _ (chars "root") (chars "root") UID_ROOT GID_ROOT H0); [by apply str_lit|done]|]. intros r1 s1 [H1 _]. change (related s1 a1) in H1.
  apply wp_bind. eapply wp_mono; [apply (set_dirs_related s1 a1 UID_ROOT (chars "/root") 0 _ H1 eq_refl eq_refl); [by apply str_lit|cbn; lia]|]. intros r2 s2 [-> H2]. change (related s2 a2) in H2.
  apply wp_bind. eapply wp_mono; [apply (add_meets _ _ (chars "default") (chars "default") UID_DEFAULT_USER GID_DEFAULT_USER H2); [by apply str_lit|done]|]. intros r3 s3 [H3 _]. change (related s3 a3) in H3.
  apply wp_bind. eapply wp_mono; [apply (set_dirs_related s3 a3 UID_DEFAULT_USER (chars "/home/default") 1 _ H3 eq_refl eq_refl); [by apply str_lit|cbn; lia]|]. intros r4 s4 [_ H4]. change (related s4 a3) in H4.
  apply wp_bind, wp_modify, wp_bind, wp_get. destruct (account_of s4 a3 0 H4) as (u&e&Hu&He&Hue); [cbn; lia|]. injection He as <-. destruct H4 as [Ht Hnd Hw Hin Hp]. cbn [set_active process] in *. destruct (process s4) as [c|] eqn:Ep; cbn [a3 held] in Hp; subst p.
  - apply wp_bind. eapply wp_deref; [done|]. apply wp_bind. eapply wp_deref; [done|]. apply wp_modify. rewrite (ie_uid _ _ Hue), (ie_gid _ _ Hue). split; [done..| |done]. intros j [= <-]. cbn. lia.
  - apply wp_ret. split; [done..| |exact Ep]. intros j [= <-]. cbn. lia.
Qed.

(** The machine through a sequence of calls: its answers and its end. *)
Fixpoint spec_all (cs : list call) (a : session) : list bool * session :=
  match cs with
  | [] => ([], a)
  | c :: cs => let '(rs, a') := spec_all cs (spec c a).1 in ((spec c a).2 :: rs, a')
  end.

Fixpoint run_all (cs : list call) : M users (list bool) :=
  match cs with [] => mret [] | c :: cs => r ← run c; rs ← run_all cs; mret (r :: rs) end.

Lemma run_meets c s a : related s a → valid c → wp (run c) s (meets (spec c a)).
Proof.
  intros Hr Hv. destruct c as [n p id g|n p|n p|n p|id].
  - destruct n as [n|], p as [p|]; [|by apply wp_ret..]. destruct Hv as [[Hn _] [_ Hp]]. by apply add_meets.
  - by apply set_password_meets.
  - eapply wp_mono; [by apply authenticate_meets|]. by intros r s' [-> ->].
  - by apply switch_meets.
  - cbn [run spec]. apply wp_bind, wp_get. rewrite (numbered_eq s a _ Hr). destruct (numbered id a) as [i|] eqn:Ei; [|by apply wp_ret].
    apply wp_bind. eapply wp_mono; [by apply (switch_to_related s a i); [|eapply find_entry_lt]|]. intros [] s' Hr'. by apply wp_ret.
Qed.

Lemma run_all_meets cs : ∀ s a, related s a → Forall valid cs → wp (run_all cs) s (λ rs s', rs = (spec_all cs a).1 ∧ related s' (spec_all cs a).2).
Proof.
  induction cs as [|c cs IH]; intros s a Hr Hv; [by apply wp_ret|]. apply Forall_cons in Hv as [Hc Hv]. apply wp_bind. eapply wp_mono; [by apply run_meets|].
  intros r s1 [Hr1 ->]. apply wp_bind. eapply wp_mono; [by apply IH|]. intros rs s2 [-> Hr2]. apply wp_ret. cbn [spec_all]. by destruct (spec_all cs (spec c a).1).
Qed.

(** C24. From boot on, through any sequence of calls, the accounts answer as
    the machine does and no call faults: an account is added only with a new
    name and number while there is room, its name cut to 31 bytes; a password
    is accepted exactly when its salted SHA-256 digest is the stored one; only
    the superuser changes the session without a password, and the process
    gets the numbers of the account.  Set-up leaves the superuser, logged in,
    and the default user. *)
Theorem user_sessions (cs : list call) s : active_user s = None → Forall valid cs →
  ∃ s0 s1, user_subsys_init ctx raw_hash s = Ret (tt, s0) ∧ related s0 (boot_session (process s)) ∧
    run_all cs s0 = Ret ((spec_all cs (boot_session (process s))).1, s1) ∧ related s1 (spec_all cs (boot_session (process s))).2.
Proof.
  intros Hs Hv. destruct (wp_run _ _ _ (user_init_related s Hs)) as ([]&s0&E0&H0). destruct (wp_run _ _ _ (run_all_meets cs s0 _ H0 Hv)) as (rs&s1&E1&->&H1). by exists s0, s1.
Qed.

(** An account that was added is found: authentication by its name, of at
    most 31 bytes, succeeds with the password it was added with and with any
    other exactly if the digests are the same. *)
Lemma add_then_authenticate s a s1 n p id g q : related s a → is_str n → is_str q → short_enough p → short_enough q → (length n ≤ 31)%nat → short_enough n →
  run (Add (Some n) (Some p) id g) s = Ret (true, s1) →
  run (Authenticate (Some n) q) s1 = Ret (bool_decide (password_digest p = password_digest q), s1).
Proof.
  intros Hr Hn Hq Hpl Hql Hlen Hnl Hrun. destruct (wp_run _ _ _ (add_meets s a n p id g Hr Hn Hpl)) as (r&s'&E&Hr1&Hres). rewrite Hrun in E. injection E as <- <-.
  destruct (wp_run _ _ _ (authenticate_meets s1 _ (Some n) q Hr1 ltac:(done))) as (r&s'&E&->&->). rewrite E. do 2 f_equal. cbn [spec] in *.
  destruct (bool_decide (n = []) || bool_decide (is_Some (named (Some n) a)) || bool_decide (is_Some (numbered id a)) || _) eqn:Eg in Hres |- *; [done|].
  apply orb_false_iff in Eg as [[[_ Hno]%orb_false_iff _]%orb_false_iff _]. apply bool_decide_eq_false_1 in Hno. cbn [fst set_entries]. unfold accepts.
  assert (named (Some n) (set_entries (entries a ++ [mk_entry (take 31 n) id g (password_digest p) (take 63 (chars "/home/" ++ n))]) a) = Some (length (entries a))) as ->.
  { cbn in Hno |- *. assert (find_entry (λ e, bool_decide (e_name e = n)) (entries a) = None) as Hf by (by apply eq_None_not_Some). clear -Hf Hlen. induction (entries a) as [|e l IH]; cbn in *.
    - by rewrite take_ge, bool_decide_true by done.
    - destruct (bool_decide _); [done|]. apply fmap_None in Hf. by rewrite IH. }
  cbn. by rewrite lookup_app_r, Nat.sub_diag.
Qed.

End Refine.

(** ** Witnesses *)

Definition junk_ctx : sha256_ctx := mk_ctx [] 7 (replicate 64 0xa5).
Definition junk_hash : list Z := replicate 32 0xa5.
Definition junk_test : list Z := replicate USER_HASH_LEN 0xa5.
Definition at_boot : users := mk_users [] None (Some (mk_creds 9 9 9 9)).
Definition empty_table : users := set_table (replicate MAX_USERS zero_account) at_boot.

Definition sample_calls : list call :=
  [Authenticate (Some (chars "root")) (chars "toor"); Add (Some (chars "eve")) (Some (chars "secret")) 1001 1001; Switch (Some (chars "eve")) (Some []);
   Switch (Some (chars "root")) (Some (chars "guess")); Switch (Some (chars "root")) (Some (chars "root")); SwitchForce 1000; SetPassword None None].

Lemma sample_valid : Forall valid sample_calls.
Proof. repeat constructor; try done; by apply str_lit. Qed.

Lemma user_sessions_witness :
  ∃ s0 s1, user_subsys_init junk_ctx junk_hash at_boot = Ret (tt, s0) ∧ related s0 (boot_session (process at_boot)) ∧
    run_all junk_ctx junk_hash junk_test sample_calls s0 = Ret ((spec_all sample_calls (boot_session (process at_boot))).1, s1) ∧ related s1 (spec_all sample_calls (boot_session (process at_boot))).2.
Proof. apply (user_sessions junk_ctx junk_hash junk_test ltac:(done) ltac:(done) ltac:(done) sample_calls at_boot); [done|exact sample_valid]. Defined.

(** The answers of the code on the same calls. *)
Example sample_answers : match (user_subsys_init junk_ctx junk_hash;; run_all junk_ctx junk_hash junk_test sample_calls) at_boot with
  | Ret (rs, s) => bool_decide (rs = [false; true; true; false; true; true; false]) && match process s with Some c => c_uid c =? 1000 | None => false end
  | _ => false
  end = true.
Proof. by vm_compute. Qed.

Definition eve_added : users := match run junk_ctx junk_hash junk_test (Add (Some (chars "eve")) (Some (chars "secret")) 1001 1001) empty_table with Ret (_, s) => s | _ => empty_table end.

Lemma add_then_authenticate_witness :
  run junk_ctx junk_hash junk_test (Authenticate (Some (chars "eve")) (chars "guess")) eve_added = Ret (bool_decide (password_digest (chars "secret") = password_digest (chars "guess")), eve_added).
Proof.
  apply (add_then_authenticate junk_ctx junk_hash junk_test ltac:(done) ltac:(done) ltac:(done) empty_table (mk_session [] None (process at_boot)) eve_added (chars "eve") (chars "secret") 1001 1001 (chars "guess"));
    [by apply zero_related|by apply str_lit|by apply str_lit|done|done|cbn; lia|done|by vm_compute].
Defined.

(** A name of more than 31 bytes is stored cut: the account can be added
    again and again and is never found. *)
Example long_names : let n := Some (replicate 40 97) in let p := Some (chars "secret") in
  match run_all junk_ctx junk_hash junk_test [Add n p 1 1; Add n p 2 2; Authenticate n (chars "secret")] empty_table with Ret (rs, _) => bool_decide (rs = [true; true; false]) | _ => false end = true.
Proof. by vm_compute. Qed.

End UserSpec.
