(* ===== verification/Fd.v ===== *)
(** * File descriptors (the descriptor calls of [proc/syscall.c])

    Processes share nodes of the VFS through their descriptor tables; a node
    counts the descriptors that hold it and is closed with the last one.  The
    calls that install, copy and drop descriptors are modelled with the
    tables of all processes and the counts of all nodes; closing a node is a
    call of the VFS below ([CloseOps]).  A descriptor outside the table and a
    node that does not exist fault. *)
From S2P Require Import Prelude Pipe.

Module Fd.
Import Pipe.

Definition O_APPEND : Z := 0x400.
Definition O_NONBLOCK : Z := 0x800.
Definition O_CLOEXEC : Z := 0x80000.
Definition F_DUPFD : Z := 0.
Definition F_GETFD : Z := 1.
Definition F_SETFD : Z := 2.
Definition F_GETFL : Z := 3.
Definition F_SETFL : Z := 4.
Definition F_DUPFD_CLOEXEC : Z := 1030.
Definition SEEK_SET : Z := 0.
Definition SEEK_CUR : Z := 1.
Definition SEEK_END : Z := 2.

Abbreviation NFILES := (Z.of_nat MAX_OPEN_FILES).

(** A [vfs_node_t] as far as descriptors look at it. *)
Record node := mk_node { n_refcount : Z; n_length : Z }.

Definition set_refcount v n := mk_node v (n_length n).

(** The tables of all processes, the process of the current task, the nodes. *)
Record fds := mk_fdstate {
  procs : list fd_table;
  current : option nat;
  nodes : gmap Z node;
}.

Definition set_procs v s := mk_fdstate v (current s) (nodes s).
Definition set_current v s := mk_fdstate (procs s) v (nodes s).
Definition set_nodes v s := mk_fdstate (procs s) (current s) v.

(** A descriptor set to a node, with its offset and flags. *)
Definition set_fd (fd : Z) (v : option Z) (offset flags : Z) (t : fd_table) : fd_table :=
  mk_fds (<[Z.to_nat fd := v]> (fd_files t)) (<[Z.to_nat fd := offset]> (fd_offsets t)) (<[Z.to_nat fd := flags]> (fd_flags t)).

Definition set_flags (fd flags : Z) (t : fd_table) : fd_table := mk_fds (fd_files t) (fd_offsets t) (<[Z.to_nat fd := flags]> (fd_flags t)).
Definition set_offset (fd offset : Z) (t : fd_table) : fd_table := mk_fds (fd_files t) (<[Z.to_nat fd := offset]> (fd_offsets t)) (fd_flags t).

(** The table of a new process ([memset] to zero). *)
Definition empty_table : fd_table := mk_fds (replicate 128 None) (replicate 128 0) (replicate 128 0).

(** [for (i = from; i < MAX_OPEN_FILES; i++) if (files[i] == NULL)] *)
Fixpoint free_slot (files : list (option Z)) (i : Z) : option Z :=
  match files with
  | [] => None
  | None :: _ => Some i
  | Some _ :: files' => free_slot files' (i + 1)
  end.

Definition first_free (from : Z) (t : fd_table) : option Z := free_slot (drop (Z.to_nat from) (fd_files t)) from.

Definition offset_of (t : fd_table) (fd : Z) : Z := fd_offsets t !!! Z.to_nat fd.
Definition flags_of (t : fd_table) (fd : Z) : Z := fd_flags t !!! Z.to_nat fd.

Class CloseOps (W : Type) := { vfs_close : Z → M W unit }.

Section Ops.
  Context {W : Type} `{CloseOps W}.

Definition state : Type := fds * W.

Definition fget {A} (f : fds → A) : M state A := gets (λ s : state, f s.1).
Definition fset (f : fds → fds) : M state unit := modify (λ s : state, (f s.1, s.2)).

Definition get_table (p : nat) : M state fd_table := deref (λ s : state, procs s.1 !! p).
Definition put_table (p : nat) (t : fd_table) : M state unit := fset (λ s, set_procs (<[p := t]> (procs s)) s).
Definition get_node (n : Z) : M state node := deref (λ s : state, nodes s.1 !! n).
Definition put_node (n : Z) (k : node) : M state unit := fset (λ s, set_nodes (<[n := k]> (nodes s)) s).

(** [node->refcount++] *)
Definition retain (n : Z) : M state unit := k ← get_node n; put_node n (set_refcount (u32 (n_refcount k + 1)) k).

(** The end of [sys_close_handler]: a reference is dropped, the node closed
    with the last one. *)
Definition release (n : Z) : M state unit :=
  k ← get_node n;
  if 1 <? n_refcount k then put_node n (set_refcount (n_refcount k - 1) k)
  else put_node n (set_refcount 0 k);; lift_r (vfs_close n).

Definition in_range (fd : Z) : bool := (0 <=? fd) && (fd <? NFILES).

(** [current_task->process->files[fd]] with the guards in front of it; [err]
    without a process or a node. *)
Definition with_fd (fd err : Z) (k : nat → fd_table → Z → M state Z) : M state Z :=
  c ← fget current;
  match c with
  | None => mret err
  | Some p =>
      if negb (in_range fd) then mret err else
      t ← get_table p;
      f ← deref (λ _ : state, fd_files t !! Z.to_nat fd);
      match f with None => mret err | Some n => k p t n end
  end.

Definition alloc_fd (n flags : Z) : M state Z :=
  c ← fget current;
  match c with
  | None => mret (- EMFILE)
  | Some p =>
      t ← get_table p;
      match first_free 3 t with
      | None => mret (- EMFILE)
      | Some i =>
          put_table p (set_fd i (Some n) 0 flags t);;
          k ← get_node n;
          put_node n (set_refcount (if n_refcount k =? 0 then 1 else u32 (n_refcount k + 1)) k);;
          mret i
      end
  end.

Definition sys_close_handler (fd : Z) : M state Z :=
  with_fd fd (- EBADF) (λ p t n, put_table p (set_fd fd None 0 0 t);; release n;; mret 0).

(** The descriptor [fd] copied to [i] with the given flags. *)
Definition copy_fd (p : nat) (t : fd_table) (n fd i flags : Z) : M state Z :=
  put_table p (set_fd i (Some n) (offset_of t fd) flags t);; retain n;; mret i.

Definition no_cloexec (flags : Z) : Z := Z.land flags (u32 (Z.lnot O_CLOEXEC)).

Definition sys_dup_handler (oldfd : Z) : M state Z :=
  with_fd oldfd (- EBADF) (λ p t n,
    match first_free 3 t with
    | None => mret (- EMFILE)
    | Some i => copy_fd p t n oldfd i (no_cloexec (flags_of t oldfd))
    end).

Definition sys_dup2_handler (oldfd newfd : Z) : M state Z :=
  with_fd oldfd (- EBADF) (λ p t n,
    if negb (in_range newfd) then mret (- EBADF) else
    if oldfd =? newfd then mret newfd else
    f ← deref (λ _ : state, fd_files t !! Z.to_nat newfd);
    (match f with Some _ => sys_close_handler newfd;; mret tt | None => mret tt end);;
    t ← get_table p;
    f ← deref (λ _ : state, fd_files t !! Z.to_nat oldfd);
    match f with None => fault | Some n => copy_fd p t n oldfd newfd (no_cloexec (flags_of t oldfd)) end).

Definition sys_dup3_handler (oldfd newfd flags : Z) : M state Z :=
  if oldfd =? newfd then mret (- EINVAL) else
  ret ← sys_dup2_handler oldfd newfd;
  if (0 <=? ret) && has flags O_CLOEXEC then
    c ← fget current;
    p ← deref (λ _ : state, c);
    t ← get_table p;
    put_table p (set_flags newfd (Z.lor (flags_of t newfd) O_CLOEXEC) t);; mret ret
  else mret ret.

(** [F_DUPFD]: the loop starts at the argument, unchecked. *)
Definition dup_from (p : nat) (t : fd_table) (n fd from flags : Z) : M state Z :=
  if from <? 0 then fault else
  match first_free from t with
  | None => mret (- EMFILE)
  | Some i => copy_fd p t n fd i flags
  end.

Definition sys_fcntl_handler (fd cmd arg : Z) : M state Z :=
  with_fd fd (- EBADF) (λ p t n,
    let flags := flags_of t fd in
    if cmd =? F_DUPFD then dup_from p t n fd (i32 arg) (no_cloexec flags) else
    if cmd =? F_DUPFD_CLOEXEC then dup_from p t n fd (i32 arg) (Z.lor flags O_CLOEXEC) else
    if cmd =? F_GETFD then mret (if has flags O_CLOEXEC then 1 else 0) else
    if cmd =? F_SETFD then put_table p (set_flags fd (if has arg 1 then Z.lor flags O_CLOEXEC else no_cloexec flags) t);; mret 0 else
    if cmd =? F_GETFL then mret flags else
    if cmd =? F_SETFL then
      let settable := Z.lor O_APPEND O_NONBLOCK in
      put_table p (set_flags fd (Z.lor (Z.land flags (u32 (Z.lnot settable))) (Z.land (u32 arg) settable)) t);; mret 0
    else mret (- EINVAL)).

Definition sys_lseek_handler (fd offset whence : Z) : M state Z :=
  with_fd fd (- EBADF) (λ p t n,
    k ← get_node n;
    let base := if whence =? SEEK_SET then Some 0 else if whence =? SEEK_CUR then Some (offset_of t fd) else
                if whence =? SEEK_END then Some (n_length k) else None in
    match base with
    | None => mret (- EINVAL)
    | Some b =>
        let new_offset := i64 (b + offset) in
        if new_offset <? 0 then mret (- EINVAL) else
        put_table p (set_offset fd new_offset t);; mret new_offset
    end).

(** ** Processes *)

(** The loop of [sys_clone_handler] over the descriptors: the child holds all
    nodes of its parent. *)
Fixpoint retain_all (files : list (option Z)) : M state unit :=
  match files with
  | [] => mret tt
  | None :: files' => retain_all files'
  | Some n :: files' => retain n;; retain_all files'
  end.

Definition clone_files : M state Z :=
  c ← fget current;
  p ← deref (λ _ : state, c);
  t ← get_table p;
  retain_all (fd_files t);;
  l ← fget procs;
  fset (λ s, set_procs (procs s ++ [t]) s);;
  mret (Z.of_nat (length l)).

(** [close_process_files]: every descriptor of a process. *)
Definition close_one (p : nat) (fd : Z) : M state unit :=
  t ← get_table p;
  f ← deref (λ _ : state, fd_files t !! Z.to_nat fd);
  match f with
  | None => mret tt
  | Some n => put_table p (set_fd fd None 0 0 t);; release n
  end.

Definition close_process_files (p : nat) : M state unit := for_loop 0 MAX_OPEN_FILES (close_one p).

(** The loops of [sys_exit_handler] and [sys_execve_handler] over the
    descriptors of the current process: all of them, or those marked to be
    closed. *)
Definition close_current (only_cloexec : bool) (fd : Z) : M state unit :=
  c ← fget current;
  p ← deref (λ _ : state, c);
  t ← get_table p;
  f ← deref (λ _ : state, fd_files t !! Z.to_nat fd);
  match f with
  | None => mret tt
  | Some _ => if only_cloexec && negb (has (flags_of t fd) O_CLOEXEC) then mret tt else sys_close_handler fd;; mret tt
  end.

Definition exit_files : M state unit := for_loop 0 MAX_OPEN_FILES (close_current false).
Definition exec_files : M state unit := for_loop 0 MAX_OPEN_FILES (close_current true).

(** The descriptors [elf_load_args] gives to a new process: the terminal
    three times, without counting. *)
Definition load_files (tty : Z) : M state Z :=
  l ← fget procs;
  fset (λ s, set_procs (procs s ++ [set_fd 2 (Some tty) 0 0 (set_fd 1 (Some tty) 0 0 (set_fd 0 (Some tty) 0 0 empty_table))]) s);;
  mret (Z.of_nat (length l)).

End Ops.
End Fd.
