(* ===== verification/FdSpec.v ===== *)
(** * Descriptors count their nodes

    The count of a node is the number of descriptors that hold it, over all
    processes, so a node is closed with its last descriptor and never while
    one is left.  Every descriptor call keeps this, except that a process
    started from an image gets three descriptors nobody counted. *)
From S2P Require Import Prelude Pipe Fd.

Module FdSpec.
Import Pipe Fd.

Implicit Types (t : fd_table) (ps : list fd_table) (files : list (option Z)) (n fd : Z) (p : nat).

(** ** Counting *)

Definition held n files : nat := length (filter (λ o, o = Some n) files).
Definition slots n ps : nat := sum_list ((λ t, held n (fd_files t)) <$> ps).

Definition one n (o : option Z) : nat := if decide (o = Some n) then 1 else 0.

Lemma one_none n : one n None = 0%nat.
Proof. done. Qed.

Lemma one_same n : one n (Some n) = 1%nat.
Proof. unfold one. by rewrite decide_True. Qed.

Lemma one_ne m n : m ≠ n → one m (Some n) = 0%nat.
Proof. intros. unfold one. by rewrite decide_False by congruence. Qed.

Lemma held_cons n o files : held n (o :: files) = (one n o + held n files)%nat.
Proof. unfold held, one. rewrite filter_cons. by case_decide. Qed.

Lemma held_insert n files i o v : files !! i = Some o → (held n (<[i := v]> files) + one n o = held n files + one n v)%nat.
Proof.
  revert i. induction files as [|x files IH]; intros [|i] Hi; [done..| |].
  - injection Hi as ->. change (<[0%nat := v]> (o :: files)) with (v :: files). rewrite !held_cons. lia.
  - change (<[S i := v]> (x :: files)) with (x :: <[i := v]> files). rewrite !held_cons. specialize (IH i Hi). lia.
Qed.

Lemma held_elem n files i : files !! i = Some (Some n) → (0 < held n files)%nat.
Proof.
  revert i. induction files as [|x files IH]; intros [|i] Hi; [done..| |]; rewrite held_cons; [injection Hi as ->|specialize (IH i Hi); lia]. unfold one. rewrite decide_True by done. lia.
Qed.

Lemma held_le n files : (held n files ≤ length files)%nat.
Proof. unfold held. induction files as [|x files IH]; [done|]. rewrite filter_cons. case_decide; cbn [length]; lia. Qed.

#[global] Arguments held : simpl never.
#[global] Arguments slots : simpl never.

Lemma slots_cons n t ps : slots n (t :: ps) = (held n (fd_files t) + slots n ps)%nat.
Proof. done. Qed.

Lemma slots_insert n ps p t t' : ps !! p = Some t → (slots n (<[p := t']> ps) + held n (fd_files t) = slots n ps + held n (fd_files t'))%nat.
Proof.
  revert p. induction ps as [|x ps IH]; intros [|p] Hp; [done..| |].
  - injection Hp as ->. change (<[0%nat := t']> (t :: ps)) with (t' :: ps). rewrite !slots_cons. lia.
  - change (<[S p := t']> (x :: ps)) with (x :: <[p := t']> ps). rewrite !slots_cons. specialize (IH p Hp). lia.
Qed.

Lemma slots_app n ps ps' : slots n (ps ++ ps') = (slots n ps + slots n ps')%nat.
Proof. induction ps as [|x ps IH]; [done|]. cbn [app]. rewrite !slots_cons, IH. lia. Qed.

Lemma slots_held n ps p t : ps !! p = Some t → (held n (fd_files t) ≤ slots n ps)%nat.
Proof. revert p. induction ps as [|x ps IH]; intros [|p] Hp; [done..| |]; rewrite slots_cons; [injection Hp as ->; lia|]. specialize (IH p Hp). lia. Qed.

(** A descriptor of a table set from [o] to [v]. *)
Lemma slots_set n ps p t fd o v off fl : ps !! p = Some t → fd_files t !! Z.to_nat fd = Some o →
  (slots n (<[p := set_fd fd v off fl t]> ps) + one n o = slots n ps + one n v)%nat.
Proof. intros Hp Ho. pose proof (slots_insert n ps p t (set_fd fd v off fl t) Hp) as H1. pose proof (held_insert n _ _ o v Ho) as H2. cbn [set_fd fd_files] in H1. lia. Qed.

(** ** The nodes below

    What the descriptors expect of closing a node: the nodes that are open,
    and the ones without a close operation, which stay open for ever (the
    terminal every process starts with). *)

Class CloseLaws (W : Type) `{CloseOps W} := {
  opened : W → gset Z;
  lasting : Z → bool;
  vfs_close_law w n : n ∈ opened w → wp (vfs_close n) w (λ _ w', opened w' = if lasting n then opened w else opened w ∖ {[n]});
}.

(** The nodes that are open, with node 0 the terminal; closing a node that is
    not open faults. *)
#[global] Instance log_ops : CloseOps (gset Z) :=
  {| vfs_close n := λ w, if decide (n ∈ w) then Ret (tt, if n =? 0 then w else w ∖ {[n]}) else Fault |}.
#[global] Program Instance log_laws : CloseLaws (gset Z) := {| opened w := w; lasting n := n =? 0 |}.
Next Obligation. intros w n Hn. unfold wp. cbn. by rewrite decide_True. Qed.

(** ** The invariant *)

Definition table_ok t : Prop := length (fd_files t) = 128%nat ∧ length (fd_offsets t) = 128%nat ∧ length (fd_flags t) = 128%nat.

(** The bound on processes keeps the counts below their width. *)
Definition MAX_PROCS : Z := 2 ^ 24.

Section Spec.
  Context {W : Type} `{CloseLaws W}.
  Implicit Types (w : W) (s : fds) (st : state (W := W)).

Record fd_ok st : Prop := {
  fo_tables : Forall table_ok (procs st.1);
  fo_max : Z.of_nat (length (procs st.1)) ≤ MAX_PROCS;
  fo_current p : current st.1 = Some p → (p < length (procs st.1))%nat;
  fo_count n k : lasting n = false → nodes st.1 !! n = Some k → n_refcount k = Z.of_nat (slots n (procs st.1));
  fo_held n : (0 < slots n (procs st.1))%nat → is_Some (nodes st.1 !! n) ∧ n ∈ opened st.2;
}.

Lemma slots_bound ps n : Forall table_ok ps → Z.of_nat (slots n ps) ≤ 128 * Z.of_nat (length ps).
Proof.
  induction 1 as [|t ps [Ht _] _ IH]; [done|]. rewrite slots_cons. pose proof (held_le n (fd_files t)). cbn [length]. lia.
Qed.

Lemma set_fd_ok fd v off fl t : table_ok t → table_ok (set_fd fd v off fl t).
Proof. intros (?&?&?). unfold table_ok, set_fd. cbn. by rewrite !length_insert. Qed.

Lemma wp_fget {A} (g : fds → A) s w (Q : A → state → Prop) : Q (g s) (s, w) → wp (fget g) (s, w) Q.
Proof. intros. by apply (wp_gets (λ s : state (W := W), g s.1)). Qed.

Lemma wp_fset g s w (Q : unit → state → Prop) : Q tt (g s, w) → wp (fset g) (s, w) Q.
Proof. intros. by apply (wp_modify (λ s : state (W := W), (g s.1, s.2))). Qed.

(** [procs] with one table replaced, [nodes] with one count replaced. *)
Definition upd_table p t s : fds := set_procs (<[p := t]> (procs s)) s.
Definition upd_node n k s : fds := set_nodes (<[n := k]> (nodes s)) s.

Lemma wp_put_table p t s w (Q : unit → state → Prop) : Q tt (upd_table p t s, w) → wp (put_table p t) (s, w) Q.
Proof. apply (wp_fset (λ s, set_procs (<[p := t]> (procs s)) s)). Qed.

Lemma wp_put_node n k s w (Q : unit → state → Prop) : Q tt (upd_node n k s, w) → wp (put_node n k) (s, w) Q.
Proof. apply (wp_fset (λ s, set_nodes (<[n := k]> (nodes s)) s)). Qed.

Lemma wp_get_table p t s w (Q : fd_table → state → Prop) : procs s !! p = Some t → Q t (s, w) → wp (get_table p) (s, w) Q.
Proof. intros Hp. by apply wp_deref. Qed.

Lemma wp_get_node n k s w (Q : node → state → Prop) : nodes s !! n = Some k → Q k (s, w) → wp (get_node n) (s, w) Q.
Proof. intros Hp. by apply wp_deref. Qed.

(** A table of one process changed: what the invariant still asks for. *)
Lemma fd_ok_upd s w p t' nd w' : fd_ok (s, w) → table_ok t' →
  let ps := <[p := t']> (procs s) in
  (∀ n k, lasting n = false → nd !! n = Some k → n_refcount k = Z.of_nat (slots n ps)) →
  (∀ n, (0 < slots n ps)%nat → is_Some (nd !! n) ∧ n ∈ opened w') →
  fd_ok (set_nodes nd (upd_table p t' s), w').
Proof.
  intros [Ht Hm Hc Hn Hh] Ht' ps Hn' Hh'. cbn [fst snd] in *. split; cbn [fst snd upd_table set_nodes set_procs procs current nodes]; [|by rewrite length_insert| |done..].
  - by apply Forall_insert.
  - intros q Hq. rewrite length_insert. by apply Hc.
Qed.

(** A free descriptor gets a node that is open. *)
Lemma install_ok s w p t fd n k r off fl : fd_ok (s, w) → procs s !! p = Some t → fd_files t !! Z.to_nat fd = Some None → nodes s !! n = Some k → n ∈ opened w →
  (lasting n = false → r = n_refcount k + 1) → fd_ok (upd_node n (set_refcount r k) (upd_table p (set_fd fd (Some n) off fl t) s), w).
Proof.
  intros Hok Hp Hf Hk Ho Hr. pose proof Hok as [Ht Hm Hc Hn Hh]. cbn [fst snd] in *.
  assert (∀ m, (slots m (<[p := set_fd fd (Some n) off fl t]> (procs s)) = slots m (procs s) + one m (Some n))%nat) as Hs.
  { intros m. pose proof (slots_set m (procs s) p t fd None (Some n) off fl Hp Hf) as H1. rewrite one_none in H1. lia. }
  apply fd_ok_upd with (w := w); [done|apply set_fd_ok; by eapply Forall_lookup_1|..].
  - intros m k' Hl Hk'. rewrite Hs. destruct (decide (m = n)) as [->|Hne].
    + rewrite lookup_insert_eq in Hk'. injection Hk' as <-. rewrite one_same. cbn [set_refcount n_refcount]. rewrite (Hr Hl), (Hn n k Hl Hk). lia.
    + rewrite lookup_insert_ne in Hk' by done. rewrite one_ne, (Hn m k' Hl Hk') by done. lia.
  - intros m Hm'. rewrite Hs in Hm'. destruct (decide (m = n)) as [->|Hne]; [cbn; by rewrite lookup_insert_eq|].
    cbn. rewrite lookup_insert_ne by done. apply Hh. rewrite one_ne in Hm' by done. lia.
Qed.

(** The counts do not wrap. *)
Lemma count_u32 s w n k : fd_ok (s, w) → lasting n = false → nodes s !! n = Some k → u32 (n_refcount k + 1) = n_refcount k + 1.
Proof.
  intros [Ht Hm Hc Hn Hh] Hl Hk. cbn [fst snd] in *. pose proof (slots_bound (procs s) n Ht) as Hb. pose proof (Hn n k Hl Hk). unfold MAX_PROCS in Hm. apply wrap_small. lia.
Qed.

(** The nodes that stay open when a descriptor of [n] is gone. *)
Definition open_after (ps : list fd_table) n (o : gset Z) : gset Z := if lasting n || (0 <? slots n ps)%nat then o else o ∖ {[n]}.

(** A descriptor is dropped, and its node closed if it was the last one. *)
Lemma drop_ok s w p t fd n (Q : unit → state → Prop) : fd_ok (s, w) → procs s !! p = Some t → fd_files t !! Z.to_nat fd = Some (Some n) →
  let s1 := upd_table p (set_fd fd None 0 0 t) s in
  (∀ k r w', nodes s !! n = Some k → fd_ok (upd_node n (set_refcount r k) s1, w') → opened w' = open_after (procs s1) n (opened w) → Q tt (upd_node n (set_refcount r k) s1, w')) →
  wp (put_table p (set_fd fd None 0 0 t);; release n) (s, w) Q.
Proof.
  intros Hok Hp Hf s1 HQ. pose proof Hok as [Ht Hm Hc Hn Hh]. cbn [fst snd] in *.
  assert (∀ m, (slots m (procs s1) + one m (Some n) = slots m (procs s))%nat) as Hs.
  { intros m. pose proof (slots_set m (procs s) p t fd (Some n) None 0 0 Hp Hf) as H1. rewrite one_none in H1. unfold s1, upd_table, set_procs. cbn [procs]. lia. }
  pose proof (Hs n) as Hsn. rewrite one_same in Hsn. destruct (Hh n) as [[k Hk] Ho]; [lia|].
  assert (∀ r w', (lasting n = false → r = n_refcount k - 1) → (∀ m, (0 < slots m (procs s1))%nat → m ∈ opened w') → fd_ok (upd_node n (set_refcount r k) s1, w')) as Hok'.
  { intros r w' Hr Hw'. apply fd_ok_upd with (w := w); [done|apply set_fd_ok; by eapply Forall_lookup_1|..]; change (<[p := _]> (procs s)) with (procs s1); cbn [nodes s1 upd_table set_procs].
    - intros m k' Hl Hk'. specialize (Hs m). destruct (decide (m = n)) as [->|Hne].
      + rewrite lookup_insert_eq in Hk'. injection Hk' as <-. cbn [set_refcount n_refcount]. rewrite (Hr Hl), (Hn n k Hl Hk). lia.
      + rewrite lookup_insert_ne in Hk' by done. rewrite one_ne in Hs by done. rewrite (Hn m k' Hl Hk'). lia.
    - intros m Hm'. split; [|by apply Hw']. destruct (decide (m = n)) as [->|Hne]; [by rewrite lookup_insert_eq|]. rewrite lookup_insert_ne by done.
      apply Hh. specialize (Hs m). lia. }
  assert (∀ m, (0 < slots m (procs s1))%nat → m ∈ opened w) as Hin by (intros m Hm'; apply Hh; specialize (Hs m); lia).
  apply wp_bind, wp_put_table. fold s1. apply wp_bind. apply (wp_get_node n k); [done|].
  destruct (Z.ltb_spec 1 (n_refcount k)) as [Hgt|Hle].
  - apply wp_put_node, HQ; [done|by apply Hok'|]. unfold open_after. destruct (lasting n) eqn:Hl; [done|]. pose proof (Hn n k Hl Hk). by rewrite (proj2 (Nat.ltb_lt _ _)) by lia.
  - apply wp_bind, wp_put_node, wp_lift_r. eapply wp_mono; [by apply vfs_close_law|]. intros [] w' Ew. apply HQ; [done|apply Hok'|].
    + intros Hl. pose proof (Hn n k Hl Hk). lia.
    + intros m Hm'. rewrite Ew. destruct (lasting n) eqn:Hl; [by apply Hin|]. apply elem_of_difference. split; [by apply Hin|]. intros ->%elem_of_singleton. pose proof (Hn n k Hl Hk). lia.
    + rewrite Ew. unfold open_after. destruct (lasting n) eqn:Hl; [done|]. pose proof (Hn n k Hl Hk). by rewrite (proj2 (Nat.ltb_ge _ _)) by lia.
Qed.

End Spec.
End FdSpec.
