(* ===== verification/FdRefine.v ===== *)
(** * Descriptor calls without counts

    What the descriptor calls promise is said without reference counts: a
    machine of tables and open nodes in which a node stays open as long as
    any process has a descriptor for it.  The calls refine it. *)
From S2P Require Import Prelude Pipe Fd FdSpec.

Module FdRefine.
Import Pipe Fd FdSpec.

(** The tables, the current process, the open nodes and their lengths. *)
Record view := mk_view { v_procs : list fd_table; v_current : option nat; v_open : gset Z; v_lengths : gmap Z Z }.

Definition v_set_procs ps (v : view) : view := mk_view ps (v_current v) (v_open v) (v_lengths v).
Definition v_set_open o (v : view) : view := mk_view (v_procs v) (v_current v) o (v_lengths v).
Definition v_put p t (v : view) : view := v_set_procs (<[p := t]> (v_procs v)) v.

Inductive call :=
  | Install (n flags : Z) | Close (fd : Z) | Dup (fd : Z) | Dup2 (oldfd newfd : Z) | Dup3 (oldfd newfd flags : Z)
  | Fcntl (fd cmd arg : Z) | Lseek (fd offset whence : Z) | Clone | Exec | Exit | Reap (p : nat) | Load (tty : Z).

Section Refine.
  Context {W : Type} `{CloseLaws W}.
  Implicit Types (w : W) (s : fds) (st : state (W := W)) (v : view) (t : fd_table) (p : nat) (n fd : Z).

(** ** The machine *)

Definition table_at p fd v : option (fd_table * Z) :=
  t ← v_procs v !! p; if in_range fd then f ← fd_files t !! Z.to_nat fd; n ← f; Some (t, n) else None.

(** The descriptor of the current process: its process, table and node. *)
Definition lookup_fd fd v : option (nat * fd_table * Z) := p ← v_current v; '(t, n) ← table_at p fd v; Some (p, t, n).

Definition close_at p fd v : view :=
  match table_at p fd v with
  | None => v
  | Some (t, n) => let v' := v_put p (set_fd fd None 0 0 t) v in v_set_open (open_after (v_procs v') n (v_open v)) v'
  end.

Definition on_fd fd v (f : nat → fd_table → Z → view * Z) : view * Z :=
  match lookup_fd fd v with None => (v, - EBADF) | Some (p, t, n) => f p t n end.

Definition copy_to p t n fd i flags v : view * Z := (v_put p (set_fd i (Some n) (offset_of t fd) flags t) v, i).

Definition copy_free p t n fd from flags v : view * Z :=
  match first_free from t with None => (v, - EMFILE) | Some i => copy_to p t n fd i flags v end.

Definition spec_dup2 (g : Z → Z) oldfd newfd v : view * Z := on_fd oldfd v (λ p t n,
  if negb (in_range newfd) then (v, - EBADF) else if oldfd =? newfd then (v, newfd) else
  copy_to p t n oldfd newfd (g (flags_of t oldfd)) (close_at p newfd v)).

Definition cloexec_at p fd v : bool := match v_procs v !! p with Some t => has (flags_of t fd) O_CLOEXEC | None => false end.

Definition close_step (pick : Z → view → bool) p v fd : view := if pick fd v then close_at p fd v else v.

Definition close_all (pick : Z → view → bool) p v : view := foldl (close_step pick p) v (seqZ 0 128).

Definition on_current v (f : nat → view * Z) : view * Z := match v_current v with None => (v, 0) | Some p => f p end.

Definition spec (c : call) v : view * Z :=
  match c with
  | Install n flags =>
      match v_current v with
      | None => (v, - EMFILE)
      | Some p => match (t ← v_procs v !! p; i ← first_free 3 t; Some (t, i)) with
                  | None => (v, - EMFILE)
                  | Some (t, i) => (v_put p (set_fd i (Some n) 0 flags t) v, i)
                  end
      end
  | Close fd => on_fd fd v (λ p t n, (close_at p fd v, 0))
  | Dup fd => on_fd fd v (λ p t n, copy_free p t n fd 3 (no_cloexec (flags_of t fd)) v)
  | Dup2 oldfd newfd => spec_dup2 no_cloexec oldfd newfd v
  | Dup3 oldfd newfd flags =>
      if oldfd =? newfd then (v, - EINVAL)
      else spec_dup2 (λ f, if has flags O_CLOEXEC then Z.lor (no_cloexec f) O_CLOEXEC else no_cloexec f) oldfd newfd v
  | Fcntl fd cmd arg => on_fd fd v (λ p t n,
      let flags := flags_of t fd in
      let set f := (v_put p (set_flags fd f t) v, 0) in
      if cmd =? F_DUPFD then copy_free p t n fd (i32 arg) (no_cloexec flags) v else
      if cmd =? F_DUPFD_CLOEXEC then copy_free p t n fd (i32 arg) (Z.lor flags O_CLOEXEC) v else
      if cmd =? F_GETFD then (v, if has flags O_CLOEXEC then 1 else 0) else
      if cmd =? F_SETFD then set (if has arg 1 then Z.lor flags O_CLOEXEC else no_cloexec flags) else
      if cmd =? F_GETFL then (v, flags) else
      if cmd =? F_SETFL then set (Z.lor (Z.land flags (u32 (Z.lnot (Z.lor O_APPEND O_NONBLOCK)))) (Z.land (u32 arg) (Z.lor O_APPEND O_NONBLOCK)))
      else (v, - EINVAL))
  | Lseek fd offset whence => on_fd fd v (λ p t n,
      let seek base := let o := i64 (base + offset) in if o <? 0 then (v, - EINVAL) else (v_put p (set_offset fd o t) v, o) in
      if whence =? SEEK_SET then seek 0 else if whence =? SEEK_CUR then seek (offset_of t fd) else
      if whence =? SEEK_END then seek (v_lengths v !!! n) else (v, - EINVAL))
  | Clone => on_current v (λ p, match v_procs v !! p with
      | None => (v, 0)
      | Some t => (v_set_procs (v_procs v ++ [t]) v, Z.of_nat (length (v_procs v)))
      end)
  | Exec => on_current v (λ p, (close_all (cloexec_at p) p v, 0))
  | Exit => on_current v (λ p, (close_all (λ _ _, true) p v, 0))
  | Reap p => (close_all (λ _ _, true) p v, 0)
  | Load tty => (v_set_procs (v_procs v ++ [set_fd 2 (Some tty) 0 0 (set_fd 1 (Some tty) 0 0 (set_fd 0 (Some tty) 0 0 empty_table))]) v, Z.of_nat (length (v_procs v)))
  end.

(** ** The calls *)

Definition run (c : call) : M (state (W := W)) Z :=
  match c with
  | Install n flags => alloc_fd n flags
  | Close fd => sys_close_handler fd
  | Dup fd => sys_dup_handler fd
  | Dup2 oldfd newfd => sys_dup2_handler oldfd newfd
  | Dup3 oldfd newfd flags => sys_dup3_handler oldfd newfd flags
  | Fcntl fd cmd arg => sys_fcntl_handler fd cmd arg
  | Lseek fd offset whence => sys_lseek_handler fd offset whence
  | Clone => clone_files
  | Exec => exec_files;; mret 0
  | Exit => exit_files;; mret 0
  | Reap p => close_process_files p;; mret 0
  | Load tty => load_files tty
  end.

(** When a call is made: the node installed is open, the process is there and
    there is room for a new one. *)
Definition can_call (c : call) st : Prop :=
  match c with
  | Install n _ => is_Some (nodes st.1 !! n) ∧ n ∈ opened st.2
  | Clone => is_Some (current st.1) ∧ Z.of_nat (length (procs st.1)) < MAX_PROCS
  | Exec | Exit => is_Some (current st.1)
  | Reap p => (p < length (procs st.1))%nat
  | Load tty => lasting tty = true ∧ is_Some (nodes st.1 !! tty) ∧ tty ∈ opened st.2 ∧ Z.of_nat (length (procs st.1)) < MAX_PROCS
  | _ => True
  end.

(** [F_DUPFD] and [F_DUPFD_CLOEXEC] on an open descriptor, with a start below
    the table. *)
Definition starts_below (c : call) v : bool :=
  match c with
  | Fcntl fd cmd arg => ((cmd =? F_DUPFD) || (cmd =? F_DUPFD_CLOEXEC)) && (i32 arg <? 0) && bool_decide (is_Some (lookup_fd fd v))
  | _ => false
  end.

Definition view_of st : view := mk_view (procs st.1) (current st.1) (opened st.2) (n_length <$> nodes st.1).

(** A result of a call against the machine. *)
Definition refines (x : view * Z) (r : Z) st : Prop := fd_ok st ∧ x = (view_of st, r).

(** ** Lemmas *)

Lemma in_range_spec fd : in_range fd = true → 0 ≤ fd < 128.
Proof. unfold in_range. intros [H1%Z.leb_le H2%Z.ltb_lt]%andb_true_iff. change (Z.of_nat MAX_OPEN_FILES) with 128 in H2. lia. Qed.

Lemma table_of s w p : fd_ok (s, w) → (p < length (procs s))%nat → ∃ t, procs s !! p = Some t ∧ table_ok t.
Proof. intros Hok [t Ht]%lookup_lt_is_Some. exists t. split; [done|]. eapply Forall_lookup_1; [apply (fo_tables _ Hok)|done]. Qed.

Lemma file_at t fd : table_ok t → 0 ≤ fd < 128 → is_Some (fd_files t !! Z.to_nat fd).
Proof. intros (Hl&_) ?. apply lookup_lt_is_Some. lia. Qed.

(** A table replaced and a count changed, on the machine. *)
Lemma view_upd s w p t n k r w' : nodes s !! n = Some k → opened w' = opened w →
  view_of (upd_node n (set_refcount r k) (upd_table p t s), w') = v_put p t (view_of (s, w)).
Proof.
  intros Hk Ho. unfold view_of, v_put, v_set_procs. cbn. rewrite Ho, fmap_insert. f_equal. apply insert_id. by rewrite lookup_fmap, Hk.
Qed.

Lemma view_close s w p t fd n k r w' : procs s !! p = Some t → in_range fd = true → fd_files t !! Z.to_nat fd = Some (Some n) → nodes s !! n = Some k →
  let s1 := upd_table p (set_fd fd None 0 0 t) s in opened w' = open_after (procs s1) n (opened w) →
  view_of (upd_node n (set_refcount r k) s1, w') = close_at p fd (view_of (s, w)).
Proof.
  intros Hp Hr Hf Hk s1 Ho. unfold close_at, table_at. cbn. rewrite Hp. cbn. rewrite Hr, Hf. cbn. unfold view_of, v_set_open, v_put, v_set_procs. cbn.
  rewrite Ho, fmap_insert. f_equal. apply insert_id. by rewrite lookup_fmap, Hk.
Qed.

(** The guards of a call against the machine's lookup. *)
Lemma wp_with_fd s w fd err k (Q : Z → state → Prop) : fd_ok (s, w) →
  (lookup_fd fd (view_of (s, w)) = None → Q err (s, w)) →
  (∀ p t n, lookup_fd fd (view_of (s, w)) = Some (p, t, n) → current s = Some p → procs s !! p = Some t → table_ok t → in_range fd = true →
     fd_files t !! Z.to_nat fd = Some (Some n) → wp (k p t n) (s, w) Q) →
  wp (with_fd fd err k) (s, w) Q.
Proof.
  intros Hok Hno Hyes. apply wp_bind, wp_fget. unfold lookup_fd, table_at in Hno, Hyes. cbn in Hno, Hyes. destruct (current s) as [p|] eqn:Hc; cbn in Hno, Hyes; [|by apply Hno].
  destruct (table_of s w p Hok) as (t&Hp&Ht); [by apply (fo_current _ Hok)|]. rewrite Hp in Hno, Hyes. cbn in Hno, Hyes.
  destruct (in_range fd) eqn:Hr; cbn; [|by apply Hno]. apply wp_bind, (wp_get_table p t); [done|].
  destruct (file_at t fd Ht (in_range_spec fd Hr)) as [f Hf]. rewrite Hf in Hno, Hyes. cbn in Hno, Hyes. apply wp_bind. eapply wp_deref; [done|].
  destruct f as [n|]; cbn in Hno, Hyes; [by apply (Hyes p t n)|by apply Hno].
Qed.

(** A call that does nothing without a descriptor. *)
Lemma refines_on_fd s w fd k f : fd_ok (s, w) →
  (∀ p t n, current s = Some p → procs s !! p = Some t → table_ok t → in_range fd = true → fd_files t !! Z.to_nat fd = Some (Some n) →
     wp (k p t n) (s, w) (refines (f p t n))) →
  wp (with_fd fd (- EBADF) k) (s, w) (refines (on_fd fd (view_of (s, w)) f)).
Proof.
  intros Hok Hk. apply wp_with_fd; [done|..]; unfold on_fd.
  - intros ->. by split.
  - intros p t n -> Hc Hp Ht Hr Hf. by apply Hk.
Qed.

Lemma held_of s w p t fd n : fd_ok (s, w) → procs s !! p = Some t → fd_files t !! Z.to_nat fd = Some (Some n) → is_Some (nodes s !! n) ∧ n ∈ opened w.
Proof. intros Hok Hp Hf. apply (fo_held _ Hok). cbn. pose proof (slots_held n _ p t Hp). pose proof (held_elem n _ _ Hf). lia. Qed.

(** A node copied to a free descriptor. *)
Lemma copy_refines s w p t n fd i flags : fd_ok (s, w) → procs s !! p = Some t → is_Some (nodes s !! n) → n ∈ opened w → fd_files t !! Z.to_nat i = Some None →
  wp (copy_fd p t n fd i flags) (s, w) (refines (copy_to p t n fd i flags (view_of (s, w)))).
Proof.
  intros Hok Hp [k Hk] Ho Hi. apply wp_bind, wp_put_table. apply wp_bind. apply wp_bind, (wp_get_node n k); [done|]. apply wp_put_node, wp_ret. split.
  - apply install_ok with (w := w); [done..|]. intros Hl. by eapply count_u32.
  - unfold copy_to. by rewrite view_upd with (w := w).
Qed.

Lemma free_slot_spec files : ∀ from i, free_slot files from = Some i → from ≤ i ∧ files !! Z.to_nat (i - from) = Some None.
Proof.
  induction files as [|[x|] files IH]; intros from i Hi; [done| |].
  - apply IH in Hi as [Hge Hi]. split; [lia|]. by replace (Z.to_nat (i - from)) with (S (Z.to_nat (i - (from + 1)))) by lia.
  - injection Hi as ->. split; [lia|]. by rewrite Z.sub_diag.
Qed.

Lemma first_free_spec from t i : 0 ≤ from → first_free from t = Some i → fd_files t !! Z.to_nat i = Some None.
Proof.
  unfold first_free. intros Hf [Hge Hi]%free_slot_spec. rewrite lookup_drop in Hi. by replace (Z.to_nat i) with (Z.to_nat from + Z.to_nat (i - from))%nat by lia.
Qed.

Lemma copy_free_refines s w p t n fd from flags : fd_ok (s, w) → procs s !! p = Some t → fd_files t !! Z.to_nat fd = Some (Some n) → 0 ≤ from →
  wp (match first_free from t with None => mret (- EMFILE) | Some i => copy_fd p t n fd i flags end) (s, w) (refines (copy_free p t n fd from flags (view_of (s, w)))).
Proof.
  intros Hok Hp Hf Hfrom. unfold copy_free. destruct (first_free from t) as [i|] eqn:Hi; [|by apply wp_ret].
  destruct (held_of s w p t fd n Hok Hp Hf). apply copy_refines; [done..|]. by eapply first_free_spec.
Qed.

(** Flags and offsets are not counted. *)
Lemma files_same_refines s w p t t' x r : fd_ok (s, w) → procs s !! p = Some t → table_ok t' → fd_files t' = fd_files t → x = (v_put p t' (view_of (s, w)), r) →
  wp (put_table p t';; mret r) (s, w) (refines x).
Proof.
  intros Hok Hp Ht' Hf ->. apply wp_bind, wp_put_table, wp_ret. split; [|done].
  assert (∀ n, slots n (<[p := t']> (procs s)) = slots n (procs s)) as Hs by (intros n; pose proof (slots_insert n _ p t t' Hp) as Hi; rewrite Hf in Hi; lia).
  apply (fd_ok_upd s w p t' (nodes s)); [done..| |].
  - intros n k. rewrite Hs. apply (fo_count _ Hok).
  - intros n. rewrite Hs. apply (fo_held _ Hok).
Qed.

Lemma close_refines s w fd : fd_ok (s, w) → wp (sys_close_handler fd) (s, w) (refines (spec (Close fd) (view_of (s, w)))).
Proof.
  intros Hok. apply refines_on_fd; [done|]. intros p t n Hc Hp Ht Hr Hf. apply wp_unassoc, wp_bind. eapply drop_ok; [done..|].
  intros k r w' Hk Hok' Ho. apply wp_ret. split; [done|]. by rewrite view_close with (w := w).
Qed.

(** What is left of a table when one descriptor is closed. *)
Lemma close_at_table p t fd v o : v_procs v !! p = Some t → in_range fd = true → fd_files t !! Z.to_nat fd = Some o →
  ∃ t', v_procs (close_at p fd v) = <[p := t']> (v_procs v) ∧ fd_files t' !! Z.to_nat fd = Some None ∧
    (∀ x off fl, set_fd fd x off fl t' = set_fd fd x off fl t) ∧
    (∀ i, Z.to_nat i ≠ Z.to_nat fd → fd_files t' !! Z.to_nat i = fd_files t !! Z.to_nat i ∧ offset_of t' i = offset_of t i ∧ flags_of t' i = flags_of t i).
Proof.
  intros Hp Hr Hf. unfold close_at, table_at. rewrite Hp. cbn. rewrite Hr, Hf. destruct o as [n|]; cbn.
  - exists (set_fd fd None 0 0 t). split; [done|]. split; [|split].
    + apply list_lookup_insert_eq. by eapply lookup_lt_Some.
    + intros. unfold set_fd. cbn. by rewrite !list_insert_insert_eq.
    + intros i Hi. unfold offset_of, flags_of, set_fd. cbn. by rewrite list_lookup_insert_ne, !list_lookup_total_insert_ne.
  - exists t. split; [by rewrite list_insert_id|]. done.
Qed.

Lemma refines_view x r st : refines x r st → view_of st = x.1.
Proof. by intros [_ ->]. Qed.

Lemma view_procs st v : view_of st = v → procs st.1 = v_procs v ∧ current st.1 = v_current v.
Proof. by intros <-. Qed.

Lemma close_at_current p fd v : v_current (close_at p fd v) = v_current v.
Proof. unfold close_at. by destruct (table_at p fd v) as [[t n]|]. Qed.

(** Closing a descriptor of the current process, open or not. *)
Lemma close_file_wp s w p t fd o : fd_ok (s, w) → current s = Some p → procs s !! p = Some t → in_range fd = true → fd_files t !! Z.to_nat fd = Some o →
  wp (match o with Some _ => sys_close_handler fd;; mret tt | None => mret tt end) (s, w)
     (λ _ st, fd_ok st ∧ view_of st = close_at p fd (view_of (s, w))).
Proof.
  intros Hok Hc Hp Hr Hf. destruct o as [n|].
  - apply wp_bind. eapply wp_mono; [by apply close_refines|]. intros r st [Hok' E]. apply wp_ret. split; [done|].
    cbn [spec] in E. unfold on_fd, lookup_fd, table_at in E. cbn in E. rewrite Hc in E. cbn in E. rewrite Hp in E. cbn in E. rewrite Hr, Hf in E. cbn in E. by injection E.
  - apply wp_ret. split; [done|]. unfold close_at, table_at. cbn. rewrite Hp. cbn. by rewrite Hr, Hf.
Qed.

Lemma dup2_refines s w oldfd newfd : fd_ok (s, w) → wp (sys_dup2_handler oldfd newfd) (s, w) (refines (spec (Dup2 oldfd newfd) (view_of (s, w)))).
Proof.
  intros Hok. apply refines_on_fd; [done|]. intros p t n Hc Hp Ht Hr Hf. destruct (in_range newfd) eqn:Hr'; cbn [negb]; [|by apply wp_ret].
  destruct (Z.eqb_spec oldfd newfd) as [->|Hne]; [by apply wp_ret|]. apply in_range_spec in Hr as Hb. apply in_range_spec in Hr' as Hb'.
  destruct (file_at t newfd Ht Hb') as [o Ho]. apply wp_bind. eapply wp_deref; [done|]. apply wp_bind. eapply wp_mono; [by eapply close_file_wp|]. intros [] [s1 w1] [Hok1 E].
  destruct (close_at_table p t newfd (view_of (s, w)) o Hp Hr' Ho) as (t1&E1&Hnew&Hset&Hrest). destruct (view_procs _ _ E) as [Hps _]. cbn [fst] in Hps. rewrite E1 in Hps.
  assert (procs s1 !! p = Some t1) as Hp1 by (rewrite Hps; apply list_lookup_insert_eq; by eapply lookup_lt_Some).
  destruct (Hrest oldfd) as (Hf1&Hoff&Hfl); [lia|]. rewrite Hf in Hf1. apply wp_bind. eapply wp_get_table; [done|]. apply wp_bind. eapply wp_deref; [done|].
  destruct (held_of s1 w1 p t1 oldfd n Hok1 Hp1 Hf1). eapply wp_mono; [by apply copy_refines|]. intros r st [Hok2 E2]. split; [done|].
  rewrite <-E2. unfold copy_to. by rewrite <-E, Hset, Hoff, Hfl.
Qed.

Lemma dup3_refines s w oldfd newfd flags : fd_ok (s, w) → wp (sys_dup3_handler oldfd newfd flags) (s, w) (refines (spec (Dup3 oldfd newfd flags) (view_of (s, w)))).
Proof.
  intros Hok. cbn [spec]. unfold sys_dup3_handler. destruct (Z.eqb_spec oldfd newfd) as [->|Hne]; [by apply wp_ret|].
  apply wp_bind. eapply wp_mono; [by apply dup2_refines|]. intros r [s1 w1] [Hok1 E]. cbn [spec] in E. unfold spec_dup2, on_fd in *.
  destruct (lookup_fd oldfd (view_of (s, w))) as [[[p t] n]|] eqn:El; [|by apply pair_equal_spec in E as [E <-]; apply wp_ret; split; [|by rewrite E]].
  destruct (in_range newfd) eqn:Hr; cbn [negb] in *; [|by apply pair_equal_spec in E as [E <-]; apply wp_ret; split; [|by rewrite E]].
  rewrite (proj2 (Z.eqb_neq oldfd newfd) Hne) in *. destruct (has flags O_CLOEXEC); [|rewrite andb_false_r; apply wp_ret; by split].
  apply in_range_spec in Hr as Hb. unfold copy_to in *. apply pair_equal_spec in E as [E <-]. rewrite (proj2 (Z.leb_le 0 newfd)) by lia. cbn [andb].
  unfold lookup_fd, table_at in El. cbn in El. destruct (current s) as [q|] eqn:Hc; [|done]. cbn in El. destruct (procs s !! q) as [t0|] eqn:Hp; [|done]. cbn in El.
  destruct (in_range oldfd); [|done]. destruct (fd_files t0 !! Z.to_nat oldfd) as [[n'|]|] eqn:Hf; [|done..]. cbn in El. injection El as -> -> ->.
  destruct (table_of s w p Hok) as (t'&Hp'&Ht); [by eapply lookup_lt_Some|]. assert (t' = t) as -> by congruence. destruct (file_at t newfd Ht Hb) as [o Ho].
  destruct (close_at_table p t newfd (view_of (s, w)) o Hp Hr Ho) as (t1&E1&_). destruct (view_procs _ _ (eq_sym E)) as [Hps Hcur]. cbn in Hps, Hcur. rewrite close_at_current in Hcur. cbn in Hcur. rewrite Hc in Hcur.
  set (t2 := set_fd newfd (Some n) (offset_of t oldfd) (no_cloexec (flags_of t oldfd)) t) in *. rewrite E1, list_insert_insert_eq in Hps.
  assert (procs s1 !! p = Some t2) as Hp2 by (rewrite Hps; apply list_lookup_insert_eq; by eapply lookup_lt_Some).
  apply wp_bind, wp_fget, wp_bind. eapply wp_deref; [exact Hcur|]. apply wp_bind. eapply wp_get_table; [done|].
  eapply files_same_refines; [done|done| |done|].
  - destruct Ht as (?&?&?). unfold table_ok, t2, set_flags, set_fd. cbn. by rewrite !length_insert.
  - f_equal. rewrite <-E. unfold v_put, v_set_procs. cbn. rewrite list_insert_insert_eq. do 2 f_equal.
    assert (flags_of t2 newfd = no_cloexec (flags_of t oldfd)) as -> by (apply list_lookup_total_insert_eq; destruct Ht as (?&?&?); lia).
    unfold set_flags, t2, set_fd. cbn. by rewrite list_insert_insert_eq.
Qed.

Lemma install_refines s w n flags : fd_ok (s, w) → can_call (Install n flags) (s, w) → wp (alloc_fd n flags) (s, w) (refines (spec (Install n flags) (view_of (s, w)))).
Proof.
  intros Hok [[k Hk] Ho]. cbn [spec]. apply wp_bind, wp_fget. cbn [v_current view_of fst]. destruct (current s) as [p|] eqn:Hc; [|by apply wp_ret].
  destruct (table_of s w p Hok) as (t&Hp&Ht); [by apply (fo_current _ Hok)|]. apply wp_bind, (wp_get_table p t); [done|]. cbn. rewrite Hp. cbn.
  destruct (first_free 3 t) as [i|] eqn:Hi; cbn; [|by apply wp_ret]. apply wp_bind, wp_put_table. apply wp_bind, (wp_get_node n k); [done|]. apply wp_bind, wp_put_node, wp_ret. split.
  - apply install_ok with (w := w); [done|done|eapply first_free_spec; [|done]; lia|done|done|]. intros Hl. rewrite (count_u32 s w n k) by done. pose proof (fo_count _ Hok n k Hl Hk).
    destruct (Z.eqb_spec (n_refcount k) 0); lia.
  - by rewrite view_upd with (w := w).
Qed.

Lemma table_flags_ok t fd f : table_ok t → table_ok (set_flags fd f t).
Proof. intros (?&?&?). unfold table_ok, set_flags. cbn. by rewrite length_insert. Qed.

Lemma table_offset_ok t fd f : table_ok t → table_ok (set_offset fd f t).
Proof. intros (?&?&?). unfold table_ok, set_offset. cbn. by rewrite length_insert. Qed.

#[local] Hint Resolve table_flags_ok table_offset_ok : core.

Lemma with_fd_open s w fd err k p t n : lookup_fd fd (view_of (s, w)) = Some (p, t, n) →
  with_fd fd err k (s, w) = k p t n (s, w).
Proof.
  unfold lookup_fd, table_at. cbn. destruct (current s) as [q|] eqn:Hc; [|done]. cbn.
  destruct (procs s !! q) as [t0|] eqn:Hp; [|done]. cbn. destruct (in_range fd) eqn:Hr; [|done].
  destruct (fd_files t0 !! Z.to_nat fd) as [[m|]|] eqn:Hf; [|done..]. cbn. intros [= -> -> ->].
  unfold with_fd, fget, gets, get_table, deref, mbind, M_bind. cbn [fst]. rewrite Hc, Hr. cbn [negb fst]. rewrite Hp. by rewrite Hf.
Qed.

Lemma fcntl_faults s w fd cmd arg : starts_below (Fcntl fd cmd arg) (view_of (s, w)) = true →
  sys_fcntl_handler fd cmd arg (s, w) = Fault.
Proof.
  cbn [starts_below]. intros [[Hcmd Harg]%andb_true_iff [[[p t] n] Hl]%bool_decide_eq_true]%andb_true_iff.
  unfold sys_fcntl_handler. rewrite (with_fd_open _ _ _ _ _ _ _ _ Hl). cbv zeta. unfold dup_from. rewrite Harg.
  destruct (cmd =? F_DUPFD); [done|]. by destruct (cmd =? F_DUPFD_CLOEXEC).
Qed.

Lemma lookup_fd_open s w fd p t n : current s = Some p → procs s !! p = Some t → in_range fd = true → fd_files t !! Z.to_nat fd = Some (Some n) →
  lookup_fd fd (view_of (s, w)) = Some (p, t, n).
Proof. intros Hc Hp Hr Hf. unfold lookup_fd, table_at. cbn. rewrite Hc. cbn. rewrite Hp. cbn. by rewrite Hr, Hf. Qed.

Lemma fcntl_refines s w fd cmd arg : fd_ok (s, w) → starts_below (Fcntl fd cmd arg) (view_of (s, w)) = false →
  wp (sys_fcntl_handler fd cmd arg) (s, w) (refines (spec (Fcntl fd cmd arg) (view_of (s, w)))).
Proof.
  intros Hok Hb. apply refines_on_fd; [done|]. intros p t n Hc Hp Ht Hr Hf. cbn zeta. unfold dup_from.
  cbn [starts_below] in Hb. rewrite (lookup_fd_open s w fd p t n), bool_decide_eq_true_2, andb_true_r in Hb by done.
  destruct (cmd =? F_DUPFD); [|destruct (cmd =? F_DUPFD_CLOEXEC)]; cbn [orb andb] in Hb.
  1,2: rewrite Hb; apply Z.ltb_ge in Hb; by apply copy_free_refines.
  repeat case_match; first [by apply wp_ret | by eapply files_same_refines; eauto].
Qed.

Lemma lseek_refines s w fd offset whence : fd_ok (s, w) → wp (sys_lseek_handler fd offset whence) (s, w) (refines (spec (Lseek fd offset whence) (view_of (s, w)))).
Proof.
  intros Hok. apply refines_on_fd; [done|]. intros p t n Hc Hp Ht Hr Hf. cbn zeta. destruct (held_of s w p t fd n Hok Hp Hf) as [[k Hk] _].
  apply wp_bind, (wp_get_node n k); [done|]. assert (v_lengths (view_of (s, w)) !!! n = n_length k) as -> by (apply lookup_total_correct; cbn; by rewrite lookup_fmap, Hk).
  repeat case_match; simplify_eq; first [congruence | by apply wp_ret | by eapply files_same_refines; eauto].
Qed.

(** *** New processes *)

Definition bump (k : node) : node := set_refcount (u32 (n_refcount k + 1)) k.

Lemma bump_length j k : n_length (Nat.iter j bump k) = n_length k.
Proof. by induction j. Qed.

Lemma bump_count j k : 0 ≤ n_refcount k → n_refcount k + Z.of_nat j < 2 ^ 32 → n_refcount (Nat.iter j bump k) = n_refcount k + Z.of_nat j.
Proof.
  intros Hge. induction j as [|j IH]; intros Hj; [cbn; lia|]. change (Nat.iter (S j) bump k) with (bump (Nat.iter j bump k)). cbn [bump set_refcount n_refcount]. rewrite IH by lia. rewrite wrap_small; lia.
Qed.

(** Every node of a table counted once per descriptor. *)
Lemma wp_retain_all files : ∀ s w (Q : unit → state → Prop), (∀ n, Some n ∈ files → is_Some (nodes s !! n)) →
  (∀ nd, (∀ n, nd !! n = Nat.iter (held n files) bump <$> nodes s !! n) → Q tt (set_nodes nd s, w)) → wp (retain_all files) (s, w) Q.
Proof.
  induction files as [|[n|] files IH]; intros s w Q Hin HQ; cbn [retain_all].
  - apply wp_ret. replace s with (set_nodes (nodes s) s) by by destruct s. apply HQ. intros n. cbn. by destruct (nodes s !! n).
  - destruct (Hin n) as [k Hk]; [by left|]. apply wp_bind. apply wp_bind, (wp_get_node n k); [done|]. apply wp_put_node, IH.
    + intros m Hm. cbn. destruct (decide (m = n)) as [->|]; [by rewrite lookup_insert_eq|]. rewrite lookup_insert_ne by done. apply Hin. by right.
    + intros nd Hnd. apply (HQ nd). intros m. rewrite Hnd, held_cons. cbn. destruct (decide (m = n)) as [->|Hne].
      * rewrite lookup_insert_eq, one_same, Hk. cbn. f_equal. apply (Nat.iter_swap _ _ bump k).
      * by rewrite lookup_insert_ne, one_ne.
  - apply IH; [intros m Hm; apply Hin; by right|]. intros nd Hnd. apply HQ. intros m. by rewrite Hnd, held_cons, one_none.
Qed.

Lemma slots_snoc n ps t : slots n (ps ++ [t]) = (slots n ps + held n (fd_files t))%nat.
Proof. rewrite slots_app. unfold slots at 2. cbn. lia. Qed.

Lemma held_pos n files : (0 < held n files)%nat ↔ Some n ∈ files.
Proof.
  split.
  - unfold held. destruct (filter (λ o, o = Some n) files) as [|o l] eqn:Ef; [cbn; lia|]. intros _.
    assert (o ∈ filter (λ o, o = Some n) files) as Hel by (rewrite Ef; by left). by apply list_elem_of_filter in Hel as [-> Hel].
  - intros [i Hi]%list_elem_of_lookup. by eapply held_elem.
Qed.

(** A table added, with nodes counted for it. *)
Lemma add_table_ok s w t nd : fd_ok (s, w) → Z.of_nat (length (procs s)) < MAX_PROCS → table_ok t →
  (∀ n k, lasting n = false → nd !! n = Some k → n_refcount k = Z.of_nat (slots n (procs s) + held n (fd_files t))) →
  (∀ n, is_Some (nodes s !! n) → is_Some (nd !! n)) → (∀ n, Some n ∈ fd_files t → is_Some (nd !! n) ∧ n ∈ opened w) →
  fd_ok (set_procs (procs s ++ [t]) (set_nodes nd s), w).
Proof.
  intros [Ht Hm Hc Hn Hh] Hroom Ht' Hcount Hnd Hin. cbn [fst snd] in *. split; cbn [fst snd set_procs set_nodes procs current nodes].
  - apply Forall_app_2; [done|]. by apply Forall_singleton.
  - rewrite length_app. cbn. lia.
  - intros p Hp. rewrite length_app. specialize (Hc p Hp). lia.
  - intros n k. rewrite slots_snoc. apply Hcount.
  - intros n Hs. rewrite slots_snoc in Hs. destruct (decide (0 < slots n (procs s))%nat) as [Hp|Hz].
    + destruct (Hh n Hp). split; [by apply Hnd|done].
    + apply Hin, held_pos. lia.
Qed.

Lemma clone_refines s w : fd_ok (s, w) → can_call Clone (s, w) → wp clone_files (s, w) (refines (spec Clone (view_of (s, w)))).
Proof.
  intros Hok [[p Hc] Hroom]. cbn [fst] in *. destruct (table_of s w p Hok) as (t&Hp&Ht); [by apply (fo_current _ Hok)|]. cbn [spec]. unfold on_current. cbn [v_current view_of fst v_procs]. rewrite Hc, Hp.
  apply wp_bind, wp_fget, wp_bind. eapply wp_deref; [done|]. apply wp_bind. eapply wp_get_table; [done|].
  assert (∀ n, Some n ∈ fd_files t → is_Some (nodes s !! n) ∧ n ∈ opened w) as Hin.
  { intros n Hn%held_pos. apply (fo_held _ Hok). cbn. pose proof (slots_held n _ p t Hp). lia. }
  apply wp_bind, wp_retain_all; [intros n Hn; by apply Hin|]. intros nd Hnd. apply wp_bind, wp_fget, wp_bind. apply (wp_fset (λ s, set_procs (procs s ++ [t]) s)). apply wp_ret.
  assert (∀ n, is_Some (nodes s !! n) → is_Some (nd !! n)) as Hsome by (intros n; rewrite Hnd; apply fmap_is_Some). split.
  - apply (add_table_ok s w t nd); [done..| |done|].
    + intros n k Hl Hk. rewrite Hnd in Hk. apply fmap_Some in Hk as (k0&Hk0&->). pose proof (fo_count _ Hok n k0 Hl Hk0) as Hr. cbn in Hr, Hroom.
      pose proof (slots_bound (procs s) n (fo_tables _ Hok)). pose proof (held_le n (fd_files t)). destruct Ht as [Hlen _]. unfold MAX_PROCS in Hroom. rewrite bump_count; lia.
    + intros n Hn. destruct (Hin n Hn). split; [by apply Hsome|done].
  - unfold view_of, v_set_procs. cbn. do 2 f_equal. apply map_eq. intros n. rewrite !lookup_fmap, Hnd. destruct (nodes s !! n); cbn; [|done]. by rewrite bump_length.
Qed.

Lemma load_refines s w tty : fd_ok (s, w) → can_call (Load tty) (s, w) → wp (load_files tty) (s, w) (refines (spec (Load tty) (view_of (s, w)))).
Proof.
  intros Hok (Hl&Htty&Ho&Hroom). cbn [fst snd] in *. apply wp_bind, wp_fget, wp_bind. set (t := set_fd 2 _ 0 0 _). apply (wp_fset (λ s, set_procs (procs s ++ [t]) s)). apply wp_ret. split; [|done].
  assert (∀ n, Some n ∈ fd_files t → n = tty) as Hn.
  { intros n. change (fd_files t) with (Some tty :: Some tty :: Some tty :: replicate 125 (@None Z)). rewrite !elem_of_cons, elem_of_replicate. naive_solver. }
  replace s with (set_nodes (nodes s) s) at 2 by by destruct s. apply add_table_ok; [done|done|done| |done|].
  - intros n k Hln Hk. rewrite (fo_count _ Hok n k Hln Hk). destruct (decide (0 < held n (fd_files t))%nat) as [Hel%held_pos%Hn|]; [congruence|cbn [fst]; lia].
  - intros n Hel. rewrite (Hn n Hel). done.
Qed.

(** *** Loops over a table *)

Lemma close_at_length p fd v : length (v_procs (close_at p fd v)) = length (v_procs v).
Proof. unfold close_at. destruct (table_at p fd v) as [[t n]|]; [|done]. cbn. by rewrite length_insert. Qed.

Lemma close_loop_wp pick p body st (Q : unit → state → Prop) : fd_ok st → (p < length (procs st.1))%nat →
  (∀ s w fd t, fd_ok (s, w) → current s = current st.1 → procs s !! p = Some t → in_range fd = true →
     wp (body fd) (s, w) (λ _ st', fd_ok st' ∧ view_of st' = close_step pick p (view_of (s, w)) fd)) →
  (∀ st', fd_ok st' → view_of st' = close_all pick p (view_of st) → Q tt st') →
  wp (for_loop 0 MAX_OPEN_FILES body) st Q.
Proof.
  intros Hok Hp Hbody HQ.
  apply wp_for_loop with (I := λ i st', fd_ok st' ∧ view_of st' = foldl (close_step pick p) (view_of st) (seqZ 0 i) ∧ current st'.1 = current st.1 ∧ (p < length (procs st'.1))%nat).
  - done.
  - intros j [s w] Hj (Hok'&E&Hc&Hl). change (0 + Z.of_nat MAX_OPEN_FILES) with 128 in Hj. destruct (table_of s w p Hok' Hl) as (t&Ht&_).
    eapply wp_mono; [apply (Hbody s w j t); [done..|]|].
    + unfold in_range. change (Z.of_nat MAX_OPEN_FILES) with 128. by rewrite (proj2 (Z.leb_le 0 j)), (proj2 (Z.ltb_lt j 128)) by lia.
    + intros [] st' [Hok'' E']. destruct (view_procs _ _ E') as [Eps Ec]. split; [done|]. unfold close_step in Eps, Ec. split; [|split].
      * rewrite E', E. rewrite seqZ_app with (n1 := j) by lia. rewrite foldl_app. by rewrite Z.add_0_l.
      * rewrite Ec, <-Hc. case_match; [by rewrite close_at_current|done].
      * rewrite Eps. case_match; [by rewrite close_at_length|done].
  - intros st' (Hok'&E&_). by apply HQ.
Qed.

Lemma close_one_wp p s w fd t : fd_ok (s, w) → procs s !! p = Some t → in_range fd = true →
  wp (close_one p fd) (s, w) (λ _ st', fd_ok st' ∧ view_of st' = close_at p fd (view_of (s, w))).
Proof.
  intros Hok Hp Hr. destruct (table_of s w p Hok) as (t'&Hp'&Ht); [by eapply lookup_lt_Some|]. assert (t' = t) as -> by congruence.
  destruct (file_at t fd Ht (in_range_spec fd Hr)) as [o Ho]. apply wp_bind. eapply wp_get_table; [done|]. apply wp_bind. eapply wp_deref; [done|]. destruct o as [n|].
  - eapply drop_ok; [done..|]. intros k r w' Hk Hok' Ew. split; [done|]. by apply view_close.
  - apply wp_ret. split; [done|]. unfold close_at, table_at. cbn. rewrite Hp. cbn. by rewrite Hr, Ho.
Qed.

Lemma close_current_wp b p s w fd t : fd_ok (s, w) → current s = Some p → procs s !! p = Some t → in_range fd = true →
  wp (close_current b fd) (s, w) (λ _ st', fd_ok st' ∧ view_of st' = close_step (if b then cloexec_at p else λ _ _, true) p (view_of (s, w)) fd).
Proof.
  intros Hok Hc Hp Hr. destruct (table_of s w p Hok) as (t'&Hp'&Ht); [by eapply lookup_lt_Some|]. assert (t' = t) as -> by congruence.
  destruct (file_at t fd Ht (in_range_spec fd Hr)) as [o Ho]. apply wp_bind, wp_fget, wp_bind. eapply wp_deref; [done|]. apply wp_bind. eapply wp_get_table; [done|]. apply wp_bind. eapply wp_deref; [done|].
  pose proof (close_file_wp s w p t fd o Hok Hc Hp Hr Ho) as Hclose. unfold close_step. destruct b; cbn [andb].
  - unfold cloexec_at. cbn [view_of v_procs fst]. rewrite Hp. destruct (has (flags_of t fd) O_CLOEXEC); cbn [negb]; [by destruct o|]. by destruct o; apply wp_ret.
  - by destruct o.
Qed.

Lemma current_loop_wp b p st : fd_ok st → current st.1 = Some p →
  wp (for_loop 0 MAX_OPEN_FILES (close_current b)) st (λ _ st', fd_ok st' ∧ view_of st' = close_all (if b then cloexec_at p else λ _ _, true) p (view_of st)).
Proof.
  intros Hok Hc. eapply close_loop_wp; [done|by apply (fo_current _ Hok)| |done]. intros s' w' fd t Hok' Hc' Hp Hr. rewrite Hc in Hc'. by eapply close_current_wp.
Qed.

(** ** The calls refine the machine *)

(** C21. Every descriptor call but one keeps the counts right and does, without
    a fault, what the machine without counts does: installing a node,
    [close], [dup], [dup2], [dup3], [fcntl], [lseek], the copy of the table
    at [clone], the closing of marked descriptors at [execve], of all of them
    at [exit] or when a task is killed, and the table of a loaded program.  A
    node is therefore closed with its last descriptor and not before, whatever
    processes share it; results and error codes are those of the machine.  The
    one exception is stated too: [F_DUPFD] or [F_DUPFD_CLOEXEC] on an open
    descriptor with a negative start always accesses memory outside the
    descriptor table. *)
Theorem fd_calls_refine c st : fd_ok st → can_call c st →
  if starts_below c (view_of st) then run c st = Fault
  else ∃ r st', run c st = Ret (r, st') ∧ fd_ok st' ∧ spec c (view_of st) = (view_of st', r).
Proof.
  intros Hok Hcan. destruct (starts_below c (view_of st)) eqn:Hb.
  { destruct c; try done. destruct st as [s w]. by apply fcntl_faults. }
  apply (wp_run (run c) st (refines (spec c (view_of st)))). destruct st as [s w]. destruct c; cbn [run can_call] in *.
  - by apply install_refines.
  - by apply close_refines.
  - apply refines_on_fd; [done|]. intros p t n Hc Hp Ht Hr Hf. by apply copy_free_refines.
  - by apply dup2_refines.
  - by apply dup3_refines.
  - by apply fcntl_refines.
  - by apply lseek_refines.
  - by apply clone_refines.
  - destruct Hcan as [p Hc]. apply wp_bind. eapply wp_mono; [by apply (current_loop_wp true p)|]. intros [] st' [Hok' E]. apply wp_ret. split; [done|].
    cbn [spec]. unfold on_current. cbn [view_of v_current]. rewrite Hc. by rewrite E.
  - destruct Hcan as [p Hc]. apply wp_bind. eapply wp_mono; [by apply (current_loop_wp false p)|]. intros [] st' [Hok' E]. apply wp_ret. split; [done|].
    cbn [spec]. unfold on_current. cbn [view_of v_current]. rewrite Hc. by rewrite E.
  - apply wp_bind, (close_loop_wp (λ _ _, true) p); [done..| |].
    + intros s' w' fd t Hok' Hc' Hp Hr. by eapply close_one_wp.
    + intros st' Hok' E. apply wp_ret. split; [done|]. cbn [spec]. by rewrite E.
  - by apply load_refines.
Qed.

(** ** Exit *)

Lemma slots_pos n ps : (0 < slots n ps)%nat ↔ ∃ q t, ps !! q = Some t ∧ Some n ∈ fd_files t.
Proof.
  split.
  - induction ps as [|t ps IH]; [by intros ?%Nat.lt_irrefl|]. rewrite slots_cons. intros Hs. destruct (decide (0 < held n (fd_files t))%nat) as [Hh%held_pos|]; [by exists 0%nat, t|].
    destruct IH as (q&t'&?&?); [lia|]. by exists (S q), t'.
  - intros (q&t&Hq&Hn%held_pos). pose proof (slots_held n ps q t Hq). lia.
Qed.

(** A table whose first [i] descriptors are closed, and the nodes left open. *)
Record closed_to (v0 : view) p t (i : nat) v : Prop := {
  ct_table : ∃ t', v_procs v = <[p := t']> (v_procs v0) ∧ ∀ j, fd_files t' !! j = if decide (j < i)%nat then Some None else fd_files t !! j;
  ct_open n : n ∈ v_open v ↔ n ∈ v_open v0 ∧ (lasting n = true ∨ slots n (v_procs v0) = 0%nat ∨ (0 < slots n (v_procs v))%nat);
}.

Lemma closed_to_step v0 p t i v : v_procs v0 !! p = Some t → (i < 128)%nat → length (fd_files t) = 128%nat → closed_to v0 p t i v → closed_to v0 p t (S i) (close_at p (Z.of_nat i) v).
Proof.
  intros Hp Hi Hlen [(t'&Ep&Hf) Ho]. assert (v_procs v !! p = Some t') as Hp' by (rewrite Ep; apply list_lookup_insert_eq; by eapply lookup_lt_Some).
  assert (in_range (Z.of_nat i) = true) as Hr by (unfold in_range; change (Z.of_nat MAX_OPEN_FILES) with 128; rewrite (proj2 (Z.leb_le 0 (Z.of_nat i))), (proj2 (Z.ltb_lt (Z.of_nat i) 128)) by lia; done).
  destruct (lookup_lt_is_Some_2 (fd_files t) i) as [o Hoi]; [lia|]. assert (fd_files t' !! i = Some o) as Hfi by (rewrite Hf, decide_False by lia; done).
  unfold close_at, table_at. rewrite Hp'. cbn. rewrite Hr, Nat2Z.id, Hfi. destruct o as [n|]; cbn.
  - split; cbn.
    + exists (set_fd (Z.of_nat i) None 0 0 t'). split; [by rewrite Ep, list_insert_insert_eq|]. intros j. cbn. rewrite Nat2Z.id. destruct (decide (j = i)) as [->|Hne].
      * rewrite list_lookup_insert_eq by by eapply lookup_lt_Some. by rewrite decide_True by lia.
      * rewrite list_lookup_insert_ne, Hf by done. repeat case_decide; [done|lia|lia|done].
    + intros m. set (ps := <[p := _]> (v_procs v)).
      assert (slots m ps + one m (Some n) = slots m (v_procs v))%nat as Hs by (pose proof (slots_set m (v_procs v) p t' (Z.of_nat i) (Some n) None 0 0 Hp') as Hs; rewrite Nat2Z.id in Hs; specialize (Hs Hfi); rewrite one_none in Hs; fold ps in Hs; lia).
      unfold open_after. destruct (decide (m = n)) as [->|Hne].
      * rewrite one_same in Hs. destruct (lasting n) eqn:El; cbn [orb]; [rewrite Ho; naive_solver|]. destruct (Nat.ltb_spec 0 (slots n ps)) as [Hpos|Hz]; [rewrite Ho; naive_solver lia|].
        rewrite elem_of_difference, elem_of_singleton. split; [naive_solver|]. intros [Hin [?|[Hz0|?]]]; [done| |lia]. exfalso.
        assert (0 < slots n (v_procs v0))%nat as Hp0; [|lia]. apply slots_pos. exists p, t. split; [done|]. by eapply list_elem_of_lookup_2.
      * rewrite one_ne, Nat.add_0_r in Hs by done. rewrite Hs, <-Ho. case_match; [done|]. rewrite elem_of_difference, elem_of_singleton. naive_solver.
  - split; [|done]. exists t'. split; [done|]. intros j. rewrite Hf. repeat case_decide; [done|lia| |done]. assert (j = i) as -> by lia. done.
Qed.

Lemma close_all_to v0 p t i : v_procs v0 !! p = Some t → (i ≤ 128)%nat → length (fd_files t) = 128%nat →
  closed_to v0 p t i (foldl (close_step (λ _ _, true) p) v0 (seqZ 0 (Z.of_nat i))).
Proof.
  intros Hp Hi Hlen. induction i as [|i IH].
  - change (foldl _ _ _) with v0. split; [exists t; split; [by rewrite list_insert_id|done]|]. intros n. split; [|by intros []]. intros Hin. split; [done|]. right. lia.
  - rewrite seqZ_S, foldl_app. cbn [foldl]. rewrite Z.add_0_l. apply closed_to_step; [done|lia|done|]. apply IH. lia.
Qed.

Lemma close_all_closed v0 p t : v_procs v0 !! p = Some t → length (fd_files t) = 128%nat → closed_to v0 p t 128 (close_all (λ _ _, true) p v0).
Proof. intros Hp Hlen. unfold close_all. change 128 with (Z.of_nat 128). by apply close_all_to. Qed.

(** C22. When a process exits its table is empty and the other tables are as
    they were; of the open nodes exactly those are closed that it held and no
    other process holds, except nodes without a close operation. *)
Theorem exit_releases st p t : fd_ok st → current st.1 = Some p → procs st.1 !! p = Some t →
  ∃ st', exit_files st = Ret (tt, st') ∧ fd_ok st' ∧
    (∃ t', procs st'.1 = <[p := t']> (procs st.1) ∧ ∀ n, Some n ∉ fd_files t') ∧
    ∀ n, n ∈ opened st'.2 ↔ n ∈ opened st.2 ∧ (lasting n = true ∨ Some n ∉ fd_files t ∨ ∃ q t', q ≠ p ∧ procs st.1 !! q = Some t' ∧ Some n ∈ fd_files t').
Proof.
  intros Hok Hc Hp. destruct (wp_run _ _ _ (current_loop_wp false p st Hok Hc)) as ([]&st'&Hrun&Hok'&E). exists st'. split; [done|]. split; [done|].
  assert (table_ok t) as (Hlen&_) by (eapply Forall_lookup_1; [apply (fo_tables _ Hok)|done]).
  destruct (close_all_closed (view_of st) p t Hp Hlen) as [(t'&Ep&Hf) Ho]. rewrite <-E in Ep, Ho. cbn [view_of v_procs v_open] in Ep, Ho.
  assert (∀ n, Some n ∉ fd_files t') as Hno.
  { intros n [j Hj]%list_elem_of_lookup. rewrite Hf in Hj. case_decide; [done|]. apply lookup_lt_Some in Hj. lia. }
  split; [by exists t'|]. intros n. rewrite Ho. apply and_iff_compat_l, or_iff_compat_l. rewrite Ep, slots_pos. split.
  - intros [Hz|(q&t1&Hq&Hn)].
    + left. intros Hn. assert (0 < slots n (procs st.1))%nat; [|lia]. apply slots_pos. by exists p, t.
    + right. destruct (decide (q = p)) as [->|Hne]; [|rewrite list_lookup_insert_ne in Hq by done; by exists q, t1].
      rewrite list_lookup_insert_eq in Hq by (by eapply lookup_lt_Some). injection Hq as <-. by destruct (Hno n).
  - intros [Hn|(q&t1&Hne&Hq&Hn)]; [|right; exists q, t1; by rewrite list_lookup_insert_ne]. destruct (decide (slots n (procs st.1) = 0%nat)) as [|Hz]; [by left|]. right.
    destruct (proj1 (slots_pos n (procs st.1))) as (q&t1&Hq&Hn1); [lia|]. exists q, t1. split; [|done]. rewrite list_lookup_insert_ne; [done|]. intros ->. congruence.
Qed.

End Refine.

(** ** Witnesses *)

(** Two processes: the first has the terminal and a file, the second the
    terminal, the same file and one of its own. *)
Definition table_a : fd_table := set_fd 3 (Some 7) 0 0 (set_fd 0 (Some 0) 0 0 empty_table).
Definition table_b : fd_table := set_fd 4 (Some 7) 0 O_CLOEXEC (set_fd 3 (Some 8) 0 0 (set_fd 0 (Some 0) 0 0 empty_table)).
Definition sample_fds : state (W := gset Z) := (mk_fdstate [table_a; table_b] (Some 1%nat) {[0 := mk_node 0 0; 7 := mk_node 2 10; 8 := mk_node 1 20]}, {[0; 7; 8]}).

Lemma sample_fds_ok : fd_ok sample_fds.
Proof.
  split; cbn [sample_fds fst snd procs current nodes].
  - repeat constructor.
  - unfold MAX_PROCS. cbn. lia.
  - intros p [= <-]. cbn. lia.
  - intros n k Hl Hk. apply lookup_insert_Some in Hk as [[<- <-]|[_ Hk]]; [done|].
    apply lookup_insert_Some in Hk as [[<- <-]|[_ Hk]]; [by vm_compute|]. apply lookup_singleton_Some in Hk as [<- <-]. by vm_compute.
  - intros n (q&t&Hq&Hn)%slots_pos. assert (n = 0 ∨ n = 7 ∨ n = 8) as [->|[->| ->]]; [|by (split; [vm_compute; eauto|set_solver])..].
    assert (∀ o, o ∈ fd_files table_a ++ fd_files table_b → o = None ∨ o = Some 0 ∨ o = Some 7 ∨ o = Some 8) as Hall.
    { apply Forall_forall. apply (bool_decide_unpack _). by vm_compute. }
    destruct (Hall (Some n)) as [?|[?|[?|?]]]; [|naive_solver..]. apply elem_of_app. destruct q as [|[|q]]; [| |done]; injection Hq as <-; eauto.
Qed.

Lemma fd_calls_refine_witness : (∃ r st', run (Dup2 3 4) sample_fds = Ret (r, st') ∧ fd_ok st' ∧ spec (Dup2 3 4) (view_of sample_fds) = (view_of st', r)) ∧
  run (Fcntl 3 F_DUPFD (2 ^ 64 - 1)) sample_fds = Fault.
Proof.
  split.
  - exact (fd_calls_refine (Dup2 3 4) sample_fds sample_fds_ok I).
  - exact (fd_calls_refine (Fcntl 3 F_DUPFD (2 ^ 64 - 1)) sample_fds sample_fds_ok I).
Defined.

Lemma exit_releases_witness : ∃ st', exit_files sample_fds = Ret (tt, st') ∧ fd_ok st' ∧
    (∃ t', procs st'.1 = <[1%nat := t']> (procs sample_fds.1) ∧ ∀ n, Some n ∉ fd_files t') ∧
    ∀ n, n ∈ opened st'.2 ↔ n ∈ opened sample_fds.2 ∧ (lasting n = true ∨ Some n ∉ fd_files table_b ∨ ∃ q t', q ≠ 1%nat ∧ procs sample_fds.1 !! q = Some t' ∧ Some n ∈ fd_files t').
Proof. apply (exit_releases sample_fds 1 table_b); [exact sample_fds_ok|done|done]. Defined.

(** Exit of the second process closes its file and keeps the shared one. *)
Example exit_sample : match exit_files sample_fds with Ret (_, st') => bool_decide (st'.2 = {[0; 7]}) | _ => false end = true.
Proof. by vm_compute. Qed.

(** The three descriptors of a loaded program are not counted: were the
    terminal to have a close operation, closing the first would close it
    under the other two. *)
Definition loaded : M (state (W := gset Z)) (option Z * bool) :=
  p ← load_files 5; fset (set_current (Some (Z.to_nat p)));; sys_close_handler 0;;
  t ← get_table (Z.to_nat p); gets (λ st, (mjoin (fd_files t !! 1%nat), bool_decide (5 ∈ opened st.2))).

Example load_uncounted : (λ x, x.1) <$> (match loaded (mk_fdstate [] None {[5 := mk_node 0 0]}, {[5]}) with Ret x => Some x | _ => None end) = Some (Some 5, false).
Proof. by vm_compute. Qed.

End FdRefine.
