(* ===== verification/AfUnix.v ===== *)
(** * UNIX domain sockets ([ipc/af_unix.c])

    Sockets are objects in a heap; [kfree] removes the object, so a use of a
    dangling [peer] pointer is a fault.  A blocking call is cut where it gives
    up the processor, as in [Pipe]. *)
From S2P Require Import Prelude Ring Blocking.

Module AfUnix.
Import Ring.

Definition UNIX_SOCK_BUF_SIZE : Z := 262144.
Definition UNIX_BACKLOG_MAX : Z := 16.
Definition EAGAIN : Z := 11.
Definition EBADF : Z := 9.
Definition ENOMEM : Z := 12.
Definition EINVAL : Z := 22.
Definition EPIPE : Z := 32.
Definition ECONNABORTED : Z := 103.
Definition EISCONN : Z := 106.
Definition ECONNREFUSED : Z := 111.
Definition O_NONBLOCK : Z := 2048.

Inductive unix_sock_state := CREATED | BOUND | LISTENING | CONNECTED | CLOSED.

#[global] Instance unix_sock_state_eq_dec : EqDecision unix_sock_state.
Proof. solve_decision. Defined.

Record unix_socket := mk_sock {
  u_state : unix_sock_state;
  u_type : Z;
  u_ring : ring; (* buffer, read_pos, write_pos, count *)
  u_peer : option Z;
  u_backlog : list Z; (* the first [backlog_count] entries *)
  u_backlog_max : Z;
  u_blocked_reader : option Z;
  u_blocked_writer : option Z;
  u_blocked_accept : option Z;
  u_ref_count : Z;
  u_peer_closed : bool;
}.

Definition set_state v u := mk_sock v (u_type u) (u_ring u) (u_peer u) (u_backlog u) (u_backlog_max u)
  (u_blocked_reader u) (u_blocked_writer u) (u_blocked_accept u) (u_ref_count u) (u_peer_closed u).
Definition set_ring v u := mk_sock (u_state u) (u_type u) v (u_peer u) (u_backlog u) (u_backlog_max u)
  (u_blocked_reader u) (u_blocked_writer u) (u_blocked_accept u) (u_ref_count u) (u_peer_closed u).
Definition set_peer v u := mk_sock (u_state u) (u_type u) (u_ring u) v (u_backlog u) (u_backlog_max u)
  (u_blocked_reader u) (u_blocked_writer u) (u_blocked_accept u) (u_ref_count u) (u_peer_closed u).
Definition set_backlog v u := mk_sock (u_state u) (u_type u) (u_ring u) (u_peer u) v (u_backlog_max u)
  (u_blocked_reader u) (u_blocked_writer u) (u_blocked_accept u) (u_ref_count u) (u_peer_closed u).
Definition set_backlog_max v u := mk_sock (u_state u) (u_type u) (u_ring u) (u_peer u) (u_backlog u) v
  (u_blocked_reader u) (u_blocked_writer u) (u_blocked_accept u) (u_ref_count u) (u_peer_closed u).
Definition set_blocked_reader v u := mk_sock (u_state u) (u_type u) (u_ring u) (u_peer u) (u_backlog u) (u_backlog_max u)
  v (u_blocked_writer u) (u_blocked_accept u) (u_ref_count u) (u_peer_closed u).
Definition set_blocked_writer v u := mk_sock (u_state u) (u_type u) (u_ring u) (u_peer u) (u_backlog u) (u_backlog_max u)
  (u_blocked_reader u) v (u_blocked_accept u) (u_ref_count u) (u_peer_closed u).
Definition set_blocked_accept v u := mk_sock (u_state u) (u_type u) (u_ring u) (u_peer u) (u_backlog u) (u_backlog_max u)
  (u_blocked_reader u) (u_blocked_writer u) v (u_ref_count u) (u_peer_closed u).
Definition set_ref_count v u := mk_sock (u_state u) (u_type u) (u_ring u) (u_peer u) (u_backlog u) (u_backlog_max u)
  (u_blocked_reader u) (u_blocked_writer u) (u_blocked_accept u) v (u_peer_closed u).
Definition set_peer_closed v u := mk_sock (u_state u) (u_type u) (u_ring u) (u_peer u) (u_backlog u) (u_backlog_max u)
  (u_blocked_reader u) (u_blocked_writer u) (u_blocked_accept u) (u_ref_count u) v.

(** How a call ends, or where it stops. *)
Inductive sread := SRDone (ret : Z) (data : list Z) | SRBlocked.
Inductive swrite := SWDone (ret : Z) | SWBlocked (rest : list Z) (written : Z).
Inductive saccept := SADone (ret : Z) (client : option Z) | SABlocked.

Section Ops.
  Context {SC : Type} `{SchedOps SC}.

Definition state : Type := gmap Z unix_socket * SC.

Definition uget {A} (s : Z) (f : unix_socket → A) : M state A := deref (λ st, f <$> st.1 !! s).

Definition uset (s : Z) (f : unix_socket → unix_socket) : M state unit :=
  _ ← uget s id; modify (λ st, (alter f s st.1, st.2)).

Definition on_ring {A} (s : Z) (m : M ring A) : M state A := λ st,
  match st.1 !! s with
  | None => Fault
  | Some u => match m (u_ring u) with
              | Ret (a, r) => Ret (a, (<[s := set_ring r u]> st.1, st.2))
              | Panic => Panic
              | Fault => Fault
              | Wait => Wait
              end
  end.

(** [kfree(sock)]. *)
Definition ufree (s : Z) : M state unit := _ ← uget s id; modify (λ st, (delete s st.1, st.2)).

Definition new_socket (type : Z) : unix_socket :=
  mk_sock CREATED type (empty_ring UNIX_SOCK_BUF_SIZE) None [] 0 None None None 1 false.

(** [unix_socket_create]: [fresh] is the address the allocator returned, or
    [None] when one of the two allocations failed. *)
Definition unix_socket_create (fresh : option Z) (type : Z) : M state (option Z) :=
  match fresh with
  | None => mret None
  | Some s => modify (λ st, (<[s := new_socket type]> st.1, st.2));; mret (Some s)
  end.

Definition unix_socket_listen (s : Z) (backlog : Z) : M state Z :=
  st ← uget s u_state;
  if bool_decide (st ≠ BOUND) then mret (- EINVAL) else
  uset s (set_backlog_max (if UNIX_BACKLOG_MAX <? backlog then UNIX_BACKLOG_MAX else if backlog <=? 0 then 1 else backlog));;
  uset s (set_backlog []);;
  uset s (set_state LISTENING);;
  mret 0.

(** [if (x->blocked) { sched_unblock(x->blocked); x->blocked = NULL; }] *)
Definition wake_blocked (s : Z) (get : unix_socket → option Z) (clear : unix_socket → unix_socket) : M state unit :=
  b ← uget s get;
  match b with Some t => lift_r (unblock t);; uset s clear | None => mret tt end.

(** [node_ptr]: what the path lookup found behind the node. *)
Definition unix_socket_connect (client : Z) (node_ptr fresh : option Z) : M state Z :=
  cst ← uget client u_state;
  if bool_decide (cst = CONNECTED) then mret (- EISCONN) else
  match node_ptr with
  | None => mret (- ECONNREFUSED)
  | Some server =>
      sst ← uget server u_state;
      if bool_decide (sst ≠ LISTENING) then mret (- ECONNREFUSED) else
      bl ← uget server u_backlog;
      bmax ← uget server u_backlog_max;
      if bmax <=? Z.of_nat (length bl) then mret (- EAGAIN) else
      type ← uget client u_type;
      peer ← unix_socket_create fresh type;
      match peer with
      | None => mret (- ENOMEM)
      | Some server_peer =>
          uset client (set_peer (Some server_peer));;
          uset server_peer (set_peer (Some client));;
          uset client (set_state CONNECTED);;
          uset server_peer (set_state CONNECTED);;
          (* backlog[backlog_count++]: the array has UNIX_BACKLOG_MAX entries *)
          (if Z.of_nat (length bl) <? UNIX_BACKLOG_MAX then uset server (set_backlog (bl ++ [server_peer])) else fault);;
          b ← uget server u_blocked_accept;
          (match b with
           | Some t => lift_r (unblock t);; lift_r wake_all;; uset server (set_blocked_accept None)
           | None => mret tt
           end);;
          mret 0
      end
  end.

Definition accept_loop (current_task : option Z) (server : Z) (nonblock : bool) : M state saccept :=
  bl ← uget server u_backlog;
  match bl with
  | [] =>
      pc ← uget server u_peer_closed;
      if (pc : bool) then mret (SADone (- ECONNABORTED) None) else
      if nonblock then mret (SADone (- EAGAIN) None) else
      match current_task with
      | Some t => uset server (set_blocked_accept (Some t));; lift_r (block t);; mret SABlocked
      | None => λ _, Wait
      end
  | accepted :: bl' => uset server (set_backlog bl');; mret (SADone 0 (Some accepted))
  end.

Definition unix_socket_accept (current_task : option Z) (server : Z) (nonblock : bool) : M state saccept :=
  st ← uget server u_state;
  if bool_decide (st ≠ LISTENING) then mret (SADone (- EINVAL) None) else accept_loop current_task server nonblock.

Definition accept_resume (current_task : option Z) (server : Z) (nonblock : bool) : M state saccept :=
  uset server (set_blocked_accept None);; accept_loop current_task server nonblock.

Definition read_loop (current_task : option Z) (s count : Z) (nonblock : bool) : M state sread :=
  c ← uget s (λ u, r_count (u_ring u));
  if c =? 0 then
    pc ← uget s u_peer_closed;
    if (pc : bool) then mret (SRDone 0 []) else
    if nonblock then mret (SRDone (- EAGAIN) []) else
    match current_task with
    | Some t => uset s (set_blocked_reader (Some t));; lift_r (block t);; mret SRBlocked
    | None => λ _, Wait
    end
  else
    let to_read := if count <? c then count else c in
    data ← on_ring s (drain UNIX_SOCK_BUF_SIZE (Z.to_nat to_read));
    peer ← uget s u_peer;
    (match peer with
     | Some p => wake_blocked p u_blocked_writer (set_blocked_writer None)
     | None => mret tt
     end);;
    mret (SRDone to_read data).

Definition unix_socket_read (current_task : option Z) (s count : Z) (nonblock : bool) : M state sread :=
  if count =? 0 then mret (SRDone 0 []) else read_loop current_task s count nonblock.

Definition read_resume (current_task : option Z) (s count : Z) (nonblock : bool) : M state sread :=
  uset s (set_blocked_reader None);; read_loop current_task s count nonblock.

Fixpoint write_loop (current_task : option Z) (s dest : Z) (rest : list Z) (written : Z) (nonblock : bool) : M state swrite :=
  match rest with
  | [] => mret (SWDone written)
  | b :: rest' =>
      c ← uget dest (λ u, r_count (u_ring u));
      if UNIX_SOCK_BUF_SIZE <=? c then
        dpc ← uget dest u_peer_closed;
        spc ← uget s u_peer_closed;
        if (dpc || spc : bool) then mret (SWDone (- EPIPE)) else
        if nonblock then mret (SWDone (if 0 <? written then written else - EAGAIN)) else
        match current_task with
        | Some t => uset s (set_blocked_writer (Some t));; lift_r (block t);; mret (SWBlocked rest written)
        | None => λ _, Wait
        end
      else
        on_ring dest (ring_put UNIX_SOCK_BUF_SIZE b);;
        lift_r wake_all;;
        wake_blocked dest u_blocked_reader (set_blocked_reader None);;
        write_loop current_task s dest rest' (written + 1) nonblock
  end.

Definition unix_socket_write (current_task : option Z) (s : Z) (buf : list Z) (nonblock : bool) : M state swrite :=
  if Z.of_nat (length buf) =? 0 then mret (SWDone 0) else
  peer ← uget s u_peer;
  pc ← uget s u_peer_closed;
  match peer with
  | None => mret (SWDone (- EPIPE))
  | Some dest => if (pc : bool) then mret (SWDone (- EPIPE)) else write_loop current_task s dest buf 0 nonblock
  end.

(** [dest] is a local variable of the interrupted call. *)
Definition write_resume (current_task : option Z) (s dest : Z) (rest : list Z) (written : Z) (nonblock : bool) : M state swrite :=
  uset s (set_blocked_writer None);; write_loop current_task s dest rest written nonblock.

(** The buffer pages go back to the page allocator with the socket. *)
Definition unix_socket_close (s : Z) : M state unit :=
  uset s (set_state CLOSED);;
  uset s (set_peer_closed true);;
  peer ← uget s u_peer;
  (match peer with
   | Some p =>
       uset p (set_peer_closed true);;
       lift_r wake_all;;
       wake_blocked p u_blocked_reader (set_blocked_reader None);;
       wake_blocked p u_blocked_writer (set_blocked_writer None)
   | None => mret tt
   end);;
  uset s (λ u, set_ref_count (u_ref_count u - 1) u);;
  n ← uget s u_ref_count;
  when (n <=? 0) do ufree s.

Definition unix_socket_can_read (s : Z) : M state bool :=
  u ← uget s id;
  mret (if bool_decide (u_state u = LISTENING) then 0 <? Z.of_nat (length (u_backlog u))
        else (0 <? r_count (u_ring u)) || u_peer_closed u).

Definition unix_socket_can_write (s : Z) : M state bool :=
  u ← uget s id;
  match u_peer u with
  | None => mret false
  | Some p => if u_peer_closed u then mret false else c ← uget p (λ v, r_count (u_ring v)); mret (c <? UNIX_SOCK_BUF_SIZE)
  end.

(** The descriptor the node is open under decides whether calls block. *)
Fixpoint node_nonblock (files : list (option Z)) (flags : list Z) (node : Z) : bool :=
  match files, flags with
  | f :: files', g :: flags' => if bool_decide (f = Some node) then has g O_NONBLOCK else node_nonblock files' flags' node
  | _, _ => false
  end.

Definition vfs_sock_read (current_task : option Z) (files : list (option Z)) (flags : list Z) (node : Z)
    (ptr : option Z) (size : Z) : M state sread :=
  match ptr with
  | None => mret (SRDone (- EBADF) [])
  | Some s => unix_socket_read current_task s size (node_nonblock files flags node)
  end.

Definition vfs_sock_write (current_task : option Z) (files : list (option Z)) (flags : list Z) (node : Z)
    (ptr : option Z) (buf : list Z) : M state swrite :=
  match ptr with
  | None => mret (SWDone (- EBADF))
  | Some s => unix_socket_write current_task s buf (node_nonblock files flags node)
  end.

Definition vfs_sock_close (ptr : option Z) : M state unit :=
  match ptr with None => mret tt | Some s => unix_socket_close s end.

End Ops.

End AfUnix.
