(* ===== verification/AfUnixSpec.v ===== *)
(** * Correctness of UNIX domain sockets *)
From S2P Require Import Prelude Sched SchedSpec Ring Blocking AfUnix.

Module AfUnixSpec.
Import Ring AfUnix.

Section Spec.
  Context {SC : Type} `{SchedLaws SC}.

Implicit Types (h : gmap Z unix_socket) (u : unix_socket) (sc : SC) (s d c : Z) (q : list Z).

Definition byte (b : Z) : Prop := 0 ≤ b < 256.

(** ** Accesses *)

Lemma wp_uget {A} s (f : unix_socket → A) u h sc (Q : A → state → Prop) :
  h !! s = Some u → Q (f u) (h, sc) → wp (uget s f) (h, sc) Q.
Proof. intros Hs HQ. apply (wp_deref (λ st : state, f <$> st.1 !! s) (h, sc) (f u)); [simpl; by rewrite Hs|done]. Qed.

Lemma wp_uset s f u h sc (Q : unit → state → Prop) :
  h !! s = Some u → Q tt (<[s := f u]> h, sc) → wp (uset s f) (h, sc) Q.
Proof.
  intros Hs HQ. unfold uset. apply wp_bind. eapply wp_uget; [done|]. apply wp_modify. simpl.
  by rewrite (alter_as_insert f h s u Hs).
Qed.

Lemma wp_on_uring {A} s (m : M ring A) u h sc (Q : A → state → Prop) : h !! s = Some u →
  wp m (u_ring u) (λ a r, Q a (<[s := set_ring r u]> h, sc)) → wp (on_ring s m) (h, sc) Q.
Proof. intros Hs. unfold wp, on_ring. simpl. rewrite Hs. by destruct (m (u_ring u)) as [[a r]| | |]. Qed.

Lemma run_uset s f u h sc : h !! s = Some u → uset s f (h, sc) = Ret (tt, (<[s := f u]> h, sc)).
Proof. intros Hs. unfold uset, uget, deref, mbind, M_bind, modify. simpl. rewrite Hs. simpl. by rewrite (alter_as_insert f h s u Hs). Qed.

Lemma run_uget {A} s (f : unix_socket → A) u h sc : h !! s = Some u → uget s f (h, sc) = Ret (f u, (h, sc)).
Proof. intros Hs. unfold uget, deref. simpl. by rewrite Hs. Qed.

(** A task recorded as blocked is known to the scheduler. *)
Definition known_opt sc (o : option Z) : Prop := ∀ t, o = Some t → known sc t.

Lemma wake_blocked_spec s get clear u h sc : h !! s = Some u → sched_ok sc → known_opt sc (get u) →
  (get u = None → clear u = u) →
  wp (wake_blocked s get clear) (h, sc) (λ _ st', ∃ sc', st' = (<[s := clear u]> h, sc') ∧ sched_ok sc' ∧
    (∀ t, known sc t → known sc' t) ∧ (∀ t, ready sc t → ready sc' t) ∧ ∀ t, get u = Some t → ready sc' t).
Proof.
  intros Hs Hok Hk Hc. unfold wake_blocked. apply wp_bind. eapply wp_uget; [done|].
  destruct (get u) as [t|] eqn:E.
  - apply wp_bind, wp_lift_r. eapply wp_mono; [apply (unblock_law sc t Hok); by apply Hk|].
    intros [] sc' (H1 & H2 & H3 & H4). eapply wp_uset; [done|]. exists sc'. split_and!; try done. by intros t' [= <-].
  - apply wp_ret. exists sc. rewrite (Hc eq_refl), insert_id by done. done.
Qed.

(** ** Data transfer *)

(** What the writing loop of a call that may not block does: the bytes that
    fit are appended to the queue of the destination. *)
Lemma write_loop_spec rest : ∀ s d us ud q h sc written, h !! s = Some us → h !! d = Some ud →
  rep UNIX_SOCK_BUF_SIZE (u_ring ud) q → u_peer_closed us = false → u_peer_closed ud = false → s ≠ d →
  sched_ok sc → known_opt sc (u_blocked_reader ud) → Forall byte rest → 0 ≤ written →
  wp (write_loop None s d rest written true) (h, sc) (λ res st', ∃ r k sc',
    k = Nat.min (length rest) (Z.to_nat UNIX_SOCK_BUF_SIZE - length q) ∧
    st'.1 = <[d := set_ring r (if decide (k = 0%nat) then ud else set_blocked_reader None ud)]> h ∧ st'.2 = sc' ∧
    rep UNIX_SOCK_BUF_SIZE r (q ++ take k rest) ∧
    res = SWDone (if (k =? length rest)%nat || (0 <? written + Z.of_nat k) then written + Z.of_nat k else - EAGAIN) ∧
    sched_ok sc' ∧ (∀ t, known sc t → known sc' t) ∧ (∀ t, ready sc t → ready sc' t) ∧
    ((0 < k)%nat → ∀ t, u_blocked_reader ud = Some t → ready sc' t)).
Proof.
  induction rest as [|b rest IH]; intros s d us ud q h sc written Hs Hd Hr Hps Hpd Hne Hok Hk Hb Hw; cbn [write_loop].
  { apply wp_ret. exists (u_ring ud), 0%nat, sc. rewrite app_nil_r, Z.add_0_r.
    split_and!; try done; try (intros; lia). simpl. rewrite insert_id; [done|]. rewrite Hd. by destruct ud. }
  apply Forall_cons in Hb as [Hbb Hb]. apply wp_bind. eapply wp_uget; [done|]. rewrite (rep_count _ _ _ Hr).
  pose proof (rep_fits _ _ _ Hr) as Hfit.
  destruct (Z.leb_spec UNIX_SOCK_BUF_SIZE (Z.of_nat (length q))) as [Hfull|Hroom].
  - apply wp_bind. eapply wp_uget; [done|]. apply wp_bind. eapply wp_uget; [done|]. rewrite Hps, Hpd. cbn [orb].
    apply wp_ret. exists (u_ring ud), 0%nat, sc. rewrite take_0, app_nil_r, Z.add_0_r.
    split_and!; try done; try (intros; lia). simpl. rewrite insert_id; [done|]. rewrite Hd. by destruct ud.
  - apply wp_bind. eapply wp_on_uring; [done|]. eapply wp_mono; [by apply (ring_put_spec _ _ q b Hr)|]. intros [] r Hr'.
    apply wp_bind, wp_lift_r. eapply wp_mono; [by apply wake_all_law|]. intros [] sc1 (Hok1 & Hk1 & Hrd1).
    apply wp_bind. eapply wp_mono.
    { apply (wake_blocked_spec d u_blocked_reader (set_blocked_reader None) (set_ring r ud));
        [by rewrite lookup_insert_eq|done| |].
      - intros t Ht. by apply Hk1, Hk.
      - simpl. intros E. unfold set_blocked_reader, set_ring. simpl. by rewrite E. }
    intros [] st' (sc2 & -> & Hok2 & Hk2 & Hrd2 & Hrb2). rewrite insert_insert_eq.
    set (ud1 := set_blocked_reader None (set_ring r ud)). 
    eapply wp_mono; [apply (IH s d us ud1 (q ++ [b]) (<[d := ud1]> h) sc2 (written + 1)); try done; try lia|].
    { by rewrite lookup_insert_ne. } { by rewrite lookup_insert_eq. }
    intros res st' (r' & k & sc3 & Hkk & Hst & Hsc & Hrep & -> & Hok3 & Hk3 & Hrd3 & Hrb3).
    exists r', (S k), sc3. rewrite length_app in Hkk. simpl in Hkk.
    split_and!.
    + cbn [length]. lia.
    + rewrite Hst, insert_insert_eq. f_equal. destruct (decide (k = 0%nat)); done.
    + done.
    + by rewrite <-app_assoc in Hrep.
    + simpl. replace (written + Z.of_nat (S k)) with (written + 1 + Z.of_nat k) by lia. done.
    + done.
    + auto.
    + auto.
    + intros _ t Ht. apply Hrd3, Hrb2. done.
Qed.

(** A read that may not block, on a socket whose peer still exists. *)
Lemma read_loop_spec s us p up q h sc count : h !! s = Some us → u_peer us = Some p → h !! p = Some up → p ≠ s →
  rep UNIX_SOCK_BUF_SIZE (u_ring us) q → sched_ok sc → known_opt sc (u_blocked_writer up) → 0 < count →
  wp (read_loop None s count true) (h, sc) (λ res st',
    if decide (q = []) then st' = (h, sc) ∧ res = (if u_peer_closed us then SRDone 0 [] else SRDone (- EAGAIN) [])
    else let n := Nat.min (Z.to_nat count) (length q) in ∃ r sc',
      res = SRDone (Z.of_nat n) (take n q) ∧ rep UNIX_SOCK_BUF_SIZE r (drop n q) ∧
      st' = (<[p := set_blocked_writer None up]> (<[s := set_ring r us]> h), sc') ∧
      sched_ok sc' ∧ (∀ t, known sc t → known sc' t) ∧ (∀ t, ready sc t → ready sc' t) ∧
      ∀ t, u_blocked_writer up = Some t → ready sc' t).
Proof.
  intros Hs Hpeer Hp Hne Hr Hok Hk Hc. unfold read_loop. apply wp_bind. eapply wp_uget; [done|].
  rewrite (rep_count _ _ _ Hr). destruct q as [|b q].
  { cbn [length Z.of_nat Z.eqb]. apply wp_bind. eapply wp_uget; [done|]. destruct (u_peer_closed us); by apply wp_ret. }
  rewrite (proj2 (Z.eqb_neq _ 0)) by (cbn [length]; lia). destruct (decide (b :: q = [])) as [|_]; [done|].
  set (n := Nat.min (Z.to_nat count) (length (b :: q))).
  assert ((if count <? Z.of_nat (length (b :: q)) then count else Z.of_nat (length (b :: q))) = Z.of_nat n) as ->.
  { unfold n. destruct (Z.ltb_spec count (Z.of_nat (length (b :: q)))); lia. }
  rewrite Nat2Z.id. apply wp_bind. eapply wp_on_uring; [done|].
  eapply wp_mono; [apply (drain_spec _ n _ (b :: q) Hr); lia|]. intros data r [-> Hr'].
  apply wp_bind. eapply wp_uget; [apply lookup_insert_eq|]. change (u_peer (set_ring r us)) with (u_peer us). rewrite Hpeer.
  apply wp_bind. eapply wp_mono.
  { apply (wake_blocked_spec p u_blocked_writer (set_blocked_writer None) up); [by rewrite lookup_insert_ne|done|done|].
    intros E. unfold set_blocked_writer. rewrite <-E. by destruct up. }
  intros [] st' (sc' & -> & Hok' & Hk' & Hrd & Hb). apply wp_ret. exists r, sc'. by split_and!.
Qed.

(** ** Connections *)

(** A listening socket: the backlog never outgrows its array. *)
Definition listening u : Prop := u_state u = LISTENING ∧ 0 < u_backlog_max u ≤ UNIX_BACKLOG_MAX ∧
  Z.of_nat (length (u_backlog u)) ≤ u_backlog_max u.

(** The client side of a new connection. *)
Definition connected u f : unix_socket := set_state CONNECTED (set_peer (Some f) u).

Lemma connect_spec c uc s us f h sc : h !! c = Some uc → u_state uc ≠ CONNECTED → h !! s = Some us → listening us →
  c ≠ s → h !! f = None → sched_ok sc → known_opt sc (u_blocked_accept us) →
  wp (unix_socket_connect c (Some s) (Some f)) (h, sc) (λ r st', ∃ sc', st'.2 = sc' ∧ sched_ok sc' ∧
    (∀ t, known sc t → known sc' t) ∧
    if decide (Z.of_nat (length (u_backlog us)) < u_backlog_max us) then
      r = 0 ∧ st'.1 = <[s := set_blocked_accept None (set_backlog (u_backlog us ++ [f]) us)]>
                        (<[f := connected (new_socket (u_type uc)) c]> (<[c := connected uc f]> h)) ∧
      (∀ t, u_blocked_accept us = Some t → ready sc' t)
    else r = - EAGAIN ∧ st'.1 = h).
Proof.
  intros Hc Hcs Hs (Hst & Hmax & Hbl) Hne Hf Hok Hk. unfold unix_socket_connect.
  assert (f ≠ c ∧ f ≠ s) as [Hfc Hfs] by (split; intros ->; congruence).
  apply wp_bind. eapply wp_uget; [done|]. rewrite bool_decide_false by done.
  apply wp_bind. eapply wp_uget; [done|]. rewrite Hst, bool_decide_false by tauto.
  apply wp_bind. eapply wp_uget; [done|]. apply wp_bind. eapply wp_uget; [done|].
  destruct (Z.leb_spec (u_backlog_max us) (Z.of_nat (length (u_backlog us)))).
  { apply wp_ret. exists sc. rewrite decide_False by lia. done. }
  destruct (decide _) as [_|]; [|lia]. apply wp_bind. eapply wp_uget; [done|]. apply wp_bind. unfold unix_socket_create.
  apply wp_bind, wp_modify, wp_ret. cbn [fst snd].
  apply wp_bind. eapply (wp_uset c); [by rewrite lookup_insert_ne|].
  apply wp_bind. eapply (wp_uset f); [rewrite lookup_insert_ne by done; apply lookup_insert_eq|].
  apply wp_bind. eapply (wp_uset c); [rewrite lookup_insert_ne by done; apply lookup_insert_eq|].
  apply wp_bind. eapply (wp_uset f); [rewrite lookup_insert_ne by done; apply lookup_insert_eq|].
  rewrite (proj2 (Z.ltb_lt _ _)) by lia.
  apply wp_bind. eapply (wp_uset s); [rewrite !lookup_insert_ne by done; exact Hs|].
  apply wp_bind. eapply wp_uget; [apply lookup_insert_eq|].
  match goal with |- wp _ (?m, _) _ => assert (m = <[s := set_backlog (u_backlog us ++ [f]) us]>
     (<[f := connected (new_socket (u_type uc)) c]> (<[c := connected uc f]> h))) as -> end.
  { f_equal. unfold connected. apply map_eq. intros x. destruct (decide (x = f)) as [->|].
    - by rewrite !lookup_insert_eq.
    - rewrite !(lookup_insert_ne _ f x) by done. destruct (decide (x = c)) as [->|].
      + by rewrite !lookup_insert_eq.
      + by rewrite !lookup_insert_ne. }
  cbn [u_blocked_accept set_backlog]. destruct (u_blocked_accept us) as [t|] eqn:Eb; simpl.
  - apply wp_bind. apply wp_bind, wp_lift_r. eapply wp_mono; [by apply (unblock_law sc t Hok), Hk|].
    intros [] sc1 (U1 & U2 & U3 & U4). apply wp_bind, wp_lift_r. eapply wp_mono; [by apply wake_all_law|].
    intros [] sc2 (G1 & G2 & G3). eapply (wp_uset s); [apply lookup_insert_eq|]. apply wp_ret.
    exists sc2. rewrite insert_insert_eq. split_and!; try done; [by auto|]. intros t' [= <-]. auto.
  - apply wp_bind, wp_ret. apply wp_ret. exists sc. split_and!; try done. simpl. f_equal.
    unfold set_blocked_accept, set_backlog. simpl. by rewrite Eb.
Qed.

(** ** The theorems *)

(** Connections are handed out in the order they were made: [connect]
    appends the new server-side socket to the backlog, links it with the
    client, never beyond the backlog limit, and wakes a blocked [accept];
    [accept] takes the oldest one. *)
Lemma unix_backlog_fifo c uc s us f h sc : h !! c = Some uc → u_state uc ≠ CONNECTED → h !! s = Some us → listening us →
  c ≠ s → h !! f = None → sched_ok sc → known_opt sc (u_blocked_accept us) →
  Z.of_nat (length (u_backlog us)) < u_backlog_max us →
  wp (r ← unix_socket_connect c (Some s) (Some f); a ← unix_socket_accept None s true; mret (r, a)) (h, sc) (λ '(r, a) st',
    r = 0 ∧ a = SADone 0 (head (u_backlog us ++ [f])) ∧
    (∃ us', st'.1 !! s = Some us' ∧ u_backlog us' = tail (u_backlog us ++ [f]) ∧ listening us') ∧
    u_peer <$> st'.1 !! c = Some (Some f) ∧ u_peer <$> st'.1 !! f = Some (Some c)).
Proof.
  intros Hc Hcs Hs Hl Hne Hf Hok Hk Hlt.
  assert (f ≠ c ∧ f ≠ s) as [Hfc Hfs] by (split; intros ->; congruence).
  apply wp_bind. eapply wp_mono; [by apply (connect_spec c uc s us f)|]. intros r [h' sc'] (sc1 & <- & Hok' & _ & H').
  rewrite decide_True in H' by done. destruct H' as (-> & Hh' & _). simpl in Hh'. subst h'. destruct Hl as (Hst & Hmax & Hbl).
  apply wp_bind. unfold unix_socket_accept. apply wp_bind. eapply wp_uget; [apply lookup_insert_eq|].
  simpl u_state. rewrite Hst, bool_decide_false by tauto. unfold accept_loop.
  apply wp_bind. eapply wp_uget; [apply lookup_insert_eq|]. simpl u_backlog.
  destruct (u_backlog us ++ [f]) as [|a bl] eqn:E; [by destruct (u_backlog us)|].
  apply wp_bind. eapply wp_uset; [apply lookup_insert_eq|]. apply wp_ret, wp_ret. simpl fst. rewrite insert_insert_eq.
  split_and!; try done.
  - eexists. split; [apply lookup_insert_eq|]. split; [done|]. split_and!; simpl; try done; try lia.
    apply (f_equal length) in E. rewrite length_app in E. simpl in E. lia.
  - rewrite lookup_insert_ne, lookup_insert_ne, lookup_insert_eq by done. done.
  - rewrite lookup_insert_ne, lookup_insert_eq by done. done.
Qed.

(** A connected pair is a byte stream: what one side writes is appended to
    the other side's queue, as far as it fits ([EAGAIN] when nothing does), and
    a read on the other side returns the oldest bytes, in order. *)
Lemma unix_stream s us d ud q h sc buf count : h !! s = Some us → u_peer us = Some d → h !! d = Some ud →
  u_peer ud = Some s → s ≠ d → u_peer_closed us = false → u_peer_closed ud = false →
  rep UNIX_SOCK_BUF_SIZE (u_ring ud) q → sched_ok sc → known_opt sc (u_blocked_reader ud) →
  known_opt sc (u_blocked_writer us) → buf ≠ [] → Forall byte buf → 0 < count →
  let k := Nat.min (length buf) (Z.to_nat UNIX_SOCK_BUF_SIZE - length q) in
  let n := Nat.min (Z.to_nat count) (length q + k) in
  wp (w ← unix_socket_write None s buf true; r ← unix_socket_read None d count true; mret (w, r)) (h, sc) (λ '(w, r) st',
    w = SWDone (if (k =? 0)%nat then - EAGAIN else Z.of_nat k) ∧
    r = SRDone (Z.of_nat n) (take n (q ++ take k buf)) ∧
    ∃ ud', st'.1 !! d = Some ud' ∧ rep UNIX_SOCK_BUF_SIZE (u_ring ud') (drop n (q ++ take k buf))).
Proof.
  intros Hs Hps Hd Hpd Hne Hcs Hcd Hr Hok Hkr Hkw Hbuf Hb Hc k n. unfold unix_socket_write.
  rewrite (proj2 (Z.eqb_neq _ 0)) by (destruct buf; [done|cbn [length]; lia]).
  apply wp_bind. apply wp_bind. eapply wp_uget; [done|]. apply wp_bind. eapply wp_uget; [done|]. rewrite Hps, Hcs.
  eapply wp_mono; [apply (write_loop_spec buf s d us ud q); try done; lia|].
  intros w [h1 sc1] (r & k' & sc' & Hk & Hh1 & Hsc & Hrep & -> & Hok' & Hk' & Hrd' & _). fold k in Hk. subst k'.
  simpl in Hh1, Hsc. subst h1 sc1.
  set (ud1 := set_ring r (if decide (k = 0%nat) then ud else set_blocked_reader None ud)).
  assert (u_peer ud1 = Some s) as Hp1 by (unfold ud1; by destruct (decide (k = 0%nat))).
  assert (u_ring ud1 = r) as Hr1 by done.
  assert (length (q ++ take k buf) = length q + k)%nat as Hlen by (rewrite length_app, length_take; lia).
  assert (q ++ take k buf ≠ []) as Hq.
  { intros E. rewrite E in Hlen. simpl in Hlen. assert (length buf ≠ 0%nat) by by destruct buf.
    assert (Z.to_nat UNIX_SOCK_BUF_SIZE ≠ 0%nat) by (unfold UNIX_SOCK_BUF_SIZE; lia). lia. }
  apply wp_bind. unfold unix_socket_read. rewrite (proj2 (Z.eqb_neq count 0)) by lia.
  eapply wp_mono; [apply (read_loop_spec d ud1 s us (q ++ take k buf)); try done|].
  { apply lookup_insert_eq. } { by rewrite lookup_insert_ne. } { intros t Ht. by apply Hk', Hkw. }
  intros res [h2 sc2] HH. destruct (decide (q ++ take k buf = [])) as [|_]; [done|].
  destruct HH as (r2 & sc3 & -> & Hrep2 & [= -> ->] & _). apply wp_ret. rewrite Hlen in Hrep2 |- *. fold n in Hrep2 |- *.
  split_and!; [|done|].
  - rewrite Z.add_0_l. f_equal. assert (length buf ≠ 0%nat) by by destruct buf.
    destruct (Nat.eqb_spec k 0) as [E|E].
    + rewrite E, (proj2 (Nat.eqb_neq 0 (length buf))) by done. done.
    + rewrite (proj2 (Z.ltb_lt 0 (Z.of_nat k))), orb_true_r by lia. done.
  - simpl. rewrite lookup_insert_ne by done. eexists. split; [apply lookup_insert_eq|done].
Qed.

(** The first close of a pair: the closed socket is gone, the other one stays
    linked to it. *)
Lemma close_spec s us d ud h sc : h !! s = Some us → u_peer us = Some d → h !! d = Some ud → s ≠ d →
  u_ref_count us = 1 → u_blocked_reader ud = None → u_blocked_writer ud = None → sched_ok sc →
  wp (unix_socket_close s) (h, sc) (λ _ st', st'.1 !! s = None ∧ st'.1 !! d = Some (set_peer_closed true ud)).
Proof.
  intros Hs Hps Hd Hne Hrc Hb1 Hb2 Hok. unfold unix_socket_close.
  apply wp_bind. eapply wp_uset; [done|]. apply wp_bind. eapply wp_uset; [apply lookup_insert_eq|].
  apply wp_bind. eapply wp_uget; [apply lookup_insert_eq|]. simpl u_peer. rewrite Hps.
  apply wp_bind. apply wp_bind. eapply (wp_uset d); [rewrite !lookup_insert_ne by done; exact Hd|].
  apply wp_bind, wp_lift_r. eapply wp_mono; [by apply wake_all_law|]. intros [] sc1 (Hok1 & _ & _).
  unfold wake_blocked. apply wp_bind. apply wp_bind. eapply wp_uget; [apply lookup_insert_eq|]. simpl u_blocked_reader. rewrite Hb1. apply wp_ret.
  apply wp_bind. eapply wp_uget; [apply lookup_insert_eq|]. simpl u_blocked_writer. rewrite Hb2. apply wp_ret.
  apply wp_bind. eapply (wp_uset s); [rewrite lookup_insert_ne by done; apply lookup_insert_eq|].
  apply wp_bind. eapply wp_uget; [apply lookup_insert_eq|]. simpl u_ref_count. rewrite Hrc. cbn [Z.sub Z.leb Z.compare Z.opp Z.add Z.pos_sub].
  unfold ufree. apply wp_bind. eapply wp_uget; [apply lookup_insert_eq|]. apply wp_modify. simpl fst. split.
  - apply lookup_delete_eq.
  - rewrite lookup_delete_ne, lookup_insert_ne, lookup_insert_eq by done. done.
Qed.

(** C36. Closing one side of a connection, when it is the last reference to it
    and nobody sleeps on the other side, releases its socket while the other
    side still points to it: closing the other side then writes to released
    memory. *)
Theorem unix_close_dangling s us d ud h sc : h !! s = Some us → u_peer us = Some d → h !! d = Some ud →
  u_peer ud = Some s → s ≠ d → u_ref_count us = 1 →
  u_blocked_reader ud = None → u_blocked_writer ud = None → sched_ok sc →
  (unix_socket_close s;; unix_socket_close d) (h, sc) = Fault.
Proof.
  intros Hs Hps Hd Hpd Hne Hrc Hb1 Hb2 Hok.
  destruct (wp_run _ _ _ (close_spec s us d ud h sc Hs Hps Hd Hne Hrc Hb1 Hb2 Hok)) as ([] & [h' sc'] & Hrun & Hs' & Hd').
  simpl in Hs', Hd'. rewrite (bind_Ret _ _ _ _ _ Hrun). unfold unix_socket_close.
  erewrite bind_Ret by (apply run_uset; exact Hd'). erewrite bind_Ret by (apply run_uset, lookup_insert_eq).
  erewrite bind_Ret by (apply run_uget, lookup_insert_eq). simpl u_peer. rewrite Hpd.
  apply bind_Fault, bind_Fault. unfold uset. apply bind_Fault. unfold uget, deref. simpl.
  by rewrite !lookup_insert_ne, Hs' by done.
Qed.

End Spec.

(** ** Examples: socket 10 listens, 20 connects, 30 is the new peer *)

Definition demo_listener : unix_socket := set_backlog_max 4 (set_state LISTENING (new_socket 1)).
Definition demo_socks : gmap Z unix_socket := {[ 10 := demo_listener; 20 := new_socket 1 ]}.
Definition demo_pair : gmap Z unix_socket := {[ 20 := connected (new_socket 1) 30; 30 := connected (new_socket 1) 20 ]}.

Lemma new_socket_rep type : rep UNIX_SOCK_BUF_SIZE (u_ring (new_socket type)) [].
Proof. apply empty_ring_rep. unfold UNIX_SOCK_BUF_SIZE. lia. Qed.

Import SchedSpec SchedClient.

Lemma unix_backlog_fifo_witness :
  wp (r ← unix_socket_connect 20 (Some 10) (Some 30); a ← unix_socket_accept None 10 true; mret (r, a)) (demo_socks, demo)
    (λ '(r, a) st', r = 0 ∧ a = SADone 0 (Some 30) ∧ u_peer <$> st'.1 !! 20 = Some (Some 30)).
Proof.
  eapply wp_mono; [apply (unix_backlog_fifo 20 (new_socket 1) 10 demo_listener 30 demo_socks demo)|].
  - reflexivity.
  - discriminate.
  - reflexivity.
  - repeat split; discriminate.
  - discriminate.
  - reflexivity.
  - apply demo_consistent.
  - intros t Ht. discriminate Ht.
  - reflexivity.
  - intros [r a] st' (H1 & H2 & _ & H3 & _). split_and!; [exact H1|exact H2|exact H3].
Defined.

Lemma unix_stream_witness :
  wp (w ← unix_socket_write None 20 [1; 2; 3] true; r ← unix_socket_read None 30 2 true; mret (w, r)) (demo_pair, demo)
    (λ '(w, r) _, w = SWDone 3 ∧ r = SRDone 2 [1; 2]).
Proof.
  eapply wp_mono; [apply (unix_stream 20 (connected (new_socket 1) 30) 30 (connected (new_socket 1) 20) [] demo_pair demo [1; 2; 3] 2)|].
  - reflexivity.
  - reflexivity.
  - reflexivity.
  - reflexivity.
  - discriminate.
  - reflexivity.
  - reflexivity.
  - apply new_socket_rep.
  - apply demo_consistent.
  - intros t Ht. discriminate Ht.
  - intros t Ht. discriminate Ht.
  - discriminate.
  - repeat constructor; discriminate.
  - reflexivity.
  - intros [w r] st' (H1 & H2 & _). split; [exact H1|exact H2].
Defined.

Lemma unix_close_dangling_witness : (unix_socket_close 20;; unix_socket_close 30) (demo_pair, demo) = Fault.
Proof.
  apply (unix_close_dangling 20 (connected (new_socket 1) 30) 30 (connected (new_socket 1) 20)); try reflexivity.
  - discriminate.
  - apply demo_consistent.
Defined.

End AfUnixSpec.
