(* ===== verification/Pty.v ===== *)
(** * Pseudo-terminals ([drivers/tty/pty.c])

    A pair of byte rings between the master side (a terminal emulator) and
    the slave side (a shell), with the line discipline on the way in and the
    newline translation on the way out.  Pairs are entries of a table.  A
    blocking call is cut where it gives up the processor, as in [Pipe];
    signals are recorded in the order they are raised, what they do to tasks
    is not modelled. *)
From S2P Require Import Prelude Ring Blocking.

Module Pty.
Import Ring.

Definition PTY_MAX_PAIRS : nat := 32.
Definition PTY_BUF_SIZE : Z := 4096.

Definition EIO : Z := 5.
Definition EBADF : Z := 9.
Definition EAGAIN : Z := 11.
Definition EFAULT : Z := 14.
Definition ENOTTY : Z := 25.
Definition EPIPE : Z := 32.
Definition SIGINT : Z := 2.
Definition SIGQUIT : Z := 3.
Definition SIGTSTP : Z := 20.
Definition SIGWINCH : Z := 28.

Definition ISIG : Z := 0x0001.
Definition ICANON : Z := 0x0002.
Definition ECHO : Z := 0x0008.
Definition ECHOE : Z := 0x0010.
Definition ICRNL : Z := 0x0100.
Definition OPOST : Z := 0x0001.
Definition ONLCR : Z := 0x0004.

Definition NL : Z := 10.
Definition CR : Z := 13.
Definition BS : Z := 8.
Definition DEL : Z := 0x7F.
Definition EOT : Z := 4.

Record winsize := mk_ws { ws_row : Z; ws_col : Z; ws_xpixel : Z; ws_ypixel : Z }.
Record termios := mk_tio {
  c_iflag : Z;
  c_oflag : Z;
  c_cflag : Z;
  c_lflag : Z;
  c_line : Z;
  c_cc : list Z;
  c_ispeed : Z;
  c_ospeed : Z;
}.

Record pty_pair := mk_pair {
  y_id : Z;
  y_allocated : bool;
  y_locked : bool;
  y_master_open : bool;
  y_slave_open : bool;
  y_master_refs : Z;
  y_slave_refs : Z;
  y_in : ring; (* in_buf, in_tail, in_head, in_count *)
  y_out : ring; (* out_buf, out_tail, out_head, out_count *)
  y_ws : winsize;
  y_tio : termios;
  y_foreground_pgid : Z;
  y_session_sid : Z;
  y_blocked_master_read : option Z;
  y_blocked_master_write : option Z;
  y_blocked_slave_read : option Z;
  y_blocked_slave_write : option Z;
  y_master_node : option Z;
  y_slave_node : option Z;
}.

Definition set_allocated v p := mk_pair (y_id p) v (y_locked p) (y_master_open p) (y_slave_open p) (y_master_refs p) (y_slave_refs p) (y_in p) (y_out p) (y_ws p) (y_tio p) (y_foreground_pgid p) (y_session_sid p) (y_blocked_master_read p) (y_blocked_master_write p) (y_blocked_slave_read p) (y_blocked_slave_write p) (y_master_node p) (y_slave_node p).
Definition set_locked v p := mk_pair (y_id p) (y_allocated p) v (y_master_open p) (y_slave_open p) (y_master_refs p) (y_slave_refs p) (y_in p) (y_out p) (y_ws p) (y_tio p) (y_foreground_pgid p) (y_session_sid p) (y_blocked_master_read p) (y_blocked_master_write p) (y_blocked_slave_read p) (y_blocked_slave_write p) (y_master_node p) (y_slave_node p).
Definition set_master_open v p := mk_pair (y_id p) (y_allocated p) (y_locked p) v (y_slave_open p) (y_master_refs p) (y_slave_refs p) (y_in p) (y_out p) (y_ws p) (y_tio p) (y_foreground_pgid p) (y_session_sid p) (y_blocked_master_read p) (y_blocked_master_write p) (y_blocked_slave_read p) (y_blocked_slave_write p) (y_master_node p) (y_slave_node p).
Definition set_slave_open v p := mk_pair (y_id p) (y_allocated p) (y_locked p) (y_master_open p) v (y_master_refs p) (y_slave_refs p) (y_in p) (y_out p) (y_ws p) (y_tio p) (y_foreground_pgid p) (y_session_sid p) (y_blocked_master_read p) (y_blocked_master_write p) (y_blocked_slave_read p) (y_blocked_slave_write p) (y_master_node p) (y_slave_node p).
Definition set_master_refs v p := mk_pair (y_id p) (y_allocated p) (y_locked p) (y_master_open p) (y_slave_open p) v (y_slave_refs p) (y_in p) (y_out p) (y_ws p) (y_tio p) (y_foreground_pgid p) (y_session_sid p) (y_blocked_master_read p) (y_blocked_master_write p) (y_blocked_slave_read p) (y_blocked_slave_write p) (y_master_node p) (y_slave_node p).
Definition set_slave_refs v p := mk_pair (y_id p) (y_allocated p) (y_locked p) (y_master_open p) (y_slave_open p) (y_master_refs p) v (y_in p) (y_out p) (y_ws p) (y_tio p) (y_foreground_pgid p) (y_session_sid p) (y_blocked_master_read p) (y_blocked_master_write p) (y_blocked_slave_read p) (y_blocked_slave_write p) (y_master_node p) (y_slave_node p).
Definition set_in v p := mk_pair (y_id p) (y_allocated p) (y_locked p) (y_master_open p) (y_slave_open p) (y_master_refs p) (y_slave_refs p) v (y_out p) (y_ws p) (y_tio p) (y_foreground_pgid p) (y_session_sid p) (y_blocked_master_read p) (y_blocked_master_write p) (y_blocked_slave_read p) (y_blocked_slave_write p) (y_master_node p) (y_slave_node p).
Definition set_out v p := mk_pair (y_id p) (y_allocated p) (y_locked p) (y_master_open p) (y_slave_open p) (y_master_refs p) (y_slave_refs p) (y_in p) v (y_ws p) (y_tio p) (y_foreground_pgid p) (y_session_sid p) (y_blocked_master_read p) (y_blocked_master_write p) (y_blocked_slave_read p) (y_blocked_slave_write p) (y_master_node p) (y_slave_node p).
Definition set_ws v p := mk_pair (y_id p) (y_allocated p) (y_locked p) (y_master_open p) (y_slave_open p) (y_master_refs p) (y_slave_refs p) (y_in p) (y_out p) v (y_tio p) (y_foreground_pgid p) (y_session_sid p) (y_blocked_master_read p) (y_blocked_master_write p) (y_blocked_slave_read p) (y_blocked_slave_write p) (y_master_node p) (y_slave_node p).
Definition set_tio v p := mk_pair (y_id p) (y_allocated p) (y_locked p) (y_master_open p) (y_slave_open p) (y_master_refs p) (y_slave_refs p) (y_in p) (y_out p) (y_ws p) v (y_foreground_pgid p) (y_session_sid p) (y_blocked_master_read p) (y_blocked_master_write p) (y_blocked_slave_read p) (y_blocked_slave_write p) (y_master_node p) (y_slave_node p).
Definition set_foreground_pgid v p := mk_pair (y_id p) (y_allocated p) (y_locked p) (y_master_open p) (y_slave_open p) (y_master_refs p) (y_slave_refs p) (y_in p) (y_out p) (y_ws p) (y_tio p) v (y_session_sid p) (y_blocked_master_read p) (y_blocked_master_write p) (y_blocked_slave_read p) (y_blocked_slave_write p) (y_master_node p) (y_slave_node p).
Definition set_session_sid v p := mk_pair (y_id p) (y_allocated p) (y_locked p) (y_master_open p) (y_slave_open p) (y_master_refs p) (y_slave_refs p) (y_in p) (y_out p) (y_ws p) (y_tio p) (y_foreground_pgid p) v (y_blocked_master_read p) (y_blocked_master_write p) (y_blocked_slave_read p) (y_blocked_slave_write p) (y_master_node p) (y_slave_node p).
Definition set_blocked_master_read v p := mk_pair (y_id p) (y_allocated p) (y_locked p) (y_master_open p) (y_slave_open p) (y_master_refs p) (y_slave_refs p) (y_in p) (y_out p) (y_ws p) (y_tio p) (y_foreground_pgid p) (y_session_sid p) v (y_blocked_master_write p) (y_blocked_slave_read p) (y_blocked_slave_write p) (y_master_node p) (y_slave_node p).
Definition set_blocked_master_write v p := mk_pair (y_id p) (y_allocated p) (y_locked p) (y_master_open p) (y_slave_open p) (y_master_refs p) (y_slave_refs p) (y_in p) (y_out p) (y_ws p) (y_tio p) (y_foreground_pgid p) (y_session_sid p) (y_blocked_master_read p) v (y_blocked_slave_read p) (y_blocked_slave_write p) (y_master_node p) (y_slave_node p).
Definition set_blocked_slave_read v p := mk_pair (y_id p) (y_allocated p) (y_locked p) (y_master_open p) (y_slave_open p) (y_master_refs p) (y_slave_refs p) (y_in p) (y_out p) (y_ws p) (y_tio p) (y_foreground_pgid p) (y_session_sid p) (y_blocked_master_read p) (y_blocked_master_write p) v (y_blocked_slave_write p) (y_master_node p) (y_slave_node p).
Definition set_blocked_slave_write v p := mk_pair (y_id p) (y_allocated p) (y_locked p) (y_master_open p) (y_slave_open p) (y_master_refs p) (y_slave_refs p) (y_in p) (y_out p) (y_ws p) (y_tio p) (y_foreground_pgid p) (y_session_sid p) (y_blocked_master_read p) (y_blocked_master_write p) (y_blocked_slave_read p) v (y_master_node p) (y_slave_node p).
Definition set_master_node v p := mk_pair (y_id p) (y_allocated p) (y_locked p) (y_master_open p) (y_slave_open p) (y_master_refs p) (y_slave_refs p) (y_in p) (y_out p) (y_ws p) (y_tio p) (y_foreground_pgid p) (y_session_sid p) (y_blocked_master_read p) (y_blocked_master_write p) (y_blocked_slave_read p) (y_blocked_slave_write p) v (y_slave_node p).
Definition set_slave_node v p := mk_pair (y_id p) (y_allocated p) (y_locked p) (y_master_open p) (y_slave_open p) (y_master_refs p) (y_slave_refs p) (y_in p) (y_out p) (y_ws p) (y_tio p) (y_foreground_pgid p) (y_session_sid p) (y_blocked_master_read p) (y_blocked_master_write p) (y_blocked_slave_read p) (y_blocked_slave_write p) (y_master_node p) v.

Definition zero_ws : winsize := mk_ws 0 0 0 0.
Definition zero_tio : termios := mk_tio 0 0 0 0 0 (replicate 32 0) 0 0.
Definition zero_ring : ring := mk_ring (replicate 4096 0) 0 0 0.
Definition zero_pair : pty_pair := mk_pair 0 false false false false 0 0 zero_ring zero_ring zero_ws zero_tio 0 0 None None None None None None.

(** How a call ends, or where it stops. *)
Inductive read_result := RDone (ret : Z) (data : list Z) | RBlocked.
Inductive write_result := WDone (ret : Z) | WBlocked (rest : list Z) (written : Z).

Record ptys := mk_ptys { pty_table : list pty_pair; pty_initialized : bool; signals : list (Z * Z) }.

(** The running task's process, as far as terminals look at it. *)
Record process := mk_proc { pr_pid : Z; pr_pgid : Z; pr_controlling_tty : option Z }.

(** User memory behind an ioctl argument, as each request reads it. *)
Record user_arg := mk_arg { u_int : Z; u_ws : winsize; u_tio : termios }.

(** [is_node_nonblocking]: the flags of the first descriptor the node is open
    under; [None] without a process. *)
Fixpoint first_flags (files : list (option Z * Z)) (node : Z) : option Z :=
  match files with
  | [] => None
  | (f, g) :: files' => if bool_decide (f = Some node) then Some g else first_flags files' node
  end.

Definition is_node_nonblocking (files : option (list (option Z * Z))) (node : Z) : bool :=
  match files with
  | None => false
  | Some fs => match first_flags fs node with Some g => has g 2048 | None => false end
  end.

Section Ops.
  Context {SC : Type} `{SchedOps SC}.

Definition state : Type := ptys * SC.

Definition pget {A} (k : nat) (f : pty_pair → A) : M state A := deref (λ s : state, f <$> pty_table s.1 !! k).
Definition pset (k : nat) (f : pty_pair → pty_pair) : M state unit :=
  _ ← pget k id;
  modify (λ s : state, (mk_ptys (alter f k (pty_table s.1)) (pty_initialized s.1) (signals s.1), s.2)).

(** [sys_kill_handler(pid, sig)]: the call is recorded, its effects on the
    tasks of the group (stopping, waking, terminating them, closing their
    files) are left out. *)
Definition kill (pid sig : Z) : M state unit :=
  modify (λ s : state, (mk_ptys (pty_table s.1) (pty_initialized s.1) (signals s.1 ++ [(pid, sig)]), s.2)).

(** [-(int)pair->foreground_pgid] *)
Definition group_pid (g : Z) : Z := i32 (- i32 g).

Definition kill_foreground (k : nat) (sig : Z) : M state unit :=
  g ← pget k y_foreground_pgid;
  when 0 <? g do kill (group_pid g) sig.

(** [if (pair->blocked_x) { sched_unblock(pair->blocked_x); pair->blocked_x = NULL; }] *)
Definition wake (k : nat) (f : pty_pair → option Z) (clear : pty_pair → pty_pair) : M state unit :=
  b ← pget k f;
  match b with Some t => lift_r (unblock t);; pset k clear | None => mret tt end.

Definition wake_master_read (k : nat) := wake k y_blocked_master_read (set_blocked_master_read None).
Definition wake_master_write (k : nat) := wake k y_blocked_master_write (set_blocked_master_write None).
Definition wake_slave_read (k : nat) := wake k y_blocked_slave_read (set_blocked_slave_read None).
Definition wake_slave_write (k : nat) := wake k y_blocked_slave_write (set_blocked_slave_write None).

(** ** Buffers *)

Definition pty_buf_put (b : Z) : M ring unit :=
  c ← gets r_count;
  if c <? PTY_BUF_SIZE then ring_put PTY_BUF_SIZE b else mret tt.

Definition pty_buf_get : M ring Z :=
  c ← gets r_count;
  if c =? 0 then mret 0 else ring_get PTY_BUF_SIZE.

Fixpoint pty_buf_drain (n : nat) : M ring (list Z) :=
  match n with O => mret [] | S n' => b ← pty_buf_get; l ← pty_buf_drain n'; mret (b :: l) end.

Definition on (k : nat) (sel : pty_pair → ring) (upd : ring → pty_pair → pty_pair) {A} (m : M ring A) : M state A :=
  r ← pget k sel;
  match m r with
  | Ret (a, r') => pset k (upd r');; mret a
  | Panic => panic
  | Fault => fault
  | Wait => λ _, Wait
  end.

Definition on_in (k : nat) {A} (m : M ring A) : M state A := on k y_in set_in m.
Definition on_out (k : nat) {A} (m : M ring A) : M state A := on k y_out set_out m.

Definition put_out (k : nat) (b : Z) : M state unit := on_out k (pty_buf_put b).

(** ** Master side *)

(** [!pair->slave_open && pair->slave_refs == 0] *)
Definition slave_gone (p : pty_pair) : bool := negb (y_slave_open p) && (y_slave_refs p =? 0).

Definition master_read_loop (cur : option Z) (k : nat) (nonblock : bool) (size : Z) : M state read_result :=
  c ← pget k (λ p, r_count (y_out p));
  if c =? 0 then
    gone ← pget k slave_gone;
    if (gone : bool) then mret (RDone 0 []) else
    if nonblock then mret (RDone (- EAGAIN) []) else
    match cur with
    | Some t => pset k (set_blocked_master_read (Some t));; lift_r (block t);; mret RBlocked
    | None => λ _, Wait
    end
  else
    let to_read := if size <? c then size else c in
    data ← on_out k (pty_buf_drain (Z.to_nat to_read));
    wake_slave_write k;;
    lift_r wake_all;;
    mret (RDone to_read data).

(** [valid] stands for [node && node->ptr && buffer]. *)
Definition pty_master_read (cur : option Z) (k : nat) (valid nonblock : bool) (size : Z) : M state read_result :=
  if negb valid || (size =? 0) then mret (RDone 0 []) else master_read_loop cur k nonblock size.

Definition master_read_resume (cur : option Z) (k : nat) (nonblock : bool) (size : Z) : M state read_result :=
  pset k (set_blocked_master_read None);; master_read_loop cur k nonblock size.

Definition flag (k : nat) (f : termios → Z) (m : Z) : M state bool := pget k (λ p, has (f (y_tio p)) m).

(** Erasing the last character of the line being typed. *)
Definition erase (k : nat) : M state unit :=
  r ← pget k y_in;
  if 0 <? r_count r then
    let last_idx := u32 (u32 (r_write_pos r - 1) + PTY_BUF_SIZE) mod PTY_BUF_SIZE in
    b ← deref (λ _ : state, r_buf r !! Z.to_nat last_idx);
    if negb (b =? NL) then
      pset k (set_in (mk_ring (r_buf r) (r_read_pos r) last_idx (u32 (r_count r - 1))));;
      e ← flag k c_lflag ECHO;
      ee ← flag k c_lflag ECHOE;
      if (e : bool) && ee then put_out k BS;; put_out k 32;; put_out k BS else mret tt
    else mret tt
  else mret tt.

(** A character that raises a signal instead of being typed. *)
Definition signal_char (k : nat) (c : Z) : M state bool :=
  isig ← flag k c_lflag ISIG;
  if negb isig then mret false else
  if c =? 3 then
    kill_foreground k SIGINT;;
    e ← flag k c_lflag ECHO;
    (if (e : bool) then put_out k 94;; put_out k 67;; put_out k NL else mret tt);;
    mret true
  else if c =? 0x1C then kill_foreground k SIGQUIT;; mret true
  else if c =? 0x1A then kill_foreground k SIGTSTP;; mret true
  else mret false.

Definition echo (k : nat) (c : Z) : M state unit :=
  e ← flag k c_lflag ECHO;
  if negb e then mret tt else
  if c =? NL then
    nl ← flag k c_oflag ONLCR;
    (if (nl : bool) then put_out k CR else mret tt);;
    put_out k NL
  else put_out k c.

(** One character from the master, once there is room. *)
Definition input_char (k : nat) (c : Z) : M state unit :=
  s ← signal_char k c;
  if (s : bool) then mret tt else
  icrnl ← flag k c_iflag ICRNL;
  let c' := if (icrnl : bool) && (c =? CR) then NL else c in
  canon ← flag k c_lflag ICANON;
  if (canon : bool) && ((c' =? DEL) || (c' =? BS)) then erase k else
  echo k c';;
  on_in k (pty_buf_put c').

Fixpoint master_write_loop (cur : option Z) (k : nat) (nonblock : bool) (rest : list Z) (written : Z) : M state write_result :=
  match rest with
  | [] =>
      wake_slave_read k;;
      wake_master_read k;;
      lift_r wake_all;;
      mret (WDone written)
  | c :: rest' =>
      n ← pget k (λ p, r_count (y_in p));
      if PTY_BUF_SIZE <=? n then
        gone ← pget k slave_gone;
        if (gone : bool) then mret (WDone (if 0 <? written then written else - EIO)) else
        if nonblock then mret (WDone (if 0 <? written then written else - EAGAIN)) else
        match cur with
        | Some t => pset k (set_blocked_master_write (Some t));; lift_r (block t);; mret (WBlocked rest written)
        | None => λ _, Wait
        end
      else
        input_char k c;;
        master_write_loop cur k nonblock rest' (written + 1)
  end.

Definition pty_master_write (cur : option Z) (k : nat) (valid nonblock : bool) (buffer : list Z) : M state write_result :=
  if negb valid || (Z.of_nat (length buffer) =? 0) then mret (WDone 0) else
  gone ← pget k slave_gone;
  if (gone : bool) then mret (WDone (- EIO)) else
  master_write_loop cur k nonblock buffer 0.

Definition master_write_resume (cur : option Z) (k : nat) (nonblock : bool) (rest : list Z) (written : Z) : M state write_result :=
  pset k (set_blocked_master_write None);; master_write_loop cur k nonblock rest written.

(** The entry is cleared; that [kfree] ends the life of the two nodes is not
    tracked. *)
Definition pty_free_pair (k : nat) : M state unit := pset k (λ _, zero_pair).

Definition pty_master_close (k : nat) : M state unit :=
  pset k (λ p, set_master_refs (i32 (y_master_refs p - 1)) p);;
  n ← pget k y_master_refs;
  if n <=? 0 then
    pset k (set_master_open false);;
    wake_slave_read k;;
    wake_slave_write k;;
    lift_r wake_all;;
    p ← pget k id;
    if negb (y_slave_open p) && (y_slave_refs p <=? 0) then pty_free_pair k else mret tt
  else mret tt.

(** ** Slave side *)

(** [pty_buf_has_line]: the first [n] bytes from [tail] on. *)
Fixpoint has_line (buf : list Z) (tail : Z) (n : nat) : bool :=
  match n with
  | O => false
  | S n' => match buf !! Z.to_nat (tail mod PTY_BUF_SIZE) with
            | Some c => (c =? NL) || (c =? EOT) || has_line buf (tail + 1) n'
            | None => false
            end
  end.

Definition pty_buf_has_line (p : pty_pair) : bool := has_line (r_buf (y_in p)) (r_read_pos (y_in p)) (Z.to_nat (r_count (y_in p))).

(** Canonical mode: up to a newline, or an end-of-file character, which is
    dropped. *)
Fixpoint read_line (fuel : nat) : M ring (list Z) :=
  match fuel with
  | O => mret []
  | S fuel' =>
      n ← gets r_count;
      if n =? 0 then mret [] else
      c ← pty_buf_get;
      if c =? EOT then mret [] else
      if c =? NL then mret [c] else
      l ← read_line fuel'; mret (c :: l)
  end.

Definition slave_copy (k : nat) (size : Z) : M state (list Z) :=
  canon ← flag k c_lflag ICANON;
  if (canon : bool) then on_in k (read_line (Z.to_nat size)) else
  n ← pget k (λ p, r_count (y_in p));
  on_in k (pty_buf_drain (Z.to_nat (if size <? n then size else n))).

Definition slave_read_finish (k : nat) (size : Z) : M state read_result :=
  data ← slave_copy k size;
  wake_master_write k;;
  lift_r wake_all;;
  mret (RDone (Z.of_nat (length data)) data).

Definition slave_must_wait (p : pty_pair) : bool :=
  (r_count (y_in p) =? 0) || has (c_lflag (y_tio p)) ICANON && negb (pty_buf_has_line p).

Definition slave_read_loop (cur : option Z) (k : nat) (nonblock : bool) (size : Z) : M state read_result :=
  p ← pget k id;
  if slave_must_wait p then
    if negb (y_master_open p) then
      (if 0 <? r_count (y_in p) then slave_read_finish k size else mret (RDone 0 []))
    else if nonblock then mret (RDone (- EAGAIN) []) else
    match cur with
    | Some t => pset k (set_blocked_slave_read (Some t));; lift_r (block t);; mret RBlocked
    | None => λ _, Wait
    end
  else slave_read_finish k size.

Definition pty_slave_read (cur : option Z) (k : nat) (valid nonblock : bool) (size : Z) : M state read_result :=
  if negb valid || (size =? 0) then mret (RDone 0 []) else slave_read_loop cur k nonblock size.

Definition slave_read_resume (cur : option Z) (k : nat) (nonblock : bool) (size : Z) : M state read_result :=
  pset k (set_blocked_slave_read None);; slave_read_loop cur k nonblock size.

(** One character from the slave, once there is room. *)
Definition output_char (k : nat) (c : Z) : M state unit :=
  opost ← flag k c_oflag OPOST;
  onlcr ← flag k c_oflag ONLCR;
  n ← pget k (λ p, r_count (y_out p));
  if (opost : bool) && (onlcr && (c =? NL)) && (n + 2 <=? PTY_BUF_SIZE) then put_out k CR;; put_out k NL
  else put_out k c.

Fixpoint slave_write_loop (cur : option Z) (k : nat) (nonblock : bool) (rest : list Z) (written : Z) : M state write_result :=
  match rest with
  | [] =>
      wake_master_read k;;
      lift_r wake_all;;
      mret (WDone written)
  | c :: rest' =>
      n ← pget k (λ p, r_count (y_out p));
      if PTY_BUF_SIZE <=? n then
        mo ← pget k y_master_open;
        if negb mo then mret (WDone (if 0 <? written then written else - EPIPE)) else
        if nonblock then mret (WDone (if 0 <? written then written else - EAGAIN)) else
        match cur with
        | Some t => pset k (set_blocked_slave_write (Some t));; lift_r (block t);; mret (WBlocked rest written)
        | None => λ _, Wait
        end
      else
        output_char k c;;
        slave_write_loop cur k nonblock rest' (written + 1)
  end.

Definition pty_slave_write (cur : option Z) (k : nat) (valid nonblock : bool) (buffer : list Z) : M state write_result :=
  if negb valid || (Z.of_nat (length buffer) =? 0) then mret (WDone 0) else
  mo ← pget k y_master_open;
  if negb mo then mret (WDone (- EPIPE)) else
  slave_write_loop cur k nonblock buffer 0.

Definition slave_write_resume (cur : option Z) (k : nat) (nonblock : bool) (rest : list Z) (written : Z) : M state write_result :=
  pset k (set_blocked_slave_write None);; slave_write_loop cur k nonblock rest written.

Definition pty_slave_open (k : nat) : M state unit :=
  pset k (λ p, set_slave_open true (set_slave_refs (i32 (y_slave_refs p + 1)) p)).

Definition pty_slave_close (k : nat) : M state unit :=
  pset k (λ p, set_slave_refs (i32 (y_slave_refs p - 1)) p);;
  n ← pget k y_slave_refs;
  if n <=? 0 then
    pset k (set_slave_open false);;
    wake_master_read k;;
    wake_master_write k;;
    lift_r wake_all;;
    p ← pget k id;
    if negb (y_master_open p) && (y_master_refs p <=? 0) then pty_free_pair k else mret tt
  else mret tt.

(** ** Control and creation *)

Definition TCGETS : Z := 0x5401.
Definition TCSETS : Z := 0x5402.
Definition TCSETSW : Z := 0x5403.
Definition TCSETSF : Z := 0x5404.
Definition TIOCSCTTY : Z := 0x540E.
Definition TIOCGPGRP : Z := 0x540F.
Definition TIOCSPGRP : Z := 0x5410.
Definition TIOCGWINSZ : Z := 0x5413.
Definition TIOCSWINSZ : Z := 0x5414.
Definition FIONREAD : Z := 0x541B.
Definition TIOCNOTTY : Z := 0x5422.
Definition TIOCGSID : Z := 0x5429.
Definition TIOCGPTN : Z := 0x80045430.
Definition TIOCSPTLCK : Z := 0x40045431.
Definition TIOCGPTLCK : Z := 0x80045439.

Definition put_int (v : Z) (a : user_arg) : user_arg := mk_arg (i32 v) (u_ws a) (u_tio a).
Definition put_ws (w : winsize) (a : user_arg) : user_arg := mk_arg (u_int a) w (u_tio a).
Definition put_tio (t : termios) (a : user_arg) : user_arg := mk_arg (u_int a) (u_ws a) t.

(** Most requests need the argument: [if (!arg) return -EFAULT]. *)
Definition with_arg (arg : option user_arg) (f : user_arg → M state user_arg) : M state (Z * option user_arg) :=
  match arg with
  | None => mret (- EFAULT, None)
  | Some a => a' ← f a; mret (0, Some a')
  end.

Definition set_window (k : nat) (a : user_arg) : M state user_arg :=
  pset k (set_ws (u_ws a));; kill_foreground k SIGWINCH;; mret a.

Definition pty_master_ioctl (k : nat) (request : Z) (arg : option user_arg) : M state (Z * option user_arg) :=
  let req := u32 request in
  if req =? TIOCGPTN then with_arg arg (λ a, v ← pget k y_id; mret (put_int v a))
  else if req =? TIOCSPTLCK then with_arg arg (λ a, pset k (set_locked (negb (u_int a =? 0)));; mret a)
  else if req =? TIOCGPTLCK then with_arg arg (λ a, v ← pget k y_locked; mret (put_int (if (v : bool) then 1 else 0) a))
  else if req =? TIOCGWINSZ then with_arg arg (λ a, w ← pget k y_ws; mret (put_ws w a))
  else if req =? TIOCSWINSZ then with_arg arg (set_window k)
  else if req =? FIONREAD then with_arg arg (λ a, n ← pget k (λ p, r_count (y_out p)); mret (put_int n a))
  else if req =? TCGETS then with_arg arg (λ a, t ← pget k y_tio; mret (put_tio t a))
  else if (req =? TCSETS) || (req =? TCSETSW) || (req =? TCSETSF) then with_arg arg (λ a, pset k (set_tio (u_tio a));; mret a)
  else if req =? TIOCGPGRP then with_arg arg (λ a, g ← pget k y_foreground_pgid; mret (put_int g a))
  else if req =? TIOCSPGRP then with_arg arg (λ a, pset k (set_foreground_pgid (u64 (u_int a)));; mret a)
  else mret (- ENOTTY, arg).

(** The second result is the process, whose controlling terminal may change. *)
Definition pty_slave_ioctl (k : nat) (proc : option process) (request : Z) (arg : option user_arg) :
    M state (Z * option user_arg * option process) :=
  let req := u32 request in
  let keep (c : M state (Z * option user_arg)) := r ← c; mret (r, proc) in
  if req =? TCGETS then keep (with_arg arg (λ a, t ← pget k y_tio; mret (put_tio t a)))
  else if (req =? TCSETS) || (req =? TCSETSW) || (req =? TCSETSF) then keep (with_arg arg (λ a, pset k (set_tio (u_tio a));; mret a))
  else if req =? TIOCGWINSZ then keep (with_arg arg (λ a, w ← pget k y_ws; mret (put_ws w a)))
  else if req =? TIOCSWINSZ then keep (with_arg arg (set_window k))
  else if req =? TIOCSCTTY then
    match proc with
    | Some p =>
        pset k (set_session_sid (pr_pid p));;
        pset k (set_foreground_pgid (if pr_pgid p =? 0 then pr_pid p else pr_pgid p));;
        n ← pget k y_slave_node;
        mret (0, arg, Some (mk_proc (pr_pid p) (pr_pgid p) n))
    | None => mret (0, arg, None)
    end
  else if req =? TIOCNOTTY then
    pset k (set_session_sid 0);;
    mret (0, arg, (λ p, mk_proc (pr_pid p) (pr_pgid p) None) <$> proc)
  else if req =? TIOCGPGRP then keep (with_arg arg (λ a,
    g ← pget k y_foreground_pgid;
    mret (put_int (if g =? 0 then match proc with Some p => pr_pgid p | None => 1 end else g) a)))
  else if req =? TIOCSPGRP then keep (with_arg arg (λ a,
    pset k (set_foreground_pgid (if 0 <? u_int a then u_int a else match proc with Some p => pr_pid p | None => 1 end));;
    mret a))
  else if req =? FIONREAD then keep (with_arg arg (λ a, n ← pget k (λ p, r_count (y_in p)); mret (put_int n a)))
  else if req =? TIOCGSID then keep (with_arg arg (λ a, n ← pget k y_session_sid; mret (put_int n a)))
  else mret (- ENOTTY, arg, proc).

Definition pty_subsystem_init : M state unit :=
  i ← gets (λ s : state, pty_initialized s.1);
  if (i : bool) then mret tt else modify (λ s : state, (mk_ptys (replicate PTY_MAX_PAIRS zero_pair) true (signals s.1), s.2)).

Fixpoint free_slot (i : nat) (l : list pty_pair) : option nat :=
  match l with
  | [] => None
  | p :: l' => if negb (y_allocated p) then Some i else free_slot (S i) l'
  end.

Definition default_cc : list Z :=
  <[10%nat := 0x1A]> (<[6%nat := 1]> (<[4%nat := 4]> (<[3%nat := 0x15]> (<[2%nat := 0x7F]> (<[1%nat := 0x1C]> (<[0%nat := 3]> (replicate 32 0))))))).

Definition new_pair (slot : nat) (m_node s_node : option Z) : pty_pair :=
  mk_pair (Z.of_nat slot) true true true false 1 0 zero_ring zero_ring (mk_ws 24 80 0 0)
    (mk_tio 0x4100 0x0005 0x00BF 0x8A3B 0 default_cc 0 0) 0 0 None None None None m_node s_node.

(** [m_node] and [s_node] are what the two calls of [kzalloc] return; without
    one of them the slot is given up again. *)
Definition pty_create_master_node (m_node s_node : option Z) : M state (option Z) :=
  pty_subsystem_init;;
  t ← gets (λ s : state, pty_table s.1);
  match free_slot 0 t with
  | None => mret None
  | Some slot =>
      pset slot (λ _, new_pair slot None None);;
      match m_node, s_node with
      | Some _, Some _ => pset slot (λ _, new_pair slot m_node s_node);; mret m_node
      | _, _ => pset slot (set_allocated false);; mret None
      end
  end.

Definition pty_get_slave_node (n : Z) : M state (option Z) :=
  if (n <? 0) || (Z.of_nat PTY_MAX_PAIRS <=? n) then mret None else
  p ← pget (Z.to_nat n) id;
  mret (if negb (y_allocated p) || negb (y_master_open p) then None else y_slave_node p).

(** Readable, writable, hung up, for the master or the slave end; [None]
    without an allocated pair. *)
Definition pty_poll_state (k : nat) (master : bool) : M state (option (bool * bool * bool)) :=
  p ← pget k id;
  mret (if negb (y_allocated p) then None else
    if master then Some (0 <? r_count (y_out p), r_count (y_in p) <? PTY_BUF_SIZE, slave_gone p)
    else Some (if has (c_lflag (y_tio p)) ICANON then pty_buf_has_line p else 0 <? r_count (y_in p),
               r_count (y_out p) <? PTY_BUF_SIZE, negb (y_master_open p) && (y_master_refs p =? 0))).

End Ops.
End Pty.
