(* ===== verification/PtySpec.v ===== *)
(** * Correctness of pseudo-terminals

    The rings hold two queues of bytes, [I] towards the slave and [O] towards
    the master; the line discipline is a function on them.  The scheduler is
    any one that keeps [SchedLaws]. *)
From S2P Require Import Prelude Ring Blocking Pty.

Module PtySpec.
Import Ring Pty.

Implicit Types (p : pty_pair) (pt : ptys) (ri ro r : ring) (I O q : list Z) (b c : Z).

Abbreviation holds := (rep PTY_BUF_SIZE).

Definition byte b : Prop := 0 ≤ b < 256.

(** A byte is dropped when the queue is full. *)
Definition put q b : list Z := if (length q <? 4096)%nat then q ++ [b] else q.
Definition puts q (bs : list Z) : list Z := foldl put q bs.

(** ** Rings *)

Lemma pty_buf_put_spec r q b : holds r q → byte b → wp (pty_buf_put b) r (λ _ r', holds r' (put q b)).
Proof.
  intros Hr Hb. apply wp_bind, wp_gets. rewrite (rep_count _ _ _ Hr). unfold put, PTY_BUF_SIZE.
  destruct (Nat.ltb_spec (length q) 4096), (Z.ltb_spec (Z.of_nat (length q)) 4096); try lia; [|by apply wp_ret].
  apply ring_put_spec; [done|unfold PTY_BUF_SIZE; lia|done].
Qed.

Lemma pty_buf_get_spec r q b : holds r (b :: q) → wp pty_buf_get r (λ c r', c = b ∧ holds r' q).
Proof.
  intros Hr. apply wp_bind, wp_gets. rewrite (rep_count _ _ _ Hr). destruct (Z.eqb_spec (Z.of_nat (length (b :: q))) 0); [simpl in *; lia|].
  by apply ring_get_spec.
Qed.

Lemma pty_buf_drain_spec n : ∀ r q, holds r q → (n ≤ length q)%nat → wp (pty_buf_drain n) r (λ l r', l = take n q ∧ holds r' (drop n q)).
Proof.
  induction n as [|n IH]; intros r q Hr Hn; [by apply wp_ret|]. destruct q as [|b q]; [simpl in Hn; lia|].
  apply wp_bind. eapply wp_mono; [by apply pty_buf_get_spec|]. intros c r1 [-> Hr1].
  apply wp_bind. eapply wp_mono; [apply IH; [done|simpl in Hn; lia]|]. intros l r2 [-> Hr2]. by apply wp_ret.
Qed.

(** Taking back the byte put last. *)
Lemma ring_unput r q b : holds r (q ++ [b]) → let last := u32 (u32 (r_write_pos r - 1) + PTY_BUF_SIZE) mod PTY_BUF_SIZE in
  r_buf r !! Z.to_nat last = Some b ∧ holds (mk_ring (r_buf r) (r_read_pos r) last (u32 (r_count r - 1))) q.
Proof.
  intros [Hs Hl Hr Hc Hf Hw Hb] last. unfold PTY_BUF_SIZE in *. rewrite length_app in *. cbn [length] in *.
  assert (last = (r_read_pos r + Z.of_nat (length q)) mod 4096) as Hlast.
  { unfold last, wrap. rewrite Hw. clear -Hr. Z.div_mod_to_equations. lia. }
  split.
  - rewrite Hlast. apply (Hb (length q) b). by rewrite lookup_app_r, Nat.sub_diag by lia.
  - split; cbn [r_buf r_read_pos r_write_pos r_count]; [done|done|done|rewrite Hc, wrap_small; lia|lia|done|].
    intros i y Hi. apply Hb. by apply lookup_app_l_Some.
Qed.

Fixpoint first_line (n : nat) q : list Z * list Z :=
  match n, q with
  | S n', b :: q' =>
      if b =? EOT then ([], q') else
      if b =? NL then ([b], q') else
      let '(l, rest) := first_line n' q' in (b :: l, rest)
  | _, _ => ([], q)
  end.

Lemma read_line_spec n : ∀ r q, holds r q → wp (read_line n) r (λ l r', l = (first_line n q).1 ∧ holds r' (first_line n q).2).
Proof.
  induction n as [|n IH]; intros r q Hr; [by apply wp_ret|]. apply wp_bind, wp_gets. rewrite (rep_count _ _ _ Hr).
  destruct q as [|b q]; [by apply wp_ret|]. destruct (Z.eqb_spec (Z.of_nat (length (b :: q))) 0); [simpl in *; lia|].
  apply wp_bind. eapply wp_mono; [by apply pty_buf_get_spec|]. intros c r1 [-> Hr1]. cbn [first_line].
  destruct (b =? EOT); [by apply wp_ret|]. destruct (b =? NL); [by apply wp_ret|].
  apply wp_bind. eapply wp_mono; [by apply IH|]. intros l r2 [-> Hr2]. apply wp_ret. by destruct (first_line n q).
Qed.

Lemma has_line_spec r q : holds r q → has_line (r_buf r) (r_read_pos r) (Z.to_nat (r_count r)) = bool_decide (NL ∈ q ∨ EOT ∈ q).
Proof.
  intros Hr. rewrite (rep_count _ _ _ Hr), Nat2Z.id. pose proof (rep_bytes _ _ _ Hr) as Hb. clear Hr. revert Hb. generalize (r_read_pos r) as t.
  induction q as [|b q IH]; intros t Hb; cbn [length has_line]; [symmetry; apply bool_decide_eq_false; set_solver|].
  pose proof (Hb 0%nat b eq_refl) as H0. rewrite Z.add_0_r in H0. rewrite H0. rewrite IH.
  - destruct (Z.eqb_spec b NL), (Z.eqb_spec b EOT); cbn [orb]; symmetry; try (apply bool_decide_eq_true; set_solver). apply bool_decide_ext. set_solver.
  - intros i y Hi. specialize (Hb (S i) y Hi). replace (t + 1 + Z.of_nat i) with (t + Z.of_nat (S i)) by lia. done.
Qed.

(** ** The state around one pair *)

Definition upd pt (k : nat) p : ptys := mk_ptys (<[k := p]> (pty_table pt)) (pty_initialized pt) (signals pt).
Definition raised pt (l : list (Z * Z)) : ptys := mk_ptys (pty_table pt) (pty_initialized pt) (signals pt ++ l).

(** [p] with other rings. *)
Definition rings p ri ro : pty_pair := set_out ro (set_in ri p).

(** The line discipline, a function on the two queues and the signals. *)
Record line := mk_line { l_in : list Z; l_out : list Z; l_sig : list Z }.

Definition signalled (tio : termios) (c : Z) : option (Z * list Z) :=
  if negb (has (c_lflag tio) ISIG) then None else
  if c =? 3 then Some (SIGINT, if has (c_lflag tio) ECHO then [94; 67; NL] else []) else
  if c =? 0x1C then Some (SIGQUIT, []) else
  if c =? 0x1A then Some (SIGTSTP, []) else None.

Definition echoed (tio : termios) (c : Z) : list Z :=
  if negb (has (c_lflag tio) ECHO) then [] else
  if c =? NL then (if has (c_oflag tio) ONLCR then [CR; NL] else [NL]) else [c].

Definition is_erase (tio : termios) (c : Z) : bool := has (c_lflag tio) ICANON && ((c =? DEL) || (c =? BS)).

Definition mapped (tio : termios) (c : Z) : Z := if has (c_iflag tio) ICRNL && (c =? CR) then NL else c.

Definition erased (tio : termios) (s : line) : line :=
  match last (l_in s) with
  | None => s
  | Some b =>
      if b =? NL then s else
      mk_line (removelast (l_in s)) (if has (c_lflag tio) ECHO && has (c_lflag tio) ECHOE then puts (l_out s) [BS; 32; BS] else l_out s) (l_sig s)
  end.

Definition discipline (tio : termios) (s : line) (c : Z) : line :=
  match signalled tio c with
  | Some (sig, out) => mk_line (l_in s) (puts (l_out s) out) (l_sig s ++ [sig])
  | None =>
      let c' := mapped tio c in
      if is_erase tio c' then erased tio s else mk_line (put (l_in s) c') (puts (l_out s) (echoed tio c')) (l_sig s)
  end.

(** What reaches the master of what the slave writes. *)
Definition translate (tio : termios) (data : list Z) : list Z :=
  data ≫= λ c, if has (c_oflag tio) OPOST && has (c_oflag tio) ONLCR && (c =? NL) then [CR; NL] else [c].

Lemma put_length q b : (length (put q b) ≤ S (length q))%nat.
Proof. unfold put. destruct (length q <? 4096)%nat; [rewrite length_app; simpl; lia|lia]. Qed.

Lemma put_room q b : (length q < 4096)%nat → put q b = q ++ [b].
Proof. intros Hq. unfold put. by destruct (Nat.ltb_spec (length q) 4096); [|lia]. Qed.

Lemma puts_room bs : ∀ q, (length q + length bs ≤ 4096)%nat → puts q bs = q ++ bs.
Proof.
  induction bs as [|b bs IH]; intros q Hq; cbn [puts foldl]; [by rewrite app_nil_r|]. cbn [length] in Hq. rewrite put_room by lia.
  change (puts (q ++ [b]) bs = q ++ b :: bs). rewrite IH by (rewrite length_app; simpl; lia). by rewrite <-app_assoc.
Qed.

Lemma upd_upd pt k p p' : upd (upd pt k p) k p' = upd pt k p'.
Proof. unfold upd. cbn. by rewrite list_insert_insert_eq. Qed.

Lemma upd_id pt k p : pty_table pt !! k = Some p → upd pt k p = pt.
Proof. intros Hp. unfold upd. rewrite list_insert_id by done. by destruct pt. Qed.

Lemma removelast_app q b : removelast (q ++ [b]) = q.
Proof. apply removelast_last. Qed.

Section Pair.
  Context {SC : Type} `{SchedLaws SC}.
  Variables (k : nat) (p0 : pty_pair).
  Implicit Types (sc : SC).

Definition there pt : Prop := (k < length (pty_table pt))%nat.

Lemma pty_wp_pget {A} (f : pty_pair → A) pt p sc (Q : A → state → Prop) : there pt → Q (f p) (upd pt k p, sc) → wp (pget k f) (upd pt k p, sc) Q.
Proof. intros Hk HQ. eapply wp_deref; [|exact HQ]. cbn. by rewrite list_lookup_insert_eq. Qed.

Lemma pty_wp_pset f pt p sc (Q : unit → state → Prop) : there pt → Q tt (upd pt k (f p), sc) → wp (pset k f) (upd pt k p, sc) Q.
Proof.
  intros Hk HQ. apply wp_bind, pty_wp_pget; [done|]. apply wp_modify. cbn [fst snd upd pty_table pty_initialized signals].
  rewrite (list_alter_as_insert _ _ _ p) by by apply list_lookup_insert_eq. rewrite list_insert_insert_eq. done.
Qed.

Lemma wp_flag f m pt ri ro sc (Q : bool → state → Prop) : there pt → Q (has (f (y_tio p0)) m) (upd pt k (rings p0 ri ro), sc) →
  wp (flag k f m) (upd pt k (rings p0 ri ro), sc) Q.
Proof. intros Hk HQ. by apply pty_wp_pget. Qed.

Lemma wp_on_out {A} (m : M ring A) pt ri ro sc (Q : A → state → Prop) : there pt →
  wp m ro (λ a ro', Q a (upd pt k (rings p0 ri ro'), sc)) → wp (on_out k m) (upd pt k (rings p0 ri ro), sc) Q.
Proof.
  intros Hk Hm. apply wp_bind, pty_wp_pget; [done|]. cbn [y_out rings set_out]. unfold wp in Hm at 1. destruct (m ro) as [[a ro']| | |]; try done.
  apply wp_bind, pty_wp_pset; [done|]. by apply wp_ret.
Qed.

Lemma wp_on_in {A} (m : M ring A) pt ri ro sc (Q : A → state → Prop) : there pt →
  wp m ri (λ a ri', Q a (upd pt k (rings p0 ri' ro), sc)) → wp (on_in k m) (upd pt k (rings p0 ri ro), sc) Q.
Proof.
  intros Hk Hm. apply wp_bind, pty_wp_pget; [done|]. cbn [y_in rings set_out set_in]. unfold wp in Hm at 1. destruct (m ri) as [[a ri']| | |]; try done.
  apply wp_bind, pty_wp_pset; [done|]. by apply wp_ret.
Qed.

Lemma wp_put_out b pt ri ro O sc (Q : unit → state → Prop) : there pt → holds ro O → byte b →
  (∀ ro', holds ro' (put O b) → Q tt (upd pt k (rings p0 ri ro'), sc)) → wp (put_out k b) (upd pt k (rings p0 ri ro), sc) Q.
Proof. intros Hk Hr Hb HQ. apply wp_on_out; [done|]. eapply wp_mono; [by apply pty_buf_put_spec|]. intros [] r' Hr'. by apply HQ. Qed.

Lemma wp_kill sig pt ri ro sc (Q : unit → state → Prop) : there pt →
  Q tt (upd (raised pt (if 0 <? y_foreground_pgid p0 then [(group_pid (y_foreground_pgid p0), sig)] else [])) k (rings p0 ri ro), sc) →
  wp (kill_foreground k sig) (upd pt k (rings p0 ri ro), sc) Q.
Proof.
  intros Hk HQ. apply wp_bind, pty_wp_pget; [done|]. cbn [y_foreground_pgid rings set_in set_out]. destruct (0 <? y_foreground_pgid p0).
  - apply wp_modify. done.
  - apply wp_ret. unfold raised in HQ. rewrite app_nil_r in HQ. by destruct pt.
Qed.

(** The entries of the signal log. *)
Definition sigs (l : list Z) : list (Z * Z) := if 0 <? y_foreground_pgid p0 then (λ s, (group_pid (y_foreground_pgid p0), s)) <$> l else [].

Lemma sigs_app l l' : sigs (l ++ l') = sigs l ++ sigs l'.
Proof. unfold sigs. destruct (0 <? _); [apply fmap_app|done]. Qed.

Lemma raised_nil pt : raised pt (sigs []) = pt.
Proof. unfold raised, sigs. destruct (0 <? _); cbn; rewrite app_nil_r; by destruct pt. Qed.

Lemma raised_app pt l l' : raised (raised pt (sigs l)) (sigs l') = raised pt (sigs (l ++ l')).
Proof. unfold raised. cbn. by rewrite sigs_app, app_assoc. Qed.

Abbreviation tio := (y_tio p0).

(** The state in which the pair holds the queues of [s]. *)
Definition in_line pt sc (s : line) (st : state) : Prop := ∃ ri ro, holds ri (l_in s) ∧ holds ro (l_out s) ∧
  st = (upd (raised pt (sigs (l_sig s))) k (rings p0 ri ro), sc).

Lemma signal_char_spec c pt ri ro I O sc : there pt → holds ri I → holds ro O →
  wp (signal_char k c) (upd pt k (rings p0 ri ro), sc) (λ sg s',
    match signalled tio c with
    | Some (sig, out) => sg = true ∧ in_line pt sc (mk_line I (puts O out) [sig]) s'
    | None => sg = false ∧ s' = (upd pt k (rings p0 ri ro), sc)
    end).
Proof.
  intros Hk Hi Ho. unfold signal_char, signalled. apply wp_bind, wp_flag; [done|]. destruct (has (c_lflag tio) ISIG); cbn [negb]; [|by apply wp_ret].
  assert (∀ sig, raised pt (if 0 <? y_foreground_pgid p0 then [(group_pid (y_foreground_pgid p0), sig)] else []) = raised pt (sigs [sig])) as Hs.
  { intros sig. unfold sigs. by destruct (0 <? _). }
  destruct (c =? 3).
  - apply wp_bind, wp_kill; [done|]. rewrite Hs. apply wp_bind, wp_flag; [done|]. apply wp_bind. destruct (has (c_lflag tio) ECHO).
    + apply wp_bind. eapply wp_put_out; [done|done|unfold byte; lia|]. intros ro1 Ho1.
      apply wp_bind. eapply wp_put_out; [done|done|unfold byte; lia|]. intros ro2 Ho2.
      eapply wp_put_out; [done|done|unfold byte, NL; lia|]. intros ro3 Ho3. apply wp_ret. split; [done|]. by exists ri, ro3.
    + apply wp_ret, wp_ret. split; [done|]. by exists ri, ro.
  - destruct (c =? 0x1C).
    { apply wp_bind, wp_kill; [done|]. rewrite Hs. apply wp_ret. split; [done|]. by exists ri, ro. }
    destruct (c =? 0x1A); [|by apply wp_ret]. apply wp_bind, wp_kill; [done|]. rewrite Hs. apply wp_ret. split; [done|]. by exists ri, ro.
Qed.

Lemma erase_spec pt ri ro I O sc : there pt → holds ri I → holds ro O →
  wp (erase k) (upd pt k (rings p0 ri ro), sc) (λ _ s', in_line pt sc (erased tio (mk_line I O [])) s').
Proof.
  intros Hk Hi Ho. apply wp_bind, pty_wp_pget; [done|]. cbn [y_in rings set_out set_in]. rewrite (rep_count _ _ _ Hi). unfold erased. cbn [l_in l_out l_sig].
  destruct I as [|b I _] using rev_ind.
  { destruct (Z.ltb_spec 0 (Z.of_nat (length (@nil Z)))); [simpl in *; lia|]. apply wp_ret. exists ri, ro. by rewrite raised_nil. }
  rewrite length_app, last_snoc. cbn [length]. destruct (Z.ltb_spec 0 (Z.of_nat (length I + 1))); [|lia].
  destruct (ring_unput _ _ _ Hi) as [Hb Hu]. apply wp_bind. apply wp_deref with b; [done|]. destruct (Z.eqb_spec b NL); cbn [negb].
  { apply wp_ret. exists ri, ro. by rewrite raised_nil. }
  rewrite removelast_app. rewrite (rep_count _ _ _ Hi), length_app in Hu. set (ri' := mk_ring _ _ _ _) in *.
  apply wp_bind, pty_wp_pset; [done|]. change (set_in ri' (rings p0 ri ro)) with (rings p0 ri' ro).
  apply wp_bind, wp_flag; [done|]. apply wp_bind, wp_flag; [done|]. destruct (has (c_lflag tio) ECHO && has (c_lflag tio) ECHOE).
  - apply wp_bind. eapply wp_put_out; [done|done|unfold byte, BS; lia|]. intros ro1 Ho1.
    apply wp_bind. eapply wp_put_out; [done|done|unfold byte; lia|]. intros ro2 Ho2.
    eapply wp_put_out; [done|done|unfold byte, BS; lia|]. intros ro3 Ho3. exists ri', ro3. by rewrite raised_nil.
  - apply wp_ret. exists ri', ro. by rewrite raised_nil.
Qed.

Lemma echo_spec c pt ri ro O sc (Q : unit → state → Prop) : there pt → holds ro O → byte c →
  (∀ ro', holds ro' (puts O (echoed tio c)) → Q tt (upd pt k (rings p0 ri ro'), sc)) → wp (echo k c) (upd pt k (rings p0 ri ro), sc) Q.
Proof.
  intros Hk Ho Hc HQ. unfold echo, echoed in *. apply wp_bind, wp_flag; [done|]. destruct (has (c_lflag tio) ECHO); cbn [negb] in *; [|by apply wp_ret, HQ].
  destruct (c =? NL); [|by eapply wp_put_out]. apply wp_bind, wp_flag; [done|]. apply wp_bind. destruct (has (c_oflag tio) ONLCR).
  - eapply wp_put_out; [done|done|unfold byte, CR; lia|]. intros ro1 Ho1. eapply wp_put_out; [done|done|unfold byte, NL; lia|]. done.
  - apply wp_ret. eapply wp_put_out; [done|done|unfold byte, NL; lia|]. done.
Qed.

Lemma input_char_spec c pt ri ro I O sc : there pt → holds ri I → holds ro O → byte c →
  wp (input_char k c) (upd pt k (rings p0 ri ro), sc) (λ _ s', in_line pt sc (discipline tio (mk_line I O []) c) s').
Proof.
  intros Hk Hi Ho Hc. unfold discipline. apply wp_bind. eapply wp_mono; [by apply signal_char_spec|]. intros sg s'.
  destruct (signalled tio c) as [[sig out]|]; intros [-> Hs]; [by apply wp_ret|]. subst s'.
  apply wp_bind, wp_flag; [done|]. apply wp_bind, wp_flag; [done|]. cbn [l_in l_out l_sig]. unfold is_erase.
  change (if has (c_iflag tio) ICRNL && (c =? CR) then NL else c) with (mapped tio c).
  assert (byte (mapped tio c)) as Hm by (unfold mapped, byte, NL in *; destruct (_ && _); lia).
  destruct (has (c_lflag tio) ICANON && _); [by eapply wp_mono; [by apply erase_spec|]|].
  apply wp_bind. eapply echo_spec; [done|done|done|]. intros ro' Ho'. apply wp_on_in; [done|].
  eapply wp_mono; [by apply pty_buf_put_spec|]. intros [] ri' Hi'. exists ri', ro'. by rewrite raised_nil.
Qed.

(** The signals raised add up. *)
Lemma discipline_sig s c : discipline tio s c =
  mk_line (l_in (discipline tio (mk_line (l_in s) (l_out s) []) c)) (l_out (discipline tio (mk_line (l_in s) (l_out s) []) c))
    (l_sig s ++ l_sig (discipline tio (mk_line (l_in s) (l_out s) []) c)).
Proof.
  destruct s as [I O S]. unfold discipline, erased. cbn [l_in l_out l_sig]. destruct (signalled tio c) as [[sig out]|]; [done|].
  destruct (is_erase tio _); [|by rewrite app_nil_r]. destruct (last I) as [b|]; [|by rewrite app_nil_r]. destruct (b =? NL); by rewrite app_nil_r.
Qed.

Lemma discipline_length s c : (length (l_in (discipline tio s c)) ≤ S (length (l_in s)))%nat.
Proof.
  unfold discipline. destruct (signalled tio c) as [[sig out]|]; [cbn; lia|]. destruct (is_erase tio _); [|apply put_length].
  unfold erased. destruct (last (l_in s)) as [b|]; [|lia]. destruct (b =? NL); [lia|]. cbn.
  destruct (l_in s) as [|y q _] using rev_ind; [simpl; lia|]. rewrite removelast_app, length_app. simpl. lia.
Qed.

Lemma in_line_step pt sc s c st : there pt → byte c → in_line pt sc s st →
  wp (input_char k c) st (λ _ st', in_line pt sc (discipline tio s c) st').
Proof.
  intros Hk Hc (ri & ro & Hi & Ho & ->). eapply wp_mono; [by apply input_char_spec|].
  intros [] st' (ri' & ro' & Hi' & Ho' & ->). rewrite raised_app in *. rewrite discipline_sig. by exists ri', ro'.
Qed.

Lemma in_line_get {A} (f : pty_pair → A) pt sc s st (Q : A → state → Prop) : there pt → in_line pt sc s st →
  (∀ ri ro, holds ri (l_in s) → holds ro (l_out s) → Q (f (rings p0 ri ro)) st) → wp (pget k f) st Q.
Proof. intros Hk (ri & ro & Hi & Ho & ->) HQ. apply pty_wp_pget; [done|]. by apply HQ. Qed.

(** As long as there is room, the characters go through the discipline. *)
Lemma master_write_loop_run cur nb pt sc rest (Q : write_result → state → Prop) : there pt → ∀ data s written st,
  in_line pt sc s st → Forall byte data → (length (l_in s) + length data ≤ 4096)%nat →
  (∀ st', in_line pt sc (foldl (discipline tio) s data) st' → wp (master_write_loop cur k nb rest (written + Z.of_nat (length data))) st' Q) →
  wp (master_write_loop cur k nb (data ++ rest) written) st Q.
Proof.
  intros Hk. induction data as [|c data IH]; intros s written st Hs Hb Hl HQ; cbn [app foldl length] in *.
  { specialize (HQ _ Hs). by rewrite Z.add_0_r in HQ. }
  apply Forall_cons in Hb as [Hc Hb]. cbn [master_write_loop]. apply wp_bind. eapply in_line_get; [done|done|]. intros ri ro Hi Ho.
  cbn [y_in rings set_out set_in]. rewrite (rep_count _ _ _ Hi). destruct (Z.leb_spec PTY_BUF_SIZE (Z.of_nat (length (l_in s)))); [unfold PTY_BUF_SIZE in *; lia|].
  apply wp_bind. eapply wp_mono; [by apply in_line_step|]. intros [] st' Hs'. apply (IH _ _ _ Hs'); [done| |].
  - pose proof (discipline_length s c). lia.
  - intros st'' Hs''. specialize (HQ _ Hs''). by replace (written + 1 + Z.of_nat (length data)) with (written + Z.of_nat (S (length data))) by lia.
Qed.

(** A writer that finds the buffer full goes to sleep, and has woken nobody. *)
Lemma master_write_full t pt sc s st c rest written : there pt → in_line pt sc s st → length (l_in s) = 4096%nat → slave_gone p0 = false →
  sched_ok sc → known sc t → ready sc t →
  wp (master_write_loop (Some t) k false (c :: rest) written) st (λ res st', res = WBlocked (c :: rest) written ∧ ∃ ri ro sc',
    holds ri (l_in s) ∧ st' = (upd (raised pt (sigs (l_sig s))) k (set_blocked_master_write (Some t) (rings p0 ri ro)), sc') ∧
    ¬ ready sc' t ∧ ∀ u, u ≠ t → ready sc' u ↔ ready sc u).
Proof.
  intros Hk (ri & ro & Hi & Ho & ->) Hl Hg Hok Hkn Hrd. cbn [master_write_loop]. apply wp_bind, pty_wp_pget; [done|].
  cbn [y_in rings set_out set_in]. rewrite (rep_count _ _ _ Hi), Hl. destruct (Z.leb_spec PTY_BUF_SIZE (Z.of_nat 4096)); [|unfold PTY_BUF_SIZE in *; lia].
  apply wp_bind, pty_wp_pget; [done|]. change (slave_gone (rings p0 ri ro)) with (slave_gone p0). rewrite Hg.
  apply wp_bind, pty_wp_pset; [done|]. apply wp_bind, wp_lift_r. eapply wp_mono; [by apply block_law|]. intros [] sc' (_ & _ & Hnt & Hu).
  apply wp_ret. split; [done|]. by exists ri, ro, sc'.
Qed.

(** One character of output, when there is room for all it stands for. *)
Lemma output_char_spec c pt ri ro O sc (Q : unit → state → Prop) : there pt → holds ro O → byte c →
  (length O + length (translate tio [c]) ≤ 4096)%nat →
  (∀ ro', holds ro' (O ++ translate tio [c]) → Q tt (upd pt k (rings p0 ri ro'), sc)) → wp (output_char k c) (upd pt k (rings p0 ri ro), sc) Q.
Proof.
  intros Hk Ho Hc Hl HQ. apply wp_bind, wp_flag; [done|]. apply wp_bind, wp_flag; [done|]. apply wp_bind, pty_wp_pget; [done|].
  cbn [y_out rings set_out]. rewrite (rep_count _ _ _ Ho). unfold translate in *. cbn [mbind list_bind] in *. rewrite app_nil_r in *.
  rewrite andb_assoc. destruct (has (c_oflag tio) OPOST && has (c_oflag tio) ONLCR && (c =? NL)); cbn [length andb] in *.
  - destruct (Z.leb_spec (Z.of_nat (length O) + 2) PTY_BUF_SIZE); [|unfold PTY_BUF_SIZE in *; lia].
    apply wp_bind. eapply wp_put_out; [done|done|unfold byte, CR; lia|]. intros ro1 Ho1. rewrite put_room in Ho1 by lia.
    eapply wp_put_out; [done|done|unfold byte, NL; lia|]. intros ro2 Ho2. rewrite put_room in Ho2 by (rewrite length_app; simpl; lia).
    apply HQ. by rewrite <-app_assoc in Ho2.
  - eapply wp_put_out; [done|done|done|]. intros ro1 Ho1. rewrite put_room in Ho1 by lia. by apply HQ.
Qed.

(** With a single free slot a newline goes out without its carriage return. *)
Lemma onlcr_last_slot pt ri ro O sc : there pt → holds ro O → length O = 4095%nat →
  wp (output_char k NL) (upd pt k (rings p0 ri ro), sc) (λ _ st', ∃ ro', holds ro' (O ++ [NL]) ∧ st' = (upd pt k (rings p0 ri ro'), sc)).
Proof.
  intros Hk Ho Hl. apply wp_bind, wp_flag; [done|]. apply wp_bind, wp_flag; [done|]. apply wp_bind, pty_wp_pget; [done|].
  cbn [y_out rings set_out]. rewrite (rep_count _ _ _ Ho), Hl. destruct (Z.leb_spec (Z.of_nat 4095 + 2) PTY_BUF_SIZE); [unfold PTY_BUF_SIZE in *; lia|].
  rewrite andb_false_r. eapply wp_put_out; [done|done|unfold byte, NL; lia|]. intros ro1 Ho1. rewrite put_room in Ho1 by lia. by exists ro1.
Qed.

Lemma slave_write_loop_run cur nb pt sc ri (Q : write_result → state → Prop) : there pt → ∀ data ro O written,
  holds ro O → Forall byte data → (length O + length (translate tio data) ≤ 4096)%nat →
  (∀ ro', holds ro' (O ++ translate tio data) →
    wp (slave_write_loop cur k nb [] (written + Z.of_nat (length data))) (upd pt k (rings p0 ri ro'), sc) Q) →
  wp (slave_write_loop cur k nb data written) (upd pt k (rings p0 ri ro), sc) Q.
Proof.
  intros Hk. induction data as [|c data IH]; intros ro O written Ho Hb Hl HQ.
  { specialize (HQ ro). rewrite app_nil_r, Z.add_0_r in HQ. by apply HQ. }
  apply Forall_cons in Hb as [Hc Hb]. assert (translate tio (c :: data) = translate tio [c] ++ translate tio data) as Ht.
  { unfold translate. cbn [mbind list_bind]. by rewrite app_nil_r. }
  assert (0 < length (translate tio [c]))%nat as Hpos by (unfold translate; cbn [mbind list_bind]; destruct (_ && _); simpl; lia).
  rewrite Ht, length_app in Hl. cbn [slave_write_loop]. apply wp_bind, pty_wp_pget; [done|]. cbn [y_out rings set_out]. rewrite (rep_count _ _ _ Ho).
  destruct (Z.leb_spec PTY_BUF_SIZE (Z.of_nat (length O))); [unfold PTY_BUF_SIZE in *; lia|].
  apply wp_bind. eapply output_char_spec; [done|done|done|lia|]. intros ro1 Ho1. eapply IH; [done|done|rewrite length_app; lia|].
  intros ro2 Ho2. rewrite <-app_assoc, <-Ht in Ho2. specialize (HQ _ Ho2).
  by replace (written + 1 + Z.of_nat (length data)) with (written + Z.of_nat (length (c :: data))) by (simpl; lia).
Qed.

End Pair.
End PtySpec.
