(* ===== verification/PtyTheorems.v ===== *)
(** * Theorems on pseudo-terminals

    Typed lines reach the slave as edited, output reaches the master with its
    newlines translated, and a writer that fills the buffer leaves the reader
    on the other side asleep. *)
From S2P Require Import Prelude Sched SchedSpec Ring Blocking Pty PtySpec.

Module PtyTheorems.
Import Ring Pty PtySpec.

Implicit Types (p : pty_pair) (pt : ptys) (ri ro : ring) (I O q : list Z) (b c : Z).

(** The line a terminal user means: characters, and erasures of the last one. *)
Definition edit (text : list Z) : list Z :=
  foldl (λ acc c, if (c =? DEL) || (c =? BS) then removelast acc else acc ++ [c]) [] text.

(** A character with no meaning of its own but possibly erasure. *)
Definition plain c : Prop := byte c ∧ c ∉ [3; 0x1C; 0x1A; NL; CR; EOT].

Section Wake.
  Context {SC : Type} `{SchedLaws SC}.
  Variable k : nat.
  Implicit Types (sc : SC).

(** The scheduler is consistent and has put nobody to sleep. *)
Definition goes_on sc sc' : Prop := sched_ok sc' ∧ (∀ u, known sc u → known sc' u) ∧ (∀ u, ready sc u → ready sc' u).

Definition known_opt sc (o : option Z) : Prop := ∀ t, o = Some t → known sc t.

Lemma goes_on_refl sc : sched_ok sc → goes_on sc sc.
Proof. done. Qed.

Lemma goes_on_trans sc1 sc2 sc3 : goes_on sc1 sc2 → goes_on sc2 sc3 → goes_on sc1 sc3.
Proof. unfold goes_on. intros (?&?&?) (?&?&?). split_and!; auto. Qed.

(** The pair after [wake]. *)
Definition woken (f : pty_pair → option Z) (clear : pty_pair → pty_pair) p : pty_pair := match f p with Some _ => clear p | None => p end.

Lemma wake_spec f clear pt p sc (Q : unit → state → Prop) : there k pt → sched_ok sc → known_opt sc (f p) →
  (∀ sc', goes_on sc sc' → (∀ t, f p = Some t → ready sc' t) → Q tt (upd pt k (woken f clear p), sc')) → wp (wake k f clear) (upd pt k p, sc) Q.
Proof.
  intros Hk Hok Hkn HQ. apply wp_bind, pty_wp_pget; [done|]. unfold woken in HQ. destruct (f p) as [t|] eqn:E; [|by apply wp_ret, HQ].
  apply wp_bind, wp_lift_r. eapply wp_mono; [apply (unblock_law sc t Hok); by apply Hkn|]. intros [] sc' (H1 & H2 & H3 & H4).
  apply pty_wp_pset; [done|]. apply HQ; [done|]. by intros ? [= <-].
Qed.

Lemma wp_wake_all pt p sc (Q : unit → state → Prop) : sched_ok sc → (∀ sc', goes_on sc sc' → Q tt (upd pt k p, sc')) →
  wp (lift_r wake_all) (upd pt k p, sc) Q.
Proof. intros Hok HQ. apply wp_lift_r. eapply wp_mono; [by apply wake_all_law|]. intros [] sc' (?&?&?). by apply HQ. Qed.

End Wake.

Section Lines.
  Context {SC : Type} `{SchedLaws SC}.
  Variable k : nat.
  Implicit Types (sc : SC) (cur : option Z).

(** The blocked tasks are known to the scheduler. *)
Definition sleepers_known sc p : Prop :=
  known_opt sc (y_blocked_master_read p) ∧ known_opt sc (y_blocked_master_write p) ∧
  known_opt sc (y_blocked_slave_read p) ∧ known_opt sc (y_blocked_slave_write p).

(** The pair once a write from the master has ended. *)
Definition after_write p : pty_pair :=
  woken y_blocked_master_read (set_blocked_master_read None) (woken y_blocked_slave_read (set_blocked_slave_read None) p).

Lemma woken_rings p ri ro : after_write (rings p ri ro) = rings (after_write p) ri ro.
Proof.
  destruct p as [??????????????br ? bs ? ? ?]. unfold after_write, woken. by destruct br, bs.
Qed.

Lemma after_write_fields p : y_tio (after_write p) = y_tio p ∧ y_master_open (after_write p) = y_master_open p ∧
  y_blocked_slave_read (after_write p) = None ∧ y_blocked_master_read (after_write p) = None ∧
  y_blocked_master_write (after_write p) = y_blocked_master_write p ∧ y_blocked_slave_write (after_write p) = y_blocked_slave_write p.
Proof. destruct p as [??????????????br ? bs ? ? ?]. unfold after_write, woken. by destruct br, bs. Qed.

(** The end of a write from the master: both readers are woken. *)
Lemma master_write_end cur nb pt p sc written : there k pt → sched_ok sc → sleepers_known sc p →
  wp (master_write_loop cur k nb [] written) (upd pt k p, sc) (λ res st', res = WDone written ∧ ∃ sc', goes_on sc sc' ∧
    (∀ t, y_blocked_slave_read p = Some t → ready sc' t) ∧ st' = (upd pt k (after_write p), sc')).
Proof.
  intros Hk Hok (K1 & K2 & K3 & K4). cbn [master_write_loop]. apply wp_bind. eapply wake_spec; [done|done|done|]. intros sc1 G1 R1.
  apply wp_bind. eapply wake_spec; [done|apply G1| |].
  { intros t Ht. apply G1, K1. unfold woken in Ht. by destruct (y_blocked_slave_read p). }
  intros sc2 G2 _. apply wp_bind. apply wp_wake_all; [apply G2|]. intros sc3 G3. apply wp_ret. split; [done|]. exists sc3. split_and!; [|by intros t Ht; apply G3, G2, R1|done].
  eapply goes_on_trans; [exact G1|]. by eapply goes_on_trans.
Qed.

Lemma pty_master_write_spec cur nb pt p sc I O data : there k pt → holds (y_in p) I → holds (y_out p) O → sched_ok sc → sleepers_known sc p →
  slave_gone p = false → Forall byte data → data ≠ [] → (length I + length data ≤ 4096)%nat →
  wp (pty_master_write cur k true nb data) (upd pt k p, sc) (λ res st', res = WDone (Z.of_nat (length data)) ∧ ∃ sc' ri ro pt',
    let s := foldl (discipline (y_tio p)) (mk_line I O []) data in
    goes_on sc sc' ∧ (∀ t, y_blocked_slave_read p = Some t → ready sc' t) ∧ there k pt' ∧ holds ri (l_in s) ∧ holds ro (l_out s) ∧
    signals pt' = signals pt ++ sigs p (l_sig s) ∧
    st' = (upd pt' k (rings (after_write p) ri ro), sc')).
Proof.
  intros Hk Hi Ho Hok Hkn Hg Hb Hne Hl. unfold pty_master_write. cbn [negb orb].
  destruct (Z.eqb_spec (Z.of_nat (length data)) 0); [destruct data; [done|simpl in *; lia]|].
  apply wp_bind, pty_wp_pget; [done|]. rewrite Hg. rewrite <-(app_nil_r data) at 1.
  apply (master_write_loop_run k p cur nb pt sc [] _ Hk data (mk_line I O [])); [|done|done|].
  { exists (y_in p), (y_out p). cbn [l_in l_out l_sig]. rewrite raised_nil. split_and!; [done|done|]. by destruct p. }
  intros st' (ri & ro & Hri & Hro & ->). eapply wp_mono; [apply master_write_end; [done|done|by destruct p]|].
  intros res st' (-> & sc' & G & R & ->). split; [done|]. exists sc', ri, ro, (raised pt (sigs p (l_sig (foldl (discipline (y_tio p)) (mk_line I O []) data)))).
  split_and!; try done. by rewrite woken_rings.
Qed.

(** What a read of the slave takes out of the input queue, and what stays. *)
Definition slave_takes (tio : termios) (size : Z) I : list Z * list Z :=
  if has (c_lflag tio) ICANON then first_line (Z.to_nat size) I
  else (take (Z.to_nat size) I, drop (Z.to_nat size) I).

Definition readable (tio : termios) I : Prop := I ≠ [] ∧ (has (c_lflag tio) ICANON = true → NL ∈ I ∨ EOT ∈ I).

Lemma rings_id p : rings p (y_in p) (y_out p) = p.
Proof. by destruct p. Qed.

Lemma slave_copy_spec pt p I sc size : there k pt → holds (y_in p) I → 0 < size →
  wp (slave_copy k size) (upd pt k p, sc) (λ data st', data = (slave_takes (y_tio p) size I).1 ∧ ∃ ri, holds ri (slave_takes (y_tio p) size I).2 ∧
    st' = (upd pt k (rings p ri (y_out p)), sc)).
Proof.
  intros Hk Hi Hs. unfold slave_copy, slave_takes. rewrite <-(rings_id p) at 1. apply wp_bind, wp_flag; [done|].
  destruct (has (c_lflag (y_tio p)) ICANON).
  - apply wp_on_in; [done|]. eapply wp_mono; [by apply read_line_spec|]. intros data ri [-> Hri]. split; [done|]. by exists ri.
  - apply wp_bind, pty_wp_pget; [done|]. cbn [y_in rings set_in set_out]. rewrite (rep_count _ _ _ Hi). apply wp_on_in; [done|].
    set (n := if size <? Z.of_nat (length I) then size else Z.of_nat (length I)). assert (Z.to_nat n = Z.to_nat size `min` length I)%nat as Hn.
    { unfold n. destruct (Z.ltb_spec size (Z.of_nat (length I))); lia. }
    eapply wp_mono; [apply pty_buf_drain_spec; [done|lia]|]. intros data ri [-> Hri]. rewrite Hn in *. cbn [fst snd]. split.
    + destruct (decide (Z.to_nat size ≤ length I)%nat); [by rewrite Nat.min_l|]. rewrite Nat.min_r by lia. by rewrite !take_ge by lia.
    + exists ri. split; [|done]. destruct (decide (Z.to_nat size ≤ length I)%nat); [by rewrite Nat.min_l in Hri|].
      rewrite Nat.min_r in Hri by lia. rewrite drop_ge in * by lia. done.
Qed.

Lemma pty_slave_read_spec cur nb pt p I sc size : there k pt → holds (y_in p) I → sched_ok sc → sleepers_known sc p → 0 < size → readable (y_tio p) I →
  wp (pty_slave_read cur k true nb size) (upd pt k p, sc) (λ res st', let '(data, rest) := slave_takes (y_tio p) size I in
    res = RDone (Z.of_nat (length data)) data ∧ ∃ ri sc', holds ri rest ∧ goes_on sc sc' ∧
    (∀ t, y_blocked_master_write p = Some t → ready sc' t) ∧
    st' = (upd pt k (woken y_blocked_master_write (set_blocked_master_write None) (rings p ri (y_out p))), sc')).
Proof.
  intros Hk Hi Hok (K1 & K2 & K3 & K4) Hs [Hne Hl]. unfold pty_slave_read. cbn [negb orb]. destruct (Z.eqb_spec size 0); [lia|].
  apply wp_bind, pty_wp_pget; [done|]. cbn [id]. assert (slave_must_wait p = false) as ->.
  { unfold slave_must_wait, pty_buf_has_line. rewrite (has_line_spec _ _ Hi), (rep_count _ _ _ Hi).
    destruct (Z.eqb_spec (Z.of_nat (length I)) 0); [destruct I; [done|simpl in *; lia]|]. cbn [orb].
    destruct (has (c_lflag (y_tio p)) ICANON); [|done]. by rewrite bool_decide_true by by apply Hl. }
  apply wp_bind. eapply wp_mono; [by apply slave_copy_spec|]. intros data st' (-> & ri & Hri & ->). destruct (slave_takes (y_tio p) size I) as [data rest].
  apply wp_bind. eapply wake_spec; [done|done|done|]. intros sc1 G1 R1. apply wp_bind, wp_wake_all; [apply G1|]. intros sc2 G2. apply wp_ret.
  split; [done|]. exists ri, sc2. split_and!; [done|by eapply goes_on_trans|by intros t Ht; apply G2, R1|done].
Qed.

(** ** Typed lines *)

Lemma plain_step tio s c : plain c → has (c_lflag tio) ICANON = true → NL ∉ l_in s → (length (l_in s) < 4096)%nat →
  l_in (discipline tio s c) = (if (c =? DEL) || (c =? BS) then removelast (l_in s) else l_in s ++ [c]) ∧ l_sig (discipline tio s c) = l_sig s.
Proof.
  intros [Hb Hc] Hcan Hnl Hlen. rewrite !not_elem_of_cons in Hc. destruct Hc as (H3 & H1c & H1a & Hn & Hcr & He & _).
  assert (signalled tio c = None) as Hsig.
  { unfold signalled. destruct (has _ ISIG); [|done]. cbn [negb]. by rewrite !(proj2 (Z.eqb_neq _ _)) by done. }
  assert (mapped tio c = c) as Hm. { unfold mapped. rewrite (proj2 (Z.eqb_neq c CR)) by done. by rewrite andb_false_r. }
  unfold discipline. rewrite Hsig. cbv zeta. rewrite Hm. unfold is_erase. rewrite Hcan. cbn [andb]. destruct ((c =? DEL) || (c =? BS)).
  - unfold erased. destruct s as [I O S]. cbn [l_in l_out l_sig] in *. destruct I as [|b q _] using rev_ind; [done|]. rewrite last_snoc.
    destruct (Z.eqb_spec b NL) as [->|]; [set_solver|]. done.
  - cbn [l_in l_sig]. by rewrite put_room by lia.
Qed.

Lemma removelast_elem y q : y ∈ removelast q → y ∈ q.
Proof. destruct q as [|b q _] using rev_ind; [done|]. rewrite removelast_app, elem_of_app. by left. Qed.

Lemma removelast_le q : (length (removelast q) ≤ length q)%nat.
Proof. destruct q as [|b q _] using rev_ind; [done|]. rewrite removelast_app, length_app. lia. Qed.

Lemma edit_run tio text : ∀ s, has (c_lflag tio) ICANON = true → Forall plain text → NL ∉ l_in s → EOT ∉ l_in s → (length (l_in s) + length text ≤ 4096)%nat →
  let s' := foldl (discipline tio) s text in
  l_in s' = foldl (λ acc c, if (c =? DEL) || (c =? BS) then removelast acc else acc ++ [c]) (l_in s) text ∧ l_sig s' = l_sig s ∧
  NL ∉ l_in s' ∧ EOT ∉ l_in s' ∧ (length (l_in s') ≤ length (l_in s) + length text)%nat.
Proof.
  induction text as [|c text IH]; intros s Hcan Hp Hnl He Hlen; cbn [foldl length] in *; [split_and!; done || lia|].
  apply Forall_cons in Hp as [Hc Hp]. destruct (plain_step tio s c Hc Hcan Hnl) as [E1 E2]; [lia|].
  pose proof (removelast_le (l_in s)) as Hrl.
  assert (c ≠ NL ∧ c ≠ EOT) as [Hcn Hce] by (destruct Hc as [_ Hc]; rewrite !not_elem_of_cons in Hc; tauto).
  destruct (IH (discipline tio s c) Hcan Hp) as (F1 & F2 & F3 & F4 & F5).
  - rewrite E1. destruct (_ || _); [by intros ?%removelast_elem|]. by rewrite elem_of_app, list_elem_of_singleton; intros [?| <-].
  - rewrite E1. destruct (_ || _); [by intros ?%removelast_elem|]. by rewrite elem_of_app, list_elem_of_singleton; intros [?| <-].
  - rewrite E1. destruct (_ || _); [lia|]. rewrite length_app. simpl. lia.
  - split_and!; [by rewrite F1, E1|by rewrite F2, E2|done|done|]. rewrite E1 in F5. destruct (_ || _); [lia|]. rewrite length_app in F5. simpl in F5. lia.
Qed.

Lemma first_line_whole q n : NL ∉ q → EOT ∉ q → (length q < n)%nat → first_line n (q ++ [NL]) = (q ++ [NL], []).
Proof.
  revert n. induction q as [|b q IH]; intros n Hn He Hl; destruct n as [|n]; simpl in Hl; try lia; cbn [app first_line].
  - done.
  - apply not_elem_of_cons in Hn as [Hbn Hn], He as [Hbe He]. rewrite !(proj2 (Z.eqb_neq b _)) by congruence.
    rewrite IH by (done || lia). done.
Qed.

Lemma newline_step tio s : l_in (discipline tio s NL) = put (l_in s) NL ∧ l_sig (discipline tio s NL) = l_sig s.
Proof.
  unfold discipline. assert (signalled tio NL = None) as -> by (unfold signalled; by destruct (has _ ISIG)).
  assert (mapped tio NL = NL) as -> by (unfold mapped; by destruct (_ && _)). unfold is_erase. rewrite andb_false_r. done.
Qed.

(** C40. In canonical mode a line typed at the master, with erasures in it, is
    what the slave reads: the characters that were not erased, and the
    newline, once the newline has been typed; no signal is raised, and a task
    that was waiting for the line is awake. *)
Theorem pty_typed_line cur cur' nb nb' pt p sc O text size : pty_table pt !! k = Some p → holds (y_in p) [] → holds (y_out p) O →
  sched_ok sc → sleepers_known sc p → slave_gone p = false → has (c_lflag (y_tio p)) ICANON = true →
  Forall plain text → (length text < 4096)%nat → Z.of_nat (length text) < size →
  wp (w ← pty_master_write cur k true nb (text ++ [NL]); r ← pty_slave_read cur' k true nb' size; mret (w, r)) (pt, sc) (λ '(w, r) st',
    w = WDone (Z.of_nat (length text) + 1) ∧ r = RDone (Z.of_nat (length (edit text)) + 1) (edit text ++ [NL]) ∧
    signals st'.1 = signals pt ∧ ∀ t, y_blocked_slave_read p = Some t → ready st'.2 t).
Proof.
  intros Hp Hi Ho Hok Hkn Hg Hcan Hpl Hlen Hsz. assert (there k pt) as Hk by by eapply lookup_lt_Some.
  rewrite <-(upd_id pt k p Hp) at 1. apply wp_bind.
  eapply wp_mono; [apply (pty_master_write_spec cur nb pt p sc [] O); try done|].
  { apply Forall_app. split; [|repeat constructor; unfold byte, NL; lia]. eapply Forall_impl; [exact Hpl|]. by intros c []. }
  { by destruct text. }
  { rewrite length_app. simpl. lia. }
  intros w st' (-> & sc1 & ri & ro & pt1 & G1 & R1 & Hk1 & Hri & Hro & Hsg & ->).
  destruct (edit_run (y_tio p) text (mk_line [] O []) Hcan Hpl) as (E1 & E2 & E3 & E4 & E5); [set_solver|set_solver|cbn; lia|].
  rewrite foldl_app in *. cbn [foldl] in *. set (s := foldl _ _ text) in *. destruct (newline_step (y_tio p) s) as [N1 N2].
  cbn [l_in] in E1, E5. fold (edit text) in E1. rewrite N1, E1, put_room in Hri by (rewrite <-E1; simpl in E5; lia). rewrite N2, E2 in Hsg.
  destruct (after_write_fields p) as (F1 & F2 & F3 & F4 & F5 & F6).
  apply wp_bind. eapply wp_mono; [apply (pty_slave_read_spec cur' nb' pt1 (rings (after_write p) ri ro) (edit text ++ [NL])); [done|done|apply G1| |lia|]|].
  { destruct Hkn as (K1 & K2 & K3 & K4). split_and!; intros t Ht; cbn in Ht; [congruence| |congruence|].
    - apply G1, K2. congruence.
    - apply G1, K4. congruence. }
  { split; [by destruct (edit text)|]. intros _. left. set_solver. }
  intros res st'. change (y_tio (rings (after_write p) ri ro)) with (y_tio (after_write p)). rewrite F1. unfold slave_takes. rewrite Hcan.
  rewrite first_line_whole; [|by rewrite <-E1|by rewrite <-E1|rewrite E1 in E5; simpl in E5; lia].
  intros (-> & ri' & sc2 & Hri' & G2 & R2 & ->). apply wp_ret. cbn [fst snd]. split_and!.
  - f_equal. rewrite length_app. simpl. lia.
  - f_equal. rewrite length_app. simpl. lia.
  - cbn [upd signals]. rewrite Hsg. unfold sigs. destruct (0 <? _); cbn; by rewrite app_nil_r.
  - intros t Ht. by apply G2, R1.
Qed.

(** ** Output *)

Lemma pty_slave_write_spec cur nb pt p sc O data : there k pt → holds (y_out p) O → sched_ok sc → known_opt sc (y_blocked_master_read p) →
  y_master_open p = true → Forall byte data → data ≠ [] → (length O + length (translate (y_tio p) data) ≤ 4096)%nat →
  wp (pty_slave_write cur k true nb data) (upd pt k p, sc) (λ res st', res = WDone (Z.of_nat (length data)) ∧ ∃ sc' ro,
    goes_on sc sc' ∧ (∀ t, y_blocked_master_read p = Some t → ready sc' t) ∧ holds ro (O ++ translate (y_tio p) data) ∧
    st' = (upd pt k (woken y_blocked_master_read (set_blocked_master_read None) (rings p (y_in p) ro)), sc')).
Proof.
  intros Hk Ho Hok Hkn Hm Hb Hne Hl. unfold pty_slave_write. cbn [negb orb].
  destruct (Z.eqb_spec (Z.of_nat (length data)) 0); [destruct data; [done|simpl in *; lia]|].
  apply wp_bind, pty_wp_pget; [done|]. rewrite Hm. cbn [negb]. rewrite <-(rings_id p) at 1.
  eapply slave_write_loop_run; [done|done|done|done|]. intros ro Hro. cbn [slave_write_loop].
  apply wp_bind. eapply wake_spec; [done|done|done|]. intros sc1 G1 R1. apply wp_bind, wp_wake_all; [apply G1|]. intros sc2 G2. apply wp_ret.
  split; [done|]. exists sc2, ro. split_and!; [by eapply goes_on_trans|by intros t Ht; apply G2, R1|done|done].
Qed.

Lemma pty_master_read_spec cur nb pt p sc O size : there k pt → holds (y_out p) O → sched_ok sc → known_opt sc (y_blocked_slave_write p) →
  O ≠ [] → 0 < size →
  wp (pty_master_read cur k true nb size) (upd pt k p, sc) (λ res st', let n := (Z.to_nat size `min` length O)%nat in
    res = RDone (Z.of_nat n) (take n O) ∧ ∃ sc' ro, goes_on sc sc' ∧ (∀ t, y_blocked_slave_write p = Some t → ready sc' t) ∧ holds ro (drop n O) ∧
    st' = (upd pt k (woken y_blocked_slave_write (set_blocked_slave_write None) (rings p (y_in p) ro)), sc')).
Proof.
  intros Hk Ho Hok Hkn Hne Hs. set (n := (Z.to_nat size `min` length O)%nat). unfold pty_master_read. cbn [negb orb]. destruct (Z.eqb_spec size 0); [lia|].
  apply wp_bind, pty_wp_pget; [done|]. rewrite (rep_count _ _ _ Ho). destruct (Z.eqb_spec (Z.of_nat (length O)) 0); [destruct O; [done|simpl in *; lia]|].
  cbv zeta. set (tr := if size <? Z.of_nat (length O) then size else Z.of_nat (length O)). assert (tr = Z.of_nat n) as ->.
  { unfold tr, n. destruct (Z.ltb_spec size (Z.of_nat (length O))); lia. }
  rewrite Nat2Z.id. rewrite <-(rings_id p) at 1. apply wp_bind, wp_on_out; [done|].
  eapply wp_mono; [apply pty_buf_drain_spec; [done|unfold n; lia]|]. intros data ro [-> Hro].
  apply wp_bind. eapply wake_spec; [done|done|done|]. intros sc1 G1 R1. apply wp_bind, wp_wake_all; [apply G1|]. intros sc2 G2. apply wp_ret.
  split; [done|]. exists sc2, ro. split_and!; [by eapply goes_on_trans|by intros t Ht; apply G2, R1|done|done].
Qed.

(** What the slave writes, with its newlines translated as the terminal
    settings say, is queued behind what was there, and a read by the master
    takes the oldest bytes of it, as many as it asks for; the input queue is
    not touched, and both the reader and the writer that were waiting are
    awake. *)
Lemma pty_output cur cur' nb nb' pt p sc I O data size : pty_table pt !! k = Some p → holds (y_in p) I → holds (y_out p) O →
  sched_ok sc → sleepers_known sc p → y_master_open p = true → Forall byte data → data ≠ [] →
  (length O + length (translate (y_tio p) data) ≤ 4096)%nat → 0 < size →
  wp (w ← pty_slave_write cur k true nb data; r ← pty_master_read cur' k true nb' size; mret (w, r)) (pt, sc) (λ '(w, r) st',
    let all := O ++ translate (y_tio p) data in let n := (Z.to_nat size `min` length all)%nat in
    w = WDone (Z.of_nat (length data)) ∧ r = RDone (Z.of_nat n) (take n all) ∧
    (∃ p', pty_table st'.1 !! k = Some p' ∧ holds (y_in p') I ∧ holds (y_out p') (drop n all)) ∧
    (∀ t, y_blocked_master_read p = Some t ∨ y_blocked_slave_write p = Some t → ready st'.2 t)).
Proof.
  intros Hp Hi Ho Hok (K1 & K2 & K3 & K4) Hm Hb Hne Hl Hs. assert (there k pt) as Hk by by eapply lookup_lt_Some.
  rewrite <-(upd_id pt k p Hp) at 1. apply wp_bind. eapply wp_mono; [by apply (pty_slave_write_spec cur nb pt p sc O data)|].
  intros w st' (-> & sc1 & ro & G1 & R1 & Hro & ->). set (p1 := woken _ _ _).
  assert (y_out p1 = ro ∧ y_in p1 = y_in p ∧ y_blocked_slave_write p1 = y_blocked_slave_write p) as (E1 & E2 & E3).
  { unfold p1, woken. cbn. by destruct (y_blocked_master_read p). }
  apply wp_bind. eapply wp_mono; [apply (pty_master_read_spec cur' nb' pt p1 sc1 (O ++ translate (y_tio p) data)); [done|by rewrite E1|apply G1| | |done]|].
  { intros t Ht. apply G1, K4. congruence. }
  { destruct data as [|c data]; [done|]. unfold translate. cbn [mbind list_bind]. destruct O; [|done]. by destruct (_ && _). }
  intros r st' (-> & sc2 & ro' & G2 & R2 & Hro' & ->). apply wp_ret. split_and!; [done|done| |].
  - eexists. split; [by apply list_lookup_insert_eq|]. rewrite E2. unfold woken. cbn. by destruct (y_blocked_slave_write p1).
  - intros t [Ht|Ht]; [by apply G2, R1|]. apply R2. congruence.
Qed.

(** ** A write larger than the buffer *)

Definition raw (tio : termios) : Prop := has (c_lflag tio) ISIG = false ∧ has (c_lflag tio) ICANON = false.

Lemma raw_run tio data : raw tio → ∀ s, (length (l_in s) + length data ≤ 4096)%nat →
  l_in (foldl (discipline tio) s data) = l_in s ++ (mapped tio <$> data) ∧ l_sig (foldl (discipline tio) s data) = l_sig s.
Proof.
  intros [Hs Hc]. induction data as [|c data IH]; intros s Hl; cbn [foldl fmap list_fmap length] in *; [by rewrite app_nil_r|].
  assert (discipline tio s c = mk_line (put (l_in s) (mapped tio c)) (puts (l_out s) (echoed tio (mapped tio c))) (l_sig s)) as ->.
  { unfold discipline, signalled, is_erase. by rewrite Hs, Hc. }
  destruct (IH (mk_line (put (l_in s) (mapped tio c)) (puts (l_out s) (echoed tio (mapped tio c))) (l_sig s))) as [E1 E2].
  { pose proof (put_length (l_in s) (mapped tio c)). cbn [l_in]. lia. }
  rewrite E1, E2. cbn [l_in l_sig]. rewrite put_room by lia. by rewrite <-app_assoc.
Qed.

(** A slave waits for input in raw mode, and the master writes more than
    the buffer holds: after 4096 bytes the writer goes to sleep without having
    woken the reader.  Both are asleep, on a full buffer that each could act
    on, and nothing else of the terminal wakes them. *)
Lemma pty_lost_wakeup t r pt p sc data : pty_table pt !! k = Some p → holds (y_in p) [] → (∃ O, holds (y_out p) O) →
  sched_ok sc → known sc t → ready sc t → slave_gone p = false → raw (y_tio p) → Forall byte data → (4096 < length data)%nat →
  r ≠ t → y_blocked_slave_read p = Some r → ¬ ready sc r →
  wp (pty_master_write (Some t) k true false data) (pt, sc) (λ res st', res = WBlocked (drop 4096 data) 4096 ∧
    ¬ ready st'.2 r ∧ ¬ ready st'.2 t ∧ signals st'.1 = signals pt ∧
    ∃ p', pty_table st'.1 !! k = Some p' ∧ holds (y_in p') (mapped (y_tio p) <$> take 4096 data) ∧
      slave_must_wait p' = false ∧ y_blocked_slave_read p' = Some r ∧ y_blocked_master_write p' = Some t).
Proof.
  intros Hp Hi [O Ho] Hok Hkt Hrt Hg Hraw Hb Hl Hne Hbr Hnr. assert (there k pt) as Hk by by eapply lookup_lt_Some.
  rewrite <-(upd_id pt k p Hp) at 1. unfold pty_master_write. cbn [negb orb]. destruct (Z.eqb_spec (Z.of_nat (length data)) 0); [lia|].
  apply wp_bind, pty_wp_pget; [done|]. rewrite Hg. rewrite <-(take_drop 4096 data) at 1.
  assert (length (take 4096 data) = 4096%nat) as Hlt by (rewrite length_take; lia).
  apply (master_write_loop_run k p (Some t) false pt sc (drop 4096 data) _ Hk (take 4096 data) (mk_line [] O [])).
  { exists (y_in p), (y_out p). cbn [l_in l_out l_sig]. rewrite raised_nil, rings_id. done. }
  { by apply Forall_take. } { cbn [l_in length]. lia. }
  intros st' Hs. destruct (raw_run _ (take 4096 data) Hraw (mk_line [] O [])) as [E1 E2]; [cbn [l_in length]; lia|].
  set (s := foldl _ _ _) in *. cbn [l_in l_sig app] in E1, E2. rewrite Hlt, Z.add_0_l.
  destruct (drop 4096 data) as [|c rest] eqn:Ed; [apply (f_equal length) in Ed; rewrite length_drop in Ed; simpl in Ed; lia|].
  eapply wp_mono; [apply (master_write_full k p t pt sc s); [done|done|by rewrite E1, length_fmap|done|done|done|done]|].
  intros res st'' (-> & ri & ro & sc' & Hri & -> & Hnt & Hu). cbn [fst snd]. rewrite E1 in Hri. split_and!; [done|by rewrite Hu|done| |].
  - cbn [signals upd raised]. rewrite E2. unfold sigs. destruct (0 <? _); by rewrite app_nil_r.
  - eexists. split; [by apply list_lookup_insert_eq|]. split; [done|]. split; [|done]. destruct Hraw as [_ Hc]. unfold slave_must_wait.
    cbn [y_in y_tio rings set_in set_out set_blocked_master_write]. rewrite (rep_count _ _ _ Hri), length_fmap, Hlt, Hc. done.
Qed.

End Lines.
(** ** A terminal to run them on *)

Import SchedClient.

Lemma zero_ring_holds : holds zero_ring [].
Proof. split; cbn [r_buf r_read_pos r_write_pos r_count zero_ring]; try done. Qed.

(** Both ends are open and task 3 sleeps in a read of the slave. *)
Definition demo_pair : pty_pair := set_blocked_slave_read (Some 3) (set_slave_open true (set_slave_refs 1 (new_pair 0 (Some 10) (Some 11)))).
Definition demo_ptys p : ptys := mk_ptys [p] true [].
Definition demo_blocked : Sched.sched := exec (Sched.sched_block (Some 3)) SchedSpec.demo.

Lemma demo_blocked_ok : consistent demo_blocked ∧ (∀ u, present SchedSpec.demo u → present demo_blocked u) ∧ ¬ queued demo_blocked 3 ∧
  ∀ u, u ≠ 3 → queued demo_blocked u ↔ queued SchedSpec.demo u.
Proof. unfold demo_blocked. pattern (exec (Sched.sched_block (Some 3)) SchedSpec.demo). apply wp_exec. apply sched_block_law; [apply demo_consistent|apply demo_present; by right|apply demo_queued; by right]. Qed.

Lemma demo_sleepers : sleepers_known demo_blocked demo_pair.
Proof.
  split_and!; intros t Ht; try discriminate Ht. injection Ht as <-. exact (proj1 (proj2 demo_blocked_ok) 3 (demo_present 3 (or_intror eq_refl))).
Qed.

(** "lx", erase, "s", newline. *)
Lemma pty_typed_line_witness :
  wp (w ← pty_master_write (Some 2) 0 true false ([108; 120; 127; 115] ++ [NL]); r ← pty_slave_read (Some 3) 0 true false 64; mret (w, r))
    (demo_ptys demo_pair, demo_blocked) (λ '(w, r) st', w = WDone 5 ∧ r = RDone 3 [108; 115; 10] ∧ signals st'.1 = [] ∧ ready st'.2 3).
Proof.
  eapply wp_mono.
  - apply (pty_typed_line 0 (Some 2) (Some 3) false false (demo_ptys demo_pair) demo_pair demo_blocked [] [108; 120; 127; 115] 64);
      [reflexivity|exact zero_ring_holds|exact zero_ring_holds|exact (proj1 demo_blocked_ok)|exact demo_sleepers|reflexivity|reflexivity| | |];
      [|simpl; lia|simpl; lia].
    repeat constructor; try lia; apply (bool_decide_unpack _); reflexivity.
  - intros [w r] st' (-> & -> & Hs & Hr). split_and!; [reflexivity|reflexivity|exact Hs|exact (Hr 3 eq_refl)].
Defined.

(** "a", newline. *)
Lemma pty_output_witness :
  wp (w ← pty_slave_write (Some 2) 0 true false [97; 10]; r ← pty_master_read (Some 2) 0 true false 2; mret (w, r))
    (demo_ptys demo_pair, demo_blocked) (λ '(w, r) st', w = WDone 2 ∧ r = RDone 2 [97; 13] ∧
      ∃ p', pty_table st'.1 !! 0%nat = Some p' ∧ holds (y_in p') [] ∧ holds (y_out p') [10]).
Proof.
  eapply wp_mono.
  - apply (pty_output 0 (Some 2) (Some 2) false false (demo_ptys demo_pair) demo_pair demo_blocked [] [] [97; 10] 2);
      [reflexivity|exact zero_ring_holds|exact zero_ring_holds|exact (proj1 demo_blocked_ok)|exact demo_sleepers|reflexivity| |discriminate| |lia].
    + repeat constructor; lia.
    + apply (bool_decide_unpack _). vm_compute. exact Logic.I.
  - intros [w r] st' (-> & -> & Hp & _). split_and!; [reflexivity|reflexivity|exact Hp].
Defined.

(** The same terminal in raw mode, and 4097 bytes. *)
Definition raw_pair : pty_pair := set_tio (mk_tio 0 0 0x00BF 0 0 default_cc 0 0) demo_pair.

Lemma pty_lost_wakeup_witness :
  wp (pty_master_write (Some 2) 0 true false (replicate 4097 65)) (demo_ptys raw_pair, demo_blocked) (λ res st',
    res = WBlocked [65] 4096 ∧ ¬ ready st'.2 3 ∧ ¬ ready st'.2 2 ∧ ∃ p', pty_table st'.1 !! 0%nat = Some p' ∧
      slave_must_wait p' = false ∧ y_blocked_slave_read p' = Some 3 ∧ y_blocked_master_write p' = Some 2).
Proof.
  eapply wp_mono.
  - apply (pty_lost_wakeup 0 2 3 (demo_ptys raw_pair) raw_pair demo_blocked (replicate 4097 65));
      [reflexivity|exact zero_ring_holds|exists []; exact zero_ring_holds|exact (proj1 demo_blocked_ok)| | |reflexivity|split; reflexivity| | |lia|reflexivity| ].
    + exact (proj1 (proj2 demo_blocked_ok) 2 (demo_present 2 (or_introl eq_refl))).
    + exact (proj2 (proj2 (proj2 (proj2 demo_blocked_ok)) 2 ltac:(lia)) (demo_queued 2 (or_introl eq_refl))).
    + apply Forall_replicate. unfold byte. lia.
    + rewrite length_replicate. lia.
    + exact (proj1 (proj2 (proj2 demo_blocked_ok))).
  - intros res st' (-> & H3 & H2 & _ & p' & Hp' & _ & Hw & Hr & Ht). split_and!; [|exact H3|exact H2|by exists p'].
    rewrite drop_replicate. reflexivity.
Defined.

End PtyTheorems.
