(* ===== verification/PtyInv.v ===== *)
(** * An invariant of pseudo-terminals

    Whatever is called on the terminals without raising a signal, in any order
    and from any task, both rings of every pair hold a queue of bytes, every
    task recorded as waiting is known to the scheduler, and no call faults or
    puts another task to sleep.  What a signal does to the tasks of the
    foreground group is not part of the model: [kill] records the call. *)
From S2P Require Import Prelude Sched SchedSpec Ring Blocking Pty PtySpec PtyTheorems.

Module PtyInv.
Import Ring Pty PtySpec PtyTheorems SchedSpec SchedClient.

Implicit Types (p : pty_pair) (pt : ptys) (b c : Z).

(** Both rings hold a queue. *)
Definition rings_ok p : Prop := (∃ q, holds (y_in p) q) ∧ ∃ q, holds (y_out p) q.

(** Every call on a terminal, and the second half of the ones that slept. *)
Inductive call :=
  | MasterRead (k : nat) (nb : bool) (size : Z)
  | MasterReadResume (k : nat) (nb : bool) (size : Z)
  | MasterWrite (k : nat) (nb : bool) (data : list Z)
  | MasterWriteResume (k : nat) (nb : bool) (rest : list Z) (written : Z)
  | MasterClose (k : nat)
  | MasterIoctl (k : nat) (req : Z) (arg : option user_arg)
  | SlaveRead (k : nat) (nb : bool) (size : Z)
  | SlaveReadResume (k : nat) (nb : bool) (size : Z)
  | SlaveWrite (k : nat) (nb : bool) (data : list Z)
  | SlaveWriteResume (k : nat) (nb : bool) (rest : list Z) (written : Z)
  | SlaveOpen (k : nat)
  | SlaveClose (k : nat)
  | SlaveIoctl (k : nat) (proc : option process) (req : Z) (arg : option user_arg)
  | CreateMaster (m_node s_node : option Z)
  | GetSlave (n : Z)
  | Poll (k : nat) (master : bool).

(** The pair is one of the table, and a buffer is made of bytes. *)
Definition call_ok (c : call) : Prop :=
  match c with
  | MasterRead k _ _ | MasterReadResume k _ _ | MasterClose k | MasterIoctl k _ _ | SlaveRead k _ _ | SlaveReadResume k _ _
  | SlaveOpen k | SlaveClose k | SlaveIoctl k _ _ _ | Poll k _ => (k < PTY_MAX_PAIRS)%nat
  | MasterWrite k _ data | SlaveWrite k _ data | MasterWriteResume k _ data _ | SlaveWriteResume k _ data _ =>
      (k < PTY_MAX_PAIRS)%nat ∧ Forall byte data
  | CreateMaster _ _ | GetSlave _ => True
  end.

Section Calls.
  Context {SC : Type} `{SchedLaws SC}.
  Variable t : Z.
  Implicit Types (sc : SC) (st : state (SC := SC)).

Definition run (c : call) : M state unit :=
  match c with
  | MasterRead k nb size => _ ← pty_master_read (Some t) k true nb size; mret tt
  | MasterReadResume k nb size => _ ← master_read_resume (Some t) k nb size; mret tt
  | MasterWrite k nb data => _ ← pty_master_write (Some t) k true nb data; mret tt
  | MasterWriteResume k nb rest written => _ ← master_write_resume (Some t) k nb rest written; mret tt
  | MasterClose k => pty_master_close k
  | MasterIoctl k req arg => _ ← pty_master_ioctl k req arg; mret tt
  | SlaveRead k nb size => _ ← pty_slave_read (Some t) k true nb size; mret tt
  | SlaveReadResume k nb size => _ ← slave_read_resume (Some t) k nb size; mret tt
  | SlaveWrite k nb data => _ ← pty_slave_write (Some t) k true nb data; mret tt
  | SlaveWriteResume k nb rest written => _ ← slave_write_resume (Some t) k nb rest written; mret tt
  | SlaveOpen k => pty_slave_open k
  | SlaveClose k => pty_slave_close k
  | SlaveIoctl k proc req arg => _ ← pty_slave_ioctl k proc req arg; mret tt
  | CreateMaster m s => _ ← pty_create_master_node m s; mret tt
  | GetSlave n => _ ← pty_get_slave_node n; mret tt
  | Poll k master => _ ← pty_poll_state k master; mret tt
  end.

Definition ptys_ok st : Prop := sched_ok st.2 ∧ length (pty_table st.1) = PTY_MAX_PAIRS ∧
  Forall (λ p, rings_ok p ∧ sleepers_known st.2 p) (pty_table st.1).

(** ** Computations that keep the invariant and put nobody to sleep *)

Definition keeps {A} (m : M state A) : Prop := ∀ st, ptys_ok st → wp m st (λ _ st', ptys_ok st' ∧ goes_on st.2 st'.2).

(** The same, but the running task may go to sleep. *)
Definition ends {A} (m : M state A) : Prop := ∀ st, ptys_ok st → known st.2 t → ready st.2 t → wp m st (λ _ st', ptys_ok st' ∧
  (∀ u, known st.2 u → known st'.2 u) ∧ ∀ u, u ≠ t → ready st.2 u → ready st'.2 u).

Lemma keeps_ends {A} (m : M state A) : keeps m → ends m.
Proof. intros Hm st Hst _ _. eapply wp_mono; [by apply Hm|]. intros a st' (Hst' & _ & Hk & Hr). split_and!; auto. Qed.

Lemma keeps_ret {A} (a : A) : keeps (mret a).
Proof. intros st Hst. apply wp_ret. split; [done|]. apply goes_on_refl, Hst. Qed.

Lemma keeps_bind {A B} (m : M state A) (f : A → M state B) : keeps m → (∀ a, keeps (f a)) → keeps (m ≫= f).
Proof.
  intros Hm Hf st Hst. apply wp_bind. eapply wp_mono; [by apply Hm|]. intros a st1 [Hst1 G1]. eapply wp_mono; [by apply Hf|].
  intros b st2 [Hst2 G2]. split; [done|]. by eapply goes_on_trans.
Qed.

Lemma ends_bind {A B} (m : M state A) (f : A → M state B) : keeps m → (∀ a, ends (f a)) → ends (m ≫= f).
Proof.
  intros Hm Hf st Hst Hk Hr. apply wp_bind. eapply wp_mono; [by apply Hm|]. intros a st1 (Hst1 & _ & Gk & Gr).
  eapply wp_mono; [apply Hf; auto|]. intros b st2 (Hst2 & Hk2 & Hr2). split_and!; auto.
Qed.

Lemma ends_ret {A} (m : M state A) : ends m → ends (_ ← m; mret tt).
Proof. intros Hm st Hst Hk Hr. apply wp_bind. eapply wp_mono; [by apply Hm|]. intros a st' Hst'. by apply wp_ret. Qed.

Lemma keeps_gets {A B} (f : state → A) (g : A → M state B) : (∀ a, keeps (g a)) → keeps (gets f ≫= g).
Proof. intros Hg. apply keeps_bind; [|done]. intros st Hst. apply wp_gets. split; [done|]. apply goes_on_refl, Hst. Qed.

Lemma ok_lookup k st : ptys_ok st → (k < PTY_MAX_PAIRS)%nat → ∃ p, pty_table st.1 !! k = Some p ∧ rings_ok p ∧ sleepers_known st.2 p.
Proof.
  intros (_ & Hl & Hf) Hk. destruct (lookup_lt_is_Some_2 (pty_table st.1) k) as [p Hp]; [lia|]. exists p. split; [done|]. by eapply Forall_lookup in Hf.
Qed.

(** Reading a field: what is read comes from a pair with sound rings. *)
Lemma wp_get_ok {A} k (f : pty_pair → A) st (Q : A → state → Prop) : ptys_ok st → (k < PTY_MAX_PAIRS)%nat →
  (∀ p, pty_table st.1 !! k = Some p → rings_ok p → sleepers_known st.2 p → Q (f p) st) → wp (pget k f) st Q.
Proof. intros Hst Hk HQ. destruct (ok_lookup k st Hst Hk) as (p & Hp & Hr & Hs). eapply wp_deref; [by rewrite Hp|]. by apply HQ. Qed.

Lemma keeps_get {A B} k (f : pty_pair → A) (g : A → M state B) : (k < PTY_MAX_PAIRS)%nat → (∀ p, rings_ok p → keeps (g (f p))) → keeps (pget k f ≫= g).
Proof. intros Hk Hg st Hst. apply wp_bind. eapply wp_get_ok; [done|done|]. intros p _ Hr _. by apply Hg. Qed.

Lemma ends_get {A B} k (f : pty_pair → A) (g : A → M state B) : (k < PTY_MAX_PAIRS)%nat → (∀ p, rings_ok p → ends (g (f p))) → ends (pget k f ≫= g).
Proof. intros Hk Hg st Hst Hn Hr. apply wp_bind. eapply wp_get_ok; [done|done|]. intros p _ Hp _. by apply Hg. Qed.

Lemma wp_set_ok k (f : pty_pair → pty_pair) st (Q : unit → state → Prop) : ptys_ok st → (k < PTY_MAX_PAIRS)%nat →
  (∀ p, rings_ok p → sleepers_known st.2 p → rings_ok (f p) ∧ sleepers_known st.2 (f p)) →
  (∀ st', ptys_ok st' → st'.2 = st.2 → Q tt st') → wp (pset k f) st Q.
Proof.
  intros Hst Hk Hf HQ. apply wp_bind. eapply wp_get_ok; [done|done|]. intros p Hp _ _. apply wp_modify. apply HQ; [|done].
  destruct Hst as (Hok & Hl & Ha). split_and!; [done|cbn; by rewrite length_alter|]. cbn [fst snd pty_table]. apply Forall_alter; [done|].
  intros q Hq [Hr Hs]. by apply Hf.
Qed.

(** A field that neither the rings nor the sleepers depend on; a sleeper
    forgotten. *)
Definition harmless (f : pty_pair → pty_pair) : Prop := ∀ p, (rings_ok p → rings_ok (f p)) ∧
  (y_blocked_master_read (f p) = None ∨ y_blocked_master_read (f p) = y_blocked_master_read p) ∧
  (y_blocked_master_write (f p) = None ∨ y_blocked_master_write (f p) = y_blocked_master_write p) ∧
  (y_blocked_slave_read (f p) = None ∨ y_blocked_slave_read (f p) = y_blocked_slave_read p) ∧
  (y_blocked_slave_write (f p) = None ∨ y_blocked_slave_write (f p) = y_blocked_slave_write p).

Lemma harmless_known f sc p : harmless f → sleepers_known sc p → sleepers_known sc (f p).
Proof.
  intros Hf (K1 & K2 & K3 & K4). destruct (Hf p) as (_ & H1 & H2 & H3 & H4). unfold known_opt in *.
  split_and!; intros u Hu; [destruct H1; [|apply K1]|destruct H2; [|apply K2]|destruct H3; [|apply K3]|destruct H4; [|apply K4]]; congruence.
Qed.

Lemma keeps_set k f : (k < PTY_MAX_PAIRS)%nat → harmless f → keeps (pset k f).
Proof.
  intros Hk Hf st Hst. eapply wp_set_ok; [done|done| |].
  - intros p Hr Hs. split; [by apply (Hf p)|by apply harmless_known].
  - intros st' Hst' E. split; [done|]. rewrite E. apply goes_on_refl, Hst.
Qed.

Lemma keeps_kill k sig : (k < PTY_MAX_PAIRS)%nat → keeps (kill_foreground k sig).
Proof.
  intros Hk. apply keeps_get; [done|]. intros p _. destruct (0 <? _); [|apply keeps_ret]. intros st Hst. apply wp_modify.
  split; [done|]. apply goes_on_refl, Hst.
Qed.

Lemma keeps_wake_all : keeps (lift_r wake_all).
Proof.
  intros [pt sc] Hst. apply wp_lift_r. destruct Hst as (Hok & Hl & Ha). eapply wp_mono; [by apply wake_all_law|]. intros [] sc' (Hok' & Hk & Hr).
  split; [|done]. split_and!; [done|done|]. eapply Forall_impl; [exact Ha|]. intros p (Hp & K1 & K2 & K3 & K4). split; [done|].
  split_and!; intros u Hu; eauto.
Qed.

Lemma keeps_unblock u sc pt (Q : unit → state → Prop) : ptys_ok (pt, sc) → known sc u → (∀ sc', ptys_ok (pt, sc') → goes_on sc sc' → Q tt (pt, sc')) →
  wp (lift_r (unblock u)) (pt, sc) Q.
Proof.
  intros (Hok & Hl & Ha) Hu HQ. apply wp_lift_r. eapply wp_mono; [by apply unblock_law|]. intros [] sc' (Hok' & Hk & _ & Hr).
  apply HQ; [|done]. split_and!; [done|done|]. eapply Forall_impl; [exact Ha|]. intros p (Hp & K1 & K2 & K3 & K4). split; [done|].
  split_and!; intros w Hw; eauto.
Qed.

Lemma keeps_wake k f clear : (k < PTY_MAX_PAIRS)%nat → (∀ sc p, sleepers_known sc p → known_opt sc (f p)) → harmless clear → keeps (wake k f clear).
Proof.
  intros Hk Hf Hc [pt sc] Hst. apply wp_bind. eapply wp_get_ok; [done|done|]. intros p _ _ Hs. destruct (f p) as [u|] eqn:E; [|by apply keeps_ret].
  apply wp_bind. eapply keeps_unblock; [done|by apply (Hf sc p Hs)|]. intros sc' Hst' G. eapply wp_mono; [by apply keeps_set|].
  intros [] st' [Hst'' G']. split; [done|]. by eapply goes_on_trans.
Qed.

(** Going to sleep on the pair. *)
Lemma ends_block {A} k (note : pty_pair → pty_pair) (a : A) : (k < PTY_MAX_PAIRS)%nat →
  (∀ p, rings_ok p → rings_ok (note p)) → (∀ sc p, known sc t → sleepers_known sc p → sleepers_known sc (note p)) →
  ends (pset k note;; lift_r (block t);; mret a).
Proof.
  intros Hk Hn Hs st Hst Ht Hr. apply wp_bind. eapply wp_set_ok; [done|done|auto|]. intros [pt sc] (Hok & Hl & Ha) E. cbn in E, Hok, Hl, Ha. subst sc.
  apply wp_bind, wp_lift_r. eapply wp_mono; [by apply block_law|]. intros [] sc' (Hok' & Hk' & _ & Hr'). apply wp_ret. cbn [fst snd].
  split_and!; [|done|by intros u Hu; apply Hr']. split_and!; [done|done|]. eapply Forall_impl; [exact Ha|]. intros p (Hp & K1 & K2 & K3 & K4).
  split; [done|]. split_and!; intros u Hu; eauto.
Qed.

(** Work on one ring. *)
Definition keeps_ring {A} (m : M ring A) : Prop := ∀ r q, holds r q → wp m r (λ _ r', ∃ q', holds r' q').

Lemma keeps_on k sel upd {A} (m : M ring A) : (k < PTY_MAX_PAIRS)%nat → keeps_ring m → (∀ p, rings_ok p → ∃ q, holds (sel p) q) →
  (∀ r q, holds r q → harmless (upd r)) → keeps (on k sel upd m).
Proof.
  intros Hk Hm Hsel Hupd. apply keeps_get; [done|]. intros p Hp. destruct (Hsel p Hp) as [q Hq].
  specialize (Hm _ _ Hq). unfold wp in Hm at 1. destruct (m (sel p)) as [[a r']| | |]; try done. destruct Hm as [q' Hq'].
  apply keeps_bind; [|intros _; apply keeps_ret]. apply keeps_set; [done|]. by eapply Hupd.
Qed.

Lemma harmless_in r q : holds r q → harmless (set_in r).
Proof. intros Hr p. split_and!; [|by right..]. intros [_ Ho]. split; [by exists q|done]. Qed.

Lemma harmless_out r q : holds r q → harmless (set_out r).
Proof. intros Hr p. split_and!; [|by right..]. intros [Hi _]. split; [done|by exists q]. Qed.

Lemma keeps_put b : byte b → keeps_ring (pty_buf_put b).
Proof. intros Hb r q Hr. eapply wp_mono; [by apply pty_buf_put_spec|]. intros [] r' Hr'. by eexists. Qed.

Lemma keeps_get_byte r q : holds r q → wp pty_buf_get r (λ _ r', ∃ q', holds r' q').
Proof.
  intros Hr. destruct q as [|b q]; [|eapply wp_mono; [by apply pty_buf_get_spec|]; intros ? ? [_ ?]; by eexists].
  apply wp_bind, wp_gets. rewrite (rep_count _ _ _ Hr). apply wp_ret. by eexists.
Qed.

Lemma keeps_drain n : keeps_ring (pty_buf_drain n).
Proof.
  induction n as [|n IH]; intros r q Hr; [apply wp_ret; by eexists|]. apply wp_bind. eapply wp_mono; [by eapply keeps_get_byte|].
  intros b r1 [q1 Hr1]. apply wp_bind. eapply wp_mono; [by eapply IH|]. intros l r2 Hr2. by apply wp_ret.
Qed.

Lemma keeps_line n : keeps_ring (read_line n).
Proof. intros r q Hr. eapply wp_mono; [by apply read_line_spec|]. intros l r' [_ Hr']. by eexists. Qed.

(** ** The operations *)

Variable k : nat.
Hypothesis Hk : (k < PTY_MAX_PAIRS)%nat.

Ltac harm := intros ?; split_and!; [tauto| by (left + right)..].

Lemma keeps_put_out b : byte b → keeps (put_out k b).
Proof. intros Hb. apply keeps_on; [done|by apply keeps_put|by intros p []|apply harmless_out]. Qed.

Lemma keeps_on_in {A} (m : M ring A) : keeps_ring m → keeps (on_in k m).
Proof. intros Hm. apply keeps_on; [done|done|by intros p []|apply harmless_in]. Qed.

Lemma keeps_on_out {A} (m : M ring A) : keeps_ring m → keeps (on_out k m).
Proof. intros Hm. apply keeps_on; [done|done|by intros p []|apply harmless_out]. Qed.

Lemma keeps_flag f m {B} (g : bool → M state B) : (∀ v, keeps (g v)) → keeps (flag k f m ≫= g).
Proof. intros Hg. apply keeps_get; [done|]. intros p _. apply Hg. Qed.

Lemma keeps_wakes : keeps (wake_master_read k) ∧ keeps (wake_master_write k) ∧ keeps (wake_slave_read k) ∧ keeps (wake_slave_write k).
Proof. split_and!; (apply keeps_wake; [done|by intros sc p (?&?&?&?)|harm]). Qed.

Ltac small := unfold byte, NL, CR, BS in *; lia.

(** One step along the code. *)
Ltac keep_step := match goal with
  | |- keeps (mret _) => apply keeps_ret
  | |- keeps (pget _ _ ≫= _) => apply keeps_get; [done|intros ? ?]
  | |- keeps (flag _ _ _ ≫= _) => apply keeps_flag; intros ?
  | |- keeps (gets _ ≫= _) => apply keeps_gets; intros ?
  | |- keeps (kill_foreground _ _) => by apply keeps_kill
  | |- keeps (put_out _ _) => apply keeps_put_out; small
  | |- keeps (lift_r wake_all) => apply keeps_wake_all
  | |- keeps (wake_master_read _) => apply keeps_wakes
  | |- keeps (wake_master_write _) => apply keeps_wakes
  | |- keeps (wake_slave_read _) => apply keeps_wakes
  | |- keeps (wake_slave_write _) => apply keeps_wakes
  | |- keeps (pset _ _) => apply keeps_set; [done|harm]
  | |- keeps (_ ≫= _) => apply keeps_bind; [|intros ?]
  | |- keeps (if ?x then _ else _) => destruct x
  | |- keeps (match ?x with _ => _ end) => destruct x
  | |- ends (pset _ _ ≫= λ _, (lift_r (block _) ≫= _)) => apply ends_block; [done|by intros ? []|intros ? ? ? (? & ? & ? & ?); split_and!; try done; by intros ? [= <-]]
  | |- ends (pget _ _ ≫= _) => apply ends_get; [done|intros ? ?]
  | |- ends (_ ≫= _) => apply ends_bind; [|intros ?]
  | |- ends (if ?x then _ else _) => destruct x
  | |- ends (mret _) => apply keeps_ends, keeps_ret
  end.
Ltac keep := cbv zeta; repeat keep_step.

Lemma keeps_erase : keeps (erase k).
Proof.
  unfold erase. apply keeps_get; [done|]. intros p [[q Hq] _]. destruct (Z.ltb_spec 0 (r_count (y_in p))) as [Hc|]; [|keep].
  rewrite (rep_count _ _ _ Hq) in Hc. destruct q as [|b q _] using rev_ind; [simpl in Hc; lia|]. destruct (ring_unput _ _ _ Hq) as [Hb Hu].
  cbv zeta in Hb, Hu |- *. intros st Hst. apply wp_bind. apply wp_deref with b; [done|]. destruct (negb _); [|by apply keeps_ret].
  revert st Hst. change (keeps (pset k (set_in (mk_ring (r_buf (y_in p)) (r_read_pos (y_in p)) (u32 (u32 (r_write_pos (y_in p) - 1) + PTY_BUF_SIZE) mod PTY_BUF_SIZE) (u32 (r_count (y_in p) - 1))));;
    (e ← flag k c_lflag ECHO; ee ← flag k c_lflag ECHOE; if (e : bool) && ee then put_out k BS;; put_out k 32;; put_out k BS else mret tt))).
  apply keeps_bind; [|intros _; keep]. apply keeps_set; [done|]. by eapply harmless_in.
Qed.

Lemma keeps_input_char c : byte c → keeps (input_char k c).
Proof.
  intros Hc. unfold input_char. apply keeps_bind; [unfold signal_char; keep|]. intros [|]; [keep|]. apply keeps_flag. intros v.
  assert (byte (if v && (c =? CR) then NL else c)) as Hc' by (destruct (_ && _); small). set (c' := if v && _ then _ else _) in *. clearbody c'.
  apply keeps_flag. intros w. destruct (_ && _); [apply keeps_erase|]. apply keeps_bind; [unfold echo; keep|]. intros _. apply keeps_on_in. by apply keeps_put.
Qed.

Lemma keeps_output_char c : byte c → keeps (output_char k c).
Proof. intros Hc. unfold output_char. keep. Qed.

Lemma ends_master_write nb rest : Forall byte rest → ∀ written, ends (master_write_loop (Some t) k nb rest written).
Proof.
  induction 1 as [|c rest Hc _ IH]; intros written; cbn [master_write_loop]; keep; [by apply keeps_input_char|apply IH].
Qed.

Lemma ends_slave_write nb rest : Forall byte rest → ∀ written, ends (slave_write_loop (Some t) k nb rest written).
Proof.
  induction 1 as [|c rest Hc _ IH]; intros written; cbn [slave_write_loop]; keep; [by apply keeps_output_char|apply IH].
Qed.

Lemma ends_master_read nb size : ends (master_read_loop (Some t) k nb size).
Proof. unfold master_read_loop. keep. apply keeps_on_out, keeps_drain. Qed.

Lemma keeps_read_finish size : keeps (slave_read_finish k size).
Proof. unfold slave_read_finish, slave_copy. keep; apply keeps_on_in; [apply keeps_line|apply keeps_drain]. Qed.

Lemma ends_slave_read nb size : ends (slave_read_loop (Some t) k nb size).
Proof. unfold slave_read_loop. keep; apply keeps_ends, keeps_read_finish. Qed.

(** A pair made anew: empty rings, nobody waiting. *)
Lemma harmless_fresh p : y_in p = zero_ring → y_out p = zero_ring → y_blocked_master_read p = None → y_blocked_master_write p = None →
  y_blocked_slave_read p = None → y_blocked_slave_write p = None → harmless (λ _, p).
Proof. intros Ei Eo ? ? ? ? q. split_and!; [|by left..]. intros _. split; exists []; rewrite ?Ei, ?Eo; apply zero_ring_holds. Qed.

Lemma keeps_free : keeps (pty_free_pair k).
Proof. apply keeps_set; [done|]. by apply harmless_fresh. Qed.

Lemma keeps_close : keeps (pty_master_close k) ∧ keeps (pty_slave_close k).
Proof. split; [unfold pty_master_close|unfold pty_slave_close]; keep; apply keeps_free. Qed.

Lemma keeps_master_ioctl req arg : keeps (pty_master_ioctl k req arg).
Proof. unfold pty_master_ioctl, with_arg, set_window. keep. Qed.

Lemma keeps_slave_ioctl proc req arg : keeps (pty_slave_ioctl k proc req arg).
Proof. unfold pty_slave_ioctl, with_arg, set_window. keep. Qed.

(** The calls as they are entered, and as they go on after a sleep. *)
Lemma ends_calls nb size data written : Forall byte data →
  ends (pty_master_read (Some t) k true nb size) ∧ ends (master_read_resume (Some t) k nb size) ∧
  ends (pty_slave_read (Some t) k true nb size) ∧ ends (slave_read_resume (Some t) k nb size) ∧
  ends (pty_master_write (Some t) k true nb data) ∧ ends (master_write_resume (Some t) k nb data written) ∧
  ends (pty_slave_write (Some t) k true nb data) ∧ ends (slave_write_resume (Some t) k nb data written).
Proof.
  intros Hd. unfold pty_master_read, master_read_resume, pty_slave_read, slave_read_resume, pty_master_write, master_write_resume, pty_slave_write, slave_write_resume.
  split_and!; keep; auto using ends_master_read, ends_slave_read, ends_master_write, ends_slave_write.
Qed.

Lemma keeps_queries n master : keeps (pty_slave_open k) ∧ keeps (pty_get_slave_node n) ∧ keeps (pty_poll_state k master).
Proof.
  unfold pty_slave_open, pty_get_slave_node, pty_poll_state. split_and!; [keep| |keep].
  destruct ((n <? 0) || (Z.of_nat PTY_MAX_PAIRS <=? n)) eqn:E; [keep|]. apply orb_false_iff in E as [?%Z.ltb_ge ?%Z.leb_gt].
  apply keeps_get; [lia|]. intros. keep.
Qed.

End Calls.

(** ** Calls that raise no signal

    [sys_kill_handler] stops, continues and terminates tasks and closes their
    files; [kill] only records that it was called.  These are the calls that
    do not reach it. *)

(** A character that is typed, not turned into a signal. *)
Definition mute (tg : termios * Z) (c : Z) : Prop :=
  has (c_lflag tg.1) ISIG = false ∨ tg.2 ≤ 0 ∨ (c ≠ 3 ∧ c ≠ 0x1C ∧ c ≠ 0x1A).

Section Quiet.
  Context {SC : Type} `{SchedLaws SC}.
  Implicit Types (st : state (SC := SC)).

(** The settings of a pair that decide on signals. *)
Definition ctl (k : nat) st : option (termios * Z) := (λ p, (y_tio p, y_foreground_pgid p)) <$> pty_table st.1 !! k.

Definition no_signal st (c : call) : Prop :=
  match c with
  | MasterWrite k _ data | MasterWriteResume k _ data _ => ∀ tg, ctl k st = Some tg → Forall (mute tg) data
  | MasterIoctl k req _ | SlaveIoctl k _ req _ => u32 req = TIOCSWINSZ → ∀ tg, ctl k st = Some tg → tg.2 ≤ 0
  | _ => True
  end.

(** Along a computation that returns: no signal, and the settings stay
    when [k] is given. *)
Definition hush (k : option nat) st st' : Prop := signals st'.1 = signals st.1 ∧ ∀ j, k = Some j → ctl j st' = ctl j st.
Definition calm (k : option nat) {A} (m : M state A) : Prop := ∀ st a st', m st = Ret (a, st') → hush k st st'.

Lemma hush_trans k st1 st2 st3 : hush k st1 st2 → hush k st2 st3 → hush k st1 st3.
Proof. intros [E1 C1] [E2 C2]. split; [congruence|]. intros j Hj. by rewrite C2, C1. Qed.

Lemma calm_ret k {A} (a : A) : calm k (mret a).
Proof. by intros st ? ? [= <- <-]. Qed.

Lemma calm_bind k {A B} (m : M state A) (f : A → M state B) : calm k m → (∀ a, calm k (f a)) → calm k (m ≫= f).
Proof.
  intros Hm Hf st b st' E. unfold mbind, M_bind in E. destruct (m st) as [[a st1]| | |] eqn:Em; try done. eapply hush_trans; [by eapply Hm|by eapply Hf].
Qed.

Lemma calm_deref k {A} (f : state → option A) : calm k (deref f).
Proof. intros st a st'. unfold deref. destruct (f st); [|done]. by intros [= _ <-]. Qed.

Lemma calm_gets k {A} (f : state → A) : calm k (gets f).
Proof. by intros st a st' [= _ <-]. Qed.

Lemma calm_stuck k {A} : calm k (λ _ : state, @Wait (A * state)) ∧ calm k (@fault state A) ∧ calm k (@panic state A).
Proof. by split_and!. Qed.

Lemma calm_sched k {A} (m : M SC A) : calm k (lift_r m).
Proof. intros [pt sc] a st'. unfold lift_r. destruct (m sc) as [[a' sc']| | |]; [|done..]. by intros [= _ <-]. Qed.

Lemma calm_set k j f : (k = None ∨ ∀ p, y_tio (f p) = y_tio p ∧ y_foreground_pgid (f p) = y_foreground_pgid p) → calm k (pset j f).
Proof.
  intros Hf. apply calm_bind; [apply calm_deref|]. intros _ st a st' [= _ <-]. split; [done|]. intros i ->. destruct Hf as [?|Hf]; [done|].
  unfold ctl. cbn [fst pty_table]. destruct (decide (i = j)) as [->|]; [|by rewrite list_lookup_alter_ne].
  rewrite list_lookup_alter_eq. destruct (pty_table st.1 !! j) as [p|]; [|done]. simpl. destruct (Hf p) as [-> ->]. done.
Qed.

Lemma calm_on k j sel upd {A} (m : M ring A) : (∀ r p, y_tio (upd r p) = y_tio p ∧ y_foreground_pgid (upd r p) = y_foreground_pgid p) → calm k (on j sel upd m).
Proof.
  intros Hu. apply calm_bind; [apply calm_deref|]. intros r. destruct (m r) as [[a r']| | |]; [|by apply calm_stuck..].
  apply calm_bind; [|intros _; apply calm_ret]. apply calm_set. by right.
Qed.

Ltac calm_step := match goal with
  | |- calm _ (mret _) => apply calm_ret
  | |- calm _ (_ ≫= _) => apply calm_bind; [|intros ?]
  | |- calm _ (pget _ _) => apply calm_deref
  | |- calm _ (deref _) => apply calm_deref
  | |- calm _ (flag _ _ _) => apply calm_deref
  | |- calm _ (gets _) => apply calm_gets
  | |- calm _ (lift_r _) => apply calm_sched
  | |- calm _ (on_in _ _) => by apply calm_on
  | |- calm _ (on_out _ _) => by apply calm_on
  | |- calm _ (put_out _ _) => by apply calm_on
  | |- calm _ (pset _ _) => apply calm_set; first [by left | right; by intros ?]
  | |- calm _ (λ _, Wait) => apply calm_stuck
  | |- calm _ (if ?x then _ else _) => destruct x
  | |- calm _ (match ?x with _ => _ end) => destruct x
  end.
Ltac calm := cbv zeta; repeat calm_step.

Lemma calm_wakes k j : calm k (wake_master_read j) ∧ calm k (wake_master_write j) ∧ calm k (wake_slave_read j) ∧ calm k (wake_slave_write j).
Proof. unfold wake_master_read, wake_master_write, wake_slave_read, wake_slave_write, wake. split_and!; calm. Qed.

Lemma calm_slave_write (cur : option Z) k nb rest : ∀ written, calm None (slave_write_loop cur k nb rest written).
Proof.
  induction rest as [|c rest IH]; intros written; cbn [slave_write_loop]; unfold output_char; calm; try apply calm_wakes; apply IH.
Qed.

Lemma calm_reads (cur : option Z) k nb size : calm None (master_read_loop cur k nb size) ∧ calm None (slave_read_loop cur k nb size).
Proof. unfold master_read_loop, slave_read_loop, slave_read_finish, slave_copy. split; calm; apply calm_wakes. Qed.

Lemma pget_bind {A B} k (f : pty_pair → A) (g : A → M state B) st :
  (pget k f ≫= g) st = match pty_table st.1 !! k with Some p => g (f p) st | None => Fault end.
Proof. unfold pget, mbind, M_bind, deref. by destruct (pty_table st.1 !! k). Qed.

Lemma flag_bind {B} k f m (g : bool → M state B) st :
  (flag k f m ≫= g) st = match pty_table st.1 !! k with Some p => g (has (f (y_tio p)) m) st | None => Fault end.
Proof. apply pget_bind. Qed.

(** Without a foreground group nobody is signalled. *)
Lemma hush_kill_group k j sig st a st' : (∀ tg, ctl j st = Some tg → tg.2 ≤ 0) → kill_foreground j sig st = Ret (a, st') → hush k st st'.
Proof.
  intros Hg. unfold kill_foreground. rewrite pget_bind. unfold ctl in Hg. destruct (pty_table st.1 !! j) as [p|]; [|done].
  specialize (Hg _ eq_refl). cbn [snd] in Hg. destruct (Z.ltb_spec 0 (y_foreground_pgid p)); [lia|]. apply calm_ret.
Qed.

(** A mute character does not get past the first tests. *)
Lemma hush_signal_char k c st a st' : (∀ tg, ctl k st = Some tg → mute tg c) → signal_char k c st = Ret (a, st') → hush (Some k) st st'.
Proof.
  intros Hm. unfold signal_char. rewrite flag_bind. unfold ctl in Hm. destruct (pty_table st.1 !! k) as [p|] eqn:Ep; [|done].
  specialize (Hm _ eq_refl). unfold mute in Hm. cbn [fst snd] in Hm.
  destruct (has (c_lflag (y_tio p)) ISIG) eqn:Ei; cbn [negb]; [|apply calm_ret]. destruct Hm as [?|[Hg|(H3 & H4 & H5)]]; [done| |].
  - assert (∀ sig a1 st1, kill_foreground k sig st = Ret (a1, st1) → hush (Some k) st st1) as Hk.
    { intros sig a1 st1. apply hush_kill_group. unfold ctl. rewrite Ep. by intros tg [= <-]. }
    assert (∀ sig (g : unit → M state bool), (∀ u, calm (Some k) (g u)) → (kill_foreground k sig ≫= g) st = Ret (a, st') → hush (Some k) st st') as Hkk.
    { intros sig g Hgc E. unfold mbind, M_bind in E. destruct (kill_foreground k sig st) as [[u st1]| | |] eqn:E1; try done.
      eapply hush_trans; [by eapply Hk|by eapply Hgc]. }
    destruct (c =? 3); [apply Hkk; intros; calm|]. destruct (c =? 0x1C); [apply Hkk; intros; calm|]. destruct (c =? 0x1A); [apply Hkk; intros; calm|apply calm_ret].
  - rewrite !(proj2 (Z.eqb_neq c _)) by done. apply calm_ret.
Qed.

Lemma hush_input_char k c st a st' : (∀ tg, ctl k st = Some tg → mute tg c) → input_char k c st = Ret (a, st') → hush (Some k) st st'.
Proof.
  intros Hm E. unfold input_char in E. unfold mbind at 1, M_bind at 1 in E. destruct (signal_char k c st) as [[s st1]| | |] eqn:Es; try done.
  eapply hush_trans; [by eapply hush_signal_char|]. revert E. match goal with |- ?m st1 = _ → _ => cut (calm (Some k) m); [intros Hc; apply Hc|] end.
  unfold erase, echo. calm.
Qed.

Lemma hush_master_write (cur : option Z) k nb rest : ∀ written st a st', (∀ tg, ctl k st = Some tg → Forall (mute tg) rest) →
  master_write_loop cur k nb rest written st = Ret (a, st') → signals st'.1 = signals st.1.
Proof.
  induction rest as [|c rest IH]; intros written st a st' Hm; cbn [master_write_loop].
  { match goal with |- ?m st = _ → _ => assert (calm None m) as Hc by (calm; apply calm_wakes) end. intros E. by eapply Hc. }
  rewrite pget_bind. destruct (pty_table st.1 !! k) as [p|] eqn:Ep; [|done].
  destruct (PTY_BUF_SIZE <=? r_count (y_in p)).
  { match goal with |- ?m st = _ → _ => assert (calm None m) as Hc by calm end. intros E. by eapply Hc. }
  intros E. unfold mbind, M_bind in E. destruct (input_char k c st) as [[u st1]| | |] eqn:Ei; try done.
  destruct (hush_input_char k c st u st1) as [E1 C1]; [|done|].
  { intros tg Htg. specialize (Hm tg Htg). by apply Forall_cons in Hm as [? _]. }
  rewrite <-E1. eapply IH; [|exact E]. intros tg Htg. rewrite C1 in Htg by done. specialize (Hm tg Htg). by apply Forall_cons in Hm as [_ ?].
Qed.

Lemma hush_window k a st (u' : user_arg) st' : (∀ tg, ctl k st = Some tg → tg.2 ≤ 0) → set_window k a st = Ret (u', st') → signals st'.1 = signals st.1.
Proof.
  intros Hg E. unfold set_window in E. unfold mbind at 1, M_bind at 1 in E. destruct (pset k (set_ws (u_ws a)) st) as [[u st1]| | |] eqn:Es; try done.
  destruct (calm_set (Some k) k (set_ws (u_ws a)) (or_intror (λ p, conj eq_refl eq_refl)) _ _ _ Es) as [E1 C1].
  unfold mbind, M_bind in E. destruct (kill_foreground k SIGWINCH st1) as [[w st2]| | |] eqn:Ek; try done. injection E as _ <-.
  destruct (hush_kill_group None k SIGWINCH st1 w st2) as [E2 _]; [by rewrite C1|done|]. congruence.
Qed.

(** A computation that is followed by nothing but a result. *)
Lemma then_ret {A B} (m : M state A) (g : A → M state B) st (b : B) st' : (∀ a, calm None (g a)) → (m ≫= g) st = Ret (b, st') →
  (∀ a st1, m st = Ret (a, st1) → signals st1.1 = signals st.1) → signals st'.1 = signals st.1.
Proof.
  intros Hg E Hm. unfold mbind, M_bind in E. destruct (m st) as [[a st1]| | |] eqn:Em; try done. destruct (Hg a _ _ _ E) as [-> _]. by eapply Hm.
Qed.

Lemma hush_with_arg k arg st res st' : (∀ tg, ctl k st = Some tg → tg.2 ≤ 0) → with_arg arg (set_window k) st = Ret (res, st') → signals st'.1 = signals st.1.
Proof.
  intros Hg E. unfold with_arg in E. destruct arg as [u|]; [|by injection E as _ <-]. eapply then_ret; [|exact E|]; [intros; apply calm_ret|].
  intros a st1. by apply hush_window.
Qed.

Lemma hush_ioctls k proc req arg st : (u32 req = TIOCSWINSZ → ∀ tg, ctl k st = Some tg → tg.2 ≤ 0) →
  (∀ a st', pty_master_ioctl k req arg st = Ret (a, st') → signals st'.1 = signals st.1) ∧
  (∀ a st', pty_slave_ioctl k proc req arg st = Ret (a, st') → signals st'.1 = signals st.1).
Proof.
  intros Hq. unfold pty_master_ioctl, pty_slave_ioctl. destruct (Z.eqb_spec (u32 req) TIOCSWINSZ) as [E|_].
  - specialize (Hq E). rewrite E. cbn -[with_arg set_window mbind]. split; intros a st' Er; [by eapply hush_with_arg|].
    eapply then_ret; [|exact Er|]; [intros; apply calm_ret|]. intros b st1. by apply hush_with_arg.
  - split; intros a st'; (match goal with |- ?m st = _ → _ => cut (calm None m); [intros Hc E; by eapply Hc|] end); unfold with_arg; calm.
Qed.

Lemma hush_run t op st st' : no_signal st op → run t op st = Ret (tt, st') → signals st'.1 = signals st.1.
Proof.
  assert (∀ m : M state unit, calm None m → m st = Ret (tt, st') → signals st'.1 = signals st.1) as Hcalm by (intros m Hc E; by eapply Hc).
  intros Hq. destruct op; cbn [run no_signal] in *; try (apply Hcalm; unfold pty_master_read, master_read_resume, pty_slave_read, slave_read_resume,
    pty_slave_write, slave_write_resume, pty_master_close, pty_slave_close, pty_free_pair, pty_slave_open, pty_create_master_node, pty_subsystem_init,
    pty_get_slave_node, pty_poll_state; calm; try apply calm_reads; try apply calm_slave_write; try apply calm_wakes; by intros ? ? ? [= _ <-]);
    intros E; (eapply then_ret; [|exact E|]; [intros; apply calm_ret|]); clear Hcalm E st'; intros a st' E.
  - unfold pty_master_write in E. destruct (negb true || _); [by injection E as _ <-|]. rewrite pget_bind in E. destruct (pty_table st.1 !! k); [|done].
    destruct (slave_gone p); [by injection E as _ <-|]. by eapply hush_master_write.
  - unfold master_write_resume in E. unfold mbind, M_bind in E. destruct (pset k (set_blocked_master_write None) st) as [[u st1]| | |] eqn:Es; try done.
    destruct (calm_set (Some k) k (set_blocked_master_write None) (or_intror (λ p, conj eq_refl eq_refl)) _ _ _ Es) as [<- C1].
    eapply hush_master_write; [|exact E]. intros tg Htg. apply Hq. by rewrite <-C1.
  - exact (proj1 (hush_ioctls k None req arg st Hq) _ _ E).
  - exact (proj2 (hush_ioctls k proc req arg st Hq) _ _ E).
Qed.

End Quiet.

Lemma fresh_rings : rings_ok zero_pair.
Proof. split; exists []; apply zero_ring_holds. Qed.

Lemma fresh_sleepers `{SchedLaws SC} (sc : SC) : sleepers_known sc zero_pair.
Proof. by split_and!. Qed.

Section Invariant.
  Context {SC : Type} `{SchedLaws SC}.
  Implicit Types (st : state (SC := SC)).

Lemma keeps_init : keeps pty_subsystem_init.
Proof.
  apply keeps_gets. intros []; [apply keeps_ret|]. intros st Hst. apply wp_modify. split; [|apply goes_on_refl, Hst].
  split_and!; [apply Hst|done|]. cbn [fst snd pty_table]. apply Forall_replicate. split; [apply fresh_rings|apply fresh_sleepers].
Qed.

Lemma free_slot_bound l : ∀ i j, free_slot i l = Some j → (j < i + length l)%nat.
Proof.
  induction l as [|p l IH]; intros i j; cbn [free_slot length]; [done|]. destruct (negb _); [intros [= <-]; lia|]. intros Hj%IH. lia.
Qed.

Lemma keeps_create m_node s_node : keeps (pty_create_master_node m_node s_node).
Proof.
  unfold pty_create_master_node. apply keeps_bind; [apply keeps_init|]. intros [] st Hst. apply wp_bind, wp_gets.
  destruct (free_slot 0 (pty_table st.1)) as [slot|] eqn:E; [|by apply keeps_ret]. apply free_slot_bound in E. destruct Hst as (Hok & Hl & Ha).
  rewrite Hl in E. revert st Hok Hl Ha. cut (keeps (pset slot (λ _, new_pair slot None None);;
    match m_node, s_node with Some _, Some _ => pset slot (λ _, new_pair slot m_node s_node);; mret m_node | _, _ => pset slot (set_allocated false);; mret None end)).
  { intros Hc st Hok Hl Ha. by apply Hc. }
  assert (∀ x y, keeps (pset slot (λ _, new_pair slot x y))) as Hn by (intros x y; apply keeps_set; [lia|by apply harmless_fresh]).
  assert (keeps (pset slot (set_allocated false))) as Ha.
  { apply keeps_set; [lia|]. intros p. split_and!; [tauto|by right..]. }
  apply keeps_bind; [done|]. intros _. destruct m_node, s_node; (apply keeps_bind; [done|]; intros _; apply keeps_ret).
Qed.

(** Every call, signals recorded. *)
Lemma run_ends t op : call_ok op → ends t (run t op).
Proof.
  intros Hc.
  destruct op; cbn [call_ok run] in *; try match type of Hc with _ ∧ _ => destruct Hc as [Hc Hd] end; try apply ends_ret; try (by apply ends_calls);
    try (by apply (ends_calls t k Hc nb size [] 0 ltac:(constructor))); apply keeps_ends.
  - by apply keeps_close.
  - by apply keeps_master_ioctl.
  - by apply (keeps_queries k Hc 0 true).
  - by apply keeps_close.
  - by apply keeps_slave_ioctl.
  - apply keeps_create.
  - by apply (keeps_queries 0 ltac:(unfold PTY_MAX_PAIRS; lia) n true).
  - by apply (keeps_queries k Hc 0 master).
Qed.

(** C39. Any call on the terminals that raises no signal, with any arguments
    the code accepts and in any state with sound rings, returns or goes to
    sleep: it never faults, both rings of every pair still hold a queue, every
    task recorded as waiting is known, no task but the caller has been put to
    sleep, and indeed nobody has been signalled.  Raising no signal means: a
    write to the master types no signal character while [ISIG] is set and
    there is a foreground group, and the window of a terminal with a
    foreground group is not resized. *)
Theorem pty_well_formed t op st : ptys_ok st → known st.2 t → ready st.2 t → call_ok op → no_signal st op →
  wp (run t op) st (λ _ st', ptys_ok st' ∧ (∀ u, known st.2 u → known st'.2 u) ∧ (∀ u, u ≠ t → ready st.2 u → ready st'.2 u) ∧
    signals st'.1 = signals st.1).
Proof.
  intros Hst Hkn Hrd Hc Hq. pose proof (run_ends t op Hc st Hst Hkn Hrd) as Hw. pose proof (λ st', hush_run t op st st' Hq) as Hs. unfold wp in *.
  destruct (run t op st) as [[[] st']| | |]; try done. specialize (Hs st' eq_refl). by destruct Hw as (? & ? & ?).
Qed.

End Invariant.

(** Pair 5 is in use, with task 3 asleep in a read of its slave. *)
Definition demo_terminals : ptys := mk_ptys (replicate 5 zero_pair ++ demo_pair :: replicate 26 zero_pair) true [].

Lemma demo_terminals_ok : ptys_ok (demo_terminals, demo).
Proof.
  assert (rings_ok zero_pair ∧ sleepers_known demo zero_pair) as Hz by (split; [apply fresh_rings|apply fresh_sleepers]).
  split_and!; [apply demo_consistent|done|]. apply Forall_app. split; [by apply Forall_replicate|]. constructor; [|by apply Forall_replicate].
  split; [split; exists []; apply zero_ring_holds|]. split_and!; intros u Hu; try discriminate Hu. injection Hu as <-. exact (demo_present 3 (or_intror eq_refl)).
Qed.

(** Task 2 types a line at the master of pair 5. *)
Lemma pty_well_formed_witness : ∃ st', run 2 (MasterWrite 5 false [104; 105; 10]) (demo_terminals, demo) = Ret (tt, st') ∧ ptys_ok st' ∧ signals st'.1 = [].
Proof.
  destruct (wp_run _ _ _ (pty_well_formed 2 (MasterWrite 5 false [104; 105; 10]) (demo_terminals, demo) demo_terminals_ok
    (demo_present 2 (or_introl eq_refl)) (demo_queued 2 (or_introl eq_refl))
    ltac:(split; [unfold PTY_MAX_PAIRS; lia|repeat constructor; lia])
    ltac:(intros tg _; do 3 (apply Forall_cons_2; [right; right; lia|]); apply Forall_nil_2))) as ([] & st' & E & Hst' & _ & _ & Hsg).
  exists st'. split; [exact E|]. split; [exact Hst'|exact Hsg].
Defined.

End PtyInv.
