(* ===== verification/Net.v ===== *)
(** * Link and network layer ([net/net.c], [net/arp.c], [net/ipv4.c], [net/icmp.c])

    The state of the network stack, and its lower layers.  A packet is the
    list of its bytes; a read behind its end is a fault.  Fields of the packed
    header structures are read and written little-endian, as the processor
    does, so that the swaps of [HTONS] and [HTONL] appear where the code has
    them.  Interfaces, sockets and connections are named by their index in the
    arrays that hold them; an allocated byte buffer is the map of the bytes
    written to it so far, and reading any other byte is a fault.  Sending may
    poll the card for the answer to an ARP request; [rtl8139_poll] is an
    argument here and is supplied in [NetDriver]. *)
From S2P Require Import Prelude Sched.

Module Net.

Definition HTONS (n : Z) : Z :=
  Z.lor (Z.shiftr (Z.land (u16 n) 0xFF00) 8) (Z.shiftl (Z.land (u16 n) 0x00FF) 8).

Definition HTONL (n : Z) : Z :=
  Z.lor (Z.lor (Z.lor (Z.shiftr (Z.land (u32 n) 0xFF000000) 24) (Z.shiftr (Z.land (u32 n) 0x00FF0000) 8))
               (u32 (Z.shiftl (Z.land (u32 n) 0x0000FF00) 8)))
        (u32 (Z.shiftl (Z.land (u32 n) 0x000000FF) 24)).

(** Little-endian fields in memory. *)
Definition le16 (x : Z) : list Z := [x mod 256; x / 256 mod 256].
Definition le32 (x : Z) : list Z := [x mod 256; x / 256 mod 256; x / 65536 mod 256; x / 16777216 mod 256].

Definition rd8 (l : list Z) (off : Z) : option Z := l !! Z.to_nat off.
Definition rd16 (l : list Z) (off : Z) : option Z := b0 ← rd8 l off; b1 ← rd8 l (off + 1); Some (b0 + 256 * b1).
Definition rd32 (l : list Z) (off : Z) : option Z :=
  b0 ← rd8 l off; b1 ← rd8 l (off + 1); b2 ← rd8 l (off + 2); b3 ← rd8 l (off + 3);
  Some (b0 + 256 * b1 + 65536 * b2 + 16777216 * b3).

(** [memcpy] out of a packet: [n] bytes from [off]. *)
Definition bytes_at (l : list Z) (off n : Z) : option (list Z) :=
  if off + n <=? Z.of_nat (length l) then Some (take (Z.to_nat n) (drop (Z.to_nat off) l)) else None.

Definition sizeof_ethernet_header : Z := 14.
Definition sizeof_arp_header : Z := 28.
Definition sizeof_ipv4_header : Z := 20.
Definition sizeof_icmp_header : Z := 8.
Definition sizeof_udp_header : Z := 8.
Definition MAX_INTERFACES : nat := 4.
Definition ARP_CACHE_SIZE : nat := 32.
Definition MAX_UDP_SOCKETS : nat := 64.
Definition SOCK_MAX : nat := 128.

Record net_interface := mk_if {
  if_name : list Z;
  if_mac : list Z;
  if_ip : Z;
  if_subnet_mask : Z;
  if_gateway_ip : Z;
  if_send : bool; (* a driver is attached *)
}.

Record arp_entry := mk_arp { ae_ip : Z; ae_mac : list Z; ae_valid : bool }.

(** The functions registered with [udp_bind]. *)
Inductive udp_callback := ntp_callback | dns_callback | dhcp_handle_response.

Record udp_socket := mk_udp { us_local_port : Z; us_callback : option udp_callback; us_active : bool }.

Inductive sock_state := SOCK_FREE | SOCK_IDLE | SOCK_CONNECTING | SOCK_CONNECTED | SOCK_CLOSED.

#[global] Instance sock_state_eq_dec : EqDecision sock_state.
Proof. solve_decision. Defined.

Record udp_dgram := mk_dgram { dg_src_ip : Z; dg_src_port : Z; dg_data : list Z }.

Record socket_entry := mk_sock {
  se_state : sock_state;
  se_type : Z;
  se_tcb : option nat; (* index in [tcp_sockets] *)
  se_rx_ring : option (gmap Z Z);
  se_rx_head : Z;
  se_rx_tail : Z;
  se_peer_closed : bool;
  se_shut_rd : bool;
  se_shut_wr : bool;
  se_err : Z;
  se_local_port : Z;
  se_remote_ip : Z;
  se_remote_port : Z;
  se_dq : list udp_dgram; (* [dq_head], [dq_tail], [dq_count] *)
  se_rcv_timeout_ms : Z;
  se_snd_timeout_ms : Z;
}.

Definition set_state (f : sock_state → sock_state) r := mk_sock (f (se_state r)) (se_type r) (se_tcb r)
  (se_rx_ring r) (se_rx_head r) (se_rx_tail r) (se_peer_closed r) (se_shut_rd r) (se_shut_wr r) (se_err r)
  (se_local_port r) (se_remote_ip r) (se_remote_port r) (se_dq r) (se_rcv_timeout_ms r) (se_snd_timeout_ms r).
Definition set_type (f : Z → Z) r := mk_sock (se_state r) (f (se_type r)) (se_tcb r) (se_rx_ring r)
  (se_rx_head r) (se_rx_tail r) (se_peer_closed r) (se_shut_rd r) (se_shut_wr r) (se_err r) (se_local_port r)
  (se_remote_ip r) (se_remote_port r) (se_dq r) (se_rcv_timeout_ms r) (se_snd_timeout_ms r).
Definition set_tcb (f : option nat → option nat) r := mk_sock (se_state r) (se_type r) (f (se_tcb r))
  (se_rx_ring r) (se_rx_head r) (se_rx_tail r) (se_peer_closed r) (se_shut_rd r) (se_shut_wr r) (se_err r)
  (se_local_port r) (se_remote_ip r) (se_remote_port r) (se_dq r) (se_rcv_timeout_ms r) (se_snd_timeout_ms r).
Definition set_rx_ring (f : option (gmap Z Z) → option (gmap Z Z)) r := mk_sock (se_state r) (se_type r)
  (se_tcb r) (f (se_rx_ring r)) (se_rx_head r) (se_rx_tail r) (se_peer_closed r) (se_shut_rd r) (se_shut_wr r)
  (se_err r) (se_local_port r) (se_remote_ip r) (se_remote_port r) (se_dq r) (se_rcv_timeout_ms r)
  (se_snd_timeout_ms r).
Definition set_rx_head (f : Z → Z) r := mk_sock (se_state r) (se_type r) (se_tcb r) (se_rx_ring r)
  (f (se_rx_head r)) (se_rx_tail r) (se_peer_closed r) (se_shut_rd r) (se_shut_wr r) (se_err r)
  (se_local_port r) (se_remote_ip r) (se_remote_port r) (se_dq r) (se_rcv_timeout_ms r) (se_snd_timeout_ms r).
Definition set_rx_tail (f : Z → Z) r := mk_sock (se_state r) (se_type r) (se_tcb r) (se_rx_ring r)
  (se_rx_head r) (f (se_rx_tail r)) (se_peer_closed r) (se_shut_rd r) (se_shut_wr r) (se_err r)
  (se_local_port r) (se_remote_ip r) (se_remote_port r) (se_dq r) (se_rcv_timeout_ms r) (se_snd_timeout_ms r).
Definition set_peer_closed (f : bool → bool) r := mk_sock (se_state r) (se_type r) (se_tcb r) (se_rx_ring r)
  (se_rx_head r) (se_rx_tail r) (f (se_peer_closed r)) (se_shut_rd r) (se_shut_wr r) (se_err r)
  (se_local_port r) (se_remote_ip r) (se_remote_port r) (se_dq r) (se_rcv_timeout_ms r) (se_snd_timeout_ms r).
Definition set_shut_rd (f : bool → bool) r := mk_sock (se_state r) (se_type r) (se_tcb r) (se_rx_ring r)
  (se_rx_head r) (se_rx_tail r) (se_peer_closed r) (f (se_shut_rd r)) (se_shut_wr r) (se_err r)
  (se_local_port r) (se_remote_ip r) (se_remote_port r) (se_dq r) (se_rcv_timeout_ms r) (se_snd_timeout_ms r).
Definition set_shut_wr (f : bool → bool) r := mk_sock (se_state r) (se_type r) (se_tcb r) (se_rx_ring r)
  (se_rx_head r) (se_rx_tail r) (se_peer_closed r) (se_shut_rd r) (f (se_shut_wr r)) (se_err r)
  (se_local_port r) (se_remote_ip r) (se_remote_port r) (se_dq r) (se_rcv_timeout_ms r) (se_snd_timeout_ms r).
Definition set_err (f : Z → Z) r := mk_sock (se_state r) (se_type r) (se_tcb r) (se_rx_ring r) (se_rx_head r)
  (se_rx_tail r) (se_peer_closed r) (se_shut_rd r) (se_shut_wr r) (f (se_err r)) (se_local_port r)
  (se_remote_ip r) (se_remote_port r) (se_dq r) (se_rcv_timeout_ms r) (se_snd_timeout_ms r).
Definition set_local_port (f : Z → Z) r := mk_sock (se_state r) (se_type r) (se_tcb r) (se_rx_ring r)
  (se_rx_head r) (se_rx_tail r) (se_peer_closed r) (se_shut_rd r) (se_shut_wr r) (se_err r)
  (f (se_local_port r)) (se_remote_ip r) (se_remote_port r) (se_dq r) (se_rcv_timeout_ms r)
  (se_snd_timeout_ms r).
Definition set_remote_ip (f : Z → Z) r := mk_sock (se_state r) (se_type r) (se_tcb r) (se_rx_ring r)
  (se_rx_head r) (se_rx_tail r) (se_peer_closed r) (se_shut_rd r) (se_shut_wr r) (se_err r) (se_local_port r)
  (f (se_remote_ip r)) (se_remote_port r) (se_dq r) (se_rcv_timeout_ms r) (se_snd_timeout_ms r).
Definition set_remote_port (f : Z → Z) r := mk_sock (se_state r) (se_type r) (se_tcb r) (se_rx_ring r)
  (se_rx_head r) (se_rx_tail r) (se_peer_closed r) (se_shut_rd r) (se_shut_wr r) (se_err r) (se_local_port r)
  (se_remote_ip r) (f (se_remote_port r)) (se_dq r) (se_rcv_timeout_ms r) (se_snd_timeout_ms r).
Definition set_dq (f : list udp_dgram → list udp_dgram) r := mk_sock (se_state r) (se_type r) (se_tcb r)
  (se_rx_ring r) (se_rx_head r) (se_rx_tail r) (se_peer_closed r) (se_shut_rd r) (se_shut_wr r) (se_err r)
  (se_local_port r) (se_remote_ip r) (se_remote_port r) (f (se_dq r)) (se_rcv_timeout_ms r)
  (se_snd_timeout_ms r).
Definition set_rcv_timeout_ms (f : Z → Z) r := mk_sock (se_state r) (se_type r) (se_tcb r) (se_rx_ring r)
  (se_rx_head r) (se_rx_tail r) (se_peer_closed r) (se_shut_rd r) (se_shut_wr r) (se_err r) (se_local_port r)
  (se_remote_ip r) (se_remote_port r) (se_dq r) (f (se_rcv_timeout_ms r)) (se_snd_timeout_ms r).
Definition set_snd_timeout_ms (f : Z → Z) r := mk_sock (se_state r) (se_type r) (se_tcb r) (se_rx_ring r)
  (se_rx_head r) (se_rx_tail r) (se_peer_closed r) (se_shut_rd r) (se_shut_wr r) (se_err r) (se_local_port r)
  (se_remote_ip r) (se_remote_port r) (se_dq r) (se_rcv_timeout_ms r) (f (se_snd_timeout_ms r)).

(** A zeroed entry, as [memset] leaves it. *)
Definition zero_sock : socket_entry :=
  mk_sock SOCK_FREE 0 None None 0 0 false false false 0 0 0 0 [] 0 0.

(** TCP connections ([net/tcp.h]). *)
Inductive tcp_state := TCP_CLOSED | TCP_LISTEN | TCP_SYN_SENT | TCP_SYN_RECEIVED | TCP_ESTABLISHED | TCP_FIN_WAIT_1
  | TCP_FIN_WAIT_2 | TCP_CLOSE_WAIT | TCP_CLOSING | TCP_LAST_ACK | TCP_TIME_WAIT.

#[global] Instance tcp_state_eq_dec : EqDecision tcp_state.
Proof. solve_decision. Defined.

Inductive tcp_error := TCP_ERR_NONE | TCP_ERR_REFUSED | TCP_ERR_RESET | TCP_ERR_TIMEOUT.

(** A segment that arrived early; [None] is an entry that is not in use. *)
Abbreviation reorder_entry := (option (Z * list Z)).

Record tcp_socket := mk_tcp {
  c_active : bool;
  c_remote_ip : Z;
  c_local_port : Z;
  c_remote_port : Z;
  c_state : tcp_state;
  c_error : tcp_error;
  c_snd_una : Z;
  c_snd_nxt : Z;
  c_snd_wnd : Z;
  c_peer_mss : Z;
  c_tx_buf : option (gmap Z Z);
  c_tx_head : Z;
  c_tx_len : Z;
  c_fin_pending : bool;
  c_fin_sent : bool;
  c_rto_ms : Z;
  c_rtx_deadline_ms : Z;
  c_rtx_armed : bool;
  c_retries : Z;
  c_rcv_nxt : Z;
  c_last_adv_wnd : Z;
  c_peer_fin : bool;
  c_reorder : list reorder_entry;
  c_deadline_ms : Z;
  c_callbacks : bool; (* [on_data], [rx_space] and [on_event] are set *)
  c_owner : option nat; (* index in [sockets] *)
}.

Definition set_c_active (f : bool → bool) r := mk_tcp (f (c_active r)) (c_remote_ip r) (c_local_port r)
  (c_remote_port r) (c_state r) (c_error r) (c_snd_una r) (c_snd_nxt r) (c_snd_wnd r) (c_peer_mss r)
  (c_tx_buf r) (c_tx_head r) (c_tx_len r) (c_fin_pending r) (c_fin_sent r) (c_rto_ms r) (c_rtx_deadline_ms r)
  (c_rtx_armed r) (c_retries r) (c_rcv_nxt r) (c_last_adv_wnd r) (c_peer_fin r) (c_reorder r) (c_deadline_ms r)
  (c_callbacks r) (c_owner r).
Definition set_c_remote_ip (f : Z → Z) r := mk_tcp (c_active r) (f (c_remote_ip r)) (c_local_port r)
  (c_remote_port r) (c_state r) (c_error r) (c_snd_una r) (c_snd_nxt r) (c_snd_wnd r) (c_peer_mss r)
  (c_tx_buf r) (c_tx_head r) (c_tx_len r) (c_fin_pending r) (c_fin_sent r) (c_rto_ms r) (c_rtx_deadline_ms r)
  (c_rtx_armed r) (c_retries r) (c_rcv_nxt r) (c_last_adv_wnd r) (c_peer_fin r) (c_reorder r) (c_deadline_ms r)
  (c_callbacks r) (c_owner r).
Definition set_c_local_port (f : Z → Z) r := mk_tcp (c_active r) (c_remote_ip r) (f (c_local_port r))
  (c_remote_port r) (c_state r) (c_error r) (c_snd_una r) (c_snd_nxt r) (c_snd_wnd r) (c_peer_mss r)
  (c_tx_buf r) (c_tx_head r) (c_tx_len r) (c_fin_pending r) (c_fin_sent r) (c_rto_ms r) (c_rtx_deadline_ms r)
  (c_rtx_armed r) (c_retries r) (c_rcv_nxt r) (c_last_adv_wnd r) (c_peer_fin r) (c_reorder r) (c_deadline_ms r)
  (c_callbacks r) (c_owner r).
Definition set_c_remote_port (f : Z → Z) r := mk_tcp (c_active r) (c_remote_ip r) (c_local_port r)
  (f (c_remote_port r)) (c_state r) (c_error r) (c_snd_una r) (c_snd_nxt r) (c_snd_wnd r) (c_peer_mss r)
  (c_tx_buf r) (c_tx_head r) (c_tx_len r) (c_fin_pending r) (c_fin_sent r) (c_rto_ms r) (c_rtx_deadline_ms r)
  (c_rtx_armed r) (c_retries r) (c_rcv_nxt r) (c_last_adv_wnd r) (c_peer_fin r) (c_reorder r) (c_deadline_ms r)
  (c_callbacks r) (c_owner r).
Definition set_c_state (f : tcp_state → tcp_state) r := mk_tcp (c_active r) (c_remote_ip r) (c_local_port r)
  (c_remote_port r) (f (c_state r)) (c_error r) (c_snd_una r) (c_snd_nxt r) (c_snd_wnd r) (c_peer_mss r)
  (c_tx_buf r) (c_tx_head r) (c_tx_len r) (c_fin_pending r) (c_fin_sent r) (c_rto_ms r) (c_rtx_deadline_ms r)
  (c_rtx_armed r) (c_retries r) (c_rcv_nxt r) (c_last_adv_wnd r) (c_peer_fin r) (c_reorder r) (c_deadline_ms r)
  (c_callbacks r) (c_owner r).
Definition set_c_error (f : tcp_error → tcp_error) r := mk_tcp (c_active r) (c_remote_ip r) (c_local_port r)
  (c_remote_port r) (c_state r) (f (c_error r)) (c_snd_una r) (c_snd_nxt r) (c_snd_wnd r) (c_peer_mss r)
  (c_tx_buf r) (c_tx_head r) (c_tx_len r) (c_fin_pending r) (c_fin_sent r) (c_rto_ms r) (c_rtx_deadline_ms r)
  (c_rtx_armed r) (c_retries r) (c_rcv_nxt r) (c_last_adv_wnd r) (c_peer_fin r) (c_reorder r) (c_deadline_ms r)
  (c_callbacks r) (c_owner r).
Definition set_c_snd_una (f : Z → Z) r := mk_tcp (c_active r) (c_remote_ip r) (c_local_port r) (c_remote_port r)
  (c_state r) (c_error r) (f (c_snd_una r)) (c_snd_nxt r) (c_snd_wnd r) (c_peer_mss r) (c_tx_buf r)
  (c_tx_head r) (c_tx_len r) (c_fin_pending r) (c_fin_sent r) (c_rto_ms r) (c_rtx_deadline_ms r) (c_rtx_armed r)
  (c_retries r) (c_rcv_nxt r) (c_last_adv_wnd r) (c_peer_fin r) (c_reorder r) (c_deadline_ms r) (c_callbacks r)
  (c_owner r).
Definition set_c_snd_nxt (f : Z → Z) r := mk_tcp (c_active r) (c_remote_ip r) (c_local_port r) (c_remote_port r)
  (c_state r) (c_error r) (c_snd_una r) (f (c_snd_nxt r)) (c_snd_wnd r) (c_peer_mss r) (c_tx_buf r)
  (c_tx_head r) (c_tx_len r) (c_fin_pending r) (c_fin_sent r) (c_rto_ms r) (c_rtx_deadline_ms r) (c_rtx_armed r)
  (c_retries r) (c_rcv_nxt r) (c_last_adv_wnd r) (c_peer_fin r) (c_reorder r) (c_deadline_ms r) (c_callbacks r)
  (c_owner r).
Definition set_c_snd_wnd (f : Z → Z) r := mk_tcp (c_active r) (c_remote_ip r) (c_local_port r) (c_remote_port r)
  (c_state r) (c_error r) (c_snd_una r) (c_snd_nxt r) (f (c_snd_wnd r)) (c_peer_mss r) (c_tx_buf r)
  (c_tx_head r) (c_tx_len r) (c_fin_pending r) (c_fin_sent r) (c_rto_ms r) (c_rtx_deadline_ms r) (c_rtx_armed r)
  (c_retries r) (c_rcv_nxt r) (c_last_adv_wnd r) (c_peer_fin r) (c_reorder r) (c_deadline_ms r) (c_callbacks r)
  (c_owner r).
Definition set_c_peer_mss (f : Z → Z) r := mk_tcp (c_active r) (c_remote_ip r) (c_local_port r)
  (c_remote_port r) (c_state r) (c_error r) (c_snd_una r) (c_snd_nxt r) (c_snd_wnd r) (f (c_peer_mss r))
  (c_tx_buf r) (c_tx_head r) (c_tx_len r) (c_fin_pending r) (c_fin_sent r) (c_rto_ms r) (c_rtx_deadline_ms r)
  (c_rtx_armed r) (c_retries r) (c_rcv_nxt r) (c_last_adv_wnd r) (c_peer_fin r) (c_reorder r) (c_deadline_ms r)
  (c_callbacks r) (c_owner r).
Definition set_c_tx_buf (f : option (gmap Z Z) → option (gmap Z Z)) r := mk_tcp (c_active r) (c_remote_ip r)
  (c_local_port r) (c_remote_port r) (c_state r) (c_error r) (c_snd_una r) (c_snd_nxt r) (c_snd_wnd r)
  (c_peer_mss r) (f (c_tx_buf r)) (c_tx_head r) (c_tx_len r) (c_fin_pending r) (c_fin_sent r) (c_rto_ms r)
  (c_rtx_deadline_ms r) (c_rtx_armed r) (c_retries r) (c_rcv_nxt r) (c_last_adv_wnd r) (c_peer_fin r)
  (c_reorder r) (c_deadline_ms r) (c_callbacks r) (c_owner r).
Definition set_c_tx_head (f : Z → Z) r := mk_tcp (c_active r) (c_remote_ip r) (c_local_port r) (c_remote_port r)
  (c_state r) (c_error r) (c_snd_una r) (c_snd_nxt r) (c_snd_wnd r) (c_peer_mss r) (c_tx_buf r)
  (f (c_tx_head r)) (c_tx_len r) (c_fin_pending r) (c_fin_sent r) (c_rto_ms r) (c_rtx_deadline_ms r)
  (c_rtx_armed r) (c_retries r) (c_rcv_nxt r) (c_last_adv_wnd r) (c_peer_fin r) (c_reorder r) (c_deadline_ms r)
  (c_callbacks r) (c_owner r).
Definition set_c_tx_len (f : Z → Z) r := mk_tcp (c_active r) (c_remote_ip r) (c_local_port r) (c_remote_port r)
  (c_state r) (c_error r) (c_snd_una r) (c_snd_nxt r) (c_snd_wnd r) (c_peer_mss r) (c_tx_buf r) (c_tx_head r)
  (f (c_tx_len r)) (c_fin_pending r) (c_fin_sent r) (c_rto_ms r) (c_rtx_deadline_ms r) (c_rtx_armed r)
  (c_retries r) (c_rcv_nxt r) (c_last_adv_wnd r) (c_peer_fin r) (c_reorder r) (c_deadline_ms r) (c_callbacks r)
  (c_owner r).
Definition set_c_fin_pending (f : bool → bool) r := mk_tcp (c_active r) (c_remote_ip r) (c_local_port r)
  (c_remote_port r) (c_state r) (c_error r) (c_snd_una r) (c_snd_nxt r) (c_snd_wnd r) (c_peer_mss r)
  (c_tx_buf r) (c_tx_head r) (c_tx_len r) (f (c_fin_pending r)) (c_fin_sent r) (c_rto_ms r)
  (c_rtx_deadline_ms r) (c_rtx_armed r) (c_retries r) (c_rcv_nxt r) (c_last_adv_wnd r) (c_peer_fin r)
  (c_reorder r) (c_deadline_ms r) (c_callbacks r) (c_owner r).
Definition set_c_fin_sent (f : bool → bool) r := mk_tcp (c_active r) (c_remote_ip r) (c_local_port r)
  (c_remote_port r) (c_state r) (c_error r) (c_snd_una r) (c_snd_nxt r) (c_snd_wnd r) (c_peer_mss r)
  (c_tx_buf r) (c_tx_head r) (c_tx_len r) (c_fin_pending r) (f (c_fin_sent r)) (c_rto_ms r)
  (c_rtx_deadline_ms r) (c_rtx_armed r) (c_retries r) (c_rcv_nxt r) (c_last_adv_wnd r) (c_peer_fin r)
  (c_reorder r) (c_deadline_ms r) (c_callbacks r) (c_owner r).
Definition set_c_rto_ms (f : Z → Z) r := mk_tcp (c_active r) (c_remote_ip r) (c_local_port r) (c_remote_port r)
  (c_state r) (c_error r) (c_snd_una r) (c_snd_nxt r) (c_snd_wnd r) (c_peer_mss r) (c_tx_buf r) (c_tx_head r)
  (c_tx_len r) (c_fin_pending r) (c_fin_sent r) (f (c_rto_ms r)) (c_rtx_deadline_ms r) (c_rtx_armed r)
  (c_retries r) (c_rcv_nxt r) (c_last_adv_wnd r) (c_peer_fin r) (c_reorder r) (c_deadline_ms r) (c_callbacks r)
  (c_owner r).
Definition set_c_rtx_deadline_ms (f : Z → Z) r := mk_tcp (c_active r) (c_remote_ip r) (c_local_port r)
  (c_remote_port r) (c_state r) (c_error r) (c_snd_una r) (c_snd_nxt r) (c_snd_wnd r) (c_peer_mss r)
  (c_tx_buf r) (c_tx_head r) (c_tx_len r) (c_fin_pending r) (c_fin_sent r) (c_rto_ms r)
  (f (c_rtx_deadline_ms r)) (c_rtx_armed r) (c_retries r) (c_rcv_nxt r) (c_last_adv_wnd r) (c_peer_fin r)
  (c_reorder r) (c_deadline_ms r) (c_callbacks r) (c_owner r).
Definition set_c_rtx_armed (f : bool → bool) r := mk_tcp (c_active r) (c_remote_ip r) (c_local_port r)
  (c_remote_port r) (c_state r) (c_error r) (c_snd_una r) (c_snd_nxt r) (c_snd_wnd r) (c_peer_mss r)
  (c_tx_buf r) (c_tx_head r) (c_tx_len r) (c_fin_pending r) (c_fin_sent r) (c_rto_ms r) (c_rtx_deadline_ms r)
  (f (c_rtx_armed r)) (c_retries r) (c_rcv_nxt r) (c_last_adv_wnd r) (c_peer_fin r) (c_reorder r)
  (c_deadline_ms r) (c_callbacks r) (c_owner r).
Definition set_c_retries (f : Z → Z) r := mk_tcp (c_active r) (c_remote_ip r) (c_local_port r) (c_remote_port r)
  (c_state r) (c_error r) (c_snd_una r) (c_snd_nxt r) (c_snd_wnd r) (c_peer_mss r) (c_tx_buf r) (c_tx_head r)
  (c_tx_len r) (c_fin_pending r) (c_fin_sent r) (c_rto_ms r) (c_rtx_deadline_ms r) (c_rtx_armed r)
  (f (c_retries r)) (c_rcv_nxt r) (c_last_adv_wnd r) (c_peer_fin r) (c_reorder r) (c_deadline_ms r)
  (c_callbacks r) (c_owner r).
Definition set_c_rcv_nxt (f : Z → Z) r := mk_tcp (c_active r) (c_remote_ip r) (c_local_port r) (c_remote_port r)
  (c_state r) (c_error r) (c_snd_una r) (c_snd_nxt r) (c_snd_wnd r) (c_peer_mss r) (c_tx_buf r) (c_tx_head r)
  (c_tx_len r) (c_fin_pending r) (c_fin_sent r) (c_rto_ms r) (c_rtx_deadline_ms r) (c_rtx_armed r) (c_retries r)
  (f (c_rcv_nxt r)) (c_last_adv_wnd r) (c_peer_fin r) (c_reorder r) (c_deadline_ms r) (c_callbacks r)
  (c_owner r).
Definition set_c_last_adv_wnd (f : Z → Z) r := mk_tcp (c_active r) (c_remote_ip r) (c_local_port r)
  (c_remote_port r) (c_state r) (c_error r) (c_snd_una r) (c_snd_nxt r) (c_snd_wnd r) (c_peer_mss r)
  (c_tx_buf r) (c_tx_head r) (c_tx_len r) (c_fin_pending r) (c_fin_sent r) (c_rto_ms r) (c_rtx_deadline_ms r)
  (c_rtx_armed r) (c_retries r) (c_rcv_nxt r) (f (c_last_adv_wnd r)) (c_peer_fin r) (c_reorder r)
  (c_deadline_ms r) (c_callbacks r) (c_owner r).
Definition set_c_peer_fin (f : bool → bool) r := mk_tcp (c_active r) (c_remote_ip r) (c_local_port r)
  (c_remote_port r) (c_state r) (c_error r) (c_snd_una r) (c_snd_nxt r) (c_snd_wnd r) (c_peer_mss r)
  (c_tx_buf r) (c_tx_head r) (c_tx_len r) (c_fin_pending r) (c_fin_sent r) (c_rto_ms r) (c_rtx_deadline_ms r)
  (c_rtx_armed r) (c_retries r) (c_rcv_nxt r) (c_last_adv_wnd r) (f (c_peer_fin r)) (c_reorder r)
  (c_deadline_ms r) (c_callbacks r) (c_owner r).
Definition set_c_reorder (f : list reorder_entry → list reorder_entry) r := mk_tcp (c_active r) (c_remote_ip r)
  (c_local_port r) (c_remote_port r) (c_state r) (c_error r) (c_snd_una r) (c_snd_nxt r) (c_snd_wnd r)
  (c_peer_mss r) (c_tx_buf r) (c_tx_head r) (c_tx_len r) (c_fin_pending r) (c_fin_sent r) (c_rto_ms r)
  (c_rtx_deadline_ms r) (c_rtx_armed r) (c_retries r) (c_rcv_nxt r) (c_last_adv_wnd r) (c_peer_fin r)
  (f (c_reorder r)) (c_deadline_ms r) (c_callbacks r) (c_owner r).
Definition set_c_deadline_ms (f : Z → Z) r := mk_tcp (c_active r) (c_remote_ip r) (c_local_port r)
  (c_remote_port r) (c_state r) (c_error r) (c_snd_una r) (c_snd_nxt r) (c_snd_wnd r) (c_peer_mss r)
  (c_tx_buf r) (c_tx_head r) (c_tx_len r) (c_fin_pending r) (c_fin_sent r) (c_rto_ms r) (c_rtx_deadline_ms r)
  (c_rtx_armed r) (c_retries r) (c_rcv_nxt r) (c_last_adv_wnd r) (c_peer_fin r) (c_reorder r)
  (f (c_deadline_ms r)) (c_callbacks r) (c_owner r).
Definition set_c_callbacks (f : bool → bool) r := mk_tcp (c_active r) (c_remote_ip r) (c_local_port r)
  (c_remote_port r) (c_state r) (c_error r) (c_snd_una r) (c_snd_nxt r) (c_snd_wnd r) (c_peer_mss r)
  (c_tx_buf r) (c_tx_head r) (c_tx_len r) (c_fin_pending r) (c_fin_sent r) (c_rto_ms r) (c_rtx_deadline_ms r)
  (c_rtx_armed r) (c_retries r) (c_rcv_nxt r) (c_last_adv_wnd r) (c_peer_fin r) (c_reorder r) (c_deadline_ms r)
  (f (c_callbacks r)) (c_owner r).
Definition set_c_owner (f : option nat → option nat) r := mk_tcp (c_active r) (c_remote_ip r) (c_local_port r)
  (c_remote_port r) (c_state r) (c_error r) (c_snd_una r) (c_snd_nxt r) (c_snd_wnd r) (c_peer_mss r)
  (c_tx_buf r) (c_tx_head r) (c_tx_len r) (c_fin_pending r) (c_fin_sent r) (c_rto_ms r) (c_rtx_deadline_ms r)
  (c_rtx_armed r) (c_retries r) (c_rcv_nxt r) (c_last_adv_wnd r) (c_peer_fin r) (c_reorder r) (c_deadline_ms r)
  (c_callbacks r) (f (c_owner r)).

Record net := mk_net {
  interfaces : list net_interface;
  arp_cache : list arp_entry;
  udp_sockets : list udp_socket;
  sockets : list socket_entry;
  next_udp_port : Z;
  tcp_sockets : list tcp_socket;
  next_ephemeral : Z;
  isn_seed : Z;
  resolved_ip : Z;
  last_queried_name : list Z;
  dns_bound : bool;
  ntp_bound : bool;
  dhcp_completed : bool;
  tick : Z;
  heap_ok : list bool; (* whether the next calls of [kmalloc] succeed *)
  rtl_initialized : bool;
  tx_cur_desc : Z;
  wire : list (list (Z * Z * list Z)); (* the frames each poll will find in the ring *)
  sent : list (list Z); (* frames handed to the card *)
}.

Definition with_interfaces (f : list net_interface → list net_interface) r := mk_net (f (interfaces r))
  (arp_cache r) (udp_sockets r) (sockets r) (next_udp_port r) (tcp_sockets r) (next_ephemeral r) (isn_seed r)
  (resolved_ip r) (last_queried_name r) (dns_bound r) (ntp_bound r) (dhcp_completed r) (tick r) (heap_ok r)
  (rtl_initialized r) (tx_cur_desc r) (wire r) (sent r).
Definition with_arp_cache (f : list arp_entry → list arp_entry) r := mk_net (interfaces r) (f (arp_cache r))
  (udp_sockets r) (sockets r) (next_udp_port r) (tcp_sockets r) (next_ephemeral r) (isn_seed r) (resolved_ip r)
  (last_queried_name r) (dns_bound r) (ntp_bound r) (dhcp_completed r) (tick r) (heap_ok r) (rtl_initialized r)
  (tx_cur_desc r) (wire r) (sent r).
Definition with_udp_sockets (f : list udp_socket → list udp_socket) r := mk_net (interfaces r) (arp_cache r)
  (f (udp_sockets r)) (sockets r) (next_udp_port r) (tcp_sockets r) (next_ephemeral r) (isn_seed r)
  (resolved_ip r) (last_queried_name r) (dns_bound r) (ntp_bound r) (dhcp_completed r) (tick r) (heap_ok r)
  (rtl_initialized r) (tx_cur_desc r) (wire r) (sent r).
Definition with_sockets (f : list socket_entry → list socket_entry) r := mk_net (interfaces r) (arp_cache r)
  (udp_sockets r) (f (sockets r)) (next_udp_port r) (tcp_sockets r) (next_ephemeral r) (isn_seed r)
  (resolved_ip r) (last_queried_name r) (dns_bound r) (ntp_bound r) (dhcp_completed r) (tick r) (heap_ok r)
  (rtl_initialized r) (tx_cur_desc r) (wire r) (sent r).
Definition with_next_udp_port (f : Z → Z) r := mk_net (interfaces r) (arp_cache r) (udp_sockets r) (sockets r)
  (f (next_udp_port r)) (tcp_sockets r) (next_ephemeral r) (isn_seed r) (resolved_ip r) (last_queried_name r)
  (dns_bound r) (ntp_bound r) (dhcp_completed r) (tick r) (heap_ok r) (rtl_initialized r) (tx_cur_desc r)
  (wire r) (sent r).
Definition with_tcp_sockets (f : list tcp_socket → list tcp_socket) r := mk_net (interfaces r) (arp_cache r)
  (udp_sockets r) (sockets r) (next_udp_port r) (f (tcp_sockets r)) (next_ephemeral r) (isn_seed r)
  (resolved_ip r) (last_queried_name r) (dns_bound r) (ntp_bound r) (dhcp_completed r) (tick r) (heap_ok r)
  (rtl_initialized r) (tx_cur_desc r) (wire r) (sent r).
Definition with_next_ephemeral (f : Z → Z) r := mk_net (interfaces r) (arp_cache r) (udp_sockets r) (sockets r)
  (next_udp_port r) (tcp_sockets r) (f (next_ephemeral r)) (isn_seed r) (resolved_ip r) (last_queried_name r)
  (dns_bound r) (ntp_bound r) (dhcp_completed r) (tick r) (heap_ok r) (rtl_initialized r) (tx_cur_desc r)
  (wire r) (sent r).
Definition with_isn_seed (f : Z → Z) r := mk_net (interfaces r) (arp_cache r) (udp_sockets r) (sockets r)
  (next_udp_port r) (tcp_sockets r) (next_ephemeral r) (f (isn_seed r)) (resolved_ip r) (last_queried_name r)
  (dns_bound r) (ntp_bound r) (dhcp_completed r) (tick r) (heap_ok r) (rtl_initialized r) (tx_cur_desc r)
  (wire r) (sent r).
Definition with_resolved_ip (f : Z → Z) r := mk_net (interfaces r) (arp_cache r) (udp_sockets r) (sockets r)
  (next_udp_port r) (tcp_sockets r) (next_ephemeral r) (isn_seed r) (f (resolved_ip r)) (last_queried_name r)
  (dns_bound r) (ntp_bound r) (dhcp_completed r) (tick r) (heap_ok r) (rtl_initialized r) (tx_cur_desc r)
  (wire r) (sent r).
Definition with_last_queried_name (f : list Z → list Z) r := mk_net (interfaces r) (arp_cache r) (udp_sockets r)
  (sockets r) (next_udp_port r) (tcp_sockets r) (next_ephemeral r) (isn_seed r) (resolved_ip r)
  (f (last_queried_name r)) (dns_bound r) (ntp_bound r) (dhcp_completed r) (tick r) (heap_ok r)
  (rtl_initialized r) (tx_cur_desc r) (wire r) (sent r).
Definition with_dns_bound (f : bool → bool) r := mk_net (interfaces r) (arp_cache r) (udp_sockets r) (sockets r)
  (next_udp_port r) (tcp_sockets r) (next_ephemeral r) (isn_seed r) (resolved_ip r) (last_queried_name r)
  (f (dns_bound r)) (ntp_bound r) (dhcp_completed r) (tick r) (heap_ok r) (rtl_initialized r) (tx_cur_desc r)
  (wire r) (sent r).
Definition with_ntp_bound (f : bool → bool) r := mk_net (interfaces r) (arp_cache r) (udp_sockets r) (sockets r)
  (next_udp_port r) (tcp_sockets r) (next_ephemeral r) (isn_seed r) (resolved_ip r) (last_queried_name r)
  (dns_bound r) (f (ntp_bound r)) (dhcp_completed r) (tick r) (heap_ok r) (rtl_initialized r) (tx_cur_desc r)
  (wire r) (sent r).
Definition with_dhcp_completed (f : bool → bool) r := mk_net (interfaces r) (arp_cache r) (udp_sockets r)
  (sockets r) (next_udp_port r) (tcp_sockets r) (next_ephemeral r) (isn_seed r) (resolved_ip r)
  (last_queried_name r) (dns_bound r) (ntp_bound r) (f (dhcp_completed r)) (tick r) (heap_ok r)
  (rtl_initialized r) (tx_cur_desc r) (wire r) (sent r).
Definition with_tick (f : Z → Z) r := mk_net (interfaces r) (arp_cache r) (udp_sockets r) (sockets r)
  (next_udp_port r) (tcp_sockets r) (next_ephemeral r) (isn_seed r) (resolved_ip r) (last_queried_name r)
  (dns_bound r) (ntp_bound r) (dhcp_completed r) (f (tick r)) (heap_ok r) (rtl_initialized r) (tx_cur_desc r)
  (wire r) (sent r).
Definition with_heap_ok (f : list bool → list bool) r := mk_net (interfaces r) (arp_cache r) (udp_sockets r)
  (sockets r) (next_udp_port r) (tcp_sockets r) (next_ephemeral r) (isn_seed r) (resolved_ip r)
  (last_queried_name r) (dns_bound r) (ntp_bound r) (dhcp_completed r) (tick r) (f (heap_ok r))
  (rtl_initialized r) (tx_cur_desc r) (wire r) (sent r).
Definition with_rtl_initialized (f : bool → bool) r := mk_net (interfaces r) (arp_cache r) (udp_sockets r)
  (sockets r) (next_udp_port r) (tcp_sockets r) (next_ephemeral r) (isn_seed r) (resolved_ip r)
  (last_queried_name r) (dns_bound r) (ntp_bound r) (dhcp_completed r) (tick r) (heap_ok r)
  (f (rtl_initialized r)) (tx_cur_desc r) (wire r) (sent r).
Definition with_tx_cur_desc (f : Z → Z) r := mk_net (interfaces r) (arp_cache r) (udp_sockets r) (sockets r)
  (next_udp_port r) (tcp_sockets r) (next_ephemeral r) (isn_seed r) (resolved_ip r) (last_queried_name r)
  (dns_bound r) (ntp_bound r) (dhcp_completed r) (tick r) (heap_ok r) (rtl_initialized r) (f (tx_cur_desc r))
  (wire r) (sent r).
Definition with_wire (f : list (list (Z * Z * list Z)) → list (list (Z * Z * list Z))) r := mk_net
  (interfaces r) (arp_cache r) (udp_sockets r) (sockets r) (next_udp_port r) (tcp_sockets r) (next_ephemeral r)
  (isn_seed r) (resolved_ip r) (last_queried_name r) (dns_bound r) (ntp_bound r) (dhcp_completed r) (tick r)
  (heap_ok r) (rtl_initialized r) (tx_cur_desc r) (f (wire r)) (sent r).
Definition with_sent (f : list (list Z) → list (list Z)) r := mk_net (interfaces r) (arp_cache r)
  (udp_sockets r) (sockets r) (next_udp_port r) (tcp_sockets r) (next_ephemeral r) (isn_seed r) (resolved_ip r)
  (last_queried_name r) (dns_bound r) (ntp_bound r) (dhcp_completed r) (tick r) (heap_ok r) (rtl_initialized r)
  (tx_cur_desc r) (wire r) (f (sent r)).

Definition state : Type := net * Sched.sched.

Definition nget {A} (f : net → A) : M state A := gets (λ s : state, f s.1).
Definition nset (f : net → net) : M state unit := modify (λ s : state, (f s.1, s.2)).
Definition rd {A} (x : option A) : M state A := deref (λ _ : state, x).
Definition iface_get (i : nat) : M state net_interface := deref (λ s : state, interfaces s.1 !! i).

(** [kmalloc] as far as its callers see it: it succeeds or not. *)
Definition kmalloc (size : Z) : M state bool := λ s,
  match heap_ok s.1 with
  | [] => Ret (true, s)
  | ok :: rest => Ret (ok, (with_heap_ok (λ _, rest) s.1, s.2))
  end.

(** ** The driver's transmit side ([drivers/net/rtl8139.c]) *)

(** A short frame is padded to 60 bytes. *)
Definition pad_frame (data : list Z) : list Z := data ++ replicate (60 - length data) 0.

Definition rtl8139_send_packet (data : list Z) : M state unit :=
  init ← nget rtl_initialized;
  if negb init then mret tt else
  nset (with_sent (λ l, l ++ [pad_frame data]));;
  nset (with_tx_cur_desc (λ d, (d + 1) mod 4)).

(** ** [net.c] *)

Definition net_register_interface (iface : net_interface) : M state unit :=
  nset (with_interfaces (λ l, if (length l <? MAX_INTERFACES)%nat then l ++ [iface] else l)).

Fixpoint find_name (name : list Z) (l : list net_interface) (i : nat) : option nat :=
  match l with
  | [] => None
  | f :: l' => if bool_decide (if_name f = name) then Some i else find_name name l' (S i)
  end.

Definition net_get_interface (name : list Z) : M state (option nat) := nget (λ n, find_name name (interfaces n) 0).

Definition net_get_primary_interface : M state (option nat) :=
  nget (λ n, match interfaces n with [] => None | _ => Some 0%nat end).

Definition net_send_packet (iface : option nat) (dest_mac : list Z) (ethertype : Z) (payload : list Z) : M state unit :=
  if 1500 <? Z.of_nat (length payload) then mret tt else
  match iface with
  | None => mret tt
  | Some i =>
      f ← iface_get i;
      let frame := take 6 dest_mac ++ take 6 (if_mac f) ++ le16 (HTONS ethertype) ++ payload in
      when if_send f do rtl8139_send_packet frame
  end.

(** ** [arp.c] *)

Fixpoint arp_find (ip : Z) (l : list arp_entry) (i : nat) : option nat :=
  match l with
  | [] => None
  | e :: l' => if ae_valid e && (ae_ip e =? ip) then Some i else arp_find ip l' (S i)
  end.

Fixpoint arp_free (l : list arp_entry) (i : nat) : option nat :=
  match l with
  | [] => None
  | e :: l' => if negb (ae_valid e) then Some i else arp_free l' (S i)
  end.

Definition arp_update_cache (ip : Z) (mac : list Z) : M state unit :=
  c ← nget arp_cache;
  match arp_find ip c 0 with
  | Some i => nset (with_arp_cache (alter (λ e, mk_arp (ae_ip e) (take 6 mac) (ae_valid e)) i))
  | None =>
      match arp_free c 0 with
      | Some i => nset (with_arp_cache (alter (λ _, mk_arp ip (take 6 mac) true) i))
      | None => mret tt
      end
  end.

Definition arp_lookup (ip : Z) : M state (option (list Z)) :=
  nget (λ n, match arp_find ip (arp_cache n) 0 with
             | Some i => ae_mac <$> arp_cache n !! i
             | None => None
             end).

(** The 28 bytes of an ARP message. *)
Definition arp_message (oper : Z) (sha : list Z) (spa : Z) (tha : list Z) (tpa : Z) : list Z :=
  le16 (HTONS 1) ++ le16 (HTONS 0x0800) ++ [6; 4] ++ le16 (HTONS oper) ++
  take 6 sha ++ le32 (HTONL spa) ++ take 6 tha ++ le32 (HTONL tpa).

Definition send_arp_request (i : nat) (target_ip : Z) : M state unit :=
  f ← iface_get i;
  net_send_packet (Some i) (replicate 6 0xFF) 0x0806
    (arp_message 1 (if_mac f) (if_ip f) (replicate 6 0) target_ip).

Definition send_arp_reply (i : nat) (dest_mac : list Z) (dest_ip : Z) : M state unit :=
  f ← iface_get i;
  net_send_packet (Some i) dest_mac 0x0806 (arp_message 2 (if_mac f) (if_ip f) dest_mac dest_ip).

Definition handle_arp (i : nat) (packet : list Z) : M state unit :=
  f ← iface_get i;
  spa_raw ← rd (rd32 packet (sizeof_ethernet_header + 14));
  let spa := HTONL spa_raw in
  sha ← rd (bytes_at packet (sizeof_ethernet_header + 8) 6);
  arp_update_cache spa sha;;
  oper ← rd (rd16 packet (sizeof_ethernet_header + 6));
  tpa ← rd (rd32 packet (sizeof_ethernet_header + 24));
  when ((oper =? HTONS 1) && (HTONL tpa =? if_ip f)) do send_arp_reply i sha spa.

(** ** [ipv4.c] *)

(** The 16-bit words of a buffer, a last odd byte by itself. *)
Fixpoint sum_words (l : list Z) (sum : Z) : Z :=
  match l with
  | b0 :: b1 :: l' => sum_words l' (u32 (sum + (b0 + 256 * b1)))
  | [b0] => u32 (sum + b0)
  | [] => sum
  end.

(** [while (sum >> 16) sum = (sum & 0xFFFF) + (sum >> 16);] with [n] rounds. *)
Fixpoint fold_carry (n : nat) (sum : Z) : Z :=
  match n with
  | O => sum
  | S n' => if Z.shiftr sum 16 =? 0 then sum else fold_carry n' (u32 (Z.land sum 0xFFFF + Z.shiftr sum 16))
  end.

Definition ip_checksum (l : list Z) : Z := u16 (Z.lxor (fold_carry 16 (sum_words l 0)) (Z.ones 32)).

(** The header with a given checksum field. *)
Definition ipv4_header (src dest proto payload_len checksum : Z) : list Z :=
  [0x45; 0] ++ le16 (HTONS (u32 (sizeof_ipv4_header + payload_len))) ++ le16 (HTONS 1) ++ le16 0 ++ [64; u8 proto] ++
  le16 checksum ++ le32 (HTONL src) ++ le32 (HTONL dest).

Section Layers.
  Context (rtl8139_poll : M state unit).

(** The retry loop: [n] polls until the address is known. *)
Fixpoint arp_wait (n : nat) (ip : Z) : M state (option (list Z)) :=
  match n with
  | O => mret None
  | S n' =>
      rtl8139_poll;;
      m ← arp_lookup ip;
      match m with Some mac => mret (Some mac) | None => arp_wait n' ip end
  end.

Definition ipv4_send_packet (iface : option nat) (dest_ip proto : Z) (payload : list Z) : M state unit :=
  match iface with
  | None => mret tt
  | Some i =>
      f ← iface_get i;
      let target_ip := if Z.land dest_ip (if_subnet_mask f) =? Z.land (if_ip f) (if_subnet_mask f)
                       then dest_ip else if_gateway_ip f in
      m ← arp_lookup target_ip;
      m' ← match m with
           | Some mac => mret (Some mac)
           | None => send_arp_request i target_ip;; arp_wait 50 target_ip
           end;
      match m' with
      | None => mret tt
      | Some dest_mac =>
          f ← iface_get i;
          let len := Z.of_nat (length payload) in
          let checksum := ip_checksum (ipv4_header (if_ip f) dest_ip proto len 0) in
          (* the packet is put together in a buffer of 1600 bytes *)
          if 1600 <? sizeof_ipv4_header + len then fault else
          net_send_packet iface dest_mac 0x0800 (ipv4_header (if_ip f) dest_ip proto len checksum ++ payload)
      end
  end.

(** ** [icmp.c] *)

Definition icmp_checksum (l : list Z) : Z := u16 (Z.lxor (fold_carry 16 (sum_words l 0)) (Z.ones 32)).

(** An ICMP header; [id] and [seq] are the bytes of the fields. *)
Definition icmp_header (type checksum : Z) (id seq : list Z) : list Z := [type; 0] ++ le16 checksum ++ id ++ seq.

Definition handle_icmp (i : nat) (packet : list Z) (ip_hdr_len : Z) : M state unit :=
  let off := sizeof_ethernet_header + ip_hdr_len in
  type ← rd (rd8 packet off);
  if type =? 8 then
    id ← rd (bytes_at packet (off + 4) 2);
    seq ← rd (bytes_at packet (off + 6) 2);
    src ← rd (rd32 packet (sizeof_ethernet_header + 12));
    let checksum := icmp_checksum (icmp_header 0 0 id seq) in
    ipv4_send_packet (Some i) (HTONL src) 1 (icmp_header 0 checksum id seq)
  else mret tt.

Definition icmp_send_echo_request (iface : option nat) (dest_ip : Z) : M state unit :=
  match iface with
  | None => mret tt
  | Some _ =>
      let id := le16 (HTONS 0x1234) in
      let seq := le16 (HTONS 1) in
      let checksum := icmp_checksum (icmp_header 8 0 id seq) in
      ipv4_send_packet iface dest_ip 1 (icmp_header 8 checksum id seq)
  end.

End Layers.

End Net.
