(* ===== verification/SockRx.v ===== *)
(** * Receive side of the socket layer ([net/socket.c])

    The receive ring of a stream socket, the callbacks TCP reports to, and the
    delivery of datagrams: what the protocols call when something arrives. *)
From S2P Require Import Prelude Sched Net.

Module SockRx.
Import Net.

Definition SOCK_RX_RING_SIZE : Z := 262144.
Definition SOCK_UDP_QUEUE_MAX : nat := 64.
Definition SOCK_TYPE_STREAM : Z := 1.
Definition SOCK_TYPE_DGRAM : Z := 2.
Definition S_ETIMEDOUT : Z := 110.
Definition S_ECONNRESET : Z := 104.
Definition S_ECONNREFUSED : Z := 111.

Definition sock_load (i : nat) : M state socket_entry := deref (λ s : state, sockets s.1 !! i).
Definition sock_store (i : nat) (f : socket_entry → socket_entry) : M state unit := nset (with_sockets (alter f i)).
Definition tcb_load (c : nat) : M state tcp_socket := deref (λ s : state, tcp_sockets s.1 !! c).
Definition tcb_store (c : nat) (f : tcp_socket → tcp_socket) : M state unit := nset (with_tcp_sockets (alter f c)).
Definition wake : M state unit := lift_r Sched.io_wake_all.

(** ** The receive ring *)

Definition ring_used (e : socket_entry) : Z := u32 (se_rx_head e - se_rx_tail e).

Definition ring_free (e : socket_entry) : Z :=
  match se_rx_ring e with Some _ => u32 (SOCK_RX_RING_SIZE - ring_used e) | None => 0 end.

Definition rx_index (pos : Z) : Z := Z.land (u32 pos) (SOCK_RX_RING_SIZE - 1).

(** The copying loops of the rings: [data] goes to the places from [pos] on,
    [n] bytes are taken from there; [index] is the position of a byte in the
    buffer. *)
Fixpoint copy_in (index : Z → Z) (pos : Z) (data : list Z) (buf : gmap Z Z) : gmap Z Z :=
  match data with
  | [] => buf
  | b :: data' => copy_in index (pos + 1) data' (<[index pos := b]> buf)
  end.

Definition copy_out (index : Z → Z) (pos n : Z) (buf : gmap Z Z) : option (list Z) :=
  mapM (λ k, buf !! index (pos + k)) (seqZ 0 n).

Definition ring_push (i : nat) (data : list Z) : M state Z :=
  e ← sock_load i;
  let space := ring_free e in
  let len := if space <? Z.of_nat (length data) then space else Z.of_nat (length data) in
  match se_rx_ring e with
  | Some buf =>
      sock_store i (λ e, set_rx_head (λ h, u32 (h + len))
                           (set_rx_ring (λ _, Some (copy_in rx_index (se_rx_head e) (take (Z.to_nat len) data) buf)) e));;
      mret len
  | None => sock_store i (set_rx_head (λ h, u32 (h + len)));; mret len
  end.

Definition ring_pop (i : nat) (max : Z) (peek : bool) : M state (list Z) :=
  e ← sock_load i;
  let used := ring_used e in
  let n := if used <? max then used else max in
  out ← rd (match se_rx_ring e with
            | Some buf => copy_out rx_index (se_rx_tail e) n buf
            | None => if n =? 0 then Some [] else None
            end);
  (when negb peek do sock_store i (set_rx_tail (λ t, u32 (t + n))));;
  mret out.

(** ** Callbacks of the TCP layer *)

Definition sock_tcp_on_data (owner : option nat) (data : list Z) : M state Z :=
  match owner with
  | None => mret (Z.of_nat (length data))
  | Some i =>
      e ← sock_load i;
      match se_rx_ring e with
      | None => mret (Z.of_nat (length data))
      | Some _ =>
          if se_shut_rd e then mret (Z.of_nat (length data)) else
          n ← ring_push i data;
          (when negb (n =? 0) do wake);;
          mret n
      end
  end.

Definition sock_tcp_rx_space (owner : option nat) : M state Z :=
  match owner with
  | None => mret 65535
  | Some i => e ← sock_load i; mret (ring_free e)
  end.

Definition tcp_error_to_errno (err : tcp_error) (connecting : bool) : Z :=
  match err with
  | TCP_ERR_REFUSED => S_ECONNREFUSED
  | TCP_ERR_RESET => if connecting then S_ECONNREFUSED else S_ECONNRESET
  | TCP_ERR_TIMEOUT => S_ETIMEDOUT
  | TCP_ERR_NONE => 0
  end.

Definition sock_tcp_on_event (c : nat) : M state unit :=
  s ← tcb_load c;
  match c_owner s with
  | None => mret tt
  | Some i =>
      e ← sock_load i;
      match c_state s with
      | TCP_ESTABLISHED =>
          when bool_decide (se_state e = SOCK_CONNECTING) do sock_store i (set_state (λ _, SOCK_CONNECTED))
      | TCP_CLOSED =>
          let connecting := bool_decide (se_state e = SOCK_CONNECTING) in
          let err := tcp_error_to_errno (c_error s) connecting in
          (when negb (err =? 0) do sock_store i (set_err (λ _, err)));;
          sock_store i (set_peer_closed (λ _, true));;
          sock_store i (set_tcb (λ _, None));;
          sock_store i (set_state (λ _, SOCK_CLOSED))
      | _ => mret tt
      end;;
      (when c_peer_fin s do sock_store i (set_peer_closed (λ _, true)));;
      wake
  end.

(** ** Datagrams *)

(** The socket a datagram goes to: bound to the port and, when connected, to
    this peer. *)
Definition accepts (dest_port src_ip src_port : Z) (e : socket_entry) : bool :=
  negb (bool_decide (se_state e = SOCK_FREE) || negb (se_type e =? SOCK_TYPE_DGRAM)) &&
  (se_local_port e =? dest_port) &&
  negb (bool_decide (se_state e = SOCK_CONNECTED) && (negb (se_remote_ip e =? src_ip) || negb (se_remote_port e =? src_port))).

Fixpoint find_sock (p : socket_entry → bool) (l : list socket_entry) (i : nat) : option nat :=
  match l with
  | [] => None
  | e :: l' => if p e then Some i else find_sock p l' (S i)
  end.

(** [data]: the packet from the payload on. *)
Definition sock_udp_deliver (dest_port src_ip src_port : Z) (data : list Z) (len : Z) : M state bool :=
  l ← nget sockets;
  match find_sock (accepts dest_port src_ip src_port) l 0 with
  | None => mret false
  | Some i =>
      e ← sock_load i;
      if (SOCK_UDP_QUEUE_MAX <=? length (se_dq e))%nat then mret true else
      ok ← kmalloc (24 + len);
      if negb ok then mret true else
      d ← rd (bytes_at data 0 len);
      sock_store i (set_dq (λ q, q ++ [mk_dgram src_ip src_port d]));;
      wake;;
      mret true
  end.

End SockRx.
