(* ===== verification/Tcp.v ===== *)
(** * TCP client connections ([net/tcp.c])

    One definition per function.  Sequence numbers are 32-bit and compared
    through the sign of their difference.  The send buffer is a ring of
    [TCP_TX_BUF_SIZE] bytes from [snd_una] on.  Loops of the source that are
    not bounded by a constant carry fuel; running out of it is [Wait]. *)
From S2P Require Import Prelude Sched Net SockRx.

Module Tcp.
Import Net SockRx.

Definition TCP_REORDER_BUF_SIZE : nat := 16.
Definition TCP_MAX_SOCKETS : nat := 128.
Definition TCP_TX_BUF_SIZE : Z := 65536.
Definition TCP_DEFAULT_MSS : Z := 536.
Definition TCP_LOCAL_MSS : Z := 1460.
Definition TCP_MAX_SEG_PAYLOAD : Z := 1460.
Definition TCP_INITIAL_RTO_MS : Z := 400.
Definition TCP_MAX_RTO_MS : Z := 8000.
Definition TCP_MAX_RETRIES : Z := 8.
Definition TCP_SYN_MAX_RETRIES : Z := 5.
Definition TCP_TIME_WAIT_MS : Z := 2000.
Definition TCP_FIN_WAIT2_MS : Z := 15000.
Definition TCP_EPHEMERAL_FIRST : Z := 49152.
Definition TCP_EPHEMERAL_LAST : Z := 65535.
Definition TCP_FIN : Z := 1.
Definition TCP_SYN : Z := 2.
Definition TCP_RST : Z := 4.
Definition TCP_PSH : Z := 8.
Definition TCP_ACK : Z := 16.
Definition TCP_OPT_MSS : Z := 2.
Definition TIMER_HZ : Z := 250.
Definition sizeof_tcp_header : Z := 20.

Definition no_fuel {A} : M state A := λ _, Wait.

Definition SEQ_LT (a b : Z) : bool := i32 (a - b) <? 0.
Definition SEQ_LEQ (a b : Z) : bool := i32 (a - b) <=? 0.
Definition SEQ_GT (a b : Z) : bool := 0 <? i32 (a - b).
Definition SEQ_GEQ (a b : Z) : bool := 0 <=? i32 (a - b).

Definition tcp_now_ms : M state Z := nget (λ n, u32 (tick n * (1000 / TIMER_HZ))).

Definition get_random_isn : M state Z :=
  t ← nget tick;
  s0 ← nget isn_seed;
  let s1 := Z.lxor s0 (Z.lxor (u32 (Z.shiftl s0 13)) (u32 (t * 1103515245 + 12345))) in
  let s2 := Z.lxor s1 (Z.shiftr s1 17) in
  let s3 := Z.lxor s2 (u32 (Z.shiftl s2 5)) in
  nset (with_isn_seed (λ _, s3));;
  mret s3.

Definition tcp_port_used (port : Z) (l : list tcp_socket) : bool :=
  existsb (λ c, c_active c && (c_local_port c =? port)) l.

Fixpoint tcp_port_loop (tries : nat) : M state Z :=
  match tries with
  | O => mret 0
  | S tries' =>
      port ← nget next_ephemeral;
      nset (with_next_ephemeral (λ _, if TCP_EPHEMERAL_LAST <=? port then TCP_EPHEMERAL_FIRST else u16 (port + 1)));;
      used ← nget (λ n, tcp_port_used port (tcp_sockets n));
      if negb used then mret port else tcp_port_loop tries'
  end.

Definition tcp_alloc_port : M state Z :=
  let range := TCP_EPHEMERAL_LAST - TCP_EPHEMERAL_FIRST + 1 in
  p ← nget next_ephemeral;
  (when p =? 0 do (r ← get_random_isn; nset (with_next_ephemeral (λ _, u16 (TCP_EPHEMERAL_FIRST + r mod range)))));;
  tcp_port_loop (Z.to_nat range).

(** The big-endian words of a segment. *)
Fixpoint sum_be (seg : list Z) (sum : Z) : Z :=
  match seg with
  | b0 :: b1 :: seg' => sum_be seg' (u32 (sum + Z.lor (Z.shiftl b0 8) b1))
  | [b0] => u32 (sum + Z.shiftl b0 8)
  | [] => sum
  end.

Definition tcp_checksum (src_ip dest_ip : Z) (seg : list Z) : Z :=
  let len := Z.of_nat (length seg) in
  let sum := u32 (Z.shiftr src_ip 16 + Z.land src_ip 0xFFFF + Z.shiftr dest_ip 16 + Z.land dest_ip 0xFFFF + 6 + len) in
  HTONS (u16 (Z.lxor (fold_carry 16 (sum_be seg sum)) (Z.ones 32))).

Definition tcp_rcv_window (c : nat) : M state Z :=
  s ← tcb_load c;
  w ← if c_callbacks s then sock_tcp_rx_space (c_owner s) else mret 65535;
  let wnd := if 65535 <? w then 65535 else w in
  tcb_store c (set_c_last_adv_wnd (λ _, wnd));;
  mret wnd.

Definition tx_index (pos : Z) : Z := u32 pos mod TCP_TX_BUF_SIZE.

(** [len] bytes of the send ring, [off] bytes behind [snd_una]. *)
Definition tx_bytes (s : tcp_socket) (off len : Z) : option (list Z) :=
  match c_tx_buf s with
  | Some buf => copy_out tx_index (c_tx_head s + off) len buf
  | None => if len <=? 0 then Some [] else None
  end.

(** A segment with a given checksum field. *)
Definition tcp_segment (lport rport seq ack flags wnd checksum : Z) (data : list Z) : list Z :=
  let syn := has flags TCP_SYN in
  let hdr_len := sizeof_tcp_header + if syn then 4 else 0 in
  le16 (HTONS lport) ++ le16 (HTONS rport) ++ le32 (HTONL seq) ++
  le32 (if has flags TCP_ACK then HTONL ack else 0) ++
  [u8 (Z.shiftl (hdr_len / 4) 4); flags] ++ le16 (HTONS (u16 wnd)) ++ le16 checksum ++ [0; 0] ++
  (if syn then [TCP_OPT_MSS; 4; u8 (Z.shiftr TCP_LOCAL_MSS 8); u8 (Z.land TCP_LOCAL_MSS 0xFF)] else []) ++
  data.

Section Tcp.
  Context (rtl8139_poll : M state unit).

Definition tcp_xmit (c : nat) (seq flags tx_offset len : Z) : M state unit :=
  iface ← net_get_primary_interface;
  match iface with
  | None => mret tt
  | Some i =>
      f ← iface_get i;
      let n := if TCP_MAX_SEG_PAYLOAD <? len then TCP_MAX_SEG_PAYLOAD else len in
      wnd ← tcp_rcv_window c;
      s ← tcb_load c;
      data ← rd (tx_bytes s tx_offset n);
      let seg := λ sum, tcp_segment (c_local_port s) (c_remote_port s) seq (c_rcv_nxt s) flags wnd sum data in
      let checksum := tcp_checksum (if_ip f) (c_remote_ip s) (seg 0) in
      ipv4_send_packet rtl8139_poll iface (c_remote_ip s) 6 (seg checksum)
  end.

Definition tcp_send_ack (c : nat) : M state unit :=
  s ← tcb_load c;
  tcp_xmit c (c_snd_nxt s) TCP_ACK 0 0.

Definition tcp_arm_rtx (c : nat) : M state unit :=
  tcb_store c (set_c_rtx_armed (λ _, true));;
  now ← tcp_now_ms;
  tcb_store c (λ s, set_c_rtx_deadline_ms (λ _, u32 (now + c_rto_ms s)) s).

Definition tcp_notify (c : nat) : M state unit :=
  s ← tcb_load c;
  match c_owner s with
  | Some _ => when c_callbacks s do sock_tcp_on_event c
  | None => mret tt
  end.

Definition tcp_reorder_flush (c : nat) : M state unit := tcb_store c (set_c_reorder (fmap (λ _, None))).

Definition tcp_free (c : nat) : M state unit :=
  tcp_reorder_flush c;;
  tcb_store c (set_c_tx_buf (λ _, None));;
  tcb_store c (set_c_state (λ _, TCP_CLOSED));;
  tcp_notify c;;
  tcb_store c (set_c_active (λ _, false));;
  tcb_store c (set_c_owner (λ _, None)).

Definition tcp_fail (c : nat) (err : tcp_error) : M state unit :=
  tcb_store c (set_c_error (λ _, err));;
  tcp_free c.

(** The states in which data may be sent. *)
Definition can_output (st : tcp_state) : bool :=
  match st with
  | TCP_ESTABLISHED | TCP_CLOSE_WAIT | TCP_FIN_WAIT_1 | TCP_CLOSING | TCP_LAST_ACK => true
  | _ => false
  end.

Definition effective_mss (s : tcp_socket) : Z :=
  let mss := if c_peer_mss s =? 0 then TCP_DEFAULT_MSS else c_peer_mss s in
  if TCP_MAX_SEG_PAYLOAD <? mss then TCP_MAX_SEG_PAYLOAD else mss.

(** [for (;;)]: segments until the data or the window is used up. *)
Fixpoint output_loop (fuel : nat) (c : nat) (mss : Z) : M state unit :=
  match fuel with
  | O => no_fuel
  | S fuel' =>
      s ← tcb_load c;
      let sent := u32 (c_snd_nxt s - c_snd_una s) in
      if c_tx_len s <=? sent then mret tt else
      if c_snd_wnd s <=? sent then mret tt else
      let n1 := c_tx_len s - sent in
      let n2 := if c_snd_wnd s - sent <? n1 then c_snd_wnd s - sent else n1 in
      let n := if mss <? n2 then mss else n2 in
      let flags := if u32 (sent + n) =? c_tx_len s then Z.lor TCP_ACK TCP_PSH else TCP_ACK in
      tcp_xmit c (c_snd_nxt s) flags sent n;;
      tcb_store c (set_c_snd_nxt (λ x, u32 (x + n)));;
      s' ← tcb_load c;
      (when negb (c_rtx_armed s') do tcp_arm_rtx c);;
      output_loop fuel' c mss
  end.

(** The FIN behind the queued data. *)
Definition output_fin (c : nat) : M state unit :=
  s ← tcb_load c;
  let fin_seq := u32 (c_snd_una s + c_tx_len s) in
  if c_fin_pending s && (c_snd_nxt s =? fin_seq) then
    tcp_xmit c fin_seq (Z.lor TCP_FIN TCP_ACK) 0 0;;
    tcb_store c (set_c_snd_nxt (λ _, u32 (fin_seq + 1)));;
    tcb_store c (set_c_fin_sent (λ _, true));;
    s' ← tcb_load c;
    when negb (c_rtx_armed s') do tcp_arm_rtx c
  else mret tt.

(** Zero window with data waiting: arm the persist timer. *)
Definition output_persist (c : nat) : M state unit :=
  s ← tcb_load c;
  when negb (c_rtx_armed s) && (c_snd_wnd s =? 0) && (u32 (c_snd_nxt s - c_snd_una s) <? c_tx_len s) do tcp_arm_rtx c.

Definition tcp_output (c : nat) : M state unit :=
  s ← tcb_load c;
  if negb (can_output (c_state s)) then mret tt else
  output_loop (S (Z.to_nat (c_tx_len s))) c (effective_mss s);;
  output_fin c;;
  output_persist c.

Definition tcp_send_space (arg : option nat) : M state Z :=
  match arg with
  | None => mret 0
  | Some c =>
      s ← tcb_load c;
      mret (if c_active s && bool_decide (is_Some (c_tx_buf s)) then TCP_TX_BUF_SIZE - c_tx_len s else 0)
  end.

Definition tcp_write (arg : option nat) (data : list Z) : M state Z :=
  match arg with
  | None => mret 0
  | Some c =>
      s ← tcb_load c;
      match c_tx_buf s with
      | Some buf =>
          if negb (c_active s) || c_fin_pending s then mret 0 else
          let space := TCP_TX_BUF_SIZE - c_tx_len s in
          let len := if space <? Z.of_nat (length data) then space else Z.of_nat (length data) in
          let tail := u32 (c_tx_head s + c_tx_len s) mod TCP_TX_BUF_SIZE in
          tcb_store c (set_c_tx_buf (λ _, Some (copy_in tx_index tail (take (Z.to_nat len) data) buf)));;
          tcb_store c (set_c_tx_len (λ n, n + len));;
          tcp_output c;;
          mret len
      | None => mret 0
      end
  end.

Definition tcp_window_update (arg : option nat) : M state unit :=
  match arg with
  | None => mret tt
  | Some c =>
      s ← tcb_load c;
      if negb (c_active s) then mret tt else
      if negb (bool_decide (c_state s = TCP_ESTABLISHED) || bool_decide (c_state s = TCP_FIN_WAIT_1) ||
               bool_decide (c_state s = TCP_FIN_WAIT_2)) then mret tt else
      let old := c_last_adv_wnd s in
      w ← if c_callbacks s then sock_tcp_rx_space (c_owner s) else mret 65535;
      let now := if 65535 <? w then 65535 else w in
      when (old + TCP_LOCAL_MSS <=? now) || ((old <? TCP_LOCAL_MSS) && (TCP_LOCAL_MSS <=? now)) do tcp_send_ack c
  end.

(** ** Receiving *)

Definition tcp_deliver (c : nat) (data : list Z) : M state Z :=
  s ← tcb_load c;
  let len := Z.of_nat (length data) in
  n ← match c_owner s with
      | Some _ => if c_callbacks s then sock_tcp_on_data (c_owner s) data else mret len
      | None => mret len
      end;
  let accepted := if len <? n then len else n in
  tcb_store c (set_c_rcv_nxt (λ x, u32 (x + accepted)));;
  mret accepted.

Fixpoint reorder_has (seq : Z) (l : list reorder_entry) : bool :=
  match l with
  | [] => false
  | Some (q, _) :: l' => (q =? seq) || reorder_has seq l'
  | None :: l' => reorder_has seq l'
  end.

Fixpoint reorder_slot (l : list reorder_entry) (i : nat) : option nat :=
  match l with
  | [] => None
  | None :: _ => Some i
  | Some _ :: l' => reorder_slot l' (S i)
  end.

Definition tcp_reorder_insert (c : nat) (seq : Z) (data : list Z) : M state unit :=
  s ← tcb_load c;
  if SEQ_GEQ seq (u32 (c_rcv_nxt s + 65535)) then mret tt else
  if reorder_has seq (c_reorder s) then mret tt else
  match reorder_slot (c_reorder s) 0 with
  | None => mret tt
  | Some i =>
      ok ← kmalloc (Z.of_nat (length data));
      when (ok : bool) do tcb_store c (set_c_reorder (<[i := Some (seq, data)]>))
  end.

(** One pass over the buffer; the result is the last value of [progress]. *)
Fixpoint drain_pass (c i n : nat) (progress : bool) : M state bool :=
  match n with
  | O => mret progress
  | S n' =>
      s ← tcb_load c;
      match c_reorder s !! i with
      | Some (Some (seq, data)) =>
          let len := Z.of_nat (length data) in
          let fin := u32 (seq + len) in
          let release := tcb_store c (set_c_reorder (<[i := None]>)) in
          if SEQ_LEQ fin (c_rcv_nxt s) then release;; drain_pass c (S i) n' progress
          else if SEQ_LEQ seq (c_rcv_nxt s) then
            let skip := u32 (c_rcv_nxt s - seq) in
            let want := u32 (len - skip) in
            got ← tcp_deliver c (drop (Z.to_nat skip) data);
            release;;
            drain_pass c (S i) n' (got =? want)
          else drain_pass c (S i) n' progress
      | _ => drain_pass c (S i) n' progress
      end
  end.

Fixpoint drain_loop (fuel c : nat) : M state unit :=
  match fuel with
  | O => no_fuel
  | S fuel' =>
      progress ← drain_pass c 0 TCP_REORDER_BUF_SIZE false;
      if progress : bool then drain_loop fuel' c else mret tt
  end.

Definition tcp_reorder_drain (c : nat) : M state unit := drain_loop (S TCP_REORDER_BUF_SIZE) c.

(** Options in [packet] from [opt] to [fin]. *)
Fixpoint parse_options (fuel : nat) (c : nat) (packet : list Z) (opt fin : Z) : M state unit :=
  match fuel with
  | O => no_fuel
  | S fuel' =>
      if fin <=? opt then mret tt else
      kind ← rd (rd8 packet opt);
      if kind =? 0 then mret tt else
      if kind =? 1 then parse_options fuel' c packet (opt + 1) fin else
      if fin <=? opt + 1 then mret tt else
      olen ← rd (rd8 packet (opt + 1));
      if (olen <? 2) || (fin <? opt + olen) then mret tt else
      (when (kind =? TCP_OPT_MSS) && (olen =? 4) do (
        b2 ← rd (rd8 packet (opt + 2));
        b3 ← rd (rd8 packet (opt + 3));
        tcb_store c (set_c_peer_mss (λ _, Z.lor (Z.shiftl b2 8) b3))));;
      parse_options fuel' c packet (opt + olen) fin
  end.

Definition tcp_parse_options (c : nat) (packet : list Z) (th hdr_len : Z) : M state unit :=
  parse_options (S (Z.to_nat hdr_len)) c packet (th + sizeof_tcp_header) (th + hdr_len).

Definition tcp_process_ack (c : nat) (ack wnd : Z) : M state bool :=
  s ← tcb_load c;
  let snd_max := u32 (c_snd_una s + c_tx_len s + if c_fin_sent s then 1 else 0) in
  (if SEQ_GT ack (c_snd_una s) && SEQ_LEQ ack snd_max then
     let acked := u32 (ack - c_snd_una s) in
     let data_acked := if c_tx_len s <? acked then c_tx_len s else acked in
     tcb_store c (set_c_tx_head (λ h, u32 (h + data_acked) mod TCP_TX_BUF_SIZE));;
     tcb_store c (set_c_tx_len (λ n, u32 (n - data_acked)));;
     tcb_store c (set_c_snd_una (λ _, ack));;
     tcb_store c (λ s, if SEQ_LT (c_snd_nxt s) (c_snd_una s) then set_c_snd_nxt (λ _, c_snd_una s) s else s);;
     tcb_store c (set_c_retries (λ _, 0));;
     tcb_store c (set_c_rto_ms (λ _, TCP_INITIAL_RTO_MS));;
     s' ← tcb_load c;
     (if (c_snd_una s' =? c_snd_nxt s') && (c_tx_len s' =? 0)
      then tcb_store c (set_c_rtx_armed (λ _, false))
      else tcp_arm_rtx c);;
     tcb_store c (set_c_snd_wnd (λ _, wnd));;
     tcp_notify c
   else when ack =? c_snd_una s do tcb_store c (set_c_snd_wnd (λ _, wnd)));;
  s' ← tcb_load c;
  mret (c_fin_sent s' && (c_tx_len s' =? 0) && (c_snd_una s' =? c_snd_nxt s')).

Definition tcp_match (dest_port src_ip src_port : Z) (c : tcp_socket) : bool :=
  c_active c && (c_local_port c =? dest_port) && (c_remote_ip c =? src_ip) && (c_remote_port c =? src_port).

Fixpoint tcp_find (p : tcp_socket → bool) (l : list tcp_socket) (i : nat) : option nat :=
  match l with
  | [] => None
  | c :: l' => if p c then Some i else tcp_find p l' (S i)
  end.

(** [case TCP_SYN_SENT] of [handle_tcp]. *)
Definition tcp_syn_sent (c : nat) (packet : list Z) (th hdr_len seq ack wnd flags : Z) : M state unit :=
  s ← tcb_load c;
  let ack_ok := has flags TCP_ACK && (ack =? c_snd_nxt s) in
  if has flags TCP_RST then when ack_ok do tcp_fail c TCP_ERR_REFUSED else
  if has flags TCP_SYN && ack_ok then
    tcb_store c (set_c_rcv_nxt (λ _, u32 (seq + 1)));;
    tcb_store c (set_c_snd_una (λ _, ack));;
    tcb_store c (set_c_snd_wnd (λ _, wnd));;
    tcb_store c (set_c_peer_mss (λ _, TCP_DEFAULT_MSS));;
    tcp_parse_options c packet th hdr_len;;
    tcb_store c (set_c_state (λ _, TCP_ESTABLISHED));;
    tcb_store c (set_c_rtx_armed (λ _, false));;
    tcb_store c (set_c_retries (λ _, 0));;
    tcb_store c (set_c_rto_ms (λ _, TCP_INITIAL_RTO_MS));;
    tcp_send_ack c;;
    tcp_notify c;;
    tcp_output c
  else mret tt.

(** A reset inside the receive window. *)
Definition tcp_reset (c : nat) (seq : Z) : M state unit :=
  s ← tcb_load c;
  if SEQ_GEQ seq (c_rcv_nxt s) && SEQ_LT seq (u32 (c_rcv_nxt s + 65536)) then
    match c_state s with
    | TCP_TIME_WAIT | TCP_LAST_ACK | TCP_CLOSING => tcp_free c
    | _ => tcp_fail c TCP_ERR_RESET
    end
  else mret tt.

Definition can_receive (st : tcp_state) : bool :=
  match st with TCP_ESTABLISHED | TCP_FIN_WAIT_1 | TCP_FIN_WAIT_2 => true | _ => false end.

(** The payload of a segment: [payload] reads it out of the packet. *)
Definition tcp_data (c : nat) (seq payload_len : Z) (payload : M state (list Z)) : M state unit :=
  s ← tcb_load c;
  let deliver data :=
    got ← tcp_deliver c data;
    when got =? Z.of_nat (length data) do tcp_reorder_drain c in
  if seq =? c_rcv_nxt s then data ← payload; deliver data
  else if SEQ_LT seq (c_rcv_nxt s) then
    let fin := u32 (seq + payload_len) in
    if SEQ_GT fin (c_rcv_nxt s) then
      data ← payload; deliver (drop (Z.to_nat (u32 (c_rcv_nxt s - seq))) data)
    else mret tt
  else data ← payload; tcp_reorder_insert c seq data.

(** The peer's FIN, once every byte before it has been accepted; the result is
    the new value of [need_ack]. *)
Definition tcp_peer_fin (c : nat) (seq payload_len flags : Z) (fin_acked need_ack : bool) : M state bool :=
  s ← tcb_load c;
  if has flags TCP_FIN && (u32 (seq + payload_len) =? c_rcv_nxt s) && negb (c_peer_fin s) then
    tcb_store c (set_c_rcv_nxt (λ x, u32 (x + 1)));;
    tcb_store c (set_c_peer_fin (λ _, true));;
    now ← tcp_now_ms;
    let time_wait := tcb_store c (set_c_state (λ _, TCP_TIME_WAIT));;
                     tcb_store c (set_c_deadline_ms (λ _, u32 (now + TCP_TIME_WAIT_MS))) in
    match c_state s with
    | TCP_ESTABLISHED => tcb_store c (set_c_state (λ _, TCP_CLOSE_WAIT))
    | TCP_FIN_WAIT_1 => if fin_acked then time_wait else tcb_store c (set_c_state (λ _, TCP_CLOSING))
    | TCP_FIN_WAIT_2 => time_wait
    | _ => mret tt
    end;;
    tcp_notify c;;
    mret true
  else mret (if has flags TCP_FIN && c_peer_fin s then true else need_ack).

(** Our FIN is acknowledged; the result says whether the connection is gone. *)
Definition tcp_fin_acked (c : nat) : M state bool :=
  s ← tcb_load c;
  now ← tcp_now_ms;
  match c_state s with
  | TCP_FIN_WAIT_1 =>
      tcb_store c (set_c_state (λ _, TCP_FIN_WAIT_2));;
      tcb_store c (set_c_deadline_ms (λ _, u32 (now + TCP_FIN_WAIT2_MS)));;
      mret false
  | TCP_CLOSING =>
      tcb_store c (set_c_state (λ _, TCP_TIME_WAIT));;
      tcb_store c (set_c_deadline_ms (λ _, u32 (now + TCP_TIME_WAIT_MS)));;
      mret false
  | TCP_LAST_ACK => tcp_free c;; mret true
  | _ => mret false
  end.

(** [handle_tcp] behind the header checks. *)
Definition tcp_input (c : nat) (packet : list Z) (th hdr_len payload_len seq ack wnd flags : Z) : M state unit :=
  s ← tcb_load c;
  if bool_decide (c_state s = TCP_SYN_SENT) then tcp_syn_sent c packet th hdr_len seq ack wnd flags else
  if has flags TCP_RST then tcp_reset c seq else
  fin_acked ← (if has flags TCP_ACK then tcp_process_ack c ack wnd else mret false);
  s ← tcb_load c;
  (when (0 <? payload_len) && can_receive (c_state s) do
     tcp_data c seq payload_len (rd (bytes_at packet (th + hdr_len) payload_len)));;
  need_ack ← tcp_peer_fin c seq payload_len flags fin_acked (0 <? payload_len);
  gone ← (if fin_acked : bool then tcp_fin_acked c else mret false);
  if gone : bool then mret tt else
  (when (need_ack : bool) do tcp_send_ack c);;
  tcp_output c.

Definition handle_tcp (packet : list Z) (ip_hdr_len : Z) : M state unit :=
  let ip := sizeof_ethernet_header in
  let th := sizeof_ethernet_header + ip_hdr_len in
  dest_port ← rd (rd16 packet (th + 2));
  src_port ← rd (rd16 packet th);
  src_ip ← rd (rd32 packet (ip + 12));
  l ← nget tcp_sockets;
  match tcp_find (tcp_match (HTONS dest_port) (HTONL src_ip) (HTONS src_port)) l 0 with
  | None => mret tt
  | Some c =>
      data_offset ← rd (rd8 packet (th + 12));
      let hdr_len := Z.shiftr data_offset 4 * 4 in
      len ← rd (rd16 packet (ip + 2));
      let ip_len := HTONS len in
      if (hdr_len <? sizeof_tcp_header) || (ip_len <? ip_hdr_len + hdr_len) then mret tt else
      let payload_len := ip_len - ip_hdr_len - hdr_len in
      seq ← rd (rd32 packet (th + 4));
      ack ← rd (rd32 packet (th + 8));
      wnd ← rd (rd16 packet (th + 14));
      flags ← rd (rd8 packet (th + 13));
      tcp_input c packet th hdr_len payload_len (HTONL seq) (HTONL ack) (HTONS wnd) flags
  end.

(** ** Opening and closing *)

Definition tcp_shutdown (arg : option nat) : M state unit :=
  match arg with
  | None => mret tt
  | Some c =>
      s ← tcb_load c;
      if negb (c_active s) || c_fin_pending s then mret tt else
      match c_state s with
      | TCP_ESTABLISHED =>
          tcb_store c (set_c_state (λ _, TCP_FIN_WAIT_1));;
          tcb_store c (set_c_fin_pending (λ _, true));;
          tcp_output c
      | TCP_CLOSE_WAIT =>
          tcb_store c (set_c_state (λ _, TCP_LAST_ACK));;
          tcb_store c (set_c_fin_pending (λ _, true));;
          tcp_output c
      | _ => mret tt
      end
  end.

Definition tcp_close (arg : option nat) : M state unit :=
  match arg with
  | None => mret tt
  | Some c =>
      s ← tcb_load c;
      if negb (c_active s) then mret tt else
      tcb_store c (set_c_owner (λ _, None));;
      tcb_store c (set_c_callbacks (λ _, false));;
      if bool_decide (c_state s = TCP_SYN_SENT) then tcp_free c else tcp_shutdown (Some c)
  end.

Definition tcp_abort (arg : option nat) : M state unit :=
  match arg with
  | None => mret tt
  | Some c =>
      s ← tcb_load c;
      if negb (c_active s) then mret tt else
      (when negb (bool_decide (c_state s = TCP_SYN_SENT)) && negb (bool_decide (c_state s = TCP_TIME_WAIT)) do
         tcp_xmit c (c_snd_nxt s) (Z.lor TCP_RST TCP_ACK) 0 0);;
      tcb_store c (set_c_owner (λ _, None));;
      tcp_free c
  end.

Definition zero_tcb : tcp_socket :=
  mk_tcp false 0 0 0 TCP_CLOSED TCP_ERR_NONE 0 0 0 0 None 0 0 false false 0 0 false 0 0 0 false
    (replicate TCP_REORDER_BUF_SIZE None) 0 false None.

Fixpoint tcb_slot (l : list tcp_socket) (i : nat) : option nat :=
  match l with
  | [] => None
  | c :: l' => if c_active c then tcb_slot l' (S i) else Some i
  end.

Definition tcp_connect (iface : option nat) (dest_ip port : Z) (owner : nat) : M state (option nat) :=
  match iface with
  | None => mret None
  | Some _ =>
      l ← nget tcp_sockets;
      match tcb_slot l 0 with
      | None => mret None
      | Some c =>
          lport ← tcp_alloc_port;
          if lport =? 0 then mret None else
          tcb_store c (λ _, zero_tcb);;
          ok ← kmalloc TCP_TX_BUF_SIZE;
          if negb ok then mret None else
          isn ← get_random_isn;
          tcb_store c (λ _, mk_tcp true dest_ip lport port TCP_SYN_SENT TCP_ERR_NONE isn isn 0 TCP_DEFAULT_MSS (Some ∅) 0 0
            false false TCP_INITIAL_RTO_MS 0 false 0 0 0 false (replicate TCP_REORDER_BUF_SIZE None) 0 true (Some owner));;
          tcp_xmit c isn TCP_SYN 0 0;;
          tcb_store c (set_c_snd_nxt (λ x, u32 (x + 1)));;
          tcp_arm_rtx c;;
          mret (Some c)
      end
  end.

(** ** Timers *)

Definition backoff (rto : Z) : Z := if TCP_MAX_RTO_MS <? u32 (rto * 2) then TCP_MAX_RTO_MS else u32 (rto * 2).

Definition rearm (c : nat) (now_ms : Z) : M state unit :=
  tcb_store c (set_c_rto_ms backoff);;
  tcb_store c (λ s, set_c_rtx_deadline_ms (λ _, u32 (now_ms + c_rto_ms s)) s).

(** The common end of [tcp_timeout]. *)
Definition timeout_again (c : nat) (now_ms : Z) : M state unit :=
  tcb_store c (set_c_retries (λ n, u8 (n + 1)));;
  tcb_store c (set_c_rtx_armed (λ _, true));;
  rearm c now_ms.

Definition tcp_timeout (c : nat) (now_ms : Z) : M state unit :=
  s ← tcb_load c;
  if bool_decide (c_state s = TCP_SYN_SENT) then
    if TCP_SYN_MAX_RETRIES <=? c_retries s then tcp_fail c TCP_ERR_TIMEOUT else
    tcp_xmit c (c_snd_una s) TCP_SYN 0 0;;
    timeout_again c now_ms
  else if (c_snd_nxt s =? c_snd_una s) && (c_snd_wnd s =? 0) && (0 <? c_tx_len s) then
    tcp_xmit c (c_snd_nxt s) TCP_ACK 0 1;;
    tcb_store c (set_c_snd_nxt (λ x, u32 (x + 1)));;
    rearm c now_ms
  else if TCP_MAX_RETRIES <=? c_retries s then
    tcp_xmit c (c_snd_nxt s) (Z.lor TCP_RST TCP_ACK) 0 0;;
    tcp_fail c TCP_ERR_TIMEOUT
  else
    tcb_store c (λ s, set_c_snd_nxt (λ _, c_snd_una s) s);;
    tcb_store c (set_c_rtx_armed (λ _, false));;
    tcp_output c;;
    timeout_again c now_ms.

Definition tick_one (now_ms : Z) (c : nat) : M state unit :=
  s ← tcb_load c;
  if negb (c_active s) then mret tt else
  let expiring := bool_decide (c_state s = TCP_TIME_WAIT) ||
                  (bool_decide (c_state s = TCP_FIN_WAIT_2) && bool_decide (c_owner s = None)) in
  if expiring && (0 <=? i32 (now_ms - c_deadline_ms s)) then tcp_free c else
  when c_rtx_armed s && (0 <=? i32 (now_ms - c_rtx_deadline_ms s)) do tcp_timeout c now_ms.

Fixpoint tick_each (now_ms : Z) (cs : list nat) : M state unit :=
  match cs with
  | [] => mret tt
  | c :: cs' => tick_one now_ms c;; tick_each now_ms cs'
  end.

Definition tcp_tick_with_iface (now_ms : Z) : M state unit :=
  iface ← net_get_primary_interface;
  match iface with
  | None => mret tt
  | Some _ => l ← nget tcp_sockets; tick_each now_ms (seq 0 (length l))
  end.

End Tcp.

End Tcp.
