(* ===== verification/Udp.v ===== *)
(** * UDP and the kernel's own clients ([net/udp.c], [net/dns.c], [net/dhcp.c])

    A callback gets the packet from the payload on and the length field of
    the UDP header; reading behind the end of the packet is a fault.  What is
    printed on the terminal is left out. *)
From S2P Require Import Prelude Sched Net SockRx.

Module Udp.
Import Net SockRx.

(** Overwrite the bytes from [off] on. *)
Definition write_at (buf : list Z) (off : Z) (bytes : list Z) : list Z :=
  take (Z.to_nat off) buf ++ bytes ++ drop (Z.to_nat off + length bytes) buf.

Definition udp_init : M state unit :=
  nset (with_udp_sockets (λ _, replicate MAX_UDP_SOCKETS (mk_udp 0 None false))).

Fixpoint udp_slot (l : list udp_socket) (i : nat) : option nat :=
  match l with
  | [] => None
  | u :: l' => if us_active u then udp_slot l' (S i) else Some i
  end.

Definition udp_bind (port : Z) (callback : udp_callback) : M state bool :=
  l ← nget udp_sockets;
  match udp_slot l 0 with
  | Some i => nset (with_udp_sockets (<[i := mk_udp port (Some callback) true]>));; mret true
  | None => mret false
  end.

Fixpoint udp_find (port : Z) (l : list udp_socket) : option udp_socket :=
  match l with
  | [] => None
  | u :: l' => if us_active u && (us_local_port u =? port) then Some u else udp_find port l'
  end.

Definition udp_datagram (src_port dest_port : Z) (data : list Z) : list Z :=
  le16 (HTONS src_port) ++ le16 (HTONS dest_port) ++ le16 (HTONS (sizeof_udp_header + Z.of_nat (length data))) ++ le16 0 ++ data.

(** ** Parsing of DNS names and messages *)

Definition sizeof_dns_header : Z := 12.

(** The loop of [dns_format_name] over [temp] from position [i] on; [label] is
    what has been read since [lock]. *)
Fixpoint format_labels (temp label : list Z) : list Z :=
  match temp with
  | [] => []
  | 46 :: temp' => u8 (Z.of_nat (length label)) :: label ++ format_labels temp' []
  | ch :: temp' => format_labels temp' (label ++ [ch])
  end.

(** What is written at [qname]; nothing for a host of more than 250 characters. *)
Definition dns_format_name (host : list Z) : list Z :=
  if 250 <? Z.of_nat (length host) then [] else format_labels (host ++ [46]) [] ++ [0].

(** Offsets into [data] instead of pointers. *)
Fixpoint dns_skip_loop (fuel : nat) (data : list Z) (ptr fin : Z) : M state Z :=
  match fuel with
  | O => λ _, Wait
  | S fuel' =>
      if fin <=? ptr then mret fin else
      b ← rd (rd8 data ptr);
      if b =? 0 then mret (ptr + 1) else
      if Z.land b 0xC0 =? 0xC0 then mret (if ptr + 2 <=? fin then ptr + 2 else fin) else
      if fin <=? ptr + 1 + b then mret fin else
      dns_skip_loop fuel' data (ptr + 1 + b) fin
  end.

Definition dns_skip_name (data : list Z) (ptr fin : Z) : M state Z :=
  dns_skip_loop (S (Z.to_nat (fin - ptr))) data ptr fin.

Fixpoint skip_questions (n : nat) (data : list Z) (ptr fin : Z) : M state Z :=
  match n with
  | O => mret ptr
  | S n' => if fin <=? ptr then mret ptr else p ← dns_skip_name data ptr fin; skip_questions n' data (p + 4) fin
  end.

(** The first A record of the answers. *)
Fixpoint find_answer (n : nat) (data : list Z) (ptr fin : Z) : M state (option Z) :=
  match n with
  | O => mret None
  | S n' =>
      if fin <? ptr + 10 then mret None else
      p ← dns_skip_name data ptr fin;
      if fin <? p + 10 then mret None else
      t0 ← rd (rd8 data p); t1 ← rd (rd8 data (p + 1));
      l0 ← rd (rd8 data (p + 8)); l1 ← rd (rd8 data (p + 9));
      let type := Z.lor (Z.shiftl t0 8) t1 in
      let rdlen := Z.lor (Z.shiftl l0 8) l1 in
      let p := p + 10 in
      if fin <? p + rdlen then mret None else
      if (type =? 1) && (rdlen =? 4) then
        b0 ← rd (rd8 data p); b1 ← rd (rd8 data (p + 1)); b2 ← rd (rd8 data (p + 2)); b3 ← rd (rd8 data (p + 3));
        mret (Some (Z.lor (Z.lor (Z.lor (Z.shiftl b0 24) (Z.shiftl b1 16)) (Z.shiftl b2 8)) b3))
      else find_answer n' data (p + rdlen) fin
  end.

Definition on_dns_response (data : list Z) (len : Z) : M state unit :=
  if len <? sizeof_dns_header then mret tt else
  nq ← rd (rd16 data 4);
  nan ← rd (rd16 data 6);
  if HTONS nan =? 0 then mret tt else
  p ← skip_questions (Z.to_nat (HTONS nq)) data sizeof_dns_header len;
  r ← find_answer (Z.to_nat (HTONS nan)) data p len;
  match r with
  | Some ip => nset (with_resolved_ip (λ _, ip))
  | None => mret tt
  end.

(** ** DHCP messages *)

Definition DHCP_CLIENT_PORT : Z := 68.
Definition DHCP_SERVER_PORT : Z := 67.
Definition DHCP_DISCOVER : Z := 1.
Definition DHCP_OFFER : Z := 2.
Definition DHCP_REQUEST : Z := 3.
Definition DHCP_ACK : Z := 5.
Definition dhcp_xid : Z := 0x55AA1234.
Definition dhcp_magic : Z := 0x63538263.
Definition sizeof_dhcp_packet : Z := 548.
Definition off_yiaddr : Z := 16.
Definition off_magic : Z := 236.
Definition off_options : Z := 240.

(** What the options say; a missing one is 0. *)
Record dhcp_options := mk_opts { o_msg_type : Z; o_server_id : Z; o_subnet_mask : Z; o_gateway : Z; o_dns : Z }.

(** The loop over the options.  The marker is read before the bound is
    checked, as in the source. *)
Fixpoint dhcp_option_loop (fuel : nat) (data : list Z) (opt len : Z) (o : dhcp_options) : M state dhcp_options :=
  match fuel with
  | O => λ _, Wait
  | S fuel' =>
      b ← rd (rd8 data opt);
      if (b =? 0xFF) || (len <=? opt) then mret o else
      let code := b in
      if code =? 0 then dhcp_option_loop fuel' data (opt + 1) len o else
      opt_len ← rd (rd8 data (opt + 1));
      let p := opt + 2 in
      o' ← if code =? 53 then
             v ← rd (rd8 data p);
             mret (mk_opts v (o_server_id o) (o_subnet_mask o) (o_gateway o) (o_dns o))
           else if (code =? 1) && (opt_len =? 4) then
             v ← rd (rd32 data p);
             mret (mk_opts (o_msg_type o) (o_server_id o) v (o_gateway o) (o_dns o))
           else if (code =? 3) && (4 <=? opt_len) then
             v ← rd (rd32 data p);
             mret (mk_opts (o_msg_type o) (o_server_id o) (o_subnet_mask o) v (o_dns o))
           else if (code =? 6) && (4 <=? opt_len) then
             v ← rd (rd32 data p);
             mret (mk_opts (o_msg_type o) (o_server_id o) (o_subnet_mask o) (o_gateway o) v)
           else if (code =? 54) && (opt_len =? 4) then
             v ← rd (rd32 data p);
             mret (mk_opts (o_msg_type o) v (o_subnet_mask o) (o_gateway o) (o_dns o))
           else mret o;
      dhcp_option_loop fuel' data (p + opt_len) len o'
  end.

(** A message of the client: the fixed part and the options, padded. *)
Definition dhcp_message (mac options : list Z) : list Z :=
  [1; 1; 6; 0] ++ le32 dhcp_xid ++ [0; 0] ++ le16 (HTONS 0x8000) ++ replicate 16 0 ++
  take 6 mac ++ replicate 10 0 ++ replicate 64 0 ++ replicate 128 0 ++ le32 dhcp_magic ++
  options ++ replicate (308 - length options) 0.

Definition set_address (ip mask gateway : Z) (f : net_interface) : net_interface :=
  mk_if (if_name f) (if_mac f) (HTONL ip)
    (if mask =? 0 then if_subnet_mask f else HTONL mask)
    (if gateway =? 0 then if_gateway_ip f else HTONL gateway) (if_send f).

Section Udp.
  Context (rtl8139_poll : M state unit).

Definition udp_send_packet (iface : option nat) (dest_ip src_port dest_port : Z) (data : list Z) : M state unit :=
  match iface with
  | None => mret tt
  | Some _ =>
      ok ← kmalloc (sizeof_udp_header + Z.of_nat (length data));
      if negb ok then mret tt else
      ipv4_send_packet rtl8139_poll iface dest_ip 17 (udp_datagram src_port dest_port data)
  end.

Definition send_ntp_request (iface : option nat) : M state unit :=
  match iface with
  | None => mret tt
  | Some _ =>
      bound ← nget ntp_bound;
      (when negb bound do (udp_bind 1234 ntp_callback;; nset (with_ntp_bound (λ _, true))));;
      udp_send_packet iface 0xA29FC801 1234 123 (0x23 :: replicate 47 0)
  end.

(** The reply is only printed. *)
Definition on_ntp_response (data : list Z) (len : Z) : M state unit :=
  if len <? 48 then mret tt else
  rd (rd8 data 40);; rd (rd8 data 41);; rd (rd8 data 42);; rd (rd8 data 43);;
  mret tt.

Fixpoint strlen (l : list Z) : Z :=
  match l with
  | [] => 0
  | b :: l' => if b =? 0 then 0 else 1 + strlen l'
  end.

(** The query as it is put together in the buffer of 512 bytes. *)
Definition dns_message (hostname : list Z) : list Z :=
  let buffer := write_at (replicate 512 0) 0 (le16 (HTONS 0xBEEF) ++ le16 (HTONS 0x0100) ++ le16 (HTONS 1)) in
  let buffer := write_at buffer sizeof_dns_header (dns_format_name hostname) in
  let qname_len := strlen (drop (Z.to_nat sizeof_dns_header) buffer) + 1 in
  let qinfo := sizeof_dns_header + qname_len in
  let buffer := write_at (write_at buffer (qinfo + 1) [1]) (qinfo + 3) [1] in
  take (Z.to_nat (qinfo + 4)) buffer.

Definition dns_query (iface : option nat) (hostname : list Z) (server_ip : Z) : M state unit :=
  match iface with
  | None => mret tt
  | Some _ =>
      bound ← nget dns_bound;
      (when negb bound do (udp_bind 53535 dns_callback;; nset (with_dns_bound (λ _, true))));;
      nset (with_resolved_ip (λ _, 0));;
      nset (with_last_queried_name (λ _, take 127 hostname));;
      udp_send_packet iface server_ip 53535 53 (dns_message hostname)
  end.

Definition dns_get_result (hostname : list Z) : M state Z :=
  q ← nget last_queried_name;
  if bool_decide (q = hostname) then nget resolved_ip else mret 0.

Definition on_dhcp_response (data : list Z) (len : Z) : M state unit :=
  if len <? sizeof_dhcp_packet then mret tt else
  magic ← rd (rd32 data off_magic);
  xid ← rd (rd32 data 4);
  if negb (magic =? dhcp_magic) || negb (xid =? dhcp_xid) then mret tt else
  iface ← net_get_primary_interface;
  match iface with
  | None => mret tt
  | Some i =>
      o ← dhcp_option_loop (S (Z.to_nat len)) data off_options len (mk_opts 0 0 0 0 0);
      f ← iface_get i;
      if o_msg_type o =? DHCP_OFFER then
        yiaddr ← rd (bytes_at data off_yiaddr 4);
        udp_send_packet iface 0xFFFFFFFF DHCP_CLIENT_PORT DHCP_SERVER_PORT
          (dhcp_message (if_mac f) ([53; 1; DHCP_REQUEST] ++ [50; 4] ++ yiaddr ++ [54; 4] ++ le32 (o_server_id o) ++ [0xFF]))
      else if o_msg_type o =? DHCP_ACK then
        yiaddr ← rd (rd32 data off_yiaddr);
        nset (with_interfaces (alter (set_address yiaddr (o_subnet_mask o) (o_gateway o)) i));;
        nset (with_dhcp_completed (λ _, true))
      else mret tt
  end.

Definition run_callback (cb : udp_callback) (data : list Z) (len : Z) : M state unit :=
  match cb with
  | ntp_callback => on_ntp_response data len
  | dns_callback => on_dns_response data len
  | dhcp_handle_response => on_dhcp_response data len
  end.

Definition handle_udp (packet : list Z) (ip_hdr_len : Z) : M state unit :=
  let udp := sizeof_ethernet_header + ip_hdr_len in
  src ← rd (rd16 packet udp);
  dest ← rd (rd16 packet (udp + 2));
  ulen ← rd (rd16 packet (udp + 4));
  let len := u16 (HTONS ulen - sizeof_udp_header) in
  let payload := drop (Z.to_nat (udp + sizeof_udp_header)) packet in
  if HTONS ulen <? sizeof_udp_header then mret tt else
  l ← nget udp_sockets;
  match udp_find (HTONS dest) l with
  | Some u => match us_callback u with Some cb => run_callback cb payload len | None => mret tt end
  | None =>
      src_ip ← rd (rd32 packet (sizeof_ethernet_header + 12));
      sock_udp_deliver (HTONS dest) (HTONL src_ip) (HTONS src) payload len;;
      mret tt
  end.

(** [n]: how often the loop goes round before the deadline. *)
Fixpoint dhcp_wait (n : nat) : M state unit :=
  match n with
  | O => mret tt
  | S n' => c ← nget dhcp_completed; if c : bool then mret tt else rtl8139_poll;; dhcp_wait n'
  end.

Definition dhcp_discover (rounds : nat) (iface : option nat) : M state bool :=
  match iface with
  | None => mret false
  | Some i =>
      udp_bind DHCP_CLIENT_PORT dhcp_handle_response;;
      nset (with_dhcp_completed (λ _, false));;
      f ← iface_get i;
      udp_send_packet iface 0xFFFFFFFF DHCP_CLIENT_PORT DHCP_SERVER_PORT
        (dhcp_message (if_mac f) [53; 1; DHCP_DISCOVER; 55; 3; 1; 3; 6; 0xFF]);;
      dhcp_wait rounds;;
      nget dhcp_completed
  end.

End Udp.

End Udp.
