(* ===== verification/Socket.v ===== *)
(** * The socket calls ([net/socket.c])

    A blocking call is cut where it gives up the processor: [Sleeping] is the
    state of a task inside [sock_wait_tick], and the matching [_resume]
    definition goes on behind it. *)
From S2P Require Import Prelude Sched Net SockRx Tcp Udp.

Module Socket.
Import Net SockRx Tcp Udp.

Definition S_EAGAIN : Z := 11.
Definition S_ENOMEM : Z := 12.
Definition S_EINVAL : Z := 22.
Definition S_EPIPE : Z := 32.
Definition S_EBADF : Z := 9.
Definition S_EDESTADDRREQ : Z := 89.
Definition S_EMSGSIZE : Z := 90.
Definition S_ENOPROTOOPT : Z := 92.
Definition S_EADDRINUSE : Z := 98.
Definition S_ENETDOWN : Z := 100.
Definition S_ENOBUFS : Z := 105.
Definition S_EISCONN : Z := 106.
Definition S_ENOTCONN : Z := 107.
Definition S_EALREADY : Z := 114.
Definition S_EINPROGRESS : Z := 115.
Definition SOCK_UDP_MAX_PAYLOAD : Z := 1472.
Definition SOCK_MSG_PEEK : Z := 2.
Definition SOCK_MSG_DONTWAIT : Z := 64.
Definition SOCK_POLLIN : Z := 1.
Definition SOCK_POLLOUT : Z := 4.
Definition SOCK_POLLERR : Z := 8.
Definition SOCK_POLLHUP : Z := 16.
Definition SOCK_POLLRDHUP : Z := 0x2000.
Definition UDP_EPHEMERAL_FIRST : Z := 32768.
Definition UDP_EPHEMERAL_LAST : Z := 48999.
Definition SOL_SOCKET_LVL : Z := 1.
Definition IPPROTO_TCP_LVL : Z := 6.
Definition SO_TYPE_OPT : Z := 3.
Definition SO_ERROR_OPT : Z := 4.
Definition SO_SNDBUF_OPT : Z := 7.
Definition SO_RCVBUF_OPT : Z := 8.
Definition SO_RCVTIMEO_OPT : Z := 20.
Definition SO_SNDTIMEO_OPT : Z := 21.

(** [Done r]: the call returned; [Sleeping]: it waits for the next tick. *)
Inductive result (A : Type) := Done (a : A) | Sleeping.
Arguments Done {A} a.
Arguments Sleeping {A}.

(** What [sock_recvfrom] hands back: the return value, the bytes, the sender. *)
Record received := mk_recv { rv_ret : Z; rv_data : list Z; rv_from : option (Z * Z) }.

Definition recv_error (e : Z) : received := mk_recv (- e) [] None.

Definition sock_get (id : Z) : M state (option nat) :=
  if (id <? 0) || (Z.of_nat SOCK_MAX <=? id) then mret None else
  e ← sock_load (Z.to_nat id);
  mret (if bool_decide (se_state e = SOCK_FREE) then None else Some (Z.to_nat id)).

Definition deadline_passed (start timeout_ms : Z) : M state bool :=
  t ← nget tick;
  mret (if timeout_ms =? 0 then false else timeout_ms <=? u32 (u32 (t - start) * (1000 / TIMER_HZ))).

Definition sock_create (type : Z) : M state Z :=
  if negb (type =? SOCK_TYPE_STREAM) && negb (type =? SOCK_TYPE_DGRAM) then mret (- S_EINVAL) else
  l ← nget sockets;
  match find_sock (λ e, bool_decide (se_state e = SOCK_FREE)) l 0 with
  | Some i =>
      sock_store i (λ _, set_type (λ _, type) (set_state (λ _, SOCK_IDLE) zero_sock));;
      mret (Z.of_nat i)
  | None => mret (- S_ENOBUFS)
  end.

Definition sock_type (id : Z) : M state Z :=
  i ← sock_get id;
  match i with Some i => e ← sock_load i; mret (se_type e) | None => mret (- S_EBADF) end.

Definition sock_rx_available (id : Z) : M state Z :=
  i ← sock_get id;
  match i with
  | None => mret 0
  | Some i =>
      e ← sock_load i;
      mret (if se_type e =? SOCK_TYPE_DGRAM then
              match se_dq e with d :: _ => Z.of_nat (length (dg_data d)) | [] => 0 end
            else match se_rx_ring e with Some _ => ring_used e | None => 0 end)
  end.

Definition udp_port_in_use (port : Z) (l : list socket_entry) : bool :=
  existsb (λ e, negb (bool_decide (se_state e = SOCK_FREE)) && (se_type e =? SOCK_TYPE_DGRAM) && (se_local_port e =? port)) l.

Fixpoint udp_port_loop (tries : nat) : M state Z :=
  match tries with
  | O => mret 0
  | S tries' =>
      port ← nget next_udp_port;
      nset (with_next_udp_port (λ _, if UDP_EPHEMERAL_LAST <=? port then UDP_EPHEMERAL_FIRST else u16 (port + 1)));;
      used ← nget (λ n, udp_port_in_use port (sockets n));
      if negb used then mret port else udp_port_loop tries'
  end.

Definition udp_alloc_port : M state Z := udp_port_loop (Z.to_nat (UDP_EPHEMERAL_LAST - UDP_EPHEMERAL_FIRST + 1)).

Definition sock_bind (id ip port : Z) : M state Z :=
  i ← sock_get id;
  match i with
  | None => mret (- S_EBADF)
  | Some i =>
      e ← sock_load i;
      if negb (se_local_port e =? 0) then mret (- S_EINVAL) else
      if se_type e =? SOCK_TYPE_DGRAM then
        if port =? 0 then
          p ← udp_alloc_port;
          if p =? 0 then mret (- S_EADDRINUSE) else
          sock_store i (set_local_port (λ _, p));; mret 0
        else
          used ← nget (λ n, udp_port_in_use port (sockets n));
          if used : bool then mret (- S_EADDRINUSE) else
          sock_store i (set_local_port (λ _, port));; mret 0
      else sock_store i (set_local_port (λ _, port));; mret 0
  end.

(** A local port for a datagram socket that has none; false when all are taken. *)
Definition udp_autobind (i : nat) : M state bool :=
  e ← sock_load i;
  if negb (se_local_port e =? 0) then mret true else
  p ← udp_alloc_port;
  sock_store i (set_local_port (λ _, p));;
  mret (negb (p =? 0)).

Section Socket.
  Context (rtl8139_poll : M state unit).
  Context (current_task : option Z).

(** [sock_wait_tick] up to [sched_yield], and behind it. *)
Definition sock_wait_tick : M state unit :=
  rtl8139_poll;;
  match current_task with
  | None => mret tt
  | Some _ =>
      lift_r Sched.io_wait_prepare;;
      t ← nget tick;
      lift_r (Sched.sched_make_sleep current_task (u32 (t + 2)))
  end.

Definition sock_wait_end : M state unit :=
  match current_task with None => mret tt | Some _ => lift_r Sched.io_wait_done end.

(** [while (e->state == SOCK_STATE_CONNECTING) sock_wait_tick();] and the result. *)
Definition connect_wait (i : nat) : M state (result Z) :=
  e ← sock_load i;
  match se_state e with
  | SOCK_CONNECTING => sock_wait_tick;; mret Sleeping
  | SOCK_CONNECTED => mret (Done 0)
  | _ =>
      let err := if se_err e =? 0 then S_ECONNREFUSED else se_err e in
      sock_store i (set_err (λ _, 0));;
      mret (Done (- err))
  end.

Definition connect_resume (i : nat) : M state (result Z) := sock_wait_end;; connect_wait i.

(** The stream branch of [sock_connect]. *)
Definition connect_stream (i : nat) (ip port : Z) (nonblock : bool) : M state (result Z) :=
  e ← sock_load i;
  match se_state e with
  | SOCK_CONNECTING => mret (Done (- S_EALREADY))
  | SOCK_CONNECTED => mret (Done (- S_EISCONN))
  | SOCK_CLOSED =>
      sock_store i (set_err (λ _, 0));;
      mret (Done (if se_err e =? 0 then - S_EISCONN else - se_err e))
  | _ =>
      iface ← net_get_primary_interface;
      match iface with
      | None => mret (Done (- S_ENETDOWN))
      | Some _ =>
          ok ← match se_rx_ring e with
               | Some _ => mret true
               | None =>
                   ok ← kmalloc SOCK_RX_RING_SIZE;
                   (when (ok : bool) do sock_store i (λ e, set_rx_ring (λ _, Some ∅) (set_rx_head (λ _, 0) (set_rx_tail (λ _, 0) e))));;
                   mret ok
               end;
          if negb ok then mret (Done (- S_ENOMEM)) else
          sock_store i (set_remote_ip (λ _, ip));;
          sock_store i (set_remote_port (λ _, port));;
          sock_store i (set_err (λ _, 0));;
          sock_store i (set_peer_closed (λ _, false));;
          sock_store i (set_state (λ _, SOCK_CONNECTING));;
          c ← tcp_connect rtl8139_poll iface ip port i;
          sock_store i (set_tcb (λ _, c));;
          match c with
          | None => sock_store i (set_state (λ _, SOCK_IDLE));; mret (Done (- S_ENOBUFS))
          | Some c =>
              t ← tcb_load c;
              sock_store i (set_local_port (λ _, c_local_port t));;
              if nonblock then mret (Done (- S_EINPROGRESS)) else connect_wait i
          end
      end
  end.

Definition sock_connect (id ip port : Z) (nonblock : bool) : M state (result Z) :=
  i ← sock_get id;
  match i with
  | None => mret (Done (- S_EBADF))
  | Some i =>
      e ← sock_load i;
      if se_type e =? SOCK_TYPE_DGRAM then
        ok ← udp_autobind i;
        if negb ok then mret (Done (- S_EADDRINUSE)) else
        sock_store i (set_remote_ip (λ _, ip));;
        sock_store i (set_remote_port (λ _, port));;
        sock_store i (set_state (λ _, if negb (ip =? 0) || negb (port =? 0) then SOCK_CONNECTED else SOCK_IDLE));;
        mret (Done 0)
      else connect_stream i ip port nonblock
  end.

Definition udp_sendto (i : nat) (buf : list Z) (dest : option (Z * Z)) : M state Z :=
  e ← sock_load i;
  match (match dest with
         | Some d => Some d
         | None => if bool_decide (se_state e = SOCK_CONNECTED) then Some (se_remote_ip e, se_remote_port e) else None
         end) with
  | None => mret (- S_EDESTADDRREQ)
  | Some (dst_ip, dst_port) =>
      if SOCK_UDP_MAX_PAYLOAD <? Z.of_nat (length buf) then mret (- S_EMSGSIZE) else
      ok ← udp_autobind i;
      if negb ok then mret (- S_EADDRINUSE) else
      iface ← net_get_primary_interface;
      match iface with
      | None => mret (- S_ENETDOWN)
      | Some _ =>
          e ← sock_load i;
          udp_send_packet rtl8139_poll iface dst_ip (se_local_port e) dst_port buf;;
          mret (Z.of_nat (length buf))
      end
  end.

(** The sending loop of a stream socket; [sent] bytes of [buf] are queued.
    [None]: the caller has to sleep. *)
Definition send_loop (i : nat) (buf : list Z) (sent start : Z) (nonblock : bool) : M state (result Z * Z) :=
  let len := Z.of_nat (length buf) in
  let finish sent := mret (Done (if (sent =? 0) && (0 <? len) then - S_EAGAIN else sent), sent) in
  if len <=? sent then finish sent else
  e ← sock_load i;
  if bool_decide (se_tcb e = None) || negb (bool_decide (se_state e = SOCK_CONNECTED)) then
    if negb (sent =? 0) then finish sent else
    let err := if se_err e =? 0 then S_EPIPE else se_err e in
    sock_store i (set_err (λ _, 0));;
    mret (Done (- err), sent)
  else
    n ← tcp_write rtl8139_poll (se_tcb e) (drop (Z.to_nat sent) buf);
    let sent := sent + n in
    if sent =? len then finish sent else
    e ← sock_load i;
    late ← deadline_passed start (se_snd_timeout_ms e);
    if nonblock || late then finish sent else
    sock_wait_tick;;
    mret (Sleeping, sent).

Definition send_resume (i : nat) (buf : list Z) (sent start : Z) : M state (result Z * Z) :=
  sock_wait_end;; send_loop i buf sent start false.

(** [while (e->state == SOCK_STATE_CONNECTING)]: the result is [Sleeping]
    with nothing sent, or the loop above. *)
Definition send_connecting (i : nat) (buf : list Z) (start : Z) (nonblock : bool) : M state (result Z * Z) :=
  e ← sock_load i;
  match se_state e with
  | SOCK_CONNECTING =>
      if nonblock then mret (Done (- S_EAGAIN), 0) else
      sock_wait_tick;; mret (Sleeping, 0)
  | SOCK_CONNECTED =>
      if bool_decide (se_tcb e = None) then mret (Done (- S_EPIPE), 0) else send_loop i buf 0 start nonblock
  | SOCK_IDLE => mret (Done (- S_ENOTCONN), 0)
  | _ => mret (Done (- S_EPIPE), 0)
  end.

Definition send_connecting_resume (i : nat) (buf : list Z) (start : Z) : M state (result Z * Z) :=
  sock_wait_end;; send_connecting i buf start false.

Definition sock_sendto (id : Z) (buf : list Z) (dest : option (Z * Z)) (nonblock : bool) : M state (result Z * Z) :=
  i ← sock_get id;
  match i with
  | None => mret (Done (- S_EBADF), 0)
  | Some i =>
      e ← sock_load i;
      if se_type e =? SOCK_TYPE_DGRAM then r ← udp_sendto i buf dest; mret (Done r, 0)
      else if negb (se_err e =? 0) then
        sock_store i (set_err (λ _, 0));; mret (Done (- se_err e), 0)
      else if se_shut_wr e then mret (Done (- S_EPIPE), 0)
      else start ← nget tick; send_connecting i buf start nonblock
  end.

(** [udp_recvfrom] from the head of its loop on. *)
Definition udp_recv_loop (i : nat) (len flags start : Z) (nonblock : bool) : M state (result received) :=
  e ← sock_load i;
  match se_dq e with
  | [] =>
      if nonblock || has flags SOCK_MSG_DONTWAIT then mret (Done (recv_error S_EAGAIN)) else
      late ← deadline_passed start (se_rcv_timeout_ms e);
      if late : bool then mret (Done (recv_error S_EAGAIN)) else
      sock_wait_tick;;
      mret Sleeping
  | d :: q =>
      let dlen := Z.of_nat (length (dg_data d)) in
      let n := if dlen <? len then dlen else len in
      (when negb (has flags SOCK_MSG_PEEK) do sock_store i (set_dq (λ _, q)));;
      mret (Done (mk_recv n (take (Z.to_nat n) (dg_data d)) (Some (dg_src_ip d, dg_src_port d))))
  end.

Definition udp_recv_resume (i : nat) (len flags start : Z) : M state (result received) :=
  sock_wait_end;; udp_recv_loop i len flags start false.

Definition udp_recvfrom (i : nat) (len flags : Z) (nonblock : bool) : M state (result received) :=
  start ← nget tick; udp_recv_loop i len flags start nonblock.

(** One round of the receiving loop of a stream socket. *)
Definition recv_loop (i : nat) (len start : Z) (peek nonblock : bool) : M state (result received) :=
  e ← sock_load i;
  if bool_decide (is_Some (se_rx_ring e)) && (0 <? ring_used e) then
    out ← ring_pop i len peek;
    (when negb peek do tcp_window_update rtl8139_poll (se_tcb e));;
    e ← sock_load i;
    mret (Done (mk_recv (Z.of_nat (length out)) out (Some (se_remote_ip e, se_remote_port e))))
  else if negb (se_err e =? 0) then
    sock_store i (set_err (λ _, 0));; mret (Done (recv_error (se_err e)))
  else if se_peer_closed e || se_shut_rd e then mret (Done (mk_recv 0 [] None))
  else if bool_decide (se_state e = SOCK_IDLE) then mret (Done (recv_error S_ENOTCONN))
  else if bool_decide (se_state e = SOCK_CLOSED) then mret (Done (mk_recv 0 [] None))
  else if nonblock then mret (Done (recv_error S_EAGAIN))
  else
    late ← deadline_passed start (se_rcv_timeout_ms e);
    if late : bool then mret (Done (recv_error S_EAGAIN)) else
    sock_wait_tick;;
    mret Sleeping.

Definition recv_resume (i : nat) (len start : Z) (peek : bool) : M state (result received) :=
  sock_wait_end;; recv_loop i len start peek false.

Definition sock_recvfrom (id len flags : Z) (nonblock : bool) : M state (result received) :=
  i ← sock_get id;
  match i with
  | None => mret (Done (recv_error S_EBADF))
  | Some i =>
      e ← sock_load i;
      if se_type e =? SOCK_TYPE_DGRAM then udp_recvfrom i len flags nonblock
      else
        start ← nget tick;
        recv_loop i len start (has flags SOCK_MSG_PEEK) (nonblock || has flags SOCK_MSG_DONTWAIT)
  end.

Definition sock_poll (id : Z) : M state Z :=
  i ← sock_get id;
  match i with
  | None => mret SOCK_POLLERR
  | Some i =>
      e ← sock_load i;
      if se_type e =? SOCK_TYPE_DGRAM then
        mret (Z.lor (match se_dq e with [] => 0 | _ => SOCK_POLLIN end) SOCK_POLLOUT)
      else
        space ← tcp_send_space (se_tcb e);
        let readable := bool_decide (is_Some (se_rx_ring e)) && (0 <? ring_used e) in
        let ev := match se_state e with
                  | SOCK_IDLE => Z.lor SOCK_POLLOUT SOCK_POLLHUP
                  | SOCK_CONNECTED =>
                      Z.lor (Z.lor (if readable then SOCK_POLLIN else 0)
                                   (if se_peer_closed e then Z.lor SOCK_POLLIN SOCK_POLLRDHUP else 0))
                            (if (0 <? space) && negb (se_shut_wr e) then SOCK_POLLOUT else 0)
                  | SOCK_CLOSED => Z.lor (Z.lor (Z.lor SOCK_POLLIN SOCK_POLLHUP) SOCK_POLLRDHUP) (if readable then SOCK_POLLIN else 0)
                  | _ => 0
                  end in
        mret (if se_err e =? 0 then ev else Z.lor ev (Z.lor SOCK_POLLERR SOCK_POLLOUT))
  end.

(** [tv]: the two words of a [struct timeval], when [val] is not NULL. *)
Definition sock_setsockopt (id level optname : Z) (tv : option (Z * Z)) (len : Z) : M state Z :=
  i ← sock_get id;
  match i with
  | None => mret (- S_EBADF)
  | Some i =>
      if (level =? SOL_SOCKET_LVL) && ((optname =? SO_RCVTIMEO_OPT) || (optname =? SO_SNDTIMEO_OPT)) then
        match tv with
        | None => mret (- S_EINVAL)
        | Some (tv_sec, tv_usec) =>
            if len <? 16 then mret (- S_EINVAL) else
            let ms := u32 (tv_sec * 1000 + Z.quot tv_usec 1000) in
            (if optname =? SO_RCVTIMEO_OPT then sock_store i (set_rcv_timeout_ms (λ _, ms))
             else sock_store i (set_snd_timeout_ms (λ _, ms)));;
            mret 0
        end
      else mret (if (level =? SOL_SOCKET_LVL) || (level =? IPPROTO_TCP_LVL) || (level =? 0) then 0 else - S_ENOPROTOOPT)
  end.

(** [len]: [*len], when neither pointer is NULL.  The second result is the
    value stored at [val]. *)
Definition sock_getsockopt (id level optname : Z) (len : option Z) : M state (Z * option Z) :=
  i ← sock_get id;
  match i with
  | None => mret (- S_EBADF, None)
  | Some i =>
      if match len with Some l => l <? 4 | None => true end then mret (- S_EINVAL, None) else
      e ← sock_load i;
      if level =? SOL_SOCKET_LVL then
        if optname =? SO_ERROR_OPT then sock_store i (set_err (λ _, 0));; mret (0, Some (se_err e))
        else if optname =? SO_TYPE_OPT then mret (0, Some (se_type e))
        else if optname =? SO_RCVBUF_OPT then mret (0, Some SOCK_RX_RING_SIZE)
        else if optname =? SO_SNDBUF_OPT then mret (0, Some TCP_TX_BUF_SIZE)
        else mret (0, Some 0)
      else if level =? IPPROTO_TCP_LVL then mret (0, Some 0)
      else mret (- S_ENOPROTOOPT, None)
  end.

Definition sock_getname (id : Z) (peer : bool) : M state (Z * option (Z * Z)) :=
  i ← sock_get id;
  match i with
  | None => mret (- S_EBADF, None)
  | Some i =>
      e ← sock_load i;
      if peer then
        mret (if negb (bool_decide (se_state e = SOCK_CONNECTED)) && negb (bool_decide (se_state e = SOCK_CONNECTING)) &&
                 negb ((se_type e =? SOCK_TYPE_STREAM) && bool_decide (se_state e = SOCK_CLOSED) && negb (se_remote_port e =? 0))
              then (- S_ENOTCONN, None)
              else (0, Some (se_remote_ip e, se_remote_port e)))
      else
        iface ← net_get_primary_interface;
        ip ← match iface with
             | Some f => f ← iface_get f;
                 mret (if negb (se_local_port e =? 0) || negb (bool_decide (se_state e = SOCK_IDLE)) then if_ip f else 0)
             | None => mret 0
             end;
        mret (0, Some (ip, se_local_port e))
  end.

Definition sock_shutdown (id how : Z) : M state Z :=
  i ← sock_get id;
  match i with
  | None => mret (- S_EBADF)
  | Some i =>
      if (how <? 0) || (2 <? how) then mret (- S_EINVAL) else
      e ← sock_load i;
      if (se_type e =? SOCK_TYPE_STREAM) && negb (bool_decide (se_state e = SOCK_CONNECTED)) &&
         negb (bool_decide (se_state e = SOCK_CLOSED)) then mret (- S_ENOTCONN) else
      (when (how =? 0) || (how =? 2) do sock_store i (set_shut_rd (λ _, true)));;
      (when ((how =? 1) || (how =? 2)) && negb (se_shut_wr e) do
         (sock_store i (set_shut_wr (λ _, true));; tcp_shutdown rtl8139_poll (se_tcb e)));;
      mret 0
  end.

Definition sock_close (id : Z) : M state Z :=
  i ← sock_get id;
  match i with
  | None => mret (- S_EBADF)
  | Some i =>
      e ← sock_load i;
      match se_tcb e with
      | Some _ =>
          sock_store i (set_tcb (λ _, None));;
          if bool_decide (is_Some (se_rx_ring e)) && (0 <? ring_used e)
          then tcp_abort rtl8139_poll (se_tcb e)
          else tcp_close rtl8139_poll (se_tcb e)
      | None => mret tt
      end;;
      sock_store i (λ _, zero_sock);;
      mret 0
  end.

End Socket.

End Socket.
