(* ===== verification/NetDriver.v ===== *)
(** * Packets in and out ([net/ipv4.c], [net/net.c], [drivers/net/rtl8139.c])

    [rtl8139_poll] hands every frame in the card's ring to the stack.  The
    stack may send, and sending may poll again; the driver's [polling] flag
    makes that inner poll return at once, so the frames of a poll are handled
    by the layers with an inner poll that does nothing, and every other caller
    gets the whole [rtl8139_poll]. *)
From S2P Require Import Prelude Sched Net SockRx Tcp Udp.

Module NetDriver.
Import Net SockRx Tcp Udp.

Section Handle.
  Context (rtl8139_poll : M state unit).

Definition handle_ipv4 (i : nat) (packet : list Z) : M state unit :=
  version_ihl ← rd (rd8 packet sizeof_ethernet_header);
  proto ← rd (rd8 packet (sizeof_ethernet_header + 9));
  let ip_hdr_len := Z.land version_ihl 0x0F * 4 in
  if proto =? 1 then handle_icmp rtl8139_poll i packet ip_hdr_len
  else if proto =? 17 then handle_udp rtl8139_poll packet ip_hdr_len
  else if proto =? 6 then handle_tcp rtl8139_poll packet ip_hdr_len
  else mret tt.

Definition net_handle_packet (i : nat) (packet : list Z) : M state unit :=
  ethertype ← rd (rd16 packet 12);
  let type := HTONS ethertype in
  if type =? 0x0806 then handle_arp i packet
  else if type =? 0x0800 then handle_ipv4 i packet
  else mret tt.

End Handle.

(** A poll while the [polling] flag is set. *)
Definition nested_poll : M state unit := mret tt.

(** The frames in the ring, each with the status and length words in front of
    it; a header that makes no sense resets the ring and loses the rest. *)
Fixpoint rx_loop (frames : list (Z * Z * list Z)) : M state unit :=
  match frames with
  | [] => mret tt
  | (status, length, packet) :: frames' =>
      if negb (has status 1) || (length <? 20) || (1518 + 4 <? length) then mret tt else
      net_handle_packet nested_poll 0 packet;;
      rx_loop frames'
  end.

Definition rtl8139_poll : M state unit :=
  init ← nget rtl_initialized;
  if negb init then mret tt else
  w ← nget wire;
  match w with
  | [] => mret tt
  | frames :: w' => nset (with_wire (λ _, w'));; rx_loop frames
  end.

End NetDriver.
