(* ===== verification/NetSpec.v ===== *)
(** * Lower network layers: byte order, checksum, sending

    [HTONS] and [HTONL] are involutions that turn the processor's byte order
    into the network's; the checksum loop is the one's-complement sum of RFC
    1071; a packet for a host whose hardware address is known leaves as one
    frame. *)
From S2P Require Import Prelude Bits Sched SchedSpec Blocking Net.

Module NetSpec.
Import Net.

(** ** Byte order *)

Lemma lor_shiftl_add a b n : 0 ≤ n → 0 ≤ a < 2 ^ n → Z.lor a (Z.shiftl b n) = a + b * 2 ^ n.
Proof.
  intros Hn Ha. rewrite <-Z.shiftl_mul_pow2 by done. symmetry. apply Z.add_nocarry_lor. apply Z.bits_inj'. intros k Hk.
  rewrite Z.land_spec, Z.shiftl_spec, Z.bits_0 by done. destruct (Z.ltb_spec k n).
  - rewrite (Z.testbit_neg_r b) by lia. apply andb_false_r.
  - by rewrite (testbit_small a n) by done.
Qed.

Lemma HTONS_spec x : HTONS x = u16 x / 256 + 256 * (x mod 256).
Proof.
  unfold HTONS. change 0xFF00 with (Z.shiftl (Z.ones 8) 8). rewrite Z.shiftr_land, Z.shiftr_shiftl_l by lia.
  change 0x00FF with (Z.ones 8). rewrite !Z.land_ones by lia. change (8 - 8) with 0. rewrite Z.shiftl_0_r, Z.land_ones by lia.
  rewrite Z.shiftr_div_pow2 by lia. change (2 ^ 8) with 256. rewrite lor_shiftl_add by (try apply (Z.mod_pos_bound _ 256); lia).
  unfold wrap. change (2 ^ 16) with (256 * 256). change (2 ^ 8) with 256.
  rewrite (Z.mod_small (x mod (256 * 256) / 256)).
  - rewrite Z.rem_mul_r by lia. rewrite <-Z.add_mod_idemp_r, Z.mul_comm, Z.mod_mul, Z.add_0_r, Z.mod_mod by lia. lia.
  - pose proof (Z.mod_pos_bound x (256 * 256)). split; [apply Z.div_pos; lia|apply Z.div_lt_upper_bound; lia].
Qed.

Lemma HTONS_range x : 0 ≤ HTONS x < 65536.
Proof.
  rewrite HTONS_spec. pose proof (Z.mod_pos_bound x 256). pose proof (wrap_range 16 x).
  assert (0 ≤ u16 x / 256 < 256) by (split; [apply Z.div_pos|apply Z.div_lt_upper_bound]; lia). lia.
Qed.

Definition byte (b : Z) : Prop := 0 ≤ b < 256.

Lemma HTONS_bytes b0 b1 : byte b0 → byte b1 → HTONS (b0 + 256 * b1) = b1 + 256 * b0.
Proof.
  unfold byte. intros. rewrite HTONS_spec. rewrite wrap_small by lia.
  rewrite (Z.mul_comm 256 b1), Z.div_add, Z.div_small, Z_mod_plus_full, Z.mod_small by lia. lia.
Qed.

Lemma le16_bytes x : 0 ≤ x < 65536 → byte (x mod 256) ∧ byte (x / 256 mod 256) ∧ x = x mod 256 + 256 * (x / 256 mod 256).
Proof.
  intros Hx. unfold byte. assert (0 ≤ x / 256 < 256) by (split; [apply Z.div_pos|apply Z.div_lt_upper_bound]; lia).
  rewrite (Z.mod_small (x / 256)) by lia. pose proof (Z.mod_pos_bound x 256). pose proof (Z.div_mod x 256). lia.
Qed.

Lemma HTONS_involutive x : 0 ≤ x < 65536 → HTONS (HTONS x) = x.
Proof.
  intros Hx. destruct (le16_bytes x Hx) as (H0 & H1 & E). rewrite E at 1. by rewrite !HTONS_bytes.
Qed.

Lemma HTONL_bytes b0 b1 b2 b3 : byte b0 → byte b1 → byte b2 → byte b3 →
  HTONL (b0 + 256 * b1 + 65536 * b2 + 16777216 * b3) = b3 + 256 * b2 + 65536 * b1 + 16777216 * b0.
Proof.
  unfold byte. intros H0 H1 H2 H3. set (x := b0 + _ + _ + _). unfold HTONL. rewrite (wrap_small 32 x) by (unfold x; lia).
  assert (∀ k, 0 ≤ k → Z.land x (Z.shiftl (Z.ones 8) k) = Z.shiftl (x / 2 ^ k mod 256) k) as Hm.
  { intros k Hk. change 256 with (2 ^ 8). rewrite <-(Z.land_ones (x / 2 ^ k) 8), <-Z.shiftr_div_pow2 by lia. apply Z.bits_inj'. intros n Hn.
    rewrite Z.land_spec, !Z.shiftl_spec by done. destruct (Z.ltb_spec n k).
    - rewrite !(Z.testbit_neg_r _ (n - k)) by lia. apply andb_false_r.
    - rewrite Z.land_spec, Z.shiftr_spec by lia. by replace (n - k + k) with n by lia. }
  change 0xFF000000 with (Z.shiftl (Z.ones 8) 24). change 0x00FF0000 with (Z.shiftl (Z.ones 8) 16).
  change 0x0000FF00 with (Z.shiftl (Z.ones 8) 8). change 0x000000FF with (Z.shiftl (Z.ones 8) 0).
  rewrite !Hm by lia. assert (x / 2 ^ 24 mod 256 = b3 ∧ x / 2 ^ 16 mod 256 = b2 ∧ x / 2 ^ 8 mod 256 = b1 ∧ x / 2 ^ 0 mod 256 = b0) as (-> & -> & -> & ->).
  { unfold x. change (2 ^ 24) with 16777216. change (2 ^ 16) with 65536. change (2 ^ 8) with 256. change (2 ^ 0) with 1. clear Hm. Z.div_mod_to_equations. lia. }
  rewrite !Z.shiftr_shiftl_l by lia. rewrite !Z.shiftl_mul_pow2 by lia. change (24 - 24) with 0. change (16 - 8) with 8.
  rewrite !wrap_small by lia.
  assert (∀ a b k, 0 ≤ k → 0 ≤ a < 2 ^ k → Z.lor a (b * 2 ^ k) = a + b * 2 ^ k) as Hlor.
  { intros a b k Hk Ha. rewrite <-(lor_shiftl_add a b k), Z.shiftl_mul_pow2 by lia. done. }
  rewrite (Hlor (b3 * 2 ^ 0) b2 8) by lia. replace (b1 * 2 ^ 8 * 2 ^ 8) with (b1 * 2 ^ 16) by lia.
  rewrite (Hlor _ b1 16) by lia. replace (b0 * 2 ^ 0 * 2 ^ 24) with (b0 * 2 ^ 24) by lia. rewrite (Hlor _ b0 24) by lia. lia.
Qed.

Lemma le32_bytes x : 0 ≤ x < 2 ^ 32 → byte (x mod 256) ∧ byte (x / 256 mod 256) ∧ byte (x / 65536 mod 256) ∧
  byte (x / 16777216 mod 256) ∧ x = x mod 256 + 256 * (x / 256 mod 256) + 65536 * (x / 65536 mod 256) + 16777216 * (x / 16777216 mod 256).
Proof. intros Hx. unfold byte. change (2 ^ 32) with 4294967296 in Hx. Z.div_mod_to_equations. lia. Qed.

Lemma HTONL_involutive x : 0 ≤ x < 2 ^ 32 → HTONL (HTONL x) = x.
Proof.
  intros Hx. destruct (le32_bytes x Hx) as (H0 & H1 & H2 & H3 & E). rewrite E at 1. by rewrite !HTONL_bytes.
Qed.

Lemma HTONL_range x : 0 ≤ x < 2 ^ 32 → 0 ≤ HTONL x < 2 ^ 32.
Proof.
  intros Hx. destruct (le32_bytes x Hx) as (H0 & H1 & H2 & H3 & E). rewrite E, HTONL_bytes by done. unfold byte in *. lia.
Qed.

(** Reading back a field. *)
Lemma le16_get x : 0 ≤ x < 65536 → x mod 256 + 256 * (x / 256 mod 256) = x.
Proof. intros Hx. symmetry. by apply le16_bytes. Qed.

Lemma le32_get x : 0 ≤ x < 2 ^ 32 →
  x mod 256 + 256 * (x / 256 mod 256) + 65536 * (x / 65536 mod 256) + 16777216 * (x / 16777216 mod 256) = x.
Proof. intros Hx. symmetry. by apply le32_bytes. Qed.

(** ** The checksum *)

Fixpoint word_sum (l : list Z) : Z :=
  match l with
  | b0 :: b1 :: l' => b0 + 256 * b1 + word_sum l'
  | [b0] => b0
  | [] => 0
  end.

(** The one's-complement sum of RFC 1071: a carry out of the 16 bits is added
    back in at once. *)
Definition oc_add (a b : Z) : Z := if a + b <? 65536 then a + b else a + b - 65535.

Fixpoint oc_sum (acc : Z) (l : list Z) : Z :=
  match l with
  | b0 :: b1 :: l' => oc_sum (oc_add acc (b0 + 256 * b1)) l'
  | [b0] => oc_add acc b0
  | [] => acc
  end.

(** Induction two bytes at a time. *)
Lemma pair_ind (P : list Z → Prop) : P [] → (∀ b, P [b]) → (∀ b0 b1 l, P l → P (b0 :: b1 :: l)) → ∀ l, P l.
Proof.
  intros H0 H1 H2 l. assert (P l ∧ ∀ b, P (b :: l)) as [? _]; [|done].
  induction l as [|b l [IH1 IH2]]; [eauto|]. split; [apply IH2|]. intros b'. by apply H2.
Qed.

Lemma word_sum_range l : Forall byte l → 0 ≤ word_sum l ≤ 65535 * Z.of_nat (length l).
Proof.
  induction l as [|b|b0 b1 l IH] using pair_ind; intros Hl; [simpl; lia| |].
  - apply Forall_cons in Hl as [Hb _]. unfold byte in Hb. simpl. lia.
  - apply Forall_cons in Hl as [H0 [H1 Hl]%Forall_cons]. specialize (IH Hl). unfold byte in *. cbn [word_sum length]. lia.
Qed.

Lemma sum_words_spec l s : 0 ≤ s < 2 ^ 32 → sum_words l s = u32 (s + word_sum l).
Proof.
  revert s. induction l as [|b|b0 b1 l IH] using pair_ind; intros s Hs; cbn [sum_words word_sum].
  - by rewrite Z.add_0_r, wrap_small.
  - done.
  - rewrite IH by (apply wrap_range; lia). rewrite wrap_add_l. f_equal. lia.
Qed.

(** Equal modulo 65535 and nonzero together: the same one's-complement value. *)
Definition same_oc (y x : Z) : Prop := 0 ≤ y ≤ 65535 ∧ y mod 65535 = x mod 65535 ∧ (y = 0 ↔ x = 0).

Lemma same_oc_unique y y' x : same_oc y x → same_oc y' x → y = y'.
Proof. intros (H1 & H2 & H3) (H1' & H2' & H3'). Z.div_mod_to_equations. lia. Qed.

Lemma fold_carry_spec x : 0 ≤ x < 2 ^ 32 → same_oc (fold_carry 16 x) x.
Proof.
  intros Hx. change (2 ^ 32) with 4294967296 in Hx. assert (∀ z, 0 ≤ z < 4294967296 → u32 (Z.land z 0xFFFF + Z.shiftr z 16) = z mod 65536 + z / 65536) as Hstep.
  { intros z Hz. change 0xFFFF with (Z.ones 16). rewrite Z.land_ones, Z.shiftr_div_pow2 by lia. change (2 ^ 16) with 65536.
    apply wrap_small. Z.div_mod_to_equations. lia. }
  assert (∀ n z, 0 ≤ z < 65536 → fold_carry n z = z) as Hstop.
  { intros [|n] z Hz; [done|]. cbn [fold_carry]. rewrite Z.shiftr_div_pow2, Z.div_small by lia. done. }
  assert (∀ n z, 65536 ≤ z < 4294967296 → fold_carry (S n) z = fold_carry n (z mod 65536 + z / 65536)) as Hgo.
  { intros n z Hz. cbn [fold_carry]. rewrite Hstep by lia. rewrite Z.shiftr_div_pow2 by lia. change (2 ^ 16) with 65536.
    destruct (Z.eqb_spec (z / 65536) 0); [Z.div_mod_to_equations; lia|done]. }
  unfold same_oc. destruct (Z.ltb_spec x 65536); [rewrite Hstop by lia; lia|]. rewrite Hgo by lia.
  set (x1 := x mod 65536 + x / 65536). assert (0 < x1 ≤ 131070 ∧ x1 mod 65535 = x mod 65535) as [H1 H2] by (unfold x1; Z.div_mod_to_equations; lia).
  clearbody x1. destruct (Z.ltb_spec x1 65536); [rewrite Hstop by lia; lia|]. rewrite Hgo by lia.
  rewrite Hstop by (Z.div_mod_to_equations; lia). rewrite <-H2. Z.div_mod_to_equations. lia.
Qed.

Lemma oc_sum_spec l acc : Forall byte l → 0 ≤ acc ≤ 65535 → same_oc (oc_sum acc l) (acc + word_sum l).
Proof.
  revert acc. induction l as [|b|b0 b1 l IH] using pair_ind; intros acc Hl Ha; cbn [oc_sum word_sum].
  - unfold same_oc. rewrite Z.add_0_r. lia.
  - apply Forall_cons in Hl as [Hb _]. unfold byte in Hb. unfold same_oc, oc_add.
    destruct (Z.ltb_spec (acc + b) 65536); Z.div_mod_to_equations; lia.
  - apply Forall_cons in Hl as [H0 [H1 Hl]%Forall_cons]. pose proof (word_sum_range l Hl). unfold byte in *.
    assert (0 ≤ oc_add acc (b0 + 256 * b1) ≤ 65535) as Hr by (unfold oc_add; destruct (Z.ltb_spec (acc + (b0 + 256 * b1)) 65536); lia).
    destruct (IH _ Hl Hr) as (I1 & I2 & I3). split_and!; [lia|lia| |].
    + rewrite I2. unfold oc_add. destruct (Z.ltb_spec (acc + (b0 + 256 * b1)) 65536); [f_equal; lia|].
      replace (acc + (b0 + 256 * b1) - 65535 + word_sum l) with (acc + (b0 + 256 * b1 + word_sum l) + (-1) * 65535) by lia. apply Z_mod_plus_full.
    + rewrite I3. unfold oc_add. destruct (Z.ltb_spec (acc + (b0 + 256 * b1)) 65536); lia.
Qed.

Lemma lxor_ones x n : 0 ≤ n → 0 ≤ x < 2 ^ n → Z.lxor x (Z.ones n) = Z.ones n - x.
Proof.
  intros Hn Hx. rewrite Z.sub_nocarry_ldiff.
  - apply Z.bits_inj'. intros k Hk. rewrite Z.lxor_spec, Z.ldiff_spec, Z.testbit_ones_nonneg by lia.
    destruct (Z.ltb_spec k n); [by destruct (Z.testbit x k)|by rewrite (testbit_small x n)].
  - apply Z.bits_inj'. intros k Hk. rewrite Z.ldiff_spec, Z.testbit_ones_nonneg, Z.bits_0 by lia.
    destruct (Z.ltb_spec k n); [apply andb_false_r|by rewrite (testbit_small x n)].
Qed.

Lemma complement16 y : 0 ≤ y ≤ 65535 → u16 (Z.lxor y (Z.ones 32)) = 65535 - y.
Proof.
  intros Hy. rewrite lxor_ones by lia. unfold wrap. change (Z.ones 32) with 4294967295. change (2 ^ 16) with 65536. Z.div_mod_to_equations. lia.
Qed.

Lemma word_sum_small l : Forall byte l → Z.of_nat (length l) ≤ 65536 → 0 ≤ word_sum l < 2 ^ 32.
Proof. intros Hl Hlen. pose proof (word_sum_range l Hl). lia. Qed.

Lemma ip_checksum_spec l : Forall byte l → Z.of_nat (length l) ≤ 65536 →
  same_oc (65535 - ip_checksum l) (word_sum l).
Proof.
  intros Hl Hlen. pose proof (word_sum_small l Hl Hlen) as Hs. unfold ip_checksum. rewrite sum_words_spec, Z.add_0_l, (wrap_small 32) by lia.
  pose proof (fold_carry_spec _ Hs) as H. rewrite complement16 by apply H. by replace (65535 - (65535 - _)) with (fold_carry 16 (word_sum l)) by lia.
Qed.

Lemma word_sum_app l l' : Nat.Even (length l) → word_sum (l ++ l') = word_sum l + word_sum l'.
Proof.
  induction l as [|b|b0 b1 l IH] using pair_ind; intros Hev.
  - done.
  - destruct Hev as [k Hk]. simpl in Hk. lia.
  - cbn [word_sum app]. rewrite IH; [lia|]. destruct Hev as [k Hk]. exists (k - 1)%nat. simpl in Hk. lia.
Qed.

Lemma byte_le16 x : Forall byte (le16 x).
Proof. unfold le16, byte. repeat constructor; try apply Z.mod_pos_bound; lia. Qed.

Lemma ip_checksum_range l : 0 ≤ ip_checksum l < 65536.
Proof. apply (wrap_range 16). lia. Qed.

(** C31. The header checksum: the loop of [ip_checksum] computes the complement
    of the one's-complement sum of RFC 1071, and a buffer that carries its
    checksum (at any even offset) sums to zero at the receiver. *)
Theorem ip_checksum_correct pre post : Forall byte pre → Forall byte post → Nat.Even (length pre) →
  Z.of_nat (length pre + 2 + length post) ≤ 65536 →
  ip_checksum (pre ++ le16 0 ++ post) = 65535 - oc_sum 0 (pre ++ le16 0 ++ post) ∧
  ip_checksum (pre ++ le16 (ip_checksum (pre ++ le16 0 ++ post)) ++ post) = 0.
Proof.
  intros Hpre Hpost Hev Hlen.
  assert (∀ x, Forall byte (pre ++ le16 x ++ post)) as Hb by (intros x; rewrite !Forall_app; eauto using byte_le16).
  assert (∀ x, length (pre ++ le16 x ++ post) = (length pre + 2 + length post)%nat) as Hl by (intros x; rewrite !length_app; simpl; lia).
  assert (∀ x, 0 ≤ x < 65536 → word_sum (pre ++ le16 x ++ post) = word_sum pre + x + word_sum post) as Hw.
  { intros x Hx. rewrite word_sum_app by done. cbn [le16 app word_sum]. rewrite le16_get by done. lia. }
  pose proof (ip_checksum_spec (pre ++ le16 0 ++ post) (Hb 0) ltac:(rewrite Hl; lia)) as H0. split.
  - pose proof (oc_sum_spec (pre ++ le16 0 ++ post) 0 (Hb 0) ltac:(lia)) as H1. rewrite Z.add_0_l in H1.
    pose proof (same_oc_unique _ _ _ H0 H1). lia.
  - pose proof (ip_checksum_range (pre ++ le16 0 ++ post)) as Hc. set (c := ip_checksum (pre ++ le16 0 ++ post)) in *.
    pose proof (ip_checksum_spec (pre ++ le16 c ++ post) (Hb c) ltac:(rewrite Hl; lia)) as H1.
    rewrite (Hw c Hc) in H1. rewrite Hw in H0 by lia. pose proof (word_sum_range pre Hpre). pose proof (word_sum_range post Hpost).
    unfold same_oc in *. clearbody c. generalize dependent (ip_checksum (pre ++ le16 c ++ post)). intros r H1.
    Z.div_mod_to_equations. lia.
Qed.

Lemma ip_checksum_correct_witness :
  ip_checksum (firstn 10 (ipv4_header 1 2 17 8 0) ++ le16 (ip_checksum (firstn 10 (ipv4_header 1 2 17 8 0) ++ le16 0 ++ skipn 12 (ipv4_header 1 2 17 8 0))) ++
    skipn 12 (ipv4_header 1 2 17 8 0)) = 0.
Proof.
  refine (proj2 (ip_checksum_correct _ _ _ _ _ _)).
  - apply (bool_decide_unpack (Forall (λ b, 0 ≤ b ∧ b < 256) _)). vm_compute. exact I.
  - apply (bool_decide_unpack (Forall (λ b, 0 ≤ b ∧ b < 256) _)). vm_compute. exact I.
  - exists 5%nat. reflexivity.
  - vm_compute. discriminate.
Defined.

(** ** Sending *)

Lemma wp_nget {A} (f : net → A) n sc (Q : A → state → Prop) : Q (f n) (n, sc) → wp (nget f) (n, sc) Q.
Proof. done. Qed.

Lemma wp_nset f n sc (Q : unit → state → Prop) : Q tt (f n, sc) → wp (nset f) (n, sc) Q.
Proof. done. Qed.

Lemma wp_rd {A} (x : option A) a s (Q : A → state → Prop) : x = Some a → Q a s → wp (rd x) s Q.
Proof. unfold rd. by intros ->. Qed.

(** A machine whose first interface is [f], with the driver running. *)
Record host (n : net) (f : net_interface) : Prop := {
  h_if : interfaces n !! 0%nat = Some f;
  h_send : if_send f = true;
  h_mac : length (if_mac f) = 6%nat;
  h_ip : 0 ≤ if_ip f < 2 ^ 32;
  h_init : rtl_initialized n = true;
}.

(** Where a packet for [dest] goes next: the host itself or the gateway. *)
Definition next_hop (f : net_interface) (dest : Z) : Z :=
  if Z.land dest (if_subnet_mask f) =? Z.land (if_ip f) (if_subnet_mask f) then dest else if_gateway_ip f.

Definition arp_get (ip : Z) (l : list arp_entry) : option (list Z) :=
  match arp_find ip l 0 with Some i => ae_mac <$> l !! i | None => None end.

Definition emit (frame : list Z) (n : net) : net :=
  with_tx_cur_desc (λ d, (d + 1) mod 4) (with_sent (λ l, l ++ [pad_frame frame]) n).

Definition ip_frame (f : net_interface) (mac : list Z) (dest proto : Z) (payload : list Z) : list Z :=
  let len := Z.of_nat (length payload) in
  take 6 mac ++ take 6 (if_mac f) ++ le16 (HTONS 0x0800) ++
  ipv4_header (if_ip f) dest proto len (ip_checksum (ipv4_header (if_ip f) dest proto len 0)) ++ payload.

Lemma net_send_spec n sc f mac type payload : host n f → Z.of_nat (length payload) ≤ 1500 →
  net_send_packet (Some 0%nat) mac type payload (n, sc) =
    Ret (tt, (emit (take 6 mac ++ take 6 (if_mac f) ++ le16 (HTONS type) ++ payload) n, sc)).
Proof.
  intros [Hif Hsend _ _ Hinit] Hlen. unfold net_send_packet. rewrite (proj2 (Z.ltb_ge _ _)) by lia.
  unfold iface_get. rewrite (bind_Ret _ _ _ f (n, sc)) by (unfold deref; simpl; by rewrite Hif). rewrite Hsend.
  unfold rtl8139_send_packet. rewrite (bind_Ret _ _ _ true (n, sc)) by (unfold nget, gets; simpl; by rewrite Hinit). done.
Qed.

Lemma length_ipv4_header src dest proto len sum : length (ipv4_header src dest proto len sum) = 20%nat.
Proof. done. Qed.

Lemma ipv4_send_spec poll n sc f mac dest proto payload : host n f → arp_get (next_hop f dest) (arp_cache n) = Some mac →
  Z.of_nat (length payload) ≤ 1480 →
  ipv4_send_packet poll (Some 0%nat) dest proto payload (n, sc) = Ret (tt, (emit (ip_frame f mac dest proto payload) n, sc)).
Proof.
  intros Hh Harp Hlen. unfold ipv4_send_packet, iface_get.
  rewrite (bind_Ret _ _ _ f (n, sc)) by (unfold deref; simpl; by rewrite (h_if _ _ Hh)).
  fold (next_hop f dest). rewrite (bind_Ret _ _ _ (Some mac) (n, sc)) by (unfold arp_lookup, nget, gets; simpl; by rewrite <-Harp).
  rewrite (bind_Ret _ _ _ (Some mac) (n, sc)) by done. cbv beta iota.
  rewrite (bind_Ret _ _ _ f (n, sc)) by (unfold deref; simpl; by rewrite (h_if _ _ Hh)).
  rewrite (proj2 (Z.ltb_ge _ _)) by (unfold sizeof_ipv4_header; lia).
  rewrite (net_send_spec _ _ _ _ _ _ Hh); [done|]. rewrite length_app, length_ipv4_header. lia.
Qed.

(** What goes out does not touch the rest of the stack. *)
Lemma host_emit n f frame : host n f → host (emit frame n) f.
Proof. by intros [? ? ? ? ?]. Qed.

End NetSpec.
