(* ===== verification/UdpSpec.v ===== *)
(** * Datagrams from one machine to another

    What [udp_sendto] hands to the card on one machine is, handled by
    [net_handle_packet] on another, one datagram in the queue of the socket
    bound to the port, and [udp_recvfrom] returns it with its sender. *)
From S2P Require Import Prelude Bits Sched SchedSpec Blocking Net SockRx Tcp Udp Socket NetDriver NetSpec.

Module UdpSpec.
Import Net SockRx Tcp Udp Socket NetDriver NetSpec.

(** The next [kmalloc] succeeds. *)
Definition mem_ok (n : net) : Prop := match heap_ok n with false :: _ => False | _ => True end.

Definition after_kmalloc (n : net) : net := match heap_ok n with [] => n | _ :: rest => with_heap_ok (λ _, rest) n end.

Lemma kmalloc_spec size n sc : mem_ok n → kmalloc size (n, sc) = Ret (true, (after_kmalloc n, sc)).
Proof. unfold mem_ok, kmalloc, after_kmalloc. simpl. by destruct (heap_ok n) as [|[] ?]. Qed.

Lemma after_kmalloc_spec n : interfaces (after_kmalloc n) = interfaces n ∧ arp_cache (after_kmalloc n) = arp_cache n ∧
  sockets (after_kmalloc n) = sockets n ∧ tcp_sockets (after_kmalloc n) = tcp_sockets n ∧ sent (after_kmalloc n) = sent n ∧
  rtl_initialized (after_kmalloc n) = rtl_initialized n.
Proof. unfold after_kmalloc. by destruct (heap_ok n). Qed.

Lemma host_kmalloc n f : host n f → host (after_kmalloc n) f.
Proof. intros [? ? ? ? ?]. destruct (after_kmalloc_spec n) as (? & _ & _ & _ & _ & ?). split; congruence. Qed.

(** ** Sending *)

Lemma udp_send_spec poll n sc f mac dest sport dport data : host n f → mem_ok n →
  arp_get (next_hop f dest) (arp_cache n) = Some mac → Z.of_nat (length data) ≤ 1472 →
  udp_send_packet poll (Some 0%nat) dest sport dport data (n, sc) =
    Ret (tt, (emit (ip_frame f mac dest 17 (udp_datagram sport dport data)) (after_kmalloc n), sc)).
Proof.
  intros Hh Hm Harp Hlen. unfold udp_send_packet. rewrite (bind_Ret _ _ _ true (after_kmalloc n, sc)) by by apply kmalloc_spec.
  cbn [negb]. apply ipv4_send_spec; [by apply host_kmalloc| |].
  - destruct (after_kmalloc_spec n) as (_ & -> & _). done.
  - unfold udp_datagram. rewrite !length_app. simpl. lia.
Qed.

Lemma udp_sendto_spec poll n sc f mac i e dest dport data : host n f → mem_ok n →
  arp_get (next_hop f dest) (arp_cache n) = Some mac → Z.of_nat (length data) ≤ 1472 →
  sockets n !! i = Some e → se_local_port e ≠ 0 →
  udp_sendto poll i data (Some (dest, dport)) (n, sc) =
    Ret (Z.of_nat (length data), (emit (ip_frame f mac dest 17 (udp_datagram (se_local_port e) dport data)) (after_kmalloc n), sc)).
Proof.
  intros Hh Hm Harp Hlen He Hp. unfold udp_sendto, udp_autobind.
  assert (sock_load i (n, sc) = Ret (e, (n, sc))) as Hload by (unfold sock_load, deref; simpl; by rewrite He).
  rewrite (bind_Ret _ _ _ _ _ Hload). cbv beta iota. unfold SOCK_UDP_MAX_PAYLOAD. rewrite (proj2 (Z.ltb_ge _ _)) by lia.
  rewrite (bind_Ret _ _ _ true (n, sc)).
  2:{ rewrite (bind_Ret _ _ _ _ _ Hload). by rewrite (proj2 (Z.eqb_neq _ _) Hp). }
  cbn [negb]. rewrite (bind_Ret _ _ _ (Some 0%nat) (n, sc)).
  2:{ unfold net_get_primary_interface, nget, gets. simpl. pose proof (h_if _ _ Hh). by destruct (interfaces n). }
  rewrite (bind_Ret _ _ _ _ _ Hload). erewrite bind_Ret; [|by apply (udp_send_spec _ _ _ f mac)]. done.
Qed.

(** ** Receiving *)

Lemma list6 {A} (l : list A) : length l = 6%nat → ∃ a b c d e f, l = [a; b; c; d; e; f].
Proof. intros Hl. do 7 (destruct l; try done). by eexists _, _, _, _, _, _. Qed.

(** The frame of a datagram, as the receiver's header structures see it. *)
Lemma udp_frame_fields f mac dest sport dport data packet : length mac = 6%nat → length (if_mac f) = 6%nat → 0 ≤ if_ip f < 2 ^ 32 →
  0 ≤ sport < 65536 → 0 ≤ dport < 65536 → Z.of_nat (length data) ≤ 1472 →
  packet = pad_frame (ip_frame f mac dest 17 (udp_datagram sport dport data)) →
  rd16 packet 12 = Some (HTONS 0x0800) ∧ rd8 packet 14 = Some 0x45 ∧ rd8 packet 23 = Some 17 ∧
  rd32 packet 26 = Some (HTONL (if_ip f)) ∧ rd16 packet 34 = Some (HTONS sport) ∧ rd16 packet 36 = Some (HTONS dport) ∧
  rd16 packet 38 = Some (HTONS (8 + Z.of_nat (length data))) ∧
  ∃ pad, drop 42 packet = data ++ pad.
Proof.
  intros (m0 & m1 & m2 & m3 & m4 & m5 & ->)%list6 (f0 & f1 & f2 & f3 & f4 & f5 & Ef)%list6 Hip Hs Hd Hlen ->.
  unfold ip_frame. rewrite Ef. unfold pad_frame, udp_datagram, sizeof_udp_header. set (pad := replicate _ _). clearbody pad.
  set (sum := ip_checksum _). clearbody sum. set (ulen := 8 + Z.of_nat (length data)). assert (0 ≤ ulen < 65536) by (unfold ulen; lia). clearbody ulen.
  pose proof (HTONS_range sport). pose proof (HTONS_range dport). pose proof (HTONS_range ulen). pose proof (HTONL_range _ Hip).
  split_and!; try reflexivity.
  - set (x := HTONL (if_ip f)) in *. transitivity (Some (x mod 256 + 256 * (x / 256 mod 256) + 65536 * (x / 65536 mod 256) + 16777216 * (x / 16777216 mod 256)));
      [reflexivity|by rewrite le32_get].
  - transitivity (Some (HTONS sport mod 256 + 256 * (HTONS sport / 256 mod 256))); [reflexivity|by rewrite le16_get].
  - transitivity (Some (HTONS dport mod 256 + 256 * (HTONS dport / 256 mod 256))); [reflexivity|by rewrite le16_get].
  - transitivity (Some (HTONS ulen mod 256 + 256 * (HTONS ulen / 256 mod 256))); [reflexivity|by rewrite le16_get].
  - exists pad. reflexivity.
Qed.

Lemma bytes_at_app data pad : bytes_at (data ++ pad) 0 (Z.of_nat (length data)) = Some data.
Proof.
  unfold bytes_at. rewrite (proj2 (Z.leb_le _ _)) by (rewrite length_app; lia). rewrite Nat2Z.id. change (Z.to_nat 0) with 0%nat. by rewrite drop_0, take_app_length.
Qed.

(** A datagram for a bound socket goes to the end of its queue. *)
Lemma deliver_spec n sc dport src sport data pad j e : mem_ok n →
  find_sock (accepts dport src sport) (sockets n) 0 = Some j → sockets n !! j = Some e → (length (se_dq e) < SOCK_UDP_QUEUE_MAX)%nat →
  SchedClient.consistent sc →
  wp (sock_udp_deliver dport src sport (data ++ pad) (Z.of_nat (length data))) (n, sc) (λ r s',
    r = true ∧ SchedClient.consistent s'.2 ∧ s'.1 = with_sockets (alter (set_dq (λ q, q ++ [mk_dgram src sport data])) j) (after_kmalloc n)).
Proof.
  intros Hm Hf He Hq Hsc. unfold sock_udp_deliver. apply wp_bind, wp_nget. rewrite Hf.
  apply wp_bind. eapply wp_deref; [exact He|]. rewrite (proj2 (Nat.leb_gt _ _)) by lia.
  apply wp_bind. eapply run_wp; [by apply kmalloc_spec|]. cbn [negb]. apply wp_bind. eapply wp_rd; [apply bytes_at_app|].
  apply wp_bind, wp_nset. apply wp_bind, wp_lift_r. eapply wp_mono; [by apply SchedClient.io_wake_all_law|].
  intros [] sc' (Hsc' & _). by apply wp_ret.
Qed.

Lemma handle_udp_frame poll n sc f mac dest sport dport data j e : length mac = 6%nat → length (if_mac f) = 6%nat → 0 ≤ if_ip f < 2 ^ 32 →
  0 ≤ sport < 65536 → 0 ≤ dport < 65536 → Z.of_nat (length data) ≤ 1472 → mem_ok n → udp_find dport (udp_sockets n) = None →
  find_sock (accepts dport (if_ip f) sport) (sockets n) 0 = Some j → sockets n !! j = Some e → (length (se_dq e) < SOCK_UDP_QUEUE_MAX)%nat →
  SchedClient.consistent sc →
  wp (net_handle_packet poll 0 (pad_frame (ip_frame f mac dest 17 (udp_datagram sport dport data)))) (n, sc) (λ _ s',
    SchedClient.consistent s'.2 ∧ s'.1 = with_sockets (alter (set_dq (λ q, q ++ [mk_dgram (if_ip f) sport data])) j) (after_kmalloc n)).
Proof.
  intros Hmac Hfm Hip Hs Hd Hlen Hm Hfind Hf He Hq Hsc. set (packet := pad_frame _).
  destruct (udp_frame_fields f mac dest sport dport data packet) as (F1 & F2 & F3 & F4 & F5 & F6 & F7 & pad & F8); try done. clearbody packet.
  unfold net_handle_packet. apply wp_bind. eapply wp_rd; [exact F1|]. rewrite HTONS_involutive by lia. cbn [Z.eqb Pos.eqb].
  unfold handle_ipv4. apply wp_bind. eapply wp_rd; [exact F2|]. apply wp_bind. eapply wp_rd; [exact F3|].
  change (Z.land 69 15 * 4) with 20. cbn [Z.eqb Pos.eqb]. unfold handle_udp. cbv zeta. change (sizeof_ethernet_header + 20) with 34.
  apply wp_bind. eapply wp_rd; [exact F5|]. apply wp_bind. eapply wp_rd; [exact F6|]. apply wp_bind. eapply wp_rd; [exact F7|].
  rewrite !HTONS_involutive by lia. unfold sizeof_udp_header. change (Z.to_nat (34 + 8)) with 42%nat. rewrite F8.
  replace (8 + Z.of_nat (length data) - 8) with (Z.of_nat (length data)) by lia. rewrite wrap_small by lia.
  rewrite (proj2 (Z.ltb_ge _ _)) by lia. apply wp_bind, wp_nget. rewrite Hfind. apply wp_bind. eapply wp_rd; [exact F4|].
  rewrite HTONL_involutive by lia. apply wp_bind. eapply wp_mono; [by apply (deliver_spec n sc dport (if_ip f) sport data pad j e)|].
  intros r s' (_ & Hsc' & Hs'). by apply wp_ret.
Qed.

(** C30. A datagram crosses the network unchanged: [udp_sendto] puts one frame
    on the wire; [net_handle_packet] on the machine that receives it appends
    the datagram to the queue of the socket bound to the port and changes no
    other socket; [udp_recvfrom] then returns the first bytes of it, as many
    as the caller has room for, with the sender's address and port, and takes
    it off the queue. *)
Theorem udp_end_to_end pollA pollB nA nB scA scB fA fB mac i eA j eB dport data :
  host nA fA → host nB fB → arp_get (next_hop fA (if_ip fB)) (arp_cache nA) = Some mac → length mac = 6%nat →
  sockets nA !! i = Some eA → 0 < se_local_port eA < 65536 → Z.of_nat (length data) ≤ 1472 → mem_ok nA → mem_ok nB →
  0 ≤ dport < 65536 → udp_find dport (udp_sockets nB) = None →
  find_sock (accepts dport (if_ip fA) (se_local_port eA)) (sockets nB) 0 = Some j → sockets nB !! j = Some eB →
  (length (se_dq eB) < SOCK_UDP_QUEUE_MAX)%nat → SchedClient.consistent scB →
  ∃ frame nA', udp_sendto pollA i data (Some (if_ip fB, dport)) (nA, scA) = Ret (Z.of_nat (length data), (nA', scA)) ∧
    sent nA' = sent nA ++ [frame] ∧ sockets nA' = sockets nA ∧
    wp (net_handle_packet pollB 0 frame) (nB, scB) (λ _ s',
      SchedClient.consistent s'.2 ∧
      sockets s'.1 = alter (set_dq (λ q, q ++ [mk_dgram (if_ip fA) (se_local_port eA) data])) j (sockets nB) ∧
      (se_dq eB = [] → ∀ current_task len nonblock, 0 ≤ len →
        wp (udp_recvfrom pollB current_task j len 0 nonblock) s' (λ r s'',
          r = Done (mk_recv (Z.min (Z.of_nat (length data)) len) (take (Z.to_nat len) data) (Some (if_ip fA, se_local_port eA))) ∧
          sockets s''.1 = sockets nB))).
Proof.
  intros HA HB Harp Hmac HeA Hport Hlen HmA HmB Hd Hfind Hsock HeB Hq Hsc. eexists _, _. split.
  { by apply (udp_sendto_spec _ _ _ fA mac _ eA); try done; lia. }
  destruct (after_kmalloc_spec nA) as (_ & _ & S1 & _ & S2 & _). simpl. rewrite S2, S1. split; [done|]. split; [done|].
  eapply wp_mono; [apply (handle_udp_frame _ nB scB fA mac _ _ _ _ j eB); try done; [apply HA|apply HA|lia]|].
  intros [] [n' sc'] [Hsc' Hn']. simpl in *. subst n'. destruct (after_kmalloc_spec nB) as (_ & _ & S3 & _). simpl. rewrite S3.
  split; [done|]. split; [done|]. intros Hempty ct len nb Hl. unfold udp_recvfrom. apply wp_bind, wp_nget. unfold udp_recv_loop. apply wp_bind.
  eapply wp_deref; [simpl; rewrite S3, list_lookup_alter_eq, HeB; done|]. cbn [set_dq se_dq]. rewrite Hempty. cbn [app dg_data dg_src_ip dg_src_port].
  change (has 0 SOCK_MSG_PEEK) with false. cbn [negb]. apply wp_bind, wp_nset, wp_ret. split.
  - do 2 f_equal.
    + destruct (Z.ltb_spec (Z.of_nat (length data)) len); lia.
    + destruct (Z.ltb_spec (Z.of_nat (length data)) len); [|done]. by rewrite Nat2Z.id, !take_ge by lia.
  - simpl. rewrite S3. apply list_eq. intros k. destruct (decide (k = j)) as [->|Hk].
    + rewrite !list_lookup_alter_eq, HeB. simpl. f_equal. destruct eB. simpl in *. by subst.
    + by rewrite !list_lookup_alter_ne.
Qed.

(** Two machines, 10.0.2.15 and 10.0.2.16, each with a bound socket. *)
Definition demo_if (ip : Z) : net_interface := mk_if [101; 116; 104; 48] [2; 0; 0; 0; 0; ip mod 256] ip 0xFFFFFF00 0x0A000202 true.
Definition demo_sock (port : Z) : socket_entry := set_local_port (λ _, port) (set_type (λ _, SOCK_TYPE_DGRAM) (set_state (λ _, SOCK_IDLE) zero_sock)).
Definition demo_net (ip peer port : Z) : net :=
  mk_net [demo_if ip] (mk_arp peer (if_mac (demo_if peer)) true :: replicate 31 (mk_arp 0 [] false))
    (replicate MAX_UDP_SOCKETS (mk_udp 0 None false)) [demo_sock port; zero_sock] 32768 [] 0 0x12345678 0 [] false false false 0 []
    true 0 [] [].
Definition demo_A : net := demo_net 0x0A00020F 0x0A000210 4000.
Definition demo_B : net := demo_net 0x0A000210 0x0A00020F 5000.

Lemma udp_end_to_end_witness : ∃ frame nA',
  udp_sendto nested_poll 0 [104; 105] (Some (0x0A000210, 5000)) (demo_A, SchedSpec.SchedSpec.demo) = Ret (2, (nA', SchedSpec.SchedSpec.demo)) ∧
  sent nA' = [frame] ∧
  wp (net_handle_packet nested_poll 0 frame) (demo_B, SchedSpec.SchedSpec.demo) (λ _ s',
    wp (udp_recvfrom nested_poll None 0 10 0 true) s' (λ r _, r = Done (mk_recv 2 [104; 105] (Some (0x0A00020F, 4000))))).
Proof.
  destruct (udp_end_to_end nested_poll nested_poll demo_A demo_B SchedSpec.SchedSpec.demo SchedSpec.SchedSpec.demo
    (demo_if 0x0A00020F) (demo_if 0x0A000210) (if_mac (demo_if 0x0A000210)) 0 (demo_sock 4000) 0 (demo_sock 5000) 5000 [104; 105])
    as (frame & nA' & H1 & H2 & _ & H3).
  1-2: split; try reflexivity; split; try reflexivity; vm_compute; discriminate.
  all: try reflexivity; try (split; reflexivity || (vm_compute; discriminate)); try exact I.
  1: vm_compute; discriminate.
  1: vm_compute; lia.
  1: apply SchedClient.demo_consistent.
  exists frame, nA'. split; [exact H1|]. split; [exact H2|]. eapply wp_mono; [exact H3|].
  intros _ s' (_ & _ & H4). eapply wp_mono; [apply (H4 eq_refl None 10 true); lia|]. intros r s'' [-> _]. reflexivity.
Defined.

End UdpSpec.
