(* ===== verification/DnsSpec.v ===== *)
(** * The DNS client: names and untrusted answers

    [dns_format_name] writes the labels of a host name, each behind its
    length; [dns_skip_name] finds the end of it again.  The parser of answers
    stays inside the datagram whatever the datagram holds. *)
From S2P Require Import Prelude Bits Sched SchedSpec Blocking Net SockRx Udp NetDriver NetSpec UdpSpec.

Module DnsSpec.
Import Net SockRx Udp NetDriver NetSpec UdpSpec.

Lemma rd8_inside data p : Forall byte data → 0 ≤ p < Z.of_nat (length data) → ∃ b, rd8 data p = Some b ∧ byte b.
Proof.
  intros Hb Hp. unfold rd8. destruct (data !! Z.to_nat p) as [b|] eqn:E.
  - exists b. split; [done|]. by eapply Forall_lookup_1.
  - apply lookup_ge_None in E. lia.
Qed.

Lemma rd16_inside data p : Forall byte data → 0 ≤ p → p + 2 ≤ Z.of_nat (length data) → ∃ v, rd16 data p = Some v ∧ 0 ≤ v < 65536.
Proof.
  intros Hb Hp Hl. destruct (rd8_inside data p) as (b0 & E0 & H0); [done|lia|]. destruct (rd8_inside data (p + 1)) as (b1 & E1 & H1); [done|lia|].
  unfold rd16. rewrite E0. simpl. rewrite E1. simpl. unfold byte in *. eexists. split; [done|lia].
Qed.

Lemma be16 b0 b1 : byte b0 → byte b1 → Z.lor (Z.shiftl b0 8) b1 = 256 * b0 + b1.
Proof. unfold byte. intros. rewrite Z.lor_comm, lor_shiftl_add by lia. lia. Qed.

(** Symbolic execution of a read inside the datagram. *)
Ltac read_byte b Hb :=
  apply wp_bind;
  match goal with |- wp (rd (rd8 ?d ?p)) _ _ =>
    destruct (rd8_inside d p) as (b & ? & Hb); [done|lia|]; eapply wp_rd; [eassumption|]
  end.

Section Safety.
  Context (data : list Z) (len : Z) (s : state).
  Hypothesis Hbytes : Forall byte data.
  Hypothesis Hlen : 0 ≤ len ≤ Z.of_nat (length data).

Lemma dns_skip_loop_spec fuel : ∀ ptr, 0 ≤ ptr → (0 < fuel)%nat → len - ptr < Z.of_nat fuel →
  wp (dns_skip_loop fuel data ptr len) s (λ r s', s' = s ∧ 0 ≤ r ≤ len).
Proof.
  induction fuel as [|fuel IH]; intros ptr Hp H0 Hf; cbn [dns_skip_loop]; [lia|].
  destruct (Z.leb_spec len ptr); [apply wp_ret; split; [done|lia]|]. read_byte b Hb. unfold byte in Hb.
  destruct (b =? 0); [apply wp_ret; split; [done|lia]|]. destruct (_ =? 0xC0).
  { apply wp_ret. split; [done|]. destruct (Z.leb_spec (ptr + 2) len); lia. }
  destruct (Z.leb_spec len (ptr + 1 + b)); [apply wp_ret; split; [done|lia]|]. apply IH; lia.
Qed.

Lemma skip_questions_spec n : ∀ ptr, 0 ≤ ptr → wp (skip_questions n data ptr len) s (λ r s', s' = s ∧ 0 ≤ r).
Proof.
  induction n as [|n IH]; intros ptr Hp; cbn [skip_questions]; [by apply wp_ret|].
  destruct (Z.leb_spec len ptr); [by apply wp_ret|]. apply wp_bind. eapply wp_mono; [apply dns_skip_loop_spec; lia|].
  intros p s' [-> Hp']. apply IH. lia.
Qed.

(** An answer is an address inside the datagram. *)
Definition address_at (ip : Z) : Prop := ∃ p b0 b1 b2 b3, 0 ≤ p ∧ p + 4 ≤ len ∧
  rd8 data p = Some b0 ∧ rd8 data (p + 1) = Some b1 ∧ rd8 data (p + 2) = Some b2 ∧ rd8 data (p + 3) = Some b3 ∧
  ip = 16777216 * b0 + 65536 * b1 + 256 * b2 + b3.

Lemma find_answer_spec n : ∀ ptr, 0 ≤ ptr → wp (find_answer n data ptr len) s (λ r s', s' = s ∧ ∀ ip, r = Some ip → address_at ip).
Proof.
  induction n as [|n IH]; intros ptr Hp; cbn [find_answer]; [by apply wp_ret|].
  destruct (Z.ltb_spec len (ptr + 10)); [by apply wp_ret|]. apply wp_bind. eapply wp_mono; [apply dns_skip_loop_spec; lia|].
  intros p s' [-> Hp']. destruct (Z.ltb_spec len (p + 10)); [by apply wp_ret|].
  read_byte t0 Ht0. read_byte t1 Ht1. read_byte l0 Hl0. read_byte l1 Hl1. cbv zeta. rewrite !be16 by done.
  assert (0 ≤ 256 * l0 + l1) by (unfold byte in *; lia). set (rdlen := 256 * l0 + l1) in *. clearbody rdlen.
  destruct (Z.ltb_spec len (p + 10 + rdlen)); [by apply wp_ret|].
  destruct (_ && _) eqn:E; [|apply IH; lia]. apply andb_true_iff in E as [_ E%Z.eqb_eq].
  read_byte b0 Hb0. read_byte b1 Hb1. read_byte b2 Hb2. read_byte b3 Hb3. apply wp_ret. split; [done|].
  intros ip [= <-]. unfold byte in *. exists (p + 10), b0, b1, b2, b3. split_and!; try done; try lia.
  rewrite (Z.lor_comm _ b3), (Z.lor_comm _ (Z.shiftl b2 8)), (Z.lor_comm (Z.shiftl b0 24)).
  assert (∀ k a b, 0 ≤ k → 0 ≤ a < 2 ^ k → Z.lor a (Z.shiftl b k) = a + b * 2 ^ k) as Hs by (intros; by apply lor_shiftl_add).
  rewrite !Z.lor_assoc, (Hs 8), (Hs 16), (Hs 24) by lia. lia.
Qed.

Lemma dns_response_spec n sc : s = (n, sc) → wp (on_dns_response data len) s (λ _ s',
  s' = s ∨ ∃ ip, address_at ip ∧ s' = (with_resolved_ip (λ _, ip) n, sc)).
Proof.
  intros Hs. unfold on_dns_response, sizeof_dns_header. destruct (Z.ltb_spec len 12); [apply wp_ret; by left|].
  destruct (rd16_inside data 4) as (nq & E1 & _); [done|lia..|]. destruct (rd16_inside data 6) as (nan & E2 & _); [done|lia..|].
  apply wp_bind. eapply wp_rd; [exact E1|]. apply wp_bind. eapply wp_rd; [exact E2|]. destruct (_ =? 0); [apply wp_ret; by left|].
  apply wp_bind. eapply wp_mono; [apply skip_questions_spec; lia|]. intros p s' [-> Hp]. apply wp_bind.
  eapply wp_mono; [by apply find_answer_spec|]. intros [ip|] s' [-> Ha]; [|apply wp_ret; by left].
  rewrite Hs. apply wp_nset. right. exists ip. split; [by apply Ha|done].
Qed.

End Safety.

(** ** Names *)

Definition label_ok (l : list Z) : Prop := l ≠ [] ∧ (length l < 64)%nat ∧ Forall (λ ch, byte ch ∧ ch ≠ 46 ∧ ch ≠ 0) l.

(** [a.b.c] as one string, and its wire form. *)
Fixpoint joined (ls : list (list Z)) : list Z :=
  match ls with
  | [] => []
  | [l] => l
  | l :: ls' => l ++ 46 :: joined ls'
  end.

Definition wire_name (ls : list (list Z)) : list Z := concat (map (λ l, Z.of_nat (length l) :: l) ls) ++ [0].

Lemma format_label l rest acc : Forall (λ ch, byte ch ∧ ch ≠ 46 ∧ ch ≠ 0) l →
  format_labels (l ++ 46 :: rest) acc = u8 (Z.of_nat (length (acc ++ l))) :: acc ++ l ++ format_labels rest [].
Proof.
  revert acc. induction l as [|ch l IH]; intros acc Hl.
  - cbn [app format_labels]. by rewrite app_nil_r.
  - apply Forall_cons in Hl as [(Hb & Hne & _) Hl]. cbn [app]. transitivity (format_labels (l ++ 46 :: rest) (acc ++ [ch])).
    { cbn [format_labels]. unfold byte in Hb. destruct ch as [|p|p]; [done| |lia]. do 7 (destruct p as [p|p|]; try done). }
    rewrite IH by done. by rewrite <-!app_assoc.
Qed.

Lemma joined_dot ls : ls ≠ [] → joined ls ++ [46] = concat (map (λ l, l ++ [46]) ls).
Proof.
  induction ls as [|l ls IH]; intros Hne; [done|]. destruct ls as [|l' ls]; [cbn; by rewrite app_nil_r|].
  change (joined (l :: l' :: ls)) with (l ++ 46 :: joined (l' :: ls)). rewrite <-app_assoc, <-app_comm_cons, IH by done.
  change (concat (map _ (l :: _))) with ((l ++ [46]) ++ concat (map (λ l, l ++ [46]) (l' :: ls))). by rewrite <-!app_assoc.
Qed.

Lemma format_name_spec ls : ls ≠ [] → Forall label_ok ls → (length (joined ls) ≤ 250)%nat →
  dns_format_name (joined ls) = wire_name ls.
Proof.
  intros Hne Hls Hlen. unfold dns_format_name, wire_name. rewrite (proj2 (Z.ltb_ge _ _)) by lia. f_equal. rewrite joined_dot by done.
  clear Hne Hlen. induction Hls as [|l ls (_ & Hlen & Hch) Hls IH]; [done|]. cbn [map concat]. rewrite <-app_assoc. cbn [app].
  rewrite format_label by done. rewrite IH. cbn [app]. by rewrite wrap_small by lia.
Qed.

Lemma skip_wire_name ls pre post fin fuel s : Forall label_ok ls →
  fin ≤ Z.of_nat (length (pre ++ wire_name ls ++ post)) → Z.of_nat (length (pre ++ wire_name ls)) ≤ fin →
  (length (wire_name ls) < fuel)%nat →
  dns_skip_loop fuel (pre ++ wire_name ls ++ post) (Z.of_nat (length pre)) fin s = Ret (Z.of_nat (length (pre ++ wire_name ls)), s).
Proof.
  intros Hls. revert pre fuel. induction Hls as [|l ls (Hne & Hlen & Hch) Hls IH]; intros pre fuel H1 H2 Hf.
  - destruct fuel as [|fuel]; [simpl in Hf; lia|]. cbn [dns_skip_loop]. change (wire_name []) with [0] in *. rewrite length_app in *. cbn [length] in *.
    rewrite (proj2 (Z.leb_gt _ _)) by lia. rewrite (bind_Ret _ _ _ 0 s).
    2:{ unfold rd, rd8, deref. rewrite Nat2Z.id, lookup_app_r by lia. by rewrite Nat.sub_diag. }
    cbn [Z.eqb]. unfold mret, M_ret. do 2 f_equal. lia.
  - assert (wire_name (l :: ls) = (Z.of_nat (length l) :: l) ++ wire_name ls) as E by (unfold wire_name; cbn [map concat]; by rewrite <-app_assoc).
    rewrite E in *. set (blk := Z.of_nat (length l) :: l) in *.
    assert ((1 ≤ length (wire_name ls))%nat) as Hw by (unfold wire_name; rewrite length_app; simpl; lia).
    assert (length blk = S (length l)) as Hblk by done. rewrite !length_app in *.
    destruct fuel as [|fuel]; [lia|]. cbn [dns_skip_loop].
    rewrite (proj2 (Z.leb_gt _ _)) by lia. rewrite (bind_Ret _ _ _ (Z.of_nat (length l)) s).
    2:{ unfold rd, rd8, deref. rewrite Nat2Z.id, lookup_app_r by lia. by rewrite Nat.sub_diag. }
    assert (length l ≠ 0%nat) by (destruct l; [done|simpl; lia]). rewrite (proj2 (Z.eqb_neq _ _)) by lia.
    assert (Z.land (Z.of_nat (length l)) 192 = 0) as ->.
    { replace 192 with (Z.shiftl (Z.ones 2) 6) by done. apply Z.bits_inj'. intros k Hk. rewrite Z.land_spec, Z.bits_0, Z.shiftl_spec by done.
      destruct (Z.ltb_spec k 6); [rewrite (Z.testbit_neg_r _ (k - 6)) by lia; apply andb_false_r|]. by rewrite (testbit_small _ 6) by lia. }
    cbn [Z.eqb]. rewrite (proj2 (Z.leb_gt _ _)) by lia.
    replace (Z.of_nat (length pre) + 1 + Z.of_nat (length l)) with (Z.of_nat (length (pre ++ blk))) by (rewrite length_app; lia).
    replace (pre ++ (blk ++ wire_name ls) ++ post) with ((pre ++ blk) ++ wire_name ls ++ post) by by rewrite <-!app_assoc.
    rewrite IH; rewrite ?length_app; try lia. do 3 f_equal. lia.
Qed.

(** C32. The DNS client.  Encoding a host name (labels of 1 to 63 characters)
    gives the wire format, and skipping it in a message leads behind its last
    byte.  An answer is handled without a fault or an endless loop, however
    malformed the datagram is: nothing changes, or [resolved_ip] becomes four
    bytes of the datagram. *)
Theorem dns_client_correct :
  (∀ ls, ls ≠ [] → Forall label_ok ls → (length (joined ls) ≤ 250)%nat → dns_format_name (joined ls) = wire_name ls ∧
     ∀ pre post s, dns_skip_name (pre ++ wire_name ls ++ post) (Z.of_nat (length pre)) (Z.of_nat (length (pre ++ wire_name ls ++ post))) s =
       Ret (Z.of_nat (length (pre ++ wire_name ls)), s)) ∧
  (∀ data len n sc, Forall byte data → 0 ≤ len ≤ Z.of_nat (length data) → wp (on_dns_response data len) (n, sc) (λ _ s',
     s' = (n, sc) ∨ ∃ ip, address_at data len ip ∧ s' = (with_resolved_ip (λ _, ip) n, sc))).
Proof.
  split.
  - intros ls Hne Hls Hlen. split; [by apply format_name_spec|]. intros pre post s. apply skip_wire_name; [done|lia| |];
      rewrite !length_app; lia.
  - intros data len n sc Hb Hl. by apply dns_response_spec.
Qed.

Lemma dns_client_correct_witness : dns_format_name [97; 98; 46; 99] = [2; 97; 98; 1; 99; 0] ∧
  wp (on_dns_response (replicate 20 0xFF) 20) (demo_B, SchedSpec.SchedSpec.demo) (λ _ _, True).
Proof.
  destruct dns_client_correct as [H1 H2]. split.
  - refine (proj1 (H1 [[97; 98]; [99]] _ _ _)).
    + discriminate.
    + apply Forall_cons; split; [|apply Forall_cons; split; [|apply Forall_nil; exact I]]; (split; [discriminate|split; [vm_compute; lia|]]);
        repeat (apply Forall_cons; split; [unfold byte; lia|]); apply Forall_nil; exact I.
    + vm_compute. lia.
  - eapply wp_mono; [apply H2|done].
    + apply Forall_replicate. unfold byte. lia.
    + vm_compute. split; discriminate.
Defined.

(** Lengths that are not checked.  A frame of 60 bytes for a bound socket
    whose UDP header claims 1000 bytes makes the payload copy leave the frame;
    a DHCP message of the size of the structure without an end marker makes
    the option loop read the byte behind the datagram before it checks the
    bound. *)
Lemma net_input_overread :
  let frame := pad_frame (ip_frame (demo_if 0x0A00020F) (if_mac (demo_if 0x0A000210)) 0x0A000210 17 (udp_datagram 4000 5000 [104; 105])) in
  net_handle_packet nested_poll 0 (<[38%nat := 3]> (<[39%nat := 232]> frame)) (demo_B, SchedSpec.SchedSpec.demo) = Fault ∧
  on_dhcp_response nested_poll (dhcp_message (if_mac (demo_if 0x0A000202)) []) 548 (demo_A, SchedSpec.SchedSpec.demo) = Fault.
Proof. split; vm_compute; reflexivity. Qed.

End DnsSpec.
