(* ===== verification/Window.v ===== *)
(** * Byte rings with running positions

    The rings of the socket layer and of TCP keep positions that run through
    all 32-bit numbers and reduce them when the buffer is accessed.  [holds]
    says which bytes a stretch of the ring contains. *)
From S2P Require Import Prelude Net SockRx.

Module Window.
Import SockRx.

Section Window.
  Context (index : Z → Z) (N : Z).
  Hypothesis HN : 0 < N.
  Hypothesis Hdiv : (N | 2 ^ 32).
  Hypothesis Hindex : ∀ p, index p = u32 p mod N.

Lemma index_mod p : index p = p mod N.
Proof.
  rewrite Hindex. unfold wrap. destruct Hdiv as [q Hq]. rewrite Hq, Z.mul_comm. assert (0 < q) by nia.
  rewrite Z.rem_mul_r by lia. rewrite <-Z.add_mod_idemp_r, Z.mul_comm, Z.mod_mul, Z.add_0_r, Z.mod_mod by lia. done.
Qed.

Lemma index_inj p j k : 0 ≤ j < N → 0 ≤ k < N → index (p + j) = index (p + k) → j = k.
Proof.
  rewrite !index_mod. intros Hj Hk H. assert ((j - k) mod N = 0) as Hm.
  { replace (j - k) with ((p + j) - (p + k)) by lia. rewrite Zminus_mod, H, Z.sub_diag. by apply Z.mod_0_l; lia. }
  apply Z.mod_divide in Hm as [m Hm]; [|lia]. assert (m = 0) by nia. subst m. lia.
Qed.

Lemma index_u32 p k : index (u32 p + k) = index (p + k).
Proof. rewrite !Hindex. by rewrite wrap_add_l. Qed.

Lemma index_mod_l p k : index (p mod N + k) = index (p + k).
Proof. rewrite !index_mod. by rewrite Zplus_mod_idemp_l. Qed.

Lemma copy_in_pos l : ∀ p q buf, u32 p = u32 q → copy_in index p l buf = copy_in index q l buf.
Proof.
  induction l as [|x l IH]; intros p q buf Hpq; [done|]. cbn [copy_in]. rewrite (IH (p + 1) (q + 1)).
  - f_equal. by rewrite !Hindex, Hpq.
  - by rewrite <-(wrap_add_l 32 p), <-(wrap_add_l 32 q), Hpq.
Qed.

Lemma copy_in_mod l : ∀ p q buf, p mod N = q mod N → copy_in index p l buf = copy_in index q l buf.
Proof.
  induction l as [|x l IH]; intros p q buf Hpq; [done|]. cbn [copy_in]. rewrite (IH (p + 1) (q + 1)).
  - f_equal. by rewrite !index_mod, Hpq.
  - by rewrite <-(Zplus_mod_idemp_l p), <-(Zplus_mod_idemp_l q), Hpq.
Qed.

Lemma u32_mod p : u32 p mod N = p mod N.
Proof. by rewrite <-Hindex, index_mod. Qed.

Definition holds (buf : gmap Z Z) (pos : Z) (l : list Z) : Prop :=
  ∀ k : nat, (k < length l)%nat → buf !! index (pos + Z.of_nat k) = l !! k.

Lemma holds_nil buf pos : holds buf pos [].
Proof. intros k Hk. simpl in Hk. lia. Qed.

Lemma holds_u32 buf pos l : holds buf (u32 pos) l ↔ holds buf pos l.
Proof. unfold holds. by setoid_rewrite index_u32. Qed.

Lemma holds_mod buf pos l : holds buf (pos mod N) l ↔ holds buf pos l.
Proof. unfold holds. by setoid_rewrite index_mod_l. Qed.

Lemma holds_drop buf pos l n : holds buf pos l → (n ≤ length l)%nat → holds buf (pos + Z.of_nat n) (drop n l).
Proof.
  intros H Hn k Hk. rewrite length_drop in Hk. rewrite lookup_drop, <-(H (n + k)%nat) by lia. do 2 f_equal. lia.
Qed.

Lemma holds_snoc buf pos l b : holds buf pos l → Z.of_nat (length l) < N →
  holds (<[index (pos + Z.of_nat (length l)) := b]> buf) pos (l ++ [b]).
Proof.
  intros H Hl k Hk. rewrite length_app in Hk. simpl in Hk. destruct (decide (k = length l)) as [->|Hne].
  - rewrite lookup_insert_eq. by rewrite list_lookup_middle.
  - rewrite lookup_insert_ne, lookup_app_l by (try lia; intros E%index_inj; lia). apply H. lia.
Qed.

Lemma holds_copy_in data : ∀ buf pos l, holds buf pos l → Z.of_nat (length l + length data) ≤ N →
  holds (copy_in index (pos + Z.of_nat (length l)) data buf) pos (l ++ data).
Proof.
  induction data as [|b data IH]; intros buf pos l H Hl; cbn [copy_in]; [by rewrite app_nil_r|].
  cbn [length] in Hl. replace (l ++ b :: data) with ((l ++ [b]) ++ data) by by rewrite <-app_assoc.
  replace (pos + Z.of_nat (length l) + 1) with (pos + Z.of_nat (length (l ++ [b]))) by (rewrite length_app; simpl; lia).
  apply IH; [apply holds_snoc; [done|lia]|]. rewrite length_app. simpl. lia.
Qed.

Lemma copy_out_spec buf pos l n : holds buf pos l → 0 ≤ n ≤ Z.of_nat (length l) →
  copy_out index pos n buf = Some (take (Z.to_nat n) l).
Proof.
  intros H Hn. unfold copy_out. apply mapM_Some_2. apply Forall2_same_length_lookup_2.
  - rewrite length_take, length_seqZ. lia.
  - intros k x y Hx Hy. apply lookup_seqZ in Hx as [-> Hk]. apply lookup_take_Some in Hy as [Hy Hk'].
    rewrite Z.add_0_l. rewrite H; [done|]. by eapply lookup_lt_Some.
Qed.

End Window.

Lemma rx_index_spec p : rx_index p = u32 p mod SOCK_RX_RING_SIZE.
Proof. unfold rx_index. change (SOCK_RX_RING_SIZE - 1) with (Z.ones 18). by rewrite Z.land_ones by lia. Qed.

Lemma rx_size_divides : (SOCK_RX_RING_SIZE | 2 ^ 32).
Proof. by exists 16384. Qed.

End Window.
