(* ===== verification/TcpRx.v ===== *)
(** * TCP, receive side: the byte stream is rebuilt in order

    The peer's stream is a function [st] from offsets to bytes; the byte at
    offset 0 has sequence number [B].  Segments arrive in any order, more than
    once and overlapping.  What has been put into the receive ring of the
    socket is always a prefix of the stream.  Offsets below [2^31] are
    considered: as long as a connection carries less than that, comparing
    sequence numbers by the sign of their difference is comparing offsets. *)
From S2P Require Import Prelude Bits Sched SchedSpec Blocking Net SockRx Tcp NetSpec Window.

Module TcpRx.
Import Net SockRx Tcp NetSpec Window.

(** ** Sequence numbers *)

Lemma i32_sub B a b : - 2 ^ 31 ≤ a - b < 2 ^ 31 → i32 (u32 (B + a) - u32 (B + b)) = a - b.
Proof.
  intros H. unfold sign, wrap. change (32 - 1) with 31. rewrite <-Zminus_mod. replace (B + a - (B + b)) with (a - b) by lia.
  change (2 ^ 32) with 4294967296. change (2 ^ 31) with 2147483648 in *. destruct (Z.ltb_spec ((a - b) mod 4294967296) 2147483648); Z.div_mod_to_equations; lia.
Qed.

Definition slice (st : Z → Z) (off n : Z) : list Z := map st (seqZ off n).

Lemma length_slice st off n : 0 ≤ n → Z.of_nat (length (slice st off n)) = n.
Proof. intros. unfold slice. rewrite length_map, length_seqZ. lia. Qed.

Lemma slice_app st off n m : 0 ≤ n → 0 ≤ m → slice st off (n + m) = slice st off n ++ slice st (off + n) m.
Proof. intros. unfold slice. by rewrite seqZ_app, map_app by lia. Qed.

Lemma slice_take st off n k : 0 ≤ k ≤ n → take (Z.to_nat k) (slice st off n) = slice st off k.
Proof.
  intros. replace n with (k + (n - k)) by lia. rewrite slice_app by lia. rewrite take_app_le, take_ge; [done|..];
    pose proof (length_slice st off k); lia.
Qed.

Lemma slice_drop st off n k : 0 ≤ k ≤ n → drop (Z.to_nat k) (slice st off n) = slice st (off + k) (n - k).
Proof.
  intros. replace n with (k + (n - k)) at 1 by lia. rewrite slice_app by lia. pose proof (length_slice st off k).
  rewrite drop_app_ge by lia. replace (Z.to_nat k - length (slice st off k))%nat with 0%nat by lia. by rewrite drop_0.
Qed.

(** ** The receive ring *)

(** The ring of [e] holds the bytes [u]. *)
Definition rx_ring (e : socket_entry) (u : list Z) : Prop := ∃ buf,
  se_rx_ring e = Some buf ∧ ring_used e = Z.of_nat (length u) ∧ Z.of_nat (length u) ≤ SOCK_RX_RING_SIZE ∧
  0 ≤ se_rx_head e < 2 ^ 32 ∧ holds rx_index buf (se_rx_tail e) u.

(** The fields receiving changes. *)
Definition sock_kept (e e' : socket_entry) : Prop :=
  e' = set_rx_head (λ _, se_rx_head e') (set_rx_ring (λ _, se_rx_ring e') e).

Definition tcb_kept (t t' : tcp_socket) : Prop :=
  t' = set_c_reorder (λ _, c_reorder t') (set_c_rcv_nxt (λ _, c_rcv_nxt t') t).

Lemma ring_free_spec e u : rx_ring e u → ring_free e = SOCK_RX_RING_SIZE - Z.of_nat (length u).
Proof.
  intros (buf & Hr & Hu & Hs & _). unfold ring_free. rewrite Hr, Hu. unfold SOCK_RX_RING_SIZE in *. by rewrite wrap_small by lia.
Qed.

Lemma ring_push_spec n sc i e u data : sockets n !! i = Some e → rx_ring e u →
  wp (ring_push i data) (n, sc) (λ k s', k = Z.min (Z.of_nat (length data)) (SOCK_RX_RING_SIZE - Z.of_nat (length u)) ∧
    ∃ e', s' = (with_sockets (alter (λ _, e') i) n, sc) ∧ rx_ring e' (u ++ take (Z.to_nat k) data) ∧ sock_kept e e').
Proof.
  intros He Hr. unfold ring_push. apply wp_bind. eapply wp_deref; [exact He|]. rewrite (ring_free_spec e u Hr).
  destruct Hr as (buf & Hbuf & Hu & Hs & Hh & Hho). set (space := SOCK_RX_RING_SIZE - _).
  set (k := if space <? Z.of_nat (length data) then space else Z.of_nat (length data)).
  assert (k = Z.min (Z.of_nat (length data)) space) as Hk by (unfold k; destruct (Z.ltb_spec space (Z.of_nat (length data))); lia).
  set (d := take (Z.to_nat k) data). assert (Z.of_nat (length d) = k) as Hd by (unfold d; rewrite length_take; lia).
  rewrite Hbuf. apply wp_bind, wp_nset, wp_ret. split; [done|].
  exists (set_rx_head (λ h, u32 (h + k)) (set_rx_ring (λ _, Some (copy_in rx_index (se_rx_head e) d buf)) e)). split_and!; [| |done].
  { f_equal. unfold with_sockets. f_equal. apply list_eq. intros j. destruct (decide (j = i)) as [->|]; [|by rewrite !list_lookup_alter_ne].
    by rewrite !list_lookup_alter_eq, He. }
  fold d. unfold space, SOCK_RX_RING_SIZE in *. clearbody k d. eexists. simpl. split_and!; [done|..].
  - unfold ring_used in *. simpl. rewrite wrap_sub_l. replace (se_rx_head e + k - se_rx_tail e) with (se_rx_head e - se_rx_tail e + k) by lia.
    rewrite <-wrap_add_l, Hu, wrap_small by lia. rewrite length_app. lia.
  - rewrite length_app. unfold SOCK_RX_RING_SIZE. lia.
  - apply wrap_range. lia.
  - apply wrap_range. lia.
  - rewrite (copy_in_pos rx_index SOCK_RX_RING_SIZE rx_index_spec d _ (se_rx_tail e + Z.of_nat (length u))).
    + apply (holds_copy_in rx_index SOCK_RX_RING_SIZE); [done|by apply rx_size_divides|apply rx_index_spec|done|unfold SOCK_RX_RING_SIZE; lia].
    + unfold ring_used in Hu. rewrite <-Hu, (Z.add_comm (se_rx_tail e)), wrap_add_l. f_equal. lia.
Qed.

(** ** The receiver *)

Section Stream.
  Context (st : Z → Z) (B : Z) (c i : nat).

Definition sq (off : Z) : Z := u32 (B + off).

Lemma sq_add off k : u32 (sq off + k) = sq (off + k).
Proof. unfold sq. rewrite wrap_add_l. f_equal. lia. Qed.

Definition in_range (off : Z) : Prop := 0 ≤ off < 2 ^ 31.

Lemma sq_sub a b : in_range a → in_range b → u32 (sq a - sq b) = u32 (a - b).
Proof. intros _ _. unfold sq, wrap. rewrite <-Zminus_mod. f_equal. lia. Qed.

Lemma SEQ_LEQ_spec a b : in_range a → in_range b → SEQ_LEQ (sq a) (sq b) = (a <=? b).
Proof. unfold in_range, SEQ_LEQ, sq. intros. rewrite i32_sub by lia. destruct (Z.leb_spec (a - b) 0), (Z.leb_spec a b); (done || lia). Qed.

Lemma SEQ_LT_spec a b : in_range a → in_range b → SEQ_LT (sq a) (sq b) = (a <? b).
Proof. unfold in_range, SEQ_LT, sq. intros. rewrite i32_sub by lia. destruct (Z.ltb_spec (a - b) 0), (Z.ltb_spec a b); (done || lia). Qed.

Lemma SEQ_GT_spec a b : in_range a → in_range b → SEQ_GT (sq a) (sq b) = (b <? a).
Proof. unfold in_range, SEQ_GT, sq. intros. rewrite i32_sub by lia. destruct (Z.ltb_spec 0 (a - b)), (Z.ltb_spec b a); (done || lia). Qed.

Lemma sq_eqb a b : in_range a → in_range b → (sq a =? sq b) = (a =? b).
Proof.
  unfold in_range, sq, wrap. intros Ha Hb. change (2 ^ 32) with 4294967296. change (2 ^ 31) with 2147483648 in *.
  destruct (Z.eqb_spec ((B + a) mod 4294967296) ((B + b) mod 4294967296)), (Z.eqb_spec a b); try done; Z.div_mod_to_equations; lia.
Qed.

(** A piece of the stream with its sequence number. *)
Definition piece (off seq : Z) (data : list Z) : Prop :=
  0 ≤ off ∧ seq = sq off ∧ data = slice st off (Z.of_nat (length data)) ∧ off + Z.of_nat (length data) < 2 ^ 31.

Definition entry_ok (x : reorder_entry) : Prop := ∀ q data, x = Some (q, data) → ∃ off, piece off q data.

(** An entry that starts behind [d]. *)
Definition entry_beyond (d : Z) (x : reorder_entry) : Prop := ∀ q data, x = Some (q, data) → ∃ off, piece off q data ∧ d < off.

(** The connection [c], owned by the socket [i], has received [d] bytes; [u]
    are in the ring, the last of them. *)
Record rx (n : net) (t : tcp_socket) (e : socket_entry) (d : Z) (u : list Z) : Prop := {
  x_tcb : tcp_sockets n !! c = Some t;
  x_sock : sockets n !! i = Some e;
  x_owner : c_owner t = Some i;
  x_callbacks : c_callbacks t = true;
  x_open : se_shut_rd e = false;
  x_range : in_range d;
  x_rcv : c_rcv_nxt t = sq d;
  x_len : length (c_reorder t) = TCP_REORDER_BUF_SIZE;
  x_entries : Forall entry_ok (c_reorder t);
  x_ring : rx_ring e u;
}.

(** Nothing else is touched. *)
Record kept (n n' : net) : Prop := {
  k_tcbs : ∀ c', c' ≠ c → tcp_sockets n' !! c' = tcp_sockets n !! c';
  k_tcb : ∀ t, tcp_sockets n !! c = Some t → ∃ t', tcp_sockets n' !! c = Some t' ∧ tcb_kept t t';
  k_socks : ∀ i', i' ≠ i → sockets n' !! i' = sockets n !! i';
  k_sock : ∀ e, sockets n !! i = Some e → ∃ e', sockets n' !! i = Some e' ∧ sock_kept e e';
  k_sent : sent n' = sent n;
}.

Lemma kept_refl n : kept n n.
Proof.
  split; try done.
  - intros t Ht. exists t. split; [done|]. by destruct t.
  - intros e He. exists e. split; [done|]. by destruct e.
Qed.

Lemma kept_trans n1 n2 n3 : kept n1 n2 → kept n2 n3 → kept n1 n3.
Proof.
  intros [A1 A2 A3 A4 A5] [B1 B2 B3 B4 B5]. split.
  - intros c' Hc. rewrite B1, A1 by done. done.
  - intros t (t' & Ht' & K)%A2. destruct (B2 t' Ht') as (t'' & Ht'' & K'). exists t''. split; [done|].
    unfold tcb_kept in *. rewrite K', K. done.
  - intros i' Hi. rewrite B3, A3 by done. done.
  - intros e (e' & He' & K)%A4. destruct (B4 e' He') as (e'' & He'' & K'). exists e''. split; [done|].
    unfold sock_kept in *. rewrite K', K. done.
  - congruence.
Qed.

Lemma kept_tcb n f : (∀ t, tcb_kept t (f t)) → kept n (with_tcp_sockets (alter f c) n).
Proof.
  intros Hf. split; try done; simpl.
  - intros c' Hc. by rewrite list_lookup_alter_ne.
  - intros t Ht. exists (f t). rewrite list_lookup_alter_eq, Ht. eauto.
  - intros e He. exists e. split; [done|]. by destruct e.
Qed.

Lemma kept_sock n e e' : sockets n !! i = Some e → sock_kept e e' → kept n (with_sockets (alter (λ _, e') i) n).
Proof.
  intros He K. split; try done; simpl.
  - intros t Ht. exists t. split; [done|]. by destruct t.
  - intros i' Hi. by rewrite list_lookup_alter_ne.
  - intros e0 He0. exists e'. rewrite list_lookup_alter_eq, He0. split; [done|]. congruence.
Qed.

Lemma sock_kept_open e e' : sock_kept e e' → se_shut_rd e' = se_shut_rd e.
Proof. by intros ->. Qed.

Lemma tcp_deliver_spec n sc t e d u data : rx n t e d u → SchedClient.consistent sc →
  data = slice st d (Z.of_nat (length data)) → d + Z.of_nat (length data) < 2 ^ 31 →
  wp (tcp_deliver c data) (n, sc) (λ got s', got = Z.min (Z.of_nat (length data)) (SOCK_RX_RING_SIZE - Z.of_nat (length u)) ∧
    SchedClient.consistent s'.2 ∧ kept n s'.1 ∧ ∃ t' e', rx s'.1 t' e' (d + got) (u ++ slice st d got) ∧ c_reorder t' = c_reorder t).
Proof.
  intros [Ht He Ho Hcb Hop Hr Hrcv Hl Hen Hring] Hsc Hdata Hd. unfold tcp_deliver. apply wp_bind. eapply wp_deref; [exact Ht|].
  rewrite Ho, Hcb. set (len := Z.of_nat (length data)) in *.
  assert (0 ≤ len) by (unfold len; lia). pose proof Hring as (buf & Hbuf & _ & Hsize & _).
  set (k := Z.min len (SOCK_RX_RING_SIZE - Z.of_nat (length u))). assert (0 ≤ k ≤ len) as Hk by lia.
  apply wp_bind. apply (wp_mono _ _ (λ got s', got = k ∧ SchedClient.consistent s'.2 ∧ ∃ e', s'.1 = with_sockets (alter (λ _, e') i) n ∧
    rx_ring e' (u ++ slice st d k) ∧ sock_kept e e')).
  - unfold sock_tcp_on_data. apply wp_bind. eapply wp_deref; [exact He|]. rewrite Hbuf, Hop. apply wp_bind.
    eapply wp_mono; [by apply (ring_push_spec n sc i e u data)|]. intros k' s' (-> & e' & -> & Hr' & K).
    fold len in Hr'. fold k in Hr'. rewrite Hdata, slice_take in Hr' by lia. fold len. fold k.
    assert (wp (when negb (k =? 0) do wake) (with_sockets (alter (λ _, e') i) n, sc) (λ _ s', SchedClient.consistent s'.2 ∧ s'.1 = with_sockets (alter (λ _, e') i) n)) as Hw.
    { destruct (negb (k =? 0)); [|by apply wp_ret]. apply wp_lift_r. eapply wp_mono; [by apply SchedClient.io_wake_all_law|]. by intros [] sc' (? & _). }
    apply wp_bind. eapply wp_mono; [exact Hw|]. intros [] s' [Hsc' Hs']. apply wp_ret. split; [done|]. split; [done|]. by exists e'.
  - intros got [n1 sc1] (-> & Hsc1 & e' & Hn1 & Hr' & K). simpl in *. subst n1. rewrite (proj2 (Z.ltb_ge _ _)) by lia.
    apply wp_bind, wp_nset, wp_ret. split; [done|]. split; [done|]. split.
    + eapply kept_trans; [by eapply kept_sock|]. by apply kept_tcb.
    + exists (set_c_rcv_nxt (λ x, u32 (x + k)) t), e'. split; [|done]. split; simpl; try done.
      * by rewrite list_lookup_alter_eq, Ht.
      * by rewrite list_lookup_alter_eq, He.
      * rewrite (sock_kept_open _ _ K). done.
      * unfold in_range in *. lia.
      * by rewrite Hrcv, sq_add.
Qed.

(** ** The reorder buffer *)

Fixpoint count (l : list reorder_entry) : nat :=
  match l with
  | [] => 0
  | Some _ :: l' => S (count l')
  | None :: l' => count l'
  end.

Fixpoint total (l : list reorder_entry) : Z :=
  match l with
  | [] => 0
  | Some (_, data) :: l' => Z.of_nat (length data) + total l'
  | None :: l' => total l'
  end.

Lemma total_nonneg l : 0 ≤ total l.
Proof. induction l as [|[[q data]|] l IH]; simpl; lia. Qed.

Lemma count_le l : (count l ≤ length l)%nat.
Proof. induction l as [|[x|] l IH]; simpl; lia. Qed.

Lemma release_spec l k q data : l !! k = Some (Some (q, data)) →
  count l = S (count (<[k := None]> l)) ∧ total l = Z.of_nat (length data) + total (<[k := None]> l).
Proof.
  revert k. induction l as [|x l IH]; intros [|k] Hk; try done; cbn in Hk.
  - injection Hk as ->. done.
  - destruct (IH k Hk) as [H1 H2]. change (<[S k := None]> (x :: l)) with (x :: <[k := None]> l). destruct x as [[q' data']|]; cbn [count total]; lia.
Qed.

Lemma rx_release n t e d u k : rx n t e d u →
  rx (with_tcp_sockets (alter (set_c_reorder (<[k := None]>)) c) n) (set_c_reorder (<[k := None]>) t) e d u.
Proof.
  intros [Ht He Ho Hcb Hop Hr Hrcv Hl Hen Hring]. split; simpl; try done.
  - by rewrite list_lookup_alter_eq, Ht.
  - by rewrite length_insert.
  - apply Forall_insert; [done|]. by intros q data [=].
Qed.

Lemma rx_app n t e d u d1 d2 : d ≤ d1 → d1 ≤ d2 → rx n t e d2 ((u ++ slice st d (d1 - d)) ++ slice st d1 (d2 - d1)) →
  rx n t e d2 (u ++ slice st d (d2 - d)).
Proof.
  intros H1 H2. rewrite <-app_assoc. replace (slice st d1) with (slice st (d + (d1 - d))) by (f_equal; lia).
  rewrite <-slice_app by lia. by replace (d1 - d + (d2 - d1)) with (d2 - d) by lia.
Qed.

(** What one pass, or the rest of it, does. *)
Definition drained (n : net) (t : tcp_socket) (d : Z) (u : list Z) (idx k : nat) (p p' : bool) (s' : state) : Prop :=
  SchedClient.consistent s'.2 ∧ kept n s'.1 ∧ ∃ t' e' d', d ≤ d' ∧ rx s'.1 t' e' d' (u ++ slice st d (d' - d)) ∧
    (∀ j, (j < idx)%nat → c_reorder t' !! j = c_reorder t !! j) ∧
    (count (c_reorder t') ≤ count (c_reorder t))%nat ∧
    (p' = true → p = false → (count (c_reorder t') < count (c_reorder t))%nat) ∧
    (total (c_reorder t) + Z.of_nat (length u) ≤ SOCK_RX_RING_SIZE →
      total (c_reorder t') + Z.of_nat (length u) + (d' - d) ≤ SOCK_RX_RING_SIZE ∧ (p = true → p' = true) ∧
      (p' = false → d' = d ∧ ∀ j x, (idx ≤ j < idx + k)%nat → c_reorder t' !! j = Some x → entry_beyond d x)).

(** An entry that is left alone. *)
Lemma drained_skip n t d u idx k p p' s' :
  (∀ x, c_reorder t !! idx = Some x → entry_beyond d x) →
  drained n t d u (S idx) k p p' s' → drained n t d u idx (S k) p p' s'.
Proof.
  intros Hx (Hsc & K & t' & e' & d' & Hd & Hrx & Hj & Hc & Hc' & Hroom). split; [done|]. split; [done|].
  exists t', e', d'. split_and!; try done.
  - intros j Hlt. apply Hj. lia.
  - intros Hr. destruct (Hroom Hr) as (H1 & H2 & H3). split_and!; try done. intros Hp'. destruct (H3 Hp') as [-> H4]. split; [done|].
    intros j x Hlt Hlook. destruct (decide (j = idx)) as [->|]; [|apply (H4 j); [lia|done]].
    rewrite Hj in Hlook by lia. by apply Hx.
Qed.

(** An entry that is released, after its bytes up to [d1] have been delivered. *)
Lemma drained_release n n1 t t1 d d1 u idx k p p1 p' q data s' :
  c_reorder t !! idx = Some (Some (q, data)) → d ≤ d1 → d1 - d ≤ Z.of_nat (length data) → kept n n1 →
  c_reorder t1 = <[idx := None]> (c_reorder t) →
  (d1 = d ∧ p1 = p ∨ (total (c_reorder t) + Z.of_nat (length u) ≤ SOCK_RX_RING_SIZE → p1 = true)) →
  drained n1 t1 d1 (u ++ slice st d (d1 - d)) (S idx) k p1 p' s' → drained n t d u idx (S k) p p' s'.
Proof.
  intros Hl Hd Hdata Hk Ht1 Hp1 (Hsc & K & t' & e' & d' & Hd' & Hrx & Hj & Hc & Hc' & Hroom). destruct (release_spec _ _ _ _ Hl) as [R1 R2].
  rewrite Ht1 in *. split; [done|]. split; [by eapply kept_trans|]. exists t', e', d'.
  assert ((idx < length (c_reorder t))%nat) as Hidx by by eapply lookup_lt_Some.
  split_and!; [lia|by eapply rx_app|..].
  - intros j Hlt. rewrite Hj, list_lookup_insert_ne by lia. done.
  - lia.
  - intros _ _. lia.
  - intros Hr. rewrite length_app, Nat2Z.inj_add, length_slice in Hroom by lia.
    destruct Hroom as (H1 & H2 & H3); [lia|]. split_and!; [lia| |].
    + intros ->. destruct Hp1 as [[_ ->]|Hp1]; [by apply H2|]. by apply H2, Hp1.
    + intros Hp'. destruct Hp1 as [[-> ->]|Hp1].
      * destruct (H3 Hp') as [-> H4]. split; [done|]. intros j x Hlt Hlook. destruct (decide (j = idx)) as [->|]; [|apply (H4 j); [lia|done]].
        rewrite Hj in Hlook by lia. rewrite list_lookup_insert_eq in Hlook by done. injection Hlook as <-. by intros ? ? [=].
      * rewrite H2 in Hp' by by apply Hp1. done.
Qed.

Lemma drain_pass_spec k : ∀ idx p n sc t e d u, rx n t e d u → SchedClient.consistent sc →
  wp (drain_pass c idx k p) (n, sc) (λ p' s', drained n t d u idx k p p' s').
Proof.
  induction k as [|k IH]; intros idx p n sc t e d u Hrx Hsc; cbn [drain_pass].
  - apply wp_ret. split; [done|]. split; [apply kept_refl|]. exists t, e, d. rewrite Z.sub_diag. change (slice st d 0) with (@nil Z). rewrite app_nil_r.
    split_and!; try done; [by intros ->|]. intros Hr. split_and!; [lia|done|]. intros _. split; [done|]. intros j x Hj. lia.
  - apply wp_bind. eapply wp_deref; [apply Hrx|]. pose proof (x_range _ _ _ _ _ Hrx) as Hin.
    destruct (c_reorder t !! idx) as [[[q data]|]|] eqn:Hl.
    2,3: eapply wp_mono; [by apply (IH _ _ _ _ t e d u)|]; intros p' s'; apply drained_skip; intros x Hx; rewrite Hl in Hx; try done; injection Hx as <-; by intros ? ? [=].
    pose proof (Forall_lookup_1 _ _ _ _ (x_entries _ _ _ _ _ Hrx) Hl q data eq_refl) as (off & Hoff & -> & Hdata & Hend).
    set (len := Z.of_nat (length data)) in *. assert (len = Z.of_nat (length data)) as Hlen by done. assert (0 ≤ len) by lia. cbv zeta.
    rewrite (x_rcv _ _ _ _ _ Hrx), sq_add, !SEQ_LEQ_spec by (unfold in_range in *; lia).
    destruct (Z.leb_spec (off + len) d) as [Hold|Hnew].
    { apply wp_bind, wp_nset. eapply wp_mono; [apply (IH _ _ _ _ (set_c_reorder (<[idx := None]>) t) e d u); [by apply rx_release|done]|].
      intros p' s' Hdr. eapply (drained_release n (with_tcp_sockets (alter (set_c_reorder (<[idx := None]>)) c) n) t (set_c_reorder (<[idx := None]>) t) d d); [exact Hl|lia|lia|by apply kept_tcb|done|by left|].
      rewrite Z.sub_diag. change (slice st d 0) with (@nil Z). rewrite app_nil_r. exact Hdr. }
    destruct (Z.leb_spec off d) as [Hle|Hgt].
    2:{ eapply wp_mono; [by apply (IH _ _ _ _ t e d u)|]. intros p' s'. apply drained_skip. intros x Hx. rewrite Hl in Hx. injection Hx as <-.
        intros q' data' [= <- <-]. exists off. by repeat split. }
    rewrite sq_sub by (unfold in_range in *; lia). unfold in_range in Hin.
    rewrite (wrap_small 32 (d - off)) by lia. rewrite (wrap_small 32 (len - (d - off))) by lia.
    assert (drop (Z.to_nat (d - off)) data = slice st d (len - (d - off))) as Hdrop.
    { rewrite Hdata, slice_drop by lia. f_equal. lia. }
    assert (Z.of_nat (length (drop (Z.to_nat (d - off)) data)) = len - (d - off)) as Hdlen by (rewrite Hdrop; apply length_slice; lia).
    apply wp_bind. eapply wp_mono; [apply (tcp_deliver_spec n sc t e d u); [done|done|rewrite Hdlen; done|rewrite Hdlen; lia]|].
    intros got [n1 sc1] (Hgot & Hsc1 & K1 & t1 & e1 & Hrx1 & Hre). simpl in *. rewrite Hdlen in Hgot.
    pose proof (x_ring _ _ _ _ _ Hrx) as (_ & _ & _ & Hsz & _).
    apply wp_bind, wp_nset. eapply wp_mono; [apply (IH _ _ _ _ (set_c_reorder (<[idx := None]>) t1) e1 (d + got) (u ++ slice st d got)); [by apply rx_release|done]|].
    intros p' s' Hdr. eapply (drained_release n (with_tcp_sockets (alter (set_c_reorder (<[idx := None]>)) c) n1) t (set_c_reorder (<[idx := None]>) t1) d (d + got) u idx k p (got =? len - (d - off))); [exact Hl|lia|lia|eapply kept_trans; [exact K1|by apply kept_tcb]| | |].
    + simpl. by rewrite Hre.
    + right. intros Hroom. apply Z.eqb_eq. destruct (release_spec _ _ _ _ Hl) as [_ R2]. pose proof (total_nonneg (<[idx := None]> (c_reorder t))). lia.
    + replace (d + got - d) with got by lia. exact Hdr.
Qed.

Lemma drain_loop_spec fuel : ∀ n sc t e d u, rx n t e d u → SchedClient.consistent sc → (count (c_reorder t) < fuel)%nat →
  wp (drain_loop fuel c) (n, sc) (λ _ s', SchedClient.consistent s'.2 ∧ kept n s'.1 ∧ ∃ t' e' d', d ≤ d' ∧ rx s'.1 t' e' d' (u ++ slice st d (d' - d)) ∧
    (total (c_reorder t) + Z.of_nat (length u) ≤ SOCK_RX_RING_SIZE → Forall (entry_beyond d') (c_reorder t'))).
Proof.
  induction fuel as [|fuel IH]; intros n sc t e d u Hrx Hsc Hf; [lia|]. cbn [drain_loop]. apply wp_bind.
  eapply wp_mono; [by apply (drain_pass_spec _ _ _ n sc t e d u)|].
  intros p [n1 sc1] (Hsc1 & K1 & t1 & e1 & d1 & Hd1 & Hrx1 & _ & Hc1 & Hc2 & Hroom). simpl in *. destruct p.
  - eapply wp_mono; [apply (IH n1 sc1 t1 e1 d1); [done|done|]|].
    { specialize (Hc2 eq_refl eq_refl). lia. }
    intros [] s' (Hsc' & K' & t' & e' & d' & Hd' & Hrx' & Hbey). split; [done|]. split; [by eapply kept_trans|]. exists t', e', d'.
    split_and!; [lia|by eapply rx_app|]. intros Hr. apply Hbey. rewrite length_app, Nat2Z.inj_add, length_slice by lia.
    destruct (Hroom Hr) as [H1 _]. lia.
  - apply wp_ret. split; [done|]. split; [done|]. exists t1, e1, d1. split_and!; try done.
    intros Hr. destruct (Hroom Hr) as (_ & _ & H3). destruct (H3 eq_refl) as [-> H4]. apply Forall_lookup_2. intros j x Hj.
    apply (H4 j x); [|done]. apply lookup_lt_Some in Hj. rewrite (x_len _ _ _ _ _ Hrx1) in Hj. lia.
Qed.

(** [kmalloc] succeeds or not and touches nothing here. *)
Lemma wp_kmalloc size n sc (Q : bool → state → Prop) :
  (∀ ok h, Q ok (with_heap_ok (λ _, h) n, sc)) → wp (kmalloc size) (n, sc) Q.
Proof.
  intros HQ. unfold wp, kmalloc. simpl. destruct (heap_ok n) as [|ok h] eqn:E; [|apply HQ].
  assert (n = with_heap_ok (λ _, []) n) as Hn by (destruct n; simpl in *; by subst). rewrite Hn. apply HQ.
Qed.

Lemma reorder_slot_lookup l k j : reorder_slot l k = Some j → (k ≤ j)%nat ∧ l !! (j - k)%nat = Some None.
Proof.
  revert k. induction l as [|[x|] l IH]; intros k Hk; [done| |].
  - apply IH in Hk as [Hle Hk]. split; [lia|]. by replace (j - k)%nat with (S (j - S k)) by lia.
  - injection Hk as <-. rewrite Nat.sub_diag. split; [lia|done].
Qed.

Lemma tcp_reorder_insert_spec n sc t e d u off seq data : rx n t e d u → piece off seq data →
  wp (tcp_reorder_insert c seq data) (n, sc) (λ _ s', s'.2 = sc ∧ kept n s'.1 ∧ ∃ t', rx s'.1 t' e d u).
Proof.
  intros Hrx Hp. unfold tcp_reorder_insert. apply wp_bind. eapply wp_deref; [apply Hrx|].
  assert (wp (mret tt) (n, sc) (λ _ s', s'.2 = sc ∧ kept n s'.1 ∧ ∃ t', rx s'.1 t' e d u)) as Hsame.
  { apply wp_ret. split; [done|]. split; [apply kept_refl|]. by exists t. }
  destruct (SEQ_GEQ _ _); [done|]. destruct (reorder_has _ _); [done|]. destruct (reorder_slot _ _) as [k|]; [|done].
  apply wp_bind, wp_kmalloc. intros ok h. assert (rx (with_heap_ok (λ _, h) n) t e d u) as Hrx' by by destruct Hrx. assert (kept n (with_heap_ok (λ _, h) n)) as K.
  { destruct (kept_refl n). by split. }
  destruct ok; [|apply wp_ret; split; [done|]; split; [done|]; by exists t]. apply wp_nset. split; [done|]. split; [eapply kept_trans; [exact K|by apply kept_tcb]|].
  exists (set_c_reorder (<[k := Some (seq, data)]>) t). destruct Hrx' as [Ht He Ho Hcb Hop Hr Hrcv Hl Hen Hring]. split; simpl in *; try done.
  - by rewrite list_lookup_alter_eq, Ht.
  - by rewrite length_insert.
  - apply Forall_insert; [done|]. intros q' data' [= <- <-]. by exists off.
Qed.

(** In-order bytes, then what was waiting for them. *)
Lemma deliver_drain_spec n sc t e d u data : rx n t e d u → SchedClient.consistent sc →
  data = slice st d (Z.of_nat (length data)) → d + Z.of_nat (length data) < 2 ^ 31 →
  wp (got ← tcp_deliver c data; when got =? Z.of_nat (length data) do tcp_reorder_drain c) (n, sc) (λ _ s',
    SchedClient.consistent s'.2 ∧ kept n s'.1 ∧ ∃ t' e' d', rx s'.1 t' e' d' (u ++ slice st d (d' - d)) ∧
      d + Z.min (Z.of_nat (length data)) (SOCK_RX_RING_SIZE - Z.of_nat (length u)) ≤ d' ∧
      (Z.of_nat (length data) + total (c_reorder t) + Z.of_nat (length u) ≤ SOCK_RX_RING_SIZE → Forall (entry_beyond d') (c_reorder t'))).
Proof.
  intros Hrx Hsc Hdata Hd. apply wp_bind. eapply wp_mono; [by apply (tcp_deliver_spec n sc t e d u)|].
  intros got [n1 sc1] (Hgot & Hsc1 & K1 & t1 & e1 & Hrx1 & Hre). simpl in *. pose proof (x_ring _ _ _ _ _ Hrx) as (_ & _ & _ & Hsz & _).
  pose proof (total_nonneg (c_reorder t)). destruct (Z.eqb_spec got (Z.of_nat (length data))) as [E|E].
  - eapply wp_mono; [apply (drain_loop_spec _ n1 sc1 t1 e1 (d + got) (u ++ slice st d got)); [done|done|]|].
    { pose proof (count_le (c_reorder t1)). rewrite (x_len _ _ _ _ _ Hrx1) in *. lia. }
    intros [] s' (Hsc' & K' & t' & e' & d' & Hd' & Hrx' & Hbey). split; [done|]. split; [by eapply kept_trans|]. exists t', e', d'. split_and!.
    + eapply (rx_app _ _ _ d u (d + got)); [lia|lia|]. by replace (d + got - d) with got by lia.
    + lia.
    + intros Hr. apply Hbey. rewrite Hre, length_app, Nat2Z.inj_add, length_slice by lia. lia.
  - apply wp_ret. split; [done|]. split; [done|]. exists t1, e1, (d + got). split_and!; [by replace (d + got - d) with got by lia|lia|lia].
Qed.

Lemma tcp_data_spec n sc t e d u off seq data : rx n t e d u → SchedClient.consistent sc → piece off seq data →
  wp (tcp_data c seq (Z.of_nat (length data)) (mret data)) (n, sc) (λ _ s',
    SchedClient.consistent s'.2 ∧ kept n s'.1 ∧ ∃ t' e' d', d ≤ d' ∧ rx s'.1 t' e' d' (u ++ slice st d (d' - d)) ∧
      (off ≤ d → Z.min (off + Z.of_nat (length data)) (d + (SOCK_RX_RING_SIZE - Z.of_nat (length u))) ≤ d') ∧
      (off ≤ d < off + Z.of_nat (length data) → Z.of_nat (length data) + total (c_reorder t) + Z.of_nat (length u) ≤ SOCK_RX_RING_SIZE →
        Forall (entry_beyond d') (c_reorder t'))).
Proof.
  intros Hrx Hsc Hp. pose proof Hp as (Hoff & -> & Hdata & Hend). set (len := Z.of_nat (length data)) in *. assert (len = Z.of_nat (length data)) as Hlen by done. assert (0 ≤ len) by lia.
  pose proof (x_range _ _ _ _ _ Hrx) as Hin. pose proof (x_ring _ _ _ _ _ Hrx) as (_ & _ & _ & Hsz & _). pose proof (total_nonneg (c_reorder t)).
  unfold tcp_data. apply wp_bind. eapply wp_deref; [apply Hrx|]. rewrite (x_rcv _ _ _ _ _ Hrx), sq_add.
  rewrite sq_eqb, SEQ_LT_spec, SEQ_GT_spec, sq_sub by (unfold in_range in *; lia). unfold in_range in Hin.
  destruct (Z.eqb_spec off d) as [->|Hne].
  { eapply wp_bind, wp_ret. eapply wp_mono; [by apply (deliver_drain_spec n sc t e d u)|].
    intros [] s' (Hsc' & K' & t' & e' & d' & Hrx' & Hd' & Hbey). split; [done|]. split; [done|]. exists t', e', d'. split_and!; [lia|exact Hrx'|lia|]. intros _. exact Hbey. }
  destruct (Z.ltb_spec off d) as [Hlt|Hgt].
  - destruct (Z.ltb_spec d (off + len)) as [Hnew|Hold].
    + eapply wp_bind, wp_ret. rewrite (wrap_small 32 (d - off)) by lia.
      assert (drop (Z.to_nat (d - off)) data = slice st d (len - (d - off))) as Hdrop by (rewrite Hdata, slice_drop by lia; f_equal; lia).
      assert (Z.of_nat (length (drop (Z.to_nat (d - off)) data)) = len - (d - off)) as Hdlen by (rewrite Hdrop; apply length_slice; lia).
      eapply wp_mono; [apply (deliver_drain_spec n sc t e d u); [done|done|by rewrite Hdlen|lia]|].
      intros [] s' (Hsc' & K' & t' & e' & d' & Hrx' & Hd' & Hbey). rewrite Hdlen in *. split; [done|]. split; [done|]. exists t', e', d'.
      split_and!; [lia|done|lia|]. intros _ Hr. apply Hbey. lia.
    + apply wp_ret. split; [done|]. split; [apply kept_refl|]. exists t, e, d. rewrite Z.sub_diag. change (slice st d 0) with (@nil Z). rewrite app_nil_r.
      split_and!; try done; lia.
  - eapply wp_bind, wp_ret. eapply wp_mono; [by apply (tcp_reorder_insert_spec n sc t e d u off)|]. intros [] [n' sc'] (Hsc' & K & t' & Hrx'). simpl in *. subst sc'.
    split; [done|]. split; [done|]. exists t', e, d. rewrite Z.sub_diag. change (slice st d 0) with (@nil Z). rewrite app_nil_r. split_and!; try done; lia.
Qed.

(** ** The application reads *)

Lemma ring_pop_spec n sc t e d u max : rx n t e d u → 0 ≤ max →
  wp (ring_pop i max false) (n, sc) (λ out s', s'.2 = sc ∧ ∃ e' u', rx s'.1 t e' d u' ∧ u = out ++ u' ∧
    Z.of_nat (length out) = Z.min max (Z.of_nat (length u))).
Proof.
  intros [Ht He Ho Hcb Hop Hr Hrcv Hl Hen (buf & Hbuf & Hu & Hs & Hh & Hho)] Hmax. unfold ring_pop. apply wp_bind. eapply wp_deref; [exact He|].
  rewrite Hu, Hbuf. set (k := if Z.of_nat (length u) <? max then Z.of_nat (length u) else max).
  assert (k = Z.min max (Z.of_nat (length u))) as Hk by (unfold k; destruct (Z.ltb_spec (Z.of_nat (length u)) max); lia). clearbody k.
  apply wp_bind. eapply wp_rd; [apply (copy_out_spec rx_index); [exact Hho|lia]|]. cbn [negb]. apply wp_bind, wp_nset, wp_ret. split; [done|].
  exists (set_rx_tail (λ t, u32 (t + k)) e), (drop (Z.to_nat k) u). split; [|split; [by rewrite take_drop|rewrite length_take; lia]].
  split; simpl; try done; [by rewrite list_lookup_alter_eq, He|]. exists buf. unfold SOCK_RX_RING_SIZE in *. split_and!; try done; try (simpl; apply Hh).
  - unfold ring_used in *. simpl. rewrite length_drop. rewrite <-(Z2Nat.id k) in * by lia. set (m := Z.to_nat k) in *.
    unfold wrap in *. rewrite Zminus_mod_idemp_r. replace (se_rx_head e - (se_rx_tail e + Z.of_nat m)) with (se_rx_head e - se_rx_tail e - Z.of_nat m) by lia.
    rewrite <-Zminus_mod_idemp_l, Hu, Z.mod_small by lia. lia.
  - rewrite length_drop. unfold SOCK_RX_RING_SIZE. lia.
  - simpl. apply (holds_u32 rx_index SOCK_RX_RING_SIZE rx_index_spec). replace (se_rx_tail e + k) with (se_rx_tail e + Z.of_nat (Z.to_nat k)) by lia. apply holds_drop; [done|lia].
Qed.

(** ** Runs *)

(** What receiving looks at. *)
Definition view (n : net) : option (Z * list reorder_entry * option nat * bool) * option (option (gmap Z Z) * Z * Z * bool) :=
  ((λ t, (c_rcv_nxt t, c_reorder t, c_owner t, c_callbacks t)) <$> tcp_sockets n !! c,
   (λ e, (se_rx_ring e, se_rx_head e, se_rx_tail e, se_shut_rd e)) <$> sockets n !! i).

(** A segment of the peer's stream is handled, the application takes [out] from
    the ring, or other code runs: sending, timers, other connections. *)
Inductive rx_step : state → list Z → state → Prop :=
| rx_segment off seq data s s' : piece off seq data →
    tcp_data c seq (Z.of_nat (length data)) (mret data) s = Ret (tt, s') → rx_step s [] s'
| rx_read max out s s' : 0 ≤ max → ring_pop i max false s = Ret (out, s') → rx_step s out s'
| rx_other s s' : view s'.1 = view s.1 → SchedClient.consistent s'.2 → rx_step s [] s'.

Inductive rx_run (s0 : state) : list Z → state → Prop :=
| rx_start : rx_run s0 [] s0
| rx_more out out' s s' : rx_run s0 out s → rx_step s out' s' → rx_run s0 (out ++ out') s'.

Lemma rx_view n n' t e d u : rx n t e d u → view n' = view n → ∃ t' e', rx n' t' e' d u.
Proof.
  intros [Ht He Ho Hcb Hop Hr Hrcv Hl Hen (buf & Hbuf & Hu & Hs & Hh & Hho)] Hv. unfold view in Hv. rewrite Ht, He in Hv. simpl in Hv. injection Hv as H1 H2.
  apply fmap_Some in H1 as (t' & Ht' & E1). apply fmap_Some in H2 as (e' & He' & E2). injection E1 as A1 A2 A3 A4. injection E2 as B1 B2 B3 B4.
  exists t', e'. split; try congruence. exists buf. unfold ring_used in *. rewrite <-B1, <-B2, <-B3. done.
Qed.

Lemma rx_run_inv s0 out s t e : rx_run s0 out s → rx s0.1 t e 0 [] → SchedClient.consistent s0.2 →
  SchedClient.consistent s.2 ∧ ∃ t' e' d u, rx s.1 t' e' d u ∧ out ++ u = slice st 0 d.
Proof.
  intros Hrun Hrx0 Hsc0. induction Hrun as [|out out' s s' Hrun (Hsc & t1 & e1 & d & u & Hrx & Hout) Hstep].
  - split; [done|]. by exists t, e, 0, [].
  - destruct Hstep as [off seq data [n sc] s' Hp Hs'|max out' [n sc] s' Hmax Hs'|s s' Hv Hsc']; simpl in *.
    + destruct (wp_Ret _ _ _ _ _ (tcp_data_spec n sc t1 e1 d u off seq data Hrx Hsc Hp) Hs') as (Hsc' & _ & t' & e' & d' & Hd' & Hrx' & _).
      split; [done|]. exists t', e', d', (u ++ slice st d (d' - d)). split; [done|]. rewrite app_nil_r, app_assoc, Hout.
      pose proof (x_range _ _ _ _ _ Hrx) as Hin. unfold in_range in Hin. rewrite <-(Z.add_0_l d) at 2. rewrite <-slice_app by lia. f_equal. lia.
    + destruct (wp_Ret _ _ _ _ _ (ring_pop_spec n sc t1 e1 d u max Hrx Hmax) Hs') as (Hsc' & e' & u' & Hrx' & Hu & _). split; [congruence|].
      exists t1, e', d, u'. split; [done|]. by rewrite <-app_assoc, <-Hu.
    + destruct (rx_view _ _ _ _ _ _ Hrx Hv) as (t' & e' & Hrx'). split; [done|]. exists t', e', d, u. by rewrite app_nil_r.
Qed.

End Stream.

(** C28. TCP delivers the peer's byte stream.  Whatever segments of the stream
    arrive, in any order, repeated or overlapping, with whatever reads and
    other code in between: the bytes the application has read so far, followed
    by those in the ring, are a prefix of the stream.  And the next segment is
    handled without a fault or endless loop: if it reaches what has been
    received, it is taken in as far as the ring has room, and if there is room
    for everything that is buffered, no buffered segment that has become
    contiguous stays behind. *)
Theorem tcp_receive_correct st B c i s0 t0 e0 out s : rx st B c i s0.1 t0 e0 0 [] → SchedClient.consistent s0.2 →
  rx_run st B c i s0 out s →
  ∃ t e d u, rx st B c i s.1 t e d u ∧ out ++ u = slice st 0 d ∧
    ∀ off seq data, piece st B off seq data →
      wp (tcp_data c seq (Z.of_nat (length data)) (mret data)) s (λ _ s', kept c i s.1 s'.1 ∧ ∃ t' e' d',
        d ≤ d' ∧ rx st B c i s'.1 t' e' d' (u ++ slice st d (d' - d)) ∧
        (off ≤ d → Z.min (off + Z.of_nat (length data)) (d + (SOCK_RX_RING_SIZE - Z.of_nat (length u))) ≤ d') ∧
        (off ≤ d < off + Z.of_nat (length data) → Z.of_nat (length data) + total (c_reorder t) + Z.of_nat (length u) ≤ SOCK_RX_RING_SIZE →
          Forall (entry_beyond st B d') (c_reorder t'))).
Proof.
  intros Hrx0 Hsc0 Hrun. destruct (rx_run_inv st B c i s0 out s t0 e0 Hrun Hrx0 Hsc0) as (Hsc & t & e & d & u & Hrx & Hout).
  exists t, e, d, u. split; [done|]. split; [done|]. intros off seq data Hp. destruct s as [n sc].
  eapply wp_mono; [by apply (tcp_data_spec st B c i n sc t e d u off)|]. intros [] s' (_ & K & H). done.
Qed.

(** The stream "ABCD..." in two segments that arrive in the wrong order. *)
Definition demo_st (k : Z) : Z := 65 + k.
Definition demo_tcb : tcp_socket :=
  mk_tcp true 0x0A000202 49152 80 TCP_ESTABLISHED TCP_ERR_NONE 500 500 1000 1460 (Some ∅) 0 0 false false 400 0 false 0
    1000 0 false (replicate 16 None) 0 true (Some 0%nat).
Definition demo_sock : socket_entry :=
  mk_sock SOCK_CONNECTED 1 (Some 0%nat) (Some ∅) 0 0 false false false 0 49152 0x0A000202 80 [] 0 0.
Definition demo_net : net :=
  mk_net [] [] [] [demo_sock] 32768 [demo_tcb] 49153 1 0 [] false false false 0 [] true 0 [] [].
Definition demo_0 : state := (demo_net, SchedSpec.SchedSpec.demo).
Definition demo_1 : state := exec (tcp_data 0 1002 2 (mret [67; 68])) demo_0.
Definition demo_2 : state := exec (tcp_data 0 1000 2 (mret [65; 66])) demo_1.
Definition demo_3 : state := exec (ring_pop 0 100 false) demo_2.

Lemma demo_rx : rx demo_st 1000 0 0 demo_net demo_tcb demo_sock 0 [].
Proof.
  split; try reflexivity.
  - unfold in_range. lia.
  - apply Forall_replicate. by intros ? ? [=].
  - exists ∅. split_and!; try done.
Qed.

Lemma demo_rx_run : rx_run demo_st 1000 0 0 demo_0 [65; 66; 67; 68] demo_3.
Proof.
  assert (tcp_data 0 1002 2 (mret [67; 68]) demo_0 = Ret (tt, demo_1)) as E1 by (vm_compute; reflexivity).
  assert (tcp_data 0 1000 2 (mret [65; 66]) demo_1 = Ret (tt, demo_2)) as E2 by (vm_compute; reflexivity).
  assert (ring_pop 0 100 false demo_2 = Ret ([65; 66; 67; 68], demo_3)) as E3 by (vm_compute; reflexivity).
  assert (piece demo_st 1000 2 1002 [67; 68]) as P1 by (repeat split; lia). assert (piece demo_st 1000 0 1000 [65; 66]) as P2 by (repeat split; lia).
  generalize dependent demo_3. generalize dependent demo_2. generalize dependent demo_1. intros s1 E1 s2 E2 s3 E3.
  assert (0 ≤ 100) as H100 by lia. exact (rx_more demo_st 1000 0 0 demo_0 [] [65; 66; 67; 68] s2 s3 (rx_more demo_st 1000 0 0 demo_0 [] [] s1 s2 (rx_more demo_st 1000 0 0 demo_0 [] [] demo_0 s1 (rx_start _ _ _ _ _)
    (rx_segment _ _ _ _ 2 1002 [67; 68] _ _ P1 E1)) (rx_segment _ _ _ _ 0 1000 [65; 66] _ _ P2 E2)) (rx_read _ _ _ _ 100 _ _ _ H100 E3)).
Qed.

Lemma tcp_receive_correct_witness : rx_run demo_st 1000 0 0 demo_0 [65; 66; 67; 68] demo_3 ∧
  ∃ d u, [65; 66; 67; 68] ++ u = slice demo_st 0 d.
Proof.
  split; [exact demo_rx_run|].
  destruct (tcp_receive_correct demo_st 1000 0 0 demo_0 demo_tcb demo_sock [65; 66; 67; 68] demo_3 demo_rx SchedClient.demo_consistent demo_rx_run)
    as (t & e & d & u & _ & H & _). exists d, u. exact H.
Defined.

End TcpRx.
