(* ===== verification/TcpTx.v ===== *)
(** * TCP, send side: what goes out is the written stream

    [W] is everything the application has written so far; its first byte has
    sequence number [S].  The peer has acknowledged [a] bytes; the send ring
    holds the rest.  Every segment that leaves carries the bytes of [W] that
    belong to its sequence number, however often the timer sends it again. *)
From S2P Require Import Prelude Bits Sched SchedSpec Blocking Net SockRx Tcp NetSpec Window.

Module TcpTx.
Import Net SockRx Tcp NetSpec Window.

Lemma tx_index_spec p : tx_index p = u32 p mod TCP_TX_BUF_SIZE.
Proof. done. Qed.

Lemma tx_size_divides : (TCP_TX_BUF_SIZE | 2 ^ 32).
Proof. by exists 65536. Qed.

(** The send ring of [t] holds [w]. *)
Definition tx_ring (t : tcp_socket) (w : list Z) : Prop := ∃ buf,
  c_tx_buf t = Some buf ∧ c_tx_len t = Z.of_nat (length w) ∧ Z.of_nat (length w) ≤ TCP_TX_BUF_SIZE ∧ holds tx_index buf (c_tx_head t) w.

(** The fields sending changes. *)
Definition tcb_sent (t t' : tcp_socket) : Prop :=
  t' = set_c_snd_nxt (λ _, c_snd_nxt t') (set_c_fin_sent (λ _, c_fin_sent t') (set_c_rtx_armed (λ _, c_rtx_armed t')
         (set_c_rtx_deadline_ms (λ _, c_rtx_deadline_ms t') (set_c_last_adv_wnd (λ _, c_last_adv_wnd t') t)))).

Lemma tcb_sent_refl t : tcb_sent t t.
Proof. by destruct t. Qed.

Lemma tcb_sent_trans t1 t2 t3 : tcb_sent t1 t2 → tcb_sent t2 t3 → tcb_sent t1 t3.
Proof. unfold tcb_sent. intros H1 H2. rewrite H2, H1. done. Qed.

Section Send.
  Context (poll : M state unit) (c : nat) (f : net_interface) (mac : list Z).

(** The machine can send for the connection [t]. *)
Record ready (n : net) (t : tcp_socket) : Prop := {
  r_host : host n f;
  r_route : arp_get (next_hop f (c_remote_ip t)) (arp_cache n) = Some mac;
  r_tcb : tcp_sockets n !! c = Some t;
  r_owner : ∀ i, c_owner t = Some i → is_Some (sockets n !! i);
}.

(** Only frames left, and the connection's own fields changed. *)
Record sent_only (n n' : net) : Prop := {
  so_if : interfaces n' = interfaces n;
  so_arp : arp_cache n' = arp_cache n;
  so_init : rtl_initialized n' = rtl_initialized n;
  so_sockets : sockets n' = sockets n;
  so_tcbs : ∀ c', c' ≠ c → tcp_sockets n' !! c' = tcp_sockets n !! c';
}.

Lemma sent_only_refl n : sent_only n n.
Proof. done. Qed.

Lemma sent_only_trans n1 n2 n3 : sent_only n1 n2 → sent_only n2 n3 → sent_only n1 n3.
Proof. intros [A1 A2 A3 A4 A5] [B1 B2 B3 B4 B5]. split; try congruence. intros c' Hc. by rewrite B5, A5. Qed.

Lemma sent_only_store n g : sent_only n (with_tcp_sockets (alter g c) n).
Proof. split; simpl; try done. intros c' Hc. by rewrite list_lookup_alter_ne. Qed.

Lemma sent_only_emit n frame : sent_only n (emit frame n).
Proof. by split. Qed.

Lemma ready_step n n' t t' : ready n t → sent_only n n' → tcp_sockets n' !! c = Some t' → c_remote_ip t' = c_remote_ip t → c_owner t' = c_owner t →
  ready n' t'.
Proof.
  intros [[H1 H2 H3 H4 H5] R T O] [A1 A2 A3 A4 A5] Ht' Hip Ho. split; [by split; try congruence|congruence|done|].
  intros i Hi. rewrite A4. apply O. congruence.
Qed.

(** A segment of this connection on the wire. *)
Definition seg_frame (t : tcp_socket) (seq flags : Z) (data : list Z) (frame : list Z) : Prop := ∃ rcv wnd,
  let seg sum := tcp_segment (c_local_port t) (c_remote_port t) seq rcv flags wnd sum data in
  frame = pad_frame (ip_frame f mac (c_remote_ip t) 6 (seg (tcp_checksum (if_ip f) (c_remote_ip t) (seg 0)))).

Lemma seg_frame_sent t t' seq flags data frame : tcb_sent t t' → seg_frame t seq flags data frame ↔ seg_frame t' seq flags data frame.
Proof. intros ->. done. Qed.

Lemma length_tcp_segment lp rp seq ack flags wnd sum data : has flags TCP_SYN = false →
  length (tcp_segment lp rp seq ack flags wnd sum data) = (20 + length data)%nat.
Proof. intros E. unfold tcp_segment. rewrite E. simpl. done. Qed.

(** One segment without SYN. *)
Lemma tcp_xmit_spec n sc t seq flags off len data : ready n t → has flags TCP_SYN = false → 0 ≤ len ≤ TCP_MAX_SEG_PAYLOAD →
  tx_bytes t off len = Some data → Z.of_nat (length data) = len →
  wp (tcp_xmit poll c seq flags off len) (n, sc) (λ _ s', s'.2 = sc ∧ sent_only n s'.1 ∧ tick s'.1 = tick n ∧
    ∃ wnd frame, tcp_sockets s'.1 !! c = Some (set_c_last_adv_wnd (λ _, wnd) t) ∧ sent s'.1 = sent n ++ [frame] ∧ seg_frame t seq flags data frame).
Proof.
  intros [Hh Hr Ht Ho] Hsyn Hlen Hdata Hdlen. unfold tcp_xmit. apply wp_bind. apply (run_wp _ _ (Some 0%nat) (n, sc)).
  { unfold net_get_primary_interface, nget, gets. simpl. pose proof (h_if _ _ Hh). by destruct (interfaces n). }
  apply wp_bind. eapply wp_deref; [apply Hh|]. rewrite (proj2 (Z.ltb_ge TCP_MAX_SEG_PAYLOAD len)) by lia.
  assert (∃ w, (if c_callbacks t then sock_tcp_rx_space (c_owner t) else mret 65535) (n, sc) = Ret (w, (n, sc))) as [w Hw].
  { destruct (c_callbacks t); [|by eexists]. unfold sock_tcp_rx_space. destruct (c_owner t) as [i|]; [|by eexists].
    destruct (Ho i eq_refl) as [e He]. exists (ring_free e). unfold sock_load. by rewrite (bind_Ret _ _ _ e (n, sc)) by (unfold deref; simpl; by rewrite He). }
  set (wnd := if 65535 <? w then 65535 else w). set (t1 := set_c_last_adv_wnd (λ _, wnd) t). set (n1 := with_tcp_sockets (alter (set_c_last_adv_wnd (λ _, wnd)) c) n).
  apply wp_bind. apply (run_wp _ _ wnd (n1, sc)).
  { unfold tcp_rcv_window, tcb_load. rewrite (bind_Ret _ _ _ t (n, sc)) by (unfold deref; simpl; by rewrite Ht). rewrite (bind_Ret _ _ _ w (n, sc)) by done. done. }
  assert (tcp_sockets n1 !! c = Some t1) as Ht1 by (unfold n1; simpl; by rewrite list_lookup_alter_eq, Ht).
  apply wp_bind. eapply wp_deref; [exact Ht1|]. apply wp_bind. eapply wp_rd; [exact Hdata|].
  eapply run_wp; [apply (ipv4_send_spec poll n1 sc f mac)|].
  - destruct Hh. by split.
  - done.
  - rewrite length_tcp_segment by done. unfold TCP_MAX_SEG_PAYLOAD in *. lia.
  - split; [done|]. split; [eapply sent_only_trans; [apply sent_only_store|apply sent_only_emit]|]. split; [done|].
    eexists wnd, _. split; [exact Ht1|]. split; [reflexivity|]. exists (c_rcv_nxt t), wnd. reflexivity.
Qed.

Lemma tcp_arm_rtx_spec n sc t : tcp_sockets n !! c = Some t → wp (tcp_arm_rtx c) (n, sc) (λ _ s', s'.2 = sc ∧ sent_only n s'.1 ∧ sent s'.1 = sent n ∧
  ∃ t', tcp_sockets s'.1 !! c = Some t' ∧ tcb_sent t t' ∧ c_rtx_armed t' = true ∧ c_snd_nxt t' = c_snd_nxt t ∧ c_fin_sent t' = c_fin_sent t).
Proof.
  intros Ht. unfold tcp_arm_rtx. apply wp_bind, wp_nset. apply wp_bind, wp_nget. apply wp_nset. split; [done|]. split.
  { split; simpl; try done. intros c' Hc. by rewrite !list_lookup_alter_ne. }
  split; [done|]. simpl. rewrite !list_lookup_alter_eq, Ht. eexists. split; [done|]. by destruct t.
Qed.

(** Bytes cut into segments: consecutive pieces of 1 to [mss] bytes, each with
    its offset. *)
Inductive cut (mss : Z) : Z → list Z → list (Z * list Z) → Prop :=
| cut_nil off : cut mss off [] []
| cut_cons off d rest ps : 0 < Z.of_nat (length d) ≤ mss → cut mss (off + Z.of_nat (length d)) rest ps →
    cut mss off (d ++ rest) ((off, d) :: ps).

(** A data segment [off] bytes behind [snd_una]. *)
Definition data_frame (t : tcp_socket) (p : Z * list Z) (frame : list Z) : Prop :=
  ∃ flags, (flags = TCP_ACK ∨ flags = Z.lor TCP_ACK TCP_PSH) ∧ seg_frame t (u32 (c_snd_una t + p.1)) flags p.2 frame.

Lemma data_frame_sent t t' p frame : tcb_sent t t' → data_frame t p frame ↔ data_frame t' p frame.
Proof. intros ->. done. Qed.

(** Bytes from [off] to [m] of the ring. *)
Definition range (w : list Z) (off m : Z) : list Z := take (Z.to_nat (m - off)) (drop (Z.to_nat off) w).

Lemma range_split w off k m : 0 ≤ off → 0 ≤ k → off + k ≤ m → range w off m = range w off (off + k) ++ range w (off + k) m.
Proof.
  intros. unfold range. replace (Z.to_nat (off + k)) with (Z.to_nat off + Z.to_nat k)%nat by lia. rewrite <-drop_drop.
  replace (Z.to_nat (m - off)) with (Z.to_nat k + Z.to_nat (m - (off + k)))%nat by lia. rewrite <-take_take_drop. do 2 f_equal. lia.
Qed.

Lemma length_range w off m : 0 ≤ off → off ≤ m ≤ Z.of_nat (length w) → Z.of_nat (length (range w off m)) = m - off.
Proof. intros. unfold range. rewrite length_take, length_drop. lia. Qed.

Lemma tx_bytes_spec t w off n : tx_ring t w → 0 ≤ off → 0 ≤ n → off + n ≤ Z.of_nat (length w) → tx_bytes t off n = Some (range w off (off + n)).
Proof.
  intros (buf & Hbuf & _ & _ & Hh) Ho Hn Hl. unfold tx_bytes, range. rewrite Hbuf.
  replace (c_tx_head t + off) with (c_tx_head t + Z.of_nat (Z.to_nat off)) by lia. replace (off + n - off) with n by lia.
  apply (copy_out_spec tx_index); [apply holds_drop; [done|lia]|]. rewrite length_drop. lia.
Qed.

Lemma tx_ring_sent t t' w : tcb_sent t t' → tx_ring t w → tx_ring t' w.
Proof. intros ->. done. Qed.

Lemma effective_mss_range t : 0 ≤ c_peer_mss t → 0 < effective_mss t ≤ TCP_MAX_SEG_PAYLOAD.
Proof.
  intros H. unfold effective_mss, TCP_DEFAULT_MSS, TCP_MAX_SEG_PAYLOAD. destruct (Z.eqb_spec (c_peer_mss t) 0); cbv zeta.
  - simpl. lia.
  - destruct (Z.ltb_spec 1460 (c_peer_mss t)); lia.
Qed.

Lemma output_loop_spec mss w fuel : 0 < mss ≤ TCP_MAX_SEG_PAYLOAD → ∀ n sc t off, ready n t → tx_ring t w → 0 ≤ c_snd_una t < 2 ^ 32 → 0 ≤ off < 2 ^ 31 →
  c_snd_nxt t = u32 (c_snd_una t + off) → (0 < fuel)%nat → Z.of_nat (length w) - off < Z.of_nat fuel → 0 ≤ c_snd_wnd t →
  wp (output_loop poll fuel c mss) (n, sc) (λ _ s', s'.2 = sc ∧ sent_only n s'.1 ∧ ∃ t' ps frames,
    let m := Z.min (Z.of_nat (length w)) (c_snd_wnd t) in
    tcp_sockets s'.1 !! c = Some t' ∧ tcb_sent t t' ∧ c_fin_sent t' = c_fin_sent t ∧
    c_snd_nxt t' = u32 (c_snd_una t + Z.max off m) ∧ (c_rtx_armed t = true ∨ off < m → c_rtx_armed t' = true) ∧
    cut mss off (range w off m) ps ∧ sent s'.1 = sent n ++ frames ∧ Forall2 (data_frame t) ps frames).
Proof.
  intros Hmss. induction fuel as [|fuel IH]; intros n sc t off Hrd Hw Huna Hoff Hnxt H0 Hf Hwnd; [lia|]. cbn [output_loop].
  pose proof Hw as (buf & Hbuf & Htl & Hsz & Hh). unfold TCP_TX_BUF_SIZE in *.
  apply wp_bind. eapply wp_deref; [apply Hrd|]. cbv zeta.
  assert (u32 (c_snd_nxt t - c_snd_una t) = off) as ->.
  { rewrite Hnxt, wrap_sub_l. replace (_ + off - _) with off by lia. apply wrap_small. lia. }
  rewrite Htl. set (m := Z.min (Z.of_nat (length w)) (c_snd_wnd t)).
  assert (m ≤ off → wp (mret tt) (n, sc) (λ _ s', s'.2 = sc ∧ sent_only n s'.1 ∧ ∃ t' ps frames, tcp_sockets s'.1 !! c = Some t' ∧ tcb_sent t t' ∧ c_fin_sent t' = c_fin_sent t ∧
    c_snd_nxt t' = u32 (c_snd_una t + Z.max off m) ∧ (c_rtx_armed t = true ∨ off < m → c_rtx_armed t' = true) ∧
    cut mss off (range w off m) ps ∧ sent s'.1 = sent n ++ frames ∧ Forall2 (data_frame t) ps frames)) as Hstop.
  { intros Hle. apply wp_ret. split; [done|]. split; [done|]. exists t, [], []. split_and!; [apply Hrd|apply tcb_sent_refl|done| | | | |done].
    - by rewrite Z.max_l by lia.
    - intros [?|?]; [done|lia].
    - unfold range. replace (Z.to_nat (m - off)) with 0%nat by lia. rewrite take_0. constructor.
    - by rewrite app_nil_r. }
  destruct (Z.leb_spec (Z.of_nat (length w)) off); [apply Hstop; lia|]. destruct (Z.leb_spec (c_snd_wnd t) off); [apply Hstop; lia|]. clear Hstop.
  assert (∀ a b : Z, (if a <? b then a else b) = Z.min a b) as Hmin by (intros a b; destruct (Z.ltb_spec a b); lia).
  rewrite !Hmin. set (k := Z.min mss _). assert (k = Z.min mss (m - off)) as Hk by (unfold k, m; lia).
  clearbody k. set (flags := if u32 (off + k) =? Z.of_nat (length w) then _ else _).
  assert (flags = TCP_ACK ∨ flags = Z.lor TCP_ACK TCP_PSH) as Hflags by (unfold flags; destruct (_ =? _); eauto). clearbody flags.
  unfold TCP_MAX_SEG_PAYLOAD in *.
  apply wp_bind. eapply wp_mono; [apply (tcp_xmit_spec n sc t _ flags off k (range w off (off + k)) Hrd)|].
  { by destruct Hflags as [-> | ->]. } { unfold TCP_MAX_SEG_PAYLOAD. lia. } { apply tx_bytes_spec; (done || lia). } { rewrite length_range; lia. }
  intros [] [n1 sc1] (Hsc1 & So1 & _ & wnd & frame & Ht1 & Hs1 & Hfr). cbn [fst snd] in Hsc1, So1, Ht1, Hs1. subst sc1. apply wp_bind, wp_nset.
  set (t2 := set_c_snd_nxt (λ x, u32 (x + k)) (set_c_last_adv_wnd (λ _, wnd) t)). set (n2 := with_tcp_sockets (alter (set_c_snd_nxt (λ x, u32 (x + k))) c) n1).
  assert (tcp_sockets n2 !! c = Some t2) as Ht2 by (unfold n2; simpl; by rewrite list_lookup_alter_eq, Ht1).
  assert (sent_only n n2) as So2. { eapply sent_only_trans; [exact So1|apply sent_only_store]. }
  apply wp_bind. eapply wp_deref; [exact Ht2|].
  apply wp_bind. apply (wp_mono _ _ (λ _ s', s'.2 = sc ∧ sent_only n s'.1 ∧ sent s'.1 = sent n2 ∧
    ∃ t3, tcp_sockets s'.1 !! c = Some t3 ∧ tcb_sent t2 t3 ∧ c_rtx_armed t3 = true ∧ c_snd_nxt t3 = c_snd_nxt t2 ∧ c_fin_sent t3 = c_fin_sent t2)).
  { destruct (c_rtx_armed t2) eqn:Ea; cbn [negb].
    - apply wp_ret. split; [done|]. split; [done|]. split; [done|]. exists t2. by split_and!; [|apply tcb_sent_refl|..].
    - eapply wp_mono; [by apply (tcp_arm_rtx_spec n2 sc t2)|]. intros [] s' (? & ? & ? & ?). split; [done|]. split; [by eapply sent_only_trans|]. done. }
  intros [] [n3 sc3] (Hsc3 & So3 & Hs3 & t3 & Ht3 & K3 & Ha3 & Hn3 & Hf3). cbn [fst snd] in Hsc3, So3, Hs3, Ht3. subst sc3.
  assert (tcb_sent t t2) as K2 by by destruct t. assert (tcb_sent t t3) as Kt3 by (by eapply tcb_sent_trans).
  assert (c_snd_una t3 = c_snd_una t ∧ c_snd_wnd t3 = c_snd_wnd t ∧ c_remote_ip t3 = c_remote_ip t ∧ c_owner t3 = c_owner t) as (E1 & E2 & E3 & E4) by (rewrite Kt3; done).
  eapply wp_mono; [apply (IH n3 sc t3 (off + k))|].
  { by eapply (ready_step n n3 t t3). } { by eapply tx_ring_sent. } { by rewrite E1. } { lia. }
  { rewrite E1, Hn3. unfold t2. simpl. rewrite Hnxt, wrap_add_l. f_equal. lia. } { lia. } { lia. } { by rewrite E2. }
  rewrite E2, E1. fold m. intros [] s' (Hsc' & So' & t' & ps & frames & Ht' & K' & Hf' & Hn' & Ha' & Hcut & Hs' & Hfrs). split; [done|].
  split; [by eapply sent_only_trans|]. exists t', ((off, range w off (off + k)) :: ps), (frame :: frames). split_and!; try done.
  - by eapply tcb_sent_trans.
  - rewrite Hf', Hf3. done.
  - rewrite Hn'. do 2 f_equal. lia.
  - intros _. apply Ha'. by left.
  - rewrite (range_split w off k m) by lia. constructor; [rewrite length_range; lia|]. rewrite length_range by lia. by replace (off + (off + k - off)) with (off + k) by lia.
  - rewrite Hs', Hs3. change (sent n2) with (sent n1). rewrite Hs1. by rewrite <-app_assoc.
  - constructor; [exists flags; split; [done|]; simpl; by rewrite <-Hnxt|]. eapply Forall2_impl; [exact Hfrs|]. intros p x. by apply data_frame_sent.
Qed.

(** ** The sender *)

Section Stream.
  Context (S : Z).

(** [W] has been written, [a] bytes of it are acknowledged, [off] more have been
    sent. *)
Record tx (n : net) (t : tcp_socket) (W : list Z) (a off : Z) : Prop := {
  t_ready : ready n t;
  t_active : c_active t = true;
  t_state : c_state t = TCP_ESTABLISHED ∨ c_state t = TCP_CLOSE_WAIT;
  t_fin : c_fin_pending t = false ∧ c_fin_sent t = false;
  t_acked : 0 ≤ a ≤ Z.of_nat (length W);
  t_ring : tx_ring t (drop (Z.to_nat a) W);
  t_una : c_snd_una t = u32 (S + a);
  t_nxt : c_snd_nxt t = u32 (S + a + off);
  t_off : 0 ≤ off ≤ Z.of_nat (length W) - a;
  t_wnd : 0 ≤ c_snd_wnd t;
  t_mss : 0 ≤ c_peer_mss t;
  t_armed : 0 < off → c_rtx_armed t = true;
}.

(** A segment whose bytes are those of the stream at its sequence number. *)
Definition good_frame (t : tcp_socket) (W : list Z) (frame : list Z) : Prop := ∃ off flags d,
  0 ≤ off ∧ off + Z.of_nat (length d) ≤ Z.of_nat (length W) ∧ d = range W off (off + Z.of_nat (length d)) ∧ seg_frame t (u32 (S + off)) flags d frame.

(** Ports and peer of a connection. *)
Definition conn_id (t : tcp_socket) : Z * Z * Z := (c_local_port t, c_remote_port t, c_remote_ip t).

Lemma good_frame_id t t' W frame : conn_id t = conn_id t' → good_frame t W frame → good_frame t' W frame.
Proof.
  intros [= E1 E2 E3] (off & flags & d & H1 & H2 & H3 & rcv & wnd & ->). exists off, flags, d. split_and!; try done. exists rcv, wnd. by rewrite E1, E2, E3.
Qed.

Lemma range_app w w' off m : 0 ≤ off ≤ m → m ≤ Z.of_nat (length w) → range (w ++ w') off m = range w off m.
Proof.
  intros. unfold range. rewrite drop_app_le by lia. rewrite take_app_le; [done|]. rewrite length_drop. lia.
Qed.

Lemma good_frame_more t W W' frame : good_frame t W frame → good_frame t (W ++ W') frame.
Proof.
  intros (off & flags & d & H1 & H2 & H3 & H4). exists off, flags, d. split_and!; try done.
  - rewrite length_app. lia.
  - rewrite range_app by lia. done.
Qed.

Lemma range_drop W a off m : 0 ≤ a → 0 ≤ off → range (drop (Z.to_nat a) W) off m = range W (a + off) (a + m).
Proof.
  intros. unfold range. rewrite drop_drop. replace (Z.to_nat a + Z.to_nat off)%nat with (Z.to_nat (a + off)) by lia.
  by replace (a + m - (a + off)) with (m - off) by lia.
Qed.

Lemma cut_range mss w m ps : ∀ off, cut mss off (range w off m) ps → 0 ≤ off → off ≤ m ≤ Z.of_nat (length w) →
  Forall (λ p, off ≤ p.1 ∧ p.1 + Z.of_nat (length p.2) ≤ m ∧ p.2 = range w p.1 (p.1 + Z.of_nat (length p.2))) ps.
Proof.
  induction ps as [|[o d] ps IH]; intros off Hcut Hoff Hm; [constructor|]. inversion Hcut as [|off' d' rest ps' Hd Hrest E1 E2 E3]; subst.
  pose proof (length_range w o m Hoff Hm) as Hlen. rewrite <-E2, length_app in Hlen. set (k := Z.of_nat (length d)) in *.
  rewrite (range_split w o k m) in E2 by lia. apply app_inj_1 in E2 as [E2 E3].
  2:{ pose proof (length_range w o (o + k) ltac:(lia) ltac:(lia)). lia. }
  subst rest. constructor; [simpl; fold k; split_and!; [lia|lia|done]|].
  eapply Forall_impl; [apply (IH (o + k)); [done|lia|lia]|]. intros p (? & ? & ?). split_and!; try done. lia.
Qed.

Lemma cut_good n t W a off m mss ps frames : tx n t W a off → cut mss off (range (drop (Z.to_nat a) W) off m) ps → off ≤ m ≤ Z.of_nat (length W) - a →
  Forall2 (data_frame t) ps frames → Forall (good_frame t W) frames.
Proof.
  intros Htx Hcut Hm Hfr. pose proof (t_acked _ _ _ _ _ Htx) as Ha. pose proof (t_off _ _ _ _ _ Htx) as Ho.
  apply cut_range in Hcut; [|lia|rewrite length_drop; lia]. apply Forall_lookup_2. intros j x Hx.
  destruct (Forall2_lookup_r _ _ _ _ _ Hfr Hx) as ([o d] & Hp & flags & _ & Hs). simpl in Hs.
  destruct (Forall_lookup_1 _ _ _ _ Hcut Hp) as (H1 & H2 & H3). simpl in *. exists (a + o), flags, d. split_and!; [lia|lia| |].
  - rewrite H3 at 1. rewrite range_drop by lia. f_equal. lia.
  - rewrite (t_una _ _ _ _ _ Htx), wrap_add_l in Hs. by rewrite Z.add_assoc.
Qed.

Lemma tx_sent n n' t t' W a off off' : tx n t W a off → sent_only n n' → tcp_sockets n' !! c = Some t' → tcb_sent t t' → c_fin_sent t' = false →
  c_snd_nxt t' = u32 (S + a + off') → 0 ≤ off' ≤ Z.of_nat (length W) - a → (0 < off' → c_rtx_armed t' = true) → tx n' t' W a off'.
Proof.
  intros [Hrd Hact Hst [Hf1 Hf2] Ha Hring Hu Hn Ho Hw Hmss Harm] So Ht' K Hfin Hn' Ho' Harm'.
  split; try done; try (by rewrite K).
  apply (ready_step n n' t t'); try done; by rewrite K.
Qed.

Lemma output_persist_spec n sc t : tcp_sockets n !! c = Some t → wp (output_persist c) (n, sc) (λ _ s', s'.2 = sc ∧ sent_only n s'.1 ∧ sent s'.1 = sent n ∧
  ∃ t', tcp_sockets s'.1 !! c = Some t' ∧ tcb_sent t t' ∧ c_snd_nxt t' = c_snd_nxt t ∧ c_fin_sent t' = c_fin_sent t ∧ (c_rtx_armed t = true → c_rtx_armed t' = true)).
Proof.
  intros Ht. unfold output_persist. apply wp_bind. eapply wp_deref; [exact Ht|]. destruct (_ && _).
  - eapply wp_mono; [by apply tcp_arm_rtx_spec|]. intros [] s' (? & ? & ? & t' & ? & ? & ? & ? & ?). split_and!; try done. exists t'. by split_and!.
  - apply wp_ret. split_and!; try done. exists t. by split_and!; [|apply tcb_sent_refl|..].
Qed.

Lemma tcp_output_spec n sc t W a off : tx n t W a off →
  wp (tcp_output poll c) (n, sc) (λ _ s', s'.2 = sc ∧ sent_only n s'.1 ∧ ∃ t' ps frames,
    let off' := Z.max off (Z.min (Z.of_nat (length W) - a) (c_snd_wnd t)) in
    tx s'.1 t' W a off' ∧ tcb_sent t t' ∧ sent s'.1 = sent n ++ frames ∧ Forall (good_frame t W) frames ∧
    cut (effective_mss t) off (range (drop (Z.to_nat a) W) off off') ps ∧ Forall2 (data_frame t) ps frames).
Proof.
  intros Htx. pose proof Htx as [Hrd Hact Hst [Hf1 Hf2] Ha Hring Hu Hn Ho Hw Hmss Harm]. unfold tcp_output. apply wp_bind. eapply wp_deref; [apply Hrd|].
  assert (can_output (c_state t) = true) as -> by (by destruct Hst as [-> | ->]). cbn [negb].
  pose proof Hring as (buf & Hbuf & Htl & Hsz & _). unfold TCP_TX_BUF_SIZE in *. assert (Z.of_nat (length (drop (Z.to_nat a) W)) = Z.of_nat (length W) - a) as Hlen by (rewrite length_drop; lia).
  set (w := drop (Z.to_nat a) W) in *. apply wp_bind.
  eapply wp_mono; [apply (output_loop_spec (effective_mss t) w _ (effective_mss_range t Hmss) n sc t off)|]; try done.
  { rewrite Hu. apply wrap_range. lia. } { lia. } { by rewrite Hu, wrap_add_l. } { lia. } { rewrite Htl, Nat2Z.id, Nat2Z.inj_succ. lia. }
  rewrite Hlen. set (m := Z.min (Z.of_nat (length W) - a) (c_snd_wnd t)) in *.
  intros [] [n1 sc1] (Hsc1 & So1 & t1 & ps & frames & Ht1 & K1 & Hf1' & Hn1 & Harm1 & Hcut & Hs1 & Hfr). cbn [fst snd] in *. subst sc1.
  apply wp_bind. unfold output_fin. apply wp_bind. eapply wp_deref; [exact Ht1|]. assert (c_fin_pending t1 = false) as -> by (rewrite K1; done). cbn [andb]. apply wp_ret.
  eapply wp_mono; [by apply (output_persist_spec n1 sc t1)|]. intros [] [n2 sc2] (Hsc2 & So2 & Hs2 & t2 & Ht2 & K2 & Hn2 & Hf2' & Harm2). cbn [fst snd] in *. subst sc2.
  assert (range w off m = range w off (Z.max off m)) as Hrange.
  { destruct (Z.le_ge_cases off m); [by rewrite Z.max_r|]. rewrite Z.max_l by lia. unfold range. f_equal. lia. }
  split; [done|]. split; [by eapply sent_only_trans|]. exists t2, ps, frames. split_and!; try done.
  - eapply (tx_sent n n2 t t2); [done|by eapply sent_only_trans|done|by eapply tcb_sent_trans|congruence| |lia|].
    + rewrite Hn2, Hn1, Hu, wrap_add_l. f_equal.
    + intros Hpos. apply Harm2, Harm1. destruct (Z.le_gt_cases m off); [left; apply Harm; lia|by right].
  - by eapply tcb_sent_trans.
  - by rewrite Hs2.
  - eapply (cut_good n t W a off (Z.max off m)); [done|fold w; rewrite <-Hrange; exact Hcut|lia|done].
  - by rewrite <-Hrange.
Qed.

(** ** The operations *)

Lemma tcp_write_spec n sc t W a off data : tx n t W a off →
  wp (tcp_write poll (Some c) data) (n, sc) (λ k s', s'.2 = sc ∧ sent_only n s'.1 ∧
    k = Z.min (Z.of_nat (length data)) (TCP_TX_BUF_SIZE - (Z.of_nat (length W) - a)) ∧ ∃ t' ps frames,
    let W' := W ++ take (Z.to_nat k) data in
    let off' := Z.max off (Z.min (Z.of_nat (length W') - a) (c_snd_wnd t)) in
    tx s'.1 t' W' a off' ∧ conn_id t' = conn_id t ∧ sent s'.1 = sent n ++ frames ∧ Forall (good_frame t W') frames ∧
    cut (effective_mss t) off (range (drop (Z.to_nat a) W') off off') ps ∧ Forall2 (data_frame t) ps frames).
Proof.
  intros Htx. pose proof Htx as [Hrd Hact Hst [Hf1 Hf2] Ha (buf & Hbuf & Htl & Hsz & Hh) Hu Hn Ho Hw Hmss Harm]. unfold tcp_write. apply wp_bind. eapply wp_deref; [apply Hrd|].
  rewrite Hbuf, Hact, Hf1. cbn [negb orb]. rewrite Htl in *. unfold TCP_TX_BUF_SIZE in *. rewrite length_drop in *.
  replace (Z.of_nat (length W - Z.to_nat a)) with (Z.of_nat (length W) - a) in * by lia. set (space := 65536 - (Z.of_nat (length W) - a)).
  set (k := if space <? Z.of_nat (length data) then space else Z.of_nat (length data)).
  assert (k = Z.min (Z.of_nat (length data)) space) as Hk by (unfold k; destruct (Z.ltb_spec space (Z.of_nat (length data))); lia). clearbody k.
  set (d := take (Z.to_nat k) data). assert (Z.of_nat (length d) = k) as Hd by (unfold d; rewrite length_take; lia).
  apply wp_bind, wp_nset. apply wp_bind, wp_nset. set (tail := u32 _ mod 65536).
  set (t1 := set_c_tx_len (λ n, n + k) (set_c_tx_buf (λ _, Some (copy_in tx_index tail d buf)) t)). set (n1 := with_tcp_sockets _ (with_tcp_sockets _ n)).
  assert (tcp_sockets n1 !! c = Some t1) as Ht1 by (unfold n1; simpl; by rewrite !list_lookup_alter_eq, (r_tcb _ _ Hrd)).
  assert (sent_only n n1) as So1 by (split; simpl; try done; intros c' Hc; by rewrite !list_lookup_alter_ne).
  assert (tx n1 t1 (W ++ d) a off) as Htx1.
  { split; try done.
    - by eapply (ready_step n n1 t t1).
    - rewrite length_app. lia.
    - exists (copy_in tx_index tail d buf). unfold TCP_TX_BUF_SIZE. rewrite length_drop, length_app. split_and!; [done|simpl; lia|lia|].
      rewrite drop_app_le by lia. simpl. rewrite (copy_in_mod tx_index 65536 ltac:(done) tx_size_divides tx_index_spec d tail (c_tx_head t + Z.of_nat (length (drop (Z.to_nat a) W)))).
      + apply (holds_copy_in tx_index 65536); [done|by apply tx_size_divides|apply tx_index_spec|done|]. rewrite length_drop. lia.
      + unfold tail. rewrite Z.mod_mod by lia. rewrite (u32_mod tx_index 65536 ltac:(done) tx_size_divides tx_index_spec). rewrite length_drop. f_equal. lia.
    - rewrite length_app. lia. }
  apply wp_bind. eapply wp_mono; [by apply (tcp_output_spec n1 sc t1 (W ++ d) a off)|].
  intros [] s' (Hsc' & So' & t' & ps & frames & Htx' & K' & Hs' & Hgood & Hcut & Hfr). apply wp_ret. split; [done|]. split; [by eapply sent_only_trans|]. split; [done|].
  exists t', ps, frames. fold d. split_and!; try done. unfold conn_id. by rewrite K'.
Qed.

(** Events change the owner's entry only. *)
Lemma tcp_notify_spec n sc t : ready n t → c_state t = TCP_ESTABLISHED ∨ c_state t = TCP_CLOSE_WAIT → SchedClient.consistent sc →
  wp (tcp_notify c) (n, sc) (λ _ s', SchedClient.consistent s'.2 ∧ ∃ l, s'.1 = with_sockets (λ _, l) n ∧ length l = length (sockets n)).
Proof.
  intros [_ _ Ht Ho] Hst Hsc.
  assert (∀ s' : state, SchedClient.consistent s'.2 → s'.1 = n → SchedClient.consistent s'.2 ∧ ∃ l, s'.1 = with_sockets (λ _, l) n ∧ length l = length (sockets n)) as Hsame.
  { intros s' ? ->. split; [done|]. exists (sockets n). by destruct n. }
  unfold tcp_notify. apply wp_bind. eapply wp_deref; [exact Ht|]. destruct (c_owner t) as [i|] eqn:Eo; [|apply wp_ret; by apply Hsame].
  destruct (c_callbacks t); [|apply wp_ret; by apply Hsame]. unfold sock_tcp_on_event. apply wp_bind. eapply wp_deref; [exact Ht|]. rewrite Eo.
  destruct (Ho i eq_refl) as [e He]. apply wp_bind. eapply wp_deref; [exact He|]. apply wp_bind.
  apply (wp_mono _ _ (λ _ s', s'.2 = sc ∧ ∃ l, s'.1 = with_sockets (λ _, l) n ∧ length l = length (sockets n))).
  { assert (wp (mret tt) (n, sc) (λ (_ : unit) (s' : state), s'.2 = sc ∧ ∃ l, s'.1 = with_sockets (λ _, l) n ∧ length l = length (sockets n))) as Hm.
    { apply wp_ret. split; [done|]. exists (sockets n). by destruct n. }
    destruct Hst as [-> | ->]; [|done]. case_bool_decide; [|done]. apply wp_nset. split; [done|]. eexists. split; [reflexivity|]. by rewrite length_alter. }
  intros [] [n1 sc1] (Hsc1 & l & Hn1 & Hl). cbn [fst snd] in *. subst sc1 n1. apply wp_bind.
  apply (wp_mono _ _ (λ _ s', s'.2 = sc ∧ ∃ l, s'.1 = with_sockets (λ _, l) n ∧ length l = length (sockets n))).
  { destruct (c_peer_fin t); [|by apply wp_ret; eauto]. apply wp_nset. split; [done|]. eexists. split; [reflexivity|]. simpl. by rewrite length_alter. }
  intros [] [n1 sc1] (Hsc1 & l1 & Hn1 & Hl1). cbn [fst snd] in *. subst sc1 n1. apply wp_lift_r. eapply wp_mono; [by apply SchedClient.io_wake_all_law|].
  intros [] sc' (? & _). split; [done|]. by exists l1.
Qed.

(** Reading a 32-bit difference back. *)
Lemma i32_pos x : 0 < i32 x → 0 < u32 x < 2 ^ 31 ∧ i32 x = u32 x.
Proof. unfold sign. change (32 - 1) with 31. pose proof (wrap_range 32 x). destruct (Z.ltb_spec (u32 x) (2 ^ 31)); lia. Qed.

Lemma i32_small x : - 2 ^ 31 ≤ x < 2 ^ 31 → i32 x = x.
Proof.
  intros H. unfold sign, wrap. change (32 - 1) with 31. change (2 ^ 32) with 4294967296. change (2 ^ 31) with 2147483648 in *.
  destruct (Z.ltb_spec (x mod 4294967296) 2147483648); Z.div_mod_to_equations; lia.
Qed.

Lemma i32_u32 x y : u32 x = u32 y → i32 x = i32 y.
Proof. unfold sign. by intros ->. Qed.

(** An acceptable acknowledgement covers 1 to [len] bytes. *)
Lemma ack_window una len ack : 0 ≤ ack < 2 ^ 32 → 0 ≤ len ≤ 65536 → SEQ_GT ack una = true → SEQ_LEQ ack (u32 (una + len)) = true →
  ∃ k, 0 < k ≤ len ∧ u32 (ack - una) = k ∧ ack = u32 (una + k).
Proof.
  unfold SEQ_GT, SEQ_LEQ. rewrite Z.ltb_lt, Z.leb_le. intros Hack Hlen H1 H2. apply i32_pos in H1 as [H1 _]. set (k := u32 (ack - una)) in *. exists k.
  assert (ack = u32 (una + k)) as Ha. { unfold k. rewrite Z.add_comm, wrap_add_l. replace (_ - _ + _) with ack by lia. by rewrite wrap_small. }
  split; [|done]. split; [lia|]. rewrite (i32_u32 _ (k - len)), i32_small in H2 by (lia || (unfold wrap; rewrite Zminus_mod_idemp_r; rewrite Ha; unfold wrap; rewrite Zminus_mod_idemp_l; f_equal; lia)). lia.
Qed.

Lemma tcp_process_ack_spec n sc t W a off ack wnd : tx n t W a off → SchedClient.consistent sc → 0 ≤ ack < 2 ^ 32 → 0 ≤ wnd →
  wp (tcp_process_ack c ack wnd) (n, sc) (λ r s', r = false ∧ SchedClient.consistent s'.2 ∧ sent s'.1 = sent n ∧ ∃ t' k, 0 ≤ k ≤ Z.of_nat (length W) - a ∧
    (ack = u32 (S + a + k) ∨ k = 0) ∧ conn_id t' = conn_id t ∧ tx s'.1 t' W (a + k) (Z.max 0 (off - k))).
Proof.
  intros Htx Hsc Hack Hwnd. pose proof Htx as [Hrd Hact Hst [Hf1 Hf2] Ha (buf & Hbuf & Htl & Hsz & Hh) Hu Hn Ho Hw Hmss Harm].
  unfold TCP_TX_BUF_SIZE in *. rewrite length_drop in Htl, Hsz. replace (Z.of_nat (length W - Z.to_nat a)) with (Z.of_nat (length W) - a) in * by lia.
  set (len := Z.of_nat (length W) - a) in *. unfold tcp_process_ack. apply wp_bind. eapply wp_deref; [apply Hrd|]. rewrite Hf2, Htl, Z.add_0_r.
  destruct (SEQ_GT ack (c_snd_una t) && SEQ_LEQ ack (u32 (c_snd_una t + len))) eqn:Eack.
  - apply andb_true_iff in Eack as [E1 E2]. destruct (ack_window (c_snd_una t) len ack Hack) as (k & Hk & Ek & Ea); [lia|done|done|].
    rewrite Ek. rewrite (proj2 (Z.ltb_ge _ _)) by lia. rewrite Hu, wrap_add_l in Ea.
    set (off' := Z.max 0 (off - k)).
    apply wp_bind. apply wp_bind, wp_nset. apply wp_bind, wp_nset. apply wp_bind, wp_nset. apply wp_bind, wp_nset. apply wp_bind, wp_nset. apply wp_bind, wp_nset.
    set (n1 := with_tcp_sockets _ (with_tcp_sockets _ _)).
    set (t1 := set_c_rto_ms (λ _, TCP_INITIAL_RTO_MS) (set_c_retries (λ _, 0) (set_c_snd_nxt (λ _, u32 (S + a + k + off'))
      (set_c_snd_una (λ _, ack) (set_c_tx_len (λ n, u32 (n - k)) (set_c_tx_head (λ h, u32 (h + k) mod 65536) t)))))).
    assert (tcp_sockets n1 !! c = Some t1) as Ht1.
    { unfold n1. simpl. rewrite !list_lookup_alter_eq, (r_tcb _ _ Hrd). simpl. unfold t1. f_equal. do 2 f_equal. unfold SEQ_LT. rewrite Hn, Ea.
      rewrite (i32_u32 _ (off - k)) by (unfold wrap; rewrite <-Zminus_mod; f_equal; lia). rewrite i32_small by lia.
      destruct (Z.ltb_spec (off - k) 0); unfold off'; destruct t; simpl in *; unfold set_c_snd_nxt; simpl.
      - rewrite Z.max_l, Z.add_0_r by lia. done.
      - rewrite Z.max_r by lia. rewrite Hn. replace (S + a + k + (off - k)) with (S + a + off) by lia. done. }
    apply wp_bind. eapply wp_deref; [exact Ht1|].
    assert (sent_only n n1) as So1 by (split; simpl; try done; intros c' Hc; by rewrite !list_lookup_alter_ne).
    apply wp_bind.
    apply (wp_mono _ _ (λ _ s', s'.2 = sc ∧ sent_only n s'.1 ∧ sent s'.1 = sent n ∧
      ∃ t2, tcp_sockets s'.1 !! c = Some t2 ∧ tcb_sent t1 t2 ∧ (0 < off' → c_rtx_armed t2 = true) ∧ c_snd_nxt t2 = c_snd_nxt t1 ∧ c_fin_sent t2 = c_fin_sent t1)).
    { destruct (_ && _) eqn:E.
      - apply wp_nset. split; [done|]. split; [eapply sent_only_trans; [exact So1|apply sent_only_store]|]. split; [done|].
        eexists. simpl. rewrite list_lookup_alter_eq. change (alter _ _ _ !! c) with (tcp_sockets n1 !! c). rewrite Ht1. split; [done|]. split; [done|]. split; [|done].
        intros Hpos. exfalso. apply andb_true_iff in E as [E%Z.eqb_eq _]. simpl in E. rewrite Ea in E. unfold off' in *. unfold wrap in E.
        change (2 ^ 32) with 4294967296 in E. Z.div_mod_to_equations. lia.
      - eapply wp_mono; [by apply (tcp_arm_rtx_spec n1 sc t1)|]. intros [] s' (? & ? & ? & t2 & ? & ? & ? & ? & ?). split; [done|]. split; [by eapply sent_only_trans|]. split; [done|].
        exists t2. split_and!; try done. }
    intros [] [n2 sc2] (Hsc2 & So2 & Hs2 & t2 & Ht2 & K2 & Harm2 & Hn2 & Hf2'). cbn [fst snd] in *. subst sc2. apply wp_bind, wp_nset.
    set (t3 := set_c_snd_wnd (λ _, wnd) t2). set (n3 := with_tcp_sockets _ n2). assert (tcp_sockets n3 !! c = Some t3) as Ht3 by (unfold n3; simpl; by rewrite list_lookup_alter_eq, Ht2).
    assert (sent_only n n3) as So3. { eapply sent_only_trans; [exact So2|apply sent_only_store]. }
    assert (tx n3 t3 W (a + k) off') as Htx3.
    { assert (c_tx_buf t3 = c_tx_buf t ∧ c_tx_head t3 = u32 (c_tx_head t + k) mod 65536 ∧ c_tx_len t3 = u32 (c_tx_len t - k) ∧ c_snd_una t3 = ack) as (F1 & F2 & F3 & F4) by (unfold t3; simpl; rewrite K2; done).
      split; try done; try (unfold t3; simpl; rewrite K2; done).
      - apply (ready_step n n3 t t3); try done; unfold t3; simpl; by rewrite K2.
      - unfold t3; simpl. split; [by rewrite K2|by rewrite Hf2'].
      - lia.
      - exists buf. rewrite F1, F2, F3. unfold TCP_TX_BUF_SIZE. rewrite length_drop. split_and!; [done|rewrite Htl, wrap_small; lia|lia|].
        apply (holds_mod tx_index 65536 ltac:(done) tx_size_divides tx_index_spec). apply (holds_u32 tx_index 65536 tx_index_spec).
        replace (c_tx_head t + k) with (c_tx_head t + Z.of_nat (Z.to_nat k)) by lia. replace (Z.to_nat (a + k)) with (Z.to_nat a + Z.to_nat k)%nat by lia.
        rewrite <-drop_drop. apply holds_drop; [done|]. rewrite length_drop. lia.
      - rewrite F4, Ea. f_equal. lia.
      - unfold t3. simpl. rewrite Hn2. simpl. f_equal. lia.
      - unfold off'. lia. }
    eapply wp_mono; [apply (tcp_notify_spec n3 sc t3); [apply Htx3|apply Htx3|done]|]. intros [] [n4 sc4] (Hsc4 & l & Hn4 & Hl). cbn [fst snd] in *. subst n4.
    apply wp_bind. eapply wp_deref; [exact Ht3|]. apply wp_ret. destruct (t_fin _ _ _ _ _ Htx3) as [_ ->]. split; [done|]. split; [done|]. split; [done|].
    exists t3, k. split; [lia|]. split; [by left|]. split; [unfold conn_id, t3; simpl; by rewrite K2|]. destruct Htx3 as [[R1 R2 R3 R4] ? ? ? ? ? ? ? ? ? ? ?]. split; try done.
    split; try done; [by destruct R1|]. intros i Hi. simpl. apply lookup_lt_is_Some. rewrite Hl. apply lookup_lt_is_Some. by apply R4.
  - apply wp_bind. assert (∀ n', sent_only n n' → sent n' = sent n → ∀ t', tcp_sockets n' !! c = Some t' → tx n' t' W a off → conn_id t' = conn_id t →
      wp (s' ← tcb_load c; mret (c_fin_sent s' && (c_tx_len s' =? 0) && (c_snd_una s' =? c_snd_nxt s'))) (n', sc) (λ r s', r = false ∧ SchedClient.consistent s'.2 ∧ sent s'.1 = sent n ∧
        ∃ t' k, 0 ≤ k ≤ len ∧ (ack = u32 (S + a + k) ∨ k = 0) ∧ conn_id t' = conn_id t ∧ tx s'.1 t' W (a + k) (Z.max 0 (off - k)))) as Hend.
    { intros n' So Hs t' Ht' Htx' Hid. apply wp_bind. eapply wp_deref; [exact Ht'|]. apply wp_ret. destruct (t_fin _ _ _ _ _ Htx') as [_ ->]. split_and!; try done.
      exists t', 0. rewrite !Z.add_0_r, Z.sub_0_r, Z.max_r by lia. split; [lia|]. split; [by right|]. done. }
    destruct (ack =? c_snd_una t).
    + apply wp_nset. set (n1 := with_tcp_sockets _ n). assert (tcp_sockets n1 !! c = Some (set_c_snd_wnd (λ _, wnd) t)) as Ht1 by (simpl; by rewrite list_lookup_alter_eq, (r_tcb _ _ Hrd)).
      apply (Hend n1 (sent_only_store _ _) eq_refl _ Ht1); [|done]. destruct Htx. split; try done. by apply (ready_step n n1 t); [|apply sent_only_store|..].
    + apply wp_ret. apply (Hend n (sent_only_refl n) eq_refl t); [apply Hrd|done|done].
Qed.

(** Timer fields do not matter to the stream. *)
Lemma tx_timer n t W a off g : tx n t W a off →
  (∀ t, ∃ r p x d y z, g t = set_c_retries r (set_c_rtx_armed p (set_c_rto_ms x (set_c_rtx_deadline_ms d (set_c_snd_nxt y (set_c_peer_fin z t)))))
     ∧ c_snd_nxt (g t) = c_snd_nxt t ∧ (c_rtx_armed t = true → c_rtx_armed (g t) = true)) →
  tx (with_tcp_sockets (alter g c) n) (g t) W a off.
Proof.
  intros [Hrd Hact Hst Hfin Ha Hring Hu Hn Ho Hw Hmss Harm] Hg. destruct (Hg t) as (r & p & x & d & y & z & E & En & Ea).
  split; try done; try (rewrite E; done).
  - apply (ready_step n _ t); [done|apply sent_only_store|simpl; by rewrite list_lookup_alter_eq, (r_tcb _ _ Hrd)|by rewrite E|by rewrite E].
  - by rewrite En.
  - intros Hpos. by apply Ea, Harm.
Qed.

Lemma rearm_spec n sc t W a off now : tx n t W a off →
  wp (rearm c now) (n, sc) (λ _ s', s'.2 = sc ∧ sent s'.1 = sent n ∧ ∃ t', conn_id t' = conn_id t ∧ tx s'.1 t' W a off).
Proof.
  intros Htx. unfold rearm. apply wp_bind, wp_nset, wp_nset. split; [done|]. split; [done|]. eexists. split; [|eapply tx_timer; [eapply tx_timer; [exact Htx|]|]].
  - done.
  - intros [] . by eexists id, id, _, id, id, id.
  - intros []. by eexists id, id, id, _, id, id.
Qed.

Lemma tcp_timeout_spec n sc t W a off now : tx n t W a off → c_rtx_armed t = true → c_retries t < TCP_MAX_RETRIES →
  wp (tcp_timeout poll c now) (n, sc) (λ _ s', s'.2 = sc ∧ ∃ t' off' frames, conn_id t' = conn_id t ∧ tx s'.1 t' W a off' ∧
    sent s'.1 = sent n ++ frames ∧ Forall (good_frame t W) frames ∧
    off' = Z.min (Z.of_nat (length W) - a) (if (off =? 0) && (c_snd_wnd t =? 0) then 1 else c_snd_wnd t)).
Proof.
  intros Htx Harmed Hretry. pose proof Htx as [Hrd Hact Hst [Hf1 Hf2] Ha Hring Hu Hn Ho Hw Hmss Harm]. unfold tcp_timeout. apply wp_bind. eapply wp_deref; [apply Hrd|].
  rewrite bool_decide_eq_false_2 by (destruct Hst as [-> | ->]; done). pose proof Hring as (buf & Hbuf & Htl & Hsz & _). rewrite length_drop in Htl, Hsz. unfold TCP_TX_BUF_SIZE in *.
  assert ((c_snd_nxt t =? c_snd_una t) = (off =? 0)) as ->.
  { rewrite Hn, Hu. unfold wrap. change (2 ^ 32) with 4294967296. destruct (Z.eqb_spec off 0) as [->|Hne]; [rewrite Z.add_0_r; apply Z.eqb_refl|].
    apply Z.eqb_neq. intros E. Z.div_mod_to_equations. lia. }
  destruct ((off =? 0) && (c_snd_wnd t =? 0) && (0 <? c_tx_len t)) eqn:E.
  - apply andb_true_iff in E as [[E1%Z.eqb_eq E2%Z.eqb_eq]%andb_true_iff E3%Z.ltb_lt]. subst off. rewrite E2. cbn [andb Z.eqb]. rewrite Htl in E3.
    apply wp_bind. eapply wp_mono; [apply (tcp_xmit_spec n sc t _ TCP_ACK 0 1 (range (drop (Z.to_nat a) W) 0 1) Hrd)|].
    { done. } { unfold TCP_MAX_SEG_PAYLOAD. lia. } { apply (tx_bytes_spec t _ 0 1 Hring); rewrite ?length_drop; lia. } { rewrite length_range; rewrite ?length_drop; lia. }
    intros [] [n1 sc1] (Hsc1 & So1 & _ & wnd & frame & Ht1 & Hs1 & Hfr). cbn [fst snd] in *. subst sc1. apply wp_bind, wp_nset.
    set (n2 := with_tcp_sockets _ n1). assert (tx n2 (set_c_snd_nxt (λ x, u32 (x + 1)) (set_c_last_adv_wnd (λ _, wnd) t)) W a 1) as Htx2.
    { apply (tx_sent n n2 t _ W a 0 1 Htx); [eapply sent_only_trans; [exact So1|apply sent_only_store]| | | | | |].
      - simpl. by rewrite list_lookup_alter_eq, Ht1.
      - by destruct t.
      - done.
      - simpl. rewrite Hn, wrap_add_l. f_equal. lia.
      - lia.
      - by intros _. }
    eapply wp_mono; [apply (rearm_spec n2 sc _ W a 1 now Htx2)|]. intros [] s' (Hsc' & Hs' & t' & Hid & Htx'). split; [done|]. exists t', 1, [frame]. split_and!; try done.
    + rewrite Hs'. simpl. done.
    + constructor; [|constructor]. exists a, TCP_ACK, (range (drop (Z.to_nat a) W) 0 1).
      assert (Z.of_nat (length (range (drop (Z.to_nat a) W) 0 1)) = 1) as Hl1 by (rewrite length_range; rewrite ?length_drop; lia). rewrite Hl1. split_and!; [lia|lia| |].
      * rewrite range_drop by lia. f_equal. lia.
      * rewrite Hn, Z.add_0_r in Hfr. done.
    + lia.
  - rewrite (proj2 (Z.leb_gt _ _)) by done. apply wp_bind, wp_nset. apply wp_bind, wp_nset.
    set (n1 := with_tcp_sockets _ (with_tcp_sockets _ n)). set (t1 := set_c_rtx_armed (λ _, false) (set_c_snd_nxt (λ _, c_snd_una t) t)).
    assert (tx n1 t1 W a 0) as Htx1.
    { apply (tx_sent n n1 t t1 W a off 0 Htx); [eapply sent_only_trans; apply sent_only_store| |by destruct t|done| |lia|lia].
      - simpl. by rewrite !list_lookup_alter_eq, (r_tcb _ _ Hrd).
      - simpl. rewrite Hu. f_equal. lia. }
    apply wp_bind. eapply wp_mono; [by apply (tcp_output_spec n1 sc t1 W a 0)|]. intros [] [n2 sc2] (Hsc2 & So2 & t2 & ps & frames & Htx2 & K2 & Hs2 & Hgood & _).
    cbn [fst snd] in *. subst sc2. change (c_snd_wnd t1) with (c_snd_wnd t) in Htx2. unfold timeout_again. apply wp_bind, wp_nset. apply wp_bind, wp_nset.
    set (n3 := with_tcp_sockets _ (with_tcp_sockets _ n2)).
    assert (tx n3 (set_c_rtx_armed (λ _, true) (set_c_retries (λ n, u8 (n + 1)) t2)) W a (Z.max 0 (Z.min (Z.of_nat (length W) - a) (c_snd_wnd t)))) as Htx3.
    { unfold n3. eapply tx_timer; [eapply tx_timer; [exact Htx2|]|].
      - intros []. by eexists _, id, id, id, id, id.
      - intros []. by eexists id, _, id, id, id, id. }
    eapply wp_mono; [apply (rearm_spec n3 sc _ W a _ now Htx3)|]. intros [] s' (Hsc' & Hs' & t' & Hid & Htx'). split; [done|]. eexists t', _, frames. split_and!; [|exact Htx'|..].
    + rewrite Hid. unfold conn_id. simpl. by rewrite K2.
    + rewrite Hs'. exact Hs2.
    + eapply Forall_impl; [exact Hgood|]. intros x. by apply good_frame_id.
    + rewrite Z.max_r by lia. destruct (Z.eqb_spec off 0), (Z.eqb_spec (c_snd_wnd t) 0); cbn [andb] in *; try done. apply Z.ltb_ge in E. lia.
Qed.

(** ** Runs *)

(** [wr]: bytes taken from the application; [frames]: what this connection sent.
    Other code leaves the connection and the way to the peer alone. *)
Inductive tx_step : state → list Z → list (list Z) → state → Prop :=
| tx_write data k n sc s' frames : tcp_write poll (Some c) data (n, sc) = Ret (k, s') → sent s'.1 = sent n ++ frames →
    tx_step (n, sc) (take (Z.to_nat k) data) frames s'
| tx_ack ack wnd r n sc s' : 0 ≤ ack < 2 ^ 32 → 0 ≤ wnd → tcp_process_ack c ack wnd (n, sc) = Ret (r, s') → tx_step (n, sc) [] [] s'
| tx_timeout now t n sc s' frames : tcp_sockets n !! c = Some t → c_rtx_armed t = true → c_retries t < TCP_MAX_RETRIES →
    tcp_timeout poll c now (n, sc) = Ret (tt, s') → sent s'.1 = sent n ++ frames → tx_step (n, sc) [] frames s'
| tx_other n sc n' sc' : (∀ t, ready n t → ready n' t) → SchedClient.consistent sc' → tx_step (n, sc) [] [] (n', sc').

Inductive tx_run (s0 : state) : list Z → list (list Z) → state → Prop :=
| tx_start : tx_run s0 [] [] s0
| tx_more W frames s wr frames' s' : tx_run s0 W frames s → tx_step s wr frames' s' → tx_run s0 (W ++ wr) (frames ++ frames') s'.

Lemma tx_run_inv s0 W frames s t0 : tx_run s0 W frames s → tx s0.1 t0 [] 0 0 → SchedClient.consistent s0.2 →
  SchedClient.consistent s.2 ∧ Forall (good_frame t0 W) frames ∧ ∃ t a off, tx s.1 t W a off ∧ conn_id t = conn_id t0.
Proof.
  intros Hrun Htx0 Hsc0. induction Hrun as [|W frames s wr frames' s' Hrun (Hsc & Hgood & t & a & off & Htx & Hid) Hstep].
  - split_and!; try done. by exists t0, 0, 0.
  - assert (Forall (good_frame t0 (W ++ wr)) frames) as Hold by (eapply Forall_impl; [exact Hgood|]; intros x; apply good_frame_more).
    destruct Hstep as [data k n sc s' frames' Hs' Hsent|ack wnd r n sc s' Hack Hwnd Hs'|now t' n sc s' frames' Ht' Harmed Hretry Hs' Hsent|n sc n' sc' Hrd Hsc']; simpl in *.
    + destruct (wp_Ret _ _ _ _ _ (tcp_write_spec n sc t W a off data Htx) Hs') as (Hsc' & _ & _ & t1 & ps & frs & Htx1 & Hid1 & Hs1 & Hg1 & _).
      rewrite Hsent in Hs1. apply app_inv_head in Hs1 as ->. split; [congruence|]. split.
      * apply Forall_app. split; [done|]. eapply Forall_impl; [exact Hg1|]. intros x. by apply good_frame_id.
      * eexists t1, a, _. split; [exact Htx1|congruence].
    + destruct (wp_Ret _ _ _ _ _ (tcp_process_ack_spec n sc t W a off ack wnd Htx Hsc Hack Hwnd) Hs') as (_ & Hsc' & Hs1 & t1 & k & _ & _ & Hid1 & Htx1).
      rewrite !app_nil_r in *. split_and!; try done. eexists t1, _, _. split; [exact Htx1|congruence].
    + rewrite (r_tcb _ _ (t_ready _ _ _ _ _ Htx)) in Ht'. injection Ht' as <-. rewrite !app_nil_r in *.
      destruct (wp_Ret _ _ _ _ _ (tcp_timeout_spec n sc t W a off now Htx Harmed Hretry) Hs') as (Hsc' & t1 & off1 & frs & Hid1 & Htx1 & Hs1 & Hg1 & _).
      rewrite Hsent in Hs1. apply app_inv_head in Hs1 as ->. split; [congruence|]. split.
      * apply Forall_app. split; [done|]. eapply Forall_impl; [exact Hg1|]. intros x. by apply good_frame_id.
      * exists t1, a, off1. split; [done|congruence].
    + rewrite !app_nil_r. split_and!; try done. exists t, a, off. split; [|done]. destruct Htx. split; try done. by apply Hrd.
Qed.

End Stream.

End Send.

(** C29. TCP sends the written stream.  Over every sequence of writes,
    acknowledgements (any numbers), timeouts and other code: each frame the
    connection has put on the wire is a segment whose bytes are those of the
    written stream at its sequence number; and the next write takes as much as
    the send buffer has room for and sends, in order, in segments of at most
    the peer's segment size, everything the peer's window admits and that is
    not under way yet, with the retransmission timer armed whenever something
    is. *)
Theorem tcp_send_correct poll c f mac S s0 t0 W frames s : tx c f mac S s0.1 t0 [] 0 0 → SchedClient.consistent s0.2 →
  tx_run poll c f mac s0 W frames s →
  Forall (good_frame f mac S t0 W) frames ∧ ∃ t a off, tx c f mac S s.1 t W a off ∧
    ∀ data, wp (tcp_write poll (Some c) data) s (λ k s', k = Z.min (Z.of_nat (length data)) (TCP_TX_BUF_SIZE - (Z.of_nat (length W) - a)) ∧
      ∃ t' ps new, let W' := W ++ take (Z.to_nat k) data in
        let off' := Z.max off (Z.min (Z.of_nat (length W') - a) (c_snd_wnd t)) in
        tx c f mac S s'.1 t' W' a off' ∧ sent s'.1 = sent s.1 ++ new ∧
        cut (effective_mss t) off (range (drop (Z.to_nat a) W') off off') ps ∧ Forall2 (data_frame f mac t) ps new).
Proof.
  intros Htx0 Hsc0 Hrun. destruct (tx_run_inv poll c f mac S s0 W frames s t0 Hrun Htx0 Hsc0) as (_ & Hgood & t & a & off & Htx & _).
  split; [done|]. exists t, a, off. split; [done|]. intros data. destruct s as [n sc].
  eapply wp_mono; [by apply (tcp_write_spec poll c f mac S n sc t W a off data)|].
  intros k s' (_ & _ & Hk & t' & ps & new & Htx' & _ & Hs' & _ & Hcut & Hfr). split; [done|]. by exists t', ps, new.
Qed.

(** Three bytes are written and, without an answer, sent again. *)
Definition demo_if : net_interface := mk_if [101; 116; 104; 48] [2; 0; 0; 0; 0; 15] 0x0A00020F 0xFFFFFF00 0x0A000202 true.
Definition demo_mac : list Z := [82; 85; 10; 0; 2; 2].
Definition demo_tcb : tcp_socket :=
  mk_tcp true 0x0A000202 49152 80 TCP_ESTABLISHED TCP_ERR_NONE 500 500 1000 1460 (Some ∅) 0 0 false false 400 0 false 0
    1000 0 false (replicate 16 None) 0 false None.
Definition demo_net : net :=
  mk_net [demo_if] [mk_arp 0x0A000202 demo_mac true] [] [] 32768 [demo_tcb] 49153 1 0 [] false false false 0 [] true 0 [] [].
Definition demo_0 : state := (demo_net, SchedSpec.SchedSpec.demo).
Definition demo_1 : state := exec (tcp_write (mret tt) (Some 0%nat) [7; 8; 9]) demo_0.
Definition demo_2 : state := exec (tcp_timeout (mret tt) 0 400) demo_1.

Lemma demo_tx : tx 0 demo_if demo_mac 500 demo_net demo_tcb [] 0 0.
Proof.
  split; try reflexivity; try lia; try (by left); try (simpl; lia).
  - split; [split; reflexivity || (simpl; lia)|reflexivity|reflexivity|done].
  - exists ∅. split_and!; done.
Qed.

Lemma demo_tx_run : tx_run (mret tt) 0 demo_if demo_mac demo_0 [7; 8; 9] (sent demo_2.1) demo_2.
Proof.
  assert (tcp_write (mret tt) (Some 0%nat) [7; 8; 9] demo_0 = Ret (3, demo_1)) as E1 by (vm_compute; reflexivity).
  assert (tcp_timeout (mret tt) 0 400 demo_1 = Ret (tt, demo_2)) as E2 by (vm_compute; reflexivity).
  assert (sent demo_2.1 = sent demo_1.1 ++ drop 1 (sent demo_2.1)) as E3 by (vm_compute; reflexivity).
  assert (∃ t, tcp_sockets demo_1.1 !! 0%nat = Some t ∧ c_rtx_armed t = true ∧ c_retries t < TCP_MAX_RETRIES) as (t & Ht & Ha & Hr).
  { eexists. split; [vm_compute; reflexivity|]. split; reflexivity. }
  rewrite E3. change [7; 8; 9] with (([] ++ take (Z.to_nat 3) [7; 8; 9]) ++ []). change (sent demo_1.1) with ([] ++ sent demo_1.1).
  revert E1 E2 E3 Ht. generalize (drop 1 (sent demo_2.1)). generalize demo_2. generalize demo_1. intros [n1 sc1] s2 fr E1 E2 E3 Ht. simpl in *.
  exact (tx_more (mret tt) 0 demo_if demo_mac demo_0 _ _ (n1, sc1) [] fr s2
    (tx_more (mret tt) 0 demo_if demo_mac demo_0 [] [] demo_0 _ (sent n1) (n1, sc1) (tx_start _ _ _ _ _)
      (tx_write (mret tt) 0 demo_if demo_mac [7; 8; 9] 3 demo_net _ (n1, sc1) (sent n1) E1 eq_refl))
    (tx_timeout (mret tt) 0 demo_if demo_mac 400 t n1 sc1 s2 fr Ht Ha Hr E2 E3)).
Qed.

Lemma tcp_send_correct_witness : length (sent demo_2.1) = 2%nat ∧ Forall (good_frame demo_if demo_mac 500 demo_tcb [7; 8; 9]) (sent demo_2.1).
Proof.
  split; [vm_compute; reflexivity|].
  exact (proj1 (tcp_send_correct (mret tt) 0 demo_if demo_mac 500 demo_0 demo_tcb [7; 8; 9] _ demo_2 demo_tx SchedClient.demo_consistent demo_tx_run)).
Defined.

End TcpTx.
